(* ===== verification/_CoqProject ===== *)
-Q . S2P
Prelude.v
Js.v
Regex.v
Lru.v
Doubles.v
Resume.v
UnionFind.v
Json.v
PolicyTypes.v
PolicyEngine.v
PolicySpec.v
PolicyRows.v
PolicyResolver.v
PolicyStore.v
PolicyGate.v
ScopeTags.v
FactSlots.v
FactSettle.v
FactLaws.v
FactPolicy.v
EdgeWriter.v
EdgeSupport.v
EventTime.v
RevisionClosure.v
Names.v
Relatives.v
DocumentMeta.v
DocumentText.v
DocumentStore.v
EpisodeStore.v
EntityGraph.v
EntityMerge.v
EntityResolver.v
EntityLadder.v
FactResolver.v
FactTimeline.v
FactWrites.v
TenantScope.v
LeaderLease.v
JobQueue.v
CandidateMerge.v
RunLedger.v
Grounding.v
SceneProjection.v
CommitWriter.v
CommitMemory.v
CommitCases.v
IndexerWork.v
ExternalCandidates.v
ExtractionGroup.v
IndexerRun.v
ExtractionPass.v
PassMemory.v
Routing.v
DocumentFlow.v
DocumentSweep.v
Idempotency.v
Breaker.v
TenantBudget.v
Locks.v
SupportEdges.v
BatchOutcome.v
ProvenanceClosure.v
AnswerEvidence.v
AnswerCache.v
AnswerCacheKeys.v
Dispatcher.v
Poller.v
WorkerLoop.v
