(* ===== verification/Prelude.v ===== *)
(** * The INITE Brain service: a verification library

    The service keeps the long-term memory of a tenant's assistants: facts, entities,
    relations, documents and episodes in SurrealDB, behind HTTP and MCP. The library
    models the parts that decide: who may do and read what, which of several competing
    workers or requests proceeds, how extracted candidates become one memory, which of
    several values of a fact is current, what a served answer rests on, and how model
    spend is bounded. File names below are under [src/src/] unless they say
    otherwise.

    ** The parts and how they interact

    A request enters through an authenticated credential. [TenantScope] says which
    tenant and user it may address; [PolicyResolver] turns the tenant's policy tables
    into the request's policy context; [PolicyGate] refuses the route or lets it
    through; [Idempotency] makes a retried write run once. What a handler reads passes
    [PolicyRows] (the row filter and its database half) and [ScopeTags] (the scope
    fence); what it writes carries the tags [ScopeTags] derives. Background work is a
    row of [JobQueue]: the pod that leads ([WorkerLoop], under a [LeaderLease]) polls the
    tenants ([Poller]) and runs what it claims ([Dispatcher]). A document is stored
    ([DocumentStore]), cut ([DocumentText]) and read into staged candidates ([RunLedger]),
    at once or by jobs ([DocumentFlow]) and passes ([ExtractionPass]).
    Committing it ([CommitMemory], [CommitWriter]) folds them with [CandidateMerge], names
    the entities ([EntityLadder]) and writes the relations ([EdgeWriter]); each fact is
    resolved ([FactPolicy], [FactResolver]) and settled in its slot by the datastore
    ([FactSlots], [FactSettle]); what a revision no longer says is closed
    ([RevisionClosure]); provenance goes to [SupportEdges], the report is a
    [BatchOutcome]. A question is answered from [AnswerCache] while everything the stored
    answer rests on still holds; why a fact is believed is read off by
    [ProvenanceClosure]. Calls to a model provider go through [Breaker], [TenantBudget]
    and [Locks].

    ** Files, and the sources they model

    - [Prelude]: results of fallible code, the exceptions the services throw,
      insertion-ordered maps ([Map] and plain objects used as maps), bounded loops, list
      lemmas, the tactics of the development.
    - [Js]: dynamic values ([unknown]), property access with the inherited members of
      [Object.prototype], string operations. [Doubles]: the order of IEEE doubles.
      [Regex]: the validators' regular expressions, matched by derivatives, with the
      proof that the matcher decides the language. [Json]: [JSON.stringify] and the
      canonical text of idempotency/idempotency.interceptor.ts.
    - [Resume]: a service call as a resumption over shared state. [run] executes one
      call alone; [run_pool sched] interleaves the statements of many calls in the
      order [sched] names, one statement per turn. The invariant rules used by every
      concurrent theorem are proved here once.
    - [Lru]: common/lru-cache.ts, the cache the resolver and the compiler keep.
    - [PolicyTypes]: policy/policy.types.ts and policy/action-registry.ts: documents,
      the attribute vocabulary, the schema refinements, the action namespace.
    - [PolicyEngine]: policy/policy-compile.ts and policy/policy-engine.ts: compilation
      to matchers, [evaluateAction], [evaluateRow], [explainRow].
    - [PolicySpec]: the meaning of a document, read off the document itself, and the
      refinement theorems of the engine against it.
    - [PolicyRows]: policy/row-filter.ts and policy/db-fence.ts with the stored function
      [fn::policy_row_denied] (db/migrations/0057).
    - [PolicyResolver]: policy/policy-resolver.service.ts: the cached snapshot, the
      version check, the request context.
    - [PolicyStore]: policy/policy-store.service.ts: list, get, create, update, remove,
      attachments, as resumptions over the tenant's tables and cache.
    - [PolicyGate]: policy/policy-gate.service.ts and policy/policy-decision.sink.ts.
    - [ScopeTags]: auth/scope-tags.ts, circle-scope.ts, write-scope.ts,
      scope-principal.ts, scope-visibility.ts. The asynchronous request and job
      contexts are the record [Ambient].
    - [TenantScope]: auth/user-scope.ts, tenant-scope.ts, segment-scope.ts.
    - [LeaderLease]: jobs/leader-lease.service.ts. [JobQueue]: jobs/job-claim.service.ts
      with [fn::reap_zombies] (db/migrations/0058).
    - [Dispatcher]: jobs/job-dispatcher.service.ts. [Poller]: jobs/worker-poller.service.ts.
      [WorkerLoop]: jobs/worker-loop.service.ts, against an interface of the lease
      (the class [LeaseService] with its laws) that [LeaderLease] implements.
    - [FactSlots]: the [knowledge_fact] row, its slot, the stored helper functions and the
      table event (db/migrations/0009, 0022, 0045, 0046, 0050, 0165, 0175). [FactSettle]:
      [fn::settle_fact] (0177). [FactLaws]: what one call guarantees. [FactPolicy] and
      [FactResolver]: ingest/fact-resolver.service.ts, before and around that call.
      [FactTimeline]: what a sequence of writes leaves. [FactWrites]: writes that meet,
      fail, or name what they replace, and the examples.
    - [ProvenanceClosure]: facts/provenance-closure.ts with the two methods of
      facts/facts.service.ts that use it.
    - [AnswerEvidence]: answer-cache/dependencies.ts, answer-cache/record-id.ts,
      synthesize/evidence-visibility.ts. [AnswerCache]:
      answer-cache/answer-cache.service.ts. [AnswerCacheKeys]: which requests share an
      entry, and the cache on a small tenant.
    - [UnionFind] and [CandidateMerge]: documents/candidate-merge.ts and
      common/source-version.ts. [RunLedger]: documents/candidate-store.service.ts, the
      ledger of indexer runs and the candidates they stage.
    - [DocumentText]: documents/chunker.ts and documents/document-turns.ts. [DocumentStore]:
      documents/document-store.service.ts and what documents/document-purge.util.ts leaves
      of a document. [EpisodeStore]: ingest/episode-store.service.ts and the marks of
      common/scene-dirty.ts. [SceneProjection]: documents/scene-candidate-writer.service.ts
      and episodes/pack-scene-projection.ts.
    - [CommitWriter]: documents/commit-writer.service.ts, on one memory ([Memory]) that each
      component it calls sees through a view of its own ([zoom] of [Resume]).
      [CommitMemory]: documents/candidate-commit.service.ts. [CommitCases]: commits on a
      small tenant.
    - [Grounding]: ai/extractor-internals/grounding.ts, edge-validator.ts, the handles of
      memory-context.ts and documents/candidate-grounding.ts. [IndexerWork]:
      documents/indexer-work.service.ts. [ExternalCandidates]:
      documents/external-candidates.service.ts. [ExtractionGroup]:
      documents/extraction-group.ts and documents/read-depth.ts. [IndexerRun]:
      documents/indexer-run.service.ts and documents/read-failure.ts. [ExtractionPass]:
      documents/extraction-batch.service.ts, against an interface of the services it calls
      (the class [PassServices] with its laws) that [PassMemory] implements with the memory,
      the ledger and the queue. [Routing]: indexers/routing.ts,
      indexers/indexer-router.service.ts and common/vector-math.ts. [DocumentFlow]:
      documents/document-ingest.service.ts, document-async.service.ts,
      indexer-dispatch.service.ts and tool-observation-meta.ts. [DocumentSweep]:
      documents/candidate-sweeper.service.ts.
    - [EdgeWriter]: ingest/edge-writer.ts and the edges of
      ingest/mention-persist.service.ts. [EdgeSupport]: ingest/edge-support.ts, which
      documents still assert an edge. [EventTime]: ingest/event-time.ts, when a fact or an
      edge begins and ends. [RevisionClosure]: documents/revision-closure.ts, what a new
      revision closes. [DocumentMeta]: documents/document-meta.ts and policy/source-meta.ts.
    - [Names]: common/name-key.ts, common/coreference.ts, ingest/code-alias.ts,
      ingest/participants.ts, ingest/user-entity.ts, ingest/same-name-conflict.ts and the
      reference keys of ingest/ingest-utils.ts. [Relatives]: ingest/relative-role.ts.
      [EntityGraph]: entities by reference,
      ingest/entity-upsert.service.ts and the retry loop of db/surreal-retry.ts.
      [EntityMerge]: ingest/link-ingest.service.ts with [fn::merge_identity]
      (db/migrations/0037). [EntityResolver]: ingest/entity-candidates.service.ts,
      ingest/entity-resolver.service.ts and the evidence of ai/entity-judge.service.ts.
      [EntityLadder]: the naming ladder of ingest/entity-upsert.service.ts.
    - [Idempotency]: idempotency/idempotency-store.service.ts and the interceptor.
    - [Breaker]: ai/circuit-breaker.ts. [TenantBudget]: ai/tenant-llm-budget.ts and
      ai/tenant-spend-flush.service.ts. [Locks]: common/semaphore.ts and
      common/keyed-mutex.ts.
    - [SupportEdges]: common/support-edges.ts and common/evidence-ref.ts.
      [BatchOutcome]: common/batch-outcome.ts.

    ** How state and operations correspond to the code

    A database table is a list or a finite map of row records; one query is one atomic
    step on it, because each runs as its own transaction. A stored function that reads
    much before it writes, [fn::merge_identity], is two steps: the snapshot it begins with
    and the commit, which aborts when what it writes was written between. A service method that awaits
    several queries is a resumption whose steps are those queries, so other calls may
    fall between any two. A query the code survives (a unique-index violation, a lost
    compare-and-set) is modelled with its failing branch; in [TenantBudget] and
    [Idempotency] so are the failures of a query that the code reports or swallows.
    In-process state ([Map]s, counters) is a record passed through. Clocks and random
    delays are arguments. Numbers of JavaScript are IEEE doubles ([float]) where the code
    compares arbitrary ones, and [Z] where they are counters, token counts or
    milliseconds, which stay far below 2^53. Strings are sequences of 8-bit code units:
    what the sources compare and cut is ASCII (identifiers, tags, keys, record ids).

    ** What the theorems show

    - Decisions: the engine implements the document's meaning ([row_decision_refines],
      [action_decision_refines]); more sets only narrow, rule order is irrelevant,
      traces agree with decisions; the row filter serves exactly the admitted rows and
      counts truthfully; the database half denies nothing the application allows; the
      gate refuses exactly on an enforced denial.
    - Coherence of policies: a cached snapshot at the database's version is fresh
      whatever interleaves; concurrent updates have one winner; requests keep the tables
      well formed; an unknown set denies everything. [remove_races_attach] and
      [partial_attachment_is_invisible] show what interleaving can still produce.
    - Isolation: circles, tenants, users; the evaluator and the SQL fence agree, for
      rows and for scenes; derived rows never widen; a user's write is private.
    - Exclusion: one holder per lease, one worker per claim and attempt, stale writers
      fenced, at most one settled run per idempotency key whatever handlers and statements
      fail ([one_run_per_key]), one task per mutex key, at most [limit] per
      semaphore; the queue stays well formed under every interleaving; reaping and
      oldest-first claiming.
    - Merging: every staged candidate lands exactly once; the entities are the alias
      classes; the leader of a fact is its most confident contributor.
    - Reading: what is kept of a model's answer quotes the text it was read from
      ([extracted_claims_quote_their_text]), and so does what an external indexer submits
      ([external_claims_quote_the_document], [submission_respects_its_fences]); a live claim
      of an external run is not taken ([live_claim_is_not_taken]). Five lemmas show what
      these gates let pass.
    - Reading plans: the groups hold every document once, within their budget and in order
      ([groups_partition_the_documents]); a conversation waits for a bounded time and is
      released whole ([held_turns_are_released]); a group's result is filed whole under the
      documents it came from ([results_are_filed_by_their_words]); a text stays unread only
      when nothing asks for it ([raw_only_when_nothing_asks]).
    - Routing: a pack reads a document only for a reason ([routed_packs_have_a_reason]); a
      keyword counts where it stands alone ([keyword_stands_alone]); each pack has one binding
      ([bindings_are_one_per_pack]).
    - Runs: a read settles what it claims, whatever fails and in whatever order the chunks
      come back ([group_read_settles_what_it_claims], [document_read_settles_its_run]);
      [failed_claim_strands_the_claimed] and [failed_run_leaves_its_part_to_the_commit] show
      what falls outside.
    - Passes: a pass ends and takes each waiting document up once, whatever else touches the
      memory meanwhile ([pass_ends]); halving a group that failed loses none of its members
      ([halves_lose_no_member]); the captures of one window ask for one pass
      ([window_asks_for_one_job]). The memory keeps what a pass relies on
      ([memory_keeps_its_promises]).
    - Committing: a commit that succeeds decides each pending candidate exactly once and
      touches no other ([commit_decides_every_candidate]); a fact points at the turn that
      holds its words ([quote_is_in_its_turn]). [two_pods_commit_twice],
      [failed_fact_is_given_up] and [stale_answer_mints_a_twin] show what a second pod, a
      failing write and an answer asked too early do.
    - Posting: a post that is read at once leaves nothing pending and the right status, one
      left to the background decides nothing, a failed one is marked
      ([post_leaves_nothing_pending]); a commit job waits for every open run and then leaves
      nothing pending ([commit_job_waits_or_settles]); a sweep decides each candidate by its
      age ([sweep_decides_by_age]). [replay_uncommits_the_document], [fan_out_is_overtaken],
      [second_attempt_is_not_committed] and [failed_read_is_not_asked_again] show where
      replays, fast readers and retries slip through.
    - The run ledger: a slot has one row and one opener ([one_opener_wins]);
      [stale_run_is_reopened_twice] and [late_reopener_deletes_what_is_staged] show the two
      ways past it.
    - Relations: the writers of one relation in one scope share its row
      ([writers_of_one_relation_share_its_edge]), which restatements only widen; documents
      that go away close the edges left with no live document and not flagged as stated
      elsewhere ([gone_documents_close_what_they_alone_assert]), and coming back reopens what
      was closed at that instant ([restore_undoes_retire]). Five lemmas show where the batched
      path and the lifecycle part from what their comments say.
    - References: keys tell users apart as long as references hold no colon
      ([reference_keys_separate_users], [scope_marker_is_forged]); all who go by one
      reference get one entity ([one_reference_names_one_entity]); a mention nobody
      anchored never lands on a user's private entity
      ([mentions_stay_off_private_entities]).
    - Documents: a caller's metadata cannot assert the keys of the service
      ([caller_cannot_forge_provenance]) and stays a small typed vocabulary
      ([operator_metadata_is_vocabulary]); a new revision closes exactly the open claims
      it drops, in prose those whose recorded passage is gone ([revision_closes_what_it_drops]); a fact and the edge of the same
      statement agree on their period ([fact_and_edge_agree]).
    - The text of a document: the chunks cover it in windows that overlap
      ([chunks_cover_the_text]), the turns drop white space only ([turns_lose_nothing]);
      posts share a stored document exactly when they share text, user and circles, for texts
      without the unit separator that the hash does not confuse ([posts_share_text_and_scope]); a purge leaves no chunk ([purge_erases_the_text]);
      projecting the scenes of a document touches no other ([projection_stays_in_its_document]);
      a message has one turn however its captures interleave ([message_has_one_turn]).
      Four lemmas show what a failing statement, a team and a circle do to that.
    - Merges: however links interleave, no two entities are merged into each other, and
      links that run one after another close no cycle as long as no chain outgrows the
      guard ([merges_are_never_mutual]); a declared identity holds from then on when its
      link runs alone ([identity_links_unify]). Five lemmas of [EntityMerge], the cycle of
      three merges that decide on one snapshot among them, and three of [EntityLadder] show where merges and names part.
    - Facts: a call touches its own slot ([settle_stays_in_its_slot]); a value ends where
      its successor begins; a slot of one current value never states two at one moment
      ([one_value_at_a_time]) and open-ended values give one table in whatever order they
      arrive ([arrival_order_is_irrelevant]); a write's verdict is what
      happened to the table, and no live write is refused or left competing
      ([write_closes_what_it_reports]); an explicit supersession closes what it names. [stamp_after_the_lock_forks_the_slot],
      [failed_stamp_leaves_the_row] and [batch_fallback_writes_twice] show what failing
      or late statements do.
    - Jobs: a dispatch that keeps its claim settles it, one that lost it writes nothing
      ([dispatch_settles_its_record], [lost_claim_writes_nothing]); limits hold in every
      interleaving; only a leader that has just confirmed its lease calls for a claim, the shutdown
      ends the calls ([claims_are_led]), and leadership regained polls every type;
      [loop_that_ends_alone_stays_ended] shows a loop that is not started again.
    - Provenance: the walk ends, serves exactly the support the caller may see, and a
      fenced fact leaves no trace in it.
    - Cached answers: what is admitted is tracked and is served back; a read serves
      exactly the entries that still hold; a dead entry stays dead; an entry is found by
      the requests with the same rights and no other ([shared_entry_shares_rights]).
      [newer_belief_is_not_stamped], [fact_before_admission_is_missed] and
      [dash_shares_the_key_of_no_user] show three gaps.
    - Accounting: the breaker follows its contract; the budget counts every token once
      while flushes succeed, and [failed_flush_charges_twice] shows what a failing one
      does; the decision sink conserves rows; the edge payloads are the valid pairs.

    ** Bounds and fuel

    Recursion that is not structural carries fuel, and each bound is proved enough or is
    the code's own: the union-find walk and its compression take the number of aliases
    (lemmas [walk_fuel], [compress_fuel]: a parent is never larger than its child); the
    payload slices take the number of rows; [begin] makes the code's two rounds, a claim
    its three attempts, a create its seven retries; the provenance walk takes one round
    more than its depth cap ([walk_returns]); a pass takes more pages than documents can wait
    ([pass_ends]) and halves a group as often as it has members ([splitting_fuel]). A pool
    runs for the length of its schedule, and the theorems quantify over every schedule.

    ** Parameters

    Code outside the repository is an argument: [sha256], [JSON.parse], the text of a
    number ([num_to_string]), a date's ISO text, the vector similarity of the datastore,
    the random draws and the power function of the poller, the batched reads of the
    provenance walk, the consent rule and the shape detector of the answer cache, transliteration, edit
    distance, the reading of dates in a clause and the calendar ([Calendar] of [EventTime]),
    the sanitizing and redaction of a text ([prepare]) and the reading of numbers and dates in a
    payload, the embedder and the judge of [EntityResolver] (classes [Script] and
    [Models]; what a commit passes to its components is the class [CommitServices], the
    reader of a run and its failing statements the class [IndexerWorld]), the settings, judge
    and interleaving of a pass ([PassConfig]), the packs shipped with the service and the
    embedder of [Routing], the settings and readers of a post ([FlowWorld]), and the schema
    library's base checks (restated as [condition_shape], [rule_shape], [document_shape]). A
    theorem that needs a property of one of them states it as a hypothesis and has a witness.

    ** What is not modelled

    Not yet: policy simulation, the metadata union and the policy key listing; the
    language, grounding and expectation stamps of the fact writes (a write carries its
    expectation to the resolver); the other methods of the facts service;
    failover between model routes; the text sanitizer. Left out of
    modelled parts: a pod that runs without a lease service, queries of the answer cache
    that fail outright (the request is then answered without it), spans and metrics. Not
    planned: prompts and model calls, the SQL of retrieval and its ranking weights,
    ingestion's calls to external systems, HTTP and MCP wiring, the admin interface,
    migrations other than the stored functions above, evaluation harnesses. They are input
    and output, statistics, or declarations. *)

From stdpp Require Export base gmap strings list.
From Stdlib Require Export Floats.
From Stdlib Require Export Lia ZArith.

#[global] Set Default Goal Selector "!".


(** ** Results of fallible code *)

(** What a call gives: a value, or the exception it throws. *)
Inductive result (E A : Type) : Type :=
| Ok (a : A)
| Throw (e : E).
Arguments Ok {E A} a.
Arguments Throw {E A} e.

Definition rbind {E A B} (m : result E A) (f : A → result E B) : result E B :=
  match m with
  | Ok a => f a
  | Throw e => Throw e
  end.

Declare Scope brain_scope.
Delimit Scope brain_scope with brain.
Notation "'let*' x ':=' m 'in' k" := (rbind m (λ x, k))
  (at level 10, x binder, m at level 100, k at level 200) : brain_scope.
#[global] Open Scope brain_scope.

Definition is_ok {E A} (m : result E A) : bool :=
  match m with Ok _ => true | Throw _ => false end.

(** The HTTP exceptions the services throw (NestJS classes), with the payload
    the code builds. *)
Inductive http_exn : Type :=
| BadRequest (msg : string)
| Forbidden (msg : string)
| NotFound (msg : string)
| Conflict (msg : string)
| TypeErr (msg : string)
| Internal (msg : string).

(** ** Booleans and propositions *)

Lemma bool_decide_neg_true (P : Prop) `{Decision P} :
  negb (bool_decide P) = true ↔ ¬ P.
Proof. rewrite negb_true_iff. by rewrite bool_decide_eq_false. Qed.

Lemma bool_eq_iff (b1 b2 : bool) : (b1 = true ↔ b2 = true) → b1 = b2.
Proof. destruct b1, b2; intuition congruence. Qed.

Lemma orb_iff_l (a b c : bool) : (a || b) || c = a || (b || c).
Proof. by destruct a, b, c. Qed.

(** ** Lists *)

Section lists.
Context {A B : Type}.
Implicit Types (l : list A) (f g : A → bool).

Lemma existsb_In f l : existsb f l = true ↔ ∃ x, x ∈ l ∧ f x = true.
Proof.
  rewrite existsb_exists. setoid_rewrite <- list_elem_of_In. done.
Qed.

Lemma existsb_false_In f l :
  existsb f l = false ↔ ∀ x, x ∈ l → f x = false.
Proof.
  split.
  - intros H x Hx. destruct (f x) eqn:E; [|done].
    assert (existsb f l = true) as H' by (apply existsb_In; eauto). congruence.
  - intros H. destruct (existsb f l) eqn:E; [|done].
    apply existsb_In in E as (x & Hx & E). by rewrite H in E.
Qed.

Lemma forallb_In f l : forallb f l = true ↔ ∀ x, x ∈ l → f x = true.
Proof.
  rewrite forallb_forall. setoid_rewrite <- list_elem_of_In. done.
Qed.

Lemma existsb_map (h : B → A) f (l' : list B) :
  existsb f (map h l') = existsb (λ x, f (h x)) l'.
Proof. induction l' as [|x l' IH]; simpl; [done|]. by rewrite IH. Qed.

Lemma existsb_ext_In f g l :
  (∀ x, x ∈ l → f x = g x) → existsb f l = existsb g l.
Proof.
  induction l as [|x l IH]; intros H; simpl; [done|].
  rewrite (H x), IH; [done| |].
  - intros y Hy. apply H. by constructor.
  - by constructor.
Qed.

Lemma existsb_perm f l1 l2 : l1 ≡ₚ l2 → existsb f l1 = existsb f l2.
Proof.
  intros Hp. apply bool_eq_iff. rewrite !existsb_In.
  by setoid_rewrite Hp.
Qed.

Lemma existsb_incl f l1 l2 :
  (∀ x, x ∈ l1 → x ∈ l2) → existsb f l1 = true → existsb f l2 = true.
Proof. rewrite !existsb_In. naive_solver. Qed.

(** [Array.prototype.find]. *)
Fixpoint find_first f l : option A :=
  match l with
  | [] => None
  | x :: l' => if f x then Some x else find_first f l'
  end.

Lemma find_first_Some f l x :
  find_first f l = Some x → x ∈ l ∧ f x = true.
Proof.
  induction l as [|y l IH]; simpl; [done|].
  destruct (f y) eqn:E; intros H; simplify_eq.
  - split; [by constructor|done].
  - destruct (IH H). split; [by constructor|done].
Qed.

Lemma find_first_None f l : find_first f l = None ↔ existsb f l = false.
Proof.
  induction l as [|y l IH]; simpl; [done|]. by destruct (f y).
Qed.

Lemma find_first_is_Some f l : is_Some (find_first f l) ↔ existsb f l = true.
Proof.
  induction l as [|y l IH]; simpl; [split; [by intros []|done]|].
  destruct (f y); [split; [done|by eauto]|done].
Qed.

(** [Array.prototype.includes] on strings is membership. *)
Lemma elem_of_existsb `{EqDecision A} (x : A) l :
  bool_decide (x ∈ l) = existsb (λ y, bool_decide (x = y)) l.
Proof.
  apply bool_eq_iff. rewrite existsb_In, bool_decide_eq_true. split.
  - intros. exists x. by rewrite bool_decide_eq_true.
  - by intros (y & ? & ->%bool_decide_eq_true).
Qed.

Lemma filter_length_le_b f l : length (List.filter f l) ≤ length l.
Proof. induction l as [|x l IH]; simpl; [lia|]. destruct (f x); simpl; lia. Qed.
End lists.

(** [xs.filter(p)] with a boolean [p] keeps the members that pass. *)
Lemma elem_of_bfilter {A} (f : A → bool) (l : list A) x :
  x ∈ List.filter f l ↔ x ∈ l ∧ f x = true.
Proof. rewrite !list_elem_of_In. apply filter_In. Qed.

Lemma bfilter_nil {A} (f : A → bool) (l : list A) : (∀ x, x ∈ l → f x = false) → List.filter f l = [].
Proof.
  induction l as [|x l IH]; intros H; cbn; [done|]. rewrite (H x) by left. apply IH. intros y Hy. apply H. by right.
Qed.

Lemma NoDup_bfilter {A} (f : A → bool) (l : list A) :
  NoDup l → NoDup (List.filter f l).
Proof.
  induction 1 as [|x l Hx Hl IH]; simpl; [constructor|].
  destruct (f x); [constructor; [|done]|done].
  rewrite elem_of_bfilter. by intros [? _].
Qed.

Lemma NoDup_map_inj {A B} (g : A → B) (l : list A) x y :
  NoDup (map g l) → x ∈ l → y ∈ l → g x = g y → x = y.
Proof.
  induction l as [|z l IH]; simpl; [by intros _ ?%elem_of_nil|].
  rewrite NoDup_cons, !elem_of_cons. intros [Hz Hl] Hx Hy Heq.
  assert (Hno : ∀ w, w ∈ l → g w ≠ g z).
  { intros w Hw E. apply Hz. rewrite <- E. by apply list_elem_of_fmap_2. }
  destruct Hx as [->|Hx], Hy as [->|Hy]; [done| | |by apply IH].
  - by destruct (Hno y Hy).
  - by destruct (Hno x Hx).
Qed.

Lemma NoDup_map_bfilter {A B} (g : A → B) (f : A → bool) (l : list A) :
  NoDup (map g l) → NoDup (map g (List.filter f l)).
Proof.
  induction l as [|x l IH]; simpl; [done|]. rewrite NoDup_cons. intros [Hx Hl].
  destruct (f x); simpl; [|auto]. constructor; [|auto].
  intros (y & Hy & [Hin _]%elem_of_bfilter)%list_elem_of_fmap.
  apply Hx, list_elem_of_fmap. eauto.
Qed.

(** ** JavaScript [Set]-style accumulation: append when absent *)

Section addnew.
Context {A : Type} `{EqDecision A}.

(** [if (!out.includes(x)) out.push(x)] *)
Definition add_new (out : list A) (x : A) : list A :=
  if bool_decide (x ∈ out) then out else app out [x].

(** [for (const x of xs) if (!out.includes(x)) out.push(x)] *)
Definition add_all (out xs : list A) : list A := fold_left add_new xs out.

Lemma elem_of_add_new out x y : y ∈ add_new out x ↔ y ∈ out ∨ y = x.
Proof.
  unfold add_new. case_bool_decide.
  - naive_solver.
  - rewrite elem_of_app, list_elem_of_singleton. done.
Qed.

Lemma NoDup_add_new out x : NoDup out → NoDup (add_new out x).
Proof.
  intros H. unfold add_new. case_bool_decide; [done|].
  apply NoDup_app. repeat split; [done| |apply NoDup_singleton].
  intros y Hy ->%list_elem_of_singleton. done.
Qed.

Lemma elem_of_add_all out xs y : y ∈ add_all out xs ↔ y ∈ out ∨ y ∈ xs.
Proof.
  revert out. induction xs as [|x xs IH]; intros out; simpl.
  - set_solver.
  - rewrite IH, elem_of_add_new. set_solver.
Qed.

Lemma NoDup_add_all out xs : NoDup out → NoDup (add_all out xs).
Proof.
  revert out. induction xs as [|x xs IH]; intros out H; simpl; [done|].
  by apply IH, NoDup_add_new.
Qed.

Lemma add_all_prefix out xs : out `prefix_of` add_all out xs.
Proof.
  revert out. induction xs as [|x xs IH]; intros out; simpl; [done|].
  etrans; [|apply IH]. unfold add_new. case_bool_decide; [done|].
  by apply prefix_app_r.
Qed.

Lemma add_all_subset out xs : (∀ x, x ∈ xs → x ∈ out) → add_all out xs = out.
Proof.
  induction xs as [|x xs IH]; intros H; simpl; [done|].
  unfold add_new. rewrite bool_decide_eq_true_2 by (apply H; by constructor).
  apply IH. intros y Hy. apply H. by constructor.
Qed.
End addnew.

Create HintDb brain.
#[export] Hint Resolve NoDup_add_new NoDup_add_all NoDup_bfilter : brain.

(** ** JavaScript [Map]: insertion-ordered association lists *)

(** [set] on a present key keeps its position, on a fresh key appends;
    [delete] closes the gap. Iteration order is the list's order. *)
Module OMap.
Section omap.
Context {K V : Type} `{EqDecision K}.
Implicit Types (m : list (K * V)) (k : K) (v : V).

Fixpoint get k m : option V :=
  match m with
  | [] => None
  | (k', v) :: m' => if bool_decide (k = k') then Some v else get k m'
  end.

Fixpoint set k v m : list (K * V) :=
  match m with
  | [] => [(k, v)]
  | (k', v') :: m' =>
      if bool_decide (k = k') then (k, v) :: m' else (k', v') :: set k v m'
  end.

Fixpoint del k m : list (K * V) :=
  match m with
  | [] => []
  | (k', v) :: m' => if bool_decide (k = k') then m' else (k', v) :: del k m'
  end.

Definition has k m : bool := match get k m with Some _ => true | None => false end.
Definition keys m : list K := map fst m.
Definition vals m : list V := map snd m.

Definition wf m : Prop := NoDup (keys m).

Lemma get_Some_key k v m : get k m = Some v → k ∈ keys m.
Proof.
  induction m as [|[k' v'] m IH]; simpl; [done|].
  case_bool_decide; intros; subst; [by constructor|].
  constructor. by apply IH.
Qed.

Lemma get_None_key k m : get k m = None ↔ k ∉ keys m.
Proof.
  induction m as [|[k' v'] m IH]; simpl.
  - split; [by intros _ ?%elem_of_nil|done].
  - case_bool_decide as Hk.
    + subst. split; [done|]. intros H. exfalso. apply H. by constructor.
    + rewrite IH, not_elem_of_cons. naive_solver.
Qed.

Lemma get_elem k v m : get k m = Some v → (k, v) ∈ m.
Proof.
  induction m as [|[k' v'] m IH]; simpl; [done|].
  case_bool_decide; intros; simplify_eq; constructor; auto.
Qed.

Lemma elem_get k v m : wf m → (k, v) ∈ m → get k m = Some v.
Proof.
  unfold wf. induction m as [|[k' v'] m IH]; simpl.
  - by intros _ ?%elem_of_nil.
  - rewrite NoDup_cons, elem_of_cons. intros [Hn Hm] [Heq|Hin].
    + simplify_eq. by rewrite bool_decide_eq_true_2.
    + rewrite bool_decide_eq_false_2; [by apply IH|].
      intros <-. destruct Hn. apply list_elem_of_fmap. by exists (k, v).
Qed.

Lemma get_set_eq k v m : get k (set k v m) = Some v.
Proof.
  induction m as [|[k' v'] m IH]; simpl; [by rewrite bool_decide_eq_true_2|].
  case_bool_decide as E; simpl; [by rewrite bool_decide_eq_true_2|].
  by rewrite bool_decide_eq_false_2.
Qed.

Lemma get_set_ne k k' v m : k ≠ k' → get k' (set k v m) = get k' m.
Proof.
  intros Hne. induction m as [|[k1 v1] m IH]; simpl.
  - by rewrite bool_decide_eq_false_2.
  - case_bool_decide as E; simpl.
    + subst. by rewrite !bool_decide_eq_false_2.
    + case_bool_decide; auto.
Qed.

Lemma get_set k k' v m :
  get k' (set k v m) = if bool_decide (k = k') then Some v else get k' m.
Proof. case_bool_decide; [subst; apply get_set_eq|by apply get_set_ne]. Qed.

Lemma keys_set k v m :
  keys (set k v m) = if has k m then keys m else app (keys m) [k].
Proof.
  unfold has, keys. induction m as [|[k' v'] m IH]; simpl; [done|].
  case_bool_decide; simpl; [by subst|]. rewrite IH. by destruct (get k m).
Qed.

Lemma wf_set k v m : wf m → wf (set k v m).
Proof.
  unfold wf. rewrite keys_set. unfold has. destruct (get k m) eqn:E; [done|].
  intros H. apply get_None_key in E. apply NoDup_app.
  repeat split; [done| |apply NoDup_singleton].
  intros y Hy ->%list_elem_of_singleton. done.
Qed.

Lemma keys_del_sub k m x : x ∈ keys (del k m) → x ∈ keys m.
Proof.
  induction m as [|[k' v'] m IH]; simpl; [done|].
  case_bool_decide; simpl; rewrite !elem_of_cons; naive_solver.
Qed.

Lemma wf_del k m : wf m → wf (del k m).
Proof.
  unfold wf. induction m as [|[k' v'] m IH]; simpl; [done|].
  rewrite NoDup_cons. intros [Hn Hm]. case_bool_decide; [done|].
  simpl. rewrite NoDup_cons. split; [|auto].
  by intros ?%keys_del_sub.
Qed.

Lemma get_del_eq k m : wf m → get k (del k m) = None.
Proof.
  unfold wf. induction m as [|[k' v'] m IH]; simpl; [done|].
  rewrite NoDup_cons. intros [Hn Hm]. case_bool_decide as E.
  - subst. by apply get_None_key.
  - simpl. rewrite bool_decide_eq_false_2 by done. auto.
Qed.

Lemma get_del_ne k k' m : k ≠ k' → get k' (del k m) = get k' m.
Proof.
  intros Hne. induction m as [|[k1 v1] m IH]; simpl; [done|].
  case_bool_decide as E; simpl.
  - subst. by rewrite bool_decide_eq_false_2.
  - case_bool_decide; auto.
Qed.

Lemma length_del k m : has k m = true → length m = S (length (del k m)).
Proof.
  unfold has. induction m as [|[k' v'] m IH]; simpl; [done|].
  case_bool_decide; simpl; [done|]. intros Hh. by rewrite IH.
Qed.

Lemma del_absent k m : has k m = false → del k m = m.
Proof.
  unfold has. induction m as [|[k' v'] m IH]; simpl; [done|].
  case_bool_decide; simpl; [done|]. intros Hh. by rewrite IH.
Qed.

Lemma length_set k v m :
  length (set k v m) = if has k m then length m else S (length m).
Proof.
  unfold has. induction m as [|[k' v'] m IH]; simpl; [done|].
  case_bool_decide; simpl; [done|]. rewrite IH. by destruct (get k m).
Qed.

(** What the values carry, when one entry is set: the old entry's share goes,
    the new one's comes. *)
Lemma vals_set_perm {B} (f : V → list B) k v m :
  app (match get k m with Some v0 => f v0 | None => [] end)
    (flat_map f (vals (set k v m))) ≡ₚ app (f v) (flat_map f (vals m)).
Proof.
  unfold vals. induction m as [|[k' v'] m IH]; simpl; [done|].
  case_bool_decide; simpl; [by rewrite Permutation_app_swap_app|].
  rewrite Permutation_app_swap_app, IH. by rewrite Permutation_app_swap_app.
Qed.

Lemma elem_vals v m : v ∈ vals m → ∃ k, (k, v) ∈ m.
Proof. intros ([k v'] & -> & Hin)%list_elem_of_fmap. eauto. Qed.

Lemma get_vals v m : wf m → v ∈ vals m → ∃ k, get k m = Some v.
Proof. intros Hm [k Hin]%elem_vals. exists k. by apply elem_get. Qed.

(** Values that carry their key. *)
Lemma map_vals_key (f : V → K) m :
  wf m → (∀ k v, get k m = Some v → f v = k) → map f (vals m) = keys m.
Proof.
  intros Hm Hk. assert (Hk' : ∀ k v, (k, v) ∈ m → f v = k)
    by (intros; by apply Hk, elem_get). clear Hk Hm.
  unfold vals, keys. induction m as [|[k v] m IH]; simpl; [done|].
  rewrite (Hk' k v) by by left. rewrite IH; [done|]. intros. apply Hk'. by right.
Qed.
End omap.
End OMap.

#[export] Hint Resolve OMap.wf_set OMap.wf_del : brain.
