(* ===== verification/Js.v ===== *)
(** * JavaScript values and strings

    The dynamic values ([unknown]) the services inspect, property access with
    the members every object inherits from [Object.prototype], strict equality,
    and the string operations the sources use. A string is a sequence of 8-bit
    code units. *)

From S2P Require Import Prelude.
From stdpp Require Import sorting.
From Stdlib Require Import Ascii.
Local Open Scope string_scope.
Local Open Scope nat_scope.

(** ** Strings *)

(** [s.startsWith(p)] *)
Fixpoint starts_with (p s : string) : bool :=
  match p, s with
  | EmptyString, _ => true
  | String a p', String b s' => bool_decide (a = b) && starts_with p' s'
  | String _ _, EmptyString => false
  end.

(** [includes], [string::contains] *)
Fixpoint str_contains (needle s : string) : bool :=
  starts_with needle s || match s with String _ s' => str_contains needle s' | EmptyString => false end.

(** [s.slice(n)] for [0 <= n] *)
Fixpoint str_drop (n : nat) (s : string) : string :=
  match n, s with
  | O, _ => s
  | S n', String _ s' => str_drop n' s'
  | S _, EmptyString => EmptyString
  end.

(** [s.slice(0, n)] for [0 <= n] *)
Fixpoint str_take (n : nat) (s : string) : string :=
  match n, s with
  | O, _ => EmptyString
  | S n', String c s' => String c (str_take n' s')
  | S _, EmptyString => EmptyString
  end.

(** [s.indexOf(c)] for a one-character string; [None] is [-1]. *)
Fixpoint index_of (c : ascii) (s : string) : option nat :=
  match s with
  | EmptyString => None
  | String c' s' => if bool_decide (c = c') then Some 0 else S <$> index_of c s'
  end.

Definition colon : ascii := ":"%char.

(** Does the character occur? *)
Definition has_char (c : ascii) (s : string) : bool :=
  match index_of c s with Some _ => true | None => false end.

Lemma str_append_cons c s t : String c s +:+ t = String c (s +:+ t).
Proof. done. Qed.

Lemma str_append_nil_l s : "" +:+ s = s.
Proof. done. Qed.

Ltac str_simpl := rewrite ?str_append_cons, ?str_append_nil_l; simpl.

Lemma str_append_nil_r s : s +:+ "" = s.
Proof. induction s as [|c s IH]; [done|]. by rewrite str_append_cons, IH. Qed.

Lemma str_append_assoc a b c : (a +:+ b) +:+ c = a +:+ (b +:+ c).
Proof. induction a as [|x a IH]; [done|]. by rewrite !str_append_cons, IH. Qed.

Lemma str_append_inj_l a b c : a +:+ b = a +:+ c → b = c.
Proof.
  induction a as [|x a IH]; [done|].
  rewrite !str_append_cons. intros. simplify_eq. auto.
Qed.

Lemma str_length_append a b :
  String.length (a +:+ b) = String.length a + String.length b.
Proof. induction a as [|x a IH]; [done|]. str_simpl. by rewrite IH. Qed.

Lemma starts_with_spec p s :
  starts_with p s = true ↔ ∃ t, s = p +:+ t.
Proof.
  revert s. induction p as [|a p IH]; intros s; simpl.
  - split; [intros _; by exists s|done].
  - destruct s as [|b s].
    + split; [done|]. by intros [t ?].
    + rewrite andb_true_iff, bool_decide_eq_true, IH. split.
      * intros [-> [t ->]]. by exists t.
      * intros [t Ht]. rewrite str_append_cons in Ht. simplify_eq. eauto.
Qed.

Lemma starts_with_append p t : starts_with p (p +:+ t) = true.
Proof. apply starts_with_spec. by eauto. Qed.

Lemma str_drop_append p t : str_drop (String.length p) (p +:+ t) = t.
Proof. by induction p as [|a p IH]. Qed.

Lemma starts_with_drop p s :
  starts_with p s = true → s = p +:+ str_drop (String.length p) s.
Proof. intros [t ->]%starts_with_spec. by rewrite str_drop_append. Qed.

Lemma str_take_drop n s : str_take n s +:+ str_drop n s = s.
Proof.
  revert s. induction n as [|n IH]; intros [|c s]; simpl; [done..|].
  by rewrite str_append_cons, IH.
Qed.

Lemma str_take_append a b : str_take (String.length a) (a +:+ b) = a.
Proof.
  induction a as [|x a IH]; simpl; [by destruct b|]. by rewrite IH.
Qed.

Lemma has_char_append c a b :
  has_char c (a +:+ b) = has_char c a || has_char c b.
Proof.
  unfold has_char. induction a as [|x a IH]; [done|]. str_simpl.
  case_bool_decide; [done|].
  destruct (index_of c a), (index_of c (a +:+ b)), (index_of c b); done.
Qed.

Lemma index_of_append c a b :
  has_char c a = false → index_of c (a +:+ String c b) = Some (String.length a).
Proof.
  unfold has_char. induction a as [|x a IH]; str_simpl.
  - intros _. by rewrite bool_decide_eq_true_2.
  - case_bool_decide; [done|]. intros Hc.
    rewrite IH; [done|]. by destruct (index_of c a).
Qed.

(** A text splits in one way at the first separator. *)
Lemma str_sep_inj c a a' b b' :
  has_char c a = false → has_char c a' = false → a +:+ String c b = a' +:+ String c b' → a = a' ∧ b = b'.
Proof.
  intros Ha Ha' E. assert (Hl : String.length a = String.length a').
  { pose proof (index_of_append c a b Ha) as E1. pose proof (index_of_append c a' b' Ha') as E2.
    rewrite E in E1. congruence. }
  assert (a = a') as ->.
  { pose proof (str_take_append a (String c b)) as E1. rewrite E, Hl, str_take_append in E1. done. }
  apply str_append_inj_l in E. by injection E.
Qed.

Lemma index_of_split c s n :
  index_of c s = Some n →
  s = str_take n s +:+ String c (str_drop (S n) s) ∧
  has_char c (str_take n s) = false ∧ n < String.length s.
Proof.
  revert n. induction s as [|x s IH]; intros n; simpl; [done|].
  case_bool_decide as E.
  - intros. simplify_eq. split; [done|]. split; [done|simpl; lia].
  - rewrite fmap_Some. intros (m & Hm & ->).
    destruct (IH m Hm) as (Heq & Hc & Hl). simpl. split; [|split; [|lia]].
    + rewrite str_append_cons. f_equal. exact Heq.
    + unfold has_char in *. simpl. rewrite bool_decide_eq_false_2 by done.
      by destruct (index_of c (str_take m s)).
Qed.

Lemma length_str_take n s : n ≤ String.length s → String.length (str_take n s) = n.
Proof.
  revert s. induction n as [|n IH]; intros [|c s]; simpl; [lia..|].
  intros. rewrite IH; lia.
Qed.

(** ** Code-unit order *)

Definition str_le (a b : string) : Prop := String.leb a b = true.
#[export] Instance str_le_dec a b : Decision (str_le a b).
Proof. unfold str_le. apply _. Defined.

Lemma str_compare_trans x y z : String.compare x y ≠ Gt → String.compare y z ≠ Gt → String.compare x z ≠ Gt.
Proof.
  revert y z. induction x as [|a x IH]; intros [|b y] [|c z]; cbn; try done.
  unfold Ascii.compare.
  destruct (N.compare_spec (Ascii.N_of_ascii a) (Ascii.N_of_ascii b)) as [E1|L1|L1];
    destruct (N.compare_spec (Ascii.N_of_ascii b) (Ascii.N_of_ascii c)) as [E2|L2|L2]; try done;
    intros H1 H2; destruct (N.compare_spec (Ascii.N_of_ascii a) (Ascii.N_of_ascii c)) as [E3|L3|L3];
    try done; try lia. by eapply IH.
Qed.

Lemma str_le_compare x y : str_le x y ↔ String.compare x y ≠ Gt.
Proof. unfold str_le, String.leb. by destruct (String.compare x y). Qed.

#[export] Instance str_le_trans : Transitive str_le.
Proof. intros x y z. rewrite !str_le_compare. apply str_compare_trans. Qed.

#[export] Instance str_le_total : Total str_le.
Proof. intros x y. unfold str_le. destruct (String.leb_total x y); auto. Qed.

#[export] Instance str_le_antisymm : AntiSymm (=) str_le.
Proof. intros x y. apply String.leb_antisym. Qed.

(** [[...new Set(xs)].sort()] *)
Definition sorted_set (xs : list string) : list string := merge_sort str_le (add_all [] xs).

Lemma elem_of_sorted_set x xs : x ∈ sorted_set xs ↔ x ∈ xs.
Proof. unfold sorted_set. rewrite merge_sort_Permutation, elem_of_add_all, elem_of_nil. tauto. Qed.

(** Two lists sort to the same list exactly when they have the same members. *)
Lemma sorted_set_eq xs ys : sorted_set xs = sorted_set ys ↔ ∀ x, x ∈ xs ↔ x ∈ ys.
Proof.
  split; [intros E x; by rewrite <- (elem_of_sorted_set x xs), E, elem_of_sorted_set|]. intros E.
  unfold sorted_set. apply (Sorted_unique str_le); [apply Sorted_merge_sort, _..|].
  rewrite !merge_sort_Permutation. apply NoDup_Permutation; [apply NoDup_add_all, NoDup_nil_2..|].
  intros x. by rewrite !elem_of_add_all, !elem_of_nil, E.
Qed.

(** [String.prototype.trim]: the white space among 8-bit code units. *)
Definition is_space (c : ascii) : bool :=
  let n := nat_of_ascii c in
  ((9 <=? n) && (n <=? 13)) || (n =? 32) || (n =? 160).

Fixpoint trim_start (s : string) : string :=
  match s with
  | String c s' => if is_space c then trim_start s' else s
  | EmptyString => EmptyString
  end.

Definition str_rev (s : string) : string :=
  String.string_of_list_ascii (rev (String.list_ascii_of_string s)).

Definition trim (s : string) : string := str_rev (trim_start (str_rev (trim_start s))).

(** [s.replace(/\s+/g, ' ')] *)
Fixpoint collapse_spaces (in_run : bool) (s : string) : string :=
  match s with
  | EmptyString => EmptyString
  | String c s' =>
      if is_space c
      then if in_run then collapse_spaces true s' else String " "%char (collapse_spaces true s')
      else String c (collapse_spaces false s')
  end.

(** [s.toLowerCase()] on 8-bit code units: A-Z, and the capitals of the upper half. *)
Definition lower_char (c : ascii) : ascii :=
  let n := nat_of_ascii c in
  if ((65 <=? n) && (n <=? 90)) || ((192 <=? n) && (n <=? 222) && negb (n =? 215))
  then ascii_of_nat (n + 32) else c.

Fixpoint to_lower (s : string) : string :=
  match s with
  | EmptyString => EmptyString
  | String c s' => String (lower_char c) (to_lower s')
  end.

(** [if (s)] on an optional string: present and not empty. *)
Definition truthy (s : option string) : option string :=
  match s with Some x => if bool_decide (x = "") then None else Some x | None => None end.

(** ** Dynamic values *)

(** [VHost] stands for a function or object that comes from the runtime, not
    from the data: what reading an inherited [Object.prototype] member gives. *)
Inductive jsval : Type :=
| VUndef
| VNull
| VBool (b : bool)
| VNum (x : float)
| VStr (s : string)
| VArr (l : list jsval)
| VObj (fields : list (string * jsval))
| VHost (name : string).

(** The members a plain object inherits from [Object.prototype]. *)
Definition object_prototype : list string :=
  [ "constructor"; "__defineGetter__"; "__defineSetter__"; "hasOwnProperty";
    "__lookupGetter__"; "__lookupSetter__"; "isPrototypeOf";
    "propertyIsEnumerable"; "toString"; "valueOf"; "__proto__";
    "toLocaleString" ].

(** [o[key]] on a plain object: the own property, else the inherited member. *)
Definition obj_get (fields : list (string * jsval)) (key : string) : jsval :=
  match OMap.get key fields with
  | Some v => v
  | None => if bool_decide (key ∈ object_prototype) then VHost key else VUndef
  end.

(** [x !== undefined && x !== null] *)
Definition present (v : jsval) : bool :=
  match v with VUndef | VNull => false | _ => true end.

(** [x === want] where [want] is a string, a number or a boolean. Numbers
    compare as IEEE doubles, so NaN equals nothing. *)
Definition strict_eq (x want : jsval) : bool :=
  match x, want with
  | VStr a, VStr b => bool_decide (a = b)
  | VNum a, VNum b => PrimFloat.eqb a b
  | VBool a, VBool b => Bool.eqb a b
  | _, _ => false
  end.

(** [Number.isFinite(x)] *)
Definition is_finite (x : float) : bool := PrimFloat.is_finite x.

Lemma obj_get_own fields key v :
  OMap.get key fields = Some v → obj_get fields key = v.
Proof. unfold obj_get. by intros ->. Qed.

Lemma obj_get_absent fields key :
  OMap.get key fields = None → key ∉ object_prototype → obj_get fields key = VUndef.
Proof. unfold obj_get. intros -> ?. by rewrite bool_decide_eq_false_2. Qed.

Lemma strict_eq_str x s : strict_eq x (VStr s) = true ↔ x = VStr s.
Proof.
  destruct x; simpl; try (split; [done|congruence]).
  rewrite bool_decide_eq_true. split; congruence.
Qed.

(** ** String conversion *)

Section to_string.
(** How the runtime prints a number. *)
Variable num_to_string : float → string.

Fixpoint join_with (sep : string) (l : list string) : string :=
  match l with
  | [] => ""
  | [x] => x
  | x :: l' => x +:+ sep +:+ join_with sep l'
  end.

(** Parts that hold no separator and are not empty are read back from the join. *)
Lemma join_with_inj c l l' :
  (∀ x, x ∈ l → has_char c x = false ∧ x ≠ "") → (∀ x, x ∈ l' → has_char c x = false ∧ x ≠ "") →
  join_with (String c "") l = join_with (String c "") l' → l = l'.
Proof.
  assert (Hne : ∀ x m, join_with (String c "") (x :: m) = "" → x = "").
  { intros x [|y m]; cbn; [done|]. by destruct x. }
  assert (Hmix : ∀ x y z m, has_char c x = false →
    join_with (String c "") [x] ≠ join_with (String c "") (y :: z :: m)).
  { intros x y z m Hx E. change (x = y +:+ String c (join_with (String c "") (z :: m))) in E.
    assert (H : has_char c x = true); [|congruence]. rewrite E, has_char_append. unfold has_char at 2. cbn.
    rewrite bool_decide_eq_true_2 by done. apply orb_true_r. }
  revert l'. induction l as [|x l IH]; intros [|y l'] H1 H2 E; [done| | |].
  - symmetry in E. apply Hne in E as ->. by destruct (H2 "" (list_elem_of_here _ _)).
  - apply Hne in E as ->. by destruct (H1 "" (list_elem_of_here _ _)).
  - destruct (H1 x (list_elem_of_here _ _)) as [Hx _], (H2 y (list_elem_of_here _ _)) as [Hy _].
    destruct l as [|x' l], l' as [|y' l'].
    + cbn in E. by subst.
    + by apply Hmix in E.
    + symmetry in E. by apply Hmix in E.
    + change (x +:+ String c (join_with (String c "") (x' :: l)) = y +:+ String c (join_with (String c "") (y' :: l'))) in E.
      apply str_sep_inj in E as [-> E]; [|done..]. f_equal. apply IH; [..|done].
      * intros z Hz. apply H1. by right.
      * intros z Hz. apply H2. by right.
Qed.

(** [String(v)] *)
Fixpoint js_to_string (v : jsval) : string :=
  match v with
  | VUndef => "undefined"
  | VNull => "null"
  | VBool b => if b then "true" else "false"
  | VNum x => num_to_string x
  | VStr s => s
  | VArr l => join_with "," (map (λ x, match x with VUndef | VNull => "" | _ => js_to_string x end) l)
  | VObj _ => "[object Object]"
  | VHost n =>
      if bool_decide (n = "__proto__") then "[object Object]"
      else "function " +:+ (if bool_decide (n = "constructor") then "Object" else n) +:+ "() { [native code] }"
  end.
End to_string.

(** ** Reading fields of a dynamic record *)

(** [typeof v === 'string' && v.length > 0 ? v : undefined] *)
Definition strOrUndefined (v : jsval) : option string :=
  match v with VStr s => if bool_decide (s = "") then None else Some s | _ => None end.

(** [typeof v === 'number' && Number.isFinite(v) ? v : undefined] *)
Definition numOrUndefined (v : jsval) : option float :=
  match v with VNum x => if is_finite x then Some x else None | _ => None end.

(** [typeof v === 'string' ? v : undefined] *)
Definition as_js_string (v : jsval) : option string :=
  match v with VStr s => Some s | _ => None end.

(** The strings of an array, non-empty, or nothing. *)
Definition idList (v : jsval) : option (list string) :=
  match v with
  | VArr l => match omap strOrUndefined l with [] => None | ids => Some ids end
  | _ => None
  end.
