(* ===== verification/Regex.v ===== *)
(** * Regular expressions

    The validators test strings against anchored regular expressions
    ([/^...$/]). This file gives their language, an executable matcher by
    derivatives, and the proof that the matcher decides the language. *)

From S2P Require Import Prelude Js.
From Stdlib Require Import Ascii.
Local Open Scope nat_scope.

Inductive re : Type :=
| REmpty
| REps
| RCls (p : ascii → bool)
| RSeq (r1 r2 : re)
| RAlt (r1 r2 : re)
| RStar (r : re).

(** The language of an expression. *)
Inductive lang : re → list ascii → Prop :=
| L_eps : lang REps []
| L_cls p c : p c = true → lang (RCls p) [c]
| L_seq r1 r2 s1 s2 : lang r1 s1 → lang r2 s2 → lang (RSeq r1 r2) (s1 ++ s2)
| L_alt_l r1 r2 s : lang r1 s → lang (RAlt r1 r2) s
| L_alt_r r1 r2 s : lang r2 s → lang (RAlt r1 r2) s
| L_star_nil r : lang (RStar r) []
| L_star_cons r s1 s2 : lang r s1 → lang (RStar r) s2 → lang (RStar r) (s1 ++ s2).

(** Smart constructors keep derivatives small; they preserve the language. *)
Definition mk_seq (r1 r2 : re) : re :=
  match r1, r2 with
  | REmpty, _ => REmpty
  | _, REmpty => REmpty
  | REps, r => r
  | r1, r2 => RSeq r1 r2
  end.

Definition mk_alt (r1 r2 : re) : re :=
  match r1, r2 with
  | REmpty, r => r
  | r, REmpty => r
  | r1, r2 => RAlt r1 r2
  end.

Fixpoint nullable (r : re) : bool :=
  match r with
  | REmpty | RCls _ => false
  | REps | RStar _ => true
  | RSeq r1 r2 => nullable r1 && nullable r2
  | RAlt r1 r2 => nullable r1 || nullable r2
  end.

Fixpoint deriv (c : ascii) (r : re) : re :=
  match r with
  | REmpty | REps => REmpty
  | RCls p => if p c then REps else REmpty
  | RSeq r1 r2 =>
      if nullable r1 then mk_alt (mk_seq (deriv c r1) r2) (deriv c r2)
      else mk_seq (deriv c r1) r2
  | RAlt r1 r2 => mk_alt (deriv c r1) (deriv c r2)
  | RStar r' => mk_seq (deriv c r') (RStar r')
  end.

Fixpoint match_list (r : re) (s : list ascii) : bool :=
  match s with
  | [] => nullable r
  | c :: s' => match_list (deriv c r) s'
  end.

(** [RE.test(s)] for an anchored expression. *)
Definition re_test (r : re) (s : string) : bool :=
  match_list r (String.list_ascii_of_string s).

(** ** Correctness *)

Lemma lang_empty s : ¬ lang REmpty s.
Proof. by inversion 1. Qed.

Lemma lang_seq_iff r1 r2 s :
  lang (RSeq r1 r2) s ↔ ∃ s1 s2, s = s1 ++ s2 ∧ lang r1 s1 ∧ lang r2 s2.
Proof.
  split.
  - inversion 1; subst. by eauto.
  - intros (? & ? & -> & ? & ?). by constructor.
Qed.

Lemma lang_alt_iff r1 r2 s : lang (RAlt r1 r2) s ↔ lang r1 s ∨ lang r2 s.
Proof.
  split; [inversion 1; subst; auto|]. intros [?|?]; by constructor.
Qed.

Lemma lang_eps_iff s : lang REps s ↔ s = [].
Proof. split; [by inversion 1|]. intros ->. constructor. Qed.

Lemma lang_mk_seq r1 r2 s : lang (mk_seq r1 r2) s ↔ lang (RSeq r1 r2) s.
Proof.
  assert (He1 : ∀ r, lang REmpty s ↔ lang (RSeq REmpty r) s).
  { intros r. rewrite lang_seq_iff.
    split; [by intros ?%lang_empty|by intros (?&?&?&?%lang_empty&?)]. }
  assert (He2 : ∀ r, lang REmpty s ↔ lang (RSeq r REmpty) s).
  { intros r. rewrite lang_seq_iff.
    split; [by intros ?%lang_empty|by intros (?&?&?&?&?%lang_empty)]. }
  assert (He3 : ∀ r, lang r s ↔ lang (RSeq REps r) s).
  { intros r. rewrite lang_seq_iff. split.
    - intros. exists [], s. repeat split; [constructor|done].
    - intros (?&?&->&->%lang_eps_iff&?). done. }
  destruct r1, r2; simpl; auto.
Qed.

Lemma lang_mk_alt r1 r2 s : lang (mk_alt r1 r2) s ↔ lang (RAlt r1 r2) s.
Proof.
  pose proof (lang_empty s).
  destruct r1, r2; simpl; rewrite ?lang_alt_iff; tauto.
Qed.

Lemma nullable_spec r : nullable r = true ↔ lang r [].
Proof.
  induction r as [| |p|r1 IH1 r2 IH2|r1 IH1 r2 IH2|r IH]; simpl.
  - split; [done|]. by intros ?%lang_empty.
  - split; [constructor|done].
  - split; [done|inversion 1].
  - rewrite andb_true_iff, IH1, IH2, lang_seq_iff. split.
    + intros []. by exists [], [].
    + intros (s1 & s2 & Heq & ? & ?).
      symmetry in Heq. apply app_nil in Heq as [-> ->]. done.
  - rewrite orb_true_iff, IH1, IH2, lang_alt_iff. done.
  - split; [constructor|done].
Qed.

(** A non-empty word of [r*] starts with a non-empty word of [r]. *)
Lemma lang_star_cons_inv r c s :
  lang (RStar r) (c :: s) →
  ∃ s1 s2, s = s1 ++ s2 ∧ lang r (c :: s1) ∧ lang (RStar r) s2.
Proof.
  remember (RStar r) as r' eqn:Hr. remember (c :: s) as w eqn:Hw.
  intros H. revert s Hw Hr.
  induction H as [| | | | | |r0 s1 s2 H1 _ H2 IH2]; intros w' Hw Hr; simplify_eq.
  destruct s1 as [|x s1]; simpl in *; simplify_eq.
  - by apply IH2.
  - by eauto.
Qed.

Lemma deriv_spec c r s : lang (deriv c r) s ↔ lang r (c :: s).
Proof.
  revert s.
  induction r as [| |p|r1 IH1 r2 IH2|r1 IH1 r2 IH2|r IH]; intros s; simpl.
  - split; [by intros ?%lang_empty|by intros ?%lang_empty].
  - split; [by intros ?%lang_empty|by inversion 1].
  - destruct (p c) eqn:E.
    + rewrite lang_eps_iff. split; [intros ->; by constructor|by inversion 1].
    + split; [by intros ?%lang_empty|]. inversion 1; congruence.
  - assert (Hs : lang (RSeq r1 r2) (c :: s) ↔
      (∃ s1 s2, s = s1 ++ s2 ∧ lang r1 (c :: s1) ∧ lang r2 s2) ∨
      (lang r1 [] ∧ lang r2 (c :: s))).
    { rewrite lang_seq_iff. split.
      - intros ([|x s1] & s2 & Heq & ? & ?); simpl in *; simplify_eq; [by right|].
        left. by eauto.
      - intros [(s1 & s2 & -> & ? & ?)|[]].
        + by exists (c :: s1), s2.
        + by exists [], (c :: s). }
    assert (Hd : lang (mk_seq (deriv c r1) r2) s ↔
      ∃ s1 s2, s = s1 ++ s2 ∧ lang r1 (c :: s1) ∧ lang r2 s2).
    { rewrite lang_mk_seq, lang_seq_iff. by setoid_rewrite IH1. }
    rewrite Hs. destruct (nullable r1) eqn:E.
    + apply nullable_spec in E. rewrite lang_mk_alt, lang_alt_iff, Hd, IH2. tauto.
    + assert (¬ lang r1 []) by (rewrite <- nullable_spec; congruence).
      rewrite Hd. tauto.
  - rewrite lang_mk_alt, !lang_alt_iff, IH1, IH2. done.
  - rewrite lang_mk_seq, lang_seq_iff. setoid_rewrite IH. split.
    + intros (s1 & s2 & -> & ? & ?).
      change (c :: s1 ++ s2) with ((c :: s1) ++ s2). by constructor.
    + intros H. by apply lang_star_cons_inv.
Qed.

Lemma match_list_spec r s : match_list r s = true ↔ lang r s.
Proof.
  revert r. induction s as [|c s IH]; intros r; simpl.
  - apply nullable_spec.
  - by rewrite IH, deriv_spec.
Qed.

Lemma re_test_spec r s : re_test r s = true ↔ lang r (String.list_ascii_of_string s).
Proof. apply match_list_spec. Qed.

(** ** Character classes and bounded repetition *)

Definition in_range (lo hi : ascii) (c : ascii) : bool :=
  (nat_of_ascii lo <=? nat_of_ascii c) && (nat_of_ascii c <=? nat_of_ascii hi).

Definition is_lower : ascii → bool := in_range "a"%char "z"%char.
Definition is_upper : ascii → bool := in_range "A"%char "Z"%char.
Definition is_digit : ascii → bool := in_range "0"%char "9"%char.
Definition is_one_of (cs : string) (c : ascii) : bool := has_char c cs.

Fixpoint r_lit_list (s : list ascii) : re :=
  match s with
  | [] => REps
  | c :: s' => RSeq (RCls (λ x, bool_decide (x = c))) (r_lit_list s')
  end.

(** A literal text. *)
Definition r_lit (s : string) : re := r_lit_list (String.list_ascii_of_string s).

Fixpoint r_upto (n : nat) (r : re) : re :=
  match n with
  | O => REps
  | S n' => RAlt REps (RSeq r (r_upto n' r))
  end.

Fixpoint r_exact (n : nat) (r : re) : re :=
  match n with
  | O => REps
  | S n' => RSeq r (r_exact n' r)
  end.

(** [r{m,n}] *)
Definition r_range (m n : nat) (r : re) : re := RSeq (r_exact m r) (r_upto (n - m) r).

(** [r+] *)
Definition r_plus (r : re) : re := RSeq r (RStar r).

Lemma lang_r_upto_cls n p s :
  lang (r_upto n (RCls p)) s ↔ length s ≤ n ∧ Forall (λ c, p c = true) s.
Proof.
  revert s. induction n as [|n IH]; intros s; simpl.
  - rewrite lang_eps_iff. split; [intros ->; by split|].
    intros [H _]. by destruct s; simpl in *; [|lia].
  - rewrite lang_alt_iff, lang_eps_iff, lang_seq_iff. setoid_rewrite IH. split.
    + intros [->|(s1 & s2 & -> & H1 & ? & ?)]; [split; [simpl; lia|constructor]|].
      inversion H1; subst. simpl. split; [lia|by constructor].
    + intros [Hl Hf]. destruct s as [|c s]; [by left|right]. simpl in Hl.
      inversion Hf; subst. exists [c], s.
      repeat split; [by constructor|lia|done].
Qed.

Lemma lang_r_exact_cls n p s :
  lang (r_exact n (RCls p)) s ↔ length s = n ∧ Forall (λ c, p c = true) s.
Proof.
  revert s. induction n as [|n IH]; intros s; simpl.
  - rewrite lang_eps_iff. split; [intros ->; by split|].
    intros [H _]. by destruct s.
  - rewrite lang_seq_iff. setoid_rewrite IH. split.
    + intros (s1 & s2 & -> & H1 & ? & ?). inversion H1; subst. simpl.
      split; [lia|by constructor].
    + intros [Hl Hf]. destruct s as [|c s]; [done|]. simpl in Hl.
      inversion Hf; subst. exists [c], s.
      repeat split; [by constructor|lia|done].
Qed.

Lemma lang_r_range_cls m n p s :
  m ≤ n →
  lang (r_range m n (RCls p)) s ↔
  m ≤ length s ≤ n ∧ Forall (λ c, p c = true) s.
Proof.
  intros Hmn. unfold r_range. rewrite lang_seq_iff.
  setoid_rewrite lang_r_exact_cls. setoid_rewrite lang_r_upto_cls. split.
  - intros (s1 & s2 & -> & [? ?] & ? & ?). rewrite length_app, Forall_app. lia || split; [lia|done].
  - intros [Hl Hf]. exists (take m s), (drop m s).
    rewrite take_drop, length_take, length_drop.
    repeat split; [lia|by apply Forall_take|lia|by apply Forall_drop].
Qed.

Lemma lang_cls_seq p r s :
  lang (RSeq (RCls p) r) s ↔ ∃ c s', s = c :: s' ∧ p c = true ∧ lang r s'.
Proof.
  rewrite lang_seq_iff. split.
  - intros (s1 & s2 & -> & H & ?). inversion H; subst. by eauto.
  - intros (c & s' & -> & ? & ?). exists [c], s'. repeat split; [by constructor|done].
Qed.

Lemma lang_r_lit l s : lang (r_lit_list l) s ↔ s = l.
Proof.
  revert s. induction l as [|c l IH]; intros s; simpl; [apply lang_eps_iff|].
  rewrite lang_cls_seq. setoid_rewrite IH. split.
  - by intros (x & s' & -> & ->%bool_decide_eq_true & ->).
  - intros ->. exists c, l. by rewrite bool_decide_eq_true.
Qed.
