(* ===== verification/Lru.v ===== *)
(** * The insertion-order LRU cache

    [common/lru-cache.ts]: a [Map] whose iteration order is the recency order,
    oldest first. [get] re-inserts what it finds; [set] evicts the oldest entry
    when a fresh key would exceed the capacity. *)

From S2P Require Import Prelude.
Local Open Scope nat_scope.

Section lru.
Context {K V : Type} `{EqDecision K}.

Record LRUCache := { lru_map : list (K * V); lru_capacity : nat }.

Implicit Types (c : LRUCache) (k : K) (v : V).

(** The constructor refuses a capacity below one. *)
Definition lru_new (capacity : nat) : result string LRUCache :=
  if capacity <? 1 then Throw "LRUCache capacity must be a positive integer"%string
  else Ok {| lru_map := []; lru_capacity := capacity |}.

Definition with_map c m : LRUCache := {| lru_map := m; lru_capacity := lru_capacity c |}.

Definition lru_get c k : option V * LRUCache :=
  match OMap.get k (lru_map c) with
  | None => (None, c)
  | Some v => (Some v, with_map c (OMap.set k v (OMap.del k (lru_map c))))
  end.

Definition lru_set c k v : LRUCache :=
  let m :=
    if OMap.has k (lru_map c) then OMap.del k (lru_map c)
    else if lru_capacity c <=? length (lru_map c) then
      match lru_map c with
      | (oldest, _) :: _ => OMap.del oldest (lru_map c)
      | [] => []
      end
    else lru_map c in
  with_map c (OMap.set k v m).

Definition lru_has c k : bool := OMap.has k (lru_map c).
Definition lru_delete c k : LRUCache := with_map c (OMap.del k (lru_map c)).
Definition lru_size c : nat := length (lru_map c).
Definition lru_clear c : LRUCache := with_map c [].

(** What the next [get] returns, leaving the order alone. *)
Definition lru_peek c k : option V := OMap.get k (lru_map c).

(** ** Invariant: distinct keys, within capacity *)

Definition lru_wf c : Prop :=
  OMap.wf (lru_map c) ∧ length (lru_map c) ≤ lru_capacity c ∧ 1 ≤ lru_capacity c.

Lemma has_set_del k v (m : list (K * V)) :
  OMap.wf m → OMap.has k m = true → length (OMap.set k v (OMap.del k m)) = length m.
Proof.
  intros Hwf Hk. rewrite OMap.length_set. unfold OMap.has at 1.
  rewrite OMap.get_del_eq by done. by rewrite (OMap.length_del k m).
Qed.

Lemma lru_new_wf n c : lru_new n = Ok c → lru_wf c ∧ lru_map c = [].
Proof.
  unfold lru_new. destruct (Nat.ltb_spec n 1); intros; simplify_eq.
  repeat split; simpl; [constructor|lia|lia].
Qed.

Lemma lru_get_wf c k : lru_wf c → lru_wf (lru_get c k).2.
Proof.
  intros (Hwf & Hl & Hc). unfold lru_get.
  destruct (OMap.get k (lru_map c)) eqn:E; simpl; [|done].
  repeat split; simpl; [by auto using OMap.wf_set, OMap.wf_del| |done].
  rewrite has_set_del; [done|done|]. unfold OMap.has. by rewrite E.
Qed.

Lemma lru_get_value c k : (lru_get c k).1 = lru_peek c k.
Proof. unfold lru_get, lru_peek. by destruct (OMap.get k (lru_map c)). Qed.

(** A read changes the order only. *)
Lemma lru_get_peek c k k' : lru_wf c → lru_peek (lru_get c k).2 k' = lru_peek c k'.
Proof.
  intros (Hwf & _). unfold lru_get, lru_peek.
  destruct (OMap.get k (lru_map c)) eqn:E; simpl; [|done].
  rewrite OMap.get_set. case_bool_decide as Hk; [by subst|].
  by apply OMap.get_del_ne.
Qed.

Lemma evict_length (m : list (K * V)) k v oldest v0 m' :
  m = (oldest, v0) :: m' → OMap.has k m = false →
  length (OMap.set k v (OMap.del oldest m)) = length m.
Proof.
  intros -> Hk. cbn [OMap.del]. rewrite bool_decide_eq_true_2 by done.
  rewrite OMap.length_set. unfold OMap.has in *. simpl in Hk.
  case_bool_decide; [done|]. destruct (OMap.get k m'); [done|]. simpl. lia.
Qed.

Lemma lru_set_wf c k v : lru_wf c → lru_wf (lru_set c k v).
Proof.
  intros (Hwf & Hl & Hc). unfold lru_set. repeat split; simpl; [| |done].
  - apply OMap.wf_set. destruct (OMap.has k (lru_map c)); [by apply OMap.wf_del|].
    destruct (lru_capacity c <=? length (lru_map c)); [|done].
    destruct (lru_map c) as [|[o v0] m] eqn:E; [constructor|].
    by apply OMap.wf_del.
  - destruct (OMap.has k (lru_map c)) eqn:Ek; [by rewrite has_set_del|].
    destruct (Nat.leb_spec (lru_capacity c) (length (lru_map c))).
    + destruct (lru_map c) as [|[o v0] m] eqn:E; simpl in *; [lia|].
      case_bool_decide; [|done]. rewrite OMap.length_set.
      unfold OMap.has in *. simpl in Ek. case_bool_decide; [done|].
      destruct (OMap.get k m); [done|]. lia.
    + rewrite OMap.length_set, Ek. lia.
Qed.

Lemma lru_delete_wf c k : lru_wf c → lru_wf (lru_delete c k).
Proof.
  intros (Hwf & Hl & Hc). repeat split; simpl; [by apply OMap.wf_del| |done].
  destruct (OMap.has k (lru_map c)) eqn:Ek.
  - rewrite (OMap.length_del k) in Hl by done. lia.
  - by rewrite OMap.del_absent.
Qed.

(** ** What [set] keeps *)

(** The key a [set] of a fresh key evicts. *)
Definition lru_victim c k : option K :=
  if OMap.has k (lru_map c) then None
  else if lru_capacity c <=? length (lru_map c) then fst <$> head (lru_map c)
  else None.

Lemma lru_set_peek c k v k' :
  lru_wf c →
  lru_peek (lru_set c k v) k' =
  if bool_decide (k = k') then Some v
  else if bool_decide (lru_victim c k = Some k') then None
  else lru_peek c k'.
Proof.
  intros (Hwf & Hl & Hc). unfold lru_peek, lru_set, lru_victim; simpl.
  rewrite OMap.get_set. case_bool_decide as Hk; [done|].
  destruct (OMap.has k (lru_map c)).
  - rewrite bool_decide_eq_false_2 by done. by apply OMap.get_del_ne.
  - destruct (lru_capacity c <=? length (lru_map c)).
    + destruct (lru_map c) as [|[o v0] m] eqn:E; simpl; [done|].
      rewrite bool_decide_eq_true_2 by done.
      unfold OMap.wf in Hwf. simpl in Hwf. apply NoDup_cons in Hwf as [Ho Hm].
      case_bool_decide as Hv.
      * simplify_eq. by apply OMap.get_None_key.
      * case_bool_decide; [|done]. subst. by destruct Hv.
    + by rewrite bool_decide_eq_false_2.
Qed.

Lemma lru_delete_peek c k k' :
  lru_wf c →
  lru_peek (lru_delete c k) k' = if bool_decide (k = k') then None else lru_peek c k'.
Proof.
  intros (Hwf & _). unfold lru_peek, lru_delete; simpl.
  case_bool_decide; [subst; by apply OMap.get_del_eq|by apply OMap.get_del_ne].
Qed.

(** ** Recency *)

(** Keys, least recently used first. *)
Definition lru_order c : list K := OMap.keys (lru_map c).

Lemma lru_touch_last c k v : lru_wf c → last (lru_order (lru_set c k v)) = Some k.
Proof.
  intros (Hwf & Hl & Hc). unfold lru_order, lru_set; simpl.
  rewrite OMap.keys_set.
  assert (Hn : OMap.has k (if OMap.has k (lru_map c) then OMap.del k (lru_map c)
     else if lru_capacity c <=? length (lru_map c) then
      match lru_map c with
      | (oldest, _) :: _ => OMap.del oldest (lru_map c)
      | [] => []
      end
    else lru_map c) = false).
  { destruct (OMap.has k (lru_map c)) eqn:Ek.
    - unfold OMap.has. by rewrite OMap.get_del_eq.
    - destruct (lru_capacity c <=? length (lru_map c)); [|done].
      destruct (lru_map c) as [|[o v0] m] eqn:E; [done|]. simpl.
      rewrite bool_decide_eq_true_2 by done. unfold OMap.has in *. simpl in Ek.
      by case_bool_decide. }
  rewrite Hn. apply last_snoc.
Qed.
End lru.

Arguments LRUCache : clear implicits.

(** Operations as data, to run whole histories. *)
Inductive lru_op (K V : Type) : Type :=
| LGet (k : K)
| LSet (k : K) (v : V)
| LDelete (k : K)
| LClear.
Arguments LGet {K V}. Arguments LSet {K V}. Arguments LDelete {K V}. Arguments LClear {K V}.

Section histories.
Context {K V : Type} `{EqDecision K}.

Definition lru_step (c : LRUCache K V) (o : lru_op K V) : LRUCache K V :=
  match o with
  | LGet k => (lru_get c k).2
  | LSet k v => lru_set c k v
  | LDelete k => lru_delete c k
  | LClear => lru_clear c
  end.

Lemma lru_step_wf c o : lru_wf c → lru_wf (lru_step c o).
Proof.
  intros H. destruct o; simpl;
    [by apply lru_get_wf|by apply lru_set_wf|by apply lru_delete_wf|].
  destruct H as (_ & _ & ?). repeat split; simpl; [constructor|lia|done].
Qed.

Lemma lru_run_wf c os : lru_wf c → lru_wf (fold_left lru_step os c).
Proof.
  revert c. induction os as [|o os IH]; intros c H; simpl; [done|].
  by apply IH, lru_step_wf.
Qed.

Lemma lru_run_capacity c os : lru_capacity (fold_left lru_step os c) = lru_capacity c.
Proof.
  revert c. induction os as [|o os IH]; intros c; simpl; [done|].
  rewrite IH. destruct o; simpl; try done. unfold lru_get.
  by destruct (OMap.get k (lru_map c)).
Qed.

(** The unbounded map the cache approximates: every entry it returns is the
    last value set. *)
Definition map_step (m : K → option V) (o : lru_op K V) : K → option V :=
  match o with
  | LGet _ => m
  | LSet k v => λ k', if bool_decide (k = k') then Some v else m k'
  | LDelete k => λ k', if bool_decide (k = k') then None else m k'
  | LClear => λ _, None
  end.

Lemma lru_step_sound c m o :
  lru_wf c → (∀ k v, lru_peek c k = Some v → m k = Some v) →
  ∀ k v, lru_peek (lru_step c o) k = Some v → map_step m o k = Some v.
Proof.
  intros Hwf Hm k v. destruct o as [k0|k0 v0|k0|]; simpl.
  - rewrite lru_get_peek by done. auto.
  - rewrite lru_set_peek by done. case_bool_decide; [done|].
    case_bool_decide; [done|auto].
  - rewrite lru_delete_peek by done. case_bool_decide; [done|auto].
  - done.
Qed.

(** Cache soundness over any history. A fresh cache of positive capacity run
    through any operations never exceeds its capacity, and whatever a read
    returns is exactly the value last stored under that key and not deleted
    since: eviction loses entries, it never returns a wrong one. *)
Theorem lru_sound n c os k v :
  lru_new n = Ok c →
  lru_size (fold_left lru_step os c) ≤ n ∧
  ((lru_get (fold_left lru_step os c) k).1 = Some v →
   fold_left map_step os (λ _, None) k = Some v).
Proof.
  intros Hn. destruct (lru_new_wf n c Hn) as [Hwf Hempty].
  assert (Hcap : lru_capacity c = n).
  { unfold lru_new in Hn. destruct (n <? 1); by simplify_eq. }
  split.
  - destruct (lru_run_wf c os Hwf) as (_ & Hl & _).
    by rewrite lru_run_capacity, Hcap in Hl.
  - rewrite lru_get_value.
    assert (H0 : ∀ k v, lru_peek c k = Some v → (λ _ : K, @None V) k = Some v).
    { intros k' v'. unfold lru_peek. by rewrite Hempty. }
    clear Hn Hempty Hcap. revert c Hwf H0. generalize (λ _ : K, @None V).
    induction os as [|o os IH]; intros m c Hwf H0; simpl; [by apply H0|].
    apply IH; [by apply lru_step_wf|]. by apply lru_step_sound.
Qed.
End histories.

Lemma lru_sound_witness :
  let ops := [LSet 1 10; LSet 2 20; LGet 1; LSet 3 30] in
  ∃ c : LRUCache nat nat, lru_new 2 = Ok c ∧
    lru_order (fold_left lru_step ops c) = [1; 3] ∧
    lru_size (fold_left lru_step ops c) ≤ 2.
Proof.
  intros ops. eexists. split; [reflexivity|]. split; [reflexivity|].
  apply (lru_sound 2 _ ops 1 10 eq_refl).
Defined.
