(* ===== verification/Doubles.v ===== *)
(** * Doubles

    The order of IEEE doubles, as far as the components rely on it. *)

From S2P Require Import Prelude.

Lemma SFltb_irrefl (a : spec_float) : SpecFloat.SFltb a a = false.
Proof.
  unfold SpecFloat.SFltb, SpecFloat.SFcompare. destruct a as [|[]| |[] m e]; try done;
    rewrite Z.compare_refl, Pos.compare_cont_refl; done.
Qed.

Lemma SFltb_trans (a b c : spec_float) :
  SpecFloat.SFltb a b = true → SpecFloat.SFltb b c = true → SpecFloat.SFltb a c = true.
Proof.
  unfold SpecFloat.SFltb, SpecFloat.SFcompare.
  destruct a as [sa|sa| |sa ma ea], b as [sb|sb| |sb mb eb], c as [sc|sc| |sc mc ec];
    try done; try destruct sa; try destruct sb; try destruct sc; try done.
  - destruct (Z.compare_spec ea eb), (Z.compare_spec eb ec), (Z.compare_spec ea ec);
      try lia; try done; subst;
      change (PosDef.Pos.compare_cont Eq) with Pos.compare;
      destruct (Pos.compare_spec ma mb), (Pos.compare_spec mb mc), (Pos.compare_spec ma mc);
      simpl; try done; subst; lia.
  - destruct (Z.compare_spec ea eb), (Z.compare_spec eb ec), (Z.compare_spec ea ec);
      try lia; try done; subst;
      change (PosDef.Pos.compare_cont Eq) with Pos.compare;
      destruct (Pos.compare_spec ma mb), (Pos.compare_spec mb mc), (Pos.compare_spec ma mc);
      simpl; try done; subst; lia.
Qed.

Lemma float_ltb_irrefl (x : float) : PrimFloat.ltb x x = false.
Proof. rewrite ltb_spec. apply SFltb_irrefl. Qed.

Lemma float_ltb_trans (x y z : float) :
  PrimFloat.ltb x y = true → PrimFloat.ltb y z = true → PrimFloat.ltb x z = true.
Proof. rewrite !ltb_spec. apply SFltb_trans. Qed.

(** A strictly larger number is not below what the smaller was not below. *)
Lemma float_ltb_raise (x y z : float) :
  PrimFloat.ltb x y = true → PrimFloat.ltb x z = false → PrimFloat.ltb y z = false.
Proof.
  intros H1 H2. apply not_true_iff_false. intros H. pose proof (float_ltb_trans x y z H1 H).
  congruence.
Qed.

Lemma SFcompare_swap (a b : spec_float) :
  SpecFloat.SFcompare b a = CompOpp <$> SpecFloat.SFcompare a b.
Proof.
  unfold SpecFloat.SFcompare. destruct a as [[]|[]| |[] ma ea], b as [[]|[]| |[] mb eb]; try done; cbn;
    rewrite (Z.compare_antisym ea eb); destruct (Z.compare ea eb); cbn; try done;
    change (PosDef.Pos.compare_cont Eq) with Pos.compare; rewrite (Pos.compare_antisym ma mb); by rewrite ?CompOpp_involutive.
Qed.

(** Numbers that are not NaN are ordered one way or the other. *)
Lemma float_leb_ltb (a b : float) :
  PrimFloat.eqb a a = true → PrimFloat.eqb b b = true → PrimFloat.leb a b = negb (PrimFloat.ltb b a).
Proof.
  rewrite !eqb_spec, leb_spec, ltb_spec. unfold SpecFloat.SFeqb, SpecFloat.SFleb, SpecFloat.SFltb.
  rewrite (SFcompare_swap (Prim2SF a) (Prim2SF b)). intros Ha Hb.
  destruct (SpecFloat.SFcompare (Prim2SF a) (Prim2SF b)) as [[]|] eqn:E; try done.
  exfalso. unfold SpecFloat.SFcompare in *. by destruct (Prim2SF a) as [[]|[]| |[] ? ?], (Prim2SF b) as [[]|[]| |[] ? ?].
Qed.

Lemma float_leb_not_nan (a b : float) : PrimFloat.leb a b = true → PrimFloat.eqb b b = true.
Proof.
  rewrite eqb_spec, leb_spec. unfold SpecFloat.SFeqb, SpecFloat.SFleb, SpecFloat.SFcompare.
  destruct (Prim2SF a) as [[]|[]| |[] ma ea], (Prim2SF b) as [[]|[]| |[] mb eb]; try done;
    intros _; by rewrite ?Z.compare_refl, ?Pos.compare_cont_refl.
Qed.
