(* ===== verification/Resume.v ===== *)
(** * Requests as resumptions over a shared state

    A service call that awaits the database is a sequence of atomic statements
    with local computation in between: a resumption. Run alone it is a
    state-passing function; run in a pool, other calls' statements may fall
    between any two of its own. *)

From S2P Require Import Prelude.
Local Open Scope nat_scope.

Inductive prog (S A : Type) : Type :=
| Done (a : A)
| Stmt (f : S → S * prog S A).
Arguments Done {S A} a.
Arguments Stmt {S A} f.

Section resume.
Context {S : Type}.

Fixpoint run {A} (p : prog S A) (s : S) : S * A :=
  match p with
  | Done a => (s, a)
  | Stmt f => match f s with (s', p') => run p' s' end
  end.

Fixpoint pbind {A B} (p : prog S A) (k : A → prog S B) : prog S B :=
  match p with
  | Done a => k a
  | Stmt f => Stmt (λ s, match f s with (s', p') => (s', pbind p' k) end)
  end.

(** A statement that reads. *)
Definition query {A} (f : S → A) : prog S A := Stmt (λ s, (s, Done (f s))).

(** A statement that writes. *)
Definition exec (f : S → S) : prog S unit := Stmt (λ s, (f s, Done tt)).

(** A statement that writes and returns rows. *)
Definition update {A} (f : S → S * A) : prog S A :=
  Stmt (λ s, match f s with (s', a) => (s', Done a) end).

Lemma run_bind {A B} (p : prog S A) (k : A → prog S B) s :
  run (pbind p k) s = run (k (run p s).2) (run p s).1.
Proof.
  revert p s. fix IH 1. intros p s. destruct p as [a|f]; simpl; [done|].
  destruct (f s) as [s' p']. apply IH.
Qed.

Lemma run_query {A} (f : S → A) s : run (query f) s = (s, f s).
Proof. done. Qed.
Lemma run_exec f s : run (exec f) s = (f s, tt).
Proof. done. Qed.
Lemma run_update {A} (f : S → S * A) s : run (update f) s = f s.
Proof. unfold update; simpl. by destruct (f s). Qed.
End resume.

Notation "'do*' x ':=' m 'in' k" := (pbind m (λ x, k))
  (at level 10, x binder, m at level 100, k at level 200) : brain_scope.

(** Calls that may throw: an exception skips the rest. *)
Definition ebind {S E A B} (p : prog S (result E A)) (k : A → prog S (result E B)) :
    prog S (result E B) :=
  pbind p (λ r, match r with Ok a => k a | Throw e => Done (Throw e) end).

Notation "'try*' x ':=' m 'in' k" := (ebind m (λ x, k))
  (at level 10, x binder, m at level 100, k at level 200) : brain_scope.

Lemma run_ebind {S E A B} (p : prog S (result E A)) (k : A → prog S (result E B)) s :
  run (ebind p k) s =
  match (run p s).2 with
  | Ok a => run (k a) (run p s).1
  | Throw e => ((run p s).1, Throw e)
  end.
Proof. unfold ebind. rewrite run_bind. by destruct (run p s).2. Qed.

(** ** Interleaving *)

Section pool.
Context {S A : Type}.

(** One statement of thread [i]; nothing happens when it has finished. *)
Definition step_at (i : nat) (c : S * list (prog S A)) : S * list (prog S A) :=
  match c.2 !! i with
  | Some (Stmt f) => match f c.1 with (s', p') => (s', <[i := p']> c.2) end
  | _ => c
  end.

(** The schedule lists which thread moves next. *)
Definition run_pool (sched : list nat) (c : S * list (prog S A)) :
    S * list (prog S A) :=
  fold_left (λ c i, step_at i c) sched c.

(** Every statement the program can reach preserves [I]. *)
Fixpoint preserves (I : S → Prop) (p : prog S A) : Prop :=
  match p with
  | Done _ => True
  | Stmt f => ∀ s, match f s with (s', p') => (I s → I s') ∧ preserves I p' end
  end.

Lemma step_at_preserves I i c :
  I c.1 → Forall (preserves I) c.2 →
  I (step_at i c).1 ∧ Forall (preserves I) (step_at i c).2.
Proof.
  intros HI Hp. unfold step_at. destruct (c.2 !! i) as [[a|f]|] eqn:E; [done| |done].
  pose proof (Forall_lookup_1 _ _ _ _ Hp E) as Hf. simpl in Hf.
  specialize (Hf c.1). destruct (f c.1) as [s' p']. destruct Hf as [Hf ?]. simpl.
  split; [auto|]. by apply Forall_insert.
Qed.

Lemma run_pool_preserves I sched c :
  I c.1 → Forall (preserves I) c.2 → I (run_pool sched c).1.
Proof.
  revert c. induction sched as [|i sched IH]; intros c HI Hp; simpl; [done|].
  destruct (step_at_preserves I i c HI Hp). by apply IH.
Qed.

(** A thread scheduled to its end without interruption is [run]. *)
Lemma run_pool_app s1 s2 c : run_pool (s1 ++ s2) c = run_pool s2 (run_pool s1 c).
Proof. apply fold_left_app. Qed.
End pool.

Section preserving.
Context {S : Type} (I : S → Prop).

Lemma preserves_bind {A B} (p : prog S A) (k : A → prog S B) :
  preserves I p → (∀ a, preserves I (k a)) → preserves I (pbind p k).
Proof.
  revert p. fix IH 1. intros p Hp Hk. destruct p as [a|f]; simpl in *; [apply Hk|].
  intros s. specialize (Hp s). destruct (f s) as [s' p']. destruct Hp as [? Hp'].
  split; [done|]. by apply IH.
Qed.

(** What comes after a call that always ends the same does not matter. *)
Lemma preserves_quiet {A B} (p : prog S A) (b : B) :
  preserves I (pbind p (λ _, Done b)) → preserves I p.
Proof.
  revert p. fix IH 1. intros p Hp. destruct p as [a|f]; simpl in *; [done|].
  intros s. specialize (Hp s). destruct (f s) as [s' p']. destruct Hp as [? Hp']. split; [done|].
  by apply IH.
Qed.

Lemma preserves_query {A} (f : S → A) : preserves I (query f).
Proof. intros s. simpl. done. Qed.

Lemma preserves_exec (f : S → S) : (∀ s, I s → I (f s)) → preserves I (exec f).
Proof. intros H s. simpl. auto. Qed.

Lemma preserves_update {A} (f : S → S * A) :
  (∀ s, I s → I (f s).1) → preserves I (update f).
Proof. intros H s. simpl. specialize (H s). by destruct (f s). Qed.
End preserving.

#[export] Hint Resolve preserves_bind preserves_query : brain.

(** ** At most one winner *)

(** [P] is what a winner consumes: a call may end well only if it passed a
    statement that found [P] and left it false, and nothing restores [P]. *)
Section once.
Context {S A : Type} (P : S → Prop) (ok : A → bool).

Fixpoint wins (p : prog S A) (won : bool) : Prop :=
  match p with
  | Done a => ok a = true → won = true
  | Stmt f => ∀ s,
      match f s with
      | (s', p') =>
          (¬ P s → ¬ P s') ∧
          (wins p' won ∨ (won = false ∧ P s ∧ ¬ P s' ∧ wins p' true))
      end
  end.

(** Nothing in the call touches [P]: it cannot win. *)
Lemma wins_bind {B} (p : prog S B) (k : B → prog S A) won :
  preserves (λ s, ¬ P s) p → (∀ b, wins (k b) won) → wins (pbind p k) won.
Proof.
  revert p. fix IH 1. intros p Hp Hk. destruct p as [b|f]; simpl in *; [apply Hk|].
  intros s. specialize (Hp s). destruct (f s) as [s' p']. destruct Hp.
  split; [done|]. left. by apply IH.
Qed.

Lemma wins_quiet {B} (p : prog S B) (a : A) won :
  preserves (λ s, ¬ P s) (pbind p (λ _, Done a)) → ok a = false →
  wins (pbind p (λ _, Done a)) won.
Proof.
  revert p. fix IH 1. intros p Hp Ha. destruct p as [b|f]; simpl in *; [congruence|].
  intros s. specialize (Hp s). destruct (f s) as [s' p']. destruct Hp.
  split; [done|]. left. by apply IH.
Qed.

Definition one_winner (c : S * list (prog S A)) (ws : list bool) : Prop :=
  Forall2 wins c.2 ws ∧
  (∀ i j, ws !! i = Some true → ws !! j = Some true → i = j) ∧
  (true ∈ ws → ¬ P c.1).

Lemma one_winner_step i c ws :
  one_winner c ws → ∃ ws', one_winner (step_at i c) ws'.
Proof.
  intros (Hf & Hu & Hp). unfold step_at.
  destruct (c.2 !! i) as [[a|f]|] eqn:E; [by exists ws| |by exists ws].
  destruct (Forall2_lookup_l _ _ _ _ _ Hf E) as (w & Ew & Hw). simpl in Hw.
  specialize (Hw c.1). destruct (f c.1) as [s' p']. destruct Hw as [Hk [Hw|Hw]].
  - exists ws. split_and!; simpl; [|done|by auto].
    rewrite <- (list_insert_id ws i w) by done. by apply Forall2_insert.
  - destruct Hw as (-> & HP & HP' & Hw). exists (<[i := true]> ws).
    assert (Hno : ∀ j, ws !! j = Some true → False).
    { intros j Hj. apply Hp; [|done]. by eapply list_elem_of_lookup_2. }
    split_and!; simpl; [by apply Forall2_insert| |done].
    assert (Hi : ∀ j, <[i:=true]> ws !! j = Some true → j = i).
    { intros j. rewrite list_lookup_insert. case_decide as Hd.
      - intros _. by destruct Hd.
      - intros H. by destruct (Hno j). }
    intros j k Hj Hk'. by rewrite (Hi j), (Hi k).
Qed.

Lemma at_most_one sched c i j a b :
  Forall (λ p, wins p false) c.2 →
  (run_pool sched c).2 !! i = Some (Done a) → ok a = true →
  (run_pool sched c).2 !! j = Some (Done b) → ok b = true → i = j.
Proof.
  intros Hall Hi Ha Hj Hb.
  assert (H0 : ∃ ws, one_winner c ws).
  { exists (replicate (length c.2) false). split_and!.
    - by apply Forall2_replicate_r.
    - intros k ? [? _]%lookup_replicate. done.
    - intros [? _]%elem_of_replicate. done. }
  assert (H : ∃ ws, one_winner (run_pool sched c) ws).
  { clear -H0. revert c H0. induction sched as [|k sched IH]; intros c H0; simpl; [done|].
    apply IH. destruct H0 as [ws H0]. by eapply one_winner_step. }
  destruct H as (ws & Hf & Hu & _).
  destruct (Forall2_lookup_l _ _ _ _ _ Hf Hi) as (w1 & E1 & W1).
  destruct (Forall2_lookup_l _ _ _ _ _ Hf Hj) as (w2 & E2 & W2).
  simpl in W1, W2. apply Hu; [by rewrite E1, W1|by rewrite E2, W2].
Qed.
End once.

(** ** At most one winner, with what each thread knows *)

(** A thread may act on what an earlier statement told it: [K] is what it knows,
    which every step of anyone keeps ([stable]). *)
Section rely.
Context {S A : Type} (R : S → S → Prop) (P : S → Prop) (ok : A → bool).
Hypothesis R_P : ∀ s s', R s s' → ¬ P s → ¬ P s'.

Definition stable (K : S → Prop) : Prop := ∀ s s', K s → R s s' → K s'.

Fixpoint relies (K : S → Prop) (p : prog S A) (won : bool) : Prop :=
  match p with
  | Done a => ok a = true → won = true
  | Stmt f => ∀ s, K s →
      match f s with
      | (s', p') =>
          R s s' ∧ ∃ K' : S → Prop, K' s' ∧ stable K' ∧
            (relies K' p' won ∨ (won = false ∧ P s ∧ ¬ P s' ∧ relies K' p' true))
      end
  end.

Definition knows (s : S) (p : prog S A) (won : bool) : Prop :=
  ∃ K, K s ∧ stable K ∧ relies K p won.

Definition one_knowing (c : S * list (prog S A)) (ws : list bool) : Prop :=
  Forall2 (knows c.1) c.2 ws ∧
  (∀ i j, ws !! i = Some true → ws !! j = Some true → i = j) ∧
  (true ∈ ws → ¬ P c.1).

Lemma knows_step s s' p w : R s s' → knows s p w → knows s' p w.
Proof. intros HR (K & HK & Hs & Hr). exists K. split_and!; [by eapply Hs|done|done]. Qed.

Lemma one_knowing_step i c ws :
  one_knowing c ws → ∃ ws', one_knowing (step_at i c) ws'.
Proof.
  intros (Hf & Hu & Hp). unfold step_at.
  destruct (c.2 !! i) as [[a|f]|] eqn:E; [by exists ws| |by exists ws].
  destruct (Forall2_lookup_l _ _ _ _ _ Hf E) as (w & Ew & K & HK & _ & Hr). simpl in Hr.
  specialize (Hr c.1 HK). destruct (f c.1) as [s' p']. destruct Hr as (HR & K' & HK' & Hs' & Hr).
  assert (Hf' : Forall2 (knows s') c.2 ws)
    by (eapply Forall2_impl; [exact Hf|]; intros; by eapply knows_step).
  destruct Hr as [Hr|(-> & HP & HP' & Hr)].
  - exists ws. split_and!; simpl; [|done|].
    + rewrite <- (list_insert_id ws i w) by done.
      apply Forall2_insert; [done|by exists K'].
    + intros Ht. by apply (R_P c.1); auto.
  - exists (<[i := true]> ws).
    assert (Hno : ∀ j, ws !! j = Some true → False).
    { intros j Hj. apply Hp; [|done]. by eapply list_elem_of_lookup_2. }
    split_and!; simpl; [apply Forall2_insert; [done|by exists K']| |done].
    assert (Hi : ∀ j, <[i:=true]> ws !! j = Some true → j = i).
    { intros j. rewrite list_lookup_insert. case_decide as Hd.
      - intros _. by destruct Hd.
      - intros H. by destruct (Hno j). }
    intros j k Hj Hk'. by rewrite (Hi j), (Hi k).
Qed.

Lemma at_most_one_knowing sched c i j a b :
  Forall (λ p, knows c.1 p false) c.2 →
  (run_pool sched c).2 !! i = Some (Done a) → ok a = true →
  (run_pool sched c).2 !! j = Some (Done b) → ok b = true → i = j.
Proof.
  intros Hall Hi Ha Hj Hb.
  assert (H0 : ∃ ws, one_knowing c ws).
  { exists (replicate (length c.2) false). split_and!.
    - by apply Forall2_replicate_r.
    - intros k ? [? _]%lookup_replicate. done.
    - intros [? _]%elem_of_replicate. done. }
  assert (H : ∃ ws, one_knowing (run_pool sched c) ws).
  { clear -H0 R_P. revert c H0. induction sched as [|k sched IH]; intros c H0; simpl; [done|].
    apply IH. destruct H0 as [ws H0]. by eapply one_knowing_step. }
  destruct H as (ws & Hf & Hu & _).
  destruct (Forall2_lookup_l _ _ _ _ _ Hf Hi) as (w1 & E1 & K1 & _ & _ & W1).
  destruct (Forall2_lookup_l _ _ _ _ _ Hf Hj) as (w2 & E2 & K2 & _ & _ & W2).
  simpl in W1, W2. apply Hu; [by rewrite E1, W1|by rewrite E2, W2].
Qed.
End rely.

(** ** Calls that hold what no one else may touch *)

(** A pool with a note on each thread: [I] relates the state to the notes of all. A
    statement may change the thread's own note, and every other note must still hold. *)
Section notes.
Context {S A G : Type} (I : S → list G → Prop).

Fixpoint follows {B} (Q : G → B → Prop) (g : G) (p : prog S B) : Prop :=
  match p with
  | Done a => Q g a
  | Stmt f => ∀ s gs i, I s gs → gs !! i = Some g →
      ∃ g', I (f s).1 (<[i := g']> gs) ∧ follows Q g' (f s).2
  end.

Lemma follows_bind {B C} (Q1 : G → B → Prop) (Q : G → C → Prop) g (p : prog S B) (k : B → prog S C) :
  follows Q1 g p → (∀ g' b, Q1 g' b → follows Q g' (k b)) → follows Q g (pbind p k).
Proof.
  revert p g. fix IH 1. intros [b|f] g Hp Hk; cbn in *; [auto|]. intros s gs i HI Hi.
  destruct (Hp s gs i HI Hi) as (g' & HI' & Hp'). destruct (f s) as [s' p']. cbn in *.
  exists g'. split; [done|]. by apply IH.
Qed.

Lemma follows_post {B} (Q Q' : G → B → Prop) g (p : prog S B) :
  (∀ g' b, Q g' b → Q' g' b) → follows Q g p → follows Q' g p.
Proof.
  intros HQ. revert p g. fix IH 1. intros [b|f] g Hp; cbn in *; [auto|]. intros s gs i HI Hi.
  destruct (Hp s gs i HI Hi) as (g' & HI' & Hp'). destruct (f s) as [s' p']. cbn in *.
  exists g'. split; [done|]. by apply IH.
Qed.

Lemma follows_query {B} (Q : G → B → Prop) g (f : S → B) :
  (∀ s gs i, I s gs → gs !! i = Some g → ∃ g', I s (<[i := g']> gs) ∧ Q g' (f s)) → follows Q g (query f).
Proof. intros H s gs i HI Hi. by apply H. Qed.

Lemma follows_update {B} (Q : G → B → Prop) g (f : S → S * B) :
  (∀ s gs i, I s gs → gs !! i = Some g → ∃ g', I (f s).1 (<[i := g']> gs) ∧ Q g' (f s).2) →
  follows Q g (update f).
Proof. intros H s gs i HI Hi. cbn. specialize (H s gs i HI Hi). by destruct (f s). Qed.

Lemma follows_exec (Q : G → unit → Prop) g (f : S → S) :
  (∀ s gs i, I s gs → gs !! i = Some g → ∃ g', I (f s) (<[i := g']> gs) ∧ Q g' tt) → follows Q g (exec f).
Proof. intros H s gs i HI Hi. by apply H. Qed.

Lemma pool_follows sched (c : S * list (prog S A)) gs (Q : nat → G → A → Prop) :
  I c.1 gs →
  (∀ i p, c.2 !! i = Some p → ∃ g, gs !! i = Some g ∧ follows (Q i) g p) →
  ∃ gs', I (run_pool sched c).1 gs' ∧
    ∀ i p, (run_pool sched c).2 !! i = Some p → ∃ g, gs' !! i = Some g ∧ follows (Q i) g p.
Proof.
  revert c gs. induction sched as [|k sched IH]; intros c gs HI Hf; [by exists gs|].
  cbn [run_pool fold_left]. unfold step_at at 2 4.
  destruct (c.2 !! k) as [[a|f]|] eqn:E; [by apply (IH c gs)| |by apply (IH c gs)].
  destruct (Hf k _ E) as (g & Eg & Hp). destruct (Hp c.1 gs k HI Eg) as (g' & HI' & Hp').
  destruct (f c.1) as [s' p']. cbn in *. apply (IH (s', <[k:=p']> c.2) (<[k:=g']> gs)); [done|].
  intros i p. cbn. destruct (decide (i = k)) as [->|Hne].
  - rewrite !list_lookup_insert_eq by (by eapply lookup_lt_Some). intros [= <-]. eauto.
  - rewrite !list_lookup_insert_ne by done. apply Hf.
Qed.
End notes.

(** ** What a call ends with, whatever falls between its statements *)

(** A call whose statements move the state within [R], knowing [K], ends in [Q]. *)
Section guarantee.
Context {S : Type} (R : S → S → Prop).

Fixpoint ensures {A} (K : S → Prop) (p : prog S A) (Q : A → S → Prop) : Prop :=
  match p with
  | Done a => ∀ s, K s → Q a s
  | Stmt f => ∀ s, K s →
      match f s with
      | (s', p') => R s s' ∧ ∃ K' : S → Prop, K' s' ∧ stable R K' ∧ ensures K' p' Q
      end
  end.

Lemma ensures_weaken {A} (K K' : S → Prop) (p : prog S A) Q :
  (∀ s, K s → K' s) → ensures K' p Q → ensures K p Q.
Proof. destruct p; cbn; intros HK Hp s Hs; apply Hp; auto. Qed.

Lemma ensures_post {A} (p : prog S A) (K : S → Prop) (Q Q' : A → S → Prop) :
  (∀ a s, Q a s → Q' a s) → ensures K p Q → ensures K p Q'.
Proof.
  intros HQ. revert p K. fix IH 1. intros [a|f] K Hp; cbn in *; [auto|].
  intros s Hs. specialize (Hp s Hs). destruct (f s) as [s' p']. destruct Hp as (HR & K' & ? & ? & Hp).
  split; [done|]. exists K'. split_and!; [done..|]. by apply IH.
Qed.

Lemma ensures_bind {A B} (p : prog S A) (k : A → prog S B) K Q1 Q :
  (∀ a, stable R (Q1 a)) → ensures K p Q1 → (∀ a, ensures (Q1 a) (k a) Q) → ensures K (pbind p k) Q.
Proof.
  intros Hst. revert p K. fix IH 1. intros [a|f] K Hp Hk; cbn in *.
  - by apply (ensures_weaken K (Q1 a)).
  - intros s Hs. specialize (Hp s Hs). destruct (f s) as [s' p']. destruct Hp as (HR & K' & ? & ? & Hp).
    split; [done|]. exists K'. split_and!; [done..|]. by apply IH.
Qed.

(** What is stable and known before is known after. *)
Lemma ensures_frame {A} (F K : S → Prop) (p : prog S A) Q :
  stable R F → ensures K p Q → ensures (λ s, F s ∧ K s) p (λ a s, F s ∧ Q a s).
Proof.
  intros HF. revert p K. fix IH 1. intros [a|f] K Hp; cbn in *; [intros s [H1 H2]; auto|].
  intros s [Hf Hs]. specialize (Hp s Hs). destruct (f s) as [s' p']. destruct Hp as (HR & K' & H' & Hst & Hp).
  split; [done|]. exists (λ s, F s ∧ K' s). split_and!; [by eapply HF|done| |by apply IH].
  intros s1 s2 [H1 H2] H3. split; [by eapply HF|by eapply Hst].
Qed.

(** Alone, such a call is [run]. *)
Lemma ensures_run {A} (K : S → Prop) (p : prog S A) Q s :
  ensures K p Q → K s → Q (run p s).2 (run p s).1.
Proof.
  revert p K s. fix IH 1. intros [a|f] K s Hp Hs; cbn in *; [auto|].
  specialize (Hp s Hs). destruct (f s) as [s' p']. destruct Hp as (_ & K' & H' & _ & Hp). by apply (IH p' K').
Qed.

Lemma ensures_moves {A} (K : S → Prop) (p : prog S A) Q s :
  (∀ s, R s s) → (∀ s1 s2 s3, R s1 s2 → R s2 s3 → R s1 s3) → ensures K p Q → K s → R s (run p s).1.
Proof.
  intros Hr Ht. revert p K s. fix IH 1. intros [a|f] K s Hp Hs; cbn in *; [auto|].
  specialize (Hp s Hs). destruct (f s) as [s' p']. destruct Hp as (HR & K' & H' & _ & Hp).
  eapply Ht; [exact HR|]. by apply (IH p' K').
Qed.

Lemma ensures_query_refl {A} (K : S → Prop) (f : S → A) (Q : A → S → Prop) :
  (∀ s, R s s) → (∀ a, stable R (Q a)) → (∀ s, K s → Q (f s) s) → ensures K (query f) Q.
Proof. intros Hr Hst H s Hs. cbn. split; [done|]. exists (Q (f s)). split_and!; [auto|apply Hst|auto]. Qed.

Lemma ensures_update {A} (K : S → Prop) (f : S → S * A) (Q : A → S → Prop) :
  (∀ a, stable R (Q a)) → (∀ s, K s → R s (f s).1 ∧ Q (f s).2 (f s).1) → ensures K (update f) Q.
Proof.
  intros Hst H s Hs. cbn. specialize (H s Hs). destruct (f s) as [s' a]. destruct H as [H1 H2].
  split; [done|]. exists (Q a). split; [exact H2|]. split; [apply Hst|]. intros s0 H0. exact H0.
Qed.

Lemma ensures_absurd {A} (K : S → Prop) (p : prog S A) Q : (∀ s, ¬ K s) → ensures K p Q.
Proof. intros HK. destruct p; intros s Hs; by destruct (HK s). Qed.

Lemma ensures_done {A} (K : S → Prop) (a : A) (Q : A → S → Prop) : (∀ s, K s → Q a s) → ensures K (Done a) Q.
Proof. done. Qed.

(** Every statement, from any state, moves within [R]. *)
Fixpoint always {A} (p : prog S A) : Prop :=
  match p with
  | Done _ => True
  | Stmt f => ∀ s, R s (f s).1 ∧ always (f s).2
  end.

Lemma always_bind {A B} (p : prog S A) (k : A → prog S B) :
  always p → (∀ a, always (k a)) → always (pbind p k).
Proof.
  revert p. fix IH 1. intros [a|f] Hp Hk; cbn in *; [apply Hk|]. intros s. destruct (Hp s) as [H1 H2].
  destruct (f s) as [s' p']. cbn in *. split; [done|]. by apply IH.
Qed.

Lemma always_query {A} (f : S → A) : (∀ s, R s s) → always (query f).
Proof. intros H s. by split. Qed.

Lemma always_exec (f : S → S) : (∀ s, R s (f s)) → always (exec f).
Proof. intros H s. by split. Qed.

Lemma always_update {A} (f : S → S * A) : (∀ s, R s (f s).1) → always (update f).
Proof. intros H s. cbn. specialize (H s). by destruct (f s). Qed.

Lemma always_ensures {A} (p : prog S A) K : stable R K → always p → ensures K p (λ _, K).
Proof.
  intros Hst. revert p. fix IH 1. intros [a|f] Hp; cbn in *; [done|]. intros s Hs. destruct (Hp s) as [H1 H2].
  destruct (f s) as [s' p']. cbn in *. split; [done|]. exists K. split_and!; [by eapply Hst|done|by apply IH].
Qed.

Lemma always_ensures_any {A} (p : prog S A) K : always p → ensures K p (λ _ _, True).
Proof.
  intros Hp. apply (ensures_weaken K (λ _, True)); [done|]. by apply (always_ensures p (λ _, True)).
Qed.

Lemma always_run {A} (p : prog S A) s :
  (∀ s, R s s) → (∀ s1 s2 s3, R s1 s2 → R s2 s3 → R s1 s3) → always p → R s (run p s).1.
Proof.
  intros Hr Ht. revert p s. fix IH 1. intros [a|f] s Hp; cbn in *; [done|]. destruct (Hp s) as [H1 H2].
  destruct (f s) as [s' p']. cbn in *. by eapply Ht; [|apply IH].
Qed.

Lemma always_preserves {A} (I : S → Prop) (p : prog S A) :
  (∀ s s', I s → R s s' → I s') → always p → preserves I p.
Proof.
  intros HI. revert p. fix IH 1. intros [a|f] Hp; cbn in *; [done|]. intros s. destruct (Hp s) as [H1 H2].
  destruct (f s) as [s' p']. cbn in *. split; [intros H; by eapply HI|by apply IH].
Qed.

Definition assured {A} (s : S) (p : prog S A) (Q : A → S → Prop) : Prop :=
  ∃ K, K s ∧ stable R K ∧ ensures K p Q.

Lemma pool_ends_assured {A} sched (c : S * list (prog S A)) (Qs : list (A → S → Prop)) i a Q :
  Forall2 (assured c.1) c.2 Qs → (run_pool sched c).2 !! i = Some (Done a) → Qs !! i = Some Q →
  Q a (run_pool sched c).1.
Proof.
  revert c. induction sched as [|k sched IH]; intros c Hf Hi HQ; cbn [run_pool fold_left] in *.
  - destruct (Forall2_lookup_r _ _ _ _ _ Hf HQ) as (p & Ep & K & HK & _ & He).
    assert (p = Done a) as -> by congruence. by apply He.
  - apply IH; [|done..]. clear IH Hi HQ. unfold step_at. destruct (c.2 !! k) as [[b|f]|] eqn:E; [done| |done].
    destruct (Forall2_lookup_l _ _ _ _ _ Hf E) as (Qk & EQ & K & HK & _ & He). cbn in He.
    specialize (He c.1 HK). destruct (f c.1) as [s' p']. destruct He as (HR & K' & HK' & Hs' & He). cbn.
    assert (Hmv : Forall2 (assured s') c.2 Qs).
    { eapply Forall2_impl; [exact Hf|]. intros p Q' (K0 & H0 & Hst & He0). exists K0.
      split_and!; [by eapply Hst|done..]. }
    rewrite <- (list_insert_id Qs k Qk) by done. apply Forall2_insert; [done|]. by exists K'.
Qed.

(** Whatever the threads know, the pool moves within [R]. *)
Lemma pool_moves {A} sched (c : S * list (prog S A)) (Qs : list (A → S → Prop)) :
  (∀ s, R s s) → (∀ s1 s2 s3, R s1 s2 → R s2 s3 → R s1 s3) → Forall2 (assured c.1) c.2 Qs → R c.1 (run_pool sched c).1.
Proof.
  intros Hr Ht. revert c. induction sched as [|k sched IH]; intros c Hf; cbn [run_pool fold_left]; [apply Hr|].
  assert (H : R c.1 (step_at k c).1 ∧ Forall2 (assured (step_at k c).1) (step_at k c).2 Qs); [|destruct H as [H1 H2]; by eapply Ht, IH].
  unfold step_at. destruct (c.2 !! k) as [[b|f]|] eqn:E; [by split; [apply Hr|]| |by split; [apply Hr|]].
  destruct (Forall2_lookup_l _ _ _ _ _ Hf E) as (Qk & EQ & K & HK & _ & He). cbn in He.
  specialize (He c.1 HK). destruct (f c.1) as [s' p']. destruct He as (HR & K' & HK' & Hs' & He). cbn. split; [done|].
  rewrite <- (list_insert_id Qs k Qk) by done. apply Forall2_insert; [|by exists K'].
  eapply Forall2_impl; [exact Hf|]. intros p Q' (K0 & H0 & Hst & He0). exists K0. by split_and!; [eapply Hst|..].
Qed.
End guarantee.

(** ** A call on one part of the state *)

Section zoom.
Context {S T : Type} (get : S → T) (put : T → S → S).

Fixpoint zoom {A} (p : prog T A) : prog S A :=
  match p with
  | Done a => Done a
  | Stmt f => Stmt (λ s, (put (f (get s)).1 s, zoom (f (get s)).2))
  end.

Lemma run_zoom {A} (p : prog T A) s :
  (∀ t s, get (put t s) = t) → (∀ t t' s, put t (put t' s) = put t s) → (∀ s, put (get s) s = s) →
  run (zoom p) s = (put (run p (get s)).1 s, (run p (get s)).2).
Proof.
  intros Hgp Hpp Hpg. revert p s. fix IH 1. intros [a|f] s; cbn; [by rewrite Hpg|].
  destruct (f (get s)) as [t p']. cbn. rewrite IH, Hgp, Hpp. done.
Qed.

Lemma always_zoom {A} (R : S → S → Prop) (p : prog T A) : (∀ t s, R s (put t s)) → always R (zoom p).
Proof. intros H. revert p. fix IH 1. intros [a|f]; cbn; [done|]. intros s. split; [apply H|apply IH]. Qed.

(** What the part's statements guarantee, seen from the whole. *)
Lemma always_zoom_in {A} (RT : T → T → Prop) (R : S → S → Prop) (p : prog T A) :
  (∀ t s, RT (get s) t → R s (put t s)) → always RT p → always R (zoom p).
Proof.
  intros H. revert p. fix IH 1. intros [a|f] Hp; cbn in *; [done|]. intros s. destruct (Hp (get s)) as [H1 H2].
  split; [by apply H|]. by apply IH.
Qed.
End zoom.
