(* ===== verification/UnionFind.v ===== *)
(** * Union-find over alias strings

    [AliasUnionFind] of [documents/candidate-merge.ts]: parent pointers in a map,
    path compression on find, the smaller root kept on union. A parent is never
    larger than its child, which bounds every walk by the number of aliases; the
    root of a class is its smallest alias, so it does not depend on the order in
    which aliases were united. *)

From S2P Require Import Prelude.
From stdpp Require Import relations.
Local Open Scope nat_scope.

(** ** The order of strings *)

Definition str_le (a b : string) : Prop := String.leb a b = true.

(** [a < b] *)
Definition str_ltb (a b : string) : bool := String.leb a b && negb (bool_decide (a = b)).

Lemma str_le_trans a b c : str_le a b → str_le b c → str_le a c.
Proof.
  unfold str_le. intros H1 H2.
  assert (H : Is_true (String.leb a c)); [|by apply Is_true_true in H].
  apply (transitivity (R := String.le) (y := b)); by apply Is_true_true.
Qed.

Lemma str_le_refl a : str_le a a.
Proof. unfold str_le. by destruct (String.leb_total a a). Qed.

Lemma str_ltb_spec a b : str_ltb a b = true ↔ str_le a b ∧ a ≠ b.
Proof. unfold str_ltb. by rewrite andb_true_iff, bool_decide_neg_true. Qed.

Lemma str_ltb_irrefl a : str_ltb a a = false.
Proof. apply not_true_iff_false. rewrite str_ltb_spec. tauto. Qed.

Lemma str_ltb_le_trans a b c : str_ltb a b = true → str_le b c → str_ltb a c = true.
Proof.
  rewrite !str_ltb_spec. intros [H1 Hne] H2. split; [by eapply str_le_trans|].
  intros ->. apply Hne. by apply String.leb_antisym.
Qed.

Lemma str_total a b : str_ltb a b = true ∨ a = b ∨ str_ltb b a = true.
Proof.
  destruct (decide (a = b)) as [|Hne]; [by right; left|].
  rewrite !str_ltb_spec. unfold str_le.
  destruct (String.leb_total a b); [left|right; right]; by split.
Qed.

(** ** The structure *)

Definition parents : Type := list (string * string).

Definition uf_add (x : string) (m : parents) : parents :=
  if OMap.has x m then m else OMap.set x x m.

(** [while (parent.get(root) !== root) root = parent.get(root)] *)
Fixpoint walk (fuel : nat) (m : parents) (x : string) : string :=
  match fuel with
  | O => x
  | S n => match OMap.get x m with
           | Some p => if bool_decide (p = x) then x else walk n m p
           | None => x
           end
  end.

(** [while (parent.get(cur) !== root) { next = parent.get(cur); parent.set(cur, root); cur = next }] *)
Fixpoint compress (fuel : nat) (root cur : string) (m : parents) : parents :=
  match fuel with
  | O => m
  | S n => match OMap.get cur m with
           | Some p => if bool_decide (p = root) then m
                       else compress n root p (OMap.set cur root m)
           | None => m
           end
  end.

Definition uf_find (x : string) (m : parents) : string * parents :=
  let m := uf_add x m in
  let root := walk (length m) m x in
  (root, compress (length m) root x m).

Definition uf_union (a b : string) (m : parents) : parents :=
  let m := uf_add b (uf_add a m) in
  let '(ra, m) := uf_find a m in
  let '(rb, m) := uf_find b m in
  if bool_decide (ra = rb) then m
  else
    let '(root, child) := if str_ltb ra rb then (ra, rb) else (rb, ra) in
    OMap.set child root m.

(** ** Well-formed pointers *)

Definition uf_wf (m : parents) : Prop :=
  OMap.wf m ∧ ∀ k p, OMap.get k m = Some p →
    str_le p k ∧ OMap.has p m = true.

(** How many aliases are smaller: the length a walk can have. *)
Definition below (m : parents) (x : string) : nat :=
  length (List.filter (λ k, str_ltb k x) (OMap.keys m)).

Lemma below_lt m x p :
  str_ltb p x = true → p ∈ OMap.keys m → below m p < below m x.
Proof.
  unfold below. intros Hlt Hp.
  assert (H : ∀ l, (p ∈ l → length (List.filter (λ k, str_ltb k p) l) <
                            length (List.filter (λ k, str_ltb k x) l)) ∧
                   length (List.filter (λ k, str_ltb k p) l) ≤
                   length (List.filter (λ k, str_ltb k x) l)).
  { clear Hp. induction l as [|k l [IH1 IH2]]; simpl; [split; [by intros ?%elem_of_nil|done]|].
    assert (Hk : str_ltb k p = true → str_ltb k x = true).
    { intros Hk. apply str_ltb_spec in Hlt as [Hle _]. by eapply str_ltb_le_trans. }
    split.
    - intros [->|Hin]%elem_of_cons.
      + rewrite str_ltb_irrefl, Hlt. simpl. lia.
      + specialize (IH1 Hin). destruct (str_ltb k p); [rewrite Hk by done; simpl; lia|].
        destruct (str_ltb k x); simpl; lia.
    - destruct (str_ltb k p); [rewrite Hk by done; simpl; lia|].
      destruct (str_ltb k x); simpl; lia. }
  by apply H.
Qed.

Lemma below_le m x : x ∈ OMap.keys m → below m x < length m.
Proof.
  intros Hx. unfold below.
  assert (H : length (List.filter (λ k, str_ltb k x) (OMap.keys m)) < length (OMap.keys m)).
  { induction (OMap.keys m) as [|k l IH]; [by apply elem_of_nil in Hx|]. simpl.
    apply elem_of_cons in Hx as [->|Hx].
    - rewrite str_ltb_irrefl. pose proof (filter_length_le_b (λ k0, str_ltb k0 k) l). lia.
    - specialize (IH Hx). destruct (str_ltb k x); simpl; lia. }
  unfold OMap.keys in *. by rewrite length_map in H.
Qed.

Lemma has_key x (m : parents) : OMap.has x m = true ↔ x ∈ OMap.keys m.
Proof.
  unfold OMap.has. destruct (OMap.get x m) as [p|] eqn:E.
  - split; [intros _; by eapply OMap.get_Some_key|done].
  - split; [done|]. apply OMap.get_None_key in E. done.
Qed.

Lemma has_get x (m : parents) : OMap.has x m = true ↔ ∃ p, OMap.get x m = Some p.
Proof. unfold OMap.has. destruct (OMap.get x m); naive_solver. Qed.

(** The root of an alias. *)
Definition root (m : parents) (x : string) : string := walk (length m) m x.

Lemma walk_fuel m x n1 n2 :
  uf_wf m → below m x < n1 → below m x < n2 → walk n1 m x = walk n2 m x.
Proof.
  intros [_ Hwf]. revert x n2. induction n1 as [|n1 IH]; intros x n2 H1 H2; [lia|].
  destruct n2 as [|n2]; [lia|]. simpl. destruct (OMap.get x m) as [p|] eqn:E; [|done].
  case_bool_decide as Hp; [done|]. destruct (Hwf x p E) as [Hle Hh].
  assert (Hb : below m p < below m x)
    by (apply below_lt; [by apply str_ltb_spec|by apply has_key]).
  apply IH; lia.
Qed.

(** A step of a walk. *)
Lemma root_step m x p :
  uf_wf m → OMap.get x m = Some p → root m x = if bool_decide (p = x) then x else root m p.
Proof.
  intros Hwf E. unfold root.
  assert (Hx : below m x < length m) by (apply below_le; by eapply OMap.get_Some_key).
  destruct (length m) as [|n] eqn:En; [lia|]. simpl. rewrite E.
  case_bool_decide as Hp; [done|]. destruct (proj2 Hwf x p E) as [Hle Hh].
  assert (Hb : below m p < below m x)
    by (apply below_lt; [by apply str_ltb_spec|by apply has_key]).
  apply (walk_fuel m p n (S n)); [done|lia|lia].
Qed.

(** Induction along the pointers. *)
Lemma uf_ind m (P : string → Prop) :
  uf_wf m →
  (∀ x, OMap.get x m = Some x → P x) →
  (∀ x p, OMap.get x m = Some p → p ≠ x → P p → P x) →
  ∀ x, OMap.has x m = true → P x.
Proof.
  intros Hwf Hroot Hstep x. remember (below m x) as n eqn:Hn. revert x Hn.
  induction n as [n IH] using lt_wf_ind. intros x -> Hx.
  apply has_get in Hx as [p Hp]. destruct (decide (p = x)) as [->|Hne]; [by apply Hroot|].
  destruct (proj2 Hwf x p Hp) as [Hle Hh].
  apply (Hstep x p); [done|done|]. apply (IH (below m p)); [|done|done].
  apply below_lt; [by apply str_ltb_spec|by apply has_key].
Qed.

Lemma root_of_root m x : uf_wf m → OMap.get x m = Some x → root m x = x.
Proof. intros Hwf Hx. rewrite (root_step m x x Hwf Hx). by rewrite bool_decide_eq_true_2. Qed.

Lemma root_of_child m x p :
  uf_wf m → OMap.get x m = Some p → p ≠ x → root m x = root m p.
Proof. intros Hwf Hx Hne. rewrite (root_step m x p Hwf Hx). by rewrite bool_decide_eq_false_2. Qed.

Lemma root_spec m x :
  uf_wf m → OMap.has x m = true →
  OMap.get (root m x) m = Some (root m x) ∧ str_le (root m x) x.
Proof.
  intros Hwf Hx. revert x Hx. apply (uf_ind m _ Hwf).
  - intros x Hx. rewrite (root_of_root m x Hwf Hx). split; [done|apply str_le_refl].
  - intros x p Hx Hne [IH1 IH2]. rewrite (root_of_child m x p Hwf Hx Hne).
    split; [done|]. eapply str_le_trans; [done|]. by apply (proj2 Hwf).
Qed.

(** ** Moving one pointer *)

Lemma has_set (c r x : string) (m : parents) :
  OMap.has c m = true → OMap.has x (OMap.set c r m) = OMap.has x m.
Proof.
  intros Hc. unfold OMap.has. rewrite OMap.get_set. case_bool_decide; [|done].
  subst. apply has_get in Hc as [p ->]. done.
Qed.

Lemma set_wf m c r :
  uf_wf m → OMap.has c m = true → OMap.has r m = true → str_le r c →
  uf_wf (OMap.set c r m).
Proof.
  intros [Hm Hp] Hc Hr Hle. split; [by apply OMap.wf_set|].
  intros k p. rewrite OMap.get_set. case_bool_decide.
  - intros; simplify_eq. split; [done|]. by rewrite has_set.
  - intros Hk. rewrite has_set by done. by apply Hp.
Qed.

(** Pointing [c] at a root [r], either its own or because [c] is one itself. *)
Lemma set_root m c r y :
  uf_wf m → OMap.has c m = true → OMap.get r m = Some r → str_le r c →
  root m c = r ∨ OMap.get c m = Some c →
  OMap.has y m = true →
  root (OMap.set c r m) y = if bool_decide (root m y = root m c) then r else root m y.
Proof.
  intros Hwf Hc Hr Hle Hor. set (m' := OMap.set c r m).
  assert (Hhr : OMap.has r m = true) by (apply has_get; eauto).
  assert (Hwf' : uf_wf m') by by apply set_wf.
  assert (Hr' : OMap.get r m' = Some r)
    by (unfold m'; rewrite OMap.get_set; by case_bool_decide).
  assert (Hcr : root m' c = r).
  { destruct (decide (r = c)) as [->|Hne]; [by apply root_of_root|].
    rewrite (root_of_child m' c r); [by apply root_of_root|done| |done].
    unfold m'. apply OMap.get_set_eq. }
  revert y. apply (uf_ind m _ Hwf).
  - intros y Hy. rewrite (root_of_root m y Hwf Hy).
    destruct (decide (y = c)) as [->|Hne].
    { rewrite Hcr. rewrite bool_decide_eq_true_2; [done|].
      by rewrite (root_of_root m c Hwf Hy). }
    assert (Hy' : OMap.get y m' = Some y)
      by (unfold m'; rewrite OMap.get_set, bool_decide_eq_false_2; congruence).
    rewrite (root_of_root m' y Hwf' Hy'). case_bool_decide as Hyc; [|done].
    destruct Hor as [<-|Hcc]; [done|].
    rewrite (root_of_root m c Hwf Hcc) in Hyc. done.
  - intros y p Hy Hne IH. rewrite (root_of_child m y p Hwf Hy Hne).
    destruct (decide (y = c)) as [->|Hyc].
    { rewrite Hcr, bool_decide_eq_true_2; [done|].
      by rewrite (root_of_child m c p Hwf Hy Hne). }
    rewrite (root_of_child m' y p); [done|done| |done].
    unfold m'. rewrite OMap.get_set, bool_decide_eq_false_2; congruence.
Qed.

(** ** Compression *)

Lemma keys_set_in c r (m : parents) :
  OMap.has c m = true → OMap.keys (OMap.set c r m) = OMap.keys m.
Proof. intros Hc. by rewrite OMap.keys_set, Hc. Qed.

(** Compression moves pointers to the root they already lead to. *)
Lemma compress_spec n r cur m :
  uf_wf m → OMap.has cur m = true → root m cur = r →
  let m' := compress n r cur m in
  uf_wf m' ∧ OMap.keys m' = OMap.keys m ∧
  ∀ y, OMap.has y m = true → root m' y = root m y.
Proof.
  revert cur m. induction n as [|n IH]; intros cur m Hwf Hc Hr; simpl; [done|].
  destruct (OMap.get cur m) as [p|] eqn:E; [|done].
  case_bool_decide as Hp; [done|].
  destruct (root_spec m cur Hwf Hc) as [Hrr Hle]. rewrite Hr in Hrr, Hle.
  assert (Hhr : OMap.has r m = true) by (apply has_get; eauto).
  assert (Hset : ∀ y, OMap.has y m = true → root (OMap.set cur r m) y = root m y).
  { intros y Hy. rewrite set_root by (try done; by left).
    case_bool_decide; [congruence|done]. }
  assert (Hpc : p ≠ cur).
  { intros ->. rewrite (root_of_root m cur Hwf E) in Hr. done. }
  assert (Hhp : OMap.has p m = true) by (by apply (proj2 Hwf cur p)).
  destruct (IH p (OMap.set cur r m)) as (H1 & H2 & H3).
  - by apply set_wf.
  - by rewrite has_set.
  - rewrite Hset by done. by rewrite <- (root_of_child m cur p Hwf E Hpc).
  - split; [done|]. split; [rewrite H2; by apply keys_set_in|].
    intros y Hy. rewrite H3 by (by rewrite has_set). by apply Hset.
Qed.

(** The loop ends within the fuel [uf_find] gives it: more changes nothing. *)
Lemma compress_fuel n1 n2 r cur m :
  uf_wf m → OMap.has cur m = true → root m cur = r →
  below m cur < n1 → below m cur < n2 → compress n1 r cur m = compress n2 r cur m.
Proof.
  revert n2 cur m. induction n1 as [|n1 IH]; intros n2 cur m Hwf Hc Hr H1 H2; [lia|].
  destruct n2 as [|n2]; [lia|]. simpl.
  destruct (OMap.get cur m) as [p|] eqn:E; [|done]. case_bool_decide as Hp; [done|].
  destruct (root_spec m cur Hwf Hc) as [Hrr Hle]. rewrite Hr in Hrr, Hle.
  assert (Hpc : p ≠ cur).
  { intros ->. rewrite (root_of_root m cur Hwf E) in Hr. done. }
  destruct (proj2 Hwf cur p E) as [Hlep Hhp].
  assert (Hhr : OMap.has r m = true) by (apply has_get; eauto).
  assert (Hb : below (OMap.set cur r m) p < below m cur).
  { unfold below at 1. rewrite keys_set_in by done.
    apply below_lt; [by apply str_ltb_spec|by apply has_key]. }
  apply IH; [by apply set_wf|by rewrite has_set| |lia|lia].
  rewrite set_root by (try done; by left). rewrite Hr.
  rewrite <- (root_of_child m cur p Hwf E Hpc), Hr. by rewrite bool_decide_eq_true_2.
Qed.

(** ** The operations *)

Lemma keys_has (m m' : parents) :
  OMap.keys m' = OMap.keys m → ∀ y, OMap.has y m' = OMap.has y m.
Proof. intros H y. apply bool_eq_iff. by rewrite !has_key, H. Qed.

Lemma uf_add_spec x m :
  uf_wf m →
  uf_wf (uf_add x m) ∧ OMap.has x (uf_add x m) = true ∧
  (∀ y, OMap.has y (uf_add x m) = true ↔ OMap.has y m = true ∨ y = x) ∧
  (∀ y, OMap.has y m = true → root (uf_add x m) y = root m y) ∧
  (OMap.has x m = false → root (uf_add x m) x = x).
Proof.
  intros Hwf. unfold uf_add. destruct (OMap.has x m) eqn:Ex.
  { split_and!; [done|done| |done|done]. intros y. split; [by left|]. by intros [?| ->]. }
  assert (Hget : ∀ y, OMap.has y m = true → OMap.get y (OMap.set x x m) = OMap.get y m).
  { intros y Hy. rewrite OMap.get_set, bool_decide_eq_false_2; [done|]. intros ->. congruence. }
  assert (Hwf' : uf_wf (OMap.set x x m)).
  { split; [by apply OMap.wf_set, Hwf|]. intros k p. rewrite OMap.get_set. case_bool_decide.
    - intros; simplify_eq. split; [apply str_le_refl|].
      unfold OMap.has. by rewrite OMap.get_set_eq.
    - intros Hk. destruct (proj2 Hwf k p Hk) as [? Hp]. split; [done|].
      unfold OMap.has. rewrite Hget by done. apply has_get in Hp as [? ->]. done. }
  assert (Hxx : OMap.get x (OMap.set x x m) = Some x) by apply OMap.get_set_eq.
  split_and!; [done|apply has_get; by eexists| | |intros _; by apply root_of_root].
  - intros y. unfold OMap.has at 1. rewrite OMap.get_set. case_bool_decide.
    + subst. split; [by right|done].
    + fold (OMap.has y m). split; [by left|]. by intros [?| ->].
  - apply (uf_ind m _ Hwf).
    + intros y Hy. rewrite (root_of_root m y Hwf Hy). apply root_of_root; [done|].
      rewrite Hget; [done|]. apply has_get; eauto.
    + intros y p Hy Hne IH. rewrite (root_of_child m y p Hwf Hy Hne).
      rewrite (root_of_child _ y p Hwf'); [done| |done].
      rewrite Hget; [done|]. apply has_get; eauto.
Qed.

Lemma uf_find_spec x m :
  uf_wf m →
  let '(r, m') := uf_find x m in
  uf_wf m' ∧ r = root (uf_add x m) x ∧
  (∀ y, OMap.has y m' = OMap.has y (uf_add x m)) ∧
  (∀ y, OMap.has y (uf_add x m) = true → root m' y = root (uf_add x m) y).
Proof.
  intros Hwf. destruct (uf_add_spec x m Hwf) as (Hwf' & Hx & _). unfold uf_find.
  destruct (compress_spec (length (uf_add x m)) (root (uf_add x m) x) x (uf_add x m)
    Hwf' Hx eq_refl) as (H1 & H2 & H3).
  split_and!; [done|done|by apply keys_has|done].
Qed.

(** ** The classes *)

(** Two aliases stand in an edge when some union named them together. *)
Definition edge (E : list (string * string)) (a b : string) : Prop := (a, b) ∈ E.

(** Aliases linked by a chain of unions. *)
Definition linked (E : list (string * string)) : relation string := rtsc (edge E).

Record classes (E : list (string * string)) (m : parents) : Prop := {
  cl_wf : uf_wf m;
  cl_keys : ∀ a b, edge E a b → OMap.has a m = true ∧ OMap.has b m = true;
  cl_same : ∀ a b, edge E a b → root m a = root m b;
  cl_linked : ∀ x, OMap.has x m = true → linked E x (root m x)
}.

Lemma linked_sym E x y : linked E x y → linked E y x.
Proof. intros H. by symmetry. Qed.

Lemma linked_mono E E' x y : (∀ e, e ∈ E → e ∈ E') → linked E x y → linked E' x y.
Proof. intros H. apply rtsc_congruence with (f := λ x, x). intros a b. apply H. Qed.

Lemma linked_same E m x y :
  classes E m → linked E x y → root m x = root m y.
Proof.
  intros Hc H. induction H as [x|x y z Hxy _ IH]; [done|]. rewrite <- IH.
  destruct Hxy as [Hxy|Hxy]; [|symmetry]; by apply (cl_same E m Hc).
Qed.

(** A map with the same aliases and roots has the same classes. *)
Lemma classes_same E m m' :
  classes E m → uf_wf m' → (∀ y, OMap.has y m' = OMap.has y m) →
  (∀ y, OMap.has y m = true → root m' y = root m y) → classes E m'.
Proof.
  intros [Hwf Hk Hs Hl] Hwf' Hh Hr. split; [done| | |].
  - intros a b He. rewrite !Hh. by apply Hk.
  - intros a b He. destruct (Hk a b He). rewrite !Hr by done. by apply Hs.
  - intros x Hx. rewrite Hh in Hx. rewrite Hr by done. by apply Hl.
Qed.

Lemma classes_add E m x : classes E m → classes E (uf_add x m).
Proof.
  intros [Hwf Hk Hs Hl]. destruct (uf_add_spec x m Hwf) as (H1 & H2 & H3 & H4 & H5).
  split; [done| | |].
  - intros a b He. destruct (Hk a b He). rewrite !H3. auto.
  - intros a b He. destruct (Hk a b He). rewrite !H4 by done. by apply Hs.
  - intros y Hy. destruct (OMap.has y m) eqn:Ey; [rewrite H4 by done; by apply Hl|].
    apply H3 in Hy as [Hy| ->]; [congruence|]. rewrite H5 by done. apply rtc_refl.
Qed.

Lemma classes_find E m x :
  classes E m → OMap.has x m = true →
  let '(r, m') := uf_find x m in
  classes E m' ∧ r = root m x ∧ (∀ y, OMap.has y m' = OMap.has y m) ∧
  (∀ y, OMap.has y m = true → root m' y = root m y).
Proof.
  intros Hc Hx. pose proof (uf_find_spec x m (cl_wf _ _ Hc)) as H.
  assert (Hadd : uf_add x m = m) by (unfold uf_add; by rewrite Hx).
  destruct (uf_find x m) as [r m']. rewrite Hadd in H. destruct H as (H1 & H2 & H3 & H4).
  split_and!; [by apply (classes_same E m)|done|done|done].
Qed.

(** Pointing a root at a smaller root joins two classes. *)
Lemma classes_join E m a b r c :
  classes E m → OMap.has a m = true → OMap.has b m = true →
  (root m a = r ∧ root m b = c) ∨ (root m a = c ∧ root m b = r) →
  str_le r c → r ≠ c → classes ((a, b) :: E) (OMap.set c r m).
Proof.
  intros [Hwf Hk Hs Hl] Ha Hb Hab Hle Hne.
  assert (Hroots : OMap.get r m = Some r ∧ OMap.get c m = Some c).
  { destruct (root_spec m a Hwf Ha) as [Ra _]. destruct (root_spec m b Hwf Hb) as [Rb _].
    destruct Hab as [[<- <-]|[<- <-]]; done. }
  destruct Hroots as [Hr Hc].
  assert (Hhc : OMap.has c m = true) by (apply has_get; eauto).
  assert (Hhr : OMap.has r m = true) by (apply has_get; eauto).
  assert (Hset : ∀ y, OMap.has y m = true →
    root (OMap.set c r m) y = if bool_decide (root m y = c) then r else root m y).
  { intros y Hy. rewrite set_root by (try done; by right).
    by rewrite (root_of_root m c Hwf Hc). }
  assert (Hmono : ∀ x y, linked E x y → linked ((a, b) :: E) x y).
  { intros x y. apply linked_mono. intros e He. by right. }
  split; [by apply set_wf| | |].
  - intros x y He. rewrite !has_set by done.
    apply elem_of_cons in He as [He|He]; [by simplify_eq|by apply Hk].
  - intros x y He. apply elem_of_cons in He as [He|He].
    + simplify_eq. rewrite !Hset by done.
      destruct Hab as [[-> ->]|[-> ->]]; repeat case_bool_decide; congruence.
    + destruct (Hk x y He). rewrite !Hset by done. by rewrite (Hs x y He).
  - intros y Hy. rewrite has_set in Hy by done. rewrite Hset by done.
    case_bool_decide as Hyc; [|by apply Hmono, Hl].
    assert (Hyab : linked ((a, b) :: E) c r).
    { assert (Hedge : linked ((a, b) :: E) a b) by (apply rtc_once; left; by left).
      pose proof (Hmono _ _ (Hl a Ha)) as La. pose proof (Hmono _ _ (Hl b Hb)) as Lb.
      destruct Hab as [[Er Ec]|[Ec Er]]; rewrite Er in *; rewrite Ec in *.
      - etrans; [apply linked_sym, Lb|]. etrans; [apply linked_sym, Hedge|]. done.
      - etrans; [apply linked_sym, La|]. etrans; [apply Hedge|]. done. }
    etrans; [|exact Hyab]. rewrite <- Hyc. by apply Hmono, Hl.
Qed.

Lemma classes_union E m a b : classes E m → classes ((a, b) :: E) (uf_union a b m).
Proof.
  intros Hc. unfold uf_union. set (m0 := uf_add b (uf_add a m)).
  assert (Hc0 : classes E m0) by by apply classes_add, classes_add.
  destruct (uf_add_spec a m (cl_wf _ _ Hc)) as (Hw1 & Ha1 & _).
  destruct (uf_add_spec b (uf_add a m) Hw1) as (_ & Hb0 & Hh0 & _).
  assert (Ha0 : OMap.has a m0 = true) by (apply Hh0; by left). fold m0 in Hb0.
  pose proof (classes_find E m0 a Hc0 Ha0) as Hf.
  destruct (uf_find a m0) as [ra m1]. destruct Hf as (Hc1 & Era & Hh1 & Hr1).
  assert (Hb1 : OMap.has b m1 = true) by by rewrite Hh1.
  pose proof (classes_find E m1 b Hc1 Hb1) as Hf.
  destruct (uf_find b m1) as [rb m2]. destruct Hf as (Hc2 & Erb & Hh2 & Hr2).
  assert (Ha2 : OMap.has a m2 = true) by by rewrite Hh2, Hh1.
  assert (Hb2 : OMap.has b m2 = true) by by rewrite Hh2.
  assert (Ea : root m2 a = ra) by (rewrite Hr2, Hr1; [done|done|by rewrite Hh1]).
  assert (Eb : root m2 b = rb) by (rewrite Hr2; done).
  case_bool_decide as Heq.
  - destruct Hc2 as [Hwf Hk Hs Hl]. split; [done| | |].
    + intros x y [He|He]%elem_of_cons; [by simplify_eq|by apply Hk].
    + intros x y [He|He]%elem_of_cons; [simplify_eq; congruence|by apply Hs].
    + intros x Hx. eapply linked_mono; [|by apply Hl]. intros e He. by right.
  - destruct (str_ltb ra rb) eqn:El.
    + apply str_ltb_spec in El as [Hle _].
      apply (classes_join E m2 a b ra rb); [done|done|done|by left|done|done].
    + assert (Hle : str_ltb rb ra = true) by (destruct (str_total ra rb) as [|[|]]; congruence).
      apply str_ltb_spec in Hle as [Hle _].
      apply (classes_join E m2 a b rb ra); [done|done|done|by right|done|done].
Qed.

(** ** Histories *)

Inductive uf_op : Type :=
| UAdd (x : string)
| UUnion (a b : string)
| UFind (x : string).

Definition uf_step (m : parents) (o : uf_op) : parents :=
  match o with
  | UAdd x => uf_add x m
  | UUnion a b => uf_union a b m
  | UFind x => (uf_find x m).2
  end.

Definition op_edges (o : uf_op) : list (string * string) :=
  match o with UUnion a b => [(a, b)] | _ => [] end.

Definition uf_edges (os : list uf_op) : list (string * string) := flat_map op_edges os.

Lemma classes_empty : classes [] [].
Proof.
  split.
  - split; [constructor|]. intros k p. done.
  - intros a b He. by apply elem_of_nil in He.
  - intros a b He. by apply elem_of_nil in He.
  - intros x Hx. done.
Qed.

Lemma classes_perm E E' m : (∀ e, e ∈ E ↔ e ∈ E') → classes E m → classes E' m.
Proof.
  intros H [Hwf Hk Hs Hl]. split; [done| | |].
  - intros a b He. by apply Hk, H.
  - intros a b He. by apply Hs, H.
  - intros x Hx. eapply linked_mono; [|by apply Hl]. intros e. apply H.
Qed.

Lemma classes_step o E m : classes E m → classes (app E (op_edges o)) (uf_step m o).
Proof.
  intros Hc. destruct o as [x|a b|x]; simpl; rewrite ?app_nil_r.
  - by apply classes_add.
  - eapply classes_perm; [|by apply classes_union]. intros e.
    rewrite elem_of_app, elem_of_cons, list_elem_of_singleton. tauto.
  - pose proof (classes_find E (uf_add x m) x (classes_add E m x Hc)) as Hf.
    destruct (uf_add_spec x m (cl_wf _ _ Hc)) as (_ & Hx & _).
    assert (Hadd : uf_add x (uf_add x m) = uf_add x m)
      by (unfold uf_add at 1; by rewrite Hx).
    unfold uf_find in *. rewrite Hadd in Hf. by apply Hf.
Qed.

Lemma classes_run os E m :
  classes E m → classes (app E (uf_edges os)) (fold_left uf_step os m).
Proof.
  revert E m. induction os as [|o os IH]; intros E m Hc; simpl; [by rewrite app_nil_r|].
  specialize (IH _ _ (classes_step o E m Hc)). by rewrite <- app_assoc in IH.
Qed.

(** Aliases are never forgotten. *)
Lemma uf_step_has o m y :
  uf_wf m → OMap.has y m = true → OMap.has y (uf_step m o) = true.
Proof.
  intros Hwf Hy. assert (Hadd : ∀ x m, uf_wf m → OMap.has y m = true →
    uf_wf (uf_add x m) ∧ OMap.has y (uf_add x m) = true).
  { intros x m1 H1 H2. destruct (uf_add_spec x m1 H1) as (? & _ & Hh & _).
    split; [done|]. apply Hh. by left. }
  assert (Hfind : ∀ x m, uf_wf m → OMap.has y m = true →
    uf_wf (uf_find x m).2 ∧ OMap.has y (uf_find x m).2 = true).
  { intros x m1 H1 H2. pose proof (uf_find_spec x m1 H1) as Hf.
    destruct (uf_find x m1) as [r m']. destruct Hf as (? & _ & Hh & _). simpl.
    split; [done|]. rewrite Hh. by apply Hadd. }
  destruct o as [x|a b|x]; simpl; [by apply Hadd| |by apply Hfind].
  unfold uf_union. destruct (Hadd a m) as [H1 H2]; [done..|].
  destruct (Hadd b _ H1 H2) as [H3 H4].
  destruct (Hfind a _ H3 H4) as [H5 H6]. destruct (uf_find a _) as [ra m1]. simpl in H5, H6.
  destruct (Hfind b _ H5 H6) as [H7 H8]. destruct (uf_find b m1) as [rb m2]. simpl in H7, H8.
  case_bool_decide; [done|].
  destruct (str_ltb ra rb); unfold OMap.has; rewrite OMap.get_set; by case_bool_decide.
Qed.

Lemma uf_run_has os E m y :
  classes E m → OMap.has y m = true ∨ UAdd y ∈ os → OMap.has y (fold_left uf_step os m) = true.
Proof.
  revert E m. induction os as [|o os IH]; intros E m Hc Hy; simpl.
  { destruct Hy as [Hy|Hy]; [done|by apply elem_of_nil in Hy]. }
  apply (IH _ _ (classes_step o E m Hc)). destruct Hy as [Hy|Hy].
  { left. by apply uf_step_has, Hy; apply (cl_wf _ _ Hc). }
  apply elem_of_cons in Hy as [<-|Hy]; [left|by right].
  by destruct (uf_add_spec y m (cl_wf _ _ Hc)) as (_ & ? & _).
Qed.

Definition uf_run (os : list uf_op) : parents := fold_left uf_step os [].

(** Union-find computes alias classes: after any sequence of adds, finds and
    unions, two known aliases have one root exactly when a chain of unions links
    them, and that root is the smallest alias of the class; so it depends on which
    unions were made, not on their order. *)
Lemma classes_roots os x y :
  OMap.has x (uf_run os) = true → OMap.has y (uf_run os) = true →
  (root (uf_run os) x = root (uf_run os) y ↔ linked (uf_edges os) x y) ∧
  (uf_find x (uf_run os)).1 = root (uf_run os) x ∧
  linked (uf_edges os) x (root (uf_run os) x) ∧
  (linked (uf_edges os) x y → str_le (root (uf_run os) x) y).
Proof.
  intros Hx Hy. assert (Hc : classes (uf_edges os) (uf_run os))
    by apply (classes_run os [] [] classes_empty).
  assert (Hsame : linked (uf_edges os) x y → root (uf_run os) x = root (uf_run os) y)
    by by apply linked_same.
  split_and!; [split; [|done]| | |].
  - intros Heq. etrans; [by apply (cl_linked _ _ Hc)|].
    rewrite Heq. apply linked_sym. by apply (cl_linked _ _ Hc).
  - pose proof (classes_find _ _ x Hc Hx) as Hf.
    destruct (uf_find x (uf_run os)). by destruct Hf as (_ & -> & _).
  - by apply (cl_linked _ _ Hc).
  - intros Hl. rewrite (Hsame Hl). by apply root_spec; [apply (cl_wf _ _ Hc)|].
Qed.
