(* ===== verification/Json.v ===== *)
(** * JSON text

    [JSON.stringify] on dynamic values, and the canonical text a request's
    fingerprint hashes ([canonical] of idempotency/idempotency.interceptor.ts): object
    keys sorted, absent fields left out. The canonical text is faithful: two values
    have one text exactly when they have one normal form. *)

From S2P Require Import Prelude Js Regex UnionFind.
From Stdlib Require Import Ascii.
Local Open Scope string_scope.
Local Open Scope nat_scope.

(** ** Quoting *)

Definition hex_digit (n : nat) : ascii := ascii_of_nat (if n <? 10 then 48 + n else 87 + n).

(** How [JSON.stringify] writes a code unit inside quotes. *)
Definition json_escape (c : ascii) : string :=
  let n := nat_of_ascii c in
  if n =? 34 then "\" +:+ String c ""
  else if n =? 92 then "\\"
  else if n =? 8 then "\b"
  else if n =? 12 then "\f"
  else if n =? 10 then "\n"
  else if n =? 13 then "\r"
  else if n =? 9 then "\t"
  else if n <? 32
  then "\u00" +:+ String (hex_digit (n / 16)) (String (hex_digit (n mod 16)) "")
  else String c "".

Fixpoint json_escapes (s : string) : string :=
  match s with
  | EmptyString => ""
  | String c s' => json_escape c +:+ json_escapes s'
  end.

Definition QUOTE : ascii := ascii_of_nat 34.

Definition json_quote (s : string) : string :=
  String QUOTE (json_escapes s +:+ String QUOTE "").

(** ** Sorting keys *)

Fixpoint insert_key {A} (k : string) (v : A) (l : list (string * A)) : list (string * A) :=
  match l with
  | [] => [(k, v)]
  | (k', v') :: l' => if String.leb k k' then (k, v) :: l else (k', v') :: insert_key k v l'
  end.

Definition sort_keys {A} (l : list (string * A)) : list (string * A) :=
  fold_right (λ '(k, v) acc, insert_key k v acc) [] l.

(** What a value is once the order of keys, the absent fields and the kinds of
    absence are forgotten; a number is the text the runtime prints. *)
Inductive json : Type :=
| JAtom (text : string)
| JString (s : string)
| JArray (l : list json)
| JObject (fields : list (string * json)).

Definition obj_text (fields : list (string * string)) : string :=
  "{" +:+ join_with "," (map (λ '(k, t), json_quote k +:+ ":" +:+ t) fields) +:+ "}".

Section texts.
Variable num_to_string : float → string.

Definition num_text (x : float) : string := if is_finite x then num_to_string x else "null".

(** [JSON.stringify(v)]; [None] is its [undefined]. *)
Fixpoint json_stringify (v : jsval) : option string :=
  match v with
  | VUndef | VHost _ => None
  | VNull => Some "null"
  | VBool b => Some (if b then "true" else "false")
  | VNum x => Some (num_text x)
  | VStr s => Some (json_quote s)
  | VArr l =>
      Some ("[" +:+ join_with ","
              (map (λ x, match json_stringify x with Some t => t | None => "null" end) l) +:+ "]")
  | VObj fields =>
      Some (obj_text (flat_map (λ '(k, x), match json_stringify x with
                                           | Some t => [(k, t)] | None => [] end) fields))
  end.

(** [canonical(v)]. [Object.keys(o).sort().filter(defined)]: the fields are
    printed, then sorted by key. *)
Fixpoint canonical (v : jsval) : string :=
  match v with
  | VArr l => "[" +:+ join_with "," (map canonical l) +:+ "]"
  | VObj fields =>
      obj_text (sort_keys (flat_map (λ '(k, x), match x with
                                                | VUndef => [] | _ => [(k, canonical x)] end) fields))
  | VUndef | VNull => "null"
  | VBool b => if b then "true" else "false"
  | VNum x => num_text x
  | VStr s => json_quote s
  | VHost _ => "undefined"
  end.

Fixpoint normal (v : jsval) : json :=
  match v with
  | VArr l => JArray (map normal l)
  | VObj fields =>
      JObject (sort_keys (flat_map (λ '(k, x), match x with
                                               | VUndef => [] | _ => [(k, normal x)] end) fields))
  | VUndef | VNull => JAtom "null"
  | VBool b => JAtom (if b then "true" else "false")
  | VNum x => JAtom (num_text x)
  | VStr s => JString s
  | VHost _ => JAtom "undefined"
  end.
End texts.

Fixpoint json_text (j : json) : string :=
  match j with
  | JAtom t => t
  | JString s => json_quote s
  | JArray l => "[" +:+ join_with "," (map json_text l) +:+ "]"
  | JObject fields => obj_text (map (λ '(k, x), (k, json_text x)) fields)
  end.

Lemma insert_key_map {A B} (f : A → B) k v l :
  map (λ '(k, x), (k, f x)) (insert_key k v l) =
  insert_key k (f v) (map (λ '(k, x), (k, f x)) l).
Proof.
  induction l as [|[k' v'] l IH]; simpl; [done|]. destruct (String.leb k k'); simpl; [done|].
  by rewrite IH.
Qed.

Lemma sort_keys_map {A B} (f : A → B) (l : list (string * A)) :
  map (λ '(k, x), (k, f x)) (sort_keys l) = sort_keys (map (λ '(k, x), (k, f x)) l).
Proof.
  induction l as [|[k v] l IH]; simpl; [done|]. by rewrite insert_key_map, IH.
Qed.

(** *** Sorting forgets the order *)

Lemma insert_key_swap {A} k1 k2 (v1 v2 : A) l :
  k1 ≠ k2 → insert_key k1 v1 (insert_key k2 v2 l) = insert_key k2 v2 (insert_key k1 v1 l).
Proof.
  intros Hne. pose proof (String.leb_antisym k1 k2) as Hanti.
  assert (Htot : String.leb k1 k2 = negb (String.leb k2 k1)).
  { destruct (String.leb_total k1 k2) as [H|H]; rewrite H.
    - destruct (String.leb k2 k1) eqn:E; [by destruct Hne, Hanti|done].
    - destruct (String.leb k1 k2) eqn:E; [by destruct Hne, Hanti|done]. }
  induction l as [|[k v] l IH]; simpl.
  { rewrite Htot. by destruct (String.leb k2 k1). }
  destruct (String.leb k2 k) eqn:E2, (String.leb k1 k) eqn:E1; simpl;
    rewrite ?E1, ?E2, ?Htot.
  - by destruct (String.leb k2 k1).
  - assert (E : String.leb k2 k1 = true).
    { destruct (str_total k2 k1) as [H|[H|H]]; [by apply str_ltb_spec in H as [H _]|congruence|].
      apply str_ltb_spec in H as [H _]. pose proof (str_le_trans k1 k2 k H E2). unfold str_le in *.
      congruence. }
    rewrite E. simpl. by rewrite ?E1, ?E2.
  - assert (E : String.leb k2 k1 = false).
    { destruct (String.leb k2 k1) eqn:E; [|done].
      pose proof (str_le_trans k2 k1 k E E1). unfold str_le in *. congruence. }
    rewrite E. simpl. by rewrite ?E1, ?E2.
  - by rewrite IH.
Qed.

Lemma sort_keys_perm {A} (l1 l2 : list (string * A)) :
  l1 ≡ₚ l2 → NoDup (map fst l1) → sort_keys l1 = sort_keys l2.
Proof.
  intros Hp. induction Hp as [|[k v] l1 l2 Hp IH|[k1 v1] [k2 v2] l|l1 l2 l3 H1 IH1 H2 IH2]; simpl.
  - done.
  - intros [_ Hn]%NoDup_cons. by rewrite IH.
  - intros [Hn _]%NoDup_cons. apply insert_key_swap. intros ->. apply Hn. by left.
  - intros Hn. rewrite IH1 by done. apply IH2. by rewrite <- H1.
Qed.

(** ** Reading the text back *)

(** *** Quoted strings *)

Fixpoint all_codes (n : nat) : list ascii :=
  match n with O => [] | S n => ascii_of_nat n :: all_codes n end.

Lemma all_codes_spec c : c ∈ all_codes 256.
Proof.
  rewrite <- (ascii_nat_embedding c). pose proof (nat_ascii_bounded c) as H.
  revert H. generalize (nat_of_ascii c). intros n Hn.
  assert (Hall : ∀ m, n < m → ascii_of_nat n ∈ all_codes m).
  { induction m as [|m IH]; simpl; intros; [lia|]. destruct (decide (n = m)) as [->|].
    - by left.
    - right. apply IH. lia. }
  by apply Hall.
Qed.

Lemma append_prefix a b s t :
  a +:+ s = b +:+ t → String.prefix a b = true ∨ String.prefix b a = true.
Proof.
  revert b. induction a as [|c a IH]; intros [|d b]; simpl; auto.
  rewrite !str_append_cons. intros [= -> H]. destruct (ascii_dec d d); [|done]. by apply IH.
Qed.

Lemma append_inj_l a s t : a +:+ s = a +:+ t → s = t.
Proof. induction a as [|c a IH]; [done|]. rewrite !str_append_cons. intros [=]. auto. Qed.

(** A property of every code unit, by enumeration. *)
Definition for_codes (p : ascii → bool) : bool := forallb p (all_codes 256).

Lemma for_codes_spec p : for_codes p = true → ∀ c, p c = true.
Proof.
  unfold for_codes. intros H c. rewrite forallb_forall in H. apply H.
  apply list_elem_of_In, all_codes_spec.
Qed.

Definition escapes_apart (c d : ascii) : bool :=
  negb (String.prefix (json_escape c) (json_escape d)) || bool_decide (c = d).

Lemma escapes_apart_all : for_codes (λ c, for_codes (escapes_apart c)) = true.
Proof. vm_compute. reflexivity. Qed.

Lemma escape_prefix c d :
  String.prefix (json_escape c) (json_escape d) = true → c = d.
Proof.
  intros Hp. pose proof (for_codes_spec _ (for_codes_spec _ escapes_apart_all c) d) as H.
  unfold escapes_apart in H. rewrite Hp in H. simpl in H. by apply bool_decide_eq_true in H.
Qed.

Lemma escape_inj c d s t :
  json_escape c +:+ s = json_escape d +:+ t → c = d ∧ s = t.
Proof.
  intros H. assert (c = d) as ->.
  { destruct (append_prefix _ _ _ _ H) as [Hp|Hp]; apply escape_prefix in Hp; congruence. }
  split; [done|]. by apply append_inj_l in H.
Qed.

(** An escape never starts with the quote that ends the string. *)
Definition escape_opens (c : ascii) : bool :=
  match json_escape c with
  | String d _ => negb (bool_decide (d = QUOTE)) | EmptyString => false end.

Lemma escape_opens_all : for_codes escape_opens = true.
Proof. vm_compute. reflexivity. Qed.

Lemma escape_not_quote c s t : json_escape c +:+ s ≠ String QUOTE t.
Proof.
  pose proof (for_codes_spec _ escape_opens_all c) as H. unfold escape_opens in H.
  destruct (json_escape c) as [|d e]; [done|]. rewrite str_append_cons.
  rewrite bool_decide_neg_true in H. congruence.
Qed.

Lemma escapes_inj k1 k2 s t :
  json_escapes k1 +:+ String QUOTE s = json_escapes k2 +:+ String QUOTE t → k1 = k2 ∧ s = t.
Proof.
  revert k2. induction k1 as [|c k1 IH]; intros [|d k2]; cbn [json_escapes];
    rewrite ?str_append_assoc; intros H.
  - split; [done|]. injection H as H. exact H.
  - symmetry in H. by apply escape_not_quote in H.
  - by apply escape_not_quote in H.
  - apply escape_inj in H as [-> H]. by destruct (IH k2 H) as [-> ->].
Qed.

Lemma quote_inj k1 k2 s t :
  json_quote k1 +:+ s = json_quote k2 +:+ t → k1 = k2 ∧ s = t.
Proof.
  unfold json_quote. rewrite !str_append_cons, !str_append_assoc. intros [= H].
  by apply escapes_inj.
Qed.

(** *** Delimiters *)

Definition delimiter (c : ascii) : bool := is_one_of ",]}:" c.

(** What may follow a value. *)
Definition stop (s : string) : Prop :=
  match s with EmptyString => True | String c _ => delimiter c = true end.

(** The text of a number or a keyword. *)
Definition atom_ok (t : string) : bool :=
  match t with
  | EmptyString => false
  | String c _ => negb (is_one_of "[{" c) && negb (bool_decide (c = QUOTE))
  end && forallb (λ c, negb (delimiter c)) (String.list_ascii_of_string t).

Lemma atom_inj_aux l1 l2 s t :
  forallb (λ c, negb (delimiter c)) (String.list_ascii_of_string l1) = true →
  forallb (λ c, negb (delimiter c)) (String.list_ascii_of_string l2) = true →
  stop s → stop t → l1 +:+ s = l2 +:+ t → l1 = l2 ∧ s = t.
Proof.
  intros H1 H2 Hs Ht. revert l2 H1 H2.
  induction l1 as [|c l1 IH]; intros [|d l2] H1 H2 H; rewrite ?str_append_cons in H.
  - done.
  - change ("" +:+ s) with s in H. subst s. simpl in H2, Hs. rewrite Hs in H2. done.
  - change ("" +:+ t) with t in H. subst t. simpl in H1, Ht. rewrite Ht in H1. done.
  - injection H as -> H. simpl in H1, H2. apply andb_prop in H1 as [_ H1], H2 as [_ H2].
    by destruct (IH l2 H1 H2 H) as [-> ->].
Qed.

Lemma atom_inj a b s t :
  atom_ok a = true → atom_ok b = true → stop s → stop t → a +:+ s = b +:+ t → a = b ∧ s = t.
Proof. intros [_ H1]%andb_prop [_ H2]%andb_prop. by apply atom_inj_aux. Qed.

(** An atom starts neither a string, nor an array, nor an object. *)
Lemma atom_opens t s : atom_ok t = true →
  ∀ c r, t +:+ s = String c r → is_one_of "[{" c = false ∧ c ≠ QUOTE.
Proof.
  unfold atom_ok. intros [H _]%andb_prop c r Ht. destruct t as [|d t]; [done|].
  rewrite str_append_cons in Ht. injection Ht as -> _.
  apply andb_prop in H as [H1 H2]. split; [by apply negb_true_iff in H1|].
  by apply bool_decide_neg_true in H2.
Qed.

(** *** Lists of values *)

Section lists.
Context {A : Type} (pr : A → string) (close : ascii).
Hypothesis Hclose : delimiter close = true.
Hypothesis Hcomma : close ≠ ","%char.

(** Starts with a code unit that ends nothing. *)
Definition starts_value (x : A) : Prop :=
  match pr x with String c _ => delimiter c = false | EmptyString => False end.

Definition reads_back (x : A) (ok : A → Prop) : Prop :=
  ∀ y s t, ok y → stop s → stop t → pr x +:+ s = pr y +:+ t → x = y ∧ s = t.

Fixpoint tail_text (l : list A) (rest : string) : string :=
  match l with
  | [] => String close rest
  | x :: l' => String "," (pr x +:+ tail_text l' rest)
  end.

Lemma tail_stop l rest : stop (tail_text l rest).
Proof. destruct l; [done|reflexivity]. Qed.

Lemma join_text x l rest :
  join_with "," (map pr (x :: l)) +:+ String close rest = pr x +:+ tail_text l rest.
Proof.
  revert x. induction l as [|y l IH]; intros x.
  - done.
  - change (join_with "," (map pr (x :: y :: l)))
      with (pr x +:+ ("," +:+ join_with "," (map pr (y :: l)))).
    rewrite !str_append_assoc, IH. done.
Qed.

Lemma tail_inj (ok : A → Prop) l1 l2 s t :
  Forall (λ x, reads_back x ok) l1 → Forall ok l2 →
  tail_text l1 s = tail_text l2 t → l1 = l2 ∧ s = t.
Proof.
  revert l2. induction l1 as [|x l1 IH]; intros [|y l2] H1 H2 H; cbn [tail_text] in H.
  - by injection H as ->.
  - injection H as ? _. congruence.
  - injection H as ? _. congruence.
  - injection H as H. apply Forall_cons in H1 as [Hx H1], H2 as [Hy H2].
    apply Hx in H as [-> H]; [|done|apply tail_stop..].
    by destruct (IH l2 H1 H2 H) as [-> ->].
Qed.

Lemma join_inj (ok : A → Prop) l1 l2 s t :
  Forall (λ x, reads_back x ok ∧ starts_value x) l1 → Forall (λ x, ok x ∧ starts_value x) l2 →
  join_with "," (map pr l1) +:+ String close s = join_with "," (map pr l2) +:+ String close t →
  l1 = l2 ∧ s = t.
Proof.
  intros H1 H2 H.
  assert (Hhead : ∀ x l s t, starts_value x → String close s ≠ pr x +:+ tail_text l t).
  { intros x l s0 t0. unfold starts_value. destruct (pr x) as [|c e]; [done|].
    rewrite str_append_cons. congruence. }
  destruct l1 as [|x l1], l2 as [|y l2]; rewrite ?join_text in H.
  - by injection H as ->.
  - simpl in H. apply Forall_cons in H2 as [[_ Hy] _]. by apply Hhead in H.
  - simpl in H. apply Forall_cons in H1 as [[_ Hx] _]. symmetry in H. by apply Hhead in H.
  - apply Forall_cons in H1 as [[Hx _] H1], H2 as [[Hy _] H2].
    apply Hx in H as [-> H]; [|done|apply tail_stop..].
    apply (tail_inj ok) in H as [-> ->]; [done| |].
    + eapply Forall_impl; [exact H1|]. naive_solver.
    + eapply Forall_impl; [exact H2|]. naive_solver.
Qed.
End lists.

(** *** Values *)

Fixpoint json_ok (j : json) : Prop :=
  match j with
  | JAtom t => atom_ok t = true
  | JString _ => True
  | JArray l => fold_right (λ x P, json_ok x ∧ P) True l
  | JObject fields => fold_right (λ '(_, x) P, json_ok x ∧ P) True fields
  end.

Lemma json_ind' (P : json → Prop) :
  (∀ t, P (JAtom t)) → (∀ s, P (JString s)) →
  (∀ l, Forall P l → P (JArray l)) →
  (∀ fields, Forall (λ kx, P kx.2) fields → P (JObject fields)) →
  ∀ j, P j.
Proof.
  intros Ha Hs Hl Ho. fix IH 1. intros [t|s|l|fields].
  - apply Ha.
  - apply Hs.
  - apply Hl. induction l as [|x l IHl]; constructor; [apply IH|exact IHl].
  - apply Ho. induction fields as [|[k x] l IHl]; constructor; [apply IH|exact IHl].
Qed.

Lemma jsval_ind' (P : jsval → Prop) :
  P VUndef → P VNull → (∀ b, P (VBool b)) → (∀ x, P (VNum x)) → (∀ s, P (VStr s)) →
  (∀ l, Forall P l → P (VArr l)) →
  (∀ fields, Forall (λ kx, P kx.2) fields → P (VObj fields)) →
  (∀ n, P (VHost n)) → ∀ v, P v.
Proof.
  intros Hu Hn Hb Hx Hs Hl Ho Hh. fix IH 1.
  intros [| |b|x|s|l|fields|n]; [exact Hu|exact Hn|apply Hb|apply Hx|apply Hs| | |apply Hh].
  - apply Hl. induction l as [|x l IHl]; constructor; [apply IH|exact IHl].
  - apply Ho. induction fields as [|[k x] l IHl]; constructor; [apply IH|exact IHl].
Qed.

Lemma json_ok_list l : fold_right (λ x P, json_ok x ∧ P) True l ↔ Forall json_ok l.
Proof. induction l as [|x l IH]; simpl; [done|]. by rewrite Forall_cons, IH. Qed.

Lemma json_ok_fields (fields : list (string * json)) :
  fold_right (λ '(_, x) P, json_ok x ∧ P) True fields ↔ Forall (λ kx, json_ok kx.2) fields.
Proof. induction fields as [|[k x] l IH]; simpl; [done|]. by rewrite Forall_cons, IH. Qed.

Definition field_text (kx : string * json) : string :=
  json_quote kx.1 +:+ ":" +:+ json_text kx.2.

Lemma object_text fields :
  json_text (JObject fields) = "{" +:+ join_with "," (map field_text fields) +:+ "}".
Proof.
  simpl. unfold obj_text. rewrite map_map. do 2 f_equal. f_equal.
  apply map_ext. by intros [k x].
Qed.

Lemma value_starts j : json_ok j → starts_value json_text j.
Proof.
  unfold starts_value. destruct j as [t|s|l|fields]; intros H.
  - simpl in *. destruct t as [|c t]; [done|]. unfold atom_ok in H.
    apply andb_prop in H as [_ H]. simpl in H. apply andb_prop in H as [H _].
    by apply negb_true_iff in H.
  - reflexivity.
  - reflexivity.
  - rewrite object_text. reflexivity.
Qed.

(** The first code unit tells the kind of the value. *)
Definition head_kind (c : ascii) : nat :=
  if bool_decide (c = QUOTE) then 1
  else if bool_decide (c = "["%char) then 2
  else if bool_decide (c = "{"%char) then 3 else 0.

Definition kind_of (j : json) : nat :=
  match j with JAtom _ => 0 | JString _ => 1 | JArray _ => 2 | JObject _ => 3 end.

Lemma text_head j s :
  json_ok j → ∃ c r, json_text j +:+ s = String c r ∧ head_kind c = kind_of j.
Proof.
  destruct j as [t|k|l|fields]; intros Hok.
  - simpl in Hok. assert (E : ∃ c r, t +:+ s = String c r).
    { destruct t as [|c t]; [done|]. rewrite str_append_cons. by eexists _, _. }
    destruct E as (c & r & E). exists c, r. split; [done|].
    destruct (atom_opens t s Hok c r E) as [Hb Hq]. unfold head_kind.
    rewrite bool_decide_eq_false_2 by done.
    repeat case_bool_decide; subst; done.
  - by eexists _, _.
  - by eexists _, _.
  - rewrite object_text. by eexists _, _.
Qed.

Lemma text_kind j1 j2 s t :
  json_ok j1 → json_ok j2 → json_text j1 +:+ s = json_text j2 +:+ t → kind_of j1 = kind_of j2.
Proof.
  intros H1 H2 H. destruct (text_head j1 s H1) as (c & r & E1 & <-).
  destruct (text_head j2 t H2) as (d & u & E2 & <-). congruence.
Qed.

Lemma field_reads_back k x :
  reads_back json_text x json_ok → reads_back field_text (k, x) (λ kx, json_ok kx.2).
Proof.
  intros Hx [k' y] s t Hy Hs Ht. unfold field_text. simpl. rewrite !str_append_assoc.
  intros [-> H]%quote_inj. injection H as H.
  apply Hx in H as [-> ->]; done.
Qed.

Lemma text_inj j : json_ok j → reads_back json_text j json_ok.
Proof.
  induction j as [t|s|l IH|fields IH] using json_ind'; intros Hok y s1 s2 Hy Hs1 Hs2 H;
    pose proof (text_kind _ _ _ _ Hok Hy H) as Hk;
    destruct y as [t'|s'|l'|f']; try done; clear Hk.
  - simpl in Hok, Hy, H. apply atom_inj in H as [-> ->]; done.
  - simpl in H. by apply quote_inj in H as [-> ->].
  - simpl in Hok, Hy. rewrite json_ok_list in Hok, Hy. simpl in H.
    rewrite !str_append_cons, !str_append_assoc in H. injection H as H.
    apply (join_inj json_text "]"%char eq_refl ltac:(done) json_ok) in H as [-> ->]; [done| |].
    + rewrite Forall_forall in *. intros x Hx. split; [by apply IH, Hok|by apply value_starts, Hok].
    + eapply Forall_impl; [exact Hy|]. intros x Hx. split; [done|by apply value_starts].
  - rewrite (object_text fields), (object_text f') in H.
    simpl in Hok, Hy. rewrite json_ok_fields in Hok, Hy.
    rewrite !str_append_cons, !str_append_assoc in H. injection H as H.
    apply (join_inj field_text "}"%char eq_refl ltac:(done) (λ kx, json_ok kx.2)) in H
      as [-> ->]; [done| |].
    + rewrite Forall_forall in *. intros [k x] Hx. split; [|done].
      apply field_reads_back. apply (IH (k, x) Hx), (Hok (k, x) Hx).
    + eapply Forall_impl; [exact Hy|]. by intros [k x].
Qed.

(** ** Canonical text is faithful *)

Section faithful.
Variable num_to_string : float → string.
(** A finite number prints as digits with a sign, a point or an exponent. *)
Hypothesis num_atom : ∀ x, is_finite x = true → atom_ok (num_to_string x) = true.

Lemma flat_map_fields {B} (f : jsval → B) (g : B → string) (fields : list (string * jsval)) :
  map (λ '(k, x), (k, g x))
    (flat_map (λ '(k, x), match x with VUndef => [] | _ => [(k, f x)] end) fields) =
  flat_map (λ '(k, x), match x with VUndef => [] | _ => [(k, g (f x))] end) fields.
Proof. induction fields as [|[k x] fields IH]; simpl; [done|]. rewrite map_app, IH. by destruct x. Qed.

Lemma canonical_normal v : canonical num_to_string v = json_text (normal num_to_string v).
Proof.
  induction v as [| |b|x|s|l IH|fields IH|n] using jsval_ind'; try done.
  - cbn [canonical normal json_text]. do 2 f_equal. f_equal. rewrite map_map.
    induction IH as [|x l Hx _ IHl]; simpl; [done|]. by rewrite Hx, IHl.
  - cbn [canonical normal json_text]. f_equal.
    rewrite sort_keys_map. f_equal. rewrite flat_map_fields.
    induction IH as [|[k x] l Hx _ IHl]; [done|]. simpl in Hx |- *. rewrite IHl, Hx. done.
Qed.

Lemma insert_key_perm {A} k (v : A) l : insert_key k v l ≡ₚ (k, v) :: l.
Proof.
  induction l as [|[k' v'] l IH]; simpl; [done|]. destruct (String.leb k k'); [done|].
  rewrite IH. by constructor.
Qed.

Lemma sort_keys_permutation {A} (l : list (string * A)) : sort_keys l ≡ₚ l.
Proof. induction l as [|[k v] l IH]; simpl; [done|]. by rewrite insert_key_perm, IH. Qed.

Lemma normal_ok v : json_ok (normal num_to_string v).
Proof.
  induction v as [| |b|x|s|l IH|fields IH|n] using jsval_ind'; try done.
  - by destruct b.
  - simpl. unfold num_text. destruct (is_finite x) eqn:E; [by apply num_atom|done].
  - simpl. rewrite json_ok_list, Forall_map. exact IH.
  - cbn [normal json_ok]. rewrite json_ok_fields, sort_keys_permutation.
    induction IH as [|[k x] l Hx _ IHl]; [done|]. simpl. apply Forall_app. split; [|done].
    destruct x; repeat constructor; exact Hx.
Qed.

Lemma canonical_iff v w :
  canonical num_to_string v = canonical num_to_string w ↔
  normal num_to_string v = normal num_to_string w.
Proof.
  rewrite !canonical_normal. split; [|by intros ->]. intros H.
  destruct (text_inj (normal num_to_string v) (normal_ok v) (normal num_to_string w) "" "")
    as [E _]; [apply normal_ok|done|done|by rewrite H|done].
Qed.

Lemma map_fst_fields {B} (f : jsval → B) (fields : list (string * jsval)) :
  map fst (flat_map (λ '(k, x), match x with VUndef => [] | _ => [(k, f x)] end) fields) =
  map fst (List.filter (λ '(_, x), negb (match x with VUndef => true | _ => false end)) fields).
Proof. induction fields as [|[k x] fields IH]; simpl; [done|]. destruct x; simpl; by rewrite IH. Qed.

(** Reordered fields have one normal form. *)
Lemma normal_reorder fields fields' :
  fields ≡ₚ fields' → NoDup (map fst fields) →
  normal num_to_string (VObj fields) = normal num_to_string (VObj fields').
Proof.
  intros Hp Hn. cbn [normal]. f_equal. apply sort_keys_perm.
  - by apply Permutation_flat_map.
  - rewrite map_fst_fields. by apply NoDup_map_bfilter.
Qed.
End faithful.
