(* ===== verification/PolicyTypes.v ===== *)
(** * Policy documents, attributes and actions

    [policy/policy.types.ts] and [policy/action-registry.ts]: the tenant-authored
    policy document, the attribute vocabulary its rules match on, the
    refinements the schema runs on a parsed document, and the action namespace.
    The base shapes (string lengths, enums) are checked by the schema library;
    they appear here as [condition_shape], [rule_shape] and [document_shape]. *)

From S2P Require Import Prelude Js Regex.
Local Open Scope string_scope.
Local Open Scope nat_scope.

(** ** Enumerations *)

Inductive PolicyEffect : Type := EAllow | EDeny.
Inductive PolicyRuleKind : Type := RuleAction | RuleSource.
Inductive PolicyMode : Type := ReportOnly | Enforce | Disabled.
Inductive PolicyDecision : Type := DAllow | DDeny | DWouldDeny.
Inductive ActionKind : Type := KRead | KWrite | KAdmin.
Inductive MatchOp : Type :=
  OpEq | OpIn | OpPrefix | OpGte | OpGt | OpLte | OpLt | OpExists | OpNotExists.
Inductive AttrType : Type := TString | TNumber | TBoolean.

#[export] Instance PolicyEffect_eq_dec : EqDecision PolicyEffect.
Proof. solve_decision. Defined.
#[export] Instance PolicyRuleKind_eq_dec : EqDecision PolicyRuleKind.
Proof. solve_decision. Defined.
#[export] Instance PolicyMode_eq_dec : EqDecision PolicyMode.
Proof. solve_decision. Defined.
#[export] Instance PolicyDecision_eq_dec : EqDecision PolicyDecision.
Proof. solve_decision. Defined.
#[export] Instance ActionKind_eq_dec : EqDecision ActionKind.
Proof. solve_decision. Defined.
#[export] Instance MatchOp_eq_dec : EqDecision MatchOp.
Proof. solve_decision. Defined.
#[export] Instance AttrType_eq_dec : EqDecision AttrType.
Proof. solve_decision. Defined.

(** ** The attribute vocabulary *)

Definition string_eq_in : list MatchOp := [OpEq; OpIn].
Definition number_ops : list MatchOp := [OpGte; OpGt; OpLte; OpLt].

Definition POLICY_ATTRIBUTES : list (string * (AttrType * list MatchOp)) :=
  [ ("predicate", (TString, [OpEq; OpIn; OpPrefix]));
    ("piiClass", (TString, string_eq_in));
    ("source.vertical", (TString, string_eq_in));
    ("source.recorder", (TString, string_eq_in));
    ("source.documentId", (TString, string_eq_in));
    ("source.originKey", (TString, [OpEq; OpIn; OpPrefix]));
    ("trust.authority", (TNumber, number_ops));
    ("trust.declaredTrust", (TNumber, number_ops));
    ("trust.learnedTrust", (TNumber, number_ops));
    ("corroboration.count", (TNumber, number_ops));
    ("provenance.purged", (TBoolean, [OpEq]));
    ("userId", (TString, [OpEq; OpIn; OpExists; OpNotExists])) ].

Definition ident_tail : Ascii.ascii → bool :=
  λ c, is_lower c || is_digit c || is_one_of "_" c.

(** [/^source\.meta\.[a-z][a-z0-9_]{0,63}$/] *)
Definition SOURCE_META_ATTR : re :=
  RSeq (r_lit "source.meta.") (RSeq (RCls is_lower) (r_range 0 63 (RCls ident_tail))).

Definition META_ATTR_OPS : list MatchOp := [OpEq; OpIn; OpExists; OpNotExists].

(** What [POLICY_ATTRIBUTES[attr]] and the fallback give. The table is a plain
    object, so the name of an [Object.prototype] member finds the inherited
    member: it is truthy, and has no [ops]. *)
Inductive attr_lookup : Type :=
| ASpec (ty : AttrType) (ops : list MatchOp)
| AInherited (name : string)
| AUnknown.

Definition attributeSpec (attr : string) : attr_lookup :=
  match OMap.get attr POLICY_ATTRIBUTES with
  | Some (ty, ops) => ASpec ty ops
  | None =>
      if bool_decide (attr ∈ object_prototype) then AInherited attr
      else if re_test SOURCE_META_ATTR attr then ASpec TString META_ATTR_OPS
      else AUnknown
  end.

(** ** Documents *)

(** A condition's value: the schema's union of scalars and string arrays. *)
Inductive cond_value : Type :=
| CStr (s : string)
| CNum (x : float)
| CBool (b : bool)
| CArr (l : list string).

Record MatchCondition := {
  mc_attr : string;
  mc_op : MatchOp;
  mc_value : option cond_value
}.

Record PolicyRule := {
  pr_id : string;
  pr_effect : PolicyEffect;
  pr_kind : PolicyRuleKind;
  pr_enabled : bool;
  pr_actions : option (list string);
  pr_match : option (list MatchCondition)
}.

(** [activeFrom] and [activeUntil] are the instants (epoch milliseconds) the
    code reads with [new Date(...)]. *)
Record PolicyDocument := {
  pd_name : string;
  pd_posture_actions : PolicyEffect;
  pd_posture_reads : PolicyEffect;
  pd_mode : PolicyMode;
  pd_activeFrom : option Z;
  pd_activeUntil : option Z;
  pd_rules : list PolicyRule
}.

Definition id_char : Ascii.ascii → bool :=
  λ c, is_lower c || is_digit c || is_one_of "_-" c.

(** [/^[a-z0-9][a-z0-9_-]{0,63}$/] *)
Definition RULE_ID : re :=
  RSeq (RCls (λ c, is_lower c || is_digit c)) (r_range 0 63 (RCls id_char)).
(** [/^[a-z][a-z0-9_-]{1,63}$/] *)
Definition SET_NAME : re := RSeq (RCls is_lower) (r_range 1 63 (RCls id_char)).
(** [/^(@[a-z]+|[a-z][a-z0-9_.-]{0,127})$/] *)
Definition ACTION_NAME : re :=
  RAlt (RSeq (r_lit "@") (r_plus (RCls is_lower)))
       (RSeq (RCls is_lower)
          (r_range 0 127 (RCls (λ c, is_lower c || is_digit c || is_one_of "_.-" c)))).

Definition MAX_RULES_PER_SET : nat := 64.
Definition MAX_VALUES_PER_LIST : nat := 128.
Definition MAX_DOCUMENT_BYTES : nat := 32 * 1024.
Definition MAX_SETS_PER_KEY : nat := 8.

Definition POLICY_MACROS : list string := ["@readonly"; "@write"; "@all"].

(** The issues the refinements raise, by the check that raises them. *)
Inductive policy_issue : Type :=
| UnknownAttribute (attr : string)
| OperatorNotValid (op : MatchOp) (attr : string)
| OperatorTakesNoValue (op : MatchOp)
| OperatorRequiresValue (op : MatchOp)
| InRequiresArray
| InOnlyStrings
| ValueTypeMismatch (ty : AttrType)
| ActionRequiresActions
| ActionCarriesMatch
| UnknownMacro (name : string)
| SourceRequiresMatch
| SourceCarriesActions
| DuplicateRuleId (id : string)
| DocumentTooLarge
| WindowNeverOpens.

Definition scalar_ok (ty : AttrType) (v : cond_value) : bool :=
  match ty, v with
  | TNumber, CNum _ | TBoolean, CBool _ | TString, CStr _ => true
  | _, _ => false
  end.

Definition is_array (v : cond_value) : bool :=
  match v with CArr _ => true | _ => false end.

(** The condition refinement. [spec.ops.includes] on an inherited member is a
    [TypeError]. *)
Definition refineCondition (c : MatchCondition) : result http_exn (list policy_issue) :=
  match attributeSpec (mc_attr c) with
  | AUnknown => Ok [UnknownAttribute (mc_attr c)]
  | AInherited _ => Throw (TypeErr "spec.ops is undefined")
  | ASpec ty ops =>
      if negb (bool_decide (mc_op c ∈ ops)) then Ok [OperatorNotValid (mc_op c) (mc_attr c)]
      else if bool_decide (mc_op c = OpExists) || bool_decide (mc_op c = OpNotExists) then
        Ok (match mc_value c with
            | Some _ => [OperatorTakesNoValue (mc_op c)]
            | None => []
            end)
      else
        match mc_value c with
        | None => Ok [OperatorRequiresValue (mc_op c)]
        | Some v =>
            if bool_decide (mc_op c = OpIn) then
              if negb (is_array v) then Ok [InRequiresArray]
              else if negb (bool_decide (ty = TString)) then Ok [InOnlyStrings]
              else Ok []
            else if is_array v || negb (scalar_ok ty v) then Ok [ValueTypeMismatch ty]
            else Ok []
        end
  end.

(** The rule refinement. *)
Definition refineRule (r : PolicyRule) : list policy_issue :=
  match pr_kind r with
  | RuleAction =>
      (match pr_actions r with None => [ActionRequiresActions] | Some _ => [] end ++
       match pr_match r with Some _ => [ActionCarriesMatch] | None => [] end ++
       flat_map
         (λ a, if starts_with "@" a && negb (bool_decide (a ∈ POLICY_MACROS))
               then [UnknownMacro a] else [])
         (default [] (pr_actions r)))%list
  | RuleSource =>
      (match pr_match r with None => [SourceRequiresMatch] | Some _ => [] end ++
       match pr_actions r with Some _ => [SourceCarriesActions] | None => [] end)%list
  end.

(** Ids already seen, one issue per repeat. *)
Fixpoint dup_ids (seen : list string) (rs : list PolicyRule) : list policy_issue :=
  match rs with
  | [] => []
  | r :: rs' =>
      ((if bool_decide (pr_id r ∈ seen) then [DuplicateRuleId (pr_id r)] else []) ++
       dup_ids (add_new seen (pr_id r)) rs')%list
  end.

Section document.
(** [JSON.stringify(doc).length] *)
Context (json_length : PolicyDocument → nat).

(** The document refinement. *)
Definition refineDocument (d : PolicyDocument) : list policy_issue :=
  (dup_ids [] (pd_rules d) ++
   (if MAX_DOCUMENT_BYTES <? json_length d then [DocumentTooLarge] else []) ++
   match pd_activeFrom d, pd_activeUntil d with
   | Some f, Some u => if (u <=? f)%Z then [WindowNeverOpens] else []
   | _, _ => []
   end)%list.

Definition no_issues (r : result http_exn (list policy_issue)) : bool :=
  match r with Ok [] => true | _ => false end.

Definition condition_valid (c : MatchCondition) : bool := no_issues (refineCondition c).

Definition rule_valid (r : PolicyRule) : bool :=
  bool_decide (refineRule r = []) && forallb condition_valid (default [] (pr_match r)).
End document.

(** The base shapes of the three schemas. *)
Definition condition_shape (c : MatchCondition) : bool :=
  (String.length (mc_attr c) <=? 96) &&
  match mc_value c with
  | None | Some (CBool _) => true
  | Some (CStr s) => String.length s <=? 256
  | Some (CNum x) => is_finite x
  | Some (CArr l) =>
      forallb (λ s, String.length s <=? 256) l &&
      (1 <=? length l) && (length l <=? MAX_VALUES_PER_LIST)
  end.

Definition rule_shape (r : PolicyRule) : bool :=
  re_test RULE_ID (pr_id r) &&
  match pr_actions r with
  | None => true
  | Some l =>
      forallb (re_test ACTION_NAME) l &&
      (1 <=? length l) && (length l <=? MAX_VALUES_PER_LIST)
  end &&
  match pr_match r with
  | None => true
  | Some l => forallb condition_shape l && (1 <=? length l) && (length l <=? 16)
  end.

Definition document_shape (d : PolicyDocument) : bool :=
  re_test SET_NAME (pd_name d) && forallb rule_shape (pd_rules d) &&
  (length (pd_rules d) <=? MAX_RULES_PER_SET).

#[export] Instance policy_issue_eq_dec : EqDecision policy_issue.
Proof. solve_decision. Defined.

(** What the schema accepts. *)
Definition document_valid (json_length : PolicyDocument → nat) (d : PolicyDocument) : bool :=
  document_shape d && forallb rule_valid (pd_rules d) &&
  bool_decide (refineDocument json_length d = []).

(** ** The action namespace *)

Inductive ActionFamily : Type :=
  FMcpRead | FMcpWrite | FMcpCommunity | FMcpProcedural | FMcpSource | FRest.

Definition ACTIONS : list (string * (ActionKind * ActionFamily)) :=
   [ ("search_knowledge", (KRead, FMcpRead));
     ("search_multi_hop", (KRead, FMcpRead));
     ("graph_retrieve", (KRead, FMcpRead));
     ("synthesize", (KRead, FMcpRead));
     ("agent_qa", (KRead, FMcpRead));
     ("memory_diff", (KRead, FMcpRead));
     ("get_entity_profile", (KRead, FMcpRead));
     ("get_entity_timeline", (KRead, FMcpRead));
     ("autocomplete_entities", (KRead, FMcpRead));
     ("get_competing_facts", (KRead, FMcpRead));
     ("relationship_context", (KRead, FMcpRead));
     ("get_fact", (KRead, FMcpRead));
     ("get_fact_provenance", (KRead, FMcpRead));
     ("get_belief", (KRead, FMcpRead));
     ("list_beliefs", (KRead, FMcpRead));
     ("get_scene", (KRead, FMcpRead));
     ("list_scenes", (KRead, FMcpRead));
     ("summarize_entity", (KRead, FMcpRead));
     ("detect_contradiction", (KRead, FMcpRead));
     ("why", (KRead, FMcpRead));
     ("recall_decisions", (KRead, FMcpRead));
     ("record_fact", (KWrite, FMcpWrite));
     ("retract_fact", (KWrite, FMcpWrite));
     ("link_entities", (KWrite, FMcpWrite));
     ("forget_entity", (KWrite, FMcpWrite));
     ("ingest_document", (KWrite, FMcpWrite));
     ("record_decision", (KWrite, FMcpWrite));
     ("record_feedback", (KWrite, FMcpWrite));
     ("take_memory_work", (KWrite, FMcpWrite));
     ("submit_memory_work", (KWrite, FMcpWrite));
     ("list_communities", (KRead, FMcpCommunity));
     ("search_communities", (KRead, FMcpCommunity));
     ("find_entity_communities", (KRead, FMcpCommunity));
     ("find_related_entities", (KRead, FMcpCommunity));
     ("list_procedures", (KRead, FMcpProcedural));
     ("match_procedure", (KRead, FMcpProcedural));
     ("record_procedure", (KWrite, FMcpProcedural));
     ("retire_procedure", (KWrite, FMcpProcedural));
     ("get_source_reputation", (KRead, FMcpSource));
     ("workspace_status", (KRead, FMcpRead));
     ("rename_workspace", (KWrite, FMcpWrite));
     ("find_tool", (KRead, FMcpRead));
     ("run_tool", (KWrite, FMcpWrite));
     ("search", (KRead, FMcpRead));
     ("fetch", (KRead, FMcpRead));
     ("about_brain", (KRead, FMcpRead));
     ("how_to_connect", (KRead, FMcpRead));
     ("rest.users.forget", (KWrite, FRest));
     ("rest.users.affect.export", (KRead, FRest));
     ("rest.users.affect.erase", (KWrite, FRest));
     ("rest.users.affect.contest", (KWrite, FRest));
     ("rest.users.consents.list", (KRead, FRest));
     ("rest.users.consents.record", (KWrite, FRest));
     ("rest.users.consents.revoke", (KWrite, FRest));
     ("rest.users.age.get", (KRead, FRest));
     ("rest.users.age.set", (KWrite, FRest));
     ("rest.users.guardian.set", (KWrite, FRest));
     ("rest.users.guardian.remove", (KWrite, FRest));
     ("rest.users.safety_events.record", (KWrite, FRest));
     ("rest.users.safety_events.list", (KRead, FRest));
     ("rest.admin.residency.get", (KRead, FRest));
     ("rest.admin.residency.pin", (KWrite, FRest));
     ("rest.admin.safety_report", (KRead, FRest));
     ("rest.ingest.mention", (KWrite, FRest));
     ("rest.ingest.evidence_asset", (KWrite, FRest));
     ("rest.ingest.evidence_blob", (KWrite, FRest));
     ("rest.documents.get", (KRead, FRest));
     ("rest.documents.candidates", (KRead, FRest));
     ("rest.documents.commit", (KWrite, FRest));
     ("rest.documents.stage_candidates", (KWrite, FRest));
     ("rest.documents.purge_content", (KWrite, FRest));
     ("rest.indexer.work", (KRead, FRest));
     ("rest.indexer.claim", (KWrite, FRest));
     ("rest.indexer.heartbeat", (KWrite, FRest));
     ("rest.indexer.content", (KRead, FRest));
     ("rest.indexer.fail", (KWrite, FRest));
     ("rest.artifacts.get", (KRead, FRest));
     ("rest.artifacts.recompile", (KWrite, FRest));
     ("rest.stats.overview", (KRead, FRest));
     ("rest.dreams.run", (KWrite, FRest));
     ("rest.sources.list", (KRead, FRest));
     ("rest.registry.pricing.set", (KWrite, FRest));
     ("rest.registry.pricing.clear", (KWrite, FRest));
     ("rest.registry.feature", (KWrite, FRest));
     ("rest.registry.unfeature", (KWrite, FRest));
     ("rest.registry.publisher.upsert", (KWrite, FRest));
     ("rest.registry.publisher.get", (KRead, FRest));
     ("rest.episodes.list", (KRead, FRest));
     ("rest.episodes.export", (KRead, FRest));
     ("rest.projections.list", (KRead, FRest));
     ("rest.projections.rebuild", (KAdmin, FRest));
     ("rest.episodes.subscribe", (KAdmin, FRest));
     ("rest.episodes.subscriptions", (KRead, FRest));
     ("rest.memory_files.read", (KRead, FRest));
     ("rest.memory_files.write", (KWrite, FRest));
     ("rest.keys.issue", (KAdmin, FRest));
     ("rest.keys.list", (KRead, FRest));
     ("rest.keys.revoke", (KAdmin, FRest));
     ("rest.episodes.unsubscribe", (KAdmin, FRest));
     ("rest.registry.checkout", (KWrite, FRest));
     ("rest.evidence.raw", (KRead, FRest));
     ("rest.evidence.grant", (KWrite, FRest));
     ("rest.evidence.revoke", (KWrite, FRest));
     ("rest.evidence.grants", (KRead, FRest));
     ("get_user_profile", (KRead, FRest)) ].

(** [ACTIONS[action]?.kind] and the fallbacks. [ACTIONS] is a plain object: the
    name of an inherited member gives a truthy spec whose [kind] is
    [undefined], here [None]. *)
Definition actionKind (action : string) : option ActionKind :=
  match OMap.get action ACTIONS with
  | Some (k, _) => Some k
  | None =>
      if bool_decide (action ∈ object_prototype) then None
      else if starts_with "GET " action then Some KRead
      else Some KWrite
  end.

(** One compiled action rule: exact names and macros, pre-split. *)
Record CompiledActionRule := {
  ca_id : string;
  ca_effect : PolicyEffect;
  ca_names : list string;
  ca_macros : list string
}.

(** Does one compiled action rule cover this action? *)
Definition actionRuleMatches (r : CompiledActionRule) (action : string)
    (kind : option ActionKind) : bool :=
  bool_decide (action ∈ ca_names r) ||
  bool_decide ("@all" ∈ ca_macros r) ||
  (bool_decide ("@readonly" ∈ ca_macros r) && bool_decide (kind = Some KRead)) ||
  (bool_decide ("@write" ∈ ca_macros r) && bool_decide (kind = Some KWrite)).

(** ** Lemmas *)

(** A condition the refinement accepts names a specified attribute, with an
    operator that attribute allows and a value of the type the operator reads. *)
Inductive well_typed (c : MatchCondition) : Prop :=
| WT_presence ty ops :
    attributeSpec (mc_attr c) = ASpec ty ops → mc_op c ∈ ops →
    mc_op c = OpExists ∨ mc_op c = OpNotExists → mc_value c = None → well_typed c
| WT_in ops l :
    attributeSpec (mc_attr c) = ASpec TString ops → mc_op c ∈ ops →
    mc_op c = OpIn → mc_value c = Some (CArr l) → well_typed c
| WT_scalar ty ops v :
    attributeSpec (mc_attr c) = ASpec ty ops → mc_op c ∈ ops →
    mc_op c ≠ OpExists → mc_op c ≠ OpNotExists → mc_op c ≠ OpIn →
    mc_value c = Some v → scalar_ok ty v = true → well_typed c.

Lemma condition_valid_iff c : condition_valid c = true ↔ well_typed c.
Proof.
  unfold condition_valid, refineCondition. split.
  - destruct (attributeSpec (mc_attr c)) as [ty ops| |] eqn:Ea; simpl; try done.
    destruct (bool_decide (mc_op c ∈ ops)) eqn:Eo; simpl; [|done].
    apply bool_decide_eq_true in Eo.
    destruct (bool_decide (mc_op c = OpExists)) eqn:E1,
      (bool_decide (mc_op c = OpNotExists)) eqn:E2; simpl;
      rewrite ?bool_decide_eq_true, ?bool_decide_eq_false in *;
      try (destruct (mc_value c) eqn:Ev; simpl; [done|]; intros _;
           eapply WT_presence; eauto; fail).
    destruct (mc_value c) as [v|] eqn:Ev; [|done].
    case_bool_decide as E3.
    + destruct v; simpl; try done. case_bool_decide; simpl; [subst|done].
      intros _. eapply WT_in; eauto.
    + destruct (is_array v || negb (scalar_ok ty v)) eqn:E4; simpl; [done|].
      intros _. apply orb_false_iff in E4 as [_ E4%negb_false_iff].
      eapply WT_scalar; eauto.
  - intros [ty ops Ea Ho Hop Hv|ops l Ea Ho Hop Hv|ty ops v Ea Ho H1 H2 H3 Hv Hs];
      rewrite Ea, (bool_decide_eq_true_2 _ Ho), Hv; simpl.
    + by destruct Hop as [-> | ->].
    + by rewrite Hop.
    + rewrite (bool_decide_eq_false_2 _ H1), (bool_decide_eq_false_2 _ H2),
        (bool_decide_eq_false_2 _ H3), Hs. simpl. by destruct v, ty.
Qed.

Lemma dup_ids_nil seen rs :
  dup_ids seen rs = [] →
  NoDup (map pr_id rs) ∧ (∀ i, i ∈ map pr_id rs → i ∉ seen).
Proof.
  revert seen. induction rs as [|r rs IH]; intros seen; simpl.
  - intros _. split; [constructor|by intros i ?%elem_of_nil].
  - case_bool_decide as Hs; [done|]. simpl. intros H.
    destruct (IH _ H) as [Hnd Hout]. split.
    + constructor; [|done]. intros Hin. destruct (Hout _ Hin).
      apply elem_of_add_new. by right.
    + intros i. rewrite elem_of_cons. intros [->|Hi]; [done|].
      intros ?. destruct (Hout _ Hi). apply elem_of_add_new. by left.
Qed.

(** Rule ids of an accepted document are unique. *)
Lemma document_valid_NoDup jl d :
  document_valid jl d = true → NoDup (map pr_id (pd_rules d)).
Proof.
  unfold document_valid, refineDocument. rewrite !andb_true_iff, bool_decide_eq_true.
  intros [_ H]. apply app_nil in H as [H _]. by apply dup_ids_nil in H as [? _].
Qed.

Lemma document_valid_rules jl d r :
  document_valid jl d = true → r ∈ pd_rules d → rule_valid r = true.
Proof.
  unfold document_valid. rewrite !andb_true_iff, forallb_In.
  intros [[_ H] _] Hr. by apply H.
Qed.

Lemma rule_valid_conditions r c :
  rule_valid r = true → c ∈ default [] (pr_match r) → well_typed c.
Proof.
  unfold rule_valid. rewrite andb_true_iff, forallb_In.
  intros [_ H] Hc. by apply condition_valid_iff, H.
Qed.
