(* ===== verification/PolicyEngine.v ===== *)
(** * Policy compilation and evaluation

    [policy/policy-compile.ts] and [policy/policy-engine.ts]: a document becomes
    matcher closures once; a request or a row is decided by every set of the
    context, deny-overrides inside a set, most-restrictive across sets. *)

From S2P Require Import Prelude Js Regex PolicyTypes.
Local Open Scope string_scope.
Local Open Scope nat_scope.

(** ** The row view *)

(** The normalised attribute view of one row. Every field but the two names is
    a dynamic value: an object, a scalar, or absent. *)
Record PolicyRowView := {
  rv_predicate : string;
  rv_piiClass : string;
  rv_source : jsval;
  rv_trustSnapshot : jsval;
  rv_corroboration : jsval;
  rv_userId : jsval
}.

(** The array members a dotted path can reach besides [length]. *)
Definition array_prototype : list string :=
  [ "at"; "concat"; "copyWithin"; "entries"; "every"; "fill"; "filter"; "find";
    "findIndex"; "findLast"; "findLastIndex"; "flat"; "flatMap"; "forEach";
    "includes"; "indexOf"; "join"; "keys"; "lastIndexOf"; "map"; "pop"; "push";
    "reduce"; "reduceRight"; "reverse"; "shift"; "slice"; "some"; "sort";
    "splice"; "toReversed"; "toSorted"; "toSpliced"; "unshift"; "values"; "with" ].

Definition float_of_nat (n : nat) : float := PrimFloat.of_uint63 (Uint63.of_Z (Z.of_nat n)).

(** [v?.[key]] on the values a view holds: objects, arrays, absent ones. *)
Definition opt_get (v : jsval) (key : string) : jsval :=
  match v with
  | VObj fields => obj_get fields key
  | VArr l =>
      if bool_decide (key = "length") then VNum (float_of_nat (length l))
      else if bool_decide (key ∈ array_prototype ∨ key ∈ object_prototype)
      then VHost key else VUndef
  | _ => VUndef
  end.

(** [typeof v === 'object'], with [null] told apart by the caller. *)
Definition is_object (v : jsval) : bool :=
  match v with VObj _ | VArr _ => true | _ => false end.

(** ** Compilation *)

(** Dotted-path getter over the row view. *)
Definition accessor (attr : string) : PolicyRowView → jsval :=
  if bool_decide (attr = "predicate") then λ v, VStr (rv_predicate v)
  else if bool_decide (attr = "piiClass") then λ v, VStr (rv_piiClass v)
  else if bool_decide (attr = "provenance.purged") then
    λ v, opt_get (rv_source v) "provenancePurged"
  else if bool_decide (attr = "userId") then λ v, rv_userId v
  else if bool_decide (attr = "corroboration.count") then
    λ v, opt_get (rv_corroboration v) "count"
  else if starts_with "trust." attr then
    λ v, opt_get (rv_trustSnapshot v) (str_drop (String.length "trust.") attr)
  else if starts_with "source.meta." attr then
    λ v, let meta := opt_get (rv_source v) "meta" in
         if is_object meta
         then opt_get meta (str_drop (String.length "source.meta.") attr)
         else VUndef
  else if starts_with "source." attr then
    λ v, opt_get (rv_source v) (str_drop (String.length "source.") attr)
  else λ _, VUndef.

(** What a compiled condition remembers of its value. *)
Inductive expected_value : Type :=
| XNull
| XSet (l : list string)
| XVal (v : jsval).

Record CompiledCondition := {
  cc_attr : string;
  cc_op : MatchOp;
  cc_expected : expected_value;
  cc_matches : PolicyRowView → bool;
  cc_actual : PolicyRowView → jsval
}.

Definition cond_js (v : option cond_value) : jsval :=
  match v with
  | None => VUndef
  | Some (CStr s) => VStr s
  | Some (CNum x) => VNum x
  | Some (CBool b) => VBool b
  | Some (CArr l) => VArr (map VStr l)
  end.

(** The casts [cond.value as string[]], [as string] and [as number]: what a
    validated condition holds under the operator that reads it. *)
Definition as_strings (v : option cond_value) : list string :=
  match v with Some (CArr l) => l | _ => [] end.
Definition as_string (v : option cond_value) : string :=
  match v with Some (CStr s) => s | _ => "" end.
Definition as_number (v : option cond_value) : float :=
  match v with Some (CNum x) => x | _ => PrimFloat.nan end.

(** The comparison an ordering operator makes. *)
Definition num_compare (op : MatchOp) (x want : float) : bool :=
  match op with
  | OpGte => PrimFloat.leb want x
  | OpGt => PrimFloat.ltb want x
  | OpLte => PrimFloat.leb x want
  | _ => PrimFloat.ltb x want
  end.

Definition compileCondition (c : MatchCondition) : CompiledCondition :=
  let get := accessor (mc_attr c) in
  let mk expected matches :=
    {| cc_attr := mc_attr c; cc_op := mc_op c; cc_expected := expected;
       cc_matches := matches; cc_actual := get |} in
  match mc_op c with
  | OpExists => mk XNull (λ v, present (get v))
  | OpNotExists => mk XNull (λ v, negb (present (get v)))
  | OpEq =>
      let want := cond_js (mc_value c) in
      mk (XVal want) (λ v, let x := get v in present x && strict_eq x want)
  | OpIn =>
      let set := add_all [] (as_strings (mc_value c)) in
      mk (XSet set)
        (λ v, match get v with VStr s => bool_decide (s ∈ set) | _ => false end)
  | OpPrefix =>
      let want := as_string (mc_value c) in
      mk (XVal (VStr want))
        (λ v, match get v with VStr s => starts_with want s | _ => false end)
  | OpGte | OpGt | OpLte | OpLt =>
      let want := as_number (mc_value c) in
      mk (XVal (VNum want))
        (λ v, match get v with
              | VNum x => if negb (is_finite x) then false else num_compare (mc_op c) x want
              | _ => false
              end)
  end.

Record CompiledSourceRule := {
  cs_id : string;
  cs_effect : PolicyEffect;
  cs_conditions : list CompiledCondition
}.

Definition compileSourceRule (r : PolicyRule) : CompiledSourceRule :=
  {| cs_id := pr_id r; cs_effect := pr_effect r;
     cs_conditions := map compileCondition (default [] (pr_match r)) |}.

(** Splits the names from the [@] macros; both are sets. *)
Definition compileActionRule (r : PolicyRule) : CompiledActionRule :=
  let step acc a :=
    if starts_with "@" a then (acc.1, add_new acc.2 a) else (add_new acc.1 a, acc.2) in
  let '(names, macros) := fold_left step (default [] (pr_actions r)) ([], []) in
  {| ca_id := pr_id r; ca_effect := pr_effect r; ca_names := names; ca_macros := macros |}.

Record CompiledPolicySet := {
  cp_name : string;
  cp_mode : PolicyMode;
  cp_posture_actions : PolicyEffect;
  cp_posture_reads : PolicyEffect;
  cp_actionDeny : list CompiledActionRule;
  cp_actionAllow : list CompiledActionRule;
  cp_sourceDeny : list CompiledSourceRule;
  cp_sourceAllow : list CompiledSourceRule;
  cp_document : PolicyDocument
}.

(** The four buckets, filled in rule order. *)
Definition push_rule (s : CompiledPolicySet) (r : PolicyRule) : CompiledPolicySet :=
  if negb (pr_enabled r) then s
  else
    let upd ad aa sd sa :=
      {| cp_name := cp_name s; cp_mode := cp_mode s;
         cp_posture_actions := cp_posture_actions s;
         cp_posture_reads := cp_posture_reads s;
         cp_actionDeny := (cp_actionDeny s ++ ad)%list;
         cp_actionAllow := (cp_actionAllow s ++ aa)%list;
         cp_sourceDeny := (cp_sourceDeny s ++ sd)%list;
         cp_sourceAllow := (cp_sourceAllow s ++ sa)%list;
         cp_document := cp_document s |} in
    match pr_kind r, pr_effect r with
    | RuleAction, EDeny => upd [compileActionRule r] [] [] []
    | RuleAction, EAllow => upd [] [compileActionRule r] [] []
    | RuleSource, EDeny => upd [] [] [compileSourceRule r] []
    | RuleSource, EAllow => upd [] [] [] [compileSourceRule r]
    end.

Definition empty_set (d : PolicyDocument) : CompiledPolicySet :=
  {| cp_name := pd_name d; cp_mode := pd_mode d;
     cp_posture_actions := pd_posture_actions d;
     cp_posture_reads := pd_posture_reads d;
     cp_actionDeny := []; cp_actionAllow := [];
     cp_sourceDeny := []; cp_sourceAllow := []; cp_document := d |}.

(** Disabled sets and sets outside their window compile to nothing. *)
Definition compilePolicySet (d : PolicyDocument) (now : Z) : option CompiledPolicySet :=
  if bool_decide (pd_mode d = Disabled) then None
  else if match pd_activeFrom d with Some f => (now <? f)%Z | None => false end then None
  else if match pd_activeUntil d with Some u => (u <=? now)%Z | None => false end then None
  else Some (fold_left push_rule (pd_rules d) (empty_set d)).

(** The fail-closed sentinel for a name that does not resolve. *)
Definition denyAllSet (name : string) : CompiledPolicySet :=
  empty_set {| pd_name := name; pd_posture_actions := EDeny; pd_posture_reads := EDeny;
               pd_mode := Enforce; pd_activeFrom := None; pd_activeUntil := None;
               pd_rules := [] |}.

(** ** Evaluation *)

Record PolicyContext := {
  pc_companyId : string;
  pc_keyHash : string;
  pc_sets : list CompiledPolicySet;
  pc_forceReportOnly : bool;
  pc_resolutionError : bool
}.

Record SetVerdict := {
  sv_policySet : string;
  sv_mode : PolicyMode;
  sv_verdict : PolicyEffect;
  sv_ruleId : option string
}.

Record PolicyEvaluation := {
  pe_decision : PolicyDecision;
  pe_verdicts : list SetVerdict
}.

Definition sourceRuleMatches (r : CompiledSourceRule) (v : PolicyRowView) : bool :=
  forallb (λ c, cc_matches c v) (cs_conditions r).

Definition mk_verdict (s : CompiledPolicySet) (e : PolicyEffect) (rule : option string) : SetVerdict :=
  {| sv_policySet := cp_name s; sv_mode := cp_mode s; sv_verdict := e; sv_ruleId := rule |}.

Definition setVerdictForAction (s : CompiledPolicySet) (action : string)
    (kind : option ActionKind) : SetVerdict :=
  match find_first (λ r, actionRuleMatches r action kind) (cp_actionDeny s) with
  | Some r => mk_verdict s EDeny (Some (ca_id r))
  | None =>
      match find_first (λ r, actionRuleMatches r action kind) (cp_actionAllow s) with
      | Some r => mk_verdict s EAllow (Some (ca_id r))
      | None => mk_verdict s (cp_posture_actions s) None
      end
  end.

Definition setVerdictForRow (s : CompiledPolicySet) (v : PolicyRowView) : SetVerdict :=
  match find_first (λ r, sourceRuleMatches r v) (cp_sourceDeny s) with
  | Some r => mk_verdict s EDeny (Some (cs_id r))
  | None =>
      match find_first (λ r, sourceRuleMatches r v) (cp_sourceAllow s) with
      | Some r => mk_verdict s EAllow (Some (cs_id r))
      | None => mk_verdict s (cp_posture_reads s) None
      end
  end.

(** Does this verdict block under the context? *)
Definition enforced (ctx : PolicyContext) (v : SetVerdict) : bool :=
  bool_decide (sv_mode v = Enforce) && negb (pc_forceReportOnly ctx).

Definition combine (ctx : PolicyContext) (verdicts : list SetVerdict) : PolicyEvaluation :=
  let '(enforcedDeny, wouldDeny) :=
    fold_left
      (λ '(e, w) v,
         if negb (bool_decide (sv_verdict v = EDeny)) then (e, w)
         else if enforced ctx v then (true, w) else (e, true))
      verdicts (false, false) in
  {| pe_decision := if enforcedDeny : bool then DDeny
                    else if wouldDeny : bool then DWouldDeny else DAllow;
     pe_verdicts := verdicts |}.

(** An omitted (or [undefined]) [kind] defaults to the registry's. *)
Definition evaluateAction (ctx : PolicyContext) (action : string)
    (kind : option ActionKind) : PolicyEvaluation :=
  let kind := match kind with Some k => Some k | None => actionKind action end in
  combine ctx (map (λ s, setVerdictForAction s action kind) (pc_sets ctx)).

Definition evaluateRow (ctx : PolicyContext) (v : PolicyRowView) : PolicyEvaluation :=
  combine ctx (map (λ s, setVerdictForRow s v) (pc_sets ctx)).

(** The fact-shaped record [toRowView] normalises. *)
Record FactRow := {
  fr_id : option string;
  fr_predicate : string;
  fr_source : jsval;
  fr_trustSnapshot : jsval;
  fr_corroboration : jsval;
  fr_userId : jsval
}.

(** [x ?? null] *)
Definition nullish (v : jsval) : jsval := if present v then v else VNull.

Definition toRowView (row : FactRow) (piiClassOf : string → string) : PolicyRowView :=
  {| rv_predicate := fr_predicate row;
     rv_piiClass := piiClassOf (fr_predicate row);
     rv_source := if is_object (fr_source row) then fr_source row else VNull;
     rv_trustSnapshot := nullish (fr_trustSnapshot row);
     rv_corroboration := nullish (fr_corroboration row);
     rv_userId := nullish (fr_userId row) |}.

(** ** Explain traces *)

Record FieldTrace := {
  ft_attr : string;
  ft_op : MatchOp;
  ft_expected : expected_value;
  ft_actual : jsval;
  ft_matched : bool
}.

Record RuleTrace := {
  rt_ruleId : string;
  rt_effect : PolicyEffect;
  rt_matched : bool;
  rt_fields : list FieldTrace
}.

Record SetTrace := {
  st_policySet : string;
  st_mode : PolicyMode;
  st_verdict : PolicyEffect;
  st_decidedBy : string;
  st_rules : list RuleTrace
}.

Definition traceSourceRule (r : CompiledSourceRule) (v : PolicyRowView) : RuleTrace :=
  let fields :=
    map (λ c, {| ft_attr := cc_attr c; ft_op := cc_op c; ft_expected := cc_expected c;
                 ft_actual := cc_actual c v; ft_matched := cc_matches c v |})
        (cs_conditions r) in
  {| rt_ruleId := cs_id r; rt_effect := cs_effect r;
     rt_matched := forallb ft_matched fields; rt_fields := fields |}.

Definition explainRow (ctx : PolicyContext) (v : PolicyRowView) : list SetTrace :=
  map (λ s,
    let verdict := setVerdictForRow s v in
    {| st_policySet := cp_name s; st_mode := cp_mode s;
       st_verdict := sv_verdict verdict;
       st_decidedBy := default "posture" (sv_ruleId verdict);
       st_rules := map (λ r, traceSourceRule r v) (cp_sourceDeny s ++ cp_sourceAllow s)%list |})
    (pc_sets ctx).

Definition explainAction (ctx : PolicyContext) (action : string)
    (kind : option ActionKind) : list SetTrace :=
  let kind := match kind with Some k => Some k | None => actionKind action end in
  map (λ s,
    let verdict := setVerdictForAction s action kind in
    {| st_policySet := cp_name s; st_mode := cp_mode s;
       st_verdict := sv_verdict verdict;
       st_decidedBy := default "posture" (sv_ruleId verdict);
       st_rules :=
         map (λ r, {| rt_ruleId := ca_id r; rt_effect := ca_effect r;
                      rt_matched := actionRuleMatches r action kind; rt_fields := [] |})
           (cp_actionDeny s ++ cp_actionAllow s)%list |})
    (pc_sets ctx).
