(* ===== verification/PolicySpec.v ===== *)
(** * What a policy document promises, and that the engine implements it

    The reference semantics reads the tenant's document directly: when a
    condition holds, when a rule applies, when a set denies, and what several
    sets decide together. The theorems show that compiling and evaluating gives
    exactly that decision, that attaching more sets never widens access, that
    rule order is irrelevant, and that explain traces tell the truth. *)

From S2P Require Import Prelude Js Regex PolicyTypes PolicyEngine.
Local Open Scope string_scope.
Local Open Scope nat_scope.

(** ** The reference semantics *)

Module Spec.

(** A condition holds of a row. An absent attribute satisfies [not_exists]
    only. *)
Definition cond_holds (c : MatchCondition) (v : PolicyRowView) : Prop :=
  let x := accessor (mc_attr c) v in
  match mc_op c, mc_value c with
  | OpExists, None => x ≠ VUndef ∧ x ≠ VNull
  | OpNotExists, None => x = VUndef ∨ x = VNull
  | OpEq, Some (CStr s) => x = VStr s
  | OpEq, Some (CBool b) => x = VBool b
  | OpEq, Some (CNum n) => ∃ y, x = VNum y ∧ PrimFloat.eqb y n = true
  | OpIn, Some (CArr l) => ∃ s, x = VStr s ∧ s ∈ l
  | OpPrefix, Some (CStr p) => ∃ t, x = VStr (p +:+ t)
  | (OpGte | OpGt | OpLte | OpLt) as op, Some (CNum n) =>
      ∃ y, x = VNum y ∧ is_finite y = true ∧ num_compare op y n = true
  | _, _ => False
  end.

Definition source_applies (v : PolicyRowView) (r : PolicyRule) : Prop :=
  pr_enabled r = true ∧ pr_kind r = RuleSource ∧
  ∀ c, c ∈ default [] (pr_match r) → cond_holds c v.

(** One entry of a rule's [actions] covers an action. *)
Definition covers (action : string) (kind : option ActionKind) (a : string) : Prop :=
  (a = action ∧ starts_with "@" a = false) ∨ a = "@all" ∨
  (a = "@readonly" ∧ kind = Some KRead) ∨ (a = "@write" ∧ kind = Some KWrite).

Definition action_applies (action : string) (kind : option ActionKind) (r : PolicyRule) : Prop :=
  pr_enabled r = true ∧ pr_kind r = RuleAction ∧
  ∃ a, a ∈ default [] (pr_actions r) ∧ covers action kind a.

(** Deny-overrides: an applicable deny rule, else the absence of an
    applicable allow rule under a deny posture. *)
Definition denies (applies : PolicyRule → Prop) (posture : PolicyEffect)
    (d : PolicyDocument) : Prop :=
  (∃ r, r ∈ pd_rules d ∧ pr_effect r = EDeny ∧ applies r) ∨
  ((¬ ∃ r, r ∈ pd_rules d ∧ pr_effect r = EAllow ∧ applies r) ∧ posture = EDeny).

Definition denies_row (v : PolicyRowView) (d : PolicyDocument) : Prop :=
  denies (source_applies v) (pd_posture_reads d) d.

Definition denies_action (action : string) (kind : option ActionKind)
    (d : PolicyDocument) : Prop :=
  denies (action_applies action kind) (pd_posture_actions d) d.

Definition active (now : Z) (d : PolicyDocument) : Prop :=
  pd_mode d ≠ Disabled ∧
  (∀ f, pd_activeFrom d = Some f → (f ≤ now)%Z) ∧
  (∀ u, pd_activeUntil d = Some u → (now < u)%Z).

(** Most-restrictive across the attached documents. *)
Definition blocks (now : Z) (force : bool) (deny : PolicyDocument → Prop)
    (docs : list PolicyDocument) : Prop :=
  force = false ∧ ∃ d, d ∈ docs ∧ active now d ∧ pd_mode d = Enforce ∧ deny d.

Definition objects (now : Z) (deny : PolicyDocument → Prop)
    (docs : list PolicyDocument) : Prop :=
  ∃ d, d ∈ docs ∧ active now d ∧ deny d.

Definition decides (now : Z) (force : bool) (deny : PolicyDocument → Prop)
    (docs : list PolicyDocument) (dec : PolicyDecision) : Prop :=
  match dec with
  | DDeny => blocks now force deny docs
  | DWouldDeny => ¬ blocks now force deny docs ∧ objects now deny docs
  | DAllow => ¬ objects now deny docs
  end.
End Spec.

(** ** Cross-set combination *)

Definition is_deny (v : SetVerdict) : bool := bool_decide (sv_verdict v = EDeny).

Lemma combine_flags ctx vs e w :
  fold_left
    (λ '(e, w) v,
       if negb (bool_decide (sv_verdict v = EDeny)) then (e, w)
       else if enforced ctx v then (true, w) else (e, true))
    vs (e, w) =
  (e || existsb (λ v, is_deny v && enforced ctx v) vs,
   w || existsb (λ v, is_deny v && negb (enforced ctx v)) vs).
Proof.
  revert e w. induction vs as [|v vs IH]; intros e w; simpl.
  - by rewrite !orb_false_r.
  - unfold is_deny. case_bool_decide; simpl; [|apply IH].
    destruct (enforced ctx v); simpl; rewrite IH; simpl;
      by rewrite ?orb_true_r.
Qed.

Lemma combine_decision ctx vs :
  pe_decision (combine ctx vs) =
  if existsb (λ v, is_deny v && enforced ctx v) vs then DDeny
  else if existsb is_deny vs then DWouldDeny else DAllow.
Proof.
  unfold combine. rewrite combine_flags. simpl.
  destruct (existsb (λ v, is_deny v && enforced ctx v) vs) eqn:E; [done|].
  rewrite (existsb_ext_In (λ v, is_deny v && negb (enforced ctx v)) is_deny vs); [done|].
  intros v Hv. rewrite existsb_false_In in E. specialize (E v Hv).
  by destruct (is_deny v), (enforced ctx v).
Qed.

Lemma combine_deny_iff ctx vs :
  pe_decision (combine ctx vs) = DDeny ↔
  ∃ v, v ∈ vs ∧ sv_verdict v = EDeny ∧ enforced ctx v = true.
Proof.
  rewrite combine_decision. destruct (existsb _ vs) eqn:E.
  - split; [|done]. intros _. apply existsb_In in E as (v & ? & E).
    apply andb_true_iff in E as [?%bool_decide_eq_true ?]. eauto.
  - split; [by destruct (existsb is_deny vs)|].
    intros (v & Hv & Hd & He). rewrite existsb_false_In in E.
    specialize (E v Hv). unfold is_deny in E. by rewrite Hd, He in E.
Qed.

(** ** Buckets of a compiled set *)

Definition in_bucket (k : PolicyRuleKind) (e : PolicyEffect) (r : PolicyRule) : bool :=
  pr_enabled r && bool_decide (pr_kind r = k) && bool_decide (pr_effect r = e).

Lemma push_rules_buckets rs s :
  let s' := fold_left push_rule rs s in
  cp_actionDeny s' = (cp_actionDeny s ++
    map compileActionRule (List.filter (in_bucket RuleAction EDeny) rs))%list ∧
  cp_actionAllow s' = (cp_actionAllow s ++
    map compileActionRule (List.filter (in_bucket RuleAction EAllow) rs))%list ∧
  cp_sourceDeny s' = (cp_sourceDeny s ++
    map compileSourceRule (List.filter (in_bucket RuleSource EDeny) rs))%list ∧
  cp_sourceAllow s' = (cp_sourceAllow s ++
    map compileSourceRule (List.filter (in_bucket RuleSource EAllow) rs))%list ∧
  cp_name s' = cp_name s ∧ cp_mode s' = cp_mode s ∧
  cp_posture_actions s' = cp_posture_actions s ∧
  cp_posture_reads s' = cp_posture_reads s ∧ cp_document s' = cp_document s.
Proof.
  revert s. induction rs as [|r rs IH]; intros s; simpl.
  - by rewrite !app_nil_r.
  - destruct (IH (push_rule s r)) as (-> & -> & -> & -> & -> & -> & -> & -> & ->).
    unfold push_rule, in_bucket.
    destruct (pr_enabled r), (pr_kind r), (pr_effect r); simpl;
      rewrite ?app_nil_r, <- ?app_assoc; done.
Qed.

Lemma compile_Some d now s :
  compilePolicySet d now = Some s ↔
  Spec.active now d ∧ s = fold_left push_rule (pd_rules d) (empty_set d).
Proof.
  unfold compilePolicySet, Spec.active. case_bool_decide as Hm.
  { split; [done|]. intros [[Hne _] _]. by destruct Hne. }
  destruct (pd_activeFrom d) as [f|] eqn:Ef.
  - destruct (Z.ltb_spec now f).
    { split; [done|]. intros [(_ & Hf & _) _]. specialize (Hf f eq_refl). lia. }
    destruct (pd_activeUntil d) as [u|] eqn:Eu.
    + destruct (Z.leb_spec u now).
      { split; [done|]. intros [(_ & _ & Hu) _]. specialize (Hu u eq_refl). lia. }
      split; [|by intros [_ ->]]. intros; simplify_eq.
      repeat split; [done|by intros; simplify_eq|by intros; simplify_eq].
    + split; [|by intros [_ ->]]. intros; simplify_eq.
      repeat split; [done|by intros; simplify_eq|done].
  - destruct (pd_activeUntil d) as [u|] eqn:Eu.
    + destruct (Z.leb_spec u now).
      { split; [done|]. intros [(_ & _ & Hu) _]. specialize (Hu u eq_refl). lia. }
      split; [|by intros [_ ->]]. intros; simplify_eq.
      repeat split; [done|done|by intros; simplify_eq].
    + split; [|by intros [_ ->]]. intros; simplify_eq. by repeat split.
Qed.

(** ** Conditions and rules against the reference *)

(** The type an operator reads. *)
Definition op_reads (op : MatchOp) (ty : AttrType) : bool :=
  match op with
  | OpPrefix | OpIn => bool_decide (ty = TString)
  | OpGte | OpGt | OpLte | OpLt => bool_decide (ty = TNumber)
  | OpEq => negb (bool_decide (ty = TNumber))
  | OpExists | OpNotExists => true
  end.

Lemma attributeSpec_ops attr ty ops op :
  attributeSpec attr = ASpec ty ops → op ∈ ops → op_reads op ty = true.
Proof.
  assert (Ht : forallb (λ '(_, (ty, ops)), forallb (λ op, op_reads op ty) ops)
                 POLICY_ATTRIBUTES = true) by reflexivity.
  assert (Hm : forallb (λ op, op_reads op TString) META_ATTR_OPS = true) by reflexivity.
  unfold attributeSpec. intros Ha Hop.
  destruct (OMap.get attr POLICY_ATTRIBUTES) as [[ty' ops']|] eqn:Eg.
  - simplify_eq. apply OMap.get_elem in Eg.
    rewrite forallb_In in Ht. specialize (Ht _ Eg). simpl in Ht.
    rewrite forallb_In in Ht. auto.
  - case_bool_decide; [done|]. case_match; simplify_eq.
    rewrite forallb_In in Hm. auto.
Qed.

Lemma num_condition_spec op get n :
  op = OpGte ∨ op = OpGt ∨ op = OpLte ∨ op = OpLt →
  match get with
  | VNum x => if negb (is_finite x) then false else num_compare op x n
  | _ => false
  end = true ↔
  ∃ y, get = VNum y ∧ is_finite y = true ∧ num_compare op y n = true.
Proof.
  intros _. destruct get; try (split; [done|]; by intros (? & ? & _)).
  destruct (is_finite x) eqn:E; simpl.
  - split; [by eauto|]. by intros (y & [= ->] & _ & ?).
  - split; [done|]. intros (y & [= ->] & ? & _). congruence.
Qed.

Lemma compiled_condition_spec c v :
  well_typed c → cc_matches (compileCondition c) v = true ↔ Spec.cond_holds c v.
Proof.
  intros Hwt. unfold compileCondition, Spec.cond_holds.
  destruct Hwt as [ty ops Ea Ho Hop Hv|ops l Ea Ho Hop Hv|ty ops w Ea Ho H1 H2 H3 Hv Hs].
  - destruct Hop as [-> | ->]; rewrite Hv; simpl;
      destruct (accessor _ v); simpl; naive_solver.
  - rewrite Hop, Hv; simpl. destruct (accessor _ v); simpl; try naive_solver.
    rewrite bool_decide_eq_true, elem_of_add_all. set_solver.
  - pose proof (attributeSpec_ops _ _ _ _ Ea Ho) as Hr. rewrite Hv.
    destruct (mc_op c) eqn:Eop; simpl in Hr; try done;
      try (apply bool_decide_eq_true in Hr; subst ty);
      destruct w; simpl in Hs; try done;
      cbn [cc_matches cond_js as_strings as_string as_number];
      try (apply num_condition_spec; tauto).
    + rewrite andb_true_iff. destruct (accessor _ v); simpl;
        rewrite ?bool_decide_eq_true; naive_solver.
    + by destruct ty.
    + rewrite andb_true_iff. destruct (accessor _ v); simpl;
        rewrite ?eqb_true_iff; naive_solver.
    + by destruct ty.
    + destruct (accessor _ v); simpl; rewrite ?starts_with_spec; naive_solver.
Qed.

Lemma compiled_source_rule_spec r v :
  rule_valid r = true →
  sourceRuleMatches (compileSourceRule r) v = true ↔
  ∀ c, c ∈ default [] (pr_match r) → Spec.cond_holds c v.
Proof.
  intros Hr. unfold sourceRuleMatches. rewrite forallb_In. simpl. split.
  - intros H c Hc. apply compiled_condition_spec; [by eapply rule_valid_conditions|].
    apply H, list_elem_of_fmap. eauto.
  - intros H cc Hcc. apply list_elem_of_fmap in Hcc as (c & -> & Hc).
    apply compiled_condition_spec; [by eapply rule_valid_conditions|auto].
Qed.

(** Names and macros are what [actions] lists, split by the [@]. *)
Lemma split_actions_spec acts names macros a :
  let '(ns, ms) :=
    fold_left (λ acc a, if starts_with "@" a then (acc.1, add_new acc.2 a)
                        else (add_new acc.1 a, acc.2)) acts (names, macros) in
  (a ∈ ns ↔ a ∈ names ∨ (a ∈ acts ∧ starts_with "@" a = false)) ∧
  (a ∈ ms ↔ a ∈ macros ∨ (a ∈ acts ∧ starts_with "@" a = true)).
Proof.
  revert names macros. induction acts as [|b acts IH]; intros names macros; cbn [fold_left].
  - set_solver.
  - destruct (starts_with "@" b) eqn:Eb; cbn [fst snd].
    + specialize (IH names (add_new macros b)). destruct (fold_left _ _ _) as [ns ms].
      destruct IH as [-> ->]. rewrite elem_of_add_new, elem_of_cons.
      split; split; intuition (subst; congruence || auto).
    + specialize (IH (add_new names b) macros). destruct (fold_left _ _ _) as [ns ms].
      destruct IH as [-> ->]. rewrite elem_of_add_new, elem_of_cons.
      split; split; intuition (subst; congruence || auto).
Qed.

Lemma compiled_action_rule_spec r action kind :
  actionRuleMatches (compileActionRule r) action kind = true ↔
  ∃ a, a ∈ default [] (pr_actions r) ∧ Spec.covers action kind a.
Proof.
  unfold compileActionRule, actionRuleMatches, Spec.covers.
  pose proof (split_actions_spec (default [] (pr_actions r)) [] []) as Hs.
  destruct (fold_left _ _ _) as [ns ms]. simpl.
  rewrite !orb_true_iff, !andb_true_iff, !bool_decide_eq_true.
  rewrite (proj1 (Hs action)), (proj2 (Hs "@all")), (proj2 (Hs "@readonly")),
    (proj2 (Hs "@write")), !elem_of_nil. naive_solver.
Qed.

(** ** One set against one document *)

Section one_set.
Context (d : PolicyDocument) (s : CompiledPolicySet) (now : Z).
Context (Hc : compilePolicySet d now = Some s).

Lemma compiled_mode : cp_mode s = pd_mode d.
Proof.
  apply compile_Some in Hc as [_ ->].
  by destruct (push_rules_buckets (pd_rules d) (empty_set d)) as (_&_&_&_&_&->&_).
Qed.

(** A bucket holds a matching rule exactly when the document has an
    applicable rule of that kind and effect. *)
Lemma bucket_match {C} (comp : PolicyRule → C) (m : C → bool) k e applies :
  (∀ r, r ∈ pd_rules d →
     in_bucket k e r = true ∧ m (comp r) = true ↔ pr_effect r = e ∧ applies r) →
  existsb m (map comp (List.filter (in_bucket k e) (pd_rules d))) = true ↔
  ∃ r, r ∈ pd_rules d ∧ pr_effect r = e ∧ applies r.
Proof.
  intros H. rewrite existsb_map, existsb_In. setoid_rewrite elem_of_bfilter.
  split.
  - intros (r & [Hr ?] & ?). exists r. split; [done|]. by apply H.
  - intros (r & Hr & ?). exists r. destruct (proj2 (H r Hr)); done.
Qed.

Lemma row_verdict_spec v :
  (∀ r, r ∈ pd_rules d → rule_valid r = true) →
  sv_verdict (setVerdictForRow s v) = EDeny ↔ Spec.denies_row v d.
Proof.
  intros Hv. apply compile_Some in Hc as [_ ->].
  destruct (push_rules_buckets (pd_rules d) (empty_set d))
    as (_ & _ & Hsd & Hsa & _ & _ & _ & Hp & _).
  unfold setVerdictForRow, Spec.denies_row, Spec.denies.
  rewrite Hsd, Hsa, Hp; simpl. clear Hsd Hsa Hp.
  assert (Hb : ∀ e, existsb (λ r, sourceRuleMatches r v)
      (map compileSourceRule (List.filter (in_bucket RuleSource e) (pd_rules d))) = true
      ↔ ∃ r, r ∈ pd_rules d ∧ pr_effect r = e ∧ Spec.source_applies v r).
  { intros e. apply bucket_match. intros r Hr.
    rewrite (compiled_source_rule_spec r v (Hv r Hr)). unfold in_bucket, Spec.source_applies.
    rewrite !andb_true_iff, !bool_decide_eq_true. tauto. }
  rewrite <- !Hb, <- !find_first_is_Some.
  destruct (find_first _ _); simpl; [naive_solver|].
  destruct (find_first _ _); simpl; rewrite ?is_Some_alt; naive_solver.
Qed.

Lemma action_verdict_spec action kind :
  sv_verdict (setVerdictForAction s action kind) = EDeny ↔
  Spec.denies_action action kind d.
Proof.
  apply compile_Some in Hc as [_ ->].
  destruct (push_rules_buckets (pd_rules d) (empty_set d))
    as (Had & Haa & _ & _ & _ & _ & Hp & _ & _).
  unfold setVerdictForAction, Spec.denies_action, Spec.denies.
  rewrite Had, Haa, Hp; simpl. clear Had Haa Hp.
  assert (Hb : ∀ e, existsb (λ r, actionRuleMatches r action kind)
      (map compileActionRule (List.filter (in_bucket RuleAction e) (pd_rules d))) = true
      ↔ ∃ r, r ∈ pd_rules d ∧ pr_effect r = e ∧ Spec.action_applies action kind r).
  { intros e. apply bucket_match. intros r Hr.
    rewrite compiled_action_rule_spec. unfold in_bucket, Spec.action_applies.
    rewrite !andb_true_iff, !bool_decide_eq_true. tauto. }
  rewrite <- !Hb, <- !find_first_is_Some.
  destruct (find_first _ _); simpl; [naive_solver|].
  destruct (find_first _ _); simpl; rewrite ?is_Some_alt; naive_solver.
Qed.
End one_set.

(** ** Several documents together *)

(** The context the given documents make at an instant. *)
Definition contextOf (company key : string) (force : bool) (now : Z)
    (docs : list PolicyDocument) : PolicyContext :=
  {| pc_companyId := company; pc_keyHash := key;
     pc_sets := omap (λ d, compilePolicySet d now) docs;
     pc_forceReportOnly := force; pc_resolutionError := false |}.

Section many_sets.
Context (ctx : PolicyContext) (now : Z) (docs : list PolicyDocument).
Context (Hsets : pc_sets ctx = omap (λ d, compilePolicySet d now) docs).
Context (vf : CompiledPolicySet → SetVerdict) (deny : PolicyDocument → Prop).
Context (Hmode : ∀ s, sv_mode (vf s) = cp_mode s).
Context (Hdeny : ∀ d s, d ∈ docs → compilePolicySet d now = Some s →
                   sv_verdict (vf s) = EDeny ↔ deny d).

Lemma blocks_existsb :
  existsb (λ v, is_deny v && enforced ctx v) (map vf (pc_sets ctx)) = true ↔
  Spec.blocks now (pc_forceReportOnly ctx) deny docs.
Proof.
  rewrite existsb_map, existsb_In, Hsets. unfold Spec.blocks, enforced, is_deny.
  setoid_rewrite list_elem_of_omap. split.
  - intros (s & (d & Hd & Hc) & E).
    apply andb_true_iff in E as [E1%bool_decide_eq_true E2].
    apply andb_true_iff in E2 as [E2%bool_decide_eq_true E3%negb_true_iff].
    split; [done|]. exists d. rewrite Hmode, (compiled_mode d s now Hc) in E2.
    split; [done|]. split; [by apply compile_Some in Hc as [? _]|].
    split; [done|]. by apply (Hdeny d s).
  - intros (Hf & d & Hd & Ha & Hm & Hdn).
    exists (fold_left push_rule (pd_rules d) (empty_set d)).
    assert (Hc : compilePolicySet d now = Some
              (fold_left push_rule (pd_rules d) (empty_set d)))
      by (by apply compile_Some).
    split; [by eauto|]. rewrite Hmode, (compiled_mode d _ now Hc), Hf.
    rewrite (bool_decide_eq_true_2 _ Hm), bool_decide_eq_true_2; [done|].
    by apply (Hdeny d).
Qed.

Lemma objects_existsb :
  existsb is_deny (map vf (pc_sets ctx)) = true ↔ Spec.objects now deny docs.
Proof.
  rewrite existsb_map, existsb_In, Hsets. unfold Spec.objects, is_deny.
  setoid_rewrite list_elem_of_omap. setoid_rewrite bool_decide_eq_true. split.
  - intros (s & (d & Hd & Hc) & E). exists d. split; [done|]. split.
    + by apply compile_Some in Hc as [? _].
    + by apply (Hdeny d s).
  - intros (d & Hd & Ha & Hdn).
    assert (Hc : compilePolicySet d now = Some
              (fold_left push_rule (pd_rules d) (empty_set d)))
      by (by apply compile_Some).
    eexists. split; [by eauto|]. by apply (Hdeny d).
Qed.

Lemma combined_decides dec :
  pe_decision (combine ctx (map vf (pc_sets ctx))) = dec ↔
  Spec.decides now (pc_forceReportOnly ctx) deny docs dec.
Proof.
  rewrite combine_decision. pose proof blocks_existsb as Hb.
  pose proof objects_existsb as Ho.
  assert (Hbo : Spec.blocks now (pc_forceReportOnly ctx) deny docs →
                Spec.objects now deny docs).
  { intros (_ & d & ? & ? & _ & ?). by exists d. }
  destruct (existsb _ _), (existsb is_deny _), dec; simpl; naive_solver.
Qed.
End many_sets.

(** C1. Row evaluation implements the reference: over any documents the schema
    accepts, the compiled engine denies a row exactly when a document that is
    active and in enforce mode denies it and enforcement is not forced off,
    reports [would_deny] exactly when a document denies it but none blocks, and
    allows it otherwise. *)
Theorem row_decision_refines jl company key force now docs v dec :
  (∀ d, d ∈ docs → document_valid jl d = true) →
  pe_decision (evaluateRow (contextOf company key force now docs) v) = dec ↔
  Spec.decides now force (Spec.denies_row v) docs dec.
Proof.
  intros Hv. apply (combined_decides (contextOf company key force now docs)); [done| |].
  - intros s. unfold setVerdictForRow. by repeat case_match.
  - intros d s Hd Hc. apply (row_verdict_spec d s now Hc).
    intros r Hr. by eapply document_valid_rules; [apply Hv|].
Qed.

(** Action evaluation implements the reference in the same way, for the
    action's own kind or the one the registry gives when the caller names none. *)
Theorem action_decision_refines company key force now docs action kind dec :
  let kind' := match kind with Some k => Some k | None => actionKind action end in
  pe_decision (evaluateAction (contextOf company key force now docs) action kind) = dec ↔
  Spec.decides now force (Spec.denies_action action kind') docs dec.
Proof.
  intros kind'. apply (combined_decides (contextOf company key force now docs)); [done| |].
  - intros s. unfold setVerdictForAction. by repeat case_match.
  - intros d s Hd Hc. apply (action_verdict_spec d s now Hc).
Qed.

(** ** Attaching sets never widens *)

Definition severity (dec : PolicyDecision) : nat :=
  match dec with DAllow => 0 | DWouldDeny => 1 | DDeny => 2 end.

Definition with_sets (ctx : PolicyContext) (sets : list CompiledPolicySet) : PolicyContext :=
  {| pc_companyId := pc_companyId ctx; pc_keyHash := pc_keyHash ctx; pc_sets := sets;
     pc_forceReportOnly := pc_forceReportOnly ctx;
     pc_resolutionError := pc_resolutionError ctx |}.

Lemma combine_monotone ctx ctx' vs vs' :
  pc_forceReportOnly ctx' = pc_forceReportOnly ctx →
  (∀ v, v ∈ vs → v ∈ vs') →
  severity (pe_decision (combine ctx vs)) ≤ severity (pe_decision (combine ctx' vs')).
Proof.
  intros Hf Hsub. rewrite !combine_decision.
  pose proof (existsb_incl is_deny vs vs' Hsub) as H1.
  pose proof (existsb_incl (λ v, is_deny v && enforced ctx v) vs vs' Hsub) as H2.
  assert (H3 : existsb (λ v, is_deny v && enforced ctx' v) vs' =
               existsb (λ v, is_deny v && enforced ctx v) vs').
  { apply existsb_ext_In. intros v _. unfold enforced. by rewrite Hf. }
  assert (H4 : existsb (λ v, is_deny v && enforced ctx v) vs' = true →
               existsb is_deny vs' = true).
  { rewrite !existsb_In. intros (v & ? & [? _]%andb_true_iff). eauto. }
  rewrite H3.
  destruct (existsb (λ v, is_deny v && enforced ctx v) vs) eqn:E1,
    (existsb is_deny vs) eqn:E2,
    (existsb (λ v, is_deny v && enforced ctx v) vs') eqn:E3,
    (existsb is_deny vs') eqn:E4; simpl; try lia; naive_solver.
Qed.

(** Attaching sets only narrows: a context whose sets include those of
    another decides every row and every action at least as severely. *)
Theorem attaching_sets_never_widens ctx sets v action kind :
  (∀ s, s ∈ pc_sets ctx → s ∈ sets) →
  severity (pe_decision (evaluateRow ctx v)) ≤
    severity (pe_decision (evaluateRow (with_sets ctx sets) v)) ∧
  severity (pe_decision (evaluateAction ctx action kind)) ≤
    severity (pe_decision (evaluateAction (with_sets ctx sets) action kind)).
Proof.
  intros H. split; apply combine_monotone; try done; intros w;
    rewrite !list_elem_of_fmap; naive_solver.
Qed.

Definition sample_set (mode : PolicyMode) (reads : PolicyEffect) : CompiledPolicySet :=
  empty_set {| pd_name := "s"; pd_posture_actions := EAllow; pd_posture_reads := reads;
               pd_mode := mode; pd_activeFrom := None; pd_activeUntil := None;
               pd_rules := [] |}.

Definition sample_row : PolicyRowView :=
  {| rv_predicate := "salary"; rv_piiClass := "none";
     rv_source := VObj [("vertical", VStr "hr"); ("meta", VObj [("data_class", VStr "pii")])];
     rv_trustSnapshot := VNull; rv_corroboration := VNull; rv_userId := VNull |}.

Lemma attaching_sets_never_widens_witness :
  let ctx := with_sets (contextOf "co" "k" false 0 []) [sample_set Enforce EAllow] in
  pe_decision (evaluateRow ctx sample_row) = DAllow ∧
  severity (pe_decision (evaluateRow ctx sample_row)) ≤
  severity (pe_decision (evaluateRow
    (with_sets ctx [sample_set Enforce EAllow; sample_set Enforce EDeny]) sample_row)).
Proof.
  split; [reflexivity|].
  apply (attaching_sets_never_widens _ _ sample_row "x" None).
  intros s Hs. simpl in *. set_solver.
Defined.

Definition deny_hr_rule : PolicyRule :=
  {| pr_id := "deny-hr"; pr_effect := EDeny; pr_kind := RuleSource; pr_enabled := true;
     pr_actions := None;
     pr_match := Some [ {| mc_attr := "source.vertical"; mc_op := OpIn;
                           mc_value := Some (CArr ["hr"; "legal"]) |};
                        {| mc_attr := "source.meta.data_class"; mc_op := OpExists;
                           mc_value := None |} ] |}.

Definition hr_document : PolicyDocument :=
  {| pd_name := "hr-fence"; pd_posture_actions := EAllow; pd_posture_reads := EAllow;
     pd_mode := Enforce; pd_activeFrom := Some 10%Z; pd_activeUntil := Some 20%Z;
     pd_rules := [deny_hr_rule] |}.

Lemma row_decision_refines_witness :
  document_valid (λ _, 0) hr_document = true ∧
  Spec.decides 15 false (Spec.denies_row sample_row) [hr_document] DDeny.
Proof.
  split; [vm_compute; reflexivity|].
  apply (row_decision_refines (λ _, 0) "co" "k" false 15 [hr_document] sample_row DDeny).
  - intros d ->%list_elem_of_singleton. vm_compute. reflexivity.
  - vm_compute. reflexivity.
Defined.

(** ** Rule order *)

Lemma row_verdict_effect s v :
  sv_verdict (setVerdictForRow s v) =
  if existsb (λ r, sourceRuleMatches r v) (cp_sourceDeny s) then EDeny
  else if existsb (λ r, sourceRuleMatches r v) (cp_sourceAllow s) then EAllow
  else cp_posture_reads s.
Proof.
  unfold setVerdictForRow.
  destruct (find_first _ (cp_sourceDeny s)) eqn:E1.
  - by rewrite (proj1 (find_first_is_Some _ _)) by eauto.
  - apply find_first_None in E1. rewrite E1.
    destruct (find_first _ (cp_sourceAllow s)) eqn:E2.
    + by rewrite (proj1 (find_first_is_Some _ _)) by eauto.
    + apply find_first_None in E2. by rewrite E2.
Qed.

Lemma action_verdict_effect s a k :
  sv_verdict (setVerdictForAction s a k) =
  if existsb (λ r, actionRuleMatches r a k) (cp_actionDeny s) then EDeny
  else if existsb (λ r, actionRuleMatches r a k) (cp_actionAllow s) then EAllow
  else cp_posture_actions s.
Proof.
  unfold setVerdictForAction.
  destruct (find_first _ (cp_actionDeny s)) eqn:E1.
  - by rewrite (proj1 (find_first_is_Some _ _)) by eauto.
  - apply find_first_None in E1. rewrite E1.
    destruct (find_first _ (cp_actionAllow s)) eqn:E2.
    + by rewrite (proj1 (find_first_is_Some _ _)) by eauto.
    + apply find_first_None in E2. by rewrite E2.
Qed.

Definition reorder (d : PolicyDocument) (rs : list PolicyRule) : PolicyDocument :=
  {| pd_name := pd_name d; pd_posture_actions := pd_posture_actions d;
     pd_posture_reads := pd_posture_reads d; pd_mode := pd_mode d;
     pd_activeFrom := pd_activeFrom d; pd_activeUntil := pd_activeUntil d; pd_rules := rs |}.

Lemma filter_perm {A} (f : A → bool) (l l' : list A) :
  l ≡ₚ l' → List.filter f l ≡ₚ List.filter f l'.
Proof.
  induction 1 as [|x l l' _ IH|x y l|l1 l2 l3 _ IH1 _ IH2]; simpl.
  - done.
  - destruct (f x); [by constructor|done].
  - destruct (f x), (f y); try done. constructor.
  - by etrans.
Qed.

(** The order of a document's rules never matters: listing the same rules
    in any order gives the same verdict on every row and every action. *)
Theorem rule_order_irrelevant d rs now s s' v a k :
  pd_rules d ≡ₚ rs →
  compilePolicySet d now = Some s → compilePolicySet (reorder d rs) now = Some s' →
  sv_verdict (setVerdictForRow s v) = sv_verdict (setVerdictForRow s' v) ∧
  sv_verdict (setVerdictForAction s a k) = sv_verdict (setVerdictForAction s' a k).
Proof.
  intros Hp [_ ->]%compile_Some [_ ->]%compile_Some.
  rewrite !row_verdict_effect, !action_verdict_effect.
  destruct (push_rules_buckets (pd_rules d) (empty_set d))
    as (-> & -> & -> & -> & _ & _ & -> & -> & _).
  destruct (push_rules_buckets (pd_rules (reorder d rs)) (empty_set (reorder d rs)))
    as (-> & -> & -> & -> & _ & _ & -> & -> & _).
  simpl. rewrite !existsb_map.
  by rewrite !(existsb_perm _ _ _ (filter_perm _ _ _ Hp)).
Qed.

Definition allow_salary_rule : PolicyRule :=
  {| pr_id := "allow-salary"; pr_effect := EAllow; pr_kind := RuleSource;
     pr_enabled := true; pr_actions := None;
     pr_match := Some [ {| mc_attr := "predicate"; mc_op := OpPrefix;
                           mc_value := Some (CStr "sal") |} ] |}.

Lemma rule_order_irrelevant_witness :
  let d := reorder hr_document [allow_salary_rule; deny_hr_rule] in
  ∃ s s', compilePolicySet d 15 = Some s ∧
    compilePolicySet (reorder d [deny_hr_rule; allow_salary_rule]) 15 = Some s' ∧
    sv_verdict (setVerdictForRow s sample_row) = EDeny ∧
    sv_verdict (setVerdictForRow s' sample_row) = EDeny.
Proof.
  eexists _, _. split; [reflexivity|]. split; [reflexivity|].
  split; [vm_compute; reflexivity|].
  etrans.
  - symmetry. eapply (rule_order_irrelevant
      (reorder hr_document [allow_salary_rule; deny_hr_rule])
      [deny_hr_rule; allow_salary_rule] 15 _ _ sample_row "x" None);
      [constructor|reflexivity|reflexivity].
  - vm_compute. reflexivity.
Defined.

(** ** Explain traces *)

(** The sets a context can hold: compiled documents and the sentinel. *)
Definition proper_set (s : CompiledPolicySet) : Prop :=
  (∃ d now, compilePolicySet d now = Some s) ∨ ∃ n, s = denyAllSet n.

Lemma proper_set_effects s :
  proper_set s →
  (∀ r, r ∈ cp_sourceDeny s → cs_effect r = EDeny) ∧
  (∀ r, r ∈ cp_sourceAllow s → cs_effect r = EAllow).
Proof.
  intros [(d & now & [_ ->]%compile_Some)|[n ->]].
  - destruct (push_rules_buckets (pd_rules d) (empty_set d))
      as (_ & _ & -> & -> & _). simpl.
    assert (H : ∀ e r, r ∈ map compileSourceRule
        (List.filter (in_bucket RuleSource e) (pd_rules d)) → cs_effect r = e).
    { intros e r (r' & -> & Hr)%list_elem_of_fmap.
      apply elem_of_bfilter in Hr as [_ Hr].
      unfold in_bucket in Hr. rewrite !andb_true_iff, !bool_decide_eq_true in Hr.
      by destruct Hr as [_ <-]. }
    split; apply H.
  - simpl. split; intros r Hr; by apply elem_of_nil in Hr.
Qed.

Lemma find_first_app {A} (f : A → bool) l1 l2 :
  find_first f (l1 ++ l2) =
  match find_first f l1 with Some x => Some x | None => find_first f l2 end.
Proof. induction l1 as [|x l1 IH]; simpl; [done|]. by destruct (f x). Qed.

Lemma find_first_map {A B} (f : B → bool) (g : A → B) l :
  find_first f (map g l) = g <$> find_first (λ x, f (g x)) l.
Proof. induction l as [|x l IH]; simpl; [done|]. by destruct (f (g x)). Qed.

Lemma find_first_ext {A} (f g : A → bool) l :
  (∀ x, x ∈ l → f x = g x) → find_first f l = find_first g l.
Proof.
  induction l as [|x l IH]; intros H; simpl; [done|].
  rewrite (H x), IH; [done| |by constructor]. intros y Hy. apply H. by constructor.
Qed.

Lemma trace_matched r v : rt_matched (traceSourceRule r v) = sourceRuleMatches r v.
Proof.
  unfold traceSourceRule, sourceRuleMatches. simpl.
  induction (cs_conditions r) as [|c cs IH]; simpl; [done|]. by rewrite IH.
Qed.

(** Explain traces tell the truth: for every set of the context, in order,
    the trace carries the verdict evaluation reaches, and the first rule the
    trace marks as matched is the rule that decided it, with that effect; when no
    rule is marked, the set's default posture decided. *)
Theorem explainRow_agrees ctx v i t :
  (∀ s, s ∈ pc_sets ctx → proper_set s) →
  explainRow ctx v !! i = Some t →
  ∃ w, pe_verdicts (evaluateRow ctx v) !! i = Some w ∧
    st_policySet t = sv_policySet w ∧ st_mode t = sv_mode w ∧
    st_verdict t = sv_verdict w ∧
    match find_first rt_matched (st_rules t) with
    | Some r => sv_ruleId w = Some (rt_ruleId r) ∧ st_decidedBy t = rt_ruleId r ∧
                rt_effect r = sv_verdict w
    | None => sv_ruleId w = None ∧ st_decidedBy t = "posture"
    end.
Proof.
  intros Hp. unfold explainRow, evaluateRow, combine.
  destruct (fold_left _ _ _) as [e w0]. cbn [pe_verdicts].
  rewrite list_lookup_fmap. intros (s & Hs & ->)%fmap_Some.
  exists (setVerdictForRow s v). rewrite list_lookup_fmap, Hs. simpl.
  assert (Hps : proper_set s) by (apply Hp; by eapply list_elem_of_lookup_2).
  destruct (proper_set_effects s Hps) as [Hd Ha].
  rewrite find_first_map, find_first_app.
  rewrite !(find_first_ext _ _ _ (λ r _, trace_matched r v)).
  unfold setVerdictForRow.
  destruct (find_first (λ r, sourceRuleMatches r v) (cp_sourceDeny s)) as [r|] eqn:E1; simpl.
  { apply find_first_Some in E1 as [Hr _]. by rewrite (Hd r Hr). }
  destruct (find_first (λ r, sourceRuleMatches r v) (cp_sourceAllow s)) as [r|] eqn:E2; simpl.
  { apply find_first_Some in E2 as [Hr _]. by rewrite (Ha r Hr). }
  done.
Qed.

Lemma explainRow_agrees_witness :
  let ctx := contextOf "co" "k" false 15 [hr_document] in
  ∃ t, explainRow ctx sample_row !! 0 = Some t ∧
    st_decidedBy t = "deny-hr" ∧
    ∃ w, pe_verdicts (evaluateRow ctx sample_row) !! 0 = Some w ∧
      st_verdict t = sv_verdict w.
Proof.
  intros ctx. eexists. split; [reflexivity|]. split; [vm_compute; reflexivity|].
  destruct (explainRow_agrees ctx sample_row 0 _
    ltac:(intros s Hs; left; exists hr_document, 15%Z; apply list_elem_of_singleton in Hs;
          subst; reflexivity) eq_refl)
    as (w & Hw & _ & _ & Hv & _).
  exists w. split; [exact Hw|exact Hv].
Defined.
