(* ===== verification/PolicyRows.v ===== *)
(** * Row-level enforcement

    [policy/row-filter.ts]: the filter every read surface runs its rows through,
    and the per-set summary it reports. [policy/db-fence.ts]: the subset of deny
    rules pushed down to the database, with the stored function
    [fn::policy_row_denied] that evaluates them. *)

From S2P Require Import Prelude Js Regex PolicyTypes PolicyEngine PolicySpec.
Local Open Scope string_scope.
Local Open Scope nat_scope.

(** ** The row filter *)

Record PredicatePolicy := { pp_requiresScope : option string; pp_piiClass : string }.

Record SetStats := {
  ss_policySet : string;
  ss_mode : PolicyMode;
  ss_denied : nat;
  ss_wouldDeny : nat;
  ss_ruleIds : list string;
  ss_sampleFactIds : list string;
  ss_samplePredicates : list string
}.

Definition SAMPLE_CAP : nat := 3.

(** The closure's state: rows that reached the policy gate, stats per set in
    first-denial order. *)
Record FilterState := { fs_total : nat; fs_perSet : list (string * SetStats) }.

Definition filter_init : FilterState := {| fs_total := 0; fs_perSet := [] |}.

Definition fresh_stats (v : SetVerdict) : SetStats :=
  {| ss_policySet := sv_policySet v; ss_mode := sv_mode v; ss_denied := 0;
     ss_wouldDeny := 0; ss_ruleIds := []; ss_sampleFactIds := [];
     ss_samplePredicates := [] |}.

(** One denying verdict counted into its set's stats. *)
Definition count_verdict (ctx : PolicyContext) (row : FactRow) (v : SetVerdict)
    (s : SetStats) : SetStats :=
  let e := enforced ctx v in
  let ruleId := default "posture" (sv_ruleId v) in
  let sample := (length (ss_sampleFactIds s) <? SAMPLE_CAP) &&
                match fr_id row with Some _ => true | None => false end in
  {| ss_policySet := ss_policySet s; ss_mode := ss_mode s;
     ss_denied := if e then S (ss_denied s) else ss_denied s;
     ss_wouldDeny := if e then ss_wouldDeny s else S (ss_wouldDeny s);
     ss_ruleIds :=
       if negb (bool_decide (ruleId ∈ ss_ruleIds s)) &&
          (length (ss_ruleIds s) <? SAMPLE_CAP)
       then (ss_ruleIds s ++ [ruleId])%list else ss_ruleIds s;
     ss_sampleFactIds :=
       if sample then (ss_sampleFactIds s ++ [default "" (fr_id row)])%list
       else ss_sampleFactIds s;
     ss_samplePredicates :=
       if sample then (ss_samplePredicates s ++ [fr_predicate row])%list
       else ss_samplePredicates s |}.

Definition record_verdict (ctx : PolicyContext) (row : FactRow)
    (m : list (string * SetStats)) (v : SetVerdict) : list (string * SetStats) :=
  if negb (bool_decide (sv_verdict v = EDeny)) then m
  else
    let s := default (fresh_stats v) (OMap.get (sv_policySet v) m) in
    OMap.set (sv_policySet v) (count_verdict ctx row v s) m.

Section row_filter.
Context (ctx : option PolicyContext) (scopes : list string).
Context (lookup : string → PredicatePolicy).

(** The always-on predicate scope gate. *)
Definition scope_gate (row : FactRow) : bool :=
  match pp_requiresScope (lookup (fr_predicate row)) with
  | Some sc => bool_decide (sc ∈ scopes)
  | None => true
  end.

Definition row_view (row : FactRow) : PolicyRowView :=
  toRowView row (λ p, pp_piiClass (lookup p)).

(** [filter(row)]: true keeps the row. *)
Definition filter_row (st : FilterState) (row : FactRow) : bool * FilterState :=
  if negb (scope_gate row) then (false, st)
  else
    match ctx with
    | None => (true, st)
    | Some c =>
        let ev := evaluateRow c (row_view row) in
        (negb (bool_decide (pe_decision ev = DDeny)),
         {| fs_total := S (fs_total st);
            fs_perSet := fold_left (record_verdict c row) (pe_verdicts ev) (fs_perSet st) |})
    end.

Record RowDecisionSummary := {
  sm_surface : string;
  sm_total : nat;
  sm_perSet : list SetStats
}.

(** [finish()]: the summary handed to the recorder, if any. *)
Definition filter_finish (surface : string) (st : FilterState) : option RowDecisionSummary :=
  match ctx with
  | None => None
  | Some _ =>
      if bool_decide (fs_total st = 0) then None
      else Some {| sm_surface := surface; sm_total := fs_total st;
                   sm_perSet := OMap.vals (fs_perSet st) |}
  end.

(** The surface's loop: the rows kept, and the state at the end. *)
Fixpoint filter_rows (st : FilterState) (rows : list FactRow) : list FactRow * FilterState :=
  match rows with
  | [] => ([], st)
  | r :: rs =>
      let '(keep, st1) := filter_row st r in
      let '(kept, st2) := filter_rows st1 rs in
      (if keep : bool then r :: kept else kept, st2)
  end.
End row_filter.

(** ** Lemmas about the filter *)

Lemma filter_row_keep ctx scopes lookup st row :
  (filter_row ctx scopes lookup st row).1 =
  scope_gate scopes lookup row &&
  match ctx with
  | None => true
  | Some c => negb (bool_decide (pe_decision (evaluateRow c (row_view lookup row)) = DDeny))
  end.
Proof.
  unfold filter_row. destruct (scope_gate scopes lookup row), ctx; done.
Qed.

Lemma filter_rows_kept ctx scopes lookup st rows :
  (filter_rows ctx scopes lookup st rows).1 =
  List.filter (λ row, (filter_row ctx scopes lookup filter_init row).1) rows.
Proof.
  revert st. induction rows as [|r rs IH]; intros st; simpl; [done|].
  specialize (IH (filter_row ctx scopes lookup st r).2).
  pose proof (filter_row_keep ctx scopes lookup st r) as Hk.
  rewrite <- (filter_row_keep ctx scopes lookup filter_init r) in Hk.
  destruct (filter_row ctx scopes lookup st r) as [keep st1]; simpl in *.
  destruct (filter_rows ctx scopes lookup st1 rs) as [kept st2]; simpl in *.
  rewrite <- Hk, IH. by destruct keep.
Qed.

(** Verdicts counted for one set, over a list of verdicts. *)
Definition denials (ctx : PolicyContext) (name : string) (e : bool) (vs : list SetVerdict) : nat :=
  length (List.filter
    (λ v, is_deny v && bool_decide (sv_policySet v = name) && Bool.eqb (enforced ctx v) e) vs).

Definition stat_of (m : list (string * SetStats)) (name : string) (e : bool) : nat :=
  match OMap.get name m with
  | Some s => if e then ss_denied s else ss_wouldDeny s
  | None => 0
  end.

Lemma record_verdict_stat ctx row m v name e :
  stat_of (record_verdict ctx row m v) name e =
  stat_of m name e + denials ctx name e [v].
Proof.
  unfold stat_of, record_verdict, denials, is_deny. simpl.
  case_bool_decide as Hd; simpl; [|by rewrite Nat.add_0_r].
  rewrite OMap.get_set. case_bool_decide as Hn; simpl; [subst|by rewrite Nat.add_0_r].
  destruct (OMap.get (sv_policySet v) m); simpl; destruct (enforced ctx v), e; simpl; lia.
Qed.

Lemma denials_cons ctx name e v vs :
  denials ctx name e (v :: vs) = denials ctx name e [v] + denials ctx name e vs.
Proof. unfold denials. simpl. by case_match. Qed.

Lemma record_verdicts_stat ctx row m vs name e :
  stat_of (fold_left (record_verdict ctx row) vs m) name e =
  stat_of m name e + denials ctx name e vs.
Proof.
  revert m. induction vs as [|v vs IH]; intros m; [by rewrite Nat.add_0_r|].
  cbn [fold_left]. rewrite IH, record_verdict_stat, (denials_cons _ _ _ v vs). lia.
Qed.

(** Invariant of every stats record: samples and rule ids are capped, rule ids
    are distinct, the two sample lists stay aligned. *)
Definition stats_wf (s : SetStats) : Prop :=
  length (ss_ruleIds s) ≤ SAMPLE_CAP ∧ NoDup (ss_ruleIds s) ∧
  length (ss_sampleFactIds s) ≤ SAMPLE_CAP ∧
  length (ss_samplePredicates s) = length (ss_sampleFactIds s).

Definition perSet_wf (m : list (string * SetStats)) : Prop :=
  OMap.wf m ∧ ∀ n s, OMap.get n m = Some s → stats_wf s ∧ ss_policySet s = n.

Lemma count_verdict_wf ctx row v s : stats_wf s → stats_wf (count_verdict ctx row v s).
Proof.
  intros (H1 & H2 & H3 & H4). unfold count_verdict, stats_wf, SAMPLE_CAP in *; simpl.
  repeat split.
  - destruct (bool_decide _); simpl; [done|]. destruct (Nat.ltb_spec (length (ss_ruleIds s)) 3);
      [rewrite length_app; simpl; lia|done].
  - case_bool_decide as Hin; simpl; [done|]. destruct (_ <? 3); [|done].
    apply NoDup_app. repeat split; [done| |apply NoDup_singleton].
    intros y Hy ->%list_elem_of_singleton. done.
  - destruct (Nat.ltb_spec (length (ss_sampleFactIds s)) 3); simpl; [|done].
    destruct (fr_id row); [rewrite length_app; simpl; lia|lia].
  - destruct (_ <? 3), (fr_id row); simpl; rewrite ?length_app; simpl; lia.
Qed.

Lemma record_verdict_wf ctx row m v : perSet_wf m → perSet_wf (record_verdict ctx row m v).
Proof.
  intros [Hwf Hs]. unfold record_verdict. destruct (negb _); [done|].
  split; [by apply OMap.wf_set|]. intros n s. rewrite OMap.get_set.
  case_bool_decide as Hn; [|by apply Hs]. intros; simplify_eq.
  destruct (OMap.get (sv_policySet v) m) as [s0|] eqn:E; simpl.
  - destruct (Hs _ _ E). split; [by apply count_verdict_wf|done].
  - split; [|done]. apply count_verdict_wf. unfold stats_wf, SAMPLE_CAP. simpl.
    repeat split; try lia. constructor.
Qed.

Lemma record_verdicts_wf ctx row m vs :
  perSet_wf m → perSet_wf (fold_left (record_verdict ctx row) vs m).
Proof.
  revert m. induction vs as [|v vs IH]; intros m H; simpl; [done|].
  by apply IH, record_verdict_wf.
Qed.

(** Denials of one set over all rows that pass the scope gate. *)
Fixpoint row_denials (c : PolicyContext) (scopes : list string)
    (lookup : string → PredicatePolicy) (name : string) (e : bool) (rows : list FactRow) : nat :=
  match rows with
  | [] => 0
  | r :: rs =>
      (if scope_gate scopes lookup r
       then denials c name e (pe_verdicts (evaluateRow c (row_view lookup r))) else 0) +
      row_denials c scopes lookup name e rs
  end.

Lemma filter_rows_cons ctx scopes lookup st r rs :
  (filter_rows ctx scopes lookup st (r :: rs)).2 =
  (filter_rows ctx scopes lookup (filter_row ctx scopes lookup st r).2 rs).2.
Proof.
  simpl. destruct (filter_row ctx scopes lookup st r) as [keep st1].
  simpl. by destruct (filter_rows ctx scopes lookup st1 rs).
Qed.

Lemma filter_rows_state c scopes lookup rows st :
  perSet_wf (fs_perSet st) →
  let st' := (filter_rows (Some c) scopes lookup st rows).2 in
  perSet_wf (fs_perSet st') ∧
  fs_total st' = fs_total st + length (List.filter (scope_gate scopes lookup) rows) ∧
  ∀ name e, stat_of (fs_perSet st') name e =
            stat_of (fs_perSet st) name e + row_denials c scopes lookup name e rows.
Proof.
  revert st. induction rows as [|r rs IH]; intros st Hwf; cbv zeta.
  { split; [done|]. split; [simpl; lia|]. intros name e. by rewrite Nat.add_0_r. }
  rewrite filter_rows_cons. unfold filter_row. simpl.
  destruct (scope_gate scopes lookup r) eqn:Eg; cbn [negb snd].
  - edestruct IH as (Hw & Ht & Hs); [|split; [exact Hw|]].
    { by apply record_verdicts_wf. }
    split; [rewrite Ht; simpl; lia|]. intros name e.
    rewrite Hs. simpl. rewrite record_verdicts_stat. lia.
  - destruct (IH st Hwf) as (Hw & Ht & Hs). split; [done|]. split; [done|].
    intros name e. by rewrite Hs.
Qed.

(** A read surface serves exactly the rows that pass the predicate scope
    gate and, when a policy context is present, that the policy does not deny;
    and the summary it reports counts exactly the rows that reached the policy
    gate and, per set, exactly the enforced and the report-only denials, with at
    most three distinct rule ids and three samples. *)
Theorem row_filter_serves_and_counts c scopes lookup rows :
  let out := filter_rows (Some c) scopes lookup filter_init rows in
  (∀ r, r ∈ out.1 ↔ r ∈ rows ∧ scope_gate scopes lookup r = true ∧
        pe_decision (evaluateRow c (row_view lookup r)) ≠ DDeny) ∧
  fs_total out.2 = length (List.filter (scope_gate scopes lookup) rows) ∧
  (∀ name, stat_of (fs_perSet out.2) name true = row_denials c scopes lookup name true rows ∧
           stat_of (fs_perSet out.2) name false = row_denials c scopes lookup name false rows) ∧
  (∀ s, s ∈ OMap.vals (fs_perSet out.2) → stats_wf s).
Proof.
  intros out. destruct (filter_rows_state c scopes lookup rows filter_init) as (Hw & Ht & Hs).
  { split; [constructor|done]. }
  split; [|split; [done|split]].
  - intros r. unfold out. rewrite filter_rows_kept, elem_of_bfilter, filter_row_keep.
    rewrite andb_true_iff, bool_decide_neg_true. done.
  - intros name. rewrite !Hs. done.
  - intros s (p & -> & Hp)%list_elem_of_fmap. destruct p as [n s]. simpl.
    destruct Hw as [Hwf Hst]. apply (Hst n). by apply OMap.elem_get.
Qed.

(** ** The database fence *)

(** The keys a pushed rule can carry. *)
Inductive PushKey : Type := PkPredicate | PkVertical | PkRecorder | PkDocumentId | PkOriginKey.

#[export] Instance PushKey_eq_dec : EqDecision PushKey.
Proof. solve_decision. Defined.

Definition PUSHDOWN_ATTRS : list (string * PushKey) :=
  [ ("predicate", PkPredicate); ("source.vertical", PkVertical);
    ("source.recorder", PkRecorder); ("source.documentId", PkDocumentId);
    ("source.originKey", PkOriginKey) ].

(** A pushed rule: the value lists of the keys it constrains. *)
Definition DenyPushdownRule : Type := list (PushKey * list string).

Definition equalityValues (c : CompiledCondition) : option (list string) :=
  match cc_op c, cc_expected c with
  | OpEq, XVal (VStr s) => Some [s]
  | OpIn, XSet l => Some l
  | _, _ => None
  end.

(** The loop over one rule's conditions; [None] is [pushable = false]. *)
Fixpoint push_conditions (pushed : DenyPushdownRule) (cs : list CompiledCondition) :
    option DenyPushdownRule :=
  match cs with
  | [] => Some pushed
  | c :: cs' =>
      match OMap.get (cc_attr c) PUSHDOWN_ATTRS, equalityValues c with
      | Some key, Some values =>
          if OMap.has key pushed then None
          else push_conditions (OMap.set key values pushed) cs'
      | _, _ => None
      end
  end.

Definition push_source_rule (r : CompiledSourceRule) : list DenyPushdownRule :=
  if bool_decide (cs_conditions r = []) then []
  else match push_conditions [] (cs_conditions r) with
       | Some [] => []
       | Some pushed => [pushed]
       | None => []
       end.

Definition compileDenyPushdown (ctx : option PolicyContext) : list DenyPushdownRule :=
  match ctx with
  | None => []
  | Some c =>
      if pc_forceReportOnly c then []
      else flat_map
             (λ s, if bool_decide (cp_mode s = Enforce)
                   then flat_map push_source_rule (cp_sourceDeny s) else [])
             (pc_sets c)
  end.

(** The stored function: what each key reads off the record. [NONE] and [NULL]
    are replaced by the empty string. *)
Definition db_field (source : jsval) (key : string) : jsval :=
  match source with
  | VObj fields =>
      match OMap.get key fields with
      | Some v => if present v then v else VStr ""
      | None => VStr ""
      end
  | _ => VStr ""
  end.

Definition db_value (predicate : string) (source : jsval) (k : PushKey) : jsval :=
  match k with
  | PkPredicate => VStr predicate
  | PkVertical => db_field source "vertical"
  | PkRecorder => db_field source "recorder"
  | PkDocumentId => db_field source "documentId"
  | PkOriginKey => db_field source "originKey"
  end.

(** [v INSIDE list] for an array of strings. *)
Definition db_inside (v : jsval) (l : list string) : bool :=
  match v with VStr s => bool_decide (s ∈ l) | _ => false end.

Definition all_push_keys : list PushKey :=
  [PkPredicate; PkVertical; PkRecorder; PkDocumentId; PkOriginKey].

Definition rule_denies (predicate : string) (source : jsval) (r : DenyPushdownRule) : bool :=
  forallb
    (λ k, match OMap.get k r with
          | None => true
          | Some l => db_inside (db_value predicate source k) l
          end)
    all_push_keys.

(** [fn::policy_row_denied] *)
Definition policy_row_denied (predicate : string) (source : jsval)
    (deny : list DenyPushdownRule) : bool :=
  0 <? length (List.filter (rule_denies predicate source) deny).

Lemma policy_row_denied_iff p src deny :
  policy_row_denied p src deny = true ↔ ∃ r, r ∈ deny ∧ rule_denies p src r = true.
Proof.
  unfold policy_row_denied. rewrite Nat.ltb_lt. split.
  - destruct (List.filter _ deny) as [|r l] eqn:E; simpl; [lia|]. intros _.
    exists r. apply elem_of_bfilter. rewrite E. by constructor.
  - intros (r & Hr). apply elem_of_bfilter in Hr.
    destruct (List.filter _ deny); [by apply elem_of_nil in Hr|simpl; lia].
Qed.

Lemma all_push_keys_full k : k ∈ all_push_keys.
Proof. unfold all_push_keys. destruct k; set_solver. Qed.

Lemma push_conditions_spec cs pushed out :
  push_conditions pushed cs = Some out →
  (∀ k l, OMap.get k pushed = Some l → OMap.get k out = Some l) ∧
  ∀ c, c ∈ cs → ∃ k l, OMap.get (cc_attr c) PUSHDOWN_ATTRS = Some k ∧
                        equalityValues c = Some l ∧ OMap.get k out = Some l.
Proof.
  revert pushed. induction cs as [|c cs IH]; intros pushed; cbn [push_conditions].
  { intros; simplify_eq. split; [done|]. by intros c ?%elem_of_nil. }
  destruct (OMap.get (cc_attr c) PUSHDOWN_ATTRS) as [k|] eqn:Ek; [|done].
  destruct (equalityValues c) as [l|] eqn:El; [|done].
  destruct (OMap.has k pushed) eqn:Eh; [done|]. intros H.
  destruct (IH _ H) as [H1 H2]. split.
  - intros k' l' Hg. apply H1. rewrite OMap.get_set_ne; [done|].
    intros <-. unfold OMap.has in Eh. by rewrite Hg in Eh.
  - intros c' [->|Hc]%elem_of_cons; [|by apply H2].
    exists k, l. split; [done|]. split; [done|]. apply H1, OMap.get_set_eq.
Qed.

(** The values the source object can hold for the fence to speak of it. *)
Definition source_record (v : jsval) : bool :=
  match v with VObj _ | VNull | VUndef => true | _ => false end.

Lemma fence_accessor row pii attr k :
  source_record (fr_source row) = true →
  OMap.get attr PUSHDOWN_ATTRS = Some k →
  let x := accessor attr (toRowView row pii) in
  db_value (fr_predicate row) (fr_source row) k = if present x then x else VStr "".
Proof.
  intros Hs Hk. unfold PUSHDOWN_ATTRS in Hk. simpl in Hk.
  assert (Hf : ∀ key, key ∉ object_prototype →
    let x := opt_get (rv_source (toRowView row pii)) key in
    db_field (fr_source row) key = if present x then x else VStr "").
  { intros key Hkey. unfold toRowView; simpl.
    destruct (fr_source row) as [| | | | | |fields|]; simpl in *; try done.
    unfold obj_get. destruct (OMap.get key fields); [done|].
    by rewrite bool_decide_eq_false_2. }
  assert (Hn : ∀ key, bool_decide (key ∈ object_prototype) = false → key ∉ object_prototype).
  { intros key H. by apply bool_decide_eq_false in H. }
  repeat (case_bool_decide; [simplify_eq; cbn [db_value]; first
    [reflexivity | apply Hf, Hn; reflexivity]|]).
  done.
Qed.

Lemma pushed_condition_matches mc row pii k l :
  source_record (fr_source row) = true →
  OMap.get (mc_attr mc) PUSHDOWN_ATTRS = Some k →
  equalityValues (compileCondition mc) = Some l → "" ∉ l →
  db_inside (db_value (fr_predicate row) (fr_source row) k) l = true →
  cc_matches (compileCondition mc) (toRowView row pii) = true.
Proof.
  intros Hs Hk Hl Hne. rewrite (fence_accessor row pii _ k Hs Hk).
  unfold compileCondition, equalityValues in *.
  destruct (mc_op mc); simpl in *; try done.
  - destruct (mc_value mc) as [[s| | |]|]; simpl in Hl; try done. simplify_eq. simpl.
    destruct (accessor (mc_attr mc) (toRowView row pii)); simpl;
      rewrite ?bool_decide_eq_true, ?list_elem_of_singleton; intros; subst; try done;
      by destruct Hne; apply list_elem_of_singleton.
  - simplify_eq. destruct (accessor (mc_attr mc) (toRowView row pii)); simpl;
      rewrite ?bool_decide_eq_true; done.
Qed.

(** Does some condition a set would push carry the empty string? *)
Definition pushes_empty (ctx : PolicyContext) : bool :=
  existsb (λ s, existsb (λ r, existsb
    (λ c, match equalityValues c with Some l => bool_decide ("" ∈ l) | None => false end)
    (cs_conditions r)) (cp_sourceDeny s)) (pc_sets ctx).

Lemma proper_set_conditions s r c :
  proper_set s → r ∈ cp_sourceDeny s → c ∈ cs_conditions r →
  ∃ mc, c = compileCondition mc.
Proof.
  intros [(d & now & [_ ->]%compile_Some)|[n ->]] Hr Hc.
  - destruct (push_rules_buckets (pd_rules d) (empty_set d)) as (_ & _ & Hsd & _).
    rewrite Hsd in Hr. simpl in Hr.
    apply list_elem_of_fmap in Hr as (r' & -> & _).
    apply list_elem_of_fmap in Hc as (mc & -> & _). by eauto.
  - by apply elem_of_nil in Hr.
Qed.

Lemma pushed_rule_matches ctx s r pushed row pii :
  proper_set s → s ∈ pc_sets ctx → r ∈ cp_sourceDeny s →
  pushes_empty ctx = false → source_record (fr_source row) = true →
  push_conditions [] (cs_conditions r) = Some pushed →
  rule_denies (fr_predicate row) (fr_source row) pushed = true →
  sourceRuleMatches r (toRowView row pii) = true.
Proof.
  intros Hps Hs Hr Hne Hsrc Hp Hd.
  destruct (push_conditions_spec _ _ _ Hp) as [_ Hall].
  unfold sourceRuleMatches. apply forallb_In. intros c Hc.
  destruct (proper_set_conditions s r c Hps Hr Hc) as [mc ->].
  destruct (Hall _ Hc) as (k & l & Hk & Hl & Hg).
  assert (Hattr : cc_attr (compileCondition mc) = mc_attr mc)
    by (unfold compileCondition; by destruct (mc_op mc)).
  rewrite Hattr in Hk.
  apply (pushed_condition_matches mc row pii k l Hsrc Hk Hl).
  - unfold pushes_empty in Hne. rewrite existsb_false_In in Hne.
    specialize (Hne s Hs). rewrite existsb_false_In in Hne.
    specialize (Hne r Hr). rewrite existsb_false_In in Hne.
    specialize (Hne _ Hc). rewrite Hl in Hne. by apply bool_decide_eq_false in Hne.
  - unfold rule_denies in Hd. rewrite forallb_In in Hd.
    specialize (Hd k (all_push_keys_full k)). by rewrite Hg in Hd.
Qed.

(** C40. The database fence never denies what the application allows: whatever
    rules a context pushes down, a record the stored function denies is denied by
    the row evaluation too, as long as no pushed condition carries the empty
    string. *)
Theorem db_fence_sound ctx row pii :
  (∀ s, s ∈ pc_sets ctx → proper_set s) →
  pushes_empty ctx = false → source_record (fr_source row) = true →
  policy_row_denied (fr_predicate row) (fr_source row) (compileDenyPushdown (Some ctx)) = true →
  pe_decision (evaluateRow ctx (toRowView row pii)) = DDeny.
Proof.
  intros Hps Hne Hsrc (pr & Hin & Hd)%policy_row_denied_iff.
  unfold compileDenyPushdown in Hin.
  destruct (pc_forceReportOnly ctx) eqn:Ef; [by apply elem_of_nil in Hin|].
  apply list_elem_of_In, in_flat_map in Hin as (s & Hs & Hin).
  apply list_elem_of_In in Hs.
  case_bool_decide as Hm; [|done].
  apply in_flat_map in Hin as (r & Hr & Hin). apply list_elem_of_In in Hr.
  unfold push_source_rule in Hin. case_bool_decide; [done|].
  destruct (push_conditions [] (cs_conditions r)) as [pushed|] eqn:Ep; [|done].
  destruct pushed as [|kv pushed]; [done|].
  simpl in Hin. destruct Hin as [<-|[]].
  pose proof (pushed_rule_matches ctx s r _ row pii (Hps s Hs) Hs Hr Hne Hsrc Ep Hd) as Hmt.
  apply combine_deny_iff. exists (setVerdictForRow s (toRowView row pii)).
  split; [by apply list_elem_of_fmap; eauto|].
  unfold enforced. rewrite Ef.
  assert (Hmode : sv_mode (setVerdictForRow s (toRowView row pii)) = cp_mode s)
    by (unfold setVerdictForRow; by repeat case_match).
  rewrite Hmode, (bool_decide_eq_true_2 _ Hm). split; [|done].
  rewrite row_verdict_effect.
  assert (existsb (λ r, sourceRuleMatches r (toRowView row pii)) (cp_sourceDeny s) = true)
    as -> by (apply existsb_In; eauto). done.
Qed.

Definition hr_row (source : jsval) : FactRow :=
  {| fr_id := Some "f1"; fr_predicate := "salary"; fr_source := source;
     fr_trustSnapshot := VUndef; fr_corroboration := VUndef; fr_userId := VUndef |}.

Definition vertical_document (values : list string) : PolicyDocument :=
  reorder hr_document
    [ {| pr_id := "deny"; pr_effect := EDeny; pr_kind := RuleSource; pr_enabled := true;
         pr_actions := None;
         pr_match := Some [ {| mc_attr := "source.vertical"; mc_op := OpIn;
                               mc_value := Some (CArr values) |} ] |} ].

Lemma db_fence_sound_witness :
  let ctx := contextOf "co" "k" false 15 [vertical_document ["hr"]] in
  let row := hr_row (VObj [("vertical", VStr "hr")]) in
  policy_row_denied "salary" (fr_source row) (compileDenyPushdown (Some ctx)) = true ∧
  pe_decision (evaluateRow ctx (toRowView row (λ _, "none"))) = DDeny.
Proof.
  intros ctx row. split; [vm_compute; reflexivity|].
  apply (db_fence_sound ctx row (λ _, "none")).
  - intros s Hs. left. exists (vertical_document ["hr"]), 15%Z.
    apply list_elem_of_singleton in Hs. subst. reflexivity.
  - vm_compute. reflexivity.
  - reflexivity.
  - vm_compute. reflexivity.
Defined.

(** The side condition is needed, and the schema does not enforce it: a
    document the schema accepts denies the empty vertical; the stored function
    then denies every record that has no vertical at all, while the row
    evaluation, for which an absent attribute matches no value, allows it. *)
Theorem db_fence_denies_absent_vertical fields pii :
  OMap.get "vertical" fields = None →
  let ctx := contextOf "co" "k" false 15 [vertical_document ["hr"; ""]] in
  let row := hr_row (VObj fields) in
  document_valid (λ _, 0) (vertical_document ["hr"; ""]) = true ∧
  policy_row_denied "salary" (VObj fields) (compileDenyPushdown (Some ctx)) = true ∧
  pe_decision (evaluateRow ctx (toRowView row pii)) = DAllow.
Proof.
  intros Hg ctx row. split; [vm_compute; reflexivity|]. split.
  - apply policy_row_denied_iff. exists [(PkVertical, ["hr"; ""])].
    split; [vm_compute; constructor|]. unfold rule_denies. simpl. by rewrite Hg.
  - assert (Hs : pc_sets ctx =
      [ {| cp_name := "hr-fence"; cp_mode := Enforce;
           cp_posture_actions := EAllow; cp_posture_reads := EAllow;
           cp_actionDeny := []; cp_actionAllow := [];
           cp_sourceDeny := map compileSourceRule (pd_rules (vertical_document ["hr"; ""]));
           cp_sourceAllow := [] |} ]) by reflexivity.
    assert (Hx : accessor "source.vertical" (toRowView row pii) = VUndef).
    { apply (obj_get_absent _ _ Hg), (bool_decide_eq_false_1 _). reflexivity. }
    unfold evaluateRow. rewrite Hs, combine_decision. simpl. unfold is_deny.
    rewrite row_verdict_effect. unfold sourceRuleMatches. cbn -[accessor toRowView].
    by rewrite Hx.
Qed.

Lemma db_fence_denies_absent_vertical_witness :
  policy_row_denied "salary" (VObj [("recorder", VStr "agent")])
    (compileDenyPushdown (Some (contextOf "co" "k" false 15 [vertical_document ["hr"; ""]])))
  = true.
Proof.
  apply (db_fence_denies_absent_vertical [("recorder", VStr "agent")] (λ _, "none")).
  reflexivity.
Defined.
