(* ===== verification/PolicyResolver.v ===== *)
(** * The policy resolver

    [policy/policy-resolver.service.ts]: from a tenant's tables to the policy
    context of one request, through a cached snapshot guarded by a coherence
    counter. *)

From S2P Require Import Prelude Js Regex PolicyTypes PolicyEngine PolicySpec Resume.
Local Open Scope string_scope.
Local Open Scope nat_scope.

(** ** The tenant's tables *)

Record AccessPolicyRow := {
  ap_name : string;
  ap_mode : PolicyMode;
  ap_document : PolicyDocument;
  ap_version : nat;
  ap_updatedBy : string
}.

Record PolicyBindingRow := {
  pb_subject : string;
  pb_policyNames : list string
}.

Record PolicyTables := {
  access_policy : list AccessPolicyRow;
  policy_binding : list PolicyBindingRow;
  policy_meta_version : nat
}.

(** ** Snapshots *)

Record TenantPolicySnapshot := {
  sn_sets : list (string * CompiledPolicySet);
  sn_knownNames : list string;
  sn_bindings : list (string * list string);
  sn_loadedAt : Z;
  sn_version : nat;
  sn_checkedAt : Z
}.

Definition COHERENCE_MS : Z := 5000.

(** The loops over the two result sets: names and compiled sets, bindings. *)
Definition load_policy (now : Z) (acc : list (string * CompiledPolicySet) * list string)
    (r : AccessPolicyRow) : list (string * CompiledPolicySet) * list string :=
  (match compilePolicySet (ap_document r) now with
   | Some compiled => OMap.set (ap_name r) compiled acc.1
   | None => acc.1
   end,
   add_new acc.2 (ap_name r)).

Definition load_binding (acc : list (string * list string)) (r : PolicyBindingRow) :
    list (string * list string) :=
  OMap.set (pb_subject r) (pb_policyNames r) acc.

Definition buildSnapshot (now : Z) (version : nat) (policyRows : list AccessPolicyRow)
    (bindingRows : list PolicyBindingRow) : TenantPolicySnapshot :=
  let '(sets, knownNames) := fold_left (load_policy now) policyRows ([], []) in
  {| sn_sets := sets; sn_knownNames := knownNames;
     sn_bindings := fold_left load_binding bindingRows [];
     sn_loadedAt := now; sn_version := version; sn_checkedAt := now |}.

Definition readPolicyVersion (db : PolicyTables) : nat := policy_meta_version db.

(** The version is read first, then the two tables; the clock last. *)
Definition loadFresh : prog PolicyTables (Z → TenantPolicySnapshot) :=
  do* version := query readPolicyVersion in
  do* policyRows := query access_policy in
  do* bindingRows := query policy_binding in
  Done (λ now, buildSnapshot now version policyRows bindingRows).

(** ** The context of a request *)

Record PolicySubject := {
  su_keyHash : string;
  su_claimNames : list string;
  su_actorId : option string
}.

(** [push]: skip what was seen, flag the overflow, append otherwise. *)
Definition push_name (acc : list string * bool) (n : string) : list string * bool :=
  let '(names, truncated) := acc in
  if bool_decide (n ∈ names) then (names, truncated)
  else if MAX_SETS_PER_KEY <=? length names then (names, true)
  else (app names [n], truncated).

(** The names a subject refers to, in the order the code pushes them. *)
Definition subject_names (snap : TenantPolicySnapshot) (su : PolicySubject) : list string :=
  let bound s := default [] (OMap.get s (sn_bindings snap)) in
  app (bound ("key:" +:+ su_keyHash su))
    (app (if starts_with "jwt:" (su_keyHash su) then bound (su_keyHash su) else [])
      (app (match su_actorId su with
            | Some a => if bool_decide (a = "") then [] else bound ("agent:" +:+ a)
            | None => []
            end)
         (su_claimNames su))).

(** One name: its compiled set, the deny-all sentinel when it is unknown, or
    nothing when it is known but disabled. *)
Definition resolve_name (snap : TenantPolicySnapshot) (acc : list CompiledPolicySet * bool)
    (name : string) : list CompiledPolicySet * bool :=
  match OMap.get name (sn_sets snap) with
  | Some compiled => (app acc.1 [compiled], acc.2)
  | None =>
      if negb (bool_decide (name ∈ sn_knownNames snap))
      then (app acc.1 [denyAllSet name], true)
      else acc
  end.

Definition contextFor (enabled forceReportOnly : bool) (companyId : string)
    (snap : TenantPolicySnapshot) (su : PolicySubject) : option PolicyContext * bool :=
  if negb enabled then (None, false)
  else
    let '(names, truncated) := fold_left push_name (subject_names snap su) ([], false) in
    if bool_decide (names = []) then (None, truncated)
    else
      let '(sets, resolutionError) := fold_left (resolve_name snap) names ([], false) in
      if bool_decide (sets = []) then (None, truncated)
      else (Some {| pc_companyId := companyId; pc_keyHash := su_keyHash su;
                    pc_sets := sets; pc_forceReportOnly := forceReportOnly;
                    pc_resolutionError := resolutionError |}, truncated).

(** ** The cached snapshot *)

(** [stillCurrent]: trusted within [COHERENCE_MS]; otherwise the version read
    decides, a failed read ([None]) trusting the snapshot. [now'] is the time
    after the read. *)
Definition touch (s : TenantPolicySnapshot) (now' : Z) : TenantPolicySnapshot :=
  {| sn_sets := sn_sets s; sn_knownNames := sn_knownNames s;
     sn_bindings := sn_bindings s; sn_loadedAt := sn_loadedAt s;
     sn_version := sn_version s; sn_checkedAt := now' |}.

Definition stillCurrent (now now' : Z) (cached : TenantPolicySnapshot)
    (check : option nat) : bool * TenantPolicySnapshot :=
  if (now - sn_checkedAt cached <? COHERENCE_MS)%Z then (true, cached)
  else match check with
       | Some current => (current =? sn_version cached, touch cached now')
       | None => (true, touch cached now')
       end.

(** [snapshot]: what is served and what the cache holds afterwards. [load] is
    the outcome of the load, [None] when it fails; a failure with nothing
    cached is rethrown. *)
Definition snapshot (ttlMs now now' : Z) (cached : option TenantPolicySnapshot)
    (check : option nat) (load : option TenantPolicySnapshot) :
    option TenantPolicySnapshot * option TenantPolicySnapshot :=
  let '(trusted, cached') :=
    match cached with
    | Some c =>
        if (now - sn_loadedAt c <? ttlMs)%Z
        then let '(ok, c') := stillCurrent now now' c check in (ok, Some c')
        else (false, Some c)
    | None => (false, None)
    end in
  if trusted : bool then (cached', cached')
  else match load with
       | Some s => (Some s, Some s)
       | None => (cached', cached')
       end.

(** ** Names *)

Lemma push_names_spec xs names truncated :
  NoDup names → length names ≤ MAX_SETS_PER_KEY →
  let out := fold_left push_name xs (names, truncated) in
  NoDup out.1 ∧ length out.1 ≤ MAX_SETS_PER_KEY ∧ names `prefix_of` out.1 ∧
  (∀ n, n ∈ out.1 → n ∈ names ∨ n ∈ xs) ∧
  (truncated = true → out.2 = true) ∧
  (out.2 = false → ∀ n, n ∈ xs → n ∈ out.1).
Proof.
  revert names truncated. induction xs as [|x xs IH]; intros names truncated Hnd Hle;
    cbn [fold_left push_name].
  { split_and!; [done|done|done|auto|done|]. by intros _ n ?%elem_of_nil. }
  case_bool_decide as Hin.
  { destruct (IH names truncated Hnd Hle) as (?&?&Hp&Hsub&?&Hall).
    split_and!; [done|done|done| |done|].
    - intros n Hn. destruct (Hsub n Hn); [by left|right; by constructor].
    - intros Ht n [-> | Hn]%elem_of_cons; [|by apply Hall].
      destruct Hp as [k ->]. apply elem_of_app. by left. }
  destruct (Nat.leb_spec MAX_SETS_PER_KEY (length names)).
  { destruct (IH names true Hnd Hle) as (?&?&Hp&Hsub&Htr&Hall).
    split_and!; [done|done|done| |by intros; apply Htr|].
    - intros n Hn. destruct (Hsub n Hn); [by left|right; by constructor].
    - intros Ht. by rewrite Htr in Ht. }
  assert (Hnd' : NoDup (app names [x])).
  { apply NoDup_app. repeat split; [done| |apply NoDup_singleton].
    by intros y ? ->%list_elem_of_singleton. }
  assert (Hle' : length (app names [x]) ≤ MAX_SETS_PER_KEY)
    by (rewrite length_app; simpl; lia).
  destruct (IH (app names [x]) truncated Hnd' Hle') as (?&?&Hp&Hsub&?&Hall).
  split_and!; [done|done| | |done|].
  - etrans; [|done]. by apply prefix_app_r.
  - intros n Hn. destruct (Hsub n Hn) as [Hx|]; [|right; by constructor].
    apply elem_of_app in Hx as [?| ->%list_elem_of_singleton]; [by left|].
    right. by constructor.
  - intros Ht n [-> | Hn]%elem_of_cons; [|by apply Hall].
    destruct Hp as [k ->]. rewrite !elem_of_app, list_elem_of_singleton. auto.
Qed.

(** ** Resolution *)

Definition resolved (snap : TenantPolicySnapshot) (name : string) : list CompiledPolicySet :=
  match OMap.get name (sn_sets snap) with
  | Some compiled => [compiled]
  | None => if bool_decide (name ∈ sn_knownNames snap) then [] else [denyAllSet name]
  end.

Definition unresolved (snap : TenantPolicySnapshot) (name : string) : bool :=
  match OMap.get name (sn_sets snap) with
  | Some _ => false
  | None => negb (bool_decide (name ∈ sn_knownNames snap))
  end.

Lemma resolve_names_spec snap names acc :
  fold_left (resolve_name snap) names acc =
  (app acc.1 (flat_map (resolved snap) names), acc.2 || existsb (unresolved snap) names).
Proof.
  revert acc. induction names as [|n names IH]; intros [sets err]; simpl.
  { by rewrite app_nil_r, orb_false_r. }
  rewrite IH. unfold resolve_name, resolved, unresolved. simpl.
  destruct (OMap.get n (sn_sets snap)); simpl; [by rewrite <- app_assoc|].
  case_bool_decide; simpl; [done|]. by rewrite <- app_assoc, orb_true_r.
Qed.

(** The names a request resolves. *)
Definition names_of (snap : TenantPolicySnapshot) (su : PolicySubject) : list string :=
  (fold_left push_name (subject_names snap su) ([], false)).1.

Lemma contextFor_Some frc co snap su ctx tr :
  contextFor true frc co snap su = (Some ctx, tr) →
  pc_sets ctx = flat_map (resolved snap) (names_of snap su) ∧
  pc_forceReportOnly ctx = frc ∧
  pc_resolutionError ctx = existsb (unresolved snap) (names_of snap su).
Proof.
  unfold contextFor, names_of. simpl.
  destruct (fold_left push_name (subject_names snap su) ([], false)) as [names trunc].
  case_bool_decide; [done|]. rewrite resolve_names_spec. simpl.
  case_bool_decide; [done|]. intros. by simplify_eq.
Qed.

Lemma contextFor_None frc co snap su tr :
  contextFor true frc co snap su = (None, tr) →
  flat_map (resolved snap) (names_of snap su) = [].
Proof.
  unfold contextFor, names_of. simpl.
  destruct (fold_left push_name (subject_names snap su) ([], false)) as [names trunc].
  case_bool_decide as Hn; [by subst|]. rewrite resolve_names_spec. simpl.
  by case_bool_decide.
Qed.

Lemma in_flat_map_elem {A B} (f : A → list B) l y :
  y ∈ flat_map f l ↔ ∃ x, x ∈ l ∧ y ∈ f x.
Proof.
  rewrite list_elem_of_In, in_flat_map.
  by setoid_rewrite <- list_elem_of_In.
Qed.

Lemma denyAll_verdicts n action kind v :
  sv_verdict (setVerdictForAction (denyAllSet n) action kind) = EDeny ∧
  sv_verdict (setVerdictForRow (denyAllSet n) v) = EDeny ∧
  sv_mode (setVerdictForAction (denyAllSet n) action kind) = Enforce ∧
  sv_mode (setVerdictForRow (denyAllSet n) v) = Enforce.
Proof. done. Qed.

(** C39. Failing closed: a subject that refers, within the cap, to a policy set
    the tenant does not have gets a context that is flagged and that denies
    every action and every row, unless the kill switch demotes it to reporting. *)
Theorem unknown_set_denies_everything frc co snap su n :
  n ∈ subject_names snap su → unresolved snap n = true →
  (contextFor true frc co snap su).2 = false →
  ∃ ctx, (contextFor true frc co snap su).1 = Some ctx ∧
    pc_resolutionError ctx = true ∧
    (∀ action kind, pe_decision (evaluateAction ctx action kind) =
                    if frc then DWouldDeny else DDeny) ∧
    (∀ row, pe_decision (evaluateRow ctx row) = if frc then DWouldDeny else DDeny).
Proof.
  intros Hn Hu Htr.
  assert (Hin : n ∈ names_of snap su).
  { destruct (push_names_spec (subject_names snap su) [] false) as (_&_&_&_&_&Hall);
      [constructor|simpl; lia|]. apply Hall; [|done].
    revert Htr. unfold contextFor. simpl.
    destruct (fold_left push_name _ _) as [names tr]. rewrite resolve_names_spec.
    by repeat case_bool_decide. }
  assert (Hden : denyAllSet n ∈ flat_map (resolved snap) (names_of snap su)).
  { apply in_flat_map_elem. exists n. split; [done|]. unfold resolved, unresolved in *.
    destruct (OMap.get n (sn_sets snap)); [done|].
    case_bool_decide; [done|]. by apply list_elem_of_singleton. }
  destruct (contextFor true frc co snap su) as [[ctx|] tr] eqn:E.
  2:{ apply contextFor_None in E. rewrite E in Hden. by apply elem_of_nil in Hden. }
  destruct (contextFor_Some _ _ _ _ _ _ E) as (Hs & Hf & He).
  exists ctx. split; [done|]. split; [rewrite He; apply existsb_In; eauto|].
  assert (Hgen : ∀ (f : CompiledPolicySet → SetVerdict),
    sv_verdict (f (denyAllSet n)) = EDeny → sv_mode (f (denyAllSet n)) = Enforce →
    pe_decision (combine ctx (map f (pc_sets ctx))) = if frc then DWouldDeny else DDeny).
  { intros f Hd Hm. rewrite Hs.
    assert (Hf' : f (denyAllSet n) ∈ map f (flat_map (resolved snap) (names_of snap su)))
      by (apply list_elem_of_fmap; eauto).
    destruct frc.
    - rewrite combine_decision.
      destruct (existsb (λ v, is_deny v && enforced ctx v) _) eqn:Ee.
      { apply existsb_In in Ee as (v & _ & [_ Hv]%andb_true_iff).
        unfold enforced in Hv. rewrite Hf, andb_false_r in Hv. done. }
      assert (existsb is_deny (map f (flat_map (resolved snap) (names_of snap su))) = true)
        as -> by (apply existsb_In; eexists; split; [done|]; unfold is_deny; by rewrite Hd).
      done.
    - apply combine_deny_iff. eexists. split; [done|]. split; [done|].
      unfold enforced. by rewrite Hm, Hf. }
  split; intros; by apply Hgen.
Qed.

(** The sets of a context are the resolution of at most eight distinct names
    of the subject, in order of first mention, and when nothing was cut every
    name the subject refers to is among them: compiled if the snapshot has it,
    absent if it is known but inactive, denied if it is unknown. *)
Theorem context_resolves_every_name frc co snap su ctx tr :
  contextFor true frc co snap su = (Some ctx, tr) →
  ∃ names,
    NoDup names ∧ length names ≤ MAX_SETS_PER_KEY ∧
    pc_sets ctx = flat_map (resolved snap) names ∧
    (∀ n, n ∈ names → n ∈ subject_names snap su) ∧
    (tr = false → ∀ n, n ∈ subject_names snap su → n ∈ names) ∧
    (pc_resolutionError ctx = true ↔ ∃ n, n ∈ names ∧ unresolved snap n = true).
Proof.
  intros E. destruct (contextFor_Some _ _ _ _ _ _ E) as (Hs & Hf & He).
  exists (names_of snap su).
  destruct (push_names_spec (subject_names snap su) [] false)
    as (Hnd&Hle&_&Hsub&_&Hall); [constructor|simpl; lia|].
  split_and!; [done|done|done| | |].
  - intros n Hn. destruct (Hsub n Hn) as [H|H]; [by apply elem_of_nil in H|done].
  - intros Htr. apply Hall. revert E. unfold contextFor. simpl.
    destruct (fold_left push_name _ _) as [names t]. rewrite resolve_names_spec.
    repeat case_bool_decide; intros; by simplify_eq.
  - rewrite He. apply existsb_In.
Qed.

(** ** Coherence *)

(** One replica's cache beside the tenant's tables. A writer anywhere changes
    the tables in one statement and bumps the version in a later one;
    [w_dirty] counts the writes whose bump is still to come. *)
Record World := {
  w_db : PolicyTables;
  w_dirty : nat;
  w_load : option (prog PolicyTables (Z → TenantPolicySnapshot));
  w_cache : option TenantPolicySnapshot;
  w_now : Z
}.

Definition with_db (w : World) db dirty : World :=
  {| w_db := db; w_dirty := dirty; w_load := w_load w; w_cache := w_cache w; w_now := w_now w |}.
Definition with_load (w : World) load cache : World :=
  {| w_db := w_db w; w_dirty := w_dirty w; w_load := load; w_cache := cache; w_now := w_now w |}.

Definition bump (db : PolicyTables) : PolicyTables :=
  {| access_policy := access_policy db; policy_binding := policy_binding db;
     policy_meta_version := S (policy_meta_version db) |}.

Inductive wstep : World → World → Prop :=
| ws_write w sets bindings :
    wstep w (with_db w {| access_policy := sets; policy_binding := bindings;
                          policy_meta_version := policy_meta_version (w_db w) |}
               (S (w_dirty w)))
| ws_bump w : wstep w (with_db w (bump (w_db w)) (Nat.pred (w_dirty w)))
| ws_load w : w_load w = None → wstep w (with_load w (Some loadFresh) (w_cache w))
| ws_read w f :
    w_load w = Some (Stmt f) →
    wstep w (with_load w (Some (f (w_db w)).2) (w_cache w))
| ws_loaded w mk :
    w_load w = Some (Done mk) →
    wstep w (with_load w None (Some (mk (w_now w))))
| ws_load_failed w : wstep w (with_load w None (w_cache w))
| ws_invalidate w : wstep w (with_load w (w_load w) None)
| ws_check w c now' check :
    w_cache w = Some c →
    wstep w (with_load w (w_load w) (Some (stillCurrent (w_now w) now' c check).2))
| ws_tick w t :
    (w_now w <= t)%Z →
    wstep w {| w_db := w_db w; w_dirty := w_dirty w; w_load := w_load w;
               w_cache := w_cache w; w_now := t |}.

Inductive reachable (db : PolicyTables) (now : Z) : World → Prop :=
| rw_init : reachable db now
    {| w_db := db; w_dirty := 0; w_load := None; w_cache := None; w_now := now |}
| rw_step w w' : reachable db now w → wstep w w' → reachable db now w'.

(** The snapshot holds what a fresh load of these tables would hold. *)
Definition mirrors (s : TenantPolicySnapshot) (sets : list AccessPolicyRow)
    (bindings : list PolicyBindingRow) : Prop :=
  let fresh := buildSnapshot (sn_loadedAt s) (sn_version s) sets bindings in
  sn_sets s = sn_sets fresh ∧ sn_knownNames s = sn_knownNames fresh ∧
  sn_bindings s = sn_bindings fresh.

Definition after_version v : prog PolicyTables (Z → TenantPolicySnapshot) :=
  do* policyRows := query access_policy in
  do* bindingRows := query policy_binding in
  Done (λ now, buildSnapshot now v policyRows bindingRows).

Definition after_policies v sets : prog PolicyTables (Z → TenantPolicySnapshot) :=
  do* bindingRows := query policy_binding in
  Done (λ now, buildSnapshot now v sets bindingRows).

(** Read at version [v]: either a later bump gives it away, or a bump is still
    to come, or the tables have not changed since. *)
Definition dated (w : World) (v : nat) (P : Prop) : Prop :=
  v ≤ policy_meta_version (w_db w) ∧
  (v = policy_meta_version (w_db w) → w_dirty w = 0 → P).

Definition load_ok (w : World) (p : prog PolicyTables (Z → TenantPolicySnapshot)) : Prop :=
  p = loadFresh ∨
  (∃ v, p = after_version v ∧ dated w v True) ∨
  (∃ v sets, p = after_policies v sets ∧ dated w v (sets = access_policy (w_db w))) ∨
  (∃ v sets bindings, p = Done (λ now, buildSnapshot now v sets bindings) ∧
     dated w v (sets = access_policy (w_db w) ∧ bindings = policy_binding (w_db w))).

Definition cache_ok (w : World) (s : TenantPolicySnapshot) : Prop :=
  ∃ sets bindings, mirrors s sets bindings ∧
    dated w (sn_version s) (sets = access_policy (w_db w) ∧ bindings = policy_binding (w_db w)).

Definition world_ok (w : World) : Prop :=
  (∀ p, w_load w = Some p → load_ok w p) ∧ (∀ s, w_cache w = Some s → cache_ok w s).

Lemma dated_write w v (P Q : Prop) db :
  policy_meta_version db = policy_meta_version (w_db w) →
  dated w v P → dated (with_db w db (S (w_dirty w))) v Q.
Proof. unfold dated; simpl. intros ->. naive_solver lia. Qed.

Lemma dated_bump w v (P Q : Prop) n :
  dated w v P → dated (with_db w (bump (w_db w)) n) v Q.
Proof. unfold dated; simpl. intros [? _]. split; lia. Qed.

Lemma load_ok_mono w w' p :
  (∀ v (P Q : Prop), dated w v P → dated w' v Q) → load_ok w p → load_ok w' p.
Proof. unfold load_ok. intros H. naive_solver. Qed.

Lemma cache_ok_mono w w' s :
  (∀ v (P Q : Prop), dated w v P → dated w' v Q) → cache_ok w s → cache_ok w' s.
Proof. unfold cache_ok. intros H (sets & binds & ? & Hd). eauto 10. Qed.

Lemma mirrors_build now v sets bindings : mirrors (buildSnapshot now v sets bindings) sets bindings.
Proof.
  unfold mirrors, buildSnapshot. simpl.
  destruct (fold_left (load_policy now) sets ([], [])) as [a b] eqn:E. simpl.
  by rewrite E.
Qed.

Lemma build_version now v sets bindings : sn_version (buildSnapshot now v sets bindings) = v.
Proof.
  unfold buildSnapshot. by destruct (fold_left (load_policy now) sets ([], [])).
Qed.

Lemma load_ok_read w f :
  load_ok w (Stmt f) → load_ok w (f (w_db w)).2.
Proof.
  intros [H|[(v & H & Hd)|[(v & sets & H & Hd)|(v & sets & b & H & _)]]];
    [| | |done]; injection H as ->; simpl.
  - right; left. eexists. split; [reflexivity|]. unfold dated, readPolicyVersion. lia.
  - right; right; left. eexists _, _. split; [reflexivity|].
    destruct Hd. split; [done|]. done.
  - right; right; right. eexists _, _, _. split; [reflexivity|].
    destruct Hd as [? Hd]. split; [done|]. intros. split; [by apply Hd|done].
Qed.

Lemma load_ok_done w mk :
  load_ok w (Done mk) → ∀ now, cache_ok w (mk now).
Proof.
  intros [H|[(v & H & Hd)|[(v & sets & H & Hd)|(v & sets & b & H & Hd)]]] now;
    try discriminate H.
  injection H as ->. exists sets, b. rewrite build_version.
  split; [apply mirrors_build|done].
Qed.

Lemma stillCurrent_cache now now' c check :
  let c' := (stillCurrent now now' c check).2 in
  sn_sets c' = sn_sets c ∧ sn_knownNames c' = sn_knownNames c ∧
  sn_bindings c' = sn_bindings c ∧ sn_version c' = sn_version c ∧
  sn_loadedAt c' = sn_loadedAt c.
Proof. unfold stillCurrent. simpl. by repeat case_match. Qed.

Lemma wstep_ok w w' : wstep w w' → world_ok w → world_ok w'.
Proof.
  intros Hs [Hl Hc]. destruct Hs as [w sets b|w|w H|w f H|w mk H|w|w|w c now' check H|w t H];
    split; simpl; intros x Hx; simplify_eq;
    try by (apply (load_ok_mono w); [|by auto]; intros; by eapply dated_write).
  - apply (cache_ok_mono w); [|by auto]. intros; by eapply dated_write.
  - apply (load_ok_mono w); [|by auto]. intros; by eapply dated_bump.
  - apply (cache_ok_mono w); [|by auto]. intros; by eapply dated_bump.
  - by left.
  - by apply Hc.
  - by apply (load_ok_read w), Hl.
  - by apply Hc.
  - by apply (load_ok_done w), Hl.
  - by apply Hc.
  - by apply Hl.
  - by apply Hl.
  - destruct (Hc _ H) as (sets & b & Hm & Hd). exists sets, b.
    pose proof (stillCurrent_cache (w_now w) now' c check) as (E1 & E2 & E3 & E4 & E5).
    unfold mirrors. rewrite E1, E2, E3, E4, E5. done.
  - by apply Hl.
  - by apply Hc.
Qed.

(** C17. Version first: in every reachable world, whatever writes, loads, checks
    and invalidations interleaved on whatever replica, a cached snapshot whose
    version equals the database's holds exactly what a fresh load would hold,
    as soon as every write has been followed by its bump. The version check
    therefore never trusts a snapshot that missed a write. *)
Theorem version_check_sound db0 now0 w c :
  reachable db0 now0 w → w_cache w = Some c → w_dirty w = 0 →
  sn_version c = policy_meta_version (w_db w) →
  mirrors c (access_policy (w_db w)) (policy_binding (w_db w)).
Proof.
  intros Hr Hc Hd Hv.
  assert (world_ok w) as [_ Hok].
  { clear -Hr. induction Hr; [by split|]. by eapply wstep_ok. }
  destruct (Hok c Hc) as (sets & b & Hm & _ & Hdd).
  destruct (Hdd Hv Hd) as [-> ->]. done.
Qed.

Definition empty_tables : PolicyTables :=
  {| access_policy := []; policy_binding := []; policy_meta_version := 0 |}.

Definition hr_tables : PolicyTables :=
  {| access_policy := [ {| ap_name := "hr-fence"; ap_mode := Enforce; ap_document := hr_document;
                           ap_version := 1; ap_updatedBy := "admin" |} ];
     policy_binding := [ {| pb_subject := "key:k1"; pb_policyNames := ["hr-fence"; "gone"] |} ];
     policy_meta_version := 3 |}.

Definition k1 : PolicySubject :=
  {| su_keyHash := "k1"; su_claimNames := []; su_actorId := None |}.

Definition hr_snapshot : TenantPolicySnapshot := (run loadFresh hr_tables).2 15%Z.

Lemma unknown_set_denies_everything_witness :
  ∃ ctx, (contextFor true false "co" hr_snapshot k1).1 = Some ctx ∧
    pc_resolutionError ctx = true ∧
    (∀ action kind, pe_decision (evaluateAction ctx action kind) = DDeny) ∧
    (∀ row, pe_decision (evaluateRow ctx row) = DDeny).
Proof.
  apply (unknown_set_denies_everything false "co" hr_snapshot k1 "gone").
  - vm_compute. right. left.
  - vm_compute. reflexivity.
  - vm_compute. reflexivity.
Defined.

Lemma context_resolves_every_name_witness :
  match contextFor true false "co" hr_snapshot k1 with
  | (Some ctx, _) =>
      ∃ names, NoDup names ∧ length names ≤ MAX_SETS_PER_KEY ∧
        pc_sets ctx = flat_map (resolved hr_snapshot) names
  | _ => False
  end.
Proof.
  destruct (contextFor true false "co" hr_snapshot k1) as [[ctx|] tr] eqn:E.
  - destruct (context_resolves_every_name _ _ _ _ _ _ E) as (names & ? & ? & ? & _).
    exists names. split; [assumption|]. split; assumption.
  - apply (f_equal fst) in E. vm_compute in E. discriminate.
Defined.

Lemma version_check_sound_witness :
  ∃ w c, reachable hr_tables 0 w ∧ w_cache w = Some c ∧
    mirrors c (access_policy (w_db w)) (policy_binding (w_db w)).
Proof.
  set (w0 := {| w_db := hr_tables; w_dirty := 0; w_load := None; w_cache := None; w_now := 0 |}).
  assert (R0 : reachable hr_tables 0 w0) by apply rw_init.
  assert (R1 := rw_step _ _ _ _ R0 (ws_load w0 eq_refl)).
  eassert (R2 : reachable _ _ _)
    by (eapply rw_step; [exact R1|eapply ws_read; reflexivity]).
  eassert (R3 : reachable _ _ _)
    by (eapply rw_step; [exact R2|eapply ws_read; reflexivity]).
  eassert (R4 : reachable _ _ _)
    by (eapply rw_step; [exact R3|eapply ws_read; reflexivity]).
  eassert (R5 : reachable _ _ _)
    by (eapply rw_step; [exact R4|eapply ws_loaded; reflexivity]).
  eexists _, _. split; [exact R5|]. split; [reflexivity|].
  apply (version_check_sound _ _ _ _ R5); reflexivity.
Defined.
