(* ===== verification/PolicyStore.v ===== *)
(** * The policy store

    [policy/policy-store.service.ts]: the admin CRUD over a tenant's policy sets
    and bindings. Every database statement is atomic and its own transaction;
    other requests' statements may fall between two of them. Timestamps are left
    out. *)

From S2P Require Import Prelude Js Regex PolicyTypes PolicyEngine PolicySpec Resume PolicyResolver.
From stdpp Require Import sorting.
Local Open Scope string_scope.
Local Open Scope nat_scope.

(** The tenant's tables and this process's resolver cache. *)
Record Tenant := {
  tn_db : PolicyTables;
  tn_cache : option TenantPolicySnapshot
}.

Definition on_db (f : PolicyTables → PolicyTables) (t : Tenant) : Tenant :=
  {| tn_db := f (tn_db t); tn_cache := tn_cache t |}.

Definition call (A : Type) : Type := prog Tenant (result http_exn A).

Definition select {A} (f : PolicyTables → A) : prog Tenant A := query (λ t, f (tn_db t)).
Definition write (f : PolicyTables → PolicyTables) : prog Tenant unit := exec (on_db f).

(** [this.resolver.invalidate(companyId)] *)
Definition invalidate : prog Tenant unit :=
  exec (λ t, {| tn_db := tn_db t; tn_cache := None |}).

(** ** Stored sets *)

Record StoredPolicySet := {
  ss_name : string;
  ss_mode : PolicyMode;
  ss_document : PolicyDocument;
  ss_version : nat;
  ss_updatedBy : string;
  ss_attachedSubjects : list string
}.

(** [/^(key|jwt|agent):[A-Za-z0-9:._-]{1,200}$/] *)
Definition SUBJECT_SHAPE : re :=
  RSeq (RAlt (r_lit "key") (RAlt (r_lit "jwt") (r_lit "agent")))
    (RSeq (r_lit ":")
       (r_range 1 200 (RCls (λ c, is_upper c || is_lower c || is_digit c || is_one_of ":._-" c)))).

Definition attach_one (subject : string) (acc : list (string * list string)) (name : string) :
    list (string * list string) :=
  OMap.set name (app (default [] (OMap.get name acc)) [subject]) acc.

Definition attachedBy (bindings : list PolicyBindingRow) : list (string * list string) :=
  fold_left (λ acc b, fold_left (attach_one (pb_subject b)) (pb_policyNames b) acc) bindings [].

Definition mapRow (attached : list (string * list string)) (r : AccessPolicyRow) : StoredPolicySet :=
  {| ss_name := ap_name r; ss_mode := ap_mode r; ss_document := ap_document r;
     ss_version := ap_version r; ss_updatedBy := ap_updatedBy r;
     ss_attachedSubjects := default [] (OMap.get (ap_name r) attached) |}.

(** [ORDER BY name] *)
Definition name_le (a b : AccessPolicyRow) : Prop :=
  String.leb (ap_name a) (ap_name b) = true.
#[export] Instance name_le_dec a b : Decision (name_le a b).
Proof. unfold name_le. apply _. Defined.

Definition list_sets : prog Tenant (list StoredPolicySet) :=
  do* rows := select (λ db, merge_sort name_le (access_policy db)) in
  do* bindings := select policy_binding in
  Done (map (mapRow (attachedBy bindings)) rows).

Definition get_set (name : string) : call StoredPolicySet :=
  do* sets := list_sets in
  Done (match find_first (λ s, bool_decide (ss_name s = name)) sets with
        | Some found => Ok found
        | None => Throw (NotFound ("Policy set '" +:+ name +:+ "' not found"))
        end).

(** ** Writes *)

Section store.
(** The length of a document's JSON text, the one measure of it the schema
    reads. *)
Variable json_length : PolicyDocument → nat.

Definition parseDocument (body : PolicyDocument) : result http_exn PolicyDocument :=
  if document_valid json_length body then Ok body
  else Throw (BadRequest "invalid_policy_document").

Definition has_name (name : string) (r : AccessPolicyRow) : bool :=
  bool_decide (ap_name r = name).
Definition has_subject (subject : string) (r : PolicyBindingRow) : bool :=
  bool_decide (pb_subject r = subject).

Definition set_access (db : PolicyTables) l : PolicyTables :=
  {| access_policy := l; policy_binding := policy_binding db;
     policy_meta_version := policy_meta_version db |}.
Definition set_binding (db : PolicyTables) l : PolicyTables :=
  {| access_policy := access_policy db; policy_binding := l;
     policy_meta_version := policy_meta_version db |}.

(** [CREATE access_policy CONTENT ...] under the UNIQUE index on [name]. *)
Definition create_row (doc : PolicyDocument) (updatedBy : string) (db : PolicyTables) :
    PolicyTables * bool :=
  if existsb (has_name (pd_name doc)) (access_policy db) then (db, false)
  else (set_access db (app (access_policy db)
          [ {| ap_name := pd_name doc; ap_mode := pd_mode doc; ap_document := doc;
               ap_version := 1; ap_updatedBy := updatedBy |} ]), true).

(** A failed statement does not stop the next one of the same query. *)
Definition create (body : PolicyDocument) (updatedBy : string) : call StoredPolicySet :=
  match parseDocument body with
  | Throw e => Done (Throw e)
  | Ok doc =>
      do* created := update (λ t, let '(db, ok) := create_row doc updatedBy (tn_db t) in
                                  (on_db (λ _, db) t, ok)) in
      do* _ := write bump in
      if created : bool then do* _ := invalidate in get_set (pd_name doc)
      else Done (Throw (Conflict ("Policy set '" +:+ pd_name doc +:+ "' already exists")))
  end.

(** [UPDATE access_policy SET ... WHERE name = $name AND version = $version
    RETURN AFTER] *)
Definition update_row (name : string) (doc : PolicyDocument) (expected : nat)
    (updatedBy : string) (r : AccessPolicyRow) : AccessPolicyRow :=
  if has_name name r && (ap_version r =? expected)
  then {| ap_name := ap_name r; ap_mode := pd_mode doc; ap_document := doc;
          ap_version := ap_version r + 1; ap_updatedBy := updatedBy |}
  else r.

Definition cas_row name doc expected updatedBy (db : PolicyTables) : PolicyTables * nat :=
  (set_access db (map (update_row name doc expected updatedBy) (access_policy db)),
   length (List.filter (λ r, has_name name r && (ap_version r =? expected)) (access_policy db))).

Definition update_set (name : string) (body : PolicyDocument) (expectedVersion : nat)
    (updatedBy : string) : call StoredPolicySet :=
  match parseDocument body with
  | Throw e => Done (Throw e)
  | Ok doc =>
      if negb (bool_decide (pd_name doc = name))
      then Done (Throw (BadRequest "Policy set name is immutable"))
      else
        try* current := get_set name in
        if negb (ss_version current =? expectedVersion)
        then Done (Throw (Conflict "version_conflict"))
        else
          do* updated := update (λ t,
            let '(db, n) := cas_row name doc expectedVersion updatedBy (tn_db t) in
            (on_db (λ _, db) t, n)) in
          do* _ := write bump in
          if updated =? 0 then Done (Throw (Conflict "version_conflict"))
          else do* _ := invalidate in get_set name
  end.

Definition delete_rows (name : string) (db : PolicyTables) : PolicyTables :=
  set_access db (List.filter (λ r, negb (has_name name r)) (access_policy db)).

Definition remove (name : string) : call unit :=
  try* current := get_set name in
  if 0 <? length (ss_attachedSubjects current)
  then Done (Throw (Conflict "policy_attached"))
  else
    do* _ := write (delete_rows name) in
    do* _ := write bump in
    do* _ := invalidate in
    Done (Ok tt).

(** ** Attachments *)

(** [UPDATE policy_binding SET policyNames += $name WHERE subject = $subject] *)
Definition append_name (subject name : string) (db : PolicyTables) : PolicyTables :=
  set_binding db
    (map (λ b, if has_subject subject b
               then {| pb_subject := pb_subject b;
                       pb_policyNames := app (pb_policyNames b) [name] |}
               else b) (policy_binding db)).

(** [CREATE policy_binding CONTENT ...] under the UNIQUE index on [subject]. *)
Definition create_binding (subject name : string) (db : PolicyTables) : PolicyTables * bool :=
  if existsb (has_subject subject) (policy_binding db) then (db, false)
  else (set_binding db (app (policy_binding db)
          [ {| pb_subject := subject; pb_policyNames := [name] |} ]), true).

(** [policyNames -= $name] *)
Definition remove_name (subject name : string) (db : PolicyTables) : PolicyTables :=
  set_binding db
    (map (λ b, if has_subject subject b
               then {| pb_subject := pb_subject b;
                       pb_policyNames :=
                         List.filter (λ n, negb (bool_decide (n = name))) (pb_policyNames b) |}
               else b) (policy_binding db)).

(** [DELETE policy_binding WHERE subject = $subject AND array::len(policyNames) = 0] *)
Definition drop_empty (subject : string) (db : PolicyTables) : PolicyTables :=
  set_binding db
    (List.filter (λ b, negb (has_subject subject b && (length (pb_policyNames b) =? 0)))
       (policy_binding db)).

Definition attach_subject (name subject : string) : call unit :=
  do* rows := select (λ db, List.filter (has_subject subject) (policy_binding db)) in
  let existing := match rows with r :: _ => pb_policyNames r | [] => [] end in
  if bool_decide (name ∈ existing) then Done (Ok tt)
  else if MAX_SETS_PER_KEY <=? length existing
  then Done (Throw (BadRequest ("Subject '" +:+ subject +:+ "' already carries too many policy sets")))
  else if 0 <? length rows
  then do* _ := write (append_name subject name) in Done (Ok tt)
  else
    do* created := update (λ t, let '(db, ok) := create_binding subject name (tn_db t) in
                                (on_db (λ _, db) t, ok)) in
    if created : bool then Done (Ok tt)
    else Done (Throw (Internal "Database index `policy_binding_subject_idx` already contains")).

Fixpoint attach_all (name : string) (subjects : list string) : call unit :=
  match subjects with
  | [] => Done (Ok tt)
  | s :: subjects' => try* _ := attach_subject name s in attach_all name subjects'
  end.

Fixpoint detach_all (name : string) (subjects : list string) : prog Tenant unit :=
  match subjects with
  | [] => Done tt
  | s :: subjects' =>
      do* _ := write (remove_name s name) in
      do* _ := write (drop_empty s) in
      detach_all name subjects'
  end.

Definition updateAttachments (name : string) (attach detach : list string) :
    call StoredPolicySet :=
  try* _ := get_set name in
  match find_first (λ s, negb (re_test SUBJECT_SHAPE s)) (app attach detach) with
  | Some s => Done (Throw (BadRequest ("Invalid subject '" +:+ s +:+ "'")))
  | None =>
      try* _ := attach_all name attach in
      do* _ := detach_all name detach in
      do* _ := write bump in
      do* _ := invalidate in
      get_set name
  end.
End store.

(** ** Well-formed tables *)

Definition set_names (db : PolicyTables) : list string := map ap_name (access_policy db).
Definition subjects (db : PolicyTables) : list string := map pb_subject (policy_binding db).

Definition binding_ok (db : PolicyTables) (b : PolicyBindingRow) : Prop :=
  NoDup (pb_policyNames b) ∧ length (pb_policyNames b) ≤ MAX_SETS_PER_KEY ∧
  ∀ n, n ∈ pb_policyNames b → n ∈ set_names db.

(** Names and subjects are unique, no binding is over the cap and none dangles. *)
Definition store_ok (db : PolicyTables) : Prop :=
  NoDup (set_names db) ∧ NoDup (subjects db) ∧
  ∀ b, b ∈ policy_binding db → binding_ok db b.

Lemma bump_ok db : store_ok db → store_ok (bump db).
Proof. done. Qed.

Lemma has_name_existsb name db :
  existsb (has_name name) (access_policy db) = true ↔ name ∈ set_names db.
Proof.
  rewrite existsb_In. unfold has_name, set_names. rewrite list_elem_of_fmap.
  setoid_rewrite bool_decide_eq_true. naive_solver.
Qed.

Lemma create_row_ok doc by_ db : store_ok db → store_ok (create_row doc by_ db).1.
Proof.
  intros (Hn & Hs & Hb). unfold create_row.
  destruct (existsb (has_name (pd_name doc)) (access_policy db)) eqn:E; [done|].
  assert (Hni : pd_name doc ∉ set_names db)
    by (rewrite <- has_name_existsb, E; done).
  unfold store_ok, set_names; simpl. rewrite map_app; simpl. split_and!; [|done|].
  - apply NoDup_app. split_and!; [done| |apply NoDup_singleton].
    intros x Hx ->%list_elem_of_singleton. done.
  - intros b Hin. destruct (Hb b Hin) as (?&?&Hall). split_and!; [done|done|].
    intros n Hnn. unfold set_names; simpl. rewrite map_app. apply elem_of_app. left. auto.
Qed.

Lemma cas_names name doc v by_ db : set_names (cas_row name doc v by_ db).1 = set_names db.
Proof.
  unfold set_names, cas_row; simpl. rewrite map_map. apply map_ext. intros r.
  unfold update_row. by destruct (_ && _).
Qed.

Lemma cas_row_ok name doc v by_ db : store_ok db → store_ok (cas_row name doc v by_ db).1.
Proof.
  intros (Hn & Hs & Hb). unfold store_ok, binding_ok. rewrite cas_names. done.
Qed.

Lemma delete_rows_ok name db :
  store_ok db → (∀ b, b ∈ policy_binding db → name ∉ pb_policyNames b) →
  store_ok (delete_rows name db).
Proof.
  intros (Hn & Hs & Hb) Hno. unfold store_ok, binding_ok, set_names in *; simpl.
  split_and!; [|done|].
  - by apply NoDup_map_bfilter.
  - intros b Hin. destruct (Hb b Hin) as (?&?&Hall). split_and!; [done|done|].
    intros n Hn'. destruct (proj1 (list_elem_of_fmap _ _ _) (Hall n Hn')) as (r & -> & Hr).
    apply list_elem_of_fmap. exists r. split; [done|].
    apply elem_of_bfilter. split; [done|]. apply bool_decide_neg_true.
    intros Heq. apply (Hno b Hin). congruence.
Qed.

(** Changing the names of one subject's binding. *)
Definition map_binding (subject : string) (f : list string → list string)
    (db : PolicyTables) : PolicyTables :=
  set_binding db
    (map (λ b, if has_subject subject b
               then {| pb_subject := pb_subject b; pb_policyNames := f (pb_policyNames b) |}
               else b) (policy_binding db)).

Lemma map_binding_ok subject f db :
  store_ok db →
  (∀ b, b ∈ policy_binding db → pb_subject b = subject → binding_ok db b →
        binding_ok db {| pb_subject := subject; pb_policyNames := f (pb_policyNames b) |}) →
  store_ok (map_binding subject f db).
Proof.
  intros (Hn & Hs & Hb) Hf. unfold store_ok, subjects; simpl. split_and!; [done| |].
  - rewrite map_map. replace (map _ (policy_binding db)) with (subjects db); [done|].
    apply map_ext. intros b. by destruct (has_subject subject b).
  - intros b' (b & -> & Hin)%list_elem_of_fmap. specialize (Hb b Hin).
    destruct (has_subject subject b) eqn:E; [|done].
    apply bool_decide_eq_true in E. rewrite E. by apply Hf.
Qed.

Lemma append_name_ok subject name db :
  store_ok db → name ∈ set_names db →
  (∀ b, b ∈ policy_binding db → pb_subject b = subject →
        (name ∉ pb_policyNames b) ∧ length (pb_policyNames b) < MAX_SETS_PER_KEY) →
  store_ok (append_name subject name db).
Proof.
  intros Hok Hname Hb. apply (map_binding_ok subject (λ l, app l [name])); [done|].
  intros b Hin Heq (Hnd & Hle & Hall). destruct (Hb b Hin Heq) as [Hni Hlt].
  split_and!; simpl.
  - apply NoDup_app. split_and!; [done| |apply NoDup_singleton].
    intros x Hx ->%list_elem_of_singleton. done.
  - rewrite length_app; simpl. lia.
  - intros n [?| ->%list_elem_of_singleton]%elem_of_app; auto.
Qed.

Lemma remove_name_ok subject name db : store_ok db → store_ok (remove_name subject name db).
Proof.
  intros Hok.
  apply (map_binding_ok subject (List.filter (λ n, negb (bool_decide (n = name))))); [done|].
  intros b Hin Heq (Hnd & Hle & Hall). split_and!; simpl.
  - by apply NoDup_bfilter.
  - etrans; [apply filter_length_le_b|done].
  - intros n [? _]%elem_of_bfilter. auto.
Qed.

Lemma drop_empty_ok subject db : store_ok db → store_ok (drop_empty subject db).
Proof.
  intros (Hn & Hs & Hb). unfold store_ok, subjects in *; simpl. split_and!; [done| |].
  - by apply NoDup_map_bfilter.
  - intros b [Hin _]%elem_of_bfilter. by apply Hb.
Qed.

Lemma create_binding_ok subject name db :
  store_ok db → name ∈ set_names db → store_ok (create_binding subject name db).1.
Proof.
  intros (Hn & Hs & Hb) Hname. unfold create_binding.
  destruct (existsb (has_subject subject) (policy_binding db)) eqn:E; [done|].
  unfold store_ok, subjects; simpl. rewrite map_app; simpl. split_and!; [done| |].
  - apply NoDup_app. split_and!; [done| |apply NoDup_singleton].
    intros x Hx ->%list_elem_of_singleton. apply list_elem_of_fmap in Hx as (b & Heq & Hin).
    rewrite existsb_false_In in E. specialize (E b Hin). unfold has_subject in E.
    by apply bool_decide_eq_false in E.
  - intros b [Hin| ->%list_elem_of_singleton]%elem_of_app; [by apply Hb|].
    split_and!; simpl; [apply NoDup_singleton|unfold MAX_SETS_PER_KEY; lia|].
    by intros n ->%list_elem_of_singleton.
Qed.

#[export] Hint Resolve bump_ok create_row_ok cas_row_ok remove_name_ok drop_empty_ok : brain.

(** ** Reads *)

Lemma attach_one_get subject acc name n s :
  s ∈ default [] (OMap.get n (attach_one subject acc name)) ↔
  s ∈ default [] (OMap.get n acc) ∨ (s = subject ∧ n = name).
Proof.
  unfold attach_one. rewrite OMap.get_set. case_bool_decide as E; simpl.
  - subst. rewrite elem_of_app, list_elem_of_singleton. naive_solver.
  - naive_solver.
Qed.

Lemma attach_names_get subject names acc n s :
  s ∈ default [] (OMap.get n (fold_left (attach_one subject) names acc)) ↔
  s ∈ default [] (OMap.get n acc) ∨ (s = subject ∧ n ∈ names).
Proof.
  revert acc. induction names as [|x names IH]; intros acc; simpl.
  { rewrite elem_of_nil. naive_solver. }
  rewrite IH, attach_one_get, elem_of_cons. naive_solver.
Qed.

Lemma attachedBy_spec bindings n s :
  s ∈ default [] (OMap.get n (attachedBy bindings)) ↔
  ∃ b, b ∈ bindings ∧ pb_subject b = s ∧ n ∈ pb_policyNames b.
Proof.
  unfold attachedBy.
  assert (H : ∀ acc, s ∈ default [] (OMap.get n (fold_left
      (λ acc b, fold_left (attach_one (pb_subject b)) (pb_policyNames b) acc) bindings acc)) ↔
    s ∈ default [] (OMap.get n acc) ∨ ∃ b, b ∈ bindings ∧ pb_subject b = s ∧ n ∈ pb_policyNames b).
  { induction bindings as [|b l IH]; intros acc; simpl.
    - setoid_rewrite elem_of_nil. naive_solver.
    - rewrite IH, attach_names_get. setoid_rewrite elem_of_cons. naive_solver. }
  rewrite H. simpl. rewrite elem_of_nil. naive_solver.
Qed.

Lemma run_get_set name t :
  (run (get_set name) t).1 = t ∧
  match (run (get_set name) t).2 with
  | Ok found => ss_name found = name ∧ name ∈ set_names (tn_db t) ∧
      ∀ b, b ∈ policy_binding (tn_db t) → name ∈ pb_policyNames b →
           pb_subject b ∈ ss_attachedSubjects found
  | Throw e => (name ∉ set_names (tn_db t)) ∧ ∃ m, e = NotFound m
  end.
Proof.
  unfold get_set, list_sets. cbn [run pbind query select]. split; [done|].
  destruct (find_first _ _) as [found|] eqn:E; simpl.
  - apply find_first_Some in E as [Hin Heq%bool_decide_eq_true]. subst name.
    apply list_elem_of_fmap in Hin as (r & -> & Hr). simpl.
    rewrite merge_sort_Permutation in Hr. split_and!; [done| |].
    + apply list_elem_of_fmap. eauto.
    + intros b Hb Hn. apply attachedBy_spec. eauto.
  - split; [|by eauto]. apply find_first_None in E. rewrite existsb_false_In in E.
    intros (r & -> & Hr)%list_elem_of_fmap.
    assert (Hr' : r ∈ merge_sort name_le (access_policy (tn_db t)))
      by by rewrite merge_sort_Permutation.
    specialize (E (mapRow (attachedBy (policy_binding (tn_db t))) r)).
    rewrite bool_decide_eq_false in E. apply E; [|done].
    apply list_elem_of_fmap. eauto.
Qed.

(** ** One request at a time *)

(** What a run of attachment statements keeps. *)
Definition same_sets (t t' : Tenant) : Prop :=
  access_policy (tn_db t') = access_policy (tn_db t) ∧
  policy_meta_version (tn_db t') = policy_meta_version (tn_db t).

Lemma subject_rows subject db :
  store_ok db →
  match List.filter (has_subject subject) (policy_binding db) with
  | [] => True
  | r :: _ => ∀ b, b ∈ policy_binding db → pb_subject b = subject → b = r
  end.
Proof.
  intros (_ & Hs & _). destruct (List.filter _ _) as [|r l] eqn:E; [done|].
  intros b Hb Heq.
  assert (Hr : r ∈ List.filter (has_subject subject) (policy_binding db))
    by (rewrite E; by constructor).
  apply elem_of_bfilter in Hr as [Hr Hrs%bool_decide_eq_true]. clear E.
  unfold subjects in Hs. induction (policy_binding db) as [|x xs IH];
    [by apply elem_of_nil in Hb|].
  simpl in Hs. apply NoDup_cons in Hs as [Hx Hxs].
  apply elem_of_cons in Hb as [-> | Hb], Hr as [-> | Hr]; [done| | |by apply IH].
  - destruct Hx. apply list_elem_of_fmap. exists r. by rewrite Heq, Hrs.
  - destruct Hx. apply list_elem_of_fmap. exists b. by rewrite Heq, Hrs.
Qed.

Lemma run_attach_subject name subject t :
  store_ok (tn_db t) → name ∈ set_names (tn_db t) →
  store_ok (tn_db (run (attach_subject name subject) t).1) ∧
  same_sets t (run (attach_subject name subject) t).1.
Proof.
  intros Hok Hname. unfold attach_subject. cbn [run pbind query select].
  pose proof (subject_rows subject (tn_db t) Hok) as Hrows.
  destruct (List.filter (has_subject subject) (policy_binding (tn_db t))) as [|r l] eqn:E.
  - rewrite bool_decide_eq_false_2 by apply not_elem_of_nil. simpl.
    pose proof (create_binding_ok subject name (tn_db t) Hok Hname) as Hc.
    unfold create_binding in *.
    by destruct (existsb (has_subject subject) (policy_binding (tn_db t))).
  - case_bool_decide as Hin; [done|].
    destruct (Nat.leb_spec MAX_SETS_PER_KEY (length (pb_policyNames r))); [done|].
    simpl. split; [|done]. apply append_name_ok; [done|done|].
    intros b Hb Hs. rewrite (Hrows b Hb Hs). done.
Qed.

Lemma run_attach_all name ss t :
  store_ok (tn_db t) → name ∈ set_names (tn_db t) →
  store_ok (tn_db (run (attach_all name ss) t).1) ∧ same_sets t (run (attach_all name ss) t).1.
Proof.
  revert t. induction ss as [|s ss IH]; intros t Hok Hname; [done|].
  cbn [attach_all]. rewrite run_ebind.
  destruct (run_attach_subject name s t Hok Hname) as [Hok' [Hsame Hv]].
  destruct (run (attach_subject name s) t) as [t' r]; cbn [fst snd] in *.
  destruct r as [[]|e]; [|done].
  destruct (IH t') as [? [??]]; [done| |].
  { unfold set_names in *. by rewrite Hsame. }
  split; [done|]. split; congruence.
Qed.

Lemma run_detach_all name ss t :
  store_ok (tn_db t) →
  store_ok (tn_db (run (detach_all name ss) t).1) ∧ same_sets t (run (detach_all name ss) t).1.
Proof.
  revert t. induction ss as [|s ss IH]; intros t Hok; [done|].
  cbn [detach_all write exec pbind run].
  match goal with |- context [run (detach_all name ss) ?t'] =>
    destruct (IH t') as [? [H1 H2]]; [simpl; auto with brain|] end.
  split; [done|]. by split; [rewrite H1|rewrite H2].
Qed.

Section requests.
Variable json_length : PolicyDocument → nat.

Inductive store_op : Type :=
| OpCreate (body : PolicyDocument) (updatedBy : string)
| OpUpdate (name : string) (body : PolicyDocument) (expected : nat) (updatedBy : string)
| OpRemove (name : string)
| OpAttach (name : string) (attach detach : list string).

(** The tenant after the request, and whether it succeeded. *)
Definition run_op (o : store_op) (t : Tenant) : Tenant * bool :=
  match o with
  | OpCreate b u => let '(t', r) := run (create json_length b u) t in (t', is_ok r)
  | OpUpdate n b v u => let '(t', r) := run (update_set json_length n b v u) t in (t', is_ok r)
  | OpRemove n => let '(t', r) := run (remove n) t in (t', is_ok r)
  | OpAttach n a d => let '(t', r) := run (updateAttachments n a d) t in (t', is_ok r)
  end.

(** What a request leaves: well-formed tables, and, when it succeeds, a higher
    version and no cached snapshot. *)
Definition committed (t : Tenant) (out : Tenant * bool) : Prop :=
  store_ok (tn_db out.1) ∧
  (out.2 = true → policy_meta_version (tn_db t) < policy_meta_version (tn_db out.1) ∧
                  tn_cache out.1 = None).

Lemma committed_pair {A} t (p : Tenant * result http_exn A) :
  committed t (p.1, is_ok p.2) → committed t (let '(t', r) := p in (t', is_ok r)).
Proof. by destruct p. Qed.

Lemma create_committed body by_ t :
  store_ok (tn_db t) → committed t (run_op (OpCreate body by_) t).
Proof.
  intros Hok. apply committed_pair. unfold create.
  destruct (parseDocument json_length body) as [doc|e]; [|done].
  rewrite run_bind, run_update.
  pose proof (create_row_ok doc by_ (tn_db t) Hok) as Hc.
  destruct (create_row doc by_ (tn_db t)) as [db ok] eqn:E. cbn [fst snd] in *.
  unfold write. rewrite run_bind, run_exec. cbn [fst snd].
  destruct ok; [|done]. unfold invalidate. rewrite run_bind, run_exec. cbn [fst snd].
  match goal with |- context [run (get_set ?n) ?t'] =>
    destruct (run_get_set n t') as [-> _] end.
  split; [done|]. intros _. split; [|done]. simpl.
  unfold create_row in E. destruct (existsb _ _); simplify_eq; simpl; lia.
Qed.

Lemma update_committed name body v by_ t :
  store_ok (tn_db t) → committed t (run_op (OpUpdate name body v by_) t).
Proof.
  intros Hok. apply committed_pair. unfold update_set.
  destruct (parseDocument json_length body) as [doc|e]; [|done].
  destruct (negb (bool_decide (pd_name doc = name))); [done|].
  rewrite run_ebind. destruct (run_get_set name t) as [-> Hget].
  destruct (run (get_set name) t).2 as [found|e]; [|done].
  destruct (negb (ss_version found =? v)); [done|].
  rewrite run_bind, run_update.
  pose proof (cas_row_ok name doc v by_ (tn_db t) Hok) as Hc.
  destruct (cas_row name doc v by_ (tn_db t)) as [db n] eqn:E. cbn [fst snd] in *.
  unfold write. rewrite run_bind, run_exec. cbn [fst snd].
  destruct (n =? 0); [done|]. unfold invalidate. rewrite run_bind, run_exec. cbn [fst snd].
  match goal with |- context [run (get_set ?n) ?t'] =>
    destruct (run_get_set n t') as [-> _] end.
  split; [done|]. intros _. split; [|done].
  unfold cas_row in E. simplify_eq. simpl. lia.
Qed.

Lemma remove_committed name t :
  store_ok (tn_db t) → committed t (run_op (OpRemove name) t).
Proof.
  intros Hok. apply committed_pair. unfold remove.
  rewrite run_ebind. destruct (run_get_set name t) as [-> Hget].
  destruct (run (get_set name) t).2 as [found|e]; [|done].
  destruct Hget as (Hn & Hin & Hatt).
  destruct (Nat.ltb_spec 0 (length (ss_attachedSubjects found))) as [|Hz]; [done|].
  cbn [write invalidate exec pbind run fst snd].
  split; [|simpl; split; [lia|done]]. apply bump_ok, delete_rows_ok; [done|].
  intros b Hb Hnb. specialize (Hatt b Hb Hnb).
  destruct (ss_attachedSubjects found); [by apply elem_of_nil in Hatt|simpl in Hz; lia].
Qed.

Lemma attach_committed name a d t :
  store_ok (tn_db t) → committed t (run_op (OpAttach name a d) t).
Proof.
  intros Hok. apply committed_pair. unfold updateAttachments.
  rewrite run_ebind. destruct (run_get_set name t) as [-> Hget].
  destruct (run (get_set name) t).2 as [found|e]; [|done].
  destruct Hget as (Hn & Hin & Hatt).
  destruct (find_first _ _); [done|].
  rewrite run_ebind. destruct (run_attach_all name a t Hok Hin) as (Hok1 & Hs1 & Hv1).
  destruct (run (attach_all name a) t) as [t1 r1]; cbn [fst snd] in *.
  destruct r1; [|done].
  rewrite run_bind. destruct (run_detach_all name d t1 Hok1) as (Hok2 & Hs2 & Hv2).
  destruct (run (detach_all name d) t1) as [t2 r2]; cbn [fst snd] in *.
  unfold write, invalidate. rewrite run_bind, run_exec. cbn [fst snd].
  rewrite run_bind, run_exec. cbn [fst snd].
  match goal with |- context [run (get_set ?n) ?t'] =>
    destruct (run_get_set n t') as [-> _] end.
  split; [by apply bump_ok|]. intros _. split; [|done]. simpl. lia.
Qed.

(** Requests served one at a time keep the tables well formed: set names
    and binding subjects unique, no binding above the cap, and no binding that
    names a missing set; and a request that succeeds has moved the coherence
    version and dropped the cached snapshot. *)
Theorem requests_keep_tables_ok o t :
  store_ok (tn_db t) → committed t (run_op o t).
Proof.
  destruct o; [apply create_committed|apply update_committed|
    apply remove_committed|apply attach_committed].
Qed.
End requests.

(** ** The store and the resolver together *)

Lemma known_names now rows acc n :
  n ∈ (fold_left (load_policy now) rows acc).2 ↔ n ∈ acc.2 ∨ n ∈ map ap_name rows.
Proof.
  revert acc. induction rows as [|r rows IH]; intros acc; simpl.
  { rewrite elem_of_nil. naive_solver. }
  rewrite IH. simpl. rewrite elem_of_add_new, elem_of_cons. naive_solver.
Qed.

Lemma loaded_bindings rows acc s names :
  OMap.get s (fold_left load_binding rows acc) = Some names →
  OMap.get s acc = Some names ∨ ∃ b, b ∈ rows ∧ pb_policyNames b = names.
Proof.
  revert acc. induction rows as [|r rows IH]; intros acc; simpl; [by left|].
  intros H. destruct (IH _ H) as [H'|(b & Hb & Heq)].
  - unfold load_binding in H'. rewrite OMap.get_set in H'. case_bool_decide; [|by left].
    simplify_eq. right. exists r. split; [by constructor|done].
  - right. exists b. split; [by constructor|done].
Qed.

(** The snapshot a load gives when nothing interrupts it. *)
Definition fresh_snapshot (db : PolicyTables) (now : Z) : TenantPolicySnapshot :=
  (run loadFresh db).2 now.

Lemma fresh_eq db now :
  fresh_snapshot db now =
  buildSnapshot now (readPolicyVersion db) (access_policy db) (policy_binding db).
Proof. done. Qed.

Lemma fresh_known db now n : n ∈ sn_knownNames (fresh_snapshot db now) ↔ n ∈ set_names db.
Proof.
  rewrite fresh_eq. unfold buildSnapshot.
  pose proof (known_names now (access_policy db) ([], []) n) as H.
  destruct (fold_left (load_policy now) (access_policy db) ([], [])) as [sets known].
  simpl in *. rewrite H, elem_of_nil. naive_solver.
Qed.

Lemma fresh_bindings db now s n :
  n ∈ default [] (OMap.get s (sn_bindings (fresh_snapshot db now))) →
  ∃ b, b ∈ policy_binding db ∧ n ∈ pb_policyNames b.
Proof.
  rewrite fresh_eq. unfold buildSnapshot.
  destruct (fold_left (load_policy now) (access_policy db) ([], [])) as [sets known]. simpl.
  destruct (OMap.get s _) as [names|] eqn:E; simpl; [|by intros ?%elem_of_nil].
  intros Hn. apply loaded_bindings in E as [E|(b & Hb & <-)]; [done|eauto].
Qed.

Lemma bound_names_exist db now su n :
  store_ok db → su_claimNames su = [] →
  n ∈ subject_names (fresh_snapshot db now) su → n ∈ set_names db.
Proof.
  intros (_ & _ & Hb) Hc Hn.
  assert (Hex : ∃ b, b ∈ policy_binding db ∧ n ∈ pb_policyNames b).
  { unfold subject_names in Hn. rewrite Hc, app_nil_r in Hn.
    rewrite !elem_of_app in Hn.
    destruct Hn as [Hn|[Hn|Hn]]; [by eapply fresh_bindings| |].
    - destruct (starts_with _ _); [by eapply fresh_bindings|by apply elem_of_nil in Hn].
    - destruct (su_actorId su) as [a|]; [|by apply elem_of_nil in Hn].
      case_bool_decide; [by apply elem_of_nil in Hn|by eapply fresh_bindings]. }
  destruct Hex as (b & Hin & Hnb). by apply (Hb b Hin).
Qed.

Lemma requests_run_ok jl ops t :
  store_ok (tn_db t) → store_ok (tn_db (fold_left (λ t o, (run_op jl o t).1) ops t)).
Proof.
  revert t. induction ops as [|o ops IH]; intros t Hok; simpl; [done|].
  apply IH. assert (committed t (run_op jl o t)) as [? _]; [|done].
  destruct o; [by apply create_committed|by apply update_committed|
    by apply remove_committed|by apply attach_committed].
Qed.

(** Served one at a time, the admin requests cannot produce a dangling
    reference: after any history from an empty tenant, a subject without
    claim-carried names never resolves an unknown set, so the fail-closed branch
    of the resolver is unreachable. *)
Theorem sequential_requests_never_dangle jl ops now frc co su ctx tr :
  su_claimNames su = [] →
  let t := fold_left (λ t o, (run_op jl o t).1) ops
             {| tn_db := empty_tables; tn_cache := None |} in
  contextFor true frc co (fresh_snapshot (tn_db t) now) su = (Some ctx, tr) →
  pc_resolutionError ctx = false.
Proof.
  intros Hc t E.
  assert (Hok : store_ok (tn_db t)).
  { apply requests_run_ok. split_and!; [constructor|constructor|].
    by intros b ?%elem_of_nil. }
  destruct (contextFor_Some _ _ _ _ _ _ E) as (_ & _ & ->).
  apply existsb_false_In. intros n Hn.
  destruct (push_names_spec (subject_names (fresh_snapshot (tn_db t) now) su) [] false)
    as (_&_&_&Hsub&_); [constructor|simpl; lia|].
  destruct (Hsub n Hn) as [H|H]; [by apply elem_of_nil in H|].
  apply bound_names_exist in H; [|done|done].
  unfold unresolved. destruct (OMap.get n _); [done|].
  by rewrite bool_decide_eq_true_2 by (by apply fresh_known).
Qed.

Definition jl0 : PolicyDocument → nat := λ _, 0.

Lemma requests_keep_tables_ok_witness :
  let t := {| tn_db := hr_tables; tn_cache := None |} in
  let t1 := {| tn_db := set_binding hr_tables []; tn_cache := None |} in
  committed t1 (run_op jl0 (OpAttach "hr-fence" ["key:k1"] []) t1) ∧
  (run_op jl0 (OpAttach "hr-fence" ["key:k1"] []) t1).2 = true.
Proof.
  intros t t1. split; [|vm_compute; reflexivity].
  apply (requests_keep_tables_ok jl0 (OpAttach "hr-fence" ["key:k1"] []) t1).
  split_and!.
  - apply NoDup_singleton.
  - constructor.
  - intros b Hb. by apply elem_of_nil in Hb.
Defined.

Lemma sequential_requests_never_dangle_witness :
  let ops := [OpCreate hr_document "admin"; OpAttach "hr-fence" ["key:k1"] [];
              OpRemove "hr-fence"] in
  let t := fold_left (λ t o, (run_op jl0 o t).1) ops
             {| tn_db := empty_tables; tn_cache := None |} in
  match contextFor true false "co" (fresh_snapshot (tn_db t) 15) k1 with
  | (Some ctx, _) => pc_resolutionError ctx = false ∧ length (pc_sets ctx) = 1
  | _ => False
  end.
Proof.
  intros ops t.
  destruct (contextFor true false "co" (fresh_snapshot (tn_db t) 15) k1) as [[ctx|] tr] eqn:E.
  - split.
    + exact (sequential_requests_never_dangle jl0 ops 15 false "co" k1 ctx tr eq_refl E).
    + destruct (contextFor_Some _ _ _ _ _ _ E) as (-> & _). vm_compute. reflexivity.
  - apply (f_equal (λ p, bool_decide (p.1 = None))) in E. vm_compute in E. discriminate.
Defined.

(** ** Requests that interleave *)

(** A request reduced to whether it succeeded. *)
Definition outcome {A} (p : call A) : prog Tenant bool :=
  do* r := p in Done (is_ok r).

(** The row an update with this expected version would replace. *)
Definition updatable (name : string) (v : nat) (t : Tenant) : Prop :=
  ∃ r, r ∈ access_policy (tn_db t) ∧ has_name name r && (ap_version r =? v) = true.

Lemma cas_consumes name doc v by_ t :
  ¬ updatable name v (on_db (λ _, (cas_row name doc v by_ (tn_db t)).1) t).
Proof.
  intros (r' & Hin & Hm). simpl in Hin.
  apply list_elem_of_fmap in Hin as (r & -> & Hr). unfold update_row in Hm.
  destruct (has_name name r && (ap_version r =? v)) eqn:E; [|congruence].
  unfold has_name in Hm. simpl in Hm.
  apply andb_true_iff in Hm as [_ Hv%Nat.eqb_eq].
  apply andb_true_iff in E as [_ Hv'%Nat.eqb_eq]. lia.
Qed.

Lemma cas_count name doc v by_ t :
  (cas_row name doc v by_ (tn_db t)).2 ≠ 0 → updatable name v t.
Proof.
  unfold cas_row; simpl.
  destruct (List.filter _ _) as [|r l] eqn:E; simpl; [done|]. intros _.
  exists r. apply (elem_of_bfilter (λ r, has_name name r && (ap_version r =? v))).
  rewrite E. by constructor.
Qed.

Lemma get_set_wins name v P n :
  wins (updatable name v) P (outcome (get_set n)) true.
Proof. intros t. split; [done|]. left. intros t'. split; [done|]. by left. Qed.

Lemma update_wins jl name body v by_ :
  wins (updatable name v) (λ b : bool, b) (outcome (update_set jl name body v by_)) false.
Proof.
  unfold update_set. destruct (parseDocument jl body) as [doc|e]; [|done].
  destruct (negb (bool_decide (pd_name doc = name))); [done|].
  intros t. split; [done|]. left. intros t'. split; [done|]. left.
  cbn [pbind ebind query select list_sets get_set].
  destruct (find_first (λ s, bool_decide (ss_name s = name)) _) as [found|]; [|done].
  cbn [pbind ebind].
  destruct (negb (ss_version found =? v)); [done|].
  intros s. cbn [pbind update].
  pose proof (cas_consumes name doc v by_ s) as Hc.
  pose proof (cas_count name doc v by_ s) as Hn.
  destruct (cas_row name doc v by_ (tn_db s)) as [db n]. cbn [fst snd] in *.
  split; [done|]. destruct (Nat.eqb_spec n 0) as [->|Hne].
  - left. intros s1. split; [done|]. by left.
  - right. split_and!; [done|by apply Hn|done|].
    intros s1. split; [done|]. left. destruct (Nat.eqb_spec n 0); [done|].
    intros s2. split; [done|]. left. exact (get_set_wins name v (λ b, b) name).
Qed.

(** Optimistic concurrency: of any number of updates of one policy set that
    carry the same expected version, whatever their statements' interleaving, at
    most one succeeds. No accepted document is overwritten by a request that had
    not seen it. *)
Theorem concurrent_updates_one_wins jl name v changes sched t i j :
  let pool := map (λ c : PolicyDocument * string,
                     outcome (update_set jl name c.1 v c.2)) changes in
  (run_pool sched (t, pool)).2 !! i = Some (Done true) →
  (run_pool sched (t, pool)).2 !! j = Some (Done true) → i = j.
Proof.
  intros pool Hi Hj.
  apply (at_most_one (updatable name v) (λ b : bool, b) sched (t, pool) i j true true);
    [|done|done|done|done].
  apply Forall_forall. intros p (c & -> & _)%list_elem_of_fmap. apply update_wins.
Qed.

Definition hr_tenant : Tenant := {| tn_db := set_binding hr_tables []; tn_cache := None |}.

Lemma concurrent_updates_one_wins_witness :
  let pool := map (λ c : PolicyDocument * string,
                     outcome (update_set jl0 "hr-fence" c.1 1 c.2))
                  [(hr_document, "alice"); (hr_document, "bob")] in
  let sched := [0; 1; 0; 1; 0; 1; 1; 1; 0; 0; 0; 0] in
  (run_pool sched (hr_tenant, pool)).2 !! 0 = Some (Done true) ∧
  ∀ j, (run_pool sched (hr_tenant, pool)).2 !! j = Some (Done true) → 0 = j.
Proof.
  intros pool sched.
  assert (H0 : (run_pool sched (hr_tenant, pool)).2 !! 0 = Some (Done true))
    by (vm_compute; reflexivity).
  split; [exact H0|]. intros j Hj.
  exact (concurrent_updates_one_wins jl0 "hr-fence" 1
           [(hr_document, "alice"); (hr_document, "bob")] sched hr_tenant 0 j H0 Hj).
Defined.

(** One at a time is needed: a detach-free removal that has already read
    "not attached" and an attachment that runs to its end before the removal's
    delete both succeed, and leave the subject bound to a set that is gone; from
    then on the resolver denies that subject every action. *)
Theorem remove_races_attach :
  let pool := [outcome (remove "hr-fence");
               outcome (updateAttachments "hr-fence" ["key:k1"] [])] in
  let sched := [0; 0; 1; 1; 1; 1; 1; 1; 1; 1; 0; 0; 0] in
  let c := run_pool sched (hr_tenant, pool) in
  store_ok (tn_db hr_tenant) ∧
  c.2 = [Done true; Done true] ∧
  ¬ store_ok (tn_db c.1) ∧
  ∀ action kind, ∃ ctx,
    (contextFor true false "co" (fresh_snapshot (tn_db c.1) 15) k1).1 = Some ctx ∧
    pe_decision (evaluateAction ctx action kind) = DDeny.
Proof.
  intros pool sched c. split.
  { split_and!; [apply NoDup_singleton|constructor|by intros b ?%elem_of_nil]. }
  split; [vm_compute; reflexivity|]. split.
  - intros (_ & _ & Hb).
    destruct (Hb {| pb_subject := "key:k1"; pb_policyNames := ["hr-fence"] |}) as (_&_&H).
    + vm_compute. constructor.
    + specialize (H "hr-fence"). vm_compute in H.
      apply elem_of_nil in H; [done|constructor].
  - intros action kind. eexists. split; [vm_compute; reflexivity|].
    apply combine_deny_iff. eexists. split; [by left|]. done.
Qed.

(** A tenant with nine sets, whose subject [key:k2] carries eight of them. *)
Definition named_row (name : string) : AccessPolicyRow :=
  {| ap_name := name; ap_mode := Enforce;
     ap_document := {| pd_name := name; pd_posture_actions := EAllow;
                       pd_posture_reads := EAllow; pd_mode := Enforce;
                       pd_activeFrom := None; pd_activeUntil := None; pd_rules := [] |};
     ap_version := 1; ap_updatedBy := "admin" |}.

Definition eight_names : list string := ["a1"; "b1"; "c1"; "d1"; "e1"; "f1"; "g1"; "h1"].

Definition full_tables : PolicyTables :=
  {| access_policy := app (access_policy hr_tables) (map named_row eight_names);
     policy_binding := [ {| pb_subject := "key:k2"; pb_policyNames := eight_names |} ];
     policy_meta_version := 10 |}.

Definition full_tenant : Tenant :=
  {| tn_db := full_tables; tn_cache := Some (fresh_snapshot full_tables 15) |}.

(** A batch that fails half way: attaching a deny set to two subjects, the
    second of which is at the cap, answers 400 after the first binding was
    written, without moving the version and without dropping the cache; the
    coherence check then keeps trusting the snapshot that lacks the binding. *)
Theorem partial_attachment_is_invisible now now' :
  let out := run (updateAttachments "hr-fence" ["key:k1"; "key:k2"] []) full_tenant in
  store_ok (tn_db full_tenant) ∧ is_ok out.2 = false ∧
  {| pb_subject := "key:k1"; pb_policyNames := ["hr-fence"] |} ∈ policy_binding (tn_db out.1) ∧
  policy_meta_version (tn_db out.1) = policy_meta_version (tn_db full_tenant) ∧
  ∃ cached, tn_cache out.1 = Some cached ∧
    (stillCurrent now now' cached (Some (policy_meta_version (tn_db out.1)))).1 = true ∧
    (contextFor true false "co" cached k1).1 = None ∧
    (contextFor true false "co" (fresh_snapshot (tn_db out.1) 15) k1).1 ≠ None.
Proof.
  intros out. split.
  { split_and!; [apply (bool_decide_eq_true_1 _); vm_compute; reflexivity|
      apply NoDup_singleton|].
    intros b ->%list_elem_of_singleton. split_and!;
      [apply (bool_decide_eq_true_1 _); vm_compute; reflexivity|by apply Nat.leb_le|].
    intros n Hn. unfold set_names, full_tenant, full_tables; simpl in *. set_solver. }
  split; [vm_compute; reflexivity|]. split; [vm_compute; right; left|].
  split; [vm_compute; reflexivity|]. eexists. split; [vm_compute; reflexivity|].
  split; [|split; [vm_compute; reflexivity|]].
  - unfold stillCurrent. destruct (_ <? _)%Z; [done|]. vm_compute. reflexivity.
  - intros H. apply (f_equal (λ o, bool_decide (o = None))) in H. vm_compute in H. discriminate.
Qed.
