(* ===== verification/PolicyGate.v ===== *)
(** * The action gate and the decision sink

    [policy/policy-gate.service.ts]: the guard in front of every route and tool,
    its telemetry, and the recorder of row summaries.
    [policy/policy-decision.sink.ts]: the bounded buffer behind the telemetry,
    with its asynchronous flush. *)

From S2P Require Import Prelude Js Regex PolicyTypes PolicyEngine PolicySpec PolicyRows.
Local Open Scope string_scope.
Local Open Scope nat_scope.

(** ** The gate *)

Inductive DecisionKind : Type := KAction | KRow.

Record PolicyDecisionRow := {
  dr_keyHash : string;
  dr_kind : DecisionKind;
  dr_decision : PolicyDecision;
  dr_mode : PolicyMode;
  dr_action : string;
  dr_policySet : option string;
  dr_ruleId : option string;
  dr_requestId : option string;
  dr_rowCounts : option (nat * nat);
  dr_sampleFactIds : list string;
  dr_samplePredicates : list string;
  dr_sampled : bool
}.

(** What a call emits: [metrics.countPolicyDecision] and [sink.record]. *)
Inductive gate_event : Type :=
| Count (d : PolicyDecision) (k : DecisionKind) (m : PolicyMode)
| Record (company : string) (row : PolicyDecisionRow).

(** The body of the 403. *)
Record policy_denied := {
  de_action : string;
  de_policySet : option string;
  de_ruleId : option string
}.

Definition POLICY_ACTION_EXEMPT : string := "@exempt".

Definition allow_row (ctx : PolicyContext) (k : DecisionKind) (action : string)
    (requestId : option string) (counts : option (nat * nat)) : PolicyDecisionRow :=
  {| dr_keyHash := pc_keyHash ctx; dr_kind := k; dr_decision := DAllow; dr_mode := Enforce;
     dr_action := action; dr_policySet := None; dr_ruleId := None;
     dr_requestId := requestId; dr_rowCounts := counts; dr_sampleFactIds := [];
     dr_samplePredicates := []; dr_sampled := true |}.

Definition deny_events (ctx : PolicyContext) (action : string) (requestId : option string)
    (overall : PolicyDecision) (v : SetVerdict) : list gate_event :=
  let enforced := bool_decide (sv_mode v = Enforce) && negb (pc_forceReportOnly ctx) &&
                  bool_decide (overall = DDeny) in
  let decision := if enforced then DDeny else DWouldDeny in
  [ Count decision KAction (sv_mode v);
    Record (pc_companyId ctx)
      {| dr_keyHash := pc_keyHash ctx; dr_kind := KAction; dr_decision := decision;
         dr_mode := sv_mode v; dr_action := action;
         dr_policySet := Some (sv_policySet v); dr_ruleId := sv_ruleId v;
         dr_requestId := requestId; dr_rowCounts := None; dr_sampleFactIds := [];
         dr_samplePredicates := []; dr_sampled := false |} ].

(** [sampled] is the outcome of [Math.random() < this.sampleRate]. *)
Definition enforce (ctx : PolicyContext) (action : string) (kind : option ActionKind)
    (requestId : option string) (sampled : bool) :
    list gate_event * result policy_denied unit :=
  let evaluation := evaluateAction ctx action kind in
  let denies := List.filter (λ v, bool_decide (sv_verdict v = EDeny)) (pe_verdicts evaluation) in
  let events :=
    app (flat_map (deny_events ctx action requestId (pe_decision evaluation)) denies)
      (if bool_decide (denies = [])
       then Count DAllow KAction Enforce ::
            (if sampled
             then [Record (pc_companyId ctx) (allow_row ctx KAction action requestId None)]
             else [])
       else []) in
  (events,
   if bool_decide (pe_decision evaluation = DDeny)
   then Throw {| de_action := action;
                 de_policySet := sv_policySet <$> head denies;
                 de_ruleId := head denies ≫= sv_ruleId |}
   else Ok tt).

Definition enforceAction (ctx : PolicyContext) (action : string) (requestId : option string)
    (sampled : bool) : list gate_event * result policy_denied unit :=
  enforce ctx action (actionKind action) requestId sampled.

Definition enforceToolAction (ctx : PolicyContext) (action : string)
    (kind : option ActionKind) (sampled : bool) :
    list gate_event * result policy_denied unit :=
  enforce ctx action (match kind with Some k => Some k | None => actionKind action end)
    None sampled.

(** [gate]: [resolved] is what [resolver.contextFor] gave. *)
Definition gate (resolved : option PolicyContext) (action : string)
    (requestId : option string) (sampled : bool) :
    list gate_event * result policy_denied (option PolicyContext) :=
  match resolved with
  | None => ([], Ok None)
  | Some ctx =>
      if negb (bool_decide (action = POLICY_ACTION_EXEMPT))
      then let '(events, r) := enforceAction ctx action requestId sampled in
           (events, let* _ := r in Ok (Some ctx))
      else ([], Ok (Some ctx))
  end.

(** ** Row summaries *)

Definition row_events (ctx : PolicyContext) (requestId : option string)
    (sm : RowDecisionSummary) (s : SetStats) (dc : PolicyDecision * nat) : list gate_event :=
  if dc.2 =? 0 then []
  else [ Count dc.1 KRow (ss_mode s);
         Record (pc_companyId ctx)
           {| dr_keyHash := pc_keyHash ctx; dr_kind := KRow; dr_decision := dc.1;
              dr_mode := ss_mode s; dr_action := sm_surface sm;
              dr_policySet := Some (ss_policySet s); dr_ruleId := head (ss_ruleIds s);
              dr_requestId := requestId; dr_rowCounts := Some (sm_total sm, dc.2);
              dr_sampleFactIds := ss_sampleFactIds s;
              dr_samplePredicates := ss_samplePredicates s; dr_sampled := false |} ].

Definition set_events ctx requestId sm (s : SetStats) : list gate_event :=
  flat_map (row_events ctx requestId sm s)
    [(DDeny, ss_denied s); (DWouldDeny, ss_wouldDeny s)].

Definition recordRowSummary (ctx : PolicyContext) (sm : RowDecisionSummary)
    (requestId : option string) (sampled : bool) : list gate_event :=
  let anyDeny := existsb (λ s, negb (ss_denied s =? 0) || negb (ss_wouldDeny s =? 0))
                   (sm_perSet sm) in
  app (flat_map (set_events ctx requestId sm) (sm_perSet sm))
    (if negb anyDeny
     then Count DAllow KRow Enforce ::
          (if sampled
           then [Record (pc_companyId ctx)
                   (allow_row ctx KRow (sm_surface sm) requestId (Some (sm_total sm, 0)))]
           else [])
     else []).

(** ** What the gate guarantees *)

(** The decision rows an event list records. *)
Definition recorded (es : list gate_event) : list PolicyDecisionRow :=
  omap (λ e, match e with Record _ r => Some r | Count _ _ _ => None end) es.

Lemma recorded_app es1 es2 : recorded (app es1 es2) = app (recorded es1) (recorded es2).
Proof. apply omap_app. Qed.

Lemma recorded_denies ctx action rid d vs :
  recorded (flat_map (deny_events ctx action rid d) vs) =
  map (λ v, {| dr_keyHash := pc_keyHash ctx; dr_kind := KAction;
               dr_decision := if bool_decide (sv_mode v = Enforce) &&
                                 negb (pc_forceReportOnly ctx) && bool_decide (d = DDeny)
                              then DDeny else DWouldDeny;
               dr_mode := sv_mode v; dr_action := action;
               dr_policySet := Some (sv_policySet v); dr_ruleId := sv_ruleId v;
               dr_requestId := rid; dr_rowCounts := None; dr_sampleFactIds := [];
               dr_samplePredicates := []; dr_sampled := false |}) vs.
Proof. induction vs as [|v vs IH]; simpl; [done|]. by rewrite IH. Qed.

Lemma combine_verdicts ctx vs : pe_verdicts (combine ctx vs) = vs.
Proof. unfold combine. by destruct (fold_left _ vs _) as [??]. Qed.

(** The gate blocks exactly on an enforced deny, and tells the truth in its
    log: the route is refused iff some enforcing set denies the action and the
    kill switch is off; a decision row marked [deny] is written for exactly those
    sets, one marked [would_deny] for every other set that denies. *)
Theorem gate_blocks_exactly ctx action rid sampled :
  action ≠ POLICY_ACTION_EXEMPT →
  let out := gate (Some ctx) action rid sampled in
  let verdicts := pe_verdicts (evaluateAction ctx action (actionKind action)) in
  (is_ok out.2 = false ↔ ∃ v, v ∈ verdicts ∧ sv_verdict v = EDeny ∧
                              sv_mode v = Enforce ∧ pc_forceReportOnly ctx = false) ∧
  (∀ v, v ∈ verdicts → sv_verdict v = EDeny →
     ∃ r, r ∈ recorded out.1 ∧ dr_policySet r = Some (sv_policySet v) ∧
          dr_ruleId r = sv_ruleId v ∧
          dr_decision r = if enforced ctx v then DDeny else DWouldDeny) ∧
  (∀ r, r ∈ recorded out.1 → dr_decision r = DDeny →
     is_ok out.2 = false ∧
     ∃ v, v ∈ verdicts ∧ sv_verdict v = EDeny ∧ enforced ctx v = true ∧
          dr_policySet r = Some (sv_policySet v)).
Proof.
  intros Hex out verdicts. subst out. unfold gate, enforceAction, enforce.
  rewrite bool_decide_eq_false_2 by done. cbn [negb fst snd].
  set (ev := evaluateAction ctx action (actionKind action)) in *.
  assert (Hdec : pe_decision ev = DDeny ↔
    ∃ v, v ∈ verdicts ∧ sv_verdict v = EDeny ∧ enforced ctx v = true).
  { subst ev verdicts. unfold evaluateAction.
    rewrite combine_verdicts. apply combine_deny_iff. }
  assert (Hen : ∀ v, enforced ctx v = true ↔ sv_mode v = Enforce ∧ pc_forceReportOnly ctx = false).
  { intros v. unfold enforced.
    by rewrite andb_true_iff, bool_decide_eq_true, negb_true_iff. }
  assert (Hblock : is_ok (let* _ := if bool_decide (pe_decision ev = DDeny)
      then Throw {| de_action := action;
                    de_policySet := sv_policySet <$> head (List.filter
                      (λ v, bool_decide (sv_verdict v = EDeny)) (pe_verdicts ev));
                    de_ruleId := head (List.filter
                      (λ v, bool_decide (sv_verdict v = EDeny)) (pe_verdicts ev)) ≫= sv_ruleId |}
      else Ok () in Ok (Some ctx)) = false ↔ pe_decision ev = DDeny)
    by (case_bool_decide; simpl; naive_solver).
  rewrite recorded_app, recorded_denies.
  split; [rewrite Hblock, Hdec; setoid_rewrite Hen; naive_solver|]. split.
  - intros v Hv Hd. eexists. split.
    { apply elem_of_app. left. apply list_elem_of_fmap. exists v. split; [reflexivity|].
      apply elem_of_bfilter. by rewrite bool_decide_eq_true. }
    simpl. split_and!; [done|done|]. unfold enforced.
    destruct (bool_decide (sv_mode v = Enforce) && negb (pc_forceReportOnly ctx)) eqn:E;
      simpl; [|done].
    rewrite bool_decide_eq_true_2; [done|]. apply Hdec. eauto.
  - intros r Hr Hd. apply elem_of_app in Hr as [Hr|Hr].
    + apply list_elem_of_fmap in Hr as (v & -> & Hv). simpl in *.
      apply elem_of_bfilter in Hv as [Hv He%bool_decide_eq_true].
      destruct (bool_decide (sv_mode v = Enforce) && negb (pc_forceReportOnly ctx)) eqn:E;
        [|done].
      rewrite Hblock, Hdec. split; eauto.
    + case_bool_decide; [destruct sampled|]; simpl in Hr; try by apply elem_of_nil in Hr.
      apply list_elem_of_singleton in Hr. subst r. done.
Qed.

Definition report_document : PolicyDocument :=
  {| pd_name := "observe"; pd_posture_actions := EDeny; pd_posture_reads := EAllow;
     pd_mode := ReportOnly; pd_activeFrom := None; pd_activeUntil := None; pd_rules := [] |}.
Definition enforce_document : PolicyDocument :=
  {| pd_name := "locked"; pd_posture_actions := EDeny; pd_posture_reads := EAllow;
     pd_mode := Enforce; pd_activeFrom := None; pd_activeUntil := None; pd_rules := [] |}.

Lemma gate_blocks_exactly_witness :
  let ctx := contextOf "co" "k" false 15 [report_document; enforce_document] in
  let out := gate (Some ctx) "search_knowledge" None false in
  is_ok out.2 = false ∧ length (recorded out.1) = 2.
Proof.
  intros ctx out. split; [|vm_compute; reflexivity].
  apply (gate_blocks_exactly ctx "search_knowledge" None false);
    [vm_compute; discriminate|].
  exists {| sv_policySet := "locked"; sv_mode := Enforce; sv_verdict := EDeny;
            sv_ruleId := None |}.
  split; [vm_compute; right; left|]. split_and!; reflexivity.
Defined.

(** The 403 may name a set that did not refuse: with a reporting set ahead
    of an enforcing one, both denying, the body reports the reporting set, which
    blocks nothing on its own. *)
Theorem denial_may_name_a_reporting_set rid sampled :
  let ctx := contextOf "co" "k" false 15 [report_document; enforce_document] in
  (∃ d, (gate (Some ctx) "search_knowledge" rid sampled).2 = Throw d ∧
        de_policySet d = Some "observe") ∧
  is_ok (gate (Some (contextOf "co" "k" false 15 [report_document]))
           "search_knowledge" rid sampled).2 = true.
Proof. intros ctx. split; [eexists; split; reflexivity|reflexivity]. Qed.

(** ** The decision sink *)

Definition FLUSH_THRESHOLD : nat := 500.
Definition MAX_BUFFER : nat := 5000.

Section sink.
Context {R : Type}.

(** The sink's fields, the flush in progress (the tenants it still has to
    visit and the batch whose INSERT is awaited), and where rows end up. *)
Record PolicyDecisionSink := {
  sk_buffers : list (string * list R);
  sk_timer : bool;
  sk_flushing : bool;
  sk_entries : list string;
  sk_inflight : list R;
  sk_written : list R;
  sk_lost : list R
}.

Definition sink_new : PolicyDecisionSink :=
  {| sk_buffers := []; sk_timer := false; sk_flushing := false; sk_entries := [];
     sk_inflight := []; sk_written := []; sk_lost := [] |}.

(** The body of the loop over the entries, up to the next await: the tenant's
    buffer is taken whole. *)
Definition flush_next (s : PolicyDecisionSink) : PolicyDecisionSink :=
  match sk_entries s with
  | [] =>
      {| sk_buffers := sk_buffers s; sk_timer := sk_timer s; sk_flushing := false;
         sk_entries := []; sk_inflight := []; sk_written := sk_written s;
         sk_lost := sk_lost s |}
  | c :: rest =>
      {| sk_buffers := OMap.set c [] (sk_buffers s); sk_timer := sk_timer s;
         sk_flushing := true; sk_entries := rest;
         sk_inflight := default [] (OMap.get c (sk_buffers s));
         sk_written := sk_written s; sk_lost := sk_lost s |}
  end.

Definition flushAll (s : PolicyDecisionSink) : PolicyDecisionSink :=
  if sk_flushing s then s
  else flush_next
    {| sk_buffers := sk_buffers s; sk_timer := sk_timer s; sk_flushing := true;
       sk_entries := map fst (List.filter (λ e, 0 <? length e.2) (sk_buffers s));
       sk_inflight := []; sk_written := sk_written s; sk_lost := sk_lost s |}.

(** The awaited INSERT settles. *)
Definition flush_settle (ok : bool) (s : PolicyDecisionSink) : PolicyDecisionSink :=
  if negb (sk_flushing s) then s
  else flush_next
    {| sk_buffers := sk_buffers s; sk_timer := sk_timer s; sk_flushing := true;
       sk_entries := sk_entries s; sk_inflight := [];
       sk_written := if ok then app (sk_written s) (sk_inflight s) else sk_written s;
       sk_lost := if ok then sk_lost s else app (sk_lost s) (sk_inflight s) |}.

Definition record (companyId : string) (row : R) (s : PolicyDecisionSink) :
    PolicyDecisionSink :=
  let buf := app (default [] (OMap.get companyId (sk_buffers s))) [row] in
  let excess := length buf - MAX_BUFFER in
  let s' :=
    {| sk_buffers := OMap.set companyId (drop excess buf) (sk_buffers s);
       sk_timer := sk_timer s; sk_flushing := sk_flushing s;
       sk_entries := sk_entries s; sk_inflight := sk_inflight s;
       sk_written := sk_written s; sk_lost := app (sk_lost s) (take excess buf) |} in
  if FLUSH_THRESHOLD <=? length (drop excess buf) then flushAll s'
  else {| sk_buffers := sk_buffers s'; sk_timer := true; sk_flushing := sk_flushing s';
          sk_entries := sk_entries s'; sk_inflight := sk_inflight s';
          sk_written := sk_written s'; sk_lost := sk_lost s' |}.

(** The timer fires. *)
Definition on_timer (s : PolicyDecisionSink) : PolicyDecisionSink :=
  if negb (sk_timer s) then s
  else flushAll
    {| sk_buffers := sk_buffers s; sk_timer := false; sk_flushing := sk_flushing s;
       sk_entries := sk_entries s; sk_inflight := sk_inflight s;
       sk_written := sk_written s; sk_lost := sk_lost s |}.

Inductive sink_event : Type :=
| EvRecord (companyId : string) (row : R)
| EvTimer
| EvSettle (ok : bool).

Definition sink_step (s : PolicyDecisionSink) (e : sink_event) : PolicyDecisionSink :=
  match e with
  | EvRecord c r => record c r s
  | EvTimer => on_timer s
  | EvSettle ok => flush_settle ok s
  end.

Definition events_rows (es : list sink_event) : list R :=
  omap (λ e, match e with EvRecord _ r => Some r | _ => None end) es.

(** ** Bounds and conservation *)

Definition buffered (s : PolicyDecisionSink) : list R := concat (OMap.vals (sk_buffers s)).

(** Every row is written, lost, in flight or buffered, once. *)
Definition accounted (s : PolicyDecisionSink) : list R :=
  app (sk_written s) (app (sk_lost s) (app (sk_inflight s) (buffered s))).

Definition sink_ok (s : PolicyDecisionSink) : Prop :=
  (∀ c b, OMap.get c (sk_buffers s) = Some b → length b ≤ MAX_BUFFER) ∧
  (sk_flushing s = false → sk_inflight s = []).

Lemma concat_vals_set (k : string) (v : list R) m :
  app (default [] (OMap.get k m)) (concat (OMap.vals (OMap.set k v m))) ≡ₚ
  app v (concat (OMap.vals m)).
Proof.
  pose proof (OMap.vals_set_perm (λ l : list R, l) k v m) as H.
  rewrite !flat_map_concat_map, !map_id in H. by destruct (OMap.get k m).
Qed.

Lemma flush_next_ok s :
  sk_inflight s = [] → sink_ok s →
  sink_ok (flush_next s) ∧ accounted (flush_next s) ≡ₚ accounted s.
Proof.
  intros Hi [Hb Hf]. unfold flush_next, accounted, buffered.
  destruct (sk_entries s) as [|c rest]; simpl; [by rewrite Hi|].
  split; [split; simpl; [|done]|].
  - intros c' b. rewrite OMap.get_set. case_bool_decide; [|apply Hb].
    intros; simplify_eq. simpl. lia.
  - rewrite concat_vals_set, Hi. done.
Qed.

Lemma flushAll_ok s :
  sink_ok s → sink_ok (flushAll s) ∧ accounted (flushAll s) ≡ₚ accounted s.
Proof.
  intros Hok. unfold flushAll. destruct (sk_flushing s) eqn:E; [done|].
  destruct Hok as [Hb Hf].
  match goal with |- sink_ok (flush_next ?x) ∧ _ =>
    destruct (flush_next_ok x eq_refl) as [? Ha]; [by split|] end.
  split; [done|]. rewrite Ha. unfold accounted, buffered; simpl. by rewrite Hf.
Qed.

Lemma flush_settle_ok ok s :
  sink_ok s → sink_ok (flush_settle ok s) ∧ accounted (flush_settle ok s) ≡ₚ accounted s.
Proof.
  intros Hok. unfold flush_settle. destruct (negb (sk_flushing s)); [done|].
  destruct Hok as [Hb Hf].
  match goal with |- sink_ok (flush_next ?x) ∧ _ =>
    destruct (flush_next_ok x eq_refl) as [? Ha]; [by split|] end.
  split; [done|]. rewrite Ha. unfold accounted, buffered; simpl.
  destruct ok; rewrite <- !app_assoc; [|done]. apply Permutation_app_head.
  apply Permutation_app_swap_app.
Qed.

Lemma record_ok c r s :
  sink_ok s → sink_ok (record c r s) ∧ accounted (record c r s) ≡ₚ r :: accounted s.
Proof.
  intros [Hb Hf]. unfold record.
  set (buf := app (default [] (OMap.get c (sk_buffers s))) [r]).
  set (n := length buf - MAX_BUFFER).
  set (s' := {| sk_lost := _ |}).
  assert (Hok : sink_ok s' ∧ accounted s' ≡ₚ r :: accounted s).
  { split; [split; simpl; [|done]|].
    - intros c' b. rewrite OMap.get_set. case_bool_decide; [|apply Hb].
      intros; simplify_eq. rewrite length_drop. lia.
    - unfold accounted, buffered, s'; simpl.
      pose proof (concat_vals_set c (drop n buf) (sk_buffers s)) as Hp.
      assert (Hd : app (take n buf) (concat (OMap.vals (OMap.set c (drop n buf) (sk_buffers s))))
                ≡ₚ r :: concat (OMap.vals (sk_buffers s))).
      { apply (Permutation_app_inv_l (default [] (OMap.get c (sk_buffers s)))).
        rewrite Permutation_app_swap_app, Hp, app_assoc, take_drop.
        subst buf. rewrite <- app_assoc. done. }
      rewrite <- app_assoc.
      rewrite (Permutation_app_swap_app (take n buf) (sk_inflight s)), Hd.
      rewrite <- Permutation_middle, <- Permutation_middle, <- Permutation_middle. done. }
  destruct (FLUSH_THRESHOLD <=? length (drop n buf)).
  - destruct (flushAll_ok s') as [? Ha]; [apply Hok|]. split; [done|].
    rewrite Ha. apply Hok.
  - exact Hok.
Qed.

Lemma sink_step_ok s e :
  sink_ok s →
  sink_ok (sink_step s e) ∧ accounted (sink_step s e) ≡ₚ app (accounted s) (events_rows [e]).
Proof.
  intros Hok. destruct e as [c r| |ok]; simpl; rewrite ?app_nil_r.
  - destruct (record_ok c r s Hok) as [? Ha]. split; [done|]. rewrite Ha.
    apply Permutation_cons_append.
  - unfold on_timer. destruct (negb (sk_timer s)); [done|].
    match goal with |- sink_ok (flushAll ?x) ∧ _ => apply (flushAll_ok x) end. done.
  - by apply flush_settle_ok.
Qed.

(** The decision buffer, under any interleaving of records, timer ticks
    and settling inserts: no tenant's buffer ever exceeds 5000 rows, and every
    recorded row is accounted for exactly once, as written, in flight,
    buffered, or lost (to the cap or to a failed insert). *)
Theorem sink_bounded_and_conserving (es : list sink_event) :
  let s := fold_left sink_step es sink_new in
  (∀ c b, OMap.get c (sk_buffers s) = Some b → length b ≤ MAX_BUFFER) ∧
  accounted s ≡ₚ events_rows es.
Proof.
  intros s.
  assert (H : ∀ s0, sink_ok s0 →
    sink_ok (fold_left sink_step es s0) ∧
    accounted (fold_left sink_step es s0) ≡ₚ app (accounted s0) (events_rows es)).
  { clear. induction es as [|e es IH]; intros s0 Hok; simpl; [by rewrite app_nil_r|].
    destruct (sink_step_ok s0 e Hok) as [Hok' Ha].
    destruct (IH _ Hok') as [? Hc]. split; [done|]. rewrite Hc, Ha.
    unfold events_rows. simpl.
    destruct e; simpl; rewrite ?app_nil_r; [by rewrite <- app_assoc|done|done]. }
  destruct (H sink_new) as [[Hb _] Ha]; [by split|]. by split.
Qed.
End sink.
