(* ===== verification/ScopeTags.v ===== *)
(** * Scope tags: who may read a row

    [auth/scope-tags.ts] (the tag grammar), [auth/circle-scope.ts] and
    [auth/write-scope.ts] (what the current work acts in), [auth/scope-principal.ts]
    and [auth/scope-visibility.ts] (what a reader holds, the evaluator and the SQL
    fence). The request and job contexts the sources read from are an explicit
    record. *)

From S2P Require Import Prelude Js Regex.
From Stdlib Require Import Ascii.
Local Open Scope string_scope.
Local Open Scope nat_scope.

(** ** The ambient contexts *)

Record Ambient := {
  am_authUserId : option string;                  (* request: the token's user *)
  am_actingCircle : option string;                (* request: the credential's circle *)
  am_scopeTags : list (string * list string);     (* request: the resolved expansions *)
  am_jobCircle : option (list string);            (* job: its re-entered circles *)
  am_writeScope : option (list string);           (* ingest: its declared scope *)
  am_scopeTagsEnabled : bool                      (* SCOPE_TAGS_ENABLED *)
}.

(** ** Circles *)

Definition CIRCLE_NAMESPACE : string := "circle".
Definition circleTag (circleId : string) : string := CIRCLE_NAMESPACE +:+ ":" +:+ circleId.
Definition isCircleTag (tag : string) : bool := starts_with (CIRCLE_NAMESPACE +:+ ":") tag.

(** A scope that may be absent. *)
Definition circleTagsOf (scope : option (list string)) : list string :=
  List.filter isCircleTag (default [] scope).

(** [runInCircle] and [runOutsideCircle]: the context the callback runs in. *)
Definition runOutsideCircle (am : Ambient) : Ambient :=
  {| am_authUserId := am_authUserId am; am_actingCircle := am_actingCircle am;
     am_scopeTags := am_scopeTags am; am_jobCircle := Some [];
     am_writeScope := am_writeScope am; am_scopeTagsEnabled := am_scopeTagsEnabled am |}.

Definition runInCircle (tags : list string) (am : Ambient) : Ambient :=
  let circles := List.filter isCircleTag tags in
  if bool_decide (circles = []) then am
  else {| am_authUserId := am_authUserId am; am_actingCircle := am_actingCircle am;
          am_scopeTags := am_scopeTags am; am_jobCircle := Some circles;
          am_writeScope := am_writeScope am; am_scopeTagsEnabled := am_scopeTagsEnabled am |}.

Definition actingCircleTags (am : Ambient) : list string :=
  match am_jobCircle am with
  | Some fromJob => fromJob
  | None => match truthy (am_actingCircle am) with Some id => [circleTag id] | None => [] end
  end.

Definition withSourceCircles (scope : list string) (sources : list (option (list string))) :
    list string :=
  fold_left (λ out source, add_all out (circleTagsOf source)) sources scope.

(** ** Write scope *)

Definition runWithWriteScope (scope : list string) (am : Ambient) : Ambient :=
  if bool_decide (scope = []) then am
  else {| am_authUserId := am_authUserId am; am_actingCircle := am_actingCircle am;
          am_scopeTags := am_scopeTags am; am_jobCircle := am_jobCircle am;
          am_writeScope := Some scope; am_scopeTagsEnabled := am_scopeTagsEnabled am |}.

Definition ambientWriteScope (am : Ambient) : option (list string) :=
  match am_writeScope am with
  | Some scope => if 0 <? length scope then Some scope else None
  | None => None
  end.

(** ** The tag grammar *)

Definition USER_NAMESPACE : string := "user".
Definition ORG_NAMESPACE : string := "org".
Definition TEAM_NAMESPACE : string := "team".
Definition KNOWN_NAMESPACES : list string :=
  [USER_NAMESPACE; ORG_NAMESPACE; TEAM_NAMESPACE; CIRCLE_NAMESPACE].

Record ParsedTag := { pt_namespace : string; pt_id : string }.

Definition userTag (userId : string) : string := USER_NAMESPACE +:+ ":" +:+ userId.

Definition parseTag (tag : string) : option ParsedTag :=
  match index_of colon tag with
  | None => None
  | Some sep =>
      if (sep =? 0) || (sep =? String.length tag - 1) then None
      else
        let namespace := str_take sep tag in
        if bool_decide (namespace ∈ KNOWN_NAMESPACES)
        then Some {| pt_namespace := namespace; pt_id := str_drop (sep + 1) tag |}
        else None
  end.

Definition scopeForUser (am : Ambient) (userId : option string) : list string :=
  let circles := actingCircleTags am in
  match truthy userId with
  | Some u => userTag u :: circles
  | None =>
      let ambient := default [] (ambientWriteScope am) in
      app ambient (List.filter (λ c, negb (bool_decide (c ∈ ambient))) circles)
  end.

Definition idTail (id : string) : string :=
  match index_of colon id with Some sep => str_drop (sep + 1) id | None => id end.

Definition teamTag (connectionId group : string) : string :=
  TEAM_NAMESPACE +:+ ":" +:+ (idTail connectionId +:+ ":" +:+ group).

Record ParsedTeamTag := { tt_connection : string; tt_group : string }.

Definition parseTeamTag (tag : string) : option ParsedTeamTag :=
  match parseTag tag with
  | None => None
  | Some parsed =>
      if negb (bool_decide (pt_namespace parsed = TEAM_NAMESPACE)) then None
      else
        match index_of colon (pt_id parsed) with
        | None => None
        | Some sep =>
            if (sep =? 0) || (sep =? String.length (pt_id parsed) - 1) then None
            else Some {| tt_connection := str_take sep (pt_id parsed);
                         tt_group := str_drop (sep + 1) (pt_id parsed) |}
        end
  end.

Definition scopeForSource (userId : option string) (connectionId : string)
    (groups : option (list string)) : list string :=
  match truthy userId with
  | Some u => [userTag u]
  | None =>
      match find_first (λ g, 0 <? String.length g) (default [] groups) with
      | None => []
      | Some group => [teamTag connectionId group]
      end
  end.

Definition teamTagsOf (scope : option (list string)) : list string :=
  List.filter (starts_with (TEAM_NAMESPACE +:+ ":")) (default [] scope).

Definition withSourceScope (scope : list string) (sources : list (option (list string))) :
    list string :=
  fold_left (λ out source, add_all out (teamTagsOf source)) sources
    (withSourceCircles scope sources).

(** ** What a reader holds *)

Definition rememberScopeTags (userId : string) (tags : list string) (am : Ambient) : Ambient :=
  {| am_authUserId := am_authUserId am; am_actingCircle := am_actingCircle am;
     am_scopeTags := OMap.set userId tags (am_scopeTags am);
     am_jobCircle := am_jobCircle am; am_writeScope := am_writeScope am;
     am_scopeTagsEnabled := am_scopeTagsEnabled am |}.

Definition boundToActingCircle (am : Ambient) (tags : list string) : list string :=
  let acting := actingCircleTags am in
  if bool_decide (acting = []) then tags
  else app (List.filter (λ t, negb (isCircleTag t)) tags) acting.

Definition heldTagsFor (am : Ambient) (userId : string) : list string :=
  let tags := OMap.get userId (am_scopeTags am) in
  boundToActingCircle am
    (match tags with
     | Some l => if 0 <? length l then l else [userTag userId]
     | None => [userTag userId]
     end).

Inductive PrincipalScope : Type :=
| TENANT_WIDE
| Held (tags : list string).

Definition principalScopeTags (am : Ambient) : PrincipalScope :=
  match truthy (am_authUserId am) with
  | Some u => Held (heldTagsFor am u)
  | None => TENANT_WIDE
  end.

Definition scopeFenceActive (am : Ambient) : bool :=
  am_scopeTagsEnabled am || (0 <? length (actingCircleTags am)).

(** ** The evaluator *)

Definition visibleUnderScope (am : Ambient) (recordScope : list string)
    (principal : PrincipalScope) : bool :=
  if length recordScope =? 0 then true
  else
    match principal with
    | TENANT_WIDE =>
        let acting := actingCircleTags am in
        (length acting =? 0) ||
        forallb (λ t, bool_decide (t ∈ acting)) (circleTagsOf (Some recordScope))
    | Held tags =>
        forallb (λ tag,
          if bool_decide (parseTag tag = None) then false else bool_decide (tag ∈ tags))
          recordScope
    end.

(** ** The SQL fence *)

(** The fragments [scopeFenceSql] returns, by shape, with the bound value. *)
Inductive fence : Type :=
| FenceNone
| FenceEq (tag : string)              (* AND (scope = [] OR scope = [$p]) *)
| FenceInside (tags : list string).   (* AND (scope = [] OR scope ALLINSIDE $p) *)

Definition fence_clause (param : string) (f : fence) : string :=
  match f with
  | FenceNone => ""
  | FenceEq _ => "AND (scope = [] OR scope = [$" +:+ param +:+ "])"
  | FenceInside _ => "AND (scope = [] OR scope ALLINSIDE $" +:+ param +:+ ")"
  end.

Definition scopeFenceSql (am : Ambient) (userId : option string) : fence :=
  if negb (scopeFenceActive am) then FenceNone
  else
    let scoped := truthy (match userId with Some u => Some u | None => am_authUserId am end) in
    match scoped with
    | None =>
        if 0 <? length (actingCircleTags am) then FenceInside (actingCircleTags am)
        else FenceNone
    | Some u =>
        let held := heldTagsFor am u in
        if length held <=? 1
        then FenceEq (default (userTag u) (head held))
        else FenceInside held
    end.

(** What the database keeps. *)
Definition fence_admits (f : fence) (scope : list string) : bool :=
  match f with
  | FenceNone => true
  | FenceEq t => bool_decide (scope = []) || bool_decide (scope = [t])
  | FenceInside ts => bool_decide (scope = []) || forallb (λ t, bool_decide (t ∈ ts)) scope
  end.

(** ** The grammar round-trips *)

Lemma known_no_colon ns : ns ∈ KNOWN_NAMESPACES → has_char colon ns = false ∧ ns ≠ "".
Proof.
  unfold KNOWN_NAMESPACES. rewrite !elem_of_cons, elem_of_nil.
  intros [->|[->|[->|[->|[]]]]]; split; done.
Qed.

Lemma colon_string id : ":" +:+ id = String colon id.
Proof. done. Qed.

Lemma str_drop_S n c s : str_drop (n + 1) (String c s) = str_drop n s.
Proof. by rewrite Nat.add_1_r. Qed.

Lemma str_drop_append_S a c s : str_drop (String.length a + 1) (a +:+ String c s) = s.
Proof.
  induction a as [|x a IH]; [done|]. rewrite str_append_cons. simpl.
  by rewrite Nat.add_1_r in *.
Qed.

Lemma length_zero s : String.length s = 0 ↔ s = "".
Proof. split; [by destruct s|by intros ->]. Qed.

(** Cutting at the first colon. *)
Lemma cut_spec tag sep :
  index_of colon tag = Some sep →
  tag = str_take sep tag +:+ ":" +:+ str_drop (sep + 1) tag ∧
  has_char colon (str_take sep tag) = false ∧
  (sep = 0 ↔ str_take sep tag = "") ∧
  (sep = String.length tag - 1 ↔ str_drop (sep + 1) tag = "").
Proof.
  intros H. destruct (index_of_split _ _ _ H) as (Heq & Hc & Hl).
  pose proof (length_str_take sep tag (Nat.lt_le_incl _ _ Hl)) as Hlen.
  rewrite Nat.add_1_r. split_and!; [exact Heq|done| |].
  - rewrite <- length_zero. lia.
  - rewrite <- length_zero.
    apply (f_equal String.length) in Heq. rewrite str_length_append in Heq.
    cbn [String.length] in Heq. lia.
Qed.

Lemma index_of_cut a b :
  has_char colon a = false → index_of colon (a +:+ ":" +:+ b) = Some (String.length a).
Proof. apply index_of_append. Qed.

Lemma parse_tag_spec tag ns id :
  parseTag tag = Some {| pt_namespace := ns; pt_id := id |} ↔
  ns ∈ KNOWN_NAMESPACES ∧ id ≠ "" ∧ tag = ns +:+ ":" +:+ id.
Proof.
  unfold parseTag. split.
  - destruct (index_of colon tag) as [sep|] eqn:E; [|done].
    destruct (cut_spec _ _ E) as (Heq & Hc & H0 & H1).
    destruct (Nat.eqb_spec sep 0); [done|].
    destruct (Nat.eqb_spec sep (String.length tag - 1)); [done|]. simpl.
    case_bool_decide; [|done]. intros; simplify_eq. split_and!; [done|naive_solver|done].
  - intros (Hns & Hid & ->). destruct (known_no_colon _ Hns) as [Hc Hne].
    rewrite index_of_cut by done. rewrite !str_length_append. simpl.
    destruct (Nat.eqb_spec (String.length ns) 0) as [Hz|_]; [by rewrite length_zero in Hz|].
    destruct (Nat.eqb_spec (String.length ns)
      (String.length ns + S (String.length id) - 1)) as [Hz|_].
    { destruct Hid. apply length_zero. lia. }
    simpl. rewrite str_take_append, bool_decide_eq_true_2 by done.
    by rewrite colon_string, str_drop_append_S.
Qed.

(** The tag grammar: a tag parses exactly when it is a known namespace, a
    colon, and a non-empty id, and then gives back those two parts; in particular
    the tag of every named user parses to that user and no other tag does. *)
Theorem tag_grammar tag :
  (∀ ns id, parseTag tag = Some {| pt_namespace := ns; pt_id := id |} ↔
            ns ∈ KNOWN_NAMESPACES ∧ id ≠ "" ∧ tag = ns +:+ ":" +:+ id) ∧
  (∀ u, parseTag tag = Some {| pt_namespace := USER_NAMESPACE; pt_id := u |} ↔
        u ≠ "" ∧ tag = userTag u).
Proof.
  split; intros; rewrite parse_tag_spec; [done|].
  split; [naive_solver|]. intros [? ->]. split_and!; [by left|done|done].
Qed.

(** Group tags are unambiguous: a connection tail without a colon and a
    non-empty group come back from the tag, whatever colons the group has, so
    two connections' groups never share a tag. *)
Theorem team_tag_roundtrip conn group conn' group' :
  has_char colon (idTail conn) = false → idTail conn ≠ "" → group ≠ "" →
  parseTeamTag (teamTag conn group) =
    Some {| tt_connection := idTail conn; tt_group := group |} ∧
  (has_char colon (idTail conn') = false → teamTag conn' group' = teamTag conn group →
   idTail conn' = idTail conn ∧ group' = group).
Proof.
  intros Hc Hne Hg.
  assert (Hcut : ∀ a b, has_char colon a = false → a ≠ "" → b ≠ "" →
    parseTeamTag (TEAM_NAMESPACE +:+ ":" +:+ (a +:+ ":" +:+ b)) =
    Some {| tt_connection := a; tt_group := b |}).
  { intros a b Ha Hae Hbe. unfold parseTeamTag.
    assert (parseTag (TEAM_NAMESPACE +:+ ":" +:+ (a +:+ ":" +:+ b)) =
      Some {| pt_namespace := TEAM_NAMESPACE; pt_id := a +:+ ":" +:+ b |}) as ->.
    { apply parse_tag_spec. split_and!; [right; right; left| |done]. by destruct a. }
    simpl. rewrite index_of_cut by done. rewrite !str_length_append. simpl.
    destruct (Nat.eqb_spec (String.length a) 0) as [Hz|_]; [by rewrite length_zero in Hz|].
    destruct (Nat.eqb_spec (String.length a)
      (String.length a + S (String.length b) - 1)) as [Hz|_].
    { destruct Hbe. apply length_zero. lia. }
    simpl. by rewrite str_take_append, colon_string, str_drop_append_S. }
  split; [by apply Hcut|].
  intros Hc' Heq. unfold teamTag in Heq. apply str_append_inj_l, str_append_inj_l in Heq.
  pose proof (index_of_cut _ group' Hc') as H1. rewrite Heq, index_of_cut in H1 by done.
  assert (Ht : idTail conn' = idTail conn).
  { rewrite <- (str_take_append (idTail conn') (":" +:+ group')).
    rewrite <- (str_take_append (idTail conn) (":" +:+ group)).
    rewrite Heq. congruence. }
  split; [done|]. rewrite Ht in Heq. by apply str_append_inj_l, str_append_inj_l in Heq.
Qed.

Lemma team_tag_roundtrip_witness :
  parseTeamTag (teamTag "source_connection:abc" "eng:core") =
    Some {| tt_connection := "abc"; tt_group := "eng:core" |}.
Proof.
  apply (team_tag_roundtrip "source_connection:abc" "eng:core" "" "");
    [reflexivity|discriminate|discriminate].
Defined.

(** ** Who sees what *)

Lemma visible_held am scope tags :
  visibleUnderScope am scope (Held tags) = true ↔
  ∀ t, t ∈ scope → parseTag t ≠ None ∧ t ∈ tags.
Proof.
  unfold visibleUnderScope. destruct scope as [|x scope]; simpl length.
  { split; [by intros _ t ?%elem_of_nil|done]. }
  cbn [Nat.eqb]. rewrite forallb_In. split.
  - intros H t Ht. specialize (H t Ht). case_bool_decide; [done|].
    by apply bool_decide_eq_true in H.
  - intros H t Ht. destruct (H t Ht). rewrite bool_decide_eq_false_2 by done.
    by apply bool_decide_eq_true.
Qed.

Lemma visible_wide am scope :
  visibleUnderScope am scope TENANT_WIDE = true ↔
  scope = [] ∨ actingCircleTags am = [] ∨
  ∀ t, t ∈ scope → isCircleTag t = true → t ∈ actingCircleTags am.
Proof.
  unfold visibleUnderScope. destruct scope as [|x scope]; [naive_solver|].
  cbn [length Nat.eqb]. rewrite orb_true_iff, forallb_In. unfold circleTagsOf. simpl default.
  setoid_rewrite elem_of_bfilter. setoid_rewrite bool_decide_eq_true.
  destruct (actingCircleTags am); simpl; naive_solver.
Qed.

Lemma admits_inside ts scope :
  fence_admits (FenceInside ts) scope = true ↔ ∀ t, t ∈ scope → t ∈ ts.
Proof.
  simpl. rewrite orb_true_iff, bool_decide_eq_true, forallb_In.
  setoid_rewrite bool_decide_eq_true. split; [|by right].
  intros [->|H]; [by intros t ?%elem_of_nil|done].
Qed.

Lemma admits_eq t scope :
  fence_admits (FenceEq t) scope = true ↔ scope = [] ∨ scope = [t].
Proof. simpl. by rewrite orb_true_iff, !bool_decide_eq_true. Qed.

(** In a circle, the only circle tags a reader holds are the acting ones. *)
Lemma held_circles am u t :
  actingCircleTags am ≠ [] → t ∈ heldTagsFor am u → isCircleTag t = true →
  t ∈ actingCircleTags am.
Proof.
  intros Ha. unfold heldTagsFor, boundToActingCircle.
  rewrite bool_decide_eq_false_2 by done. rewrite elem_of_app, elem_of_bfilter.
  intros [[_ Hn]|?] Hc; [by rewrite Hc in Hn|done].
Qed.

Lemma fence_circles am userId scope t :
  actingCircleTags am ≠ [] → fence_admits (scopeFenceSql am userId) scope = true →
  t ∈ scope → isCircleTag t = true → t ∈ actingCircleTags am.
Proof.
  intros Ha. unfold scopeFenceSql.
  assert (Hact : scopeFenceActive am = true).
  { unfold scopeFenceActive. destruct (actingCircleTags am); [done|]. apply orb_true_r. }
  assert (Hlt : (0 <? length (actingCircleTags am)) = true)
    by (by destruct (actingCircleTags am)).
  rewrite Hact. cbn [negb].
  destruct (truthy _) as [u|].
  - destruct (Nat.leb_spec (length (heldTagsFor am u)) 1) as [Hl|Hl].
    + rewrite admits_eq. intros [->| ->] Ht Hc; [by apply elem_of_nil in Ht|].
      apply list_elem_of_singleton in Ht. subst t. apply (held_circles am u); [done| |done].
      destruct (heldTagsFor am u) as [|h hs] eqn:E; [|by left].
      exfalso. unfold heldTagsFor, boundToActingCircle in E.
      rewrite bool_decide_eq_false_2 in E by done. by apply app_nil in E as [_ ?].
    + rewrite admits_inside. intros H Ht Hc. eapply held_circles; [done|by apply H|done].
  - rewrite Hlt, admits_inside. intros H Ht _. by apply H.
Qed.

(** C6. Circle isolation: work that acts in a circle reads no row of another
    circle, whoever it reads for (a user, an M2M credential, a job that
    re-entered the circle) and whether SCOPE_TAGS_ENABLED is set or not: neither
    the evaluator nor the SQL fence lets such a row through. *)
Theorem circle_isolation am userId scope t :
  actingCircleTags am ≠ [] → t ∈ scope → isCircleTag t = true →
  t ∉ actingCircleTags am →
  visibleUnderScope am scope (principalScopeTags am) = false ∧
  (∀ u, visibleUnderScope am scope (Held (heldTagsFor am u)) = false) ∧
  fence_admits (scopeFenceSql am userId) scope = false.
Proof.
  intros Ha Ht Hc Hn.
  assert (Hh : ∀ u, visibleUnderScope am scope (Held (heldTagsFor am u)) = false).
  { intros u. apply not_true_iff_false. rewrite visible_held. intros H.
    destruct (H t Ht). by apply Hn, (held_circles am u). }
  split_and!; [|done|].
  - unfold principalScopeTags. destruct (truthy _); [apply Hh|].
    apply not_true_iff_false. rewrite visible_wide.
    intros [->|[?|H]]; [by apply elem_of_nil in Ht|done|by apply Hn, H].
  - apply not_true_iff_false. intros H. by apply Hn, (fence_circles am userId scope).
Qed.

(** C18. Where the fence is active the SQL fence is the evaluator: for the user it is asked
    about, with tags of the grammar, the database keeps a row only if the evaluator shows it, and
    keeps every row the evaluator shows whose scope has no repeated tag. *)
Theorem fence_agrees_with_evaluator am u scope :
  u ≠ "" → scopeFenceActive am = true →
  (∀ t, t ∈ heldTagsFor am u → parseTag t ≠ None) →
  (fence_admits (scopeFenceSql am (Some u)) scope = true →
   visibleUnderScope am scope (Held (heldTagsFor am u)) = true) ∧
  (NoDup scope → visibleUnderScope am scope (Held (heldTagsFor am u)) = true →
   fence_admits (scopeFenceSql am (Some u)) scope = true).
Proof.
  intros Hu Hact Hp. unfold scopeFenceSql. rewrite Hact. cbn [negb].
  unfold truthy. rewrite bool_decide_eq_false_2 by done. rewrite visible_held.
  assert (Hne : ∃ h hs, heldTagsFor am u = h :: hs).
  { destruct (heldTagsFor am u) as [|h hs] eqn:E; [|by eauto].
    unfold heldTagsFor, boundToActingCircle in E. case_bool_decide.
    - destruct (OMap.get u (am_scopeTags am)) as [[|]|]; done.
    - by apply app_nil in E as [_ ?]. }
  destruct Hne as (h & hs & Eh). rewrite Eh in *.
  destruct (Nat.leb_spec (length (h :: hs)) 1) as [Hl|Hl].
  - destruct hs; [|simpl in Hl; lia]. cbn [head default].
    rewrite admits_eq. split.
    + intros [->| ->] t Ht; [by apply elem_of_nil in Ht|].
      split; [by apply Hp|done].
    + intros Hnd H. destruct scope as [|x scope]; [by left|].
      destruct (H x) as [_ Hx]; [by left|]. apply list_elem_of_singleton in Hx. subst x.
      destruct scope as [|y scope]; [by right|].
      destruct (H y) as [_ Hy]; [by right; left|]. apply list_elem_of_singleton in Hy. subst y.
      apply NoDup_cons in Hnd as [Hin _]. destruct Hin. by left.
  - rewrite admits_inside. split; [|naive_solver].
    intros H t Ht. split; [apply Hp|]; by apply H.
Qed.

(** The two fences part for a credential bound to a circle that reads for no
    one in particular: the evaluator, tenant-wide, still shows it a user's rows;
    the SQL fence hides them. *)
Theorem fences_part_in_a_circle am c u :
  am_authUserId am = None → am_jobCircle am = None → am_actingCircle am = Some c → c ≠ "" →
  visibleUnderScope am [userTag u] (principalScopeTags am) = true ∧
  fence_admits (scopeFenceSql am None) [userTag u] = false.
Proof.
  intros Ha Hj Hc Hne.
  assert (Hact : actingCircleTags am = [circleTag c]).
  { unfold actingCircleTags, truthy. rewrite Hj, Hc. by rewrite bool_decide_eq_false_2. }
  split.
  - unfold principalScopeTags. rewrite Ha. simpl truthy. rewrite visible_wide, Hact.
    right. right. intros t ->%list_elem_of_singleton. done.
  - apply not_true_iff_false. unfold scopeFenceSql, scopeFenceActive.
    rewrite Ha, Hact, orb_true_r. cbn [negb truthy length Nat.ltb Nat.leb].
    rewrite admits_inside. intros H. specialize (H (userTag u)).
    rewrite !list_elem_of_singleton in H. specialize (H eq_refl).
    unfold userTag, circleTag in H. done.
Qed.

(** ** Derived rows *)

Lemma fold_add_all_elem {B} (f : B → list string) l (s0 : list string) t :
  t ∈ fold_left (λ out b, add_all out (f b)) l s0 ↔ t ∈ s0 ∨ ∃ b, b ∈ l ∧ t ∈ f b.
Proof.
  revert s0. induction l as [|b l IH]; intros s0; simpl.
  { setoid_rewrite elem_of_nil. naive_solver. }
  rewrite IH, elem_of_add_all. setoid_rewrite elem_of_cons. naive_solver.
Qed.

Lemma withSourceScope_elem scope sources t :
  t ∈ withSourceScope scope sources ↔
  t ∈ scope ∨ ∃ s, s ∈ sources ∧ t ∈ default [] s ∧
    (isCircleTag t = true ∨ starts_with (TEAM_NAMESPACE +:+ ":") t = true).
Proof.
  unfold withSourceScope, withSourceCircles. rewrite !fold_add_all_elem.
  unfold teamTagsOf, circleTagsOf. setoid_rewrite elem_of_bfilter. naive_solver.
Qed.

(** A scope that only restricts by circle and group. *)
Definition restricting (scope : list string) : bool :=
  forallb (λ t, isCircleTag t || starts_with (TEAM_NAMESPACE +:+ ":") t) scope.

(** Derivation never widens: whoever sees a row derived from several sources
    would see it under its own scope alone, and, holding tags, sees every source
    that is fenced by circles and groups. *)
Theorem derived_rows_never_widen am scope sources p :
  visibleUnderScope am (withSourceScope scope sources) p = true →
  visibleUnderScope am scope p = true ∧
  ∀ tags s, p = Held tags → s ∈ sources → restricting (default [] s) = true →
            visibleUnderScope am (default [] s) p = true.
Proof.
  intros H. destruct p as [|tags].
  - split; [|done]. rewrite visible_wide in H. rewrite visible_wide.
    destruct H as [H|[H|H]]; [|by right; left|].
    + left. destruct scope as [|x scope]; [done|].
      assert (Hx : x ∈ withSourceScope (x :: scope) sources)
        by (apply withSourceScope_elem; left; by left).
      rewrite H in Hx. by apply elem_of_nil in Hx.
    + right. right. intros t Ht. apply H, withSourceScope_elem. by left.
  - rewrite visible_held in H. split.
    + rewrite visible_held. intros t Ht. apply H, withSourceScope_elem. by left.
    + intros tags' s Heq Hs Hr. simplify_eq. rewrite visible_held. intros t Ht.
      apply H, withSourceScope_elem. right. exists s. split_and!; [done|done|].
      unfold restricting in Hr. rewrite forallb_In in Hr.
      by apply orb_true_iff, Hr.
Qed.

(** ** Writes and reads *)

Lemma acting_parse am t :
  (∀ c, am_actingCircle am = Some c → c ≠ "") →
  (∀ ts, am_jobCircle am = Some ts → ∀ x, x ∈ ts → parseTag x ≠ None) →
  t ∈ actingCircleTags am → parseTag t ≠ None.
Proof.
  intros Hc Hj. unfold actingCircleTags.
  destruct (am_jobCircle am) as [ts|] eqn:E; [by apply (Hj ts)|].
  unfold truthy. destruct (am_actingCircle am) as [c|] eqn:Ec; [|by intros ?%elem_of_nil].
  case_bool_decide; [by intros ?%elem_of_nil|].
  intros ->%list_elem_of_singleton.
  assert (parseTag (circleTag c) = Some {| pt_namespace := CIRCLE_NAMESPACE; pt_id := c |})
    as ->; [|done].
  apply parse_tag_spec. split_and!; [by right; right; right; left|done|done].
Qed.

(** A user's write is that user's to read, and nobody else's: what a
    user-bound request writes, in or out of a circle, the same request reads
    back; and any other reader sees it only if it holds that user's tag and every
    circle tag the write was made in. *)
Theorem user_writes_are_private am u scope reader tags :
  u ≠ "" → am_authUserId am = Some u → OMap.get u (am_scopeTags am) = None →
  (∀ c, am_actingCircle am = Some c → c ≠ "") →
  (∀ ts, am_jobCircle am = Some ts → ∀ x, x ∈ ts → parseTag x ≠ None) →
  scope = scopeForUser am (Some u) →
  visibleUnderScope am scope (principalScopeTags am) = true ∧
  (visibleUnderScope reader scope (Held tags) = true →
   userTag u ∈ tags ∧ ∀ c, c ∈ actingCircleTags am → c ∈ tags).
Proof.
  intros Hu Hau Hm Hc Hj ->. unfold scopeForUser, principalScopeTags, truthy.
  rewrite Hau, bool_decide_eq_false_2 by done. rewrite !visible_held.
  assert (Hut : parseTag (userTag u) ≠ None).
  { assert (parseTag (userTag u) = Some {| pt_namespace := USER_NAMESPACE; pt_id := u |})
      as ->; [|done]. apply parse_tag_spec. split_and!; [by left|done|done]. }
  split.
  - intros t Ht.
    assert (Hheld : t ∈ heldTagsFor am u).
    { unfold heldTagsFor, boundToActingCircle. rewrite Hm. case_bool_decide as He.
      - rewrite He in Ht. done.
      - rewrite elem_of_app, elem_of_bfilter. apply elem_of_cons in Ht as [->|Ht]; [|by right].
        left. split; [by left|]. done. }
    split; [|done]. apply elem_of_cons in Ht as [->|Ht]; [done|by apply (acting_parse am)].
  - intros H. split; [apply H; by left|]. intros c Hin. apply H. by right.
Qed.

(** ** Witnesses *)

Definition alice : Ambient :=
  {| am_authUserId := Some "alice"; am_actingCircle := Some "coach"; am_scopeTags := [];
     am_jobCircle := None; am_writeScope := None; am_scopeTagsEnabled := false |}.

Definition coach_m2m : Ambient :=
  {| am_authUserId := None; am_actingCircle := Some "coach"; am_scopeTags := [];
     am_jobCircle := None; am_writeScope := None; am_scopeTagsEnabled := false |}.

Lemma circle_isolation_witness :
  visibleUnderScope alice ["user:alice"; "circle:group"] (principalScopeTags alice) = false ∧
  fence_admits (scopeFenceSql alice (Some "alice")) ["user:alice"; "circle:group"] = false ∧
  visibleUnderScope alice ["user:alice"; "circle:coach"] (principalScopeTags alice) = true.
Proof.
  destruct (circle_isolation alice (Some "alice") ["user:alice"; "circle:group"] "circle:group")
    as (H1 & _ & H2).
  - discriminate.
  - right; left.
  - reflexivity.
  - apply (bool_decide_eq_true_1 _). vm_compute. reflexivity.
  - split; [exact H1|]. split; [exact H2|]. reflexivity.
Defined.

Lemma fence_agrees_with_evaluator_witness :
  fence_admits (scopeFenceSql alice (Some "alice")) ["user:alice"; "circle:coach"] = true ∧
  visibleUnderScope alice ["user:alice"; "circle:coach"] (Held (heldTagsFor alice "alice")) = true.
Proof.
  assert (H : fence_admits (scopeFenceSql alice (Some "alice")) ["user:alice"; "circle:coach"] = true)
    by reflexivity.
  split; [exact H|].
  refine (proj1 (fence_agrees_with_evaluator alice "alice" ["user:alice"; "circle:coach"]
    _ _ _) H).
  - discriminate.
  - reflexivity.
  - intros t Ht. vm_compute in Ht. set_unfold in Ht. destruct Ht as [->|[->|[]]]; discriminate.
Defined.

Lemma fences_part_in_a_circle_witness :
  visibleUnderScope coach_m2m ["user:bob"] (principalScopeTags coach_m2m) = true ∧
  fence_admits (scopeFenceSql coach_m2m None) ["user:bob"] = false.
Proof. apply (fences_part_in_a_circle coach_m2m "coach" "bob"); [reflexivity..|discriminate]. Defined.

Lemma derived_rows_never_widen_witness :
  let scope := withSourceScope ["user:alice"] [Some ["circle:coach"]; None] in
  visibleUnderScope alice scope (Held ["user:alice"; "circle:coach"]) = true ∧
  visibleUnderScope alice ["user:alice"] (Held ["user:alice"; "circle:coach"]) = true.
Proof.
  intros scope.
  assert (H : visibleUnderScope alice scope (Held ["user:alice"; "circle:coach"]) = true)
    by reflexivity.
  split; [exact H|].
  apply (derived_rows_never_widen alice ["user:alice"] [Some ["circle:coach"]; None] _ H).
Defined.

Lemma user_writes_are_private_witness :
  visibleUnderScope alice (scopeForUser alice (Some "alice")) (principalScopeTags alice) = true.
Proof.
  apply (user_writes_are_private alice "alice" _ alice []); try reflexivity; try discriminate.
  intros c Hc. vm_compute in Hc. injection Hc as <-. discriminate.
Defined.
