(* ===== verification/FactSlots.v ===== *)
(** * Facts and their slots

    The [knowledge_fact] table as the resolver sees it: the row, the slot a row sits
    in, the helper functions of migrations 0009, 0022, 0045, 0046, 0050 and 0165, and
    the event of migration 0175 that keeps a row [competing] only while it has a
    rival. Instants are integers (milliseconds). The vector similarity of the
    datastore is a parameter. The event of migration 0089, which marks other tables'
    rows stale, and columns only the search side reads are left out. *)

From S2P Require Import Prelude Js.
From stdpp Require Import gmap sorting.
From Stdlib Require Import Ascii.
Local Open Scope string_scope.
Local Open Scope nat_scope.

Inductive FactStatus : Type :=
| Active | Competing | Superseded | Corroborating | Retracted | Compacted.

#[export] Instance FactStatus_eq_dec : EqDecision FactStatus.
Proof. solve_decision. Defined.

(** The fields of [source] the functions read; the rest of the object rides along. *)
Record Source := {
  so_vertical : option string;
  so_recorder : option string;
  so_originKey : option string;
  so_rest : list (string * jsval)
}.

(** Where a row belongs: entity, canonical predicate, user, group tags (sorted) and
    derived world. *)
Record Slot := {
  sl_entity : string;
  sl_predicate : string;
  sl_user : option string;
  sl_groups : list string;
  sl_world : option string
}.

#[export] Instance Slot_eq_dec : EqDecision Slot.
Proof. solve_decision. Defined.

Record TrustSnapshot := {
  ts_sourceKey : string;
  ts_originKey : string;
  ts_domain : string;
  ts_declaredTrust : float;
  ts_learnedTrust : float;
  ts_authority : float;
  ts_calculatedAt : Z
}.

(** What a row states; nothing below changes it after the row is created. *)
Record Claim := {
  cl_entityId : string;
  cl_predicate : string;
  cl_predicateAlias : option string;
  cl_object : string;
  cl_objectMeta : option jsval;
  cl_confidence : float;
  cl_validFrom : Z;
  cl_source : Source;
  cl_embedding : option (list float);
  cl_userId : option string;
  cl_derivedVersion : option string;
  cl_recordedAt : Z;
  cl_trust : TrustSnapshot
}.

(** The four columns a supersede writes together: [retractionReason] is ['superseded'],
    [retractedBy] is ['system'], and the two below. *)
Record Closure := { cu_supersededBy : nat; cu_priorValidUntil : option Z }.

Record Corroboration := {
  co_count : nat;
  co_sourceKeys : list string;
  co_originKeys : list string;
  co_lastAt : Z
}.

(** [conflictTrace] *)
Record ConflictTrace := {
  ct_decidedBy : string;
  ct_supersededFactIds : list nat;
  ct_competingFactIds : list nat;
  ct_bestOpponentId : option nat;
  ct_decidedAt : Z
}.

Record Fact := {
  f_claim : Claim;
  f_status : FactStatus;
  f_validUntil : option Z;
  f_scope : list string;
  f_retractedAt : option Z;
  f_closure : option Closure;
  f_corroborates : option nat;
  f_corroboration : option Corroboration;
  f_locale : option string * option string;
  f_entropy : option float;
  f_trace : option ConflictTrace
}.

Definition f_validFrom (f : Fact) : Z := cl_validFrom (f_claim f).
Definition f_object (f : Fact) : string := cl_object (f_claim f).

(** ** Column updates *)

Definition with_status (s : FactStatus) (f : Fact) : Fact :=
  {| f_claim := f_claim f; f_status := s; f_validUntil := f_validUntil f; f_scope := f_scope f;
     f_retractedAt := f_retractedAt f; f_closure := f_closure f;
     f_corroborates := f_corroborates f; f_corroboration := f_corroboration f;
     f_locale := f_locale f; f_entropy := f_entropy f; f_trace := f_trace f |}.

Definition with_validUntil (u : option Z) (f : Fact) : Fact :=
  {| f_claim := f_claim f; f_status := f_status f; f_validUntil := u; f_scope := f_scope f;
     f_retractedAt := f_retractedAt f; f_closure := f_closure f;
     f_corroborates := f_corroborates f; f_corroboration := f_corroboration f;
     f_locale := f_locale f; f_entropy := f_entropy f; f_trace := f_trace f |}.

Definition with_scope (s : list string) (f : Fact) : Fact :=
  {| f_claim := f_claim f; f_status := f_status f; f_validUntil := f_validUntil f; f_scope := s;
     f_retractedAt := f_retractedAt f; f_closure := f_closure f;
     f_corroborates := f_corroborates f; f_corroboration := f_corroboration f;
     f_locale := f_locale f; f_entropy := f_entropy f; f_trace := f_trace f |}.

Definition with_trace (t : ConflictTrace) (f : Fact) : Fact :=
  {| f_claim := f_claim f; f_status := f_status f; f_validUntil := f_validUntil f;
     f_scope := f_scope f; f_retractedAt := f_retractedAt f; f_closure := f_closure f;
     f_corroborates := f_corroborates f; f_corroboration := f_corroboration f;
     f_locale := f_locale f; f_entropy := f_entropy f; f_trace := Some t |}.

(** [status = 'superseded', retractionReason, retractedBy, supersededBy,
    priorValidUntil, validUntil] *)
Definition closed_by (by_id : nat) (until : Z) (f : Fact) : Fact :=
  {| f_claim := f_claim f; f_status := Superseded; f_validUntil := Some until;
     f_scope := f_scope f; f_retractedAt := f_retractedAt f;
     f_closure := Some {| cu_supersededBy := by_id; cu_priorValidUntil := f_validUntil f |};
     f_corroborates := f_corroborates f; f_corroboration := f_corroboration f;
     f_locale := f_locale f; f_entropy := f_entropy f; f_trace := f_trace f |}.

(** [status = 'corroborating', corroborates = $id] *)
Definition corroborating (id : nat) (f : Fact) : Fact :=
  {| f_claim := f_claim f; f_status := Corroborating; f_validUntil := f_validUntil f;
     f_scope := f_scope f; f_retractedAt := f_retractedAt f; f_closure := f_closure f;
     f_corroborates := Some id; f_corroboration := f_corroboration f;
     f_locale := f_locale f; f_entropy := f_entropy f; f_trace := f_trace f |}.

Definition with_corroboration (c : Corroboration) (f : Fact) : Fact :=
  {| f_claim := f_claim f; f_status := f_status f; f_validUntil := f_validUntil f;
     f_scope := f_scope f; f_retractedAt := f_retractedAt f; f_closure := f_closure f;
     f_corroborates := f_corroborates f; f_corroboration := Some c;
     f_locale := f_locale f; f_entropy := f_entropy f; f_trace := f_trace f |}.

(** [IF $lang != NONE { ... }; IF $entropy != NONE { ... }] *)
Definition with_locale (lang script : option string) (entropy : option float) (f : Fact) : Fact :=
  {| f_claim := f_claim f; f_status := f_status f; f_validUntil := f_validUntil f;
     f_scope := f_scope f; f_retractedAt := f_retractedAt f; f_closure := f_closure f;
     f_corroborates := f_corroborates f; f_corroboration := f_corroboration f;
     f_locale := match lang with Some _ => (lang, script) | None => f_locale f end;
     f_entropy := match entropy with Some _ => entropy | None => f_entropy f end;
     f_trace := f_trace f |}.

(** ** The store *)

Record TrustRow := {
  tr_sourceKey : string;
  tr_domain : option string;
  tr_agreementRate : float;
  tr_sampleCount : nat
}.

Record DeadLetter := { dl_entityId : string; dl_predicate : string; dl_object : string;
                       dl_reason : string }.

(** Facts by record id, the learned trust, the declared authority, the dead letters
    and the datastore's clock. *)
Record FactDb := {
  fd_rows : gmap nat Fact;
  fd_trust : list TrustRow;
  fd_registry : list (string * float);
  fd_letters : list DeadLetter;
  fd_now : Z
}.

Definition with_rows (rows : gmap nat Fact) (db : FactDb) : FactDb :=
  {| fd_rows := rows; fd_trust := fd_trust db; fd_registry := fd_registry db;
     fd_letters := fd_letters db; fd_now := fd_now db |}.

Definition dead_letter (l : DeadLetter) (db : FactDb) : FactDb :=
  {| fd_rows := fd_rows db; fd_trust := fd_trust db; fd_registry := fd_registry db;
     fd_letters := app (fd_letters db) [l]; fd_now := fd_now db |}.

(** ** Helper functions of the datastore *)

Definition source_key_of (s : Source) : string :=
  match so_vertical s with
  | None => "system_seed"
  | Some v => v +:+ ":" +:+ default "_" (so_recorder s)
  end.

Definition origin_key_of (s : Source) : string :=
  match so_originKey s with None => source_key_of s | Some k => k end.

Definition source_authority_of (key : string) (db : FactDb) : float :=
  match find_first (λ r, bool_decide (r.1 = key)) (fd_registry db) with
  | None => 0%float
  | Some r => r.2
  end.

Definition source_trust_scoped (key domain : string) (db : FactDb) : float :=
  let find d := find_first (λ r, bool_decide (tr_sourceKey r = key) && bool_decide (tr_domain r = d))
                  (fd_trust db) in
  let global := match find None with
                | None => 0.5%float
                | Some r => if tr_sampleCount r <? 8 then 0.5%float else tr_agreementRate r
                end in
  match find (Some domain) with
  | Some r => if 8 <=? tr_sampleCount r then tr_agreementRate r else global
  | None => global
  end.

(** Two half-open intervals meet; an absent end is later than every instant. *)
Definition intervals_overlap (a_from : Z) (a_until : option Z) (b_from : Z) (b_until : option Z) : bool :=
  match b_until with None => true | Some u => (a_from <? u)%Z end &&
  match a_until with None => true | Some u => (b_from <? u)%Z end.

(** [string::words]: the runs between white space. *)
Definition db_space (c : ascii) : bool := is_space c || bool_decide (nat_of_ascii c = 133).

Fixpoint words_from (word : string) (s : string) : list string :=
  match s with
  | EmptyString => if bool_decide (word = "") then [] else [word]
  | String c s' =>
      if db_space c
      then if bool_decide (word = "") then words_from "" s' else word :: words_from "" s'
      else words_from (word +:+ String c "") s'
  end.

(** [\w] among 8-bit code units. *)
Definition word_char (c : ascii) : bool :=
  let n := nat_of_ascii c in
  ((48 <=? n) && (n <=? 57)) || ((65 <=? n) && (n <=? 90)) || (n =? 95) ||
  ((97 <=? n) && (n <=? 122)) || (n =? 170) || (n =? 181) || (n =? 186) ||
  ((192 <=? n) && negb (n =? 215) && negb (n =? 247)).

Fixpoint strip_start (s : string) : string :=
  match s with
  | String c s' => if word_char c then s else strip_start s'
  | EmptyString => EmptyString
  end.

(** [string::replace($w, "^\W+|\W+$", "")] *)
Definition strip_punct (w : string) : string := str_rev (strip_start (str_rev (strip_start w))).

Definition value_words (v : string) : list string :=
  List.filter (λ w, negb (bool_decide (w = ""))) (map strip_punct (words_from "" (to_lower v))).

Definition same_value (a b : string) : bool :=
  let x := value_words a in
  let y := value_words b in
  if (length x =? 0) || (length y =? 0) then false
  else if length x <=? length y
  then forallb (λ t, bool_decide (t ∈ y)) x
  else forallb (λ t, bool_decide (t ∈ x)) y.

(** [time::floor(t, 1d)], in days. *)
Definition day_of (t : Z) : Z := (t / 86400000)%Z.

(** ** Slots *)

Definition canonical_predicate (predicate : string) (alias : option string) : string :=
  default predicate alias.

Definition is_circle_tag (t : string) : bool := starts_with "circle:" t.
Definition is_team_tag (t : string) : bool := starts_with "team:" t.
Definition is_group_tag (t : string) : bool := is_circle_tag t || is_team_tag t.

(** [array::sort(tags.filter(p))] *)
Definition sorted_tags (p : string → bool) (tags : list string) : list string :=
  merge_sort str_le (List.filter p tags).

Definition slot_of (f : Fact) : Slot :=
  let c := f_claim f in
  {| sl_entity := cl_entityId c;
     sl_predicate := canonical_predicate (cl_predicate c) (cl_predicateAlias c);
     sl_user := cl_userId c;
     sl_groups := sorted_tags is_group_tag (f_scope f);
     sl_world := cl_derivedVersion c |}.

(** A row that still states something current. *)
Definition open_status (s : FactStatus) : bool :=
  bool_decide (s = Active) || bool_decide (s = Competing).

Definition open_fact (f : Fact) : bool :=
  open_status (f_status f) && bool_decide (f_retractedAt f = None).

Definition select (p : Fact → bool) (db : FactDb) : list (nat * Fact) :=
  List.filter (λ kv, p kv.2) (map_to_list (fd_rows db)).

(** ** Rivals (migration 0175) *)

Definition competing_open (f : Fact) : bool :=
  bool_decide (f_status f = Competing) && bool_decide (f_retractedAt f = None).

Definition opponent_of (f : Fact) (id : nat) : bool :=
  match f_trace f with
  | Some t => bool_decide (ct_bestOpponentId t = Some id) || bool_decide (id ∈ ct_competingFactIds t)
  | None => false
  end.

(** The pairing by slot compares circle tags only. *)
Definition rival_slot (f g : Fact) : bool :=
  let a := f_claim f in
  let b := f_claim g in
  bool_decide (canonical_predicate (cl_predicate a) (cl_predicateAlias a) =
               canonical_predicate (cl_predicate b) (cl_predicateAlias b)) &&
  bool_decide (cl_userId a = cl_userId b) &&
  bool_decide (sorted_tags is_circle_tag (f_scope f) = sorted_tags is_circle_tag (f_scope g)) &&
  bool_decide (cl_derivedVersion a = cl_derivedVersion b).

Definition rivals (i : nat) (f : Fact) (j : nat) (g : Fact) : bool :=
  bool_decide (cl_entityId (f_claim f) = cl_entityId (f_claim g)) &&
  negb (bool_decide (i = j)) &&
  (rival_slot f g || opponent_of g i || opponent_of f j).

Definition fact_has_rival (i : nat) (f : Fact) (rows : gmap nat Fact) : bool :=
  existsb (λ kv, competing_open kv.2 && rivals i f kv.1 kv.2) (map_to_list rows).

(** One row of the event's [UPDATE ... WHERE ... AND !fn::fact_has_rival($this)]. *)
Definition settle_rival (entity : string) (before_id : nat) (rows : gmap nat Fact) (k : nat) :
    gmap nat Fact :=
  match rows !! k with
  | Some x =>
      if bool_decide (cl_entityId (f_claim x) = entity) && competing_open x &&
         negb (bool_decide (k = before_id)) && negb (fact_has_rival k x rows)
      then <[k := with_status Active x]> rows else rows
  | None => rows
  end.

Definition competing_needs_a_rival (entity : string) (before_id : nat) (rows : gmap nat Fact) :
    gmap nat Fact :=
  fold_left (settle_rival entity before_id) (map fst (map_to_list rows)) rows.

(** [UPDATE $id SET ...], with the event. *)
Definition update_fact (id : nat) (g : Fact → Fact) (db : FactDb) : FactDb :=
  match fd_rows db !! id with
  | None => db
  | Some f =>
      let rows := <[id := g f]> (fd_rows db) in
      if bool_decide (f_status f = Competing) && negb (open_status (f_status (g f)))
      then with_rows (competing_needs_a_rival (cl_entityId (f_claim f)) id rows) db
      else with_rows rows db
  end.

(** ** What the event does *)

(** Rivalry reads what a row states, its scope and its trace. *)
Definition same_rivalry (f f' : Fact) : Prop :=
  f_claim f' = f_claim f ∧ f_scope f' = f_scope f ∧ f_trace f' = f_trace f.

Lemma rivals_sym i f j g : rivals i f j g = rivals j g i f.
Proof.
  apply bool_eq_iff. unfold rivals, rival_slot.
  rewrite !andb_true_iff, !orb_true_iff, !andb_true_iff, !bool_decide_neg_true, !bool_decide_eq_true.
  naive_solver.
Qed.

Lemma rivals_same i f f' j g : same_rivalry f f' → rivals i f' j g = rivals i f j g.
Proof.
  intros (Hc & Hs & Ht). unfold rivals, rival_slot, opponent_of. by rewrite Hc, Hs, Ht.
Qed.

Lemma has_rival_iff i f rows :
  fact_has_rival i f rows = true ↔
  ∃ j g, rows !! j = Some g ∧ competing_open g = true ∧ rivals i f j g = true.
Proof.
  unfold fact_has_rival. rewrite existsb_In. split.
  - intros ([j g] & Hin & [Hc Hr]%andb_true_iff). apply elem_of_map_to_list in Hin. eauto.
  - intros (j & g & Hj & Hc & Hr). exists (j, g). rewrite elem_of_map_to_list.
    split; [done|]. by rewrite andb_true_iff.
Qed.

(** Row [i] does not stand alone in a dispute. *)
Definition not_lone (rows : gmap nat Fact) (i : nat) : Prop :=
  ∀ f, rows !! i = Some f → competing_open f = true → fact_has_rival i f rows = true.

Definition no_lone (rows : gmap nat Fact) : Prop := ∀ i, not_lone rows i.

Lemma active_not_competing f : competing_open (with_status Active f) = false.
Proof. done. Qed.

(** Turning row [k] active, when it had no rival, leaves nobody alone. *)
Lemma activate_not_lone rows k x i :
  rows !! k = Some x → competing_open x = true → fact_has_rival k x rows = false →
  not_lone rows i → not_lone (<[k := with_status Active x]> rows) i.
Proof.
  intros Hk Hx Hno Hi f. destruct (decide (k = i)) as [->|Hne].
  { rewrite lookup_insert_eq. by intros [= <-]. }
  rewrite lookup_insert_ne by done. intros Hf Hc.
  destruct (proj1 (has_rival_iff _ _ _) (Hi f Hf Hc)) as (j & g & Hj & Hg & Hr).
  apply has_rival_iff. exists j, g. split; [|done].
  destruct (decide (k = j)) as [->|]; [|by rewrite lookup_insert_ne].
  exfalso. assert (g = x) as -> by congruence. enough (fact_has_rival j x rows = true) by congruence.
  apply has_rival_iff. exists i, f. by rewrite rivals_sym.
Qed.

Lemma settle_rival_not_lone e b rows k i :
  not_lone rows i → not_lone (settle_rival e b rows k) i.
Proof.
  intros Hi. unfold settle_rival. destruct (rows !! k) as [x|] eqn:Hk; [|done].
  case_match eqn:E; [|done].
  apply andb_true_iff in E as [[[_ Hc]%andb_true_iff _]%andb_true_iff Hn%negb_true_iff].
  by apply activate_not_lone.
Qed.

(** The event touches only the status of competing rows of the entity. *)
Definition settled (e : string) (rows rows' : gmap nat Fact) : Prop :=
  ∀ i, rows' !! i = rows !! i ∨
       ∃ f, rows !! i = Some f ∧ competing_open f = true ∧ cl_entityId (f_claim f) = e ∧
            rows' !! i = Some (with_status Active f).

Lemma settled_refl e rows : settled e rows rows.
Proof. by left. Qed.

Lemma settled_step e b rows rows' k :
  settled e rows rows' → settled e rows (settle_rival e b rows' k).
Proof.
  intros H i. specialize (H i). unfold settle_rival.
  destruct (rows' !! k) as [x|] eqn:Hk; [|done]. case_match eqn:E; [|done].
  destruct (decide (k = i)) as [->|]; [|by rewrite lookup_insert_ne].
  rewrite lookup_insert_eq.
  apply andb_true_iff in E as [[[He Hc]%andb_true_iff _]%andb_true_iff _].
  apply bool_decide_eq_true in He. right.
  destruct H as [H|(f & Hf & _ & _ & H)].
  2: { rewrite Hk in H. by injection H as ->. }
  exists x. rewrite <- H. naive_solver.
Qed.

Lemma event_settled e b rows : settled e rows (competing_needs_a_rival e b rows).
Proof.
  unfold competing_needs_a_rival.
  enough (H : ∀ ks r, settled e rows r → settled e rows (fold_left (settle_rival e b) ks r))
    by apply H, settled_refl.
  induction ks as [|k ks IH]; intros r Hr; simpl; [done|]. by apply IH, settled_step.
Qed.

(** After a competing row left, nobody of its entity stands alone. *)
Lemma settle_rivals_clear e b ks rows i :
  i ≠ b → (∀ f, rows !! i = Some f → cl_entityId (f_claim f) = e) →
  i ∈ ks → not_lone (fold_left (settle_rival e b) ks rows) i.
Proof.
  intros Hb. revert rows. induction ks as [|k ks IH]; intros rows He; [by intros ?%elem_of_nil|].
  simpl. destruct (decide (k = i)) as [->|Hne].
  - intros _. assert (Hn : not_lone (settle_rival e b rows i) i).
    { unfold settle_rival. destruct (rows !! i) as [x|] eqn:Hx; [|intros f ?; congruence].
      case_match eqn:E; intros f; [rewrite lookup_insert_eq; by intros [= <-]|].
      intros Hf Hc. rewrite Hx in Hf. injection Hf as <-.
      rewrite (bool_decide_eq_true_2 _ (He _ eq_refl)), Hc, bool_decide_eq_false_2 in E by done.
      simpl in E. by apply negb_false_iff in E. }
    revert Hn. generalize (settle_rival e b rows i). clear. induction ks as [|k ks IH]; [done|].
    intros r Hr. simpl. by apply IH, settle_rival_not_lone.
  - intros [->|Hin]%elem_of_cons; [done|]. apply IH; [|done].
    intros f Hf. destruct (settled_step e b rows rows k (settled_refl e rows) i) as [H|H].
    + apply He. congruence.
    + destruct H as (f' & Hf' & _ & <- & H). by rewrite H in Hf; injection Hf as <-.
Qed.

Lemma event_no_lone rows id f f' :
  rows !! id = Some f → no_lone rows → competing_open f' = false →
  no_lone (competing_needs_a_rival (cl_entityId (f_claim f)) id (<[id := f']> rows)).
Proof.
  intros Hf Hrows Hf' i. unfold competing_needs_a_rival. set (rows' := <[id := f']> rows).
  assert (Hkeep : ∀ ks r, not_lone r i →
    not_lone (fold_left (settle_rival (cl_entityId (f_claim f)) id) ks r) i).
  { induction ks as [|k ks IH]; intros r Hr; simpl; [done|]. by apply IH, settle_rival_not_lone. }
  destruct (decide (id = i)) as [->|Hne].
  { apply Hkeep. intros g. subst rows'. rewrite lookup_insert_eq. intros [= <-]. congruence. }
  assert (Hi : rows' !! i = rows !! i) by (subst rows'; by rewrite lookup_insert_ne).
  destruct (rows !! i) as [g|] eqn:Hg; [|apply Hkeep; intros ?; congruence].
  destruct (decide (cl_entityId (f_claim g) = cl_entityId (f_claim f))) as [He|He].
  - apply settle_rivals_clear; [congruence|intros ?; congruence|].
    apply list_elem_of_fmap. exists (i, g). by rewrite elem_of_map_to_list.
  - apply Hkeep. intros g' Hg' Hc. assert (g' = g) as -> by congruence.
    destruct (proj1 (has_rival_iff _ _ _) (Hrows i g Hg Hc)) as (j & h & Hj & Hh & Hr).
    apply has_rival_iff. exists j, h. split; [|done]. subst rows'.
    rewrite lookup_insert_ne; [done|]. intros ->. simplify_eq. unfold rivals in Hr.
    apply andb_true_iff in Hr as [[Hr _]%andb_true_iff _]. apply bool_decide_eq_true in Hr. congruence.
Qed.

(** Rewriting a row that takes no part in a dispute, before or after. *)
Lemma quiet_no_lone rows id f' :
  no_lone rows → competing_open f' = false →
  (∀ f, rows !! id = Some f → competing_open f = false) →
  no_lone (<[id := f']> rows).
Proof.
  intros Hrows Hf' Hid i g. destruct (decide (id = i)) as [->|Hne].
  { rewrite lookup_insert_eq. intros [= <-]. congruence. }
  rewrite lookup_insert_ne by done. intros Hg Hc.
  destruct (proj1 (has_rival_iff _ _ _) (Hrows i g Hg Hc)) as (j & h & Hj & Hh & Hr).
  apply has_rival_iff. exists j, h. split; [|done].
  rewrite lookup_insert_ne; [done|]. intros ->. rewrite (Hid h Hj) in Hh. done.
Qed.

(** Rewriting columns no dispute reads. *)
Lemma same_no_lone rows id f f' :
  no_lone rows → rows !! id = Some f → same_rivalry f f' → competing_open f' = competing_open f →
  no_lone (<[id := f']> rows).
Proof.
  intros Hrows Hf Hs Hc i g. assert (Hrow : ∀ j h, <[id := f']> rows !! j = Some h →
    ∃ h0, rows !! j = Some h0 ∧ same_rivalry h0 h ∧ competing_open h = competing_open h0).
  { intros j h. destruct (decide (id = j)) as [->|?].
    - rewrite lookup_insert_eq. intros [= <-]. eauto.
    - rewrite lookup_insert_ne by done. by exists h. }
  intros Hg Hcg. destruct (Hrow i g Hg) as (g0 & Hg0 & Sg & Cg). rewrite Cg in Hcg.
  destruct (proj1 (has_rival_iff _ _ _) (Hrows i g0 Hg0 Hcg)) as (j & h & Hj & Hh & Hr).
  apply has_rival_iff. destruct (decide (id = j)) as [->|Hne].
  - exists j, f'. rewrite lookup_insert_eq. simplify_eq. rewrite Hc. split_and!; [done..|].
    rewrite (rivals_same _ _ _ _ _ Sg), rivals_sym, (rivals_same _ _ _ _ _ Hs).
    by rewrite rivals_sym.
  - exists j, h. rewrite lookup_insert_ne by done. split_and!; [done..|].
    by rewrite (rivals_same _ _ _ _ _ Sg).
Qed.

Lemma elem_of_select p db k f :
  (k, f) ∈ select p db ↔ fd_rows db !! k = Some f ∧ p f = true.
Proof. unfold select. rewrite elem_of_bfilter, elem_of_map_to_list. done. Qed.

Lemma NoDup_select p db : NoDup (map fst (select p db)).
Proof. unfold select. apply NoDup_map_bfilter, NoDup_fst_map_to_list. Qed.
