(* ===== verification/FactSettle.v ===== *)
(** * Settling one fact

    [fn::settle_fact] of migration 0177, the function every fact write goes through:
    an ended restatement, a corroboration, a restatement, history, succession in valid
    time, or a plain insert. Each call is one statement of the datastore. *)

From S2P Require Import Prelude Js FactSlots.
From stdpp Require Import gmap.
Local Open Scope string_scope.
Local Open Scope nat_scope.

Inductive Semantics : Type := AppendOnly | SingleActive | Bitemporal | BitemporalEvent.

#[export] Instance Semantics_eq_dec : EqDecision Semantics.
Proof. solve_decision. Defined.

Record SettleArgs := {
  sa_entity_id : string;
  sa_predicate : string;
  sa_object : string;
  sa_object_meta : option jsval;
  sa_embedding : list float;
  sa_confidence : float;
  sa_valid_from : Z;
  sa_valid_until : option Z;
  sa_source : Source;
  sa_source_trust : float;
  sa_semantics : Semantics;
  sa_similarity_threshold : float;
  sa_slot_similarity : option float;
  sa_lang : option string;
  sa_script : option string;
  sa_entropy : option float;
  sa_user_id : option string;
  sa_derived_version : option string;
  sa_predicate_alias : option string;
  sa_circles : list string
}.

Inductive SettleOutcome : Type :=
| OInserted | OInsertedHistorical | OSuperseded | OCompeting | OCorroborated | ORejected | OSkipped.

#[export] Instance SettleOutcome_eq_dec : EqDecision SettleOutcome.
Proof. solve_decision. Defined.

Record ResolveOutcome := {
  ro_outcome : SettleOutcome;
  ro_factId : option nat;
  ro_reason : option string;
  ro_supersededFactIds : list nat;
  ro_competingFactIds : list nat;
  ro_corroboratedFactId : option nat;
  ro_supersededByFactId : option nat;
  ro_peerFactIds : list nat
}.

Definition outcome (o : SettleOutcome) (id : option nat) (reason : option string) : ResolveOutcome :=
  {| ro_outcome := o; ro_factId := id; ro_reason := reason; ro_supersededFactIds := [];
     ro_competingFactIds := []; ro_corroboratedFactId := None; ro_supersededByFactId := None;
     ro_peerFactIds := [] |}.

(** [ORDER BY ... LIMIT 1]: the first that nothing later in the list beats. *)
Definition pick {A} (better : A → A → bool) (l : list A) : option A :=
  match l with
  | [] => None
  | x :: l' => Some (fold_left (λ best y, if better y best then y else best) l' x)
  end.

Definition later_from (a b : nat * Fact) : bool := (f_validFrom b.2 <? f_validFrom a.2)%Z.
Definition earlier_from (a b : nat * Fact) : bool := (f_validFrom a.2 <? f_validFrom b.2)%Z.
Definition later_recorded (a b : nat * Fact) : bool :=
  (cl_recordedAt (f_claim b.2) <? cl_recordedAt (f_claim a.2))%Z.

Section settle.
(** [vector::similarity::cosine] of the datastore. *)
Variable cosine : list float → list float → float.

Definition call_slot (a : SettleArgs) : Slot :=
  {| sl_entity := sa_entity_id a;
     sl_predicate := canonical_predicate (sa_predicate a) (sa_predicate_alias a);
     sl_user := sa_user_id a;
     sl_groups := sorted_tags is_group_tag (sa_circles a);
     sl_world := sa_derived_version a |}.

Definition candidates (a : SettleArgs) (db : FactDb) : list (nat * Fact) :=
  select (λ f, open_fact f && bool_decide (slot_of f = call_slot a)) db.

Definition eff_similarity (a : SettleArgs) : float :=
  match sa_semantics a with
  | BitemporalEvent => default (sa_similarity_threshold a) (sa_slot_similarity a)
  | _ => sa_similarity_threshold a
  end.

Definition overlaps (a : SettleArgs) (f : Fact) : bool :=
  intervals_overlap (f_validFrom f) (f_validUntil f) (sa_valid_from a) (sa_valid_until a).

Definition similar (a : SettleArgs) (f : Fact) : bool :=
  match cl_embedding (f_claim f) with
  | None => false
  | Some e => (length e =? length (sa_embedding a)) &&
              PrimFloat.leb (eff_similarity a) (cosine e (sa_embedding a))
  end.

(** [$slot]: the candidates the semantics pits against the incoming value. *)
Definition slot_pool (a : SettleArgs) (cands : list (nat * Fact)) : list (nat * Fact) :=
  match sa_semantics a with
  | AppendOnly => []
  | SingleActive => List.filter (λ kv, overlaps a kv.2) cands
  | _ => List.filter (λ kv, similar a kv.2 && overlaps a kv.2) cands
  end.

Definition new_fact (a : SettleArgs) (db : FactDb) : Fact :=
  let key := source_key_of (sa_source a) in
  {| f_claim :=
       {| cl_entityId := sa_entity_id a; cl_predicate := sa_predicate a;
          cl_predicateAlias := sa_predicate_alias a; cl_object := sa_object a;
          cl_objectMeta := sa_object_meta a; cl_confidence := sa_confidence a;
          cl_validFrom := sa_valid_from a; cl_source := sa_source a;
          cl_embedding := Some (sa_embedding a); cl_userId := sa_user_id a;
          cl_derivedVersion := sa_derived_version a; cl_recordedAt := fd_now db;
          cl_trust := {| ts_sourceKey := key; ts_originKey := origin_key_of (sa_source a);
                         ts_domain := sa_predicate a; ts_declaredTrust := sa_source_trust a;
                         ts_learnedTrust := source_trust_scoped key (sa_predicate a) db;
                         ts_authority := source_authority_of key db;
                         ts_calculatedAt := fd_now db |} |};
     f_status := Active; f_validUntil := sa_valid_until a; f_scope := []; f_retractedAt := None;
     f_closure := None; f_corroborates := None; f_corroboration := None;
     f_locale := (None, None); f_entropy := None; f_trace := None |}.

(** An open candidate of the same value that the incoming end closes. *)
Definition ended (a : SettleArgs) (cands : list (nat * Fact)) : option (nat * Fact) :=
  match sa_valid_until a with
  | None => None
  | Some u =>
      pick later_from
        (List.filter (λ kv, bool_decide (f_validUntil kv.2 = None) && (f_validFrom kv.2 <? u)%Z &&
                            same_value (f_object kv.2) (sa_object a)) cands)
  end.

Definition same_origin (a : SettleArgs) (f : Fact) : bool :=
  bool_decide (origin_key_of (cl_source (f_claim f)) = origin_key_of (sa_source a)).

Definition corroborated (a : SettleArgs) (pool : list (nat * Fact)) : option (nat * Fact) :=
  pick later_recorded
    (List.filter (λ kv, bool_decide (f_object kv.2 = sa_object a) && negb (same_origin a kv.2)) pool).

Definition restated (a : SettleArgs) (pool : list (nat * Fact)) : option (nat * Fact) :=
  pick later_recorded
    (List.filter (λ kv, bool_decide (f_object kv.2 = sa_object a) && same_origin a kv.2) pool).

(** [array::union] keeps the first of each. *)
Definition array_union (xs ys : list string) : list string := add_all (add_all [] xs) ys.

Definition confirm (a : SettleArgs) (now : Z) (f : Fact) : Fact :=
  let origins := array_union (match f_corroboration f with None => [] | Some c => co_originKeys c end)
                             [origin_key_of (sa_source a)] in
  with_corroboration
    {| co_count := length origins;
       co_sourceKeys :=
         array_union (match f_corroboration f with None => [] | Some c => co_sourceKeys c end)
                     [source_key_of (sa_source a)];
       co_originKeys := origins;
       co_lastAt := now |} f.

(** A value of the pool that starts strictly later. *)
Definition next_after (a : SettleArgs) (pool : list (nat * Fact)) : option (nat * Fact) :=
  match sa_semantics a with
  | BitemporalEvent =>
      pick earlier_from
        (List.filter (λ kv, (day_of (sa_valid_from a) <? day_of (f_validFrom kv.2))%Z) pool)
  | _ => pick earlier_from (List.filter (λ kv, (sa_valid_from a <? f_validFrom kv.2)%Z) pool)
  end.

Definition closing (a : SettleArgs) (pool : list (nat * Fact)) : list (nat * Fact) :=
  match sa_semantics a with
  | SingleActive => pool
  | BitemporalEvent =>
      List.filter (λ kv, (day_of (f_validFrom kv.2) <? day_of (sa_valid_from a))%Z) pool
  | _ => List.filter (λ kv, (f_validFrom kv.2 <? sa_valid_from a)%Z) pool
  end.

Definition day_peers (a : SettleArgs) (pool : list (nat * Fact)) : list (nat * Fact) :=
  match sa_semantics a with
  | BitemporalEvent =>
      List.filter (λ kv, (day_of (sa_valid_from a) <=? day_of (f_validFrom kv.2))%Z) pool
  | _ => []
  end.

(** [FOR $loser IN $closed { UPDATE $loser.id SET ... }]; the prior end is the one the
    pool was read with. *)
Definition close_loser (id : nat) (from : Z) (db : FactDb) (kv : nat * Fact) : FactDb :=
  update_fact kv.1 (λ f, closed_by id from (with_validUntil (f_validUntil kv.2) f)) db.

(** [UPDATE knowledge_fact SET status = 'competing' WHERE id IN $ids] *)
Definition set_competing (ids : list nat) (db : FactDb) : FactDb :=
  fold_left (λ db k, update_fact k (with_status Competing) db) ids db.

Definition trace (decidedBy : string) (closed peers : list nat) (best : option nat) (now : Z) :
    ConflictTrace :=
  {| ct_decidedBy := decidedBy; ct_supersededFactIds := closed; ct_competingFactIds := peers;
     ct_bestOpponentId := best; ct_decidedAt := now |}.

Definition insert_plain (a : SettleArgs) (id : nat) (db : FactDb) : FactDb :=
  update_fact id (with_locale (sa_lang a) (sa_script a) (sa_entropy a)) db.

(** The end of the function: what the pool means for the new row [id]. *)
Definition succeed (a : SettleArgs) (pool : list (nat * Fact)) (id : nat) (db : FactDb) :
    FactDb * ResolveOutcome :=
  let closed := closing a pool in
  let peers := day_peers a pool in
  let closed_ids := map fst closed in
  let peer_ids := map fst peers in
  if 0 <? length closed then
    let db1 := fold_left (close_loser id (sa_valid_from a)) closed db in
    let db2 := if 0 <? length peers then set_competing peer_ids db1 else db1 in
    (update_fact id (with_trace (trace "valid_time" closed_ids [] (head closed_ids) (fd_now db))) db2,
     {| ro_outcome := OSuperseded; ro_factId := Some id; ro_reason := Some "valid_time";
        ro_supersededFactIds := closed_ids; ro_competingFactIds := peer_ids;
        ro_corroboratedFactId := None; ro_supersededByFactId := None; ro_peerFactIds := [] |})
  else if 0 <? length peers then
    (update_fact id (with_trace (trace "event_day" [] peer_ids (head peer_ids) (fd_now db)))
       (set_competing (app peer_ids [id]) db),
     {| ro_outcome := OCompeting; ro_factId := Some id; ro_reason := Some "event_day";
        ro_supersededFactIds := []; ro_competingFactIds := peer_ids;
        ro_corroboratedFactId := None; ro_supersededByFactId := None; ro_peerFactIds := [] |})
  else
    (insert_plain a id db,
     {| ro_outcome := OInserted; ro_factId := Some id; ro_reason := Some "for_resolution";
        ro_supersededFactIds := []; ro_competingFactIds := []; ro_corroboratedFactId := None;
        ro_supersededByFactId := None; ro_peerFactIds := map fst pool |}).

(** A row of the past, slotted before the next newer value. *)
Definition slot_history (a : SettleArgs) (next : nat * Fact) (id : nat) (db : FactDb) :
    FactDb * ResolveOutcome :=
  (update_fact id (closed_by next.1 (f_validFrom next.2)) db,
   {| ro_outcome := OInsertedHistorical; ro_factId := Some id; ro_reason := Some "backdated";
      ro_supersededFactIds := []; ro_competingFactIds := []; ro_corroboratedFactId := None;
      ro_supersededByFactId := Some next.1; ro_peerFactIds := [] |}).

Definition corroborates_outcome (id inc : nat) (reason : option string) : ResolveOutcome :=
  {| ro_outcome := OCorroborated; ro_factId := Some id; ro_reason := reason;
     ro_supersededFactIds := []; ro_competingFactIds := []; ro_corroboratedFactId := Some inc;
     ro_supersededByFactId := None; ro_peerFactIds := [] |}.

(** What follows the insertion of the new row [id]. *)
Definition settle_new (a : SettleArgs) (cands : list (nat * Fact)) (id : nat) (db : FactDb) :
    FactDb * ResolveOutcome :=
  let pool := slot_pool a cands in
  match ended a cands with
  | Some e =>
      (update_fact id (corroborating e.1) (update_fact e.1 (with_validUntil (sa_valid_until a)) db),
       corroborates_outcome id e.1 (Some "ended"))
  | None =>
  match corroborated a (if bool_decide (sa_semantics a = AppendOnly) then cands else pool) with
  | Some c =>
      (update_fact c.1 (confirm a (fd_now db)) (update_fact id (corroborating c.1) db),
       corroborates_outcome id c.1 None)
  | None =>
  match restated a pool with
  | Some r => (update_fact id (corroborating r.1) db, corroborates_outcome id r.1 (Some "restated"))
  | None =>
  if length pool =? 0 then (insert_plain a id db, outcome OInserted (Some id) None)
  else
  match next_after a pool with
  | Some next => slot_history a next id db
  | None => succeed a pool id db
  end end end end.

(** [created] is false when the [CREATE] evaluates to NONE. *)
Definition settle_fact (created : bool) (a : SettleArgs) (db : FactDb) : FactDb * ResolveOutcome :=
  let cands := candidates a db in
  let id := fresh (dom (fd_rows db)) in
  if negb created then
    (dead_letter {| dl_entityId := sa_entity_id a; dl_predicate := sa_predicate a;
                    dl_object := sa_object a; dl_reason := "create_returned_none" |} db,
     outcome ORejected None (Some "create_returned_none"))
  else settle_new a cands id (with_rows (<[id := new_fact a db]> (fd_rows db)) db).

(** [fn::settle_facts]: the facts of a batch in order, inside one statement. *)
Fixpoint settle_facts (facts : list SettleArgs) (db : FactDb) : FactDb * list ResolveOutcome :=
  match facts with
  | [] => (db, [])
  | a :: facts' =>
      let '(db1, o) := settle_fact true a db in
      let '(db2, os) := settle_facts facts' db1 in
      (db2, o :: os)
  end.
End settle.

(** ** Picking *)

Lemma pick_spec {A} (better : A → A → bool) (l : list A) x :
  (∀ a, better a a = false) →
  (∀ a b c, better a b = false → better b c = false → better a c = false) →
  (∀ a b, better a b = true → better b a = false) →
  pick better l = Some x → x ∈ l ∧ ∀ y, y ∈ l → better y x = false.
Proof.
  intros Hirr Htr Has. destruct l as [|z l]; [done|]. simpl. intros [= <-]. revert z.
  induction l as [|y l IH]; intros z; simpl.
  - split; [by constructor|]. by intros w ->%list_elem_of_singleton.
  - destruct (better y z) eqn:E.
    + destruct (IH y) as [Hin Hb]. split; [set_solver|].
      intros w [->|[->|Hw]%elem_of_cons]%elem_of_cons; [|apply Hb; by constructor|apply Hb; set_solver].
      apply (Htr _ y); [by apply Has|apply Hb; by constructor].
    + destruct (IH z) as [Hin Hb]. split; [set_solver|].
      intros w [->|[->|Hw]%elem_of_cons]%elem_of_cons; [apply Hb; by constructor| |apply Hb; set_solver].
      apply (Htr _ z); [done|apply Hb; by constructor].
Qed.

Lemma pick_In {A} (better : A → A → bool) (l : list A) x : pick better l = Some x → x ∈ l.
Proof.
  destruct l as [|z l]; [done|]. simpl. intros [= <-]. revert z.
  induction l as [|y l IH]; intros z; simpl; [by constructor|].
  destruct (better y z); [specialize (IH y)|specialize (IH z)]; set_solver.
Qed.

Lemma pick_None {A} (better : A → A → bool) (l : list A) : pick better l = None → l = [].
Proof. by destruct l. Qed.

(** ** How a call may change the table *)

Section evolution.
Context (a : SettleArgs) (id : nat) (rows : gmap nat Fact).

Definition in_slot (f : Fact) : Prop := open_fact f = true ∧ slot_of f = call_slot a.

(** Old rows keep their claim; they reopen for nobody; an end is only ever put where
    there was none; and outside the slot nothing but a lone dispute is settled. *)
Definition row_evolved (f f' : Fact) : Prop :=
  f_claim f' = f_claim f ∧ f_scope f' = f_scope f ∧ f_retractedAt f' = f_retractedAt f ∧
  (open_fact f' = true → open_fact f = true ∧
     (f_validUntil f' = f_validUntil f ∨ f_validUntil f = None)) ∧
  (f' = f ∨
   (competing_open f = true ∧ cl_entityId (f_claim f) = sa_entity_id a ∧ f' = with_status Active f) ∨
   in_slot f).

Definition evolved (cur : gmap nat Fact) : Prop :=
  (∀ k, k ≠ id →
     match rows !! k, cur !! k with
     | None, None => True
     | Some f, Some f' => row_evolved f f'
     | _, _ => False
     end) ∧
  (∀ f', cur !! id = Some f' → cl_entityId (f_claim f') = sa_entity_id a).

Lemma row_evolved_refl f : row_evolved f f.
Proof. unfold row_evolved. naive_solver. Qed.

Lemma open_same_slot f f' : f_claim f' = f_claim f → f_scope f' = f_scope f → slot_of f' = slot_of f.
Proof. unfold slot_of. by intros -> ->. Qed.

Lemma row_evolved_trans f f1 f2 : row_evolved f f1 → row_evolved f1 f2 → row_evolved f f2.
Proof.
  intros (C1 & S1 & R1 & O1 & D1) (C2 & S2 & R2 & O2 & D2).
  unfold row_evolved. rewrite C2, S2, R2, C1, S1, R1. split_and!; [done..| |].
  - intros Ho. destruct (O2 Ho) as [Ho1 Hu2]. destruct (O1 Ho1) as [Ho0 Hu1]. split; [done|].
    destruct Hu1 as [Hu1|]; [|by right]. rewrite <- Hu1. done.
  - destruct D2 as [->|[(Hc & He & ->)|[Ho Hs]]]; [done| |].
    + destruct D1 as [->|[(_ & _ & ->)|]]; [|done|by auto]. by right; left.
    + right; right. split; [by apply O1|]. rewrite <- Hs. symmetry. by apply open_same_slot.
Qed.

(** A column update the function makes: of the claim, scope and retraction nothing
    changes, a closed row stays closed. *)
Definition keeps (g : Fact → Fact) : Prop := ∀ f,
  f_claim (g f) = f_claim f ∧ f_scope (g f) = f_scope f ∧ f_retractedAt (g f) = f_retractedAt f.

Lemma evolved_settled e cur cur' :
  e = sa_entity_id a → evolved cur → settled e cur cur' → evolved cur'.
Proof.
  intros -> [Hk Hid] Hs. split.
  - intros k Hne. specialize (Hk k Hne). destruct (Hs k) as [->|(f & Hf & Hc & He & Hf')]; [done|].
    rewrite Hf'. rewrite Hf in Hk. destruct (rows !! k) as [f0|]; [|done].
    eapply row_evolved_trans; [exact Hk|].
    unfold competing_open in Hc. apply andb_true_iff in Hc as [Hst Hr]. unfold row_evolved.
    split_and!; [done..| |].
    + intros _. split; [|by left]. unfold open_fact, open_status.
      apply bool_decide_eq_true in Hst. rewrite Hst, Hr. done.
    + right; left. unfold competing_open. by rewrite Hst, Hr.
  - intros f'. destruct (Hs id) as [->|(f & Hf & _ & _ & Hf')]; [by apply Hid|].
    rewrite Hf'. intros [= <-]. exact (Hid f Hf).
Qed.

Lemma evolved_update db k g :
  evolved (fd_rows db) → keeps g →
  (∀ f, k ≠ id → rows !! k = Some f → in_slot f) →
  (∀ f, k ≠ id → fd_rows db !! k = Some f → open_fact (g f) = true →
     open_fact f = true ∧ (f_validUntil (g f) = f_validUntil f ∨ f_validUntil f = None)) →
  evolved (fd_rows (update_fact k g db)).
Proof.
  intros Hev Hg Hin Hopen. unfold update_fact. destruct (fd_rows db !! k) as [f|] eqn:Hf; [|done].
  destruct (Hg f) as (Gc & Gs & Gr).
  assert (He : cl_entityId (f_claim f) = sa_entity_id a).
  { destruct (decide (k = id)) as [->|Hne]; [by apply Hev|].
    destruct Hev as [Hk _]. specialize (Hk k Hne). rewrite Hf in Hk.
    destruct (rows !! k) as [f0|] eqn:H0; [|done]. destruct Hk as (-> & _).
    destruct (Hin f0 Hne eq_refl) as [_ Hs]. apply (f_equal sl_entity) in Hs. done. }
  assert (Hev' : evolved (<[k := g f]> (fd_rows db))).
  { destruct Hev as [Hk Hid]. split.
    - intros i Hi. specialize (Hk i Hi). destruct (decide (k = i)) as [->|]; [|by rewrite lookup_insert_ne].
      rewrite lookup_insert_eq. rewrite Hf in Hk. destruct (rows !! i) as [f0|] eqn:H0; [|done].
      destruct Hk as (Ck & Sk & Rk & Ok & Dk). unfold row_evolved.
      rewrite Gc, Gs, Gr. split_and!; [done..| |].
      + intros Ho. destruct (Hopen f Hi eq_refl Ho) as [Ho1 Hu]. destruct (Ok Ho1) as [Ho0 Hu0].
        split; [done|]. destruct Hu0 as [Hu0|]; [|by right]. by rewrite <- Hu0.
      + right; right. by apply Hin.
    - intros f'. destruct (decide (k = id)) as [->|]; [|rewrite lookup_insert_ne by done; by apply Hid].
      rewrite lookup_insert_eq. intros [= <-]. by rewrite Gc. }
  case_match; [|done]. eapply evolved_settled; [exact He|exact Hev'|]. apply event_settled.
Qed.
End evolution.

Lemma settled_open e rows rows' k f :
  settled e rows rows' → rows !! k = Some f → open_fact f = true →
  ∃ f', rows' !! k = Some f' ∧ open_fact f' = true.
Proof.
  intros Hs Hf Ho. destruct (Hs k) as [->|(f0 & Hf0 & Hc & _ & ->)]; [eauto|].
  eexists; split; [done|]. simplify_eq. unfold competing_open in Hc.
  apply andb_true_iff in Hc as [_ Hc]. unfold open_fact. cbn. by rewrite Hc.
Qed.

(** An update of another row leaves a row open. *)
Lemma update_keeps_open k j g db f :
  j ≠ k → fd_rows db !! k = Some f → open_fact f = true →
  ∃ f', fd_rows (update_fact j g db) !! k = Some f' ∧ open_fact f' = true.
Proof.
  intros Hne Hf Ho. unfold update_fact. destruct (fd_rows db !! j) as [x|]; [|eauto].
  assert (Hf' : <[j := g x]> (fd_rows db) !! k = Some f) by by rewrite lookup_insert_ne.
  case_match; [|by exists f]. cbn. eapply settled_open; [apply event_settled|exact Hf'|done].
Qed.

Lemma elem_of_candidates a db k f :
  (k, f) ∈ candidates a db ↔ fd_rows db !! k = Some f ∧ in_slot a f.
Proof.
  unfold candidates, in_slot. rewrite elem_of_select, andb_true_iff, bool_decide_eq_true. done.
Qed.

Section calls.
Context (cosine : list float → list float → float) (a : SettleArgs) (db : FactDb).
Let id : nat := fresh (dom (fd_rows db)).
Let cands := candidates a db.
Let pool := slot_pool cosine a cands.
Let db0 : FactDb := with_rows (<[id := new_fact a db]> (fd_rows db)) db.

Lemma fresh_row : fd_rows db !! id = None.
Proof. apply not_elem_of_dom. subst id. apply is_fresh. Qed.

Lemma pool_cands kv : kv ∈ pool → kv ∈ cands.
Proof.
  subst pool. unfold slot_pool. destruct (sa_semantics a); [by intros ?%elem_of_nil|..];
    by intros [? _]%elem_of_bfilter.
Qed.

Lemma cand_row k f : (k, f) ∈ cands → fd_rows db !! k = Some f ∧ in_slot a f ∧ k ≠ id.
Proof.
  intros [Hf Hs]%elem_of_candidates. split_and!; [done..|]. intros ->. by rewrite fresh_row in Hf.
Qed.

Lemma cand_in_slot k f f' : (k, f) ∈ cands → fd_rows db !! k = Some f' → in_slot a f'.
Proof. intros Hk Hf. destruct (cand_row k f Hk) as (? & ? & _). by simplify_eq. Qed.

Lemma evolved_start : evolved a id (fd_rows db) (fd_rows db0).
Proof.
  split; cbn.
  - intros k Hk. rewrite lookup_insert_ne by done. destruct (fd_rows db !! k); [|done].
    apply row_evolved_refl.
  - intros f'. rewrite lookup_insert_eq. by intros [= <-].
Qed.

(** Updates of the new row. *)
Lemma evolved_new d g :
  keeps g → evolved a id (fd_rows db) (fd_rows d) → evolved a id (fd_rows db) (fd_rows (update_fact id g d)).
Proof. intros Hg Hd. by apply evolved_update. Qed.

Lemma evolved_closed d l until :
  (∀ kv, kv ∈ l → kv ∈ cands) →
  evolved a id (fd_rows db) (fd_rows d) →
  evolved a id (fd_rows db) (fd_rows (fold_left (close_loser id until) l d)).
Proof.
  revert d. induction l as [|[k f] l IH]; intros d Hl Hd; simpl; [done|].
  apply IH; [set_solver|]. unfold close_loser. apply evolved_update; [done|by repeat split|..].
  - intros f0 _. apply (cand_in_slot k f). apply Hl. by constructor.
  - done.
Qed.

Lemma set_competing_open d ks k f :
  fd_rows d !! k = Some f → open_fact f = true →
  ∃ f', fd_rows (set_competing ks d) !! k = Some f' ∧ open_fact f' = true.
Proof.
  revert d f. induction ks as [|j ks IH]; intros d f Hf Ho; simpl; [eauto|].
  destruct (decide (j = k)) as [->|Hne].
  - eapply (IH _ (with_status Competing f)).
    + unfold update_fact. rewrite Hf. cbn. rewrite andb_false_r. cbn. by rewrite lookup_insert_eq.
    + unfold open_fact in *. cbn. by apply andb_true_iff in Ho as [_ ->].
  - destruct (update_keeps_open k j (with_status Competing) d f Hne Hf Ho) as (f' & ? & ?). eauto.
Qed.

Lemma evolved_competing d ks :
  (∀ k, k ∈ ks → k = id ∨ (∃ f, (k, f) ∈ cands) ∧ ∃ f, fd_rows d !! k = Some f ∧ open_fact f = true) →
  evolved a id (fd_rows db) (fd_rows d) → evolved a id (fd_rows db) (fd_rows (set_competing ks d)).
Proof.
  revert d. induction ks as [|k ks IH]; intros d Hks Hd; simpl; [done|].
  apply IH.
  - intros j Hj. destruct (Hks j) as [->|[Hc (f & Hf & Ho)]]; [by constructor|by left|].
    right. split; [done|]. by apply (set_competing_open d [k] j f).
  - apply evolved_update; [done|by repeat split|..].
    + intros f Hne. destruct (Hks k) as [?|[[f0 Hc] _]]; [by constructor|done|].
      by apply (cand_in_slot k f0).
    + intros f Hne Hf _. destruct (Hks k) as [?|[_ (f1 & Hf1 & Ho)]]; [by constructor|done|].
      simplify_eq. split; [done|by left].
Qed.

Lemma closing_open l until d k f :
  k ∉ map fst l → fd_rows d !! k = Some f → open_fact f = true →
  ∃ f', fd_rows (fold_left (close_loser id until) l d) !! k = Some f' ∧ open_fact f' = true.
Proof.
  revert d f. induction l as [|[j x] l IH]; intros d f Hk Hf Ho; simpl in *; [eauto|].
  rewrite not_elem_of_cons in Hk. destruct Hk as [Hne Hk].
  destruct (update_keeps_open k j (λ f, closed_by id until (with_validUntil (f_validUntil x) f)) d f)
    as (f' & Hf' & Ho'); [done..|]. by eapply (IH _ f').
Qed.

Lemma closing_peers kv : kv ∈ closing a pool → kv.1 ∈ map fst (day_peers a pool) → False.
Proof.
  unfold closing, day_peers. destruct (sa_semantics a) eqn:E; try by intros _ ?%elem_of_nil.
  intros [Hin Hlt]%elem_of_bfilter ([j g] & Hj & [Hin' Hle]%elem_of_bfilter)%list_elem_of_fmap.
  destruct kv as [k f]. simpl in *. subst j.
  destruct (cand_row k f (pool_cands _ Hin)) as [Hf _].
  destruct (cand_row k g (pool_cands _ Hin')) as [Hg _]. simplify_eq. lia.
Qed.

Lemma closing_pool kv : kv ∈ closing a pool → kv ∈ pool.
Proof. unfold closing. destruct (sa_semantics a); rewrite ?elem_of_bfilter; naive_solver. Qed.

Lemma peers_pool kv : kv ∈ day_peers a pool → kv ∈ pool.
Proof.
  unfold day_peers. destruct (sa_semantics a); try by intros ?%elem_of_nil.
  by intros [? _]%elem_of_bfilter.
Qed.

Lemma peers_open d :
  evolved a id (fd_rows db) (fd_rows d) → 
  (∀ k, k ∈ map fst (day_peers a pool) → ∃ f, fd_rows d !! k = Some f ∧ open_fact f = true) →
  ∀ k, k ∈ app (map fst (day_peers a pool)) [id] →
  k = id ∨ (∃ f, (k, f) ∈ cands) ∧ ∃ f, fd_rows d !! k = Some f ∧ open_fact f = true.
Proof.
  intros Hd Hp k [Hk| ->%list_elem_of_singleton]%elem_of_app; [|by left]. right. split; [|by apply Hp].
  apply list_elem_of_fmap in Hk as ([j f] & -> & Hin). exists f. by apply pool_cands, peers_pool.
Qed.

Lemma start_row k f : (k, f) ∈ cands → fd_rows db0 !! k = Some f ∧ open_fact f = true.
Proof.
  intros Hk. destruct (cand_row k f Hk) as (Hf & [Ho _] & Hne). cbn.
  by rewrite lookup_insert_ne.
Qed.

Lemma peers_start k :
  k ∈ map fst (day_peers a pool) → ∃ f, fd_rows db0 !! k = Some f ∧ open_fact f = true.
Proof.
  intros ([j f] & -> & Hin)%list_elem_of_fmap. exists f. by apply start_row, pool_cands, peers_pool.
Qed.

Lemma succeed_evolved : evolved a id (fd_rows db) (fd_rows (succeed a pool id db0).1).
Proof.
  unfold succeed. case_match; [|case_match]; cbn [fst].
  - apply evolved_new; [by repeat split|].
    assert (Hc : evolved a id (fd_rows db)
      (fd_rows (fold_left (close_loser id (sa_valid_from a)) (closing a pool) db0))).
    { apply evolved_closed; [|apply evolved_start]. intros kv ?. by apply pool_cands, closing_pool. }
    case_match; [|done]. apply evolved_competing; [|done]. intros k Hk.
    eapply peers_open; [exact Hc| |set_solver].
    intros j Hj. destruct (peers_start j Hj) as (f & Hf & Ho).
    apply (closing_open _ _ _ _ f); [|done..].
    intros ([i g] & -> & Hin)%list_elem_of_fmap. by eapply (closing_peers (i, g)).
  - apply evolved_new; [by repeat split|]. apply evolved_competing; [|apply evolved_start].
    by apply peers_open; [apply evolved_start|apply peers_start].
  - apply evolved_new; [by repeat split|apply evolved_start].
Qed.

Lemma ended_spec e :
  ended a cands = Some e →
  e ∈ cands ∧ f_validUntil e.2 = None ∧ same_value (f_object e.2) (sa_object a) = true ∧
  ∃ u, sa_valid_until a = Some u ∧ (f_validFrom e.2 < u)%Z.
Proof.
  unfold ended. destruct (sa_valid_until a) as [u|]; [|done]. intros H%pick_In.
  apply elem_of_bfilter in H as [Hin [[Hn Hlt]%andb_true_iff Hv]%andb_true_iff].
  apply bool_decide_eq_true in Hn. split_and!; [done..|]. exists u. split; [done|lia].
Qed.

Lemma settle_new_evolved : evolved a id (fd_rows db) (fd_rows (settle_new cosine a cands id db0).1).
Proof.
  unfold settle_new. fold pool. destruct (ended a cands) as [[k f]|] eqn:He; cbn [fst].
  { apply evolved_new; [by repeat split|]. destruct (ended_spec _ He) as (Hin & Hn & _).
    apply evolved_update; [apply evolved_start|by repeat split|..].
    - intros f0 _. by apply (cand_in_slot k f).
    - intros f0 _ Hf0 Ho. destruct (start_row k f Hin) as [Hf _]. cbn in *. simplify_eq. split; [done|by right]. }
  destruct (corroborated _ _) as [[k f]|] eqn:Hc; cbn [fst].
  { assert (Hin : (k, f) ∈ cands).
    { unfold corroborated in Hc. apply pick_In, elem_of_bfilter in Hc as [Hc _].
      case_bool_decide; [done|by apply pool_cands]. }
    apply evolved_update; [apply evolved_new; [by repeat split|apply evolved_start]|by repeat split|..].
    - intros f0 _. by apply (cand_in_slot k f).
    - intros f0 _ _ Ho. split; [done|by left]. }
  destruct (restated _ _); cbn [fst]; [apply evolved_new; [by repeat split|apply evolved_start]|].
  destruct (length pool =? 0); [apply evolved_new; [by repeat split|apply evolved_start]|].
  destruct (next_after _ _); cbn [fst slot_history]; [apply evolved_new; [by repeat split|apply evolved_start]|].
  apply succeed_evolved.
Qed.
End calls.
