(* ===== verification/FactLaws.v ===== *)
(** * What settling a fact guarantees

    A call touches the slot it writes and nothing else; a dispute never stays with one
    side; a value ends where its successor begins. *)

From S2P Require Import Prelude Js FactSlots FactSettle.
From stdpp Require Import gmap.
Local Open Scope string_scope.
Local Open Scope nat_scope.

(** Settling is local to its slot: whatever the semantics and the outcome, every
    other row keeps its claim, its scope and its end, and closed rows stay closed; a
    row outside the slot (another entity, predicate, user, circle, team or derived
    world) changes only in that a dispute it was left alone in ends; and the only new
    row is the one the outcome names. *)
Theorem settle_stays_in_its_slot cosine created a db :
  let '(db', o) := settle_fact cosine created a db in
  (∀ k f, fd_rows db !! k = Some f →
     ∃ f', fd_rows db' !! k = Some f' ∧ f_claim f' = f_claim f ∧ f_scope f' = f_scope f ∧
       (open_fact f' = true → open_fact f = true) ∧
       (open_fact f = false ∨ slot_of f ≠ call_slot a →
        f' = f ∨ (competing_open f = true ∧ cl_entityId (f_claim f) = sa_entity_id a ∧
                  f' = with_status Active f))) ∧
  (∀ k f', fd_rows db' !! k = Some f' → fd_rows db !! k = None → ro_factId o = Some k).
Proof.
  pose proof (settle_new_evolved cosine a db) as [Hold Hid]. revert Hold Hid.
  unfold settle_fact. destruct created; cbn [negb].
  2: { intros _ _. cbn. split; [|by intros; congruence]. intros k f Hf. exists f. naive_solver. }
  assert (Ho : ro_factId (settle_new cosine a (candidates a db) (fresh (dom (fd_rows db)))
    (with_rows (<[fresh (dom (fd_rows db)) := new_fact a db]> (fd_rows db)) db)).2 =
    Some (fresh (dom (fd_rows db)))).
  { unfold settle_new, succeed. by repeat case_match. }
  destruct (settle_new _ _ _ _ _) as [db' o]. cbn in *. intros Hold Hid. split.
  - intros k f Hf. assert (Hne : k ≠ fresh (dom (fd_rows db))).
    { intros ->. by rewrite fresh_row in Hf. }
    specialize (Hold k Hne). rewrite Hf in Hold. destruct (fd_rows db' !! k) as [f'|]; [|done].
    destruct Hold as (Hc & Hs & _ & Hop & Hd). exists f'. split_and!; [done..|by intros [? _]%Hop|].
    intros Hout. destruct Hd as [?|[?|[H1 H2]]]; [by left|by right|]. destruct Hout; congruence.
  - intros k f' Hf' Hno. rewrite Ho. destruct (decide (k = fresh (dom (fd_rows db)))) as [->|Hne]; [done|].
    specialize (Hold k Hne). by rewrite Hno, Hf' in Hold.
Qed.

(** ** Disputes *)

Lemma update_no_lone k g db :
  no_lone (fd_rows db) →
  (∀ f, fd_rows db !! k = Some f →
     competing_open (g f) = false ∧ (competing_open f = true → open_status (f_status (g f)) = false)) →
  no_lone (fd_rows (update_fact k g db)).
Proof.
  intros Hdb Hg. unfold update_fact. destruct (fd_rows db !! k) as [f|] eqn:Hf; [|done].
  destruct (Hg f eq_refl) as [Hn Hc]. case_match eqn:E; cbn.
  - by apply event_no_lone.
  - apply quiet_no_lone; [done..|]. intros f0. rewrite Hf. intros [= <-].
    destruct (competing_open f) eqn:Ec; [|done]. rewrite (Hc eq_refl), andb_true_r in E.
    unfold competing_open in Ec. by rewrite E in Ec.
Qed.

Lemma update_same_no_lone k g db :
  no_lone (fd_rows db) →
  (∀ f, same_rivalry f (g f) ∧ f_status (g f) = f_status f ∧ f_retractedAt (g f) = f_retractedAt f) →
  no_lone (fd_rows (update_fact k g db)).
Proof.
  intros Hdb Hg. unfold update_fact. destruct (fd_rows db !! k) as [f|] eqn:Hf; [|done].
  destruct (Hg f) as (Hs & Hst & Hr). rewrite Hst.
  replace (bool_decide (f_status f = Competing) && negb (open_status (f_status f))) with false.
  2: { unfold open_status. by destruct (f_status f). }
  cbn. eapply same_no_lone; [done|exact Hf|done|]. unfold competing_open. by rewrite Hst, Hr.
Qed.

(** An undisputed row is untouched by updates of other rows. *)
Lemma update_other k j g db f :
  j ≠ k → fd_rows db !! k = Some f → competing_open f = false → fd_rows (update_fact j g db) !! k = Some f.
Proof.
  intros Hne Hf Hc. unfold update_fact. destruct (fd_rows db !! j) as [x|]; [|done].
  assert (Hf' : <[j := g x]> (fd_rows db) !! k = Some f) by by rewrite lookup_insert_ne.
  case_match; [|done]. cbn. destruct (event_settled (cl_entityId (f_claim x)) j (<[j := g x]> (fd_rows db)) k)
    as [->|(f0 & Hf0 & Hc0 & _)]; [done|]. congruence.
Qed.

Lemma update_self k g db f :
  fd_rows db !! k = Some f → competing_open (g f) = false ∨ open_status (f_status (g f)) = true →
  fd_rows (update_fact k g db) !! k = Some (g f).
Proof.
  intros Hf Hg. unfold update_fact. rewrite Hf. case_match eqn:E; cbn; [|by rewrite lookup_insert_eq].
  assert (Hf' : <[k := g f]> (fd_rows db) !! k = Some (g f)) by by rewrite lookup_insert_eq.
  destruct (event_settled (cl_entityId (f_claim f)) k (<[k := g f]> (fd_rows db)) k)
    as [->|(f0 & Hf0 & Hc0 & _)]; [done|].
  apply andb_true_iff in E as [_ E%negb_true_iff]. destruct Hg; congruence.
Qed.

Lemma closing_no_lone id until l db :
  no_lone (fd_rows db) → no_lone (fd_rows (fold_left (close_loser id until) l db)).
Proof.
  revert db. induction l as [|[k f] l IH]; intros db Hdb; simpl; [done|].
  apply IH, update_no_lone; [done|]. by intros f0 _.
Qed.

Lemma closing_other id until l db k f :
  k ∉ map fst l → fd_rows db !! k = Some f → competing_open f = false →
  fd_rows (fold_left (close_loser id until) l db) !! k = Some f.
Proof.
  revert db. induction l as [|[j x] l IH]; intros db Hk Hf Hc; simpl in *; [done|].
  rewrite not_elem_of_cons in Hk. destruct Hk. apply IH; [done| |done]. by apply update_other.
Qed.

Lemma update_open k g db f :
  fd_rows db !! k = Some f → open_status (f_status (g f)) = true →
  fd_rows (update_fact k g db) = <[k := g f]> (fd_rows db).
Proof. intros Hf Hg. unfold update_fact. by rewrite Hf, Hg, andb_false_r. Qed.

Lemma set_competing_lookup ks db i :
  fd_rows (set_competing ks db) !! i =
  if bool_decide (i ∈ ks) then with_status Competing <$> (fd_rows db !! i) else fd_rows db !! i.
Proof.
  revert db. induction ks as [|k ks IH]; intros db; simpl; [done|].
  rewrite IH. clear IH. assert (Hk : fd_rows (update_fact k (with_status Competing) db) !! i =
    if bool_decide (i = k) then with_status Competing <$> (fd_rows db !! i) else fd_rows db !! i).
  { destruct (fd_rows db !! k) as [x|] eqn:Hx.
    - rewrite (update_open k _ db x) by done. case_bool_decide as Hi.
      + subst. by rewrite lookup_insert_eq, Hx.
      + by rewrite lookup_insert_ne.
    - unfold update_fact. rewrite Hx. case_bool_decide; [|done]. subst. by rewrite Hx. }
  rewrite Hk. clear Hk. destruct (decide (i = k)) as [->|Hne].
  - rewrite (bool_decide_eq_true_2 (k = k)), (bool_decide_eq_true_2 (k ∈ k :: ks)) by (done || by constructor).
    case_bool_decide; [|done]. by destruct (fd_rows db !! k).
  - rewrite (bool_decide_eq_false_2 (i = k)) by done.
    rewrite (bool_decide_ext (i ∈ k :: ks) (i ∈ ks)) by set_solver. done.
Qed.

(** Turning the peers and the new row into one dispute, recorded on the new row. *)
Lemma dispute_no_lone ids id new p t db :
  fd_rows db !! id = Some new → competing_open new = false → f_retractedAt new = None →
  p ∈ ids → p ≠ id → ct_competingFactIds t = ids →
  (∀ k, k ∈ ids → ∃ f, fd_rows db !! k = Some f ∧ f_retractedAt f = None ∧
                       cl_entityId (f_claim f) = cl_entityId (f_claim new)) →
  no_lone (fd_rows db) →
  no_lone (fd_rows (update_fact id (with_trace t) (set_competing (app ids [id]) db))).
Proof.
  intros Hnew Hc Hr Hp Hpid Ht Hids Hdb.
  set (new' := with_trace t (with_status Competing new)).
  assert (Hrows : ∀ i, fd_rows (update_fact id (with_trace t) (set_competing (app ids [id]) db)) !! i =
    if bool_decide (i = id) then Some new'
    else if bool_decide (i ∈ ids) then with_status Competing <$> (fd_rows db !! i) else fd_rows db !! i).
  { intros i. rewrite (update_open id _ _ (with_status Competing new)).
    2: { rewrite set_competing_lookup, bool_decide_eq_true_2, Hnew by set_solver. done. }
    2: done.
    case_bool_decide as Hi.
    - subst. by rewrite lookup_insert_eq.
    - rewrite lookup_insert_ne by done. rewrite set_competing_lookup.
      rewrite (bool_decide_ext (i ∈ app ids [id]) (i ∈ ids)) by set_solver. done. }
  assert (Hpeer : ∀ k f, k ∈ ids → k ≠ id → fd_rows db !! k = Some f →
    competing_open (with_status Competing f) = true ∧ rivals id new' k (with_status Competing f) = true).
  { intros k f Hk Hne Hf. destruct (Hids k Hk) as (f0 & Hf0 & Hr0 & He).
    assert (f0 = f) as -> by congruence.
    assert (Ho : opponent_of new' k = true).
    { unfold opponent_of. cbn. by rewrite Ht, (bool_decide_eq_true_2 (k ∈ ids)), orb_true_r. }
    unfold competing_open. cbn. rewrite Hr0. split; [done|]. unfold rivals.
    rewrite (bool_decide_eq_true_2 (_ = cl_entityId _)), (bool_decide_eq_false_2 (id = k)), Ho by (done || congruence).
    by rewrite orb_true_r. }
  intros i f. rewrite Hrows. case_bool_decide as Hi.
  - intros [= <-] _. subst i. destruct (Hids p Hp) as (fp & Hfp & _).
    destruct (Hpeer p fp Hp Hpid Hfp) as [H1 H2]. apply has_rival_iff. exists p, (with_status Competing fp).
    rewrite Hrows, bool_decide_eq_false_2, bool_decide_eq_true_2, Hfp by done. done.
  - case_bool_decide as Hin.
    + destruct (Hids i Hin) as (f0 & Hf0 & _). rewrite Hf0. intros [= <-] _.
      apply has_rival_iff. exists id, new'. rewrite Hrows, bool_decide_eq_true_2 by done.
      destruct (Hpeer i f0 Hin Hi Hf0) as [H1 H2]. rewrite rivals_sym. split_and!; [done| |done].
      unfold competing_open. cbn. by rewrite Hr.
    + intros Hf Hcf. destruct (proj1 (has_rival_iff _ _ _) (Hdb i f Hf Hcf)) as (j & g & Hj & Hg & Hv).
      apply has_rival_iff. assert (j ≠ id) by (intros ->; congruence).
      case (decide (j ∈ ids)) as [Hji|Hji].
      * exists j, (with_status Competing g). rewrite Hrows, bool_decide_eq_false_2, bool_decide_eq_true_2, Hj by done.
        split_and!; [done| |].
        -- unfold competing_open in *. cbn. by apply andb_true_iff in Hg as [_ ->].
        -- rewrite rivals_sym, (rivals_same j g) by done. by rewrite rivals_sym.
      * exists j, g. rewrite Hrows, !bool_decide_eq_false_2 by done. done.
Qed.

Section disputes.
Context (cosine : list float → list float → float) (a : SettleArgs) (db : FactDb).
Let id : nat := fresh (dom (fd_rows db)).
Let cands := candidates a db.
Let pool := slot_pool cosine a cands.
Let db0 : FactDb := with_rows (<[id := new_fact a db]> (fd_rows db)) db.
Hypothesis Hdb : no_lone (fd_rows db).

Lemma start_no_lone : no_lone (fd_rows db0).
Proof. cbn. apply quiet_no_lone; [done..|]. intros f Hf. pose proof (fresh_row db) as Hn. unfold id in Hf. congruence. Qed.

Lemma start_new : fd_rows db0 !! id = Some (new_fact a db).
Proof. cbn. by rewrite lookup_insert_eq. Qed.

(** An update of the new row that keeps it out of every dispute. *)
Lemma new_no_lone g d :
  no_lone (fd_rows d) → fd_rows d !! id = Some (new_fact a db) →
  competing_open (g (new_fact a db)) = false → no_lone (fd_rows (update_fact id g d)).
Proof.
  intros Hd Hid Hg. apply update_no_lone; [done|]. intros f. rewrite Hid. by intros [= <-].
Qed.

Lemma cand_ne kv : kv ∈ cands → kv.1 ≠ id.
Proof. destruct kv as [k f]. intros Hk. by destruct (cand_row _ _ _ _ Hk) as (_ & _ & ?). Qed.

Lemma pool_ids_new l : (∀ kv, kv ∈ l → kv ∈ pool) → id ∉ map fst l.
Proof. intros Hl ([k f] & Hk & Hin)%list_elem_of_fmap. apply (cand_ne (k, f)); [|done]. by eapply pool_cands, Hl. Qed.

Lemma succeed_no_lone :
  length (closing a pool) = 0 ∨ day_peers a pool = [] →
  no_lone (fd_rows (succeed a pool id db0).1).
Proof.
  intros Hq. unfold succeed. case_match eqn:Ec; [|case_match eqn:Ep]; cbn [fst].
  - destruct Hq as [Hq| ->]; [by rewrite Hq in Ec|]. cbn.
    apply new_no_lone; [by apply closing_no_lone, start_no_lone| |done].
    apply closing_other; [|apply start_new|done].
    apply pool_ids_new. apply closing_pool.
  - apply Nat.ltb_lt in Ep. destruct (day_peers a pool) as [|p ps] eqn:Hps; [simpl in Ep; lia|].
    assert (Hrow : ∀ kv, kv ∈ p :: ps → kv ∈ cands).
    { intros kv Hkv. apply (pool_cands cosine), (peers_pool cosine a db). by rewrite <- Hps in Hkv. }
    apply (dispute_no_lone _ id (new_fact a db) p.1); try done; [apply start_new|by constructor|
      apply cand_ne, Hrow; by constructor| |apply start_no_lone].
    intros k ([j f] & -> & Hin)%list_elem_of_fmap.
    destruct (start_row a db j f (Hrow _ Hin)) as [Hf Ho]. exists f. split; [exact Hf|].
    unfold open_fact in Ho. apply andb_true_iff in Ho as [_ Ho%bool_decide_eq_true].
    split; [done|]. destruct (cand_row _ _ _ _ (Hrow _ Hin)) as (_ & [_ Hs] & _).
    by apply (f_equal sl_entity) in Hs.
  - by apply new_no_lone; [apply start_no_lone|apply start_new|].
Qed.
End disputes.

(** A dispute never stays with one side: starting from a table in which every
    competing row has a competing rival (migration 0175's [fn::fact_has_rival]), a call
    leaves such a table whatever it does - a restatement, a corroboration, history, a
    succession, or a new dispute of one instant - except for the one outcome below. *)
Theorem settle_keeps_rivals cosine created a db
    (Hdb : no_lone (fd_rows db)) :
  let '(db', o) := settle_fact cosine created a db in
  ro_outcome o ≠ OSuperseded ∨ ro_competingFactIds o = [] → no_lone (fd_rows db').
Proof.
  unfold settle_fact. destruct created; cbn [negb]; [|done].
  unfold settle_new. destruct (ended a _) as [[k f]|] eqn:He.
  { intros _. cbn [fst]. destruct (ended_spec _ _ _ He) as (Hin & _).
    assert (Hne := cand_ne a db _ Hin). apply (new_no_lone a db); [| |done].
    - apply update_same_no_lone; [by apply start_no_lone|by repeat split].
    - apply update_other; [done|by apply start_new|done]. }
  destruct (corroborated _ _) as [c|].
  { intros _. apply update_same_no_lone; [|by repeat split].
    by apply (new_no_lone a db); [apply start_no_lone|apply start_new|]. }
  destruct (restated _ _) as [c|].
  { intros _. by apply (new_no_lone a db); [apply start_no_lone|apply start_new|]. }
  destruct (length _ =? 0).
  { intros _. by apply (new_no_lone a db); [apply start_no_lone|apply start_new|]. }
  destruct (next_after _ _) as [n|].
  { intros _. by apply (new_no_lone a db); [apply start_no_lone|apply start_new|]. }
  destruct (succeed _ _ _ _) as [db' o] eqn:E. intros Hq.
  pose proof (succeed_no_lone cosine a db Hdb) as Hs. rewrite E in Hs. apply Hs.
  unfold succeed in E. destruct (0 <? length (closing _ _)) eqn:Ec; simplify_eq.
  - right. destruct Hq as [?|Hq]; [done|]. cbn in Hq. by destruct (day_peers _ _).
  - left. apply Nat.ltb_ge in Ec. lia.
Qed.

(** ** Ends *)

(** Closing some rows, each at an end of its own. *)
Definition close_at (id : nat) (until : nat * Fact → Z) (db : FactDb) (kv : nat * Fact) : FactDb :=
  update_fact kv.1 (λ f, closed_by id (until kv) (with_validUntil (f_validUntil kv.2) f)) db.

(** Row [k] as it was, or out of a dispute. *)
Definition kept_or_settled (f f' : Fact) : Prop :=
  f' = f ∨ (f_status f = Competing ∧ f' = with_status Active f).

Lemma kept_or_settled_trans f f1 f2 : kept_or_settled f f1 → kept_or_settled f1 f2 → kept_or_settled f f2.
Proof.
  intros [->|[Hc ->]] [->|[Hc2 ->]]; unfold kept_or_settled; auto.
Qed.

Lemma update_other_settled j k g db f :
  j ≠ k → fd_rows db !! k = Some f →
  ∃ f', fd_rows (update_fact j g db) !! k = Some f' ∧ kept_or_settled f f'.
Proof.
  intros Hne Hf. unfold update_fact. destruct (fd_rows db !! j) as [y|]; [|exists f; split; [done|by left]].
  assert (Hy : <[j := g y]> (fd_rows db) !! k = Some f) by by rewrite lookup_insert_ne.
  case_match; cbn; [|exists f; split; [done|by left]].
  destruct (event_settled (cl_entityId (f_claim y)) j (<[j := g y]> (fd_rows db)) k)
    as [->|(f0 & Hf0 & Hc & _ & ->)]; [exists f; split; [done|by left]|].
  assert (f0 = f) as -> by congruence. eexists; split; [done|]. right. split; [|done].
  unfold competing_open in Hc. by apply andb_true_iff in Hc as [Hc%bool_decide_eq_true _].
Qed.

Lemma close_at_lookup id until l db k f :
  NoDup (map fst l) → (k, f) ∈ l → (∃ f0, fd_rows db !! k = Some f0 ∧ kept_or_settled f f0) →
  fd_rows (fold_left (close_at id until) l db) !! k = Some (closed_by id (until (k, f)) f).
Proof.
  revert db. induction l as [|[j x] l IH]; intros db Hnd; simpl; [by intros ?%elem_of_nil|].
  simpl in Hnd. apply NoDup_cons in Hnd as [Hj Hnd]. intros [E|Hin]%elem_of_cons (f0 & Hk & Hf0).
  - injection E as <- <-. clear IH.
    assert (Hc : ∀ l db, k ∉ map fst l → fd_rows db !! k = Some (closed_by id (until (k, f)) f) →
      fd_rows (fold_left (close_at id until) l db) !! k = Some (closed_by id (until (k, f)) f)).
    { clear. induction l as [|[j x] l IH]; intros db Hk Hf; simpl in *; [done|].
      rewrite not_elem_of_cons in Hk. destruct Hk. apply IH; [done|]. by apply update_other. }
    apply Hc; [done|]. unfold close_at. rewrite (update_self _ _ _ _ Hk) by (by left).
    by destruct f, Hf0 as [->|[_ ->]].
  - assert (Hne : j ≠ k) by (intros ->; apply Hj, list_elem_of_fmap; by exists (k, f)).
    apply IH; [done..|].
    destruct (update_other_settled j k (λ f, closed_by id (until (j, x)) (with_validUntil (f_validUntil x) f))
      db f0 Hne Hk) as (f1 & Hf1 & Hs).
    exists f1. split; [done|]. by eapply kept_or_settled_trans.
Qed.

Lemma close_at_other id until l db k f :
  k ∉ map fst l → fd_rows db !! k = Some f →
  ∃ f', fd_rows (fold_left (close_at id until) l db) !! k = Some f' ∧ kept_or_settled f f'.
Proof.
  revert db f. induction l as [|[j x] l IH]; intros db f Hk Hf; simpl in *; [exists f; split; [done|by left]|].
  rewrite not_elem_of_cons in Hk. destruct Hk as [Hne Hk].
  destruct (update_other_settled j k (λ f, closed_by id (until (j, x)) (with_validUntil (f_validUntil x) f))
      db f (not_eq_sym Hne) Hf) as (f1 & Hf1 & Hs1).
  destruct (IH _ f1 Hk Hf1) as (f2 & Hf2 & Hs2). exists f2. split; [done|]. by eapply kept_or_settled_trans.
Qed.

Lemma closing_lookup id until l db k f :
  NoDup (map fst l) → (k, f) ∈ l → fd_rows db !! k = Some f →
  fd_rows (fold_left (close_loser id until) l db) !! k = Some (closed_by id until f).
Proof.
  intros Hnd Hin Hf. apply (close_at_lookup id (λ _, until)); [done..|]. exists f. split; [done|by left].
Qed.

Lemma set_competing_keeps ks db k f :
  k ∉ ks → fd_rows db !! k = Some f → fd_rows (set_competing ks db) !! k = Some f.
Proof. intros Hk Hf. by rewrite set_competing_lookup, bool_decide_eq_false_2. Qed.

Lemma closing_not_later cosine a db kv :
  next_after a (slot_pool cosine a (candidates a db)) = None →
  kv ∈ closing a (slot_pool cosine a (candidates a db)) →
  (f_validFrom kv.2 <= sa_valid_from a)%Z ∧ overlaps a kv.2 = true.
Proof.
  unfold next_after, closing. intros Hn Hin. split.
  - destruct (sa_semantics a) eqn:E; apply pick_None in Hn.
    1,3: apply elem_of_bfilter in Hin as [_ Hin]; lia.
    + destruct (decide (f_validFrom kv.2 <= sa_valid_from a)%Z) as [|Hlt]; [done|].
      assert (Hx : kv ∈ @nil (nat * Fact)) by (rewrite <- Hn; apply elem_of_bfilter; split; [done|lia]).
      by apply elem_of_nil in Hx.
    + apply elem_of_bfilter in Hin as [_ Hin]. unfold day_of in *.
      assert (f_validFrom kv.2 < sa_valid_from a)%Z; [|lia].
      apply Z.nle_gt. intros Hle. apply (Z.div_le_mono _ _ 86400000) in Hle; lia.
  - assert (Hp : kv ∈ slot_pool cosine a (candidates a db)).
    { destruct (sa_semantics a); rewrite ?elem_of_bfilter in Hin; naive_solver. }
    unfold slot_pool in Hp. destruct (sa_semantics a); rewrite ?elem_of_bfilter in Hp.
    + by apply elem_of_nil in Hp.
    + by destruct Hp.
    + by destruct Hp as [_ [_ ?]%andb_true_iff].
    + by destruct Hp as [_ [_ ?]%andb_true_iff].
Qed.

Lemma NoDup_pool cosine a db : NoDup (map fst (slot_pool cosine a (candidates a db))).
Proof.
  unfold slot_pool, candidates. destruct (sa_semantics a); [constructor|..];
    apply NoDup_map_bfilter, NoDup_select.
Qed.

(** The row the call made, and what it says. *)
Definition states (a : SettleArgs) (n : Fact) : Prop :=
  f_validFrom n = sa_valid_from a ∧ f_object n = sa_object a ∧ f_status n = Active ∧
  f_validUntil n = sa_valid_until a.

Lemma succeed_ends cosine a db db' o k f :
  let id := fresh (dom (fd_rows db)) in
  let pool := slot_pool cosine a (candidates a db) in
  next_after a pool = None →
  fd_rows db !! k = Some f → open_fact f = true →
  succeed a pool id (with_rows (<[id := new_fact a db]> (fd_rows db)) db) = (db', o) →
  (k ∉ ro_supersededFactIds o) ∧ (∃ f', fd_rows db' !! k = Some f' ∧ open_fact f' = true) ∨
  (k ∈ ro_supersededFactIds o ∧ slot_of f = call_slot a ∧ overlaps a f = true ∧
   (f_validFrom f <= sa_valid_from a)%Z ∧
   ∃ id n, ro_factId o = Some id ∧ fd_rows db' !! id = Some n ∧ states a n ∧
     fd_rows db' !! k = Some (closed_by id (f_validFrom n) f)).
Proof.
  intros id pool Hn Hf Ho. set (db0 := with_rows _ db).
  assert (Hne : id ≠ k) by (intros <-; pose proof (fresh_row db); unfold id in Hf; congruence).
  assert (H0 : fd_rows db0 !! k = Some f) by (subst db0; cbn; by rewrite lookup_insert_ne).
  assert (Hid : fd_rows db0 !! id = Some (new_fact a db)) by apply start_new.
  unfold succeed. case_match; [|case_match]; intros E; simplify_eq; cbn [ro_supersededFactIds ro_factId].
  - set (db1 := fold_left _ (closing a pool) db0).
    set (db2 := if 0 <? length (day_peers a pool) then set_competing (map fst (day_peers a pool)) db1 else db1).
    assert (Hold : id ∉ map fst (day_peers a pool)) by apply (pool_ids_new cosine a db), peers_pool.
    assert (Hid2 : fd_rows db2 !! id = Some (new_fact a db)).
    { assert (fd_rows db1 !! id = Some (new_fact a db)).
      { apply closing_other; [|done..]. apply (pool_ids_new cosine a db), closing_pool. }
      subst db2. case_match; [|done]. by apply set_competing_keeps. }
    destruct (decide (k ∈ map fst (closing a pool))) as [Hk|Hk]; [right|left]; (split; [done|]).
    + assert (Hkp : k ∉ map fst (day_peers a pool)).
      { apply list_elem_of_fmap in Hk as (kv & -> & Hin). intros Hp.
        by apply (closing_peers cosine a db kv). }
      apply list_elem_of_fmap in Hk as ([j x] & -> & Hin). cbn [fst] in *.
      destruct (closing_not_later cosine a db (j, x) Hn Hin) as [Hle Hov].
      destruct (cand_row a db j x) as (Hx & [_ Hs] & _).
      { eapply pool_cands, closing_pool, Hin. }
      assert (x = f) as -> by congruence. cbn in Hle, Hov. split_and!; [done..|]. exists id, (with_trace
        (trace "valid_time" (map fst (closing a pool)) [] (head (map fst (closing a pool))) (fd_now db0)) (new_fact a db)).
      split_and!; [done|by apply update_self; [|by left]|done|].
      apply update_other; [done| |done].
      assert (fd_rows db1 !! j = Some (closed_by id (sa_valid_from a) f)).
      { apply closing_lookup; [|done..]. unfold closing. destruct (sa_semantics a);
          try apply NoDup_map_bfilter; apply NoDup_pool. }
      subst db2. case_match; [|done]. by apply set_competing_keeps.
    + destruct (closing_open db (closing a pool) (sa_valid_from a) db0 k f Hk H0 Ho) as (f1 & Hf1 & Ho1).
      assert (H2 : ∃ f2, fd_rows db2 !! k = Some f2 ∧ open_fact f2 = true).
      { subst db2. case_match; [|eauto]. by eapply set_competing_open. }
      destruct H2 as (f2 & Hf2 & Ho2). by eapply update_keeps_open.
  - left. split; [set_solver|].
    destruct (set_competing_open db0 (app (map fst (day_peers a pool)) [id]) k f H0 Ho) as (f1 & Hf1 & Ho1).
    by eapply update_keeps_open.
  - left. split; [set_solver|]. by eapply update_keeps_open.
Qed.

(** A value ends exactly where its successor begins: a call closes the rows it
    reports as superseded and no other - the rest of the open rows stay open - and each
    closed row was an overlapping open row of the same slot that did not start later;
    its end becomes the start of the new row, which names it as successor, stays
    current and keeps the written value and end, while the end it had before is kept
    beside. *)
Theorem values_end_where_the_next_begins cosine created a db :
  let '(db', o) := settle_fact cosine created a db in
  ∀ k f, fd_rows db !! k = Some f → open_fact f = true →
    (k ∉ ro_supersededFactIds o) ∧ (∃ f', fd_rows db' !! k = Some f' ∧ open_fact f' = true) ∨
    (k ∈ ro_supersededFactIds o ∧ slot_of f = call_slot a ∧ overlaps a f = true ∧
     (f_validFrom f <= sa_valid_from a)%Z ∧
     ∃ id n, ro_factId o = Some id ∧ fd_rows db' !! id = Some n ∧ states a n ∧
       fd_rows db' !! k = Some (closed_by id (f_validFrom n) f)).
Proof.
  unfold settle_fact. destruct created; cbn [negb]; [|intros k f Hf Ho; left; split; [set_solver|eauto]].
  destruct (settle_new _ _ _ _ _) as [db' o] eqn:E. intros k f Hf Ho. revert E.
  set (id := fresh (dom (fd_rows db))). set (db0 := with_rows _ db).
  assert (Hne : id ≠ k) by (intros <-; pose proof (fresh_row db); unfold id in Hf; congruence).
  assert (H0 : fd_rows db0 !! k = Some f) by (subst db0; cbn; by rewrite lookup_insert_ne).
  assert (Hnew : ∀ g d, (∃ f', fd_rows d !! k = Some f' ∧ open_fact f' = true) →
    ∃ f', fd_rows (update_fact id g d) !! k = Some f' ∧ open_fact f' = true).
  { intros g d (f' & Hf' & Ho'). by eapply update_keeps_open. }
  assert (Hself : ∀ j g d, (∀ x, open_fact (g x) = open_fact x ∧ f_status (g x) = f_status x) →
    (∃ f', fd_rows d !! k = Some f' ∧ open_fact f' = true) →
    ∃ f', fd_rows (update_fact j g d) !! k = Some f' ∧ open_fact f' = true).
  { intros j g d Hg (f' & Hf' & Ho'). destruct (decide (j = k)) as [->|]; [|by eapply update_keeps_open].
    exists (g f'). destruct (Hg f') as [Hg1 Hg2]. split; [|congruence].
    apply update_self; [done|]. right. rewrite Hg2. unfold open_fact in Ho'.
    by apply andb_true_iff in Ho' as [? _]. }
  unfold settle_new. destruct (ended a _) as [[j x]|].
  { intros [= <- <-]. left. split; [set_solver|]. apply Hnew, Hself; [done|eauto]. }
  destruct (corroborated _ _) as [c|].
  { intros [= <- <-]. left. split; [set_solver|]. apply Hself; [done|]. eauto. }
  destruct (restated _ _) as [c|].
  { intros [= <- <-]. left. split; [set_solver|]. eauto. }
  destruct (length _ =? 0).
  { intros [= <- <-]. left. split; [set_solver|]. eauto. }
  destruct (next_after _ _) as [n|] eqn:Hn.
  { intros [= <- <-]. left. split; [set_solver|]. apply Hnew. eauto. }
  clear Hself. apply succeed_ends; [done..|eauto].
Qed.

(** ** Examples *)

Definition day : Z := 86400000.

Definition sample_source (v r : string) : Source :=
  {| so_vertical := Some v; so_recorder := Some r; so_originKey := None; so_rest := [] |}.

Definition sample_call (sem : Semantics) (v : string) (at_ : float) (from : Z) : SettleArgs :=
  {| sa_entity_id := "e"; sa_predicate := "visited"; sa_object := v; sa_object_meta := None;
     sa_embedding := [at_]; sa_confidence := 0.9%float; sa_valid_from := from;
     sa_valid_until := None; sa_source := sample_source "chat" "u"; sa_source_trust := 0.5%float;
     sa_semantics := sem; sa_similarity_threshold := 0.8%float; sa_slot_similarity := Some 0.8%float;
     sa_lang := None; sa_script := None; sa_entropy := None; sa_user_id := None;
     sa_derived_version := None; sa_predicate_alias := None; sa_circles := [] |}.

(** Two points are alike when they are at most 1 apart. *)
Definition near (x y : list float) : float :=
  match x, y with
  | [a], [b] => if PrimFloat.leb (PrimFloat.abs (PrimFloat.sub a b)) 1%float then 1%float else 0%float
  | _, _ => 0%float
  end.

Definition empty_db : FactDb :=
  {| fd_rows := ∅; fd_trust := []; fd_registry := []; fd_letters := []; fd_now := 0 |}.

Definition statuses (db : FactDb) (ids : list nat) : list (option FactStatus) :=
  map (λ k, f_status <$> fd_rows db !! k) ids.

(** [no_lone], executable. *)
Definition no_loneb (rows : gmap nat Fact) : bool :=
  forallb (λ kv, negb (competing_open kv.2) || fact_has_rival kv.1 kv.2 rows) (map_to_list rows).

Lemma no_loneb_spec rows : no_loneb rows = true ↔ no_lone rows.
Proof.
  unfold no_loneb. rewrite forallb_In. split.
  - intros H i f Hf Hc. specialize (H (i, f)). rewrite elem_of_map_to_list in H. specialize (H Hf).
    cbn in H. by rewrite Hc in H.
  - intros H [i f] Hin%elem_of_map_to_list. cbn. destruct (competing_open f) eqn:Hc; [|done].
    by apply H.
Qed.

(** Two events of one day that resemble each other compete. *)
Example event_day_dispute :
  let '(db, os) := settle_facts near [sample_call BitemporalEvent "Paris" 0%float 0;
                                      sample_call BitemporalEvent "Rome" 1%float (day / 2)] empty_db in
  map ro_outcome os = [OInserted; OCompeting] ∧
  map (f_status ∘ snd) (map_to_list (fd_rows db)) = [Competing; Competing].
Proof. vm_compute. done. Qed.

Lemma settle_keeps_rivals_witness :
  let db := (settle_facts near [sample_call BitemporalEvent "Paris" 0%float 0;
                                sample_call BitemporalEvent "Rome" 1%float (day / 2)] empty_db).1 in
  no_lone (fd_rows db) ∧
  no_lone (fd_rows (settle_fact near true (sample_call SingleActive "Oslo" 9%float (3 * day)) db).1).
Proof.
  set (db := (settle_facts _ _ _).1).
  assert (Hdb : no_lone (fd_rows db)) by (apply no_loneb_spec; vm_compute; done).
  split; [done|]. pose proof (settle_keeps_rivals near true (sample_call SingleActive "Oslo" 9%float (3 * day)) db Hdb) as H.
  destruct (settle_fact _ _ _ _) as [db' o] eqn:E. apply H. right.
  apply (f_equal (λ r, ro_competingFactIds r.2)) in E. cbn in E. rewrite <- E. vm_compute. done.
Defined.

(** The exception is real: an event that succeeds an earlier one and falls on the day
    of another leaves that other competing with nobody. The new row stays active, so the
    one row of the dispute has no competing rival and migration 0175's own test fails. *)
Theorem succession_leaves_a_lone_competitor :
  let '(db, os) := settle_facts near
      [sample_call BitemporalEvent "Paris" 0%float 0; sample_call BitemporalEvent "Rome" 2%float (2 * day);
       sample_call BitemporalEvent "Turin" 1%float (2 * day)] empty_db in
  map ro_outcome os = [OInserted; OInserted; OSuperseded] ∧
  statuses db [0; 1; 2] = [Some Superseded; Some Competing; Some Active] ∧
  ¬ no_lone (fd_rows db).
Proof.
  set (r := settle_facts _ _ _).
  assert (H : map ro_outcome r.2 = [OInserted; OInserted; OSuperseded] ∧
    statuses r.1 [0; 1; 2] = [Some Superseded; Some Competing; Some Active] ∧
    no_loneb (fd_rows r.1) = false) by (vm_compute; done).
  destruct r as [db os]. destruct H as (H1 & H2 & H3). split_and!; [done..|].
  rewrite <- no_loneb_spec. cbn in H3. congruence.
Qed.
