(* ===== verification/FactPolicy.v ===== *)
(** * How a fact write is resolved

    The decisions of [ingest/fact-resolver.service.ts] made before the datastore is
    called: which slot and which semantics a fact resolves in, what it is embedded
    from and which language it is stamped with ([buildResolveCall]). The environment's
    flags are a record; the predicate registry, the embedder and the language detector
    are an interface. *)

From S2P Require Import Prelude Js Regex FactSlots FactSettle.
From Stdlib Require Import Ascii.
Local Open Scope string_scope.
Local Open Scope nat_scope.

Inductive IngestPath : Type := Direct | Mention.

#[export] Instance IngestPath_eq_dec : EqDecision IngestPath.
Proof. solve_decision. Defined.

(** The environment, read at each call. *)
Record ResolverEnv := {
  env_directSlot : bool;            (* CONFLICT_DIRECT_FACT_SLOT *)
  env_mentionSlot : bool;           (* CONFLICT_MENTION_FACT_SLOT *)
  env_canonicalization : bool;      (* CONFLICT_SLOT_CANONICALIZATION *)
  env_langAttribution : bool;       (* MULTILINGUAL_LANG_ATTRIBUTION *)
  env_langGate : bool;              (* MULTILINGUAL_LANG_STAMP_CONFIDENCE_GATE *)
  env_outcomes : bool;              (* the outcome telemetry is wired and on *)
  env_similarityThreshold : option string;
  env_slotSimilarity : option string
}.

(** The columns of a registry row the resolver reads. *)
Record Policy := { pl_predicateId : string; pl_semantics : Semantics; pl_status : option string }.

Definition DEFAULT_FALLBACK : Policy :=
  {| pl_predicateId := "__default__"; pl_semantics := AppendOnly; pl_status := Some "active" |}.

(** ** Semantics *)

Definition VALUE_BEARING_ASPECTS : list string :=
  ["identity"; "residence"; "work"; "education"; "health"; "possessions"; "preferences"].

Definition derivedSemanticsFor (aspect : string) (slotSemantics : bool) : Semantics :=
  if slotSemantics && bool_decide (aspect ∈ VALUE_BEARING_ASPECTS) then BitemporalEvent else AppendOnly.

Definition SLOT_EXACT_SIMILARITY_FLOOR : float := (-1)%float.

Definition conflictSlotResolution (env : ResolverEnv) (policy : Policy) (path : IngestPath) :
    Semantics * option float :=
  let sem := pl_semantics policy in
  match path with
  | Direct =>
      let proposedGuess :=
        bool_decide (sem = SingleActive) && bool_decide (pl_status policy = Some "proposed") in
      if negb (env_directSlot env) then (sem, None)
      else if proposedGuess then (Bitemporal, Some SLOT_EXACT_SIMILARITY_FLOOR)
      else if bool_decide (pl_predicateId policy = pl_predicateId DEFAULT_FALLBACK)
      then (Bitemporal, None)
      else (sem, None)
  | Mention =>
      if env_mentionSlot env && bool_decide (sem = SingleActive)
      then (Bitemporal, Some SLOT_EXACT_SIMILARITY_FLOOR)
      else (sem, None)
  end.

Definition conflictSlotSemantics (env : ResolverEnv) (policy : Policy) (path : IngestPath) : Semantics :=
  (conflictSlotResolution env policy path).1.

(** ** The calendar anchor *)

Definition ascii_word (c : ascii) : bool :=
  is_lower c || is_upper c || is_digit c || bool_decide (c = "_"%char).

(** [\b] between two neighbours; [None] is an end of the string. *)
Definition word_at (o : option ascii) : bool := match o with Some c => ascii_word c | None => false end.
Definition boundary (before after : option ascii) : bool :=
  negb (bool_decide (word_at before = word_at after)).

(** A match of [r] at the start of [s], ending at a boundary. *)
Fixpoint match_to_boundary (r : re) (before : option ascii) (s : list ascii) : bool :=
  (nullable r && boundary before (head s)) ||
  match s with
  | [] => false
  | c :: s' => match_to_boundary (deriv c r) (Some c) s'
  end.

(** [/\b...\b/.test(s)] *)
Fixpoint search_word (r : re) (before : option ascii) (s : list ascii) : bool :=
  (boundary before (head s) && match_to_boundary r before s) ||
  match s with
  | [] => false
  | c :: s' => search_word r (Some c) s'
  end.

Definition r_any_of (words : list string) : re :=
  fold_right (λ w r, RAlt (r_lit w) r) REmpty words.

Definition MONTHS : list string :=
  ["january"; "february"; "march"; "april"; "may"; "june"; "july"; "august"; "september";
   "october"; "november"; "december"].

Definition r_space : re := RCls is_space.
Definition r_digit : re := RCls is_digit.
Definition r_opt (r : re) : re := RAlt REps r.

(** [(?:january|...)\b(?:\s+\d{1,2}(?:st|nd|rd|th)?,?)?\s+\d{4}]; the [\b] after the
    name always holds, since a space follows. *)
Definition MONTH_YEAR_RE : re :=
  RSeq (r_any_of MONTHS)
    (RSeq (r_opt (RSeq (r_plus r_space)
                   (RSeq (r_range 1 2 r_digit)
                     (RSeq (r_opt (r_any_of ["st"; "nd"; "rd"; "th"])) (r_opt (r_lit ","))))))
      (RSeq (r_plus r_space) (r_exact 4 r_digit))).

(** [\d{4}-\d{2}-\d{2}] *)
Definition ISO_DATE_RE : re :=
  RSeq (r_exact 4 r_digit) (RSeq (r_lit "-") (RSeq (r_exact 2 r_digit)
    (RSeq (r_lit "-") (r_exact 2 r_digit)))).

Definition CALENDAR_ANCHOR_RE : re := RAlt MONTH_YEAR_RE ISO_DATE_RE.

(** [CALENDAR_ANCHOR_RE.test(object)]; the flag [i] folds case. *)
Definition calendar_anchored (object : string) : bool :=
  search_word CALENDAR_ANCHOR_RE None (String.list_ascii_of_string (to_lower object)).

(** ** The canonical slot *)

Definition SLOT_CANONICAL_ALIASES : list (string * string) :=
  [("duration_limit", "status"); ("state_change", "status")].
Definition PERSON_ENTITY_TYPES : list string := ["customer"; "staff"].
Definition NON_PERSON_GUARDED_ALIASES : list string := ["state_change"].

(** The argument of [resolve], less what only the telemetry reads. The expectation is
    carried; stamping it on the row is left out. *)
Inductive SupersededRef : Type := RefFact (id : nat) | RefEdge (id : nat).

#[export] Instance SupersededRef_eq_dec : EqDecision SupersededRef.
Proof. solve_decision. Defined.

Record ResolveInput := {
  ri_companyId : string;
  ri_entityId : string;
  ri_predicate : string;
  ri_predicateAlias : option string;
  ri_object : string;
  ri_sourceLang : option string;
  ri_entityType : option string;
  ri_objectMeta : option jsval;
  ri_embeddingText : option string;
  ri_precomputedEmbedding : option (list float);
  ri_confidence : float;
  ri_validFrom : Z;
  ri_validUntil : option Z;
  ri_expectedUntil : option Z;
  ri_source : Source;
  ri_entropy : option float;
  ri_userId : option string;
  ri_derivedVersion : option string;
  ri_recordOutcomeMetric : option bool;
  ri_supersedes : option (list SupersededRef)
}.

Definition canonicalSlotFor (env : ResolverEnv) (p : ResolveInput) (path : IngestPath) : option string :=
  if negb (bool_decide (path = Mention)) || negb (env_canonicalization env) then None
  else if bool_decide (ri_predicateAlias p ≠ None) then None
  else match OMap.get (ri_predicate p) SLOT_CANONICAL_ALIASES with
       | None => None
       | Some canonical =>
           if bool_decide (ri_predicate p ∈ NON_PERSON_GUARDED_ALIASES) &&
              match ri_entityType p with
              | None => true
              | Some t => bool_decide (t ∈ PERSON_ENTITY_TYPES)
              end
           then None
           else if calendar_anchored (ri_object p) then Some canonical else None
       end.

(** ** Source trust ([ingest/ingest-utils.ts]) *)

Definition idTailOf (rid : string) : string :=
  match index_of colon rid with None => rid | Some i => str_drop (i + 1) rid end.

(** The fields of [source] the heuristic reads. *)
Definition source_field (s : Source) (name : string) : option string :=
  match OMap.get name (so_rest s) with Some (VStr v) => Some v | _ => None end.

Definition sourceTrustFor (s : Source) : float :=
  let event p := match source_field s "eventId" with Some e => starts_with p e | None => false end in
  if event "billing." then 0.95%float
  else if event "incidents." then 0.9%float
  else if event "auth." then 0.9%float
  else match truthy (source_field s "messageId") with
       | Some _ => 0.5%float
       | None => 0.5%float
       end.

Definition factIndexText (predicate object : string) : string := predicate +:+ ": " +:+ object.

(** ** The services a call reads *)

Record Detection := {
  dt_language : string;
  dt_script : string;
  dt_confidence : float;
  dt_version : string
}.

(** The registry of the tenant (its snapshot, and what coining a predicate gives: the
    canonical id and the registry afterwards, or an exception), the embedder and the
    language detector. *)
Class ResolverServices := {
  policyFor : string → Policy;
  canonicalize : string → string → option (string * (string → Policy));
  embed : string → list float;
  detectLanguage : string → bool → Detection
}.

Inductive LangSource : Type := Detected | Inherited.

Record LangAttributionMeta := {
  lm_confidence : float;
  lm_source : LangSource;
  lm_version : string;
  lm_sourceLang : option string;
  lm_detectedLang : option string
}.

(** The parameters of [resolveFactCall]. *)
Record ResolveCall := {
  rc_companyId : string;
  rc_entityId : string;
  rc_predicate : string;
  rc_predicateAlias : option string;
  rc_object : string;
  rc_objectMeta : option jsval;
  rc_embedding : list float;
  rc_confidence : float;
  rc_validFrom : Z;
  rc_validUntil : option Z;
  rc_source : Source;
  rc_sourceTrust : float;
  rc_semantics : Semantics;
  rc_similarityFloor : option float;
  rc_lang : option string;
  rc_script : option string;
  rc_langMeta : option LangAttributionMeta;
  rc_entropy : option float;
  rc_userId : option string;
  rc_derivedVersion : option string
}.

Section build.
Context `{ResolverServices} (env : ResolverEnv).

Definition policyForPredicate (p : ResolveInput) (predicate : string) : Policy :=
  let keyed := default predicate (ri_predicateAlias p) in
  let first := policyFor keyed in
  if negb (bool_decide (pl_predicateId first = pl_predicateId DEFAULT_FALLBACK)) then first
  else match canonicalize keyed (keyed +:+ ": " +:+ ri_object p) with
       | Some (canonicalId, after) => after canonicalId
       | None => first
       end.

Definition LANG_HIGH_CONFIDENCE : float := 0.5%float.

(** [lang], [script] and [langMeta]. *)
Definition lang_stamp (p : ResolveInput) : option string * option string * option LangAttributionMeta :=
  let det := detectLanguage (ri_object p) (env_langAttribution env) in
  let detectedLang := if bool_decide (dt_language det = "und") then None else Some (dt_language det) in
  let stampGated := bool_decide (detectedLang ≠ None) &&
                    PrimFloat.ltb (dt_confidence det) LANG_HIGH_CONFIDENCE && env_langGate env in
  let lang := if stampGated then None else detectedLang in
  let script := match detectedLang with Some _ => Some (dt_script det) | None => None end in
  let meta src sl dl := Some {| lm_confidence := dt_confidence det; lm_source := src;
                                lm_version := dt_version det; lm_sourceLang := sl;
                                lm_detectedLang := dl |} in
  if env_langAttribution env || stampGated then
    if bool_decide (lang ≠ None) || stampGated then
      (lang, script, meta Detected (ri_sourceLang p) (if stampGated then detectedLang else None))
    else match truthy (ri_sourceLang p) with
         | Some l => (Some l, script, meta Inherited (Some l) None)
         | None => (lang, script, meta Detected None None)
         end
  else (lang, script, None).

Definition path_of (p : ResolveInput) : IngestPath :=
  if bool_decide (ri_recordOutcomeMetric p = Some true) then Direct else Mention.

Definition buildResolveCall (p : ResolveInput) : ResolveCall :=
  let path := path_of p in
  let canonicalSlot := canonicalSlotFor env p path in
  let predicate := default (ri_predicate p) canonicalSlot in
  let policy := policyForPredicate p predicate in
  let '(sem, floor) := conflictSlotResolution env policy path in
  let '(lang, script, meta) := lang_stamp p in
  let embedding :=
    match canonicalSlot with
    | Some _ => embed (factIndexText predicate (ri_object p))
    | None => match ri_precomputedEmbedding p with
              | Some v => v
              | None => embed (default (factIndexText (ri_predicate p) (ri_object p))
                                       (ri_embeddingText p))
              end
    end in
  {| rc_companyId := ri_companyId p; rc_entityId := ri_entityId p; rc_predicate := predicate;
     rc_predicateAlias := ri_predicateAlias p; rc_object := ri_object p;
     rc_objectMeta := ri_objectMeta p; rc_embedding := embedding;
     rc_confidence := ri_confidence p; rc_validFrom := ri_validFrom p;
     rc_validUntil := ri_validUntil p; rc_source := ri_source p;
     rc_sourceTrust := sourceTrustFor (ri_source p); rc_semantics := sem;
     rc_similarityFloor := floor; rc_lang := lang; rc_script := script; rc_langMeta := meta;
     rc_entropy := ri_entropy p; rc_userId := ri_userId p;
     rc_derivedVersion := ri_derivedVersion p |}.
End build.

(** ** The anchor's language *)

Example anchored_month : calendar_anchored "runs until December 2026" = true.
Proof. vm_compute. done. Qed.
Example anchored_day : calendar_anchored "ends on May 3rd, 2026." = true.
Proof. vm_compute. done. Qed.
Example anchored_iso : calendar_anchored "due 2026-09-01" = true.
Proof. vm_compute. done. Qed.
Example not_anchored_duration : calendar_anchored "30 days" = false.
Proof. vm_compute. done. Qed.
Example not_anchored_abbreviation : calendar_anchored "ends in Sept 2026" = false.
Proof. vm_compute. done. Qed.
Example not_anchored_inside_word : calendar_anchored "xmay 2026" = false.
Proof. vm_compute. done. Qed.

(** ** Which slot, which semantics *)

(** A canonicalized fact stays where it is: resolving its canonical form again reroutes
    nothing. *)
Lemma canonical_slot_stable env p path s q :
  canonicalSlotFor env p path = Some s → ri_predicate q = s → canonicalSlotFor env q path = None.
Proof.
  unfold canonicalSlotFor. intros Hs Hq.
  assert (Hs' : s = "status").
  { repeat (case_match; [done|]). destruct (OMap.get _ _) as [c|] eqn:E; [|done].
    cbn in E. repeat case_bool_decide; simplify_eq; by repeat case_match; simplify_eq. }
  subst s. rewrite Hs'. by repeat case_match.
Qed.
