(* ===== verification/EdgeWriter.v ===== *)
(** * Writing relations

    [ingest/edge-writer.ts], the edge half of [ingest/mention-persist.service.ts] and the
    writing half of [ingest/edge-support.ts]: one [knowledge_edge] row per (in, out, kind,
    scope key) (db/migrations/0153, 0154), its period, and the documents that assert it
    (0178). Instants are milliseconds. *)

From S2P Require Import Prelude Js Resume FactPolicy ScopeTags.
From stdpp Require Import gmap sorting.
Local Open Scope string_scope.
Local Open Scope nat_scope.

(** ** Rows *)

(** The keys of [source] that carry the support, and the rest of the object. *)
Record EdgeSource := {
  es_documentId : option string;
  es_documentIds : option (list string);
  es_retiredDocumentIds : option (list string);
  es_undocumented : bool;
  es_retiredAt : option Z;
  es_rest : list (string * jsval)
}.

Record EdgeRow := {
  eg_in : string;
  eg_out : string;
  eg_kind : string;
  eg_weight : float;
  eg_source : EdgeSource;
  eg_userId : option string;
  eg_scope : list string;
  eg_validFrom : option Z;
  eg_validUntil : option Z;
  eg_invalidatedAt : option Z
}.

Abbreviation EdgeStore := (gmap string EdgeRow).

Definition edgeScopeKey (userId : option string) : string := default "" userId.

(** The fields of the unique index. *)
Definition edge_key (r : EdgeRow) : string * string * string * string :=
  (eg_in r, eg_out r, eg_kind r, edgeScopeKey (eg_userId r)).

Definition with_source (so : EdgeSource) (r : EdgeRow) : EdgeRow :=
  {| eg_in := eg_in r; eg_out := eg_out r; eg_kind := eg_kind r; eg_weight := eg_weight r; eg_source := so;
     eg_userId := eg_userId r; eg_scope := eg_scope r; eg_validFrom := eg_validFrom r;
     eg_validUntil := eg_validUntil r; eg_invalidatedAt := eg_invalidatedAt r |}.

Definition with_period (from until inval : option Z) (r : EdgeRow) : EdgeRow :=
  {| eg_in := eg_in r; eg_out := eg_out r; eg_kind := eg_kind r; eg_weight := eg_weight r;
     eg_source := eg_source r; eg_userId := eg_userId r; eg_scope := eg_scope r; eg_validFrom := from;
     eg_validUntil := until; eg_invalidatedAt := inval |}.

(** ** A write *)

Record EdgeTiming := { et_validFrom : option Z; et_validUntil : option Z }.

Record EdgeWrite := {
  ew_fromEntityId : string;
  ew_toEntityId : string;
  ew_kind : string;
  ew_documentId : option string;
  ew_rest : list (string * jsval);
  ew_weight : option float;
  ew_userId : option string;
  ew_timing : EdgeTiming
}.

Definition documentRecordId (documentId : string) : string := "source_document:" +:+ idTailOf documentId.

Definition withDocumentSupport (documentId : option string) (rest : list (string * jsval)) : EdgeSource :=
  {| es_documentId := documentId; es_documentIds := (λ d, [documentRecordId d]) <$> documentId;
     es_retiredDocumentIds := None; es_undocumented := false; es_retiredAt := None; es_rest := rest |}.

(** [edgeTimeContent]: a relation already over is closed on the knowledge axis too. *)
Definition knowledge_close (now : Z) (until : option Z) : option Z :=
  match until with Some u => if (u <=? now)%Z then Some now else None | None => None end.

Definition edge_content (now : Z) (scope : list string) (p : EdgeWrite) : EdgeRow :=
  {| eg_in := ew_fromEntityId p; eg_out := ew_toEntityId p; eg_kind := ew_kind p;
     eg_weight := default 1%float (ew_weight p);
     eg_source := withDocumentSupport (ew_documentId p) (ew_rest p); eg_userId := ew_userId p; eg_scope := scope;
     eg_validFrom := et_validFrom (ew_timing p); eg_validUntil := et_validUntil (ew_timing p);
     eg_invalidatedAt := knowledge_close now (et_validUntil (ew_timing p)) |}.

Definition write_key (p : EdgeWrite) : string * string * string * string :=
  (ew_fromEntityId p, ew_toEntityId p, ew_kind p, edgeScopeKey (ew_userId p)).

Definition find_edge (k : string * string * string * string) (s : EdgeStore) : option (string * EdgeRow) :=
  find_first (λ kv, bool_decide (edge_key kv.2 = k)) (map_to_list s).

(** [RELATE ... CONTENT ... RETURN AFTER]: the new row's id, or the violation. *)
Definition relate (r : EdgeRow) (s : EdgeStore) : EdgeStore * option string :=
  match find_edge (edge_key r) s with
  | Some _ => (s, None)
  | None => let id := fresh (dom s) in (<[id := r]> s, Some id)
  end.

(** ** Folding a restated period *)

Definition edgeTimingWidens (stored : EdgeRow) (t : EdgeTiming) : bool :=
  match et_validFrom t, eg_validFrom stored with
  | Some f, Some from => (f <? from)%Z
  | _, _ => false
  end ||
  (match et_validUntil t with Some _ => true | None => false end &&
   match eg_validUntil stored with None => true | Some _ => false end).

(** [UPDATE ... SET validFrom WHERE validFrom IS NOT NONE AND validFrom > $from] *)
Definition widen_from (f : Z) (r : EdgeRow) : EdgeRow :=
  match eg_validFrom r with
  | Some from => if (f <? from)%Z then with_period (Some f) (eg_validUntil r) (eg_invalidatedAt r) r else r
  | None => r
  end.

(** [UPDATE ... SET validUntil, validFrom, invalidatedAt WHERE validUntil IS NONE] *)
Definition widen_until (now u : Z) (r : EdgeRow) : EdgeRow :=
  match eg_validUntil r with
  | Some _ => r
  | None =>
      with_period
        (match eg_validFrom r with Some from => if (from <? u)%Z then Some from else None | None => None end)
        (Some u)
        (if (u <=? now)%Z then Some (default now (eg_invalidatedAt r)) else eg_invalidatedAt r) r
  end.

Definition on_edge (g : EdgeRow → EdgeRow) (id : string) : prog EdgeStore unit := exec (alter g id).

(** [widenEdgeTiming]: the statements of [edgeWidenStatements], one by one. *)
Definition widenEdgeTiming (now : Z) (id : string) (t : EdgeTiming) : prog EdgeStore unit :=
  do* _ := match et_validFrom t with Some f => on_edge (widen_from f) id | None => Done tt end in
  match et_validUntil t with Some u => on_edge (widen_until now u) id | None => Done tt end.

(** ** Support *)

Definition array_complement (xs ys : list string) : list string :=
  List.filter (λ x, negb (bool_decide (x ∈ ys))) xs.

Definition array_union (xs ys : list string) : list string := add_all [] (app xs ys).

Definition join_document (doc : string) (r : EdgeRow) : EdgeRow :=
  let so := eg_source r in
  with_source
    {| es_documentId := es_documentId so;
       es_documentIds := Some (array_union
         (match es_documentIds so with
          | Some ds => ds
          | None => match es_documentId so with Some d => [d] | None => [] end
          end) [doc]);
       es_retiredDocumentIds := Some (array_complement (default [] (es_retiredDocumentIds so)) [doc]);
       es_undocumented := es_undocumented so; es_retiredAt := es_retiredAt so; es_rest := es_rest so |} r.

(** The row with no lifecycle close on it. *)
Definition unretire (r : EdgeRow) : EdgeRow :=
  let so := eg_source r in
  with_period (eg_validFrom r) None (eg_invalidatedAt r)
    (with_source {| es_documentId := es_documentId so; es_documentIds := es_documentIds so;
                    es_retiredDocumentIds := es_retiredDocumentIds so; es_undocumented := es_undocumented so;
                    es_retiredAt := None; es_rest := es_rest so |} r).

(** [WHERE source.retiredAt IS NOT NONE AND validUntil = source.retiredAt] *)
Definition lifecycle_closed (r : EdgeRow) : bool :=
  match es_retiredAt (eg_source r) with
  | Some at_ => bool_decide (eg_validUntil r = Some at_)
  | None => false
  end.

Definition reopen_edge (r : EdgeRow) : EdgeRow := if lifecycle_closed r then unretire r else r.

(** [WHERE source.documentId IS NOT NONE AND source.undocumented != true] *)
Definition mark_undocumented (r : EdgeRow) : EdgeRow :=
  let so := eg_source r in
  match es_documentId so with
  | Some _ =>
      with_source {| es_documentId := es_documentId so; es_documentIds := es_documentIds so;
                     es_retiredDocumentIds := es_retiredDocumentIds so; es_undocumented := true;
                     es_retiredAt := es_retiredAt so; es_rest := es_rest so |} r
  | None => r
  end.

Definition markUndocumented (edgeIds : list string) : prog EdgeStore unit :=
  match edgeIds with
  | [] => Done tt
  | _ => exec (λ s, fold_left (λ s id, alter mark_undocumented id s) edgeIds s)
  end.

Definition addEdgeSupport (edgeId : string) (documentId : option string) : prog EdgeStore unit :=
  match documentId with
  | None => markUndocumented [edgeId]
  | Some d =>
      do* _ := on_edge (join_document (documentRecordId d)) edgeId in
      on_edge reopen_edge edgeId
  end.

(** ** The one write primitive *)

Definition createEdgeBetween (am : Ambient) (now : Z) (p : EdgeWrite) : prog EdgeStore (option string) :=
  let scope := if 0 <? length (actingCircleTags am) then scopeForUser am (ew_userId p) else [] in
  do* created := update (relate (edge_content now scope p)) in
  match created with
  | Some id => Done (Some id)
  | None =>
      do* existing := query (find_edge (write_key p)) in
      match existing with
      | None => Done None
      | Some (id, row) =>
          do* _ := (if edgeTimingWidens row (ew_timing p) then widenEdgeTiming now id (ew_timing p) else Done tt) in
          do* _ := addEdgeSupport id (ew_documentId p) in
          Done (Some id)
      end
  end.

(** ** The mention path's relations *)

(** [persistEdges] without batching: a failed edge is logged and skipped, so what is
    left is one call per distinct pair of resolved ends. *)
Fixpoint persistEdges (am : Ambient) (now : Z) (ps : list EdgeWrite) : prog EdgeStore (list string) :=
  match ps with
  | [] => Done []
  | p :: ps' =>
      do* id := createEdgeBetween am now p in
      do* ids := persistEdges am now ps' in
      Done (match id with Some i => i :: ids | None => ids end)
  end.

(** The existence check: one query, its statements read at once. *)
Definition existing_of (ps : list EdgeWrite) (s : EdgeStore) : list (EdgeWrite * option (string * EdgeRow)) :=
  map (λ p, (p, find_edge (write_key p) s)) ps.

Fixpoint widenExisting (now : Z) (l : list (EdgeWrite * option (string * EdgeRow))) : prog EdgeStore unit :=
  match l with
  | [] => Done tt
  | (p, Some (id, row)) :: l' =>
      do* _ := (if edgeTimingWidens row (ew_timing p) then widenEdgeTiming now id (ew_timing p) else Done tt) in
      widenExisting now l'
  | (_, None) :: l' => widenExisting now l'
  end.

(** The RELATE batch: [None] as soon as one statement trips the index; the statements
    before and after it took place. *)
Fixpoint relate_batch (now : Z) (ps : list EdgeWrite) : prog EdgeStore (option (list string)) :=
  match ps with
  | [] => Done (Some [])
  | p :: ps' =>
      do* created := update (relate (edge_content now [] p)) in
      do* rest := relate_batch now ps' in
      Done (match created, rest with Some id, Some ids => Some (id :: ids) | _, _ => None end)
  end.

(** The first candidate of each (from, to, kind). *)
Definition dedup_writes (ps : list EdgeWrite) : list EdgeWrite :=
  fold_left (λ out p, if existsb (λ q, bool_decide (write_key q = write_key p)) out then out else app out [p]) ps [].

Definition document_born (l : list (EdgeWrite * option (string * EdgeRow))) : list string :=
  omap (λ x, match x.2 with
             | Some (id, row) =>
                 if negb (es_undocumented (eg_source row)) &&
                    match es_documentId (eg_source row) with Some _ => true | None => false end
                 then Some id else None
             | None => None
             end) l.

Definition persistEdgesBatched (am : Ambient) (now : Z) (ps : list EdgeWrite) : prog EdgeStore (list string) :=
  match dedup_writes ps with
  | [] => Done []
  | cands =>
      do* found := query (existing_of cands) in
      let edgeIds := omap (λ x, fst <$> x.2) found in
      let missing := omap (λ x, match x.2 with None => Some x.1 | Some _ => None end) found in
      do* _ := widenExisting now found in
      do* _ := markUndocumented (document_born found) in
      match missing with
      | [] => Done edgeIds
      | _ =>
          do* created := relate_batch now missing in
          match created with
          | Some ids => Done (app edgeIds ids)
          | None => do* ids := persistEdges am now missing in Done (app edgeIds ids)
          end
      end
  end.

(** ** One row per relation *)

Definition edges_ok (s : EdgeStore) : Prop :=
  ∀ i j r1 r2, s !! i = Some r1 → s !! j = Some r2 → edge_key r1 = edge_key r2 → i = j.

(** What a restatement may do to a row: its identity and scope stay, its start never moves
    later, an end it has stays unless the document lifecycle set it, no document and no
    mark of other support is dropped. *)
Record edge_le (r r' : EdgeRow) : Prop := {
  el_key : edge_key r' = edge_key r;
  el_scope : eg_scope r' = eg_scope r;
  el_from : match eg_validFrom r, eg_validFrom r' with
            | Some f, Some f' => (f' <= f)%Z
            | None, Some _ => False
            | _, None => True
            end;
  el_until : ∀ u, eg_validUntil r = Some u → es_retiredAt (eg_source r) ≠ Some u → eg_validUntil r' = Some u;
  el_retiredAt : es_retiredAt (eg_source r') = es_retiredAt (eg_source r) ∨ es_retiredAt (eg_source r') = None;
  el_docs : ∀ d, d ∈ default [] (es_documentIds (eg_source r)) → d ∈ default [] (es_documentIds (eg_source r'));
  el_undocumented : es_undocumented (eg_source r) = true → es_undocumented (eg_source r') = true
}.

#[export] Instance edge_le_refl : Reflexive edge_le.
Proof. intros r. split; try done; [by destruct (eg_validFrom r)|by left]. Qed.

#[export] Instance edge_le_trans : Transitive edge_le.
Proof.
  intros r1 r2 r3 [K S F U A D M] [K' S' F' U' A' D' M']. split.
  - congruence.
  - congruence.
  - destruct (eg_validFrom r1), (eg_validFrom r2), (eg_validFrom r3); try done; lia.
  - intros u Hu Hne. apply U'; [by apply U|]. destruct A as [->| ->]; done.
  - destruct A' as [->| ->]; [done|by right].
  - auto.
  - auto.
Qed.

Lemma widen_from_le f r : edge_le r (widen_from f r).
Proof.
  unfold widen_from. destruct (eg_validFrom r) as [from|] eqn:E; [|done]. destruct (f <? from)%Z eqn:Ef; [|done].
  split; try done; [|by left]. cbn. rewrite E. apply Z.ltb_lt in Ef. lia.
Qed.

Lemma widen_until_le now u r : edge_le r (widen_until now u r).
Proof.
  unfold widen_until. destruct (eg_validUntil r) as [v|] eqn:E; [done|]. split; try done; [| |by left]; cbn.
  - destruct (eg_validFrom r) as [from|]; [|done]. by destruct (from <? u)%Z.
  - rewrite E. done.
Qed.

Lemma elem_of_array_union x xs ys : x ∈ array_union xs ys ↔ x ∈ xs ∨ x ∈ ys.
Proof. unfold array_union. rewrite elem_of_add_all, elem_of_nil, elem_of_app. tauto. Qed.

Lemma elem_of_array_complement x xs ys : x ∈ array_complement xs ys ↔ x ∈ xs ∧ x ∉ ys.
Proof.
  unfold array_complement. rewrite elem_of_bfilter, negb_true_iff, bool_decide_eq_false. tauto.
Qed.

Lemma join_document_le doc r : edge_le r (join_document doc r).
Proof.
  split; try done; [by cbn; destruct (eg_validFrom r)|by left|]. intros d. cbn.
  rewrite elem_of_array_union. destruct (es_documentIds (eg_source r)); cbn; [by left|by intros ?%elem_of_nil].
Qed.

Lemma mark_undocumented_le r : edge_le r (mark_undocumented r).
Proof.
  unfold mark_undocumented. destruct (es_documentId (eg_source r)); [|done].
  split; try done; [by cbn; destruct (eg_validFrom r)|by left].
Qed.

Lemma reopen_edge_le r : edge_le r (reopen_edge r).
Proof.
  unfold reopen_edge, lifecycle_closed. destruct (es_retiredAt (eg_source r)) as [a|] eqn:Ea; [|done].
  case_bool_decide as Eu; [|done]. split; try done; [by cbn; destruct (eg_validFrom r)| |by right].
  intros u Hu Hne. rewrite Ea in Hne. congruence.
Qed.

#[export] Hint Resolve widen_from_le widen_until_le join_document_le mark_undocumented_le reopen_edge_le : brain.

(** ** What every statement of a writer does to the store *)

(** [s'] holds every row of [s], grown. *)
Definition grown (s s' : EdgeStore) : Prop :=
  (edges_ok s → edges_ok s') ∧ ∀ id r, s !! id = Some r → ∃ r', s' !! id = Some r' ∧ edge_le r r'.

Lemma grown_refl s : grown s s.
Proof. split; [done|]. intros id r H. by exists r. Qed.

Lemma grown_trans s1 s2 s3 : grown s1 s2 → grown s2 s3 → grown s1 s3.
Proof.
  intros [H1 H2] [H3 H4]. split; [auto|]. intros id r Hr. destruct (H2 id r Hr) as (r2 & E2 & L2).
  destruct (H4 id r2 E2) as (r3 & E3 & L3). exists r3. split; [done|]. by etrans.
Qed.

Lemma grown_alter (g : EdgeRow → EdgeRow) id s : (∀ r, edge_le r (g r)) → grown s (alter g id s).
Proof.
  intros Hg. split.
  - intros Hok. assert (Hk : ∀ k r, alter g id s !! k = Some r → ∃ r0, s !! k = Some r0 ∧ edge_key r = edge_key r0).
    { intros k r. rewrite lookup_alter. case_decide as Hd; [|by eauto]. subst. intros (r0 & E & ->)%fmap_Some.
      exists r0. split; [done|]. apply (el_key _ _ (Hg r0)). }
    intros i j r1 r2 (a & Ea & Ka)%Hk (b & Eb & Kb)%Hk E. eapply Hok; [done..|congruence].
  - intros i r Hr. rewrite lookup_alter. case_decide as Hd; [|by exists r]. subst. rewrite Hr. cbn. eauto.
Qed.

Lemma find_edge_Some k s id r : find_edge k s = Some (id, r) → s !! id = Some r ∧ edge_key r = k.
Proof.
  unfold find_edge. intros (H1 & H2)%find_first_Some. apply elem_of_map_to_list in H1.
  by apply bool_decide_eq_true in H2.
Qed.

Lemma find_edge_None k s : find_edge k s = None → ∀ id r, s !! id = Some r → edge_key r ≠ k.
Proof.
  unfold find_edge. rewrite find_first_None, existsb_false_In. intros H id r Hr Hk.
  specialize (H (id, r) (proj2 (elem_of_map_to_list _ _ _) Hr)). by apply bool_decide_eq_false in H.
Qed.

Lemma grown_relate r s : grown s (relate r s).1.
Proof.
  unfold relate. destruct (find_edge (edge_key r) s) eqn:E; [apply grown_refl|]. cbn [fst].
  pose proof (find_edge_None _ _ E) as Hno.
  assert (Hf : s !! fresh (dom s) = None) by apply not_elem_of_dom, is_fresh.
  split.
  - intros Hok i j r1 r2. rewrite !lookup_insert. repeat case_decide; subst; [done|..|by apply Hok].
    + intros [= <-] H2 E2. by destruct (Hno j r2).
    + intros H1 [= <-] E2. by destruct (Hno i r1).
  - intros i r0 Hi. exists r0. split; [|done]. rewrite lookup_insert_ne; [done|]. intros <-. congruence.
Qed.

(** Every statement grows the store. *)
Abbreviation grows := (always grown).

Lemma grows_query {A} (f : EdgeStore → A) : grows (query f).
Proof. by apply always_query, grown_refl. Qed.

Lemma grows_relate r : grows (update (relate r)).
Proof. apply always_update. apply grown_relate. Qed.

Lemma grows_on_edge g id : (∀ r, edge_le r (g r)) → grows (on_edge g id).
Proof. intros H. apply always_exec. intros s. by apply grown_alter. Qed.

#[local] Hint Resolve grows_query grows_relate grows_on_edge : brain.

Lemma grows_widen now id t : grows (widenEdgeTiming now id t).
Proof.
  unfold widenEdgeTiming. apply always_bind; [|intros _]; destruct (et_validFrom t), (et_validUntil t); auto with brain; done.
Qed.

Lemma grows_mark ids : grows (markUndocumented ids).
Proof.
  unfold markUndocumented. destruct ids as [|i ids]; [done|]. apply always_exec. intros s.
  generalize (i :: ids). intros l. revert s. induction l as [|j l IH]; intros s; cbn; [apply grown_refl|].
  eapply grown_trans; [|apply IH]. apply grown_alter. auto with brain.
Qed.

Lemma grows_support id d : grows (addEdgeSupport id d).
Proof.
  unfold addEdgeSupport. destruct d; [|apply grows_mark]. apply always_bind; auto with brain.
Qed.

#[local] Hint Resolve grows_widen grows_mark grows_support : brain.

Lemma grows_create am now p : grows (createEdgeBetween am now p).
Proof.
  unfold createEdgeBetween. apply always_bind; [auto with brain|]. intros [id|]; [done|].
  apply always_bind; [auto with brain|]. intros [ [id row]|]; [|done].
  apply always_bind; [destruct (edgeTimingWidens _ _); [auto with brain|done]|]. intros _.
  apply always_bind; [auto with brain|done].
Qed.

Lemma grows_persist am now ps : grows (persistEdges am now ps).
Proof.
  induction ps as [|p ps IH]; [done|]. cbn [persistEdges]. apply always_bind; [apply grows_create|]. intros id.
  apply always_bind; [done|done].
Qed.

Lemma grows_widen_existing now l : grows (widenExisting now l).
Proof.
  induction l as [|[p [ [id row]|]] l IH]; cbn [widenExisting]; [done| |done].
  apply always_bind; [destruct (edgeTimingWidens _ _); [auto with brain|done]|done].
Qed.

Lemma grows_relate_batch now ps : grows (relate_batch now ps).
Proof.
  induction ps as [|p ps IH]; [done|]. cbn [relate_batch]. apply always_bind; [auto with brain|]. intros o.
  apply always_bind; [done|done].
Qed.

Lemma grows_batched am now ps : grows (persistEdgesBatched am now ps).
Proof.
  unfold persistEdgesBatched. destruct (dedup_writes ps) as [|c cs]; [done|].
  apply always_bind; [auto with brain|]. intros found.
  apply always_bind; [apply grows_widen_existing|]. intros _. apply always_bind; [auto with brain|]. intros _.
  destruct (omap _ found) as [|m ms]; [done|]. apply always_bind; [apply grows_relate_batch|].
  intros [ids|]; [done|]. apply always_bind; [apply grows_persist|done].
Qed.

(** ** Writers together *)

Inductive edge_call : Type :=
| EOne (am : Ambient) (now : Z) (p : EdgeWrite)
| EMention (am : Ambient) (now : Z) (batched : bool) (ps : list EdgeWrite)
| EMark (ids : list string).

Definition edge_prog (c : edge_call) : prog EdgeStore (list string) :=
  match c with
  | EOne am now p => do* id := createEdgeBetween am now p in Done (match id with Some i => [i] | None => [] end)
  | EMention am now true ps => persistEdgesBatched am now ps
  | EMention am now false ps => persistEdges am now ps
  | EMark ids => do* _ := markUndocumented ids in Done []
  end.

Lemma grows_call c : grows (edge_prog c).
Proof.
  destruct c as [am now p|am now [|] ps|ids]; cbn [edge_prog].
  - apply always_bind; [apply grows_create|done].
  - apply grows_batched.
  - apply grows_persist.
  - apply always_bind; [auto with brain|done].
Qed.

Lemma grows_preserves {A} s0 (p : prog EdgeStore A) : grows p → preserves (grown s0) p.
Proof. apply always_preserves. intros s s' H1 H2. by eapply grown_trans. Qed.

(** Whatever writers of relations run, however their statements interleave, a relation
    of one scope keeps one row, and every row there was only grows. *)
Theorem restated_edge_only_widens sched cs s :
  edges_ok s →
  let s' := (run_pool sched (s, map edge_prog cs)).1 in
  edges_ok s' ∧ ∀ id r, s !! id = Some r → ∃ r', s' !! id = Some r' ∧ edge_le r r'.
Proof.
  intros Hok s'. assert (H : grown s s'); [|by destruct H as [H1 H2]; auto].
  apply (run_pool_preserves (grown s)); [apply grown_refl|]. apply Forall_forall.
  intros p (c & -> & _)%list_elem_of_fmap. apply grows_preserves, grows_call.
Qed.

(** The row of a relation is at [id]. *)
Definition holds (id : string) (k : string * string * string * string) (s : EdgeStore) : Prop :=
  edges_ok s ∧ ∃ r, s !! id = Some r ∧ edge_key r = k.

Lemma stable_edges_ok : stable grown edges_ok.
Proof. intros s s' H [H1 _]. auto. Qed.

Lemma stable_holds id k : stable grown (holds id k).
Proof.
  intros s s' [H (r & Hr & Hk)] [H1 H2]. split; [auto|]. destruct (H2 id r Hr) as (r' & ? & Hle).
  exists r'. split; [done|]. rewrite <- Hk. apply Hle.
Qed.

Definition created_as (k : string * string * string * string) (o : option string) (s : EdgeStore) : Prop :=
  ∃ id, o = Some id ∧ holds id k s.

Lemma create_ensures am now p :
  ensures grown edges_ok (createEdgeBetween am now p) (created_as (write_key p)).
Proof.
  unfold createEdgeBetween. set (row0 := edge_content now _ p). intros s Hs. cbn [update pbind].
  pose proof (grown_relate row0 s) as Hm. destruct (relate row0 s) as [s1 created] eqn:E1. cbn [pbind fst] in *.
  split; [done|]. unfold relate in E1. destruct (find_edge (edge_key row0) s) as [ [id r]|] eqn:E.
  - injection E1 as <- <-. destruct (find_edge_Some _ _ _ _ E) as [Hr Hk].
    exists (holds id (write_key p)). split; [split; [done|by exists r]|]. split; [apply stable_holds|].
    intros s2 Hs2. cbn [query pbind]. split; [apply grown_refl|]. destruct Hs2 as [Hok (r2 & Hr2 & Hk2)].
    destruct (find_edge (write_key p) s2) as [ [id' r']|] eqn:E2.
    2: { by destruct (find_edge_None _ _ E2 id r2). }
    destruct (find_edge_Some _ _ _ _ E2) as [Hr' Hk'].
    exists (holds id' (write_key p)). split; [split; [done|by exists r']|]. split; [apply stable_holds|].
    apply ensures_bind with (Q1 := λ _, holds id' (write_key p)); [intros _; apply stable_holds| |intros _].
    { destruct (edgeTimingWidens r' (ew_timing p)); [apply always_ensures; [apply stable_holds|apply grows_widen]|by intros s3 H3]. }
    apply ensures_bind with (Q1 := λ _, holds id' (write_key p)); [intros _; apply stable_holds| |intros _].
    { apply always_ensures; [apply stable_holds|apply grows_support]. }
    intros s3 H3. by exists id'.
  - injection E1 as <- <-. set (id := fresh (dom s)).
    exists (holds id (write_key p)). split; [|split; [apply stable_holds|]].
    + split; [by apply Hm|]. exists row0. by rewrite lookup_insert_eq.
    + intros s2 H2. by exists id.
Qed.

(** Callers that write one relation in one scope all get the id of its one row,
    whatever interleaves. *)
Theorem writers_of_one_relation_share_its_edge sched ws s i j am now p am' now' p' a b :
  edges_ok s →
  ws !! i = Some (am, now, p) → ws !! j = Some (am', now', p') → write_key p = write_key p' →
  let c := run_pool sched (s, map (λ w, createEdgeBetween w.1.1 w.1.2 w.2) ws) in
  c.2 !! i = Some (Done a) → c.2 !! j = Some (Done b) →
  a = b ∧ ∃ id r, a = Some id ∧ c.1 !! id = Some r ∧ edge_key r = write_key p.
Proof.
  intros Hok Hi Hj Hk c Ha Hb.
  assert (Hend : ∀ k am now p o, ws !! k = Some (am, now, p) → c.2 !! k = Some (Done o) → created_as (write_key p) o c.1).
  { intros k am0 now0 p0 o Hw Ho.
    eapply (pool_ends_assured grown sched (s, _) (map (λ w, created_as (write_key w.2)) ws)); [|exact Ho|].
    - cbn [fst snd]. rewrite Forall2_fmap. apply Forall2_same_length_lookup_2; [done|]. intros n [[am1 now1] p1] w2 H1 H2.
      assert (w2 = (am1, now1, p1)) as -> by congruence. exists edges_ok.
      split_and!; [done|apply stable_edges_ok|apply create_ensures].
    - by rewrite list_lookup_fmap, Hw. }
  destruct (Hend i am now p a Hi Ha) as (id & -> & Hh1 & r1 & Hr1 & Hk1).
  destruct (Hend j am' now' p' b Hj Hb) as (id' & -> & _ & r2 & Hr2 & Hk2).
  assert (id = id') as -> by (eapply Hh1; [done..|congruence]). split; [done|]. by exists id', r1.
Qed.

(** ** Samples *)

Definition no_ambient : Ambient :=
  {| am_authUserId := None; am_actingCircle := None; am_scopeTags := []; am_jobCircle := None; am_writeScope := None;
     am_scopeTagsEnabled := true |}.

Definition in_circle : Ambient := runInCircle ["circle:health"] no_ambient.

Definition sample_write (doc : option string) (from until : option Z) : EdgeWrite :=
  {| ew_fromEntityId := "knowledge_entity:a"; ew_toEntityId := "knowledge_entity:b"; ew_kind := "works_at";
     ew_documentId := doc; ew_rest := []; ew_weight := None; ew_userId := None;
     ew_timing := {| et_validFrom := from; et_validUntil := until |} |}.

(** Two documents state one relation at once, the second earlier and with an end. *)
Definition two_writers : list (Ambient * Z * EdgeWrite) :=
  [(no_ambient, 100%Z, sample_write (Some "d1") (Some 50%Z) None);
   (no_ambient, 100%Z, sample_write (Some "d2") (Some 20%Z) (Some 90%Z))].

Lemma writers_of_one_relation_share_its_edge_witness :
  ∃ a b, (run_pool [0; 1; 1; 1; 1; 1; 1] (∅, map (λ w, createEdgeBetween w.1.1 w.1.2 w.2) two_writers)).2 =
         [Done a; Done b] ∧ a = b.
Proof.
  eexists _, _. split; [vm_compute; reflexivity|].
  eapply (writers_of_one_relation_share_its_edge [0; 1; 1; 1; 1; 1; 1] two_writers ∅ 0 1); [|reflexivity..].
  intros ????. by rewrite lookup_empty.
Defined.

Lemma restated_edge_only_widens_witness :
  edges_ok (∅ : EdgeStore) ∧
  edges_ok (run_pool [0; 0; 0] (∅, map edge_prog [EOne no_ambient 100 (sample_write None None None)])).1.
Proof.
  assert (H : edges_ok (∅ : EdgeStore)) by (intros ????; by rewrite lookup_empty). split; [exact H|].
  apply (restated_edge_only_widens [0; 0; 0] [EOne no_ambient 100 (sample_write None None None)] ∅ H).
Defined.

(** Inside a circle the batched path writes rows without the circle's tag; edge by edge it
    stamps it. *)
Lemma batched_edges_leave_the_circle :
  let scopes b := map (λ kv, eg_scope kv.2)
    (map_to_list (run (edge_prog (EMention in_circle 100 b [sample_write None None None])) ∅).1) in
  scopes false = [["circle:health"]] ∧ scopes true = [[]].
Proof. split; vm_compute; reflexivity. Qed.
