(* ===== verification/EdgeSupport.v ===== *)
(** * The documents behind a relation come and go

    [retireEdgeSupport] and [restoreEdgeSupport] of [ingest/edge-support.ts]: documents
    stop asserting their edges, an edge left with none and not flagged as stated elsewhere
    closes, and documents seen again assert theirs and reopen what closed at that instant. Rows come in record-id order, a page at a time, and other work may
    fall between any two statements. *)

From S2P Require Import Prelude Js Resume FactPolicy ScopeTags EdgeWriter.
From stdpp Require Import gmap sorting.
Local Open Scope string_scope.
Local Open Scope nat_scope.

Definition PAGE : nat := 200.

Definition rows_by_id (s : EdgeStore) : list (string * EdgeRow) :=
  omap (λ id, pair id <$> s !! id) (merge_sort str_le (elements (dom s))).

Definition asserted (r : EdgeRow) : list string := default [] (es_documentIds (eg_source r)).
Definition retired (r : EdgeRow) : list string := default [] (es_retiredDocumentIds (eg_source r)).

(** [WHERE source.documentIds CONTAINS $doc] *)
Definition asserts (doc : string) (kv : string * EdgeRow) : bool := bool_decide (doc ∈ asserted kv.2).

Definition asserted_by (doc : string) (s : EdgeStore) : list (string * EdgeRow) :=
  List.filter (asserts doc) (rows_by_id s).

Definition asserted_page (doc : string) (start : nat) (s : EdgeStore) : list (string * EdgeRow) :=
  take PAGE (drop start (asserted_by doc s)).

(** ** The loop both directions share *)

Section visit.
(** Which rows are passed over, and what the others get and whether that counts. *)
Context (skip : string → string * EdgeRow → bool) (act : EdgeRow → (EdgeRow → EdgeRow) * bool).

Fixpoint visit_rows (doc : string) (rows : list (string * EdgeRow)) (done_ : list string) (n : nat) :
    prog EdgeStore (list string * nat) :=
  match rows with
  | [] => Done (done_, n)
  | (id, r) :: rows' =>
      if bool_decide (id ∈ done_) || skip doc (id, r) then visit_rows doc rows' done_ n
      else
        do* _ := on_edge (act r).1 id in
        visit_rows doc rows' (id :: done_) (if (act r).2 then S n else n)
  end.

(** [edgesAssertedBy] and the loop over it; [None] when the fuel is out. *)
Fixpoint visit_doc (fuel : nat) (doc : string) (start : nat) (done_ : list string) (n : nat) :
    prog EdgeStore (option (list string * nat)) :=
  match fuel with
  | O => Done None
  | S fuel' =>
      do* rows := query (asserted_page doc start) in
      do* acc := visit_rows doc rows done_ n in
      if length rows <? PAGE then Done (Some acc) else visit_doc fuel' doc (start + PAGE) acc.1 acc.2
  end.

Fixpoint visit_docs (fuel : nat) (docs : list string) (done_ : list string) (n : nat) :
    prog EdgeStore (option nat) :=
  match docs with
  | [] => Done (Some n)
  | doc :: docs' =>
      do* acc := visit_doc fuel doc 0 done_ n in
      match acc with Some (done', n') => visit_docs fuel docs' done' n' | None => Done None end
  end.
End visit.

(** ** Retiring *)

Definition startsAfter (v : option Z) (at_ : Z) : bool := match v with Some f => (at_ <? f)%Z | None => false end.

Definition retired_with (docs : list string) (r : EdgeRow) : list string :=
  add_all [] (app (retired r) (List.filter (λ d, bool_decide (d ∈ asserted r)) docs)).

Definition closes (docs : list string) (at_ : Z) (r : EdgeRow) : bool :=
  forallb (λ d, bool_decide (d ∈ retired_with docs r)) (asserted r) && negb (es_undocumented (eg_source r)) &&
  bool_decide (eg_validUntil r = None) && bool_decide (eg_invalidatedAt r = None) &&
  negb (startsAfter (eg_validFrom r) at_).

Definition set_retired (rs : list string) (r : EdgeRow) : EdgeRow :=
  let so := eg_source r in
  with_source {| es_documentId := es_documentId so; es_documentIds := es_documentIds so;
                 es_retiredDocumentIds := Some rs; es_undocumented := es_undocumented so;
                 es_retiredAt := es_retiredAt so; es_rest := es_rest so |} r.

Definition close_at (at_ : Z) (r : EdgeRow) : EdgeRow :=
  let so := eg_source r in
  with_period (eg_validFrom r) (Some at_) (eg_invalidatedAt r)
    (with_source {| es_documentId := es_documentId so; es_documentIds := es_documentIds so;
                    es_retiredDocumentIds := es_retiredDocumentIds so; es_undocumented := es_undocumented so;
                    es_retiredAt := Some at_; es_rest := es_rest so |} r).

(** [retireOne]: decided on the row as the page read it, written on the row as it is. *)
Definition retireOne (docs : list string) (at_ : Z) (r : EdgeRow) : (EdgeRow → EdgeRow) * bool :=
  let rs := retired_with docs r in
  if closes docs at_ r then (λ cur, close_at at_ (set_retired rs cur), true) else (set_retired rs, false).

Definition record_ids (documentIds : list string) : list string := add_all [] (map documentRecordId documentIds).

Definition retireEdgeSupport (fuel : nat) (documentIds : list string) (at_ : Z) (keep : list string) :
    prog EdgeStore (option nat) :=
  let docs := record_ids documentIds in
  visit_docs (λ _ kv, bool_decide (kv.1 ∈ keep)) (retireOne docs at_) fuel docs [] 0.

(** ** Restoring *)

Definition restoreOne (docs : list string) (at_ : Z) (r : EdgeRow) : (EdgeRow → EdgeRow) * bool :=
  let rs := array_complement (retired r) docs in
  if bool_decide (es_retiredAt (eg_source r) = Some at_) && bool_decide (eg_validUntil r = Some at_)
  then (λ cur, unretire (set_retired rs cur), true) else (set_retired rs, false).

Definition restoreEdgeSupport (fuel : nat) (documentIds : list string) (at_ : Z) : prog EdgeStore (option nat) :=
  let docs := record_ids documentIds in
  visit_docs (λ doc kv, negb (bool_decide (doc ∈ retired kv.2))) (restoreOne docs at_) fuel docs [] 0.

(** ** What a visit does, run alone *)

Section spec.
Context (skip : string → string * EdgeRow → bool) (act : EdgeRow → (EdgeRow → EdgeRow) * bool).
Hypothesis act_keeps : ∀ r, asserted ((act r).1 r) = asserted r.

(** The store once the rows of [D] are done. *)
Definition after (D : list string) (s : EdgeStore) : EdgeStore :=
  map_imap (λ id r, Some (if bool_decide (id ∈ D) then (act r).1 r else r)) s.

Definition shown (D : list string) (kv : string * EdgeRow) : string * EdgeRow :=
  (kv.1, if bool_decide (kv.1 ∈ D) then (act kv.2).1 kv.2 else kv.2).

Definition pure_step (doc : string) (acc : list string * nat) (kv : string * EdgeRow) : list string * nat :=
  if bool_decide (kv.1 ∈ acc.1) || skip doc kv then acc
  else (kv.1 :: acc.1, if (act kv.2).2 then S acc.2 else acc.2).

Lemma lookup_after D s id :
  after D s !! id = (λ r, if bool_decide (id ∈ D) then (act r).1 r else r) <$> s !! id.
Proof. unfold after. rewrite map_lookup_imap. by destruct (s !! id). Qed.

Lemma after_nil s : after [] s = s.
Proof. apply map_eq. intros id. rewrite lookup_after. by destruct (s !! id). Qed.

Lemma after_cons id r D s :
  s !! id = Some r → id ∉ D → alter (act r).1 id (after D s) = after (id :: D) s.
Proof.
  intros Hr Hn. apply map_eq. intros j. rewrite lookup_alter, !lookup_after. case_decide as Hj.
  - subst j. rewrite Hr. cbn. rewrite bool_decide_eq_false_2, bool_decide_eq_true_2; [done|by left|done].
  - destruct (s !! j); [|done]. cbn. f_equal. apply not_eq_sym in Hj.
    rewrite (bool_decide_ext (j ∈ id :: D) (j ∈ D)); [done|]. rewrite elem_of_cons. naive_solver.
Qed.

Lemma dom_after D s : dom (after D s) = dom s.
Proof.
  apply set_eq. intros id. rewrite !elem_of_dom, lookup_after. split; intros [r H]; [|rewrite H; by eexists].
  apply fmap_Some in H as (r0 & H & _). by exists r0.
Qed.

Lemma rows_after D s : rows_by_id (after D s) = map (shown D) (rows_by_id s).
Proof.
  unfold rows_by_id. rewrite dom_after. generalize (merge_sort str_le (elements (dom s))). intros l.
  induction l as [|id l IH]; [done|]. cbn. rewrite lookup_after. destruct (s !! id) as [r|]; [|done]. cbn.
  by rewrite IH.
Qed.

Lemma asserted_by_after doc D s : asserted_by doc (after D s) = map (shown D) (asserted_by doc s).
Proof.
  unfold asserted_by. rewrite rows_after. induction (rows_by_id s) as [|[id r] l IH]; [done|]. cbn.
  assert (E : asserts doc (shown D (id, r)) = asserts doc (id, r)).
  { unfold asserts, shown. cbn. destruct (bool_decide (id ∈ D)); [by rewrite act_keeps|done]. }
  rewrite E. destruct (asserts doc (id, r)); [|done]. cbn. by rewrite IH.
Qed.

Lemma elem_of_rows_by_id s id r : (id, r) ∈ rows_by_id s ↔ s !! id = Some r.
Proof.
  unfold rows_by_id. rewrite list_elem_of_omap. split.
  - intros (id' & _ & H). apply fmap_Some in H as (r' & H & [= -> ->]). done.
  - intros H. exists id. split; [|by rewrite H]. rewrite merge_sort_Permutation, elem_of_elements, elem_of_dom. by exists r.
Qed.

Lemma elem_of_asserted_by doc s id r :
  (id, r) ∈ asserted_by doc s ↔ s !! id = Some r ∧ doc ∈ asserted r.
Proof.
  unfold asserted_by. rewrite elem_of_bfilter, elem_of_rows_by_id. unfold asserts. by rewrite bool_decide_eq_true.
Qed.

Lemma visit_rows_run doc s rows D0 D n :
  (∀ kv, kv ∈ rows → s !! kv.1 = Some kv.2) → (∀ id, id ∈ D0 → id ∈ D) →
  run (visit_rows skip act doc (map (shown D0) rows) D n) (after D s) =
  (after (fold_left (pure_step doc) rows (D, n)).1 s, fold_left (pure_step doc) rows (D, n)).
Proof.
  revert D n. induction rows as [|[id r] rows IH]; intros D n Hrows Hsub; [done|]. cbn [map shown visit_rows fold_left fst snd].
  assert (Hr : s !! id = Some r) by (apply (Hrows (id, r)); by left).
  assert (Hrest : ∀ kv, kv ∈ rows → s !! kv.1 = Some kv.2) by (intros kv H; apply Hrows; by right).
  unfold pure_step at 2 4. cbn [fst snd]. destruct (decide (id ∈ D)) as [Hd|Hd].
  { rewrite (bool_decide_eq_true_2 (id ∈ D)) by done. by apply IH. }
  rewrite (bool_decide_eq_false_2 (id ∈ D)) by done. cbn [orb].
  rewrite (bool_decide_eq_false_2 (id ∈ D0)) by auto. destruct (skip doc (id, r)); [by apply IH|].
  rewrite run_bind. unfold on_edge. rewrite run_exec. cbn [fst snd]. rewrite (after_cons _ r) by done.
  apply IH; [done|]. intros j Hj. right. auto.
Qed.

Lemma PAGE_pos : 0 < PAGE.
Proof. unfold PAGE. lia. Qed.

#[local] Opaque PAGE.

Lemma visit_doc_run fuel doc s start D n :
  length (asserted_by doc s) < start + fuel * PAGE →
  let acc := fold_left (pure_step doc) (drop start (asserted_by doc s)) (D, n) in
  run (visit_doc skip act fuel doc start D n) (after D s) = (after acc.1 s, Some acc) ∨
  length (asserted_by doc s) < start.
Proof.
  revert start D n. induction fuel as [|fuel IH]; intros start D n Hf; [right; lia|]. left.
  set (L := asserted_by doc s) in *. cbn [visit_doc]. rewrite run_bind, run_query. cbn [fst snd].
  assert (Ep : asserted_page doc start (after D s) = map (shown D) (take PAGE (drop start L))).
  { unfold asserted_page. rewrite asserted_by_after. fold L. by rewrite skipn_map, firstn_map. }
  rewrite Ep, run_bind, visit_rows_run; [|intros [id r] Hin|done].
  2: { apply elem_of_take in Hin as (i & Hi & _). apply list_elem_of_lookup_2 in Hi.
       assert (Hin : (id, r) ∈ L) by (rewrite <- (take_drop start L), elem_of_app; by right).
       by apply elem_of_asserted_by in Hin as []. }
  cbn [fst snd]. rewrite length_map. destruct (length (take PAGE (drop start L)) <? PAGE) eqn:El.
  - apply Nat.ltb_lt in El. cbn [run]. rewrite length_take in El.
    rewrite take_ge by lia. done.
  - apply Nat.ltb_ge in El. rewrite length_take, length_drop in El.
    set (acc := fold_left (pure_step doc) (take PAGE (drop start L)) (D, n)).
    destruct (IH (start + PAGE) acc.1 acc.2) as [E|Hlt]; [fold L; lia| |fold L in Hlt; pose proof PAGE_pos; lia].
    fold L in E. rewrite E, <- drop_drop, <- surjective_pairing. unfold acc. by rewrite <- fold_left_app, take_drop.
Qed.

Definition visits (docs : list string) (s : EdgeStore) : list (string * (string * EdgeRow)) :=
  flat_map (λ doc, map (pair doc) (asserted_by doc s)) docs.

Definition visited (docs : list string) (s : EdgeStore) (acc : list string * nat) : list string * nat :=
  fold_left (λ acc x, pure_step x.1 acc x.2) (visits docs s) acc.

Lemma asserted_by_bound doc s : length (asserted_by doc s) ≤ size s.
Proof.
  assert (Hs : size s = length (merge_sort str_le (elements (dom s)))).
  { rewrite (Permutation_length (merge_sort_Permutation str_le _)). symmetry. apply size_dom. }
  unfold asserted_by, rows_by_id. rewrite Hs, List.filter_length_le.
  generalize (merge_sort str_le (elements (dom s))). intros l. induction l as [|id l IH]; [done|]. cbn.
  destruct (s !! id); cbn; lia.
Qed.

Lemma visit_docs_run fuel docs s D n :
  size s < fuel * PAGE →
  run (visit_docs skip act fuel docs D n) (after D s) =
  (after (visited docs s (D, n)).1 s, Some (visited docs s (D, n)).2).
Proof.
  intros Hf. revert D n. induction docs as [|doc docs IH]; intros D n; [done|]. cbn [visit_docs]. rewrite run_bind.
  destruct (visit_doc_run fuel doc s 0 D n) as [E|H]; [|rewrite E|lia].
  { pose proof (asserted_by_bound doc s). lia. }
  cbn [fst snd drop]. unfold visited, visits. cbn [flat_map]. rewrite fold_left_app.
  assert (Em : ∀ l acc, fold_left (λ acc x, pure_step x.1 acc x.2) (map (pair doc) l) acc = fold_left (pure_step doc) l acc).
  { induction l as [|x l IHl]; intros acc; [done|]. cbn. apply IHl. }
  rewrite Em. destruct (fold_left (pure_step doc) _ _) as [D' n']. apply IH.
Qed.

Lemma visited_mem (l : list (string * (string * EdgeRow))) D n id :
  id ∈ (fold_left (λ acc x, pure_step x.1 acc x.2) l (D, n)).1 ↔
  id ∈ D ∨ ∃ doc r, (doc, (id, r)) ∈ l ∧ skip doc (id, r) = false.
Proof.
  revert D n. induction l as [|[doc [j r]] l IH]; intros D n; cbn [fold_left fst snd].
  { split; [by left|]. intros [?|(? & ? & ?%elem_of_nil & _)]; done. }
  assert (Hskip : (∃ doc0 r0, (doc0, (id, r0)) ∈ (doc, (j, r)) :: l ∧ skip doc0 (id, r0) = false) ↔
    (j = id ∧ skip doc (j, r) = false) ∨ ∃ doc0 r0, (doc0, (id, r0)) ∈ l ∧ skip doc0 (id, r0) = false).
  { split.
    - intros (d0 & r0 & H & Hs). apply elem_of_cons in H as [[= -> -> ->]|H]; [by left|right; eauto].
    - intros [[-> Hs]|(d0 & r0 & H & Hs)]; [exists doc, r|exists d0, r0]; (split; [|done]); [by left|by right]. }
  rewrite Hskip. unfold pure_step at 2. cbn [fst snd].
  destruct (decide (j ∈ D)) as [Hd|Hd].
  { rewrite bool_decide_eq_true_2 by done. cbn [orb]. rewrite IH. naive_solver. }
  rewrite bool_decide_eq_false_2 by done. cbn [orb]. destruct (skip doc (j, r)) eqn:Es; rewrite IH.
  - naive_solver.
  - rewrite elem_of_cons. naive_solver.
Qed.

Lemma visited_count (s : EdgeStore) (l : list (string * (string * EdgeRow))) acc :
  (∀ x, x ∈ l → s !! x.2.1 = Some x.2.2) →
  let counted id := ∃ r, s !! id = Some r ∧ (act r).2 = true in
  (∃ C, NoDup C ∧ acc.2 = length C ∧ ∀ id, id ∈ C ↔ id ∈ acc.1 ∧ counted id) →
  let acc' := fold_left (λ acc x, pure_step x.1 acc x.2) l acc in
  ∃ C, NoDup C ∧ acc'.2 = length C ∧ ∀ id, id ∈ C ↔ id ∈ acc'.1 ∧ counted id.
Proof.
  intros Hl counted. revert acc. induction l as [|[doc [j r]] l IH]; intros acc Hacc; [done|]. cbn [fold_left].
  apply IH; [intros x Hx; apply Hl; by right|]. clear IH. unfold pure_step. cbn [fst snd].
  destruct (decide (j ∈ acc.1)) as [Hd|Hd]; [by rewrite bool_decide_eq_true_2|].
  rewrite bool_decide_eq_false_2 by done. destruct (skip doc (j, r)); [done|]. cbn [orb fst snd].
  assert (Hj : s !! j = Some r) by (apply (Hl (doc, (j, r))); by left).
  destruct Hacc as (C & HC & En & Hm). destruct (act r).2 eqn:Ea.
  - exists (j :: C). split; [|split; [cbn; congruence|]].
    + constructor; [|done]. rewrite Hm. by intros [? _].
    + intros id. rewrite !elem_of_cons, Hm. split; [intros [->|[? ?]]|intros [[->|?] ?]]; auto.
      split; [by left|by exists r].
  - exists C. split_and!; [done..|]. intros id. rewrite elem_of_cons, Hm. split; [intros [? ?]; auto|].
    intros [[->|?] Hc]; [|done]. destruct Hc as (r' & Hr' & Ha). congruence.
Qed.

(** The loop, run alone with fuel for every page: it touches exactly the rows a document
    of the list asserts and that are not passed over, each once. *)
Lemma visit_docs_spec fuel docs s :
  size s < fuel * PAGE →
  let touched id r := ∃ doc, doc ∈ docs ∧ doc ∈ asserted r ∧ skip doc (id, r) = false in
  ∃ s' C, run (visit_docs skip act fuel docs [] 0) s = (s', Some (length C)) ∧ dom s' = dom s ∧
    (∀ id r, s !! id = Some r → ∃ r', s' !! id = Some r' ∧
      (touched id r → r' = (act r).1 r) ∧ (¬ touched id r → r' = r)) ∧
    NoDup C ∧ ∀ id, id ∈ C ↔ ∃ r, s !! id = Some r ∧ touched id r ∧ (act r).2 = true.
Proof.
  intros Hf touched. pose proof (visit_docs_run fuel docs s [] 0 Hf) as E. rewrite after_nil in E.
  set (acc := visited docs s ([], 0)) in *.
  assert (Hvis : ∀ doc id r, (doc, (id, r)) ∈ visits docs s ↔ doc ∈ docs ∧ s !! id = Some r ∧ doc ∈ asserted r).
  { intros doc id r. unfold visits. rewrite list_elem_of_In, in_flat_map. split.
    - intros (d & Hd & Hx). apply list_elem_of_In in Hd. apply list_elem_of_In, list_elem_of_fmap in Hx as (x & [= -> <-] & Hx).
      by apply elem_of_asserted_by in Hx.
    - intros (Hd & Hr). exists doc. split; [by apply list_elem_of_In|].
      apply list_elem_of_In, list_elem_of_fmap. exists (id, r). split; [done|]. by apply elem_of_asserted_by. }
  assert (Hmem : ∀ id, id ∈ acc.1 ↔ ∃ r, s !! id = Some r ∧ touched id r).
  { intros id. unfold acc, visited. rewrite visited_mem. split.
    - intros [[]%elem_of_nil|(doc & r & H & Hs)]. apply Hvis in H as (? & ? & ?). exists r. split; [done|]. by exists doc.
    - intros (r & Hr & doc & H1 & H2 & H3). right. exists doc, r. split; [|done]. by apply Hvis. }
  destruct (visited_count s (visits docs s) ([], 0)) as (C & HC & En & Hm).
  { intros [doc [id r]] H. by apply Hvis in H as (_ & ? & _). }
  { exists []. split_and!; [constructor|done|]. intros id. cbn. rewrite elem_of_nil. tauto. }
  fold (visited docs s ([], 0)) in En, Hm. fold acc in En, Hm.
  exists (after acc.1 s), C. rewrite E, En. split; [done|]. split; [apply dom_after|]. split; [|split; [done|]].
  - intros id r Hr. rewrite lookup_after, Hr. eexists. split; [reflexivity|].
    split; intros Ht; [rewrite bool_decide_eq_true_2|rewrite bool_decide_eq_false_2]; [done| |done|]; rewrite Hmem; [by exists r|].
    intros (r' & Hr' & H). congruence.
  - intros id. rewrite Hm, Hmem. split.
    + intros [(r & Hr & Ht) (r' & Hr' & Ha)]. exists r. split_and!; [done..|congruence].
    + intros (r & Hr & Ht & Ha). split; by exists r.
Qed.
End spec.

(** ** Documents that go away *)

(** The documents that still assert the edge. *)
Definition live (r : EdgeRow) : list string := array_complement (asserted r) (retired r).

Definition without (docs : list string) (l : list string) : list string :=
  List.filter (λ d, negb (bool_decide (d ∈ docs))) l.

Lemma elem_of_retired_with docs r d :
  d ∈ retired_with docs r ↔ d ∈ retired r ∨ (d ∈ docs ∧ d ∈ asserted r).
Proof.
  unfold retired_with. rewrite elem_of_add_all, elem_of_nil, elem_of_app, elem_of_bfilter, bool_decide_eq_true. tauto.
Qed.

Lemma live_set_retired docs r : live (set_retired (retired_with docs r) r) = without docs (live r).
Proof.
  unfold live, without, array_complement. change (asserted (set_retired _ r)) with (asserted r).
  change (retired (set_retired (retired_with docs r) r)) with (retired_with docs r).
  assert (H : ∀ l, (∀ d, d ∈ l → d ∈ asserted r) →
    List.filter (λ x, negb (bool_decide (x ∈ retired_with docs r))) l =
    List.filter (λ d, negb (bool_decide (d ∈ docs))) (List.filter (λ x, negb (bool_decide (x ∈ retired r))) l)).
  { induction l as [|d l IH]; intros Hl; [done|]. assert (Hd : d ∈ asserted r) by (apply Hl; by left).
    assert (Hrest : ∀ e, e ∈ l → e ∈ asserted r) by (intros; apply Hl; by right). specialize (IH Hrest).
    cbn [List.filter]. rewrite (bool_decide_ext _ _ (elem_of_retired_with docs r d)).
    destruct (decide (d ∈ retired r)) as [H1|H1].
    - rewrite (bool_decide_eq_true_2 (d ∈ retired r)), (bool_decide_eq_true_2 (_ ∨ _)) by auto. apply IH.
    - rewrite (bool_decide_eq_false_2 (d ∈ retired r)) by done. cbn [negb List.filter].
      destruct (decide (d ∈ docs)) as [H2|H2].
      + rewrite (bool_decide_eq_true_2 (d ∈ docs)), (bool_decide_eq_true_2 (_ ∨ _)) by auto. apply IH.
      + rewrite (bool_decide_eq_false_2 (d ∈ docs)), (bool_decide_eq_false_2 (_ ∨ _)) by tauto. cbn [negb]. f_equal. apply IH. }
  by apply H.
Qed.

Lemma without_none docs l : (∀ d, d ∈ docs → d ∉ l) → without docs l = l.
Proof.
  intros H. induction l as [|d l IH]; [done|]. unfold without. cbn [List.filter].
  rewrite bool_decide_eq_false_2; [|intros Hd; apply (H d Hd); by left]. cbn [negb]. f_equal. apply IH.
  intros e He Hin. apply (H e He). by right.
Qed.

Lemma all_retired docs r :
  forallb (λ d, bool_decide (d ∈ retired_with docs r)) (asserted r) = true ↔ without docs (live r) = [].
Proof.
  rewrite <- live_set_retired. unfold live, array_complement.
  change (asserted (set_retired _ r)) with (asserted r).
  change (retired (set_retired (retired_with docs r) r)) with (retired_with docs r).
  induction (asserted r) as [|d l IH]; [done|]. cbn. case_bool_decide; cbn; [done|]. split; [done|]. done.
Qed.

(** Whether the edge closes when [docs] stop asserting it at [at_]: nothing live is left,
    it is not flagged as stated elsewhere, it is open on both axes and had begun. *)
Definition ungrounded (docs : list string) (at_ : Z) (r : EdgeRow) : Prop :=
  without docs (live r) = [] ∧ es_undocumented (eg_source r) = false ∧ eg_validUntil r = None ∧
  eg_invalidatedAt r = None ∧ ∀ f, eg_validFrom r = Some f → (f <= at_)%Z.

Lemma closes_iff docs at_ r : closes docs at_ r = true ↔ ungrounded docs at_ r.
Proof.
  unfold closes, ungrounded, startsAfter. rewrite !andb_true_iff, all_retired, !negb_true_iff, !bool_decide_eq_true.
  destruct (eg_validFrom r) as [f|].
  - rewrite Z.ltb_ge. naive_solver.
  - naive_solver.
Qed.

Lemma retireOne_keeps docs at_ r : asserted ((retireOne docs at_ r).1 r) = asserted r.
Proof. unfold retireOne. by destruct (closes docs at_ r). Qed.

Lemma restoreOne_keeps docs at_ r : asserted ((restoreOne docs at_ r).1 r) = asserted r.
Proof. unfold restoreOne. by destruct (_ && _). Qed.

(** C25. Documents that go away at [at_], run alone and with fuel for the pages: every edge
    outside [keep] loses them as live documents; the edges that list one of them, are left
    with no live document, are not flagged as stated outside a document, are open on both
    axes and have begun by [at_] close at [at_]; no other edge changes its end; and the
    count is the number closed. The flag is what the row records: a restatement outside any
    document sets it on an edge a document created, never on one a conversation created, so
    such an edge closes with the documents that restated it. *)
Theorem gone_documents_close_what_they_alone_assert fuel ids at_ keep s :
  size s < fuel * PAGE →
  let docs := record_ids ids in
  ∃ s' C, run (retireEdgeSupport fuel ids at_ keep) s = (s', Some (length C)) ∧ NoDup C ∧
    (∀ id, id ∈ C ↔ ∃ r, s !! id = Some r ∧ (id ∉ keep) ∧ (∃ d, d ∈ docs ∧ d ∈ asserted r) ∧ ungrounded docs at_ r) ∧
    ∀ id r, s !! id = Some r → ∃ r', s' !! id = Some r' ∧ asserted r' = asserted r ∧ edge_key r' = edge_key r ∧
      live r' = (if decide (id ∈ keep) then live r else without docs (live r)) ∧
      eg_validUntil r' = (if decide (id ∈ C) then Some at_ else eg_validUntil r).
Proof.
  intros Hf docs.
  destruct (visit_docs_spec (λ _ kv, bool_decide (kv.1 ∈ keep)) (retireOne docs at_) (retireOne_keeps docs at_) fuel docs s Hf)
    as (s' & C & E & _ & Hrows & HC & Hm).
  exists s', C. split; [exact E|]. split; [done|].
  assert (Ht : ∀ id r, (∃ doc, doc ∈ docs ∧ doc ∈ asserted r ∧ bool_decide (id ∈ keep) = false) ↔
    (id ∉ keep) ∧ (∃ d, d ∈ docs ∧ d ∈ asserted r)) by (intros; setoid_rewrite bool_decide_eq_false; naive_solver).
  assert (Hc : ∀ r, (retireOne docs at_ r).2 = true ↔ ungrounded docs at_ r).
  { intros r. rewrite <- closes_iff. unfold retireOne. by destruct (closes docs at_ r). }
  cbn [fst] in *. split; [intros id; rewrite Hm; setoid_rewrite Ht; setoid_rewrite Hc; naive_solver|].
  intros id r Hr. destruct (Hrows id r Hr) as (r' & Hr' & Hy & Hn). exists r'. split; [done|]. setoid_rewrite Ht in Hy. setoid_rewrite Ht in Hn.
  destruct (decide (id ∈ keep)) as [Hk|Hk].
  - rewrite Hn by tauto. split_and!; [done..|]. destruct (decide (id ∈ C)) as [Hid|]; [|done].
    apply Hm in Hid as (r0 & _ & (d & _ & _ & Hd) & _). by apply bool_decide_eq_false in Hd.
  - destruct (decide (Exists (λ d, d ∈ asserted r) docs)) as [Hex|Hex]; rewrite Exists_exists in Hex.
    + rewrite Hy by done. destruct (decide (id ∈ C)) as [Hid|Hid]; rewrite Hm in Hid.
      * destruct Hid as (r0 & Hr0 & _ & Ha). assert (r0 = r) as -> by congruence. unfold retireOne in *.
        destruct (closes docs at_ r); [|done]. cbn [fst]. split_and!; [done..| |done]. apply live_set_retired.
      * assert (Hne : (retireOne docs at_ r).2 = false).
        { apply not_true_is_false. intros Ha. apply Hid. exists r. split_and!; [done| |done]. by apply Ht. }
        unfold retireOne in *. destruct (closes docs at_ r); [done|]. cbn [fst]. split_and!; [done..| |done]. apply live_set_retired.
    + rewrite Hn by naive_solver. split_and!; [done..| |].
      * symmetry. apply without_none. intros d Hd Hin. apply Hex. exists d. split; [done|].
        by apply elem_of_array_complement in Hin as [? _].
      * destruct (decide (id ∈ C)) as [Hid|]; [|done]. apply Hm in Hid as (r0 & Hr0 & (d & H1 & H2 & _) & _).
        destruct Hex. exists d. split; [done|]. congruence.
Qed.

(** ** Documents that come back *)

(** A retired set with the same members as before retiring: the list written out. *)
Definition same_support (r r' : EdgeRow) : Prop := r' = r ∨ r' = set_retired (retired r) r.

Lemma add_all_fresh (l out : list string) : NoDup (app out l) → add_all out l = app out l.
Proof.
  revert out. induction l as [|x l IH]; intros out Ho; cbn; [by rewrite app_nil_r|]. unfold add_new.
  rewrite bool_decide_eq_false_2.
  - replace (app out (x :: l)) with (app (app out [x]) l) in * by (by rewrite <- app_assoc). by apply IH.
  - apply NoDup_app in Ho as (_ & Ho & _). intros Hx. apply (Ho x Hx). by left.
Qed.

Lemma complement_retired_with docs r :
  NoDup (retired r) → (∀ d, d ∈ docs → d ∉ retired r) → array_complement (retired_with docs r) docs = retired r.
Proof.
  intros Hn Hd. set (l := List.filter (λ d, bool_decide (d ∈ asserted r)) docs).
  assert (E : retired_with docs r = add_all (retired r) l).
  { unfold retired_with, add_all. rewrite fold_left_app. f_equal. by apply (add_all_fresh (retired r) []). }
  rewrite E. assert (Hnd : NoDup (add_all (retired r) l)) by by apply NoDup_add_all.
  destruct (add_all_prefix (retired r) l) as [new En].
  assert (Hnew : ∀ d, d ∈ new → d ∈ docs).
  { intros d Hin. assert (H : d ∈ add_all (retired r) l) by (rewrite En, elem_of_app; by right).
    apply elem_of_add_all in H as [H|H]; [|by apply elem_of_bfilter in H as [? _]].
    rewrite En in Hnd. apply NoDup_app in Hnd as (_ & Hx & _). by destruct (Hx d H). }
  rewrite En. unfold array_complement. rewrite List.filter_app.
  change (List.filter _ (retired r)) with (without docs (retired r)). rewrite without_none by done.
  clear -Hnew. induction new as [|d new IH]; [by rewrite app_nil_r|]. cbn [List.filter].
  rewrite bool_decide_eq_true_2 by (apply Hnew; by left). apply IH. intros. apply Hnew. by right.
Qed.

(** None of the documents had left the edge before, nothing closed it at this instant, and an
    open edge carries no lifecycle close. *)
Definition not_yet_gone (docs : list string) (at_ : Z) (r : EdgeRow) : Prop :=
  NoDup (retired r) ∧ (∀ d, d ∈ docs → d ∉ retired r) ∧ es_retiredAt (eg_source r) ≠ Some at_ ∧
  (eg_validUntil r = None → es_retiredAt (eg_source r) = None).

Definition touched (docs : list string) (r : EdgeRow) : Prop := ∃ doc, doc ∈ docs ∧ doc ∈ asserted r.

(** Closed by document lifecycle at this instant. *)
Definition shut_at (at_ : Z) (r : EdgeRow) : Prop := es_retiredAt (eg_source r) = Some at_ ∧ eg_validUntil r = Some at_.

#[export] Instance touched_dec docs r : Decision (touched docs r).
Proof. refine (cast_if (decide (Exists (λ d, d ∈ asserted r) docs))); unfold touched; by rewrite <- Exists_exists. Defined.

Lemma reopens_iff docs at_ r : (restoreOne docs at_ r).2 = true ↔ shut_at at_ r.
Proof.
  unfold restoreOne, shut_at. destruct (_ && _) eqn:E; cbn [snd].
  - by rewrite andb_true_iff, !bool_decide_eq_true in E.
  - apply not_true_iff_false in E. by rewrite andb_true_iff, !bool_decide_eq_true in E.
Qed.

Lemma restored_row docs at_ r :
  (restoreOne docs at_ r).1 r =
    (if (restoreOne docs at_ r).2 then unretire (set_retired (array_complement (retired r) docs) r)
     else set_retired (array_complement (retired r) docs) r).
Proof. unfold restoreOne. by destruct (_ && _). Qed.

(** What going and coming back makes of a row. *)
Lemma back_and_forth docs at_ r :
  let r1 := (retireOne docs at_ r).1 r in
  let r2 := (restoreOne docs at_ r1).1 r1 in
  (∀ d, d ∈ live r2 ↔ d ∈ asserted r ∧ (d ∈ docs ∨ d ∉ retired r)) ∧
  eg_validUntil r2 = (if (restoreOne docs at_ r1).2 then None else eg_validUntil r).
Proof.
  intros r1 r2. assert (Ea : asserted r1 = asserted r) by apply retireOne_keeps.
  assert (Er : retired r1 = retired_with docs r) by (unfold r1, retireOne; by destruct (closes docs at_ r)).
  assert (Eu : (restoreOne docs at_ r1).2 = false → eg_validUntil r1 = eg_validUntil r).
  { intros H. assert (Hn : ¬ shut_at at_ r1) by (rewrite <- (reopens_iff docs), H; done). revert Hn. unfold r1, retireOne.
    destruct (closes docs at_ r); cbn [fst]; [|done]. intros []. by split. }
  unfold r2. rewrite restored_row. clear r2. clearbody r1. destruct (restoreOne docs at_ r1).2; (split; [|try done; by apply Eu]); intros d.
  - change (live (unretire ?x)) with (live x). unfold live. change (asserted (set_retired ?x r1)) with (asserted r1).
    change (retired (set_retired ?x r1)) with x. rewrite Ea, Er, !elem_of_array_complement, elem_of_retired_with. destruct (decide (d ∈ docs)); tauto.
  - unfold live. change (asserted (set_retired ?x r1)) with (asserted r1). change (retired (set_retired ?x r1)) with x.
    rewrite Ea, Er, !elem_of_array_complement, elem_of_retired_with. destruct (decide (d ∈ docs)); tauto.
Qed.

Lemma reopens_what_closed docs at_ r :
  es_retiredAt (eg_source r) ≠ Some at_ →
  let r1 := (retireOne docs at_ r).1 r in (restoreOne docs at_ r1).2 = (retireOne docs at_ r).2.
Proof.
  intros Hat. unfold retireOne. destruct (closes docs at_ r); cbn [fst snd]; unfold restoreOne.
  - by rewrite !bool_decide_eq_true_2.
  - by rewrite (bool_decide_eq_false_2 (es_retiredAt _ = _)).
Qed.

Lemma restore_after_retire docs at_ r :
  not_yet_gone docs at_ r →
  let r1 := (retireOne docs at_ r).1 r in (restoreOne docs at_ r1).1 r1 = set_retired (retired r) r.
Proof.
  intros (Hn & Hd & Hat & Ho). cbn zeta. rewrite restored_row, reopens_what_closed by done. unfold retireOne.
  destruct (closes docs at_ r) eqn:Ec; cbn [fst snd].
  - apply closes_iff in Ec as (_ & _ & Hu & _).
    change (retired (close_at _ _)) with (retired_with docs r). rewrite complement_retired_with by done.
    specialize (Ho Hu). destruct r as [a b c d [so1 so2 so3 so4 so5 so6] e f g h i]. cbn in *. by subst.
  - change (retired (set_retired _ r)) with (retired_with docs r). by rewrite complement_retired_with.
Qed.

Lemma retire_gives fuel ids at_ s :
  size s < fuel * PAGE →
  let docs := record_ids ids in
  ∃ s1 C, run (retireEdgeSupport fuel ids at_ []) s = (s1, Some (length C)) ∧ dom s1 = dom s ∧
    (∀ id r, s !! id = Some r → s1 !! id = Some (if decide (touched docs r) then (retireOne docs at_ r).1 r else r)) ∧
    NoDup C ∧ ∀ id, id ∈ C ↔ ∃ r, s !! id = Some r ∧ touched docs r ∧ (retireOne docs at_ r).2 = true.
Proof.
  intros Hf docs. destruct (visit_docs_spec (λ _ kv, bool_decide (kv.1 ∈ (@nil string))) (retireOne docs at_) (retireOne_keeps docs at_)
    fuel docs s Hf) as (s1 & C & E & Hdom & Hrows & HC & Hm).
  assert (Ht : ∀ id r, (∃ doc, doc ∈ docs ∧ doc ∈ asserted r ∧ bool_decide (id ∈ (@nil string)) = false) ↔ touched docs r).
  { intros id r. unfold touched. rewrite bool_decide_eq_false_2 by apply not_elem_of_nil. naive_solver. }
  cbn [fst] in Hrows, Hm. setoid_rewrite Ht in Hrows. setoid_rewrite Ht in Hm. exists s1, C. split_and!; [exact E|done| |done|done].
  intros id r Hr. destruct (Hrows id r Hr) as (r1 & -> & Hy & Hn). by destruct (decide _); [rewrite Hy|rewrite Hn].
Qed.

Lemma restore_gives fuel ids at_ s :
  size s < fuel * PAGE →
  let docs := record_ids ids in
  let back r := ∃ doc, doc ∈ docs ∧ doc ∈ asserted r ∧ doc ∈ retired r in
  ∃ s2 C, run (restoreEdgeSupport fuel ids at_) s = (s2, Some (length C)) ∧
    (∀ id r, s !! id = Some r → ∃ r', s2 !! id = Some r' ∧ (back r → r' = (restoreOne docs at_ r).1 r) ∧ (¬ back r → r' = r)) ∧
    NoDup C ∧ ∀ id, id ∈ C ↔ ∃ r, s !! id = Some r ∧ back r ∧ (restoreOne docs at_ r).2 = true.
Proof.
  intros Hf docs back. destruct (visit_docs_spec (λ doc kv, negb (bool_decide (doc ∈ retired kv.2))) (restoreOne docs at_) (restoreOne_keeps docs at_)
    fuel docs s Hf) as (s2 & C & E & _ & Hrows & HC & Hm).
  assert (Ht : ∀ r, (∃ doc, doc ∈ docs ∧ doc ∈ asserted r ∧ negb (bool_decide (doc ∈ retired r)) = false) ↔ back r).
  { intros r. setoid_rewrite negb_false_iff. by setoid_rewrite bool_decide_eq_true. }
  cbn [snd] in Hrows, Hm. setoid_rewrite Ht in Hrows. setoid_rewrite Ht in Hm. exists s2, C. by split_and!; [exact E|..].
Qed.

(** What touched a row when the documents went is met again when they come back. *)
Lemma touched_comes_back docs at_ r :
  let r1 := if decide (touched docs r) then (retireOne docs at_ r).1 r else r in
  (∃ doc, doc ∈ docs ∧ doc ∈ asserted r1 ∧ doc ∈ retired r1) ↔ touched docs r.
Proof.
  cbn zeta. destruct (decide (touched docs r)) as [Ht|Ht].
  - split; [done|]. intros _. destruct Ht as (doc & H1 & H2). exists doc. rewrite retireOne_keeps. split_and!; [done..|].
    unfold retireOne. destruct (closes docs at_ r); cbn [fst]; apply elem_of_retired_with; auto.
  - split; [|done]. intros (doc & H1 & H2 & _). by exists doc.
Qed.

(** C26. Restoring documents at the instant they went away, nothing between: it reopens
    exactly the edges they assert that document lifecycle had closed at that instant (all
    those just closed; when no edge had been closed at that instant before, only those), no
    other edge changes its end, and on every edge the live documents are then the restored
    ones it lists and those that had never left it. So an edge that none of them had left
    before (no earlier pass closed it at that instant, its retired documents are listed
    once each, and it bears no closing instant while open) is what it was, a written-out
    list of retired documents apart; on an edge one of them had left earlier, through a revision,
    that one is live again. The fuel covers the pages of all edges. *)
Theorem restore_undoes_retire fuel ids at_ s :
  size s < fuel * PAGE →
  let docs := record_ids ids in
  let gone := run (retireEdgeSupport fuel ids at_ []) s in
  let back := run (restoreEdgeSupport fuel ids at_) gone.1 in
  ∃ C, back.2 = Some (length C) ∧ NoDup C ∧
    (∀ id, id ∈ C ↔ ∃ r, gone.1 !! id = Some r ∧ touched docs r ∧ shut_at at_ r) ∧
    ((∀ id r, s !! id = Some r → es_retiredAt (eg_source r) ≠ Some at_) → back.2 = gone.2) ∧
    ∀ id r, s !! id = Some r → ∃ r', back.1 !! id = Some r' ∧
      (∀ d, d ∈ live r' ↔ d ∈ asserted r ∧ (d ∈ docs ∨ d ∉ retired r)) ∧
      eg_validUntil r' = (if decide (id ∈ C) then None else eg_validUntil r) ∧
      (not_yet_gone docs at_ r → same_support r r').
Proof.
  intros Hf docs gone back. destruct (retire_gives fuel ids at_ s Hf) as (s1 & C1 & E1 & Hdom & Hrows1 & HC1 & Hm1).
  unfold back, gone. rewrite E1. cbn [fst snd]. clear back gone E1. fold docs in Hrows1, Hm1.
  assert (Hf1 : size s1 < fuel * PAGE) by (by rewrite <- size_dom, Hdom, size_dom).
  destruct (restore_gives fuel ids at_ s1 Hf1) as (s2 & C2 & E2 & Hrows2 & HC2 & Hm2).
  rewrite E2. cbn [fst snd]. clear E2. fold docs in Hrows2, Hm2.
  assert (Hold : ∀ id r1, s1 !! id = Some r1 → ∃ r, s !! id = Some r ∧ r1 = if decide (touched docs r) then (retireOne docs at_ r).1 r else r).
  { intros id r1 Hr1. assert (is_Some (s !! id)) as [r Hr] by (apply elem_of_dom; rewrite <- Hdom; by eapply elem_of_dom_2).
    exists r. split; [done|]. pose proof (Hrows1 id r Hr). congruence. }
  assert (HC : ∀ id r, s !! id = Some r → id ∈ C2 ↔ touched docs r ∧ shut_at at_ ((retireOne docs at_ r).1 r)).
  { intros id r Hr. rewrite Hm2. pose proof (Hrows1 id r Hr) as Hr1. split.
    - intros (r1 & Hr1' & Hb & Ha). apply reopens_iff in Ha. rewrite Hr1 in Hr1'. injection Hr1' as <-.
      apply touched_comes_back in Hb. by rewrite decide_True in Ha.
    - intros [Ht Ha]. eexists. split; [exact Hr1|]. split; [by apply touched_comes_back|]. rewrite decide_True by done. by apply reopens_iff. }
  exists C2. split; [done|]. split; [done|]. split; [|split].
  - intros id. rewrite Hm2. split; intros (r1 & Hr1 & Hb & Ha); exists r1; (split; [done|]); destruct (Hold id r1 Hr1) as (r & Hr & ->).
    + apply reopens_iff in Ha. split; [|done]. destruct Hb as (d & ? & ? & _). by exists d.
    + split; [|by apply reopens_iff]. apply touched_comes_back. destruct Hb as (d & H1 & H2). exists d. split; [done|].
      destruct (decide _); [by rewrite retireOne_keeps in H2|done].
  - intros Hat. f_equal. apply Permutation_length, NoDup_Permutation; [done..|]. intros id. rewrite Hm1. split.
    + intros Hid. assert (is_Some (s !! id)) as [r Hr].
      { apply Hm2 in Hid as (r1 & Hr1 & _). destruct (Hold id r1 Hr1) as (r & Hr & _). by exists r. }
      apply (HC id r Hr) in Hid. destruct Hid as [Ht Ha]. exists r. split_and!; [done..|]. apply (reopens_iff docs) in Ha.
      by rewrite reopens_what_closed in Ha by (by eapply Hat).
    + intros (r & Hr & Ht & Ha). apply (HC id r Hr). split; [done|]. apply (reopens_iff docs).
      by rewrite reopens_what_closed by (by eapply Hat).
  - intros id r Hr. destruct (Hrows2 id _ (Hrows1 id r Hr)) as (r2 & Hr2 & Hy & Hn). exists r2. split; [done|].
    rewrite touched_comes_back in Hy, Hn. specialize (HC id r Hr). destruct (decide (touched docs r)) as [Ht|Ht].
    + rewrite (Hy Ht). destruct (back_and_forth docs at_ r) as [Hl Hu]. split; [done|]. split.
      * rewrite Hu. destruct (decide (id ∈ C2)) as [Hid|Hid]; rewrite HC in Hid.
        -- by rewrite (proj2 (reopens_iff docs at_ _) (proj2 Hid)).
        -- destruct (restoreOne docs at_ _).2 eqn:Er; [|done]. apply reopens_iff in Er. by destruct Hid.
      * intros Hg. right. by apply restore_after_retire.
    + rewrite (Hn Ht). split; [|split; [|by left]].
      * intros d. unfold live. rewrite elem_of_array_complement. split; [tauto|]. intros [H1 [H2|H2]]; [|done]. exfalso. apply Ht. by exists d.
      * rewrite decide_False; [done|]. rewrite HC. by intros [].
Qed.

(** ** Samples *)

Definition sample_edge (docs : list string) : EdgeRow :=
  {| eg_in := "knowledge_entity:a"; eg_out := "knowledge_entity:b"; eg_kind := "works_at"; eg_weight := 1%float;
     eg_source := {| es_documentId := head docs; es_documentIds := Some docs; es_retiredDocumentIds := None;
                     es_undocumented := false; es_retiredAt := None; es_rest := [] |};
     eg_userId := None; eg_scope := []; eg_validFrom := Some 5%Z; eg_validUntil := None; eg_invalidatedAt := None |}.

Definition D1 : string := "source_document:d1".
Definition D2 : string := "source_document:d2".

Lemma gone_documents_close_what_they_alone_assert_witness :
  let s : EdgeStore := {["e" := sample_edge [D1]]} in
  ∃ s' C, run (retireEdgeSupport 1 ["d1"] 10 []) s = (s', Some (length C)) ∧ "e" ∈ C.
Proof.
  intros s. destruct (gone_documents_close_what_they_alone_assert 1 ["d1"] 10 [] s) as (s' & C & E & _ & Hc & _).
  { vm_compute. lia. }
  exists s', C. split; [exact E|]. apply Hc. exists (sample_edge [D1]). split; [by vm_compute|].
  split; [apply not_elem_of_nil|]. split; [exists D1; split; vm_compute; left|].
  repeat split; try reflexivity. intros f [= <-]. lia.
Defined.

Lemma restore_undoes_retire_witness :
  let s : EdgeStore := {["e" := sample_edge [D1]]} in
  let gone := run (retireEdgeSupport 1 ["d1"] 10 []) s in
  gone.2 = Some 1 ∧ (run (restoreEdgeSupport 1 ["d1"] 10) gone.1).2 = Some 1.
Proof.
  intros s gone. split; [by vm_compute|].
  destruct (restore_undoes_retire 1 ["d1"] 10 s) as (C & _ & _ & _ & E & _); [vm_compute; lia|].
  etransitivity; [apply E|by vm_compute].
  intros id r H. unfold s in H. cbn in H. by apply lookup_singleton_Some in H as [_ <-].
Defined.

(** A document a revision had retired, sent away again with the item and restored, asserts
    again the edge it had stopped asserting; the item's documents are all its revisions. *)
Lemma restore_revives_a_retired_revision :
  let s0 : EdgeStore := {["e" := sample_edge [D1; D2]]} in
  let s1 := (run (retireEdgeSupport 1 ["d1"] 10 []) s0).1 in
  let s2 := (run (retireEdgeSupport 1 ["d1"; "d2"] 20 []) s1).1 in
  let s3 := (run (restoreEdgeSupport 1 ["d1"; "d2"] 20) s2).1 in
  (live <$> s1 !! "e", live <$> s2 !! "e", live <$> s3 !! "e") = (Some [D2], Some [], Some [D1; D2]).
Proof. vm_compute. reflexivity. Qed.

(** An edge two documents assert closes when the second one goes; the first one coming back
    makes it live again and leaves it closed. *)
Lemma returned_document_leaves_its_edge_closed :
  let s0 : EdgeStore := {["e" := sample_edge [D1; D2]]} in
  let s1 := (run (retireEdgeSupport 1 ["d1"] 10 []) s0).1 in
  let s2 := (run (retireEdgeSupport 1 ["d2"] 20 []) s1).1 in
  let s3 := (run (restoreEdgeSupport 1 ["d1"] 10) s2).1 in
  (live <$> s3 !! "e", eg_validUntil <$> s3 !! "e") = (Some [D1], Some (Some 20%Z)).
Proof. vm_compute. reflexivity. Qed.

(** An edge a conversation stated first, then a document, closes with the document: only an
    edge born of a document is ever marked as stated elsewhere. *)
Lemma document_closes_what_a_conversation_said :
  let s1 := (run (createEdgeBetween no_ambient 1 (sample_write None (Some 1%Z) None)) ∅).1 in
  let s2 := (run (createEdgeBetween no_ambient 2 (sample_write (Some "d1") None None)) s1).1 in
  let s3 := (run (retireEdgeSupport 1 ["d1"] 10 []) s2).1 in
  map (λ kv, (es_documentId (eg_source kv.2), eg_validUntil kv.2)) (map_to_list s3) = [(None, Some 10%Z)].
Proof. vm_compute. reflexivity. Qed.

(** A document that asserts the edge after the retiring pass has read its page: the edge
    closes all the same. *)
Lemma retire_closes_over_a_new_document :
  let retire := do* n := retireEdgeSupport 1 ["d1"] 10 [] in Done None in
  let write := createEdgeBetween no_ambient 9 (sample_write (Some "d2") None None) in
  let s := (run_pool [0; 1; 1; 1; 1; 0] ({["e" := sample_edge [D1]]}, [retire; write])).1 in
  (live <$> s !! "e", eg_validUntil <$> s !! "e") = (Some [D2], Some (Some 10%Z)).
Proof. vm_compute. reflexivity. Qed.
