(* ===== verification/EventTime.v ===== *)
(** * When a fact or a relation holds

    The write-path half of [ingest/event-time.ts]: the period of a fact, of an edge, and
    what is expected of a passing state, from the days the extractor resolved. The date
    library's reading of a clause ([resolveEventTime]), [Date.parse] of a day's midnight
    and the day of an instant are parameters; instants are milliseconds, and the moment a
    thing was said is a valid one. *)

From S2P Require Import Prelude Js Regex FactPolicy EdgeWriter.
Local Open Scope string_scope.
Local Open Scope Z_scope.

Definition UNKNOWN_START : Z := 0.
Definition MAX_EXPECTATION_DAYS : Z := 366.
Definition DAY_MS : Z := 86400000.

(** What a fact or an edge says of its time; an edge has no clause. *)
Record Timed := {
  td_clause : option string;
  td_eventTime : option string;
  td_endTime : option string
}.

Record EventTimeResolveOpts := { eo_on : bool; eo_timeZone : option string }.

Record FactTiming := {
  ft_validFrom : Z;
  ft_validUntil : option Z;
  ft_date : option string                     (* [objectMeta.date] *)
}.

(** [date_at]: [new Date(`${day}T00:00:00Z`)]. [iso_day]: [toISOString().slice(0, 10)].
    [resolveEventTime]: the date a clause refers to. *)
Class Calendar := {
  date_at : string → option Z;
  iso_day : Z → string;
  resolveEventTime : option string → Z → option string → option Z
}.

Section timing.
Context `{Calendar}.

(** [/^\d{4}-\d{2}-\d{2}$/] *)
Definition dayStart (day : option string) : option Z :=
  match truthy day with
  | Some d => if re_test ISO_DATE_RE d then date_at d else None
  | None => None
  end.

Definition factValidFrom (f : Timed) (said : Z) (opts : EventTimeResolveOpts) : Z :=
  match (if eo_on opts then resolveEventTime (td_clause f) said (eo_timeZone opts) else None) with
  | Some event => event
  | None => said
  end.

Definition factStart (f : Timed) (said : Z) (opts : EventTimeResolveOpts) : FactTiming :=
  match truthy (td_eventTime f), dayStart (td_eventTime f) with
  | Some day, Some at_ =>
      {| ft_validFrom := if (at_ <=? said) && negb (bool_decide (day = iso_day said)) then at_ else said;
         ft_validUntil := None; ft_date := Some day |}
  | _, _ => {| ft_validFrom := factValidFrom f said opts; ft_validUntil := None; ft_date := None |}
  end.

Definition factTiming (f : Timed) (said : Z) (opts : EventTimeResolveOpts) : FactTiming :=
  match dayStart (td_endTime f) with
  | None => factStart f said opts
  | Some until =>
      match dayStart (td_eventTime f) with
      | None => {| ft_validFrom := UNKNOWN_START; ft_validUntil := Some until; ft_date := None |}
      | Some _ =>
          let start := factStart f said opts in
          {| ft_validFrom := if ft_validFrom start <? until then ft_validFrom start else UNKNOWN_START;
             ft_validUntil := Some until; ft_date := ft_date start |}
      end
  end.

Definition edgeTiming (eventTime endTime : option string) (said : Z) : EdgeTiming :=
  let until := dayStart endTime in
  match until, dayStart eventTime with
  | Some _, None => {| et_validFrom := None; et_validUntil := until |}
  | _, _ =>
      let from := ft_validFrom (factTiming {| td_clause := None; td_eventTime := eventTime; td_endTime := None |} said
                                  {| eo_on := false; eo_timeZone := None |}) in
      match until with
      | None => {| et_validFrom := Some from; et_validUntil := None |}
      | Some u => {| et_validFrom := if from <? u then Some from else None; et_validUntil := until |}
      end
  end.

Definition factExpectation (expectedEnd : option string) (said validFrom : Z) : option Z :=
  match dayStart expectedEnd with
  | None => None
  | Some at_ =>
      if (at_ <=? said) || (at_ <=? validFrom) then None
      else if MAX_EXPECTATION_DAYS * DAY_MS <? at_ - said then None
      else Some at_
  end.

(** ** The periods *)

(** The start of a relation precedes its end, whatever the extractor stated. *)
Lemma edge_period_ordered eventTime endTime said from until :
  et_validFrom (edgeTiming eventTime endTime said) = Some from →
  et_validUntil (edgeTiming eventTime endTime said) = Some until → from < until.
Proof.
  unfold edgeTiming. destruct (dayStart endTime) as [u|]; [|done].
  destruct (dayStart eventTime); cbn [et_validFrom et_validUntil]; [|done]. case_match; [|done]. intros [= <-] [= <-]. lia.
Qed.

(** A fact with an end begins before it, or its start is unknown. *)
Lemma fact_period_ordered f said opts until :
  ft_validUntil (factTiming f said opts) = Some until →
  ft_validFrom (factTiming f said opts) < until ∨ ft_validFrom (factTiming f said opts) = UNKNOWN_START.
Proof.
  unfold factTiming. destruct (dayStart (td_endTime f)) as [u|] eqn:Eu.
  - destruct (dayStart (td_eventTime f)); cbn [ft_validUntil ft_validFrom]; [|by right]. intros [= <-].
    case_match; [left; lia|by right].
  - unfold factStart. by repeat case_match.
Qed.

(** A stated day is where the fact begins when it lies before the day it was said, and what
    was said begins no later than it was said. *)
Lemma stated_day_starts f said opts day at_ :
  truthy (td_eventTime f) = Some day → dayStart (td_eventTime f) = Some at_ → dayStart (td_endTime f) = None →
  let t := factTiming f said opts in
  ft_date t = Some day ∧ ft_validFrom t ≤ said ∧
  (at_ ≤ said → day ≠ iso_day said → ft_validFrom t = at_) ∧ (said < at_ → ft_validFrom t = said).
Proof.
  intros Hd Ha He t. unfold t, factTiming. rewrite He. unfold factStart. rewrite Hd, Ha. cbn [ft_date ft_validFrom].
  repeat case_match; case_bool_decide; cbn [negb andb] in *; split_and!; try done; try lia; intros; try done; lia.
Qed.

(** A fact and the relation that carry one statement agree on when it held. Both end
    with the stated end; a relation that has a start has the fact's, and has none only if
    the fact's is unknown; a stated start precedes a stated end, in the fact unless its
    start is unknown. *)
Theorem fact_and_edge_agree f said opts :
  dayStart (td_eventTime f) ≠ None ∨ dayStart (td_endTime f) ≠ None →
  let t := factTiming f said opts in
  let e := edgeTiming (td_eventTime f) (td_endTime f) said in
  ft_validUntil t = et_validUntil e ∧
  (∀ from, et_validFrom e = Some from → from = ft_validFrom t) ∧
  (et_validFrom e = None → ft_validFrom t = UNKNOWN_START) ∧
  (∀ until, et_validUntil e = Some until →
    (ft_validFrom t < until ∨ ft_validFrom t = UNKNOWN_START) ∧ ∀ from, et_validFrom e = Some from → from < until).
Proof.
  intros Hs t e.
  assert (Hp : ∀ until, ft_validUntil t = Some until → ft_validFrom t < until ∨ ft_validFrom t = UNKNOWN_START)
    by apply fact_period_ordered.
  assert (He : ∀ from until, et_validFrom e = Some from → et_validUntil e = Some until → from < until)
    by apply edge_period_ordered.
  assert (Hu : ft_validUntil t = et_validUntil e).
  { unfold t, e, factTiming, edgeTiming. destruct (dayStart (td_endTime f)) as [u|], (dayStart (td_eventTime f)); try done.
    all: unfold factStart; by repeat case_match. }
  split; [done|]. rewrite Hu in Hp. split_and!; [| |intros; split; eauto].
  - intros from. unfold t, e, edgeTiming, factTiming. cbn [td_endTime td_eventTime dayStart truthy].
    unfold factStart. cbn [td_eventTime]. unfold dayStart in *. repeat case_match; cbn in *; naive_solver.
  - unfold t, e, edgeTiming, factTiming. cbn [td_endTime td_eventTime dayStart truthy].
    unfold factStart. cbn [td_eventTime]. unfold dayStart in *. repeat case_match; cbn in *; naive_solver.
Qed.
End timing.

(** ** Examples *)

Section examples.

(** A calendar that knows three days. *)
#[local] Instance few_days : Calendar :=
  {| date_at := λ d, if bool_decide (d = "2026-03-10") then Some (20522 * DAY_MS)
                     else if bool_decide (d = "2026-04-15") then Some (20558 * DAY_MS)
                     else if bool_decide (d = "1965-06-01") then Some (-1675 * DAY_MS) else None;
     iso_day := λ _, "2026-03-20"; resolveEventTime := λ _ _ _, None |}.

Definition said_then : Z := 20532 * DAY_MS + 5000.

Definition moved_in : Timed := {| td_clause := None; td_eventTime := Some "2026-03-10"; td_endTime := Some "2026-04-15" |}.

Lemma fact_and_edge_agree_witness :
  let opts := {| eo_on := true; eo_timeZone := None |} in
  et_validFrom (edgeTiming (td_eventTime moved_in) (td_endTime moved_in) said_then) = Some (20522 * DAY_MS) ∧
  ft_validFrom (factTiming moved_in said_then opts) = 20522 * DAY_MS.
Proof.
  intros opts. assert (E : et_validFrom (edgeTiming (td_eventTime moved_in) (td_endTime moved_in) said_then) = Some (20522 * DAY_MS))
    by (vm_compute; reflexivity).
  split; [exact E|].
  destruct (fact_and_edge_agree moved_in said_then opts) as (_ & H & _); [left; vm_compute; discriminate|].
  symmetry. exact (H _ E).
Defined.

(** The epoch stands for an unknown start: a value that ended before 1970 begins after its end. *)
Lemma ended_before_the_epoch :
  let t := factTiming {| td_clause := None; td_eventTime := None; td_endTime := Some "1965-06-01" |} said_then
             {| eo_on := true; eo_timeZone := None |} in
  match ft_validUntil t with Some until => until < ft_validFrom t | None => False end.
Proof. vm_compute. reflexivity. Qed.
End examples.
