(* ===== verification/RevisionClosure.v ===== *)
(** * What a new revision no longer says

    [documents/revision-closure.ts]: a later document of a source item closes the claims
    of the earlier ones that it dropped. A record render closes whatever it does not
    restate; prose closes a claim only when the passage it was read from is gone. The
    rows the queries read (documents, chunks, turns) are part of the state; the fuel is
    that of the edge pages. *)

From S2P Require Import Prelude Js Resume FactSlots FactPolicy ScopeTags EdgeWriter EdgeSupport.
From stdpp Require Import gmap.
From Stdlib Require Import Btauto.
Local Open Scope string_scope.
Local Open Scope nat_scope.

Definition SOURCE_RECORD_KIND : string := "source_record".

(** The columns of [source_document] the queries read. *)
Record RevDoc := {
  rd_kind : string;
  rd_occurredAt : option Z;
  rd_sourceItemId : option string;
  rd_record_field : option string
}.

Record Archive := {
  ac_facts : FactDb;
  ac_edges : EdgeStore;
  ac_docs : gmap string RevDoc;
  ac_chunks : gmap string (list string);             (* texts by document, in [seq] order *)
  ac_episodes : gmap string (option string)          (* text by turn *)
}.

Definition put_facts (db : FactDb) (s : Archive) : Archive :=
  {| ac_facts := db; ac_edges := ac_edges s; ac_docs := ac_docs s; ac_chunks := ac_chunks s;
     ac_episodes := ac_episodes s |}.
Definition put_edges (e : EdgeStore) (s : Archive) : Archive :=
  {| ac_facts := ac_facts s; ac_edges := e; ac_docs := ac_docs s; ac_chunks := ac_chunks s;
     ac_episodes := ac_episodes s |}.

Record RevisionClosure := {
  rv_itemId : string;
  rv_documentId : string;
  rv_kind : string;
  rv_field : option string;
  rv_at : Z;
  rv_factIds : list nat;
  rv_edgeIds : list string
}.

Record RetiredClaims := { rt_facts : nat; rt_edges : nat }.

(** ** Reading a fact's source *)

Definition source_of (f : Fact) : list (string * jsval) := so_rest (cl_source (f_claim f)).

(** [source.documentId = $doc] *)
Definition read_from (doc : string) (f : Fact) : bool :=
  match OMap.get "documentId" (source_of f) with Some (VStr d) => bool_decide (d = doc) | _ => false end.

(** [typeof r.clause === 'string' && r.clause.trim().length > 0] *)
Definition clause_of (f : Fact) : option string :=
  match OMap.get "clause" (source_of f) with
  | Some (VStr c) => if bool_decide (trim c = "") then None else Some c
  | _ => None
  end.

Definition strings (v : option jsval) : list string :=
  match v with Some (VArr l) => map (js_to_string (λ _, "")) l | _ => [] end.

Definition turns_of (f : Fact) : list string := strings (OMap.get "episodeIds" (source_of f)).

Definition OPEN (f : Fact) : bool :=
  bool_decide (f_status f ∈ [Active; Corroborating; Competing]) && bool_decide (f_validUntil f = None).

(** [s.replace(/\s+/g, ' ').trim()] *)
Definition normalise (s : string) : string := trim (collapse_spaces false s).

(** ** The queries *)

Definition FACT_LIMIT : nat := 1000.
Definition DOC_LIMIT : nat := 200.

Definition is_revision (p : RevisionClosure) (kv : string * RevDoc) : bool :=
  bool_decide (rd_sourceItemId kv.2 = Some (rv_itemId p)) && bool_decide (rd_kind kv.2 = rv_kind p).

Definition is_earlier (p : RevisionClosure) (kv : string * RevDoc) : bool :=
  bool_decide (rd_record_field kv.2 = rv_field p) &&
  negb (bool_decide (documentRecordId kv.1 = documentRecordId (rv_documentId p))) &&
  negb (startsAfter (rd_occurredAt kv.2) (rv_at p)).

Definition earlierRevisions (p : RevisionClosure) (s : Archive) : list string :=
  map (λ kv, documentRecordId kv.1)
    (List.filter (is_earlier p) (take DOC_LIMIT (List.filter (is_revision p) (map_to_list (ac_docs s))))).

(** What the revision wrote and what those rows corroborate. *)
Definition keptFacts (ids : list nat) (db : FactDb) : list nat :=
  app ids (omap (λ id, fd_rows db !! id ≫= f_corroborates) ids).

Definition newline : string := String (Ascii.ascii_of_nat 10) "".

Definition revisionText (doc : string) (s : Archive) : string :=
  normalise (join_with newline (default [] (ac_chunks s !! documentRecordId doc))).

Definition open_rows (doc : string) (db : FactDb) : list (nat * Fact) :=
  take FACT_LIMIT (select (λ f, read_from doc f && OPEN f) db).

Definition candidate (p : RevisionClosure) (kept : list nat) (kv : nat * Fact) : bool :=
  negb (bool_decide (kv.1 ∈ kept)) &&
  match f_corroborates kv.2 with Some c => negb (bool_decide (c ∈ kept)) | None => true end &&
  negb (startsAfter (Some (f_validFrom kv.2)) (rv_at p)).

(** [SELECT id, text FROM $ids]: those that exist, and whether the new text holds them. *)
Definition present_turns (text : string) (ids : list string) (s : Archive) : list (string * bool) :=
  omap (λ id, (λ t, (id, match t with Some t => str_contains (normalise t) text | None => false end))
                <$> (ac_episodes s !! id)) ids.

Definition absent (present : list (string * bool)) (id : string) : bool :=
  bool_decide (OMap.get id present = Some false).

Definition lost_clause (text : string) (f : Fact) : bool :=
  match clause_of f with Some c => negb (str_contains (normalise c) text) | None => false end.

Definition lost_turns (present : list (string * bool)) (f : Fact) : bool :=
  match clause_of f with
  | Some _ => false
  | None => (0 <? length (turns_of f)) && forallb (absent present) (turns_of f)
  end.

(** ** Retiring *)

Definition unjustified (rows : list (nat * Fact)) (text : string) : prog Archive (list (nat * Fact)) :=
  let gone := List.filter (λ kv, lost_clause text kv.2) rows in
  let by_turn := List.filter (λ kv, bool_decide (clause_of kv.2 = None)) rows in
  let episodes := add_all [] (flat_map (λ kv, turns_of kv.2) by_turn) in
  match episodes with
  | [] => Done gone
  | _ => do* present := query (present_turns text episodes) in
         Done (app gone (List.filter (λ kv, lost_turns present kv.2) by_turn))
  end.

(** [UPDATE $ids SET validUntil = $at] *)
Definition close_facts (ids : list nat) (at_ : Z) (s : Archive) : Archive :=
  put_facts (fold_left (λ db id, update_fact id (with_validUntil (Some at_)) db) ids (ac_facts s)) s.

Fixpoint retire_docs (p : RevisionClosure) (kept : list nat) (text : option string) (docs : list string) :
    prog Archive nat :=
  match docs with
  | [] => Done 0
  | doc :: docs' =>
      do* rows := query (λ s, open_rows doc (ac_facts s)) in
      let candidates := List.filter (candidate p kept) rows in
      do* retire := (match text with None => Done candidates | Some t => unjustified candidates t end) in
      do* _ := (if 0 <? length retire then exec (close_facts (map fst retire) (rv_at p)) else Done tt) in
      do* n := retire_docs p kept text docs' in
      Done (length retire + n)
  end.

Definition on_archive_edges {A} (q : prog EdgeStore A) : prog Archive A := zoom ac_edges put_edges q.

(** [None] when the fuel of the edge pages is out. *)
Definition retireDroppedClaims (fuel : nat) (p : RevisionClosure) : prog Archive (option RetiredClaims) :=
  let closedWorld := bool_decide (rv_kind p = SOURCE_RECORD_KIND) in
  do* earlier := query (earlierRevisions p) in
  if length earlier =? 0 then Done (Some {| rt_facts := 0; rt_edges := 0 |})
  else
    do* kept := (if length (rv_factIds p) =? 0 then Done [] else query (λ s, keptFacts (rv_factIds p) (ac_facts s))) in
    do* text := (if closedWorld then Done "" else query (revisionText (rv_documentId p))) in
    if negb closedWorld && (String.length text =? 0) then Done (Some {| rt_facts := 0; rt_edges := 0 |})
    else
      do* facts := retire_docs p kept (if closedWorld then None else Some text) earlier in
      do* edges := (if closedWorld
                    then on_archive_edges (retireEdgeSupport fuel earlier (rv_at p) (rv_edgeIds p))
                    else Done (Some 0)) in
      Done ((λ n, {| rt_facts := facts; rt_edges := n |}) <$> edges).

(** ** What is dropped *)

(** The turns a fact was read from are all there and gone from the text. *)
Definition turns_gone (text : string) (s : Archive) (f : Fact) : bool :=
  match clause_of f with
  | Some _ => false
  | None =>
      (0 <? length (turns_of f)) &&
      forallb (λ id, match ac_episodes s !! id with
                     | Some (Some t) => negb (str_contains (normalise t) text)
                     | Some None => true
                     | None => false
                     end) (turns_of f)
  end.

Definition passage_gone (text : string) (s : Archive) (f : Fact) : bool := lost_clause text f || turns_gone text s f.


(** The open claims of [docs] the revision neither wrote nor corroborates, begun by then,
    and in prose those whose passage is gone. *)
Definition dropped_from (docs : list string) (p : RevisionClosure) (kept : list nat) (text : option string)
    (s : Archive) (id : nat) (f : Fact) : bool :=
  existsb (λ d, read_from d f) docs && OPEN f &&
  (negb (bool_decide (id ∈ kept)) &&
   match f_corroborates f with Some c => negb (bool_decide (c ∈ kept)) | None => true end &&
   negb (startsAfter (Some (f_validFrom f)) (rv_at p))) &&
  match text with None => true | Some t => passage_gone t s f end.













(** ** The queries on prose *)






(** ** The loop over the earlier revisions *)







Lemma closed_not_dropped docs p kept text s id f : dropped_from docs p kept text s id (with_validUntil (Some (rv_at p)) f) = false.
Proof. unfold dropped_from, OPEN. cbn. by rewrite !andb_false_r. Qed.


(** ** The edges *)




(** ** Examples *)

Definition sample_fact (doc object : string) (more : list (string * jsval)) (st : FactStatus) : Fact :=
  {| f_claim := {| cl_entityId := "knowledge_entity:a"; cl_predicate := "note"; cl_predicateAlias := None;
                   cl_object := object; cl_objectMeta := None; cl_confidence := 0.9; cl_validFrom := 5;
                   cl_source := {| so_vertical := Some "crm"; so_recorder := None; so_originKey := None;
                                   so_rest := ("documentId", VStr doc) :: more |};
                   cl_embedding := None; cl_userId := None; cl_derivedVersion := None; cl_recordedAt := 5;
                   cl_trust := {| ts_sourceKey := "crm"; ts_originKey := "crm"; ts_domain := "note"; ts_declaredTrust := 0.5;
                                  ts_learnedTrust := 0.5; ts_authority := 0.5; ts_calculatedAt := 5 |} |};
     f_status := st; f_validUntil := None; f_scope := []; f_retractedAt := None; f_closure := None;
     f_corroborates := None; f_corroboration := None; f_locale := (None, None); f_entropy := None; f_trace := None |}.

Definition revision_doc (at_ : Z) (kind : string) : RevDoc :=
  {| rd_kind := kind; rd_occurredAt := Some at_; rd_sourceItemId := Some "item"; rd_record_field := None |}.

Definition D1 : string := "source_document:1".
Definition D2 : string := "source_document:2".

Definition archive (kind : string) (facts : list (nat * Fact)) (text : string) : Archive :=
  {| ac_facts := {| fd_rows := list_to_map facts; fd_trust := []; fd_registry := []; fd_letters := []; fd_now := 100 |};
     ac_edges := ∅; ac_docs := list_to_map [(D1, revision_doc 10 kind); (D2, revision_doc 20 kind)];
     ac_chunks := {[ D2 := [text] ]}; ac_episodes := ∅ |}.

Definition second_revision (kind : string) (written : list nat) : RevisionClosure :=
  {| rv_itemId := "item"; rv_documentId := D2; rv_kind := kind; rv_field := None; rv_at := 20;
     rv_factIds := written; rv_edgeIds := [] |}.




(** A revision that drops one side of a dispute ends it by its period alone: the status
    stays, and so does that of its rival, which nothing contradicts any more. *)
Lemma dropped_rival_leaves_a_dispute :
  let s := archive "source_record" [(0, sample_fact D1 "blue" [] Competing); (1, sample_fact D2 "red" [] Competing)] "" in
  let o := run (retireDroppedClaims 1 (second_revision "source_record" [1])) s in
  (f_validUntil <$> fd_rows (ac_facts o.1) !! 0) = Some (Some 20%Z) ∧
  (f_status <$> fd_rows (ac_facts o.1) !! 1) = Some Competing.
Proof. split; vm_compute; reflexivity. Qed.
