(* ===== verification/Names.v ===== *)
(** * Names, references and participants

    The pure rules by which a mention finds its entity: [common/name-key.ts],
    [ingest/code-alias.ts], [common/coreference.ts], [ingest/participants.ts],
    [ingest/user-entity.ts], the reference keys of [ingest/ingest-utils.ts], the article
    and participant helpers of [ingest/entity-upsert.service.ts] and
    [ingest/same-name-conflict.ts]. What transliterates a name ([any-ascii]), what
    recognises a letter or digit of any script and Unicode's compatibility form are the
    class [Script]. *)

From S2P Require Import Prelude Js Regex.
From Stdlib Require Import Ascii.
Local Open Scope string_scope.
Local Open Scope nat_scope.

(** ** Characters *)

Definition is_alpha (c : ascii) : bool := is_lower c || is_upper c.
Definition is_alnum (c : ascii) : bool := is_alpha c || is_digit c.
(** [\w] *)
Definition is_word (c : ascii) : bool := is_alnum c || is_one_of "_" c.

Definition upper_char (c : ascii) : ascii :=
  if is_lower c then ascii_of_nat (nat_of_ascii c - 32) else c.

Fixpoint str_filter (p : ascii → bool) (s : string) : string :=
  match s with
  | EmptyString => EmptyString
  | String c s' => if p c then String c (str_filter p s') else str_filter p s'
  end.

(** [s.replace(/[^...]+/g, ' ')]: every run of characters outside [p] becomes one space. *)
Fixpoint space_out (p : ascii → bool) (in_run : bool) (s : string) : string :=
  match s with
  | EmptyString => EmptyString
  | String c s' =>
      if p c then String c (space_out p false s')
      else if in_run then space_out p true s' else String " "%char (space_out p true s')
  end.

(** [s.split(sep)] on a class of characters, runs as single separators; the empty parts
    kept. *)
Fixpoint split_at (p : ascii → bool) (s : string) : list string :=
  match s with
  | EmptyString => [EmptyString]
  | String c s' =>
      if p c then EmptyString :: split_at p s'
      else match split_at p s' with w :: ws => String c w :: ws | [] => [String c EmptyString] end
  end.

Definition words (p : ascii → bool) (s : string) : list string :=
  List.filter (λ w, negb (bool_decide (w = ""))) (split_at p s).

Definition is_blank (c : ascii) : bool := bool_decide (c = " "%char).

(** ** Script-independent keys *)

Class Script := {
  anyAscii : string → string;
  has_letter_or_digit : string → bool;
  nfkc : string → string
}.

Definition MIN_KEY_LENGTH : nat := 3.

Definition key_char (c : ascii) : bool := is_lower c || is_digit c.

(** What the transliterated text folds to. *)
Definition fold_key (s : string) : string :=
  trim (space_out key_char false (to_lower (str_filter (λ c, negb (is_one_of "'" c)) s))).

Section keys.
Context `{Script}.

Definition nameKey (surface : string) : string :=
  if bool_decide (surface = "") || negb (has_letter_or_digit surface) then ""
  else
    let key := fold_key (anyAscii surface) in
    if MIN_KEY_LENGTH <=? String.length key then key else "".

Definition nameKeysFor (names : list (option string)) : list string :=
  fold_left (λ keys n, match n with
                       | Some s => if bool_decide (nameKey s = "") then keys else add_new keys (nameKey s)
                       | None => keys
                       end) names [].
End keys.

Definition nameKeyWords (key : string) : list string :=
  add_all [] (List.filter (λ w, MIN_KEY_LENGTH <=? String.length w) (split_at is_blank key)).

Definition first_char (s : string) : string := match s with String c _ => String c "" | EmptyString => "" end.

Definition nameKeyInitials (key : string) : string :=
  let ws := words is_blank key in
  if length ws <? 2 then ""
  else
    let initials := join_with "" (map first_char ws) in
    if MIN_KEY_LENGTH <=? String.length initials then initials else "".

(** ** Articles *)

Definition ARTICLES : list string := ["the"; "a"; "an"].

(** [/^(?:the|a|an)\s+/] stripped off. *)
Definition strip_article (s : string) : string :=
  match find_first (λ a, starts_with a s &&
                         match str_drop (String.length a) s with String c _ => is_space c | _ => false end) ARTICLES with
  | Some a => trim_start (str_drop (String.length a) s)
  | None => s
  end.

Definition articleNameVariants (nameLc : string) : list string :=
  let stripped := trim (strip_article nameLc) in
  if bool_decide (stripped = "") then []
  else if bool_decide (stripped = trim nameLc) then map (λ art, art +:+ " " +:+ stripped) ARTICLES
  else
    stripped :: List.filter (λ v, negb (bool_decide (v = trim nameLc))) (map (λ art, art +:+ " " +:+ stripped) ARTICLES).

(** ** Code identifiers *)

Definition CODE_EXTENSIONS : list string :=
  ["ts"; "tsx"; "js"; "jsx"; "mjs"; "cjs"; "py"; "rb"; "go"; "rs"; "java"; "kt"; "kts"; "cs"; "swift"; "scala";
   "php"; "vue"; "svelte"; "dart"; "c"; "cc"; "cpp"; "h"; "hpp"].

Definition GENERIC_BASENAMES : list string :=
  ["index"; "main"; "mod"; "init"; "app"; "lib"; "setup"; "types"; "utils"; "util"; "helpers"; "constants"; "config";
   "common"; "core"; "shared"; "base"; "test"; "tests"; "spec"].

(** [CODE_PATH_RE]: optional directories, a base name, an extension. *)
Definition CODE_PATH_RE : re :=
  RSeq (RStar (RSeq (r_plus (RCls (λ c, is_word c || is_one_of ".@~-" c))) (r_lit "/")))
    (RSeq (RSeq (RCls is_alpha) (RStar (RCls (λ c, is_word c || is_one_of ".-" c))))
      (RSeq (r_lit ".") (RSeq (RCls is_alpha) (RStar (RCls is_alnum))))).

(** The text after the last [c], and the text around it: neither group of a matching
    path holds a slash, and the extension no dot, so these are its groups. *)
Fixpoint after_last (c : ascii) (s : string) : string :=
  match s with
  | EmptyString => EmptyString
  | String _ s' => if has_char c s then after_last c s' else s
  end.

Fixpoint split_last (c : ascii) (s : string) : option (string * string) :=
  match s with
  | EmptyString => None
  | String d s' =>
      match split_last c s' with
      | Some (a, b) => Some (String d a, b)
      | None => if bool_decide (d = c) then Some ("", s') else None
      end
  end.

(** [/^[A-Z][a-z0-9]*[A-Z][A-Za-z0-9]*$/] *)
Definition PASCAL_SYMBOL_RE : re :=
  RSeq (RCls is_upper) (RSeq (RStar (RCls (λ c, is_lower c || is_digit c)))
    (RSeq (RCls is_upper) (RStar (RCls is_alnum)))).

Fixpoint str_exists (p : ascii → bool) (s : string) : bool :=
  match s with EmptyString => false | String c s' => p c || str_exists p s' end.

Definition isCodeSymbolShaped (name : string) : bool :=
  let trimmed := trim name in
  (String.length trimmed <=? 256) && re_test PASCAL_SYMBOL_RE trimmed && str_exists is_lower trimmed.

Definition capitalize (p : string) : string :=
  match p with String c p' => String (upper_char c) p' | EmptyString => EmptyString end.

(** [/^[A-Za-z][A-Za-z0-9]*$/] *)
Definition part_ok (p : string) : bool := re_test (RSeq (RCls is_alpha) (RStar (RCls is_alnum))) p.

Definition symbolAliasForPath (name : string) : option string :=
  let trimmed := trim name in
  if (String.length trimmed =? 0) || (256 <? String.length trimmed) || str_exists is_space trimmed then None
  else if negb (re_test CODE_PATH_RE trimmed) then None
  else
    match split_last "."%char (after_last "/"%char trimmed) with
    | None => None
    | Some (base, ext) =>
        if negb (bool_decide (to_lower ext ∈ CODE_EXTENSIONS)) then None
        else if negb (str_exists is_lower base) then None
        else if bool_decide (to_lower base ∈ GENERIC_BASENAMES) then None
        else
          let parts := words (is_one_of "-_.") base in
          if existsb (λ p, negb (part_ok p)) parts then None
          else
            let symbol := join_with "" (map capitalize parts) in
            if isCodeSymbolShaped symbol then Some symbol else None
    end.

Fixpoint take_while (p : ascii → bool) (s : string) : string :=
  match s with String c s' => if p c then String c (take_while p s') else EmptyString | EmptyString => EmptyString end.

(** [match(/[A-Z][a-z0-9]*/g)] *)
Fixpoint humps (s : string) : list string :=
  match s with
  | EmptyString => []
  | String c s' =>
      if is_upper c then String c (take_while (λ d, is_lower d || is_digit d) s') :: humps s' else humps s'
  end.

Definition pathNeedlesForSymbol (symbol : string) : list string :=
  if negb (isCodeSymbolShaped symbol) then []
  else
    let hs := humps (trim symbol) in
    if length hs <? 2 then []
    else
      let lower := map to_lower hs in
      add_all [] [join_with "-" lower; join_with "_" lower; join_with "" lower].

(** ** Reference keys *)

(** [s.replace(/\./g, '__')] *)
Fixpoint dots_out (s : string) : string :=
  match s with
  | EmptyString => EmptyString
  | String c s' => if bool_decide (c = "."%char) then "__" +:+ dots_out s' else String c (dots_out s')
  end.

Definition externalRefKey (vertical id : string) : string := dots_out vertical +:+ "__" +:+ dots_out id.

Definition scopedRefKey (vertical id : string) (userId : option string) : string :=
  match truthy userId with
  | Some u => externalRefKey vertical id +:+ "::u::" +:+ u
  | None => externalRefKey vertical id
  end.

Definition USER_ENTITY_VERTICAL : string := "user".

Definition isUserEntityRef (ref : option (string * string)) (userId : option string) : bool :=
  match ref, userId with
  | Some (v, i), Some u => bool_decide (v = USER_ENTITY_VERTICAL) && bool_decide (i = u)
  | _, _ => false
  end.

Definition userEntityKey (userId : string) : string := scopedRefKey USER_ENTITY_VERTICAL userId (Some userId).

(** ** Participants *)

Definition FIRST_PERSON_SINGULAR : list string := ["i"; "me"; "my"; "mine"; "myself"].
Definition SECOND_PERSON : list string := ["you"; "your"; "yours"; "yourself"; "yourselves"].

(** The trailing run of characters in [p] cut off. *)
Definition strip_trailing (p : ascii → bool) (s : string) : string :=
  str_rev ((fix go (t : string) : string := match t with
            | String c t' => if p c then go t' else t
            | EmptyString => EmptyString
            end) (str_rev s)).

Definition is_trailing_mark (c : ascii) : bool := is_one_of ".,!?;:'" c || bool_decide (nat_of_ascii c = 34).

Definition normalizeToken (name : string) : string := strip_trailing is_trailing_mark (to_lower (trim name)).

Definition isFirstPersonSelfReference (name : string) : bool :=
  bool_decide (normalizeToken name ∈ FIRST_PERSON_SINGULAR).
Definition isSecondPersonReference (name : string) : bool := bool_decide (normalizeToken name ∈ SECOND_PERSON).
Definition isPronounReference (name : string) : bool :=
  isFirstPersonSelfReference name || isSecondPersonReference name.

Definition matchesParticipantName (name participantName : option string) : bool :=
  match truthy name, truthy participantName with
  | Some n, Some p => bool_decide (normalizeToken n = normalizeToken p)
  | _, _ => false
  end.

Record KnownEntity := { ke_vertical : string; ke_id : string; ke_role : option string; ke_name : option string }.

Record Participants := { pt_speaker : option KnownEntity; pt_addressee : option KnownEntity }.

Definition of_role (role : string) (k : KnownEntity) : bool := bool_decide (ke_role k = Some role).

Definition participantsOf (knownEntities : list KnownEntity) : Participants :=
  {| pt_speaker := find_first (of_role "speaker") knownEntities;
     pt_addressee := find_first (of_role "addressee") knownEntities |}.

Definition coreferentParticipant (name : string) (p : Participants) : option KnownEntity :=
  let speaker := match pt_speaker p with
                 | Some k => if isFirstPersonSelfReference name || matchesParticipantName (Some name) (ke_name k)
                             then Some k else None
                 | None => None
                 end in
  match speaker, pt_addressee p with
  | Some k, _ => Some k
  | None, Some k =>
      if isSecondPersonReference name || matchesParticipantName (Some name) (ke_name k) then Some k else None
  | None, None => None
  end.

Record ParticipantHint := {
  ph_vertical : string; ph_id : string; ph_role : option string; ph_name : option string; ph_userId : option string
}.

Definition participantHint (k : option KnownEntity) (userId : option string) : option ParticipantHint :=
  match k with
  | None => None
  | Some k =>
      Some {| ph_vertical := ke_vertical k; ph_id := ke_id k; ph_role := ke_role k; ph_name := ke_name k;
              ph_userId := if isUserEntityRef (Some (ke_vertical k, ke_id k)) userId then userId else None |}
  end.

Definition withUserAsSpeaker (knownEntities : list KnownEntity) (userId name : option string) : list KnownEntity :=
  match truthy userId with
  | None => knownEntities
  | Some u =>
      let display := default u name in
      match find_first (of_role "speaker") knownEntities with
      | Some speaker =>
          if negb (isUserEntityRef (Some (ke_vertical speaker, ke_id speaker)) userId) ||
             match truthy (ke_name speaker) with Some _ => true | None => false end
          then knownEntities
          else
            (fix fill (l : list KnownEntity) : list KnownEntity :=
               match l with
               | [] => []
               | k :: l' =>
                   if of_role "speaker" k
                   then {| ke_vertical := ke_vertical k; ke_id := ke_id k; ke_role := ke_role k;
                           ke_name := Some display |} :: l'
                   else k :: fill l'
               end) knownEntities
      | None =>
          {| ke_vertical := USER_ENTITY_VERTICAL; ke_id := u; ke_role := Some "speaker"; ke_name := Some display |} ::
          knownEntities
      end
  end.

(** The names a participant's entity is born with. *)
Definition participantSurfaces (name : string) (canonical hintName : option string) : string * list string :=
  let pronoun := isPronounReference name in
  let forms := omap (λ n, truthy (trim <$> n))
    [hintName; if pronoun then None else canonical; if pronoun then None else Some name] in
  let c := match forms with f :: _ => f | [] => default name canonical end in
  (c, add_all [] (match forms with [] => [c] | _ => forms end)).

(** ** Facts against a name *)

Fixpoint index_of_sep (s : string) : option nat :=
  match s with
  | String c s' =>
      if bool_decide (c = ":"%char) && starts_with " " s' then Some 0
      else match index_of_sep s' with Some i => Some (S i) | None => None end
  | EmptyString => None
  end.

Definition parseFactLine (line : string) : option (string * string) :=
  match index_of_sep line with
  | None => None
  | Some at_ =>
      if at_ =? 0 then None else Some (trim (str_take at_ line), trim (str_drop (at_ + 2) line))
  end.

Section values.
Context `{Script}.

Definition normalizeValue (v : string) : string :=
  strip_trailing (is_one_of ".,;!") (trim (collapse_spaces false (to_lower (nfkc v)))).

Definition held_values (existing : list (string * string)) (singleValued : list string) (predicate : string) :
    list string :=
  omap (λ f : string * string,
    if bool_decide (f.1 = predicate) && bool_decide (f.1 ∈ singleValued) && negb (bool_decide (f.1 = "name"))
    then Some (normalizeValue f.2) else None) existing.

Definition conflictsOnSingleValuedSlot (incoming : list string) (existing : list (string * string))
    (singleValued : list string) : bool :=
  existsb (λ line,
    match parseFactLine line with
    | None => false
    | Some (predicate, object) =>
        let values := held_values existing singleValued predicate in
        (0 <? length values) && negb (bool_decide (normalizeValue object ∈ values))
    end) incoming.
End values.

(** ** Keys keep users apart *)

Lemma dots_out_char c s : c ≠ "_"%char → has_char c s = false → has_char c (dots_out s) = false.
Proof.
  intros Hc. induction s as [|d s IH]; [done|]. cbn. case_bool_decide as E.
  - subst. unfold has_char at 1. cbn. case_bool_decide as Ed; [done|]. intros H.
    change (has_char c ("__" +:+ dots_out s) = false). rewrite has_char_append, IH.
    + unfold has_char. cbn. by rewrite !bool_decide_eq_false_2.
    + unfold has_char. by destruct (index_of c s).
  - unfold has_char. cbn. case_bool_decide as Ed; [done|]. unfold has_char in IH. intros H.
    destruct (index_of c s); [done|]. specialize (IH eq_refl). by destruct (index_of c (dots_out s)).
Qed.

Lemma externalRefKey_char c v i :
  c ≠ "_"%char → has_char c v = false → has_char c i = false → has_char c (externalRefKey v i) = false.
Proof.
  intros Hc Hv Hi. unfold externalRefKey. rewrite !has_char_append, !dots_out_char by done.
  unfold has_char. cbn. by rewrite !bool_decide_eq_false_2.
Qed.

(** References that hold no colon get keys that tell users apart: two keys agree only
    for one user, or for none on both sides, and for references that agree but for their
    dots. *)
Theorem reference_keys_separate_users v i u v' i' u' :
  has_char colon v = false → has_char colon i = false → has_char colon v' = false → has_char colon i' = false →
  scopedRefKey v i u = scopedRefKey v' i' u' →
  truthy u = truthy u' ∧ externalRefKey v i = externalRefKey v' i'.
Proof.
  intros Hv Hi Hv' Hi'. pose proof (externalRefKey_char colon v i ltac:(done) Hv Hi) as H.
  pose proof (externalRefKey_char colon v' i' ltac:(done) Hv' Hi') as H'. unfold scopedRefKey.
  assert (Hno : ∀ a b x, has_char colon a = false → b +:+ "::u::" +:+ x ≠ a).
  { intros a b x Ha <-. rewrite has_char_append in Ha. apply orb_false_iff in Ha as [_ Ha]. by cbn in Ha. }
  destruct (truthy u) as [x|], (truthy u') as [x'|]; intros E; [|by destruct (Hno _ _ _ H' E)|by destruct (Hno _ _ _ H (eq_sym E))|done].
  change ("::u::" +:+ x) with (String colon (":u::" +:+ x)) in E.
  change ("::u::" +:+ x') with (String colon (":u::" +:+ x')) in E.
  apply str_sep_inj in E as [-> E]; [|done..]. apply str_append_inj_l in E as ->. done.
Qed.

Lemma reference_keys_separate_users_witness :
  scopedRefKey "user" "bob.s" (Some "bob.s") = scopedRefKey "user" "bob__s" (Some "bob.s") ∧
  truthy (Some "bob.s") = truthy (Some "bob.s").
Proof.
  split; [reflexivity|].
  apply (reference_keys_separate_users "user" "bob.s" (Some "bob.s") "user" "bob__s" (Some "bob.s")); reflexivity.
Defined.

(** A reference that holds the marker itself names another user's own entity, with no user
    given. *)
Lemma scope_marker_is_forged : externalRefKey "user" "bob::u::bob" = userEntityKey "bob".
Proof. reflexivity. Qed.

(** Two references of different shape share a key. *)
Lemma dotted_references_collide :
  externalRefKey "crm" "eu.42" = externalRefKey "crm" "eu__42" ∧
  externalRefKey "crm__eu" "42" = externalRefKey "crm" "eu__42".
Proof. split; reflexivity. Qed.
