(* ===== verification/Relatives.v ===== *)
(** * Relatives named by their role

    [ingest/relative-role.ts]: under a user a mention such as a bare Father is that user's
    own relative, filed under [relative:<role>] in the user's scope. The words of other
    scripts are their UTF-8 bytes, compared as they are; case folding is that of ASCII. *)

From S2P Require Import Prelude Js Names.
From Stdlib Require Import Ascii.
Local Open Scope string_scope.
Local Open Scope nat_scope.

Definition RELATIVE_VERTICAL : string := "relative".

(** Surface, canonical role. *)
Definition KIN : list (string * string) :=
  [("father", "father"); ("dad", "father"); ("daddy", "father"); ("papa", "father"); ("mother", "mother");
   ("mom", "mother"); ("mum", "mother"); ("mommy", "mother"); ("mummy", "mother"); ("mama", "mother");
   ("parents", "parents"); ("brother", "brother"); ("brothers", "brothers"); ("sister", "sister");
   ("sisters", "sisters"); ("sibling", "sibling"); ("siblings", "siblings"); ("son", "son"); ("sons", "sons");
   ("daughter", "daughter"); ("daughters", "daughters"); ("child", "child"); ("children", "children");
   ("kid", "child"); ("kids", "children"); ("wife", "wife"); ("husband", "husband"); ("spouse", "spouse");
   ("boyfriend", "boyfriend"); ("girlfriend", "girlfriend"); ("fiance", "fiance"); ("fiancee", "fiancee");
   ("grandmother", "grandmother"); ("grandma", "grandmother"); ("granny", "grandmother");
   ("grandfather", "grandfather"); ("grandpa", "grandfather"); ("grandparents", "grandparents");
   ("grandson", "grandson"); ("granddaughter", "granddaughter"); ("grandchildren", "grandchildren");
   ("aunt", "aunt"); ("uncle", "uncle"); ("cousin", "cousin"); ("nephew", "nephew"); ("niece", "niece");
   ("stepmother", "stepmother"); ("stepfather", "stepfather"); ("stepson", "stepson");
   ("stepdaughter", "stepdaughter"); ("mother-in-law", "mother-in-law"); ("father-in-law", "father-in-law");
   ("in-laws", "in-laws"); ("family", "family"); ("отец", "father"); ("папа", "father"); ("мать", "mother");
   ("мама", "mother"); ("родители", "parents"); ("брат", "brother"); ("братья", "brothers");
   ("сестра", "sister"); ("сёстры", "sisters"); ("сестры", "sisters"); ("сын", "son"); ("дочь", "daughter");
   ("дочка", "daughter"); ("ребёнок", "child"); ("ребенок", "child"); ("дети", "children"); ("жена", "wife");
   ("муж", "husband"); ("супруг", "spouse"); ("супруга", "spouse"); ("бабушка", "grandmother");
   ("дедушка", "grandfather"); ("внук", "grandson"); ("внучка", "granddaughter"); ("тётя", "aunt");
   ("тетя", "aunt"); ("дядя", "uncle"); ("племянник", "nephew"); ("племянница", "niece"); ("семья", "family");
   ("pai", "father"); ("padre", "father"); ("mãe", "mother"); ("madre", "mother"); ("pais", "parents");
   ("padres", "parents"); ("irmão", "brother"); ("hermano", "brother"); ("irmã", "sister");
   ("hermana", "sister"); ("filho", "son"); ("hijo", "son"); ("filha", "daughter"); ("hija", "daughter");
   ("filhos", "children"); ("hijos", "children"); ("esposa", "wife"); ("esposo", "husband");
   ("marido", "husband"); ("avó", "grandmother"); ("abuela", "grandmother"); ("avô", "grandfather");
   ("abuelo", "grandfather"); ("tia", "aunt"); ("tía", "aunt"); ("tio", "uncle"); ("tío", "uncle");
   ("família", "family"); ("familia", "family"); ("vater", "father"); ("mutter", "mother");
   ("eltern", "parents"); ("bruder", "brother"); ("schwester", "sister"); ("sohn", "son");
   ("tochter", "daughter"); ("kinder", "children"); ("ehefrau", "wife"); ("ehemann", "husband");
   ("oma", "grandmother"); ("opa", "grandfather"); ("tante", "aunt"); ("onkel", "uncle");
   ("familie", "family"); ("père", "father"); ("mère", "mother"); ("frère", "brother"); ("sœur", "sister");
   ("soeur", "sister"); ("fils", "son"); ("enfants", "children"); ("mari", "husband"); ("famille", "family")].

Definition OWN : list string :=
  ["my"; "our"; "both"; "мой"; "моя"; "моё"; "мое"; "мои"; "наш"; "наша"; "наше"; "наши"; "оба"; "обе"; "meu";
   "minha"; "meus"; "minhas"; "nosso"; "nossa"; "nossos"; "nossas"; "mi"; "mis"; "nuestro"; "nuestra";
   "nuestros"; "nuestras"; "mein"; "meine"; "unser"; "unsere"; "mon"; "ma"; "mes"; "notre"; "nos"].

Definition QUALIFIERS : list (string * string) :=
  [("older", "older"); ("elder", "older"); ("big", "older"); ("oldest", "oldest"); ("eldest", "oldest");
   ("younger", "younger"); ("little", "younger"); ("youngest", "youngest"); ("twin", "twin");
   ("старший", "older"); ("старшая", "older"); ("младший", "younger"); ("младшая", "younger")].

(** [table[w]] on an object literal: an inherited member is found as well. *)
Definition member (table : list (string * string)) (w : string) : option string :=
  match obj_get (map (λ kv, (kv.1, VStr kv.2)) table) w with
  | VUndef => None
  | v => Some (js_to_string (λ _, "") v)
  end.

(** The marks the source turns into spaces; those outside ASCII by their bytes. *)
Definition MARKS : list string :=
  ["."; ","; "!"; "?"; ";"; ":"; String (Ascii.ascii_of_nat 34) ""; "'"; "("; ")"; "«"; "»"; "“"; "”"].

(** The mark [s] starts with. *)
Definition mark_at (s : string) : option string := find_first (λ p, starts_with p s) MARKS.

(** [skip] bytes of the mark just replaced are still to be dropped. *)
Fixpoint unmarked (skip : nat) (s : string) : string :=
  match s with
  | EmptyString => EmptyString
  | String c s' =>
      match skip with
      | S n => unmarked n s'
      | O => match mark_at s with
             | Some p => String " "%char (unmarked (String.length p - 1) s')
             | None => String c (unmarked 0 s')
             end
      end
  end.

Definition is_own (w : string) : bool := bool_decide (w ∈ OWN).

Fixpoint drop_own (ws : list string) : list string :=
  match ws with w :: ws' => if is_own w then drop_own ws' else ws | [] => [] end.

(** The qualifiers before the role, [None] when another word is among them. *)
Fixpoint qualifiers_of (ws : list string) : option (list string) :=
  match ws with
  | [] => Some []
  | w :: ws' =>
      match member QUALIFIERS w with
      | None => None
      | Some q => (cons q) <$> qualifiers_of ws'
      end
  end.

Definition relativeRoleOf (name : string) : option string :=
  let ws := drop_own (words is_space (unmarked 0 (to_lower name))) in
  match last ws with
  | None => None
  | Some head =>
      match member KIN head with
      | None => None
      | Some role => (λ qs, join_with " " (app qs [role])) <$> qualifiers_of (removelast ws)
      end
  end.

(** [while (words.length > 1 && OWN.has(...)) words.shift()] *)
Fixpoint drop_possessive (ws : list string) : list string :=
  match ws with
  | w :: ((_ :: _) as ws') => if is_own (to_lower w) then drop_possessive ws' else ws
  | _ => ws
  end.

(** [s.split(/\s+/)] of a trimmed text. *)
Definition split_spaces (s : string) : list string := match words is_space s with [] => [""] | ws => ws end.

Definition withoutPossessive (name : string) : string := join_with " " (drop_possessive (split_spaces (trim name))).

Definition relativeHint (name : string) (canonical userId : option string) : option ParticipantHint :=
  match truthy userId with
  | None => None
  | Some u =>
      match truthy (match relativeRoleOf (default name canonical) with
                    | Some r => Some r
                    | None => relativeRoleOf name
                    end) with
      | None => None
      | Some role =>
          Some {| ph_vertical := RELATIVE_VERTICAL; ph_id := role; ph_role := None;
                  ph_name := Some (withoutPossessive (default name canonical)); ph_userId := userId |}
      end
  end.

(** ** What it says of a name *)

(** Saying my before a role names the same relative. *)
Lemma my_role name : relativeRoleOf ("my " +:+ name) = relativeRoleOf name.
Proof. reflexivity. Qed.

(** A hint is the asking user's own. *)
Lemma hint_is_the_users name canonical userId h :
  relativeHint name canonical userId = Some h →
  ∃ u, truthy userId = Some u ∧ ph_userId h = userId ∧ ph_vertical h = RELATIVE_VERTICAL.
Proof.
  unfold relativeHint. destruct (truthy userId) as [u|]; [|done]. case_match; [|done]. intros [= <-]. by exists u.
Qed.

(** A name that is a member every object inherits is a role, and its text the role's name. *)
Lemma inherited_member_is_a_role :
  ph_id <$> relativeHint "Constructor" None (Some "u1") = Some "function Object() { [native code] }".
Proof. vm_compute. reflexivity. Qed.
