(* ===== verification/DocumentMeta.v ===== *)
(** * The header of a document

    [documents/document-meta.ts] and [policy/source-meta.ts]: the caller's metadata, the
    keys the service keeps for itself beside it, what of it rides onto facts, and what is
    read back. A bag is its entries in insertion order. *)

From S2P Require Import Prelude Js Regex Names.
From Stdlib Require Import Ascii.
Local Open Scope string_scope.
Local Open Scope nat_scope.

Abbreviation Bag := (list (string * jsval)).

(** ** Operator metadata ([sanitizeSourceMeta]) *)

Definition SOURCE_META_MAX_KEYS : nat := 16.
Definition SOURCE_META_MAX_VALUE_CHARS : nat := 256.

(** [/^[a-z][a-z0-9_]{0,63}$/] *)
Definition META_KEY : re :=
  RSeq (RCls is_lower) (r_range 0 63 (RCls (λ c, is_lower c || is_digit c || is_one_of "_" c))).

Definition meta_value_ok (v : jsval) : bool :=
  match v with
  | VBool _ => true
  | VNum x => is_finite x
  | VStr s => String.length s <=? SOURCE_META_MAX_VALUE_CHARS
  | _ => false
  end.

(** Why an entry is dropped; the messages name the key. *)
Inductive Dropped : Type := DNotObject | DKey (key : string) | DValue (key : string) | DOver (key : string).

Record SanitizeMetaResult := { sm_meta : option Bag; sm_dropped : list Dropped }.

Definition sanitize_entry (acc : Bag * list Dropped) (kv : string * jsval) : Bag * list Dropped :=
  let '(meta, dropped) := acc in
  if negb (re_test META_KEY kv.1) then (meta, app dropped [DKey kv.1])
  else if negb (meta_value_ok kv.2) then (meta, app dropped [DValue kv.1])
  else if SOURCE_META_MAX_KEYS <=? length meta then (meta, app dropped [DOver kv.1])
  else (app meta [kv], dropped).

Definition sanitizeSourceMeta (raw : jsval) : SanitizeMetaResult :=
  match raw with
  | VUndef | VNull => {| sm_meta := None; sm_dropped := [] |}
  | VObj entries =>
      let '(meta, dropped) := fold_left sanitize_entry entries ([], []) in
      {| sm_meta := if 0 <? length meta then Some meta else None; sm_dropped := dropped |}
  | _ => {| sm_meta := None; sm_dropped := [DNotObject] |}
  end.

(** ** The service's own keys *)

Definition INTERNAL_DOCUMENT_META_KEYS : list string :=
  ["conversationId"; "messageId"; "eventId"; "episodeId"; "timezone"; "speakerName"; "speakerRef"; "addresseeName";
   "addresseeRef"; "knownNames"; "toolObservationRef"; "toolObservationNote"; "evidenceAssetId";
   "evidenceRepresentationId"; "sourceConnectionId"; "sourceItemId"; "sourceVersionSystem"; "sourceVersionRef";
   "sourceVersionValue"; "sourceVersionReadAt"; "focusQuestion"; "focusAnswer"].

Definition INTERNAL_DOCUMENT_META_MAX_CHARS : nat := SOURCE_META_MAX_VALUE_CHARS.

Definition reserved (key : string) : bool := bool_decide (key ∈ INTERNAL_DOCUMENT_META_KEYS).

Inductive MetaRefusal : Type := NotAString (key : string) | TooLong (key : string).

(** The bag so far; an entry the loop refuses ends it. *)
Fixpoint internal_entries (entries : Bag) (out : Bag) : result MetaRefusal Bag :=
  match entries with
  | [] => Ok out
  | (key, value) :: entries' =>
      match value with
      | VUndef | VNull => internal_entries entries' out
      | VStr s =>
          if INTERNAL_DOCUMENT_META_MAX_CHARS <? String.length s then Throw (TooLong key)
          else internal_entries entries' (if 0 <? String.length s then OMap.set key (VStr s) out else out)
      | _ => Throw (NotAString key)
      end
  end.

Definition internalDocumentMeta (entries : Bag) : result MetaRefusal (option Bag) :=
  match internal_entries entries [] with
  | Ok out => Ok (if 0 <? length out then Some out else None)
  | Throw e => Throw e
  end.

Definition reservedKeysIn (callerMeta : option Bag) : list string :=
  match callerMeta with None => [] | Some m => List.filter reserved (map fst m) end.

Definition caller_entry (out : Bag) (kv : string * jsval) : Bag :=
  if reserved kv.1 then out else OMap.set kv.1 kv.2 out.

Definition assign (out internal : Bag) : Bag := fold_left (λ m kv, OMap.set kv.1 kv.2 m) internal out.

Definition mergeDocumentMeta (callerMeta internal : option Bag) : option Bag :=
  match callerMeta, internal with
  | None, None => None
  | _, _ => Some (assign (fold_left caller_entry (default [] callerMeta) []) (default [] internal))
  end.

(** ** Reading back *)

(** [meta?.[key]] of a stored bag. *)
Definition meta_get (meta : option Bag) (key : string) : jsval :=
  match meta with Some m => obj_get m key | None => VUndef end.

Definition internalMetaString (meta : option Bag) (key : string) : option string := strOrUndefined (meta_get meta key).

(** The four keys as one stamp: system, ref, version, readAt. *)
Definition sourceVersionFromHeader (meta : option Bag) : option (string * string * string * string) :=
  match meta_get meta "sourceVersionSystem", meta_get meta "sourceVersionRef", meta_get meta "sourceVersionValue",
        meta_get meta "sourceVersionReadAt" with
  | VStr system, VStr ref, VStr version, VStr readAt => Some (system, ref, version, readAt)
  | _, _, _, _ => None
  end.

Definition participantFromMeta (meta : option Bag) (role refKey nameKey : string) : option KnownEntity :=
  match internalMetaString meta refKey with
  | None => None
  | Some ref =>
      match index_of colon ref with
      | None | Some 0 => None
      | Some cut =>
          if cut =? String.length ref - 1 then None
          else Some {| ke_vertical := str_take cut ref; ke_id := str_drop (cut + 1) ref; ke_role := Some role;
                       ke_name := internalMetaString meta nameKey |}
      end
  end.

Definition participantsFromMeta (meta : option Bag) : Participants :=
  {| pt_speaker := participantFromMeta meta "speaker" "speakerRef" "speakerName";
     pt_addressee := participantFromMeta meta "addressee" "addresseeRef" "addresseeName" |}.

(** ** Names in one value *)

Definition UNIT_SEPARATOR : ascii := ascii_of_nat 31.
Definition KNOWN_NAMES_SEPARATOR : string := String UNIT_SEPARATOR "".

(** The names that fit, [length] characters being taken. *)
Fixpoint fitting (length_ : nat) (first : bool) (names : list (option string)) : list string :=
  match names with
  | [] => []
  | raw :: names' =>
      match truthy (trim <$> raw) with
      | None => fitting length_ first names'
      | Some name =>
          let next := length_ + String.length name + (if first then 0 else 1) in
          if INTERNAL_DOCUMENT_META_MAX_CHARS <? next then [] else name :: fitting next false names'
      end
  end.

Definition joinKnownNames (names : list (option string)) : option string :=
  match fitting 0 true names with [] => None | out => Some (join_with KNOWN_NAMES_SEPARATOR out) end.

Definition splitKnownNames (value : option string) : list string :=
  match truthy value with
  | Some v => words (λ c, bool_decide (c = UNIT_SEPARATOR)) v
  | None => []
  end.

(** ** The caller's bag *)

(** An entry the caller wrote under a key of the service's own is not taken over. *)
Lemma get_caller_entries meta out key :
  OMap.wf meta →
  OMap.get key (fold_left caller_entry meta out) =
    if reserved key then OMap.get key out else OMap.get key meta ∪ OMap.get key out.
Proof.
  unfold OMap.wf. revert out. induction meta as [|[k v] meta IH]; intros out.
  { cbn. destruct (reserved key); [done|]. by destruct (OMap.get key out). }
  cbn [fold_left OMap.keys map fst]. rewrite NoDup_cons. intros [Hk Hm]. rewrite IH by done. unfold caller_entry.
  cbn [fst snd OMap.get]. destruct (reserved key) eqn:E.
  - destruct (reserved k) eqn:Ek; [done|]. rewrite OMap.get_set_ne; [done|]. intros ->. congruence.
  - case_bool_decide as Hkk.
    + subst k. rewrite E. apply OMap.get_None_key in Hk. rewrite Hk, OMap.get_set_eq. by destruct (OMap.get key out).
    + destruct (reserved k); [done|]. by rewrite OMap.get_set_ne by done.
Qed.

Lemma get_assign internal out key :
  OMap.wf internal → OMap.get key (assign out internal) = OMap.get key internal ∪ OMap.get key out.
Proof.
  unfold assign, OMap.wf. revert out. induction internal as [|[k v] internal IH]; intros out.
  { cbn. by destruct (OMap.get key out). }
  cbn [fold_left OMap.keys map fst]. rewrite NoDup_cons. intros [Hk Hm]. rewrite IH by done.
  cbn [fst snd OMap.get]. rewrite OMap.get_set. rewrite (bool_decide_ext (k = key) (key = k)) by done.
  case_bool_decide; [|done]. subst k. apply OMap.get_None_key in Hk. rewrite Hk. by destruct (OMap.get key out).
Qed.

(** What an entry of the internal bag comes to. *)
Definition internal_value (v : option jsval) : option jsval :=
  match v with Some (VStr s) => VStr <$> truthy (Some s) | _ => None end.

Lemma internal_entries_get entries out bag key :
  OMap.wf entries → OMap.wf out → internal_entries entries out = Ok bag →
  OMap.wf bag ∧ OMap.get key bag = internal_value (OMap.get key entries) ∪ OMap.get key out ∧
  (∀ s, OMap.get key entries = Some (VStr s) → String.length s ≤ INTERNAL_DOCUMENT_META_MAX_CHARS).
Proof.
  revert out. induction entries as [|[k v] entries IH]; intros out.
  { cbn. intros _ Hw [= <-]. split; [done|]. split; [by destruct (OMap.get key out)|done]. }
  unfold OMap.wf at 1. cbn [OMap.keys map fst]. rewrite NoDup_cons. intros [Hk Hm] Hw. cbn [internal_entries OMap.get].
  apply OMap.get_None_key in Hk. destruct v as [| |b|x|s|l|fs|h]; try done.
  1,2: intros E; destruct (IH out Hm Hw E) as (Hb & Hg & Hl); rewrite Hg; case_bool_decide; [subst; by rewrite Hk|done].
  destruct (INTERNAL_DOCUMENT_META_MAX_CHARS <? String.length s) eqn:El; [done|]. apply Nat.ltb_ge in El. intros E.
  destruct (0 <? String.length s) eqn:Es.
  - destruct (IH _ Hm (OMap.wf_set _ _ _ Hw) E) as (Hb & Hg & Hl). split; [done|]. rewrite Hg, OMap.get_set.
    rewrite (bool_decide_ext (k = key) (key = k)) by done. case_bool_decide; [|done]. subst k. rewrite Hk. cbn.
    apply Nat.ltb_lt in Es. rewrite bool_decide_eq_false_2 by (intros ->; cbn in Es; lia). cbn.
    split; [by destruct (OMap.get key out)|]. by intros ? [= <-].
  - destruct (IH _ Hm Hw E) as (Hb & Hg & Hl). split; [done|]. rewrite Hg. case_bool_decide; [|done]. subst k.
    rewrite Hk. cbn. apply Nat.ltb_ge in Es. destruct s; [|cbn in Es; lia]. cbn. split; [done|]. by intros ? [= <-].
Qed.

Lemma meta_get_cases meta key :
  meta_get meta key =
    match OMap.get key (default [] meta) with
    | Some v => v
    | None => match meta with Some _ => obj_get [] key | None => VUndef end
    end.
Proof. destruct meta as [m|]; [|done]. unfold meta_get, obj_get. cbn. by destruct (OMap.get key m). Qed.

Lemma reserved_not_inherited key : reserved key = true → obj_get [] key = VUndef.
Proof.
  intros E%bool_decide_eq_true. apply obj_get_absent; [done|]. revert key E.
  assert (H : Forall (λ k, k ∉ object_prototype) INTERNAL_DOCUMENT_META_KEYS); [|by rewrite Forall_forall in H].
  apply (bool_decide_eq_true_1 (Forall (λ k, k ∉ object_prototype) INTERNAL_DOCUMENT_META_KEYS)). vm_compute. reflexivity.
Qed.

(** C29. The header of a document keeps the two populations apart: whatever bag the caller
    sent, a key of the service's own reads back exactly what the service wrote there (an
    absent or empty value as none, and never more than 256 characters), and every other key
    reads back what the caller wrote. *)
Theorem caller_cannot_forge_provenance caller entries internal key :
  OMap.wf entries → (∀ k, k ∈ OMap.keys entries → reserved k = true) → OMap.wf (default [] caller) →
  internalDocumentMeta entries = Ok internal →
  let meta := mergeDocumentMeta caller internal in
  if reserved key
  then internalMetaString meta key = strOrUndefined (obj_get entries key) ∧
       ∀ s, internalMetaString meta key = Some s → String.length s ≤ INTERNAL_DOCUMENT_META_MAX_CHARS
  else OMap.get key (default [] meta) = OMap.get key (default [] caller).
Proof.
  intros Hw Hres Hc. unfold internalDocumentMeta. destruct (internal_entries entries []) as [bag|] eqn:E; [|done].
  intros [= <-]. destruct (internal_entries_get entries [] bag key Hw (NoDup_nil_2) E) as (Hb & Hg & Hl).
  set (internal := if 0 <? length bag then Some bag else None).
  assert (Hi : default [] internal = bag) by (unfold internal; by destruct bag). cbn zeta.
  assert (HM : OMap.get key (default [] (mergeDocumentMeta caller internal)) =
    OMap.get key (default [] internal) ∪ (if reserved key then None else OMap.get key (default [] caller))).
  { transitivity (OMap.get key (assign (fold_left caller_entry (default [] caller) []) (default [] internal))).
    { unfold mergeDocumentMeta. by destruct caller, internal. }
    rewrite get_assign by (by rewrite Hi). rewrite get_caller_entries by done. f_equal. destruct (reserved key); [done|].
    by destruct (OMap.get key (default [] caller)). }
  rewrite Hi in HM. destruct (reserved key) eqn:Er.
  - assert (HV : internalMetaString (mergeDocumentMeta caller internal) key = strOrUndefined (obj_get entries key)).
    { unfold internalMetaString. rewrite meta_get_cases, HM, Hg, (reserved_not_inherited key Er). unfold obj_get.
      destruct (OMap.get key entries) as [[]|] eqn:Ee; cbn; try by destruct (mergeDocumentMeta caller internal).
      - case_bool_decide; [by destruct (mergeDocumentMeta caller internal)|]. cbn. by rewrite bool_decide_eq_false_2.
      - pose proof (reserved_not_inherited key Er) as Hn. unfold obj_get in Hn. cbn in Hn. rewrite Hn.
        by destruct (mergeDocumentMeta caller internal). }
    split; [done|]. intros s. rewrite HV. unfold obj_get. destruct (OMap.get key entries) as [[]|] eqn:Ee; try done.
    { cbn. case_bool_decide; [done|]. intros [= <-]. by apply Hl. }
    by destruct (bool_decide (key ∈ object_prototype)).
  - rewrite HM, Hg. destruct (OMap.get key entries) as [v|] eqn:Ee.
    + apply OMap.get_Some_key, Hres in Ee. congruence.
    + cbn. by destruct (OMap.get key (default [] caller)).
Qed.

Example caller_cannot_forge_provenance_witness :
  internalMetaString (mergeDocumentMeta
    (Some [("data_class", VStr "pii"); ("toolObservationRef", VStr "tool_observation:forged"); ("messageId", VStr "m-9")])
    (Some [("messageId", VStr "m-1")])) "toolObservationRef" = None.
Proof.
  refine (proj1 (caller_cannot_forge_provenance
    (Some [("data_class", VStr "pii"); ("toolObservationRef", VStr "tool_observation:forged"); ("messageId", VStr "m-9")])
    [("messageId", VStr "m-1"); ("eventId", VUndef)] (Some [("messageId", VStr "m-1")]) "toolObservationRef" _ _ _ _)).
  - apply (bool_decide_eq_true_1 (NoDup _)). vm_compute. reflexivity.
  - intros k Hk. apply bool_decide_eq_true_2. revert k Hk. apply Forall_forall. apply (bool_decide_eq_true_1 (Forall _ _)). vm_compute. reflexivity.
  - apply (bool_decide_eq_true_1 (NoDup _)). vm_compute. reflexivity.
  - reflexivity.
Defined.

(** ** The names of the anchors *)

Definition named (names : list (option string)) : list string := omap (λ raw, truthy (trim <$> raw)) names.

Fixpoint joined_length (first : bool) (l : list string) : nat :=
  match l with [] => 0 | x :: l' => String.length x + (if first then 0 else 1) + joined_length false l' end.

Lemma length_join_with c l : String.length (join_with (String c "") l) = joined_length true l.
Proof.
  induction l as [|x [|y l] IH]; [done|cbn; lia|]. change (join_with (String c "") (x :: y :: l)) with
    (x +:+ String c (join_with (String c "") (y :: l))). rewrite str_length_append. cbn [String.length]. rewrite IH. cbn. lia.
Qed.

Lemma fitting_spec names len first :
  let kept := fitting len first names in
  kept `prefix_of` named names ∧
  (kept = named names ∨
   ∃ n, app kept [n] `prefix_of` named names ∧ INTERNAL_DOCUMENT_META_MAX_CHARS < len + joined_length first (app kept [n])) ∧
  (len ≤ INTERNAL_DOCUMENT_META_MAX_CHARS → len + joined_length first kept ≤ INTERNAL_DOCUMENT_META_MAX_CHARS).
Proof.
  revert len first. induction names as [|raw names IH]; intros len first.
  { cbn. split; [done|]. split; [by left|lia]. }
  cbn [fitting]. unfold named. cbn [omap list_omap]. fold named. destruct (truthy (trim <$> raw)) as [name|]; [|apply IH].
  set (next := len + String.length name + (if first then 0 else 1)).
  destruct (INTERNAL_DOCUMENT_META_MAX_CHARS <? next) eqn:E.
  - apply Nat.ltb_lt in E. cbn. split; [apply prefix_nil|]. split; [|lia]. right. exists name. split; [by eexists|]. unfold next in E. lia.
  - apply Nat.ltb_ge in E. destruct (IH next false) as (Hp & Hm & Hb). cbn zeta. split; [by apply prefix_cons|].
    cbn [app joined_length]. split; [|intros _; specialize (Hb E); unfold next in *; lia].
    destruct Hm as [Hm|(n & Hn & Hx)]; [left; by rewrite Hm at 1|]. right. exists n. split; [by apply prefix_cons|].
    subst next. lia.
Qed.

Lemma split_at_sep c x s :
  has_char c x = false →
  split_at (λ d, bool_decide (d = c)) (x +:+ String c s) = x :: split_at (λ d, bool_decide (d = c)) s.
Proof.
  induction x as [|d x IH]; intros H; str_simpl; [by rewrite bool_decide_eq_true_2|].
  unfold has_char in H. cbn in H. case_bool_decide; [done|]. rewrite bool_decide_eq_false_2 by done.
  rewrite IH; [done|]. unfold has_char. by destruct (index_of c x).
Qed.

Lemma split_at_whole c x : has_char c x = false → split_at (λ d, bool_decide (d = c)) x = [x].
Proof.
  induction x as [|d x IH]; intros H; [done|]. cbn. unfold has_char in H. cbn in H. case_bool_decide; [done|].
  rewrite bool_decide_eq_false_2 by done. rewrite IH; [done|]. unfold has_char. by destruct (index_of c x).
Qed.

Lemma words_join c l :
  (∀ x, x ∈ l → has_char c x = false ∧ x ≠ "") → words (λ d, bool_decide (d = c)) (join_with (String c "") l) = l.
Proof.
  unfold words. intros H.
  assert (Hk : List.filter (λ w, negb (bool_decide (w = ""))) l = l).
  { clear -H. induction l as [|x l IH]; [done|]. cbn. destruct (H x) as [_ Hx]; [by left|].
    rewrite bool_decide_eq_false_2 by done. cbn. f_equal. apply IH. intros y Hy. apply H. by right. }
  destruct l as [|x l]; [done|]. transitivity (List.filter (λ w, negb (bool_decide (w = ""))) (x :: l)); [|done]. f_equal.
  clear Hk. revert x H. induction l as [|y l IH]; intros x H.
  { apply split_at_whole. apply (H x). by left. }
  change (join_with (String c "") (x :: y :: l)) with (x +:+ String c (join_with (String c "") (y :: l))).
  rewrite split_at_sep by (apply (H x); by left). f_equal. apply IH. intros z Hz. apply H. by right.
Qed.

Lemma named_nonempty names x : x ∈ named names → x ≠ "".
Proof.
  unfold named. intros (raw & _ & E)%list_elem_of_omap. unfold truthy in E. destruct (trim <$> raw); [|done].
  case_bool_decide; congruence.
Qed.

(** The names of the anchors survive the header: what is read back are the trimmed,
    non-blank names the caller gave, in order, cut only before the first name that would
    take the joined value over 256 characters, and the value never exceeds them. *)
Theorem known_names_come_back names :
  (∀ x, x ∈ named names → has_char UNIT_SEPARATOR x = false) →
  let value := joinKnownNames names in
  let back := splitKnownNames value in
  back `prefix_of` named names ∧
  (back = named names ∨
   ∃ n, app back [n] `prefix_of` named names ∧
        INTERNAL_DOCUMENT_META_MAX_CHARS < String.length (join_with KNOWN_NAMES_SEPARATOR (app back [n]))) ∧
  (∀ v, value = Some v → 0 < String.length v ≤ INTERNAL_DOCUMENT_META_MAX_CHARS).
Proof.
  intros Hs. destruct (fitting_spec names 0 true) as (Hp & Hm & Hb). specialize (Hb (Nat.le_0_l _)).
  set (kept := fitting 0 true names) in *.
  assert (Hk : ∀ x, x ∈ kept → has_char UNIT_SEPARATOR x = false ∧ x ≠ "").
  { intros x Hx. assert (x ∈ named names) by (destruct Hp as [l ->]; by apply elem_of_app; left).
    split; [by apply Hs|by eapply named_nonempty]. }
  assert (Hpos : kept ≠ [] → join_with KNOWN_NAMES_SEPARATOR kept ≠ "").
  { intros Hne E. destruct kept as [|x l]; [done|]. destruct (Hk x) as [_ Hx]; [by left|]. apply Hx.
    apply (f_equal String.length) in E. unfold KNOWN_NAMES_SEPARATOR in E. rewrite length_join_with in E. cbn in E.
    destruct x; [done|cbn in E; lia]. }
  assert (E : splitKnownNames (joinKnownNames names) = kept).
  { unfold joinKnownNames. fold kept. destruct kept as [|x l] eqn:Ek; [done|]. unfold splitKnownNames, truthy.
    rewrite bool_decide_eq_false_2 by (by apply Hpos). by apply words_join. }
  cbn zeta. rewrite E. split; [done|]. split.
  - destruct Hm as [Hm|(n & Hn & Hx)]; [by left|]. right. exists n. split; [done|].
    unfold KNOWN_NAMES_SEPARATOR. by rewrite length_join_with.
  - intros v. unfold joinKnownNames. fold kept. intros Hv. assert (Hv' : kept ≠ [] ∧ v = join_with KNOWN_NAMES_SEPARATOR kept).
    { destruct kept; [done|]. by injection Hv as <-. }
    destruct Hv' as [Hne ->]. split; [|unfold KNOWN_NAMES_SEPARATOR; by rewrite length_join_with].
    specialize (Hpos Hne). destruct (join_with KNOWN_NAMES_SEPARATOR kept); [done|cbn; lia].
Qed.

Example known_names_come_back_witness :
  splitKnownNames (joinKnownNames [Some " Maria "; None; Some ""; Some "Ben"]) `prefix_of` ["Maria"; "Ben"].
Proof.
  refine (proj1 (known_names_come_back [Some " Maria "; None; Some ""; Some "Ben"] _)).
  intros x Hx. assert (x ∈ ["Maria"; "Ben"]) as Hx' by exact Hx.
  rewrite !elem_of_cons, elem_of_nil in Hx'. by destruct Hx' as [->|[->|[]]].
Defined.

(** ** Operator vocabulary *)

Definition vocabulary (kv : string * jsval) : bool := re_test META_KEY kv.1 && meta_value_ok kv.2.

(** The entries that may stay, the first sixteen of which do. *)
Lemma sanitize_fold entries meta dropped :
  length meta ≤ SOURCE_META_MAX_KEYS →
  (fold_left sanitize_entry entries (meta, dropped)).1 =
    app meta (take (SOURCE_META_MAX_KEYS - length meta) (List.filter vocabulary entries)) ∧
  length (fold_left sanitize_entry entries (meta, dropped)).1 + length (fold_left sanitize_entry entries (meta, dropped)).2 =
    length meta + length dropped + length entries.
Proof.
  revert meta dropped. induction entries as [|kv entries IH]; intros meta dropped Hl.
  { cbn. rewrite take_nil, app_nil_r. split; [done|lia]. }
  cbn [fold_left List.filter]. 
  replace (sanitize_entry (meta, dropped) kv) with
    (if negb (re_test META_KEY kv.1) then (meta, app dropped [DKey kv.1])
     else if negb (meta_value_ok kv.2) then (meta, app dropped [DValue kv.1])
     else if SOURCE_META_MAX_KEYS <=? length meta then (meta, app dropped [DOver kv.1])
     else (app meta [kv], dropped)) by done.
  unfold vocabulary at 1.
  destruct (re_test META_KEY kv.1); cbn [negb andb].
  2: { destruct (IH meta (app dropped [DKey kv.1]) Hl) as [-> ->]. split; [done|]. rewrite length_app. cbn. lia. }
  destruct (meta_value_ok kv.2); cbn [negb].
  2: { destruct (IH meta (app dropped [DValue kv.1]) Hl) as [-> ->]. split; [done|]. rewrite length_app. cbn. lia. }
  destruct (SOURCE_META_MAX_KEYS <=? length meta) eqn:E.
  - apply Nat.leb_le in E. destruct (IH meta (app dropped [DOver kv.1]) Hl) as [-> ->]. split; [|rewrite length_app; cbn; lia].
    by replace (SOURCE_META_MAX_KEYS - length meta) with 0 by lia.
  - apply Nat.leb_gt in E. destruct (IH (app meta [kv]) dropped) as [-> ->]; [rewrite length_app; cbn; lia|]. rewrite length_app. cbn [length].
    split; [|lia]. rewrite <- (assoc_L app). cbn [app]. f_equal.
    replace (SOURCE_META_MAX_KEYS - length meta) with (S (SOURCE_META_MAX_KEYS - (length meta + 1))) by lia. done.
Qed.

(** C35. The operator metadata that rides onto facts is the caller's own vocabulary and
    stays so: the kept entries are the first sixteen of the caller's with a snake_case key
    and a short scalar value, unchanged and in order; every other entry is reported, one
    reason each; and sanitizing what was kept, as the commit writer does with the stored
    header, changes nothing and reports nothing. *)
Theorem operator_metadata_is_vocabulary entries :
  let r := sanitizeSourceMeta (VObj entries) in
  default [] (sm_meta r) = take SOURCE_META_MAX_KEYS (List.filter vocabulary entries) ∧
  length (default [] (sm_meta r)) + length (sm_dropped r) = length entries ∧
  sanitizeSourceMeta (VObj (default [] (sm_meta r))) = {| sm_meta := sm_meta r; sm_dropped := [] |}.
Proof.
  assert (Hs : ∀ es, let p := fold_left sanitize_entry es ([], []) in
    sanitizeSourceMeta (VObj es) = {| sm_meta := if 0 <? length p.1 then Some p.1 else None; sm_dropped := p.2 |}).
  { intros es. unfold sanitizeSourceMeta. by destruct (fold_left sanitize_entry es ([], [])). }
  cbn zeta. rewrite !Hs. cbn [sm_meta sm_dropped].
  destruct (sanitize_fold entries [] []) as [H1 H2]; [cbn; lia|]. cbn [app length] in H1. rewrite Nat.sub_0_r in H1.
  set (kept := take SOURCE_META_MAX_KEYS (List.filter vocabulary entries)) in *.
  assert (Hd : default [] (if 0 <? length (fold_left sanitize_entry entries ([], [])).1
    then Some (fold_left sanitize_entry entries ([], [])).1 else None) = kept) by (rewrite H1; by destruct kept).
  rewrite Hd. split; [done|]. split; [rewrite H1 in H2; cbn [length Nat.add] in H2; exact H2|].
  assert (Hlen : length kept ≤ SOURCE_META_MAX_KEYS) by (unfold kept; rewrite length_take; lia).
  assert (Hv : List.filter vocabulary kept = kept).
  { apply List.forallb_filter_id. apply forallb_forall. intros x Hx.
    apply list_elem_of_In in Hx. unfold kept in Hx. apply elem_of_take in Hx as (i & Hi & _). apply list_elem_of_lookup_2, list_elem_of_In in Hi.
    by apply filter_In in Hi as [_ Hi]. }
  destruct (sanitize_fold kept [] []) as [K1 K2]; [cbn; lia|]. cbn [app length] in K1, K2. rewrite Nat.sub_0_r, Hv in K1.
  rewrite take_ge in K1 by done. rewrite K1, H1. rewrite K1 in K2. f_equal.
  by destruct (fold_left sanitize_entry kept ([], [])).2; [|cbn in K2; lia].
Qed.
