(* ===== verification/DocumentText.v ===== *)
(** * Cutting a document

    [documents/chunker.ts]: the windows the extractor reads; [documents/document-turns.ts]:
    the raw turns the episodic store keeps, and the turn a verbatim span came from. *)

From S2P Require Import Prelude Js Names.
From Stdlib Require Import Ascii.
Local Open Scope string_scope.
Local Open Scope nat_scope.

Definition newline : ascii := ascii_of_nat 10.
Definition LF : string := String newline "".

(** [s.slice(a, b)] for [0 <= a] *)
Definition slice (a b : nat) (s : string) : string := str_take (b - a) (str_drop a s).

(** ** Chunks *)

Record DocumentChunk := { ck_seq : nat; ck_text : string; ck_charStart : nat; ck_charEnd : nat }.

Record ChunkOptions := { co_targetChars : option nat; co_maxChars : option nat; co_overlapChars : option nat }.

Definition MENTION_TEXT_LIMIT : nat := Z.to_nat 16000.
Definition DEFAULT_TARGET : nat := Z.to_nat 12000.
Definition DEFAULT_OVERLAP : nat := 400.

(** [s.lastIndexOf(p)] of a text [p] that is not empty *)
Fixpoint last_index_of (p s : string) : option nat :=
  match s with
  | EmptyString => None
  | String _ s' =>
      match last_index_of p s' with
      | Some n => Some (S n)
      | None => if starts_with p s then Some 0 else None
      end
  end.

(** The cut after the boundary. *)
Definition lastBoundary (window boundary : string) (minIndex : nat) : option nat :=
  match last_index_of boundary window with
  | Some at_ => if at_ <? minIndex then None else Some (at_ + String.length boundary)
  | None => None
  end.

Definition maxChars (o : ChunkOptions) : nat := Nat.min (default MENTION_TEXT_LIMIT (co_maxChars o)) MENTION_TEXT_LIMIT.
Definition targetChars (o : ChunkOptions) : nat := Nat.min (default DEFAULT_TARGET (co_targetChars o)) (maxChars o).
Definition overlapChars (o : ChunkOptions) : nat :=
  Nat.min (default DEFAULT_OVERLAP (co_overlapChars o)) (targetChars o / 4).

(** The paragraph, line or sentence cut, else the hard one; [MIN_CUT_RATIO] is one half. *)
Definition cut_of (target : nat) (window : string) : nat :=
  let minCut := target / 2 in
  match lastBoundary window (LF +:+ LF) minCut with
  | Some c => c
  | None =>
      match lastBoundary window LF minCut with
      | Some c => c
      | None => match lastBoundary window ". " minCut with Some c => c | None => target end
      end
  end.

Section chunks.
Variable o : ChunkOptions.
Variable text : string.

(** The loop; [None] when the fuel is out. *)
Fixpoint chunk_loop (fuel seq start : nat) : option (list DocumentChunk) :=
  match fuel with
  | O => None
  | S fuel' =>
      if String.length text <=? start then Some []
      else if String.length text - start <=? maxChars o
      then Some [{| ck_seq := seq; ck_text := str_drop start text; ck_charStart := start; ck_charEnd := String.length text |}]
      else
        let end_ := start + cut_of (targetChars o) (slice start (start + targetChars o) text) in
        cons {| ck_seq := seq; ck_text := slice start end_ text; ck_charStart := start; ck_charEnd := end_ |}
          <$> chunk_loop fuel' (S seq) (end_ - overlapChars o)
  end.

Definition chunkDocument : option (list DocumentChunk) :=
  if String.length text <=? maxChars o
  then Some (if String.length text =? 0 then []
             else [{| ck_seq := 0; ck_text := text; ck_charStart := 0; ck_charEnd := String.length text |}])
  else chunk_loop (S (String.length text)) 0 0.
End chunks.

(** ** Turns *)

Record DocumentTurn := { dt_speaker : option string; dt_text : string; dt_charStart : nat }.

Record Line := { ln_text : string; ln_start : nat }.

Definition PARAGRAPH_TARGET : nat := Z.to_nat 1200.
Definition TURN_CEILING : nat := Z.to_nat 4000.

Definition is_newline (c : ascii) : bool := bool_decide (c = newline).

Fixpoint with_offsets (start : nat) (lines : list string) : list Line :=
  match lines with
  | [] => []
  | raw :: lines' => {| ln_text := raw; ln_start := start |} :: with_offsets (start + (String.length raw + 1)) lines'
  end.

Definition linesWithOffsets (text : string) : list Line := with_offsets 0 (split_at is_newline text).

Definition tab_or_space (c : ascii) : bool := bool_decide (c = " "%char) || bool_decide (c = ascii_of_nat 9).

Fixpoint skip_blanks (s : string) : string :=
  match s with String c s' => if tab_or_space c then skip_blanks s' else s | EmptyString => EmptyString end.

(** [SPEAKER_LINE.exec(line)?.[1]]: [/^([^\n:]{1,60}?):[ \t]+\S/]. What precedes the first
    colon is the group; after the blanks, none of which [\S] matches, comes a character. *)
Definition speaker_line (line : string) : option string :=
  match index_of colon line with
  | Some n =>
      let rest := str_drop (S n) line in
      let said := skip_blanks rest in
      if (1 <=? n) && (n <=? 60) && (String.length said <? String.length rest) &&
         match said with String c _ => negb (is_space c) | EmptyString => false end
      then Some (str_take n line) else None
  | None => None
  end.

Definition blank (s : string) : bool := bool_decide (trim s = "").

Definition trimEnd (s : string) : string := str_rev (trim_start (str_rev s)).

Definition with_text (t : DocumentTurn) (text : string) : DocumentTurn :=
  {| dt_speaker := dt_speaker t; dt_text := text; dt_charStart := dt_charStart t |}.

(** The turns so far, the latest first. *)
Definition speaker_step (turns : list DocumentTurn) (line : Line) : list DocumentTurn :=
  match speaker_line (ln_text line), turns with
  | Some name, _ => {| dt_speaker := Some (trim name); dt_text := ln_text line; dt_charStart := ln_start line |} :: turns
  | None, current :: turns' => with_text current (dt_text current +:+ LF +:+ ln_text line) :: turns'
  | None, [] =>
      if blank (ln_text line) then []
      else [{| dt_speaker := None; dt_text := ln_text line; dt_charStart := ln_start line |}]
  end.

Definition speakerTurns (lines : list Line) : list DocumentTurn :=
  List.filter (λ t, negb (bool_decide (dt_text t = "")))
    (map (λ t, with_text t (trimEnd (dt_text t))) (rev (fold_left speaker_step lines []))).

(** The paragraphs so far, the latest first, and whether it is open. *)
Definition paragraph_step (acc : list DocumentTurn * bool) (line : Line) : list DocumentTurn * bool :=
  let '(paragraphs, open) := acc in
  if blank (ln_text line) then (paragraphs, false)
  else
    match open, paragraphs with
    | true, p :: ps => (with_text p (dt_text p +:+ LF +:+ ln_text line) :: ps, true)
    | _, _ => ({| dt_speaker := None; dt_text := ln_text line; dt_charStart := ln_start line |} :: paragraphs, true)
    end.

Definition pack_step (packed : list DocumentTurn) (p : DocumentTurn) : list DocumentTurn :=
  match packed with
  | last :: packed' =>
      if String.length (dt_text last) + String.length (dt_text p) + 2 <=? PARAGRAPH_TARGET
      then with_text last (dt_text last +:+ LF +:+ LF +:+ dt_text p) :: packed'
      else p :: packed
  | [] => [p]
  end.

Definition paragraphTurns (lines : list Line) : list DocumentTurn :=
  rev (fold_left pack_step (rev (fold_left paragraph_step lines ([], false)).1) []).

(** The slices of one turn; the fuel is the length of what is left. *)
Fixpoint cap_slices (fuel : nat) (t : DocumentTurn) (at_ : nat) : list DocumentTurn :=
  match fuel with
  | O => []
  | S fuel' =>
      if at_ <? String.length (dt_text t)
      then {| dt_speaker := truthy (dt_speaker t); dt_text := slice at_ (at_ + TURN_CEILING) (dt_text t);
              dt_charStart := dt_charStart t + at_ |} :: cap_slices fuel' t (at_ + TURN_CEILING)
      else []
  end.

Definition capTurn (t : DocumentTurn) : list DocumentTurn :=
  if String.length (dt_text t) <=? TURN_CEILING then [t] else cap_slices (String.length (dt_text t)) t 0.

Definition isTranscript (lines : list Line) : bool :=
  let speakers := length (List.filter (λ l, match speaker_line (ln_text l) with Some _ => true | None => false end) lines) in
  let nonEmpty := length (List.filter (λ l, negb (blank (ln_text l))) lines) in
  (2 <=? speakers) && (nonEmpty <=? speakers * 2).

Definition splitDocumentTurns (text : string) : list DocumentTurn :=
  let lines := linesWithOffsets text in
  flat_map capTurn (if isTranscript lines then speakerTurns lines else paragraphTurns lines).

Fixpoint find_index {A} (p : A → bool) (l : list A) : option nat :=
  match l with
  | [] => None
  | x :: l' => if p x then Some 0 else S <$> find_index p l'
  end.

Definition turnOfSpan (turns : list DocumentTurn) (span : option string) : option nat :=
  match truthy (trim <$> span) with
  | None => None
  | Some needle => find_index (λ t, str_contains needle (dt_text t)) turns
  end.

(** ** Where a cut falls *)

Lemma length_str_drop n s : String.length (str_drop n s) = String.length s - n.
Proof. revert s. induction n as [|n IH]; intros [|c s]; cbn; [done..|]. by rewrite IH. Qed.

Lemma length_slice a b s : b ≤ String.length s → String.length (slice a b s) = b - a.
Proof. intros Hb. unfold slice. apply length_str_take. rewrite length_str_drop. lia. Qed.

Lemma length_str_take_min n s : String.length (str_take n s) = Nat.min n (String.length s).
Proof. revert s. induction n as [|n IH]; intros [|c s]; cbn; [done..|]. by rewrite IH. Qed.

Lemma last_index_of_fits p s n : last_index_of p s = Some n → n + String.length p ≤ String.length s.
Proof.
  revert n. induction s as [|c s IH]; intros n; [done|]. cbn [last_index_of String.length].
  destruct (last_index_of p s) as [m|]; [intros [= <-]; specialize (IH m eq_refl); lia|].
  destruct (starts_with p (String c s)) eqn:E; [|done]. intros [= <-]. apply starts_with_spec in E as [t E].
  apply (f_equal String.length) in E. rewrite str_length_append in E. cbn in E. lia.
Qed.

Lemma lastBoundary_bounds window boundary m c :
  0 < String.length boundary → lastBoundary window boundary m = Some c → m < c ≤ String.length window.
Proof.
  intros Hb. unfold lastBoundary. destruct (last_index_of boundary window) as [n|] eqn:E; [|done].
  apply last_index_of_fits in E. destruct (n <? m) eqn:El; [done|]. apply Nat.ltb_ge in El. intros [= <-]. lia.
Qed.

(** A cut makes progress past any overlap and stays in the window. *)
Lemma cut_of_bounds target window :
  0 < target → String.length window = target → target / 4 < cut_of target window ≤ target.
Proof.
  intros Ht Hw. assert (H4 : target / 4 ≤ target / 2) by (apply Nat.div_le_compat_l; lia).
  assert (Hd : target / 4 < target) by (apply Nat.div_lt; lia). unfold cut_of. cbn zeta.
  destruct (lastBoundary window (LF +:+ LF) (target / 2)) as [c|] eqn:E1; [apply lastBoundary_bounds in E1; [lia|unfold LF; simpl; lia]|].
  destruct (lastBoundary window LF (target / 2)) as [c|] eqn:E2; [apply lastBoundary_bounds in E2; [lia|unfold LF; simpl; lia]|].
  destruct (lastBoundary window ". " (target / 2)) as [c|] eqn:E3; [apply lastBoundary_bounds in E3; [lia|simpl; lia]|]. lia.
Qed.

(** ** The chunks of a text *)

(** A chunk holds the text between its offsets, which lie in the text. *)
Definition chunk_ok (o : ChunkOptions) (text : string) (c : DocumentChunk) : Prop :=
  ck_text c = slice (ck_charStart c) (ck_charEnd c) text ∧
  ck_charStart c < ck_charEnd c ≤ String.length text ∧ ck_charEnd c - ck_charStart c ≤ maxChars o.

(** A span of the text wholly inside one chunk. *)
Definition in_one_chunk (i j : nat) (cs : list DocumentChunk) : Prop := ∃ c, c ∈ cs ∧ ck_charStart c ≤ i ∧ j ≤ ck_charEnd c.

Lemma str_take_all n s : String.length s ≤ n → str_take n s = s.
Proof. revert s. induction n as [|n IH]; intros [|c s]; cbn; try done; [lia|]. intros H. rewrite IH; [done|lia]. Qed.

Lemma slice_to_end start s : slice start (String.length s) s = str_drop start s.
Proof. unfold slice. apply str_take_all. rewrite length_str_drop. lia. Qed.

Section covering.
Context (o : ChunkOptions) (text : string).
Hypothesis Htarget : 0 < targetChars o.

Lemma target_le_max : targetChars o ≤ maxChars o.
Proof. unfold targetChars. lia. Qed.

Lemma overlap_le : overlapChars o ≤ targetChars o / 4.
Proof. unfold overlapChars. lia. Qed.

Lemma chunk_loop_spec fuel seq_ start :
  String.length text - start < fuel →
  ∃ cs, chunk_loop o text fuel seq_ start = Some cs ∧
    (∀ c, c ∈ cs → chunk_ok o text c) ∧ map ck_seq cs = seq seq_ (length cs) ∧
    (∀ i j, start ≤ i → i < j ≤ String.length text → j - i ≤ Nat.max 1 (overlapChars o) → in_one_chunk i j cs).
Proof.
  pose proof target_le_max as Hmax. pose proof overlap_le as Hov. revert seq_ start.
  induction fuel as [|fuel IH]; intros seq_ start Hf; [lia|]. cbn [chunk_loop].
  destruct (String.length text <=? start) eqn:E1.
  { apply Nat.leb_le in E1. exists []. split_and!; [done|by intros c ?%elem_of_nil|done|]. intros. lia. }
  apply Nat.leb_gt in E1. destruct (String.length text - start <=? maxChars o) eqn:E2.
  { apply Nat.leb_le in E2. eexists [_]. split_and!; [done| |done|].
    - intros c ->%list_elem_of_singleton. unfold chunk_ok. cbn [ck_text ck_charStart ck_charEnd]. rewrite slice_to_end. split_and!; [done|lia..].
    - intros i j Hi Hj _. eexists. split; [left|]. cbn [ck_charStart ck_charEnd]. lia. }
  apply Nat.leb_gt in E2. set (window := slice start (start + targetChars o) text).
  assert (Hw : String.length window = targetChars o) by (unfold window; rewrite length_slice; lia).
  pose proof (cut_of_bounds _ _ Htarget Hw) as Hcut. set (end_ := start + cut_of (targetChars o) window) in *.
  destruct (IH (S seq_) (end_ - overlapChars o)) as (cs & E & Hok & Hseq & Hin); [lia|]. rewrite E. eexists. split_and!; [done| | |].
  - intros c [->|Hc]%elem_of_cons; [|by apply Hok]. unfold chunk_ok. cbn [ck_text ck_charStart ck_charEnd]. split_and!; [done|lia..].
  - cbn. by rewrite Hseq.
  - intros i j Hi Hj Hs. destruct (decide (j ≤ end_)) as [Hle|Hgt].
    + eexists. split; [left|]. cbn [ck_charStart ck_charEnd]. lia.
    + destruct (Hin i j) as (c & Hc & Hb); [lia..|]. exists c. split; [by right|done].
Qed.
End covering.

(** C34. Chunking with a positive target ends and loses nothing: the chunks are numbered in order, each holds exactly
    the text between its offsets and is no longer than the limit, and every span up to the
    overlap, a single character at least, lies wholly in one of them. *)
Theorem chunks_cover_the_text o text :
  0 < targetChars o →
  ∃ chunks, chunkDocument o text = Some chunks ∧
    (∀ c, c ∈ chunks → chunk_ok o text c) ∧ map ck_seq chunks = seq 0 (length chunks) ∧
    (∀ i j, i < j ≤ String.length text → j - i ≤ Nat.max 1 (overlapChars o) → in_one_chunk i j chunks).
Proof.
  intros Ht. unfold chunkDocument. destruct (String.length text <=? maxChars o) eqn:E.
  - apply Nat.leb_le in E. destruct (String.length text =? 0) eqn:E0.
    + apply Nat.eqb_eq in E0. exists []. split_and!; [done|by intros c ?%elem_of_nil|done|]. intros. lia.
    + apply Nat.eqb_neq in E0. eexists [_]. split_and!; [done| |done|].
      * intros c ->%list_elem_of_singleton. unfold chunk_ok. cbn [ck_text ck_charStart ck_charEnd]. rewrite slice_to_end. split_and!; [done|lia..].
      * intros i j Hj _. eexists. split; [left|]. cbn [ck_charStart ck_charEnd]. lia.
  - destruct (chunk_loop_spec o text Ht (S (String.length text)) 0 0) as (cs & H); [lia|]. exists cs.
    destruct H as (? & ? & ? & H). split_and!; [done..|]. intros i j. apply H. lia.
Qed.

Definition small_windows : ChunkOptions := {| co_targetChars := Some 8; co_maxChars := Some 12; co_overlapChars := None |}.

Example chunks_cover_the_text_witness :
  ∃ chunks, chunkDocument small_windows "One two. Three four." = Some chunks ∧ length chunks = 3.
Proof.
  destruct (chunks_cover_the_text small_windows "One two. Three four.") as (cs & E & _).
  - vm_compute. lia.
  - exists cs. split; [exact E|]. vm_compute in E. by injection E as <-.
Defined.

(** ** What the turns keep *)

(** A text without its white space. *)
Definition ink (s : string) : string := str_filter (λ c, negb (is_space c)) s.

Definition all_ink (ts : list DocumentTurn) : string := String.concat "" (map (λ t, ink (dt_text t)) ts).

Lemma ink_append a b : ink (a +:+ b) = ink a +:+ ink b.
Proof.
  unfold ink. induction a as [|c a IH]; [done|]. rewrite str_append_cons. cbn. destruct (is_space c); cbn; [done|].
  by rewrite IH.
Qed.

Lemma concat_cons x l : String.concat "" (x :: l) = x +:+ String.concat "" l.
Proof. destruct l; cbn; [by rewrite str_append_nil_r|done]. Qed.

Lemma concat_app (l1 l2 : list string) : String.concat "" (app l1 l2) = String.concat "" l1 +:+ String.concat "" l2.
Proof.
  induction l1 as [|x l1 IH]; [done|]. cbn [app]. by rewrite !concat_cons, IH, str_append_assoc.
Qed.

Lemma all_ink_app l1 l2 : all_ink (app l1 l2) = all_ink l1 +:+ all_ink l2.
Proof. unfold all_ink. by rewrite map_app, concat_app. Qed.

Lemma all_ink_cons t l : all_ink (t :: l) = ink (dt_text t) +:+ all_ink l.
Proof. apply (all_ink_app [t] l). Qed.

Lemma ink_trim_start s : ink (trim_start s) = ink s.
Proof. induction s as [|c s IH]; [done|]. unfold ink in *. cbn. by destruct (is_space c) eqn:E; cbn; rewrite ?E. Qed.

Lemma str_rev_cons c s : str_rev (String c s) = str_rev s +:+ String c "".
Proof.
  unfold str_rev. cbn. induction (rev (String.list_ascii_of_string s)) as [|d l IH]; [done|]. cbn. by rewrite IH.
Qed.

Lemma str_rev_append a b : str_rev (a +:+ b) = str_rev b +:+ str_rev a.
Proof.
  induction a as [|c a IH]; [by rewrite str_append_nil_r|]. rewrite str_append_cons, !str_rev_cons, IH. apply str_append_assoc.
Qed.

Lemma str_rev_involutive s : str_rev (str_rev s) = s.
Proof. induction s as [|c s IH]; [done|]. by rewrite str_rev_cons, str_rev_append, IH. Qed.

Lemma ink_cons c s : ink (String c s) = if is_space c then ink s else String c (ink s).
Proof. unfold ink. cbn. by destruct (is_space c). Qed.

Lemma ink_str_rev s : ink (str_rev s) = str_rev (ink s).
Proof.
  induction s as [|c s IH]; [done|]. rewrite str_rev_cons, ink_append, IH, !ink_cons.
  destruct (is_space c); [apply str_append_nil_r|by rewrite str_rev_cons].
Qed.

Lemma ink_trimEnd s : ink (trimEnd s) = ink s.
Proof. unfold trimEnd. by rewrite ink_str_rev, ink_trim_start, ink_str_rev, str_rev_involutive. Qed.

Lemma ink_trim s : ink (trim s) = ink s.
Proof. transitivity (ink (trimEnd (trim_start s))); [done|]. by rewrite ink_trimEnd, ink_trim_start. Qed.

Lemma ink_blank s : blank s = true → ink s = "".
Proof. unfold blank. rewrite bool_decide_eq_true. intros E. by rewrite <- ink_trim, E. Qed.

Lemma ink_LF s : ink (LF +:+ s) = ink s.
Proof. done. Qed.

(** A line that opens a turn, goes on with one, or is blank: its ink is added at the end. *)
Lemma speaker_step_ink turns line : all_ink (rev (speaker_step turns line)) = all_ink (rev turns) +:+ ink (ln_text line).
Proof.
  unfold speaker_step. destruct (speaker_line (ln_text line)); [cbn [rev]; by rewrite all_ink_app|].
  destruct turns as [|t turns].
  - destruct (blank (ln_text line)) eqn:E; [by rewrite (ink_blank _ E)|done].
  - cbn [rev]. rewrite !all_ink_app, str_append_assoc. f_equal. cbn. by rewrite ink_append, ink_LF.
Qed.

Lemma fold_ink {T} (show : T → list DocumentTurn) (step : T → Line → T) :
  (∀ t line, all_ink (show (step t line)) = all_ink (show t) +:+ ink (ln_text line)) →
  ∀ lines t, all_ink (show (fold_left step lines t)) = all_ink (show t) +:+ String.concat "" (map (λ l, ink (ln_text l)) lines).
Proof.
  intros H lines. induction lines as [|l lines IH]; intros t; cbn [fold_left map]; [by rewrite str_append_nil_r|].
  rewrite IH, H, str_append_assoc. f_equal. symmetry. apply concat_cons.
Qed.

Lemma speakerTurns_ink lines : all_ink (speakerTurns lines) = String.concat "" (map (λ l, ink (ln_text l)) lines).
Proof.
  transitivity (all_ink (rev (fold_left speaker_step lines []))); [|by rewrite (fold_ink (@rev _) _ speaker_step_ink)].
  unfold speakerTurns. induction (rev (fold_left speaker_step lines [])) as [|t ts IH]; [done|].
  cbn [map List.filter]. rewrite all_ink_cons, <- (ink_trimEnd (dt_text t)), <- IH. cbn [dt_text with_text].
  case_bool_decide as E; cbn [negb]; [by rewrite E|by rewrite all_ink_cons].
Qed.

Lemma paragraph_step_ink acc line :
  all_ink (rev (paragraph_step acc line).1) = all_ink (rev acc.1) +:+ ink (ln_text line).
Proof.
  destruct acc as [ps open]. unfold paragraph_step. destruct (blank (ln_text line)) eqn:E.
  { rewrite (ink_blank _ E). cbn. by rewrite str_append_nil_r. }
  destruct open, ps as [|p ps]; cbn [fst rev]; rewrite !all_ink_app; try done. rewrite str_append_assoc. f_equal.
  cbn. by rewrite ink_append, ink_LF.
Qed.

Lemma pack_ink ps packed : all_ink (rev (fold_left pack_step ps packed)) = all_ink (rev packed) +:+ all_ink ps.
Proof.
  revert packed. induction ps as [|p ps IH]; intros packed; cbn [fold_left]; [by rewrite str_append_nil_r|].
  rewrite IH, all_ink_cons, <- str_append_assoc. f_equal. unfold pack_step. destruct packed as [|t packed]; [done|].
  destruct (_ <=? PARAGRAPH_TARGET); cbn [rev]; rewrite !all_ink_app; [|done]. rewrite str_append_assoc. f_equal.
  cbn. by rewrite ink_append, !ink_LF.
Qed.

Lemma paragraphTurns_ink lines : all_ink (paragraphTurns lines) = String.concat "" (map (λ l, ink (ln_text l)) lines).
Proof.
  unfold paragraphTurns. rewrite pack_ink. cbn.
  by rewrite (fold_ink (λ acc : list DocumentTurn * bool, rev acc.1) _ paragraph_step_ink).
Qed.

Lemma str_drop_take n m s : str_drop n s = str_take m (str_drop n s) +:+ str_drop (n + m) s.
Proof.
  revert s. induction n as [|n IH]; intros [|c s]; cbn; [by destruct m|by rewrite <- (str_take_drop m (String c s)) at 1|by destruct m|apply IH].
Qed.

Lemma cap_slices_ink fuel t at_ :
  String.length (dt_text t) - at_ ≤ fuel → all_ink (cap_slices fuel t at_) = ink (str_drop at_ (dt_text t)).
Proof.
  assert (Hend : ∀ a s, String.length s ≤ a → str_drop a s = "").
  { intros a s. revert a. induction s as [|c s IH]; intros [|a] H; cbn in *; try done; [lia|apply IH; lia]. }
  assert (HC : 0 < TURN_CEILING) by (unfold TURN_CEILING; lia).
  revert at_. induction fuel as [|fuel IH]; intros at_ Hf; cbn [cap_slices]; [by rewrite Hend by lia|].
  destruct (at_ <? String.length (dt_text t)) eqn:E; [|apply Nat.ltb_ge in E; by rewrite Hend by lia].
  apply Nat.ltb_lt in E. rewrite all_ink_cons. cbn [dt_text]. rewrite IH by lia.
  rewrite (str_drop_take at_ TURN_CEILING (dt_text t)), ink_append. unfold slice.
  by replace (at_ + TURN_CEILING - at_) with TURN_CEILING by lia.
Qed.

Lemma cap_ink ts : all_ink (flat_map capTurn ts) = all_ink ts.
Proof.
  induction ts as [|t ts IH]; [done|]. cbn [flat_map]. rewrite all_ink_app, all_ink_cons, IH. f_equal. unfold capTurn.
  destruct (_ <=? TURN_CEILING); [unfold all_ink; cbn; done|]. by rewrite cap_slices_ink by lia.
Qed.

Lemma lines_ink start lines :
  String.concat "" (map (λ l, ink (ln_text l)) (with_offsets start lines)) = String.concat "" (map ink lines).
Proof.
  revert start. induction lines as [|l lines IH]; intros start; [done|]. cbn [with_offsets map]. by rewrite !concat_cons, IH.
Qed.

Lemma split_ink s : String.concat "" (map ink (split_at is_newline s)) = ink s.
Proof.
  induction s as [|c s IH]; [done|]. cbn [split_at]. unfold is_newline at 1. case_bool_decide as E.
  - cbn [map]. rewrite concat_cons, IH. by subst c.
  - rewrite ink_cons, <- IH. destruct (split_at is_newline s) as [|w ws]; cbn [map]; rewrite !concat_cons.
    + rewrite ink_cons. by destruct (is_space c).
    + rewrite ink_cons. by destruct (is_space c).
Qed.

(** ** How long a turn is *)

Lemma cap_slices_bounds fuel t at_ u : u ∈ cap_slices fuel t at_ → 0 < String.length (dt_text u) ≤ TURN_CEILING.
Proof.
  assert (HC : 0 < TURN_CEILING) by (unfold TURN_CEILING; lia).
  revert at_. induction fuel as [|fuel IH]; intros at_; cbn [cap_slices]; [by intros ?%elem_of_nil|].
  destruct (at_ <? String.length (dt_text t)) eqn:E; [|by intros ?%elem_of_nil]. apply Nat.ltb_lt in E.
  intros [->|H]%elem_of_cons; [|by eapply IH]. cbn [dt_text]. unfold slice. rewrite length_str_take_min, length_str_drop. lia.
Qed.

Lemma nonempty_length s : s ≠ "" → 0 < String.length s.
Proof. destruct s; [done|cbn; lia]. Qed.

Lemma append_nonempty a b : a ≠ "" → a +:+ b ≠ "".
Proof. by destruct a. Qed.

Lemma speakerTurns_nonempty lines t : t ∈ speakerTurns lines → dt_text t ≠ "".
Proof.
  unfold speakerTurns. rewrite elem_of_bfilter. intros [_ H] E. rewrite E in H. done.
Qed.

Definition filled (t : DocumentTurn) : Prop := dt_text t ≠ "".

Lemma paragraph_step_filled acc line : Forall filled acc.1 → Forall filled (paragraph_step acc line).1.
Proof.
  destruct acc as [ps open]. cbn [fst]. intros H. unfold paragraph_step. destruct (blank (ln_text line)) eqn:E; [done|].
  assert (Hl : ln_text line ≠ "") by (intros El; by rewrite El in E).
  destruct open; [destruct H as [|p ps Hp H]|]; cbn [fst]; constructor; try done. by apply append_nonempty.
Qed.

Lemma pack_step_filled packed p : Forall filled packed → filled p → Forall filled (pack_step packed p).
Proof.
  intros [|q packed' Hq H] Hp; unfold pack_step; [by repeat constructor|].
  destruct (_ <=? PARAGRAPH_TARGET); repeat constructor; try done. by apply append_nonempty.
Qed.

Lemma paragraphTurns_filled lines : Forall filled (paragraphTurns lines).
Proof.
  assert (H1 : ∀ lines acc, Forall filled acc.1 → Forall filled (fold_left paragraph_step lines acc).1).
  { clear lines. induction lines as [|l lines IH]; intros acc H; [done|]. by apply IH, paragraph_step_filled. }
  assert (H2 : ∀ ps packed, Forall filled packed → Forall filled ps → Forall filled (fold_left pack_step ps packed)).
  { induction ps as [|p ps IH]; intros packed H Hs; [done|]. inversion Hs. apply IH; [by apply pack_step_filled|done]. }
  apply Forall_rev, H2; [constructor|]. by apply Forall_rev, H1.
Qed.

(** Cutting a document into turns loses nothing: read one after the other, the turns
    hold every character of the text that is not white space, in order; and each turn holds
    something and is short enough for a quote to carry. *)
Theorem turns_lose_nothing text :
  all_ink (splitDocumentTurns text) = ink text ∧
  (∀ t, t ∈ splitDocumentTurns text → 0 < String.length (dt_text t) ≤ TURN_CEILING).
Proof.
  unfold splitDocumentTurns. cbn zeta. set (lines := linesWithOffsets text). split.
  - rewrite cap_ink. transitivity (String.concat "" (map (λ l, ink (ln_text l)) lines)).
    { destruct (isTranscript lines); [apply speakerTurns_ink|apply paragraphTurns_ink]. }
    unfold lines, linesWithOffsets. by rewrite lines_ink, split_ink.
  - intros t. rewrite list_elem_of_In, in_flat_map. intros (u & Hu & Ht). rewrite <- list_elem_of_In in Hu, Ht.
    assert (Hne : dt_text u ≠ "") by (destruct (isTranscript lines); [by eapply speakerTurns_nonempty|]; by eapply (proj1 (Forall_forall _ _) (paragraphTurns_filled lines))).
    unfold capTurn in Ht. destruct (String.length (dt_text u) <=? TURN_CEILING) eqn:E; [|by eapply cap_slices_bounds].
    apply list_elem_of_singleton in Ht as ->. apply Nat.leb_le in E. split; [by apply nonempty_length|done].
Qed.

Example a_transcript_keeps_its_speakers :
  map (λ t, (dt_speaker t, dt_text t)) (splitDocumentTurns ("Ana: hello" +:+ LF +:+ "there" +:+ LF +:+ "Ben: hi")) =
  [(Some "Ana", "Ana: hello" +:+ LF +:+ "there"); (Some "Ben", "Ben: hi")].
Proof. reflexivity. Qed.
