(* ===== verification/DocumentStore.v ===== *)
(** * The document store

    [documents/document-store.service.ts] with [documents/document-purge.util.ts]: a
    document is stored once per text and scope ([contentHash], unique), its chunks beside
    it; what a re-post adds, and what a purge leaves. What sanitizing and redacting make of
    a text, and the hash, are arguments; the triage stamp and what is counted and logged
    are left out. *)

From S2P Require Import Prelude Js Resume FactSlots FactPolicy ScopeTags DocumentMeta DocumentText.
From stdpp Require Import gmap sorting.
From Stdlib Require Import Ascii.
Local Open Scope string_scope.
Local Open Scope nat_scope.

(** ** Rows *)

Record DocumentRow := {
  dn_kind : string;
  dn_originUri : option string;
  dn_title : option string;
  dn_contentHash : string;
  dn_charLen : nat;
  dn_chunkCount : nat;
  dn_hasContent : bool;
  dn_vertical : string;
  dn_recorder : option string;
  dn_occurredAt : Z;
  dn_meta : option Bag;
  dn_status : string;
  dn_userId : option string;
  dn_scope : list string
}.

(** A row as the pipeline sees it. *)
Record StoredDocument := {
  sd_id : string;
  sd_kind : string;
  sd_contentHash : string;
  sd_charLen : nat;
  sd_chunkCount : nat;
  sd_hasContent : bool;
  sd_vertical : string;
  sd_recorder : option string;
  sd_occurredAt : Z;
  sd_status : string;
  sd_userId : option string;
  sd_circles : option (list string);
  sd_teams : option (list string);
  sd_meta : option Bag
}.

Record IngestDocumentDto := {
  id_kind : string;
  id_originUri : option string;
  id_title : option string;
  id_text : string;
  id_vertical : string;
  id_recorder : option string;
  id_occurredAt : Z;
  id_meta : option Bag;
  id_userId : option string;
  id_storeContent : option bool
}.

(** The documents, their chunks, the facts committed from them, and who is in which circle. *)
Record DocStore := {
  st_docs : gmap string DocumentRow;
  st_chunks : gmap string (list DocumentChunk);
  st_facts : FactDb;
  st_members : list (string * string)
}.

Definition with_docs (m : gmap string DocumentRow) (s : DocStore) : DocStore :=
  {| st_docs := m; st_chunks := st_chunks s; st_facts := st_facts s; st_members := st_members s |}.
Definition with_chunks (m : gmap string (list DocumentChunk)) (s : DocStore) : DocStore :=
  {| st_docs := st_docs s; st_chunks := m; st_facts := st_facts s; st_members := st_members s |}.
Definition with_doc_facts (db : FactDb) (s : DocStore) : DocStore :=
  {| st_docs := st_docs s; st_chunks := st_chunks s; st_facts := db; st_members := st_members s |}.

(** [Array.isArray(scope) && tags.length > 0 ? { tags } : {}] *)
Definition some_tags (tags : list string) : option (list string) := if 0 <? length tags then Some tags else None.

Definition mapDoc (kv : string * DocumentRow) : StoredDocument :=
  let r := kv.2 in
  {| sd_id := kv.1; sd_kind := dn_kind r; sd_contentHash := dn_contentHash r; sd_charLen := dn_charLen r;
     sd_chunkCount := dn_chunkCount r; sd_hasContent := dn_hasContent r; sd_vertical := dn_vertical r;
     sd_recorder := truthy (dn_recorder r); sd_occurredAt := dn_occurredAt r; sd_status := dn_status r;
     sd_userId := truthy (dn_userId r); sd_circles := some_tags (circleTagsOf (Some (dn_scope r)));
     sd_teams := some_tags (teamTagsOf (Some (dn_scope r))); sd_meta := dn_meta r |}.

Definition row_meta (meta : option Bag) (r : DocumentRow) : DocumentRow :=
  {| dn_kind := dn_kind r; dn_originUri := dn_originUri r; dn_title := dn_title r; dn_contentHash := dn_contentHash r;
     dn_charLen := dn_charLen r; dn_chunkCount := dn_chunkCount r; dn_hasContent := dn_hasContent r;
     dn_vertical := dn_vertical r; dn_recorder := dn_recorder r; dn_occurredAt := dn_occurredAt r; dn_meta := meta;
     dn_status := dn_status r; dn_userId := dn_userId r; dn_scope := dn_scope r |}.

Definition row_status (status : string) (hasContent : bool) (r : DocumentRow) : DocumentRow :=
  {| dn_kind := dn_kind r; dn_originUri := dn_originUri r; dn_title := dn_title r; dn_contentHash := dn_contentHash r;
     dn_charLen := dn_charLen r; dn_chunkCount := dn_chunkCount r; dn_hasContent := hasContent;
     dn_vertical := dn_vertical r; dn_recorder := dn_recorder r; dn_occurredAt := dn_occurredAt r;
     dn_meta := dn_meta r; dn_status := status; dn_userId := dn_userId r; dn_scope := dn_scope r |}.

(** ** The statements *)

Definition doc_record (docId : string) : string := "source_document:" +:+ idTailOf docId.

Definition new_doc_id (s : DocStore) : string := "source_document:" +:+ fresh (set_map idTailOf (dom (st_docs s)) : gset string).

Definition find_hash (h : string) (s : DocStore) : option (string * DocumentRow) :=
  find_first (λ kv, bool_decide (dn_contentHash kv.2 = h)) (map_to_list (st_docs s)).

(** [CREATE source_document] under the unique hash. *)
Definition create_doc (r : DocumentRow) (s : DocStore) : DocStore * option string :=
  match find_hash (dn_contentHash r) s with
  | Some _ => (s, None)
  | None => let id := new_doc_id s in (with_docs (<[id := r]> (st_docs s)) s, Some id)
  end.

(** [INSERT INTO source_chunk]: one statement for all of them. *)
Definition insert_chunks (docId : string) (cs : list DocumentChunk) (s : DocStore) : DocStore :=
  with_chunks (<[docId := app (default [] (st_chunks s !! docId)) cs]> (st_chunks s)) s.

Definition on_doc (docId : string) (g : DocumentRow → DocumentRow) : prog DocStore unit :=
  exec (λ s, with_docs (alter g (doc_record docId) (st_docs s)) s).

(** [joinCircle]: its row, once. *)
Definition join_circle (userId circle : string) (s : DocStore) : DocStore :=
  if bool_decide ((userTag userId, circle) ∈ st_members s) then s
  else {| st_docs := st_docs s; st_chunks := st_chunks s; st_facts := st_facts s;
          st_members := app (st_members s) [(userTag userId, circle)] |}.

Fixpoint joinCircles (userId : string) (circles : list string) : prog DocStore unit :=
  match circles with
  | [] => Done tt
  | c :: cs => do* _ := exec (join_circle userId c) in joinCircles userId cs
  end.

(** ** The hash of a text in its scope *)

Definition NUL : ascii := ascii_of_nat 0.
Definition UNIT : ascii := UNIT_SEPARATOR.

Definition user_preimage (userId text : string) : string :=
  String NUL "" +:+ "user-scope" +:+ String NUL "" +:+ userId +:+ String NUL "" +:+ text.

Definition circle_preimage (circles : list string) (userId : option string) (text : string) : string :=
  "circle" +:+ String UNIT "" +:+ join_with "," circles +:+ String UNIT "" +:+ default "" userId +:+ String UNIT "" +:+ text.

Definition content_preimage (circles : list string) (userId : option string) (text : string) : string :=
  if 0 <? length circles then circle_preimage circles userId text
  else match userId with None => text | Some u => user_preimage u text end.

Section store.
Variable sha256 : string → string.
(** Sanitizing, redaction and the trim. *)
Variable prepare : string → string.

Definition contentHashOf (circles : list string) (userId : option string) (text : string) : string :=
  sha256 (content_preimage circles userId text).

Definition userScopedContentHash (userId text : string) : string := sha256 (user_preimage userId text).

Definition originKeyOf (contentHash : string) : string := "doc:" +:+ contentHash.

(** ** Storing a document *)

(** SOURCE_META_STRICT and DOC_CHUNK_TARGET_CHARS. *)
Record StoreEnv := { en_metaStrict : bool; en_chunkTarget : option nat }.

Definition chunk_options (env : StoreEnv) : ChunkOptions :=
  {| co_targetChars := Some (match en_chunkTarget env with
                             | Some n => if 0 <? n then n else DEFAULT_TARGET
                             | None => DEFAULT_TARGET
                             end);
     co_maxChars := None; co_overlapChars := None |}.

Definition HOP_KEYS : list string := ["toolObservationRef"; "toolObservationNote"].

(** The hop is adopted when the request carries one and the header has none. *)
Definition adopt_hop (internal stored : Bag) : bool :=
  match obj_get internal "toolObservationRef", obj_get stored "toolObservationRef" with
  | VStr _, VStr _ => false
  | VStr _, _ => true
  | _, _ => false
  end.

Definition hop_patch (internal stored : Bag) : Bag :=
  List.filter (λ kv, match kv.2 with VStr _ => bool_decide (kv.1 ∈ HOP_KEYS) && adopt_hop internal stored | _ => false end)
    internal.

Definition with_meta (meta : option Bag) (d : StoredDocument) : StoredDocument :=
  {| sd_id := sd_id d; sd_kind := sd_kind d; sd_contentHash := sd_contentHash d; sd_charLen := sd_charLen d;
     sd_chunkCount := sd_chunkCount d; sd_hasContent := sd_hasContent d; sd_vertical := sd_vertical d;
     sd_recorder := sd_recorder d; sd_occurredAt := sd_occurredAt d; sd_status := sd_status d; sd_userId := sd_userId d;
     sd_circles := sd_circles d; sd_teams := sd_teams d; sd_meta := meta |}.

Definition adoptInternalMeta (existing : StoredDocument) (internal : option Bag) : prog DocStore StoredDocument :=
  match internal with
  | None => Done existing
  | Some bag =>
      let stored := default [] (sd_meta existing) in
      match hop_patch bag stored with
      | [] => Done existing
      | patch =>
          let meta := Some (assign stored patch) in
          do* _ := on_doc (sd_id existing) (row_meta meta) in Done (with_meta meta existing)
      end
  end.

Record CreateDocumentResult := { cr_doc : StoredDocument; cr_chunks : list DocumentChunk; cr_deduplicated : bool }.

Inductive StoreError : Type :=
| InvalidMeta (issues : list Dropped)
| ForeignScope
| UniqueViolation
| ChunksFailed
| Endless.

Definition new_row (am : Ambient) (dto : IngestDocumentDto) (meta : option Bag) (hash text : string) (chunks : nat) :
    DocumentRow :=
  {| dn_kind := id_kind dto; dn_originUri := id_originUri dto; dn_title := id_title dto; dn_contentHash := hash;
     dn_charLen := String.length text; dn_chunkCount := chunks;
     dn_hasContent := negb (bool_decide (id_storeContent dto = Some false)); dn_vertical := id_vertical dto;
     dn_recorder := id_recorder dto; dn_occurredAt := id_occurredAt dto; dn_meta := meta; dn_status := "received";
     dn_userId := id_userId dto; dn_scope := scopeForUser am (id_userId dto) |}.

(** [chunksFail]: whether the INSERT of the chunks fails. *)
Definition createOrGet (env : StoreEnv) (am : Ambient) (chunksFail : bool) (dto : IngestDocumentDto) (internal : option Bag) :
    prog DocStore (result StoreError CreateDocumentResult) :=
  let issues := match id_meta dto with Some m => sm_dropped (sanitizeSourceMeta (VObj m)) | None => [] end in
  if (0 <? length issues) && en_metaStrict env then Done (Throw (InvalidMeta issues))
  else
    let meta := mergeDocumentMeta (id_meta dto) internal in
    let text := prepare (id_text dto) in
    let circles := actingCircleTags am in
    do* _ := match id_userId dto with Some u => joinCircles u circles | None => Done tt end in
    let hash := contentHashOf circles (id_userId dto) text in
    match chunkDocument (chunk_options env) text with
    | None => Done (Throw Endless)
    | Some chunks =>
        let row := new_row am dto meta hash text (length chunks) in
        do* created := update (create_doc row) in
        match created with
        | Some docId =>
            if dn_hasContent row && (0 <? length chunks) then
              if chunksFail then Done (Throw ChunksFailed)
              else
                do* _ := exec (insert_chunks docId chunks) in
                Done (Ok {| cr_doc := mapDoc (docId, row); cr_chunks := chunks; cr_deduplicated := false |})
            else Done (Ok {| cr_doc := mapDoc (docId, row); cr_chunks := chunks; cr_deduplicated := false |})
        | None =>
            do* found := query (find_hash hash) in
            match found with
            | None => Done (Throw UniqueViolation)
            | Some kv =>
                let existing := mapDoc kv in
                if negb (bool_decide (sd_userId existing = id_userId dto)) then Done (Throw ForeignScope)
                else
                  do* doc := adoptInternalMeta existing internal in
                  Done (Ok {| cr_doc := doc; cr_chunks := chunks; cr_deduplicated := true |})
            end
        end
    end.
End store.

(** ** Reading, and purging *)

Definition getById (docId : string) (s : DocStore) : option StoredDocument :=
  (λ r, mapDoc (doc_record docId, r)) <$> st_docs s !! doc_record docId.

(** [ORDER BY seq] *)
Definition chunk_before (a b : DocumentChunk) : Prop := ck_seq a ≤ ck_seq b.
#[export] Instance chunk_before_dec a b : Decision (chunk_before a b).
Proof. unfold chunk_before. apply _. Defined.

Definition getChunks (docId : string) (s : DocStore) : list DocumentChunk :=
  merge_sort chunk_before (default [] (st_chunks s !! doc_record docId)).

Definition before_id (a b : string * DocumentRow) : Prop := str_le a.1 b.1.
#[export] Instance before_id_dec a b : Decision (before_id a b).
Proof. unfold before_id. apply _. Defined.

Definition listReindexable (afterId : option string) (limit : nat) (s : DocStore) : list StoredDocument :=
  map mapDoc (take limit (merge_sort before_id (List.filter (λ kv : string * DocumentRow,
    dn_hasContent kv.2 && negb (bool_decide (dn_status kv.2 = "purged")) &&
    match truthy afterId with Some a => negb (bool_decide (str_le kv.1 (doc_record a))) | None => true end)
    (map_to_list (st_docs s))))).

Definition setStatus (docId status : string) : prog DocStore unit :=
  on_doc docId (λ r, row_status status (dn_hasContent r) r).

Definition CHUNK_PURGE_BATCH : nat := Z.to_nat 5000.

(** One batch: which rows the LIMIT gives is the datastore's choice; the first ones here. *)
Definition purge_batch (docId : string) (s : DocStore) : DocStore * nat :=
  let cs := default [] (st_chunks s !! doc_record docId) in
  let kept := drop CHUNK_PURGE_BATCH cs in
  (with_chunks (match kept with [] => delete (doc_record docId) (st_chunks s) | _ => <[doc_record docId := kept]> (st_chunks s) end) s,
   length (take CHUNK_PURGE_BATCH cs)).

(** The number purged; [None] when the fuel is out. *)
Fixpoint purgeDocumentChunks (fuel : nat) (docId : string) : prog DocStore (option nat) :=
  match fuel with
  | O => Done None
  | S fuel' =>
      do* n := update (purge_batch docId) in
      if n <? CHUNK_PURGE_BATCH then Done (Some n)
      else do* more := purgeDocumentChunks fuel' docId in Done ((λ m, n + m) <$> more)
  end.

(** [source.provenancePurged != true], [SET source.provenancePurged = true] *)
Definition purged_mark (f : Fact) : bool :=
  match OMap.get "provenancePurged" (so_rest (cl_source (f_claim f))) with Some (VBool true) => true | _ => false end.

Definition cited (docId : string) (f : Fact) : bool :=
  match OMap.get "documentId" (so_rest (cl_source (f_claim f))) with
  | Some (VStr d) => bool_decide (d = docId)
  | _ => false
  end.

Definition with_claim_source (so : Source) (c : Claim) : Claim :=
  {| cl_entityId := cl_entityId c; cl_predicate := cl_predicate c; cl_predicateAlias := cl_predicateAlias c;
     cl_object := cl_object c; cl_objectMeta := cl_objectMeta c; cl_confidence := cl_confidence c;
     cl_validFrom := cl_validFrom c; cl_source := so; cl_embedding := cl_embedding c; cl_userId := cl_userId c;
     cl_derivedVersion := cl_derivedVersion c; cl_recordedAt := cl_recordedAt c; cl_trust := cl_trust c |}.

Definition mark_purged (f : Fact) : Fact :=
  let so := cl_source (f_claim f) in
  {| f_claim := with_claim_source {| so_vertical := so_vertical so; so_recorder := so_recorder so;
                                     so_originKey := so_originKey so;
                                     so_rest := OMap.set "provenancePurged" (VBool true) (so_rest so) |} (f_claim f);
     f_status := f_status f; f_validUntil := f_validUntil f; f_scope := f_scope f; f_retractedAt := f_retractedAt f;
     f_closure := f_closure f; f_corroborates := f_corroborates f; f_corroboration := f_corroboration f;
     f_locale := f_locale f; f_entropy := f_entropy f; f_trace := f_trace f |}.

Definition unmarked (docId : string) (db : FactDb) : list (nat * Fact) :=
  select (λ f, cited docId f && negb (purged_mark f)) db.

(** The full id a fact cites. *)
Definition full_doc_id (docId : string) : string :=
  if has_char colon docId then docId else "source_document:" +:+ docId.

Definition markFactsProvenancePurged (docId : string) : prog DocStore nat :=
  let fullId := full_doc_id docId in
  do* n := query (λ s, length (unmarked fullId (st_facts s))) in
  do* _ := (if 0 <? n
            then exec (λ s, with_doc_facts (fold_left (λ db kv, update_fact kv.1 mark_purged db)
                                              (unmarked fullId (st_facts s)) (st_facts s)) s)
            else Done tt) in
  Done n.

(** [None] when the fuel of the batches is out. *)
Definition purgeContent (fuel : nat) (docId : string) : prog DocStore (option bool) :=
  do* existing := query (λ s, st_docs s !! doc_record docId) in
  match existing with
  | None => Done (Some false)
  | Some _ =>
      do* n := purgeDocumentChunks fuel docId in
      match n with
      | None => Done None
      | Some _ =>
          do* _ := on_doc docId (row_status "purged" false) in
          do* _ := markFactsProvenancePurged docId in
          Done (Some true)
      end
  end.

(** ** What a hash tells apart *)

Definition unit_free (s : string) : Prop := has_char UNIT s = false.

Lemma unit_free_append a b : unit_free (a +:+ b) ↔ unit_free a ∧ unit_free b.
Proof. unfold unit_free. rewrite has_char_append, orb_false_iff. tauto. Qed.

(** A circle's tag holds neither the separator nor the comma. *)
Definition plain_tag (t : string) : Prop := unit_free t ∧ has_char ","%char t = false ∧ t ≠ "".

Lemma plain_join circles : (∀ c, c ∈ circles → plain_tag c) → unit_free (join_with "," circles).
Proof.
  induction circles as [|c [|d cs] IH]; intros H; [done|apply (H c); left|].
  change (join_with "," (c :: d :: cs)) with (c +:+ "," +:+ join_with "," (d :: cs)). rewrite !unit_free_append.
  split_and!; [apply (H c); left|done|apply IH; intros e He; apply H; by right].
Qed.

(** What a post says and where. *)
Record Said := { sy_circles : list string; sy_userId : option string; sy_text : string }.

Definition preimage_of (y : Said) : string := content_preimage (sy_circles y) (sy_userId y) (sy_text y).

(** The circles are tags, the text holds no separator, no user has the empty name. *)
Definition plain_said (y : Said) : Prop :=
  (∀ c, c ∈ sy_circles y → plain_tag c) ∧ sy_userId y ≠ Some "" ∧ unit_free (sy_text y).

(** A circle's preimage is no other: it starts with a letter and holds the separator. *)
Lemma circle_preimage_apart cs u t u' t' :
  unit_free t' → circle_preimage cs u t ≠ match u' with None => t' | Some v => user_preimage v t' end.
Proof.
  intros Ht E. destruct u' as [v|]; [discriminate E|].
  assert (H : has_char UNIT t' = true); [|unfold unit_free in Ht; congruence].
  rewrite <- E. unfold circle_preimage. by rewrite has_char_append.
Qed.

(** For one user the preimage tells the circles and the text. *)
Lemma preimage_inj y z :
  plain_said y → plain_said z → sy_userId y = sy_userId z → preimage_of y = preimage_of z → y = z.
Proof.
  intros (Cy & _ & Ty) (Cz & _ & Tz) Hu E. destruct y as [cy uy ty], z as [cz uz tz].
  unfold preimage_of, content_preimage in E. cbn [sy_circles sy_userId sy_text] in *. subst uz.
  destruct (0 <? length cy) eqn:Ey, (0 <? length cz) eqn:Ez.
  - unfold circle_preimage in E. apply (str_append_inj_l "circle") in E. injection E as E.
    apply str_sep_inj in E as [Ec E]; [|by apply plain_join|by apply plain_join].
    apply str_append_inj_l in E. injection E as E. change (ty = tz) in E. subst tz. f_equal.
    eapply (join_with_inj ","%char); [| |exact Ec]; intros x Hx; split; [by apply Cy|by apply Cy|by apply Cz|by apply Cz].
  - by destruct (circle_preimage_apart cy uy ty uy tz Tz).
  - by destruct (circle_preimage_apart cz uy tz uy ty Ty).
  - apply Nat.ltb_ge in Ey, Ez. destruct cy, cz; cbn in *; try lia. f_equal. destruct uy as [u|]; [|done].
    unfold user_preimage in E. by do 5 apply str_append_inj_l in E.
Qed.

(** ** One row per hash *)

Definition docs_ok (s : DocStore) : Prop :=
  ∀ i j r1 r2, st_docs s !! i = Some r1 → st_docs s !! j = Some r2 → dn_contentHash r1 = dn_contentHash r2 → i = j.

Definition key_at (id : string) (s : DocStore) : option (string * option string) :=
  (λ r, (dn_contentHash r, truthy (dn_userId r))) <$> st_docs s !! id.

(** Rows keep their hash and their user, and stay one per hash. *)
Definition store_le (s s' : DocStore) : Prop :=
  (∀ id h, key_at id s = Some h → key_at id s' = Some h) ∧ (docs_ok s → docs_ok s').

Lemma store_le_same s s' : st_docs s' = st_docs s → store_le s s'.
Proof. intros E. unfold store_le, key_at, docs_ok. rewrite E. done. Qed.

Lemma store_le_alter (g : DocumentRow → DocumentRow) id s :
  (∀ r, dn_contentHash (g r) = dn_contentHash r ∧ dn_userId (g r) = dn_userId r) → store_le s (with_docs (alter g id (st_docs s)) s).
Proof.
  intros Hg. assert (Hrow : ∀ i r, alter g id (st_docs s) !! i = Some r →
    ∃ r0, st_docs s !! i = Some r0 ∧ dn_contentHash r = dn_contentHash r0).
  { intros i r. rewrite lookup_alter_Some. intros [(-> & r0 & H & ->)|[_ H]]; [|eauto]. exists r0. by destruct (Hg r0). }
  split.
  - intros i h. unfold key_at. cbn. destruct (decide (i = id)) as [->|]; [|by rewrite lookup_alter_ne].
    rewrite lookup_alter_eq. destruct (st_docs s !! id) as [r|]; [|done]. cbn. by destruct (Hg r) as [-> ->].
  - intros Hok i j r1 r2 H1 H2. apply Hrow in H1 as (x & H1 & ->). apply Hrow in H2 as (y & H2 & ->). by eapply Hok.
Qed.

Lemma new_doc_fresh s : st_docs s !! new_doc_id s = None.
Proof.
  apply not_elem_of_dom. unfold new_doc_id. intros H.
  apply (is_fresh (set_map idTailOf (dom (st_docs s)) : gset string)). apply elem_of_map.
  eexists. split; [|exact H]. done.
Qed.

Lemma find_hash_Some h s id r : find_hash h s = Some (id, r) → st_docs s !! id = Some r ∧ dn_contentHash r = h.
Proof.
  unfold find_hash. intros (H1 & H2)%find_first_Some. apply elem_of_map_to_list in H1. split; [done|].
  by apply bool_decide_eq_true in H2.
Qed.

Lemma find_hash_None h s id r : find_hash h s = None → st_docs s !! id = Some r → dn_contentHash r ≠ h.
Proof.
  unfold find_hash. rewrite find_first_None, existsb_false_In. intros H Hr E.
  specialize (H (id, r) (proj2 (elem_of_map_to_list _ _ _) Hr)). cbn in H. by apply bool_decide_eq_false in H.
Qed.

Lemma create_doc_le r s : store_le s (create_doc r s).1.
Proof.
  unfold create_doc. destruct (find_hash (dn_contentHash r) s) as [kv|] eqn:E; [done|]. cbn. split.
  - intros id h. unfold key_at. cbn. destruct (decide (id = new_doc_id s)) as [->|]; [by rewrite new_doc_fresh|].
    by rewrite lookup_insert_ne.
  - intros Hok i j r1 r2. cbn. rewrite !lookup_insert_Some.
    intros [[<- <-]|[Hi H1]] [[<- <-]|[Hj H2]] Eh; [done| | |by eapply Hok].
    + by destruct (find_hash_None _ _ _ _ E H2).
    + by destruct (find_hash_None _ _ _ _ E H1).
Qed.

Lemma always_joinCircles u cs : always store_le (joinCircles u cs).
Proof.
  induction cs as [|c cs IH]; [done|]. apply always_bind; [|by intros _].
  apply always_exec. intros s. unfold join_circle. case_bool_decide; [done|by apply store_le_same].
Qed.

Lemma always_on_doc id g : (∀ r, dn_contentHash (g r) = dn_contentHash r ∧ dn_userId (g r) = dn_userId r) → always store_le (on_doc id g).
Proof. intros Hg. apply always_exec. intros s. by apply store_le_alter. Qed.

Lemma always_adopt_hop d internal : always store_le (adoptInternalMeta d internal).
Proof.
  unfold adoptInternalMeta. destruct internal as [bag|]; [|done]. cbn zeta. destruct (hop_patch _ _); [done|].
  apply always_bind; [by apply always_on_doc|done].
Qed.

Lemma stable_hash id h : stable store_le (λ s, key_at id s = Some h).
Proof. intros s s' H [Hh _]. by apply Hh. Qed.

Lemma truthy_truthy (u : option string) : truthy (truthy u) = truthy u.
Proof. by destruct u as [[|]|]. Qed.

Lemma plain_user u v : u ≠ Some "" → v ≠ Some "" → truthy u = truthy v → u = v.
Proof. by destruct u as [[|]|], v as [[|]|]. Qed.

Lemma adopt_keeps_id d internal s : sd_id (run (adoptInternalMeta d internal) s).2 = sd_id d.
Proof.
  unfold adoptInternalMeta. destruct internal as [bag|]; [|done]. cbn zeta. by destruct (hop_patch _ _).
Qed.

Section posts.
Context (sha256 prepare : string → string).

Record Post := { po_env : StoreEnv; po_am : Ambient; po_chunksFail : bool; po_dto : IngestDocumentDto; po_internal : option Bag }.

Definition said (p : Post) : Said :=
  {| sy_circles := actingCircleTags (po_am p); sy_userId := id_userId (po_dto p); sy_text := prepare (id_text (po_dto p)) |}.

Definition post_prog (p : Post) : prog DocStore (result StoreError CreateDocumentResult) :=
  createOrGet sha256 prepare (po_env p) (po_am p) (po_chunksFail p) (po_dto p) (po_internal p).

(** The document a post got has the post's hash and user. *)
Definition filed_right (p : Post) (a : result StoreError CreateDocumentResult) (s : DocStore) : Prop :=
  match a with
  | Ok r => key_at (sd_id (cr_doc r)) s = Some (sha256 (preimage_of (said p)), truthy (sy_userId (said p)))
  | Throw _ => True
  end.

Lemma stable_filed p a : stable store_le (filed_right p a).
Proof. destruct a; [apply stable_hash|done]. Qed.

Lemma adopt_ensures d internal h :
  ensures store_le (λ s, key_at (sd_id d) s = Some h) (adoptInternalMeta d internal)
    (λ d' s, sd_id d' = sd_id d ∧ key_at (sd_id d) s = Some h).
Proof.
  unfold adoptInternalMeta. destruct internal as [bag|]; [|by intros s Hs]. cbn zeta. destruct (hop_patch _ _); [by intros s Hs|].
  apply ensures_bind with (Q1 := λ _ s, key_at (sd_id d) s = Some h); [intros _; apply stable_hash| |by intros _ s Hs].
  apply always_ensures; [apply stable_hash|by apply always_on_doc].
Qed.

Lemma post_ensures p : ensures store_le (λ _, True) (post_prog p) (filed_right p).
Proof.
  unfold post_prog, createOrGet. destruct ((_ <? _) && _); [done|].
  apply ensures_bind with (Q1 := λ _ _, True); [done| |intros _].
  { destruct (id_userId (po_dto p)); [apply always_ensures_any, always_joinCircles|done]. }
  destruct (chunkDocument _ _) as [chunks|]; [|done]. cbn zeta. set (row := new_row _ _ _ _ _ _).
  apply ensures_bind with (Q1 := λ o s, ∀ id, o = Some id → key_at id s = Some (dn_contentHash row, truthy (dn_userId row))).
  - intros o s s' H Hle id E. eapply stable_hash; [by apply H|done].
  - apply ensures_update.
    + intros o s s' H Hle id E. eapply stable_hash; [by apply H|done].
    + intros s _. split; [apply create_doc_le|]. unfold create_doc. destruct (find_hash (dn_contentHash row) s); [done|].
      cbn. intros id [= <-]. unfold key_at. cbn. by rewrite lookup_insert_eq.
  - intros [docId|].
    + destruct (_ && _); [|intros s H; by apply H]. destruct (po_chunksFail p); [done|].
      apply ensures_bind with (Q1 := λ _ s, key_at docId s = Some (dn_contentHash row, truthy (dn_userId row))); [intros _; apply stable_hash| |by intros _ s H].
      eapply ensures_weaken; [|apply always_ensures; [apply (stable_hash docId)|apply always_exec; intros s; by apply store_le_same]].
      intros s H. by apply H.
    + apply ensures_bind with (Q1 := λ kv s, ∀ x, kv = Some x → key_at x.1 s = Some (dn_contentHash row, truthy (dn_userId x.2))).
      * intros o s s' H Hle x E. eapply stable_hash; [by apply H|done].
      * apply ensures_query_refl; [done|intros o s s' H Hle x E; eapply stable_hash; [by apply H|done]|].
        intros s _ [id r] E. apply find_hash_Some in E as [E1 E2]. unfold key_at. cbn. rewrite E1. cbn. by rewrite E2.
      * intros [kv|]; [|done]. destruct (negb _) eqn:Eu; [done|]. apply negb_false_iff, bool_decide_eq_true in Eu.
        assert (Ek : truthy (dn_userId kv.2) = truthy (dn_userId row)) by (cbn in Eu |- *; by rewrite <- Eu, truthy_truthy).
        apply ensures_bind with (Q1 := λ d' s, sd_id d' = kv.1 ∧ key_at kv.1 s = Some (dn_contentHash row, truthy (dn_userId row))).
        -- intros d s s' [H1 H2] Hle. split; [done|]. by eapply stable_hash.
        -- eapply ensures_weaken; [|apply (adopt_ensures (mapDoc kv))]. intros s H. rewrite <- Ek. by apply H.
        -- intros d s [H1 H2]. cbn. by rewrite H1.
Qed.

Lemma posts_end_filed sched ps s i p a :
  ps !! i = Some p → (run_pool sched (s, map post_prog ps)).2 !! i = Some (Done a) →
  filed_right p a (run_pool sched (s, map post_prog ps)).1.
Proof.
  intros Hi Ha. eapply (pool_ends_assured store_le sched (s, _) (map filed_right ps)); [|exact Ha|].
  - cbn [fst snd]. rewrite Forall2_fmap. apply Forall2_same_length_lookup_2; [done|]. intros n p1 p2 H1 H2.
    assert (p2 = p1) as -> by congruence. exists (λ _, True). split_and!; [done|done|apply post_ensures].
  - by rewrite list_lookup_fmap, Hi.
Qed.

Lemma posts_keep_ok sched ps s : docs_ok s → docs_ok (run_pool sched (s, map post_prog ps)).1.
Proof.
  intros Hok. apply (run_pool_preserves docs_ok); [done|]. apply Forall_forall. intros q Hq.
  cbn [snd] in Hq. apply list_elem_of_fmap in Hq as (p & -> & _).
  apply (always_preserves store_le); [by intros s1 s2 H [_ Hle]; apply Hle|].
  unfold post_prog, createOrGet. destruct ((_ <? _) && _); [done|]. apply always_bind; [|intros _].
  { destruct (id_userId (po_dto p)); [apply always_joinCircles|done]. }
  destruct (chunkDocument _ _) as [chunks|]; [|done]. apply always_bind; [apply always_update; intros s1; apply create_doc_le|].
  intros [docId|].
  - destruct (_ && _); [|done]. destruct (po_chunksFail p); [done|].
    apply always_bind; [apply always_exec; intros s1; by apply store_le_same|done].
  - apply always_bind; [by apply always_query|]. intros [kv|]; [|done]. destruct (negb _); [done|].
    apply always_bind; [apply always_adopt_hop|done].
Qed.
End posts.

(** C20. A document is stored once per text and scope: of any posts whose statements
    interleave in any way, two that succeed are given one document exactly when they say the
    same text in the same circles for the same user. The text is the stored one, sanitized,
    redacted and trimmed. Conditions on the two posts: no text holds the unit separator
    (which sanitizing strips unless it is switched off), no user has the empty name, the
    acting circles are tags (not empty, no comma, no separator), and sha256 does not send
    the two preimages, when they differ, to one hash. The table starts with one row per
    hash, as its unique index demands. *)
Theorem posts_share_text_and_scope sha256 prepare sched ps s i j p q r r' :
  docs_ok s →
  ps !! i = Some p → ps !! j = Some q → plain_said (said prepare p) → plain_said (said prepare q) →
  (preimage_of (said prepare p) ≠ preimage_of (said prepare q) →
   sha256 (preimage_of (said prepare p)) ≠ sha256 (preimage_of (said prepare q))) →
  let o := run_pool sched (s, map (post_prog sha256 prepare) ps) in
  o.2 !! i = Some (Done (Ok r)) → o.2 !! j = Some (Done (Ok r')) →
  sd_id (cr_doc r) = sd_id (cr_doc r') ↔ said prepare p = said prepare q.
Proof.
  intros Hok Hi Hj Hp Hq Hsha o Hr Hr'. pose proof (posts_end_filed _ _ _ _ _ _ _ _ Hi Hr) as H1.
  pose proof (posts_end_filed _ _ _ _ _ _ _ _ Hj Hr') as H2. cbn [filed_right] in H1, H2. fold o in H1, H2.
  pose proof (posts_keep_ok sha256 prepare sched ps s Hok) as Hok'. fold o in Hok'. split.
  - intros E. rewrite E, H2 in H1. injection H1 as H1 Hu. symmetry in H1, Hu.
    destruct (decide (preimage_of (said prepare p) = preimage_of (said prepare q))) as [Ep|Ep]; [|by destruct (Hsha Ep)].
    apply preimage_inj; [done|done| |done]. apply plain_user; [apply Hp|apply Hq|done].
  - intros E. rewrite E, <- H2 in H1. unfold key_at in H1, H2.
    destruct (st_docs o.1 !! sd_id (cr_doc r)) as [x|] eqn:Ex; [|by rewrite <- H1 in H2].
    destruct (st_docs o.1 !! sd_id (cr_doc r')) as [y|] eqn:Ey; [|done]. cbn in H1. injection H1 as H1 _. by eapply Hok'.
Qed.

(** ** Purging *)

Lemma length_default_le {A} (l : list A) n : length l < S n * CHUNK_PURGE_BATCH → length (drop CHUNK_PURGE_BATCH l) ≤ n * CHUNK_PURGE_BATCH.
Proof. rewrite length_drop. lia. Qed.

Lemma purge_batch_last docId s :
  length (default [] (st_chunks s !! doc_record docId)) < CHUNK_PURGE_BATCH →
  purge_batch docId s = (with_chunks (delete (doc_record docId) (st_chunks s)) s,
                         length (default [] (st_chunks s !! doc_record docId))).
Proof. intros H. unfold purge_batch. rewrite drop_ge by lia. by rewrite take_ge by lia. Qed.

Lemma run_purge fuel docId s :
  length (default [] (st_chunks s !! doc_record docId)) < fuel * CHUNK_PURGE_BATCH →
  run (purgeDocumentChunks fuel docId) s =
    (with_chunks (delete (doc_record docId) (st_chunks s)) s, Some (length (default [] (st_chunks s !! doc_record docId)))).
Proof.
  assert (HB : 0 < CHUNK_PURGE_BATCH) by (unfold CHUNK_PURGE_BATCH; lia).
  revert s. induction fuel as [|fuel IH]; intros s Hf; [lia|]. cbn [purgeDocumentChunks]. rewrite run_bind, run_update.
  set (cs := default [] (st_chunks s !! doc_record docId)) in *.
  destruct (decide (length cs < CHUNK_PURGE_BATCH)) as [Hl|Hl].
  { rewrite purge_batch_last by done. cbn [fst snd]. fold cs. by rewrite (proj2 (Nat.ltb_lt _ _) Hl). }
  assert (E : (purge_batch docId s).2 = CHUNK_PURGE_BATCH) by (unfold purge_batch; cbn [snd]; rewrite length_take; fold cs; lia).
  rewrite E, Nat.ltb_irrefl, run_bind.
  assert (Hc : default [] (st_chunks (purge_batch docId s).1 !! doc_record docId) = drop CHUNK_PURGE_BATCH cs).
  { unfold purge_batch. fold cs. cbn [fst st_chunks with_chunks]. destruct (drop CHUNK_PURGE_BATCH cs) eqn:Ed.
    - by rewrite lookup_delete_eq.
    - by rewrite lookup_insert_eq. }
  assert (Hd : delete (doc_record docId) (st_chunks (purge_batch docId s).1) = delete (doc_record docId) (st_chunks s)).
  { unfold purge_batch. fold cs. cbn [fst st_chunks with_chunks]. destruct (drop CHUNK_PURGE_BATCH cs).
    - by rewrite delete_delete_eq.
    - by rewrite delete_insert_eq. }
  rewrite IH; rewrite Hc, length_drop; [|fold cs in Hf; lia]. cbn [fst snd run fmap option_fmap option_map]. rewrite Hd.
  f_equal. f_equal. lia.
Qed.

Lemma alter_present (g : DocumentRow → DocumentRow) id r (m : gmap string DocumentRow) : m !! id = Some r → alter g id m = <[id := g r]> m.
Proof.
  intros H. apply map_eq. intros i. destruct (decide (i = id)) as [->|].
  - by rewrite lookup_alter_eq, lookup_insert_eq, H.
  - by rewrite lookup_alter_ne, lookup_insert_ne.
Qed.

Lemma run_markPurged docId s :
  ∃ db, run (markFactsProvenancePurged docId) s = (with_doc_facts db s, length (unmarked (full_doc_id docId) (st_facts s))).
Proof.
  unfold markFactsProvenancePurged. cbn zeta. rewrite run_bind, run_query. cbn [fst snd]. rewrite run_bind.
  destruct (0 <? _); [by eexists|]. exists (st_facts s). by destruct s.
Qed.

(** Erasing a document's text leaves its header and its hash, and no chunk. *)
Lemma purge_erases_the_text fuel docId s r :
  st_docs s !! doc_record docId = Some r →
  length (default [] (st_chunks s !! doc_record docId)) < fuel * CHUNK_PURGE_BATCH →
  ∃ s', run (purgeContent fuel docId) s = (s', Some true) ∧ getChunks docId s' = [] ∧
    st_docs s' = <[doc_record docId := row_status "purged" false r]> (st_docs s) ∧
    ∀ d, d ≠ doc_record docId → st_chunks s' !! d = st_chunks s !! d.
Proof.
  intros Hr Hf. unfold purgeContent. rewrite run_bind, run_query. cbn [fst snd]. rewrite Hr, run_bind, run_purge by done.
  cbn [fst snd]. rewrite run_bind. unfold on_doc at 1. rewrite run_exec. cbn [fst snd]. rewrite run_bind.
  match goal with |- context [run (markFactsProvenancePurged docId) ?x] => destruct (run_markPurged docId x) as [db E] end.
  rewrite E. cbn [fst snd run]. eexists. split; [done|].
  unfold getChunks, with_doc_facts, with_docs, with_chunks. cbn [st_docs st_chunks]. rewrite lookup_delete_eq. split; [done|].
  split; [by apply alter_present|]. intros d Hd. by rewrite lookup_delete_ne.
Qed.

(** ** Examples *)

Definition no_facts : FactDb := {| fd_rows := ∅; fd_trust := []; fd_registry := []; fd_letters := []; fd_now := 0 |}.
Definition no_docs : DocStore := {| st_docs := ∅; st_chunks := ∅; st_facts := no_facts; st_members := [] |}.

Definition in_circle (c : option string) (team : option (list string)) : Ambient :=
  {| am_authUserId := None; am_actingCircle := c; am_scopeTags := []; am_jobCircle := None; am_writeScope := team;
     am_scopeTagsEnabled := true |}.

Definition post (am : Ambient) (user : option string) (text : string) (fails : bool) : Post :=
  {| po_env := {| en_metaStrict := true; en_chunkTarget := None |}; po_am := am; po_chunksFail := fails;
     po_dto := {| id_kind := "chat"; id_originUri := None; id_title := None; id_text := text; id_vertical := "web";
                  id_recorder := None; id_occurredAt := 1000; id_meta := None; id_userId := user; id_storeContent := None |};
     po_internal := None |}.

(** The hash keeps texts apart; no text is changed. *)
Abbreviation posted ps := (run_pool [0; 0; 0; 0; 1; 1; 1; 1] (no_docs, map (post_prog (λ x, x) (λ x, x)) ps)).

Example posts_share_text_and_scope_witness :
  ∃ r r', (posted [post (in_circle None None) (Some "ana") "Hello." false; post (in_circle None None) (Some "ana") "Hello." false]).2 =
            [Done (Ok r); Done (Ok r')] ∧ sd_id (cr_doc r) = sd_id (cr_doc r').
Proof.
  eexists _, _. split; [vm_compute; reflexivity|].
  refine (proj2 (posts_share_text_and_scope (λ x, x) (λ x, x) [0; 0; 0; 0; 1; 1; 1; 1]
    [post (in_circle None None) (Some "ana") "Hello." false; post (in_circle None None) (Some "ana") "Hello." false]
    no_docs 0 1 _ _ _ _ _ eq_refl eq_refl _ _ _ _ _) eq_refl).
  - intros i j r1 r2 H. unfold no_docs in H. cbn [st_docs] in H. by rewrite lookup_empty in H.
  - split_and!; [by intros c ?%elem_of_nil|done|done].
  - split_and!; [by intros c ?%elem_of_nil|done|done].
  - done.
  - vm_compute. reflexivity.
  - vm_compute. reflexivity.
Defined.

(** The hash knows circles and users, not teams: a text read under one team's scope is given
    to whoever posts the same words outside it. *)
Lemma team_text_is_deduplicated :
  ∃ r r', (posted [post (in_circle None (Some ["team:repo:1"])) None "The key rotates weekly." false;
                   post (in_circle None None) None "The key rotates weekly." false]).2 = [Done (Ok r); Done (Ok r')] ∧
    cr_deduplicated r' = true ∧ sd_id (cr_doc r') = sd_id (cr_doc r) ∧ sd_teams (cr_doc r') = Some ["team:repo:1"].
Proof. eexists _, _. split; [vm_compute; reflexivity|]. done. Qed.

(** The rows of the chunks are a statement of their own: when it fails the header stays, and
    a re-post is answered from it without storing them. *)
Lemma lost_chunks_stay_lost :
  let o := posted [post (in_circle None None) None "Hello." true; post (in_circle None None) None "Hello." false] in
  ∃ r, o.2 = [Done (Throw ChunksFailed); Done (Ok r)] ∧ sd_hasContent (cr_doc r) = true ∧
       cr_deduplicated r = true ∧ getChunks (sd_id (cr_doc r)) o.1 = [].
Proof. eexists _. split; [vm_compute; reflexivity|]. split_and!; reflexivity. Qed.

(** Where sanitizing is off (the default strips the separator), a text that spells a circle's preimage is answered with the circle's document: only the
    users are compared. *)
Lemma crafted_text_meets_a_circle :
  ∃ r r', (posted [post (in_circle (Some "board") None) None "We sell." false;
                   post (in_circle None None) None (circle_preimage ["circle:board"] None "We sell.") false]).2 =
            [Done (Ok r); Done (Ok r')] ∧
    sd_id (cr_doc r') = sd_id (cr_doc r) ∧ sd_circles (cr_doc r') = Some ["circle:board"].
Proof. eexists _, _. split; [vm_compute; reflexivity|]. done. Qed.
