(* ===== verification/EpisodeStore.v ===== *)
(** * The raw turns

    [ingest/episode-store.service.ts]: a dialogue turn is stored verbatim (after redaction)
    before anything is extracted from it, once per message; [common/scene-dirty.ts]: the
    marks that tell the nightly scene pass which conversations moved. Sanitizing, redaction
    and the language of a text are arguments; tracing is left out. *)

From S2P Require Import Prelude Js Resume ScopeTags Names.
From stdpp Require Import gmap sorting.
Local Open Scope string_scope.
Local Open Scope nat_scope.

(** ** Rows *)

Record TurnSource := {
  ts_vertical : string;
  ts_eventId : option string;
  ts_messageId : option string;
  ts_recorder : option string
}.

Record EpisodeRow := {
  ep_conversationId : option string;
  ep_messageId : string;
  ep_speaker : option string;
  ep_addressee : option string;
  ep_text : string;
  ep_piiClass : option (list string);
  ep_occurredAt : Z;
  ep_userId : option string;
  ep_scope : list string;
  ep_lang : option string;
  ep_source : TurnSource
}.

Record MentionContextRef := {
  mx_vertical : string;
  mx_conversationId : option string;
  mx_messageId : option string;
  mx_eventId : option string;
  mx_recorder : option string
}.

Record IngestMentionDto := {
  md_text : string;
  md_contextRef : MentionContextRef;
  md_knownEntities : list KnownEntity;
  md_userId : option string;
  md_emittedAt : Z
}.

(** A mark: first set, last bumped. *)
Record DirtyMark := { dk_createdAt : Z; dk_markedAt : Z }.

Record TurnStore := {
  tn_rows : gmap string EpisodeRow;
  tn_dirty : gmap string DirtyMark;
  tn_now : Z
}.

Definition with_turns (m : gmap string EpisodeRow) (s : TurnStore) : TurnStore :=
  {| tn_rows := m; tn_dirty := tn_dirty s; tn_now := tn_now s |}.
Definition with_dirty (m : gmap string DirtyMark) (s : TurnStore) : TurnStore :=
  {| tn_rows := tn_rows s; tn_dirty := m; tn_now := tn_now s |}.

(** ** The statements *)

Abbreviation TurnKey := (option string * string)%type.

(** The fields of the unique index [episode_msg_uq]. *)
Definition turn_key (r : EpisodeRow) : TurnKey := (ep_conversationId r, ep_messageId r).

Definition find_turn (k : TurnKey) (s : TurnStore) : option (string * EpisodeRow) :=
  find_first (λ kv, bool_decide (turn_key kv.2 = k)) (map_to_list (tn_rows s)).

(** [INSERT IGNORE INTO episode]: the id of a row it wrote. *)
Definition insert_turn (r : EpisodeRow) (s : TurnStore) : TurnStore * option string :=
  match find_turn (turn_key r) s with
  | Some _ => (s, None)
  | None => let id := fresh (dom (tn_rows s)) in (with_turns (<[id := r]> (tn_rows s)) s, Some id)
  end.

(** [UPSERT scene_dirty_conversation:[$conv] SET markedAt = time::now()] *)
Definition markConversationDirty (conv : string) (s : TurnStore) : TurnStore :=
  let created := match tn_dirty s !! conv with Some d => dk_createdAt d | None => tn_now s end in
  with_dirty (<[conv := {| dk_createdAt := created; dk_markedAt := tn_now s |}]> (tn_dirty s)) s.

Definition marked_before (a b : string * DirtyMark) : Prop := (dk_markedAt a.2 <= dk_markedAt b.2)%Z.
#[export] Instance marked_before_dec a b : Decision (marked_before a b).
Proof. unfold marked_before. apply _. Defined.

(** The page of the nightly pass: the oldest marks, those that have settled. *)
Definition selectDirtyConversations (limit : nat) (settledBefore : option Z) (s : TurnStore) : list (string * DirtyMark) :=
  take limit (merge_sort marked_before (List.filter (λ kv : string * DirtyMark,
    match settledBefore with Some b => (dk_markedAt kv.2 <=? b)%Z | None => true end) (map_to_list (tn_dirty s)))).

(** [SELECT VALUE id ... WHERE id INSIDE $ids AND markedAt <= $readAt] *)
Definition stale_marks (ids : list string) (readAt : Z) (s : TurnStore) : list string :=
  List.filter (λ id, match tn_dirty s !! id with Some d => (dk_markedAt d <=? readAt)%Z | None => false end) ids.

Definition clearDirtyConversations (ids : list string) (readAt : Z) : prog TurnStore nat :=
  if length ids =? 0 then Done 0
  else
    do* doomed := query (stale_marks ids readAt) in
    if length doomed =? 0 then Done 0
    else
      do* _ := exec (λ s, with_dirty (fold_left (λ m id, delete id m) doomed (tn_dirty s)) s) in
      Done (length doomed).

(** ** Capturing a turn *)

(** EPISODE_SUBSTRATE_ENABLED, and both scene flags. *)
Record TurnFlags := { tf_enabled : bool; tf_markScenes : bool }.

Section capture.
Variable sha256 : string → string.
(** Sanitizing; redaction with the classes it found; the language detected; [toISOString]. *)
Variable sanitize : string → string.
Variable redact : string → string * list string.
Variable language : string → string.
Variable iso : Z → string.

Definition nameOf (k : option KnownEntity) : option string :=
  (λ k, default (ke_vertical k +:+ ":" +:+ ke_id k) (ke_name k)) <$> k.

Definition messageIdFor (dto : IngestMentionDto) : string :=
  match truthy (mx_messageId (md_contextRef dto)), truthy (mx_eventId (md_contextRef dto)) with
  | Some m, _ => m
  | None, Some e => e
  | None, None => str_take 24 (sha256 (iso (md_emittedAt dto) +:+ md_text dto))
  end.

Definition turn_row (am : Ambient) (dto : IngestMentionDto) : EpisodeRow :=
  let rawText := sanitize (md_text dto) in
  let '(text, classes) := redact rawText in
  let cx := md_contextRef dto in
  {| ep_conversationId := mx_conversationId cx; ep_messageId := messageIdFor dto;
     ep_speaker := nameOf (find_first (of_role "speaker") (md_knownEntities dto));
     ep_addressee := nameOf (find_first (of_role "addressee") (md_knownEntities dto));
     ep_text := text; ep_piiClass := match classes with [] => None | _ => Some classes end;
     ep_occurredAt := md_emittedAt dto; ep_userId := md_userId dto; ep_scope := scopeForUser am (md_userId dto);
     ep_lang := if bool_decide (language rawText = "und") then None else Some (language rawText);
     ep_source := {| ts_vertical := mx_vertical cx; ts_eventId := truthy (mx_eventId cx);
                     ts_messageId := truthy (mx_messageId cx); ts_recorder := truthy (mx_recorder cx) |} |}.

Definition markSceneDirty (fl : TurnFlags) (conversationId : option string) : prog TurnStore unit :=
  match conversationId with
  | Some c => if tf_markScenes fl then exec (markConversationDirty c) else Done tt
  | None => Done tt
  end.

(** [outage]: whether the insert fails; the call then answers null. *)
Definition captureTurn (fl : TurnFlags) (am : Ambient) (outage : bool) (dto : IngestMentionDto) :
    prog TurnStore (option string) :=
  if negb (tf_enabled fl) || outage then Done None
  else
    let row := turn_row am dto in
    do* created := update (insert_turn row) in
    do* _ := markSceneDirty fl (ep_conversationId row) in
    match created with
    | Some id => Done (Some id)
    | None => do* found := query (find_turn (turn_key row)) in Done (fst <$> found)
    end.
End capture.

(** ** Once per message *)

(** No two rows share the fields of the index. *)
Definition turns_unique (s : TurnStore) : Prop :=
  ∀ i j r q, tn_rows s !! i = Some r → tn_rows s !! j = Some q → turn_key r = turn_key q → i = j.

(** Stored turns stay as they are, and the index is kept. *)
Definition turns_grow (s s' : TurnStore) : Prop :=
  (∀ i r, tn_rows s !! i = Some r → tn_rows s' !! i = Some r) ∧ (turns_unique s → turns_unique s').

Lemma turns_grow_refl s : turns_grow s s.
Proof. done. Qed.

Lemma find_turn_Some k s id r : find_turn k s = Some (id, r) → tn_rows s !! id = Some r ∧ turn_key r = k.
Proof.
  unfold find_turn. intros H. apply find_first_Some in H as [H1 H2]. apply elem_of_map_to_list in H1.
  by apply bool_decide_eq_true in H2.
Qed.

Lemma find_turn_None k s id r : find_turn k s = None → tn_rows s !! id = Some r → turn_key r ≠ k.
Proof.
  unfold find_turn. intros H Hr E. apply find_first_None in H. rewrite existsb_false_In in H.
  apply elem_of_map_to_list in Hr. specialize (H _ Hr). by apply bool_decide_eq_false in H.
Qed.

Lemma insert_turn_spec r s :
  turns_grow s (insert_turn r s).1 ∧
  match (insert_turn r s).2 with
  | Some id => tn_rows (insert_turn r s).1 !! id = Some r
  | None => ∃ id q, tn_rows s !! id = Some q ∧ turn_key q = turn_key r
  end.
Proof.
  unfold insert_turn. destruct (find_turn (turn_key r) s) as [[id q]|] eqn:E; cbn [fst snd tn_rows with_turns].
  - split; [done|]. exists id, q. by apply find_turn_Some.
  - set (id := fresh (dom (tn_rows s))).
    assert (Hf : tn_rows s !! id = None) by (apply not_elem_of_dom, is_fresh).
    split; [split|by rewrite lookup_insert_eq].
    + intros i q Hi. cbn [tn_rows with_turns]. rewrite lookup_insert_ne; [done|congruence].
    + intros Hu i j q1 q2. cbn [tn_rows with_turns]. rewrite !lookup_insert_Some.
      intros [[<- <-]|[Hi H1]] [[<- <-]|[Hj H2]] Hk; [done| | |by eapply Hu].
      * by destruct (find_turn_None _ _ _ _ E H2).
      * by destruct (find_turn_None _ _ _ _ E H1).
Qed.

(** A row with this key is there. *)
Definition holds_turn (k : TurnKey) (s : TurnStore) : Prop := ∃ id r, tn_rows s !! id = Some r ∧ turn_key r = k.

Lemma stable_row id k : stable turns_grow (λ s, ∃ r, tn_rows s !! id = Some r ∧ turn_key r = k).
Proof. intros s s' (r & Hr & Hk) [Hg _]. exists r. auto. Qed.

Lemma stable_holds_turn k : stable turns_grow (holds_turn k).
Proof. intros s s' (id & r & Hr & Hk) [Hg _]. exists id, r. auto. Qed.

Section once.
Context (sha256 : string → string) (sanitize : string → string) (redact : string → string * list string)
        (language : string → string) (iso : Z → string).

Definition key_of (dto : IngestMentionDto) : TurnKey :=
  (mx_conversationId (md_contextRef dto), messageIdFor sha256 iso dto).

Lemma turn_row_key am dto : turn_key (turn_row sha256 sanitize redact language iso am dto) = key_of dto.
Proof. unfold turn_row. by destruct (redact _). Qed.

(** What a capture answers is the id of a row of its message. *)
Definition stored_turn (dto : IngestMentionDto) (a : option string) (s : TurnStore) : Prop :=
  ∀ id, a = Some id → ∃ r, tn_rows s !! id = Some r ∧ turn_key r = key_of dto.

Lemma always_markScene fl conv : always turns_grow (markSceneDirty fl conv).
Proof. unfold markSceneDirty. repeat case_match; first [apply always_exec; intros t; by split|done]. Qed.

Lemma capture_ensures fl am outage dto :
  ensures turns_grow (λ _, True) (captureTurn sha256 sanitize redact language iso fl am outage dto) (stored_turn dto).
Proof.
  assert (Hst : ∀ a, stable turns_grow (stored_turn dto a)).
  { intros a s s' H Hg id E. eapply stable_row; [by apply H|exact Hg]. }
  unfold captureTurn. case_match; [by intros t _ id|]. set (row := turn_row _ _ _ _ _ _ _).
  set (K := λ (created : option string) s, match created with
              | Some id => ∃ r, tn_rows s !! id = Some r ∧ turn_key r = key_of dto | None => holds_turn (key_of dto) s end).
  assert (HK : ∀ c, stable turns_grow (K c)) by (intros [id|]; [apply stable_row|apply stable_holds_turn]).
  eapply ensures_bind with (Q1 := K); [exact HK| |].
  { apply ensures_update; [exact HK|]. intros s _. destruct (insert_turn_spec row s) as [Hg Hi]. split; [done|].
    unfold K. destruct (insert_turn row s) as [s' [id|]]; cbn [fst snd] in *.
    - exists row. split; [done|]. apply turn_row_key.
    - destruct Hi as (id & q & Hq & Hk). exists id, q. split; [by apply Hg|]. rewrite Hk. apply turn_row_key. }
  intros created. eapply ensures_bind with (Q1 := λ _, K created); [intros _; apply HK| |].
  { apply always_ensures; [apply HK|apply always_markScene]. }
  intros _. destruct created as [id|]; cbn [K].
  - apply ensures_done. intros t Ht i [= <-]. exact Ht.
  - eapply ensures_bind with (Q1 := λ found s, stored_turn dto (fst <$> found) s); [intros f; apply Hst| |].
    + apply ensures_query_refl; [done|intros f; apply Hst|]. intros s _ id.
      destruct (find_turn (turn_key row) s) as [[i r]|] eqn:E; cbn; [|done]. intros [= <-].
      apply find_turn_Some in E as [E1 E2]. exists r. split; [done|]. rewrite E2. apply turn_row_key.
    + intros found. by apply ensures_done.
Qed.

Lemma always_capture fl am outage dto :
  always turns_grow (captureTurn sha256 sanitize redact language iso fl am outage dto).
Proof.
  unfold captureTurn. case_match; [done|]. apply always_bind.
  { apply always_update. intros s. apply insert_turn_spec. }
  intros [id|]; (apply always_bind; [apply always_markScene|intros _]); [done|].
  apply always_bind; [by apply always_query|done].
Qed.
End once.

(** However the captures of a tenant interleave, a message has one turn: no two rows
    share conversation and message, a stored turn is never changed, and two captures of one
    message that answer an id answer the same one, the id of its row. *)
Theorem message_has_one_turn sha256 sanitize redact language iso
    (calls : list (TurnFlags * Ambient * bool * IngestMentionDto)) sched s i j fl1 am1 o1 dto1 fl2 am2 o2 dto2 a b :
  turns_unique s →
  let prog_of := λ c : TurnFlags * Ambient * bool * IngestMentionDto,
    let '(fl, am, o, dto) := c in captureTurn sha256 sanitize redact language iso fl am o dto in
  let out := run_pool sched (s, map prog_of calls) in
  calls !! i = Some (fl1, am1, o1, dto1) → calls !! j = Some (fl2, am2, o2, dto2) →
  out.2 !! i = Some (Done (Some a)) → out.2 !! j = Some (Done (Some b)) →
  turns_unique out.1 ∧ (∀ id r, tn_rows s !! id = Some r → tn_rows out.1 !! id = Some r) ∧
  (∃ r, tn_rows out.1 !! a = Some r ∧ turn_key r = key_of sha256 iso dto1) ∧
  (key_of sha256 iso dto1 = key_of sha256 iso dto2 → a = b).
Proof.
  intros Hu prog_of out Hi Hj Ha Hb.
  assert (Hq : ∀ k c id, calls !! k = Some c → out.2 !! k = Some (Done (Some id)) →
             ∃ r, tn_rows out.1 !! id = Some r ∧ turn_key r = key_of sha256 iso c.2).
  { intros k [[[fl am] o] dto] id Hk Hid.
    assert (H : stored_turn sha256 iso dto (Some id) out.1); [|by apply (H id)].
    refine (pool_ends_assured turns_grow sched (s, map prog_of calls)
              (map (λ c : TurnFlags * Ambient * bool * IngestMentionDto, stored_turn sha256 iso c.2) calls) k
              (Some id) (stored_turn sha256 iso dto) _ Hid _); [|by rewrite list_lookup_fmap, Hk].
    apply Forall2_fmap_2, Forall_Forall2_diag, Forall_forall. intros [[[f0 a0] o0] d0] _. exists (λ _, True).
    split_and!; [done|done|]. apply capture_ensures. }
  assert (Hg : turns_unique out.1 ∧ ∀ id r, tn_rows s !! id = Some r → tn_rows out.1 !! id = Some r).
  { apply (run_pool_preserves (λ s', turns_unique s' ∧ ∀ id r, tn_rows s !! id = Some r → tn_rows s' !! id = Some r)).
    - by split.
    - apply Forall_fmap, Forall_forall. intros [[[f0 a0] o0] d0] _. cbn.
      eapply always_preserves; [|apply always_capture]. intros s1 s2 [H1 H2] [Hg Hu']. split; auto. }
  destruct Hg as [Hu' Hkeep]. destruct (Hq _ _ _ Hi Ha) as (r & Hr & Hk). destruct (Hq _ _ _ Hj Hb) as (q & Hq' & Hk').
  split_and!; [done|done|by exists r|]. intros E. eapply Hu'; [exact Hr|exact Hq'|]. cbn in *. congruence.
Qed.
