(* ===== verification/EntityGraph.v ===== *)
(** * Entities and their references

    [ingest/entity-upsert.service.ts], the reference half: [knowledge_entity] and
    [entity_external_ref] (db/migrations/0001, 0002, 0055, 0148), the upsert by reference
    key, the read-only name lookup, adoption by name, and what a caller's reference
    resolves to; [db/surreal-retry.ts] around them. *)

From S2P Require Import Prelude Js Resume FactPolicy ScopeTags Names EdgeWriter.
From stdpp Require Import gmap sorting.
Local Open Scope string_scope.
Local Open Scope nat_scope.

(** ** Rows *)

Record Embedding := { eb_vector : list float; eb_spaceId : string }.

Record EntityRow := {
  en_type : string;
  en_canonicalName : string;
  en_aliases : list string;
  en_nameKeys : list string;
  en_externalRefs : list (string * string);
  en_userId : option string;
  en_scope : list string;
  en_mergedInto : option string;
  en_embedding : option Embedding
}.

(** The columns of a fact row the identity rules read; [ef_current] is [status = 'active' AND
    retractedAt IS NONE]. *)
Record EntityFact := {
  ef_entityId : string;
  ef_predicate : string;
  ef_object : string;
  ef_confidence : float;
  ef_current : bool
}.

Record Graph := {
  gr_entities : gmap string EntityRow;
  gr_refs : gmap string string;
  gr_edges : gmap string EdgeRow;
  gr_facts : list EntityFact;
  gr_predicates : list (string * string);
  gr_locks : gmap string nat
}.

Definition with_entities (m : gmap string EntityRow) (s : Graph) : Graph :=
  {| gr_entities := m; gr_refs := gr_refs s; gr_edges := gr_edges s; gr_facts := gr_facts s;
     gr_predicates := gr_predicates s; gr_locks := gr_locks s |}.
Definition with_refs (m : gmap string string) (s : Graph) : Graph :=
  {| gr_entities := gr_entities s; gr_refs := m; gr_edges := gr_edges s; gr_facts := gr_facts s;
     gr_predicates := gr_predicates s; gr_locks := gr_locks s |}.
Definition with_edges (m : gmap string EdgeRow) (s : Graph) : Graph :=
  {| gr_entities := gr_entities s; gr_refs := gr_refs s; gr_edges := m; gr_facts := gr_facts s;
     gr_predicates := gr_predicates s; gr_locks := gr_locks s |}.

(** [merge_lock]: how often each row was written. *)
Definition with_locks (m : gmap string nat) (s : Graph) : Graph :=
  {| gr_entities := gr_entities s; gr_refs := gr_refs s; gr_edges := gr_edges s; gr_facts := gr_facts s;
     gr_predicates := gr_predicates s; gr_locks := m |}.

(** [string::lowercase(canonicalName)], the stored column. *)
Definition canonicalNameLc (r : EntityRow) : string := to_lower (en_canonicalName r).

Definition on_entity (g : EntityRow → EntityRow) (id : string) : prog Graph unit :=
  exec (λ s, with_entities (alter g id (gr_entities s)) s).

(** A record id the table has not given out. *)
Definition new_entity_id (s : Graph) : string :=
  "knowledge_entity:" +:+ fresh (set_map idTailOf (dom (gr_entities s)) : gset string).

(** ** Retries ([db/surreal-retry.ts]) *)

Definition UNIQUE_VIOLATION : http_exn := Internal "index already contains".

Definition isUniqueViolation (e : http_exn) : bool :=
  match e with Internal m => bool_decide (m = "index already contains") | _ => false end.

(** An abort at commit: another transaction wrote what this one read or writes. *)
Definition READ_CONFLICT : http_exn := Internal "Transaction conflict: Write conflict, retry the transaction".

Definition isReadConflict (e : http_exn) : bool :=
  match e with Internal m => bool_decide (m = "Transaction conflict: Write conflict, retry the transaction") | _ => false end.

(** [retryWhen]: the waiting between attempts moves nothing. *)
Fixpoint retryWhen {S A} (retriable : http_exn → bool) (fn : prog S (result http_exn A)) (attempts : nat)
    (lastErr : http_exn) : prog S (result http_exn A) :=
  match attempts with
  | O => Done (Throw lastErr)
  | S n =>
      do* r := fn in
      match r with
      | Ok a => Done (Ok a)
      | Throw e => if retriable e then retryWhen retriable fn n e else Done (Throw e)
      end
  end.

Definition retryOnUniqueViolation {S A} (fn : prog S (result http_exn A)) : prog S (result http_exn A) :=
  retryWhen (λ e, isUniqueViolation e || isReadConflict e) fn 7 (Internal "undefined").

(** ** The merge chain *)

Definition merged_of (s : Graph) (id : string) : option string := gr_entities s !! id ≫= en_mergedInto.

(** [id.{1..n+collect}.mergedInto]: the distinct rows the chain reaches. *)
Fixpoint merged_chain (n : nat) (s : Graph) (id : string) (seen : list string) : list string :=
  match n with
  | O => seen
  | S n' =>
      match merged_of s id with
      | Some m => if bool_decide (m ∈ seen) then seen else merged_chain n' s m (app seen [m])
      | None => seen
      end
  end.

Definition MERGE_HOPS : nat := 32.

Definition survivor (s : Graph) (id : string) : string :=
  default id (last (merged_chain MERGE_HOPS s id [])).
#[global] Arguments survivor : simpl never.

Definition lookupExternalRef (key : string) (s : Graph) : option string :=
  survivor s <$> gr_refs s !! key.

(** ** Upsert by reference key *)

(** [CREATE entity_external_ref] under its unique key. *)
Definition create_ref (key entity : string) (s : Graph) : Graph * bool :=
  match gr_refs s !! key with
  | Some _ => (s, false)
  | None => (with_refs (<[key := entity]> (gr_refs s)) s, true)
  end.

(** The transaction: the entity and its reference row, both or neither. *)
Definition create_with_ref (key : string) (content : EntityRow) (s : Graph) : Graph * option string :=
  match gr_refs s !! key with
  | Some _ => (s, None)
  | None =>
      let id := new_entity_id s in
      (with_refs (<[key := id]> (gr_refs s)) (with_entities (<[id := content]> (gr_entities s)) s), Some id)
  end.

Definition upsert_attempt (key : string) (factory : EntityRow) (adopt : prog Graph (option string)) :
    prog Graph (result http_exn string) :=
  do* fast := query (lookupExternalRef key) in
  match fast with
  | Some e => Done (Ok e)
  | None =>
      do* adopted := adopt in
      match adopted with
      | Some a =>
          do* ok := update (create_ref key a) in
          Done (if ok : bool then Ok a else Throw UNIQUE_VIOLATION)
      | None =>
          do* created := update (create_with_ref key factory) in
          Done (match created with Some id => Ok id | None => Throw UNIQUE_VIOLATION end)
      end
  end.

Definition upsertEntityByExternalRef (key : string) (factory : EntityRow) (adopt : prog Graph (option string)) :
    prog Graph (result http_exn string) :=
  retryOnUniqueViolation (upsert_attempt key factory adopt).

(** ** Resolving a name without writing *)

Record NameFlags := { nf_articles : bool; nf_codeAlias : bool }.

(** [LIMIT n] on a table scan. *)
Definition select_entities (p : EntityRow → bool) (limit : nat) (s : Graph) : list (string * EntityRow) :=
  take limit (List.filter (λ kv, p kv.2) (map_to_list (gr_entities s))).

(** [uniqueEntity] *)
Definition unique_id (rows : list (string * EntityRow)) : option string :=
  match add_all [] (map fst rows) with [id] => Some id | _ => None end.

(** [readFence]: tenant-global rows, and the asker's own. *)
Definition readFence (am : Ambient) (userId : option string) (r : EntityRow) : bool :=
  match userId with
  | None => bool_decide (en_userId r = None)
  | Some u => bool_decide (en_userId r = None) || bool_decide (en_userId r = Some u)
  end && fence_admits (scopeFenceSql am userId) (en_scope r).

Definition unmerged (r : EntityRow) : bool := bool_decide (en_mergedInto r = None).

Definition named (nameLc rawName : string) (r : EntityRow) : bool :=
  bool_decide (canonicalNameLc r = nameLc) || bool_decide (rawName ∈ en_aliases r).

Definition keyed (key : string) (r : EntityRow) : bool := bool_decide (key ∈ en_nameKeys r).

Definition canonical_among (names : list string) (r : EntityRow) : bool :=
  bool_decide (canonicalNameLc r ∈ names).

Definition unique_entity (p : EntityRow → bool) : prog Graph (option string) :=
  do* rows := query (select_entities p 2) in Done (unique_id rows).

(** The needle scan: it stops once two entities match. *)
Fixpoint scan_needles (fence : EntityRow → bool) (symbol : string) (needles matched : list string) :
    prog Graph (list string) :=
  match needles with
  | [] => Done matched
  | needle :: needles' =>
      do* rows := query (select_entities (λ r, str_contains needle (canonicalNameLc r) && unmerged r && fence r) 16) in
      let hits := map fst (List.filter (λ kv, bool_decide (symbolAliasForPath (en_canonicalName kv.2) = Some symbol)) rows) in
      let matched' := add_all matched hits in
      if 1 <? length matched' then Done matched' else scan_needles fence symbol needles' matched'
  end.

Definition resolveExistingByCodeAlias (fl : NameFlags) (fence : EntityRow → bool) (name : string) :
    prog Graph (option string) :=
  if negb (nf_codeAlias fl) then Done None
  else
    match symbolAliasForPath name with
    | Some symbol => unique_entity (λ r, named (to_lower symbol) symbol r && unmerged r && fence r)
    | None =>
        if negb (isCodeSymbolShaped name) then Done None
        else
          do* matched := scan_needles fence name (pathNeedlesForSymbol name) [] in
          Done (match matched with [id] => Some id | _ => None end)
    end.

(** [if (found) return found;] *)
Definition or_else (p q : prog Graph (option string)) : prog Graph (option string) :=
  do* found := p in match found with Some id => Done (Some id) | None => q end.

Section names.
Context `{Script} (fl : NameFlags) (am : Ambient).

Definition resolveExistingByName (name : string) (userId : option string) : prog Graph (option string) :=
  let raw := trim name in
  if bool_decide (raw = "") then Done None
  else
    let target := to_lower raw in
    let fence := readFence am userId in
    or_else (unique_entity (λ r, named target raw r && unmerged r && fence r))
      (or_else (if bool_decide (nameKey raw = "") then Done None
                else unique_entity (λ r, keyed (nameKey raw) r && unmerged r && fence r))
        (or_else (match (if nf_articles fl then articleNameVariants target else []) with
                  | [] => Done None
                  | variants => unique_entity (λ r, canonical_among variants r && unmerged r && fence r)
                  end)
          (resolveExistingByCodeAlias fl fence raw))).

(** ** Adoption *)

(** The values of [externalRefs]; no row, no keys. *)
Definition externalRefIdsOf (entityId : string) (s : Graph) : list string :=
  match gr_entities s !! entityId with Some r => OMap.vals (en_externalRefs r) | None => [] end.

Definition ref_token (raw : string) : string :=
  if bool_decide (nameKey raw = "") then to_lower (trim raw) else nameKey raw.

Definition adoptByReferenceId (refId : string) : prog Graph (option string) :=
  do* candidate := resolveExistingByName refId None in
  match candidate with
  | None => Done None
  | Some c =>
      do* siblings := query (externalRefIdsOf c) in
      Done (if existsb (λ x, bool_decide (ref_token x = ref_token refId)) siblings then None else Some c)
  end.

(** ** What a reference resolves to *)

Record EntityRef := { er_vertical : option string; er_id : option string; er_entityId : option string }.

Definition reference_row (key id : string) (userId : option string) (scope : list string) : EntityRow :=
  {| en_type := "other"; en_canonicalName := id; en_aliases := []; en_nameKeys := [];
     en_externalRefs := [(key, id)]; en_userId := userId; en_scope := scope; en_mergedInto := None;
     en_embedding := None |}.

Definition resolveOrCreateEntity (ref : EntityRef) (userId : option string) : prog Graph (result http_exn string) :=
  match truthy (er_entityId ref) with
  | Some e => Done (Ok e)
  | None =>
      match er_vertical ref, er_id ref with
      | Some v, Some i =>
          let own := isUserEntityRef (Some (v, i)) userId in
          let key := if own then scopedRefKey v i userId else externalRefKey v i in
          upsertEntityByExternalRef key
            (match (if own then truthy userId else None) with
             | Some u => reference_row key i (Some u) (scopeForUser am (Some u))
             | None => reference_row key i None []
             end)
            (if own then Done None else adoptByReferenceId i)
      | _, _ => Done (Throw (TypeErr "undefined"))
      end
  end.

Definition resolveOrCreateBareRef (ref : EntityRef) : prog Graph (result http_exn string) :=
  match truthy (er_entityId ref) with
  | Some e => Done (Ok (if has_char colon e then e else "knowledge_entity:" +:+ e))
  | None =>
      match er_vertical ref, er_id ref with
      | Some v, Some i =>
          let key := externalRefKey v i in
          upsertEntityByExternalRef key (reference_row key i None []) (adoptByReferenceId i)
      | _, _ => Done (Throw (TypeErr "undefined"))
      end
  end.
End names.

(** ** What writers of entities do to the graph *)

Definition has_row (s : Graph) (id : string) : Prop := is_Some (gr_entities s !! id).

(** Whose entity it is: nobody's in particular, or one user's. *)
Definition owner_of (s : Graph) (id : string) : option (option string) := en_userId <$> gr_entities s !! id.

Lemma has_row_owner s id : has_row s id ↔ ∃ u, owner_of s id = Some u.
Proof.
  unfold has_row, owner_of. split; [intros [r ->]; by exists (en_userId r)|].
  intros (u & (r & -> & _)%fmap_Some). by exists r.
Qed.

Definition entity_record (id : string) : string := "knowledge_entity:" +:+ idTailOf id.

(** What refers to an entity refers to a row: reference rows, merge pointers, and keys that
    are record ids of the table. *)
Record refs_ok (s : Graph) : Prop := {
  ro_refs k e : gr_refs s !! k = Some e → has_row s e;
  ro_merged id m : merged_of s id = Some m → has_row s m;
  ro_record id : has_row s id → entity_record id = id
}.

(** References and rows stay, no row changes its owner or its merge pointer, and what is
    referred to exists. *)
Record graph_grows (s s' : Graph) : Prop := {
  gg_refs k e : gr_refs s !! k = Some e → gr_refs s' !! k = Some e;
  gg_owner id u : owner_of s id = Some u → owner_of s' id = Some u;
  gg_merged id : merged_of s' id = merged_of s id;
  gg_ok : refs_ok s → refs_ok s'
}.

Lemma gg_present s s' id : graph_grows s s' → has_row s id → has_row s' id.
Proof. intros Hg. rewrite !has_row_owner. intros [u Hu]. exists u. by eapply gg_owner. Qed.

Lemma graph_grows_refl s : graph_grows s s.
Proof. done. Qed.

Lemma graph_grows_trans s1 s2 s3 : graph_grows s1 s2 → graph_grows s2 s3 → graph_grows s1 s3.
Proof.
  intros H1 H2. split; [| |intros id; rewrite (gg_merged _ _ H2); apply H1|].
  - intros k e H. by apply H2, H1.
  - intros id u H. by apply H2, H1.
  - intros H. by apply H2, H1.
Qed.

(** New rows that are not merged away, and new references to rows. *)
Lemma grows_insert s s' :
  (∀ k e, gr_refs s !! k = Some e → gr_refs s' !! k = Some e) →
  (∀ id u, owner_of s id = Some u → owner_of s' id = Some u) → (∀ id, merged_of s' id = merged_of s id) →
  (∀ k e, gr_refs s' !! k = Some e → gr_refs s !! k = Some e ∨ has_row s' e) →
  (∀ id, has_row s' id → has_row s id ∨ entity_record id = id) → graph_grows s s'.
Proof.
  intros Hr Ho Hm Hr' Hp'. split; [done..|]. intros Hok.
  assert (Hp : ∀ id, has_row s id → has_row s' id).
  { intros id. rewrite !has_row_owner. intros [u Hu]. exists u. auto. }
  split.
  - intros k e He. destruct (Hr' k e He) as [He'|?]; [|done]. eapply Hp, ro_refs; done.
  - intros id m. rewrite Hm. intros ?. by eapply Hp, ro_merged.
  - intros id Hid. destruct (Hp' id Hid); [by eapply ro_record|done].
Qed.

Lemma merged_chain_ext n s s' id seen :
  (∀ i, merged_of s' i = merged_of s i) → merged_chain n s' id seen = merged_chain n s id seen.
Proof.
  intros H. revert id seen. induction n as [|n IH]; intros id seen; [done|]. cbn. rewrite H.
  destruct (merged_of s id); [|done]. case_bool_decide; [done|]. apply IH.
Qed.

Lemma survivor_ext s s' id : (∀ i, merged_of s' i = merged_of s i) → survivor s' id = survivor s id.
Proof. intros H. unfold survivor. by rewrite (merged_chain_ext _ s s'). Qed.

Lemma survivor_root s id : merged_of s id = None → survivor s id = id.
Proof. intros H. unfold survivor, MERGE_HOPS. cbn. by rewrite H. Qed.

Definition names_entity (key id : string) (s : Graph) : Prop := lookupExternalRef key s = Some id.

Lemma stable_names key id : stable graph_grows (names_entity key id).
Proof.
  intros s s' H Hg. unfold names_entity, lookupExternalRef in *.
  apply fmap_Some in H as (e & He & ->). rewrite (gg_refs _ _ Hg _ _ He). cbn. rewrite (survivor_ext s s'); [done|apply Hg].
Qed.

(** A row that is not merged away. *)
Definition live_row (s : Graph) (id : string) : Prop := has_row s id ∧ merged_of s id = None.

Lemma stable_root id : stable graph_grows (λ s, live_row s id).
Proof. intros s s' [H1 H2] Hg. split; [by eapply gg_present|by rewrite (gg_merged _ _ Hg)]. Qed.

Lemma stable_True : stable graph_grows (λ _, True).
Proof. done. Qed.

Lemma stable_held key : stable graph_grows (λ s, is_Some (gr_refs s !! key)).
Proof. intros s s' [e H] Hg. exists e. by apply Hg. Qed.

(** The id it ends with, if any, is of an entity that is not merged away. *)
Definition root_or_none (o : option string) (s : Graph) : Prop := ∀ a, o = Some a → live_row s a.

Lemma stable_root_or_none o : stable graph_grows (root_or_none o).
Proof. intros s s' H Hg a Ha. by apply (stable_root a s s'); [apply H|]. Qed.

Lemma select_root p limit s id r :
  (∀ r, p r = true → unmerged r = true) → (id, r) ∈ select_entities p limit s → live_row s id.
Proof.
  intros Hp Hin. unfold select_entities in Hin. apply elem_of_take in Hin as (i & Hi & _).
  apply list_elem_of_lookup_2, elem_of_bfilter in Hi as [Hi Hpr]. apply elem_of_map_to_list in Hi.
  split; [by exists r|]. unfold merged_of. rewrite Hi. cbn. apply Hp in Hpr. by apply bool_decide_eq_true in Hpr.
Qed.

Lemma unique_id_elem rows id : unique_id rows = Some id → ∃ r, (id, r) ∈ rows.
Proof.
  unfold unique_id. intros H. assert (Hin : id ∈ add_all [] (map fst rows)).
  { destruct (add_all [] (map fst rows)) as [|x [|]]; [done| |done]. injection H as ->. by left. }
  apply elem_of_add_all in Hin as [[]%elem_of_nil|Hin]. apply list_elem_of_fmap in Hin as ([i r] & -> & Hin). by exists r.
Qed.

Lemma ensures_query {A} (K : Graph → Prop) (f : Graph → A) (Q : A → Graph → Prop) :
  (∀ a, stable graph_grows (Q a)) → (∀ s, K s → Q (f s) s) → ensures graph_grows K (query f) Q.
Proof. apply ensures_query_refl, graph_grows_refl. Qed.

Lemma unique_entity_root p :
  (∀ r, p r = true → unmerged r = true) → ensures graph_grows (λ _, True) (unique_entity p) root_or_none.
Proof.
  intros Hp. apply ensures_bind with (Q1 := λ rows s, ∀ id r, (id, r) ∈ rows → live_row s id).
  - intros rows s s' H Hg id r Hin. by eapply stable_root; [eapply H|].
  - apply ensures_query.
    + intros rows s s' H Hg id r Hin. by eapply stable_root; [eapply H|].
    + intros s _ id r Hin. by eapply select_root.
  - intros rows. apply ensures_done. intros s H a Ha. apply unique_id_elem in Ha as [r Hr]. by eapply H.
Qed.

Lemma or_else_root p q :
  ensures graph_grows (λ _, True) p root_or_none → ensures graph_grows (λ _, True) q root_or_none →
  ensures graph_grows (λ _, True) (or_else p q) root_or_none.
Proof.
  intros Hp Hq. apply ensures_bind with (Q1 := root_or_none); [apply stable_root_or_none|done|].
  intros [a|]; [by apply ensures_done|]. by apply (ensures_weaken _ _ (λ _, True)).
Qed.

Lemma none_root : ensures graph_grows (λ _, True) (Done None) root_or_none.
Proof. by apply ensures_done. Qed.

Lemma scan_needles_root fence symbol needles matched :
  ensures graph_grows (λ s, ∀ id, id ∈ matched → live_row s id)
    (scan_needles fence symbol needles matched) (λ m s, ∀ id, id ∈ m → live_row s id).
Proof.
  revert matched. induction needles as [|needle needles IH]; intros matched; [by apply ensures_done|].
  assert (Hst : ∀ l : list string, stable graph_grows (λ s, ∀ id, id ∈ l → live_row s id)).
  { intros l s s' H Hg id Hin. by apply (stable_root id s s'); [apply H|]. }
  cbn [scan_needles]. apply ensures_bind with
    (Q1 := λ rows s, (∀ id, id ∈ matched → live_row s id) ∧ ∀ id r, (id, r) ∈ rows → live_row s id).
  1: { intros rows s s' [H1 H2] Hg. split; [by eapply Hst|]. intros id r Hin. by eapply stable_root; [eapply H2|]. }
  1: { apply ensures_query.
       - intros rows s s' [H1 H2] Hg. split; [by eapply Hst|]. intros id r Hin. by eapply stable_root; [eapply H2|].
       - intros s Hs. split; [done|]. intros id r Hin. eapply select_root; [|done]. intros r' Hr'.
         apply andb_true_iff in Hr' as [Hr' _]. by apply andb_true_iff in Hr' as [_ ?]. }
  intros rows. set (hits := map fst _).
  assert (Hm : ∀ s, (∀ id, id ∈ matched → live_row s id) ∧ (∀ id r, (id, r) ∈ rows → live_row s id) →
    ∀ id, id ∈ add_all matched hits → live_row s id).
  { intros s [H1 H2] id [Hin|Hin]%elem_of_add_all; [auto|]. apply list_elem_of_fmap in Hin as ([i r] & -> & Hin).
    apply elem_of_bfilter in Hin as [Hin _]. by eapply H2. }
  destruct (1 <? length (add_all matched hits)); [apply ensures_done; exact Hm|].
  eapply ensures_weaken; [exact Hm|apply IH].
Qed.

Section adopting.
Context `{Script} (fl : NameFlags) (am : Ambient).

Lemma codeAlias_root fence name : ensures graph_grows (λ _, True) (resolveExistingByCodeAlias fl fence name) root_or_none.
Proof.
  unfold resolveExistingByCodeAlias. destruct (negb (nf_codeAlias fl)); [apply none_root|].
  destruct (symbolAliasForPath name) as [symbol|].
  - apply unique_entity_root. intros r Hr. apply andb_true_iff in Hr as [Hr _]. by apply andb_true_iff in Hr as [_ ?].
  - destruct (negb (isCodeSymbolShaped name)); [apply none_root|].
    eapply ensures_bind; [|eapply ensures_weaken; [|apply (scan_needles_root fence name _ [])]|].
    + intros m s s' Hs Hg id Hin. by apply (stable_root id s s'); [apply Hs|].
    + intros s _ id []%elem_of_nil.
    + intros m. apply ensures_done. intros s Hs a. destruct m as [|x [|]]; [done| |done]. intros [= ->].
      apply Hs. by left.
Qed.

Lemma resolveExistingByName_root name userId :
  ensures graph_grows (λ _, True) (resolveExistingByName fl am name userId) root_or_none.
Proof.
  assert (Hp : ∀ p fence r, p r && unmerged r && fence r = true → unmerged r = true).
  { intros p fence r Hr. apply andb_true_iff in Hr as [Hr _]. by apply andb_true_iff in Hr as [_ ?]. }
  unfold resolveExistingByName. case_bool_decide; [apply none_root|].
  repeat apply or_else_root.
  - apply unique_entity_root. intros r. apply Hp.
  - case_bool_decide; [apply none_root|]. apply unique_entity_root. intros r. apply Hp.
  - destruct (if nf_articles fl then _ else _) as [|v vs]; [apply none_root|]. apply unique_entity_root. intros r. apply Hp.
  - apply codeAlias_root.
Qed.

Lemma adoptByReferenceId_root id : ensures graph_grows (λ _, True) (adoptByReferenceId fl am id) root_or_none.
Proof.
  unfold adoptByReferenceId. eapply ensures_bind; [apply stable_root_or_none|apply resolveExistingByName_root|].
  intros [c|]; [|by apply ensures_done]. apply ensures_bind with (Q1 := λ _, root_or_none (Some c)).
  - intros _. apply stable_root_or_none.
  - apply ensures_query; [intros _; apply stable_root_or_none|done].
  - intros siblings. apply ensures_done. intros s Hs. by destruct (existsb _ siblings).
Qed.
End adopting.

(** ** A reference key names one entity *)

Lemma survivor_present s id : refs_ok s → has_row s id → has_row s (survivor s id).
Proof.
  intros Hok Hid. unfold survivor. assert (H : ∀ n i seen, has_row s i → (∀ x, x ∈ seen → has_row s x) →
    ∀ x, x ∈ merged_chain n s i seen → has_row s x).
  { induction n as [|n IH]; intros i seen Hi Hs x; cbn; [apply Hs|]. destruct (merged_of s i) as [m|] eqn:E; [|apply Hs].
    case_bool_decide; [apply Hs|]. assert (Hm : has_row s m) by by eapply ro_merged. apply IH; [done|].
    intros y [Hy| ->%list_elem_of_singleton]%elem_of_app; [by apply Hs|done]. }
  destruct (last _) as [l|] eqn:E; cbn; [|done]. apply (H MERGE_HOPS id []); [done|by intros x ?%elem_of_nil|].
  by apply last_Some_elem_of.
Qed.

Lemma idTailOf_prefix x : idTailOf ("knowledge_entity:" +:+ x) = x.
Proof. reflexivity. Qed.

Lemma new_entity_fresh s : gr_entities s !! new_entity_id s = None.
Proof.
  apply not_elem_of_dom. intros Hin. unfold new_entity_id in Hin.
  set (tails := set_map idTailOf (dom (gr_entities s)) : gset string) in *.
  apply (is_fresh tails). apply elem_of_map. exists ("knowledge_entity:" +:+ fresh tails). split; [|done].
  by rewrite idTailOf_prefix.
Qed.

Lemma create_ref_grows key a s : has_row s a → graph_grows s (create_ref key a s).1.
Proof.
  intros Ha. unfold create_ref. destruct (gr_refs s !! key) eqn:E; [done|]. cbn. apply grows_insert; try done.
  - intros k e He. cbn. rewrite lookup_insert_ne; [done|]. congruence.
  - intros k e. cbn. intros [[-> <-]|[? ?]]%lookup_insert_Some; [by right|by left].
  - intros id Hid. by left.
Qed.

Lemma create_with_ref_merged key content s :
  en_mergedInto content = None → ∀ id, merged_of (create_with_ref key content s).1 id = merged_of s id.
Proof.
  intros Hc i. unfold create_with_ref. destruct (gr_refs s !! key) eqn:E; [done|]. unfold merged_of. cbn.
  destruct (decide (i = new_entity_id s)) as [->|Hne]; [by rewrite lookup_insert_eq, new_entity_fresh|by rewrite lookup_insert_ne].
Qed.

Lemma create_with_ref_grows key content s :
  en_mergedInto content = None → graph_grows s (create_with_ref key content s).1.
Proof.
  intros Hc. pose proof (create_with_ref_merged key content s Hc) as Hm. unfold create_with_ref in *.
  destruct (gr_refs s !! key) eqn:E; [done|]. cbn in *. apply grows_insert; [| |done|..].
  - intros k e He. cbn. rewrite lookup_insert_ne; [done|]. congruence.
  - intros id u Hid. unfold owner_of in *. cbn. rewrite lookup_insert_ne; [done|]. intros <-.
    by rewrite new_entity_fresh in Hid.
  - intros k e. cbn. intros [[-> <-]|[? ?]]%lookup_insert_Some; [right|by left].
    unfold has_row. cbn. by rewrite lookup_insert_eq.
  - intros id [r Hid]. cbn in Hid. apply lookup_insert_Some in Hid as [[<- _]|[_ Hid]]; [by right|left; by exists r].
Qed.

Definition named_or_held (key : string) (o : result http_exn string) (s : Graph) : Prop :=
  (∃ id, o = Ok id ∧ names_entity key id s) ∨ (o = Throw UNIQUE_VIOLATION ∧ is_Some (gr_refs s !! key)).

Definition named_by (key : string) (o : result http_exn string) (s : Graph) : Prop :=
  ∃ id, o = Ok id ∧ names_entity key id s.

Lemma stable_named_by key o : stable graph_grows (named_by key o).
Proof. intros s s' (id & -> & Hid) Hg. exists id. split; [done|]. by eapply stable_names. Qed.

Lemma stable_named_or_held key o : stable graph_grows (named_or_held key o).
Proof.
  intros s s' [H|[-> H]] Hg; [left; by eapply stable_named_by|right; split; [done|]; by eapply stable_held].
Qed.

Lemma held_attempt key factory adopt :
  ensures graph_grows (λ s, is_Some (gr_refs s !! key)) (upsert_attempt key factory adopt) (named_by key).
Proof.
  apply ensures_bind with (Q1 := λ fast s, ∃ id, fast = Some id ∧ names_entity key id s).
  - intros fast s s' (id & -> & Hid) Hg. exists id. split; [done|]. by eapply stable_names.
  - apply ensures_query.
    + intros fast s s' (id & -> & Hid) Hg. exists id. split; [done|]. by eapply stable_names.
    + intros s [e He]. exists (survivor s e). unfold names_entity, lookupExternalRef. by rewrite He.
  - intros [e|]; [|by apply ensures_absurd; intros s (? & ? & _)].
    apply ensures_done. intros s (id & [= <-] & Hid). by exists e.
Qed.

Lemma first_attempt key factory adopt :
  en_mergedInto factory = None → ensures graph_grows (λ _, True) adopt root_or_none →
  ensures graph_grows (λ _, True) (upsert_attempt key factory adopt) (named_or_held key).
Proof.
  intros Hfac Hadopt. apply ensures_bind with (Q1 := λ fast s, ∀ id, fast = Some id → names_entity key id s).
  1: { intros fast s s' H Hg id ->. eapply stable_names; [by apply H|done]. }
  1: { apply ensures_query; [|by intros s _ id]. intros fast s s' H Hg id ->. eapply stable_names; [by apply H|done]. }
  intros [e|]; [apply ensures_done; intros s Hs; left; exists e; auto|].
  apply ensures_bind with (Q1 := root_or_none); [apply stable_root_or_none| |].
  { by apply (ensures_weaken _ _ (λ _, True)). }
  assert (Hheld : ∀ s e, gr_refs s !! key = Some e → named_or_held key (Throw UNIQUE_VIOLATION) s).
  { intros s e He. right. split; [done|]. by exists e. }
  intros [a|].
  - apply ensures_bind with (Q1 := λ ok : bool, named_or_held key (if ok then Ok a else Throw UNIQUE_VIOLATION));
      [intros ok; apply stable_named_or_held| |intros ok; by apply ensures_done].
    apply ensures_update; [intros ok; apply stable_named_or_held|]. intros s Hs. destruct (Hs a eq_refl) as [Ha Hm].
    split; [by apply create_ref_grows|]. unfold create_ref.
    destruct (gr_refs s !! key) as [e|] eqn:E; [by eapply Hheld|]. left. exists a. split; [done|].
    unfold names_entity, lookupExternalRef. cbn. rewrite lookup_insert_eq. cbn. f_equal. by apply survivor_root.
  - apply ensures_bind with (Q1 := λ o, named_or_held key (match o with Some id => Ok id | None => Throw UNIQUE_VIOLATION end));
      [intros o; apply stable_named_or_held| |intros o; by apply ensures_done].
    apply ensures_update; [intros o; apply stable_named_or_held|]. intros s _.
    split; [by apply create_with_ref_grows|]. pose proof (create_with_ref_merged key factory s Hfac) as Hm.
    unfold create_with_ref in *. destruct (gr_refs s !! key) as [e|] eqn:E; [by eapply Hheld|]. cbn [fst snd] in *.
    left. eexists. split; [done|]. unfold names_entity, lookupExternalRef. cbn [gr_refs with_refs].
    rewrite lookup_insert_eq. cbn. f_equal. apply survivor_root. rewrite Hm. unfold merged_of. by rewrite new_entity_fresh.
Qed.

(** The upsert ends with the entity its key names: one violation at most, since the row it
    met is there for the next attempt. *)
Lemma upsert_ensures key factory adopt :
  en_mergedInto factory = None → ensures graph_grows (λ _, True) adopt root_or_none →
  ensures graph_grows (λ _, True) (upsertEntityByExternalRef key factory adopt) (named_by key).
Proof.
  intros Hfac Hadopt. unfold upsertEntityByExternalRef, retryOnUniqueViolation. cbn [retryWhen].
  apply ensures_bind with (Q1 := named_or_held key); [apply stable_named_or_held|by apply first_attempt|].
  intros [id|e]; [apply ensures_done|].
  - intros s [H|[? _]]; [|done]. destruct H as (i & [= <-] & H). by exists id.
  - destruct (isUniqueViolation e || isReadConflict e) eqn:Ee.
    2: { apply ensures_done. intros s [(i & ? & _)|[[= ->] _]]; [done|]. by cbn in Ee. }
    eapply ensures_bind; [apply stable_named_by|eapply ensures_weaken; [|apply (held_attempt key factory adopt)]|].
    + intros s [(i & ? & _)|[_ H]]; done.
    + intros [id|e']; [apply ensures_done; intros s (i & [= <-] & H); by exists id|].
      apply ensures_absurd. intros s (i & ? & _). done.
Qed.

(** ** What the reads and the upsert do to a state, for any relation *)

Section moving.
Context `{Script} (fl : NameFlags) (am : Ambient) (R : Graph → Graph → Prop) (R_refl : ∀ s, R s s).

Lemma always_unique p : always R (unique_entity p).
Proof. apply always_bind; [by apply always_query|done]. Qed.

Lemma always_or_else p q : always R p → always R q → always R (or_else p q).
Proof. intros Hp Hq. apply always_bind; [done|by intros [a|]]. Qed.

Lemma always_scan fence symbol needles matched : always R (scan_needles fence symbol needles matched).
Proof.
  revert matched. induction needles as [|needle needles IH]; intros matched; [done|].
  apply always_bind; [by apply always_query|]. intros rows. cbn zeta. by destruct (1 <? _).
Qed.

Lemma always_codeAlias fence name : always R (resolveExistingByCodeAlias fl fence name).
Proof.
  unfold resolveExistingByCodeAlias. destruct (negb (nf_codeAlias fl)); [done|].
  destruct (symbolAliasForPath name); [apply always_unique|]. destruct (negb (isCodeSymbolShaped name)); [done|].
  apply always_bind; [apply always_scan|done].
Qed.

Lemma always_byName name userId : always R (resolveExistingByName fl am name userId).
Proof.
  unfold resolveExistingByName. case_bool_decide; [done|]. repeat apply always_or_else.
  - apply always_unique.
  - case_bool_decide; [done|apply always_unique].
  - destruct (if nf_articles fl then _ else _); [done|apply always_unique].
  - apply always_codeAlias.
Qed.

Lemma always_adopt refId : always R (adoptByReferenceId fl am refId).
Proof.
  apply always_bind; [apply always_byName|]. intros [c|]; [|done]. apply always_bind; [by apply always_query|done].
Qed.

Lemma always_retry {A} retriable (fn : prog Graph (result http_exn A)) n e :
  always R fn → always R (retryWhen retriable fn n e).
Proof.
  intros Hfn. revert e. induction n as [|n IH]; intros e; [done|]. apply always_bind; [done|].
  intros [a|e']; [done|]. destruct (retriable e'); [apply IH|done].
Qed.

Lemma always_upsert key factory adopt :
  (∀ a s, R s (create_ref key a s).1) → (∀ s, R s (create_with_ref key factory s).1) → always R adopt →
  always R (upsertEntityByExternalRef key factory adopt).
Proof.
  intros Hr Hc Ha. apply always_retry. apply always_bind; [by apply always_query|]. intros [e|]; [done|].
  apply always_bind; [done|]. intros [a|]; (apply always_bind; [by apply always_update|done]).
Qed.

(** Steps that leave the merge pointers and the lock rows. *)
Hypothesis R_merged : ∀ s s', gr_locks s' = gr_locks s → (∀ id, merged_of s' id = merged_of s id) → R s s'.

Lemma always_reference key i userId scope adopt :
  always R adopt → always R (upsertEntityByExternalRef key (reference_row key i userId scope) adopt).
Proof.
  intros Ha. apply always_upsert; [intros a s|intros s|done]; apply R_merged.
  - unfold create_ref. by destruct (gr_refs s !! key).
  - unfold create_ref. by destruct (gr_refs s !! key).
  - unfold create_with_ref. by destruct (gr_refs s !! key).
  - by apply create_with_ref_merged.
Qed.

Lemma always_fact_entity ref userId : always R (resolveOrCreateEntity fl am ref userId).
Proof.
  unfold resolveOrCreateEntity. destruct (truthy (er_entityId ref)); [done|].
  destruct (er_vertical ref) as [v|], (er_id ref) as [i|]; try done. cbn zeta.
  destruct (isUserEntityRef (Some (v, i)) userId); [destruct (truthy userId)|]; apply always_reference; try done.
  apply always_adopt.
Qed.

Lemma always_bareRef ref : always R (resolveOrCreateBareRef fl am ref).
Proof.
  unfold resolveOrCreateBareRef. destruct (truthy (er_entityId ref)); [done|].
  destruct (er_vertical ref) as [v|], (er_id ref) as [i|]; try done. cbn zeta.
  apply always_reference, always_adopt.
Qed.
End moving.
