(* ===== verification/EntityMerge.v ===== *)
(** * Links, and entities declared identical

    [ingest/link-ingest.service.ts] and [fn::merge_identity] (db/migrations/0037): a link
    between two references, and the merge an [identity_of] link asks for. The function is
    one transaction: it decides on the snapshot it began with, and commits unless one of the
    rows it writes, the pair's lock row and the loser, was written since; other statements,
    other merges among them, may fall between. The caller runs it again on such an abort.
    The columns [mergedAt] and [at] are left out, and what the loser's row conflicts on is
    all its columns but the embedding. *)

From S2P Require Import Prelude Js Resume FactPolicy ScopeTags Names EdgeWriter EntityGraph.
Local Open Scope string_scope.
Local Open Scope nat_scope.

(** ** [fn::merge_identity] *)

Inductive MergeReason : Type := SelfMerge | Cycle.

Record MergeVerdict := { mv_merged : bool; mv_reason : option MergeReason }.

Definition with_mergedInto (m : option string) (r : EntityRow) : EntityRow :=
  {| en_type := en_type r; en_canonicalName := en_canonicalName r; en_aliases := en_aliases r;
     en_nameKeys := en_nameKeys r; en_externalRefs := en_externalRefs r; en_userId := en_userId r;
     en_scope := en_scope r; en_mergedInto := m; en_embedding := en_embedding r |}.

(** [array::join(array::sort([$loser, $survivor]), '|')] *)
Definition pair_lock (a b : string) : string := if bool_decide (str_le a b) then a +:+ "|" +:+ b else b +:+ "|" +:+ a.

Definition lock_writes (k : string) (s : Graph) : nat := default 0 (gr_locks s !! k).

(** [UPSERT merge_lock SET at = time::now()]: a write each time. *)
Definition touch_lock (k : string) (s : Graph) : Graph := with_locks (<[k := S (lock_writes k s)]> (gr_locks s)) s.

Definition point_at (loser survivor : string) (s : Graph) : Graph :=
  with_entities (alter (with_mergedInto (Some survivor)) loser (gr_entities s)) s.

(** What the function answers on the snapshot [s0]. *)
Definition merge_verdict (loser survivor : string) (s0 : Graph) : MergeVerdict :=
  if bool_decide (loser = survivor) then {| mv_merged := false; mv_reason := Some SelfMerge |}
  else if bool_decide (loser ∈ merged_chain MERGE_HOPS s0 survivor [])
  then {| mv_merged := false; mv_reason := Some Cycle |}
  else {| mv_merged := true; mv_reason := None |}.

(** What it writes. *)
Definition merge_writes (v : MergeVerdict) (loser survivor : string) (s : Graph) : Graph :=
  match mv_reason v with
  | Some SelfMerge => s
  | Some Cycle => touch_lock (pair_lock loser survivor) s
  | None => point_at loser survivor (touch_lock (pair_lock loser survivor) s)
  end.

Definition row_columns (r : EntityRow) :=
  (en_type r, en_canonicalName r, en_aliases r, en_nameKeys r, en_externalRefs r, en_userId r, en_scope r, en_mergedInto r).

(** Nothing it writes was written between the snapshot [s0] and [s]. *)
Definition lock_unwritten (loser survivor : string) (s0 s : Graph) : bool :=
  lock_writes (pair_lock loser survivor) s =? lock_writes (pair_lock loser survivor) s0.

Definition row_unwritten (loser : string) (s0 s : Graph) : bool :=
  bool_decide (row_columns <$> (gr_entities s !! loser) = row_columns <$> (gr_entities s0 !! loser)).

Definition commits (v : MergeVerdict) (loser survivor : string) (s0 s : Graph) : bool :=
  match mv_reason v with
  | Some SelfMerge => true
  | Some Cycle => lock_unwritten loser survivor s0 s
  | None => lock_unwritten loser survivor s0 s && row_unwritten loser s0 s
  end.

Definition merge_commit (loser survivor : string) (s0 s : Graph) : Graph * result http_exn MergeVerdict :=
  let v := merge_verdict loser survivor s0 in
  if commits v loser survivor s0 s then (merge_writes v loser survivor s, Ok v) else (s, Throw READ_CONFLICT).

Definition merge_identity (loser survivor : string) : prog Graph (result http_exn MergeVerdict) :=
  do* s0 := query (λ s, s) in update (merge_commit loser survivor s0).

(** ** [ingestLink] *)

Record LinkDto := {
  ld_from : EntityRef;
  ld_to : EntityRef;
  ld_kind : string;
  ld_weight : option float;
  ld_source : list (string * jsval)
}.

Record LinkResult := {
  lr_edgeId : option string;
  lr_fromEntityId : string;
  lr_toEntityId : string;
  lr_kind : string;
  lr_alreadyIdentical : bool
}.

(** [a.vertical && a.id] *)
Definition ref_pair (r : EntityRef) : option (string * string) :=
  match truthy (er_vertical r), truthy (er_id r) with Some v, Some i => Some (v, i) | _, _ => None end.

Definition sameReference (a b : EntityRef) : bool :=
  match truthy (er_entityId a), truthy (er_entityId b) with
  | Some x, Some y => bool_decide (idTailOf x = idTailOf y)
  | _, _ =>
      match ref_pair a, ref_pair b with
      | Some (v, i), Some (v', i') => bool_decide (externalRefKey v i = externalRefKey v' i')
      | _, _ => false
      end
  end.

Definition SELF_MERGE : http_exn := BadRequest "identity_of cannot merge an entity into itself".
Definition MERGE_CYCLE : http_exn :=
  BadRequest "identity_of would create a merge cycle (survivor already resolves to the loser)".

(** What a verdict that merged nothing is answered with. *)
Definition refused (v : MergeVerdict) : http_exn :=
  match mv_reason v with
  | Some Cycle => MERGE_CYCLE
  | Some SelfMerge => SELF_MERGE
  | None => Internal "identity_of merge failed unexpectedly (reason=none)"
  end.

Definition link_write (now : Z) (dto : LinkDto) (fromId toId : string) : EdgeWrite :=
  {| ew_fromEntityId := fromId; ew_toEntityId := toId; ew_kind := ld_kind dto; ew_documentId := None;
     ew_rest := ld_source dto; ew_weight := Some (default 1%float (ld_weight dto)); ew_userId := None;
     ew_timing := {| et_validFrom := Some now; et_validUntil := None |} |}.

(** A call on the edges of the graph. *)
Definition on_edges {A} (p : prog EdgeStore A) : prog Graph A := zoom gr_edges with_edges p.

Section links.
Context `{Script} (fl : NameFlags) (am : Ambient).

Definition relate_ends (now : Z) (dto : LinkDto) (fromId toId : string) : prog Graph (result http_exn LinkResult) :=
  do* edgeId := on_edges (createEdgeBetween am now (link_write now dto fromId toId)) in
  Done (Ok {| lr_edgeId := edgeId; lr_fromEntityId := fromId; lr_toEntityId := toId; lr_kind := ld_kind dto;
              lr_alreadyIdentical := false |}).

Definition merge_ends (now : Z) (dto : LinkDto) (fromId toId : string) : prog Graph (result http_exn LinkResult) :=
  if bool_decide (fromId = toId) then
    Done (if sameReference (ld_from dto) (ld_to dto) then Throw SELF_MERGE
          else Ok {| lr_edgeId := None; lr_fromEntityId := fromId; lr_toEntityId := toId; lr_kind := ld_kind dto;
                     lr_alreadyIdentical := true |})
  else
    try* v := retryOnUniqueViolation (merge_identity (entity_record toId) (entity_record fromId)) in
    if mv_merged v then relate_ends now dto fromId toId else Done (Throw (refused v)).

Definition ingestLink (now : Z) (dto : LinkDto) : prog Graph (result http_exn LinkResult) :=
  try* fromId := resolveOrCreateBareRef fl am (ld_from dto) in
  try* toId := resolveOrCreateBareRef fl am (ld_to dto) in
  if bool_decide (ld_kind dto = "identity_of") then merge_ends now dto fromId toId
  else relate_ends now dto fromId toId.
End links.

(** ** Where an entity leads *)

(** Following [mergedInto] from [id] reaches the unmerged [r] in [n] hops. *)
Inductive leads (s : Graph) : nat → string → string → Prop :=
| leads_root id : merged_of s id = None → leads s 0 id id
| leads_hop n id m r : merged_of s id = Some m → leads s n m r → leads s (S n) id r.

(** Every entity leads somewhere: no cycle of merges. *)
Definition grounded (s : Graph) : Prop := ∀ id, ∃ n r, leads s n id r.

Definition merged_ids (s : Graph) : gset string := dom (filter (λ kv, is_Some (en_mergedInto kv.2)) (gr_entities s)).

Lemma elem_of_merged_ids s id : id ∈ merged_ids s ↔ is_Some (merged_of s id).
Proof.
  unfold merged_ids, merged_of. rewrite elem_of_dom. split.
  - intros [r Hr]. apply map_lookup_filter_Some in Hr as [Hr Hm]. rewrite Hr. exact Hm.
  - destruct (gr_entities s !! id) as [r|] eqn:E; cbn; [|by intros [? ?]]. intros Hm. exists r.
    by apply map_lookup_filter_Some.
Qed.

Lemma leads_functional s n m id r r' : leads s n id r → leads s m id r' → n = m ∧ r = r'.
Proof.
  intros H. revert m r'. induction H as [id Hid|n id x r Hid H IH]; intros m r' H'; inversion H'; subst; try congruence.
  - done.
  - assert (m0 = x) as -> by congruence. destruct (IH _ _ ltac:(eassumption)) as [-> ->]. done.
Qed.

Lemma leads_end s n id r : leads s n id r → merged_of s r = None.
Proof. by induction 1. Qed.

(** The hops on the way. *)
Fixpoint hops (n : nat) (s : Graph) (id : string) : list string :=
  match n with
  | O => []
  | S n' => match merged_of s id with Some m => m :: hops n' s m | None => [] end
  end.

Lemma hops_lead s n id r x : leads s n id r → x ∈ hops n s id → ∃ k, k < n ∧ leads s k x r.
Proof.
  intros H. induction H as [id Hid|n id m r Hid H IH]; cbn; [by intros ?%elem_of_nil|]. rewrite Hid.
  intros [->|Hx]%elem_of_cons; [exists n; by split; [lia|]|]. destruct (IH Hx) as (k & ? & ?). exists k. split; [lia|done].
Qed.

Lemma hops_last s n id r : leads s n id r → default id (last (hops n s id)) = r.
Proof.
  intros H. induction H as [id Hid|n id m r Hid H IH]; cbn; [done|]. rewrite Hid.
  rewrite last_cons. destruct (last (hops n s m)); exact IH.
Qed.

(** No entity is met twice, so the hops are as many as the merged entities at most. *)
Lemma hops_bound s n id r : leads s n id r → n ≤ size (merged_ids s).
Proof.
  intros H. assert (Hl : ∃ l : list string, length l = n ∧ NoDup l ∧
    ∀ x, x ∈ l → x ∈ merged_ids s ∧ ∃ k, k ≤ n ∧ leads s k x r).
  { induction H as [id Hid|n id m r Hid H IH]; [exists []; split_and!; [done|constructor|by intros x ?%elem_of_nil]|].
    destruct IH as (l & Hn & Hnd & Hl). exists (id :: l). split_and!; [by cbn; lia| |].
    - constructor; [|done]. intros Hin. destruct (Hl _ Hin) as (_ & k & Hk & Hlead).
      destruct (leads_functional s k (S n) id r r Hlead (leads_hop _ _ _ _ _ Hid H)). lia.
    - intros x [->|Hx]%elem_of_cons.
      + split; [apply elem_of_merged_ids; by exists m|]. exists (S n). split; [lia|by eapply leads_hop].
      + destruct (Hl x Hx) as (? & k & ? & ?). split; [done|]. exists k. split; [lia|done]. }
  destruct Hl as (l & <- & Hnd & Hl). rewrite <- (size_list_to_set (C:=gset string)) by done.
  apply subseteq_size. intros x Hx%elem_of_list_to_set. by apply Hl.
Qed.

(** Within its bound, the chain the datastore collects is the hops. *)
Lemma chain_hops s n k id r seen :
  leads s n id r → n ≤ k → (∀ x, x ∈ seen → ∃ j, n ≤ j ∧ leads s j x r) →
  merged_chain k s id seen = app seen (hops n s id).
Proof.
  intros H. revert k seen. induction H as [id Hid|n id m r Hid H IH]; intros k seen Hk Hseen.
  - rewrite app_nil_r. destruct k; cbn; [done|]. by rewrite Hid.
  - destruct k as [|k]; [lia|]. cbn [merged_chain hops]. rewrite Hid. rewrite bool_decide_eq_false_2.
    + rewrite IH; [by rewrite <- app_assoc|lia|]. intros x [Hx|Hx]%elem_of_app.
      * destruct (Hseen x Hx) as (j & ? & ?). exists j. split; [lia|done].
      * apply list_elem_of_singleton in Hx as ->. by exists n.
    + intros Hm. destruct (Hseen _ Hm) as (j & Hj & Hlead). destruct (leads_functional _ _ _ _ _ _ Hlead H). lia.
Qed.

Lemma survivor_leads s n id r : leads s n id r → n ≤ MERGE_HOPS → survivor s id = r.
Proof.
  intros H Hn. unfold survivor. rewrite (chain_hops s n MERGE_HOPS id r []); [by apply hops_last|done..|].
  by intros x ?%elem_of_nil.
Qed.

(** ** What a merge does *)

Lemma merged_of_point s loser m id :
  merged_of (point_at loser m s) id =
  if bool_decide (id = loser ∧ is_Some (gr_entities s !! loser)) then Some m else merged_of s id.
Proof.
  unfold merged_of, point_at. cbn. destruct (decide (id = loser)) as [->|Hne].
  - rewrite lookup_alter_eq. destruct (gr_entities s !! loser); cbn.
    + by rewrite bool_decide_eq_true_2.
    + rewrite bool_decide_eq_false_2; [done|]. by intros [_ [? ?]].
  - rewrite lookup_alter_ne by done. rewrite bool_decide_eq_false_2; [done|]. by intros [? _].
Qed.

Lemma pair_lock_comm a b : pair_lock a b = pair_lock b a.
Proof.
  unfold pair_lock. do 2 case_bool_decide; try done; [|destruct (total str_le a b); done].
  assert (a = b) as ->; [by apply (anti_symm str_le)|done].
Qed.

Lemma lock_writes_touch k k' s : lock_writes k' (touch_lock k s) = if bool_decide (k' = k) then S (lock_writes k s) else lock_writes k' s.
Proof.
  unfold lock_writes, touch_lock. cbn. case_bool_decide as E; [subst; by rewrite lookup_insert_eq|by rewrite lookup_insert_ne].
Qed.

(** Alone, the transaction's snapshot is what it commits on. *)
Definition merged_alone (loser survivor : string) (s : Graph) : Graph :=
  merge_writes (merge_verdict loser survivor s) loser survivor s.

Lemma merge_commit_alone loser survivor s :
  merge_commit loser survivor s s = (merged_alone loser survivor s, Ok (merge_verdict loser survivor s)).
Proof.
  unfold merge_commit, commits, lock_unwritten, row_unwritten, merged_alone. rewrite Nat.eqb_refl, bool_decide_eq_true_2 by done.
  by destruct (mv_reason _) as [[|]|].
Qed.

Lemma run_merge loser survivor s :
  run (retryOnUniqueViolation (merge_identity loser survivor)) s = (merged_alone loser survivor s, Ok (merge_verdict loser survivor s)).
Proof.
  unfold retryOnUniqueViolation. cbn [retryWhen]. unfold merge_identity at 1. rewrite !run_bind, run_query. cbn [fst snd].
  by rewrite run_update, merge_commit_alone.
Qed.

(** ** No two entities are merged into each other *)

Definition no_mutual (s : Graph) : Prop := ∀ a b, merged_of s a = Some b → merged_of s b ≠ Some a.

(** A new pointer shows in its pair's lock row, and no pair comes to point both ways. *)
Record merges_on (s s' : Graph) : Prop := {
  mo_locks k : lock_writes k s ≤ lock_writes k s';
  mo_new a b : merged_of s' a = Some b → lock_writes (pair_lock a b) s' = lock_writes (pair_lock a b) s → merged_of s a = Some b;
  mo_mutual : no_mutual s → no_mutual s'
}.

Lemma merges_on_same s s' : gr_locks s' = gr_locks s → (∀ id, merged_of s' id = merged_of s id) → merges_on s s'.
Proof.
  intros Hl Hm. unfold no_mutual. split; unfold lock_writes; rewrite ?Hl; [done| |].
  - intros a b. by rewrite Hm.
  - intros H a b. rewrite !Hm. apply H.
Qed.

Lemma merges_on_refl s : merges_on s s.
Proof. by apply merges_on_same. Qed.

Lemma merges_on_trans s1 s2 s3 : merges_on s1 s2 → merges_on s2 s3 → merges_on s1 s3.
Proof.
  intros H1 H2. split.
  - intros k. etransitivity; [apply H1|apply H2].
  - intros a b Hm Hl. pose proof (mo_locks _ _ H1 (pair_lock a b)). pose proof (mo_locks _ _ H2 (pair_lock a b)).
    apply (mo_new _ _ H1); [|lia]. apply (mo_new _ _ H2); [done|lia].
  - intros H. by apply H2, H1.
Qed.

Lemma merges_on_stable s0 : stable merges_on (merges_on s0).
Proof. intros s s' H1 H2. by eapply merges_on_trans. Qed.

Lemma touch_on k s : merges_on s (touch_lock k s).
Proof.
  split; [|done|done]. intros k'. rewrite lock_writes_touch. case_bool_decide as E; [subst; lia|done].
Qed.

Lemma elem_of_chain_seen n s id seen x : x ∈ seen → x ∈ merged_chain n s id seen.
Proof.
  revert id seen. induction n as [|n IH]; intros id seen Hx; [done|]. cbn. destruct (merged_of s id) as [m|]; [|done].
  case_bool_decide; [done|]. apply IH, elem_of_app. by left.
Qed.

Lemma first_hop n s id m : merged_of s id = Some m → m ∈ merged_chain (S n) s id [].
Proof.
  intros Hm. cbn [merged_chain]. rewrite Hm, bool_decide_eq_false_2 by apply not_elem_of_nil.
  apply elem_of_chain_seen. left.
Qed.

(** The commit on a snapshot of the past. *)
Lemma commit_on loser survivor s0 s : merges_on s0 s → merges_on s (merge_commit loser survivor s0 s).1.
Proof.
  intros H0. unfold merge_commit. destruct (commits _ _ _ _ _) eqn:Ec; [|apply merges_on_refl]. cbn [fst].
  unfold merge_verdict in *. case_bool_decide as Hs; [apply merges_on_refl|]. case_bool_decide as Hc; [apply touch_on|].
  unfold commits in Ec. cbn [mv_reason] in Ec. apply andb_true_iff in Ec as [Hl _]. apply Nat.eqb_eq in Hl.
  unfold merge_writes. cbn [mv_reason]. set (k := pair_lock loser survivor) in *. set (s' := point_at loser survivor (touch_lock k s)).
  assert (Hlk : ∀ k', lock_writes k' s' = if bool_decide (k' = k) then S (lock_writes k s) else lock_writes k' s) by (intros k'; exact (lock_writes_touch k k' s)).
  assert (Hnew : ∀ a b, merged_of s' a = Some b → (a = loser ∧ b = survivor) ∨ merged_of s a = Some b).
  { intros a b. unfold s'. rewrite merged_of_point. case_bool_decide as E; [|by right]. intros [= <-]. left. by destruct E. }
  split.
  - intros k'. rewrite Hlk. case_bool_decide as E; [subst; lia|done].
  - intros a b Ha. rewrite Hlk. destruct (Hnew a b Ha) as [[-> ->]|]; [|done]. rewrite bool_decide_eq_true_2 by done. fold k. lia.
  - assert (Hback : merged_of s survivor ≠ Some loser).
    { intros Hm. apply Hc. apply (mo_new _ _ H0) in Hm; [|by rewrite pair_lock_comm]. by apply (first_hop 31). }
    intros Hno a b Ha Hb. destruct (Hnew a b Ha) as [[-> ->]|Ha']; destruct (Hnew _ _ Hb) as [[? ?]|Hb']; try congruence; by eapply Hno.
Qed.

Lemma merge_ensures loser survivor :
  ensures merges_on (λ _, True) (retryOnUniqueViolation (merge_identity loser survivor)) (λ _ _, True).
Proof.
  assert (H1 : ensures merges_on (λ _, True) (merge_identity loser survivor) (λ _ _, True)).
  { apply ensures_bind with (Q1 := merges_on); [apply merges_on_stable| |].
    - apply ensures_query_refl; [apply merges_on_refl|apply merges_on_stable|]. intros s _. apply merges_on_refl.
    - intros s0. apply ensures_update; [done|]. intros s Hs. split; [|done]. by apply commit_on. }
  unfold retryOnUniqueViolation. generalize 7 (Internal "undefined"). intros n. induction n as [|n IH]; intros e; [done|].
  cbn [retryWhen]. apply ensures_bind with (Q1 := λ _ _, True); [done|done|]. intros [v|e']; [done|].
  destruct (_ || _); [apply IH|done].
Qed.

(** ** Where merges that run alone lead *)

(** What the graph may become: entities once merged stay merged, and while no more are
    merged than the guard can walk, every entity leads somewhere. *)
Definition moves (s s' : Graph) : Prop :=
  merged_ids s ⊆ merged_ids s' ∧ (size (merged_ids s') ≤ MERGE_HOPS → grounded s → grounded s').

Lemma leads_ext s s' n id r :
  (∀ i, merged_of s' i = merged_of s i) → leads s n id r → leads s' n id r.
Proof.
  intros H. induction 1 as [id Hid|n id m r Hid Hl IH]; [apply leads_root; by rewrite H|].
  apply leads_hop with m; [by rewrite H|done].
Qed.

Lemma merge_moves_same s s' : gr_locks s' = gr_locks s → (∀ i, merged_of s' i = merged_of s i) → moves s s'.
Proof.
  intros _ H. split.
  - intros i. by rewrite !elem_of_merged_ids, H.
  - intros _ Hg id. destruct (Hg id) as (n & r & Hl). exists n, r. by eapply leads_ext.
Qed.

Lemma moves_refl s : moves s s.
Proof. by apply merge_moves_same. Qed.

Lemma moves_trans s1 s2 s3 : moves s1 s2 → moves s2 s3 → moves s1 s3.
Proof.
  intros [H1 H2] [H3 H4]. split; [by etransitivity|]. intros Hb Hg. apply H4; [done|]. apply H2; [|done].
  etransitivity; [by apply subseteq_size|done].
Qed.

Lemma leads_avoid s s' loser n m r :
  (∀ i, i ≠ loser → merged_of s' i = merged_of s i) → leads s n m r → m ≠ loser → loser ∉ hops n s m →
  leads s' n m r.
Proof.
  intros Hmo Hm. induction Hm as [i Hi|n i x r Hi Hl IH]; intros Hne Hav.
  - apply leads_root. by rewrite Hmo.
  - cbn in Hav. rewrite Hi in Hav. apply not_elem_of_cons in Hav as [Hx Hav].
    apply leads_hop with x; [by rewrite Hmo|]. apply IH; congruence.
Qed.

(** A chain that avoids the loser is as it was; any other now ends where the survivor does. *)
Lemma leads_merge s loser m n r k r' id :
  let s' := point_at loser m s in
  is_Some (gr_entities s !! loser) → leads s n m r → m ≠ loser → loser ∉ hops n s m →
  leads s k id r' → leads s' n m r ∧ ∃ j r0, leads s' j id r0.
Proof.
  intros s' Hin Hm Hne Hav Hid.
  assert (Hmo : ∀ i, merged_of s' i = if bool_decide (i = loser) then Some m else merged_of s i).
  { intros i. unfold s'. rewrite merged_of_point. by rewrite (bool_decide_ext _ (i = loser)) by tauto. }
  assert (Hm' : leads s' n m r).
  { apply (leads_avoid s s' loser); [|done..]. intros i Hi. by rewrite Hmo, bool_decide_eq_false_2. }
  split; [done|]. assert (Hlo : leads s' (S n) loser r).
  { apply leads_hop with m; [|done]. by rewrite Hmo, bool_decide_eq_true_2. }
  induction Hid as [i Hi|k i x r' Hi Hl IH].
  - destruct (decide (i = loser)) as [->|Hi']; [by exists (S n), r|]. exists 0, i. apply leads_root.
    by rewrite Hmo, bool_decide_eq_false_2.
  - destruct (decide (i = loser)) as [->|Hi']; [by exists (S n), r|]. destruct IH as (j & r0 & Hj). exists (S j), r0.
    apply leads_hop with x; [|done]. by rewrite Hmo, bool_decide_eq_false_2.
Qed.

Lemma moves_point s loser m :
  m ≠ loser → loser ∉ merged_chain MERGE_HOPS s m [] → moves s (point_at loser m s).
Proof.
  intros Hne Hav. assert (Hs : merged_ids s ⊆ merged_ids (point_at loser m s)).
  { intros i. rewrite !elem_of_merged_ids, merged_of_point. case_bool_decide; [by eexists|done]. }
  split; [done|]. intros Hb Hg. apply subseteq_size in Hs. destruct (gr_entities s !! loser) as [row|] eqn:E.
  - destruct (Hg m) as (n & r & Hm). pose proof (hops_bound _ _ _ _ Hm).
    rewrite (chain_hops s n MERGE_HOPS m r []) in Hav; [|done|lia|by intros x ?%elem_of_nil]. cbn [app] in Hav.
    intros id. destruct (Hg id) as (k & r' & Hid). by eapply leads_merge.
  - intros id. destruct (Hg id) as (k & r' & Hid). exists k, r'. eapply leads_ext; [|exact Hid].
    intros i. rewrite merged_of_point, bool_decide_eq_false_2; [done|]. rewrite E. by intros [_ [? ?]].
Qed.

Lemma moves_touch k s : moves s (touch_lock k s).
Proof. split; [done|]. intros _ Hg id. destruct (Hg id) as (n & r & Hid). exists n, r. by apply (leads_ext s). Qed.

Lemma moves_merge loser m s : moves s (merged_alone loser m s).
Proof.
  unfold merged_alone, merge_verdict. case_bool_decide as Hs; [apply moves_refl|]. case_bool_decide as Hc; [apply moves_touch|].
  unfold merge_writes. cbn [mv_reason]. eapply moves_trans; [apply moves_touch|]. apply moves_point; [congruence|].
  by rewrite (merged_chain_ext _ s).
Qed.

(** ** Links and facts together *)

Inductive graph_call : Type :=
| GFact (ref : EntityRef) (userId : option string)
| GLink (now : Z) (dto : LinkDto).

Section calls.
Context `{Script} (fl : NameFlags) (am : Ambient).

Definition graph_prog (c : graph_call) : prog Graph unit :=
  match c with
  | GFact ref userId => do* _ := resolveOrCreateEntity fl am ref userId in Done tt
  | GLink now dto => do* _ := ingestLink fl am now dto in Done tt
  end.

Lemma bareRef_ensures ref : always merges_on (resolveOrCreateBareRef fl am ref).
Proof. apply always_bareRef; [apply merges_on_refl|apply merges_on_same]. Qed.

Lemma relate_ensures now dto f t : always merges_on (relate_ends am now dto f t).
Proof. apply always_bind; [|done]. apply always_zoom. intros e s. by apply merges_on_same. Qed.

Lemma link_ensures now dto : ensures merges_on (λ _, True) (ingestLink fl am now dto) (λ _ _, True).
Proof.
  unfold ingestLink, ebind. apply ensures_bind with (Q1 := λ _ _, True); [done|apply always_ensures_any, bareRef_ensures|].
  intros [f|e]; [|done]. apply ensures_bind with (Q1 := λ _ _, True); [done|apply always_ensures_any, bareRef_ensures|].
  intros [t|e]; [|done]. case_bool_decide; [|apply always_ensures_any, relate_ensures].
  unfold merge_ends. case_bool_decide; [done|].
  apply ensures_bind with (Q1 := λ _ _, True); [done|apply merge_ensures|].
  intros [v|e]; [|done]. destruct (mv_merged v); [apply always_ensures_any, relate_ensures|done].
Qed.

Lemma graph_call_ensures c : ensures merges_on (λ _, True) (graph_prog c) (λ _ _, True).
Proof.
  destruct c as [ref userId|now dto]; (apply ensures_bind with (Q1 := λ _ _, True); [done| |done]); [|apply link_ensures].
  apply always_ensures_any, always_fact_entity; [apply merges_on_refl|apply merges_on_same].
Qed.

(** A call that runs alone. *)
Lemma run_always {A} (p : prog Graph A) s : always moves p → moves s (run p s).1.
Proof. intros Hp. by apply always_run; [apply moves_refl|apply moves_trans|]. Qed.

Lemma bareRef_moves ref s : moves s (run (resolveOrCreateBareRef fl am ref) s).1.
Proof. apply run_always, always_bareRef; [apply moves_refl|apply merge_moves_same]. Qed.

Lemma relate_moves now dto f t s : moves s (run (relate_ends am now dto f t) s).1.
Proof. apply run_always, always_bind; [|done]. apply always_zoom. intros e s1. by apply merge_moves_same. Qed.

Lemma link_moves now dto s : moves s (run (ingestLink fl am now dto) s).1.
Proof.
  unfold ingestLink. rewrite run_ebind. pose proof (bareRef_moves (ld_from dto) s) as H1.
  destruct (run _ s) as [s1 [f|e]]; [|done]. cbn [fst snd] in *. rewrite run_ebind. pose proof (bareRef_moves (ld_to dto) s1) as H2.
  destruct (run _ s1) as [s2 [t|e]]; cbn [fst snd] in *; [|by eapply moves_trans].
  eapply moves_trans; [exact H1|]. eapply moves_trans; [exact H2|]. case_bool_decide; [|apply relate_moves].
  unfold merge_ends. case_bool_decide; [apply moves_refl|]. rewrite run_ebind, run_merge. cbn [fst snd].
  destruct (mv_merged _); [|apply moves_merge]. eapply moves_trans; [apply moves_merge|apply relate_moves].
Qed.

Lemma call_moves c s : moves s (run (graph_prog c) s).1.
Proof.
  destruct c as [ref userId|now dto]; cbn [graph_prog]; rewrite run_bind; cbn [run fst]; [|apply link_moves].
  apply run_always, always_fact_entity; [apply moves_refl|apply merge_moves_same].
Qed.

Definition one_after_another (cs : list graph_call) (s : Graph) : Graph := fold_left (λ s c, (run (graph_prog c) s).1) cs s.

Lemma calls_move cs s : moves s (one_after_another cs s).
Proof.
  revert s. induction cs as [|c cs IH]; intros s; [apply moves_refl|]. eapply moves_trans; [apply call_moves|apply IH].
Qed.

(** C31. Identity links and facts, any number of them. However their statements interleave,
    each merge a transaction that decides on its own snapshot: no two entities are ever
    merged into each other, when none were. When they run one after another: no merge
    closes a cycle, as long as no more entities were ever merged than the guard's 32 hops,
    so the id any id is followed to is not itself merged away (a link to an id without a
    row can make that id one without an entity). Interleaved merges of three pairs can
    still close a cycle, as the migration says. *)
Theorem merges_are_never_mutual sched cs s :
  (no_mutual s → no_mutual (run_pool sched (s, map graph_prog cs)).1) ∧
  (grounded s →
   let s1 := one_after_another cs s in
   size (merged_ids s1) ≤ MERGE_HOPS → ∀ id, merged_of s1 (survivor s1 id) = None).
Proof.
  split.
  - apply mo_mutual. apply (pool_moves merges_on sched (s, _) (map (λ _ _ _, True) cs)); [apply merges_on_refl|apply merges_on_trans|].
    cbn [fst snd]. apply Forall2_fmap_2. apply Forall_Forall2_diag, Forall_forall. intros c _.
    exists (λ _, True). by split_and!; [| |apply graph_call_ensures].
  - intros Hg s1 Hb id. destruct (calls_move cs s) as [_ Hm]. destruct (Hm Hb Hg id) as (n & r & Hl). fold s1 in Hl.
    pose proof (hops_bound _ _ _ _ Hl). rewrite (survivor_leads s1 n id r); [by eapply leads_end|done|lia].
Qed.
End calls.

(** ** Declaring two references identical *)

Lemma grounded_leads s id :
  grounded s → size (merged_ids s) ≤ MERGE_HOPS → ∃ n, n ≤ size (merged_ids s) ∧ leads s n id (survivor s id).
Proof.
  intros Hg Hb. destruct (Hg id) as (n & r & Hl). pose proof (hops_bound _ _ _ _ Hl).
  exists n. split; [done|]. by rewrite (survivor_leads s n id r); [|done|lia].
Qed.

Lemma root_leads s n id r : leads s n id r → merged_of s id = None → n = 0 ∧ r = id.
Proof. intros H Hid. by apply (leads_functional s n 0 id r id); [|apply leads_root]. Qed.

(** Merging one root into another moves exactly what led to it. *)
Lemma survivor_merge s loser m id :
  grounded s → size (merged_ids s) < MERGE_HOPS → has_row s loser →
  merged_of s loser = None → merged_of s m = None → m ≠ loser →
  let s' := point_at loser m s in
  survivor s' id = if bool_decide (survivor s id = loser) then m else survivor s id.
Proof.
  intros Hg Hb Hp Hl Hm Hne s'. assert (Hmo : ∀ i, merged_of s' i = if bool_decide (i = loser) then Some m else merged_of s i).
  { intros i. unfold s'. rewrite merged_of_point. by rewrite (bool_decide_ext _ (i = loser)) by tauto. }
  destruct (grounded_leads s id Hg) as (n & Hn & Hid); [lia|]. case_bool_decide as E.
  - assert (H : leads s' (S n) id m); [|apply (survivor_leads s' (S n)); [done|lia]].
    rewrite E in Hid. clear E Hn. induction Hid as [i Hi|n i x r Hi Hx IH].
    + apply leads_hop with m; [by rewrite Hmo, bool_decide_eq_true_2|]. apply leads_root.
      by rewrite Hmo, bool_decide_eq_false_2.
    + apply leads_hop with x; [|by apply IH]. rewrite Hmo, bool_decide_eq_false_2; [done|]. congruence.
  - apply (survivor_leads s' n); [|lia]. apply (leads_avoid s s' loser); [|done|..].
    + intros i Hi. by rewrite Hmo, bool_decide_eq_false_2.
    + intros ->. destruct (root_leads _ _ _ _ Hid Hl). done.
    + intros Hin. destruct (hops_lead _ _ _ _ _ Hid Hin) as (k & _ & Hk). destruct (root_leads _ _ _ _ Hk Hl). done.
Qed.

Lemma merge_roots s loser m :
  merged_of s m = None → m ≠ loser →
  run (retryOnUniqueViolation (merge_identity loser m)) s =
    (point_at loser m (touch_lock (pair_lock loser m) s), Ok {| mv_merged := true; mv_reason := None |}).
Proof.
  intros Hm Hne. rewrite run_merge. unfold merged_alone. enough (merge_verdict loser m s = {| mv_merged := true; mv_reason := None |}) as -> by done.
  unfold merge_verdict. rewrite bool_decide_eq_false_2 by done.
  rewrite bool_decide_eq_false_2; [done|]. unfold MERGE_HOPS. cbn. rewrite Hm. by intros ?%elem_of_nil.
Qed.

Section identity.
Context `{Script} (fl : NameFlags) (am : Ambient).

Definition plain_ref (v i : string) : EntityRef :=
  {| er_vertical := Some v; er_id := Some i; er_entityId := None |}.

Lemma sameReference_plain v i v' i' :
  sameReference (plain_ref v i) (plain_ref v' i') = true → externalRefKey v i = externalRefKey v' i'.
Proof.
  unfold sameReference, ref_pair, plain_ref, truthy. cbn. do 4 (case_bool_decide; try done).
  apply bool_decide_eq_true.
Qed.

Lemma run_bareRef v i s :
  ∃ s' id, run (resolveOrCreateBareRef fl am (plain_ref v i)) s = (s', Ok id) ∧ graph_grows s s' ∧
    names_entity (externalRefKey v i) id s'.
Proof.
  assert (He : ensures graph_grows (λ _, True) (resolveOrCreateBareRef fl am (plain_ref v i)) (named_by (externalRefKey v i))).
  { apply upsert_ensures; [done|apply adoptByReferenceId_root]. }
  destruct (ensures_run _ _ _ _ s He I) as (id & Hid & Hn). exists (run (resolveOrCreateBareRef fl am (plain_ref v i)) s).1, id.
  split_and!; [by rewrite <- Hid, <- surjective_pairing| |done].
  eapply ensures_moves; [apply graph_grows_refl|apply graph_grows_trans|exact He|done].
Qed.

Lemma merged_ids_grows s s' : graph_grows s s' → merged_ids s' = merged_ids s.
Proof. intros Hg. apply set_eq. intros i. by rewrite !elem_of_merged_ids, (gg_merged _ _ Hg). Qed.

Lemma grounded_grows s s' : graph_grows s s' → grounded s → grounded s'.
Proof. intros Hg Hs id. destruct (Hs id) as (n & r & ?). exists n, r. eapply leads_ext; [apply Hg|done]. Qed.

Lemma lookup_edges key m s : lookupExternalRef key (with_edges m s) = lookupExternalRef key s.
Proof.
  unfold lookupExternalRef. change (gr_refs (with_edges m s)) with (gr_refs s).
  destruct (gr_refs s !! key) as [e|]; cbn [fmap option_fmap option_map]; [|reflexivity]. change (Some (survivor (with_edges m s) e) = Some (survivor s e)).
  by rewrite (survivor_ext s (with_edges m s) e).
Qed.

Lemma run_relate_ends now dto f t s :
  ∃ m e, run (relate_ends am now dto f t) s =
    (with_edges m s, Ok {| lr_edgeId := e; lr_fromEntityId := f; lr_toEntityId := t; lr_kind := ld_kind dto;
                           lr_alreadyIdentical := false |}).
Proof.
  unfold relate_ends. rewrite run_bind. unfold on_edges. rewrite run_zoom by (try by intros []; done).
  eexists _, _. reflexivity.
Qed.

(** Declaring two references identical makes them one from then on: both name the
    survivor, which is what the first named; of the other references exactly those that
    named the merged entity follow. The only refusal is the same reference given twice, and
    it changes no reference. *)
Theorem identity_links_unify now dto v i v' i' s :
  refs_ok s → grounded s → size (merged_ids s) < MERGE_HOPS →
  ld_from dto = plain_ref v i → ld_to dto = plain_ref v' i' → ld_kind dto = "identity_of" →
  let o := run (ingestLink fl am now dto) s in
  let kept k := lookupExternalRef k o.1 = lookupExternalRef k s in
  match o.2 with
  | Ok r =>
      lookupExternalRef (externalRefKey v i) o.1 = Some (lr_fromEntityId r) ∧
      lookupExternalRef (externalRefKey v' i') o.1 = Some (lr_fromEntityId r) ∧
      ∀ k e, lookupExternalRef k s = Some e →
        lookupExternalRef k o.1 = Some (if bool_decide (e = lr_toEntityId r) then lr_fromEntityId r else e)
  | Throw e =>
      e = SELF_MERGE ∧ externalRefKey v i = externalRefKey v' i' ∧
      ∀ k e, lookupExternalRef k s = Some e → lookupExternalRef k o.1 = Some e
  end.
Proof.
  intros Hok Hg Hb Hf Ht Hk.
  destruct (run_bareRef v i s) as (s1 & f & E1 & H1 & Hkf). destruct (run_bareRef v' i' s1) as (s2 & t & E2 & H2 & Hkt).
  assert (run (ingestLink fl am now dto) s = run (merge_ends am now dto f t) s2) as ->.
  { unfold ingestLink. rewrite run_ebind, Hf, E1. cbn [fst snd]. rewrite run_ebind, Ht, E2. cbn [fst snd].
    by rewrite Hk, bool_decide_eq_true_2. }
  pose proof (graph_grows_trans _ _ _ H1 H2) as H12. apply (stable_names _ _ _ _ Hkf) in H2 as Hkf2.
  apply H12 in Hok. apply (grounded_grows _ _ H12) in Hg. rewrite <- (merged_ids_grows _ _ H12) in Hb.
  assert (Hroot : ∀ k e, lookupExternalRef k s2 = Some e → has_row s2 e ∧ merged_of s2 e = None).
  { intros k e He. unfold lookupExternalRef in He. apply fmap_Some in He as (x & Hx & ->). split.
    - apply survivor_present; [done|]. by eapply ro_refs.
    - destruct (grounded_leads s2 x Hg) as (n & _ & Hl); [lia|]. by eapply leads_end. }
  destruct (Hroot _ _ Hkf2) as [Hpf Hrf]. destruct (Hroot _ _ Hkt) as [Hpt Hrt].
  assert (Hold : ∀ k e, lookupExternalRef k s = Some e → lookupExternalRef k s2 = Some e).
  { intros k e He. by apply (stable_names k e s). }
  unfold merge_ends. case_bool_decide as E.
  - subst t. cbn. destruct (sameReference (ld_from dto) (ld_to dto)) eqn:Es; cbn.
    + split_and!; [done| |done]. rewrite Hf, Ht in Es. by apply sameReference_plain.
    + split_and!; [done..|]. intros k e He. rewrite (Hold k e He). by case_bool_decide as E; [rewrite E|].
  - rewrite run_ebind, (ro_record _ Hok t Hpt), (ro_record _ Hok f Hpf), merge_roots by congruence. cbn [fst snd mv_merged].
    set (s3 := point_at t f (touch_lock (pair_lock t f) s2)).
    destruct (run_relate_ends now dto f t s3) as (m & e0 & ->). cbn [fst snd lr_fromEntityId lr_toEntityId].
    assert (Hl : ∀ k e, lookupExternalRef k s2 = Some e →
      lookupExternalRef k (with_edges m s3) = Some (if bool_decide (e = t) then f else e)).
    { intros k e He. rewrite lookup_edges. unfold lookupExternalRef in *. apply fmap_Some in He as (x & Hx & ->).
      change (gr_refs s3) with (gr_refs s2). rewrite Hx. cbn [fmap option_fmap option_map]. f_equal.
      rewrite (survivor_ext (point_at t f s2) s3) by done. by apply (survivor_merge s2 t f x). }
    split_and!.
    + rewrite (Hl _ _ Hkf2). by rewrite bool_decide_eq_false_2.
    + rewrite (Hl _ _ Hkt). by rewrite bool_decide_eq_true_2.
    + intros k e He. by apply Hl, Hold.
Qed.
End identity.

(** ** Examples *)

(** Transliteration of plain ASCII names: they are their own. *)
Definition ascii_script : Script :=
  {| anyAscii := λ s, s; has_letter_or_digit := str_exists is_alnum; nfkc := λ s, s |}.

Definition by_id (id : string) : EntityRef := {| er_vertical := None; er_id := None; er_entityId := Some id |}.

Definition identity_link (a b : EntityRef) : LinkDto :=
  {| ld_from := a; ld_to := b; ld_kind := "identity_of"; ld_weight := None; ld_source := [("vertical", VStr "crm")] |}.

Definition plain_flags : NameFlags := {| nf_articles := true; nf_codeAlias := false |}.

Definition node (name : string) (merged : option string) : EntityRow :=
  with_mergedInto merged (reference_row name name None []).

Definition graph_of (rows : list (string * EntityRow)) : Graph :=
  {| gr_entities := list_to_map rows; gr_refs := ∅; gr_edges := ∅; gr_facts := []; gr_predicates := []; gr_locks := ∅ |}.

Definition link_prog (dto : LinkDto) : prog Graph (result http_exn LinkResult) :=
  ingestLink (H := ascii_script) plain_flags no_ambient 100 dto.

Definition A : string := "knowledge_entity:a".
Definition B : string := "knowledge_entity:b".

Definition pair_graph : Graph := graph_of [(A, node "anna" None); (B, node "bert" None)].

Lemma unmerged_grounded s : (∀ id, merged_of s id = None) → grounded s.
Proof. intros H id. exists 0, id. by apply leads_root. Qed.

Lemma pair_unmerged id : merged_of pair_graph id = None.
Proof.
  unfold merged_of. cbn [gr_entities pair_graph graph_of].
  destruct (list_to_map _ !! id) as [r|] eqn:E; [|done]. cbn.
  apply elem_of_list_to_map_2 in E. cbn in E. set_unfold in E. destruct E as [[= _ ->]|[[= _ ->]|[]]]; done.
Qed.

(** Two links that declare the pair identical in opposite directions, both deciding on the
    first snapshot: the second commit meets the lock row, and again the guard. *)
Lemma merges_are_never_mutual_witness :
  let cs := [GLink 100 (identity_link (by_id A) (by_id B)); GLink 100 (identity_link (by_id B) (by_id A))] in
  let progs := map (graph_prog (H := ascii_script) plain_flags no_ambient) cs in
  let s' := (run_pool [0; 1; 0; 1; 1; 1] (pair_graph, progs)).1 in
  let s1 := one_after_another (H := ascii_script) plain_flags no_ambient cs pair_graph in
  merged_of s' B = Some A ∧ merged_of s' A ≠ Some B ∧ merged_of s1 (survivor s1 B) = None.
Proof.
  intros cs progs s' s1.
  destruct (merges_are_never_mutual (H := ascii_script) plain_flags no_ambient [0; 1; 0; 1; 1; 1] cs pair_graph) as [H1 H2].
  assert (Hb : merged_of s' B = Some A) by (vm_compute; reflexivity). split; [exact Hb|]. split.
  - apply H1; [|exact Hb]. intros a b. by rewrite pair_unmerged.
  - apply H2; [apply unmerged_grounded, pair_unmerged|]. apply Nat.leb_le. vm_compute. reflexivity.
Defined.

(** The merges of three pairs hold three locks: decided on one snapshot, all commit, and
    none of the three has a survivor. *)
Lemma three_merges_close_a_cycle :
  let C := "knowledge_entity:c" in
  let s := graph_of [(A, node "anna" None); (B, node "bert" None); (C, node "carl" None)] in
  let merge loser survivor := merge_identity loser survivor in
  let o := run_pool [0; 1; 2; 0; 1; 2] (s, [merge A B; merge B C; merge C A]) in
  (map (merged_of o.1) [A; B; C] = [Some B; Some C; Some A]) ∧
  o.2 = replicate 3 (Done (Ok {| mv_merged := true; mv_reason := None |})).
Proof. split; vm_compute; reflexivity. Qed.

Definition no_graph : Graph := graph_of [].

Lemma empty_refs_ok : refs_ok no_graph.
Proof. split; [by intros k e|by intros id m|by intros id [r Hr]]. Qed.

Lemma identity_links_unify_witness :
  let o := run (link_prog (identity_link (plain_ref "crm" "anna") (plain_ref "desk" "a17"))) no_graph in
  is_ok o.2 = true ∧ lookupExternalRef "crm__anna" o.1 = lookupExternalRef "desk__a17" o.1.
Proof.
  intros o. assert (Ho : is_ok o.2 = true) by (vm_compute; reflexivity). split; [exact Ho|].
  pose proof empty_refs_ok as Hok. assert (Hg : grounded no_graph) by (apply unmerged_grounded; reflexivity).
  pose proof (identity_links_unify (H := ascii_script) plain_flags no_ambient 100
    (identity_link (plain_ref "crm" "anna") (plain_ref "desk" "a17")) "crm" "anna" "desk" "a17" no_graph
    Hok Hg ltac:(apply Nat.ltb_lt; vm_compute; reflexivity) eq_refl eq_refl eq_refl) as H.
  cbv zeta in H. fold (link_prog (identity_link (plain_ref "crm" "anna") (plain_ref "desk" "a17"))) in H. fold o in H.
  destruct o.2 as [r|e]; [|discriminate Ho]. destruct H as (H1 & H2 & _). etransitivity; [exact H1|symmetry; exact H2].
Defined.

(** A survivor that does not exist: the merge still writes, and the loser leads to no row. *)
Lemma merge_into_a_ghost :
  let o := run (link_prog (identity_link (by_id "knowledge_entity:ghost") (by_id A))) pair_graph in
  is_ok o.2 = true ∧ survivor o.1 A = "knowledge_entity:ghost" ∧ gr_entities o.1 !! "knowledge_entity:ghost" = None.
Proof. split_and!; vm_compute; reflexivity. Qed.

(** A merged entity named by id is merged again: what it was declared identical with before
    is forgotten, and both links are answered as done. *)
Lemma second_merge_undoes_the_first :
  let s := graph_of [(A, node "anna" None); (B, node "bert" None); ("knowledge_entity:c", node "carl" None)] in
  let s1 := run (link_prog (identity_link (by_id A) (by_id "knowledge_entity:c"))) s in
  let s2 := run (link_prog (identity_link (by_id B) (by_id "knowledge_entity:c"))) s1.1 in
  is_ok s1.2 = true ∧ survivor s1.1 "knowledge_entity:c" = A ∧
  is_ok s2.2 = true ∧ survivor s2.1 "knowledge_entity:c" = B ∧ survivor s2.1 A = A.
Proof. split_and!; vm_compute; reflexivity. Qed.

Definition numbered (i : nat) : string := "knowledge_entity:" +:+ String (Ascii.ascii_of_nat (48 + i)) "".

(** Thirty-three merges in a row are one more than the guard walks: the next closes the
    chain, and nobody in it has a survivor any more. *)
Definition long_chain : Graph :=
  graph_of (map (λ i, (numbered i, node "n" (if i <? 33 then Some (numbered (S i)) else None))) (seq 0 34)).

Lemma long_chain_closes_a_cycle :
  let o := run (link_prog (identity_link (by_id (numbered 0)) (by_id (numbered 33)))) long_chain in
  is_ok o.2 = true ∧ forallb (λ i, match merged_of o.1 (numbered i) with Some _ => true | None => false end) (seq 0 34) = true.
Proof. split; vm_compute; reflexivity. Qed.

(** The link of a new reference to itself is refused, and the entity is there. *)
Lemma refused_self_link_mints :
  let o := run (link_prog (identity_link (plain_ref "crm" "anna") (plain_ref "crm" "anna"))) no_graph in
  o.2 = Throw SELF_MERGE ∧ size (gr_entities o.1) = 1.
Proof. split; vm_compute; reflexivity. Qed.
