(* ===== verification/EntityResolver.v ===== *)
(** * Which entity a name may be

    [ingest/entity-candidates.service.ts] (the scans that propose an entity for a name),
    the evidence half of [ai/entity-judge.service.ts], [ingest/entity-resolver.service.ts]
    (the judged match, and the check of a same name) and [ai/predicate-semantics.ts] with
    the semantics of [ai/predicate-registry-internals/core-seed.ts]. The datastore's string
    and vector functions, the embedder and the judge's answers are the class [Models]; a
    query that fails is left out (the code then goes on without it). *)

From S2P Require Import Prelude Js Resume Names EdgeWriter EntityGraph.
From stdpp Require Import sorting.
From Stdlib Require Import Uint63.
Local Open Scope string_scope.
Local Open Scope nat_scope.

(** ** What answers the code asks for *)

Inductive EntityVerdict : Type := Same | Different | Unsure.

Inductive MatchKind : Type := MTranslit | MEmbedding | MNamePart | MSharedWord | MInitials.

(** [JudgeContext['similarity']]: a scan's kind, or the very same name. *)
Inductive Similarity : Type := Scanned (k : MatchKind) | SameName.

Record JudgeContext := {
  jx_cosine : float;
  jx_similarity : Similarity;
  jx_nameA : option string;
  jx_nameB : option string
}.

Class Models := {
  levenshtein : string → string → nat;
  cosine_similarity : list float → list float → float;
  embed : string → option (list float);
  embed_for_write : string → option Embedding;
  judge : string → string → JudgeContext → EntityVerdict
}.

Definition num (n : nat) : float := PrimFloat.of_uint63 (Uint63.of_Z (Z.of_nat n)).

(** ** Scans *)

Record NameCandidate := {
  nc_entityId : string;
  nc_canonicalName : string;
  nc_cosine : float;
  nc_matchKind : MatchKind
}.

Record NameScanQuery := { nq_name : string; nq_type : string; nq_excludeId : option string }.

Record ScanBounds := { sb_keyNeighbourCeiling : float; sb_cosineFloor : float; sb_candidateK : nat }.

(** The fence every scan shares. *)
Definition scan_fence (q : NameScanQuery) (kv : string * EntityRow) : bool :=
  bool_decide (en_type kv.2 = nq_type q) && bool_decide (en_userId kv.2 = None) && unmerged kv.2 &&
  match truthy (nq_excludeId q) with Some x => negb (bool_decide (kv.1 = x)) | None => true end.

Definition scan_rows (q : NameScanQuery) (p : EntityRow → bool) (s : Graph) : list (string * EntityRow) :=
  List.filter (λ kv, scan_fence q kv && p kv.2) (map_to_list (gr_entities s)).

(** [string::ends_with] *)
Definition ends_with (suffix s : string) : bool := starts_with (str_rev suffix) (str_rev s).

Definition isPart (a b : string) : bool :=
  negb (bool_decide (a = b)) &&
  (starts_with (b +:+ " ") a || ends_with (" " +:+ b) a || str_contains (" " +:+ b +:+ " ") a).

(** Two rows an [identity_of] edge joins are one identity. *)
Definition identity_edge (a b : string) (s : Graph) : bool :=
  existsb (λ kv, bool_decide (eg_kind kv.2 = "identity_of") &&
                 (bool_decide (eg_in kv.2 = a ∧ eg_out kv.2 = b) || bool_decide (eg_in kv.2 = b ∧ eg_out kv.2 = a)))
    (map_to_list (gr_edges s)).

Definition oneIdentity (rows : list (string * EntityRow)) : prog Graph (option (string * EntityRow)) :=
  match rows with
  | [r] => Done (Some r)
  | [a; b] => do* joined := query (identity_edge a.1 b.1) in Done (if joined : bool then Some a else None)
  | _ => Done None
  end.

Section scans.
Context `{Script, Models} (bounds : ScanBounds).

(** [math::min(nameKeys.map(levenshtein))] *)
Definition key_distance (key : string) (r : EntityRow) : nat :=
  match map (levenshtein key) (en_nameKeys r) with d :: ds => fold_left Nat.min ds d | [] => 0 end.

(** [ORDER BY dist ASC LIMIT 1] *)
Definition nearest (key : string) (rows : list (string * EntityRow)) : option (string * EntityRow) :=
  fold_left (λ best kv, match best with
                        | Some b => if key_distance key kv.2 <? key_distance key b.2 then Some kv else Some b
                        | None => Some kv
                        end) rows None.

Definition findKeyNeighbour (q : NameScanQuery) : prog Graph (option NameCandidate) :=
  let key := nameKey (nq_name q) in
  if bool_decide (key = "") then Done None
  else
    do* best := query (λ s, nearest key (scan_rows q (λ r, 0 <? length (en_nameKeys r)) s)) in
    Done (match best with
          | None => None
          | Some (id, r) =>
              let matched := default "" (head (en_nameKeys r)) in
              let span := Nat.max (Nat.max (String.length key) (String.length matched)) 1 in
              let normalized := (num (key_distance key r) / num span)%float in
              if ((normalized <=? 0)%float || (sb_keyNeighbourCeiling bounds <? normalized)%float) then None
              else Some {| nc_entityId := id; nc_canonicalName := en_canonicalName r; nc_cosine := (1 - normalized)%float;
                           nc_matchKind := MTranslit |}
          end).

(** The datastore's filter of the token-subset scan. *)
Definition subset_row (key : string) (r : EntityRow) : bool :=
  existsb (λ k, negb (bool_decide (k = key)) &&
                (starts_with (key +:+ " ") k || ends_with (" " +:+ key) k || str_contains (" " +:+ key +:+ " ") k ||
                 starts_with (k +:+ " ") key || ends_with (" " +:+ k) key)) (en_nameKeys r).

Definition findTokenSubsetCandidate (q : NameScanQuery) : prog Graph (option NameCandidate) :=
  let key := nameKey (nq_name q) in
  if bool_decide (key = "") then Done None
  else
    do* rows := query (λ s, take 3 (scan_rows q (subset_row key) s)) in
    let part (r : EntityRow) := find_first (λ k, isPart k key || isPart key k) (en_nameKeys r) in
    do* hit := oneIdentity (List.filter (λ kv, match part kv.2 with Some _ => true | None => false end) rows) in
    Done (match hit with
          | None => None
          | Some (id, r) =>
              let m := String.length (default "" (part r)) in
              let k := String.length key in
              Some {| nc_entityId := id; nc_canonicalName := en_canonicalName r;
                      nc_cosine := (num (Nat.min k m) / num (Nat.max (Nat.max k m) 1))%float;
                      nc_matchKind := MNamePart |}
          end).

Definition initials_row (key initials : string) (r : EntityRow) : bool :=
  existsb (λ k, (negb (bool_decide (initials = "")) && bool_decide (k = initials)) ||
                (str_contains " " k && bool_decide (join_with "" (map first_char (split_at is_blank k)) = key)))
    (en_nameKeys r).

Definition findInitialsCandidate (q : NameScanQuery) : prog Graph (option NameCandidate) :=
  let key := nameKey (nq_name q) in
  if bool_decide (key = "") then Done None
  else
    do* rows := query (λ s, take 2 (scan_rows q (initials_row key (nameKeyInitials key)) s)) in
    do* hit := oneIdentity rows in
    Done ((λ kv : string * EntityRow,
             {| nc_entityId := kv.1; nc_canonicalName := en_canonicalName kv.2; nc_cosine := 1%float;
                nc_matchKind := MInitials |}) <$> hit).

Definition word_row (word : string) (r : EntityRow) : bool :=
  existsb (λ k, bool_decide (word ∈ split_at is_blank k)) (en_nameKeys r).

Fixpoint shared_words (q : NameScanQuery) (key : string) (ws : list string) : prog Graph (list NameCandidate) :=
  match ws with
  | [] => Done []
  | word :: ws' =>
      do* rows := query (λ s, take 2 (scan_rows q (word_row word) s)) in
      do* hit := oneIdentity rows in
      do* rest := shared_words q key ws' in
      Done (match hit with
            | None => rest
            | Some (id, r) =>
                {| nc_entityId := id; nc_canonicalName := en_canonicalName r;
                   nc_cosine := (num (String.length word) / num (String.length key))%float;
                   nc_matchKind := MSharedWord |} :: rest
            end)
  end.

Definition findSharedWordCandidates (q : NameScanQuery) : prog Graph (list NameCandidate) :=
  let key := nameKey (nq_name q) in
  let ws := nameKeyWords key in
  if length ws <? 2 then Done [] else shared_words q key ws.

(** [ORDER BY sim DESC LIMIT $k], of which the first is read. *)
Definition most_similar (v : list float) (rows : list (string * EntityRow)) : option (string * EntityRow * float) :=
  fold_left (λ best kv,
    match en_embedding kv.2 with
    | Some e =>
        if length (eb_vector e) =? length v then
          let sim := cosine_similarity (eb_vector e) v in
          match best with
          | Some (_, top) => if (top <? sim)%float then Some (kv, sim) else best
          | None => Some (kv, sim)
          end
        else best
    | None => best
    end) rows None.

(** A failing embedder throws: the search then ends with no match at all. *)
Definition findEmbeddingCandidate (q : NameScanQuery) : prog Graph (result unit (option NameCandidate)) :=
  match embed ("name: " +:+ nq_name q) with
  | None => Done (Throw tt)
  | Some v =>
      do* best := query (λ s, if sb_candidateK bounds =? 0 then None else most_similar v (scan_rows q (λ _, true) s)) in
      Done (Ok (match best with
                | None => None
                | Some (id, r, sim) =>
                    if (sim <? sb_cosineFloor bounds)%float then None
                    else Some {| nc_entityId := id; nc_canonicalName := en_canonicalName r; nc_cosine := sim;
                                 nc_matchKind := MEmbedding |}
                end))
  end.

Definition one (p : prog Graph (option NameCandidate)) : prog Graph (result unit (list NameCandidate)) :=
  do* c := p in Done (Ok (match c with Some x => [x] | None => [] end)).

(** [scans], in the order they run; each runs only when it is reached. *)
Definition scans (q : NameScanQuery) : list (prog Graph (result unit (list NameCandidate))) :=
  [one (findKeyNeighbour q); one (findTokenSubsetCandidate q); one (findInitialsCandidate q);
   (do* cs := findSharedWordCandidates q in Done (Ok cs));
   (do* r := findEmbeddingCandidate q in
    Done (match r with Ok (Some x) => Ok [x] | Ok None => Ok [] | Throw e => Throw e end))].
End scans.

(** ** The judge's evidence ([fetchTopFacts], for no fence) *)

(** The entity and what an [identity_of] edge joins it to. *)
Definition identity_ids (eid : string) (s : Graph) : list string :=
  let ends f g := omap (λ kv : string * EdgeRow,
    if bool_decide (f kv.2 = eid) && bool_decide (eg_kind kv.2 = "identity_of") then Some (g kv.2) else None)
    (map_to_list (gr_edges s)) in
  add_all [] (eid :: app (ends eg_in eg_out) (ends eg_out eg_in)).

Definition more_confident (a b : EntityFact) : Prop := (ef_confidence a <? ef_confidence b)%float = false.

#[export] Instance more_confident_dec : RelDecision more_confident.
Proof. intros a b. unfold more_confident. apply _. Defined.

Definition top_facts (eid : string) (s : Graph) : list EntityFact :=
  take 5 (merge_sort more_confident
    (List.filter (λ f, bool_decide (ef_entityId f ∈ identity_ids eid s) && ef_current f) (gr_facts s))).

Definition top_edges (eid : string) (s : Graph) : list (string * option string) :=
  take 5 (map (λ kv : string * EdgeRow, (eg_kind kv.2, en_canonicalName <$> gr_entities s !! eg_out kv.2))
    (List.filter (λ kv, bool_decide (eg_in kv.2 = eid)) (map_to_list (gr_edges s)))).

Definition NO_FACTS : string := "(no facts)".

Definition newline : string := String (Ascii.ascii_of_nat 10) "".

Definition fetchTopFacts (eid : string) (s : Graph) : string :=
  let facts := map (λ f, "- " +:+ ef_predicate f +:+ ": " +:+ ef_object f) (top_facts eid s) in
  let edges := omap (λ e : string * option string,
    (λ other, "- " +:+ e.1 +:+ ": " +:+ other) <$> truthy e.2) (top_edges eid s) in
  match add_all [] (app facts edges) with [] => NO_FACTS | lines => join_with newline lines end.

(** ** Predicates that hold one value at a time *)

(** [CORE_PREDICATES], as far as their semantics. *)
Definition CORE_PREDICATES : list (string * string) :=
  [("said", "append_only"); ("name", "single_active"); ("email", "single_active"); ("phone", "single_active");
   ("dob", "single_active"); ("status", "single_active"); ("tier", "single_active"); ("address", "single_active");
   ("preference", "append_only"); ("intent", "append_only"); ("complained_about", "append_only");
   ("interacted_with", "append_only"); ("brand_voice", "single_active"); ("brand_archetype", "single_active");
   ("tone_of_voice", "single_active"); ("product_description", "single_active");
   ("target_audience_segment", "append_only"); ("content_guideline", "append_only");
   ("tension_point", "append_only"); ("reference_example", "append_only"); ("narrative_pillar", "append_only");
   ("forbidden_pattern", "append_only"); ("rate_limit", "append_only"); ("service_port", "append_only");
   ("naming_prefix", "append_only"); ("identifier", "append_only"); ("http_status", "append_only");
   ("duration_limit", "append_only"); ("state_change", "append_only"); ("instruction", "append_only")].

Definition singleValuedPredicates (rows : list (string * string)) : list string :=
  map fst (List.filter (λ kv : string * string, negb (bool_decide (kv.2 = "append_only")))
    (fold_left (λ m r, OMap.set r.1 r.2 m) rows CORE_PREDICATES)).

(** ** [EntityResolverService] *)

Record SameNameCandidate := { sn_entityId : string; sn_canonicalName : string }.

Inductive SameNameOutcome : Type := Reuse (entityId : string) | Distinct.

Section resolver.
Context `{Script, Models} (bounds : ScanBounds) (enabled : bool).

Definition fact_lines (incomingFacts : list string) : string := join_with newline (map (λ f, "- " +:+ f) incomingFacts).

Definition judgeCandidate (name incoming : string) (c : NameCandidate) : prog Graph bool :=
  do* existing := query (fetchTopFacts (nc_entityId c)) in
  Done (match judge existing incoming
                {| jx_cosine := nc_cosine c; jx_similarity := Scanned (nc_matchKind c);
                   jx_nameA := Some (nc_canonicalName c); jx_nameB := Some name |} with
        | Same => true
        | _ => false
        end).

(** One scan's candidates, those not asked about yet. *)
Fixpoint judge_all (name incoming : string) (cs : list NameCandidate) (asked : list string) :
    prog Graph (option string * list string) :=
  match cs with
  | [] => Done (None, asked)
  | c :: cs' =>
      if bool_decide (nc_entityId c ∈ asked) then judge_all name incoming cs' asked
      else
        do* same := judgeCandidate name incoming c in
        if same : bool then Done (Some (nc_entityId c), asked)
        else judge_all name incoming cs' (add_new asked (nc_entityId c))
  end.

Fixpoint judge_scans (name incoming : string) (ss : list (prog Graph (result unit (list NameCandidate))))
    (asked : list string) : prog Graph (option string) :=
  match ss with
  | [] => Done None
  | scan :: ss' =>
      do* cs := scan in
      match cs with
      | Throw _ => Done None
      | Ok cs =>
          do* r := judge_all name incoming cs asked in
          match r with
          | (Some id, _) => Done (Some id)
          | (None, asked') => judge_scans name incoming ss' asked'
          end
      end
  end.

Definition resolveByName (name type : string) (incomingFacts : list string) : prog Graph (option string) :=
  if negb enabled then Done None
  else
    let incoming := match incomingFacts with [] => NO_FACTS | _ => fact_lines incomingFacts end in
    judge_scans name incoming (scans bounds {| nq_name := name; nq_type := type; nq_excludeId := None |}) [].

(** The judge on entities of the very same name; the first nothing contradicted is kept. *)
Fixpoint same_name_judged (name incoming : string) (cs : list SameNameCandidate) (fallback : option string) :
    prog Graph SameNameOutcome :=
  match cs with
  | [] => Done (match fallback with Some id => Reuse id | None => Distinct end)
  | c :: cs' =>
      do* existing := query (fetchTopFacts (sn_entityId c)) in
      let verdict :=
        if bool_decide (existing = NO_FACTS) then Unsure
        else judge existing incoming
               {| jx_cosine := 1%float; jx_similarity := SameName; jx_nameA := Some (sn_canonicalName c);
                  jx_nameB := Some name |} in
      match verdict with
      | Same => Done (Reuse (sn_entityId c))
      | Unsure => same_name_judged name incoming cs' (match fallback with Some f => Some f | None => Some (sn_entityId c) end)
      | Different => same_name_judged name incoming cs' fallback
      end
  end.

Definition current_facts (eid : string) (s : Graph) : list (string * string) :=
  omap (λ f, if bool_decide (ef_entityId f = eid) && ef_current f then Some (ef_predicate f, ef_object f) else None)
    (gr_facts s).

Fixpoint same_name_slots (incomingFacts singleValued : list string) (cs : list SameNameCandidate) :
    prog Graph SameNameOutcome :=
  match cs with
  | [] => Done Distinct
  | c :: cs' =>
      do* facts := query (current_facts (sn_entityId c)) in
      if negb (conflictsOnSingleValuedSlot incomingFacts facts singleValued) then Done (Reuse (sn_entityId c))
      else same_name_slots incomingFacts singleValued cs'
  end.

Definition sameNameBySlots (cs : list SameNameCandidate) (incomingFacts : list string) : prog Graph SameNameOutcome :=
  do* registry := query gr_predicates in
  same_name_slots incomingFacts (singleValuedPredicates registry) cs.

Definition confirmSameName (name : string) (cs : list SameNameCandidate) (incomingFacts : list string) :
    prog Graph SameNameOutcome :=
  match cs with
  | [] => Done Distinct
  | first :: _ =>
      match incomingFacts with
      | [] => Done (Reuse (sn_entityId first))
      | _ =>
          if negb enabled then sameNameBySlots cs incomingFacts
          else same_name_judged name (fact_lines incomingFacts) cs None
      end
  end.
End resolver.

(** ** The resolver only reads, and proposes nobody's private entity *)

Section reading.
Context `{Script, Models} (bounds : ScanBounds) (enabled : bool) (R : Graph → Graph → Prop) (R_refl : ∀ s, R s s).

Lemma always_one p : always R p → always R (one p).
Proof. intros Hp. by apply always_bind. Qed.

Lemma always_oneIdentity rows : always R (oneIdentity rows).
Proof. by destruct rows as [|a [|b [|]]]. Qed.

Lemma always_keyNeighbour q : always R (findKeyNeighbour bounds q).
Proof. unfold findKeyNeighbour. case_bool_decide; [done|]. apply always_bind; [by apply always_query|done]. Qed.

Lemma always_tokenSubset q : always R (findTokenSubsetCandidate q).
Proof.
  unfold findTokenSubsetCandidate. case_bool_decide; [done|]. apply always_bind; [by apply always_query|].
  intros rows. apply always_bind; [apply always_oneIdentity|done].
Qed.

Lemma always_initials q : always R (findInitialsCandidate q).
Proof.
  unfold findInitialsCandidate. case_bool_decide; [done|]. apply always_bind; [by apply always_query|].
  intros rows. apply always_bind; [apply always_oneIdentity|done].
Qed.

Lemma always_sharedWords q : always R (findSharedWordCandidates q).
Proof.
  unfold findSharedWordCandidates. destruct (_ <? 2); [done|]. induction (nameKeyWords _) as [|w ws IH]; [done|].
  apply always_bind; [by apply always_query|]. intros rows. apply always_bind; [apply always_oneIdentity|].
  intros hit. by apply always_bind.
Qed.

Lemma always_embedding q : always R (findEmbeddingCandidate bounds q).
Proof. unfold findEmbeddingCandidate. destruct (embed _) as [v|]; [|done]. apply always_bind; [by apply always_query|done]. Qed.

Lemma always_scans q : Forall (always R) (scans bounds q).
Proof.
  unfold scans. rewrite !Forall_cons. split_and!; [apply always_one..| | |done].
  - apply always_keyNeighbour.
  - apply always_tokenSubset.
  - apply always_initials.
  - apply always_bind; [apply always_sharedWords|done].
  - apply always_bind; [apply always_embedding|done].
Qed.

Lemma always_judge_all name incoming cs asked : always R (judge_all name incoming cs asked).
Proof.
  revert asked. induction cs as [|c cs IH]; intros asked; [done|]. cbn [judge_all]. case_bool_decide; [apply IH|].
  apply always_bind; [apply always_bind; [by apply always_query|done]|]. by intros [|].
Qed.

Lemma always_judge_scans name incoming ss asked :
  Forall (always R) ss → always R (judge_scans name incoming ss asked).
Proof.
  intros Hss. revert asked. induction Hss as [|scan ss Hs _ IH]; intros asked; [done|]. cbn [judge_scans].
  apply always_bind; [done|]. intros [cs|e]; [|done]. apply always_bind; [apply always_judge_all|].
  intros [[id|] asked']; [done|apply IH].
Qed.

Lemma always_resolveByName name type facts : always R (resolveByName bounds enabled name type facts).
Proof. unfold resolveByName. destruct (negb enabled); [done|]. apply always_judge_scans, always_scans. Qed.

Lemma always_confirm name cs facts : always R (confirmSameName enabled name cs facts).
Proof.
  unfold confirmSameName. destruct cs as [|c cs]; [done|]. destruct facts as [|f fs]; [done|].
  generalize (c :: cs). intros l. destruct (negb enabled).
  - apply always_bind; [by apply always_query|]. intros registry. induction l as [|x l IH]; [done|]. cbn [same_name_slots].
    apply always_bind; [by apply always_query|]. intros facts. by destruct (negb _).
  - generalize (None (A := string)). induction l as [|x l IH]; intros fb; [done|]. cbn [same_name_judged].
    apply always_bind; [by apply always_query|]. intros existing. cbn zeta. by destruct (if bool_decide _ then _ else _).
Qed.
End reading.

(** The id is of an entity that belongs to nobody in particular. *)
Definition global_entity (s : Graph) (id : string) : Prop := owner_of s id = Some None.

Lemma stable_global id : stable graph_grows (λ s, global_entity s id).
Proof. intros s s' Hs Hg. by apply Hg. Qed.

Definition all_global (ids : list string) (s : Graph) : Prop := ∀ id, id ∈ ids → global_entity s id.

Lemma stable_all_global ids : stable graph_grows (all_global ids).
Proof. intros s s' Hs Hg id Hin. by eapply stable_global; [apply Hs|]. Qed.

Lemma scan_rows_global q p s id r : (id, r) ∈ scan_rows q p s → global_entity s id.
Proof.
  intros [Hin Hp]%elem_of_bfilter. apply elem_of_map_to_list in Hin. unfold scan_fence in Hp.
  rewrite !andb_true_iff in Hp. destruct Hp as [[[[_ Ho] _] _] _]. apply bool_decide_eq_true in Ho.
  unfold global_entity, owner_of. rewrite Hin. cbn in *. by rewrite Ho.
Qed.

Section proposals.
Context `{Script, Models} (bounds : ScanBounds) (enabled : bool).

Definition proposes (cs : list NameCandidate) (s : Graph) : Prop := all_global (map nc_entityId cs) s.

Definition proposes_ok (r : result unit (list NameCandidate)) (s : Graph) : Prop :=
  match r with Ok cs => proposes cs s | Throw _ => True end.

Definition candidate_ok (o : option NameCandidate) (s : Graph) : Prop :=
  match o with Some c => global_entity s (nc_entityId c) | None => True end.

Definition row_global (o : option (string * EntityRow)) (s : Graph) : Prop :=
  match o with Some kv => global_entity s kv.1 | None => True end.

Lemma stable_proposes_ok r : stable graph_grows (proposes_ok r).
Proof. destruct r as [cs|e]; [apply stable_all_global|done]. Qed.

Lemma stable_row_global o : stable graph_grows (row_global o).
Proof. destruct o as [kv|]; [apply stable_global|done]. Qed.

Lemma oneIdentity_global rows :
  ensures graph_grows (all_global (map fst rows)) (oneIdentity rows) row_global.
Proof.
  destruct rows as [|a [|b [|]]]; try (by apply ensures_done).
  - apply ensures_done. intros s Hs. apply Hs. by left.
  - apply ensures_bind with (Q1 := λ _, all_global (map fst [a; b])); [intros _; apply stable_all_global| |].
    + apply ensures_query; [intros _; apply stable_all_global|done].
    + intros [|]; apply ensures_done; [|done]. intros s Hs. apply Hs. by left.
Qed.

(** The rows a scan reads are global, and so is what its one identity is. *)
Lemma scanned_rows {A} (f : Graph → list (string * EntityRow)) (k : list (string * EntityRow) → prog Graph A) Q :
  (∀ s id r, (id, r) ∈ f s → global_entity s id) →
  (∀ rows, ensures graph_grows (all_global (map fst rows)) (k rows) Q) →
  ensures graph_grows (λ _, True) (pbind (query f) k) Q.
Proof.
  intros Hf Hk. apply ensures_bind with (Q1 := λ rows, all_global (map fst rows)); [intros rows; apply stable_all_global| |done].
  apply ensures_query; [intros rows; apply stable_all_global|]. intros s _ id Hin.
  apply list_elem_of_fmap in Hin as ([i r] & -> & Hin). by eapply Hf.
Qed.

Lemma take_scan_global n q p s id r : (id, r) ∈ take n (scan_rows q p s) → global_entity s id.
Proof.
  intros (i & Hi & _)%elem_of_take. by eapply scan_rows_global, list_elem_of_lookup_2.
Qed.

Lemma one_proposes (p : prog Graph (option NameCandidate)) :
  ensures graph_grows (λ _, True) p candidate_ok →
  ensures graph_grows (λ _, True) (one p) proposes_ok.
Proof.
  intros Hp. eapply ensures_bind; [|exact Hp|].
  - intros [c|]; [apply stable_global|done].
  - intros [c|]; apply ensures_done; [|by intros s _ id ?%elem_of_nil]. intros s Hs id. cbn.
    by intros ->%list_elem_of_singleton.
Qed.

Lemma fold_pick {A B} (f : option B → A → option B) (g : B → A) (l : list A) :
  (∀ acc x b, f acc x = Some b → acc = Some b ∨ g b = x) →
  ∀ b, fold_left f l None = Some b → g b ∈ l.
Proof.
  intros Hf. assert (H' : ∀ l' acc b, fold_left f l' acc = Some b → acc = Some b ∨ g b ∈ l').
  { induction l' as [|x l' IH]; intros acc b; cbn; [by left|]. intros [Hb|Hb]%IH.
    - destruct (Hf _ _ _ Hb) as [?| ->]; [by left|right; by left].
    - right. by right. }
  intros b [?|?]%H'; done.
Qed.

Lemma nearest_elem key rows kv : nearest key rows = Some kv → kv ∈ rows.
Proof.
  apply (fold_pick _ id). intros acc x b. repeat case_match; intros [= <-]; auto.
Qed.

Lemma most_similar_elem v rows kv sim : most_similar v rows = Some (kv, sim) → kv ∈ rows.
Proof.
  intros E. change kv with (kv, sim).1. revert E. unfold most_similar. apply fold_pick with (g := fst).
  intros acc x b E. repeat case_match; simplify_eq; auto.
Qed.

Lemma picked_row (f : Graph → option (string * EntityRow)) (k : option (string * EntityRow) → prog Graph (option NameCandidate)) :
  (∀ s kv, f s = Some kv → global_entity s kv.1) →
  (∀ o, ensures graph_grows (row_global o) (k o) candidate_ok) →
  ensures graph_grows (λ _, True) (pbind (query f) k) candidate_ok.
Proof.
  intros Hf Hk. apply ensures_bind with (Q1 := row_global); [apply stable_row_global| |done].
  apply ensures_query; [apply stable_row_global|]. intros s _. destruct (f s) as [kv|] eqn:E; [|done]. by apply Hf.
Qed.

Lemma none_proposes : ensures graph_grows (λ _, True) (Done (A := option NameCandidate) None) candidate_ok.
Proof. by apply ensures_done. Qed.

Lemma keyNeighbour_proposes q : ensures graph_grows (λ _, True) (findKeyNeighbour bounds q) candidate_ok.
Proof.
  unfold findKeyNeighbour. case_bool_decide; [apply none_proposes|]. apply picked_row.
  - intros s [id r] Hin%nearest_elem. by eapply scan_rows_global.
  - intros [[id r]|]; apply ensures_done; [|done]. intros s Hs. by case_match.
Qed.

Lemma tokenSubset_proposes q : ensures graph_grows (λ _, True) (findTokenSubsetCandidate q) candidate_ok.
Proof.
  unfold findTokenSubsetCandidate. case_bool_decide; [apply none_proposes|].
  apply scanned_rows; [intros s id r; apply take_scan_global|]. intros rows.
  eapply ensures_bind; [apply stable_row_global|eapply ensures_weaken; [|apply oneIdentity_global]|].
  - intros s Hs id Hin. apply Hs. apply list_elem_of_fmap in Hin as (kv & -> & Hin). apply list_elem_of_fmap.
    exists kv. split; [done|]. by apply elem_of_bfilter in Hin as [? _].
  - by intros [[id r]|]; apply ensures_done.
Qed.

Lemma initials_proposes q : ensures graph_grows (λ _, True) (findInitialsCandidate q) candidate_ok.
Proof.
  unfold findInitialsCandidate. case_bool_decide; [apply none_proposes|].
  apply scanned_rows; [intros s id r; apply take_scan_global|]. intros rows.
  eapply ensures_bind; [apply stable_row_global|apply oneIdentity_global|]. by intros [[id r]|]; apply ensures_done.
Qed.

Lemma sharedWords_proposes q : ensures graph_grows (λ _, True) (findSharedWordCandidates q) proposes.
Proof.
  unfold findSharedWordCandidates. case_match; [apply ensures_done; by intros s _ id ?%elem_of_nil|].
  clear. induction (nameKeyWords _) as [|w ws IH]; [apply ensures_done; by intros s _ id ?%elem_of_nil|]. cbn [shared_words].
  apply scanned_rows; [intros s id r; apply take_scan_global|]. intros rows.
  eapply ensures_bind; [apply stable_row_global|apply oneIdentity_global|]. intros hit.
  apply ensures_bind with (Q1 := λ cs s, row_global hit s ∧ proposes cs s).
  - intros cs s s' [Hs1 Hs2] Hg. split; [by eapply stable_row_global|by eapply stable_all_global].
  - eapply ensures_weaken; [|apply ensures_frame; [apply stable_row_global|apply IH]]. by intros s Hs.
  - intros rest. apply ensures_done. intros s [Hh Hr]. destruct hit as [[id r]|]; [|done]. intros x.
    cbn. intros [->|Hx]%elem_of_cons; [done|by apply Hr].
Qed.

Lemma embedding_proposes q :
  ensures graph_grows (λ _, True) (findEmbeddingCandidate bounds q)
    (λ r s, match r with Ok o => candidate_ok o s | Throw _ => True end).
Proof.
  unfold findEmbeddingCandidate. destruct (embed _) as [v|]; [|by apply ensures_done].
  apply ensures_bind with (Q1 := λ best s, row_global (fst <$> best) s).
  - intros best. apply stable_row_global.
  - apply ensures_query; [intros best; apply stable_row_global|]. intros s _. case_match; [done|].
    destruct (most_similar v _) as [[[id r] sim]|] eqn:E; [|done]. apply most_similar_elem in E. by eapply scan_rows_global.
  - intros [[[id r] sim]|]; apply ensures_done; [|done]. intros s Hs. cbn. by case_match.
Qed.

Lemma scans_propose q : Forall (λ p, ensures graph_grows (λ _, True) p proposes_ok) (scans bounds q).
Proof.
  unfold scans. rewrite !Forall_cons. split_and!; [apply one_proposes..| | |done].
  - apply keyNeighbour_proposes.
  - apply tokenSubset_proposes.
  - apply initials_proposes.
  - eapply ensures_bind; [|apply sharedWords_proposes|by intros cs; apply ensures_done]. intros cs. apply stable_all_global.
  - eapply ensures_bind; [|apply embedding_proposes|].
    + intros [[c|]|e]; [apply stable_global|done..].
    + intros [[c|]|e]; apply ensures_done; [|by intros s _ id ?%elem_of_nil|done]. intros s Hs id. cbn.
      by intros ->%list_elem_of_singleton.
Qed.

Definition none_or_global (o : option string) (s : Graph) : Prop := ∀ id, o = Some id → global_entity s id.

Lemma stable_none_or_global o : stable graph_grows (none_or_global o).
Proof. intros s s' Hs Hg id E. by eapply stable_global; [apply Hs|]. Qed.

Lemma judge_all_global name incoming cs asked :
  ensures graph_grows (proposes cs) (judge_all name incoming cs asked) (λ r, none_or_global r.1).
Proof.
  revert asked. induction cs as [|c cs IH]; intros asked; [by apply ensures_done|]. cbn [judge_all].
  assert (Hw : ∀ s, proposes (c :: cs) s → proposes cs s) by (intros s Hs id Hin; apply Hs; by right).
  case_bool_decide; [by eapply ensures_weaken|].
  apply ensures_bind with (Q1 := λ _, proposes (c :: cs)); [intros _; apply stable_all_global| |].
  - apply ensures_bind with (Q1 := λ _, proposes (c :: cs)); [intros _; apply stable_all_global| |by intros; apply ensures_done].
    apply ensures_query; [intros _; apply stable_all_global|done].
  - intros [|]; [|by eapply ensures_weaken]. apply ensures_done. intros s Hs id [= <-]. apply Hs. by left.
Qed.

Lemma resolveByName_global name type facts :
  ensures graph_grows (λ _, True) (resolveByName bounds enabled name type facts) none_or_global.
Proof.
  unfold resolveByName. destruct (negb enabled); [by apply ensures_done|]. set (incoming := match facts with [] => _ | _ => _ end).
  generalize (scans_propose {| nq_name := name; nq_type := type; nq_excludeId := None |}). generalize ([] : list string).
  induction (scans bounds _) as [|scan ss IH]; intros asked Hss; [by apply ensures_done|].
  apply Forall_cons in Hss as [Hs Hss]. cbn [judge_scans].
  eapply ensures_bind; [apply stable_proposes_ok|exact Hs|]. intros [cs|e]; [|by apply ensures_done].
  eapply ensures_bind; [intros r; apply stable_none_or_global|apply judge_all_global|].
  intros [[id|] asked']; [apply ensures_done; intros s Hs1; exact Hs1|]. eapply ensures_weaken; [|by apply IH]. done.
Qed.

Lemma confirm_picks name cs facts :
  ensures graph_grows (all_global (map sn_entityId cs)) (confirmSameName enabled name cs facts)
    (λ o s, match o with Reuse id => global_entity s id | Distinct => True end).
Proof.
  set (Q := λ (o : SameNameOutcome) s, match o with Reuse id => global_entity s id | Distinct => True end).
  unfold confirmSameName. destruct cs as [|c cs]; [by apply ensures_done|]. destruct facts as [|f fs].
  { apply ensures_done. intros s Hs. apply Hs. by left. }
  generalize (c :: cs). intros l. destruct (negb enabled).
  - apply ensures_bind with (Q1 := λ _, all_global (map sn_entityId l)); [intros _; apply stable_all_global| |].
    { apply ensures_query; [intros _; apply stable_all_global|done]. }
    intros registry. induction l as [|x l IH]; [by apply ensures_done|]. cbn [same_name_slots].
    apply ensures_bind with (Q1 := λ _, all_global (map sn_entityId (x :: l))); [intros _; apply stable_all_global| |].
    { apply ensures_query; [intros _; apply stable_all_global|done]. }
    intros facts. destruct (negb _); [apply ensures_done; intros s Hs; apply Hs; by left|].
    eapply ensures_weaken; [|exact IH]. intros s Hs id Hin. apply Hs. by right.
  - assert (Hj : ∀ fb, ensures graph_grows (λ s, all_global (map sn_entityId l) s ∧ none_or_global fb s)
      (same_name_judged name (fact_lines (f :: fs)) l fb) Q).
    { induction l as [|x l IH]; intros fb; cbn [same_name_judged].
      - apply ensures_done. intros s [_ Hs]. destruct fb; [by apply Hs|done].
      - apply ensures_bind with (Q1 := λ _ s, all_global (map sn_entityId (x :: l)) s ∧ none_or_global fb s).
        1: { intros _ s s' [Hs1 Hs2] Hg. split; [by eapply stable_all_global|by eapply stable_none_or_global]. }
        1: { apply ensures_query; [|done]. intros _ s s' [Hs1 Hs2] Hg. split; [by eapply stable_all_global|by eapply stable_none_or_global]. }
        intros existing. cbn zeta. assert (Htl : ∀ s, all_global (map sn_entityId (x :: l)) s → all_global (map sn_entityId l) s).
        { intros s Hs id Hin. apply Hs. by right. }
        destruct (if bool_decide _ then _ else _).
        + apply ensures_done. intros s [Hs _]. apply Hs. by left.
        + eapply ensures_weaken; [|apply IH]. intros s [Hs Hf]. split; [by apply Htl|done].
        + eapply ensures_weaken; [|apply IH]. intros s [Hs Hf]. split; [by apply Htl|]. destruct fb; [done|].
          intros id [= <-]. apply Hs. by left. }
    eapply ensures_weaken; [|apply Hj]. by intros s Hs.
Qed.
End proposals.
