(* ===== verification/EntityLadder.v ===== *)
(** * The naming ladder

    [resolveOrCreateNamedEntity] of [ingest/entity-upsert.service.ts] with its rungs: the
    caller's hint, the extractor's pin, the exact name, the article variants, the
    transliterated key, the code alias, the judge, and a new entity. What is logged and
    traced is left out, and so are stamps that fail (the code then goes on). *)

From S2P Require Import Prelude Js Resume FactPolicy ScopeTags Names EdgeWriter EntityGraph EntityMerge EntityResolver.
Local Open Scope string_scope.
Local Open Scope nat_scope.

Inductive ResolutionStep : Type :=
| StHint | StKnown | StExact | StArticleVariant | StTranslit | StCodeAlias | StJudge | StCreated.

(** A mention as the extractor returned it. *)
Record Mention := {
  mt_name : string;
  mt_type : string;
  mt_canonical : option string;
  mt_known : option string
}.

Definition surface (e : Mention) : string := default (mt_name e) (mt_canonical e).

Definition normalizeEntityType (t : string) : string :=
  if bool_decide (t ∈ ["customer"; "staff"; "asset"; "project"; "topic"; "location"; "other"]) then t else "other".

(** ** Stamps *)

Definition with_names (canonical : string) (aliases keys : list string) (r : EntityRow) : EntityRow :=
  {| en_type := en_type r; en_canonicalName := canonical; en_aliases := aliases; en_nameKeys := keys;
     en_externalRefs := en_externalRefs r; en_userId := en_userId r; en_scope := en_scope r;
     en_mergedInto := en_mergedInto r; en_embedding := en_embedding r |}.

Definition add_alias (alias : string) (r : EntityRow) : EntityRow :=
  with_names (en_canonicalName r) (array_union (en_aliases r) [alias]) (en_nameKeys r) r.

(** [array::distinct(array::concat(nameKeys ?? [], $keys))] *)
Definition add_keys (keys : list string) (r : EntityRow) : EntityRow :=
  with_names (en_canonicalName r) (en_aliases r) (add_all [] (app (en_nameKeys r) keys)) r.

(** [SET canonicalName = $name WHERE canonicalName = $refId] *)
Definition rename_from (refId name : string) (r : EntityRow) : EntityRow :=
  if bool_decide (en_canonicalName r = refId) then with_names name (en_aliases r) (en_nameKeys r) r else r.

Definition stampAlias (entityId alias : string) : prog Graph unit := on_entity (add_alias alias) (entity_record entityId).

(** A row that is created whole. *)
Definition create_entity (content : EntityRow) (s : Graph) : Graph * string :=
  let id := new_entity_id s in (with_entities (<[id := content]> (gr_entities s)) s, id).

Section ladder.
Context `{Script, Models} (fl : NameFlags) (am : Ambient) (bounds : ScanBounds).

(** The optional resolver: absent, or present and enabled or not. *)
Variable resolver : option bool.

Definition resolver_enabled : bool := default false resolver.

Definition stampNameKeys (entityId : string) (names : list (option string)) : prog Graph unit :=
  match nameKeysFor names with [] => Done tt | keys => on_entity (add_keys keys) entityId end.

Definition nameParticipant (entityId : string) (hint : ParticipantHint) : prog Graph unit :=
  match truthy (trim <$> ph_name hint) with
  | None => Done tt
  | Some name =>
      if bool_decide (name = ph_id hint) then Done tt
      else
        do* _ := stampAlias entityId name in
        do* _ := stampNameKeys entityId [Some name] in
        on_entity (rename_from (ph_id hint) name) entityId
  end.

Definition hint_row (e : Mention) (hint : ParticipantHint) (key : string) : EntityRow :=
  let named := participantSurfaces (mt_name e) (mt_canonical e) (ph_name hint) in
  {| en_type := normalizeEntityType (mt_type e); en_canonicalName := named.1; en_aliases := named.2;
     en_nameKeys := nameKeysFor (map Some named.2); en_externalRefs := [(key, ph_id hint)];
     en_userId := truthy (ph_userId hint);
     en_scope := match truthy (ph_userId hint) with Some u => scopeForUser am (Some u) | None => [] end;
     en_mergedInto := None; en_embedding := None |}.

Definition hint_key (hint : ParticipantHint) : string := scopedRefKey (ph_vertical hint) (ph_id hint) (ph_userId hint).

Definition resolve_hint (e : Mention) (hint : ParticipantHint) : prog Graph (result http_exn string) :=
  try* id := upsertEntityByExternalRef (hint_key hint) (hint_row e hint (hint_key hint))
               (match ph_userId hint with
                | None => resolveExistingByName fl am (surface e) None
                | Some _ => Done None
                end) in
  do* _ := nameParticipant id hint in Done (Ok id).

(** One hop: a merged row forwards to what it was merged into. *)
Definition followKnown (known : string) (s : Graph) : option string :=
  (λ r, default known (en_mergedInto r)) <$> gr_entities s !! known.

(** [sameName]: without a resolver, the first row. *)
Definition sameName (e : Mention) (rows : list (string * EntityRow)) (incomingFacts : list string) :
    prog Graph (option string) :=
  let cs := map (λ kv : string * EntityRow, {| sn_entityId := kv.1; sn_canonicalName := en_canonicalName kv.2 |}) rows in
  match resolver with
  | None => Done (sn_entityId <$> head cs)
  | Some enabled =>
      do* o := confirmSameName enabled (surface e) cs incomingFacts in
      Done (match o with Reuse id => Some id | Distinct => None end)
  end.

(** What the deterministic rungs answer. *)
Inductive ByName : Type := Found (step : ResolutionStep) (id : string) | SomeoneElse | NotFound.

Definition global_row (r : EntityRow) : bool := bool_decide (en_userId r = None).

Definition reuse_same_name (e : Mention) (step : ResolutionStep) (rows : list (string * EntityRow))
    (incomingFacts : list string) : prog Graph ByName :=
  do* id := sameName e rows incomingFacts in
  match id with
  | None => Done SomeoneElse
  | Some id => do* _ := stampNameKeys id [Some (mt_name e); mt_canonical e] in Done (Found step id)
  end.

Definition translit_rung (e : Mention) (incomingFacts : list string) : prog Graph ByName :=
  let key := nameKey (surface e) in
  if bool_decide (key = "") then Done NotFound
  else
    do* rows := query (select_entities (λ r, keyed key r && global_row r) 2) in
    match rows with [kv] => reuse_same_name e StTranslit [kv] incomingFacts | _ => Done NotFound end.

Definition resolveByNameRungs (e : Mention) (incomingFacts : list string) : prog Graph ByName :=
  let target := to_lower (surface e) in
  do* rows := query (select_entities (λ r, named target (mt_name e) r && global_row r) 3) in
  match rows with
  | _ :: _ => reuse_same_name e StExact rows incomingFacts
  | [] =>
      match (if nf_articles fl then articleNameVariants target else []) with
      | [] => translit_rung e incomingFacts
      | variants =>
          do* vRows := query (select_entities (λ r, canonical_among variants r && global_row r) 2) in
          match vRows with
          | [(id, _)] => Done (Found StArticleVariant id)
          | _ => translit_rung e incomingFacts
          end
      end
  end.

(** ** The code alias rung *)

Definition stamped (alias : string) (found : option string) : prog Graph (option string) :=
  match found with Some id => do* _ := stampAlias id alias in Done (Some id) | None => Done None end.

Definition resolveByCodeAlias (e : Mention) : prog Graph (option string) :=
  if negb (nf_codeAlias fl) then Done None
  else
    let target := surface e in
    match symbolAliasForPath target with
    | Some symbol =>
        do* id := unique_entity (λ r, named (to_lower symbol) symbol r && global_row r && unmerged r) in
        stamped target id
    | None =>
        if isCodeSymbolShaped target then
          do* matched := scan_needles global_row target (pathNeedlesForSymbol target) [] in
          stamped target (match matched with [id] => Some id | _ => None end)
        else Done None
    end.

(** ** The judge and the new entity *)

Definition prejudge (e : Mention) (incomingFacts : list string) : prog Graph (option string) :=
  if negb resolver_enabled then Done None
  else
    do* known := resolveExistingByName fl am (surface e) None in
    match known with
    | Some _ => Done None
    | None => resolveByName bounds resolver_enabled (surface e) (normalizeEntityType (mt_type e)) incomingFacts
    end.

Definition seedAliases (e : Mention) : list string :=
  add_all [mt_name e]
    (match (if nf_codeAlias fl then symbolAliasForPath (surface e) else None) with Some s => [s] | None => [] end).

Definition new_entity (e : Mention) : EntityRow :=
  {| en_type := normalizeEntityType (mt_type e); en_canonicalName := surface e; en_aliases := seedAliases e;
     en_nameKeys := nameKeysFor (mt_canonical e :: map Some (seedAliases e)); en_externalRefs := [];
     en_userId := None; en_scope := []; en_mergedInto := None; en_embedding := embed_for_write ("name: " +:+ surface e) |}.

Definition create_named (e : Mention) : prog Graph (ResolutionStep * string) :=
  do* id := update (create_entity (new_entity e)) in Done (StCreated, id).

(** [prejudged]: the verdict asked ahead, if one was. *)
Definition judge_rung (e : Mention) (incomingFacts : list string) (prejudged : option (option string)) :
    prog Graph (ResolutionStep * string) :=
  if negb resolver_enabled then create_named e
  else
    do* judged := (match prejudged with Some v => Done v | None => prejudge e incomingFacts end) in
    match judged with
    | Some id => do* _ := stampNameKeys id [Some (mt_name e); mt_canonical e] in Done (StJudge, id)
    | None => create_named e
    end.

Definition resolve_unpinned (e : Mention) (incomingFacts : list string) (prejudged : option (option string)) :
    prog Graph (ResolutionStep * string) :=
  do* byName := resolveByNameRungs e incomingFacts in
  match byName with
  | Found step id => Done (step, id)
  | SomeoneElse => create_named e
  | NotFound =>
      do* viaCodeAlias := resolveByCodeAlias e in
      match viaCodeAlias with
      | Some id => Done (StCodeAlias, id)
      | None => judge_rung e incomingFacts prejudged
      end
  end.

Definition resolve_pinned (e : Mention) : prog Graph (option string) :=
  match truthy (mt_known e) with
  | None => Done None
  | Some known =>
      do* pinned := query (followKnown known) in
      match pinned with
      | None => Done None
      | Some id =>
          do* _ := stampNameKeys id [Some (mt_name e); mt_canonical e] in
          do* _ := stampAlias id (mt_name e) in Done (Some id)
      end
  end.

Definition resolveOrCreateNamedEntity (e : Mention) (hint : option ParticipantHint) (incomingFacts : list string)
    (prejudged : option (option string)) : prog Graph (result http_exn (ResolutionStep * string)) :=
  match hint with
  | Some h => try* id := resolve_hint e h in Done (Ok (StHint, id))
  | None =>
      do* pinned := resolve_pinned e in
      match pinned with
      | Some id => Done (Ok (StKnown, id))
      | None => do* r := resolve_unpinned e incomingFacts prejudged in Done (Ok r)
      end
  end.
End ladder.

(** ** What the ladder does to the graph *)

Lemma alter_grows (g : EntityRow → EntityRow) id s :
  (∀ r, en_userId (g r) = en_userId r) → (∀ r, en_mergedInto (g r) = en_mergedInto r) →
  graph_grows s (with_entities (alter g id (gr_entities s)) s).
Proof.
  intros Ho Hm. apply grows_insert.
  - done.
  - intros i u. unfold owner_of. cbn. destruct (decide (i = id)) as [->|]; [|by rewrite lookup_alter_ne].
    rewrite lookup_alter_eq. destruct (gr_entities s !! id); cbn; [by rewrite Ho|done].
  - intros i. unfold merged_of. cbn. destruct (decide (i = id)) as [->|]; [|by rewrite lookup_alter_ne].
    rewrite lookup_alter_eq. destruct (gr_entities s !! id); cbn; [by rewrite Hm|done].
  - intros k e He. by left.
  - intros i [r Hr]. cbn in Hr. left. apply lookup_alter_Some in Hr as [(-> & r0 & Hr & _)|[_ Hr]]; by eexists.
Qed.

Lemma create_entity_grows content s : en_mergedInto content = None → graph_grows s (create_entity content s).1.
Proof.
  intros Hc. cbn. apply grows_insert.
  - done.
  - intros i u. unfold owner_of. cbn. intros Hi. rewrite lookup_insert_ne; [done|]. intros <-.
    by rewrite new_entity_fresh in Hi.
  - intros i. unfold merged_of. cbn. destruct (decide (i = new_entity_id s)) as [->|].
    + by rewrite lookup_insert_eq, new_entity_fresh.
    + by rewrite lookup_insert_ne.
  - intros k e He. by left.
  - intros i [r Hr]. cbn in Hr. apply lookup_insert_Some in Hr as [[<- _]|[_ Hr]]; [by right|left; by exists r].
Qed.

Lemma always_on_entity (g : EntityRow → EntityRow) id :
  (∀ r, en_userId (g r) = en_userId r) → (∀ r, en_mergedInto (g r) = en_mergedInto r) →
  always graph_grows (on_entity g id).
Proof. intros Ho Hm. apply always_exec. intros s. by apply alter_grows. Qed.

Lemma always_stampAlias id alias : always graph_grows (stampAlias id alias).
Proof. by apply always_on_entity. Qed.

Section growing.
Context `{Script, Models} (fl : NameFlags) (am : Ambient) (bounds : ScanBounds) (resolver : option bool).

Lemma always_stampNameKeys id names : always graph_grows (stampNameKeys id names).
Proof. unfold stampNameKeys. destruct (nameKeysFor names); [done|by apply always_on_entity]. Qed.

Lemma always_nameParticipant id hint : always graph_grows (nameParticipant id hint).
Proof.
  unfold nameParticipant. destruct (truthy _) as [name|]; [|done]. case_bool_decide; [done|].
  apply always_bind; [apply always_stampAlias|]. intros _. apply always_bind; [apply always_stampNameKeys|]. intros _.
  apply always_on_entity; intros r; unfold rename_from; by case_bool_decide.
Qed.

Lemma hint_ensures e hint :
  ensures graph_grows (λ _, True) (resolve_hint fl am e hint) (named_by (hint_key hint)).
Proof.
  unfold resolve_hint, ebind. apply ensures_bind with (Q1 := named_by (hint_key hint)); [intros o; apply stable_named_by| |].
  - apply upsert_ensures; [done|]. destruct (ph_userId hint); [apply none_root|apply resolveExistingByName_root].
  - intros [id|x]; [|by apply ensures_done].
    apply ensures_bind with (Q1 := λ _, named_by (hint_key hint) (Ok id)); [intros _; apply stable_named_by| |intros _; by apply ensures_done].
    apply always_ensures; [apply stable_named_by|apply always_nameParticipant].
Qed.

Lemma always_sameName e rows facts : always graph_grows (sameName resolver e rows facts).
Proof.
  unfold sameName. destruct resolver as [b|]; [|done]. apply always_bind; [|done].
  apply always_confirm, graph_grows_refl.
Qed.

Lemma always_reuse e step rows facts : always graph_grows (reuse_same_name resolver e step rows facts).
Proof.
  apply always_bind; [apply always_sameName|]. intros [id|]; [|done].
  apply always_bind; [apply always_stampNameKeys|done].
Qed.

Lemma always_translit e facts : always graph_grows (translit_rung resolver e facts).
Proof.
  unfold translit_rung. case_bool_decide; [done|]. apply always_bind; [apply always_query, graph_grows_refl|].
  intros [|kv [|]]; [done|apply always_reuse|done].
Qed.

Lemma always_rungs e facts : always graph_grows (resolveByNameRungs fl resolver e facts).
Proof.
  apply always_bind; [apply always_query, graph_grows_refl|]. intros [|kv rows]; [|apply always_reuse].
  destruct (if nf_articles fl then _ else _) as [|v vs]; [apply always_translit|].
  apply always_bind; [apply always_query, graph_grows_refl|]. intros [|[id r] [|]]; [apply always_translit|done|apply always_translit].
Qed.

Lemma always_stamped alias found : always graph_grows (stamped alias found).
Proof. destruct found; [|done]. apply always_bind; [apply always_stampAlias|done]. Qed.

Lemma always_resolveByCodeAlias e : always graph_grows (resolveByCodeAlias fl e).
Proof.
  unfold resolveByCodeAlias. destruct (negb (nf_codeAlias fl)); [done|]. cbn zeta.
  destruct (symbolAliasForPath (surface e)).
  - apply always_bind; [apply always_unique, graph_grows_refl|]. intros id. apply always_stamped.
  - destruct (isCodeSymbolShaped (surface e)); [|done].
    apply always_bind; [apply always_scan, graph_grows_refl|]. intros m. apply always_stamped.
Qed.

Lemma always_prejudge e facts : always graph_grows (prejudge fl am bounds resolver e facts).
Proof.
  unfold prejudge. destruct (negb (resolver_enabled resolver)); [done|].
  apply always_bind; [apply always_byName, graph_grows_refl|]. intros [id|]; [done|].
  apply always_resolveByName, graph_grows_refl.
Qed.

Lemma always_create e : always graph_grows (create_named fl e).
Proof. apply always_bind; [|done]. apply always_update. intros s. by apply create_entity_grows. Qed.

Lemma always_judge_rung e facts pre : always graph_grows (judge_rung fl am bounds resolver e facts pre).
Proof.
  unfold judge_rung. destruct (negb (resolver_enabled resolver)); [apply always_create|].
  apply always_bind; [destruct pre; [done|apply always_prejudge]|]. intros [id|]; [|apply always_create].
  apply always_bind; [apply always_stampNameKeys|done].
Qed.

Lemma always_unpinned e facts pre : always graph_grows (resolve_unpinned fl am bounds resolver e facts pre).
Proof.
  apply always_bind; [apply always_rungs|]. intros [step id| |]; [done|apply always_create|].
  apply always_bind; [apply always_resolveByCodeAlias|]. intros [id|]; [done|apply always_judge_rung].
Qed.

Lemma always_pinned e : always graph_grows (resolve_pinned e).
Proof.
  unfold resolve_pinned. destruct (truthy (mt_known e)); [|done].
  apply always_bind; [apply always_query, graph_grows_refl|]. intros [id|]; [|done].
  apply always_bind; [apply always_stampNameKeys|]. intros _. apply always_bind; [apply always_stampAlias|done].
Qed.
End growing.

(** ** A mention nobody anchored lands on nobody's private entity *)

Section sharing.
Context `{Script, Models} (fl : NameFlags) (am : Ambient) (bounds : ScanBounds) (resolver : option bool).

Definition byName_global (o : ByName) (s : Graph) : Prop :=
  match o with Found _ id => global_entity s id | _ => True end.

Lemma stable_byName_global o : stable graph_grows (byName_global o).
Proof. destruct o; [apply stable_global|done|done]. Qed.

Lemma select_global p n s id r :
  (∀ r, p r = true → global_row r = true) → (id, r) ∈ select_entities p n s → global_entity s id.
Proof.
  intros Hp (i & Hi & _)%elem_of_take. apply list_elem_of_lookup_2, elem_of_bfilter in Hi as [Hi Hr].
  apply elem_of_map_to_list in Hi. apply Hp, bool_decide_eq_true in Hr. unfold global_entity, owner_of.
  rewrite Hi. cbn in *. by rewrite Hr.
Qed.

(** Writing on the way keeps what is known of the id. *)
Lemma then_global {A} (p : prog Graph A) id (k : A → prog Graph (ResolutionStep * string)) step :
  always graph_grows p → (∀ a, k a = Done (step, id)) →
  ensures graph_grows (λ s, global_entity s id) (pbind p k) (λ r s, global_entity s r.2).
Proof.
  intros Hp Hk. apply ensures_bind with (Q1 := λ _ s, global_entity s id); [intros _; apply stable_global| |].
  - by apply always_ensures; [apply stable_global|].
  - intros a. rewrite Hk. by apply ensures_done.
Qed.

Lemma reuse_global e step rows facts :
  ensures graph_grows (all_global (map fst rows)) (reuse_same_name resolver e step rows facts) byName_global.
Proof.
  apply ensures_bind with (Q1 := none_or_global); [apply stable_none_or_global| |].
  - unfold sameName. set (cs := map (λ kv : string * EntityRow, {| sn_entityId := kv.1; sn_canonicalName := en_canonicalName kv.2 |}) rows).
    assert (Hcs : map sn_entityId cs = map fst rows) by apply map_map.
    rewrite <- Hcs. clearbody cs. destruct resolver as [b|].
    + eapply ensures_bind; [|apply confirm_picks|].
      * intros [id|]; [apply stable_global|done].
      * intros [id|]; apply ensures_done; [|done]. intros s Hs x [= <-]. exact Hs.
    + apply ensures_done. intros s Hs id Hid. apply Hs. destruct cs; [done|]. injection Hid as <-. by left.
  - intros [id|]; [|by apply ensures_done].
    apply ensures_bind with (Q1 := λ _ s, global_entity s id); [intros _; apply stable_global| |intros _; by apply ensures_done].
    eapply ensures_weaken; [|apply always_ensures; [apply stable_global|apply always_stampNameKeys]]. intros s Hs. by apply Hs.
Qed.

Lemma translit_global e facts : ensures graph_grows (λ _, True) (translit_rung resolver e facts) byName_global.
Proof.
  unfold translit_rung. case_bool_decide; [by apply ensures_done|]. apply scanned_rows.
  - intros s id r. apply select_global. intros r'. by intros [_ ?]%andb_true_iff.
  - intros [|kv [|]]; [by apply ensures_done|apply reuse_global|by apply ensures_done].
Qed.

Lemma rungs_global e facts : ensures graph_grows (λ _, True) (resolveByNameRungs fl resolver e facts) byName_global.
Proof.
  apply scanned_rows; [intros s id r; apply select_global; intros r'; by intros [_ ?]%andb_true_iff|].
  intros [|kv rows]; [|apply reuse_global]. apply (ensures_weaken _ _ (λ _, True)); [done|].
  destruct (if nf_articles fl then _ else _) as [|v vs]; [apply translit_global|].
  apply scanned_rows; [intros s id r; apply select_global; intros r'; by intros [_ ?]%andb_true_iff|].
  intros [|[id r] [|]]; [by apply (ensures_weaken _ _ (λ _, True)), translit_global| |by apply (ensures_weaken _ _ (λ _, True)), translit_global].
  apply ensures_done. intros s Hs. apply Hs. by left.
Qed.

Lemma stamped_global alias found :
  ensures graph_grows (none_or_global found) (stamped alias found) none_or_global.
Proof.
  destruct found as [id|]; [|by apply ensures_done].
  apply ensures_bind with (Q1 := λ _, none_or_global (Some id)); [intros _; apply stable_none_or_global| |intros _; by apply ensures_done].
  apply always_ensures; [apply stable_none_or_global|apply always_stampAlias].
Qed.

Lemma scan_needles_global symbol needles matched :
  ensures graph_grows (all_global matched) (scan_needles global_row symbol needles matched) all_global.
Proof.
  revert matched. induction needles as [|needle needles IH]; intros matched; [by apply ensures_done|]. cbn [scan_needles].
  apply ensures_bind with (Q1 := λ rows s, all_global matched s ∧ all_global (map fst rows) s).
  - intros rows s s' [Hs1 Hs2] Hg. split; by eapply stable_all_global.
  - apply ensures_query.
    + intros rows s s' [Hs1 Hs2] Hg. split; by eapply stable_all_global.
    + intros s Hs. split; [done|]. intros id Hin. apply list_elem_of_fmap in Hin as ([i r] & -> & Hin).
      eapply select_global; [|exact Hin]. intros r'. by intros [_ ?]%andb_true_iff.
  - intros rows. cbn zeta. set (hits := map fst (List.filter _ rows)). assert (Hm : ∀ s, all_global matched s ∧ all_global (map fst rows) s →
      all_global (add_all matched hits) s).
    { intros s [Hs1 Hs2] id [Hin|Hin]%elem_of_add_all; [by apply Hs1|]. apply Hs2.
      apply list_elem_of_fmap in Hin as (kv & -> & Hin). apply list_elem_of_fmap. exists kv. split; [done|].
      by apply elem_of_bfilter in Hin as [? _]. }
    destruct (1 <? length (add_all matched hits)); [by apply ensures_done|]. by eapply ensures_weaken; [|apply IH].
Qed.

Lemma codeAlias_global e : ensures graph_grows (λ _, True) (resolveByCodeAlias fl e) none_or_global.
Proof.
  unfold resolveByCodeAlias. destruct (negb (nf_codeAlias fl)); [by apply ensures_done|]. cbn zeta.
  destruct (symbolAliasForPath (surface e)) as [symbol|].
  - eapply ensures_bind; [apply stable_none_or_global| |intros id; apply stamped_global]. apply scanned_rows.
    + intros s id r. apply select_global. intros r' [[_ ?]%andb_true_iff _]%andb_true_iff. done.
    + intros rows. apply ensures_done. intros s Hs id (r & Hr)%unique_id_elem. apply Hs.
      apply list_elem_of_fmap. by exists (id, r).
  - destruct (isCodeSymbolShaped (surface e)); [|by apply ensures_done].
    eapply ensures_bind; [apply stable_all_global|eapply ensures_weaken; [|apply scan_needles_global]|].
    + by intros s _ id ?%elem_of_nil.
    + intros m. eapply ensures_weaken; [|apply stamped_global]. intros s Hs id. destruct m as [|x [|]]; [done| |done].
      intros [= <-]. apply Hs. by left.
Qed.

Lemma create_global e :
  ensures graph_grows (λ _, True) (create_named fl e) (λ r s, global_entity s r.2).
Proof.
  apply ensures_bind with (Q1 := λ id s, global_entity s id); [apply stable_global| |intros id; by apply ensures_done].
  apply ensures_update; [apply stable_global|]. intros s _. split; [by apply create_entity_grows|].
  unfold global_entity, owner_of. cbn. by rewrite lookup_insert_eq.
Qed.

Lemma judge_rung_global e facts pre :
  ensures graph_grows (λ s, ∀ v, pre = Some v → none_or_global v s) (judge_rung fl am bounds resolver e facts pre)
    (λ r s, global_entity s r.2).
Proof.
  unfold judge_rung. destruct (negb (resolver_enabled resolver)).
  { by apply (ensures_weaken _ _ (λ _, True)), create_global. }
  apply ensures_bind with (Q1 := none_or_global); [apply stable_none_or_global| |].
  - destruct pre as [v|]; [apply ensures_done; intros s Hs; by apply Hs|]. apply (ensures_weaken _ _ (λ _, True)); [done|].
    unfold prejudge. destruct (negb (resolver_enabled resolver)); [by apply ensures_done|].
    apply ensures_bind with (Q1 := λ _ _, True); [done| |].
    + apply always_ensures; [done|]. apply always_byName, graph_grows_refl.
    + intros [id|]; [by apply ensures_done|apply resolveByName_global].
  - intros [id|]; [|by apply (ensures_weaken _ _ (λ _, True)), create_global].
    eapply ensures_weaken; [|eapply then_global; [apply always_stampNameKeys|done]]. intros s Hs. by apply Hs.
Qed.

Lemma unpinned_global e facts pre :
  ensures graph_grows (λ s, ∀ v, pre = Some v → none_or_global v s)
    (resolve_unpinned fl am bounds resolver e facts pre) (λ r s, global_entity s r.2).
Proof.
  set (K := λ s, ∀ v, pre = Some v → none_or_global v s).
  assert (HK : stable graph_grows K) by (intros s s' Hs Hg v Hv; eapply stable_none_or_global; [by apply Hs|done]).
  apply ensures_bind with (Q1 := λ o s, K s ∧ byName_global o s).
  - intros o s s' [Hs1 Hs2] Hg. split; [by eapply HK|by eapply stable_byName_global].
  - eapply ensures_weaken; [|apply ensures_frame; [exact HK|apply rungs_global]]. by intros s Hs.
  - intros [step id| |].
    + apply ensures_done. by intros s [_ Hs].
    + by apply (ensures_weaken _ _ (λ _, True)), create_global.
    + apply ensures_bind with (Q1 := λ o s, K s ∧ none_or_global o s).
      * intros o s s' [Hs1 Hs2] Hg. split; [by eapply HK|by eapply stable_none_or_global].
      * eapply ensures_weaken; [|apply ensures_frame; [exact HK|apply codeAlias_global]]. by intros s [Hs _].
      * intros [id|]; [apply ensures_done; intros s [_ Hs]; by apply Hs|].
        eapply ensures_weaken; [|apply judge_rung_global]. by intros s [Hs _].
Qed.
End sharing.

(** ** Writers of entities together *)

(** What a fact, a link's end or a mention asks to be resolved; [ahead]: the judge was asked
    before the ladder ran. *)
Inductive naming_call : Type :=
| NFact (am : Ambient) (ref : EntityRef) (userId : option string)
| NEnd (am : Ambient) (ref : EntityRef)
| NMention (am : Ambient) (e : Mention) (hint : option ParticipantHint) (facts : list string) (ahead : bool).

Section calls.
Context `{Script, Models} (fl : NameFlags) (bounds : ScanBounds) (resolver : option bool).

Definition naming_prog (c : naming_call) : prog Graph (result http_exn string) :=
  match c with
  | NFact am ref userId => resolveOrCreateEntity fl am ref userId
  | NEnd am ref => resolveOrCreateBareRef fl am ref
  | NMention am e hint facts ahead =>
      do* pre := (if ahead then do* v := prejudge fl am bounds resolver e facts in Done (Some v) else Done None) in
      try* r := resolveOrCreateNamedEntity fl am bounds resolver e hint facts pre in Done (Ok r.2)
  end.

(** The reference key the call goes by, if it does. *)
Definition call_key (c : naming_call) : option string :=
  match c with
  | NFact am ref userId =>
      match truthy (er_entityId ref), er_vertical ref, er_id ref with
      | None, Some v, Some i =>
          Some (if isUserEntityRef (Some (v, i)) userId then scopedRefKey v i userId else externalRefKey v i)
      | _, _, _ => None
      end
  | NEnd am ref =>
      match truthy (er_entityId ref), er_vertical ref, er_id ref with
      | None, Some v, Some i => Some (externalRefKey v i)
      | _, _, _ => None
      end
  | NMention am e hint facts ahead => hint_key <$> hint
  end.

Definition unanchored (c : naming_call) : bool :=
  match c with NMention am e None facts ahead => bool_decide (truthy (mt_known e) = None) | _ => false end.

(** What each call ends with. *)
Definition names_rightly (c : naming_call) (o : result http_exn string) (s : Graph) : Prop :=
  match call_key c with
  | Some key => named_by key o s
  | None => unanchored c = true → ∃ id, o = Ok id ∧ global_entity s id
  end.

Lemma plain_call {A} (p : prog Graph A) (Q : A → Graph → Prop) :
  always graph_grows p → (∀ a s, Q a s) → ensures graph_grows (λ _, True) p Q.
Proof. intros Hp HQ. eapply ensures_post; [|by apply (always_ensures _ _ (λ _, True))]. auto. Qed.

Lemma named_fact am ref userId key :
  call_key (NFact am ref userId) = Some key →
  ensures graph_grows (λ _, True) (resolveOrCreateEntity fl am ref userId) (named_by key).
Proof.
  cbn. unfold resolveOrCreateEntity. destruct (truthy (er_entityId ref)); [done|].
  destruct (er_vertical ref) as [v|]; [|done]. destruct (er_id ref) as [i|]; [|done]. intros [= <-]. cbn zeta.
  apply upsert_ensures; [by destruct (if isUserEntityRef _ _ then _ else _)|].
  destruct (isUserEntityRef _ _); [apply none_root|apply adoptByReferenceId_root].
Qed.

Lemma named_end am ref key :
  call_key (NEnd am ref) = Some key →
  ensures graph_grows (λ _, True) (resolveOrCreateBareRef fl am ref) (named_by key).
Proof.
  cbn. unfold resolveOrCreateBareRef. destruct (truthy (er_entityId ref)); [done|].
  destruct (er_vertical ref) as [v|]; [|done]. destruct (er_id ref) as [i|]; [|done]. intros [= <-].
  apply upsert_ensures; [done|apply adoptByReferenceId_root].
Qed.

(** A reference that names an entity by its id writes nothing. *)
Lemma by_id_fact am ref userId :
  call_key (NFact am ref userId) = None → always graph_grows (resolveOrCreateEntity fl am ref userId).
Proof.
  cbn. unfold resolveOrCreateEntity. destruct (truthy (er_entityId ref)); [done|].
  by destruct (er_vertical ref), (er_id ref).
Qed.

Lemma by_id_end am ref : call_key (NEnd am ref) = None → always graph_grows (resolveOrCreateBareRef fl am ref).
Proof.
  cbn. unfold resolveOrCreateBareRef. destruct (truthy (er_entityId ref)); [done|].
  by destruct (er_vertical ref), (er_id ref).
Qed.

(** The verdict asked ahead, if any. *)
Definition ahead_prog (am : Ambient) (e : Mention) (facts : list string) (ahead : bool) :
    prog Graph (option (option string)) :=
  if ahead then do* v := prejudge fl am bounds resolver e facts in Done (Some v) else Done None.

Definition ahead_ok (pre : option (option string)) (s : Graph) : Prop := ∀ v, pre = Some v → none_or_global v s.

Lemma stable_ahead_ok pre : stable graph_grows (ahead_ok pre).
Proof. intros s s' Hs Hg v Hv. by eapply stable_none_or_global; [apply Hs|]. Qed.

Lemma ahead_ensures am e facts ahead : ensures graph_grows (λ _, True) (ahead_prog am e facts ahead) ahead_ok.
Proof.
  unfold ahead_prog. destruct ahead; [|by apply ensures_done].
  apply ensures_bind with (Q1 := none_or_global); [apply stable_none_or_global| |].
  - unfold prejudge. destruct (negb (resolver_enabled resolver)); [by apply ensures_done|].
    apply ensures_bind with (Q1 := λ _ _, True); [done|apply always_ensures; [done|]; apply always_byName, graph_grows_refl|].
    intros [id|]; [by apply ensures_done|apply resolveByName_global].
  - intros v. apply ensures_done. by intros s Hs w [= <-].
Qed.

Lemma mention_ensures am e hint facts ahead :
  ensures graph_grows (λ _, True) (naming_prog (NMention am e hint facts ahead))
    (names_rightly (NMention am e hint facts ahead)).
Proof.
  cbn [naming_prog]. fold (ahead_prog am e facts ahead).
  apply ensures_bind with (Q1 := ahead_ok); [apply stable_ahead_ok|apply ahead_ensures|]. intros pre. unfold ebind.
  destruct hint as [h|]; cbn [resolveOrCreateNamedEntity].
  - apply ensures_bind with (Q1 := λ r, named_by (hint_key h) (match r with Ok x => Ok x.2 | Throw e => Throw e end)).
    + intros r. apply stable_named_by.
    + apply ensures_bind with (Q1 := named_by (hint_key h)); [intros o; apply stable_named_by| |].
      * apply (ensures_weaken _ _ (λ _, True)); [done|apply hint_ensures].
      * by intros [id|x]; apply ensures_done.
    + by intros [r|x]; apply ensures_done.
  - unfold names_rightly. cbn [call_key fmap option_fmap option_map unanchored].
    destruct (decide (truthy (mt_known e) = None)) as [Hk|Hk].
    + unfold resolve_pinned. rewrite Hk. cbn [pbind].
      apply ensures_bind with (Q1 := λ r s, ∃ x, r = Ok x ∧ global_entity s x.2).
      * intros r s s' (x & -> & Hx) Hg. exists x. split; [done|]. by eapply stable_global.
      * apply ensures_bind with (Q1 := λ r s, global_entity s r.2); [intros r; apply stable_global|apply unpinned_global|].
        intros r. apply ensures_done. intros s Hs. by exists r.
      * intros [r|x]; apply ensures_done; intros s (y & Hy & Hg); [|done]. injection Hy as ->. intros _. by exists y.2.
    + apply (ensures_weaken _ _ (λ _, True)); [done|]. apply plain_call; [|intros a s; by rewrite bool_decide_eq_false_2].
      apply always_bind; [|by intros [|]]. apply always_bind; [apply always_pinned|]. intros [id|]; [done|].
      apply always_bind; [apply always_unpinned|done].
Qed.

Lemma call_ensures c : ensures graph_grows (λ _, True) (naming_prog c) (names_rightly c).
Proof.
  destruct c as [am ref userId|am ref|am e hint facts ahead]; [| |apply mention_ensures];
    unfold names_rightly; [destruct (call_key (NFact am ref userId)) eqn:Ek|destruct (call_key (NEnd am ref)) eqn:Ek];
    cbn [naming_prog].
  - by apply named_fact.
  - apply plain_call; [by apply by_id_fact|done].
  - by apply named_end.
  - apply plain_call; [by apply by_id_end|done].
Qed.

Lemma calls_end_rightly sched cs s i c a :
  cs !! i = Some c → (run_pool sched (s, map naming_prog cs)).2 !! i = Some (Done a) →
  names_rightly c a (run_pool sched (s, map naming_prog cs)).1.
Proof.
  intros Hi Ha. eapply (pool_ends_assured graph_grows sched (s, _) (map names_rightly cs)); [|exact Ha|].
  - cbn [fst snd]. rewrite Forall2_fmap. apply Forall2_same_length_lookup_2; [done|]. intros n c1 c2 H1 H2.
    assert (c2 = c1) as -> by congruence. exists (λ _, True). split_and!; [done|done|apply call_ensures].
  - by rewrite list_lookup_fmap, Hi.
Qed.

(** C22. Whatever facts, links and mentions are resolved at once, however their statements
    interleave: all that go by one reference get one entity, the one the reference names. *)
Theorem one_reference_names_one_entity sched cs s i j c c' key a b :
  cs !! i = Some c → cs !! j = Some c' → call_key c = Some key → call_key c' = Some key →
  let o := run_pool sched (s, map naming_prog cs) in
  o.2 !! i = Some (Done a) → o.2 !! j = Some (Done b) →
  ∃ id, a = Ok id ∧ b = Ok id ∧ lookupExternalRef key o.1 = Some id.
Proof.
  intros Hi Hj Hk Hk' o Ha Hb. pose proof (calls_end_rightly _ _ _ _ _ _ Hi Ha) as Hna.
  pose proof (calls_end_rightly _ _ _ _ _ _ Hj Hb) as Hnb. unfold names_rightly in *. rewrite Hk in Hna. rewrite Hk' in Hnb.
  destruct Hna as (x & -> & Hx), Hnb as (y & -> & Hy). exists x. fold o in Hx, Hy. unfold names_entity in *.
  split_and!; congruence.
Qed.

(** C36. A mention that nobody anchored and no memory pinned is filed under an entity that
    belongs to nobody in particular, never under a user's private one, whatever interleaves. *)
Theorem mentions_stay_off_private_entities sched cs s i am e facts ahead a :
  cs !! i = Some (NMention am e None facts ahead) → truthy (mt_known e) = None →
  let o := run_pool sched (s, map naming_prog cs) in
  o.2 !! i = Some (Done a) → ∃ id, a = Ok id ∧ owner_of o.1 id = Some None.
Proof.
  intros Hi Hk o Ha. pose proof (calls_end_rightly _ _ _ _ _ _ Hi Ha) as Hn. unfold names_rightly in Hn. cbn in Hn.
  apply Hn. by apply bool_decide_eq_true_2.
Qed.
End calls.

(** ** Examples *)

Section examples.

(** Plain names, no judge, nothing embedded. *)
#[local] Instance example_script : Script :=
  {| anyAscii := λ s, s; has_letter_or_digit := str_exists is_alnum; nfkc := λ s, s |}.

#[local] Instance example_models : Models :=
  {| levenshtein := λ _ _, 1; cosine_similarity := λ _ _, 0%float; embed := λ _, None; embed_for_write := λ _, None;
     judge := λ _ _ _, Unsure |}.

Definition no_flags : NameFlags := {| nf_articles := false; nf_codeAlias := false |}.
Definition some_bounds : ScanBounds := {| sb_keyNeighbourCeiling := 0.3; sb_cosineFloor := 0.8; sb_candidateK := 3 |}.

Definition plain_mention (name : string) : Mention :=
  {| mt_name := name; mt_type := "customer"; mt_canonical := None; mt_known := None |}.

Definition crm_hint (i : string) : ParticipantHint :=
  {| ph_vertical := "crm"; ph_id := i; ph_role := None; ph_name := None; ph_userId := None |}.

Definition rows_graph (rows : list (string * EntityRow)) : Graph :=
  {| gr_entities := list_to_map rows; gr_refs := ∅; gr_edges := ∅; gr_facts := []; gr_predicates := []; gr_locks := ∅ |}.

Definition crm_ref (i : string) : EntityRef := {| er_vertical := Some "crm"; er_id := Some i; er_entityId := None |}.

(** A mention anchored to [crm:anna], a link's end [crm:anna]: their statements in turns. *)
Definition anchored : list naming_call :=
  [NMention no_ambient (plain_mention "Anna") (Some (crm_hint "anna")) [] false; NEnd no_ambient (crm_ref "anna")].

Definition in_turns : list nat := concat (replicate 20 [0; 1]).

Abbreviation pool_of cs s := (run_pool in_turns (s, map (naming_prog no_flags some_bounds None) cs)).

Lemma one_reference_names_one_entity_witness :
  let o := pool_of anchored (rows_graph []) in
  o.2 !! 0 = Some (Done (Ok "knowledge_entity:0")) ∧ o.2 !! 1 = Some (Done (Ok "knowledge_entity:0")) ∧
  lookupExternalRef "crm__anna" o.1 = Some "knowledge_entity:0".
Proof.
  intros o.
  assert (Ha : o.2 !! 0 = Some (Done (Ok "knowledge_entity:0"))) by (vm_compute; reflexivity).
  assert (Hb : o.2 !! 1 = Some (Done (Ok "knowledge_entity:0"))) by (vm_compute; reflexivity).
  split; [exact Ha|]. split; [exact Hb|].
  destruct (one_reference_names_one_entity no_flags some_bounds None in_turns anchored (rows_graph []) 0 1 _ _ "crm__anna"
    _ _ eq_refl eq_refl eq_refl eq_refl Ha Hb) as (id & Hid & _ & Hl).
  injection Hid as <-. exact Hl.
Defined.

(** A user's private Anna is there; the mention gets an entity of its own. *)
Definition private_anna : Graph :=
  rows_graph [("knowledge_entity:p",
    {| en_type := "customer"; en_canonicalName := "Anna"; en_aliases := ["Anna"]; en_nameKeys := ["anna"];
       en_externalRefs := []; en_userId := Some "u1"; en_scope := []; en_mergedInto := None; en_embedding := None |})].

Lemma mentions_stay_off_private_entities_witness :
  let o := pool_of [NMention no_ambient (plain_mention "Anna") None [] false] private_anna in
  o.2 !! 0 = Some (Done (Ok "knowledge_entity:0")) ∧ owner_of o.1 "knowledge_entity:0" = Some None.
Proof.
  intros o. assert (Ha : o.2 !! 0 = Some (Done (Ok "knowledge_entity:0"))) by (vm_compute; reflexivity).
  split; [exact Ha|].
  destruct (mentions_stay_off_private_entities no_flags some_bounds None in_turns
    [NMention no_ambient (plain_mention "Anna") None [] false] private_anna 0 no_ambient (plain_mention "Anna") [] false _
    eq_refl eq_refl Ha) as (id & Hid & Ho).
  injection Hid as <-. exact Ho.
Defined.

(** The exact rung asks for no survivor: a mention of a merged name is filed under the husk
    that every read leaves out. *)
Lemma mention_lands_on_a_husk :
  let s := rows_graph [(A, node "anna" (Some B)); (B, node "anna b." None)] in
  let o := run (naming_prog no_flags some_bounds None (NMention no_ambient (plain_mention "Anna") None [] false)) s in
  o.2 = Ok A ∧ survivor o.1 A = B.
Proof. split; vm_compute; reflexivity. Qed.

(** A name wholly inside another, neither at its start nor its end: the check finds it,
    the datastore's filter already dropped the row. *)
Lemma inner_part_is_not_scanned :
  isPart "dr artem sokolov" "artem" = true ∧ subset_row "artem" (with_names "Dr Artem Sokolov" [] ["dr artem sokolov"] (node "x" None)) = true ∧
  subset_row "dr artem sokolov" (with_names "Artem" [] ["artem"] (node "x" None)) = false.
Proof. split_and!; vm_compute; reflexivity. Qed.
(** A merged row and its survivor share a key: the rungs see two rows and pass, the
    question before the judge sees one and answers for it, and the entity is made anew. *)
Lemma merged_namesake_is_minted_again :
  let keyed_node name merged := with_names name [] ["anna"] (node name merged) in
  let s := rows_graph [(A, keyed_node "one" (Some B)); (B, keyed_node "two" None)] in
  let o := run (naming_prog no_flags some_bounds (Some true) (NMention no_ambient (plain_mention "Anna") None [] false)) s in
  run (resolveExistingByName no_flags no_ambient "Anna" None) s = (s, Some B) ∧ is_ok o.2 = true ∧
  size (gr_entities o.1) = 3.
Proof. split_and!; vm_compute; reflexivity. Qed.
End examples.
