(* ===== verification/FactResolver.v ===== *)
(** * Writing a fact

    [ingest/fact-resolver.service.ts]: one call of [fn::settle_fact] or
    [fn::settle_facts] per write, the scope stamp that follows it, the extractor's own
    supersessions and the conflict outcomes. A write is a sequence of statements, each
    of which may fail; other writes' statements may fall between them. The in-process
    mutex guards the settling statement alone, which is atomic here anyway. The
    language and grounding stamps, the expectation, the entity's name and the support
    edges write other columns and tables and are left out. *)

From S2P Require Import Prelude Js Resume ScopeTags FactSlots FactSettle FactPolicy.
From stdpp Require Import gmap.
Local Open Scope string_scope.
Local Open Scope nat_scope.

(** ** The store a write talks to *)

Record EdgeRow := {
  er_validFrom : option Z;
  er_validUntil : option Z;
  er_invalidatedAt : option Z
}.

(** The facts, the entities' relations, and which of the coming statements fail. *)
Record DbState := {
  ds_facts : FactDb;
  ds_edges : gmap nat EdgeRow;
  ds_fails : list bool
}.

Definition with_facts (db : FactDb) (s : DbState) : DbState :=
  {| ds_facts := db; ds_edges := ds_edges s; ds_fails := ds_fails s |}.

(** One statement: it takes effect whole, or throws and changes nothing. *)
Definition stmt {A} (f : DbState → DbState * A) : prog DbState (result string A) :=
  Stmt (λ s,
    let s' := {| ds_facts := ds_facts s; ds_edges := ds_edges s; ds_fails := tail (ds_fails s) |} in
    if bool_decide (head (ds_fails s) = Some true) then (s', Done (Throw "statement failed"))
    else let '(s2, a) := f s' in (s2, Done (Ok a))).

Definition on_facts {A} (f : FactDb → FactDb * A) (s : DbState) : DbState * A :=
  let '(db, a) := f (ds_facts s) in (with_facts db s, a).

Definition next_statement (s : DbState) : DbState :=
  {| ds_facts := ds_facts s; ds_edges := ds_edges s; ds_fails := tail (ds_fails s) |}.

Lemma run_stmt_ok {A} (f : DbState → DbState * A) s :
  head (ds_fails s) ≠ Some true →
  run (stmt f) s = ((f (next_statement s)).1, Ok (f (next_statement s)).2).
Proof.
  intros Hs. unfold stmt. cbn [run]. rewrite bool_decide_eq_false_2 by done.
  fold (next_statement s). by destruct (f (next_statement s)).
Qed.

Lemma run_stmt_fail {A} (f : DbState → DbState * A) s :
  head (ds_fails s) = Some true → run (stmt f) s = (next_statement s, Throw "statement failed").
Proof. intros Hs. unfold stmt. cbn [run]. by rewrite bool_decide_eq_true_2. Qed.

Lemma run_stmt {A} (f : DbState → DbState * A) s :
  ds_fails s = [] → run (stmt f) s = ((f s).1, Ok (f s).2).
Proof.
  intros Hs. unfold stmt. cbn [run]. rewrite Hs. cbn.
  assert ({| ds_facts := ds_facts s; ds_edges := ds_edges s; ds_fails := [] |} = s) as ->
    by (destruct s; cbn in *; by subst).
  by destruct (f s).
Qed.

(** [try { m } catch { h }] *)
Definition catching {A} (m : prog DbState (result string A)) (h : string → prog DbState (result string A)) :
    prog DbState (result string A) :=
  pbind m (λ r, match r with Ok a => Done (Ok a) | Throw e => h e end).

(** ** The groups of a write *)

Definition writeGroupTags (am : Ambient) : list string :=
  let teams := List.filter (starts_with "team:") (default [] (ambientWriteScope am)) in
  add_all [] (app (actingCircleTags am) teams).

(** [this.cfgNum(key, fallback)]; [parse] is [Number] of a string. *)
Definition cfgNum (parse : string → float) (v : option string) (fallback : float) : float :=
  match v with
  | None => fallback
  | Some s => if bool_decide (trim s = "") then fallback
              else let n := parse s in if is_finite n then n else fallback
  end.

(** ** The scope stamp *)

Record StampGroup := { sg_scope : list string; sg_personal : bool; sg_ids : list nat }.

Definition add_stamp (am : Ambient) (byScope : list (list string * StampGroup))
    (it : option string * option nat) : list (list string * StampGroup) :=
  let '(userId, factId) := it in
  match factId with
  | None => byScope
  | Some id =>
      let scope := scopeForUser am userId in
      if length scope =? 0 then byScope
      else
        let group := default {| sg_scope := scope; sg_personal := bool_decide (truthy userId ≠ None);
                                sg_ids := [] |} (OMap.get scope byScope) in
        OMap.set scope {| sg_scope := sg_scope group; sg_personal := sg_personal group;
                          sg_ids := app (sg_ids group) [id] |} byScope
  end.

(** [UPDATE knowledge_fact SET scope = $scope WHERE id IN $ids] *)
Definition set_scope (scope : list string) (ids : list nat) (db : FactDb) : FactDb :=
  fold_left (λ db id, update_fact id (with_scope scope) db) ids db.

(** A personal row's failed stamp is swallowed: its user still fences it. *)
Fixpoint stamp_groups (groups : list (list string * StampGroup)) : prog DbState (result string unit) :=
  match groups with
  | [] => Done (Ok tt)
  | (_, g) :: groups' =>
      try* _ := catching (stmt (on_facts (λ db, (set_scope (sg_scope g) (sg_ids g) db, tt))))
                         (λ e, if sg_personal g then Done (Ok tt) else Done (Throw e)) in
      stamp_groups groups'
  end.

Definition stampFactScope (am : Ambient) (items : list (option string * option nat)) :
    prog DbState (result string unit) :=
  stamp_groups (fold_left (add_stamp am) items []).

(** ** One call *)

Section resolver.
Context `{ResolverServices} (env : ResolverEnv) (cosine : list float → list float → float)
        (parse : string → float).

Definition similarityThreshold : float := cfgNum parse (env_similarityThreshold env) 0.85%float.
Definition slotSimilarityThreshold : float := cfgNum parse (env_slotSimilarity env) 0.9%float.

(** The arguments bound for [fn::settle_fact]. *)
Definition settle_args (am : Ambient) (c : ResolveCall) : SettleArgs :=
  {| sa_entity_id := idTailOf (rc_entityId c); sa_predicate := rc_predicate c;
     sa_object := rc_object c; sa_object_meta := rc_objectMeta c; sa_embedding := rc_embedding c;
     sa_confidence := rc_confidence c; sa_valid_from := rc_validFrom c;
     sa_valid_until := rc_validUntil c; sa_source := rc_source c;
     sa_source_trust := rc_sourceTrust c; sa_semantics := rc_semantics c;
     sa_similarity_threshold := default similarityThreshold (rc_similarityFloor c);
     sa_slot_similarity := Some slotSimilarityThreshold;
     sa_lang := rc_lang c; sa_script := rc_script c; sa_entropy := rc_entropy c;
     sa_user_id := rc_userId c; sa_derived_version := rc_derivedVersion c;
     sa_predicate_alias := rc_predicateAlias c; sa_circles := writeGroupTags am |}.

(** [resolveLock]'s key. *)
Definition lockKey (c : ResolveCall) : string :=
  let NUL := String (Ascii.ascii_of_nat 0) "" in
  rc_companyId c +:+ NUL +:+ rc_entityId c +:+ NUL +:+ default (rc_predicate c) (rc_predicateAlias c).

Definition resolveFactCall (am : Ambient) (c : ResolveCall) : prog DbState (result string ResolveOutcome) :=
  try* r := stmt (on_facts (settle_fact cosine true (settle_args am c))) in
  try* _ := stampFactScope am [(rc_userId c, ro_factId r)] in
  Done (Ok r).

(** One fact of the batch: the batch passes the shared threshold, whatever floor the
    call has. *)
Definition batch_args (am : Ambient) (c : ResolveCall) : SettleArgs :=
  let a := settle_args am c in
  {| sa_entity_id := sa_entity_id a; sa_predicate := sa_predicate a; sa_object := sa_object a;
     sa_object_meta := sa_object_meta a; sa_embedding := sa_embedding a;
     sa_confidence := sa_confidence a; sa_valid_from := sa_valid_from a;
     sa_valid_until := sa_valid_until a; sa_source := sa_source a;
     sa_source_trust := sa_source_trust a; sa_semantics := sa_semantics a;
     sa_similarity_threshold := similarityThreshold; sa_slot_similarity := sa_slot_similarity a;
     sa_lang := sa_lang a; sa_script := sa_script a; sa_entropy := sa_entropy a;
     sa_user_id := sa_user_id a; sa_derived_version := sa_derived_version a;
     sa_predicate_alias := sa_predicate_alias a; sa_circles := sa_circles a |}.

Definition resolveAppendOnlyBatch (am : Ambient) (prepared : list ResolveCall) :
    prog DbState (result string (list ResolveOutcome)) :=
  try* out := stmt (on_facts (settle_facts cosine (map (batch_args am) prepared))) in
  try* _ := stampFactScope am (zip (map rc_userId prepared) (map ro_factId out)) in
  Done (Ok out).

(** ** The extractor's supersession *)

Definition UNKNOWN_START : Z := 0.

Definition explicit_from (p : ResolveInput) : Z :=
  match ri_validUntil p with
  | Some u => if (ri_validFrom p =? UNKNOWN_START)%Z then u else ri_validFrom p
  | None => ri_validFrom p
  end.

(** The end a named loser gets. *)
Definition explicit_end (from : Z) (validFrom : Z) (validUntil : option Z) : Z :=
  match validUntil with
  | Some u => if (u <? from)%Z then u else if (validFrom <? from)%Z then from else validFrom
  | None => if (validFrom <? from)%Z then from else validFrom
  end.

Definition named_losers (winner : nat) (ids : list nat) (db : FactDb) : list (nat * Fact) :=
  List.filter (λ kv, bool_decide (kv.1 ∈ ids) && negb (bool_decide (kv.1 = winner)) && open_fact kv.2)
    (map_to_list (fd_rows db)).

Definition close_named (winner : nat) (from : Z) (db : FactDb) (kv : nat * Fact) : FactDb :=
  update_fact kv.1 (λ f, closed_by winner (explicit_end from (f_validFrom kv.2) (f_validUntil kv.2))
                           (with_validUntil (f_validUntil kv.2) f)) db.

(** [UPDATE $winner SET status = 'active' WHERE status = 'competing' AND ...] *)
Definition crown (winner : nat) (losers : list (nat * Fact)) (db : FactDb) : FactDb :=
  match fd_rows db !! winner with
  | Some w => if bool_decide (f_status w = Competing) && (0 <? length losers)
              then update_fact winner (with_status Active) db else db
  | None => db
  end.

Definition close_edge (from now : Z) (e : EdgeRow) : EdgeRow :=
  {| er_validUntil := Some from;
     er_validFrom := match er_validFrom e with
                     | Some f => if (f <? from)%Z then Some f else None
                     | None => None
                     end;
     er_invalidatedAt := Some now |}.

Definition edge_open (e : EdgeRow) : bool := bool_decide (er_invalidatedAt e = None).

(** [UPDATE knowledge_edge SET ... WHERE id IN $edge_ids AND invalidatedAt IS NONE RETURN id] *)
Definition close_edges (ids : list nat) (from : Z) (s : DbState) : DbState * list nat :=
  let open_ids := List.filter (λ id, match ds_edges s !! id with Some e => edge_open e | None => false end) ids in
  ({| ds_facts := ds_facts s;
      ds_edges := fold_left (λ m id, alter (close_edge from (fd_now (ds_facts s))) id m) open_ids (ds_edges s);
      ds_fails := ds_fails s |}, open_ids).

Definition fold_supersession (closed : list nat) (r : ResolveOutcome) : ResolveOutcome :=
  let prior := ro_supersededFactIds r in
  {| ro_outcome := match ro_outcome r with OInserted | OCompeting => OSuperseded | o => o end;
     ro_factId := ro_factId r; ro_reason := ro_reason r;
     ro_supersededFactIds := app prior (List.filter (λ id, negb (bool_decide (id ∈ prior))) closed);
     ro_competingFactIds := ro_competingFactIds r; ro_corroboratedFactId := ro_corroboratedFactId r;
     ro_supersededByFactId := ro_supersededByFactId r; ro_peerFactIds := ro_peerFactIds r |}.

Definition fact_ids (ids : list SupersededRef) : list nat :=
  omap (λ r, match r with RefFact i => Some i | RefEdge _ => None end) ids.
Definition edge_ids (ids : list SupersededRef) : list nat :=
  omap (λ r, match r with RefEdge i => Some i | RefFact _ => None end) ids.

(** One statement that does not fail. *)
Definition sure {A} (f : DbState → DbState * A) : prog DbState (result string A) :=
  update (λ s, let '(s', a) := f s in (s', Ok a)).

(** The statements of the query: each commits on its own, and other writes may fall
    between them. A failure is of the query as a whole. *)
Definition applyExplicitSupersession (p : ResolveInput) (r : ResolveOutcome) :
    prog DbState (result string ResolveOutcome) :=
  match ro_factId r with
  | None => Done (Ok r)
  | Some winner =>
      let ids := List.filter (λ x, negb (bool_decide (x = RefFact winner))) (default [] (ri_supersedes p)) in
      if length ids =? 0 then Done (Ok r)
      else
        catching
          (try* losers := stmt (on_facts (λ db, (db, named_losers winner (fact_ids ids) db))) in
           try* _ := sure (on_facts (λ db,
             (fold_left (close_named winner (explicit_from p)) losers db, tt))) in
           try* _ := sure (on_facts (λ db, (crown winner losers db, tt))) in
           try* edges := sure (close_edges (edge_ids ids) (explicit_from p)) in
           Done (Ok (if 0 <? length losers then fold_supersession (map fst losers) r else r)))
          (λ _, Done (Ok r))
  end.

(** ** Outcomes *)

Definition CONFLICT_OUTCOME_CAP : nat := 20.

Record OutcomeEvent := { oe_companyId : string; oe_subjectId : nat; oe_byFactId : option nat }.

(** The [contradicted] events of a verdict. *)
Definition emitConflictOutcomes (companyId : string) (r : ResolveOutcome) : list OutcomeEvent :=
  if negb (env_outcomes env) then []
  else
    let subjects := match ro_outcome r with
                    | OSuperseded => ro_supersededFactIds r
                    | OCompeting => app (ro_competingFactIds r)
                                      (match ro_factId r with Some id => [id] | None => [] end)
                    | _ => []
                    end in
    map (λ id, {| oe_companyId := companyId; oe_subjectId := id;
                  oe_byFactId := match ro_factId r with
                                 | Some w => if negb (bool_decide (id = w)) then Some w else None
                                 | None => None
                                 end |})
        (take CONFLICT_OUTCOME_CAP subjects).

(** ** The entry points *)

Record Resolved := { rs_result : ResolveOutcome; rs_semantics : Semantics; rs_events : list OutcomeEvent }.

Definition postResolve (p : ResolveInput) (r : ResolveOutcome) (sem : Semantics) :
    prog DbState (result string Resolved) :=
  try* r' := applyExplicitSupersession p r in
  Done (Ok {| rs_result := r'; rs_semantics := sem; rs_events := emitConflictOutcomes (ri_companyId p) r' |}).

Definition resolve (am : Ambient) (p : ResolveInput) : prog DbState (result string Resolved) :=
  let c := buildResolveCall env p in
  try* r := resolveFactCall am c in
  postResolve p r (rc_semantics c).

(** The same call for several facts, one after the other. *)
Fixpoint resolve_each {A B} (f : A → prog DbState (result string B)) (l : list A) :
    prog DbState (result string (list B)) :=
  match l with
  | [] => Done (Ok [])
  | x :: l' => try* r := f x in try* rs := resolve_each f l' in Done (Ok (r :: rs))
  end.

Definition is_append (c : ResolveCall) : bool := bool_decide (rc_semantics c = AppendOnly).

(** The results of the two groups, back in input order. *)
Fixpoint merge_results (prepared : list ResolveCall) (appended rest : list ResolveOutcome) :
    list ResolveOutcome :=
  match prepared with
  | [] => []
  | c :: cs => if is_append c
               then match appended with r :: rs => r :: merge_results cs rs rest | [] => [] end
               else match rest with r :: rs => r :: merge_results cs appended rs | [] => [] end
  end.

Definition resolveMany (am : Ambient) (inputs : list ResolveInput) :
    prog DbState (result string (list Resolved)) :=
  let prepared := map (buildResolveCall env) inputs in
  let appends := List.filter is_append prepared in
  let others := List.filter (λ c, negb (is_append c)) prepared in
  try* appended :=
    (if 0 <? length appends
     then catching (resolveAppendOnlyBatch am appends) (λ _, resolve_each (resolveFactCall am) appends)
     else Done (Ok [])) in
  try* rest := resolve_each (resolveFactCall am) others in
  resolve_each (λ x, postResolve x.1.1 x.2 (rc_semantics x.1.2))
    (zip (zip inputs prepared) (merge_results prepared appended rest)).

(** ** Derived worlds *)

Record DerivedRow := {
  dr_entityId : string;
  dr_predicate : string;
  dr_object : string;
  dr_embedding : list float;
  dr_confidence : float;
  dr_validFrom : Z;
  dr_source : Source;
  dr_sourceTrust : float;
  dr_lang : option string;
  dr_script : option string;
  dr_derivedVersion : string;
  dr_userId : option string
}.

Definition prepare_derived (slotSemantics : bool) (r : DerivedRow) : ResolveCall :=
  {| rc_companyId := ""; rc_entityId := dr_entityId r; rc_predicate := dr_predicate r;
     rc_predicateAlias := None; rc_object := dr_object r; rc_objectMeta := None;
     rc_embedding := dr_embedding r; rc_confidence := dr_confidence r;
     rc_validFrom := dr_validFrom r; rc_validUntil := None; rc_source := dr_source r;
     rc_sourceTrust := dr_sourceTrust r;
     rc_semantics := derivedSemanticsFor (dr_predicate r) slotSemantics;
     rc_similarityFloor := None; rc_lang := dr_lang r; rc_script := dr_script r;
     rc_langMeta := None; rc_entropy := None; rc_userId := dr_userId r;
     rc_derivedVersion := Some (dr_derivedVersion r) |}.

(** The batch, else row by row with a verdict for each. *)
Definition resolveDerivedBatch (am : Ambient) (slotSemantics : bool) (rows : list DerivedRow) :
    prog DbState (result string (list ResolveOutcome)) :=
  if length rows =? 0 then Done (Ok [])
  else
    let prepared := map (prepare_derived slotSemantics) rows in
    catching (resolveAppendOnlyBatch am prepared)
      (λ _, resolve_each (λ c, catching
          (try* out := resolveAppendOnlyBatch am [c] in
           Done (Ok (default (outcome OSkipped None None) (head out))))
          (λ e, Done (Ok (outcome OSkipped None (Some e))))) prepared).
End resolver.
