(* ===== verification/FactTimeline.v ===== *)
(** * The values of a slot over time

    What a sequence of writes leaves in a slot of one current value: its open rows never
    overlap, and the order in which open-ended values arrive does not matter. *)

From S2P Require Import Prelude Js Resume ScopeTags FactSlots FactSettle FactLaws FactPolicy FactResolver.
From stdpp Require Import gmap sorting.
Local Open Scope string_scope.
Local Open Scope nat_scope.

(** ** What updates keep *)

Definition rows_kept (rows rows' : gmap nat Fact) : Prop :=
  ∀ k f, rows !! k = Some f →
    ∃ f', rows' !! k = Some f' ∧ f_claim f' = f_claim f ∧ f_scope f' = f_scope f.

Lemma rows_kept_refl rows : rows_kept rows rows.
Proof. intros k f Hf. eauto. Qed.

Lemma rows_kept_trans r1 r2 r3 : rows_kept r1 r2 → rows_kept r2 r3 → rows_kept r1 r3.
Proof.
  intros H1 H2 k f (f1 & Hf1 & <- & <-)%H1. by apply H2.
Qed.

Lemma update_kept k g db : keeps g → rows_kept (fd_rows db) (fd_rows (update_fact k g db)).
Proof.
  intros Hg. unfold update_fact. destruct (fd_rows db !! k) as [x|] eqn:Hx; [|apply rows_kept_refl].
  assert (Hi : rows_kept (fd_rows db) (<[k := g x]> (fd_rows db))).
  { intros j f Hf. destruct (decide (k = j)) as [->|]; [|rewrite lookup_insert_ne by done; eauto].
    rewrite lookup_insert_eq. destruct (Hg x) as (? & ? & _). exists (g x). naive_solver. }
  case_match; [|done]. cbn. eapply rows_kept_trans; [exact Hi|]. intros j f Hf.
  destruct (event_settled (cl_entityId (f_claim x)) k (<[k := g x]> (fd_rows db)) j)
    as [->|(f0 & Hf0 & _ & _ & ->)]; [eauto|]. rewrite Hf in Hf0. injection Hf0 as <-. by exists (with_status Active f).
Qed.

Lemma fold_kept {A} (step : FactDb → A → FactDb) l db :
  (∀ d x, rows_kept (fd_rows d) (fd_rows (step d x))) →
  rows_kept (fd_rows db) (fd_rows (fold_left step l db)).
Proof.
  intros Hs. revert db. induction l as [|x l IH]; intros db; simpl; [apply rows_kept_refl|].
  eapply rows_kept_trans; [apply Hs|apply IH].
Qed.

Lemma succeed_kept a pool id db : rows_kept (fd_rows db) (fd_rows (succeed a pool id db).1).
Proof.
  assert (Hs : ∀ ks d, rows_kept (fd_rows d) (fd_rows (set_competing ks d))).
  { intros. unfold set_competing. apply fold_kept. intros. by apply update_kept. }
  unfold succeed. case_match; [|case_match]; cbn [fst].
  - eapply rows_kept_trans; [|by apply update_kept].
    eapply rows_kept_trans; [apply (fold_kept (close_loser id (sa_valid_from a)))|].
    + intros d x. by apply update_kept.
    + case_match; [apply Hs|apply rows_kept_refl].
  - eapply rows_kept_trans; [apply Hs|by apply update_kept].
  - by apply update_kept.
Qed.

Lemma settle_new_kept cosine a cands id db :
  rows_kept (fd_rows db) (fd_rows (settle_new cosine a cands id db).1).
Proof.
  unfold settle_new. repeat case_match; cbn [fst slot_history];
    solve [by apply update_kept | eapply rows_kept_trans; by apply update_kept | apply succeed_kept].
Qed.

(** The new row keeps what it states. *)
Lemma settle_new_row cosine a db :
  let id := fresh (dom (fd_rows db)) in
  ∃ n, fd_rows (settle_fact cosine true a db).1 !! id = Some n ∧
       f_claim n = f_claim (new_fact a db) ∧ f_scope n = [].
Proof.
  intros id. unfold settle_fact. cbn [negb].
  eapply settle_new_kept. apply start_new.
Qed.

(** ** One value at a time *)

(** The open rows of a slot state it for disjoint intervals. *)
Definition one_value (s : Slot) (db : FactDb) : Prop :=
  ∀ i j f g, i ≠ j → fd_rows db !! i = Some f → fd_rows db !! j = Some g →
    open_fact f = true → open_fact g = true → slot_of f = s → slot_of g = s →
    intervals_overlap (f_validFrom f) (f_validUntil f) (f_validFrom g) (f_validUntil g) = false.

Lemma overlap_sym a u b v : intervals_overlap a u b v = intervals_overlap b v a u.
Proof. unfold intervals_overlap. apply andb_comm. Qed.

(** An end put where there was none only shortens. *)
Lemma overlap_shrink a u u' b v :
  u' = u ∨ u = None → intervals_overlap a u b v = false → intervals_overlap a u' b v = false.
Proof.
  intros [->| ->]; [done|]. unfold intervals_overlap. rewrite andb_true_r. intros ->. done.
Qed.

Lemma closing_single a pool : sa_semantics a = SingleActive → closing a pool = pool.
Proof. unfold closing. by intros ->. Qed.

Lemma not_open_final k g d n :
  (∀ f, open_fact (g f) = false) →
  fd_rows (update_fact k g d) !! k = Some n → open_fact n = false.
Proof.
  intros Hg. unfold update_fact. destruct (fd_rows d !! k) as [x|] eqn:Hx; [|congruence].
  assert (Hi : <[k := g x]> (fd_rows d) !! k = Some (g x)) by by rewrite lookup_insert_eq.
  case_match; cbn; [|intros Hn; rewrite Hi in Hn; by injection Hn as <-].
  destruct (event_settled (cl_entityId (f_claim x)) k (<[k := g x]> (fd_rows d)) k)
    as [->|(f0 & Hf0 & Hc & _)]; [rewrite Hi; by intros [= <-]|].
  rewrite Hi in Hf0. injection Hf0 as <-. specialize (Hg x).
  unfold competing_open in Hc. apply andb_true_iff in Hc as [Hc1 Hc2].
  apply bool_decide_eq_true in Hc1. unfold open_fact in Hg. rewrite Hc1, Hc2 in Hg. done.
Qed.

Lemma update_keeps_closed j k g d n :
  j ≠ k → (∀ f, fd_rows d !! k = Some f → open_fact f = false) →
  fd_rows (update_fact j g d) !! k = Some n → open_fact n = false.
Proof.
  intros Hne Hc Hn. destruct (fd_rows d !! k) as [f|] eqn:Hf.
  - assert (Hq : competing_open f = false).
    { specialize (Hc f eq_refl). unfold open_fact, open_status in Hc. unfold competing_open.
      by destruct (f_status f), (f_retractedAt f). }
    rewrite (update_other _ _ _ _ _ Hne Hf Hq) in Hn. injection Hn as <-. by apply Hc.
  - exfalso. unfold update_fact in Hn. destruct (fd_rows d !! j) as [x|]; [|congruence].
    assert (Hi : <[j := g x]> (fd_rows d) !! k = None) by by rewrite lookup_insert_ne.
    case_match; cbn in Hn; [|congruence].
    destruct (event_settled (cl_entityId (f_claim x)) j (<[j := g x]> (fd_rows d)) k)
      as [E|(f0 & Hf0 & _)]; congruence.
Qed.

Section alone.
Context (cosine : list float → list float → float) (a : SettleArgs) (db : FactDb).
Let id : nat := fresh (dom (fd_rows db)).
Hypothesis Hsingle : sa_semantics a = SingleActive.

(** When the new row ends up open, it keeps the end it was written with, and every old
    row it overlaps was closed. *)
Lemma single_active_alone n :
  fd_rows (settle_fact cosine true a db).1 !! id = Some n → open_fact n = true →
  f_validUntil n = sa_valid_until a ∧
  ∀ k f f', fd_rows db !! k = Some f → in_slot a f →
    fd_rows (settle_fact cosine true a db).1 !! k = Some f' → open_fact f' = true →
    overlaps a f = false.
Proof.
  unfold settle_fact. cbn [negb]. fold id. set (db0 := with_rows _ db).
  pose proof (start_new a db) as Hid. fold id in Hid. fold db0 in Hid.
  assert (Hcand : ∀ kv, kv ∈ candidates a db → kv.1 ≠ id) by apply cand_ne.
  unfold settle_new. destruct (ended a _) as [e|] eqn:He; cbn [fst].
  { intros Hn Ho. apply not_open_final in Hn; [congruence|done]. }
  destruct (corroborated _ _) as [c|] eqn:Hc; cbn [fst].
  { intros Hn Ho. apply update_keeps_closed in Hn; [congruence| |].
    - apply Hcand. unfold corroborated in Hc. apply pick_In, elem_of_bfilter in Hc as [Hc _].
      case_bool_decide; [done|by eapply pool_cands].
    - intros f. by apply not_open_final. }
  destruct (restated _ _) as [r|]; cbn [fst].
  { intros Hn Ho. apply not_open_final in Hn; [congruence|done]. }
  destruct (length _ =? 0) eqn:Hl; cbn [fst].
  { intros Hn _. split.
    - unfold insert_plain in Hn. rewrite (update_self _ _ _ _ Hid) in Hn by by left.
      by injection Hn as <-.
    - intros k f f' Hf Hs _ _. destruct (overlaps a f) eqn:E; [|done].
      apply Nat.eqb_eq, length_zero_iff_nil in Hl. exfalso.
      assert (Hp : (k, f) ∈ slot_pool cosine a (candidates a db)).
      { unfold slot_pool. rewrite Hsingle. apply elem_of_bfilter. by rewrite elem_of_candidates. }
      rewrite Hl in Hp. by apply elem_of_nil in Hp. }
  destruct (next_after _ _) as [nx|] eqn:Hnx; cbn [fst slot_history].
  { intros Hn Ho. apply not_open_final in Hn; [congruence|done]. }
  intros Hn Ho. destruct (succeed _ _ _ _) as [db' o] eqn:Hsu. cbn [fst] in *.
  assert (Hall : ∀ k f, fd_rows db !! k = Some f → in_slot a f → overlaps a f = true →
    ∃ n', fd_rows db' !! id = Some n' ∧ states a n' ∧
          fd_rows db' !! k = Some (closed_by id (f_validFrom n') f)).
  { intros k f Hf Hs Hov.
    destruct (succeed_ends cosine a db db' o k f Hnx Hf (proj1 Hs) Hsu) as [[Hk _]|(_ & _ & _ & _ & i & n' & Hi & ?)].
    - exfalso. apply Hk. unfold succeed in Hsu. rewrite closing_single in Hsu by done.
      assert (Hp : (k, f) ∈ slot_pool cosine a (candidates a db)).
      { unfold slot_pool. rewrite Hsingle. apply elem_of_bfilter. by rewrite elem_of_candidates. }
      apply Nat.eqb_neq in Hl. rewrite (proj2 (Nat.ltb_lt _ _)) in Hsu by lia. simplify_eq. cbn.
      apply list_elem_of_fmap. by exists (k, f).
    - unfold succeed in Hsu. repeat case_match; simplify_eq; cbn in Hi; injection Hi as <-; eauto. }
  split.
  - apply Nat.eqb_neq in Hl. destruct (slot_pool cosine a (candidates a db)) as [|[k f] l] eqn:Hp; [done|].
    assert (Hkf : (k, f) ∈ slot_pool cosine a (candidates a db)) by (rewrite Hp; by constructor).
    unfold slot_pool in Hkf. rewrite Hsingle in Hkf. apply elem_of_bfilter in Hkf as [Hkf Hov].
    apply elem_of_candidates in Hkf as [Hf Hs].
    destruct (Hall k f Hf Hs Hov) as (n' & Hn' & (_ & _ & _ & Hu) & _). congruence.
  - intros k f f' Hf Hs Hf' Ho'. destruct (overlaps a f) eqn:E; [|done].
    destruct (Hall k f Hf Hs E) as (n' & _ & _ & Hk). rewrite Hk in Hf'. injection Hf' as <-. done.
Qed.
End alone.

(** ** One write *)

(** The tags a write stamps on its row name the groups it was resolved among. *)
Definition groups_agree (am : Ambient) (userId : option string) : Prop :=
  sorted_tags is_group_tag (scopeForUser am userId) = sorted_tags is_group_tag (writeGroupTags am).

Definition stamped (am : Ambient) (userId : option string) (id : nat) (db : FactDb) : FactDb :=
  if length (scopeForUser am userId) =? 0 then db
  else update_fact id (with_scope (scopeForUser am userId)) db.

Section writes.
Context `{ResolverServices} (env : ResolverEnv) (cosine : list float → list float → float)
        (parse : string → float) (am : Ambient).

Definition args (c : ResolveCall) : SettleArgs := settle_args env parse am c.

(** What one write does to the facts when no statement fails. *)
Definition write (c : ResolveCall) (db : FactDb) : FactDb :=
  stamped am (rc_userId c) (fresh (dom (fd_rows db))) (settle_fact cosine true (args c) db).1.

Lemma settle_factId a db :
  ro_factId (settle_fact cosine true a db).2 = Some (fresh (dom (fd_rows db))).
Proof. unfold settle_fact, settle_new, succeed. cbn [negb]. by repeat case_match. Qed.

Lemma run_resolveFactCall c s :
  ds_fails s = [] →
  run (resolveFactCall env cosine parse am c) s =
  (with_facts (write c (ds_facts s)) s, Ok (settle_fact cosine true (args c) (ds_facts s)).2).
Proof.
  intros Hs. unfold resolveFactCall, write, stamped. fold (args c).
  pose proof (settle_factId (args c) (ds_facts s)) as Hid.
  destruct (settle_fact cosine true (args c) (ds_facts s)) as [db' o] eqn:E. cbn in Hid.
  assert (Eon : on_facts (settle_fact cosine true (args c)) s = (with_facts db' s, o))
    by (unfold on_facts; by rewrite E).
  rewrite run_ebind, run_stmt, Eon by done. cbn [fst snd].
  rewrite run_ebind. unfold stampFactScope, add_stamp. cbn [fold_left]. rewrite Hid.
  destruct (length (scopeForUser am (rc_userId c)) =? 0); [done|].
  cbn [stamp_groups OMap.set OMap.get default sg_scope sg_ids app].
  unfold catching. rewrite run_ebind, run_bind, run_stmt by done. done.
Qed.

(** Writes one after the other. *)
Lemma run_writes calls s :
  ds_fails s = [] →
  ∃ rs, run (resolve_each (resolveFactCall env cosine parse am) calls) s =
        (with_facts (fold_left (λ db c, write c db) calls (ds_facts s)) s, Ok rs).
Proof.
  revert s. induction calls as [|c calls IH]; intros s Hs.
  { exists []. destruct s. done. }
  cbn [resolve_each]. pose proof (run_resolveFactCall c s Hs) as Er. set (r := (settle_fact cosine true (args c) (ds_facts s)).2) in Er.
  destruct (IH (with_facts (write c (ds_facts s)) s) Hs) as (rs & Ers). exists (r :: rs).
  rewrite run_ebind, Er. cbn [fst snd]. rewrite run_ebind, Ers. done.
Qed.

(** The stamp on the new row, and on no other. *)
Lemma stamped_new u id db n :
  fd_rows db !! id = Some n →
  fd_rows (stamped am u id db) !! id =
    Some (if length (scopeForUser am u) =? 0 then n else with_scope (scopeForUser am u) n).
Proof.
  intros Hn. unfold stamped. destruct (length _ =? 0); [done|]. unfold update_fact. rewrite Hn.
  replace (bool_decide (f_status n = Competing) && _) with false by (by destruct n as [? []]).
  cbn. by rewrite lookup_insert_eq.
Qed.

Lemma stamped_other u id db k f :
  k ≠ id → fd_rows db !! k = Some f → fd_rows (stamped am u id db) !! k = Some f.
Proof.
  intros Hne Hf. unfold stamped. destruct (length _ =? 0); [done|]. unfold update_fact.
  destruct (fd_rows db !! id) as [x|]; [|done].
  replace (bool_decide (f_status x = Competing) && _) with false by (by destruct x as [? []]).
  cbn. by rewrite lookup_insert_ne.
Qed.

Lemma stamped_lookup u id db k f :
  fd_rows (stamped am u id db) !! k = Some f →
  ∃ f0, fd_rows db !! k = Some f0 ∧
    ((k ≠ id ∧ f = f0) ∨
     (k = id ∧ f = with_scope (if length (scopeForUser am u) =? 0 then f_scope f0 else scopeForUser am u) f0)).
Proof.
  unfold stamped. destruct (length _ =? 0).
  - intros Hf. exists f. split; [done|]. destruct (decide (k = id)); [right|by left]. split; [done|].
    by destruct f.
  - unfold update_fact. destruct (fd_rows db !! id) as [x|] eqn:Hx.
    2: { intros Hf. exists f. split; [done|]. left. split; [congruence|done]. }
    replace (bool_decide (f_status x = Competing) && _) with false by (by destruct x as [? []]).
    cbn. destruct (decide (id = k)) as [->|Hne].
    + rewrite lookup_insert_eq. intros [= <-]. eauto.
    + rewrite lookup_insert_ne by done. intros Hf. exists f. split; [done|]. by left.
Qed.

(** The new row sits in the slot the write was resolved in. *)
Lemma new_row_slot c db n :
  groups_agree am (rc_userId c) →
  f_claim n = f_claim (new_fact (args c) db) → f_scope n = [] →
  slot_of (with_scope (if length (scopeForUser am (rc_userId c)) =? 0 then f_scope n
                       else scopeForUser am (rc_userId c)) n) = call_slot (args c).
Proof.
  intros Hg Hc Hs. unfold slot_of, call_slot. cbn [f_claim f_scope with_scope]. rewrite Hc. f_equal.
  change (sa_circles (args c)) with (writeGroupTags am).
  unfold groups_agree in Hg. rewrite <- Hg.
  by destruct (scopeForUser am (rc_userId c)) eqn:E; cbn [length Nat.eqb]; rewrite ?Hs.
Qed.

(** An old row after a write. *)
Lemma write_old c db k f :
  k ≠ fresh (dom (fd_rows db)) → fd_rows (write c db) !! k = Some f →
  fd_rows (settle_fact cosine true (args c) db).1 !! k = Some f ∧
  ∃ f0, fd_rows db !! k = Some f0 ∧ row_evolved (args c) f0 f.
Proof.
  intros Hne Hf. apply stamped_lookup in Hf as (f1 & Hf & [[_ ->]|[? _]]); [|done].
  split; [done|]. destruct (settle_new_evolved cosine (args c) db) as [Hold _].
  unfold settle_fact in Hf. cbn [negb] in Hf. specialize (Hold k Hne). rewrite Hf in Hold.
  destruct (fd_rows db !! k) as [f0|]; [|done]. by exists f0.
Qed.

Lemma write_new c db f :
  groups_agree am (rc_userId c) → fd_rows (write c db) !! fresh (dom (fd_rows db)) = Some f →
  slot_of f = call_slot (args c) ∧ f_claim f = f_claim (new_fact (args c) db) ∧
  ∃ n, fd_rows (settle_fact cosine true (args c) db).1 !! fresh (dom (fd_rows db)) = Some n ∧
       open_fact f = open_fact n ∧ f_validUntil f = f_validUntil n.
Proof.
  intros Hg Hf. apply stamped_lookup in Hf as (n & Hn & [[? _]|[_ ->]]); [done|].
  destruct (settle_new_row cosine (args c) db) as (n' & Hn' & Hc & Hs). simplify_eq.
  split_and!; [by apply (new_row_slot c db)|done|]. exists n. done.
Qed.

Lemma write_one_value c db s :
  groups_agree am (rc_userId c) → (call_slot (args c) = s → rc_semantics c = SingleActive) →
  one_value s db → one_value s (write c db).
Proof.
  intros Hg Hsem Hdb.
  assert (Hside : ∀ k n f, fd_rows (write c db) !! fresh (dom (fd_rows db)) = Some n →
    k ≠ fresh (dom (fd_rows db)) → fd_rows (write c db) !! k = Some f →
    open_fact n = true → open_fact f = true → slot_of n = s → slot_of f = s →
    intervals_overlap (f_validFrom f) (f_validUntil f) (f_validFrom n) (f_validUntil n) = false).
  { intros k n f Hn Hne Hf On Of Sn Sf.
    destruct (write_new c db n Hg Hn) as (Hslot & Hc & n0 & Hn0 & Ho0 & Hu0).
    destruct (write_old c db k f Hne Hf) as (Hf1 & f0 & Hf0 & Hev).
    destruct Hev as (Hcl & Hsc & _ & Hop & _). destruct (Hop Of) as [O0 Hu].
    assert (Hs0 : in_slot (args c) f0).
    { split; [done|]. rewrite <- Hslot, Sn, <- Sf. symmetry. by apply open_same_slot. }
    destruct (single_active_alone cosine (args c) db (Hsem (eq_trans (eq_sym Hslot) Sn)) n0 Hn0)
      as [Hend Hdis]; [congruence|].
    specialize (Hdis k f0 f Hf0 Hs0 Hf1 Of). unfold overlaps in Hdis.
    rewrite Hu0, Hend. unfold f_validFrom. rewrite Hcl, Hc. cbn.
    by apply (overlap_shrink _ (f_validUntil f0)). }
  intros i j f g Hne Hi Hj Of Og Sf Sg.
  destruct (decide (i = fresh (dom (fd_rows db)))) as [->|Hi'];
    [|destruct (decide (j = fresh (dom (fd_rows db)))) as [->|Hj']].
  - rewrite overlap_sym. by apply (Hside j).
  - by apply (Hside i).
  - destruct (write_old c db i f Hi' Hi) as (_ & f0 & Hf0 & Cf & Scf & _ & Opf & _).
    destruct (write_old c db j g Hj' Hj) as (_ & g0 & Hg0 & Cg & Scg & _ & Opg & _).
    destruct (Opf Of) as [Of0 Uf]. destruct (Opg Og) as [Og0 Ug].
    unfold f_validFrom. rewrite Cf, Cg.
    apply (overlap_shrink _ (f_validUntil f0)); [done|]. rewrite overlap_sym.
    apply (overlap_shrink _ (f_validUntil g0)); [done|]. rewrite overlap_sym.
    apply (Hdb i j); try done; rewrite <- ?(open_same_slot f0 f), <- ?(open_same_slot g0 g); done.
Qed.
End writes.

(** ** Sorted tags as sets *)

Lemma sorted_tags_ext p l1 l2 :
  NoDup l1 → NoDup l2 → (∀ t, p t = true → t ∈ l1 ↔ t ∈ l2) → sorted_tags p l1 = sorted_tags p l2.
Proof.
  intros N1 N2 He. unfold sorted_tags. apply (Sorted_unique str_le).
  - apply Sorted_merge_sort, _.
  - apply Sorted_merge_sort, _.
  - rewrite !merge_sort_Permutation. apply NoDup_Permutation.
    + rewrite <- (map_id (List.filter p l1)). apply NoDup_map_bfilter. by rewrite map_id.
    + rewrite <- (map_id (List.filter p l2)). apply NoDup_map_bfilter. by rewrite map_id.
    + intros t. rewrite !elem_of_bfilter. naive_solver.
Qed.

(** A tenant-wide write resolves among the groups it is stamped with, and so does a
    user's write in no team. *)
Lemma groups_agree_intro am u :
  NoDup (actingCircleTags am) → Forall (λ t, isCircleTag t = true) (actingCircleTags am) →
  NoDup (default [] (ambientWriteScope am)) →
  Forall (λ t, isCircleTag t = false) (default [] (ambientWriteScope am)) →
  truthy u = None ∨ Forall (λ t, is_team_tag t = false) (default [] (ambientWriteScope am)) →
  groups_agree am u.
Proof.
  set (circles := actingCircleTags am). set (ambient := default [] (ambientWriteScope am)).
  rewrite !Forall_forall. intros Nc Fc Na Fa Hu. unfold groups_agree, scopeForUser, writeGroupTags.
  fold circles ambient.
  assert (Ht : ∀ t, is_group_tag t = true → t ∈ add_all [] (app circles (List.filter is_team_tag ambient)) ↔
    t ∈ circles ∨ (is_team_tag t = true ∧ t ∈ ambient)).
  { intros t _. rewrite elem_of_add_all, elem_of_app, elem_of_bfilter. set_solver. }
  change (starts_with "team:") with is_team_tag.
  destruct (truthy u) as [v|].
  - assert (Hv : is_group_tag (userTag v) = false) by done.
    change (sorted_tags is_group_tag circles = sorted_tags is_group_tag
      (add_all [] (app circles (List.filter is_team_tag ambient)))).
    apply sorted_tags_ext; [done|apply NoDup_add_all, NoDup_nil_2|].
    intros t Hg. rewrite (Ht t Hg). destruct Hu as [?|Hu]; [done|]. naive_solver congruence.
  - apply sorted_tags_ext; [|apply NoDup_add_all, NoDup_nil_2|].
    + apply NoDup_app. split_and!; [done| |].
      * intros t Ht1 [_ Hb]%elem_of_bfilter. by rewrite bool_decide_eq_true_2 in Hb.
      * rewrite <- (map_id (List.filter _ circles)). apply NoDup_map_bfilter. by rewrite map_id.
    + intros t Hg. rewrite (Ht t Hg), elem_of_app, elem_of_bfilter. split.
      * intros [Hin|[Hin _]]; [|by left]. right. split; [|done]. specialize (Fa t Hin).
        unfold is_group_tag in Hg. apply orb_true_iff in Hg as [Hg|]; [|done].
        change (isCircleTag t = true) in Hg. congruence.
      * intros [Hin|[_ Hin]]; [|by left]. destruct (decide (t ∈ ambient)) as [|Hn]; [by left|right].
        by rewrite bool_decide_eq_false_2.
Qed.

Section sequences.
Context `{ResolverServices} (env : ResolverEnv) (cosine : list float → list float → float)
        (parse : string → float) (am : Ambient).

Definition write_all (calls : list ResolveCall) (db : FactDb) : FactDb :=
  fold_left (λ db c, write env cosine parse am c db) calls db.

Lemma write_all_one_value s calls db :
  Forall (λ c, groups_agree am (rc_userId c) ∧
               (call_slot (args env parse am c) = s → rc_semantics c = SingleActive)) calls →
  one_value s db → one_value s (write_all calls db).
Proof.
  intros Hc. revert db. induction Hc as [|c calls [Hg Hs] _ IH]; intros db Hdb; [done|].
  apply IH. by apply write_one_value.
Qed.

(** C3. A slot of one current value never states two values for one moment: after any
    sequence of fact writes, to whatever slots and with whatever objects, dates, ends
    and sources - restatements, corroborations, backdated values and closed intervals
    among them - no two open rows of the slot hold over a common instant, provided the
    writes into it are [single_active] and are stamped with the groups they were
    resolved among. *)
Theorem one_value_at_a_time s calls st
    (Hgroups : Forall (λ c, groups_agree am (rc_userId c)) calls)
    (Hsingle : Forall (λ c, call_slot (settle_args env parse am c) = s → rc_semantics c = SingleActive) calls)
    (Hdb : one_value s (ds_facts st)) (Hfails : ds_fails st = []) :
  ∃ rs, (run (resolve_each (resolveFactCall env cosine parse am) calls) st).2 = Ok rs ∧
        one_value s (ds_facts (run (resolve_each (resolveFactCall env cosine parse am) calls) st).1).
Proof.
  destruct (run_writes env cosine parse am calls st Hfails) as (rs & ->). exists rs. split; [done|].
  cbn. apply (write_all_one_value s); [|done]. by apply Forall_and.
Qed.
End sequences.

(** ** The order of arrival *)

(** Row [k] is the one open row of the slot, open-ended, and says [v]. *)
Definition sole (s : Slot) (k : nat) (v : Z * string) (db : FactDb) : Prop :=
  (∃ f, fd_rows db !! k = Some f ∧ open_fact f = true ∧ slot_of f = s ∧ f_validUntil f = None ∧
        (f_validFrom f, f_object f) = v) ∧
  ∀ j g, fd_rows db !! j = Some g → open_fact g = true → slot_of g = s → j = k.

Lemma candidates_sole a db k f :
  sole (call_slot a) k (f_validFrom f, f_object f) db → fd_rows db !! k = Some f → candidates a db = [(k, f)].
Proof.
  intros [(f0 & Hf0 & Ho & Hs & _) Hall] Hf. assert (f0 = f) as -> by congruence.
  assert (Hin : ∀ kv, kv ∈ candidates a db ↔ kv = (k, f)).
  { intros [j g]. rewrite elem_of_candidates. split.
    - intros [Hg [Og Sg]]. assert (j = k) as -> by by eapply Hall. congruence.
    - intros [= -> ->]. done. }
  pose proof (NoDup_select (λ f, open_fact f && bool_decide (slot_of f = call_slot a)) db) as Hnd.
  fold (candidates a db) in Hnd. destruct (candidates a db) as [|x [|y l]] eqn:E.
  - assert ((k, f) ∈ @nil (nat * Fact)) as H%elem_of_nil by (by apply Hin). done.
  - f_equal. apply Hin. by constructor.
  - assert (x = (k, f)) as -> by (apply Hin; by constructor).
    assert (y = (k, f)) as -> by (apply Hin; do 2 constructor).
    cbn in Hnd. apply NoDup_cons in Hnd as [Hnd _]. exfalso. apply Hnd. by constructor.
Qed.

Section order.
Context `{ResolverServices} (env : ResolverEnv) (cosine : list float → list float → float)
        (parse : string → float) (am : Ambient).

(** An open-ended value of a slot of one current value. *)
Definition open_ended (s : Slot) (c : ResolveCall) : Prop :=
  groups_agree am (rc_userId c) ∧ call_slot (settle_args env parse am c) = s ∧
  rc_semantics c = SingleActive ∧ rc_validUntil c = None.

Definition said (c : ResolveCall) : Z * string := (rc_validFrom c, rc_object c).

Definition later (v w : Z * string) : Z * string := if (w.1 <? v.1)%Z then v else w.

Lemma update_calm k g db f :
  fd_rows db !! k = Some f → f_status f ≠ Competing → fd_rows (update_fact k g db) = <[k := g f]> (fd_rows db).
Proof. intros Hf Hs. unfold update_fact. by rewrite Hf, (bool_decide_eq_false_2 (_ = Competing)). Qed.

Lemma write_new_row c db :
  groups_agree am (rc_userId c) →
  ∃ f n, fd_rows (write env cosine parse am c db) !! fresh (dom (fd_rows db)) = Some f ∧
    fd_rows (settle_fact cosine true (args env parse am c) db).1 !! fresh (dom (fd_rows db)) = Some n ∧
    slot_of f = call_slot (args env parse am c) ∧ (f_validFrom f, f_object f) = said c ∧
    open_fact f = open_fact n ∧ f_validUntil f = f_validUntil n.
Proof.
  intros Hg. destruct (settle_new_row cosine (args env parse am c) db) as (n & Hn & Hc & Hs).
  assert (Hf : ∃ f, fd_rows (write env cosine parse am c db) !! fresh (dom (fd_rows db)) = Some f).
  { unfold write, stamped. case_match; [eauto|]. unfold update_fact. rewrite Hn.
    case_match eqn:E; [|cbn; rewrite lookup_insert_eq; eauto].
    exfalso. by destruct n as [? []]. }
  destruct Hf as [f Hf].
  destruct (write_new env cosine parse am c db f Hg Hf) as (H1 & H2 & n' & Hn' & H3 & H4).
  exists f, n. simplify_eq. split_and!; try done. unfold f_validFrom, f_object. by rewrite H2.
Qed.

(** The new row is the only open one when every old open row of the slot was closed. *)
Lemma write_becomes_sole c db n :
  open_ended (call_slot (args env parse am c)) c →
  fd_rows (settle_fact cosine true (args env parse am c) db).1 !! fresh (dom (fd_rows db)) = Some n →
  open_fact n = true → f_validUntil n = None →
  (∀ j f0 f, fd_rows db !! j = Some f0 → in_slot (args env parse am c) f0 →
     fd_rows (settle_fact cosine true (args env parse am c) db).1 !! j = Some f → open_fact f = false) →
  sole (call_slot (args env parse am c)) (fresh (dom (fd_rows db))) (said c) (write env cosine parse am c db).
Proof.
  intros (Hg & _) Hn On Un Hold. destruct (write_new_row c db Hg) as (f & n' & Hf & Hn' & Hs & Hv & Ho & Hu).
  rewrite Hn in Hn'. injection Hn' as <-. split.
  - exists f. split_and!; [done|congruence|done|congruence|done].
  - intros j g Hj Oj Sj. destruct (decide (j = fresh (dom (fd_rows db)))) as [|Hne]; [done|].
    destruct (write_old env cosine parse am c db j g Hne Hj) as (Hj1 & f0 & Hf0 & Hc & Hsc & _ & Hop & _).
    exfalso. destruct (Hop Oj) as [O0 _].
    rewrite (Hold j f0 g Hf0) in Oj; [done| |done]. split; [done|].
    rewrite <- Sj. symmetry. by apply open_same_slot.
Qed.

Lemma settle_in_empty_slot c db :
  open_ended (call_slot (args env parse am c)) c →
  (∀ j f, fd_rows db !! j = Some f → ¬ in_slot (args env parse am c) f) →
  sole (call_slot (args env parse am c)) (fresh (dom (fd_rows db))) (said c) (write env cosine parse am c db).
Proof.
  intros Ho Hno. assert (Hc : candidates (args env parse am c) db = []).
  { destruct (candidates _ db) as [|[k f] l] eqn:E; [done|].
    assert (Hk : (k, f) ∈ candidates (args env parse am c) db) by (rewrite E; by constructor).
    apply elem_of_candidates in Hk as [Hf Hk]. by destruct (Hno k f Hf). }
  destruct Ho as (Hg & Hs & Hsem & Hend).
  set (n := with_locale (rc_lang c) (rc_script c) (rc_entropy c) (new_fact (args env parse am c) db)).
  apply (write_becomes_sole c db n); try done.
  - unfold settle_fact. cbn [negb]. rewrite Hc. unfold settle_new, ended, corroborated, restated, slot_pool.
    cbn [sa_semantics sa_valid_until args settle_args]. rewrite Hsem, Hend. cbn.
    unfold insert_plain. apply update_self; [apply start_new|by left].
  - intros j f0 f Hf0 Hin. by destruct (Hno j f0).
Qed.

(** A write into a slot that says one thing leaves the later of the two. *)
Lemma write_sole c db s k v :
  open_ended s c → sole s k v db → rc_object c ≠ v.2 → rc_validFrom c ≠ v.1 →
  ∃ k', sole s k' (later v (said c)) (write env cosine parse am c db).
Proof.
  intros Ho Hsole Hobj Hfrom. pose proof Ho as (Hg & <- & Hsem & Hend).
  fold (args env parse am c) in *. set (a := args env parse am c) in *.
  destruct Hsole as [(f & Hf & Of & Sf & Uf & Hv) Hall].
  assert (Hc : candidates a db = [(k, f)]).
  { apply (candidates_sole a db k f); [|done]. split; [exists f; by split_and!|exact Hall]. }
  assert (Hp : slot_pool cosine a [(k, f)] = [(k, f)]).
  { unfold slot_pool. replace (sa_semantics a) with SingleActive by done. cbn.
    unfold overlaps, intervals_overlap. rewrite Uf. by replace (sa_valid_until a) with (@None Z) by done. }
  assert (Hse : settle_new cosine a [(k, f)] (fresh (dom (fd_rows db)))
      (with_rows (<[fresh (dom (fd_rows db)) := new_fact a db]> (fd_rows db)) db) =
    if (rc_validFrom c <? f_validFrom f)%Z
    then slot_history a (k, f) (fresh (dom (fd_rows db)))
           (with_rows (<[fresh (dom (fd_rows db)) := new_fact a db]> (fd_rows db)) db)
    else succeed a [(k, f)] (fresh (dom (fd_rows db)))
           (with_rows (<[fresh (dom (fd_rows db)) := new_fact a db]> (fd_rows db)) db)).
  { unfold settle_new. rewrite Hp. unfold ended, corroborated, restated, next_after.
    replace (sa_semantics a) with SingleActive by done. replace (sa_valid_until a) with (@None Z) by done.
    rewrite <- Hv in Hobj. cbn [snd] in Hobj.
    rewrite (bool_decide_eq_false_2 (SingleActive = AppendOnly)) by done. cbn [List.filter snd].
    rewrite (bool_decide_eq_false_2 (f_object f = sa_object a)) by (intros E; by apply Hobj).
    cbn [andb pick length Nat.eqb]. change (sa_valid_from a) with (rc_validFrom c).
    by destruct (rc_validFrom c <? f_validFrom f)%Z. }
  unfold later. rewrite <- Hv in *. cbn [fst snd said] in *.
  destruct (rc_validFrom c <? f_validFrom f)%Z eqn:Hlt.
  - exists k. assert (Hne : k ≠ fresh (dom (fd_rows db))).
    { intros ->. pose proof (fresh_row db). congruence. }
    assert (Hrows : fd_rows (settle_fact cosine true a db).1 =
      <[fresh (dom (fd_rows db)) := closed_by k (f_validFrom f) (new_fact a db)]>
        (<[fresh (dom (fd_rows db)) := new_fact a db]> (fd_rows db))).
    { unfold settle_fact. cbn [negb]. rewrite Hc, Hse. cbn [slot_history fst snd].
      apply update_calm; [cbn; by rewrite lookup_insert_eq|done]. }
    split.
    + exists f. split_and!; try done. unfold write, stamped. fold a.
      assert (H0 : fd_rows (settle_fact cosine true a db).1 !! k = Some f)
        by (rewrite Hrows; by rewrite !lookup_insert_ne).
      case_match; [done|]. rewrite (update_calm _ _ _ (closed_by k (f_validFrom f) (new_fact a db))).
      * by rewrite lookup_insert_ne.
      * rewrite Hrows. by rewrite lookup_insert_eq.
      * done.
    + intros j g Hj Oj Sj. destruct (decide (j = fresh (dom (fd_rows db)))) as [->|Hj'].
      * exfalso. destruct (write_new_row c db Hg) as (g' & n & Hg' & Hn & _ & _ & Ho' & _).
        fold a in Hn. rewrite Hrows, lookup_insert_eq in Hn. injection Hn as <-.
        assert (g' = g) as -> by congruence. rewrite Oj in Ho'. done.
      * destruct (write_old env cosine parse am c db j g Hj' Hj) as (_ & f0 & Hf0 & Cl & Sc & _ & Hop & _).
        destruct (Hop Oj) as [O0 _]. apply (Hall j f0); [done..|].
        rewrite <- Sj. symmetry. by apply open_same_slot.
  - exists (fresh (dom (fd_rows db))).
    assert (Hne : k ≠ fresh (dom (fd_rows db))).
    { intros ->. pose proof (fresh_row db). congruence. }
    set (db0 := with_rows (<[fresh (dom (fd_rows db)) := new_fact a db]> (fd_rows db)) db) in *.
    set (id := fresh (dom (fd_rows db))) in *.
    assert (Hset : (settle_fact cosine true a db).1 = update_fact id
        (with_trace (trace "valid_time" [k] [] (Some k) (fd_now db)))
        (close_loser id (rc_validFrom c) db0 (k, f))).
    { unfold settle_fact. cbn [negb]. fold id db0. rewrite Hc, Hse. unfold succeed, closing, day_peers.
      replace (sa_semantics a) with SingleActive by done. done. }
    assert (H0 : fd_rows db0 !! k = Some f) by (subst db0; cbn; by rewrite lookup_insert_ne).
    assert (Hid : fd_rows (close_loser id (rc_validFrom c) db0 (k, f)) !! id = Some (new_fact a db)).
    { apply update_other; [done|subst db0; cbn; by rewrite lookup_insert_eq|done]. }
    eapply (write_becomes_sole c db); fold a; fold id; rewrite ?Hset.
    + done.
    + apply update_self; [exact Hid|by left].
    + done.
    + done.
    + intros j f0 g Hf0 Hin Hg'. assert (j = k) as -> by (destruct Hin; by apply (Hall j f0)).
      eapply (update_keeps_closed id k); [done| |exact Hg'].
      intros x. by apply not_open_final.
Qed.

Definition latest (v : Z * string) (calls : list ResolveCall) : Z * string :=
  fold_left (λ v c, later v (said c)) calls v.

Lemma write_all_sole s calls db k v :
  Forall (open_ended s) calls → NoDup (v.1 :: map rc_validFrom calls) → NoDup (v.2 :: map rc_object calls) →
  sole s k v db → ∃ k', sole s k' (latest v calls) (write_all env cosine parse am calls db).
Proof.
  intros Hc. revert db k v. induction Hc as [|c calls Hc _ IH]; intros db k v Nf No Hs; [eauto|].
  cbn in Nf, No. apply NoDup_cons in Nf as [Nf1 Nf]. apply NoDup_cons in No as [No1 No].
  rewrite not_elem_of_cons in Nf1. rewrite not_elem_of_cons in No1. destruct Nf1 as [F1 F2], No1 as [O1 O2].
  destruct (write_sole c db s k v Hc Hs) as [k' Hs']; [congruence..|].
  apply (IH _ k' (later v (said c))); [| |done]; unfold later, said; cbn [fst];
    destruct (rc_validFrom c <? v.1)%Z; try done; apply NoDup_cons; split; try done.
  - by apply NoDup_cons in Nf as [_ ?].
  - by apply NoDup_cons in No as [_ ?].
Qed.

Lemma latest_spec v calls :
  (latest v calls = v ∨ ∃ c, c ∈ calls ∧ latest v calls = said c) ∧
  (v.1 <= (latest v calls).1)%Z ∧ (∀ c, c ∈ calls → (rc_validFrom c <= (latest v calls).1)%Z).
Proof.
  revert v. induction calls as [|c calls IH]; intros v.
  { split_and!; [by left|reflexivity|]. by intros c ?%elem_of_nil. }
  change (latest v (c :: calls)) with (latest (later v (said c)) calls).
  destruct (IH (later v (said c))) as (Hin & Hv & Hc).
  assert (Hl : (v.1 <= (later v (said c)).1)%Z ∧ (rc_validFrom c <= (later v (said c)).1)%Z ∧
               (later v (said c) = v ∨ later v (said c) = said c)).
  { unfold later, said. cbn [fst]. destruct (Z.ltb_spec (rc_validFrom c) v.1); cbn; split_and!; auto; lia. }
  destruct Hl as (L1 & L2 & L3). split_and!; [|lia|].
  - destruct Hin as [Hin|(c' & Hc' & Hin)]; [|right; exists c'; split; [by constructor|done]].
    destruct L3 as [L3|L3]; [left; congruence|right]. exists c. split; [by constructor|congruence].
  - intros c' [->|Hc']%elem_of_cons; [lia|by apply Hc].
Qed.

(** A first value and the rest of them, into a slot nobody stated yet. *)
Lemma write_all_latest s calls db :
  Forall (open_ended s) calls → NoDup (map rc_validFrom calls) → NoDup (map rc_object calls) →
  (∀ j f, fd_rows db !! j = Some f → ¬ (open_fact f = true ∧ slot_of f = s)) → calls ≠ [] →
  ∃ k c, c ∈ calls ∧ (∀ c', c' ∈ calls → (rc_validFrom c' <= rc_validFrom c)%Z) ∧
    sole s k (said c) (write_all env cosine parse am calls db).
Proof.
  destruct calls as [|c calls]; [done|]. intros Hc Nf No Hdb _.
  apply Forall_cons in Hc as [Hc Hcs].
  assert (Hone : sole s (fresh (dom (fd_rows db))) (said c) (write env cosine parse am c db)).
  { pose proof Hc as (_ & <- & _). apply (settle_in_empty_slot c db Hc). exact Hdb. }
  destruct (write_all_sole s calls _ _ (said c) Hcs Nf No Hone) as [k Hk].
  destruct (latest_spec (said c) calls) as (Hin & Hv & Hle). exists k.
  destruct Hin as [Hin|(c' & Hc' & Hin)]; rewrite Hin in *.
  - exists c. split_and!; [by constructor| |done].
    intros c' [->|Hc']%elem_of_cons; [reflexivity|by apply Hle].
  - exists c'. split_and!; [by constructor| |done].
    intros c2 [->|Hc2]%elem_of_cons; [done|by apply Hle].
Qed.

(** C15. The order in which facts arrive does not decide what is current: of open-ended,
    pairwise different values with pairwise different start dates, written into a slot of
    one current value that has none yet, the one that
    starts last is the single current value afterwards, whichever of them came first
    and however late the history was learned. *)
Theorem arrival_order_is_irrelevant s calls calls' st
    (Hperm : Permutation calls calls') (Hcalls : Forall (open_ended s) calls) (Hne : calls ≠ [])
    (Hfrom : NoDup (map rc_validFrom calls)) (Hobj : NoDup (map rc_object calls))
    (Hempty : ∀ j f, fd_rows (ds_facts st) !! j = Some f → ¬ (open_fact f = true ∧ slot_of f = s))
    (Hfails : ds_fails st = []) :
  let current l := ds_facts (run (resolve_each (resolveFactCall env cosine parse am) l) st).1 in
  ∃ c k k', c ∈ calls ∧ (∀ c', c' ∈ calls → (rc_validFrom c' <= rc_validFrom c)%Z) ∧
    sole s k (said c) (current calls) ∧ sole s k' (said c) (current calls').
Proof.
  intros current. unfold current.
  destruct (run_writes env cosine parse am calls st Hfails) as (rs & ->).
  destruct (run_writes env cosine parse am calls' st Hfails) as (rs' & ->). cbn.
  destruct (write_all_latest s calls (ds_facts st) Hcalls Hfrom Hobj Hempty Hne) as (k & c & Hc & Hle & Hk).
  destruct (write_all_latest s calls' (ds_facts st)) as (k' & c' & Hc' & Hle' & Hk').
  1: by rewrite <- Hperm. 1,2: by rewrite <- Hperm. 1: done.
  1: { intros ->. apply Hne. by apply Permutation_nil_r. }
  exists c, k, k'. split_and!; [done..|].
  assert (Heq : said c' = said c); [|by rewrite <- Heq].
  rewrite <- Hperm in Hc'.
  assert (rc_validFrom c' = rc_validFrom c).
  { apply Z.le_antisymm; [by apply Hle|apply Hle'; by rewrite <- Hperm]. }
  apply list_elem_of_lookup in Hc as [i Hi]. apply list_elem_of_lookup in Hc' as [j Hj].
  assert (i = j) as ->; [|congruence].
  eapply (NoDup_lookup _ i j); [exact Hfrom| |]; rewrite list_lookup_fmap; [by rewrite Hi|].
  rewrite Hj. cbn. congruence.
Qed.
End order.
