(* ===== verification/FactWrites.v ===== *)
(** * Writes that meet, fail or name what they replace

    The branches of the fact write around the settling call: a stamp that fails or comes
    late, a user's write in a team's span, the supersession the extractor names, and that
    the verdict of a live write is what happened to the table. *)

From S2P Require Import Prelude Js Resume ScopeTags FactSlots FactSettle FactLaws FactPolicy FactResolver FactTimeline.
From stdpp Require Import gmap sorting.
Local Open Scope string_scope.
Local Open Scope nat_scope.

(** ** A sample of the services and contexts *)

Definition sample_services : ResolverServices :=
  {| policyFor := λ p, {| pl_predicateId := p; pl_semantics := SingleActive; pl_status := Some "active" |};
     canonicalize := λ _ _, None;
     embed := λ _, [0%float];
     detectLanguage := λ _ _, {| dt_language := "und"; dt_script := "Latn"; dt_confidence := 0%float;
                                 dt_version := "stopword-v1" |} |}.

Definition sample_env : ResolverEnv :=
  {| env_directSlot := true; env_mentionSlot := true; env_canonicalization := true;
     env_langAttribution := false; env_langGate := true; env_outcomes := true;
     env_similarityThreshold := None; env_slotSimilarity := None |}.

Definition no_ambient : Ambient :=
  {| am_authUserId := None; am_actingCircle := None; am_scopeTags := []; am_jobCircle := None;
     am_writeScope := None; am_scopeTagsEnabled := true |}.

Definition in_circle : Ambient :=
  {| am_authUserId := None; am_actingCircle := Some "c1"; am_scopeTags := []; am_jobCircle := None;
     am_writeScope := None; am_scopeTagsEnabled := true |}.

Definition in_team : Ambient :=
  {| am_authUserId := None; am_actingCircle := None; am_scopeTags := []; am_jobCircle := None;
     am_writeScope := Some ["team:git:dev"]; am_scopeTagsEnabled := true |}.

Definition sample_write (sem : Semantics) (user : option string) (v : string) (from : Z) : ResolveCall :=
  {| rc_companyId := "co"; rc_entityId := "knowledge_entity:e"; rc_predicate := "status";
     rc_predicateAlias := None; rc_object := v; rc_objectMeta := None; rc_embedding := [0%float];
     rc_confidence := 0.9%float; rc_validFrom := from; rc_validUntil := None;
     rc_source := sample_source "chat" "u"; rc_sourceTrust := 0.5%float; rc_semantics := sem;
     rc_similarityFloor := None; rc_lang := None; rc_script := None; rc_langMeta := None;
     rc_entropy := None; rc_userId := user; rc_derivedVersion := None |}.

Definition start (fails : list bool) : DbState :=
  {| ds_facts := empty_db; ds_edges := ∅; ds_fails := fails |}.

Definition no_number (_ : string) : float := PrimFloat.nan.

Definition status_slot (am : Ambient) : Slot :=
  call_slot (settle_args sample_env no_number am (sample_write SingleActive None "" 0)).

Lemma one_value_at_a_time_witness :
  let calls := [sample_write SingleActive None "open" 10; sample_write SingleActive None "closed" 30;
                sample_write SingleActive None "paused" 20] in
  ∃ rs, (run (resolve_each (resolveFactCall sample_env near no_number in_circle) calls) (start [])).2 = Ok rs ∧
    one_value (status_slot in_circle)
      (ds_facts (run (resolve_each (resolveFactCall sample_env near no_number in_circle) calls) (start [])).1).
Proof.
  cbv zeta. apply one_value_at_a_time.
  - repeat constructor.
  - repeat constructor.
  - intros i j f g _ Hi. done.
  - done.
Defined.

Lemma arrival_order_is_irrelevant_witness :
  let calls := [sample_write SingleActive None "open" 10; sample_write SingleActive None "closed" 30;
                sample_write SingleActive None "paused" 20] in
  let current l := ds_facts (run (resolve_each (resolveFactCall sample_env near no_number in_circle) l) (start [])).1 in
  ∃ c k k', c ∈ calls ∧ (∀ c', c' ∈ calls → (rc_validFrom c' <= rc_validFrom c)%Z) ∧
    sole (status_slot in_circle) k (said c) (current calls) ∧
    sole (status_slot in_circle) k' (said c) (current (rev calls)).
Proof.
  apply arrival_order_is_irrelevant.
  - apply Permutation_rev.
  - repeat constructor.
  - done.
  - by apply (bool_decide_unpack _).
  - by apply (bool_decide_unpack _).
  - intros j f Hj. done.
  - done.
Defined.

(** ** Two writes that meet before their stamps *)

Definition active_rows (s : Slot) (db : FactDb) : list (Z * string) :=
  map (λ kv, (f_validFrom kv.2, f_object kv.2))
    (select (λ f, open_fact f && bool_decide (slot_of f = s)) db).

(** The settling statement and the stamp that puts the new row into its slot are two
    statements, and the mutex is released between them: two writes of different values
    into one slot of a trust circle, both [single_active], under one lock key, leave two
    current values when the second settles before the first is stamped - run one after
    the other they leave one. *)
Theorem stamp_after_the_lock_forks_the_slot :
  let call v from := resolveFactCall sample_env near no_number in_circle (sample_write SingleActive None v from) in
  let final sched := ds_facts (run_pool sched (start [], [call "open" 10%Z; call "closed" 30%Z])).1 in
  lockKey (sample_write SingleActive None "open" 10) = lockKey (sample_write SingleActive None "closed" 30) ∧
  active_rows (status_slot in_circle) (final [0; 0; 1; 1]) = [(30%Z, "closed")] ∧
  active_rows (status_slot in_circle) (final [0; 1; 0; 1]) = [(30%Z, "closed"); (10%Z, "open")].
Proof. vm_compute. done. Qed.

(** ** A stamp that fails *)

Section stamps.
Context `{ResolverServices} (env : ResolverEnv) (cosine : list float → list float → float)
        (parse : string → float) (am : Ambient).

(** A failed scope stamp fails the write but keeps the row: for a write that belongs
    to no user and runs under a circle or a team, when the stamp's statement fails after
    the fact was settled, the call throws while the new row stays in the table with an
    empty scope - the one that restricts nobody - and says what was written. *)
Theorem failed_stamp_leaves_the_row c st
    (Huser : truthy (rc_userId c) = None) (Hscope : scopeForUser am (rc_userId c) ≠ [])
    (Hfails : ds_fails st = [false; true]) :
  let '(st', r) := run (resolveFactCall env cosine parse am c) st in
  (∃ e, r = Throw e) ∧
  ∃ n, fd_rows (ds_facts st') !! fresh (dom (fd_rows (ds_facts st))) = Some n ∧ f_scope n = [] ∧
       f_object n = rc_object c ∧ cl_userId (f_claim n) = rc_userId c ∧
       fd_rows (ds_facts st) !! fresh (dom (fd_rows (ds_facts st))) = None.
Proof.
  set (a := settle_args env parse am c).
  destruct (settle_new_row cosine a (ds_facts st)) as (n & Hn & Hc & Hs).
  pose proof (settle_factId cosine a (ds_facts st)) as Hid.
  destruct (run (resolveFactCall env cosine parse am c) st) as [st' r] eqn:E.
  unfold resolveFactCall in E. fold a in E.
  rewrite run_ebind, run_stmt_ok in E by by rewrite Hfails.
  unfold on_facts in E at 1 2 3. cbn [ds_facts next_statement] in E.
  destruct (settle_fact cosine true a (ds_facts st)) as [db' o]. cbn [fst snd] in *.
  rewrite run_ebind in E. unfold stampFactScope, add_stamp in E. cbn [fold_left] in E. rewrite Hid in E.
  destruct (length (scopeForUser am (rc_userId c)) =? 0) eqn:El.
  { apply Nat.eqb_eq, length_zero_iff_nil in El. done. }
  rewrite Huser, bool_decide_eq_false_2 in E by (intros Hx; by apply Hx).
  cbn [OMap.set OMap.get default stamp_groups sg_personal sg_scope sg_ids] in E. unfold catching in E.
  rewrite run_ebind, run_bind, run_stmt_fail in E by (cbn; by rewrite Hfails).
  cbn in E. simplify_eq. cbn. split; [eauto|].
  exists n. unfold f_object. split_and!; rewrite ?Hc; try done. apply fresh_row.
Qed.
End stamps.

(** The same failure inside a batch of append-only facts is taken for a failed batch:
    every fact is resolved again. *)
Definition sample_input (v : string) : ResolveInput :=
  {| ri_companyId := "co"; ri_entityId := "knowledge_entity:e"; ri_predicate := "visited";
     ri_predicateAlias := None; ri_object := v; ri_sourceLang := None; ri_entityType := None;
     ri_objectMeta := None; ri_embeddingText := None; ri_precomputedEmbedding := None;
     ri_confidence := 0.9%float; ri_validFrom := 10; ri_validUntil := None; ri_expectedUntil := None;
     ri_source := sample_source "chat" "u"; ri_entropy := None; ri_userId := None;
     ri_derivedVersion := None; ri_recordOutcomeMetric := None; ri_supersedes := None |}.

Definition append_services : ResolverServices :=
  {| policyFor := λ p, {| pl_predicateId := p; pl_semantics := AppendOnly; pl_status := Some "active" |};
     canonicalize := λ _ _, None; embed := @embed sample_services;
     detectLanguage := @detectLanguage sample_services |}.

Definition batch_rows (fails : list bool) : bool * list (list string * string * FactStatus) :=
  let '(st, r) := run (@resolveMany append_services sample_env near no_number in_team [sample_input "Rome"])
                      (start fails) in
  (is_ok r, map (λ kv, (f_scope kv.2, f_object kv.2, f_status kv.2)) (map_to_list (fd_rows (ds_facts st)))).

(** Falling back from a batch is not "identical either way": under a team's write
    scope, one append-only fact whose batch settled but whose scope stamp failed is
    written a second time by the per-fact path; the call succeeds, and beside the
    team's row an active row of the same value with an empty scope stays behind. Had the
    batch itself failed, or nothing, there would be one row. *)
Theorem batch_fallback_writes_twice :
  batch_rows [] = (true, [(["team:git:dev"], "Rome", Active)]) ∧
  batch_rows [true] = (true, [(["team:git:dev"], "Rome", Active)]) ∧
  batch_rows [false; true] = (true, [(["team:git:dev"], "Rome", Active); ([], "Rome", Active)]).
Proof. vm_compute. done. Qed.

(** ** A user's write in a team's span *)

(** The groups a write resolves among are not always the ones it is stamped with: a
    user's write under a team's ambient scope is settled among the team's rows and
    stamped without the team, so its row never sits in the slot the write was resolved
    in, and the next write of the same kind does not meet it. *)
Theorem user_write_leaves_its_slot `{ResolverServices} env cosine parse am c db t u
    (Huser : truthy (rc_userId c) = Some u) (Hteam : t ∈ default [] (ambientWriteScope am))
    (Ht : is_team_tag t = true) (Hcircles : Forall (λ x, isCircleTag x = true) (actingCircleTags am)) :
  let id := fresh (dom (fd_rows db)) in
  let a := settle_args env parse am c in
  ∃ n, fd_rows (write env cosine parse am c db) !! id = Some n ∧ slot_of n ≠ call_slot a ∧
       ∀ db', fd_rows db' = fd_rows (write env cosine parse am c db) → (id, n) ∉ candidates a db'.
Proof.
  intros id a. destruct (settle_new_row cosine a db) as (n & Hn & Hc & Hs). fold id in Hn.
  assert (Hsc : scopeForUser am (rc_userId c) = userTag u :: actingCircleTags am)
    by (unfold scopeForUser; by rewrite Huser).
  set (n' := with_scope (scopeForUser am (rc_userId c)) n).
  assert (Hrow : fd_rows (write env cosine parse am c db) !! id = Some n').
  { unfold write, stamped, args. fold id. rewrite Hsc. cbn [length Nat.eqb]. unfold update_fact. fold a. rewrite Hn.
    replace (bool_decide _ && _) with false by (by destruct n as [? []]). cbn.
    rewrite lookup_insert_eq. unfold n'. by rewrite Hsc. }
  exists n'. split; [done|].
  assert (Hne : slot_of n' ≠ call_slot a).
  { intros Heq. apply (f_equal sl_groups) in Heq.
    change (sorted_tags is_group_tag (scopeForUser am (rc_userId c)) =
            sorted_tags is_group_tag (writeGroupTags am)) in Heq. rewrite Hsc in Heq.
    assert (Hin : t ∈ sorted_tags is_group_tag (writeGroupTags am)).
    { unfold sorted_tags. rewrite merge_sort_Permutation, elem_of_bfilter. split.
      - unfold writeGroupTags. rewrite elem_of_add_all, elem_of_app, elem_of_bfilter. right; right. done.
      - unfold is_group_tag. by rewrite Ht, orb_true_r. }
    rewrite <- Heq in Hin. unfold sorted_tags in Hin.
    rewrite merge_sort_Permutation, elem_of_bfilter, elem_of_cons in Hin. destruct Hin as [[->|Hin] _].
    - done.
    - rewrite Forall_forall in Hcircles. specialize (Hcircles t Hin).
      unfold isCircleTag, is_team_tag in *. by destruct t as [|[[][][][][][][][]] t]. }
  split; [done|]. intros db' Hdb' [_ [_ Hx]]%elem_of_candidates. done.
Qed.

Lemma user_write_leaves_its_slot_witness :
  let w := sample_write SingleActive (Some "ann") "open" 10 in
  let a := @settle_args sample_env no_number in_team w in
  ∃ n, fd_rows (write sample_env near no_number in_team w empty_db) !! fresh (dom (fd_rows empty_db)) = Some n ∧
       slot_of n ≠ call_slot a ∧
       ∀ db', fd_rows db' = fd_rows (write sample_env near no_number in_team w empty_db) →
         (fresh (dom (fd_rows empty_db)), n) ∉ candidates a db'.
Proof.
  apply (@user_write_leaves_its_slot sample_services _ _ _ _ _ _ "team:git:dev" "ann").
  - done.
  - constructor.
  - done.
  - constructor.
Defined.

Lemma failed_stamp_leaves_the_row_witness :
  let w := sample_write SingleActive None "open" 10 in
  let '(st', r) := run (resolveFactCall sample_env near no_number in_circle w) (start [false; true]) in
  (∃ e, r = Throw e) ∧
  ∃ n, fd_rows (ds_facts st') !! fresh (dom (fd_rows empty_db)) = Some n ∧ f_scope n = [] ∧
       f_object n = "open" ∧ cl_userId (f_claim n) = None ∧
       fd_rows empty_db !! fresh (dom (fd_rows empty_db)) = None.
Proof. apply (failed_stamp_leaves_the_row sample_env near no_number in_circle); done. Defined.

(** ** What the extractor names *)

(** A row the extractor names and may still close. *)
Definition named (p : ResolveInput) (winner k : nat) (f : Fact) : bool :=
  bool_decide (RefFact k ∈ default [] (ri_supersedes p)) && negb (bool_decide (k = winner)) && open_fact f.

Definition well_dated (f : Fact) : Prop :=
  match f_validUntil f with Some u => (f_validFrom f <= u)%Z | None => True end.

Lemma elem_of_fact_ids l k : k ∈ fact_ids l ↔ RefFact k ∈ l.
Proof.
  unfold fact_ids. rewrite list_elem_of_omap. split.
  - intros ([i|i] & Hin & E); simplify_eq. done.
  - intros H. by exists (RefFact k).
Qed.

Lemma elem_of_losers p winner k f db :
  (k, f) ∈ named_losers winner
     (fact_ids (List.filter (λ x, negb (bool_decide (x = RefFact winner))) (default [] (ri_supersedes p)))) db ↔
  fd_rows db !! k = Some f ∧ named p winner k f = true.
Proof.
  unfold named_losers, named.
  rewrite elem_of_bfilter, elem_of_map_to_list, !andb_true_iff, !bool_decide_eq_true, elem_of_fact_ids,
    elem_of_bfilter, !bool_decide_neg_true. cbn. naive_solver.
Qed.

Lemma explicit_end_bounds from f :
  well_dated f →
  (f_validFrom f <= explicit_end from (f_validFrom f) (f_validUntil f))%Z ∧
  ∀ u, f_validUntil f = Some u → (explicit_end from (f_validFrom f) (f_validUntil f) <= u)%Z.
Proof.
  unfold well_dated, explicit_end. destruct (f_validUntil f) as [u|].
  - intros Hw. destruct (Z.ltb_spec u from), (Z.ltb_spec (f_validFrom f) from); split; intros; simplify_eq; lia.
  - intros _. destruct (Z.ltb_spec (f_validFrom f) from); split; intros; simplify_eq; lia.
Qed.

(** The extractor's supersession closes what it names and only that: every named
    open row other than the winner ends superseded by the winner, its prior end kept;
    the end it gets is never before its own start and never after the end it had; and
    no other row loses more than a dispute it was part of. *)
Theorem explicit_supersession_stays_within p r w st
    (Hw : ro_factId r = Some w) (Hfails : ds_fails st = []) :
  let '(st', res) := run (applyExplicitSupersession p r) st in
  is_ok res = true ∧
  ∀ k f, fd_rows (ds_facts st) !! k = Some f →
    if named p w k f then
      ∃ u, fd_rows (ds_facts st') !! k = Some (closed_by w u f) ∧
           (well_dated f → (f_validFrom f <= u)%Z ∧ ∀ u0, f_validUntil f = Some u0 → (u <= u0)%Z)
    else ∃ f', fd_rows (ds_facts st') !! k = Some f' ∧ kept_or_settled f f'.
Proof.
  unfold applyExplicitSupersession. rewrite Hw.
  set (ids := List.filter _ _). destruct (length ids =? 0) eqn:El.
  { cbn. split; [done|]. intros k f Hf. destruct (named p w k f) eqn:Hn; [|exists f; split; [done|by left]].
    apply Nat.eqb_eq, length_zero_iff_nil in El. exfalso.
    assert (Hk : (k, f) ∈ named_losers w (fact_ids ids) (ds_facts st)) by by apply elem_of_losers.
    rewrite El in Hk. unfold named_losers in Hk. apply elem_of_bfilter in Hk as [_ Hk].
    apply andb_true_iff in Hk as [[Hk _]%andb_true_iff _].
    by apply bool_decide_eq_true, elem_of_nil in Hk. }
  set (db := ds_facts st). set (losers := named_losers w (fact_ids ids) db).
  set (db1 := fold_left (close_named w (explicit_from p)) losers db).
  set (db2 := crown w losers db1).
  destruct (run (catching _ _) st) as [st' res] eqn:E.
  assert (Hst : is_ok res = true ∧ ds_facts st' = db2).
  { unfold catching in E. rewrite run_bind, run_ebind, run_stmt in E by done.
    unfold on_facts in E at 1 2 3. cbn [fst snd] in E. fold db losers in E.
    unfold sure in E. rewrite !run_ebind, !run_update in E. cbn in E. fold db1 in E.
    fold db2 in E. by destruct (0 <? length losers); simplify_eq. }
  destruct Hst as [-> ->]. split; [done|]. intros k f Hf.
  assert (Hnd : NoDup (map fst losers)) by (apply NoDup_map_bfilter, NoDup_fst_map_to_list).
  assert (Hcrown : ∀ f1, fd_rows db1 !! k = Some f1 →
    ∃ f2, fd_rows db2 !! k = Some f2 ∧ kept_or_settled f1 f2).
  { intros f1 H1. subst db2. unfold crown. destruct (fd_rows db1 !! w) as [x|] eqn:Hx.
    2: { exists f1. split; [done|by left]. }
    case_match eqn:Ec; [|exists f1; split; [done|by left]].
    apply andb_true_iff in Ec as [Ec%bool_decide_eq_true _].
    rewrite (update_open w _ _ x) by done. destruct (decide (w = k)) as [->|Hne].
    - assert (x = f1) as -> by congruence. rewrite lookup_insert_eq. eexists; split; [done|by right].
    - rewrite lookup_insert_ne by done. exists f1. split; [done|by left]. }
  destruct (named p w k f) eqn:Hn.
  - assert (Hin : (k, f) ∈ losers) by by apply elem_of_losers.
    exists (explicit_end (explicit_from p) (f_validFrom f) (f_validUntil f)).
    split; [|apply explicit_end_bounds]. destruct (Hcrown (closed_by w
      (explicit_end (explicit_from p) (f_validFrom f) (f_validUntil f)) f)) as (f2 & Hf2 & [->|[? _]]); [|done..].
    apply (close_at_lookup w (λ kv, explicit_end (explicit_from p) (f_validFrom kv.2) (f_validUntil kv.2)));
      [done..|]. exists f. split; [done|by left].
  - assert (Hk : k ∉ map fst losers).
    { intros ([j g] & -> & Hin)%list_elem_of_fmap. apply elem_of_losers in Hin as [Hg Hj].
      cbn [fst] in *. assert (g = f) as -> by congruence. congruence. }
    destruct (close_at_other w (λ kv, explicit_end (explicit_from p) (f_validFrom kv.2) (f_validUntil kv.2))
      losers db k f Hk Hf) as (f1 & Hf1 & Hs1).
    destruct (Hcrown f1 Hf1) as (f2 & Hf2 & Hs2). exists f2. split; [done|]. by eapply kept_or_settled_trans.
Qed.

Lemma explicit_supersession_stays_within_witness :
  let st0 := (run (resolveFactCall sample_env near no_number no_ambient (sample_write AppendOnly None "open" 10)) (start [])).1 in
  let st := (run (resolveFactCall sample_env near no_number no_ambient (sample_write AppendOnly None "closed" 30)) st0).1 in
  let p := {| ri_companyId := "co"; ri_entityId := "knowledge_entity:e"; ri_predicate := "status";
     ri_predicateAlias := None; ri_object := "closed"; ri_sourceLang := None; ri_entityType := None;
     ri_objectMeta := None; ri_embeddingText := None; ri_precomputedEmbedding := None;
     ri_confidence := 0.9%float; ri_validFrom := 30; ri_validUntil := None; ri_expectedUntil := None;
     ri_source := sample_source "chat" "u"; ri_entropy := None; ri_userId := None;
     ri_derivedVersion := None; ri_recordOutcomeMetric := None;
     ri_supersedes := Some [RefFact 0; RefEdge 7] |} in
  let r := outcome OInserted (Some 1) None in
  let '(st', res) := run (applyExplicitSupersession p r) st in
  is_ok res = true ∧
  ∀ k f, fd_rows (ds_facts st) !! k = Some f →
    if named p 1 k f then
      ∃ u, fd_rows (ds_facts st') !! k = Some (closed_by 1 u f) ∧
           (well_dated f → (f_validFrom f <= u)%Z ∧ ∀ u0, f_validUntil f = Some u0 → (u <= u0)%Z)
    else ∃ f', fd_rows (ds_facts st') !! k = Some f' ∧ kept_or_settled f f'.
Proof. apply explicit_supersession_stays_within; done. Defined.

(** The query run to its end: the rows it closed are the named open ones, and the
    verdict gains them. *)
Lemma run_explicit p r w st :
  ro_factId r = Some w → ds_fails st = [] →
  ∃ st' closed, run (applyExplicitSupersession p r) st =
      (st', Ok (if 0 <? length closed then fold_supersession closed r else r)) ∧
    ∀ k, k ∈ closed ↔ ∃ f, fd_rows (ds_facts st) !! k = Some f ∧ named p w k f = true.
Proof.
  intros Hw Hfails. unfold applyExplicitSupersession. rewrite Hw.
  set (ids := List.filter _ _). destruct (length ids =? 0) eqn:El.
  { exists st, []. split; [done|]. intros k. split; [by intros ?%elem_of_nil|]. intros (f & _ & Hn).
    apply Nat.eqb_eq, length_zero_iff_nil in El. unfold named in Hn. rewrite !andb_true_iff in Hn.
    destruct Hn as ((Hin%bool_decide_eq_true & Hne%bool_decide_neg_true) & _). exfalso.
    assert (Hk : RefFact k ∈ ids) by (apply elem_of_bfilter; split; [done|]; apply bool_decide_neg_true; congruence).
    rewrite El in Hk. by apply elem_of_nil in Hk. }
  set (losers := named_losers w (fact_ids ids) (ds_facts st)).
  destruct (run (catching _ _) st) as [st' res] eqn:E. exists st', (map fst losers). split.
  - unfold catching in E. rewrite run_bind, run_ebind, run_stmt in E by done.
    unfold on_facts in E at 1 2 3. cbn [fst snd] in E. fold losers in E.
    unfold sure in E. rewrite !run_ebind, !run_update in E. cbn in E. rewrite length_map.
    injection E as <- <-. by destruct losers.
  - intros k. rewrite list_elem_of_fmap. split.
    + intros ([j f] & -> & Hin). apply elem_of_losers in Hin. by exists f.
    + intros (f & Hf). exists (k, f). split; [done|]. by apply elem_of_losers.
Qed.

Lemma explicit_runs p r w st :
  ro_factId r = Some w → ds_fails st = [] →
  ∃ st' closed, run (applyExplicitSupersession p r) st =
      (st', Ok (if 0 <? length closed then fold_supersession closed r else r)) ∧
    (∀ k, k ∈ closed ↔ ∃ f, fd_rows (ds_facts st) !! k = Some f ∧ named p w k f = true) ∧
    ∀ k f, fd_rows (ds_facts st) !! k = Some f →
      if bool_decide (k ∈ closed) then ∃ u, fd_rows (ds_facts st') !! k = Some (closed_by w u f)
      else ∃ f', fd_rows (ds_facts st') !! k = Some f' ∧ kept_or_settled f f'.
Proof.
  intros Hw Hf. destruct (run_explicit p r w st Hw Hf) as (st' & closed & E & Hc). exists st', closed.
  split; [done|]. split; [done|]. intros k f Hk.
  pose proof (explicit_supersession_stays_within p r w st Hw Hf) as H. rewrite E in H. destruct H as [_ H].
  specialize (H k f Hk). case_bool_decide as Hin.
  - apply Hc in Hin as (f0 & Hf0 & Hn). assert (f0 = f) as -> by congruence. rewrite Hn in H.
    destruct H as (u & Hu & _). by exists u.
  - destruct (named p w k f) eqn:Hn; [|done]. destruct Hin. apply Hc. by exists f.
Qed.

(** ** What a write reports *)

Section reported.
Context (cosine : list float → list float → float) (a : SettleArgs) (db : FactDb).
Hypothesis not_event : sa_semantics a ≠ BitemporalEvent.
Let id : nat := fresh (dom (fd_rows db)).
Let cands := candidates a db.

(** What the verdict of a settling says of the new row. *)
Definition verdict_of (o : ResolveOutcome) (n : Fact) : Prop :=
  match ro_outcome o with
  | OInserted => f_status n = Active ∧ open_fact n = true ∧ f_validUntil n = sa_valid_until a ∧ ro_supersededFactIds o = []
  | OSuperseded => f_status n = Active ∧ open_fact n = true ∧ f_validUntil n = sa_valid_until a ∧ ro_supersededFactIds o ≠ []
  | OInsertedHistorical => ro_supersededFactIds o = [] ∧ ∃ k f, ro_supersededByFactId o = Some k ∧ (k, f) ∈ cands ∧
      (sa_valid_from a < f_validFrom f)%Z ∧ f_status n = Superseded ∧ f_validUntil n = Some (f_validFrom f) ∧
      cu_supersededBy <$> f_closure n = Some k
  | OCorroborated => ro_supersededFactIds o = [] ∧ ∃ k f, ro_corroboratedFactId o = Some k ∧ (k, f) ∈ cands ∧
      (f_object f = sa_object a ∨ same_value (f_object f) (sa_object a) = true) ∧
      f_status n = Corroborating ∧ f_corroborates n = Some k
  | OCompeting | ORejected | OSkipped => False
  end.

Let db0 : FactDb := with_rows (<[id := new_fact a db]> (fd_rows db)) db.

Lemma cand_not_new k f : (k, f) ∈ cands → k ≠ id.
Proof. intros H. by apply (cand_row a db k f). Qed.

Lemma new_after k g d n :
  k ≠ id → fd_rows d !! id = Some n → f_status n ≠ Competing → fd_rows (update_fact k g d) !! id = Some n.
Proof.
  intros Hne Hn Hs. apply update_other; [done..|]. unfold competing_open. by rewrite bool_decide_eq_false_2.
Qed.

Lemma new_updated g d n :
  fd_rows d !! id = Some n → f_status (g n) ≠ Competing → fd_rows (update_fact id g d) !! id = Some (g n).
Proof.
  intros Hn Hs. apply update_self; [done|]. left. unfold competing_open. by rewrite bool_decide_eq_false_2.
Qed.

Lemma succeed_verdict :
  let pool := slot_pool cosine a cands in
  ∃ n, fd_rows (succeed a pool id db0).1 !! id = Some n ∧ f_claim n = f_claim (new_fact a db) ∧
    verdict_of (succeed a pool id db0).2 n.
Proof.
  intros pool. assert (Hp : day_peers a pool = []) by (unfold day_peers; by destruct (sa_semantics a)).
  pose proof (start_new a db) as H0. fold id db0 in H0. unfold succeed. rewrite Hp.
  change (0 <? length (@nil (nat * Fact))) with false. cbn [map].
  destruct (0 <? length (closing a pool)) eqn:El; cbn [fst snd].
  - exists (with_trace (trace "valid_time" (map fst (closing a pool)) [] (head (map fst (closing a pool))) (fd_now db0)) (new_fact a db)).
    split; [|split; [done|]].
    + apply new_updated; [|done]. apply closing_other; [|done..]. apply (pool_ids_new cosine a db), closing_pool.
    + unfold verdict_of. cbn. split_and!; [done..|]. apply Nat.ltb_lt in El. by destruct (closing a pool); cbn in El; [lia|].
  - eexists. split; [by apply new_updated|]. by split.
Qed.

Lemma settle_verdict :
  ∃ n, fd_rows (settle_fact cosine true a db).1 !! id = Some n ∧ f_claim n = f_claim (new_fact a db) ∧
    verdict_of (settle_fact cosine true a db).2 n.
Proof.
  pose proof (start_new a db) as H0. fold id db0 in H0.
  unfold settle_fact. cbn [negb]. fold id cands db0. unfold settle_new. set (pool := slot_pool cosine a cands).
  destruct (ended a cands) as [[k f]|] eqn:He.
  { destruct (ended_spec _ _ _ He) as (Hin & _ & Hv & _). eexists. split; [|split; [|]].
    - apply new_updated; [|done]. apply new_after; [by eapply cand_not_new|exact H0|done].
    - done.
    - unfold verdict_of. cbn. split; [done|]. exists k, f. split_and!; try done. by right. }
  destruct (corroborated _ _) as [[k f]|] eqn:Hc.
  { assert (Hin : (k, f) ∈ cands ∧ f_object f = sa_object a).
    { unfold corroborated in Hc. apply pick_In, elem_of_bfilter in Hc as [Hc Ho].
      apply andb_true_iff in Ho as [Ho%bool_decide_eq_true _]. split; [|done].
      case_bool_decide; [done|by eapply pool_cands]. }
    destruct Hin as [Hin Ho]. eexists. split; [|split; [|]].
    - apply new_after; [by eapply cand_not_new| |]; [by apply new_updated|done].
    - done.
    - unfold verdict_of. cbn. split; [done|]. exists k, f. split_and!; try done. by left. }
  destruct (restated _ _) as [[k f]|] eqn:Hr.
  { unfold restated in Hr. apply pick_In, elem_of_bfilter in Hr as [Hr Ho].
    apply andb_true_iff in Ho as [Ho%bool_decide_eq_true _]. eexists. split; [by apply new_updated|]. split; [done|].
    unfold verdict_of. cbn. split; [done|]. exists k, f. split_and!; try done; [by eapply pool_cands|by left]. }
  destruct (length pool =? 0).
  { eexists. split; [by apply new_updated|]. split; [done|]. by unfold verdict_of. }
  destruct (next_after a pool) as [[k f]|] eqn:Hn; [|apply succeed_verdict].
  eexists. split; [by apply new_updated|]. split; [done|]. unfold verdict_of. cbn. split; [done|]. exists k, f.
  assert (Hx : (k, f) ∈ pool ∧ (sa_valid_from a < f_validFrom f)%Z).
  { unfold next_after in Hn. destruct (sa_semantics a); [..|done];
      apply pick_In, elem_of_bfilter in Hn as [Hn Hlt]; split; [done|by apply Z.ltb_lt in Hlt|done|by apply Z.ltb_lt in Hlt|done|by apply Z.ltb_lt in Hlt]. }
  destruct Hx as [Hx ?]. split_and!; try done. by eapply pool_cands.
Qed.

Lemma superseded_cands k :
  k ∈ ro_supersededFactIds (settle_fact cosine true a db).2 → ∃ f, (k, f) ∈ cands.
Proof.
  unfold settle_fact, settle_new, succeed. cbn [negb]. fold cands. repeat case_match; cbn; try by intros ?%elem_of_nil.
  all: intros ([j f] & -> & Hin)%list_elem_of_fmap; exists f; eapply pool_cands, closing_pool, Hin.
Qed.

(** An old row after the settling. *)
Lemma settle_old k f :
  fd_rows db !! k = Some f →
  ∃ f', fd_rows (settle_fact cosine true a db).1 !! k = Some f' ∧ f_claim f' = f_claim f ∧
    if bool_decide (k ∈ ro_supersededFactIds (settle_fact cosine true a db).2)
    then open_fact f = true ∧ slot_of f = call_slot a ∧ overlaps a f = true ∧ (f_validFrom f <= sa_valid_from a)%Z ∧
         f' = closed_by id (sa_valid_from a) f
    else open_fact f' = open_fact f.
Proof.
  intros Hf. pose proof (settle_stays_in_its_slot cosine true a db) as H1.
  pose proof (values_end_where_the_next_begins cosine true a db) as H2.
  pose proof (settle_factId cosine a db) as Hid.
  assert (Hsup : k ∈ ro_supersededFactIds (settle_fact cosine true a db).2 → open_fact f = true).
  { intros (g & Hg)%superseded_cands. apply (cand_row a db k g) in Hg as (Hg & [Ho _] & _). congruence. }
  destruct (settle_fact cosine true a db) as [db' o]. cbn [fst snd] in *.
  destruct (H1) as [H1' _]. destruct (H1' k f Hf) as (f' & Hf' & Hc & _ & Ho & _). exists f'. split; [done|]. split; [done|].
  case_bool_decide as Hin.
  - destruct (H2 k f Hf (Hsup Hin)) as [[? _]|(_ & Hs & Hov & Hle & i & n & Hi & Hn & (Hst & _) & Hk)]; [done|].
    split_and!; [by apply Hsup|done..|]. rewrite Hid in Hi. injection Hi as <-. fold id in Hk. rewrite Hst in Hk. congruence.
  - destruct (open_fact f) eqn:Eo.
    + destruct (H2 k f Hf Eo) as [[_ (f0 & Hf0 & ?)]|[? _]]; [|done]. congruence.
    + destruct (open_fact f') eqn:Eo'; [|done]. by specialize (Ho eq_refl).
Qed.
End reported.

(** ** What the promoted slots can report *)

Section promotion.
Context `{ResolverServices} (env : ResolverEnv) (cosine : list float → list float → float)
        (parse : string → float).

(** The registry knows three semantics; the derived worlds' own is not among them. *)
Definition registry_policies : Prop :=
  (∀ k, pl_semantics (policyFor k) ≠ BitemporalEvent) ∧
  ∀ k t id after, canonicalize k t = Some (id, after) → ∀ k', pl_semantics (after k') ≠ BitemporalEvent.

Lemma build_semantics p : registry_policies → rc_semantics (buildResolveCall env p) ≠ BitemporalEvent.
Proof.
  intros [H1 H2]. unfold buildResolveCall.
  assert (Hp : ∀ q, pl_semantics (policyForPredicate p q) ≠ BitemporalEvent).
  { intros q. unfold policyForPredicate. case_match; [done|].
    destruct (canonicalize _ _) as [[id after]|] eqn:E; [|done]. by eapply H2. }
  set (policy := policyForPredicate p _). specialize (Hp (default (ri_predicate p) (canonicalSlotFor env p (path_of p)))).
  fold policy in Hp. destruct (conflictSlotResolution env policy (path_of p)) as [sem floor] eqn:E.
  destruct (lang_stamp env p) as [[lang script] meta]. cbn.
  unfold conflictSlotResolution in E. by repeat case_match; simplify_eq.
Qed.

Lemma build_end p : rc_validUntil (buildResolveCall env p) = ri_validUntil p.
Proof.
  unfold buildResolveCall. destruct (conflictSlotResolution _ _ _) as [sem floor].
  by destruct (lang_stamp _ _) as [[lang script] meta].
Qed.

(** The rows a write closes and the row it adds, before the extractor's own supersession. *)
Lemma resolve_call_spec am c s :
  ds_fails s = [] → rc_semantics c ≠ BitemporalEvent →
  let db := ds_facts s in let a := settle_args env parse am c in let id := fresh (dom (fd_rows db)) in
  ∃ s1 o, run (resolveFactCall env cosine parse am c) s = (s1, Ok o) ∧ ds_fails s1 = [] ∧ ro_factId o = Some id ∧
    (∃ n, fd_rows (ds_facts s1) !! id = Some n ∧ f_claim n = f_claim (new_fact a db) ∧ verdict_of a db o n) ∧
    (∀ k, k ∈ ro_supersededFactIds o → is_Some (fd_rows db !! k)) ∧
    (∀ k f, fd_rows db !! k = Some f → ∃ f', fd_rows (ds_facts s1) !! k = Some f' ∧ f_claim f' = f_claim f ∧
      if bool_decide (k ∈ ro_supersededFactIds o)
      then open_fact f = true ∧ slot_of f = call_slot a ∧ overlaps a f = true ∧ (f_validFrom f <= sa_valid_from a)%Z ∧
           f' = closed_by id (sa_valid_from a) f
      else open_fact f' = open_fact f) ∧
    ∀ k f', fd_rows (ds_facts s1) !! k = Some f' → fd_rows db !! k = None → k = id.
Proof.
  intros Hs Hsem db a id. pose proof (run_resolveFactCall env cosine parse am c s Hs) as E.
  eexists _, _. split; [exact E|]. split; [done|]. split; [apply settle_factId|].
  cbn [with_facts ds_facts]. fold db a. split_and!.
  - destruct (settle_verdict cosine a db Hsem) as (n & Hn & Hc & Hv).
    exists (if length (scopeForUser am (rc_userId c)) =? 0 then n else with_scope (scopeForUser am (rc_userId c)) n).
    split; [by apply stamped_new|]. case_match; split; done.
  - intros k (f & Hk)%superseded_cands. apply cand_row in Hk as (Hf & _). by eexists.
  - intros k f Hf. destruct (settle_old cosine a db k f Hf) as (f' & Hf' & Hx). exists f'. split; [|done].
    apply stamped_other; [|done]. intros ->. by rewrite fresh_row in Hf.
  - intros k f' (f0 & Hf0 & _)%stamped_lookup Hnone.
    pose proof (settle_stays_in_its_slot cosine true a db) as H1. pose proof (settle_factId cosine a db) as Hid.
    change (args env parse am c) with a in Hf0. destruct (settle_fact cosine true a db) as [db' o]. cbn [fst snd] in *.
    destruct H1 as [_ H1]. rewrite (H1 k f0 Hf0 Hnone) in Hid. by injection Hid.
Qed.

(** C12. A write's verdict is what happened to the table. Whatever the flags, the
    registry of predicates and the rows there are, a write through [resolve] whose
    statements succeed adds one row stating the value and answers with its id; an old row
    stops being current exactly when the verdict lists it as superseded - it was current,
    it now names the new row as its successor, and either it shared the slot, started no
    later and overlapped, or the extractor had named it; every row keeps what it states.
    And the new row stands as the verdict says: current, with the end it was written
    with, when inserted (nothing was closed) or superseding (something was); already
    ended at the start of a current row of its slot that begins later, when slotted into
    history; attached to a current row of its slot with its value when corroborating. No
    live write is refused, skipped or left competing. Of the registry only this is asked:
    it gives a predicate one of its own three semantics, not that of a derived world. *)
Theorem write_closes_what_it_reports am p st
    (Hregistry : registry_policies) (Hfails : ds_fails st = []) :
  let db := ds_facts st in let id := fresh (dom (fd_rows db)) in
  let a := settle_args env parse am (buildResolveCall env p) in
  ∃ st' out n, run (resolve env cosine parse am p) st = (st', Ok out) ∧
    let r := rs_result out in
    fd_rows db !! id = None ∧ ro_factId r = Some id ∧ fd_rows (ds_facts st') !! id = Some n ∧
    f_claim n = f_claim (new_fact a db) ∧
    (∀ k, k ∈ ro_supersededFactIds r → is_Some (fd_rows db !! k)) ∧
    (∀ k f, fd_rows db !! k = Some f → ∃ f', fd_rows (ds_facts st') !! k = Some f' ∧ f_claim f' = f_claim f ∧
       if bool_decide (k ∈ ro_supersededFactIds r)
       then open_fact f = true ∧ f_status f' = Superseded ∧ cu_supersededBy <$> f_closure f' = Some id ∧
            (RefFact k ∈ default [] (ri_supersedes p) ∨
             slot_of f = call_slot a ∧ overlaps a f = true ∧ (f_validFrom f <= sa_valid_from a)%Z)
       else open_fact f' = open_fact f) ∧
    match ro_outcome r with
    | OInserted => open_fact n = true ∧ f_validUntil n = ri_validUntil p ∧ ro_supersededFactIds r = []
    | OSuperseded => open_fact n = true ∧ f_validUntil n = ri_validUntil p ∧ ro_supersededFactIds r ≠ []
    | OInsertedHistorical => ∃ k f, ro_supersededByFactId r = Some k ∧ fd_rows db !! k = Some f ∧ in_slot a f ∧
        (sa_valid_from a < f_validFrom f)%Z ∧ f_status n = Superseded ∧ f_validUntil n = Some (f_validFrom f) ∧
        cu_supersededBy <$> f_closure n = Some k
    | OCorroborated => ∃ k f, ro_corroboratedFactId r = Some k ∧ fd_rows db !! k = Some f ∧ in_slot a f ∧
        (f_object f = sa_object a ∨ same_value (f_object f) (sa_object a) = true) ∧
        f_status n = Corroborating ∧ f_corroborates n = Some k
    | OCompeting | ORejected | OSkipped => False
    end.
Proof.
  intros db id a.
  destruct (resolve_call_spec am (buildResolveCall env p) st Hfails (build_semantics p Hregistry))
    as (s1 & o & E1 & Hf1 & Hid & (n & Hn & Hcn & Hv) & Hsome & Hold & Honly). fold db id a in Hid, Hn, Hcn, Hv, Hsome, Hold, Honly.
  destruct (explicit_runs p o id s1 Hid Hf1) as (st' & closed & E2 & Hclosed & Hrows).
  set (r := if 0 <? length closed then fold_supersession closed o else o) in *.
  assert (Hfresh : fd_rows db !! id = None) by apply fresh_row.
  assert (Hr : ro_factId r = Some id ∧ ro_supersededByFactId r = ro_supersededByFactId o ∧
    ro_corroboratedFactId r = ro_corroboratedFactId o ∧
    (∀ k, k ∈ ro_supersededFactIds r ↔ k ∈ ro_supersededFactIds o ∨ k ∈ closed)).
  { unfold r. destruct closed as [|k0 closed]; cbn [length Nat.ltb Nat.leb].
    - split_and!; [done..|]. intros k. rewrite elem_of_nil. tauto.
    - split_and!; [done..|]. intros k. cbn [fold_supersession ro_supersededFactIds].
      rewrite elem_of_app, elem_of_bfilter, bool_decide_neg_true. destruct (decide (k ∈ ro_supersededFactIds o)); tauto. }
  destruct Hr as (Hrid & Hby & Hco & Hin).
  assert (Hclosed_old : ∀ k, k ∈ closed → ∃ f, fd_rows (ds_facts s1) !! k = Some f ∧ open_fact f = true ∧
    RefFact k ∈ default [] (ri_supersedes p) ∧ k ≠ id).
  { intros k (f & Hf & Hnm)%Hclosed. unfold named in Hnm. rewrite !andb_true_iff, bool_decide_eq_true, bool_decide_neg_true in Hnm.
    exists f. naive_solver. }
  eexists st', _, n. split.
  { unfold resolve. rewrite run_ebind, E1. cbn [fst snd]. unfold postResolve. rewrite run_ebind, E2. reflexivity. }
  cbn [rs_result]. fold r. split; [done|]. split; [done|].
  assert (Hquiet : f_status n ≠ Competing).
  { unfold verdict_of in Hv. destruct (ro_outcome o); [| | |done| |done|done].
    - by destruct Hv as (-> & _).
    - by destruct Hv as (_ & k & f & _ & _ & _ & -> & _).
    - by destruct Hv as (-> & _).
    - by destruct Hv as (_ & k & f & _ & _ & _ & -> & _). }
  split.
  { pose proof (Hrows id n Hn) as Hy. rewrite bool_decide_eq_false_2 in Hy by (intros (? & _ & _ & _ & ?)%Hclosed_old; done).
    by destruct Hy as (n' & Hn' & [->|[Hc _]]). }
  split; [done|]. split; [|split].
  - intros k [Hk|(f & Hf & _ & _ & Hne)%Hclosed_old]%Hin; [by apply Hsome|].
    destruct (fd_rows db !! k) as [g|] eqn:Hg; [by eexists|]. exfalso. apply Hne. by eapply Honly.
  - intros k f Hf. destruct (Hold k f Hf) as (f1 & Hk1 & Hc1 & Ho1). pose proof (Hrows k f1 Hk1) as Hy.
    destruct (decide (k ∈ closed)) as [Hk|Hk].
    + rewrite bool_decide_eq_true_2 in Hy by done. destruct Hy as (u & Hu). exists (closed_by id u f1).
      destruct (Hclosed_old k Hk) as (f2 & Hf2 & Hop & Href & _). assert (f2 = f1) as -> by congruence.
      split; [done|]. split; [done|]. rewrite bool_decide_eq_true_2 by (apply Hin; by right).
      split; [|split; [done|split; [done|by left]]].
      case_bool_decide; [by destruct Ho1 as (_ & _ & _ & _ & ->)|congruence].
    + rewrite bool_decide_eq_false_2 in Hy by done. destruct Hy as (f' & Hf' & Hks). exists f'. split; [done|].
      assert (Hc' : f_claim f' = f_claim f) by (by destruct Hks as [->|[_ ->]]). split; [done|].
      rewrite (bool_decide_ext _ (k ∈ ro_supersededFactIds o)) by (rewrite Hin; tauto). case_bool_decide.
      * destruct Ho1 as (Ho & Hs & Hov & Hle & ->). destruct Hks as [->|[? _]]; [|done]. split_and!; try done. by right.
      * rewrite <- Ho1. destruct Hks as [->|[Hst ->]]; [done|]. unfold open_fact. cbn. by rewrite Hst.
  - assert (Hend : sa_valid_until a = ri_validUntil p) by apply build_end.
    rewrite <- Hend. assert (Hcand : ∀ k f, (k, f) ∈ candidates a db → fd_rows db !! k = Some f ∧ in_slot a f)
      by (intros k f Hkf; by apply elem_of_candidates in Hkf).
    assert (Hout : ro_outcome r = match ro_outcome o with
       | OInserted | OCompeting => if 0 <? length closed then OSuperseded else ro_outcome o | x => x end)
      by (unfold r; destruct (0 <? length closed); cbn; by destruct (ro_outcome o)).
    unfold verdict_of in Hv. rewrite Hout. destruct (ro_outcome o) eqn:Eo; [| | |done| |done|done].
    + destruct Hv as (_ & Hop & Hu & Hnil). destruct (0 <? length closed) eqn:El.
      * split_and!; [done|done|]. destruct closed as [|k0 l0]; [done|]. intros Hx.
        assert (Hk0 : k0 ∈ ro_supersededFactIds r) by (apply Hin; right; by left). rewrite Hx in Hk0. by apply elem_of_nil in Hk0.
      * split_and!; [done|done|]. destruct closed as [|k0 l0]; [exact Hnil|done].
    + destruct Hv as (_ & k & f & Hs & (Hf & Hsl)%Hcand & Hv). exists k, f. rewrite Hby. by split_and!; try apply Hv.
    + destruct Hv as (_ & Hop & Hu & Hne). split_and!; [done|done|]. intros Hx.
      destruct (ro_supersededFactIds o) as [|k0 l0]; [done|].
      assert (Hk0 : k0 ∈ ro_supersededFactIds r) by (apply Hin; left; by left). rewrite Hx in Hk0. by apply elem_of_nil in Hk0.
    + destruct Hv as (_ & k & f & Hs & (Hf & Hsl)%Hcand & Hv). exists k, f. rewrite Hco. by split_and!; try apply Hv.
Qed.

(** A promoted slot is the whole slot: under the slot-exact floor, and with the
    lower bound a cosine has, the bitemporal pool of a write is the pool [single_active]
    would have - every overlapping open row of the slot - as soon as the slot's rows are
    embedded in the write's space. *)
Theorem slot_exact_floor_admits_the_slot a b db
    (Hcos : ∀ x y, PrimFloat.leb SLOT_EXACT_SIMILARITY_FLOOR (cosine x y) = true)
    (Hfloor : sa_similarity_threshold a = SLOT_EXACT_SIMILARITY_FLOOR)
    (Ha : sa_semantics a = Bitemporal) (Hb : sa_semantics b = SingleActive)
    (Hsame : call_slot a = call_slot b ∧ sa_valid_from a = sa_valid_from b ∧ sa_valid_until a = sa_valid_until b)
    (Hemb : ∀ k f, (k, f) ∈ candidates a db →
       ∃ e, cl_embedding (f_claim f) = Some e ∧ length e = length (sa_embedding a)) :
  slot_pool cosine a (candidates a db) = slot_pool cosine b (candidates b db).
Proof.
  destruct Hsame as (Hs & Hf & Hu).
  assert (Hc : candidates b db = candidates a db) by (unfold candidates; by rewrite Hs).
  rewrite Hc. unfold slot_pool. rewrite Ha, Hb. revert Hemb. generalize (candidates a db). intros l.
  induction l as [|[k f] l IH]; intros Hemb; [done|]. cbn.
  rewrite IH by (intros k' f' ?; apply (Hemb k'); by constructor).
  destruct (Hemb k f) as (e & He & Hl); [by constructor|].
  assert (similar cosine a f = true) as ->.
  { unfold similar, eff_similarity. rewrite He, Hl, Nat.eqb_refl, Ha, Hfloor. apply Hcos. }
  unfold overlaps. by rewrite Hf, Hu.
Qed.
End promotion.

Lemma sample_registry : @registry_policies sample_services.
Proof. split; [by intros k|]. by intros k t id after. Qed.

Definition sample_input_at (v : string) (from : Z) : ResolveInput :=
  {| ri_companyId := "co"; ri_entityId := "knowledge_entity:e"; ri_predicate := "visited";
     ri_predicateAlias := None; ri_object := v; ri_sourceLang := None; ri_entityType := None;
     ri_objectMeta := None; ri_embeddingText := None; ri_precomputedEmbedding := None;
     ri_confidence := 0.9%float; ri_validFrom := from; ri_validUntil := None; ri_expectedUntil := None;
     ri_source := sample_source "chat" "u"; ri_entropy := None; ri_userId := None;
     ri_derivedVersion := None; ri_recordOutcomeMetric := None; ri_supersedes := None |}.

(** A second value of a slot, written through [resolve] in a circle: the first one is the
    row it reports and closes. *)
Lemma write_closes_what_it_reports_witness :
  let st0 := (run (@resolve sample_services sample_env near no_number in_circle (sample_input_at "Rome" 10)) (start [])).1 in
  ∃ st' out n f', run (@resolve sample_services sample_env near no_number in_circle (sample_input_at "Oslo" 30)) st0 = (st', Ok out) ∧
    ro_outcome (rs_result out) = OSuperseded ∧ fd_rows (ds_facts st') !! 1 = Some n ∧ open_fact n = true ∧
    fd_rows (ds_facts st') !! 0 = Some f' ∧ f_status f' = Superseded ∧ cu_supersededBy <$> f_closure f' = Some 1.
Proof.
  intros st0.
  destruct (@write_closes_what_it_reports sample_services sample_env near no_number in_circle (sample_input_at "Oslo" 30) st0
    sample_registry ltac:(by vm_compute)) as (st' & out & n & E & _ & _ & Hn & _ & _ & Hold & H).
  assert (Hout : match (run (@resolve sample_services sample_env near no_number in_circle (sample_input_at "Oslo" 30)) st0).2 with
    | Ok out => Some (ro_outcome (rs_result out), ro_supersededFactIds (rs_result out)) | Throw _ => None end =
    Some (OSuperseded, [0])) by (by vm_compute).
  rewrite E in Hout. cbn in Hout. injection Hout as Hout Hids. rewrite Hout in H. destruct H as (Ho & _ & _).
  destruct (fd_rows (ds_facts st0) !! 0) as [f|] eqn:Ef; [|by vm_compute in Ef].
  destruct (Hold 0 f Ef) as (f' & Hf' & _ & Hc). rewrite Hids, bool_decide_eq_true_2 in Hc by (by left).
  exists st', out, n, f'. destruct Hc as (_ & Hs & Hc & _). split_and!; [exact E|exact Hout| |exact Ho|exact Hf'|exact Hs|].
  - assert (Hi : fresh (dom (fd_rows (ds_facts st0))) = 1) by (by vm_compute). by rewrite <- Hi.
  - assert (Hi : fresh (dom (fd_rows (ds_facts st0))) = 1) by (by vm_compute). by rewrite <- Hi.
Defined.

Lemma slot_exact_floor_admits_the_slot_witness :
  let a sem := {| sa_entity_id := "e"; sa_predicate := "visited"; sa_object := "Oslo"; sa_object_meta := None;
     sa_embedding := [9%float]; sa_confidence := 0.9%float; sa_valid_from := 5;
     sa_valid_until := None; sa_source := sample_source "chat" "u"; sa_source_trust := 0.5%float;
     sa_semantics := sem; sa_similarity_threshold := SLOT_EXACT_SIMILARITY_FLOOR;
     sa_slot_similarity := None; sa_lang := None; sa_script := None; sa_entropy := None;
     sa_user_id := None; sa_derived_version := None; sa_predicate_alias := None; sa_circles := [] |} in
  let db := (settle_fact near true (sample_call SingleActive "Rome" 0%float 0) empty_db).1 in
  slot_pool near (a Bitemporal) (candidates (a Bitemporal) db) =
  slot_pool near (a SingleActive) (candidates (a SingleActive) db) ∧
  length (slot_pool near (a Bitemporal) (candidates (a Bitemporal) db)) = 1.
Proof.
  cbv zeta. split; [|by vm_compute].
  apply slot_exact_floor_admits_the_slot; try done.
  - intros x y. unfold near. destruct x as [|x [|]], y as [|y [|]]; try done. by case_match.
  - intros k f. vm_compute. intros H. inversion_clear H as [|? ? ? H']; [|by inversion H'].
    eexists; split; reflexivity.
Defined.
