(* ===== verification/TenantScope.v ===== *)
(** * Tenant and user pinning

    [auth/user-scope.ts], [auth/tenant-scope.ts] and [auth/segment-scope.ts]: which
    user and which tenant a request may address, and the per-member gate of the
    verbatim windows and scenes. *)

From S2P Require Import Prelude Js ScopeTags.
From Stdlib Require Import Ascii.
Local Open Scope string_scope.
Local Open Scope nat_scope.

(** ** Users *)

Definition pinUserScope (am : Ambient) (requested : option string) :
    result http_exn (option string) :=
  match truthy (am_authUserId am) with
  | None => Ok requested
  | Some authUserId =>
      match requested with
      | Some r =>
          if negb (bool_decide (r = authUserId))
          then Throw (Forbidden "userId does not match the authenticated user scope of this token")
          else Ok (Some authUserId)
      | None => Ok (Some authUserId)
      end
  end.

(** The fence of a read surface: which user's rows join the tenant-global ones,
    and the scope-tag clause that rides along. *)
Record ReadFence := { rf_userId : option string; rf_tags : fence }.

Definition userReadFence (am : Ambient) (readSurfaceUserScope : bool)
    (requested : option string) : result http_exn ReadFence :=
  let* userId := if readSurfaceUserScope then pinUserScope am requested else Ok None in
  Ok {| rf_userId := userId; rf_tags := scopeFenceSql am userId |}.

(** [userId IS NONE] or [(userId IS NONE OR userId = $scopeUserId)], with the
    scope clause. *)
Definition read_fence_admits (f : ReadFence) (rowUser : option string) (scope : list string) : bool :=
  match rowUser with
  | None => true
  | Some r => match rf_userId f with Some u => bool_decide (r = u) | None => false end
  end && fence_admits (rf_tags f) scope.

(** A user-bound token stays in its user's slice: whatever userId it asserts,
    it is refused or pinned to its own user, and the rows its read fence admits
    are tenant-global or its own. *)
Theorem user_token_is_pinned am u requested flag f rowUser scope :
  am_authUserId am = Some u → u ≠ "" →
  userReadFence am flag requested = Ok f →
  read_fence_admits f rowUser scope = true →
  (rowUser = None ∨ rowUser = Some u) ∧
  (flag = true → requested = None ∨ requested = Some u).
Proof.
  intros Ha Hu. unfold userReadFence, pinUserScope, truthy. rewrite Ha.
  rewrite bool_decide_eq_false_2 by done. unfold read_fence_admits.
  destruct flag, requested as [r|]; simpl; intros Hf.
  - destruct (bool_decide (r = u)) eqn:E; simpl in Hf; [|done].
    apply bool_decide_eq_true in E. simplify_eq. simpl.
    destruct rowUser; [|naive_solver].
    rewrite andb_true_iff, bool_decide_eq_true. naive_solver.
  - simplify_eq. simpl. destruct rowUser; [|naive_solver].
    rewrite andb_true_iff, bool_decide_eq_true. naive_solver.
  - simplify_eq. simpl. destruct rowUser; naive_solver.
  - simplify_eq. simpl. destruct rowUser; naive_solver.
Qed.

Lemma user_token_is_pinned_witness :
  let f := {| rf_userId := Some "alice"; rf_tags := scopeFenceSql alice (Some "alice") |} in
  userReadFence alice true (Some "alice") = Ok f ∧
  (Some "alice" = None ∨ Some "alice" = Some "alice").
Proof.
  intros f. split; [reflexivity|].
  refine (proj1 (user_token_is_pinned alice "alice" (Some "alice") true f (Some "alice")
    ["circle:coach"] _ _ _ _)); [reflexivity|discriminate|reflexivity|reflexivity].
Defined.

(** ** Tenants *)

Definition PLATFORM_TENANT_SCOPE : string := "brain:platform_admin".

(** The caller: its tenant and scopes, under the BRAIN_TENANT_OVERRIDE_ENABLED gate. *)
Record Caller := {
  ca_companyId : string;
  ca_scopes : list string;
  ca_tenantOverrideEnabled : bool
}.

Definition platformTenantCapable (c : Caller) : bool :=
  ca_tenantOverrideEnabled c && bool_decide (PLATFORM_TENANT_SCOPE ∈ ca_scopes c).

(** The two rosters are thunks that may be absent. *)
Record ResolvePlatformTenantOptions := {
  knownTenants : option (list string);
  fanOutTenants : option (list string)
}.

Definition resolvePlatformTenant (c : Caller) (requested : option string)
    (opts : ResolvePlatformTenantOptions) : result http_exn string :=
  let own := ca_companyId c in
  match truthy (trim <$> requested) with
  | None => Ok own
  | Some target =>
      if bool_decide (target = own) then Ok own
      else if negb (platformTenantCapable c)
      then Throw (Forbidden "Cross-tenant access denied")
      else if negb (bool_decide (target ∈ default [] (knownTenants opts)))
      then Throw (BadRequest ("Unknown tenant '" +:+ target +:+ "'"))
      else Ok target
  end.

Definition resolvePlatformTenantScope (c : Caller) (requested : option string)
    (opts : ResolvePlatformTenantOptions) : result http_exn (list string) :=
  match truthy (trim <$> requested) with
  | Some target =>
      let* t := resolvePlatformTenant c (Some target) opts in Ok [t]
  | None =>
      if platformTenantCapable c
      then Ok (default [ca_companyId c] (fanOutTenants opts))
      else Ok [ca_companyId c]
  end.

(** Tenant isolation: an admin credential without both the platform scope and
    the gate reaches its own tenant only, on the single-tenant and on the
    fan-out path; with both it reaches a foreign tenant only from the roster. *)
Theorem tenants_are_isolated c requested opts :
  (∀ t, resolvePlatformTenant c requested opts = Ok t →
     t = ca_companyId c ∨
     (platformTenantCapable c = true ∧ t ∈ default [] (knownTenants opts))) ∧
  (platformTenantCapable c = false →
   ∀ ts, resolvePlatformTenantScope c requested opts = Ok ts → ts = [ca_companyId c]) ∧
  (platformTenantCapable c = true ↔
   ca_tenantOverrideEnabled c = true ∧ PLATFORM_TENANT_SCOPE ∈ ca_scopes c).
Proof.
  assert (H1 : ∀ req t, resolvePlatformTenant c req opts = Ok t →
     t = ca_companyId c ∨
     (platformTenantCapable c = true ∧ t ∈ default [] (knownTenants opts))).
  { intros req t. unfold resolvePlatformTenant.
    destruct (truthy _) as [target|]; [|naive_solver].
    case_bool_decide; [naive_solver|].
    destruct (platformTenantCapable c); simpl; [|done].
    case_bool_decide; simpl; [naive_solver|done]. }
  split_and!; [apply H1| |].
  - intros Hcap ts. unfold resolvePlatformTenantScope.
    destruct (truthy _) as [target|]; [|rewrite Hcap; naive_solver].
    destruct (resolvePlatformTenant c (Some target) opts) as [t|] eqn:E; simpl; [|done].
    intros ?; simplify_eq. apply H1 in E as [->|[? _]]; [done|congruence].
  - unfold platformTenantCapable. by rewrite andb_true_iff, bool_decide_eq_true.
Qed.

Lemma tenants_are_isolated_witness :
  let c := {| ca_companyId := "acme"; ca_scopes := ["brain:admin"];
              ca_tenantOverrideEnabled := true |} in
  let opts := {| knownTenants := Some ["acme"; "globex"]; fanOutTenants := None |} in
  resolvePlatformTenantScope c (Some " acme ") opts = Ok ["acme"] ∧
  is_ok (resolvePlatformTenantScope c (Some "globex") opts) = false ∧
  (resolvePlatformTenant c (Some "acme") opts = Ok "acme" →
   "acme" = ca_companyId c ∨ (platformTenantCapable c = true ∧ "acme" ∈ ["acme"; "globex"])).
Proof.
  intros c opts. split; [reflexivity|]. split; [reflexivity|].
  apply (tenants_are_isolated c (Some "acme") opts).
Defined.

(** ** Windows and scenes *)

(** The gates by shape, with the bound user. *)
Inductive window_gate : Type :=
| GateGlobal                       (* AND userId IS NONE *)
| GateLegacy (u : string)          (* AND (userId IS NONE OR userId = $u) *)
| GateMember (u : string).         (* the per-member gate *)

Definition segmentUserGate (fenceEnabled : bool) (userId : option string) : window_gate :=
  match truthy userId with
  | None => GateGlobal
  | Some u => if negb fenceEnabled then GateLegacy u else GateMember u
  end.

Definition sceneUserGate (userId : string) : window_gate := GateMember userId.

(** A stored window: its owner and its member set, each possibly [NONE]. *)
Record WindowRow := { wr_userId : option string; wr_userIds : option (list string) }.

Definition gate_admits (g : window_gate) (r : WindowRow) : bool :=
  match g with
  | GateGlobal => bool_decide (wr_userId r = None)
  | GateLegacy u => bool_decide (wr_userId r = None) || bool_decide (wr_userId r = Some u)
  | GateMember u =>
      bool_decide (wr_userId r = Some u) ||
      (bool_decide (wr_userId r = None) &&
       match wr_userIds r with
       | Some ms => (length ms =? 0) || bool_decide (u ∈ ms)
       | None => false
       end)
  end.

(** The re-check in JavaScript, on dynamic values. *)
Definition sceneVisibleToUser (owner members : jsval) (userId : string) : bool :=
  let absent :=
    if present owner then false
    else match members with
         | VArr l => (length l =? 0) || existsb (λ m, strict_eq m (VStr userId)) l
         | _ => false
         end in
  match owner with
  | VStr s => if negb (bool_decide (s = "")) then bool_decide (s = userId) else false
  | _ => absent
  end.

(** How a row reads in JavaScript: [NONE] is [undefined]. *)
Definition js_owner (r : WindowRow) : jsval :=
  match wr_userId r with Some s => VStr s | None => VUndef end.
Definition js_members (r : WindowRow) : jsval :=
  match wr_userIds r with Some ms => VArr (map VStr ms) | None => VUndef end.

(** The two fences of a scene agree: for every stored row and every named
    caller, the WHERE clause and the JavaScript re-check decide alike; and a
    window that has members is never served to a caller who is not one of them,
    while the legacy gate serves it to everyone. *)
Theorem scene_fences_agree r u :
  u ≠ "" →
  sceneVisibleToUser (js_owner r) (js_members r) u = gate_admits (sceneUserGate u) r ∧
  (∀ ms, wr_userId r = None → wr_userIds r = Some ms → ms ≠ [] → u ∉ ms →
     gate_admits (segmentUserGate true (Some u)) r = false ∧
     gate_admits (segmentUserGate false (Some u)) r = true).
Proof.
  intros Hu. split.
  - unfold sceneVisibleToUser, js_owner, js_members. simpl.
    destruct (wr_userId r) as [s|]; simpl.
    + rewrite orb_false_r.
      case_bool_decide as Hs; simpl.
      * subst s. symmetry. apply bool_decide_eq_false. congruence.
      * apply bool_decide_ext. naive_solver.
    + destruct (wr_userIds r) as [ms|]; simpl; [|done].
      rewrite length_map. f_equal. rewrite existsb_map, elem_of_existsb.
      apply existsb_ext_In. intros x _. simpl. apply bool_decide_ext. naive_solver.
  - intros ms Ho Hm Hne Hn. unfold segmentUserGate, truthy.
    rewrite bool_decide_eq_false_2 by done. simpl. rewrite Ho, Hm. simpl.
    split; [|done]. rewrite (bool_decide_eq_false_2 (u ∈ ms)) by done. by destruct ms.
Qed.

Lemma scene_fences_agree_witness :
  let r := {| wr_userId := None; wr_userIds := Some ["alice"; "bob"] |} in
  sceneVisibleToUser (js_owner r) (js_members r) "carol" = gate_admits (sceneUserGate "carol") r ∧
  gate_admits (sceneUserGate "carol") r = false.
Proof.
  intros r. split; [|reflexivity]. apply (scene_fences_agree r "carol"). discriminate.
Defined.
