(* ===== verification/LeaderLease.v ===== *)
(** * Leader leases

    [jobs/leader-lease.service.ts]: named leases in one table, acquired, renewed
    and released by the processes that compete for them. Each call is one
    transaction; [ll_now] is the datastore's clock, and a caller's own clock is an
    argument. A failed query, which every call answers as "not held", is left
    out. *)

From S2P Require Import Prelude.
Local Open Scope string_scope.
Local Open Scope nat_scope.

Record LeaseRow := {
  le_leaderId : string;
  le_leaseUntil : Z;
  le_heartbeatAt : Z;
  le_acquiredAt : Z;
  le_epoch : nat
}.

Record LeaseTable := { ll_rows : gmap string LeaseRow; ll_now : Z }.

Definition with_rows (t : LeaseTable) rows : LeaseTable := {| ll_rows := rows; ll_now := ll_now t |}.

(** The transaction of [acquire]; [jsNow] is the caller's [Date.now()]. *)
Definition acquire (me name : string) (ttlSeconds jsNow : Z) (t : LeaseTable) :
    LeaseTable * option nat :=
  let until := (jsNow + ttlSeconds * 1000)%Z in
  let row := ll_rows t !! name in
  let free := match row with
              | None => true
              | Some r => (le_leaseUntil r <? ll_now t)%Z || bool_decide (le_leaderId r = me)
              end in
  if free then
    let epoch := match row with
                 | Some r => if bool_decide (le_leaderId r = me) then le_epoch r
                             else le_epoch r + 1
                 | None => 0 + 1
                 end in
    (with_rows t (<[name := {| le_leaderId := me; le_leaseUntil := until;
                               le_heartbeatAt := ll_now t;
                               le_acquiredAt := match row with
                                                | Some r => le_acquiredAt r
                                                | None => ll_now t
                                                end;
                               le_epoch := epoch |}]> (ll_rows t)), Some epoch)
  else (t, None).

Definition tryAcquire me name ttlSeconds jsNow t : LeaseTable * bool :=
  let '(t', e) := acquire me name ttlSeconds jsNow t in
  (t', match e with Some _ => true | None => false end).

Definition isHeld (me name : string) (epoch : option nat) (jsNow : Z) (t : LeaseTable) : bool :=
  match ll_rows t !! name with
  | None => false
  | Some r =>
      if negb (bool_decide (le_leaderId r = me)) then false
      else if (le_leaseUntil r <=? jsNow)%Z then false
      else match epoch with None => true | Some e => le_epoch r =? e end
  end.

Definition release (me name : string) (t : LeaseTable) : LeaseTable :=
  match ll_rows t !! name with
  | Some r => if bool_decide (le_leaderId r = me)
              then with_rows t (delete name (ll_rows t)) else t
  | None => t
  end.

(** [list] *)
Definition list_leases (t : LeaseTable) : list (string * LeaseRow) := map_to_list (ll_rows t).

(** ** Histories *)

(** One process's call, with its own clock, or time passing at the datastore. *)
Inductive lease_event : Type :=
| EvAcquire (me name : string) (ttlSeconds jsNow : Z)
| EvRelease (me name : string)
| EvTime (now : Z).

Definition lease_step (t : LeaseTable) (e : lease_event) : LeaseTable :=
  match e with
  | EvAcquire me name ttl js => (acquire me name ttl js t).1
  | EvRelease me name => release me name t
  | EvTime now => {| ll_rows := ll_rows t; ll_now := Z.max now (ll_now t) |}
  end.

(** The events of other processes, before the deadline. *)
Definition foreign_before (me name : string) (deadline : Z) (e : lease_event) : bool :=
  match e with
  | EvAcquire who _ _ _ => negb (bool_decide (who = me))
  | EvRelease who _ => negb (bool_decide (who = me))
  | EvTime now => (now <=? deadline)%Z
  end.

Definition held_by (me name : string) (deadline : Z) (epoch : nat) (t : LeaseTable) : Prop :=
  (ll_now t <= deadline)%Z ∧
  ∃ r, ll_rows t !! name = Some r ∧ le_leaderId r = me ∧ le_leaseUntil r = deadline ∧
       le_epoch r = epoch.

Lemma held_step me name deadline epoch t e :
  foreign_before me name deadline e = true →
  held_by me name deadline epoch t → held_by me name deadline epoch (lease_step t e).
Proof.
  intros Hf (Hn & r & Hr & Hl & Hu & He).
  destruct e as [who n ttl js|who n|now]; simpl in *.
  - apply negb_true_iff, bool_decide_eq_false in Hf. unfold acquire.
    destruct (decide (n = name)) as [->|Hne].
    + rewrite Hr. rewrite (proj2 (Z.ltb_ge _ _)) by lia.
      rewrite bool_decide_eq_false_2 by congruence. simpl. split; [done|by exists r].
    + destruct (match ll_rows t !! n with None => _ | Some _ => _ end);
        (split; [done|]); exists r; [|done]. cbn [fst with_rows ll_rows].
        by rewrite lookup_insert_ne.
  - apply negb_true_iff, bool_decide_eq_false in Hf. unfold release.
    destruct (ll_rows t !! n) as [r'|] eqn:En; [|by split; [|exists r]].
    case_bool_decide as Hw; [|by split; [|exists r]].
    split; [done|]. exists r. simpl. rewrite lookup_delete_ne; [done|].
    intros ->. congruence.
  - apply Z.leb_le in Hf. split; simpl; [lia|by exists r].
Qed.

(** C21. Mutual exclusion: once a process has acquired a lease, then until its
    deadline and as long as it does not release, whatever every other process
    does on this or any lease, nobody else acquires it and the holder's own check
    at its epoch keeps answering yes. *)
Theorem lease_is_exclusive me name ttl js t t1 epoch es other ttl' js' jsCheck :
  acquire me name ttl js t = (t1, Some epoch) →
  (ll_now t <= js + ttl * 1000)%Z →
  forallb (foreign_before me name (js + ttl * 1000)) es = true →
  other ≠ me →
  let t2 := fold_left lease_step es t1 in
  (acquire other name ttl' js' t2).2 = None ∧
  isHeld other name None jsCheck t2 = false ∧
  ((jsCheck < js + ttl * 1000)%Z → isHeld me name (Some epoch) jsCheck t2 = true).
Proof.
  intros Ha Hnow Hes Hne t2.
  assert (H1 : held_by me name (js + ttl * 1000) epoch t1).
  { unfold acquire in Ha.
    destruct (match ll_rows t !! name with None => _ | Some _ => _ end); [|done].
    simplify_eq. split; [done|]. simpl. rewrite lookup_insert_eq. eauto. }
  assert (H2 : held_by me name (js + ttl * 1000) epoch t2).
  { subst t2. clear Ha. revert t1 H1. induction es as [|e es IH]; intros t1 H1; simpl; [done|].
    simpl in Hes. apply andb_true_iff in Hes as [He Hes].
    by apply IH, held_step. }
  destruct H2 as (Hn & r & Hr & Hl & Hu & He). split_and!.
  - unfold acquire. rewrite Hr. rewrite (proj2 (Z.ltb_ge _ _)) by lia.
    by rewrite bool_decide_eq_false_2 by congruence.
  - unfold isHeld. rewrite Hr. by rewrite bool_decide_eq_false_2 by congruence.
  - intros Hc. unfold isHeld. rewrite Hr, bool_decide_eq_true_2 by done. simpl.
    rewrite (proj2 (Z.leb_gt _ _)) by lia. apply Nat.eqb_eq. done.
Qed.

Definition empty_leases : LeaseTable := {| ll_rows := ∅; ll_now := 0 |}.

Lemma lease_is_exclusive_witness :
  let t1 := (acquire "a" "worker_loop" 90 0 empty_leases).1 in
  let es := [EvAcquire "b" "worker_loop" 90 5; EvTime 60000; EvRelease "b" "worker_loop"] in
  (acquire "b" "worker_loop" 90 60000 (fold_left lease_step es t1)).2 = None ∧
  isHeld "b" "worker_loop" None 60000 (fold_left lease_step es t1) = false ∧
  ((60000 < 0 + 90 * 1000)%Z →
   isHeld "a" "worker_loop" (Some 1) 60000 (fold_left lease_step es t1) = true).
Proof.
  intros t1 es.
  apply (lease_is_exclusive "a" "worker_loop" 90 0 empty_leases t1 1 es "b" 90 60000 60000);
    [reflexivity|vm_compute; discriminate|reflexivity|discriminate].
Defined.

(** ** Epochs *)

Definition epoch_of (name : string) (t : LeaseTable) : nat :=
  match ll_rows t !! name with Some r => le_epoch r | None => 0 end.

Definition no_release (name : string) (e : lease_event) : bool :=
  match e with EvRelease _ n => negb (bool_decide (n = name)) | _ => true end.

Lemma epoch_step name t e :
  no_release name e = true → epoch_of name t ≤ epoch_of name (lease_step t e).
Proof.
  intros Hr. unfold epoch_of. destruct e as [who n ttl js|who n|now]; simpl in *.
  - unfold acquire. destruct (decide (n = name)) as [->|Hne].
    + destruct (ll_rows t !! name) as [r|] eqn:E.
      * destruct (_ || _); simpl; [|by rewrite E]. rewrite lookup_insert_eq. simpl.
        case_bool_decide; lia.
      * simpl. rewrite lookup_insert_eq. simpl. lia.
    + destruct (match ll_rows t !! n with None => _ | Some _ => _ end); simpl; [|done].
      by rewrite lookup_insert_ne.
  - apply negb_true_iff, bool_decide_eq_false in Hr. unfold release.
    destruct (ll_rows t !! n); [|done]. case_bool_decide; [|done]. simpl.
    by rewrite lookup_delete_ne.
  - done.
Qed.

(** Fencing epochs: while the lease's row is not deleted, its epoch never
    goes down, a change of holder takes it strictly up, and a renewal by the
    holder leaves it alone. *)
Theorem epochs_grow_without_release name t es me ttl js :
  forallb (no_release name) es = true →
  let t2 := fold_left lease_step es t in
  epoch_of name t ≤ epoch_of name t2 ∧
  (∀ e, (acquire me name ttl js t2).2 = Some e →
     match ll_rows t2 !! name with
     | Some r => if bool_decide (le_leaderId r = me) then e = epoch_of name t2
                 else epoch_of name t2 < e
     | None => e = 1
     end).
Proof.
  intros Hes t2. split.
  - subst t2. revert t. induction es as [|e es IH]; intros t; simpl; [lia|].
    simpl in Hes. apply andb_true_iff in Hes as [He Hes].
    etrans; [by apply (epoch_step name t e)|by apply IH].
  - intros e. unfold acquire, epoch_of.
    destruct (ll_rows t2 !! name) as [r|]; [|by intros; simplify_eq/=].
    destruct (_ || _); [|done]. intros; simplify_eq/=. case_bool_decide; lia.
Qed.

Lemma epochs_grow_without_release_witness :
  let t := (acquire "a" "worker_loop" 90 0 empty_leases).1 in
  let es := [EvTime 100000; EvAcquire "b" "worker_loop" 90 100000] in
  epoch_of "worker_loop" t ≤ epoch_of "worker_loop" (fold_left lease_step es t) ∧
  epoch_of "worker_loop" (fold_left lease_step es t) = 2.
Proof.
  intros t es. split; [|reflexivity].
  apply (epochs_grow_without_release "worker_loop" t es "a" 90 0). reflexivity.
Defined.

(** The epoch does not count acquisitions across a release or a lost table:
    the row takes its counter with it, and the next holder starts at one again.
    Two tenures of one process, separated by another process's tenure, can carry
    the same fencing token. *)
Theorem release_reuses_the_epoch t js :
  ll_rows t !! "worker_loop" = None →
  let a1 := acquire "a" "worker_loop" 90 js t in
  let b := acquire "b" "worker_loop" 90 js (release "a" "worker_loop" a1.1) in
  let a2 := acquire "a" "worker_loop" 90 js (release "b" "worker_loop" b.1) in
  a1.2 = Some 1 ∧ b.2 = Some 1 ∧ a2.2 = Some 1.
Proof.
  intros Hn a1 b a2.
  assert (Hacq : ∀ me t, ll_rows t !! "worker_loop" = None →
    (acquire me "worker_loop" 90 js t).2 = Some 1 ∧
    ll_rows (release me "worker_loop" (acquire me "worker_loop" 90 js t).1) !! "worker_loop" = None).
  { intros me t' H. unfold acquire, release. rewrite H. simpl. rewrite lookup_insert_eq. simpl.
    rewrite bool_decide_eq_true_2 by done. simpl. by rewrite lookup_delete_eq. }
  destruct (Hacq "a" t Hn) as [Ha Ha']. destruct (Hacq "b" _ Ha') as [Hb Hb'].
  destruct (Hacq "a" _ Hb') as [Hc _]. done.
Qed.

Lemma release_reuses_the_epoch_witness :
  let a1 := acquire "a" "worker_loop" 90 0 empty_leases in
  let b := acquire "b" "worker_loop" 90 0 (release "a" "worker_loop" a1.1) in
  a1.2 = Some 1 ∧ b.2 = Some 1 ∧
  (acquire "a" "worker_loop" 90 0 (release "b" "worker_loop" b.1)).2 = Some 1.
Proof. apply (release_reuses_the_epoch empty_leases 0). reflexivity. Defined.
