(* ===== verification/JobQueue.v ===== *)
(** * The job queue

    [jobs/job-claim.service.ts] over the [job_run] table, with the stored function
    [fn::reap_zombies] it calls: enqueue, claim, renew, the terminal writes and the
    reaper, as programs whose database statements interleave with those of every
    other worker. The backoff's random delay and a caller's clock are arguments;
    failing queries, tracing and the display projection are left out. *)

From S2P Require Import Prelude Js Resume.
Local Open Scope string_scope.
Local Open Scope nat_scope.

Inductive JobStatus : Type := Pending | Running | Succeeded | Failed | Cancelled.

#[export] Instance JobStatus_eq_dec : EqDecision JobStatus.
Proof. solve_decision. Defined.

Record JobRow := {
  jr_runId : string;
  jr_jobType : string;
  jr_status : JobStatus;
  jr_dedupKey : option string;
  jr_visibleAfter : Z;
  jr_attempts : nat;
  jr_claimedBy : option string;
  jr_claimedAt : option Z;
  jr_leaseUntil : option Z;
  jr_heartbeatAt : option Z;
  jr_claimEpoch : option nat;
  jr_finishedAt : option Z;
  jr_cancelRequested : bool;
  jr_error : option string;
  jr_result : option jsval;
  jr_payload : option jsval
}.

(** The table by record id, and the datastore's clock. *)
Record Queue := { q_rows : gmap nat JobRow; q_now : Z }.

Definition with_rows (q : Queue) rows : Queue := {| q_rows := rows; q_now := q_now q |}.

Record JobClaim := {
  jc_recordId : nat;
  jc_runId : string;
  jc_jobType : string;
  jc_attempts : nat;
  jc_payload : option jsval;
  jc_leaseUntil : Z;
  jc_claimEpoch : option nat
}.

(** ** Enqueue *)

Record EnqueueInput := {
  en_jobType : string;
  en_dedupKey : option string;
  en_payload : option jsval;
  en_visibleAfter : option Z
}.

Definition same_dedup (jobType : string) (dedupKey : option string) (r : JobRow) : bool :=
  match dedupKey with
  | Some k => bool_decide (jr_jobType r = jobType) && bool_decide (jr_dedupKey r = Some k)
  | None => false
  end.

Definition any_row (p : JobRow → bool) (q : Queue) : bool :=
  existsb (λ kv, p kv.2) (map_to_list (q_rows q)).

Definition pending_row (runId : string) (i : EnqueueInput) (now : Z) : JobRow :=
  {| jr_runId := runId; jr_jobType := en_jobType i; jr_status := Pending;
     jr_dedupKey := en_dedupKey i; jr_visibleAfter := default now (en_visibleAfter i);
     jr_attempts := 0; jr_claimedBy := None; jr_claimedAt := None; jr_leaseUntil := None;
     jr_heartbeatAt := None; jr_claimEpoch := None; jr_finishedAt := None;
     jr_cancelRequested := false; jr_error := None; jr_result := None;
     jr_payload := en_payload i |}.

(** [CREATE job_run CONTENT ...] under the two UNIQUE indexes: [runId], and
    [(jobType, dedupKey)], from which rows without a key are exempt. *)
Definition create_job (runId : string) (i : EnqueueInput) (q : Queue) : Queue * bool :=
  if any_row (λ r, bool_decide (jr_runId r = runId) ||
                   same_dedup (en_jobType i) (en_dedupKey i) r) q
  then (q, false)
  else (with_rows q (<[fresh (dom (q_rows q)) := pending_row runId i (q_now q)]> (q_rows q)), true).

(** [retryOnUniqueViolation]: up to seven tries. *)
Fixpoint create_retrying (tries : nat) (runId : string) (i : EnqueueInput) : prog Queue bool :=
  match tries with
  | O => Done false
  | S n => do* ok := update (create_job runId i) in
           if ok : bool then Done true else create_retrying n runId i
  end.

Definition findByDedup (jobType dedupKey : string) : prog Queue (option string) :=
  query (λ q, (λ kv, jr_runId kv.2) <$>
    find_first (λ kv, same_dedup jobType (Some dedupKey) kv.2) (map_to_list (q_rows q))).

(** [runId] is the fresh UUID. *)
Definition enqueue (runId : string) (i : EnqueueInput) : prog Queue (result http_exn (string * bool)) :=
  do* created := create_retrying 7 runId i in
  if created : bool then Done (Ok (runId, true))
  else
    match en_dedupKey i with
    | Some k =>
        if bool_decide (k = "") then Done (Throw (Internal "index already contains"))
        else
          do* existing := findByDedup (en_jobType i) k in
          match existing with
          | Some id => if bool_decide (id = "") then Done (Throw (Internal "index already contains"))
                       else Done (Ok (id, false))
          | None => Done (Throw (Internal "index already contains"))
          end
    | None => Done (Throw (Internal "index already contains"))
    end.

(** ** Claim *)

Definition claimable (jobType : string) (now : Z) (r : JobRow) : bool :=
  bool_decide (jr_status r = Pending) && (jr_visibleAfter r <=? now)%Z &&
  bool_decide (jr_jobType r = jobType).

(** The oldest of the rows; [ORDER BY visibleAfter ASC LIMIT 1]. *)
Definition older (a b : nat * JobRow) : nat * JobRow :=
  if (jr_visibleAfter b.2 <? jr_visibleAfter a.2)%Z then b else a.

Definition oldest (l : list (nat * JobRow)) : option (nat * JobRow) :=
  match l with [] => None | x :: l' => Some (fold_left older l' x) end.

Definition candidate (jobType : string) (q : Queue) : option nat :=
  fst <$> oldest (List.filter (λ kv, claimable jobType (q_now q) kv.2) (map_to_list (q_rows q))).

Definition claim_row (me : string) (epoch : option nat) (until now : Z) (r : JobRow) : JobRow :=
  {| jr_runId := jr_runId r; jr_jobType := jr_jobType r; jr_status := Running;
     jr_dedupKey := jr_dedupKey r; jr_visibleAfter := jr_visibleAfter r;
     jr_attempts := jr_attempts r + 1; jr_claimedBy := Some me; jr_claimedAt := Some now;
     jr_leaseUntil := Some until; jr_heartbeatAt := Some now; jr_claimEpoch := epoch;
     jr_finishedAt := jr_finishedAt r; jr_cancelRequested := jr_cancelRequested r;
     jr_error := jr_error r; jr_result := jr_result r; jr_payload := jr_payload r |}.

(** [UPDATE type::record($rid) SET ... WHERE guard RETURN AFTER] *)
Definition update_where (rid : nat) (guard : JobRow → bool) (f : JobRow → JobRow) (q : Queue) :
    Queue * option JobRow :=
  match q_rows q !! rid with
  | Some r => if guard r then (with_rows q (<[rid := f r]> (q_rows q)), Some (f r)) else (q, None)
  | None => (q, None)
  end.

Definition claim_cas (me : string) (epoch : option nat) (until : Z) (rid : nat) (q : Queue) :
    Queue * option JobRow :=
  update_where rid
    (λ r, bool_decide (jr_status r = Pending) && (jr_visibleAfter r <=? q_now q)%Z)
    (claim_row me epoch until (q_now q)) q.

Definition toClaim (rid : nat) (row : JobRow) (epoch : option nat) : option JobClaim :=
  if bool_decide (jr_runId row = "") then None
  else Some {| jc_recordId := rid; jc_runId := jr_runId row; jc_jobType := jr_jobType row;
               jc_attempts := jr_attempts row; jc_payload := jr_payload row;
               jc_leaseUntil := default 0%Z (jr_leaseUntil row); jc_claimEpoch := epoch |}.

Fixpoint claim_loop (attempt : nat) (me jobType : string) (epoch : option nat) (until : Z) :
    prog Queue (option JobClaim) :=
  match attempt with
  | O => Done None
  | S n =>
      do* rid := query (candidate jobType) in
      match rid with
      | None => Done None
      | Some rid =>
          do* row := update (claim_cas me epoch until rid) in
          match row with
          | Some row => Done (toClaim rid row epoch)
          | None => claim_loop n me jobType epoch until
          end
      end
  end.

(** [until] is the caller's clock plus the ttl. *)
Definition claimNext (me jobType : string) (epoch : option nat) (until : Z) :
    prog Queue (option JobClaim) :=
  claim_loop 3 me jobType epoch until.

(** ** Writes on a claim *)

Definition ownerGuard (me : string) (claimEpoch : option nat) (r : JobRow) : bool :=
  bool_decide (jr_claimedBy r = Some me) && bool_decide (jr_status r = Running) &&
  bool_decide (jr_claimEpoch r = claimEpoch).

(** A row that leaves the running state, its claim cleared. *)
Definition unclaimed (status : JobStatus) (visibleAfter : Z) (finishedAt : option Z)
    (error : option string) (res : option jsval) (r : JobRow) : JobRow :=
  {| jr_runId := jr_runId r; jr_jobType := jr_jobType r; jr_status := status;
     jr_dedupKey := jr_dedupKey r; jr_visibleAfter := visibleAfter;
     jr_attempts := jr_attempts r; jr_claimedBy := None; jr_claimedAt := jr_claimedAt r;
     jr_leaseUntil := None; jr_heartbeatAt := jr_heartbeatAt r; jr_claimEpoch := None;
     jr_finishedAt := finishedAt; jr_cancelRequested := jr_cancelRequested r;
     jr_error := error; jr_result := res; jr_payload := jr_payload r |}.

Definition renew_row (until now : Z) (r : JobRow) : JobRow :=
  {| jr_runId := jr_runId r; jr_jobType := jr_jobType r; jr_status := jr_status r;
     jr_dedupKey := jr_dedupKey r; jr_visibleAfter := jr_visibleAfter r;
     jr_attempts := jr_attempts r; jr_claimedBy := jr_claimedBy r;
     jr_claimedAt := jr_claimedAt r; jr_leaseUntil := Some until;
     jr_heartbeatAt := Some now; jr_claimEpoch := jr_claimEpoch r;
     jr_finishedAt := jr_finishedAt r; jr_cancelRequested := jr_cancelRequested r;
     jr_error := jr_error r; jr_result := jr_result r; jr_payload := jr_payload r |}.

Record Renewal := { stillOwned : bool; cancelRequested : bool }.

Definition renew (me : string) (rid : nat) (epoch : option nat) (until : Z) : prog Queue Renewal :=
  do* row := update (λ q, update_where rid (ownerGuard me epoch) (renew_row until (q_now q)) q) in
  Done (match row with
        | None => {| stillOwned := false; cancelRequested := false |}
        | Some r => {| stillOwned := true; cancelRequested := jr_cancelRequested r |}
        end).

Definition complete (me : string) (rid : nat) (epoch : option nat) (res : option jsval) :
    prog Queue bool :=
  do* row := update (λ q, update_where rid (ownerGuard me epoch)
      (λ r, unclaimed Succeeded (jr_visibleAfter r) (Some (q_now q)) (jr_error r) res r) q) in
  Done (bool_decide (row ≠ None)).

Definition cancelled (me : string) (rid : nat) (epoch : option nat) (res : option jsval) :
    prog Queue bool :=
  do* row := update (λ q, update_where rid (ownerGuard me epoch)
      (λ r, unclaimed Cancelled (jr_visibleAfter r) (Some (q_now q)) (jr_error r) res r) q) in
  Done (bool_decide (row ≠ None)).

(** [visibleAfter] is the caller's clock plus the jittered backoff. *)
Definition fail (me : string) (rid : nat) (epoch : option nat) (attempts : nat) (err : string)
    (requeue : option bool) (maxAttempts : option nat) (visibleAfter : Z) (res : option jsval) :
    prog Queue bool :=
  let maxAttempts := default 3 maxAttempts in
  let willRequeue := negb (bool_decide (requeue = Some false)) && (attempts <? maxAttempts) in
  do* row := update (λ q, update_where rid (ownerGuard me epoch)
      (λ r, if willRequeue
            then unclaimed Pending visibleAfter (jr_finishedAt r) (Some err) (jr_result r) r
            else unclaimed Failed (jr_visibleAfter r) (Some (q_now q)) (Some err) res r) q) in
  Done (bool_decide (row ≠ None) && willRequeue).

Definition release (me : string) (rid : nat) (epoch : option nat) (reason : string) :
    prog Queue bool :=
  do* row := update (λ q, update_where rid (ownerGuard me epoch)
      (λ r, unclaimed Pending (q_now q) (jr_finishedAt r) (Some reason) (jr_result r) r) q) in
  Done (bool_decide (row ≠ None)).

(** ** The reaper *)

Definition lapsed (now : Z) (r : JobRow) : bool :=
  bool_decide (jr_status r = Running) &&
  match jr_leaseUntil r with Some u => (u <? now)%Z | None => false end.

Definition REAP_LIMIT : nat := 200.

(** A reaped row keeps its [claimEpoch]: the function clears the owner and the
    lease only. *)
Definition reaped (status : JobStatus) (visibleAfter : Z) (finishedAt : option Z)
    (error : string) (r : JobRow) : JobRow :=
  {| jr_runId := jr_runId r; jr_jobType := jr_jobType r; jr_status := status;
     jr_dedupKey := jr_dedupKey r; jr_visibleAfter := visibleAfter;
     jr_attempts := jr_attempts r; jr_claimedBy := None; jr_claimedAt := jr_claimedAt r;
     jr_leaseUntil := None; jr_heartbeatAt := jr_heartbeatAt r;
     jr_claimEpoch := jr_claimEpoch r; jr_finishedAt := finishedAt;
     jr_cancelRequested := jr_cancelRequested r; jr_error := Some error;
     jr_result := jr_result r; jr_payload := jr_payload r |}.

(** [fn::reap_zombies]: the two set-based updates of one transaction. [delay] is
    the backoff of a row in milliseconds. *)
Definition reap_row (maxAttempts : nat) (delay : JobRow → Z) (now : Z) (r : JobRow) : JobRow :=
  if negb (lapsed now r) then r
  else if jr_attempts r <? maxAttempts
  then reaped Pending (now + delay r)%Z (jr_finishedAt r) "ZombieReclaim" r
  else reaped Failed (jr_visibleAfter r) (Some now) "ZombieAbandoned" r.

Definition reap_ids (q : Queue) : list nat :=
  take REAP_LIMIT (map fst (List.filter (λ kv, lapsed (q_now q) kv.2) (map_to_list (q_rows q)))).

Definition reap (maxAttempts : nat) (delay : JobRow → Z) (q : Queue) : Queue :=
  with_rows q (fold_left (λ m id, alter (reap_row maxAttempts delay (q_now q)) id m)
                 (reap_ids q) (q_rows q)).

Definition reapZombies (maxAttempts : option nat) (delay : JobRow → Z) : prog Queue unit :=
  exec (reap (default 3 maxAttempts) delay).

(** Time passes at the datastore. *)
Definition tick (t : Z) : prog Queue unit :=
  exec (λ q, {| q_rows := q_rows q; q_now := Z.max t (q_now q) |}).

(** ** Well-formed queues *)

(** A row is claimed, under a lease, exactly while it runs; and it has been
    attempted once it has left the pending state. *)
Definition row_ok (r : JobRow) : Prop :=
  (jr_status r = Running ↔ jr_claimedBy r ≠ None) ∧
  (jr_status r = Running ↔ jr_leaseUntil r ≠ None) ∧
  (jr_status r ≠ Pending → 1 ≤ jr_attempts r).

Definition distinct (r1 r2 : JobRow) : Prop :=
  jr_runId r1 ≠ jr_runId r2 ∧
  ∀ k, jr_dedupKey r1 = Some k → jr_dedupKey r2 = Some k → jr_jobType r1 ≠ jr_jobType r2.

Definition queue_ok (q : Queue) : Prop :=
  (∀ id r, q_rows q !! id = Some r → row_ok r) ∧
  (∀ id1 id2 r1 r2, q_rows q !! id1 = Some r1 → q_rows q !! id2 = Some r2 →
     id1 ≠ id2 → distinct r1 r2).

(** The fields no write changes. *)
Definition same_identity (r r' : JobRow) : Prop :=
  jr_runId r' = jr_runId r ∧ jr_jobType r' = jr_jobType r ∧ jr_dedupKey r' = jr_dedupKey r.

Lemma distinct_mono r1 r1' r2 r2' :
  same_identity r1 r1' → same_identity r2 r2' → distinct r1 r2 → distinct r1' r2'.
Proof.
  intros (E1 & E2 & E3) (F1 & F2 & F3) [H1 H2]. unfold distinct.
  rewrite E1, E2, E3, F1, F2, F3. done.
Qed.

(** Rewriting one row in place. *)
Lemma rewrite_row_ok q id r r' :
  queue_ok q → q_rows q !! id = Some r → same_identity r r' → row_ok r' →
  queue_ok (with_rows q (<[id := r']> (q_rows q))).
Proof.
  intros [Hr Hd] Hid Hs Hok. split; cbn [with_rows q_rows].
  - intros i x. destruct (decide (id = i)) as [->|Hne].
    + rewrite lookup_insert_eq. intros; by simplify_eq.
    + rewrite lookup_insert_ne by done. apply Hr.
  - intros i j x y Hx Hy Hij.
    assert (Hsame : ∀ k z, <[id := r']> (q_rows q) !! k = Some z →
      ∃ z0, q_rows q !! k = Some z0 ∧ same_identity z0 z).
    { intros k z. destruct (decide (id = k)) as [->|Hne].
      - rewrite lookup_insert_eq. intros; simplify_eq. eauto.
      - rewrite lookup_insert_ne by done. intros. exists z. by split. }
    destruct (Hsame _ _ Hx) as (x0 & Hx0 & Sx). destruct (Hsame _ _ Hy) as (y0 & Hy0 & Sy).
    by apply (distinct_mono x0 x y0 y), (Hd i j).
Qed.

Lemma update_where_ok rid guard f q :
  (∀ r, row_ok r → guard r = true → row_ok (f r) ∧ same_identity r (f r)) →
  queue_ok q → queue_ok (update_where rid guard f q).1.
Proof.
  intros Hf Hq. unfold update_where. destruct (q_rows q !! rid) as [r|] eqn:E; [|done].
  destruct (guard r) eqn:Eg; [|done]. cbn [fst].
  destruct (Hf r (proj1 Hq _ _ E) Eg). by eapply rewrite_row_ok.
Qed.

Lemma owner_attempts me e r : row_ok r → ownerGuard me e r = true → 1 ≤ jr_attempts r.
Proof.
  intros (_ & _ & H) Hg. unfold ownerGuard in Hg.
  rewrite !andb_true_iff, !bool_decide_eq_true in Hg. apply H. intuition congruence.
Qed.

Lemma unclaimed_ok st va fin err res r :
  st ≠ Running → 1 ≤ jr_attempts r →
  row_ok (unclaimed st va fin err res r) ∧ same_identity r (unclaimed st va fin err res r).
Proof. intros Hst Ha. split; [|done]. unfold row_ok; simpl. naive_solver. Qed.

Lemma claim_row_ok me e until now r :
  row_ok (claim_row me e until now r) ∧ same_identity r (claim_row me e until now r).
Proof. split; [|done]. unfold row_ok; simpl. split_and!; [done|done|]. intros; lia. Qed.

Lemma renew_row_ok until now r :
  row_ok r → jr_status r = Running →
  row_ok (renew_row until now r) ∧ same_identity r (renew_row until now r).
Proof. intros (H1 & H2 & H3) Hs. split; [|done]. unfold row_ok; simpl. naive_solver. Qed.

Lemma reap_row_ok mx delay now r :
  row_ok r → row_ok (reap_row mx delay now r) ∧ same_identity r (reap_row mx delay now r).
Proof.
  intros Hok. unfold reap_row. destruct (lapsed now r) eqn:E; [|done]. simpl.
  assert (Ha : 1 ≤ jr_attempts r).
  { apply Hok. unfold lapsed in E. apply andb_true_iff in E as [E%bool_decide_eq_true _].
    congruence. }
  destruct (jr_attempts r <? mx); (split; [|done]); unfold row_ok; simpl; naive_solver.
Qed.

Lemma alter_rows_ok f q id :
  (∀ r, row_ok r → row_ok (f r) ∧ same_identity r (f r)) →
  queue_ok q → queue_ok (with_rows q (alter f id (q_rows q))).
Proof.
  intros Hf Hq. destruct (q_rows q !! id) as [r|] eqn:E.
  - replace (alter f id (q_rows q)) with (<[id := f r]> (q_rows q)).
    + destruct (Hf r (proj1 Hq _ _ E)). by eapply rewrite_row_ok.
    + apply map_eq. intros i. destruct (decide (id = i)) as [->|Hne].
      * by rewrite lookup_insert_eq, lookup_alter_eq, E.
      * by rewrite lookup_insert_ne, lookup_alter_ne.
  - rewrite alter_id'; [by destruct q|done].
Qed.

Lemma reap_ok mx delay q : queue_ok q → queue_ok (reap mx delay q).
Proof.
  intros Hq. unfold reap.
  assert (H : ∀ ids m, queue_ok (with_rows q m) →
    queue_ok (with_rows q (fold_left
      (λ m id, alter (reap_row mx delay (q_now q)) id m) ids m))).
  { induction ids as [|id ids IH]; intros m Hm; simpl; [done|].
    apply IH. apply (alter_rows_ok _ (with_rows q m)); [|done].
    intros r. apply reap_row_ok. }
  apply H. by destruct q.
Qed.

Lemma any_row_false p q :
  any_row p q = false ↔ ∀ id r, q_rows q !! id = Some r → p r = false.
Proof.
  unfold any_row. rewrite existsb_false_In. split.
  - intros H id r Hr. apply (H (id, r)). by apply elem_of_map_to_list.
  - intros H [id r] Hr. apply elem_of_map_to_list in Hr. by apply (H id).
Qed.

Lemma create_job_ok runId i q : queue_ok q → queue_ok (create_job runId i q).1.
Proof.
  intros [Hr Hd]. unfold create_job. destruct (any_row _ q) eqn:E; [done|].
  rewrite any_row_false in E. cbn [fst].
  set (new := fresh (dom (q_rows q))).
  assert (Hnew : q_rows q !! new = None)
    by (apply not_elem_of_dom; unfold new; apply is_fresh).
  assert (Hdist : ∀ id r, q_rows q !! id = Some r →
    distinct (pending_row runId i (q_now q)) r ∧ distinct r (pending_row runId i (q_now q))).
  { intros id r Hir. specialize (E id r Hir).
    apply orb_false_iff in E as [E1%bool_decide_eq_false E2].
    unfold distinct; simpl. split; (split; [congruence|]); intros k Hk Hk' Heq;
      rewrite ?Hk, ?Hk' in E2; simpl in E2;
      rewrite (bool_decide_eq_true_2 (jr_jobType r = en_jobType i)) in E2 by congruence;
      rewrite bool_decide_eq_true_2 in E2 by congruence; done. }
  split; cbn [with_rows q_rows].
  - intros id r. destruct (decide (new = id)) as [<-|Hne].
    + rewrite lookup_insert_eq. intros; simplify_eq. unfold row_ok; simpl. naive_solver.
    + rewrite lookup_insert_ne by done. apply Hr.
  - intros i1 i2 r1 r2. destruct (decide (new = i1)) as [<-|H1], (decide (new = i2)) as [<-|H2];
      rewrite ?lookup_insert_eq; rewrite ?lookup_insert_ne by done; intros; simplify_eq.
    + by apply (Hdist i2).
    + by apply (Hdist i1).
    + by apply (Hd i1 i2).
Qed.

#[export] Hint Resolve reap_ok create_job_ok : brain.

(** ** Every call, every interleaving *)

Inductive job_call : Type :=
| CallEnqueue (runId : string) (i : EnqueueInput)
| CallClaim (me jobType : string) (epoch : option nat) (until : Z)
| CallRenew (me : string) (rid : nat) (epoch : option nat) (until : Z)
| CallComplete (me : string) (rid : nat) (epoch : option nat) (res : option jsval)
| CallCancelled (me : string) (rid : nat) (epoch : option nat) (res : option jsval)
| CallFail (me : string) (rid : nat) (epoch : option nat) (attempts : nat) (err : string)
    (requeue : option bool) (maxAttempts : option nat) (visibleAfter : Z) (res : option jsval)
| CallRelease (me : string) (rid : nat) (epoch : option nat) (reason : string)
| CallReap (maxAttempts : option nat) (delay : JobRow → Z)
| CallTick (t : Z).

(** The call, reduced to the claim it obtains, if any. *)
Definition call_claim (c : job_call) : prog Queue (option JobClaim) :=
  let quiet {A} (p : prog Queue A) := pbind p (λ _, Done None) in
  match c with
  | CallEnqueue r i => quiet (enqueue r i)
  | CallClaim me jt e u => claimNext me jt e u
  | CallRenew me rid e u => quiet (renew me rid e u)
  | CallComplete me rid e r => quiet (complete me rid e r)
  | CallCancelled me rid e r => quiet (cancelled me rid e r)
  | CallFail me rid e a err rq mx va r => quiet (fail me rid e a err rq mx va r)
  | CallRelease me rid e why => quiet (release me rid e why)
  | CallReap mx d => quiet (reapZombies mx d)
  | CallTick t => quiet (tick t)
  end.

(** What a statement must respect for the calls to respect it. *)
Record respects (I : Queue → Prop) : Prop := {
  re_create : ∀ runId i q, I q → I (create_job runId i q).1;
  re_claim : ∀ me e u rid q, I q → I (claim_cas me e u rid q).1;
  re_owner : ∀ me e rid f q,
    (∀ r, ownerGuard me e r = true → row_ok r → row_ok (f r)) →
    (∀ r, same_identity r (f r) ∧ jr_attempts (f r) = jr_attempts r) →
    I q → I (update_where rid (ownerGuard me e) f q).1;
  re_reap : ∀ mx d q, I q → I (reap mx d q);
  re_tick : ∀ t q, I q → I {| q_rows := q_rows q; q_now := Z.max t (q_now q) |}
}.

Section respecting.
Context (I : Queue → Prop) (HI : respects I).

Lemma enqueue_preserves r i : preserves I (enqueue r i).
Proof.
  unfold enqueue. apply preserves_bind.
  - generalize 7. intros n. induction n as [|n IH]; [done|]. cbn [create_retrying].
    apply preserves_bind; [apply preserves_update; intros; by apply re_create|].
    by intros [].
  - intros []; [done|]. destruct (en_dedupKey i) as [k|]; [|done].
    case_bool_decide; [done|]. apply preserves_bind; [apply preserves_query|].
    intros [id|]; [|done]. by case_bool_decide.
Qed.

Lemma claim_preserves n me jt e u : preserves I (claim_loop n me jt e u).
Proof.
  induction n as [|n IH]; [done|]. cbn [claim_loop].
  apply preserves_bind; [apply preserves_query|]. intros [rid|]; [|done].
  apply preserves_bind; [apply preserves_update; intros; by apply re_claim|].
  by intros [].
Qed.

(** A call that makes one owner-guarded write. *)
Lemma owner_write_preserves {A B} me e rid (f : Queue → JobRow → JobRow) (g : option JobRow → A)
    (h : A → B) :
  (∀ q r, ownerGuard me e r = true → row_ok r → row_ok (f q r)) →
  (∀ q r, same_identity r (f q r) ∧ jr_attempts (f q r) = jr_attempts r) →
  preserves I (pbind (pbind (update (λ q, update_where rid (ownerGuard me e) (f q) q))
                        (λ row, Done (g row))) (λ a, Done (h a))).
Proof.
  intros H1 H2. repeat (apply preserves_bind; [|done]).
  apply preserves_update. intros q Hq.
  apply (re_owner I HI); [apply H1|apply H2|done].
Qed.

Lemma call_preserves c : preserves I (call_claim c).
Proof.
  destruct c; cbn [call_claim].
  - apply preserves_bind; [apply enqueue_preserves|done].
  - apply claim_preserves.
  - apply (owner_write_preserves me epoch rid (λ q, renew_row until (q_now q))).
    + intros q r Hg Hok. apply renew_row_ok; [done|].
      unfold ownerGuard in Hg. rewrite !andb_true_iff, !bool_decide_eq_true in Hg.
      by destruct Hg as [[_ ?] _].
    + done.
  - apply (owner_write_preserves me epoch rid
      (λ q r, unclaimed Succeeded (jr_visibleAfter r) (Some (q_now q)) (jr_error r) res r)).
    + intros. apply unclaimed_ok; [done|]. by eapply owner_attempts.
    + done.
  - apply (owner_write_preserves me epoch rid
      (λ q r, unclaimed Cancelled (jr_visibleAfter r) (Some (q_now q)) (jr_error r) res r)).
    + intros. apply unclaimed_ok; [done|]. by eapply owner_attempts.
    + done.
  - apply (owner_write_preserves me epoch rid
      (λ q r, if negb (bool_decide (requeue = Some false)) && (attempts <? default 3 maxAttempts)
          then unclaimed Pending visibleAfter (jr_finishedAt r) (Some err) (jr_result r) r
          else unclaimed Failed (jr_visibleAfter r) (Some (q_now q)) (Some err) res r)).
    + intros. destruct (_ && _); (apply unclaimed_ok; [done|]; by eapply owner_attempts).
    + intros. by destruct (_ && _).
  - apply (owner_write_preserves me epoch rid
      (λ q r, unclaimed Pending (q_now q) (jr_finishedAt r) (Some reason) (jr_result r) r)).
    + intros. apply unclaimed_ok; [done|]. by eapply owner_attempts.
    + done.
  - apply preserves_bind; [|done]. apply preserves_exec. intros. by apply re_reap.
  - apply preserves_bind; [|done]. apply preserves_exec. intros. by apply re_tick.
Qed.
End respecting.

Lemma queue_ok_respected : respects queue_ok.
Proof.
  split.
  - intros. by apply create_job_ok.
  - intros. apply update_where_ok; [|done]. intros. apply claim_row_ok.
  - intros me e rid f q Hf Hs Hq. apply update_where_ok; [|done]. intros r Hr Hg.
    split; [by apply Hf|apply Hs].
  - intros. by apply reap_ok.
  - done.
Qed.

(** The queue under any interleaving of any calls of any workers: from a
    well-formed table, every reachable table is well formed. A row has an owner
    and a lease exactly while it runs, run ids stay unique, and no job type ever
    has two rows with one dedup key. *)
Theorem queue_stays_ok calls sched q :
  queue_ok q → queue_ok (run_pool sched (q, map call_claim calls)).1.
Proof.
  intros Hq. apply run_pool_preserves; [done|]. apply Forall_forall.
  intros p (c & -> & _)%list_elem_of_fmap. apply call_preserves, queue_ok_respected.
Qed.

(** ** One claim per attempt *)

(** Record [rid] has not reached attempt [k]. *)
Definition before_attempt (rid k : nat) (q : Queue) : Prop :=
  match q_rows q !! rid with Some r => jr_attempts r < k | None => True end.

Definition attempt_of (rid k : nat) (o : option JobClaim) : bool :=
  match o with
  | Some c => (jc_recordId c =? rid) && (jc_attempts c =? k)
  | None => false
  end.

(** Attempts never go down, and rows are never deleted. *)
Lemma before_attempt_mono rid k q rows :
  (∀ r, q_rows q !! rid = Some r → ∃ r', rows !! rid = Some r' ∧ jr_attempts r ≤ jr_attempts r') →
  ¬ before_attempt rid k q → ¬ before_attempt rid k (with_rows q rows).
Proof.
  unfold before_attempt. cbn [with_rows q_rows]. intros H.
  destruct (q_rows q !! rid) as [r|]; [|tauto].
  destruct (H r eq_refl) as (r' & -> & Hle). simpl. lia.
Qed.

Lemma insert_attempts (m : gmap nat JobRow) id f rid r :
  m !! id = Some r → jr_attempts r ≤ jr_attempts (f r) →
  ∀ x, m !! rid = Some x → ∃ x', <[id := f r]> m !! rid = Some x' ∧ jr_attempts x ≤ jr_attempts x'.
Proof.
  intros Hr Hle x Hx. destruct (decide (id = rid)) as [->|Hne].
  - rewrite lookup_insert_eq. simplify_eq. eauto.
  - rewrite lookup_insert_ne by done. eauto.
Qed.

Lemma update_where_attempts rid k id g f q :
  (∀ r, jr_attempts r ≤ jr_attempts (f r)) →
  ¬ before_attempt rid k q → ¬ before_attempt rid k (update_where id g f q).1.
Proof.
  intros Hf. unfold update_where. destruct (q_rows q !! id) as [r|] eqn:E; [|done].
  destruct (g r); [|done]. apply before_attempt_mono.
  by apply insert_attempts.
Qed.

Lemma reap_attempts rid k mx d q :
  ¬ before_attempt rid k q → ¬ before_attempt rid k (reap mx d q).
Proof.
  apply before_attempt_mono. generalize (reap_ids q). intros ids. generalize (q_rows q).
  induction ids as [|id ids IH]; intros m r Hr; simpl; [eauto|].
  destruct (IH (alter (reap_row mx d (q_now q)) id m)
    (if decide (id = rid) then reap_row mx d (q_now q) r else r)) as (r' & Hr' & Hle).
  - case_decide as Hd; [subst; by rewrite lookup_alter_eq, Hr|by rewrite lookup_alter_ne].
  - exists r'. split; [done|]. etrans; [|exact Hle]. case_decide; [|done].
    unfold reap_row. destruct (negb _); [done|]. by destruct (_ <? _).
Qed.

Lemma attempts_respected rid k : respects (λ q, ¬ before_attempt rid k q).
Proof.
  split.
  - intros runId i q. unfold create_job. destruct (any_row _ q); [done|].
    apply before_attempt_mono. intros r Hr. exists r. split; [|done].
    rewrite lookup_insert_ne; [done|]. intros Heq. apply (f_equal (λ n, n ∈ dom (q_rows q))) in Heq.
    assert (rid ∈ dom (q_rows q)) by (apply elem_of_dom; eauto).
    apply (is_fresh (dom (q_rows q))). by rewrite Heq.
  - intros. apply update_where_attempts; [|done]. intros; simpl; lia.
  - intros me e id f q _ Hf. apply update_where_attempts. intros r. by destruct (Hf r) as [_ ->].
  - intros. by apply reap_attempts.
  - done.
Qed.

Lemma claim_cas_before rid k me e u id q row :
  (claim_cas me e u id q).2 = Some row → attempt_of rid k (toClaim id row e) = true →
  before_attempt rid k q ∧ ¬ before_attempt rid k (claim_cas me e u id q).1.
Proof.
  unfold claim_cas, update_where. destruct (q_rows q !! id) as [r|] eqn:E; [|done].
  destruct (_ && _); [|done]. cbn [snd fst]. intros; simplify_eq.
  unfold toClaim in *. case_bool_decide; [done|]. simpl in *.
  rewrite andb_true_iff, !Nat.eqb_eq in *. destruct_and!. subst.
  unfold before_attempt, with_rows. cbn [q_rows]. rewrite E, lookup_insert_eq. simpl. lia.
Qed.

Lemma claim_wins rid k n me jt e u :
  wins (before_attempt rid k) (attempt_of rid k) (claim_loop n me jt e u) false.
Proof.
  induction n as [|n IH]; [done|]. cbn [claim_loop].
  apply wins_bind; [apply preserves_query|]. intros [id|]; [|done].
  intros q. cbn [pbind update].
  pose proof (claim_cas_before rid k me e u id q) as Hc.
  pose proof (re_claim _ (attempts_respected rid k) me e u id q) as Hk.
  destruct (claim_cas me e u id q) as [q' [row|]]; cbn [fst snd] in *; (split; [done|]).
  - destruct (attempt_of rid k (toClaim id row e)) eqn:Ea.
    + right. destruct (Hc row eq_refl Ea). split_and!; [done|done|done|]. simpl. done.
    + left. simpl. by rewrite Ea.
  - by left.
Qed.

(** C4. No job is handed out twice: among any calls of any workers (claims,
    renewals, terminal writes, requeues, reapers, new jobs), whatever the
    interleaving, two different calls never obtain the same record at the same
    attempt. *)
Theorem one_claim_per_attempt calls sched q i j c d :
  let out := (run_pool sched (q, map call_claim calls)).2 in
  out !! i = Some (Done (Some c)) → out !! j = Some (Done (Some d)) →
  jc_recordId c = jc_recordId d → jc_attempts c = jc_attempts d → i = j.
Proof.
  intros out Hi Hj Hid Hat. set (rid := jc_recordId c). set (k := jc_attempts c).
  apply (at_most_one (before_attempt rid k) (attempt_of rid k) sched
           (q, map call_claim calls) i j (Some c) (Some d)); [|done| |done|].
  - apply Forall_forall. intros p (cl & -> & _)%list_elem_of_fmap.
    pose proof (call_preserves _ (attempts_respected rid k) cl) as Hp.
    destruct cl; try (by apply wins_quiet). apply claim_wins.
  - simpl. by rewrite !Nat.eqb_refl.
  - simpl. by rewrite <- Hid, <- Hat, !Nat.eqb_refl.
Qed.

(** ** Fencing *)

(** The writes a worker makes on the claim it believes it holds. *)
Inductive claim_write : Type :=
| WRenew (until : Z)
| WComplete (res : option jsval)
| WCancelled (res : option jsval)
| WFail (attempts : nat) (err : string) (requeue : option bool) (maxAttempts : option nat)
    (visibleAfter : Z) (res : option jsval)
| WRelease (reason : string).

(** The write, and whether it says it took effect. *)
Definition write_prog (w : claim_write) (me : string) (rid : nat) (epoch : option nat) :
    prog Queue bool :=
  match w with
  | WRenew u => do* r := renew me rid epoch u in Done (stillOwned r)
  | WComplete res => complete me rid epoch res
  | WCancelled res => cancelled me rid epoch res
  | WFail a err rq mx va res => fail me rid epoch a err rq mx va res
  | WRelease why => release me rid epoch why
  end.

Definition will_requeue (attempts : nat) (requeue : option bool) (maxAttempts : option nat) : bool :=
  negb (bool_decide (requeue = Some false)) && (attempts <? default 3 maxAttempts).

(** The state a write moves an owned row to. *)
Definition write_status (w : claim_write) : JobStatus :=
  match w with
  | WRenew _ => Running
  | WComplete _ => Succeeded
  | WCancelled _ => Cancelled
  | WFail a _ rq mx _ _ => if will_requeue a rq mx then Pending else Failed
  | WRelease _ => Pending
  end.

Definition owned (me : string) (rid : nat) (epoch : option nat) (q : Queue) : Prop :=
  ∃ r, q_rows q !! rid = Some r ∧ ownerGuard me epoch r = true.

Lemma update_where_skip rid g f q :
  (∀ r, q_rows q !! rid = Some r → g r = false) → update_where rid g f q = (q, None).
Proof.
  intros H. unfold update_where. destruct (q_rows q !! rid) as [r|]; [|done].
  by rewrite (H r eq_refl).
Qed.

Lemma update_where_hit rid g f q r :
  q_rows q !! rid = Some r → g r = true →
  update_where rid g f q = (with_rows q (<[rid := f r]> (q_rows q)), Some (f r)).
Proof. intros H Hg. unfold update_where. by rewrite H, Hg. Qed.

(** C14. Stale writers are fenced: a renewal, terminal write, requeue or hand-back
    by a worker that no longer holds the record's claim, because the record was
    reaped, finished, or claimed again by another worker or under another epoch,
    changes nothing and reports so; by the worker that holds it, it changes that
    record alone, to exactly the announced state. *)
Theorem claim_writes_are_fenced w me rid epoch q :
  (¬ owned me rid epoch q → run (write_prog w me rid epoch) q = (q, false)) ∧
  (owned me rid epoch q →
     ∃ r', q_rows (run (write_prog w me rid epoch) q).1 = <[rid := r']> (q_rows q) ∧
       jr_status r' = write_status w ∧
       (jr_claimedBy r' = if bool_decide (jr_status r' = Running) then Some me else None) ∧
       same_identity (default r' (q_rows q !! rid)) r') ∧
  (∀ me' epoch' u row q', claim_cas me' epoch' u rid q = (q', Some row) →
     me' ≠ me ∨ epoch' ≠ epoch → run (write_prog w me rid epoch) q' = (q', false)).
Proof.
  assert (Hno : ∀ q, ¬ owned me rid epoch q → run (write_prog w me rid epoch) q = (q, false)).
  { intros q0 Hn.
    assert (H : ∀ f, update_where rid (ownerGuard me epoch) f q0 = (q0, None)).
    { intros f. apply update_where_skip. intros r Hr. apply not_true_iff_false.
      intros Hg. apply Hn. by exists r. }
    destruct w; cbn [write_prog]; unfold renew, complete, cancelled, fail, release;
      rewrite ?run_bind, ?run_update, H; reflexivity. }
  split; [apply Hno|]. split.
  - intros (r & Hr & Hg).
    assert (H : ∀ f, update_where rid (ownerGuard me epoch) f q =
      (with_rows q (<[rid := f r]> (q_rows q)), Some (f r)))
      by (intros; by apply update_where_hit).
    assert (Hs : jr_status r = Running ∧ jr_claimedBy r = Some me).
    { unfold ownerGuard in Hg. rewrite !andb_true_iff, !bool_decide_eq_true in Hg. tauto. }
    rewrite Hr. cbn [default].
    destruct w; cbn [write_prog write_status]; unfold renew, complete, cancelled, fail, release;
      rewrite ?run_bind, ?run_update, H; cbn [fst snd run with_rows q_rows];
      fold (will_requeue attempts requeue maxAttempts) || idtac;
      try (eexists; split; [reflexivity|]; split; [reflexivity|by split]).
    + eexists. split; [reflexivity|]. cbn [renew_row jr_status jr_claimedBy].
      destruct Hs as [-> ->]. done.
    + eexists. split; [reflexivity|]. destruct (will_requeue _ _ _); done.
  - intros me' e' u row q' Hc Hne. apply Hno. intros (r & Hr & Hg).
    unfold claim_cas, update_where in Hc. destruct (q_rows q !! rid) as [r0|]; [|done].
    destruct (_ && _); [|done]. simplify_eq. cbn [with_rows q_rows] in Hr.
    rewrite lookup_insert_eq in Hr. simplify_eq.
    unfold ownerGuard, claim_row in Hg; cbn [jr_claimedBy jr_status jr_claimEpoch] in Hg.
    rewrite !andb_true_iff, !bool_decide_eq_true in Hg. destruct Hne; intuition congruence.
Qed.

(** ** Deduplication *)

Definition key_free (jobType key : string) (q : Queue) : Prop :=
  ∀ id r, q_rows q !! id = Some r → same_dedup jobType (Some key) r = false.

Lemma same_dedup_identity jt k r r' :
  same_identity r r' → same_dedup jt k r' = same_dedup jt k r.
Proof. intros (_ & H1 & H2). unfold same_dedup. destruct k; [|done]. by rewrite H1, H2. Qed.

(** A table whose rows extend another's keeps the keys that were taken. *)
Lemma key_free_mono jt k q rows :
  (∀ id r, q_rows q !! id = Some r → ∃ r', rows !! id = Some r' ∧ same_identity r r') →
  ¬ key_free jt k q → ¬ key_free jt k (with_rows q rows).
Proof.
  intros H Hn Hf. apply Hn. intros id r Hr. destruct (H id r Hr) as (r' & Hr' & Hs).
  rewrite <- (same_dedup_identity jt (Some k) r r' Hs). by apply (Hf id).
Qed.

Lemma update_where_identity id g f q :
  (∀ r, same_identity r (f r)) →
  ∀ i r, q_rows q !! i = Some r →
  ∃ r', q_rows (update_where id g f q).1 !! i = Some r' ∧ same_identity r r'.
Proof.
  intros Hf i r Hr. unfold update_where.
  destruct (q_rows q !! id) as [x|] eqn:E; [|by exists r].
  destruct (g x); [|by exists r]. cbn [fst with_rows q_rows].
  destruct (decide (id = i)) as [->|Hne].
  - rewrite lookup_insert_eq. simplify_eq. eauto.
  - rewrite lookup_insert_ne by done. by exists r.
Qed.

Lemma reap_identity mx d q i r :
  q_rows q !! i = Some r → ∃ r', q_rows (reap mx d q) !! i = Some r' ∧ same_identity r r'.
Proof.
  unfold reap. cbn [with_rows q_rows]. generalize (reap_ids q). intros ids.
  revert r. generalize (q_rows q). induction ids as [|id ids IH]; intros m r Hr; simpl.
  { by exists r. }
  set (x := if decide (id = i) then reap_row mx d (q_now q) r else r).
  destruct (IH (alter (reap_row mx d (q_now q)) id m) x) as (r' & Hr' & Hs).
  - unfold x. case_decide; [subst; by rewrite lookup_alter_eq, Hr|by rewrite lookup_alter_ne].
  - exists r'. split; [done|]. assert (Hx : same_identity r x).
    { unfold x, reap_row. case_decide; [|done]. destruct (negb _); [done|].
      by destruct (_ <? _). }
    unfold same_identity in *. intuition congruence.
Qed.

Lemma key_taken_respected jt k : respects (λ q, ¬ key_free jt k q).
Proof.
  split.
  - intros runId i q. unfold create_job. destruct (any_row _ q); [done|].
    apply key_free_mono. intros id r Hr. exists r. split; [|done].
    rewrite lookup_insert_ne; [done|]. intros Heq.
    apply (is_fresh (dom (q_rows q))). rewrite Heq. apply elem_of_dom. eauto.
  - intros me e u rid q. destruct (claim_cas me e u rid q) as [q' row] eqn:E.
    cbn [fst]. intros Hn Hf. apply Hn. intros id r Hr.
    destruct (update_where_identity rid
      (λ r, bool_decide (jr_status r = Pending) && (jr_visibleAfter r <=? q_now q)%Z)
      (claim_row me e u (q_now q)) q) with (i := id) (r := r) as (r' & Hr' & Hs); [done|done|].
    unfold claim_cas in E. rewrite E in Hr'.
    rewrite <- (same_dedup_identity jt (Some k) r r' Hs). by apply (Hf id).
  - intros me e rid f q _ Hf Hn Hfree. apply Hn. intros id r Hr.
    destruct (update_where_identity rid (ownerGuard me e) f q (λ r, proj1 (Hf r)) id r Hr)
      as (r' & Hr' & Hs).
    rewrite <- (same_dedup_identity jt (Some k) r r' Hs). by apply (Hfree id).
  - intros mx d q Hn Hfree. apply Hn. intros id r Hr.
    destruct (reap_identity mx d q id r Hr) as (r' & Hr' & Hs).
    rewrite <- (same_dedup_identity jt (Some k) r r' Hs). by apply (Hfree id).
  - done.
Qed.

(** Did the call create a row under this key? *)
Definition creates (jt k : string) (c : job_call) (o : result http_exn (string * bool)) : bool :=
  match c, o with
  | CallEnqueue _ i, Ok (_, created) =>
      created && bool_decide (en_jobType i = jt) && bool_decide (en_dedupKey i = Some k)
  | _, _ => false
  end.

Definition call_creates (jt k : string) (c : job_call) : prog Queue bool :=
  match c with
  | CallEnqueue r i => do* o := enqueue r i in Done (creates jt k c o)
  | _ => do* _ := call_claim c in Done false
  end.

Lemma create_job_takes runId i q k :
  en_dedupKey i = Some k → (create_job runId i q).2 = true →
  key_free (en_jobType i) k q ∧ ¬ key_free (en_jobType i) k (create_job runId i q).1.
Proof.
  intros Hk. unfold create_job. destruct (any_row _ q) eqn:E; [done|]. intros _.
  rewrite any_row_false in E. split.
  - intros id r Hr. specialize (E id r Hr). apply orb_false_iff in E as [_ E].
    by rewrite Hk in E.
  - intros Hf. assert (Hrow : same_dedup (en_jobType i) (Some k)
      (pending_row runId i (q_now q)) = true).
    { simpl. rewrite Hk. by rewrite !bool_decide_eq_true_2. }
    rewrite (Hf (fresh (dom (q_rows q)))) in Hrow; [done|]. apply lookup_insert_eq.
Qed.

(** Creating under another key cannot win, and keeps what is taken. *)
Lemma create_retrying_wins jt k n runId i
    (K : bool → prog Queue bool) :
  (∀ won, wins (key_free jt k) id (K false) won) →
  (wins (key_free jt k) id (K true) true) →
  (bool_decide (en_jobType i = jt) && bool_decide (en_dedupKey i = Some k) = false →
   wins (key_free jt k) id (K true) false) →
  wins (key_free jt k) id (pbind (create_retrying n runId i) K) false.
Proof.
  intros Hlose Hwin Hother. induction n as [|n IH]; [apply Hlose|].
  cbn [create_retrying]. intros q. cbn [pbind update].
  pose proof (re_create _ (key_taken_respected jt k) runId i q) as Hk.
  pose proof (create_job_takes runId i q k) as Ht.
  destruct (create_job runId i q) as [q' ok]; cbn [fst snd] in *. split; [done|].
  destruct ok; cbn [pbind]; [|by left].
  destruct (bool_decide (en_jobType i = jt) && bool_decide (en_dedupKey i = Some k)) eqn:E;
    [|left; by apply Hother].
  apply andb_true_iff in E as [E1%bool_decide_eq_true E2%bool_decide_eq_true]. subst jt.
  right. destruct (Ht E2 eq_refl). done.
Qed.

Lemma call_creates_wins jt k c : wins (key_free jt k) id (call_creates jt k c) false.
Proof.
  destruct c; cbn [call_creates];
    try (apply wins_quiet; [|done]; apply preserves_bind; [|done];
         apply call_preserves, key_taken_respected).
  unfold enqueue.
  assert (Hassoc : ∀ (p : prog Queue bool) (K1 : bool → prog Queue (result http_exn (string * bool)))
    (K2 : result http_exn (string * bool) → prog Queue bool) won,
    wins (key_free jt k) id (pbind p (λ b, pbind (K1 b) K2)) won →
    wins (key_free jt k) id (pbind (pbind p K1) K2) won).
  { clear. intros p K1 K2. revert p. fix IH 1. intros p won. destruct p as [b|f]; simpl; [done|].
    intros H s. specialize (H s). destruct (f s) as [s' p']. destruct H as [H1 H2].
    split; [done|]. destruct H2 as [H2|(->&?&?&H2)]; [left|right]; auto. }
  apply Hassoc. apply create_retrying_wins.
  - intros won. destruct (en_dedupKey i) as [key|]; [|done].
    case_bool_decide; [done|]. intros q. split; [done|]. left. cbn [pbind].
    destruct (find_first _ _) as [[id r]|]; [|done]. cbn [fmap option_fmap option_map].
    by case_bool_decide.
  - by intros _.
  - cbn [pbind creates]. intros H. simpl. rewrite H. done.
Qed.

(** One run per key: among any calls of any processes, with any number of
    enqueues of one job type under one dedup key, whatever the interleaving, at
    most one creates a row; and an enqueue that finds the key taken answers with
    the run that holds it. *)
Theorem enqueue_creates_once calls sched q jt k i j :
  let out := (run_pool sched (q, map (call_creates jt k) calls)).2 in
  (out !! i = Some (Done true) → out !! j = Some (Done true) → i = j) ∧
  (∀ runId inp, en_jobType inp = jt → en_dedupKey inp = Some k → k ≠ "" → ¬ key_free jt k q →
     (∀ id r, q_rows q !! id = Some r → jr_runId r ≠ "") →
     ∃ id r, q_rows q !! id = Some r ∧ same_dedup jt (Some k) r = true ∧
       run (enqueue runId inp) q = (q, Ok (jr_runId r, false))).
Proof.
  intros out. split.
  - intros Hi Hj. apply (at_most_one (key_free jt k) id sched
      (q, map (call_creates jt k) calls) i j true true); [|done|done|done|done].
    apply Forall_forall. intros p (c & -> & _)%list_elem_of_fmap. apply call_creates_wins.
  - intros runId inp Hjt Hk Hne Hn Hids. subst jt.
    assert (Hany : any_row (λ r, bool_decide (jr_runId r = runId) ||
      same_dedup (en_jobType inp) (en_dedupKey inp) r) q = true).
    { apply not_false_iff_true. rewrite any_row_false. intros H. apply Hn.
      intros id r Hr. specialize (H id r Hr). rewrite Hk in H.
      by apply orb_false_iff in H as [_ H]. }
    assert (Hc : ∀ n, run (create_retrying n runId inp) q = (q, false)).
    { induction n as [|n IH]; [done|]. cbn [create_retrying].
      rewrite run_bind, run_update. unfold create_job. rewrite Hany. exact IH. }
    unfold enqueue. rewrite run_bind, Hc. cbn [fst snd]. rewrite Hk.
    rewrite (bool_decide_eq_false_2 (k = "")) by done.
    unfold findByDedup. rewrite run_bind, run_query. cbn [fst snd].
    destruct (find_first _ _) as [[id r]|] eqn:Ef.
    + apply find_first_Some in Ef as [Hin%elem_of_map_to_list Hs].
      exists id, r. split_and!; [done|done|]. cbn [fmap option_fmap option_map snd].
      rewrite bool_decide_eq_false_2 by (by eapply Hids). done.
    + exfalso. apply Hn. intros id r Hr. apply find_first_None in Ef.
      rewrite existsb_false_In in Ef. apply (Ef (id, r)). by apply elem_of_map_to_list.
Qed.

(** ** The reaper and the claim order *)

Lemma fold_alter_lookup (f : JobRow → JobRow) ids (m : gmap nat JobRow) i :
  NoDup ids →
  fold_left (λ m id, alter f id m) ids m !! i =
  if bool_decide (i ∈ ids) then f <$> m !! i else m !! i.
Proof.
  revert m. induction ids as [|id ids IH]; intros m Hnd; simpl; [done|].
  apply NoDup_cons in Hnd as [Hn Hnd]. rewrite IH by done.
  destruct (decide (id = i)) as [->|Hne].
  - rewrite bool_decide_eq_false_2 by done. rewrite bool_decide_eq_true_2 by left.
    by rewrite lookup_alter_eq.
  - rewrite lookup_alter_ne by done.
    rewrite (bool_decide_ext (i ∈ ids) (i ∈ id :: ids)); [done|]. set_solver.
Qed.

Lemma reap_ids_NoDup q : NoDup (reap_ids q).
Proof.
  unfold reap_ids. eapply sublist_NoDup; [|apply sublist_take].
  apply NoDup_map_bfilter, NoDup_fst_map_to_list.
Qed.

Lemma reap_ids_elem q i :
  i ∈ reap_ids q → ∃ r, q_rows q !! i = Some r ∧ lapsed (q_now q) r = true.
Proof.
  unfold reap_ids. intros Hi.
  assert (Hin : i ∈ map fst (List.filter (λ kv, lapsed (q_now q) kv.2) (map_to_list (q_rows q))))
    by (apply elem_of_take in Hi as (k & Hk & _); by eapply list_elem_of_lookup_2).
  apply list_elem_of_fmap in Hin as ([k r] & -> & [Hk Hl]%elem_of_bfilter).
  apply elem_of_map_to_list in Hk. eauto.
Qed.

(** The reaper: a sweep touches only rows whose lease lapsed while they ran;
    each of those it takes goes back to the queue if it has attempts left and
    fails for good otherwise; and when at most 200 had lapsed, none is left. *)
Theorem reaper_reclaims_the_lapsed mx delay q :
  let q' := reap mx delay q in
  (∀ i r, q_rows q !! i = Some r →
     q_rows q' !! i = Some r ∨
     (lapsed (q_now q) r = true ∧ ∃ r', q_rows q' !! i = Some r' ∧
        jr_claimedBy r' = None ∧ jr_leaseUntil r' = None ∧
        jr_status r' = if jr_attempts r <? mx then Pending else Failed)) ∧
  (length (List.filter (λ kv, lapsed (q_now q) kv.2) (map_to_list (q_rows q))) ≤ REAP_LIMIT →
   ∀ i r, q_rows q' !! i = Some r → lapsed (q_now q) r = false).
Proof.
  intros q'.
  assert (Hl : ∀ i, q_rows q' !! i = if bool_decide (i ∈ reap_ids q)
    then reap_row mx delay (q_now q) <$> q_rows q !! i else q_rows q !! i).
  { intros i. unfold q', reap. cbn [with_rows q_rows].
    apply fold_alter_lookup, reap_ids_NoDup. }
  assert (Hrow : ∀ r, lapsed (q_now q) r = true →
    let r' := reap_row mx delay (q_now q) r in
    jr_claimedBy r' = None ∧ jr_leaseUntil r' = None ∧
    jr_status r' = if jr_attempts r <? mx then Pending else Failed).
  { intros r Hr. unfold reap_row. rewrite Hr. simpl. by destruct (jr_attempts r <? mx). }
  split.
  - intros i r Hr. rewrite Hl. case_bool_decide as Hi; [|by left]. right.
    destruct (reap_ids_elem _ _ Hi) as (r0 & Hr0 & Hlap). simplify_eq.
    split; [done|]. rewrite Hr. simpl. eexists. split; [reflexivity|]. by apply Hrow.
  - intros Hlen i r. rewrite Hl. case_bool_decide as Hi.
    + destruct (reap_ids_elem _ _ Hi) as (r0 & Hr0 & Hlap). rewrite Hr0. simpl.
      intros; simplify_eq. destruct (Hrow r0 Hlap) as (_ & H & _). unfold lapsed.
      by rewrite H, andb_false_r.
    + intros Hr. apply not_true_iff_false. intros Hlap. apply Hi. unfold reap_ids.
      rewrite take_ge by by rewrite length_map. apply list_elem_of_fmap.
      exists (i, r). split; [done|]. apply elem_of_bfilter.
      split; [by apply elem_of_map_to_list|done].
Qed.

Lemma oldest_spec l x :
  oldest l = Some x → x ∈ l ∧ ∀ y, y ∈ l → (jr_visibleAfter x.2 <= jr_visibleAfter y.2)%Z.
Proof.
  destruct l as [|z l]; [done|]. simpl. intros; simplify_eq.
  assert (H : ∀ z, let x := fold_left older l z in
    (x = z ∨ x ∈ l) ∧ (jr_visibleAfter x.2 <= jr_visibleAfter z.2)%Z ∧
    ∀ y, y ∈ l → (jr_visibleAfter x.2 <= jr_visibleAfter y.2)%Z).
  { clear. induction l as [|y l IH]; intros z; simpl.
    { split_and!; [by left|lia|by intros ? ?%elem_of_nil]. }
    destruct (IH (older z y)) as (Hin & Hle & Hall).
    assert (Ho : (older z y = z ∨ older z y = y) ∧
      (jr_visibleAfter (older z y).2 <= jr_visibleAfter z.2)%Z ∧
      (jr_visibleAfter (older z y).2 <= jr_visibleAfter y.2)%Z).
    { unfold older. destruct (Z.ltb_spec (jr_visibleAfter y.2) (jr_visibleAfter z.2));
        (split; [auto|lia]). }
    destruct Ho as (Ho & Ho1 & Ho2). split_and!.
    - destruct Hin as [->|?]; [|right; by right].
      destruct Ho as [->| ->]; [by left|right; by left].
    - lia.
    - intros y' [->|Hy]%elem_of_cons; [lia|by apply Hall]. }
  destruct (H z) as (Hin & Hle & Hall). split.
  - destruct Hin as [->|?]; [by left|by right].
  - intros y [->|Hy]%elem_of_cons; [lia|by apply Hall].
Qed.

(** Claims are served oldest first: a claim that nothing interrupts returns
    nothing exactly when no visible pending row of the type exists, and otherwise
    takes one none of which is older, under the caller's name, epoch and
    deadline, one attempt further. *)
Theorem claim_takes_the_oldest me jt epoch until q :
  (∀ id r, q_rows q !! id = Some r → jr_runId r ≠ "") →
  let out := run (claimNext me jt epoch until) q in
  match out.2 with
  | None => out.1 = q ∧ ∀ id r, q_rows q !! id = Some r → claimable jt (q_now q) r = false
  | Some c =>
      ∃ r r', q_rows q !! jc_recordId c = Some r ∧ claimable jt (q_now q) r = true ∧
        (∀ id x, q_rows q !! id = Some x → claimable jt (q_now q) x = true →
           (jr_visibleAfter r <= jr_visibleAfter x)%Z) ∧
        out.1 = with_rows q (<[jc_recordId c := r']> (q_rows q)) ∧
        ownerGuard me epoch r' = true ∧ jr_leaseUntil r' = Some until ∧
        jc_attempts c = jr_attempts r + 1 ∧ jr_attempts r' = jr_attempts r + 1
  end.
Proof.
  intros Hids out. unfold out, claimNext. cbn [claim_loop].
  rewrite run_bind, run_query. cbn [fst snd]. unfold candidate.
  destruct (oldest _) as [[id r]|] eqn:E; cbn [fmap option_fmap option_map fst].
  - apply oldest_spec in E as [Hin Hmin]. apply elem_of_bfilter in Hin as [Hr Hc].
    apply elem_of_map_to_list in Hr. cbn [snd] in *.
    rewrite run_bind, run_update. unfold claim_cas.
    assert (Hg : bool_decide (jr_status r = Pending) && (jr_visibleAfter r <=? q_now q)%Z = true).
    { unfold claimable in Hc. by apply andb_true_iff in Hc as [? _]. }
    rewrite (update_where_hit _ _ _ _ r Hr Hg). cbn [fst snd run]. unfold toClaim.
    cbn [claim_row jr_runId]. rewrite bool_decide_eq_false_2 by (by eapply Hids).
    cbn [jc_recordId jc_attempts]. exists r, (claim_row me epoch until (q_now q) r).
    split_and!; [done|done| |done| |done|done|done].
    + intros id' x Hx Hcx. apply (Hmin (id', x)). apply elem_of_bfilter.
      split; [by apply elem_of_map_to_list|done].
    + unfold ownerGuard; simpl. by rewrite !bool_decide_eq_true_2.
  - cbn [run fst snd]. split; [done|]. intros id r Hr. apply not_true_iff_false. intros Hc.
    assert (Hin : (id, r) ∈ List.filter (λ kv, claimable jt (q_now q) kv.2)
                    (map_to_list (q_rows q))).
    { apply elem_of_bfilter. split; [by apply elem_of_map_to_list|done]. }
    destruct (List.filter _ _); [by apply elem_of_nil in Hin|done].
Qed.

(** ** Witnesses *)

Definition q0 : Queue := {| q_rows := ∅; q_now := 1000 |}.

Definition nightly : EnqueueInput :=
  {| en_jobType := "dreams"; en_dedupKey := Some "2026-01-01"; en_payload := None;
     en_visibleAfter := None |}.

Definition q1 : Queue := (run (enqueue "run-1" nightly) q0).1.

Lemma queue_stays_ok_witness :
  let calls := [CallEnqueue "run-1" nightly; CallClaim "a" "dreams" (Some 1) 5000;
                CallTick 9000; CallReap None (λ _, 0%Z); CallComplete "a" 0 (Some 1) None] in
  let sched := [0; 1; 1; 2; 3; 4] in
  queue_ok (run_pool sched (q0, map call_claim calls)).1.
Proof.
  intros calls sched. apply (queue_stays_ok calls sched q0).
  split; intros *; unfold q0; simpl; by rewrite lookup_empty.
Defined.

Lemma one_claim_per_attempt_witness :
  let calls := [CallClaim "a" "dreams" (Some 1) 5000; CallClaim "b" "dreams" (Some 2) 5000] in
  let sched := [0; 1; 0; 1; 1] in
  let out := (run_pool sched (q1, map call_claim calls)).2 in
  match out !! 0, out !! 1 with
  | Some (Done (Some c)), Some (Done o) =>
      o = None ∧ ∀ j d, out !! j = Some (Done (Some d)) →
        jc_recordId c = jc_recordId d → jc_attempts c = jc_attempts d → 0 = j
  | _, _ => False
  end.
Proof.
  intros calls sched out.
  assert (H0 : ∃ c, out !! 0 = Some (Done (Some c))) by (eexists; vm_compute; reflexivity).
  assert (H1 : out !! 1 = Some (Done None)) by (vm_compute; reflexivity).
  destruct H0 as [c H0]. rewrite H0, H1. split; [reflexivity|].
  intros j d. exact (one_claim_per_attempt calls sched q1 0 j c d H0).
Defined.

Lemma claim_writes_are_fenced_witness :
  let '(q2, _) := run (claimNext "a" "dreams" (Some 1) 5000) q1 in
  let q3 := reap 3 (λ _, 0%Z) {| q_rows := q_rows q2; q_now := 9000 |} in
  match q_rows q3 !! 0, claim_cas "b" (Some 2) 99000 0 q3 with
  | Some _, (q4, Some row) =>
      run (write_prog (WComplete None) "a" 0 (Some 1)) q4 = (q4, false)
  | _, _ => False
  end.
Proof.
  destruct (run (claimNext "a" "dreams" (Some 1) 5000) q1) as [q2 c2] eqn:E2.
  vm_compute in E2. injection E2 as <- <-.
  match goal with |- let q3 := ?x in _ => set (q3 := x) end. cbv zeta.
  destruct (q_rows q3 !! 0) eqn:E3; [|vm_compute in E3; discriminate].
  destruct (claim_cas "b" (Some 2) 99000 0 q3) as [q4 [row|]] eqn:E4;
    [|vm_compute in E4; discriminate].
  refine (proj2 (proj2 (claim_writes_are_fenced (WComplete None) "a" 0 (Some 1) q3))
    "b" (Some 2) 99000%Z row q4 E4 _). left. discriminate.
Defined.

Lemma enqueue_creates_once_witness :
  ∃ id r, q_rows q1 !! id = Some r ∧ same_dedup "dreams" (Some "2026-01-01") r = true ∧
    run (enqueue "run-2" nightly) q1 = (q1, Ok (jr_runId r, false)).
Proof.
  assert (H0 : q_rows q1 !! 0 = Some (pending_row "run-1" nightly 1000)) by reflexivity.
  refine (proj2 (enqueue_creates_once [] [] q1 "dreams" "2026-01-01" 0 0) "run-2" nightly
    eq_refl eq_refl _ _ _).
  - discriminate.
  - intros H. specialize (H 0 _ H0). vm_compute in H. discriminate.
  - intros id r Hr. destruct (decide (id = 0)) as [->|Hne].
    + rewrite H0 in Hr. injection Hr as <-. discriminate.
    + exfalso. unfold q1 in Hr. change (q_rows (run (enqueue "run-1" nightly) q0).1)
        with (<[0 := pending_row "run-1" nightly 1000]> (∅ : gmap nat JobRow)) in Hr.
      rewrite lookup_insert_ne in Hr by congruence. by rewrite lookup_empty in Hr.
Defined.

Lemma reaper_reclaims_the_lapsed_witness :
  let '(q2, _) := run (claimNext "a" "dreams" (Some 1) 5000) q1 in
  let q3 := {| q_rows := q_rows q2; q_now := 9000 |} in
  ∀ i r, q_rows (reap 3 (λ _, 0%Z) q3) !! i = Some r → lapsed 9000 r = false.
Proof.
  destruct (run (claimNext "a" "dreams" (Some 1) 5000) q1) as [q2 c2] eqn:E2.
  vm_compute in E2. injection E2 as <- <-. cbv zeta.
  refine (proj2 (reaper_reclaims_the_lapsed 3 (λ _, 0%Z) _) _).
  apply Nat.leb_le. vm_compute. reflexivity.
Defined.

Lemma claim_takes_the_oldest_witness :
  ∃ c, (run (claimNext "a" "dreams" (Some 1) 5000) q1).2 = Some c ∧
    ∃ r, q_rows q1 !! jc_recordId c = Some r ∧ jc_attempts c = jr_attempts r + 1.
Proof.
  assert (Hids : ∀ id r, q_rows q1 !! id = Some r → jr_runId r ≠ "").
  { intros id r Hr. destruct (decide (id = 0)) as [->|Hne].
    + vm_compute in Hr. injection Hr as <-. discriminate.
    + exfalso. change (q_rows q1)
        with (<[0 := pending_row "run-1" nightly 1000]> (∅ : gmap nat JobRow)) in Hr.
      rewrite lookup_insert_ne in Hr by congruence. by rewrite lookup_empty in Hr. }
  pose proof (claim_takes_the_oldest "a" "dreams" (Some 1) 5000 q1 Hids) as H.
  destruct (run (claimNext "a" "dreams" (Some 1) 5000) q1) as [q2 [c|]] eqn:E;
    [|vm_compute in E; discriminate].
  exists c. split; [reflexivity|]. destruct H as (r & r' & H1 & _ & _ & _ & _ & _ & H2 & _).
  exists r. split; assumption.
Defined.
