(* ===== verification/CandidateMerge.v ===== *)
(** * Candidate merging

    [documents/candidate-merge.ts]: the pure half of committing an extraction. The
    entity, fact and relation candidates several indexers staged for one document
    become one entity per alias class, one fact per (entity, predicate, object)
    and one relation per (from, to, kind). [common/source-version.ts] is the fence
    a contributor's version stamp passes. *)

From S2P Require Import Prelude Js Regex Doubles UnionFind.
From Stdlib Require Import Ascii.
From stdpp Require Import pretty.
Local Open Scope string_scope.
Local Open Scope nat_scope.

Inductive CandidateKind : Type := KEntity | KFact | KRelation | KScene | KStateDelta.

#[export] Instance CandidateKind_eq_dec : EqDecision CandidateKind.
Proof. solve_decision. Defined.

Record CandidateRow := {
  cr_id : string;
  cr_runId : string;
  cr_chunkSeq : Z;
  cr_kind : CandidateKind;
  cr_confidence : float;
  cr_payload : list (string * jsval)
}.

(** [a > b] *)
Definition gtb (a b : float) : bool := PrimFloat.ltb b a.

Definition SEP : string := String (ascii_of_nat 0) "".

Definition joinKey (parts : list string) : string := join_with SEP parts.

(** ** Version stamps *)

Record SourceVersionStamp := {
  sv_system : string; sv_ref : string; sv_version : string; sv_readAt : string
}.

Definition SOURCE_VERSION_MAX_REF : nat := 200.
Definition SOURCE_VERSION_MAX_VERSION : nat := 200.

(** [/^[a-z][a-z0-9_]{1,31}$/] *)
Definition SYSTEM_TOKEN : re :=
  RSeq (RCls is_lower)
    (r_range 1 31 (RCls (λ c, is_lower c || is_digit c || is_one_of "_" c))).

Definition boundedText (v : jsval) (max : nat) : option string :=
  match v with
  | VStr s =>
      let trimmed := trim s in
      if (String.length trimmed =? 0) || (max <? String.length trimmed) then None
      else Some trimmed
  | _ => None
  end.

Section merge.
(** The runtime's number printing, and its date parser followed by
    [toISOString]. *)
Variable num_to_string : float → string.
Variable iso_date : string → option string.

Definition parseSourceVersionStamp (raw : jsval) : result string SourceVersionStamp :=
  match raw with
  | VObj r =>
      match obj_get r "system" with
      | VStr system =>
          if negb (re_test SYSTEM_TOKEN system) then Throw "system"
          else
            match boundedText (obj_get r "ref") SOURCE_VERSION_MAX_REF with
            | None => Throw "ref"
            | Some ref =>
                match boundedText (obj_get r "version") SOURCE_VERSION_MAX_VERSION with
                | None => Throw "version"
                | Some version =>
                    match obj_get r "readAt" with
                    | VStr readAt =>
                        match iso_date readAt with
                        | Some iso => Ok {| sv_system := system; sv_ref := ref;
                                            sv_version := version; sv_readAt := iso |}
                        | None => Throw "readAt"
                        end
                    | _ => Throw "readAt"
                    end
                end
            end
      | _ => Throw "system"
      end
  | _ => Throw "object"
  end.

Definition readSourceVersionStamp (raw : jsval) : option SourceVersionStamp :=
  match parseSourceVersionStamp raw with Ok stamp => Some stamp | Throw _ => None end.

(** ** Normal forms *)

Definition normalizeType (ty : jsval) : string :=
  match ty with
  | VStr s => if bool_decide (trim s = "") then "other" else trim s
  | _ => "other"
  end.

Definition foldName (name : string) : string := collapse_spaces false (to_lower (trim name)).
Definition normalizeObject (object : string) : string := collapse_spaces false (trim object).

(** [`${runId}\x00${chunkSeq}\x00${String(entityIndex)}`] *)
Definition scopeRef (runId : string) (chunkSeq : Z) (entityIndex : jsval) : string :=
  joinKey [runId; pretty chunkSeq; js_to_string num_to_string entityIndex].

(** ** Entities *)

Record MergedEntity := {
  me_key : string;
  me_name : string;
  me_type : string;
  me_canonical : option string;
  me_externalId : option string;
  me_known : option string;
  me_candidateIds : list string
}.

Record RejectedCandidate := {
  rj_candidateId : string;
  rj_kind : CandidateKind;
  rj_reason : string
}.

Record EntityItem := {
  ei_row : CandidateRow;
  ei_name : string;
  ei_canonical : option string;
  ei_externalId : option string;
  ei_nameKey : string
}.

(** [ctx], with the alias classes of the entity pass. *)
Record MergeContext := {
  mc_scopeToKey : list (string * string);
  mc_rejected : list RejectedCandidate
}.

Definition reject (row : CandidateRow) (reason : string) : RejectedCandidate :=
  {| rj_candidateId := cr_id row; rj_kind := cr_kind row; rj_reason := reason |}.

(** An entity candidate's item; [None] rejects it. *)
Definition entity_item (row : CandidateRow) : option EntityItem :=
  let p := cr_payload row in
  match obj_get p "name" with
  | VStr name =>
      if bool_decide (trim name = "") then None
      else
        Some {| ei_row := row; ei_name := name;
                ei_canonical := match obj_get p "canonical" with
                                | VStr s => if bool_decide (trim s = "") then None else Some s
                                | _ => None
                                end;
                ei_externalId := match obj_get p "externalId" with
                                 | VStr s => if bool_decide (trim s = "") then None
                                             else Some (trim s)
                                 | _ => None
                                 end;
                ei_nameKey := joinKey [normalizeType (obj_get p "type"); foldName name] |}
  | _ => None
  end.

(** The calls one item makes on the union-find. *)
Definition item_ops (it : EntityItem) : list uf_op :=
  let type := normalizeType (obj_get (cr_payload (ei_row it)) "type") in
  UAdd (ei_nameKey it) ::
  app (match ei_canonical it with
       | Some c => [UUnion (ei_nameKey it) (joinKey [type; foldName c])]
       | None => []
       end)
    (match ei_externalId it with
     | Some e => [UUnion (ei_nameKey it) (joinKey [type; "#" +:+ e])]
     | None => []
     end).

Definition collect_item (acc : parents * list EntityItem * list RejectedCandidate)
    (row : CandidateRow) : parents * list EntityItem * list RejectedCandidate :=
  let '(dsu, items, rejected) := acc in
  if negb (bool_decide (cr_kind row = KEntity)) then acc
  else
    match entity_item row with
    | None => (dsu, items, app rejected [reject row "malformed_entity"])
    | Some it => (fold_left uf_step (item_ops it) dsu, app items [it], rejected)
    end.

Definition collectEntityItems (rows : list CandidateRow) :
    parents * list EntityItem * list RejectedCandidate :=
  fold_left collect_item rows ([], [], []).

(** [if (!a && b) a = b] *)
Definition fill (a b : option string) : option string :=
  match truthy a with Some _ => a | None => match truthy b with Some _ => b | None => a end end.

Record EntityState := {
  es_dsu : parents;
  es_scopeToKey : list (string * string);
  es_entities : list (string * MergedEntity)
}.

Definition group_item (st : EntityState) (it : EntityItem) : EntityState :=
  let '(key, dsu) := uf_find (ei_nameKey it) (es_dsu st) in
  let row := ei_row it in
  let known := as_js_string (obj_get (cr_payload row) "known") in
  {| es_dsu := dsu;
     es_scopeToKey := OMap.set
       (scopeRef (cr_runId row) (cr_chunkSeq row) (obj_get (cr_payload row) "entityIndex"))
       key (es_scopeToKey st);
     es_entities := OMap.set key
       (match OMap.get key (es_entities st) with
        | Some existing =>
            {| me_key := me_key existing; me_name := me_name existing;
               me_type := me_type existing;
               me_canonical := fill (me_canonical existing) (ei_canonical it);
               me_externalId := fill (me_externalId existing) (ei_externalId it);
               me_known := fill (me_known existing) known;
               me_candidateIds := app (me_candidateIds existing) [cr_id row] |}
        | None =>
            {| me_key := key; me_name := ei_name it;
               me_type := normalizeType (obj_get (cr_payload row) "type");
               me_canonical := ei_canonical it; me_externalId := ei_externalId it;
               me_known := truthy known; me_candidateIds := [cr_id row] |}
        end) (es_entities st) |}.

Definition mergeEntities (rows : list CandidateRow) : list MergedEntity * MergeContext :=
  let '(dsu, items, rejected) := collectEntityItems rows in
  let st := fold_left group_item items
              {| es_dsu := dsu; es_scopeToKey := []; es_entities := [] |} in
  (OMap.vals (es_entities st),
   {| mc_scopeToKey := es_scopeToKey st; mc_rejected := rejected |}).

(** ** Facts *)

Record FactContributor := {
  fc_candidateId : string;
  fc_indexerId : string;
  fc_packVersion : string;
  fc_model : option string;
  fc_confidence : float;
  fc_chunkSeq : Z;
  fc_sourceVersion : option SourceVersionStamp
}.

(** The period fields of a group. *)
Record Days := {
  dy_eventTime : option string;
  dy_endTime : option string;
  dy_expectedEnd : option string
}.

Record MergedFact := {
  mf_entityKey : string;
  mf_predicate : string;
  mf_object : string;
  mf_confidence : float;
  mf_entropy : option float;
  mf_clause : option string;
  mf_days : Days;
  mf_supersedes : option (list string);
  mf_recorder : string;
  mf_leaderId : string;
  mf_leaderChunkSeq : Z;
  mf_mergedIds : list string;
  mf_contributors : list FactContributor
}.

Definition payload_days (payload : list (string * jsval)) : Days :=
  {| dy_eventTime := strOrUndefined (obj_get payload "eventTime");
     dy_endTime := strOrUndefined (obj_get payload "endTime");
     dy_expectedEnd := strOrUndefined (obj_get payload "expectedEnd") |}.

(** [a ?? b] *)
Definition orElse {A} (a b : option A) : option A := match a with Some _ => a | None => b end.

Definition foldDays (group payload : Days) (leads : bool) : Days :=
  if leads
  then {| dy_eventTime := orElse (dy_eventTime payload) (dy_eventTime group);
          dy_endTime := orElse (dy_endTime payload) (dy_endTime group);
          dy_expectedEnd := orElse (dy_expectedEnd payload) (dy_expectedEnd group) |}
  else {| dy_eventTime := orElse (dy_eventTime group) (dy_eventTime payload);
          dy_endTime := orElse (dy_endTime group) (dy_endTime payload);
          dy_expectedEnd := orElse (dy_expectedEnd group) (dy_expectedEnd payload) |}.

(** [String(v ?? dflt)] *)
Definition string_or (v : jsval) (dflt : string) : string :=
  if present v then js_to_string num_to_string v else dflt.

Definition contributor_of (row : CandidateRow) : FactContributor :=
  let payload := cr_payload row in
  {| fc_candidateId := cr_id row;
     fc_indexerId := string_or (obj_get payload "indexerId") "core";
     fc_packVersion := string_or (obj_get payload "packVersion") "0";
     fc_model := as_js_string (obj_get payload "model");
     fc_confidence := cr_confidence row; fc_chunkSeq := cr_chunkSeq row;
     fc_sourceVersion := readSourceVersionStamp (obj_get payload "sourceVersion") |}.

Definition new_fact (entityKey : string) (row : CandidateRow) : MergedFact :=
  let payload := cr_payload row in
  {| mf_entityKey := entityKey;
     mf_predicate := js_to_string num_to_string (obj_get payload "predicate");
     mf_object := js_to_string num_to_string (obj_get payload "object");
     mf_confidence := cr_confidence row;
     mf_entropy := numOrUndefined (obj_get payload "extractionEntropy");
     mf_clause := as_js_string (obj_get payload "clause");
     mf_days := payload_days payload;
     mf_supersedes := idList (obj_get payload "supersedes");
     mf_recorder := fc_indexerId (contributor_of row);
     mf_leaderId := cr_id row; mf_leaderChunkSeq := cr_chunkSeq row;
     mf_mergedIds := []; mf_contributors := [contributor_of row] |}.

Definition union_supersedes (old : option (list string)) (new : option (list string)) :
    option (list string) :=
  match new with
  | None => old
  | Some ids => Some (add_all (default [] old) ids)
  end.

Definition fold_fact (group : MergedFact) (row : CandidateRow) : MergedFact :=
  let payload := cr_payload row in
  let leads := gtb (cr_confidence row) (mf_confidence group) in
  {| mf_entityKey := mf_entityKey group; mf_predicate := mf_predicate group;
     mf_object := mf_object group;
     mf_confidence := if leads then cr_confidence row else mf_confidence group;
     mf_entropy := if leads then numOrUndefined (obj_get payload "extractionEntropy")
                   else mf_entropy group;
     mf_clause := if leads
                  then orElse (as_js_string (obj_get payload "clause")) (mf_clause group)
                  else mf_clause group;
     mf_days := foldDays (mf_days group) (payload_days payload) leads;
     mf_supersedes := union_supersedes (mf_supersedes group)
                        (idList (obj_get payload "supersedes"));
     mf_recorder := if leads then fc_indexerId (contributor_of row) else mf_recorder group;
     mf_leaderId := if leads then cr_id row else mf_leaderId group;
     mf_leaderChunkSeq := if leads then cr_chunkSeq row else mf_leaderChunkSeq group;
     mf_mergedIds := app (mf_mergedIds group)
                       [if leads then mf_leaderId group else cr_id row];
     mf_contributors := app (mf_contributors group) [contributor_of row] |}.

Record FactState := {
  fs_groups : list (string * MergedFact);
  fs_rejected : list RejectedCandidate
}.

Definition foldFactIntoGroup (groupKey entityKey : string) (row : CandidateRow)
    (groups : list (string * MergedFact)) : list (string * MergedFact) :=
  OMap.set groupKey
    (match OMap.get groupKey groups with
     | None => new_fact entityKey row
     | Some group => fold_fact group row
     end) groups.

Definition merge_fact (scopeToKey : list (string * string)) (st : FactState)
    (row : CandidateRow) : FactState :=
  if negb (bool_decide (cr_kind row = KFact)) then st
  else
    let p := cr_payload row in
    let drop_row reason :=
      {| fs_groups := fs_groups st; fs_rejected := app (fs_rejected st) [reject row reason] |} in
    match truthy (OMap.get (scopeRef (cr_runId row) (cr_chunkSeq row) (obj_get p "entityIndex"))
                    scopeToKey) with
    | None => drop_row "orphan_entity"
    | Some entityKey =>
        match obj_get p "predicate", obj_get p "object" with
        | VStr predicate, VStr object =>
            {| fs_groups := foldFactIntoGroup
                 (joinKey [entityKey; predicate; normalizeObject object]) entityKey row
                 (fs_groups st);
               fs_rejected := fs_rejected st |}
        | _, _ => drop_row "malformed_fact"
        end
    end.

Definition mergeFacts (rows : list CandidateRow) (ctx : MergeContext) :
    list MergedFact * MergeContext :=
  let st := fold_left (merge_fact (mc_scopeToKey ctx)) rows
              {| fs_groups := []; fs_rejected := mc_rejected ctx |} in
  (OMap.vals (fs_groups st),
   {| mc_scopeToKey := mc_scopeToKey ctx; mc_rejected := fs_rejected st |}).

(** ** Relations *)

Record MergedRelation := {
  mr_fromKey : string;
  mr_toKey : string;
  mr_kind : string;
  mr_confidence : float;
  mr_days : Days;
  mr_leaderId : string;
  mr_mergedIds : list string
}.

(** [Math.max], NaN included. *)
Definition float_max (a b : float) : float :=
  if PrimFloat.eqb a a then (if PrimFloat.eqb b b then (if gtb b a then b else a) else b) else a.

Record RelationState := {
  rs_groups : list (string * MergedRelation);
  rs_rejected : list RejectedCandidate
}.

Definition new_relation (fromKey toKey : string) (row : CandidateRow) : MergedRelation :=
  let p := cr_payload row in
  {| mr_fromKey := fromKey; mr_toKey := toKey;
     mr_kind := js_to_string num_to_string (obj_get p "kind");
     mr_confidence := cr_confidence row;
     mr_days := {| dy_eventTime := strOrUndefined (obj_get p "eventTime");
                   dy_endTime := strOrUndefined (obj_get p "endTime");
                   dy_expectedEnd := None |};
     mr_leaderId := cr_id row; mr_mergedIds := [] |}.

Definition fold_relation (group : MergedRelation) (row : CandidateRow) : MergedRelation :=
  {| mr_fromKey := mr_fromKey group; mr_toKey := mr_toKey group; mr_kind := mr_kind group;
     mr_confidence := float_max (mr_confidence group) (cr_confidence row);
     mr_days := foldDays (mr_days group) (payload_days (cr_payload row))
                  (gtb (cr_confidence row) (mr_confidence group));
     mr_leaderId := mr_leaderId group;
     mr_mergedIds := app (mr_mergedIds group) [cr_id row] |}.

Definition merge_relation (scopeToKey : list (string * string)) (st : RelationState)
    (row : CandidateRow) : RelationState :=
  if negb (bool_decide (cr_kind row = KRelation)) then st
  else
    let p := cr_payload row in
    let endpoint field :=
      truthy (OMap.get (scopeRef (cr_runId row) (cr_chunkSeq row) (obj_get p field)) scopeToKey) in
    let drop_row :=
      {| rs_groups := rs_groups st;
         rs_rejected := app (rs_rejected st) [reject row "orphan_relation"] |} in
    match endpoint "fromEntityIndex", endpoint "toEntityIndex" with
    | Some fromKey, Some toKey =>
        if bool_decide (fromKey = toKey) then drop_row
        else
          let groupKey := joinKey [fromKey; toKey; js_to_string num_to_string (obj_get p "kind")] in
          {| rs_groups := OMap.set groupKey
               (match OMap.get groupKey (rs_groups st) with
                | None => new_relation fromKey toKey row
                | Some group => fold_relation group row
                end) (rs_groups st);
             rs_rejected := rs_rejected st |}
    | _, _ => drop_row
    end.

Definition mergeRelations (rows : list CandidateRow) (ctx : MergeContext) :
    list MergedRelation * MergeContext :=
  let st := fold_left (merge_relation (mc_scopeToKey ctx)) rows
              {| rs_groups := []; rs_rejected := mc_rejected ctx |} in
  (OMap.vals (rs_groups st),
   {| mc_scopeToKey := mc_scopeToKey ctx; mc_rejected := rs_rejected st |}).

Record MergeResult := {
  mg_entities : list MergedEntity;
  mg_facts : list MergedFact;
  mg_relations : list MergedRelation;
  mg_rejected : list RejectedCandidate
}.

Definition mergeCandidates (rows : list CandidateRow) : MergeResult :=
  let '(entities, ctx) := mergeEntities rows in
  let '(facts, ctx) := mergeFacts rows ctx in
  let '(relations, ctx) := mergeRelations rows ctx in
  {| mg_entities := entities; mg_facts := facts; mg_relations := relations;
     mg_rejected := mc_rejected ctx |}.

(** What the entity judge reads about an incoming entity. *)
Definition incomingFactsFor (merge : MergeResult) (entityKey : string) : list string :=
  let nameOf := fold_left (λ m e, OMap.set (me_key e) (me_name e) m) (mg_entities merge) [] in
  app
    (map (λ f, mf_predicate f +:+ ": " +:+ mf_object f)
       (List.filter (λ f, bool_decide (mf_entityKey f = entityKey)) (mg_facts merge)))
    (flat_map (λ r,
       let other :=
         if bool_decide (mr_fromKey r = entityKey) then OMap.get (mr_toKey r) nameOf
         else if bool_decide (mr_toKey r = entityKey) then OMap.get (mr_fromKey r) nameOf
         else None in
       match truthy other with Some o => [mr_kind r +:+ ": " +:+ o] | None => [] end)
       (mg_relations merge)).
End merge.

(** ** Accounting *)

Section accounting.
Variable num_to_string : float → string.
Variable iso_date : string → option string.

Definition fact_ids (f : MergedFact) : list string := mf_leaderId f :: mf_mergedIds f.
Definition relation_ids (r : MergedRelation) : list string := mr_leaderId r :: mr_mergedIds r.

Definition ids_of (k : CandidateKind) (rows : list CandidateRow) : list string :=
  map cr_id (List.filter (λ r, bool_decide (cr_kind r = k)) rows).

Lemma ids_of_cons k row rows :
  ids_of k (row :: rows) =
  app (if bool_decide (cr_kind row = k) then [cr_id row] else []) (ids_of k rows).
Proof. unfold ids_of. simpl. by case_bool_decide. Qed.

(** The kinds the merge reads; scenes and state deltas are projected elsewhere. *)
Definition semantic (row : CandidateRow) : bool :=
  match cr_kind row with KEntity | KFact | KRelation => true | KScene | KStateDelta => false end.

Lemma ids_of_partition rows :
  app (ids_of KEntity rows) (app (ids_of KFact rows) (ids_of KRelation rows)) ≡ₚ
  map cr_id (List.filter semantic rows).
Proof.
  induction rows as [|row rows IH]; [done|]. rewrite !ids_of_cons. cbn [List.filter].
  unfold semantic at 1. destruct (cr_kind row); simpl; rewrite <- ?IH; [done| | |done|done].
  - symmetry. apply Permutation_middle.
  - symmetry. rewrite !app_assoc. apply Permutation_middle.
Qed.

(** *** Entities *)

Lemma collect_spec rows acc :
  let out := fold_left collect_item rows acc in
  let items := omap entity_item (List.filter (λ r, bool_decide (cr_kind r = KEntity)) rows) in
  out.1.1 = fold_left uf_step (flat_map item_ops items) acc.1.1 ∧
  out.1.2 = app acc.1.2 items ∧
  app (map (λ it, cr_id (ei_row it)) out.1.2) (map rj_candidateId out.2) ≡ₚ
  app (map (λ it, cr_id (ei_row it)) acc.1.2) (app (map rj_candidateId acc.2) (ids_of KEntity rows)).
Proof.
  revert acc. induction rows as [|row rows IH]; intros [[dsu items0] rej]; cbn [fold_left].
  { simpl. split_and!; [done|by rewrite app_nil_r|by rewrite app_nil_r]. }
  specialize (IH (collect_item (dsu, items0, rej) row)).
  destruct IH as (E1 & E2 & E3). rewrite E1, E2 in *. rewrite ids_of_cons.
  unfold collect_item in *. simpl List.filter.
  case_bool_decide as Hk; cbn [negb fst snd] in *.
  - simpl omap.
    assert (Hit : ∀ it, entity_item row = Some it → ei_row it = row).
    { intros it. unfold entity_item. destruct (obj_get _ "name"); try done.
      case_bool_decide; [done|]. intros; by simplify_eq. }
    destruct (entity_item row) as [it|] eqn:Ei; cbn [fst snd] in *.
    + split_and!; [by rewrite <- fold_left_app| |].
      * by rewrite <- app_assoc.
      * rewrite E3, map_app. simpl. rewrite (Hit it eq_refl), <- app_assoc.
        apply Permutation_app_head. simpl. apply Permutation_middle.
    + split_and!; [done|done|]. rewrite E3, map_app. simpl. by rewrite <- !app_assoc.
  - split_and!; [done|done|]. by rewrite E3.
Qed.

(** Entity candidates by class. *)
Definition item_key (dsu : parents) (it : EntityItem) : string := root dsu (ei_nameKey it).

Definition class_ids (dsu : parents) (k : string) (items : list EntityItem) : list string :=
  map (λ it, cr_id (ei_row it)) (List.filter (λ it, bool_decide (item_key dsu it = k)) items).

Definition entities_ok (dsu : parents) (items : list EntityItem) (st : EntityState) : Prop :=
  uf_wf (es_dsu st) ∧
  (∀ y, OMap.has y (es_dsu st) = OMap.has y dsu) ∧
  (∀ y, OMap.has y dsu = true → root (es_dsu st) y = root dsu y) ∧
  OMap.wf (es_entities st) ∧
  (∀ k, match OMap.get k (es_entities st) with
        | Some e => me_key e = k ∧ me_candidateIds e = class_ids dsu k items
        | None => class_ids dsu k items = []
        end) ∧
  flat_map me_candidateIds (OMap.vals (es_entities st)) ≡ₚ map (λ it, cr_id (ei_row it)) items.

Lemma group_item_ok dsu items st it :
  OMap.has (ei_nameKey it) dsu = true →
  entities_ok dsu items st →
  entities_ok dsu (app items [it]) (group_item num_to_string st it).
Proof.
  intros Hh (Hwf & Hhas & Hroot & Hm & Hk & Hp). unfold group_item.
  assert (Hh' : OMap.has (ei_nameKey it) (es_dsu st) = true) by by rewrite Hhas.
  pose proof (uf_find_spec (ei_nameKey it) (es_dsu st) Hwf) as Hf.
  assert (Hadd : uf_add (ei_nameKey it) (es_dsu st) = es_dsu st)
    by (unfold uf_add; by rewrite Hh').
  destruct (uf_find (ei_nameKey it) (es_dsu st)) as [key dsu'].
  rewrite Hadd in Hf. destruct Hf as (Hwf' & Hkey & Hhas' & Hroot').
  rewrite Hroot in Hkey by done. fold (item_key dsu it) in Hkey.
  assert (Hids : ∀ k, class_ids dsu k (app items [it]) =
    app (class_ids dsu k items) (if bool_decide (item_key dsu it = k) then [cr_id (ei_row it)] else [])).
  { intros k. unfold class_ids. rewrite List.filter_app, map_app. simpl. by case_bool_decide. }
  split_and!; cbn [es_dsu es_entities]; [done| | | | |].
  - intros y. by rewrite Hhas', Hhas.
  - intros y Hy. rewrite Hroot' by (by rewrite Hhas). by apply Hroot.
  - by apply OMap.wf_set.
  - intros k. rewrite OMap.get_set, Hids, Hkey. specialize (Hk k).
    case_bool_decide as Heq.
    + rewrite Heq. destruct (OMap.get k (es_entities st)) as [e|]; simpl.
      * destruct Hk as [-> ->]. done.
      * by rewrite Hk.
    + rewrite app_nil_r. done.
  - pose proof (OMap.vals_set_perm me_candidateIds key) as Hv.
    specialize (Hk key). rewrite map_app. simpl.
    destruct (OMap.get key (es_entities st)) as [e|] eqn:Ee.
    + match goal with |- flat_map _ (OMap.vals (OMap.set _ ?v _)) ≡ₚ _ =>
        specialize (Hv v (es_entities st)) end.
      rewrite Ee in Hv. cbn [me_candidateIds] in Hv.
      apply (Permutation_app_inv_l (me_candidateIds e)). rewrite Hv, Hp, <- app_assoc.
      apply Permutation_app_head, Permutation_app_comm.
    + match goal with |- flat_map _ (OMap.vals (OMap.set _ ?v _)) ≡ₚ _ =>
        specialize (Hv v (es_entities st)) end.
      rewrite Ee in Hv. cbn [app me_candidateIds] in Hv. rewrite Hv, Hp.
      apply Permutation_cons_append.
Qed.

Lemma group_items_ok dsu items0 items st :
  (∀ it, it ∈ items → OMap.has (ei_nameKey it) dsu = true) →
  entities_ok dsu items0 st →
  entities_ok dsu (app items0 items) (fold_left (group_item num_to_string) items st).
Proof.
  revert items0 st. induction items as [|it items IH]; intros items0 st Hh Hok; simpl.
  { by rewrite app_nil_r. }
  replace (app items0 (it :: items)) with (app (app items0 [it]) items)
    by by rewrite <- app_assoc.
  apply IH; [intros; apply Hh; by right|]. apply group_item_ok; [apply Hh; by left|done].
Qed.

(** The items of the entity candidates, and the union-find they build. *)
Definition items_of (rows : list CandidateRow) : list EntityItem :=
  omap entity_item (List.filter (λ r, bool_decide (cr_kind r = KEntity)) rows).

Definition ops_of (rows : list CandidateRow) : list uf_op := flat_map item_ops (items_of rows).

Lemma items_known rows it :
  it ∈ items_of rows → OMap.has (ei_nameKey it) (uf_run (ops_of rows)) = true.
Proof.
  intros Hit. apply (uf_run_has _ [] []); [apply classes_empty|]. right.
  unfold ops_of. apply list_elem_of_In, in_flat_map. exists it.
  split; [by apply list_elem_of_In|]. by left.
Qed.

Lemma mergeEntities_ok rows :
  let dsu := uf_run (ops_of rows) in
  let out := mergeEntities num_to_string rows in
  NoDup (map me_key out.1) ∧
  (∀ e, e ∈ out.1 → me_candidateIds e = class_ids dsu (me_key e) (items_of rows)) ∧
  app (flat_map me_candidateIds out.1) (map rj_candidateId (mc_rejected out.2)) ≡ₚ
    ids_of KEntity rows.
Proof.
  unfold mergeEntities, collectEntityItems.
  pose proof (collect_spec rows ([], [], [])) as H.
  destruct (fold_left collect_item rows ([], [], [])) as [[dsu items] rej].
  cbn [fst snd map app] in H. destruct H as (-> & -> & Hids).
  fold (items_of rows) (ops_of rows) (uf_run (ops_of rows)) in *.
  pose proof (group_items_ok (uf_run (ops_of rows)) [] (items_of rows)
    {| es_dsu := uf_run (ops_of rows); es_scopeToKey := []; es_entities := [] |}) as Hg.
  destruct Hg as (_ & _ & _ & Hm & Hk & Hp).
  - intros it. apply items_known.
  - split_and!; simpl; [|done|done|constructor|done|done].
    apply (cl_wf _ _ (classes_run (ops_of rows) [] [] classes_empty)).
  - cbn [fst snd mc_rejected]. cbn [app] in Hk, Hp. split_and!.
    + rewrite (OMap.map_vals_key me_key); [done|done|]. intros k e He. specialize (Hk k).
      rewrite He in Hk. tauto.
    + intros e He. apply OMap.get_vals in He as [k He]; [|done]. specialize (Hk k).
      rewrite He in Hk. destruct Hk as [-> ->]. done.
    + by rewrite Hp.
Qed.

(** *** Facts and relations *)

Lemma upsert_ids {G} (ids : G → list string) k (v : G) (m : list (string * G)) id :
  ids v ≡ₚ app (match OMap.get k m with Some g => ids g | None => [] end) [id] →
  flat_map ids (OMap.vals (OMap.set k v m)) ≡ₚ app (flat_map ids (OMap.vals m)) [id].
Proof.
  intros Hv. pose proof (OMap.vals_set_perm ids k v m) as H.
  destruct (OMap.get k m) as [g|].
  - apply (Permutation_app_inv_l (ids g)). rewrite H, Hv, <- app_assoc.
    apply Permutation_app_head, Permutation_app_comm.
  - cbn [app] in H. rewrite H, Hv. apply Permutation_app_comm.
Qed.

Lemma fold_fact_ids g row :
  fact_ids (fold_fact num_to_string iso_date g row) ≡ₚ app (fact_ids g) [cr_id row].
Proof.
  unfold fact_ids, fold_fact. cbn [mf_leaderId mf_mergedIds].
  destruct (gtb (cr_confidence row) (mf_confidence g)); [|done].
  rewrite app_comm_cons, (Permutation_app_comm (mf_leaderId g :: mf_mergedIds g)).
  simpl. apply perm_skip. apply Permutation_app_comm.
Qed.

Lemma merge_fact_ids scope st row :
  let st' := merge_fact num_to_string iso_date scope st row in
  app (flat_map fact_ids (OMap.vals (fs_groups st'))) (map rj_candidateId (fs_rejected st')) ≡ₚ
  app (app (flat_map fact_ids (OMap.vals (fs_groups st))) (map rj_candidateId (fs_rejected st)))
    (ids_of KFact [row]).
Proof.
  cbn zeta. unfold merge_fact. rewrite ids_of_cons. unfold ids_of. cbn [List.filter map].
  case_bool_decide as Hk; cbn [negb app]; [|by rewrite app_nil_r].
  assert (Hdrop : ∀ reason, app (flat_map fact_ids (OMap.vals (fs_groups st)))
      (map rj_candidateId (app (fs_rejected st) [reject row reason])) ≡ₚ
    app (app (flat_map fact_ids (OMap.vals (fs_groups st))) (map rj_candidateId (fs_rejected st)))
      [cr_id row]) by (intros; by rewrite map_app, app_assoc).
  destruct (truthy _) as [ek|]; [|by apply Hdrop].
  destruct (obj_get _ "predicate"); try by apply Hdrop.
  destruct (obj_get _ "object"); try by apply Hdrop.
  cbn [fs_groups fs_rejected]. unfold foldFactIntoGroup. rewrite (upsert_ids _ _ _ _ (cr_id row)).
  - rewrite <- !app_assoc. apply Permutation_app_head, Permutation_app_comm.
  - destruct (OMap.get _ (fs_groups st)); [apply fold_fact_ids|done].
Qed.

Lemma merge_relation_ids scope st row :
  let st' := merge_relation num_to_string scope st row in
  app (flat_map relation_ids (OMap.vals (rs_groups st'))) (map rj_candidateId (rs_rejected st')) ≡ₚ
  app (app (flat_map relation_ids (OMap.vals (rs_groups st))) (map rj_candidateId (rs_rejected st)))
    (ids_of KRelation [row]).
Proof.
  cbn zeta. unfold merge_relation. rewrite ids_of_cons. unfold ids_of. cbn [List.filter map].
  case_bool_decide as Hk; cbn [negb app]; [|by rewrite app_nil_r].
  assert (Hdrop : app (flat_map relation_ids (OMap.vals (rs_groups st)))
      (map rj_candidateId (app (rs_rejected st) [reject row "orphan_relation"])) ≡ₚ
    app (app (flat_map relation_ids (OMap.vals (rs_groups st))) (map rj_candidateId (rs_rejected st)))
      [cr_id row]) by (by rewrite map_app, app_assoc).
  destruct (truthy (OMap.get (scopeRef _ _ _ (obj_get _ "fromEntityIndex")) _)) as [f|];
    [|by apply Hdrop].
  destruct (truthy _) as [t|]; [|by apply Hdrop].
  case_bool_decide; [by apply Hdrop|].
  cbn [rs_groups rs_rejected]. rewrite (upsert_ids _ _ _ _ (cr_id row)).
  - rewrite <- !app_assoc. apply Permutation_app_head, Permutation_app_comm.
  - destruct (OMap.get _ (rs_groups st)); done.
Qed.

(** A pass that accounts for each row accounts for all of them. *)
Lemma fold_ids {S} (step : S → CandidateRow → S) (ids : S → list string) k :
  (∀ st row, ids (step st row) ≡ₚ app (ids st) (ids_of k [row])) →
  ∀ rows st, ids (fold_left step rows st) ≡ₚ app (ids st) (ids_of k rows).
Proof.
  intros Hstep. induction rows as [|row rows IH]; intros st; simpl; [by rewrite app_nil_r|].
  rewrite IH, Hstep, <- app_assoc, (ids_of_cons k row rows), ids_of_cons. simpl.
  by rewrite app_nil_r.
Qed.

(** *** Groups as folds over their rows *)

Definition group_of (entityKey : string) (hd : CandidateRow) (tl : list CandidateRow) : MergedFact :=
  fold_left (fold_fact num_to_string iso_date) tl (new_fact num_to_string iso_date entityKey hd).

Definition groups_ok (rows : list CandidateRow) (m : list (string * MergedFact)) : Prop :=
  OMap.wf m ∧
  ∀ k f, OMap.get k m = Some f →
    ∃ ek hd tl, f = group_of ek hd tl ∧ sublist (hd :: tl) rows.

Lemma merge_fact_groups scope done_ st row :
  groups_ok done_ (fs_groups st) →
  groups_ok (app done_ [row]) (fs_groups (merge_fact num_to_string iso_date scope st row)).
Proof.
  intros [Hm Hg].
  assert (Hkeep : groups_ok (app done_ [row]) (fs_groups st)).
  { split; [done|]. intros k f Hf. destruct (Hg k f Hf) as (ek & hd & tl & -> & Hs).
    exists ek, hd, tl. split; [done|]. by apply sublist_inserts_r. }
  unfold merge_fact. destruct (negb _); [done|]. destruct (truthy _) as [ek|]; [|done].
  destruct (obj_get _ "predicate"); try done. destruct (obj_get _ "object"); try done.
  cbn [fs_groups]. unfold foldFactIntoGroup. split; [by apply OMap.wf_set|].
  intros k f. rewrite OMap.get_set. case_bool_decide as Hk; [|by apply Hkeep].
  intros [= <-]. destruct (OMap.get _ (fs_groups st)) as [g|] eqn:Eg.
  - destruct (Hg _ _ Eg) as (ek' & hd & tl & -> & Hs). exists ek', hd, (app tl [row]).
    split; [unfold group_of; by rewrite fold_left_app|].
    rewrite app_comm_cons. by apply sublist_app.
  - exists ek, row, []. split; [done|]. by apply sublist_inserts_l.
Qed.

Lemma mergeFacts_groups rows ctx f :
  f ∈ (mergeFacts num_to_string iso_date rows ctx).1 →
  ∃ ek hd tl, f = group_of ek hd tl ∧ sublist (hd :: tl) rows.
Proof.
  unfold mergeFacts. cbn [fst].
  assert (H : ∀ todo done_ st, groups_ok done_ (fs_groups st) →
    groups_ok (app done_ todo)
      (fs_groups (fold_left (merge_fact num_to_string iso_date (mc_scopeToKey ctx)) todo st))).
  { induction todo as [|row todo IH]; intros done_ st Hok; simpl; [by rewrite app_nil_r|].
    replace (app done_ (row :: todo)) with (app (app done_ [row]) todo)
      by by rewrite <- app_assoc.
    by apply IH, merge_fact_groups. }
  intros Hf. destruct (H rows [] {| fs_groups := []; fs_rejected := mc_rejected ctx |}) as [Hm Hg].
  { split; [constructor|done]. }
  apply OMap.get_vals in Hf as [k Hk]; [|done]. by apply (Hg k).
Qed.

(** What one group keeps of the rows folded into it. *)
Record group_inv (f : MergedFact) (rows : list CandidateRow) : Prop := {
  gi_ids : fact_ids f ≡ₚ map cr_id rows;
  gi_contributors : mf_contributors f = map (contributor_of num_to_string iso_date) rows;
  gi_leader : ∃ row, row ∈ rows ∧ cr_id row = mf_leaderId f ∧
    cr_confidence row = mf_confidence f ∧ cr_chunkSeq row = mf_leaderChunkSeq f ∧
    fc_indexerId (contributor_of num_to_string iso_date row) = mf_recorder f;
  gi_max : ∀ row, row ∈ rows → gtb (cr_confidence row) (mf_confidence f) = false;
  gi_days : ∀ row, row ∈ rows →
    let p := payload_days (cr_payload row) in
    (is_Some (dy_eventTime p) → is_Some (dy_eventTime (mf_days f))) ∧
    (is_Some (dy_endTime p) → is_Some (dy_endTime (mf_days f))) ∧
    (is_Some (dy_expectedEnd p) → is_Some (dy_expectedEnd (mf_days f)));
  gi_supersedes : ∀ row ids x, row ∈ rows →
    idList (obj_get (cr_payload row) "supersedes") = Some ids → x ∈ ids →
    ∃ all, mf_supersedes f = Some all ∧ x ∈ all
}.

Lemma new_fact_inv ek row : group_inv (new_fact num_to_string iso_date ek row) [row].
Proof.
  split; try done.
  - exists row. split_and!; try done. by left.
  - intros r ->%list_elem_of_singleton. apply float_ltb_irrefl.
  - intros r ->%list_elem_of_singleton. done.
  - intros r ids x ->%list_elem_of_singleton Hids Hx. by exists ids.
Qed.

Lemma orElse_l {A} (a b : option A) : is_Some a → is_Some (orElse a b).
Proof. by intros [x ->]. Qed.
Lemma orElse_r {A} (a b : option A) : is_Some b → is_Some (orElse a b).
Proof. by destruct a. Qed.

Lemma foldDays_keeps g p leads (q : Days → option string) :
  q = dy_eventTime ∨ q = dy_endTime ∨ q = dy_expectedEnd →
  is_Some (q g) ∨ is_Some (q p) → is_Some (q (foldDays g p leads)).
Proof.
  intros [->|[->| ->]] [H|H]; destruct leads; simpl;
    first [by apply orElse_l | by apply orElse_r].
Qed.

Lemma fold_fact_inv f rows row :
  group_inv f rows → group_inv (fold_fact num_to_string iso_date f row) (app rows [row]).
Proof.
  intros [Hids Hc Hl Hm Hd Hs]. split.
  - by rewrite fold_fact_ids, Hids, map_app.
  - by rewrite map_app, <- Hc.
  - destruct Hl as (r & Hr & E1 & E2 & E3 & E4). unfold fold_fact.
    cbn [mf_leaderId mf_confidence mf_leaderChunkSeq mf_recorder].
    destruct (gtb (cr_confidence row) (mf_confidence f)).
    + exists row. split_and!; try done. apply elem_of_app. right. by left.
    + exists r. split_and!; try done. apply elem_of_app. by left.
  - intros r. rewrite elem_of_app, list_elem_of_singleton. unfold fold_fact. cbn [mf_confidence].
    destruct (gtb (cr_confidence row) (mf_confidence f)) eqn:E; intros [Hr| ->].
    + apply (float_ltb_raise (mf_confidence f)); [done|]. by apply Hm.
    + apply float_ltb_irrefl.
    + by apply Hm.
    + done.
  - intros r Hr. cbn zeta. unfold fold_fact. cbn [mf_days].
    apply elem_of_app in Hr as [Hr| ->%list_elem_of_singleton].
    + destruct (Hd r Hr) as (H1 & H2 & H3).
      split_and!; intros H; apply foldDays_keeps; auto.
    + split_and!; intros H; apply foldDays_keeps; auto.
  - intros r ids x Hr Hi Hx. unfold fold_fact. cbn [mf_supersedes]. unfold union_supersedes.
    apply elem_of_app in Hr as [Hr| ->%list_elem_of_singleton].
    + destruct (Hs r ids x Hr Hi Hx) as (all & -> & Hin).
      destruct (idList (obj_get (cr_payload row) "supersedes")) as [new|]; [|by exists all].
      exists (add_all all new). split; [reflexivity|]. apply elem_of_add_all. by left.
    + rewrite Hi. eexists. split; [reflexivity|]. apply elem_of_add_all. by right.
Qed.

Lemma group_of_inv ek hd tl : group_inv (group_of ek hd tl) (hd :: tl).
Proof.
  unfold group_of. pattern tl. apply rev_ind; clear tl.
  - apply new_fact_inv.
  - intros row tl IH. rewrite fold_left_app, app_comm_cons. by apply fold_fact_inv.
Qed.
End accounting.

(** Merging loses no candidate and counts none twice: the candidate ids of the
    merged entities, the leaders and merged ids of the facts and relations, and the
    rejected ids are together exactly the ids of the staged entity, fact and relation
    rows. *)
Theorem every_candidate_lands_once num_to_string iso_date rows :
  let merge := mergeCandidates num_to_string iso_date rows in
  app (flat_map me_candidateIds (mg_entities merge))
    (app (flat_map fact_ids (mg_facts merge))
      (app (flat_map relation_ids (mg_relations merge))
        (map rj_candidateId (mg_rejected merge)))) ≡ₚ map cr_id (List.filter semantic rows).
Proof.
  cbn zeta. unfold mergeCandidates.
  destruct (mergeEntities_ok num_to_string iso_date rows) as (_ & _ & He).
  destruct (mergeEntities num_to_string rows) as [entities ctx]. cbn [fst snd] in He.
  unfold mergeFacts, mergeRelations.
  pose proof (fold_ids _ _ _ (merge_fact_ids num_to_string iso_date (mc_scopeToKey ctx)) rows
    {| fs_groups := []; fs_rejected := mc_rejected ctx |}) as Hf.
  set (fs := fold_left _ rows _) in *. cbn [fs_groups fs_rejected OMap.vals flat_map map app] in Hf.
  cbn [mc_scopeToKey mc_rejected].
  pose proof (fold_ids _ _ _ (merge_relation_ids num_to_string (mc_scopeToKey ctx)) rows
    {| rs_groups := []; rs_rejected := fs_rejected fs |}) as Hr.
  set (rs := fold_left _ rows {| rs_groups := []; rs_rejected := _ |}) in *.
  cbn [rs_groups rs_rejected OMap.vals flat_map map app] in Hr.
  cbn [mg_entities mg_facts mg_relations mg_rejected mc_rejected].
  rewrite Hr, (app_assoc (flat_map fact_ids _)), Hf, <- !app_assoc, (app_assoc (flat_map _ _)), He.
  apply ids_of_partition.
Qed.

(** *** A concrete document *)

(** Two indexers name one company two ways, a third candidate is malformed, and two
    facts about it agree up to spacing. *)
Definition sample_rows : list CandidateRow :=
  let row id run seq kind conf payload :=
    {| cr_id := id; cr_runId := run; cr_chunkSeq := seq; cr_kind := kind;
       cr_confidence := conf; cr_payload := payload |} in
  [row "e1" "r1" 0%Z KEntity 0.9%float
     [("name", VStr "Acme"); ("type", VStr "org"); ("entityIndex", VStr "0")];
   row "e2" "r2" 1%Z KEntity 0.8%float
     [("name", VStr "ACME Inc"); ("type", VStr "org"); ("canonical", VStr "acme");
      ("entityIndex", VStr "0")];
   row "e3" "r2" 1%Z KEntity 0.8%float [("name", VStr "  ")];
   row "f1" "r1" 0%Z KFact 0.5%float
     [("entityIndex", VStr "0"); ("predicate", VStr "hq"); ("object", VStr "New  York");
      ("eventTime", VStr "2020")];
   row "f2" "r2" 1%Z KFact 0.7%float
     [("entityIndex", VStr "0"); ("predicate", VStr "hq"); ("object", VStr "New York ")];
   row "f3" "r3" 1%Z KFact 0.7%float
     [("entityIndex", VStr "0"); ("predicate", VStr "hq"); ("object", VStr "Paris")]].

Definition sample_merge : MergeResult :=
  mergeCandidates (λ _, "n") Some sample_rows.

Example sample_merge_shape :
  map me_candidateIds (mg_entities sample_merge) = [["e1"; "e2"]] ∧
  map (λ f, (mf_leaderId f, mf_mergedIds f, dy_eventTime (mf_days f))) (mg_facts sample_merge) =
    [("f2", ["f1"], Some "2020")] ∧
  map rj_candidateId (mg_rejected sample_merge) = ["e3"; "f3"].
Proof. split_and!; vm_compute; reflexivity. Qed.

(** C27. The merged entities are the alias classes: no two have one key, an entity
    holds exactly the candidates whose alias has its key, two candidates have one key
    exactly when a chain of names, canonical names and external ids shared within a type
    links them, and the key is an alias of the class and the smallest one. *)
Theorem entities_are_alias_classes num_to_string iso_date rows it1 it2 :
  it1 ∈ items_of rows → it2 ∈ items_of rows →
  let dsu := uf_run (ops_of rows) in
  let entities := mg_entities (mergeCandidates num_to_string iso_date rows) in
  NoDup (map me_key entities) ∧
  (∀ e, e ∈ entities → me_candidateIds e = class_ids dsu (me_key e) (items_of rows)) ∧
  (item_key dsu it1 = item_key dsu it2 ↔
   linked (uf_edges (ops_of rows)) (ei_nameKey it1) (ei_nameKey it2)) ∧
  linked (uf_edges (ops_of rows)) (ei_nameKey it1) (item_key dsu it1) ∧
  (linked (uf_edges (ops_of rows)) (ei_nameKey it1) (ei_nameKey it2) →
   str_le (item_key dsu it1) (ei_nameKey it2)).
Proof.
  intros H1 H2 dsu entities.
  destruct (mergeEntities_ok num_to_string iso_date rows) as (Hn & Hc & _).
  assert (E : entities = (mergeEntities num_to_string rows).1).
  { unfold entities, mergeCandidates. destruct (mergeEntities num_to_string rows) as [es ctx].
    destruct (mergeFacts _ _ rows ctx) as [fs ctx1]. by destruct (mergeRelations _ rows ctx1). }
  rewrite E. destruct (classes_roots (ops_of rows) (ei_nameKey it1) (ei_nameKey it2))
    as (Hiff & _ & Hl & Hle); [by apply items_known..|]. auto.
Qed.

(** The leader of a merged fact is the most confident of its candidates: every
    contributor's row went into the group, the leader's confidence, chunk and recorder
    are those of one of them, none is more confident, and no day or superseded id any
    of them named is lost. *)
Theorem fact_leader_is_most_confident num_to_string iso_date rows f :
  f ∈ mg_facts (mergeCandidates num_to_string iso_date rows) →
  ∃ group, sublist group rows ∧ group_inv num_to_string iso_date f group.
Proof.
  unfold mergeCandidates. destruct (mergeEntities num_to_string rows) as [es ctx].
  intros Hf. destruct (mergeFacts_groups num_to_string iso_date rows ctx f) as (ek & hd & tl & -> & Hs).
  - destruct (mergeFacts _ _ rows ctx) as [fs ctx1]. by destruct (mergeRelations _ rows ctx1).
  - exists (hd :: tl). split; [done|]. apply group_of_inv.
Qed.

Lemma entities_are_alias_classes_witness :
  ∃ it1 it2, items_of sample_rows = [it1; it2] ∧
    linked (uf_edges (ops_of sample_rows)) (ei_nameKey it1) (ei_nameKey it2) ∧
    NoDup (map me_key (mg_entities sample_merge)).
Proof.
  destruct (items_of sample_rows) as [|it1 [|it2 [|]]] eqn:E; try (vm_compute in E; discriminate).
  exists it1, it2. destruct (entities_are_alias_classes (λ _, "n") Some sample_rows it1 it2)
    as (Hn & _ & Hiff & _); [rewrite E; by left|rewrite E; right; by left|].
  split_and!; [done| |exact Hn]. apply Hiff. vm_compute in E. injection E as <- <-.
  vm_compute. reflexivity.
Defined.

Lemma fact_leader_is_most_confident_witness :
  match mg_facts sample_merge with
  | [f] => mf_leaderId f = "f2" ∧
           ∃ group, sublist group sample_rows ∧ group_inv (λ _, "n") Some f group
  | _ => False
  end.
Proof.
  pose proof (fact_leader_is_most_confident (λ _, "n") Some sample_rows) as H.
  assert (Hs : map mf_leaderId (mg_facts sample_merge) = ["f2"]) by (vm_compute; reflexivity).
  change (mg_facts (mergeCandidates _ _ _)) with (mg_facts sample_merge) in H.
  destruct (mg_facts sample_merge) as [|f [|g fs]]; [discriminate| |discriminate].
  split; [injection Hs as Hs; exact Hs|]. apply H. by left.
Defined.
