(* ===== verification/RunLedger.v ===== *)
(** * The run ledger and the staged candidates

    [documents/candidate-store.service.ts]: one [indexer_run] row per document, pack and
    version, and the candidate rows a run staged. Each statement of the datastore is a
    step of its own, the two of one query string included: the query that reopens a run
    is a deletion and a compare-and-set. Settings read from the environment are
    arguments. *)

From S2P Require Import Prelude Js Resume CandidateMerge.
From stdpp Require Import gmap sorting.
From Stdlib Require Import Ascii.
Local Open Scope string_scope.
Local Open Scope nat_scope.

Definition GENERAL_INDEXER_ID : string := "_general".
Definition GENERAL_INDEXER_VERSION : string := "3".
Definition CORE_INDEXER_ID : string := "core".

(** ** Rows *)

Inductive RunStatus : Type := RPending | RRunning | RSucceeded | RFailed | RSkipped.

#[export] Instance RunStatus_eq_dec : EqDecision RunStatus.
Proof. solve_decision. Defined.

(** The fields of the unique index. *)
Record RunKey := { rk_docId : string; rk_packId : string; rk_packVersion : string }.

#[export] Instance RunKey_eq_dec : EqDecision RunKey.
Proof. solve_decision. Defined.

(** [rn_raw] is [stats.depth = 'raw']. *)
Record RunRow := {
  rn_key : RunKey;
  rn_status : RunStatus;
  rn_external : bool;
  rn_claimToken : option string;
  rn_createdAt : Z;
  rn_finishedAt : option Z;
  rn_error : option string;
  rn_raw : bool;
  rn_priority : option Z
}.

Inductive CandidateStatus : Type := CPending | CCommitted | CMerged | CDuplicate | CRejected | CExpired.

#[export] Instance CandidateStatus_eq_dec : EqDecision CandidateStatus.
Proof. solve_decision. Defined.

(** What a candidate says, as it is staged. *)
Record StagedPart := {
  sp_kind : CandidateKind;
  sp_confidence : float;
  sp_payload : list (string * jsval)
}.

Record StagedRow := {
  sg_docId : string;
  sg_runId : string;
  sg_chunkSeq : Z;
  sg_part : StagedPart;
  sg_status : CandidateStatus;
  sg_statusReason : option string;
  sg_commitRef : option string;
  sg_createdAt : Z;
  sg_decidedAt : option Z
}.

(** The columns of the document row the ledger's queries read. *)
Record DocRow := {
  dc_status : string;
  dc_occurredAt : Z;
  dc_userId : option string;
  dc_conversationId : option string
}.

Record Ledger := {
  lg_docs : gmap string DocRow;
  lg_runs : gmap string RunRow;
  lg_cands : gmap string StagedRow;
  lg_now : Z
}.

Definition with_runs (m : gmap string RunRow) (s : Ledger) : Ledger :=
  {| lg_docs := lg_docs s; lg_runs := m; lg_cands := lg_cands s; lg_now := lg_now s |}.
Definition with_cands (m : gmap string StagedRow) (s : Ledger) : Ledger :=
  {| lg_docs := lg_docs s; lg_runs := lg_runs s; lg_cands := m; lg_now := lg_now s |}.

Definition with_run_status (st : RunStatus) (finished : option Z) (err : option string) (raw : bool) (r : RunRow) :
    RunRow :=
  {| rn_key := rn_key r; rn_status := st; rn_external := rn_external r; rn_claimToken := rn_claimToken r;
     rn_createdAt := rn_createdAt r; rn_finishedAt := finished; rn_error := err; rn_raw := raw;
     rn_priority := rn_priority r |}.

(** ** Opening a run *)

Record RunHandle := { rh_runId : string; rh_created : bool }.

Definition of_slot (k : RunKey) (kv : string * RunRow) : bool := bool_decide (rn_key kv.2 = k).

Definition find_run (k : RunKey) (s : Ledger) : option (string * RunRow) :=
  find_first (of_slot k) (map_to_list (lg_runs s)).

(** A CREATE under the unique index: the new row's id, or the violation. *)
Definition create_run (k : RunKey) (st : RunStatus) (external : bool) (s : Ledger) : Ledger * option string :=
  match find_run k s with
  | Some _ => (s, None)
  | None =>
      let id := fresh (dom (lg_runs s)) in
      (with_runs (<[id := {| rn_key := k; rn_status := st; rn_external := external; rn_claimToken := None;
                             rn_createdAt := lg_now s; rn_finishedAt := None; rn_error := None; rn_raw := false;
                             rn_priority := None |}]> (lg_runs s)) s, Some id)
  end.

(** [DELETE candidate WHERE runId = $run] *)
Definition drop_candidates (runId : string) (s : Ledger) : Ledger :=
  with_cands (filter (λ kv : string * StagedRow, sg_runId kv.2 ≠ runId) (lg_cands s)) s.

Definition reopened (now : Z) (r : RunRow) : RunRow :=
  {| rn_key := rn_key r; rn_status := RRunning; rn_external := rn_external r; rn_claimToken := rn_claimToken r;
     rn_createdAt := now; rn_finishedAt := None; rn_error := None; rn_raw := false; rn_priority := rn_priority r |}.

(** [UPDATE ... SET status = 'running', ... WHERE status = $observed RETURN AFTER] *)
Definition reopen_cas (runId : string) (observed : RunStatus) (s : Ledger) : Ledger * bool :=
  match lg_runs s !! runId with
  | Some r => if bool_decide (rn_status r = observed)
              then (with_runs (<[runId := reopened (lg_now s) r]> (lg_runs s)) s, true) else (s, false)
  | None => (s, false)
  end.

Definition isStaleRunning (staleMs jsNow : Z) (r : RunRow) : bool :=
  bool_decide (rn_status r = RRunning) && (staleMs <? jsNow - rn_createdAt r)%Z.

Definition reopenable (staleMs jsNow : Z) (r : RunRow) : bool :=
  bool_decide (rn_status r = RPending) || bool_decide (rn_status r = RFailed) || isStaleRunning staleMs jsNow r.

Definition createRun (staleMs jsNow : Z) (k : RunKey) (external : bool) :
    prog Ledger (result http_exn RunHandle) :=
  do* created := update (create_run k RRunning external) in
  match created with
  | Some id => Done (Ok {| rh_runId := id; rh_created := true |})
  | None =>
      do* existing := query (find_run k) in
      match existing with
      | None => Done (Throw (Internal "index already contains"))
      | Some (runId, r) =>
          if reopenable staleMs jsNow r then
            do* _ := exec (drop_candidates runId) in
            do* swapped := update (reopen_cas runId (rn_status r)) in
            Done (Ok {| rh_runId := runId; rh_created := swapped |})
          else Done (Ok {| rh_runId := runId; rh_created := false |})
      end
  end.

Definition ensureRunPending (k : RunKey) (external : bool) : prog Ledger unit :=
  do* _ := update (create_run k RPending external) in Done tt.

(** ** Closing runs *)

Definition finalizeRun (runId : string) (st : RunStatus) (err : option string) (raw : bool) : prog Ledger unit :=
  exec (λ s, with_runs (alter (with_run_status st (Some (lg_now s)) err raw) runId (lg_runs s)) s).

Definition fail_where (staleMs extMs now : Z) (r : RunRow) : bool :=
  (negb (rn_external r) &&
   (bool_decide (rn_status r = RRunning) ||
    (bool_decide (rn_status r = RPending) && negb (bool_decide (rk_packId (rn_key r) = GENERAL_INDEXER_ID)))) &&
   (rn_createdAt r <? now - staleMs)%Z) ||
  (rn_external r && bool_decide (rn_status r = RPending) && (rn_createdAt r <? now - extMs)%Z).

Definition release_where (staleMs now : Z) (r : RunRow) : bool :=
  rn_external r && bool_decide (rn_status r = RRunning) && (rn_createdAt r <? now - staleMs)%Z.

Definition released (now : Z) (r : RunRow) : RunRow :=
  {| rn_key := rn_key r; rn_status := RPending; rn_external := rn_external r; rn_claimToken := None;
     rn_createdAt := now; rn_finishedAt := rn_finishedAt r; rn_error := rn_error r; rn_raw := rn_raw r;
     rn_priority := rn_priority r |}.

Definition update_runs (p : Z → RunRow → bool) (g : Z → RunRow → RunRow) (s : Ledger) : Ledger :=
  with_runs ((λ r, if p (lg_now s) r then g (lg_now s) r else r) <$> lg_runs s) s.

Definition count_runs (p : Z → RunRow → bool) (s : Ledger) : nat :=
  length (List.filter (λ kv, p (lg_now s) kv.2) (map_to_list (lg_runs s))).

Definition reapStaleRuns (staleMs extMs : Z) : prog Ledger nat :=
  do* failed := query (count_runs (fail_where staleMs extMs)) in
  do* released_ := query (count_runs (release_where staleMs)) in
  do* _ := (if 0 <? failed then
              exec (update_runs (fail_where staleMs extMs)
                      (λ now r, with_run_status RFailed (Some now) (Some "stale_reaped") (rn_raw r) r))
            else Done tt) in
  do* _ := (if 0 <? released_ then exec (update_runs (release_where staleMs) released) else Done tt) in
  Done (failed + released_).

(** ** Asking for reads *)

Inductive PromotionTarget : Type :=
| TDocs (docIds : list string)
| TConversation (conversationId : string) (userId : option string).

Definition targeted (t : PromotionTarget) (s : Ledger) (r : RunRow) : bool :=
  match t with
  | TDocs ids => bool_decide (rk_docId (rn_key r) ∈ ids)
  | TConversation c u =>
      match lg_docs s !! rk_docId (rn_key r) with
      | Some d => bool_decide (dc_conversationId d = Some c) && bool_decide (dc_userId d = truthy u)
      | None => false
      end
  end.

Definition of_pack (packId packVersion : string) (r : RunRow) : bool :=
  bool_decide (rk_packId (rn_key r) = packId) && bool_decide (rk_packVersion (rn_key r) = packVersion).

Definition kept_raw (r : RunRow) : bool := bool_decide (rn_status r = RSkipped) && rn_raw r.

Definition waits_lower (p : Z) (r : RunRow) : bool :=
  bool_decide (rn_status r = RPending) && (default 0%Z (rn_priority r) <? p)%Z.

(** A reopened row loses its end and its error and keeps its stats; a waiting one only
    moves up. *)
Definition promoted (p : Z) (st : RunStatus) (r : RunRow) : RunRow :=
  {| rn_key := rn_key r; rn_status := st; rn_external := rn_external r; rn_claimToken := rn_claimToken r;
     rn_createdAt := rn_createdAt r; rn_finishedAt := if bool_decide (rn_status r = RSkipped) then None else rn_finishedAt r;
     rn_error := if bool_decide (rn_status r = RSkipped) then None else rn_error r; rn_raw := rn_raw r;
     rn_priority := Some p |}.

Definition promote_where (sel : Ledger → RunRow → bool) (p : Z) (s : Ledger) : Ledger * nat :=
  (with_runs ((λ r, if sel s r then promoted p RPending r else r) <$> lg_runs s) s,
   length (List.filter (λ kv, sel s kv.2) (map_to_list (lg_runs s)))).

Definition promote (packId packVersion : string) (p : Z) (t : PromotionTarget) : prog Ledger nat :=
  match t with
  | TDocs [] => Done 0
  | _ =>
      do* reopened_ := update (promote_where (λ s r, of_pack packId packVersion r && targeted t s r && kept_raw r) p) in
      do* moved := update (promote_where (λ s r, of_pack packId packVersion r && targeted t s r && waits_lower p r) p) in
      Done (reopened_ + moved)
  end.

(** [ORDER BY priority DESC, at ASC LIMIT $limit] *)
Definition awaits (packId packVersion : string) (includeFailed : bool) (exclude : list string) (r : RunRow) : bool :=
  of_pack packId packVersion r && negb (rn_external r) &&
  (bool_decide (rn_status r = RPending) || (includeFailed && bool_decide (rn_status r = RFailed))) &&
  negb (bool_decide (rk_docId (rn_key r) ∈ exclude)).

Definition occurred_at (s : Ledger) (r : RunRow) : Z :=
  match lg_docs s !! rk_docId (rn_key r) with Some d => dc_occurredAt d | None => 0 end.

Definition read_before (s : Ledger) (a b : RunRow) : Prop :=
  (default 0%Z (rn_priority b) < default 0%Z (rn_priority a))%Z ∨
  (default 0%Z (rn_priority a) = default 0%Z (rn_priority b) ∧ (occurred_at s a <= occurred_at s b)%Z).

#[export] Instance read_before_dec s a b : Decision (read_before s a b).
Proof. unfold read_before. apply _. Defined.

Definition listAwaitingRuns (packId packVersion : string) (includeFailed : bool) (limit : nat) (exclude : list string)
    (s : Ledger) : list (string * Z * Z) :=
  map (λ r, (rk_docId (rn_key r), rn_createdAt r, default 0%Z (rn_priority r)))
    (take limit (merge_sort (read_before s)
      (List.filter (awaits packId packVersion includeFailed exclude) (map snd (map_to_list (lg_runs s)))))).

(** ** Staging *)

Inductive ExecutionMode : Type := Virtual | Dedicated | External.

Definition mode_name (m : ExecutionMode) : string :=
  match m with Virtual => "virtual" | Dedicated => "dedicated" | External => "external" end.

Record Provenance := {
  pv_indexerId : string;
  pv_packVersion : string;
  pv_executionMode : ExecutionMode;
  pv_model : option string;
  pv_sourceVersion : option SourceVersionStamp
}.

Record CandidateEntity := {
  ce_entityIndex : Z; ce_name : string; ce_type : string; ce_canonical : option string;
  ce_externalId : option string; ce_known : option string; ce_ungrounded : option bool
}.

Record CandidateFact := {
  cf_entityIndex : Z; cf_predicate : string; cf_object : string; cf_confidence : float;
  cf_clause : option string; cf_days : Days; cf_supersedes : list string; cf_ungrounded : option bool;
  cf_entropy : option float; cf_agreement : option float
}.

Record CandidateRelation := {
  cl_fromEntityIndex : Z; cl_toEntityIndex : Z; cl_kind : string; cl_confidence : float;
  cl_clause : option string; cl_eventTime : option string; cl_endTime : option string
}.

(** A date is the value the driver binds. *)
Record CandidateScene := {
  cs_sceneIndex : Z; cs_schemaId : string; cs_label : string; cs_gist : string;
  cs_occurredFrom : option jsval; cs_occurredTo : option jsval; cs_confidence : float; cs_ungrounded : option bool
}.

Record CandidateStateDelta := {
  cd_sceneIndex : Z; cd_stateModelId : string; cd_subject : string; cd_from : option string; cd_to : string;
  cd_confidence : float; cd_ungrounded : option bool
}.

Record CandidateBatch := {
  cb_provenance : Provenance;
  cb_entities : list CandidateEntity;
  cb_facts : list CandidateFact;
  cb_relations : list CandidateRelation;
  cb_scenes : option (list CandidateScene);
  cb_stateDeltas : option (list CandidateStateDelta)
}.

(** [indexOf('__')]: the text before the separator. *)
Fixpoint before_sep (p : string) : option string :=
  match p with
  | String "_"%char (String "_"%char _) => Some ""
  | String c p' => match before_sep p' with Some h => Some (String c h) | None => None end
  | EmptyString => None
  end.

Definition indexerIdOfPredicate (predicate : string) : string :=
  match truthy (before_sep predicate) with Some h => h | None => CORE_INDEXER_ID end.

Section staging.
(** The double of a small integer. *)
Variable num : Z → float.

Definition opt_field (k : string) (v : option jsval) : list (string * jsval) :=
  match v with Some x => [(k, x)] | None => [] end.
Definition str_field (k : string) (v : option string) : list (string * jsval) := opt_field k (VStr <$> v).
(** [...(v ? { k: v } : {})] *)
Definition truthy_field (k : string) (v : option string) : list (string * jsval) := str_field k (truthy v).

Definition prov_fields (indexerId : string) (p : Provenance) : list (string * jsval) :=
  [("indexerId", VStr indexerId); ("packVersion", VStr (pv_packVersion p));
   ("executionMode", VStr (mode_name (pv_executionMode p)));
   ("model", match pv_model p with Some m => VStr m | None => VNull end)].

Definition stamp_value (v : SourceVersionStamp) : jsval :=
  VObj [("system", VStr (sv_system v)); ("ref", VStr (sv_ref v)); ("version", VStr (sv_version v));
        ("readAt", VStr (sv_readAt v))].

Definition entity_part (p : Provenance) (e : CandidateEntity) : StagedPart :=
  {| sp_kind := KEntity; sp_confidence := 0.5%float;
     sp_payload := concat
       [ [("entityIndex", VNum (num (ce_entityIndex e))); ("name", VStr (ce_name e)); ("type", VStr (ce_type e))];
         str_field "canonical" (ce_canonical e); truthy_field "externalId" (ce_externalId e);
         truthy_field "known" (ce_known e); opt_field "ungrounded" (VBool <$> ce_ungrounded e);
         prov_fields (pv_indexerId p) p ] |}.

Definition fact_part (p : Provenance) (f : CandidateFact) : StagedPart :=
  {| sp_kind := KFact; sp_confidence := cf_confidence f;
     sp_payload := concat
       [ [("entityIndex", VNum (num (cf_entityIndex f))); ("predicate", VStr (cf_predicate f));
          ("object", VStr (cf_object f))];
         str_field "clause" (cf_clause f);
         truthy_field "eventTime" (dy_eventTime (cf_days f)); truthy_field "endTime" (dy_endTime (cf_days f));
         truthy_field "expectedEnd" (dy_expectedEnd (cf_days f));
         (if 0 <? length (cf_supersedes f) then [("supersedes", VArr (map VStr (cf_supersedes f)))] else []);
         opt_field "ungrounded" (VBool <$> cf_ungrounded f);
         opt_field "extractionEntropy" (VNum <$> cf_entropy f);
         opt_field "extractionAgreement" (VNum <$> cf_agreement f);
         prov_fields (match pv_executionMode p with
                      | Virtual => indexerIdOfPredicate (cf_predicate f)
                      | _ => pv_indexerId p
                      end) p;
         opt_field "sourceVersion" (stamp_value <$> pv_sourceVersion p) ] |}.

Definition relation_part (p : Provenance) (r : CandidateRelation) : StagedPart :=
  {| sp_kind := KRelation; sp_confidence := cl_confidence r;
     sp_payload := concat
       [ [("fromEntityIndex", VNum (num (cl_fromEntityIndex r))); ("toEntityIndex", VNum (num (cl_toEntityIndex r)));
          ("kind", VStr (cl_kind r))];
         str_field "clause" (cl_clause r); truthy_field "eventTime" (cl_eventTime r);
         truthy_field "endTime" (cl_endTime r); prov_fields (pv_indexerId p) p ] |}.

Definition scene_part (p : Provenance) (c : CandidateScene) : StagedPart :=
  {| sp_kind := KScene; sp_confidence := cs_confidence c;
     sp_payload := concat
       [ [("sceneIndex", VNum (num (cs_sceneIndex c))); ("schemaId", VStr (cs_schemaId c));
          ("label", VStr (cs_label c)); ("gist", VStr (cs_gist c))];
         opt_field "occurredFrom" (cs_occurredFrom c); opt_field "occurredTo" (cs_occurredTo c);
         opt_field "ungrounded" (VBool <$> cs_ungrounded c); prov_fields (pv_indexerId p) p ] |}.

Definition delta_part (p : Provenance) (d : CandidateStateDelta) : StagedPart :=
  {| sp_kind := KStateDelta; sp_confidence := cd_confidence d;
     sp_payload := concat
       [ [("sceneIndex", VNum (num (cd_sceneIndex d))); ("stateModelId", VStr (cd_stateModelId d));
          ("subject", VStr (cd_subject d))];
         str_field "from" (cd_from d); [("to", VStr (cd_to d))];
         opt_field "ungrounded" (VBool <$> cd_ungrounded d); prov_fields (pv_indexerId p) p ] |}.

Definition batch_parts (b : CandidateBatch) : list StagedPart :=
  let p := cb_provenance b in
  concat [ map (entity_part p) (cb_entities b); map (fact_part p) (cb_facts b);
           map (relation_part p) (cb_relations b); map (scene_part p) (default [] (cb_scenes b));
           map (delta_part p) (default [] (cb_stateDeltas b)) ].

Record InsertBatchCounts := {
  ic_entities : nat; ic_facts : nat; ic_relations : nat; ic_scenes : option nat; ic_stateDeltas : option nat
}.

Definition batch_counts (b : CandidateBatch) : InsertBatchCounts :=
  {| ic_entities := length (cb_entities b); ic_facts := length (cb_facts b);
     ic_relations := length (cb_relations b); ic_scenes := length <$> cb_scenes b;
     ic_stateDeltas := length <$> cb_stateDeltas b |}.

Definition staged_row (docId runId : string) (chunkSeq now : Z) (p : StagedPart) : StagedRow :=
  {| sg_docId := docId; sg_runId := runId; sg_chunkSeq := chunkSeq; sg_part := p; sg_status := CPending;
     sg_statusReason := None; sg_commitRef := None; sg_createdAt := now; sg_decidedAt := None |}.

(** [INSERT INTO candidate $rows]: one statement, a fresh id for each row. *)
Definition insert_candidates (rows : list StagedRow) (s : Ledger) : Ledger :=
  with_cands (fold_left (λ m r, <[fresh (dom m) := r]> m) rows (lg_cands s)) s.

Definition insertBatch (docId runId : string) (chunkSeq : Z) (b : CandidateBatch) : prog Ledger InsertBatchCounts :=
  do* _ := (if 0 <? length (batch_parts b) then
              exec (λ s, insert_candidates (map (staged_row docId runId chunkSeq (lg_now s)) (batch_parts b)) s)
            else Done tt) in
  Done (batch_counts b).
End staging.

Definition dropRunCandidates (runId : string) : prog Ledger unit := exec (drop_candidates runId).

(** ** Reading and deciding *)

Definition open_run (docId : string) (r : RunRow) : bool :=
  bool_decide (rk_docId (rn_key r) = docId) &&
  (bool_decide (rn_status r = RPending) || bool_decide (rn_status r = RRunning)) && negb (rn_external r).

Definition countNonTerminalRuns (docId : string) (s : Ledger) : nat := count_runs (λ _, open_run docId) s.

(** [ORDER BY chunkSeq ASC, createdAt ASC] *)
Definition staged_before (a b : string * StagedRow) : Prop :=
  (sg_chunkSeq a.2 < sg_chunkSeq b.2)%Z ∨
  (sg_chunkSeq a.2 = sg_chunkSeq b.2 ∧ (sg_createdAt a.2 <= sg_createdAt b.2)%Z).

#[export] Instance staged_before_dec a b : Decision (staged_before a b).
Proof. unfold staged_before. apply _. Defined.

Definition of_doc (docId : string) (onlyPending : bool) (kv : string * StagedRow) : bool :=
  bool_decide (sg_docId kv.2 = docId) && (negb onlyPending || bool_decide (sg_status kv.2 = CPending)).

(** The row as the commit reads it. *)
Definition candidate_row (kv : string * StagedRow) : CandidateRow :=
  {| cr_id := kv.1; cr_runId := sg_runId kv.2; cr_chunkSeq := sg_chunkSeq kv.2; cr_kind := sp_kind (sg_part kv.2);
     cr_confidence := sp_confidence (sg_part kv.2); cr_payload := sp_payload (sg_part kv.2) |}.

Definition loadByDoc (docId : string) (onlyPending : bool) (s : Ledger) : list CandidateRow :=
  map candidate_row (merge_sort staged_before (List.filter (of_doc docId onlyPending) (map_to_list (lg_cands s)))).

Definition loadPending (docId : string) (s : Ledger) : list CandidateRow := loadByDoc docId true s.

Record StatusUpdate := {
  su_id : string;
  su_kind : CandidateKind;
  su_status : CandidateStatus;
  su_reason : option string;
  su_ref : option string
}.

Definition decided (now : Z) (u : StatusUpdate) (r : StagedRow) : StagedRow :=
  {| sg_docId := sg_docId r; sg_runId := sg_runId r; sg_chunkSeq := sg_chunkSeq r; sg_part := sg_part r;
     sg_status := su_status u; sg_statusReason := su_reason u; sg_commitRef := su_ref u;
     sg_createdAt := sg_createdAt r; sg_decidedAt := Some now |}.

(** [FOR $u IN $updates { UPDATE ... }] *)
Definition mark_statuses (updates : list StatusUpdate) (s : Ledger) : Ledger :=
  with_cands (fold_left (λ m u, alter (decided (lg_now s) u) (su_id u) m) updates (lg_cands s)) s.

Definition markStatuses (updates : list StatusUpdate) : prog Ledger unit :=
  if length updates =? 0 then Done tt else exec (mark_statuses updates).

(** Documents with staged candidates and no landed commit: the first 5000 rows the
    datastore gives, at most [limit] documents. *)
Definition needs_commit (s : Ledger) (docId : string) : bool :=
  match lg_docs s !! docId with
  | Some d => negb (bool_decide (dc_status d = "purged")) && negb (bool_decide (dc_status d = ""))
  | None => false
  end.

Definition findDocsNeedingCommit (limit : nat) (s : Ledger) : list string :=
  take limit (add_all [] (List.filter (needs_commit s)
    (map (λ kv, sg_docId kv.2) (take 5000
      (List.filter (λ kv, bool_decide (sg_status kv.2 = CPending)) (map_to_list (lg_cands s))))))).

(** ** Calls that share the ledger *)

Inductive ledger_call : Type :=
| COpen (staleMs jsNow : Z) (k : RunKey) (external : bool)
| CEnsure (k : RunKey) (external : bool)
| CFinalize (runId : string) (st : RunStatus) (err : option string) (raw : bool)
| CReap (staleMs extMs : Z)
| CPromote (packId packVersion : string) (p : Z) (t : PromotionTarget)
| CStage (docId runId : string) (chunkSeq : Z) (num : Z → float) (b : CandidateBatch)
| CDrop (runId : string)
| CMark (updates : list StatusUpdate)
| CClock (d : Z).

Definition later (d : Z) (s : Ledger) : Ledger :=
  {| lg_docs := lg_docs s; lg_runs := lg_runs s; lg_cands := lg_cands s; lg_now := lg_now s + Z.max 0 d |}.

(** The slot the call was told it opened. *)
Definition opened (k : RunKey) (r : result http_exn RunHandle) : option RunKey :=
  match r with Ok h => if rh_created h then Some k else None | Throw _ => None end.

Definition call_prog (c : ledger_call) : prog Ledger (option RunKey) :=
  match c with
  | COpen staleMs jsNow k external => do* r := createRun staleMs jsNow k external in Done (opened k r)
  | CEnsure k external => do* _ := ensureRunPending k external in Done None
  | CFinalize runId st err raw => do* _ := finalizeRun runId st err raw in Done None
  | CReap staleMs extMs => do* _ := reapStaleRuns staleMs extMs in Done None
  | CPromote packId packVersion p t => do* _ := promote packId packVersion p t in Done None
  | CStage docId runId chunkSeq num b => do* _ := insertBatch num docId runId chunkSeq b in Done None
  | CDrop runId => do* _ := dropRunCandidates runId in Done None
  | CMark updates => do* _ := markStatuses updates in Done None
  | CClock d => do* _ := exec (later d) in Done None
  end.

(** A slot has one row. *)
Definition slots_ok (s : Ledger) : Prop :=
  ∀ i j r1 r2, lg_runs s !! i = Some r1 → lg_runs s !! j = Some r2 → rn_key r1 = rn_key r2 → i = j.

Definition keys_kept (m m' : gmap string RunRow) : Prop :=
  ∀ i r, m !! i = Some r → ∃ r', m' !! i = Some r' ∧ rn_key r' = rn_key r.

Lemma find_run_Some k s id r :
  find_run k s = Some (id, r) → lg_runs s !! id = Some r ∧ rn_key r = k.
Proof.
  unfold find_run. intros (H1 & H2)%find_first_Some. apply elem_of_map_to_list in H1.
  split; [done|]. by apply bool_decide_eq_true in H2.
Qed.

Lemma find_run_None k s : find_run k s = None → ∀ id r, lg_runs s !! id = Some r → rn_key r ≠ k.
Proof.
  unfold find_run. rewrite find_first_None, existsb_false_In. intros H id r Hr Hk.
  specialize (H (id, r) (proj2 (elem_of_map_to_list _ _ _) Hr)). by apply bool_decide_eq_false in H.
Qed.

Lemma inserted_rows rows (m : gmap string StagedRow) id row :
  fold_left (λ m r, <[fresh (dom m) := r]> m) rows m !! id = Some row → m !! id = Some row ∨ row ∈ rows.
Proof.
  revert m. induction rows as [|r rows IH]; intros m; cbn; [by left|]. intros [H|H]%IH; [|right; by right].
  rewrite lookup_insert in H. case_decide; [injection H as <-; right; by left|by left].
Qed.

Lemma fresh_run s : lg_runs s !! fresh (dom (lg_runs s)) = None.
Proof. apply not_elem_of_dom, is_fresh. Qed.

(** Rewriting rows without touching their keys. *)
Lemma slots_map (g : RunRow → RunRow) s :
  (∀ r, rn_key (g r) = rn_key r) → slots_ok s → slots_ok (with_runs (g <$> lg_runs s) s).
Proof.
  intros Hg Hok i j r1 r2. cbn [lg_runs with_runs]. rewrite !lookup_fmap.
  intros (r1' & H1 & ->)%fmap_Some (r2' & H2 & ->)%fmap_Some. rewrite !Hg. by apply Hok.
Qed.

Lemma slots_insert id r r' s :
  lg_runs s !! id = Some r → rn_key r' = rn_key r → slots_ok s → slots_ok (with_runs (<[id := r']> (lg_runs s)) s).
Proof.
  intros Hr Hk Hok i j r1 r2. cbn [lg_runs with_runs]. rewrite !lookup_insert.
  repeat case_decide; subst; intros; simplify_eq; [done| | |by eapply Hok].
  - eapply Hok; [exact Hr|done|congruence].
  - eapply Hok; [done|exact Hr|congruence].
Qed.

Lemma alter_runs g id (m : gmap string RunRow) :
  alter g id m = match m !! id with Some r => <[id := g r]> m | None => m end.
Proof.
  apply map_eq. intros j. rewrite lookup_alter. destruct (m !! id) as [r|] eqn:E.
  - rewrite lookup_insert. case_decide; subst; by rewrite ?E.
  - case_decide; subst; by rewrite ?E.
Qed.

Lemma create_run_slots k st ext s : slots_ok s → slots_ok (create_run k st ext s).1.
Proof.
  intros Hok. unfold create_run. destruct (find_run k s) eqn:E; [done|]. cbn [fst].
  pose proof (find_run_None _ _ E) as Hno. intros i j r1 r2. cbn [lg_runs with_runs]. rewrite !lookup_insert.
  repeat case_decide; subst; intros; simplify_eq; [done| | |by eapply Hok].
  - by destruct (Hno j r2).
  - by destruct (Hno i r1).
Qed.

Lemma reopen_cas_slots id st s : slots_ok s → slots_ok (reopen_cas id st s).1.
Proof.
  intros Hok. unfold reopen_cas. destruct (lg_runs s !! id) as [r|] eqn:E; [|done]. case_bool_decide; [|done].
  by apply (slots_insert id r).
Qed.

Lemma finalize_slots id st f err raw s :
  slots_ok s → slots_ok (with_runs (alter (with_run_status st f err raw) id (lg_runs s)) s).
Proof.
  intros Hok. rewrite alter_runs. destruct (lg_runs s !! id) as [r|] eqn:E; [by apply (slots_insert id r)|done].
Qed.

Lemma update_runs_slots p g s :
  (∀ now r, rn_key (g now r) = rn_key r) → slots_ok s → slots_ok (update_runs p g s).
Proof. intros Hg Hok. apply slots_map; [|done]. intros r. by destruct (p (lg_now s) r). Qed.

Lemma promote_slots sel p s : slots_ok s → slots_ok (promote_where sel p s).1.
Proof. intros Hok. apply slots_map; [|done]. intros r. by destruct (sel s r). Qed.

#[local] Hint Resolve create_run_slots reopen_cas_slots finalize_slots update_runs_slots promote_slots
  preserves_update preserves_exec preserves_query : brain.

Lemma call_slots c : preserves slots_ok (call_prog c).
Proof.
  destruct c; cbn [call_prog]; (apply preserves_bind; [|by intros]).
  - unfold createRun. apply preserves_bind; [auto with brain|]. intros [id|]; [done|].
    apply preserves_bind; [auto with brain|]. intros [ [id r]|]; [|done]. destruct (reopenable staleMs jsNow r); [|done].
    apply preserves_bind; [by apply preserves_exec|]. intros []. apply preserves_bind; [auto with brain|by intros].
  - apply preserves_bind; [auto with brain|by intros].
  - apply preserves_exec. intros s. apply finalize_slots.
  - unfold reapStaleRuns. apply preserves_bind; [auto with brain|]. intros f.
    apply preserves_bind; [auto with brain|]. intros n. apply preserves_bind.
    { destruct (0 <? f); [|done]. apply preserves_exec. auto with brain. }
    intros []. apply preserves_bind; [|by intros]. destruct (0 <? n); [|done]. apply preserves_exec. auto with brain.
  - unfold promote. destruct t as [[|d ds]|]; [done| |];
      (apply preserves_bind; [auto with brain|]; intros ?; apply preserves_bind; [auto with brain|by intros]).
  - apply preserves_bind; [|by intros]. destruct (0 <? _); [|done]. by apply preserves_exec.
  - by apply preserves_exec.
  - unfold markStatuses. destruct (_ =? 0); [done|]. by apply preserves_exec.
  - by apply preserves_exec.
Qed.

(** One ledger row per document, pack and version, whatever calls run and however their
    statements interleave. *)
Lemma ledger_keeps_one_row_per_slot cs sched s :
  slots_ok s → slots_ok (run_pool sched (s, map call_prog cs)).1.
Proof.
  intros Hok. apply (run_pool_preserves slots_ok); [done|]. apply Forall_forall.
  intros p (c & -> & _)%list_elem_of_fmap. apply call_slots.
Qed.

(** ** One opener at a time *)

Section opening.
Context (k : RunKey) (T : Z).

(** The slot waits to be opened. *)
Definition openable (s : Ledger) : Prop :=
  ∀ id r, lg_runs s !! id = Some r → rn_key r = k → rn_status r = RPending ∨ rn_status r = RFailed.

(** Its row, when it runs, was opened at [T] or later. *)
Record opened_since (s : Ledger) : Prop := {
  os_slots : slots_ok s;
  os_clock : (T <= lg_now s)%Z;
  os_fresh : ∀ id r, lg_runs s !! id = Some r → rn_key r = k → rn_status r = RRunning → (T <= rn_createdAt r)%Z
}.

Definition moves (s s' : Ledger) : Prop :=
  (¬ openable s → ¬ openable s') ∧ (opened_since s → opened_since s') ∧ keys_kept (lg_runs s) (lg_runs s').

(** The calls in question: openings of the slot for which no run opened at [T] is stale
    yet, and whatever neither closes a run nor asks for it again. *)
Definition leaves_open (c : ledger_call) : Prop :=
  match c with
  | COpen staleMs jsNow k' _ => k' = k → (jsNow - staleMs <= T)%Z
  | CFinalize _ _ _ _ | CReap _ _ | CPromote _ _ _ _ => False
  | _ => True
  end.

Lemma moves_same s s' : lg_runs s' = lg_runs s → (lg_now s <= lg_now s')%Z → moves s s'.
Proof.
  intros E Hn. unfold moves, openable, keys_kept. rewrite E. split; [done|]. split; [|by eauto].
  intros [H1 H2 H3]. split; [|lia|].
  - unfold slots_ok. rewrite E. apply H1.
  - rewrite E. apply H3.
Qed.

Lemma moves_create k' st ext s :
  moves s (create_run k' st ext s).1.
Proof.
  unfold create_run. destruct (find_run k' s) eqn:E; [by apply moves_same|]. cbn [fst].
  pose proof (find_run_None _ _ E) as Hno. set (id := fresh (dom (lg_runs s))).
  pose proof (fresh_run s) as Hf. fold id in Hf. unfold moves. cbn [lg_runs with_runs lg_now]. split; [|split].
  - intros Hn Ho. apply Hn. intros i r Hi. apply (Ho i). cbn [lg_runs with_runs].
    rewrite lookup_insert_ne; [done|]. intros ->. congruence.
  - intros [H1 H2 H3]. split; [|done|].
    + pose proof (create_run_slots k' st ext s H1) as H. unfold create_run in H. by rewrite E in H.
    + intros i r. cbn [lg_runs with_runs]. rewrite lookup_insert. case_decide; [|by apply H3]. by intros [= <-].
  - intros i r Hi. exists r. rewrite lookup_insert_ne; [done|]. intros ->. congruence.
Qed.

(** The compare-and-set on a row known to be of slot [k']. *)
Lemma moves_reopen id k' st s r :
  lg_runs s !! id = Some r → rn_key r = k' → moves s (reopen_cas id st s).1.
Proof.
  intros Hr Hk. unfold reopen_cas. rewrite Hr. case_bool_decide as Hst; [|by apply moves_same]. cbn [fst].
  unfold moves. cbn [lg_runs with_runs lg_now]. split; [|split].
  - intros Hn Ho. apply Hn. intros i r0 Hi Hk0. destruct (decide (i = id)) as [->|Hne].
    + assert (r0 = r) as -> by congruence. specialize (Ho id (reopened (lg_now s) r)).
      cbn [lg_runs with_runs] in Ho. rewrite lookup_insert_eq in Ho. by destruct (Ho eq_refl Hk0).
    + apply (Ho i); [cbn [lg_runs with_runs]; by rewrite lookup_insert_ne|done].
  - intros [H1 H2 H3]. split; [by apply (slots_insert id r)|done|].
    intros i r0. cbn [lg_runs with_runs]. rewrite lookup_insert. case_decide; [|by apply H3]. by intros [= <-].
  - intros i r0 Hi. rewrite lookup_insert. case_decide; [|by eauto]. subst. exists (reopened (lg_now s) r).
    split; [done|]. cbn. congruence.
Qed.

Lemma moves_openable s s' : moves s s' → ¬ openable s → ¬ openable s'.
Proof. by intros (? & _). Qed.

Definition holds_key (id : string) (k' : RunKey) (s : Ledger) : Prop :=
  opened_since s ∧ ∃ r, lg_runs s !! id = Some r ∧ rn_key r = k'.

Lemma stable_since : stable moves opened_since.
Proof. intros s s' H (_ & Hs & _). auto. Qed.

Lemma stable_key id k' : stable moves (holds_key id k').
Proof.
  intros s s' [H (r & Hr & Hk)] (_ & Hs & Hkeys). split; [auto|]. destruct (Hkeys id r Hr) as (r' & ? & ?).
  exists r'. split; [done|congruence].
Qed.

Definition won_slot (o : option RunKey) : bool := bool_decide (o = Some k).

Lemma relies_done {A} (ok : A → bool) K (a : A) : relies moves openable ok K (Done a) true.
Proof. done. Qed.

(** Every statement moves the ledger within bounds and the end opens nothing here. *)
Fixpoint idles (p : prog Ledger (option RunKey)) : Prop :=
  match p with
  | Done a => won_slot a = false
  | Stmt f => ∀ s, moves s (f s).1 ∧ idles (f s).2
  end.

Lemma idles_relies p K won : stable moves K → idles p → relies moves openable won_slot K p won.
Proof.
  revert p. fix IH 1. intros [a|f] HK Hp; cbn [relies idles] in *; [by rewrite Hp|]. intros s Hs.
  specialize (Hp s). destruct (f s) as [s' p'] eqn:E. destruct Hp as [Hm Hp]. split; [done|].
  exists K. split; [by eapply HK|]. split; [done|]. left. by apply IH.
Qed.

(** A compare-and-set that swaps finds the slot openable and leaves it taken. *)
Lemma cas_takes id st s :
  holds_key id k s → st = RPending ∨ st = RFailed → (reopen_cas id st s).2 = true →
  openable s ∧ ¬ openable (reopen_cas id st s).1.
Proof.
  intros [Hs (r & Hr & Hk)] Hst. unfold reopen_cas. rewrite Hr. case_bool_decide as E; [|done]. intros _. split.
  - intros i r0 Hi Hk0. assert (i = id) as -> by (eapply (os_slots _ Hs); [done|done|congruence]).
    assert (r0 = r) as -> by congruence. by rewrite E.
  - intros Ho. specialize (Ho id (reopened (lg_now s) r)). cbn [fst lg_runs with_runs] in Ho.
    rewrite lookup_insert_eq in Ho. by destruct (Ho eq_refl Hk).
Qed.

Lemma create_takes st ext s id :
  st = RRunning → (create_run k st ext s).2 = Some id → openable s ∧ ¬ openable (create_run k st ext s).1.
Proof.
  intros -> . unfold create_run. destruct (find_run k s) eqn:E; [done|]. intros _. split.
  - intros i r Hi Hk. by destruct (find_run_None _ _ E i r).
  - intros Ho. specialize (Ho (fresh (dom (lg_runs s)))). cbn [fst lg_runs with_runs] in Ho.
    rewrite lookup_insert_eq in Ho. by destruct (Ho _ eq_refl eq_refl).
Qed.

Lemma open_relies staleMs jsNow k' ext :
  (k' = k → (jsNow - staleMs <= T)%Z) →
  relies moves openable won_slot opened_since (call_prog (COpen staleMs jsNow k' ext)) false.
Proof.
  intros Hfresh s Hs. cbn [call_prog createRun pbind update].
  destruct (create_run k' RRunning ext s) as [s1 [id|]] eqn:E1; cbn [pbind].
  { assert (Hm : moves s s1) by (replace s1 with (create_run k' RRunning ext s).1 by (by rewrite E1); apply moves_create).
    split; [done|]. exists opened_since. split; [by apply Hm|]. split; [apply stable_since|].
    destruct (decide (k' = k)) as [->|Hne].
    - right. destruct (create_takes RRunning ext s id eq_refl) as [H1 H2]; [by rewrite E1|].
      rewrite E1 in H2. split_and!; [done..|]. by cbn.
    - left. cbn. unfold won_slot. rewrite bool_decide_eq_false_2; [done|congruence]. }
  assert (Hm : moves s s1) by (replace s1 with (create_run k' RRunning ext s).1 by (by rewrite E1); apply moves_create).
  split; [done|]. exists opened_since. split; [by apply Hm|]. split; [apply stable_since|]. left.
  intros s2 Hs2. cbn [query pbind]. split; [by apply moves_same|].
  destruct (find_run k' s2) as [ [id r]|] eqn:E2.
  2: { exists opened_since. split; [done|]. split; [apply stable_since|]. left. by cbn. }
  destruct (find_run_Some _ _ _ _ E2) as [Hr Hk].
  destruct (reopenable staleMs jsNow r) eqn:Er.
  2: { exists opened_since. split; [done|]. split; [apply stable_since|]. left. by cbn. }
  exists (holds_key id k'). split; [split; [done|by eauto]|]. split; [apply stable_key|]. left.
  intros s3 Hs3. cbn [exec pbind]. split; [by apply moves_same|].
  exists (holds_key id k'). split; [apply (stable_key id k' s3); [done|by apply moves_same]|].
  split; [apply stable_key|]. left. intros s4 Hs4. cbn [update pbind].
  destruct (reopen_cas id (rn_status r) s4) as [s5 swapped] eqn:E5. cbn [pbind].
  assert (Hm5 : moves s4 s5).
  { destruct Hs4 as [_ (r4 & H4 & Hk4)]. replace s5 with (reopen_cas id (rn_status r) s4).1 by (by rewrite E5).
    by apply (moves_reopen id k' _ _ r4). }
  split; [done|]. exists opened_since. split; [apply Hm5, Hs4|]. split; [apply stable_since|].
  destruct swapped; [|left; by cbn]. destruct (decide (k' = k)) as [Hkk|Hne].
  - right. subst k'. assert (Hst : rn_status r = RPending ∨ rn_status r = RFailed).
    { unfold reopenable, isStaleRunning in Er. rewrite !orb_true_iff, !bool_decide_eq_true, andb_true_iff in Er.
      destruct Er as [[?|?]|[Hrun Hst]]; [by left|by right|]. apply bool_decide_eq_true in Hrun.
      apply Z.ltb_lt in Hst. pose proof (os_fresh _ Hs2 id r Hr Hkk Hrun). specialize (Hfresh Hkk). lia. }
    rewrite Hkk in Hs4. destruct (cas_takes id (rn_status r) s4 Hs4 Hst) as [H1 H2]; [by rewrite E5|].
    rewrite E5 in H2. split_and!; [done..|]. by cbn.
  - left. cbn. unfold won_slot. rewrite bool_decide_eq_false_2; [done|congruence].
Qed.
End opening.

Section one_opener.
Context (k : RunKey) (T : Z).

Lemma moves_cands m s : moves k T s (with_cands m s).
Proof. by apply moves_same. Qed.

Lemma idles_none_stmt (f : Ledger → Ledger) :
  (∀ s, moves k T s (f s)) → idles k T (do* _ := exec f in Done None).
Proof. intros Hf s. split; [apply Hf|]. by cbn. Qed.

Lemma leaves_open_idles c :
  leaves_open k T c → (∀ staleMs jsNow k' ext, c ≠ COpen staleMs jsNow k' ext) → idles k T (call_prog c).
Proof.
  intros Hc Hno. destruct c; try done; cbn [call_prog].
  - by destruct (Hno staleMs jsNow k0 external).
  - intros s. cbn. destruct (create_run k0 RPending external s) as [s' o] eqn:E. split; [|by cbn].
    pose proof (moves_create k T k0 RPending external s) as H. by rewrite E in H.
  - unfold insertBatch. destruct (0 <? _); [|by cbn]. intros s. cbn. split; [apply moves_cands|by cbn].
  - apply idles_none_stmt. intros s. apply moves_cands.
  - unfold markStatuses. destruct (_ =? 0); [by cbn|]. apply idles_none_stmt. intros s. apply moves_cands.
  - apply idles_none_stmt. intros s. apply moves_same; [done|]. cbn. lia.
Qed.

Lemma call_relies c : leaves_open k T c →
  relies (moves k T) (openable k) (won_slot k) (opened_since k T) (call_prog c) false.
Proof.
  intros Hc.
  assert ((∃ a b k' e, c = COpen a b k' e) ∨ ∀ a b k' e, c ≠ COpen a b k' e) as [(a & b & k' & e & ->)|Hno]
    by (destruct c; (by right) || (left; by repeat eexists)).
  - by apply open_relies.
  - apply idles_relies; [apply stable_since|]. by apply leaves_open_idles.
Qed.
End one_opener.

(** C24. While no run opened at [T] or later goes stale and nothing closes a run, at most one
    of the calls that ask for a slot, however their statements interleave with each other
    and with staging, deciding and enqueuing, is told that it opened it. *)
Theorem one_opener_wins k T sched cs s i j :
  opened_since k T s → Forall (leaves_open k T) cs →
  (run_pool sched (s, map call_prog cs)).2 !! i = Some (Done (Some k)) →
  (run_pool sched (s, map call_prog cs)).2 !! j = Some (Done (Some k)) →
  i = j.
Proof.
  intros Hs Hall Hi Hj.
  refine (at_most_one_knowing (moves k T) (openable k) (won_slot k) (moves_openable k T) sched _ i j _ _ _ Hi _ Hj _);
    try by apply bool_decide_eq_true_2.
  apply Forall_forall. intros p (c & -> & Hc)%list_elem_of_fmap. exists (opened_since k T).
  split; [done|]. split; [apply stable_since|]. apply call_relies. by eapply Forall_forall in Hall.
Qed.

(** ** Samples *)

Definition slot_1 : RunKey := {| rk_docId := "d"; rk_packId := "core"; rk_packVersion := "1" |}.
Definition run_1 (st : RunStatus) (at_ : Z) : RunRow :=
  {| rn_key := slot_1; rn_status := st; rn_external := false; rn_claimToken := None; rn_createdAt := at_;
     rn_finishedAt := None; rn_error := None; rn_raw := false; rn_priority := None |}.
Definition ledger_1 (st : RunStatus) (at_ : Z) : Ledger :=
  {| lg_docs := ∅; lg_runs := {[ "r" := run_1 st at_ ]}; lg_cands := ∅; lg_now := 100 |}.
Definition entity_batch : CandidateBatch :=
  {| cb_provenance := {| pv_indexerId := "core"; pv_packVersion := "1"; pv_executionMode := Dedicated;
                         pv_model := None; pv_sourceVersion := None |};
     cb_entities := [{| ce_entityIndex := 0; ce_name := "Ann"; ce_type := "person"; ce_canonical := None;
                        ce_externalId := None; ce_known := None; ce_ungrounded := None |}];
     cb_facts := []; cb_relations := []; cb_scenes := None; cb_stateDeltas := None |}.

Definition two_openers : list ledger_call := [COpen 50 100 slot_1 false; COpen 50 100 slot_1 false].

Lemma ledger_1_since st : st ≠ RRunning → opened_since slot_1 100 (ledger_1 st 0).
Proof.
  intros Hst. split; [|cbn; lia|].
  - intros i j r1 r2 H1 H2 _. cbn in H1, H2. apply lookup_singleton_Some in H1 as [<- _], H2 as [<- _]. done.
  - intros i r H _ Hr. cbn in H. apply lookup_singleton_Some in H as [_ <-]. by destruct Hst.
Qed.

(** A failed run asked for twice, every statement of the two interleaved, is opened by the
    second alone. *)
Lemma one_opener_wins_witness :
  ∃ sched i, (run_pool sched (ledger_1 RFailed 0, map call_prog two_openers)).2 !! i = Some (Done (Some slot_1)) ∧
    ∀ j, (run_pool sched (ledger_1 RFailed 0, map call_prog two_openers)).2 !! j = Some (Done (Some slot_1)) → j = i.
Proof.
  exists [0; 1; 0; 1; 0; 1; 1; 0], 1. split; [by vm_compute|]. intros j Hj.
  apply (one_opener_wins slot_1 100 [0; 1; 0; 1; 0; 1; 1; 0] two_openers (ledger_1 RFailed 0)); [|..|exact Hj|by vm_compute].
  - by apply ledger_1_since.
  - repeat constructor; cbn; lia.
Defined.

(** A run left running past its window is opened by both: the compare-and-set swaps
    running for running. *)
Lemma stale_run_is_reopened_twice :
  (run_pool [0; 0; 1; 1; 0; 0; 1; 1] (ledger_1 RRunning 0, map call_prog two_openers)).2 =
  [Done (Some slot_1); Done (Some slot_1)].
Proof. by vm_compute. Qed.

(** An opener that loses the compare-and-set has deleted by then what the winner staged. *)
Lemma late_reopener_deletes_what_is_staged num :
  let cs := [COpen 50 100 slot_1 false; COpen 50 100 slot_1 false; CStage "d" "r" 0 num entity_batch] in
  let c := run_pool [0; 0; 1; 1; 0; 0; 2] (ledger_1 RFailed 0, map call_prog cs) in
  let c' := run_pool [1; 1] c in
  c.2 !! 0 = Some (Done (Some slot_1)) ∧ length (loadPending "d" c.1) = 1 ∧
  c'.2 !! 1 = Some (Done None) ∧ length (loadPending "d" c'.1) = 0.
Proof. split_and!; by vm_compute. Qed.
