(* ===== verification/Grounding.v ===== *)
(** * Grounding: a claim quotes the text it was read from

    [ai/extractor-internals/grounding.ts], the handles of
    [ai/extractor-internals/memory-context.ts] and [documents/candidate-grounding.ts]: the
    answer of a model, read field by field; the gates that drop what the text does not hold;
    the same gate on what an external indexer submits. Letters are those among the 8-bit
    code units. *)

From S2P Require Import Prelude Js Regex Doubles FactPolicy Names EventTime CandidateMerge RunLedger.
From stdpp Require Import gmap pretty.
From Stdlib Require Import Ascii SpecFloat FloatOps.
Local Open Scope string_scope.
Local Open Scope nat_scope.

(** What passed, and what was refused. *)
Definition oks {E A} (l : list (result E A)) : list A := omap (λ r, match r with Ok a => Some a | Throw _ => None end) l.
Definition throws {E A} (l : list (result E A)) : list E := omap (λ r, match r with Ok _ => None | Throw e => Some e end) l.

(** ** Spans *)

Definition normalizeForGrounding (s : string) : string := to_lower (trim (collapse_spaces false s)).

(** Letters of the scripts that part words by spaces. *)
Definition SPACED_WORD_CHAR (c : ascii) : bool := is_alpha c || (192 <=? nat_of_ascii c).

Definition boundaryOk (adjacent : option ascii) (edge : ascii) : bool :=
  if negb (SPACED_WORD_CHAR edge) then true
  else match adjacent with Some c => negb (SPACED_WORD_CHAR c) | None => true end.

(** [s.indexOf(needle)] *)
Fixpoint str_index (needle s : string) : option nat :=
  if starts_with needle s then Some 0
  else match s with String _ s' => S <$> str_index needle s' | EmptyString => None end.

(** [s.indexOf(needle, from)] of a needle that is not empty. *)
Definition str_index_from (needle s : string) (from : nat) : option nat :=
  (λ i, from + i) <$> str_index needle (str_drop from s).

Definition char_before (s : string) (i : nat) : option ascii := match i with O => None | S j => String.get j s end.

Definition first_of (s : string) : ascii := default "000"%char (String.get 0 s).
Definition last_of (s : string) : ascii := default "000"%char (String.get (String.length s - 1) s).

(** Not within a larger word. *)
Definition stands_at (input span : string) (idx : nat) : bool :=
  boundaryOk (char_before input idx) (first_of span) &&
  boundaryOk (String.get (idx + String.length span) input) (last_of span).

Fixpoint grounded_loop (fuel : nat) (input span : string) (from : nat) : bool :=
  match fuel with
  | O => false
  | S fuel' =>
      match str_index_from span input from with
      | None => false
      | Some idx => if stands_at input span idx then true else grounded_loop fuel' input span (S idx)
      end
  end.

Definition isGroundedSpan (normalizedInput normalizedSpan : string) : bool :=
  if bool_decide (normalizedSpan = "") then false
  else grounded_loop (S (String.length normalizedInput)) normalizedInput normalizedSpan 0.

(** [\p{L}] and [\p{N}] among the 8-bit code units. *)
Definition letter_or_number (c : ascii) : bool :=
  let n := nat_of_ascii c in
  is_alnum c || bool_decide (n ∈ [170; 178; 179; 181; 185; 186; 188; 189; 190]) ||
  ((192 <=? n) && negb (n =? 215) && negb (n =? 247)).

Definition long_words (s : string) : list string :=
  List.filter (λ w, 3 <=? String.length w) (split_at (λ c, negb (letter_or_number c)) s).

Fixpoint common_prefix (a b : string) : nat :=
  match a, b with
  | String x a', String y b' => if bool_decide (x = y) then S (common_prefix a' b') else 0
  | _, _ => 0
  end.

(** [Math.max(Math.min(4, shorter), Math.ceil(0.7 * shorter))]: the product of a whole
    number is never above the tenth it stands for. *)
Definition stem_length (shorter : nat) : nat := Nat.max (Nat.min 4 shorter) ((7 * shorter + 9) / 10).

Definition shares_stem (nameToken inputToken : string) : bool :=
  stem_length (Nat.min (String.length nameToken) (String.length inputToken)) <=? common_prefix nameToken inputToken.

Definition isGroundedInflected (normalizedInput normalizedName : string) : bool :=
  let inputTokens := long_words normalizedInput in
  let nameTokens := long_words normalizedName in
  if length inputTokens =? 0 then false
  else if length nameTokens =? 0 then false
  else forallb (λ nt, SPACED_WORD_CHAR (first_of nt) && existsb (shares_stem nt) inputTokens) nameTokens.

(** ** What the extractor says *)

Record ExtractedEntity := {
  xe_name : string; xe_type : string; xe_canonical : option string; xe_known : option string
}.

Inductive FactCardinality : Type := One | Many.

#[export] Instance FactCardinality_eq_dec : EqDecision FactCardinality.
Proof. solve_decision. Defined.

Record ExtractedFact := {
  xf_entityIndex : nat; xf_predicate : string; xf_object : string; xf_confidence : float;
  xf_clause : option string; xf_days : Days; xf_supersedes : list string; xf_cardinality : option FactCardinality;
  xf_valueSpan : option string; xf_entropy : option float; xf_agreement : option float
}.

Record ExtractedEdge := {
  xg_fromEntityIndex : nat; xg_toEntityIndex : nat; xg_kind : string; xg_confidence : float;
  xg_clause : option string; xg_eventTime : option string; xg_endTime : option string
}.

Record ExtractionResult := {
  xr_entities : list ExtractedEntity; xr_facts : list ExtractedFact; xr_edges : list ExtractedEdge
}.

Record RawExtractedFact := {
  rf_entityIndex : nat; rf_clauseIndex : option nat; rf_predicate : string; rf_valueSpan : string;
  rf_confidence : float; rf_object : option string; rf_days : Days; rf_supersedes : list string;
  rf_cardinality : option FactCardinality
}.

(** ** The handles of the memory shown to the extractor *)

(** An entity or a fact of the memory, as far as its handle goes. *)
Record MemoryHandle := { mh_handle : string; mh_id : string }.
Record MemoryContext := { mc_entities : list MemoryHandle; mc_facts : list MemoryHandle }.

Fixpoint take_digits (s : string) : string * string :=
  match s with
  | String c s' => if is_digit c then let r := take_digits s' in (String c r.1, r.2) else ("", s)
  | EmptyString => ("", "")
  end.

(** [String(Number(digits))] of digits that stay below 2^53. *)
Fixpoint strip_zeros (s : string) : string :=
  match s with
  | String "0"%char (String _ _ as s') => strip_zeros s'
  | _ => s
  end.

Definition drop_if (c : ascii) (s : string) : string :=
  match s with String d s' => if bool_decide (c = d) then s' else s | EmptyString => s end.

(** [/^\[?\s*([em])\s*(\d+)\s*\]?$/i] on the trimmed text. *)
Definition normalizeHandle (raw : jsval) (kind : ascii) : option string :=
  match raw with
  | VStr s =>
      match trim_start (drop_if "["%char (trim s)) with
      | String k rest =>
          let d := take_digits (trim_start rest) in
          if negb (bool_decide (lower_char k = kind)) || bool_decide (d.1 = "") ||
             negb (bool_decide (drop_if "]"%char (trim_start d.2) = ""))
          then None else Some (String kind (strip_zeros d.1))
      | EmptyString => None
      end
  | _ => None
  end.

Definition handle_id (l : list MemoryHandle) (handle : string) : option string :=
  mh_id <$> find_first (λ e, bool_decide (mh_handle e = handle)) l.

Definition knownEntityId (ctx : option MemoryContext) (raw : jsval) : option string :=
  handle ← normalizeHandle raw "e"%char; c ← ctx; handle_id (mc_entities c) handle.

Definition superseded_step (facts : list MemoryHandle) (out : list string) (r : jsval) : list string :=
  match truthy (normalizeHandle r "m"%char ≫= handle_id facts) with
  | Some id => add_new out id
  | None => out
  end.

Definition supersededFactIds (ctx : option MemoryContext) (raw : jsval) : list string :=
  match ctx, raw with
  | Some c, VArr l => fold_left (superseded_step (mc_facts c)) l []
  | _, _ => []
  end.

(** ** Reading the answer *)

(** A number that is whole, as an integer. *)
Definition float_integer (x : float) : option Z :=
  match Prim2SF x with
  | S754_zero _ => Some 0%Z
  | S754_finite neg m e =>
      let sign (v : Z) := if neg : bool then Z.opp v else v in
      if (0 <=? e)%Z then Some (sign (Zpos m * 2 ^ e)%Z)
      else if (Zpos m mod 2 ^ (- e) =? 0)%Z then Some (sign (Zpos m / 2 ^ (- e))%Z) else None
  | _ => None
  end.

(** [typeof v === 'number' && Number.isInteger(v) && v >= 0] *)
Definition index_value (v : jsval) : option nat :=
  match v with
  | VNum x => match float_integer x with Some z => if (0 <=? z)%Z then Some (Z.to_nat z) else None | None => None end
  | _ => None
  end.

(** [isRecord(parsed) ? parsed[key] : undefined], when it is an array. *)
Definition array_field (parsed : jsval) (key : string) : list jsval :=
  match parsed with
  | VObj fields => match obj_get fields key with VArr l => l | _ => [] end
  | _ => []
  end.

Definition ALLOWED_ENTITY_TYPES : list string :=
  ["customer"; "staff"; "asset"; "project"; "topic"; "location"; "other"].

Definition normalizeEntityType (t : jsval) : string :=
  match t with VStr s => if bool_decide (s ∈ ALLOWED_ENTITY_TYPES) then s else "other" | _ => "other" end.

Definition parse_entity (memory : option MemoryContext) (e : jsval) : list ExtractedEntity :=
  match e with
  | VObj fields =>
      match obj_get fields "name" with
      | VStr name =>
          [{| xe_name := trim name; xe_type := normalizeEntityType (obj_get fields "type");
              xe_canonical := match obj_get fields "canonical" with VStr c => Some (trim c) | _ => None end;
              xe_known := truthy (knownEntityId memory (obj_get fields "known")) |}]
      | _ => []
      end
  | _ => []
  end.

Definition parseEntities (parsed : jsval) (memory : option MemoryContext) : list ExtractedEntity :=
  flat_map (parse_entity memory) (array_field parsed "entities").

Section days.
Context `{Calendar}.

(** A day of the calendar, at the head of the text ([/^(\d{4})-(\d{2})-(\d{2})/]). *)
Definition parseEventTime (raw : jsval) : option string :=
  match raw with
  | VStr s =>
      let day := str_take 10 (trim s) in
      if re_test ISO_DATE_RE day
      then match date_at day with Some ms => if bool_decide (iso_day ms = day) then Some day else None | None => None end
      else None
  | _ => None
  end.

Definition parseCardinality (raw : jsval) : option FactCardinality :=
  match raw with VStr "one" => Some One | VStr "many" => Some Many | _ => None end.

Definition parseClauses (parsed : jsval) : list string :=
  omap (λ c, match c with VStr s => Some s | _ => None end) (array_field parsed "clauses").

(** [Math.max(0, Math.min(1, c))] *)
Definition unit_interval (c : float) : float :=
  if PrimFloat.leb c 0 then 0%float else if PrimFloat.leb 1 c then 1%float else c.

Definition parse_raw_fact (entityCount : nat) (memory : option MemoryContext) (f : jsval) : list RawExtractedFact :=
  match f with
  | VObj fields =>
      match index_value (obj_get fields "entityIndex"), obj_get fields "predicate", obj_get fields "valueSpan" with
      | Some entityIndex, VStr predicate, VStr valueSpan =>
          if entityIndex <? entityCount then
            [{| rf_entityIndex := entityIndex; rf_clauseIndex := index_value (obj_get fields "clauseIndex");
                rf_predicate := trim predicate; rf_valueSpan := trim valueSpan;
                rf_confidence := match obj_get fields "confidence" with VNum c => unit_interval c | _ => 0.5%float end;
                rf_object := match obj_get fields "object" with VStr o => truthy (Some (trim o)) | _ => None end;
                rf_days := {| dy_eventTime := parseEventTime (obj_get fields "eventTime");
                              dy_endTime := parseEventTime (obj_get fields "endTime");
                              dy_expectedEnd := parseEventTime (obj_get fields "expectedEnd") |};
                rf_supersedes := supersededFactIds memory (obj_get fields "supersedes");
                rf_cardinality := parseCardinality (obj_get fields "cardinality") |}]
          else []
      | _, _, _ => []
      end
  | _ => []
  end.

Definition parseRawFacts (parsed : jsval) (entityCount : nat) (memory : option MemoryContext) : list RawExtractedFact :=
  flat_map (parse_raw_fact entityCount memory) (array_field parsed "facts").
End days.

(** ** The gates *)

(** The mask over the entities: named in the text, allowed, or pinned to the memory. *)
Definition allowed_names (allowedNames : list string) : list string :=
  List.filter (λ n, negb (bool_decide (n = ""))) (map normalizeForGrounding allowedNames).

Definition entity_grounded (normalizedInput : string) (allowed : list string) (e : ExtractedEntity) : bool :=
  match truthy (xe_known e) with
  | Some _ => true
  | None =>
      let normName := normalizeForGrounding (xe_name e) in
      bool_decide (normName ∈ allowed) || isGroundedSpan normalizedInput normName ||
      isGroundedInflected normalizedInput normName
  end.

Definition groundEntities (trimmedInput : string) (entities : list ExtractedEntity) (allowedNames : list string) : list bool :=
  map (entity_grounded (normalizeForGrounding trimmedInput) (allowed_names allowedNames)) entities.

(** [split(/\s+/).filter(Boolean)] *)
Definition span_words (s : string) : list string :=
  List.filter (λ w, negb (bool_decide (w = ""))) (split_at is_space (normalizeForGrounding s)).

(** The object may only drop words of the span. *)
Definition isObjectGroundedInSpan (valueSpan object : string) : bool :=
  let spanTokens := span_words valueSpan in
  let objTokens := span_words object in
  if length objTokens =? 0 then false else forallb (λ t, bool_decide (t ∈ spanTokens)) objTokens.

Inductive GateReason : Type := NotGrounded | EmptyValue.

Record GateOptions := { go_clauses : list string; go_allowUngrounded : bool; go_normalizeObjects : bool }.

Record GateResult := {
  gt_facts : list ExtractedFact;
  gt_dropped : list (string * string * GateReason);
  gt_ungroundedObjects : list (string * string * string)
}.

Definition gate_drop (o : GateOptions) (normalizedInput : string) (rf : RawExtractedFact) : option GateReason :=
  if bool_decide (rf_valueSpan rf = "") then Some EmptyValue
  else if negb (go_allowUngrounded o) && negb (isGroundedSpan normalizedInput (normalizeForGrounding (rf_valueSpan rf)))
  then Some NotGrounded else None.

(** The proposed object, and whether the span holds its words. *)
Definition proposed (o : GateOptions) (rf : RawExtractedFact) : option (string * bool) :=
  match rf_object rf with
  | Some object =>
      if go_normalizeObjects o && negb (bool_decide (object = "")) && negb (bool_decide (object = rf_valueSpan rf))
      then Some (object, isObjectGroundedInSpan (rf_valueSpan rf) object) else None
  | None => None
  end.

Definition gate_fact (o : GateOptions) (rf : RawExtractedFact) : ExtractedFact :=
  {| xf_entityIndex := rf_entityIndex rf; xf_predicate := rf_predicate rf;
     xf_object := match proposed o rf with Some (object, true) => object | _ => rf_valueSpan rf end;
     xf_confidence := rf_confidence rf; xf_clause := rf_clauseIndex rf ≫= λ i, go_clauses o !! i;
     xf_days := rf_days rf; xf_supersedes := rf_supersedes rf; xf_cardinality := rf_cardinality rf;
     xf_valueSpan := Some (rf_valueSpan rf); xf_entropy := None; xf_agreement := None |}.

Fixpoint gate_all (o : GateOptions) (normalizedInput : string) (rawFacts : list RawExtractedFact) : GateResult :=
  match rawFacts with
  | [] => {| gt_facts := []; gt_dropped := []; gt_ungroundedObjects := [] |}
  | rf :: rest =>
      let r := gate_all o normalizedInput rest in
      match gate_drop o normalizedInput rf with
      | Some reason =>
          {| gt_facts := gt_facts r; gt_dropped := (rf_predicate rf, rf_valueSpan rf, reason) :: gt_dropped r;
             gt_ungroundedObjects := gt_ungroundedObjects r |}
      | None =>
          {| gt_facts := gate_fact o rf :: gt_facts r; gt_dropped := gt_dropped r;
             gt_ungroundedObjects :=
               match proposed o rf with
               | Some (object, false) => (rf_predicate rf, object, rf_valueSpan rf) :: gt_ungroundedObjects r
               | _ => gt_ungroundedObjects r
               end |}
      end
  end.

Definition applyGroundingGate (trimmedInput : string) (rawFacts : list RawExtractedFact) (o : GateOptions) : GateResult :=
  gate_all o (normalizeForGrounding trimmedInput) rawFacts.

(** ** What standing in a text means *)

(** The span is part of the text, and where an end of it is a letter of a spaced script no
    such letter touches it there. *)
Definition stands_in (span input : string) : Prop :=
  span ≠ "" ∧ ∃ pre post, input = pre +:+ span +:+ post ∧
    boundaryOk (char_before pre (String.length pre)) (first_of span) = true ∧
    boundaryOk (String.get 0 post) (last_of span) = true.

Lemma get_append_r a b n : String.get (String.length a + n) (a +:+ b) = String.get n b.
Proof. induction a as [|c a IH]; [done|]. rewrite str_append_cons. cbn. exact IH. Qed.

Lemma get_append_l a b n : n < String.length a → String.get n (a +:+ b) = String.get n a.
Proof.
  revert n. induction a as [|c a IH]; cbn; intros n; [lia|]. rewrite str_append_cons. destruct n as [|n]; [done|].
  intros Hn. cbn. apply IH. lia.
Qed.

Lemma char_before_append a b : char_before (a +:+ b) (String.length a) = char_before a (String.length a).
Proof.
  unfold char_before. destruct (String.length a) as [|n] eqn:E; [done|]. apply get_append_l. lia.
Qed.

Lemma str_drop_beyond n s : String.length s <= n → str_drop n s = "".
Proof. revert s. induction n as [|n IH]; intros [|c s]; cbn; intros Hn; try done; try lia. apply IH. lia. Qed.

Lemma str_index_first needle s i :
  needle ≠ "" → str_index needle s = Some i ↔
  starts_with needle (str_drop i s) = true ∧ ∀ j, j < i → starts_with needle (str_drop j s) = false.
Proof.
  intros Hn. revert i. induction s as [|c s IH]; intros i; cbn [str_index].
  - destruct (starts_with needle "") eqn:E; [by destruct needle|]. split; [done|]. intros [H _]. rewrite str_drop_beyond in H by (cbn; lia). congruence.
  - destruct (starts_with needle (String c s)) eqn:E.
    + split.
      * intros [= <-]. split; [exact E|lia].
      * intros [_ H]. destruct i as [|i]; [done|]. specialize (H 0 ltac:(lia)). cbn in H. congruence.
    + destruct i as [|i].
      * split; [by destruct (str_index needle s)|]. cbn. intros [H _]. congruence.
      * transitivity (str_index needle s = Some i).
        { destruct (str_index needle s); cbn; split; congruence. }
        rewrite IH. cbn [str_drop]. split; intros [H1 H2]; (split; [done|]).
        -- intros [|j] Hj; [exact E|]. apply H2. lia.
        -- intros j Hj. apply (H2 (S j)). lia.
Qed.

Lemma str_index_absent needle s :
  needle ≠ "" → str_index needle s = None ↔ ∀ j, starts_with needle (str_drop j s) = false.
Proof.
  intros Hn. split.
  - intros E j. apply not_true_iff_false. intros Hj. revert E. induction (lt_wf j) as [j _ IH].
    destruct (str_index needle s) as [i|] eqn:E; [done|]. intros _.
    assert (H : ∃ k, k < j ∧ starts_with needle (str_drop k s) = true).
    { clear IH. destruct (decide (Exists (λ k, starts_with needle (str_drop k s) = true) (seq 0 j))) as [[k [Hk ?]]%Exists_exists|Hno].
      - apply elem_of_seq in Hk. exists k. split; [lia|done].
      - exfalso. assert (E' : str_index needle s = Some j); [|congruence]. apply str_index_first; [done|]. split; [done|].
        intros k Hk. apply not_true_iff_false. intros H. apply Hno, Exists_exists. exists k. split; [apply elem_of_seq; lia|done]. }
    destruct H as (k & Hk & H). by apply (IH k).
  - intros H. destruct (str_index needle s) as [i|] eqn:E; [|done]. apply str_index_first in E as [E _]; [|done].
    by rewrite H in E.
Qed.

Lemma str_drop_drop n m s : str_drop n (str_drop m s) = str_drop (m + n) s.
Proof. revert s. induction m as [|m IH]; intros [|c s]; cbn; [done..| |apply IH]. by destruct n. Qed.

(** The search meets every place from [from] on. *)
Lemma grounded_loop_spec fuel input span from :
  span ≠ "" → String.length input < fuel + from →
  grounded_loop fuel input span from = true ↔
  ∃ i, from <= i ∧ starts_with span (str_drop i input) = true ∧ stands_at input span i = true.
Proof.
  intros Hs. revert from. induction fuel as [|fuel IH]; intros from Hf; cbn [grounded_loop].
  - split; [done|]. intros (i & Hi & H & _). rewrite str_drop_beyond in H by lia. by destruct span.
  - unfold str_index_from. destruct (str_index span (str_drop from input)) as [k|] eqn:E; cbn.
    + apply str_index_first in E as [E1 E2]; [|done]. rewrite str_drop_drop in E1.
      destruct (stands_at input span (from + k)) eqn:Eo.
      * split; [|done]. intros _. exists (from + k). split; [lia|done].
      * rewrite IH by lia. split; intros (i & Hi & H1 & H2); exists i; (split; [|done]); [lia|].
        destruct (decide (i < from + k)) as [Hlt|]; [|destruct (decide (i = from + k)); [congruence|lia]].
        exfalso. specialize (E2 (i - from) ltac:(lia)). rewrite str_drop_drop in E2.
        replace (from + (i - from)) with i in E2 by lia. congruence.
    + split; [done|]. intros (i & Hi & H & _). pose proof (proj1 (str_index_absent span _ Hs) E (i - from)) as E'.
      rewrite str_drop_drop in E'. replace (from + (i - from)) with i in E' by lia. congruence.
Qed.

(** The gate decides whether the span stands in the text. *)
Lemma isGroundedSpan_spec input span : isGroundedSpan input span = true ↔ stands_in span input.
Proof.
  unfold isGroundedSpan, stands_in. case_bool_decide as Hs; [by split; [|intros [? _]]|]. rewrite grounded_loop_spec by (done || lia).
  split.
  - intros (i & _ & H1 & H2). split; [done|]. apply starts_with_spec in H1 as [post Hp].
    exists (str_take i input), post. rewrite <- Hp. split; [by rewrite str_take_drop|].
    assert (Hi : i <= String.length input).
    { destruct (decide (i <= String.length input)); [done|]. rewrite str_drop_beyond in Hp by lia. by destruct span. }
    pose proof (length_str_take i input Hi) as Hl. pose proof (str_take_drop i input) as Hc. rewrite Hp in Hc.
    unfold stands_at in H2. apply andb_true_iff in H2. revert Hc H2. generalize (str_take i input) Hl. clear.
    intros pre <- <-. rewrite char_before_append, get_append_r.
    replace (String.length span) with (String.length span + 0) by lia. by rewrite get_append_r.
  - intros (_ & pre & post & -> & H1 & H2). exists (String.length pre). split; [lia|]. rewrite str_drop_append.
    split; [apply starts_with_append|]. unfold stands_at. rewrite char_before_append, H1, get_append_r.
    replace (String.length span) with (String.length span + 0) by lia. by rewrite get_append_r, H2.
Qed.

(** ** Relations of the answer *)

Section edges.
(** The text of a number, and [Number(text)]. *)
Variable num_to_string : float → string.
Variable parse : string → float.
Context `{Calendar}.

(** [Number(v)] *)
Definition js_number (v : jsval) : float :=
  match v with
  | VNum x => x
  | VNull => 0%float
  | VBool b => if b then 1%float else 0%float
  | VStr s => parse s
  | VArr _ => parse (js_to_string num_to_string v)
  | VUndef | VObj _ | VHost _ => nan
  end.

Inductive EdgeDrop : Type := IndexOutOfBounds | SelfEdge | EmptyKind.

Definition entity_index (entityCount : nat) (v : jsval) : option nat :=
  match index_value (VNum (js_number v)) with
  | Some i => if i <? entityCount then Some i else None
  | None => None
  end.

Definition validate_edge (entityCount : nat) (clauses : list string) (fields : list (string * jsval)) :
    result (option string * EdgeDrop) ExtractedEdge :=
  let kind := match obj_get fields "kind" with VStr k => to_lower (trim k) | _ => "" end in
  match entity_index entityCount (obj_get fields "fromEntityIndex"), entity_index entityCount (obj_get fields "toEntityIndex") with
  | Some from, Some to =>
      if bool_decide (from = to) then Throw (Some kind, SelfEdge)
      else if bool_decide (kind = "") then Throw (None, EmptyKind)
      else Ok {| xg_fromEntityIndex := from; xg_toEntityIndex := to; xg_kind := kind;
                 xg_confidence := match obj_get fields "confidence" with VNum c => unit_interval c | _ => 0.7%float end;
                 xg_clause := truthy (index_value (obj_get fields "clauseIndex") ≫= λ i, clauses !! i);
                 xg_eventTime := parseEventTime (obj_get fields "eventTime");
                 xg_endTime := parseEventTime (obj_get fields "endTime") |}
  | _, _ => Throw (truthy (Some kind), IndexOutOfBounds)
  end.

(** The members of an array or an object; of an array, the indices asked for are none. *)
Definition edge_fields (e : jsval) : option (list (string * jsval)) :=
  match e with VObj fields => Some fields | VArr _ => Some [] | _ => None end.

Definition validateEdges (parsed : jsval) (entityCount : nat) (clauses : list string) :
    list ExtractedEdge * list (option string * EdgeDrop) :=
  let all := map (validate_edge entityCount clauses) (omap edge_fields (array_field parsed "edges")) in
  (oks all,
   throws all).

(** ** The survivors, renumbered *)

(** The members kept, and where each went. *)
Fixpoint compact {A} (keep : A → bool) (i next : nat) (l : list A) : gmap nat nat * list A :=
  match l with
  | [] => (∅, [])
  | x :: l' =>
      if keep x then let r := compact keep (S i) (S next) l' in (<[i := next]> r.1, x :: r.2)
      else compact keep (S i) next l'
  end.

Definition move_fact (remap : gmap nat nat) (f : ExtractedFact) : option ExtractedFact :=
  (λ k, {| xf_entityIndex := k; xf_predicate := xf_predicate f; xf_object := xf_object f; xf_confidence := xf_confidence f;
           xf_clause := xf_clause f; xf_days := xf_days f; xf_supersedes := xf_supersedes f;
           xf_cardinality := xf_cardinality f; xf_valueSpan := xf_valueSpan f; xf_entropy := xf_entropy f;
           xf_agreement := xf_agreement f |}) <$> remap !! xf_entityIndex f.

Definition move_edge (remap : gmap nat nat) (e : ExtractedEdge) : option ExtractedEdge :=
  from ← remap !! xg_fromEntityIndex e;
  to ← remap !! xg_toEntityIndex e;
  Some {| xg_fromEntityIndex := from; xg_toEntityIndex := to; xg_kind := xg_kind e; xg_confidence := xg_confidence e;
          xg_clause := xg_clause e; xg_eventTime := xg_eventTime e; xg_endTime := xg_endTime e |}.

(** What is kept of an answer before its predicates are refined. *)
Definition assembled (trimmed : string) (rawJson : jsval) (memory : option MemoryContext) (allowedNames : list string)
    (allowUngrounded normalizeObjects : bool) : ExtractionResult :=
  let parsedEntities := parseEntities rawJson memory in
  let clauses := parseClauses rawJson in
  let gate := applyGroundingGate trimmed (parseRawFacts rawJson (length parsedEntities) memory)
                {| go_clauses := clauses; go_allowUngrounded := allowUngrounded; go_normalizeObjects := normalizeObjects |} in
  let edges := (validateEdges rawJson (length parsedEntities) clauses).1 in
  let kept := compact (entity_grounded (normalizeForGrounding trimmed) (allowed_names allowedNames)) 0 0 parsedEntities in
  {| xr_entities := kept.2; xr_facts := omap (move_fact kept.1) (gt_facts gate); xr_edges := omap (move_edge kept.1) edges |}.
End edges.

Definition denoiseFacts (facts : list ExtractedFact) (dropSaid : bool) : list ExtractedFact :=
  if dropSaid then List.filter (λ f, negb (bool_decide (xf_predicate f = "said"))) facts else facts.

(** ** What an external indexer submits *)

Inductive DropReason : Type := UngroundedEntity | UngroundedValue | OrphanReference.

Record GroundingDrop := { gd_kind : CandidateKind; gd_index : nat; gd_reason : DropReason; gd_detail : string }.

Record GroundedBatch := {
  gb_entities : list CandidateEntity;
  gb_facts : list CandidateFact;
  gb_relations : list CandidateRelation;
  gb_dropped : list GroundingDrop
}.

Definition with_entityIndex (k : nat) (e : CandidateEntity) : CandidateEntity :=
  {| ce_entityIndex := Z.of_nat k; ce_name := ce_name e; ce_type := ce_type e; ce_canonical := ce_canonical e;
     ce_externalId := ce_externalId e; ce_known := ce_known e; ce_ungrounded := ce_ungrounded e |}.

Definition with_fact_entity (k : nat) (f : CandidateFact) : CandidateFact :=
  {| cf_entityIndex := Z.of_nat k; cf_predicate := cf_predicate f; cf_object := cf_object f;
     cf_confidence := cf_confidence f; cf_clause := cf_clause f; cf_days := cf_days f; cf_supersedes := cf_supersedes f;
     cf_ungrounded := cf_ungrounded f; cf_entropy := cf_entropy f; cf_agreement := cf_agreement f |}.

Definition with_ends (from to : nat) (r : CandidateRelation) : CandidateRelation :=
  {| cl_fromEntityIndex := Z.of_nat from; cl_toEntityIndex := Z.of_nat to; cl_kind := cl_kind r;
     cl_confidence := cl_confidence r; cl_clause := cl_clause r; cl_eventTime := cl_eventTime r; cl_endTime := cl_endTime r |}.

Definition QUOTE_MARK : string := String (ascii_of_nat 34) "".

(** [remap.get(index)] of an index as it was submitted. *)
Definition moved (remap : gmap nat nat) (i : Z) : option nat := if (0 <=? i)%Z then remap !! Z.to_nat i else None.

Definition grounded_name (normalizedInput : string) (e : CandidateEntity) : bool :=
  isGroundedSpan normalizedInput (normalizeForGrounding (ce_name e)).

Definition ground_fact (normalizedInput : string) (remap : gmap nat nat) (i : nat) (f : CandidateFact) :
    result GroundingDrop CandidateFact :=
  match moved remap (cf_entityIndex f) with
  | None =>
      Throw {| gd_kind := KFact; gd_index := i; gd_reason := OrphanReference;
               gd_detail := cf_predicate f +:+ " (entityIndex " +:+ pretty (cf_entityIndex f) +:+ ")" |}
  | Some k =>
      if isGroundedSpan normalizedInput (normalizeForGrounding (cf_object f)) then Ok (with_fact_entity k f)
      else Throw {| gd_kind := KFact; gd_index := i; gd_reason := UngroundedValue;
                    gd_detail := cf_predicate f +:+ "=" +:+ QUOTE_MARK +:+ str_take 80 (cf_object f) +:+ QUOTE_MARK |}
  end.

Definition ground_relation (remap : gmap nat nat) (i : nat) (r : CandidateRelation) : result GroundingDrop CandidateRelation :=
  match moved remap (cl_fromEntityIndex r), moved remap (cl_toEntityIndex r) with
  | Some from, Some to => Ok (with_ends from to r)
  | _, _ => Throw {| gd_kind := KRelation; gd_index := i; gd_reason := OrphanReference; gd_detail := cl_kind r |}
  end.

Definition ground_entity (normalizedInput : string) (i : nat) (e : CandidateEntity) : result GroundingDrop CandidateEntity :=
  if grounded_name normalizedInput e then Ok e
  else Throw {| gd_kind := KEntity; gd_index := i; gd_reason := UngroundedEntity; gd_detail := ce_name e |}.

Definition groundExternalBatch (docText : string) (entities : list CandidateEntity) (facts : list CandidateFact)
    (relations : list CandidateRelation) : GroundedBatch :=
  let normalizedInput := normalizeForGrounding docText in
  let kept := compact (grounded_name normalizedInput) 0 0 entities in
  let fs := imap (ground_fact normalizedInput kept.1) facts in
  let rs := imap (ground_relation kept.1) relations in
  {| gb_entities := imap with_entityIndex kept.2; gb_facts := oks fs; gb_relations := oks rs;
     gb_dropped := app (throws (imap (ground_entity normalizedInput) entities)) (app (throws fs) (throws rs)) |}.

(** ** What survives *)

Section compacting.
Context {A : Type} (keep : A → bool).

Lemma compact_filter i next l : (compact keep i next l).2 = List.filter keep l.
Proof. revert i next. induction l as [|x l IH]; intros i next; cbn; [done|]. destruct (keep x); cbn; by rewrite IH. Qed.

(** Where a member went, it is found. *)
Lemma compact_moved i next l j k :
  (compact keep i next l).1 !! j = Some k →
  ∃ m x, j = i + m ∧ l !! m = Some x ∧ keep x = true ∧ next <= k ∧ (compact keep i next l).2 !! (k - next) = Some x.
Proof.
  revert i next. induction l as [|x l IH]; intros i next; cbn [compact fst]; [by rewrite lookup_empty|].
  destruct (keep x) eqn:Ex; cbn [fst snd].
  - rewrite lookup_insert. case_decide as Hj.
    + intros [= <-]. exists 0, x. rewrite Nat.sub_diag. split_and!; [lia|done..].
    + intros (m & y & Hm & Hy & Hk & Hn & Hl)%IH. exists (S m), y. split_and!; [lia|done|done|lia|].
      replace (k - next) with (S (k - S next)) by lia. done.
  - intros (m & y & Hm & Hy & Hk & Hn & Hl)%IH. exists (S m), y. split_and!; [lia|done..].
Qed.

Lemma compact_inj i next l j j' k :
  (compact keep i next l).1 !! j = Some k → (compact keep i next l).1 !! j' = Some k → j = j'.
Proof.
  revert i next. induction l as [|x l IH]; intros i next; cbn [compact fst]; [by rewrite lookup_empty|].
  destruct (keep x); cbn [fst]; [|apply IH]. rewrite !lookup_insert. do 2 case_decide; [congruence| | |apply IH].
  - intros [= <-] (m & y & _ & _ & _ & Hn & _)%compact_moved. lia.
  - intros (m & y & _ & _ & _ & Hn & _)%compact_moved [= <-]. lia.
Qed.

Lemma compact_kept l j k :
  (compact keep 0 0 l).1 !! j = Some k → ∃ x, l !! j = Some x ∧ keep x = true ∧ (compact keep 0 0 l).2 !! k = Some x.
Proof. intros (m & x & -> & H1 & H2 & _ & H3)%compact_moved. rewrite Nat.sub_0_r in H3. by exists x. Qed.
End compacting.

Lemma elem_of_oks {E A} (l : list (result E A)) a : a ∈ oks l ↔ Ok a ∈ l.
Proof.
  unfold oks. rewrite list_elem_of_omap. split; [|by intros H; exists (Ok a)]. intros ([b|e] & H & E'); by simplify_eq.
Qed.

Lemma oks_throws {E A} (l : list (result E A)) : length (oks l) + length (throws l) = length l.
Proof. induction l as [|[a|e] l IH]; cbn; [done|f_equal; exact IH|]. rewrite <- IH. unfold oks, throws. cbn. lia. Qed.

Lemma elem_of_imap {A B} (g : nat → A → B) l y : y ∈ imap g l → ∃ i x, l !! i = Some x ∧ y = g i x.
Proof.
  intros [i Hi]%list_elem_of_lookup. rewrite list_lookup_imap in Hi. destruct (l !! i) as [x|] eqn:E; [|done].
  exists i, x. split; [done|]. by injection Hi.
Qed.

Lemma elem_of_flat_map {A B} (f : A → list B) l y : y ∈ flat_map f l ↔ ∃ x, x ∈ l ∧ y ∈ f x.
Proof. rewrite list_elem_of_In, in_flat_map. by setoid_rewrite list_elem_of_In. Qed.

(** Handles map to what the memory issued. *)
Lemma handle_issued l h id : handle_id l h = Some id → ∃ e, e ∈ l ∧ mh_id e = id.
Proof. unfold handle_id. intros (e & He & ->)%fmap_Some. apply find_first_Some in He as [He _]. by exists e. Qed.

Lemma truthy_Some o x : truthy o = Some x → o = Some x.
Proof. destruct o as [y|]; cbn; [|done]. by case_bool_decide. Qed.

Lemma superseded_issued ctx raw id :
  id ∈ supersededFactIds ctx raw → ∃ m h, ctx = Some m ∧ h ∈ mc_facts m ∧ mh_id h = id.
Proof.
  destruct ctx as [m|]; cbn; [|by intros ?%elem_of_nil]. destruct raw as [| | | | |l| |]; try (by intros ?%elem_of_nil).
  assert (G : ∀ out, id ∈ fold_left (superseded_step (mc_facts m)) l out →
    id ∈ out ∨ ∃ h, h ∈ mc_facts m ∧ mh_id h = id).
  { induction l as [|r l IH]; intros out; cbn [fold_left]; [by left|]. intros [H|H]%IH; [|by right].
    unfold superseded_step in H. destruct (truthy _) as [x|] eqn:E; [|by left].
    apply elem_of_add_new in H as [H| ->]; [by left|]. right. apply truthy_Some in E.
    destruct (normalizeHandle r _); [|done]. by eapply handle_issued. }
  intros [H|(h & Hh & E)]%G; [by apply elem_of_nil in H|]. by exists m, h.
Qed.

Lemma parsed_entity_known raw memory e id :
  e ∈ parseEntities raw memory → xe_known e = Some id → ∃ m h, memory = Some m ∧ h ∈ mc_entities m ∧ mh_id h = id.
Proof.
  unfold parseEntities. intros (v & _ & He)%elem_of_flat_map. unfold parse_entity in He.
  destruct v; try by apply elem_of_nil in He. destruct (obj_get _ "name"); try by apply elem_of_nil in He.
  apply list_elem_of_singleton in He as ->. cbn [xe_known]. intros E%truthy_Some. unfold knownEntityId in E.
  destruct (normalizeHandle _ _); [|done]. cbn in E. destruct memory as [m|]; [|done]. cbn in E.
  apply handle_issued in E as (h & Hh & E). by exists m, h.
Qed.

Lemma gate_facts o input raws f :
  f ∈ gt_facts (gate_all o input raws) → ∃ rf, rf ∈ raws ∧ gate_drop o input rf = None ∧ f = gate_fact o rf.
Proof.
  induction raws as [|rf raws IH]; cbn [gate_all]; [by intros ?%elem_of_nil|]. cbn zeta.
  destruct (gate_drop o input rf) eqn:E; cbn [gt_facts].
  - intros (rf' & H & ?)%IH. exists rf'. split; [by right|done].
  - intros [->|(rf' & H & ?)%IH]%elem_of_cons; [exists rf; by split; [left|]|]. exists rf'. split; [by right|done].
Qed.

(** A raw fact is kept or reported. *)
Lemma gate_counts o input raws :
  length (gt_facts (gate_all o input raws)) + length (gt_dropped (gate_all o input raws)) = length raws.
Proof. induction raws as [|rf raws IH]; cbn [gate_all]; [done|]. cbn zeta. destruct (gate_drop o input rf); cbn; lia. Qed.

(** The object of a fact that passed the gate holds no word its span does not. *)
Lemma gate_object o rf w :
  w ∈ span_words (xf_object (gate_fact o rf)) → w ∈ span_words (rf_valueSpan rf).
Proof.
  unfold gate_fact. cbn [xf_object]. destruct (proposed o rf) as [[object []]|] eqn:E; [|done..]. unfold proposed in E.
  destruct (rf_object rf) as [ob|]; [|done]. destruct (go_normalizeObjects o && _ && _); [|done]. injection E as <- E.
  unfold isObjectGroundedInSpan in E. cbn zeta in E. destruct (_ =? 0); [done|]. rewrite forallb_In in E. intros Hw.
  apply E in Hw. by apply bool_decide_eq_true in Hw.
Qed.

Lemma move_fact_spec remap f g :
  move_fact remap f = Some g → remap !! xf_entityIndex f = Some (xf_entityIndex g) ∧ xf_object g = xf_object f ∧
  xf_valueSpan g = xf_valueSpan f ∧ xf_supersedes g = xf_supersedes f ∧ xf_clause g = xf_clause f.
Proof. unfold move_fact. intros (k & Hk & ->)%fmap_Some. done. Qed.

Lemma move_edge_spec remap e g :
  move_edge remap e = Some g →
  remap !! xg_fromEntityIndex e = Some (xg_fromEntityIndex g) ∧ remap !! xg_toEntityIndex e = Some (xg_toEntityIndex g).
Proof. unfold move_edge. destruct (remap !! _), (remap !! _); cbn; try done. by intros [= <-]. Qed.

Lemma entity_grounded_spec input allowedNames e :
  entity_grounded input (allowed_names allowedNames) e = true →
  let name := normalizeForGrounding (xe_name e) in
  is_Some (xe_known e) ∨ name ∈ map normalizeForGrounding allowedNames ∨ stands_in name input ∨
  isGroundedInflected input name = true.
Proof.
  unfold entity_grounded. destruct (truthy (xe_known e)) as [k|] eqn:E; [apply truthy_Some in E; rewrite E; by left; eexists|].
  cbn zeta. rewrite !orb_true_iff, bool_decide_eq_true, isGroundedSpan_spec. intros [[H|H]|H]; [|by auto..].
  right. left. unfold allowed_names in H. by apply elem_of_bfilter in H as [H _].
Qed.

(** C37. What the extractor keeps of a model's answer, in the closed vocabulary, rests on
    the text. Each entity is one the answer names, and its name stands in the text, word by
    word up to inflection, or is a participant's, or it is pinned to an entity of the memory
    it was shown. Each fact quotes a span that stands in the text, its value holds no word
    the span does not, it sits on the entity the answer put it on, and it replaces only
    facts the memory showed. Each relation joins two different entities kept. *)
Theorem extracted_claims_quote_their_text `{Calendar} num_to_string parse trimmed rawJson memory allowedNames normalizeObjects :
  let input := normalizeForGrounding trimmed in
  let parsed := parseEntities rawJson memory in
  let r := assembled num_to_string parse trimmed rawJson memory allowedNames false normalizeObjects in
  (∀ e, e ∈ xr_entities r → e ∈ parsed ∧
     let name := normalizeForGrounding (xe_name e) in
     (stands_in name input ∨ isGroundedInflected input name = true ∨ name ∈ map normalizeForGrounding allowedNames ∨
      ∃ m h, memory = Some m ∧ h ∈ mc_entities m ∧ xe_known e = Some (mh_id h))) ∧
  (∀ f, f ∈ xr_facts r → ∃ span rf e,
     rf ∈ parseRawFacts rawJson (length parsed) memory ∧ rf_valueSpan rf = span ∧ xf_valueSpan f = Some span ∧
     stands_in (normalizeForGrounding span) input ∧
     (∀ w, w ∈ span_words (xf_object f) → w ∈ span_words span) ∧
     parsed !! rf_entityIndex rf = Some e ∧ xr_entities r !! xf_entityIndex f = Some e ∧
     (∀ id, id ∈ xf_supersedes f → ∃ m h, memory = Some m ∧ h ∈ mc_facts m ∧ mh_id h = id)) ∧
  (∀ g, g ∈ xr_edges r → xg_fromEntityIndex g ≠ xg_toEntityIndex g ∧
     is_Some (xr_entities r !! xg_fromEntityIndex g) ∧ is_Some (xr_entities r !! xg_toEntityIndex g)).
Proof.
  cbn zeta. unfold assembled. cbn zeta. cbn [xr_entities xr_facts xr_edges]. split_and!.
  - rewrite compact_filter. intros e [He Hg]%elem_of_bfilter. split; [done|].
    apply entity_grounded_spec in Hg. cbn zeta in Hg. destruct Hg as [[k Hk]|[Hg|[Hg|Hg]]]; [|by auto..].
    do 3 right. destruct (parsed_entity_known _ _ _ _ He Hk) as (m & h & H1 & H2 & H3). exists m, h. by rewrite Hk, H3.
  - intros f (f0 & Hf & Hm)%list_elem_of_omap. apply move_fact_spec in Hm as (Hk & Ho & Hs & Hsup & _).
    apply gate_facts in Hf as (rf & Hrf & Hd & ->). apply compact_kept in Hk as (e & He & _ & He').
    exists (rf_valueSpan rf), rf, e. rewrite Ho, Hs, Hsup. split_and!; try done.
    + unfold gate_drop in Hd. case_bool_decide; [done|]. cbn [negb go_allowUngrounded andb] in Hd.
      apply isGroundedSpan_spec. by destruct (isGroundedSpan _ _).
    + intros w. apply gate_object.
    + intros id Hid. unfold parseRawFacts in Hrf. apply elem_of_flat_map in Hrf as (v & _ & Hv). unfold parse_raw_fact in Hv.
      destruct v; try by apply elem_of_nil in Hv. destruct (index_value _); [|by apply elem_of_nil in Hv].
      do 2 (destruct (obj_get _ _); try by apply elem_of_nil in Hv). destruct (_ <? _); [|by apply elem_of_nil in Hv].
      apply list_elem_of_singleton in Hv as ->. eapply superseded_issued. exact Hid.
  - intros g (g0 & Hg & Hm)%list_elem_of_omap. apply move_edge_spec in Hm as [Hf Ht].
    assert (Hne : xg_fromEntityIndex g0 ≠ xg_toEntityIndex g0).
    { apply elem_of_oks, list_elem_of_fmap in Hg as (fields & E & _). unfold validate_edge in E. cbn zeta in E.
      destruct (entity_index _ _); [|done]. destruct (entity_index _ _); [|done]. case_bool_decide; [done|].
      case_bool_decide; [done|]. injection E as ->. done. }
    split; [intros E; apply Hne; rewrite E in Hf; by eapply compact_inj|].
    apply compact_kept in Hf as (x & _ & _ & ->). apply compact_kept in Ht as (y & _ & _ & ->). by split; eexists.
Qed.

Lemma moved_kept {A} keep (l : list A) i k :
  moved (compact keep 0 0 l).1 i = Some k →
  (0 <= i)%Z ∧ ∃ x, l !! Z.to_nat i = Some x ∧ keep x = true ∧ (compact keep 0 0 l).2 !! k = Some x.
Proof. unfold moved. destruct (0 <=? i)%Z eqn:E; [|done]. intros Hk. split; [lia|]. by apply compact_kept. Qed.

Lemma oks_filter {E A} (keep : A → bool) (g : nat → A → result E A) l :
  (∀ i x, oks [g i x] = if keep x then [x] else []) → oks (imap g l) = List.filter keep l.
Proof.
  revert g. induction l as [|x l IH]; intros g Hg; [done|]. cbn [imap List.filter].
  change (oks (g 0 x :: imap (g ∘ S) l)) with (oks ([g 0 x] ++ imap (g ∘ S) l)). unfold oks in *. rewrite omap_app, Hg, IH.
  - by destruct (keep x).
  - intros i y. apply (Hg (S i)).
Qed.

(** What an external indexer submits is staged only as far as the stored document bears
    it out: entities named in its text, facts whose value stands in its text and whose
    subject was kept, relations between entities kept. The survivors say what was submitted
    and sit on the entities they were submitted on, whatever indices that takes; everything
    else is reported as dropped, once each. *)
Theorem external_claims_quote_the_document docText entities facts relations :
  let input := normalizeForGrounding docText in
  let r := groundExternalBatch docText entities facts relations in
  (∀ k e, gb_entities r !! k = Some e →
     stands_in (normalizeForGrounding (ce_name e)) input ∧ ∃ e0, e0 ∈ entities ∧ e = with_entityIndex k e0) ∧
  (∀ f, f ∈ gb_facts r → stands_in (normalizeForGrounding (cf_object f)) input ∧
     ∃ f0 e0 k, f0 ∈ facts ∧ f = with_fact_entity k f0 ∧ (0 <= cf_entityIndex f0)%Z ∧
       entities !! Z.to_nat (cf_entityIndex f0) = Some e0 ∧ gb_entities r !! k = Some (with_entityIndex k e0)) ∧
  (∀ g, g ∈ gb_relations r → ∃ g0 from to e1 e2 , g0 ∈ relations ∧ g = with_ends from to g0 ∧
     entities !! Z.to_nat (cl_fromEntityIndex g0) = Some e1 ∧ gb_entities r !! from = Some (with_entityIndex from e1) ∧
     entities !! Z.to_nat (cl_toEntityIndex g0) = Some e2 ∧ gb_entities r !! to = Some (with_entityIndex to e2)) ∧
  length (gb_entities r) + length (gb_facts r) + length (gb_relations r) + length (gb_dropped r) =
  length entities + length facts + length relations.
Proof.
  cbn zeta. unfold groundExternalBatch. cbn zeta. cbn [gb_entities gb_facts gb_relations gb_dropped].
  set (input := normalizeForGrounding docText). set (kept := compact (grounded_name input) 0 0 entities).
  assert (Hat : ∀ k e, kept.2 !! k = Some e → imap with_entityIndex kept.2 !! k = Some (with_entityIndex k e)).
  { intros k e E. by rewrite list_lookup_imap, E. }
  split_and!.
  - intros k e. rewrite list_lookup_imap. destruct (kept.2 !! k) as [e0|] eqn:E; [|done]. intros [= <-].
    apply list_elem_of_lookup_2 in E. unfold kept in E. rewrite compact_filter in E. apply elem_of_bfilter in E as [He Hg].
    split; [by apply isGroundedSpan_spec|by exists e0].
  - intros f (i & f0 & Hf & E)%elem_of_oks%elem_of_imap. unfold ground_fact in E. destruct (moved _ _) as [k|] eqn:Em; [|done].
    destruct (isGroundedSpan _ _) eqn:Eg; [|done]. injection E as ->. split; [by apply isGroundedSpan_spec|].
    apply moved_kept in Em as (Hz & e0 & He & _ & Hk). exists f0, e0, k. split_and!; try done; [by eapply list_elem_of_lookup_2|by apply Hat].
  - intros g (i & g0 & Hg & E)%elem_of_oks%elem_of_imap. unfold ground_relation in E.
    destruct (moved _ (cl_fromEntityIndex g0)) as [from|] eqn:E1; [|done]. destruct (moved _ (cl_toEntityIndex g0)) as [to|] eqn:E2; [|done].
    injection E as ->. apply moved_kept in E1 as (_ & e1 & H1 & _ & K1). apply moved_kept in E2 as (_ & e2 & H2 & _ & K2).
    exists g0, from, to, e1, e2. split_and!; try done; [by eapply list_elem_of_lookup_2|by apply Hat|by apply Hat].
  - rewrite !length_app, length_imap. unfold kept. rewrite compact_filter.
    pose proof (oks_throws (imap (ground_entity input) entities)) as H1. rewrite (oks_filter (grounded_name input)) in H1
      by (intros i x; unfold ground_entity; by destruct (grounded_name input x)). rewrite length_imap in H1.
    pose proof (oks_throws (imap (ground_fact input kept.1) facts)) as H2.
    pose proof (oks_throws (imap (ground_relation kept.1) relations)) as H3. rewrite length_imap in H2. rewrite length_imap in H3. unfold kept in H2, H3. lia.
Qed.

(** ** Examples *)

(** The clause a fact is anchored to comes from the answer as it is: nothing looks for it in
    the text. *)
Definition coined_clause : jsval :=
  VObj [("entities", VArr [VObj [("name", VStr "Rui"); ("type", VStr "staff")]]);
        ("clauses", VArr [VStr "Rui was fired for theft"]);
        ("facts", VArr [VObj [("entityIndex", VNum 0); ("clauseIndex", VNum 0); ("predicate", VStr "role");
                              ("valueSpan", VStr "CTO"); ("confidence", VNum 2)]])].

#[local] Instance plain_calendar : Calendar :=
  {| date_at := λ _, None; iso_day := λ _, ""; resolveEventTime := λ _ _ _, None |}.

Lemma invented_clause_passes_the_gate :
  let r := assembled (λ _, "") (λ _, nan) "Rui is our CTO" coined_clause None [] false false in
  map (λ f, (xf_object f, xf_clause f)) (xr_facts r) = [("CTO", Some "Rui was fired for theft")] ∧
  isGroundedSpan (normalizeForGrounding "Rui is our CTO") (normalizeForGrounding "Rui was fired for theft") = false.
Proof. by vm_compute. Qed.

(** A relation whose index is [null] starts at the first entity. *)
Lemma absent_index_is_the_first_entity :
  let edge := VObj [("fromEntityIndex", VNull); ("toEntityIndex", VNum 1); ("kind", VStr "runs_on")] in
  map xg_fromEntityIndex (validateEdges (λ _, "") (λ _, nan) (VObj [("edges", VArr [edge])]) 2 []).1 = [0].
Proof. by vm_compute. Qed.

(** Words inside words are no ground; inflected names are. *)
Lemma act_is_not_in_active :
  isGroundedSpan "the plan is active" "act" = false ∧ isGroundedSpan "act on it, activist" "act" = true ∧
  isGroundedInflected "seen with petrova" "petrov" = true ∧ isGroundedInflected "flew to berlin" "bern" = false.
Proof. by vm_compute. Qed.
