(* ===== verification/SceneProjection.v ===== *)
(** * The scenes of a document

    [documents/scene-candidate-writer.service.ts] with [episodes/pack-scene-projection.ts]
    and the two field names of [ai/domain-packs/manifest.ts]: the scenes and state changes
    staged for a document become [memory_episode] rows, one slice per document and pack
    version, swapped whole. The projection ledger and the traces are left out. *)

From S2P Require Import Prelude Js Resume FactPolicy ScopeTags CandidateMerge RunLedger.
From stdpp Require Import gmap pretty.
Local Open Scope string_scope.
Local Open Scope nat_scope.

(** ** Rows *)

Record StateDelta := {
  de_stateModelId : jsval;
  de_field : string;
  de_subject : jsval;
  de_from : jsval;
  de_to : jsval;
  de_confidence : float;
  de_candidateId : option string
}.

Record SceneRow := {
  sn_userId : option string;
  sn_scope : list string;
  sn_userIds : option (list string);
  sn_sceneLabel : string;
  sn_occurredFrom : Z;
  sn_occurredTo : Z;
  sn_gist : string;
  sn_confidence : float;
  sn_segmenterVersion : string;
  sn_generation : string;
  sn_docId : string;
  sn_packId : string;
  sn_packVersion : string;
  sn_schemaId : jsval;
  sn_candidateId : string;
  sn_stateDeltas : list StateDelta
}.

Record Episodic := { ep_ledger : Ledger; ep_scenes : gmap string SceneRow }.

Definition with_ledger (l : Ledger) (s : Episodic) : Episodic := {| ep_ledger := l; ep_scenes := ep_scenes s |}.
Definition with_scenes (m : gmap string SceneRow) (s : Episodic) : Episodic := {| ep_ledger := ep_ledger s; ep_scenes := m |}.

(** The document the scenes are of. *)
Record SceneDoc := {
  sx_id : string;
  sx_userId : option string;
  sx_circles : option (list string);
  sx_occurredAt : Z
}.

(** ** Names *)

Definition PACK_SCENE_PROJECTOR : string := "pack-scene-projector-v1".
Definition PACK_NAMESPACE_SEP : string := "__".

(** A state model as its pack declares it. *)
Record StateModel := { sm_id : string; sm_field : option string }.

Definition stateModelFieldLocal (m : StateModel) : string :=
  let declared := default "" (trim <$> sm_field m) in
  if bool_decide (declared = "") then sm_id m else declared.

Definition packStateFieldName (packId local : string) : string := packId +:+ PACK_NAMESPACE_SEP +:+ local.

(** The last declaration under an id wins, as in a [Map]. *)
Definition packStateModelIndex (models : option (list StateModel)) : list (string * StateModel) :=
  fold_left (λ m x, OMap.set (sm_id x) x m) (default [] models) [].

Definition packDeltaField (packId stateModelId : string) (models : option (list (string * StateModel))) : string :=
  packStateFieldName packId
    (match models ≫= OMap.get stateModelId with Some m => stateModelFieldLocal m | None => stateModelId end).

(** [clampConfidence] *)
Definition clampConfidence (n : float) : float :=
  if is_finite n then (let m := if PrimFloat.ltb 0 n then n else 0%float in if PrimFloat.ltb m 1 then m else 1%float)
  else 0.7%float.

Section projection.
Variable sha256 : string → string.
Variable num_to_string : float → string.
(** [Number(v)] where it is an integer, and its text in a template. *)
Variable integer_of : jsval → option Z.
(** A date as the driver gives it, or [Date.parse] of a text. *)
Variable toDate : jsval → option Z.

Definition packSceneVersion (packId packVersion : string) : string :=
  "pack:" +:+ packId +:+ "+" +:+
  str_take 8 (sha256 ("impl=" +:+ PACK_SCENE_PROJECTOR +:+ "|pack=" +:+ packId +:+ "|packVersion=" +:+ packVersion)).

Definition packSceneIdTail (owner version : string) (discriminator : Z) : string :=
  str_take 24 (sha256 (owner +:+ "|" +:+ version +:+ "|" +:+ pretty discriminator)).

Definition packStateDeltaEntry (packId : string) (models : option (list (string * StateModel))) (d : CandidateRow) : StateDelta :=
  let get := obj_get (cr_payload d) in
  {| de_stateModelId := get "stateModelId";
     de_field := packDeltaField packId (string_or num_to_string (get "stateModelId") "") models;
     de_subject := get "subject"; de_from := get "from"; de_to := get "to";
     de_confidence := clampConfidence (cr_confidence d); de_candidateId := Some (cr_id d) |}.

(** [packSceneScopeStamp]: scope and members of a scene. *)
Definition packSceneScopeStamp (am : Ambient) (userId : option string) (circles : list string) :
    option string * list string * option (list string) :=
  let extra base := app base (List.filter (λ c, negb (bool_decide (c ∈ base))) circles) in
  match truthy userId with
  | Some u => (Some u, extra (scopeForUser am (Some u)), Some [u])
  | None => (None, extra [], None)
  end.

(** The stamp the row is built with names no circles. *)
Definition buildPackSceneRow (am : Ambient) (doc : SceneDoc) (packId packVersion version generation : string)
    (label gist : string) (row : CandidateRow) (deltas : list StateDelta) : SceneRow :=
  let '(userId, scope, userIds) := packSceneScopeStamp am (sx_userId doc) [] in
  let date field := default (sx_occurredAt doc) (toDate (obj_get (cr_payload row) field)) in
  {| sn_userId := userId; sn_scope := scope; sn_userIds := userIds; sn_sceneLabel := label;
     sn_occurredFrom := date "occurredFrom"; sn_occurredTo := date "occurredTo"; sn_gist := gist;
     sn_confidence := clampConfidence (cr_confidence row); sn_segmenterVersion := version; sn_generation := generation;
     sn_docId := "source_document:" +:+ idTailOf (sx_id doc); sn_packId := packId; sn_packVersion := packVersion;
     sn_schemaId := obj_get (cr_payload row) "schemaId"; sn_candidateId := cr_id row; sn_stateDeltas := deltas |}.

(** ** Groups *)

Record SceneGroup := { gp_packId : string; gp_packVersion : string; gp_scenes : list CandidateRow; gp_deltas : list CandidateRow }.

Definition push_row (row : CandidateRow) (g : SceneGroup) : SceneGroup :=
  if bool_decide (cr_kind row = KScene)
  then {| gp_packId := gp_packId g; gp_packVersion := gp_packVersion g; gp_scenes := app (gp_scenes g) [row]; gp_deltas := gp_deltas g |}
  else {| gp_packId := gp_packId g; gp_packVersion := gp_packVersion g; gp_scenes := gp_scenes g; gp_deltas := app (gp_deltas g) [row] |}.

Definition group_row (groups : list (string * SceneGroup)) (row : CandidateRow) : list (string * SceneGroup) :=
  OMap.set (cr_runId row)
    (push_row row
       (match OMap.get (cr_runId row) groups with
        | Some g => g
        | None => {| gp_packId := string_or num_to_string (obj_get (cr_payload row) "indexerId") "";
                     gp_packVersion := string_or num_to_string (obj_get (cr_payload row) "packVersion") "0";
                     gp_scenes := []; gp_deltas := [] |}
        end)) groups.

Definition groupByRun (rows : list CandidateRow) : list (string * SceneGroup) := fold_left group_row rows [].

(** ** One group *)

Definition scene_index (row : CandidateRow) : option Z := integer_of (obj_get (cr_payload row) "sceneIndex").

Definition projectSceneDeltas (deltas : list CandidateRow) (sceneIndex : Z) (packId : string)
    (models : option (list (string * StateModel))) : list StateDelta :=
  map (packStateDeltaEntry packId models) (List.filter (λ d, bool_decide (scene_index d = Some sceneIndex)) deltas).

Definition status (id : string) (kind : CandidateKind) (st : CandidateStatus) (reason ref : option string) : StatusUpdate :=
  {| su_id := id; su_kind := kind; su_status := st; su_reason := reason; su_ref := ref |}.

(** A scene candidate's row, or [None] when it is malformed. *)
Definition scene_of (am : Ambient) (doc : SceneDoc) (g : SceneGroup) (version generation : string)
    (models : option (list (string * StateModel))) (row : CandidateRow) : option (Z * string * SceneRow) :=
  match scene_index row, obj_get (cr_payload row) "label", obj_get (cr_payload row) "gist" with
  | Some i, VStr label, VStr gist =>
      Some (i, packSceneIdTail (sx_id doc) version i,
            buildPackSceneRow am doc (gp_packId g) (gp_packVersion g) version generation label gist row
              (projectSceneDeltas (gp_deltas g) i (gp_packId g) models))
  | _, _, _ => None
  end.

Definition memory_episode (tail : string) : string := "memory_episode:" +:+ tail.

(** [swapPackSceneSlice]: one transaction; a record id that is taken makes it fail. *)
Definition in_slice (version docId : string) (r : SceneRow) : bool :=
  bool_decide (sn_segmenterVersion r = version) && bool_decide (sn_docId r = docId).

Definition insert_scene (o : option (gmap string SceneRow)) (kv : string * SceneRow) : option (gmap string SceneRow) :=
  match o with
  | Some m => match m !! kv.1 with Some _ => None | None => Some (<[kv.1 := kv.2]> m) end
  | None => None
  end.

Definition insert_scenes (rows : list (string * SceneRow)) (m : gmap string SceneRow) : option (gmap string SceneRow) :=
  fold_left insert_scene rows (Some m).

Definition swapPackSceneSlice (version docId : string) (rows : list (string * SceneRow)) (s : Episodic) : Episodic * bool :=
  match insert_scenes rows (filter (λ kv : string * SceneRow, in_slice version docId kv.2 = false) (ep_scenes s)) with
  | Some m => (with_scenes m s, true)
  | None => (s, false)
  end.

Record SceneProjectionOutcome := { oc_packId : string; oc_version : string; oc_scenes : nat; oc_stateDeltas : nat; oc_rejected : nat }.

Definition committed (u : StatusUpdate) : bool := bool_decide (su_status u = CCommitted).

Definition scene_update (made : CandidateRow → option (Z * string * SceneRow)) (row : CandidateRow) : StatusUpdate :=
  match made row with
  | Some (_, tail, _) => status (cr_id row) (cr_kind row) CCommitted None (Some (memory_episode tail))
  | None => status (cr_id row) (cr_kind row) CRejected (Some "malformed_scene") None
  end.

(** [idBySceneIndex]: the last scene of an index. *)
Definition delta_update (byIndex : list (Z * string)) (row : CandidateRow) : StatusUpdate :=
  match scene_index row ≫= λ i, OMap.get i byIndex with
  | Some episodeId => status (cr_id row) (cr_kind row) CCommitted None (Some episodeId)
  | None => status (cr_id row) (cr_kind row) CRejected (Some "orphan_scene_reference") None
  end.

Definition on_ledger {A} (q : prog Ledger A) : prog Episodic A := zoom ep_ledger with_ledger q.

Section group.
Variables (am : Ambient) (doc : SceneDoc) (g : SceneGroup) (generation : string)
          (models : option (list (string * StateModel))).

Definition group_version : string := packSceneVersion (gp_packId g) (gp_packVersion g).
Definition group_made : list (Z * string * SceneRow) := omap (scene_of am doc g group_version generation models) (gp_scenes g).
Definition group_rows : list (string * SceneRow) := map (λ x, (memory_episode x.1.2, x.2)) group_made.
Definition group_index : list (Z * string) := fold_left (λ m x, OMap.set x.1.1 (memory_episode x.1.2) m) group_made [].
Definition group_updates : list StatusUpdate :=
  app (map (scene_update (scene_of am doc g group_version generation models)) (gp_scenes g))
      (map (delta_update group_index) (gp_deltas g)).

(** [None] is the exception of a failed swap. *)
Definition projectGroup : prog Episodic (option SceneProjectionOutcome) :=
  do* ok := update (swapPackSceneSlice group_version ("source_document:" +:+ idTailOf (sx_id doc)) group_rows) in
  if ok then
    do* _ := on_ledger (markStatuses group_updates) in
    Done (Some {| oc_packId := gp_packId g; oc_version := group_version; oc_scenes := length group_rows;
                  oc_stateDeltas := length (List.filter committed group_updates) - length group_rows;
                  oc_rejected := length (List.filter (λ u, bool_decide (su_status u = CRejected)) group_updates) |})
  else Done None.
End group.

(** The groups one after the other; a failed one is logged and skipped. *)
Fixpoint project_groups (am : Ambient) (doc : SceneDoc) (generation : string)
    (stateModels : list (string * list (string * StateModel))) (groups : list SceneGroup) :
    prog Episodic (list SceneProjectionOutcome) :=
  match groups with
  | [] => Done []
  | g :: groups' =>
      do* o := projectGroup am doc g generation (OMap.get (gp_packId g) stateModels) in
      do* rest := project_groups am doc generation stateModels groups' in
      Done (match o with Some x => x :: rest | None => rest end)
  end.

Definition projectDocument (enabled : bool) (am : Ambient) (doc : SceneDoc) (generation : string)
    (stateModels : list (string * list (string * StateModel))) (rows : list CandidateRow) :
    prog Episodic (list SceneProjectionOutcome) :=
  if negb enabled || (length rows =? 0) then Done []
  else project_groups am doc generation stateModels (OMap.vals (groupByRun rows)).
End projection.

(** ** What a projection may touch *)

(** Only the named candidates and the scenes of one document; runs and documents stay. *)
Record projects (ids : list string) (docId : string) (s s' : Episodic) : Prop := {
  pj_runs : lg_runs (ep_ledger s') = lg_runs (ep_ledger s);
  pj_docs : lg_docs (ep_ledger s') = lg_docs (ep_ledger s);
  pj_cands : ∀ c, c ∉ ids → lg_cands (ep_ledger s') !! c = lg_cands (ep_ledger s) !! c;
  pj_scenes : ∀ e r, ep_scenes s !! e = Some r → sn_docId r ≠ docId → ep_scenes s' !! e = Some r
}.

Lemma projects_refl ids docId s : projects ids docId s s.
Proof. done. Qed.

Lemma projects_trans ids docId s1 s2 s3 : projects ids docId s1 s2 → projects ids docId s2 s3 → projects ids docId s1 s3.
Proof.
  intros [R1 D1 C1 S1] [R2 D2 C2 S2]. split; [congruence|congruence| |].
  - intros c Hc. by rewrite C2, C1.
  - intros e r He Hr. apply S2; [by apply S1|done].
Qed.

Lemma mark_others updates s c :
  c ∉ map su_id updates → lg_cands (mark_statuses updates s) !! c = lg_cands s !! c.
Proof.
  unfold mark_statuses. cbn. generalize (lg_cands s). induction updates as [|u us IH]; intros m; cbn; [done|].
  rewrite not_elem_of_cons. intros [Hc Hcs]. rewrite IH by done. by rewrite lookup_alter_ne.
Qed.

Lemma insert_scenes_keeps rows m m' e r :
  insert_scenes rows m = Some m' → m !! e = Some r → m' !! e = Some r.
Proof.
  unfold insert_scenes. revert m. induction rows as [|[k v] rows IH]; intros m; cbn [fold_left]; [by intros [= <-]|]. cbn.
  destruct (m !! k) eqn:E.
  - assert (H : fold_left insert_scene rows None = None) by (clear; by induction rows). by rewrite H.
  - intros H He. eapply IH; [exact H|]. rewrite lookup_insert_ne; [done|]. congruence.
Qed.

Section touching.
Context (sha256 : string → string) (num_to_string : float → string) (integer_of : jsval → option Z)
        (toDate : jsval → option Z).

Lemma group_updates_ids am doc g gen models :
  map su_id (group_updates sha256 num_to_string integer_of toDate am doc g gen models) =
  map cr_id (app (gp_scenes g) (gp_deltas g)).
Proof.
  unfold group_updates. rewrite !map_app, !map_map. f_equal; apply map_ext; intros row.
  - unfold scene_update. by destruct (scene_of _ _ _ _ _ _ _ _ _ _ _) as [[[] ?]|].
  - unfold delta_update. by destruct (scene_index _ _ ≫= _).
Qed.

Lemma always_projectGroup am doc g gen models ids :
  (∀ row, row ∈ app (gp_scenes g) (gp_deltas g) → cr_id row ∈ ids) →
  always (projects ids ("source_document:" +:+ idTailOf (sx_id doc)))
    (projectGroup sha256 num_to_string integer_of toDate am doc g gen models).
Proof.
  intros Hids. unfold projectGroup. apply always_bind.
  - apply always_update. intros s. unfold swapPackSceneSlice.
    destruct (insert_scenes _ _) as [m|] eqn:E; [|apply projects_refl]. split; [done..|]. cbn. intros e r He Hr.
    eapply insert_scenes_keeps; [exact E|]. apply map_lookup_filter_Some. split; [done|]. cbn. unfold in_slice.
    apply andb_false_iff. right. by apply bool_decide_eq_false.
  - intros [|]; [|done]. apply always_bind; [|done]. unfold markStatuses. destruct (_ =? 0); [done|]. intros s. cbn.
    split; [|done]. split; [done..| |done]. intros c Hc. cbn. apply mark_others.
    rewrite group_updates_ids. intros (row & -> & Hr)%list_elem_of_fmap. by apply Hc, Hids.
Qed.

Definition members (groups : list (string * SceneGroup)) : list CandidateRow :=
  flat_map (λ g, app (gp_scenes g) (gp_deltas g)) (OMap.vals groups).

Lemma in_members groups row : row ∈ members groups ↔ ∃ g, g ∈ OMap.vals groups ∧ row ∈ app (gp_scenes g) (gp_deltas g).
Proof.
  unfold members. rewrite list_elem_of_In, in_flat_map. split; intros (g & H1 & H2); exists g; by rewrite !list_elem_of_In in *.
Qed.

Lemma push_row_members row g x : x ∈ app (gp_scenes (push_row row g)) (gp_deltas (push_row row g)) →
  x = row ∨ x ∈ app (gp_scenes g) (gp_deltas g).
Proof. unfold push_row. case_bool_decide; cbn; rewrite !elem_of_app, ?list_elem_of_singleton; tauto. Qed.

Lemma OMap_vals_set {K V} `{!EqDecision K} k (v x : V) (m : list (K * V)) :
  x ∈ OMap.vals (OMap.set k v m) → x = v ∨ x ∈ OMap.vals m.
Proof.
  unfold OMap.vals. induction m as [|[k' v'] m IH]; cbn.
  - rewrite list_elem_of_singleton. by left.
  - case_bool_decide; cbn; rewrite !elem_of_cons; [tauto|]. intros [->|Hx]; [by right; left|]. destruct (IH Hx); tauto.
Qed.

Lemma groups_cover rows groups x : x ∈ members (fold_left (group_row num_to_string) rows groups) → x ∈ members groups ∨ x ∈ rows.
Proof.
  revert groups. induction rows as [|row rows IH]; intros groups; cbn [fold_left]; [by left|].
  intros H. apply IH in H as [H|H]; [|right; by right]. apply in_members in H as (g & Hg & Hx).
  unfold group_row in Hg. apply OMap_vals_set in Hg as [->|Hg]; [|left; apply in_members; by exists g].
  apply push_row_members in Hx as [->|Hx]; [right; left|]. destruct (OMap.get (cr_runId row) groups) as [g0|] eqn:E.
  - left. apply in_members. exists g0. split; [|done]. apply OMap.get_elem in E. unfold OMap.vals. apply list_elem_of_fmap. by exists (cr_runId row, g0).
  - cbn in Hx. by apply elem_of_nil in Hx.
Qed.

Lemma always_projectDocument enabled am doc gen models rows :
  always (projects (map cr_id rows) ("source_document:" +:+ idTailOf (sx_id doc)))
    (projectDocument sha256 num_to_string integer_of toDate enabled am doc gen models rows).
Proof.
  unfold projectDocument. destruct (_ || _); [done|].
  assert (H : ∀ g, g ∈ OMap.vals (groupByRun num_to_string rows) → ∀ row, row ∈ app (gp_scenes g) (gp_deltas g) → cr_id row ∈ map cr_id rows).
  { intros g Hg row Hr. apply list_elem_of_fmap. exists row. split; [done|].
    destruct (groups_cover rows [] row) as [H|H]; [apply in_members; by exists g| |done]. cbn in H. by apply elem_of_nil in H. }
  revert H. generalize (OMap.vals (groupByRun num_to_string rows)). intros groups. induction groups as [|g groups IH]; intros H; [done|].
  cbn [project_groups]. apply always_bind; [apply always_projectGroup, (H g); left|]. intros o. apply always_bind; [|done].
  apply IH. intros g' Hg'. apply H. by right.
Qed.

(** Projecting the scenes of a document touches what is its own only: the candidates it
    was given and the scenes of that document. *)
Theorem projection_stays_in_its_document enabled am doc gen models rows s :
  projects (map cr_id rows) ("source_document:" +:+ idTailOf (sx_id doc)) s
    (run (projectDocument sha256 num_to_string integer_of toDate enabled am doc gen models rows) s).1.
Proof.
  apply (always_run (projects (map cr_id rows) _)); [apply projects_refl|apply projects_trans|].
  apply always_projectDocument.
Qed.
End touching.

(** ** Examples *)

Section examples.
Definition scene_candidate (id : string) (i : float) : CandidateRow :=
  {| cr_id := id; cr_runId := "run:1"; cr_chunkSeq := 0; cr_kind := KScene; cr_confidence := 0.9%float;
     cr_payload := [("sceneIndex", VNum i); ("label", VStr "kickoff"); ("gist", VStr "They met."); ("indexerId", VStr "crm")] |}.

Definition index_of_num (v : jsval) : option Z :=
  match v with VNum x => if PrimFloat.eqb x 0 then Some 0%Z else if PrimFloat.eqb x 1 then Some 1%Z else None | _ => None end.

Definition board_doc : SceneDoc :=
  {| sx_id := "source_document:1"; sx_userId := None; sx_circles := Some ["circle:board"]; sx_occurredAt := 1000 |}.

Definition outside : Ambient :=
  {| am_authUserId := None; am_actingCircle := None; am_scopeTags := []; am_jobCircle := None; am_writeScope := None;
     am_scopeTagsEnabled := true |}.

Definition staged_scene (c : CandidateRow) : StagedRow :=
  {| sg_docId := "source_document:1"; sg_runId := cr_runId c; sg_chunkSeq := 0;
     sg_part := {| sp_kind := cr_kind c; sp_confidence := cr_confidence c; sp_payload := cr_payload c |};
     sg_status := CPending; sg_statusReason := None; sg_commitRef := None; sg_createdAt := 0; sg_decidedAt := None |}.

Definition staged_scenes (cs : list CandidateRow) : Episodic :=
  {| ep_ledger := {| lg_docs := ∅; lg_runs := ∅; lg_cands := list_to_map (map (λ c, (cr_id c, staged_scene c)) cs); lg_now := 5 |};
     ep_scenes := ∅ |}.

Abbreviation projected cs :=
  (run (projectDocument (λ x, x) (λ _, "0") index_of_num (λ _, None) true outside board_doc "g1" [] cs) (staged_scenes cs)).

(** A commit projects outside the circle it wrote the facts in, and the row it builds is
    stamped without the circles of the document: the scene of a circle's document has the
    empty scope every reader of the tenant sees. *)
Lemma circle_scene_leaves_the_circle :
  map (λ kv : string * SceneRow, (sn_scope kv.2, sn_docId kv.2)) (map_to_list (ep_scenes (projected [scene_candidate "c1" 0]).1)) =
    [([], "source_document:1")] ∧
  (packSceneScopeStamp outside (sx_userId board_doc) (default [] (sx_circles board_doc))).1.2 = ["circle:board"].
Proof. split; vm_compute; reflexivity. Qed.

(** Two scenes of one index make the swap fail, and both wait for ever. *)
Lemma twin_scenes_are_never_projected :
  let o := projected [scene_candidate "c1" 0; scene_candidate "c2" 0] in
  o.2 = [] ∧ ep_scenes o.1 = ∅ ∧ map (λ kv : string * StagedRow, sg_status kv.2) (map_to_list (lg_cands (ep_ledger o.1))) = [CPending; CPending].
Proof. split_and!; vm_compute; reflexivity. Qed.
End examples.
