(* ===== verification/CommitWriter.v ===== *)
(** * Writing the merged candidates

    [documents/commit-writer.service.ts] with [lookupUserEntity] of
    [ingest/user-entity.service.ts]: the entities, facts and relations a commit writes, the
    raw turns its facts point at, the portable instructions that leave a circle, and the
    claims a revision closes. The components it calls work on one memory, each through its
    own view. The judge is asked ahead of the ladder, which is one of the orders the code's
    promises may take; statements that fail are those of the fact resolver. *)

From S2P Require Import Prelude Js Regex Resume CandidateMerge RunLedger SceneProjection FactSlots FactSettle.
From S2P Require Import FactPolicy FactResolver ScopeTags Names Relatives EdgeWriter EventTime EdgeSupport.
From S2P Require Import RevisionClosure DocumentMeta DocumentText EpisodeStore DocumentStore EntityGraph.
From S2P Require Import EntityMerge EntityResolver EntityLadder.
From stdpp Require Import gmap sorting pretty.
Local Open Scope string_scope.
Local Open Scope nat_scope.

(** ** The memory of a tenant, and what each component sees of it *)

(** The facts are those of the document store; what the graph reads of them is a view. *)
Record Memory := {
  mm_store : DocStore;
  mm_graph : Graph;
  mm_turns : TurnStore;
  mm_runs : gmap string RunRow;
  mm_cands : gmap string StagedRow;
  mm_now : Z;
  mm_scenes : gmap string SceneRow;
  mm_fails : list bool
}.

Definition with_store (x : DocStore) (s : Memory) : Memory :=
  {| mm_store := x; mm_graph := mm_graph s; mm_turns := mm_turns s; mm_runs := mm_runs s; mm_cands := mm_cands s;
     mm_now := mm_now s; mm_scenes := mm_scenes s; mm_fails := mm_fails s |}.
Definition with_graph (x : Graph) (s : Memory) : Memory :=
  {| mm_store := mm_store s; mm_graph := x; mm_turns := mm_turns s; mm_runs := mm_runs s; mm_cands := mm_cands s;
     mm_now := mm_now s; mm_scenes := mm_scenes s; mm_fails := mm_fails s |}.
Definition with_turn_store (x : TurnStore) (s : Memory) : Memory :=
  {| mm_store := mm_store s; mm_graph := mm_graph s; mm_turns := x; mm_runs := mm_runs s; mm_cands := mm_cands s;
     mm_now := mm_now s; mm_scenes := mm_scenes s; mm_fails := mm_fails s |}.
Definition with_fails (x : list bool) (s : Memory) : Memory :=
  {| mm_store := mm_store s; mm_graph := mm_graph s; mm_turns := mm_turns s; mm_runs := mm_runs s; mm_cands := mm_cands s;
     mm_now := mm_now s; mm_scenes := mm_scenes s; mm_fails := x |}.
Definition with_episodic (runs : gmap string RunRow) (cands : gmap string StagedRow) (scenes : gmap string SceneRow)
    (s : Memory) : Memory :=
  {| mm_store := mm_store s; mm_graph := mm_graph s; mm_turns := mm_turns s; mm_runs := runs; mm_cands := cands;
     mm_now := mm_now s; mm_scenes := scenes; mm_fails := mm_fails s |}.

(** [status = 'active' AND retractedAt IS NONE] *)
Definition entity_fact (f : Fact) : EntityFact :=
  {| ef_entityId := cl_entityId (f_claim f); ef_predicate := cl_predicate (f_claim f); ef_object := cl_object (f_claim f);
     ef_confidence := cl_confidence (f_claim f);
     ef_current := bool_decide (f_status f = Active) && bool_decide (f_retractedAt f = None) |}.

Definition graph_view (s : Memory) : Graph :=
  let g := mm_graph s in
  {| gr_entities := gr_entities g; gr_refs := gr_refs g; gr_edges := gr_edges g;
     gr_facts := map (λ kv, entity_fact kv.2) (map_to_list (fd_rows (st_facts (mm_store s))));
     gr_predicates := gr_predicates g; gr_locks := gr_locks g |}.

Definition doc_view (r : DocumentRow) : DocRow :=
  {| dc_status := dn_status r; dc_occurredAt := dn_occurredAt r; dc_userId := dn_userId r;
     dc_conversationId := internalMetaString (dn_meta r) "conversationId" |}.

Definition ledger_view (s : Memory) : Ledger :=
  {| lg_docs := doc_view <$> st_docs (mm_store s); lg_runs := mm_runs s; lg_cands := mm_cands s; lg_now := mm_now s |}.
Definition put_ledger (l : Ledger) (s : Memory) : Memory := with_episodic (lg_runs l) (lg_cands l) (mm_scenes s) s.

Definition scenes_view (s : Memory) : Episodic := {| ep_ledger := ledger_view s; ep_scenes := mm_scenes s |}.
Definition put_scenes (e : Episodic) (s : Memory) : Memory :=
  with_episodic (lg_runs (ep_ledger e)) (lg_cands (ep_ledger e)) (ep_scenes e) s.

(** What a revision compares with: documents, chunk texts in [seq] order, turn texts. *)
Definition rev_doc (r : DocumentRow) : RevDoc :=
  {| rd_kind := dn_kind r; rd_occurredAt := Some (dn_occurredAt r);
     rd_sourceItemId := internalMetaString (dn_meta r) "sourceItemId";
     rd_record_field := internalMetaString (dn_meta r) "record_field" |}.

Definition archive_view (s : Memory) : Archive :=
  {| ac_facts := st_facts (mm_store s); ac_edges := gr_edges (mm_graph s); ac_docs := rev_doc <$> st_docs (mm_store s);
     ac_chunks := (λ cs, map ck_text (merge_sort chunk_before cs)) <$> st_chunks (mm_store s);
     ac_episodes := (λ r, Some (ep_text r)) <$> tn_rows (mm_turns s) |}.
Definition put_archive (a : Archive) (s : Memory) : Memory :=
  with_graph (with_edges (ac_edges a) (mm_graph s)) (with_store (with_doc_facts (ac_facts a) (mm_store s)) s).

Definition on_graph {A} (q : prog Graph A) : prog Memory A := zoom graph_view with_graph q.
Definition on_relations {A} (q : prog EdgeStore A) : prog Memory A := on_graph (on_edges q).
Definition on_turns {A} (q : prog TurnStore A) : prog Memory A := zoom mm_turns with_turn_store q.
Definition on_scenes {A} (q : prog Episodic A) : prog Memory A := zoom scenes_view put_scenes q.
Definition on_candidates {A} (q : prog Ledger A) : prog Memory A := zoom ledger_view put_ledger q.
Definition on_archive {A} (q : prog Archive A) : prog Memory A := zoom archive_view put_archive q.

Section facts.
(** A record id's number, for the tables the fact resolver numbers. *)
Variable edge_number : string → nat.

Definition edge_period (r : EdgeRow) : FactResolver.EdgeRow :=
  {| er_validFrom := eg_validFrom r; er_validUntil := eg_validUntil r; er_invalidatedAt := eg_invalidatedAt r |}.

Definition facts_view (s : Memory) : DbState :=
  {| ds_facts := st_facts (mm_store s);
     ds_edges := list_to_map (map (λ kv, (edge_number kv.1, edge_period kv.2)) (map_to_list (gr_edges (mm_graph s))));
     ds_fails := mm_fails s |}.

Definition put_period (periods : gmap nat FactResolver.EdgeRow) (id : string) (r : EdgeRow) : EdgeRow :=
  match periods !! edge_number id with
  | Some p => with_period (er_validFrom p) (er_validUntil p) (er_invalidatedAt p) r
  | None => r
  end.

Definition put_fact_state (d : DbState) (s : Memory) : Memory :=
  with_fails (ds_fails d)
    (with_graph (with_edges (map_imap (λ id r, Some (put_period (ds_edges d) id r)) (gr_edges (mm_graph s))) (mm_graph s))
       (with_store (with_doc_facts (ds_facts d) (mm_store s)) s)).

Definition on_fact_state {A} (q : prog DbState A) : prog Memory A := zoom facts_view put_fact_state q.
End facts.

(** ** Record ids of facts *)

Definition fact_record (id : nat) : string := "knowledge_fact:" +:+ pretty id.

Definition digit (c : Ascii.ascii) : option nat :=
  let n := Ascii.nat_of_ascii c - 48 in if is_digit c then Some n else None.

Fixpoint decimal (acc : nat) (s : string) : option nat :=
  match s with
  | EmptyString => Some acc
  | String c s' => match digit c with Some d => decimal (10 * acc + d) s' | None => None end
  end.

(** ** Outcomes *)

Record FactWriteOutcome := { fw_fact : MergedFact; fw_factId : option nat; fw_outcome : option string }.
Record RelationWriteOutcome := { rw_relation : MergedRelation; rw_edgeId : option string }.
Record WriteMergedResult := {
  wm_entityIds : list (string * string);
  wm_facts : list FactWriteOutcome;
  wm_relations : list RelationWriteOutcome
}.

Definition outcome_name (o : SettleOutcome) : string :=
  match o with
  | OInserted => "INSERTED" | OInsertedHistorical => "INSERTED_HISTORICAL" | OSuperseded => "SUPERSEDED"
  | OCompeting => "COMPETING" | OCorroborated => "CORROBORATED" | ORejected => "REJECTED" | OSkipped => "SKIPPED"
  end.

Definition CLAUSE_MAX_CHARS : nat := 1000.

(** ** The turns of a document *)

Record CapturedTurns := { ct_turns : list (DocumentTurn * nat); ct_ids : list (option string) }.

(** The index of the first turn of the pool, kept beside the turn, that holds the span. *)
Definition find_in_pool (pool : list (nat * DocumentTurn)) (span : option string) : option nat :=
  turnOfSpan (map snd pool) span ≫= λ i, fst <$> pool !! i.

Fixpoint first_span (pool : list (nat * DocumentTurn)) (spans : list (option string)) : option nat :=
  match spans with
  | [] => None
  | span :: spans' => match find_in_pool pool span with Some i => Some i | None => first_span pool spans' end
  end.

Definition numbered_turns (c : CapturedTurns) : list (nat * (DocumentTurn * nat)) := imap (λ i t, (i, t)) (ct_turns c).

Definition episodeForSpans (captured : option CapturedTurns) (spans : list (option string)) (chunkSeq : option Z) :
    option string :=
  match captured with
  | None => None
  | Some c =>
      let all := numbered_turns c in
      let own := List.filter (λ x : nat * (DocumentTurn * nat), bool_decide (Some (Z.of_nat x.2.2) = chunkSeq)) all in
      let pool_of := map (λ x : nat * (DocumentTurn * nat), (x.1, x.2.1)) in
      match (match first_span (pool_of own) spans with Some i => Some i | None => first_span (pool_of all) spans end) with
      | Some i => match ct_ids c !! i with Some id => id | None => None end
      | None => None
      end
  end.

Definition episodeOf (captured : option CapturedTurns) (mf : MergedFact) : option string :=
  episodeForSpans captured [mf_clause mf; Some (mf_object mf)] (Some (mf_leaderChunkSeq mf)).

Definition turn_message (i : nat) : string := "turn:" +:+ pretty i.

(** The ids of the turns by message, or none when one is missing. *)
Definition turn_ids (conversationId : string) (count : nat) (s : TurnStore) : option (list string) :=
  let byMessage := map (λ kv : string * EpisodeRow, (ep_messageId kv.2, kv.1))
                     (List.filter (λ kv : string * EpisodeRow, bool_decide (ep_conversationId kv.2 = Some conversationId))
                        (map_to_list (tn_rows s))) in
  mapM (λ i, truthy (OMap.get (turn_message i) byMessage)) (seq 0 count).

Definition capturedTurnIds (conversationId : string) (count : nat) : prog TurnStore (option (list string)) :=
  query (turn_ids conversationId count).

(** ** What a fact was read from *)

Definition stamp_of (v : string * string * string * string) : SourceVersionStamp :=
  let '(system, ref, version, readAt) := v in {| sv_system := system; sv_ref := ref; sv_version := version; sv_readAt := readAt |}.

(** The leader's stamp, else any contributor's, else the header's. *)
Definition source_stamp (mf : MergedFact) (doc : StoredDocument) : option SourceVersionStamp :=
  match find_first (λ c, bool_decide (fc_candidateId c = mf_leaderId mf)) (mf_contributors mf) ≫= fc_sourceVersion with
  | Some v => Some v
  | None =>
      match find_first (λ c, negb (bool_decide (fc_sourceVersion c = None))) (mf_contributors mf) ≫= fc_sourceVersion with
      | Some v => Some v
      | None => stamp_of <$> sourceVersionFromHeader (sd_meta doc)
      end
  end.

Definition sourceVersionOf (mf : MergedFact) (doc : StoredDocument) : Bag :=
  match source_stamp mf doc with Some v => [("sourceVersion", stamp_value v)] | None => [] end.

Definition meta_string (doc : StoredDocument) (key : string) : option string :=
  match meta_get (sd_meta doc) key with VStr s => Some s | _ => None end.

Definition evidenceAssetEvidence (doc : StoredDocument) : list jsval :=
  match truthy (meta_string doc "evidenceAssetId") with
  | None => []
  | Some ref =>
      [VObj (app [("kind", VStr "asset"); ("ref", VStr ref)]
               (match truthy (meta_string doc "evidenceRepresentationId") with
                | Some rep => [("note", VStr ("text via " +:+ rep))] | None => [] end))]
  end.

Definition toolObservationEvidence (doc : StoredDocument) : list jsval :=
  match truthy (meta_string doc "toolObservationRef") with
  | None => []
  | Some ref =>
      [VObj (app [("kind", VStr "tool_observation"); ("ref", VStr ref)]
               (match meta_string doc "toolObservationNote" with Some note => [("note", VStr note)] | None => [] end))]
  end.

Definition SOURCE_RECORD : string := "source_record".

Definition record_kind (doc : StoredDocument) : Bag :=
  if bool_decide (sd_kind doc = SOURCE_RECORD) then [("kind", VStr SOURCE_RECORD)] else [].

Definition indexer_entry (c : FactContributor) : jsval :=
  VObj [("packId", VStr (fc_indexerId c)); ("packVersion", VStr (fc_packVersion c));
        ("model", match fc_model c with Some m => VStr m | None => VUndef end); ("confidence", VNum (fc_confidence c));
        ("candidateId", VStr (fc_candidateId c))].

Definition factSource (doc : StoredDocument) (mf : MergedFact) (turnEpisodeId : option string) : Source :=
  let meta := match sd_meta doc with Some m => sm_meta (sanitizeSourceMeta (VObj m)) | None => sm_meta (sanitizeSourceMeta VUndef) end in
  let episodeId := match internalMetaString (sd_meta doc) "episodeId" with Some e => Some e | None => turnEpisodeId end in
  {| so_vertical := Some (sd_vertical doc); so_recorder := Some (mf_recorder mf);
     so_originKey := Some (originKeyOf (sd_contentHash doc));
     so_rest :=
       flat_map id
         [ [("documentId", VStr (sd_id doc))]; record_kind doc;
           match truthy episodeId with Some e => [("episodeIds", VArr [VStr e])] | None => [] end;
           match truthy (mf_clause mf) with Some c => [("clause", VStr (str_take CLAUSE_MAX_CHARS c))] | None => [] end;
           match meta with Some m => [("meta", VObj m)] | None => [] end;
           sourceVersionOf mf doc;
           [("indexers", VArr (map indexer_entry (mf_contributors mf)));
            ("evidence", VArr (VObj [("kind", VStr "document"); ("ref", VStr (sd_id doc));
                                     ("note", VStr ("chunk " +:+ pretty (mf_leaderChunkSeq mf)))]
                                 :: app (toolObservationEvidence doc) (evidenceAssetEvidence doc)))] ] |}.

(** The copy that leaves a circle says where it came from. *)
Definition shared_source (so : Source) (factId : nat) (circles : list string) : Source :=
  let meta := match OMap.get "meta" (so_rest so) with Some (VObj m) => m | _ => [] end in
  {| so_vertical := so_vertical so; so_recorder := so_recorder so; so_originKey := so_originKey so;
     so_rest := OMap.set "meta"
       (VObj (assign meta [("sharedFrom", VStr (fact_record factId)); ("sharedFromCircles", VArr (map VStr circles));
                           ("shareBasis", VStr "default:portable_instruction")])) (so_rest so) |}.

(** ** The user's own entity *)

Record UserEntity := { ue_id : string; ue_name : string; ue_named : bool }.

Definition lookupUserEntity (userId : string) (s : Graph) : option UserEntity :=
  id ← gr_refs s !! userEntityKey userId;
  row ← gr_entities s !! id;
  let name := en_canonicalName row in
  Some {| ue_id := default id (en_mergedInto row); ue_name := name; ue_named := negb (bool_decide (name = userId)) |}.

(** ** Outside code and settings *)

Class CommitServices := {
  cs_sha256 : string → string;
  cs_num_to_string : float → string;
  cs_iso_date : string → option string;
  cs_iso : Z → string;
  cs_parse : string → float;
  cs_cosine : list float → list float → float;
  cs_embedMany : list string → option (list (list float));
  cs_sanitize : string → string;
  cs_redact : string → string * list string;
  cs_language : string → string;
  cs_integer_of : jsval → option Z;
  cs_toDate : jsval → option Z;
  cs_edge_number : string → nat
}.

(** The environment: what each component reads of it. [cw_jsNow] is the clock of the
    datastore as the edge writer reads it, [cw_fuel] the pages of a closure. *)
Record CommitEnv := {
  cw_names : NameFlags;
  cw_bounds : ScanBounds;
  cw_entityResolver : option bool;
  cw_facts : ResolverEnv;
  cw_turns : TurnFlags;
  cw_turnOutages : nat → bool;
  cw_eventTime : bool;
  cw_minConfidence : option string;
  cw_projections : bool;
  cw_stateModels : list (string * list (string * StateModel));
  cw_generation : string;
  cw_now : Z;
  cw_fuel : nat
}.

Section writer.
Context `{CommitServices, Script, Models, ResolverServices, Calendar} (env : CommitEnv).

Definition ref_of (id : string) : option SupersededRef :=
  if starts_with "knowledge_edge:" id then Some (RefEdge (cs_edge_number (idTailOf id)))
  else if starts_with "knowledge_fact:" id then RefFact <$> decimal 0 (idTailOf id) else None.

(** ** Entities *)

Definition mention_of (me : MergedEntity) : Mention :=
  {| mt_name := me_name me; mt_type := me_type me; mt_canonical := me_canonical me; mt_known := me_known me |}.

(** Resolved before the judge's rung: a record id, a pin, or a participant. *)
Definition anchored (participants : Participants) (me : MergedEntity) : bool :=
  match truthy (me_externalId me), truthy (me_known me), coreferentParticipant (me_name me) participants with
  | None, None, None => false
  | _, _, _ => true
  end.

Definition anchor_of (doc : StoredDocument) (participants : Participants) (me : MergedEntity) : option ParticipantHint :=
  match truthy (me_externalId me) with
  | Some i => Some {| ph_vertical := sd_vertical doc; ph_id := i; ph_role := None; ph_name := None; ph_userId := None |}
  | None =>
      match participantHint (coreferentParticipant (me_name me) participants) (sd_userId doc) with
      | Some h => Some h
      | None => relativeHint (me_name me) (me_canonical me) (sd_userId doc)
      end
  end.

Definition ladder (am : Ambient) := resolveOrCreateNamedEntity (cw_names env) am (cw_bounds env) (cw_entityResolver env).

Fixpoint prejudge_all (am : Ambient) (merge : MergeResult) (l : list MergedEntity) :
    prog Memory (list (string * option string)) :=
  match l with
  | [] => Done []
  | me :: l' =>
      do* v := on_graph (prejudge (cw_names env) am (cw_bounds env) (cw_entityResolver env) (mention_of me)
                           (incomingFactsFor merge (me_key me))) in
      do* rest := prejudge_all am merge l' in
      Done ((me_key me, v) :: rest)
  end.

(** The answers asked ahead count until a mention creates an entity. *)
Fixpoint resolve_entities (am : Ambient) (doc : StoredDocument) (participants : Participants) (merge : MergeResult)
    (prejudged : list (string * option string)) (createdSince : bool) (l : list MergedEntity) :
    prog Memory (result http_exn (list (string * string))) :=
  match l with
  | [] => Done (Ok [])
  | me :: l' =>
      try* r := on_graph (ladder am (mention_of me) (anchor_of doc participants me) (incomingFactsFor merge (me_key me))
                            (if createdSince : bool then None else OMap.get (me_key me) prejudged)) in
      let created := match r.1 with StCreated => true | _ => createdSince end in
      try* rest := resolve_entities am doc participants merge prejudged created l' in
      Done (Ok ((me_key me, r.2) :: rest))
  end.

Definition resolveEntities (am : Ambient) (doc : StoredDocument) (merge : MergeResult) :
    prog Memory (result http_exn (list (string * string))) :=
  let participants := participantsFromMeta (sd_meta doc) in
  do* prejudged := prejudge_all am merge (List.filter (λ me, negb (anchored participants me)) (mg_entities merge)) in
  resolve_entities am doc participants merge prejudged false (mg_entities merge).

(** ** Turns *)

Definition chunk_turns (cs : list DocumentChunk) : list (DocumentTurn * nat) :=
  flat_map (λ c, map (λ t, (t, ck_seq c)) (splitDocumentTurns (ck_text c))) cs.

Definition turn_dto (doc : StoredDocument) (conversationId : string) (fallback : string) (i : nat) (t : DocumentTurn) :
    EpisodeStore.IngestMentionDto :=
  {| md_text := dt_text t;
     md_contextRef := {| mx_vertical := sd_vertical doc; mx_conversationId := Some conversationId;
                         mx_messageId := Some (turn_message i); mx_eventId := None; mx_recorder := truthy (sd_recorder doc) |};
     md_knownEntities := [{| ke_vertical := sd_vertical doc; ke_id := conversationId; ke_role := Some "speaker";
                             ke_name := Some (default fallback (dt_speaker t)) |}];
     md_userId := sd_userId doc; md_emittedAt := (sd_occurredAt doc + Z.of_nat i * 1000)%Z |}.

Fixpoint capture_all (am : Ambient) (doc : StoredDocument) (conversationId fallback : string) (i : nat)
    (turns : list (DocumentTurn * nat)) : prog TurnStore (list (option string)) :=
  match turns with
  | [] => Done []
  | t :: turns' =>
      do* id := captureTurn cs_sha256 cs_sanitize cs_redact cs_language cs_iso (cw_turns env) am (cw_turnOutages env i)
                  (turn_dto doc conversationId fallback i t.1) in
      do* ids := capture_all am doc conversationId fallback (S i) turns' in
      Done (id :: ids)
  end.

Definition documentTurns (am : Ambient) (reuse : bool) (doc : StoredDocument) : prog Memory (option CapturedTurns) :=
  if negb (tf_enabled (cw_turns env)) || negb (sd_hasContent doc) then Done None
  else
    match internalMetaString (sd_meta doc) "episodeId" with
    | Some _ => Done None
    | None =>
        do* read := query (λ s, (getChunks (sd_id doc) (mm_store s), st_docs (mm_store s) !! doc_record (sd_id doc) ≫= dn_title)) in
        let turns := chunk_turns read.1 in
        if length turns =? 0 then Done None
        else
          let conversationId := "document:" +:+ idTailOf (sd_id doc) in
          do* captured := (if reuse then on_turns (capturedTurnIds conversationId (length turns)) else Done None) in
          match captured with
          | Some ids => Done (Some {| ct_turns := turns; ct_ids := map Some ids |})
          | None =>
              do* ids := on_turns (capture_all am doc conversationId (default (sd_vertical doc) read.2) 0 turns) in
              Done (Some {| ct_turns := turns; ct_ids := ids |})
          end
    end.

Definition commitTurns (am : Ambient) (doc : StoredDocument) : prog Memory (option CapturedTurns) := documentTurns am true doc.

(** Called when the document arrives, before anything is extracted. *)
Definition captureDocumentTurns (am : Ambient) (doc : StoredDocument) : prog Memory (option CapturedTurns) :=
  documentTurns (runInCircle (default [] (sd_circles doc)) am) false doc.

(** ** Facts *)

Record ShareTarget := { sh_ownEntityId : string; sh_circles : list string }.

(** What may leave the circle: nothing without a circle, a person and their entity. *)
Definition portableShareTarget (am : Ambient) (doc : StoredDocument) : prog Memory (option ShareTarget) :=
  let circles := actingCircleTags am in
  if length circles =? 0 then Done None
  else
    match truthy (sd_userId doc) with
    | None => Done None
    | Some u =>
        do* own := query (λ s, lookupUserEntity u (graph_view s)) in
        Done ((λ o, {| sh_ownEntityId := idTailOf (ue_id o); sh_circles := circles |}) <$> own)
    end.

Definition isPortable (mf : MergedFact) (entityId : string) (target : ShareTarget) : bool :=
  bool_decide (mf_predicate mf = "instruction") && bool_decide (idTailOf entityId = sh_ownEntityId target).

Definition resolveEventTimeOpts (timezone : option string) : EventTimeResolveOpts :=
  {| eo_on := cw_eventTime env; eo_timeZone := truthy timezone |}.

Definition fact_timing (doc : StoredDocument) (mf : MergedFact) : FactTiming :=
  factTiming {| td_clause := mf_clause mf; td_eventTime := dy_eventTime (mf_days mf); td_endTime := dy_endTime (mf_days mf) |}
    (sd_occurredAt doc) (resolveEventTimeOpts (internalMetaString (sd_meta doc) "timezone")).

Definition fact_input (companyId : string) (doc : StoredDocument) (entityId : string) (entityType : option string)
    (mf : MergedFact) (supersedes : option (list string)) (source : Source) (embedding : option (list float)) : ResolveInput :=
  let t := fact_timing doc mf in
  {| ri_companyId := companyId; ri_entityId := entityId; ri_predicate := mf_predicate mf; ri_predicateAlias := None;
     ri_object := mf_object mf; ri_sourceLang := None; ri_entityType := entityType;
     ri_objectMeta := (λ d, VObj [("date", VStr d)]) <$> ft_date t; ri_embeddingText := None;
     ri_precomputedEmbedding := embedding; ri_confidence := mf_confidence mf; ri_validFrom := ft_validFrom t;
     ri_validUntil := ft_validUntil t;
     ri_expectedUntil := match ft_validUntil t with
                         | Some _ => None
                         | None => factExpectation (dy_expectedEnd (mf_days mf)) (sd_occurredAt doc) (ft_validFrom t)
                         end;
     ri_source := source; ri_entropy := mf_entropy mf; ri_userId := sd_userId doc;
     ri_derivedVersion := None; ri_recordOutcomeMetric := None; ri_supersedes := (λ ids : list string, (omap ref_of ids : list SupersededRef)) <$> supersedes |}.

Definition resolve_fact (am : Ambient) (p : ResolveInput) : prog Memory (result string Resolved) :=
  on_fact_state cs_edge_number (resolve (cw_facts env) cs_cosine cs_parse am p).

(** The copy; its failure leaves the instruction in its circle. *)
Definition shareOutOfCircle (am : Ambient) (companyId : string) (doc : StoredDocument) (entityId : string) (mf : MergedFact)
    (factId : nat) (source : Source) (embedding : option (list float)) (circles : list string) : prog Memory unit :=
  do* _ := resolve_fact (runOutsideCircle am)
             (fact_input companyId doc entityId None mf None (shared_source source factId circles) embedding) in
  Done tt.

Definition write_fact (am : Ambient) (companyId : string) (doc : StoredDocument) (turns : option CapturedTurns)
    (share : option ShareTarget) (entityTypes : list (string * string)) (entityId : string) (mf : MergedFact)
    (embedding : option (list float)) : prog Memory FactWriteOutcome :=
  let source := factSource doc mf (episodeOf turns mf) in
  do* r := resolve_fact am (fact_input companyId doc entityId (OMap.get (mf_entityKey mf) entityTypes) mf
                              (mf_supersedes mf) source embedding) in
  match r with
  | Throw _ => Done {| fw_fact := mf; fw_factId := None; fw_outcome := Some "error" |}
  | Ok x =>
      let res := rs_result x in
      let out := {| fw_fact := mf; fw_factId := ro_factId res; fw_outcome := Some (outcome_name (ro_outcome res)) |} in
      match ro_factId res, share with
      | Some factId, Some target =>
          if isPortable mf entityId target then
            do* _ := shareOutOfCircle am companyId doc entityId mf factId source embedding (sh_circles target) in Done out
          else Done out
      | _, _ => Done out
      end
  end.

(** One fact after the other; a fact without a subject and one that fails are recorded. *)
Fixpoint write_facts (am : Ambient) (companyId : string) (doc : StoredDocument) (turns : option CapturedTurns)
    (share : option ShareTarget) (entityIds entityTypes : list (string * string)) (embeddings : list (list float))
    (i : nat) (l : list MergedFact) : prog Memory (list FactWriteOutcome) :=
  match l with
  | [] => Done []
  | mf :: l' =>
      do* o := match truthy (OMap.get (mf_entityKey mf) entityIds) with
               | None => Done {| fw_fact := mf; fw_factId := None; fw_outcome := None |}
               | Some entityId =>
                   write_fact am companyId doc turns share entityTypes entityId mf (embeddings !! i)
               end in
      do* os := write_facts am companyId doc turns share entityIds entityTypes embeddings (S i) l' in
      Done (o :: os)
  end.

Definition writeFacts (am : Ambient) (companyId : string) (doc : StoredDocument) (merge : MergeResult)
    (factsToWrite : list MergedFact) (embeddings : list (list float)) (entityIds : list (string * string))
    (turns : option CapturedTurns) : prog Memory (list FactWriteOutcome) :=
  do* share := portableShareTarget am doc in
  write_facts am companyId doc turns share entityIds (map (λ me, (me_key me, me_type me)) (mg_entities merge)) embeddings
    0 factsToWrite.

(** ** Relations *)

Definition relation_write (doc : StoredDocument) (mr : MergedRelation) (fromId toId : string) : EdgeWrite :=
  {| ew_fromEntityId := fromId; ew_toEntityId := toId; ew_kind := mr_kind mr; ew_documentId := Some (sd_id doc);
     ew_rest := app [("vertical", VStr (sd_vertical doc)); ("originKey", VStr (originKeyOf (sd_contentHash doc)));
                     ("confidence", VNum (mr_confidence mr))] (record_kind doc);
     ew_weight := None; ew_userId := sd_userId doc;
     ew_timing := edgeTiming (dy_eventTime (mr_days mr)) (dy_endTime (mr_days mr)) (sd_occurredAt doc) |}.

Fixpoint writeRelations (am : Ambient) (doc : StoredDocument) (entityIds : list (string * string))
    (l : list MergedRelation) : prog Memory (list RelationWriteOutcome) :=
  match l with
  | [] => Done []
  | mr :: l' =>
      do* edge := match truthy (OMap.get (mr_fromKey mr) entityIds), truthy (OMap.get (mr_toKey mr) entityIds) with
                  | Some fromId, Some toId =>
                      if bool_decide (fromId = toId) then Done None
                      else on_relations (createEdgeBetween am (cw_now env) (relation_write doc mr fromId toId))
                  | _, _ => Done None
                  end in
      do* os := writeRelations am doc entityIds l' in
      Done ({| rw_relation := mr; rw_edgeId := edge |} :: os)
  end.

(** ** What a revision no longer says *)

Definition closure_of (doc : StoredDocument) (itemId : string) (facts : list FactWriteOutcome)
    (relations : list RelationWriteOutcome) : RevisionClosure :=
  {| rv_itemId := itemId; rv_documentId := sd_id doc; rv_kind := sd_kind doc; rv_field := meta_string doc "record_field";
     rv_at := sd_occurredAt doc; rv_factIds := omap fw_factId facts; rv_edgeIds := omap rw_edgeId relations |}.

Definition retireDropped (doc : StoredDocument) (facts : list FactWriteOutcome) (relations : list RelationWriteOutcome) :
    prog Memory unit :=
  match internalMetaString (sd_meta doc) "sourceItemId" with
  | None => Done tt
  | Some itemId => do* _ := on_archive (retireDroppedClaims (cw_fuel env) (closure_of doc itemId facts relations)) in Done tt
  end.

(** ** The write *)

(** The circle the document was said in, under the teams of its connection. *)
Definition commit_ambient (doc : StoredDocument) (am : Ambient) : Ambient :=
  runInCircle (default [] (sd_circles doc)) (runWithWriteScope (default [] (sd_teams doc)) am).

Definition writeMerged (am : Ambient) (companyId : string) (doc : StoredDocument) (merge : MergeResult)
    (factsToWrite : list MergedFact) (embeddings : list (list float)) : prog Memory (result http_exn WriteMergedResult) :=
  let inside := commit_ambient doc am in
  try* entityIds := resolveEntities inside doc merge in
  do* turns := commitTurns inside doc in
  do* facts := writeFacts inside companyId doc merge factsToWrite embeddings entityIds turns in
  do* relations := writeRelations inside doc entityIds (mg_relations merge) in
  do* _ := retireDropped doc facts relations in
  Done (Ok {| wm_entityIds := entityIds; wm_facts := facts; wm_relations := relations |}).
End writer.

(** ** A quote is in its turn *)

Lemma find_index_spec {A} (p : A → bool) l i : find_index p l = Some i → ∃ x, l !! i = Some x ∧ p x = true.
Proof.
  revert i. induction l as [|x l IH]; intros i; cbn; [done|]. destruct (p x) eqn:E; [intros [= <-]; by exists x|].
  destruct (find_index p l) as [j|]; cbn; [|done]. intros [= <-]. by apply IH.
Qed.

(** A turn [t] holds the span, trimmed; blank spans are in none. *)
Definition holds_span (span : option string) (t : DocumentTurn) : Prop :=
  ∃ needle, truthy (trim <$> span) = Some needle ∧ str_contains needle (dt_text t) = true.

Lemma first_span_spec pool spans i :
  first_span pool spans = Some i → ∃ span t, span ∈ spans ∧ (i, t) ∈ pool ∧ holds_span span t.
Proof.
  induction spans as [|span spans IH]; cbn [first_span]; [done|]. destruct (find_in_pool pool span) as [j|] eqn:E.
  - intros [= <-]. unfold find_in_pool, turnOfSpan in E. destruct (truthy (trim <$> span)) as [needle|] eqn:En; [|done].
    destruct (find_index _ _) as [k|] eqn:Ek; [|done]. apply find_index_spec in Ek as (t & Ht & Hc). cbn in E.
    rewrite list_lookup_fmap in Ht. destruct (pool !! k) as [[m t']|] eqn:Ep; [|done]. cbn in Ht, E. simplify_eq.
    exists span, t. split; [left|]. split; [by eapply list_elem_of_lookup_2|]. by exists needle.
  - intros H. destruct (IH H) as (sp & t & H1 & H2 & H3). exists sp, t. split; [by right|done].
Qed.

(** The turn a fact is stamped with is one the document was cut into, stored under that id,
    and holds one of the spans: a quote is never guessed. *)
Lemma quote_is_in_its_turn c spans seq id :
  episodeForSpans (Some c) spans seq = Some id →
  ∃ i span t chunk, ct_turns c !! i = Some (t, chunk) ∧ ct_ids c !! i = Some (Some id) ∧ span ∈ spans ∧ holds_span span t.
Proof.
  unfold episodeForSpans. cbn zeta. set (pool_of := map _). intros E.
  assert (Hpool : ∀ l i t, l ⊆ numbered_turns c → (i, t) ∈ pool_of l → ∃ chunk, ct_turns c !! i = Some (t, chunk)).
  { intros l i t Hl ([j [t' chunk]] & Et & Hx)%list_elem_of_fmap. injection Et as -> ->. apply Hl in Hx. unfold numbered_turns in Hx.
    apply elem_of_lookup_imap in Hx as (k & y & Ey & Hy). injection Ey as -> <-. by exists chunk. }
  assert (Hfound : ∀ l i, l ⊆ numbered_turns c → first_span (pool_of l) spans = Some i →
            ∃ span t chunk, ct_turns c !! i = Some (t, chunk) ∧ span ∈ spans ∧ holds_span span t).
  { intros l i Hl (span & t & Hs & Ht & Hh)%first_span_spec. destruct (Hpool l i t Hl Ht) as [chunk Hc]. by exists span, t, chunk. }
  assert (Hown : ∀ p, List.filter p (numbered_turns c) ⊆ numbered_turns c) by (intros p x [Hx _]%elem_of_bfilter; exact Hx).
  destruct (first_span (pool_of (List.filter _ _)) spans) as [i|] eqn:E1.
  - destruct (Hfound _ _ (Hown _) E1) as (span & t & chunk & H1 & H2 & H3). exists i, span, t, chunk.
    destruct (ct_ids c !! i) as [o|]; [|done]. by subst o.
  - destruct (first_span (pool_of (numbered_turns c)) spans) as [i|] eqn:E2; [|done].
    destruct (Hfound _ _ (reflexivity _) E2) as (span & t & chunk & H1 & H2 & H3). exists i, span, t, chunk.
    destruct (ct_ids c !! i) as [o|]; [|done]. by subst o.
Qed.

(** ** What a write leaves alone, and what it reports on *)

(** Runs, candidates, scenes and documents stay. *)
Record keeps (s s' : Memory) : Prop := {
  kp_runs : mm_runs s' = mm_runs s;
  kp_cands : mm_cands s' = mm_cands s;
  kp_now : mm_now s' = mm_now s;
  kp_scenes : mm_scenes s' = mm_scenes s;
  kp_docs : st_docs (mm_store s') = st_docs (mm_store s)
}.

Lemma keeps_refl s : keeps s s.
Proof. done. Qed.

Lemma keeps_trans s1 s2 s3 : keeps s1 s2 → keeps s2 s3 → keeps s1 s3.
Proof. intros [] []. split; congruence. Qed.

Section frame.
Context {A : Type}.

Lemma always_on_graph (q : prog Graph A) : always keeps (on_graph q).
Proof. by apply always_zoom. Qed.
Lemma always_on_relations (q : prog EdgeStore A) : always keeps (on_relations q).
Proof. by apply always_zoom. Qed.
Lemma always_on_turns (q : prog TurnStore A) : always keeps (on_turns q).
Proof. by apply always_zoom. Qed.
Lemma always_on_archive (q : prog Archive A) : always keeps (on_archive q).
Proof. by apply always_zoom. Qed.
Lemma always_on_facts num (q : prog DbState A) : always keeps (on_fact_state num q).
Proof. by apply always_zoom. Qed.

(** A write that keeps all that answers only what [Q] holds of. *)
Definition yields (p : prog Memory A) (Q : A → Prop) : Prop := ensures keeps (λ _, True) p (λ a _, Q a).
End frame.

#[export] Hint Resolve always_on_graph always_on_relations always_on_turns always_on_archive always_on_facts : brain.

Lemma yields_bind {A B} (p : prog Memory A) (k : A → prog Memory B) Q1 Q :
  yields p Q1 → (∀ a, Q1 a → yields (k a) Q) → yields (pbind p k) Q.
Proof.
  intros Hp Hk. eapply ensures_bind with (Q1 := λ a _, Q1 a); [by intros a s s' Ha _|exact Hp|]. intros a.
  specialize (Hk a). unfold yields in Hk. destruct (k a) as [b|f]; cbn in *.
  - intros s Ha. by apply (Hk Ha s).
  - intros s Ha. by apply (Hk Ha s).
Qed.

Lemma yields_any {A} (p : prog Memory A) : always keeps p → yields p (λ _, True).
Proof. intros Hp. by apply always_ensures_any. Qed.

Lemma yields_done {A} (a : A) (Q : A → Prop) : Q a → yields (Done a) Q.
Proof. intros Ha s _. exact Ha. Qed.

Lemma yields_query {A} (f : Memory → A) : yields (query f) (λ _, True).
Proof. apply yields_any, always_query, keeps_refl. Qed.

Lemma yields_try {A B} (p : prog Memory (result http_exn A)) (k : A → prog Memory (result http_exn B)) Q1 (Q : B → Prop) :
  yields p (λ r, ∀ a, r = Ok a → Q1 a) → (∀ a, Q1 a → yields (k a) (λ r, ∀ b, r = Ok b → Q b)) →
  yields (ebind p k) (λ r, ∀ b, r = Ok b → Q b).
Proof. intros Hp Hk. eapply yields_bind; [exact Hp|]. intros [a|e] Ha; [by apply Hk, Ha|by apply yields_done]. Qed.

Section reports.
Context `{CommitServices, Script, Models, ResolverServices, Calendar} (env : CommitEnv).

Lemma prejudge_any am merge l : yields (prejudge_all env am merge l) (λ _, True).
Proof.
  induction l as [|me l IH]; [by apply yields_done|]. cbn [prejudge_all]. eapply yields_bind; [apply yields_any, always_on_graph|].
  intros v _. eapply yields_bind; [exact IH|]. intros r _. by apply yields_done.
Qed.

Lemma resolve_entities_keys am doc ps merge pre created l :
  yields (resolve_entities env am doc ps merge pre created l) (λ r, ∀ ids, r = Ok ids → map fst ids = map me_key l).
Proof.
  revert created. induction l as [|me l IH]; intros created; cbn [resolve_entities].
  { apply yields_done. by intros ids [= <-]. }
  eapply yields_try with (Q1 := λ _, True); [eapply ensures_post; [|apply yields_any, always_on_graph]; by intros|].
  intros r _. eapply yields_try; [apply IH|]. intros ids Hids. apply yields_done. intros b [= <-]. cbn. by rewrite Hids.
Qed.

Lemma write_fact_any am cid doc turns share types eid mf emb :
  yields (write_fact env am cid doc turns share types eid mf emb) (λ o, fw_fact o = mf).
Proof.
  unfold write_fact. eapply yields_bind; [apply yields_any, always_on_facts|]. intros [x|e] _; [|by apply yields_done].
  destruct (ro_factId (rs_result x)) as [n|]; [|by apply yields_done]. destruct share as [t|]; [|by apply yields_done].
  destruct (isPortable _ _ _); [|by apply yields_done].
  eapply yields_bind with (Q1 := λ _, True); [|intros u _; by apply (yields_done _ (λ o, fw_fact o = mf))].
  unfold shareOutOfCircle. eapply yields_bind; [apply yields_any, always_on_facts|]. intros r _. by apply yields_done.
Qed.

Lemma write_facts_report am cid doc turns share ids types embs i l :
  yields (write_facts env am cid doc turns share ids types embs i l) (λ os, map fw_fact os = l).
Proof.
  revert i. induction l as [|mf l IH]; intros i; [by apply yields_done|]. cbn [write_facts].
  eapply yields_bind with (Q1 := λ o, fw_fact o = mf).
  { destruct (truthy _); [apply write_fact_any|by apply yields_done]. }
  intros o Ho. eapply yields_bind; [apply IH|]. intros os Hos. apply yields_done. cbn. by rewrite Ho, Hos.
Qed.

Lemma writeRelations_report am doc ids l :
  yields (writeRelations env am doc ids l) (λ os, map rw_relation os = l).
Proof.
  induction l as [|mr l IH]; [by apply yields_done|]. cbn [writeRelations]. eapply yields_bind with (Q1 := λ _, True).
  { do 2 (destruct (truthy _); [|by apply yields_done]). destruct (bool_decide _); [by apply yields_done|].
    apply yields_any, always_on_relations. }
  intros e _. eapply yields_bind; [exact IH|]. intros os Hos. apply yields_done. cbn. by rewrite Hos.
Qed.

Lemma documentTurns_any am reuse doc : yields (documentTurns env am reuse doc) (λ _, True).
Proof.
  unfold documentTurns. destruct (_ || _); [by apply yields_done|]. destruct (internalMetaString _ _); [by apply yields_done|].
  eapply yields_bind; [apply yields_query|]. intros r _. cbn zeta. destruct (_ =? 0); [by apply yields_done|].
  eapply yields_bind with (Q1 := λ _, True); [destruct reuse; [apply yields_any, always_on_turns|by apply yields_done]|].
  intros [ids|] _; [by apply yields_done|]. eapply yields_bind; [apply yields_any, always_on_turns|]. intros ids _. by apply yields_done.
Qed.

(** A write reports on every entity, fact and relation it was given. *)
Lemma writeMerged_reports am cid doc merge facts embs :
  yields (writeMerged env am cid doc merge facts embs)
    (λ r, ∀ w, r = Ok w → map fst (wm_entityIds w) = map me_key (mg_entities merge) ∧
       map fw_fact (wm_facts w) = facts ∧ map rw_relation (wm_relations w) = mg_relations merge).
Proof.
  unfold writeMerged. cbn zeta.
  eapply yields_try with (Q1 := λ ids, map fst ids = map me_key (mg_entities merge)).
  { unfold resolveEntities. cbn zeta. eapply yields_bind; [apply prejudge_any|]. intros pre _. apply resolve_entities_keys. }
  intros ids Hids. eapply yields_bind; [apply documentTurns_any|]. intros turns _.
  eapply yields_bind with (Q1 := λ os, map fw_fact os = facts).
  { unfold writeFacts. eapply yields_bind with (Q1 := λ _, True); [|intros share _; apply write_facts_report].
    unfold portableShareTarget. cbn zeta. destruct (_ =? 0); [by apply yields_done|]. destruct (truthy _); [|by apply yields_done].
    eapply yields_bind; [apply yields_query|]. intros o _. by apply yields_done. }
  intros os Hos. eapply yields_bind; [apply writeRelations_report|]. intros rs Hrs. eapply yields_bind with (Q1 := λ _, True).
  { unfold retireDropped. destruct (internalMetaString _ _); [|by apply yields_done].
    eapply yields_bind; [apply yields_any, always_on_archive|]. intros r _. by apply yields_done. }
  intros _ _. apply yields_done. intros w [= <-]. by split_and!.
Qed.

(** Run alone. *)
Lemma writeMerged_run am cid doc merge facts embs s s' r :
  run (writeMerged env am cid doc merge facts embs) s = (s', r) →
  keeps s s' ∧ ∀ w, r = Ok w → map fst (wm_entityIds w) = map me_key (mg_entities merge) ∧
    map fw_fact (wm_facts w) = facts ∧ map rw_relation (wm_relations w) = mg_relations merge.
Proof.
  intros E. pose proof (writeMerged_reports am cid doc merge facts embs) as Hy. split.
  - pose proof (ensures_moves keeps _ _ _ s keeps_refl keeps_trans Hy I) as Hm. by rewrite E in Hm.
  - pose proof (ensures_run keeps _ _ _ s Hy I) as Hq. by rewrite E in Hq.
Qed.
End reports.
