(* ===== verification/CommitMemory.v ===== *)
(** * Committing a document

    [documents/candidate-commit.service.ts]: the pending candidates of a document are merged,
    embedded, written by [CommitWriter] and their outcome is recorded on each of them; a
    commit waits while runs of the document are open. Counters and traces are left out, and
    so is the lock of one process ([Locks]): the definitions are what runs under it. *)

From S2P Require Import Prelude Js Resume Doubles CandidateMerge RunLedger SceneProjection FactSlots.
From S2P Require Import FactSettle FactPolicy FactResolver ScopeTags Names EdgeWriter EventTime RevisionClosure.
From S2P Require Import DocumentMeta DocumentText EpisodeStore DocumentStore EntityGraph EntityResolver.
From S2P Require Import EntityLadder CommitWriter.
From stdpp Require Import gmap sorting.
Local Open Scope string_scope.
Local Open Scope nat_scope.

Record CommitCounts := { cc_pending : nat; cc_committed : nat; cc_merged : nat; cc_rejected : nat }.

Record CommitResult := {
  co_committed : bool;
  co_entityIds : list string;
  co_factIds : list string;
  co_edgeIds : list string;
  co_counts : CommitCounts
}.

Definition emptyResult : CommitResult :=
  {| co_committed := false; co_entityIds := []; co_factIds := []; co_edgeIds := [];
     co_counts := {| cc_pending := 0; cc_committed := 0; cc_merged := 0; cc_rejected := 0 |} |}.

(** ** What is recorded on the candidates *)

Definition update_of (id : string) (kind : CandidateKind) (st : CandidateStatus) (reason ref : option string) : StatusUpdate :=
  {| su_id := id; su_kind := kind; su_status := st; su_reason := reason; su_ref := ref |}.

Definition merged_into (leader : string) : string := "merged_into:" +:+ leader.

Definition entity_updates (entityIds : list (string * string)) (me : MergedEntity) : list StatusUpdate :=
  let entityId := truthy (OMap.get (me_key me) entityIds) in
  match me_candidateIds me with
  | [] => []
  | leader :: rest =>
      (match entityId with
       | Some _ => update_of leader KEntity CCommitted None entityId
       | None => update_of leader KEntity CRejected (Some "entity_resolve_failed") None
       end) :: map (λ dup, update_of dup KEntity CMerged (Some (merged_into leader)) entityId) rest
  end.

Definition entityUpdates (merge : MergeResult) (entityIds : list (string * string)) : list StatusUpdate :=
  flat_map (entity_updates entityIds) (mg_entities merge).

Definition fact_ok (fo : FactWriteOutcome) : bool :=
  negb (bool_decide (fw_factId fo = None)) && negb (bool_decide (fw_outcome fo = Some "REJECTED")).

Definition factUpdates (fo : FactWriteOutcome) : list StatusUpdate :=
  let ok := fact_ok fo in
  let ref := fact_record <$> fw_factId fo in
  update_of (mf_leaderId (fw_fact fo)) KFact (if ok then CCommitted else CRejected)
    (if ok then fw_outcome fo else Some "resolver_rejected") ref ::
  map (λ dup, update_of dup KFact (if ok then CMerged else CRejected)
                (Some (if ok then merged_into (mf_leaderId (fw_fact fo)) else "resolver_rejected")) ref)
    (mf_mergedIds (fw_fact fo)).

Definition relationUpdates (ro : RelationWriteOutcome) : list StatusUpdate :=
  let ok := negb (bool_decide (rw_edgeId ro = None)) in
  update_of (mr_leaderId (rw_relation ro)) KRelation (if ok then CCommitted else CRejected)
    (if ok then None else Some "edge_write_failed") (rw_edgeId ro) ::
  map (λ dup, update_of dup KRelation (if ok then CMerged else CRejected)
                (Some (if ok then merged_into (mr_leaderId (rw_relation ro)) else "edge_write_failed")) (rw_edgeId ro))
    (mr_mergedIds (rw_relation ro)).

Definition rejected_update (r : RejectedCandidate) : StatusUpdate :=
  update_of (rj_candidateId r) (rj_kind r) CRejected (Some (rj_reason r)) None.

Definition low_updates (f : MergedFact) : list StatusUpdate :=
  map (λ c, update_of (fc_candidateId c) KFact CRejected (Some "low_confidence") None) (mf_contributors f).

Definition buildStatusUpdates (merge : MergeResult) (lowConfidence : list MergedFact) (written : WriteMergedResult) :
    list StatusUpdate :=
  flat_map id
    [map rejected_update (mg_rejected merge); flat_map low_updates lowConfidence;
     entityUpdates merge (wm_entityIds written); flat_map factUpdates (wm_facts written);
     flat_map relationUpdates (wm_relations written)].

Definition count_status (st : CandidateStatus) (updates : list StatusUpdate) : nat :=
  length (List.filter (λ u, bool_decide (su_status u = st)) updates).

(** ** The commit *)

Section commit.
Context `{CommitServices, Script, Models, ResolverServices, Calendar} (env : CommitEnv).

(** A number of the environment that is finite and not negative. *)
Definition envFloat (v : option string) (fallback : float) : float :=
  match v with
  | None => fallback
  | Some t => let n := cs_parse t in if PrimFloat.is_finite n && PrimFloat.leb 0 n then n else fallback
  end.

Definition minConfidence : float := envFloat (cw_minConfidence env) 0.

Definition confident (f : MergedFact) : bool := PrimFloat.leb minConfidence (mf_confidence f).
Definition unsure (f : MergedFact) : bool := PrimFloat.ltb (mf_confidence f) minConfidence.

(** A failing batch leaves the facts to be embedded one by one. *)
Definition embedBatch (facts : list MergedFact) : list (list float) :=
  match facts with
  | [] => []
  | _ => default [] (cs_embedMany (map (λ f, factIndexText (mf_predicate f) (mf_object f)) facts))
  end.

Definition scene_doc (doc : StoredDocument) : SceneDoc :=
  {| sx_id := sd_id doc; sx_userId := sd_userId doc; sx_circles := sd_circles doc; sx_occurredAt := sd_occurredAt doc |}.

Definition projectable (c : CandidateRow) : bool := bool_decide (cr_kind c = KScene) || bool_decide (cr_kind c = KStateDelta).

(** The scenes, once the rest has landed. *)
Definition project_scenes (am : Ambient) (doc : StoredDocument) (pending : list CandidateRow) : prog Memory unit :=
  let rows := List.filter projectable pending in
  if cw_projections env && (0 <? length rows) then
    do* _ := on_scenes (projectDocument cs_sha256 cs_num_to_string cs_integer_of cs_toDate true am (scene_doc doc)
                          (cw_generation env) (cw_stateModels env) rows) in
    Done tt
  else Done tt.

Definition commit_result (pending : list CandidateRow) (written : WriteMergedResult) (updates : list StatusUpdate) :
    CommitResult :=
  {| co_committed := true; co_entityIds := map snd (wm_entityIds written);
     co_factIds := omap (λ f, fact_record <$> fw_factId f) (wm_facts written);
     co_edgeIds := omap rw_edgeId (wm_relations written);
     co_counts := {| cc_pending := length pending; cc_committed := count_status CCommitted updates;
                     cc_merged := count_status CMerged updates; cc_rejected := count_status CRejected updates |} |}.

Definition commitLocked (am : Ambient) (companyId : string) (doc : StoredDocument) : prog Memory (result http_exn CommitResult) :=
  do* pending := query (λ s, loadPending (doc_record (sd_id doc)) (ledger_view s)) in
  if length pending =? 0 then Done (Ok emptyResult)
  else
    let merge := mergeCandidates cs_num_to_string cs_iso_date pending in
    let factsToWrite := List.filter confident (mg_facts merge) in
    let lowConfidence := List.filter unsure (mg_facts merge) in
    try* written := writeMerged env am companyId doc merge factsToWrite (embedBatch factsToWrite) in
    let updates := buildStatusUpdates merge lowConfidence written in
    do* _ := on_candidates (markStatuses updates) in
    do* _ := project_scenes am doc pending in
    Done (Ok (commit_result pending written updates)).

(** The queue's variant: the result, and whether it was put off. *)
Definition commitIfRunsSettled (am : Ambient) (companyId : string) (doc : StoredDocument) :
    prog Memory (result http_exn (CommitResult * bool)) :=
  do* open := query (λ s, countNonTerminalRuns (doc_record (sd_id doc)) (ledger_view s)) in
  if 0 <? open then Done (Ok (emptyResult, true))
  else try* r := commitLocked am companyId doc in Done (Ok (r, false)).
End commit.

(** ** Every candidate is decided *)

(** A staged row as the commit leaves it. *)
Definition decided_now (now : Z) (r r' : StagedRow) : Prop :=
  sg_docId r' = sg_docId r ∧ sg_runId r' = sg_runId r ∧ sg_chunkSeq r' = sg_chunkSeq r ∧ sg_part r' = sg_part r ∧
  sg_createdAt r' = sg_createdAt r ∧ sg_decidedAt r' = Some now ∧ sg_status r' ∈ [CCommitted; CMerged; CRejected].

Definition deciding (u : StatusUpdate) : Prop := su_status u ∈ [CCommitted; CMerged; CRejected].

Lemma mark_lookup updates l u r :
  NoDup (map su_id updates) → u ∈ updates → lg_cands l !! su_id u = Some r →
  lg_cands (mark_statuses updates l) !! su_id u = Some (decided (lg_now l) u r).
Proof.
  unfold mark_statuses. cbn. generalize (lg_cands l). induction updates as [|v us IH]; intros m; cbn [map fold_left].
  { intros _ Hu. by apply elem_of_nil in Hu. }
  intros [Hv Hn]%NoDup_cons [<-|Hu]%elem_of_cons Hr.
  - assert (H : ∀ m' : gmap string StagedRow, fold_left (λ m u, alter (decided (lg_now l) u) (su_id u) m) us m' !! su_id u = m' !! su_id u).
    { clear -Hv. induction us as [|w us IH]; intros m'; cbn; [done|]. apply not_elem_of_cons in Hv as [H1 H2].
      rewrite IH by done. by rewrite lookup_alter_ne. }
    rewrite H, lookup_alter_eq, Hr. done.
  - apply IH; [done|done|]. rewrite lookup_alter_ne; [done|]. intros E. apply Hv. rewrite E. apply list_elem_of_fmap. by exists u.
Qed.

Lemma flat_map_ids {A} (f : A → list StatusUpdate) (ids : A → list string) l :
  (∀ x, x ∈ l → map su_id (f x) = ids x) → map su_id (flat_map f l) = flat_map ids l.
Proof.
  induction l as [|x l IH]; cbn; [done|]. intros H. rewrite map_app, H by left. f_equal. apply IH. intros y Hy. apply H. by right.
Qed.

Lemma flat_map_map {A B C} (f : A → B) (g : B → list C) l : flat_map g (map f l) = flat_map (λ x, g (f x)) l.
Proof. induction l as [|x l IH]; cbn; [done|]. by rewrite IH. Qed.

Lemma flat_map_perm_ext {A B} (f g : A → list B) l : (∀ x, x ∈ l → f x ≡ₚ g x) → flat_map f l ≡ₚ flat_map g l.
Proof.
  induction l as [|x l IH]; cbn; [done|]. intros H. rewrite (H x) by left. f_equiv. apply IH. intros y Hy. apply H. by right.
Qed.

Lemma flat_map_app_perm {A B} (f g : A → list B) l :
  app (flat_map f l) (flat_map g l) ≡ₚ flat_map (λ x, app (f x) (g x)) l.
Proof.
  induction l as [|x l IH]; cbn; [done|]. rewrite <- IH, <- !app_assoc. f_equiv. rewrite !app_assoc. f_equiv.
  apply Permutation_app_comm.
Qed.

Section deciding.
Context `{CSv : CommitServices, Scr : Script, Mdl : Models, RSv : ResolverServices, Cal : Calendar} (env : CommitEnv).

Lemma entity_updates_ids ids me : map su_id (entity_updates ids me) = me_candidateIds me.
Proof.
  unfold entity_updates. cbn zeta. destruct (me_candidateIds me) as [|leader rest]; [done|]. cbn [map].
  f_equal; [by destruct (truthy _)|]. rewrite map_map. apply map_id.
Qed.

Lemma factUpdates_ids fo : map su_id (factUpdates fo) = CandidateMerge.fact_ids (fw_fact fo).
Proof. unfold factUpdates, CandidateMerge.fact_ids. cbn. f_equal. rewrite map_map. apply map_id. Qed.

Lemma relationUpdates_ids ro : map su_id (relationUpdates ro) = relation_ids (rw_relation ro).
Proof. unfold relationUpdates, relation_ids. cbn. f_equal. rewrite map_map. apply map_id. Qed.

Lemma low_updates_ids rows f :
  f ∈ mg_facts (mergeCandidates cs_num_to_string cs_iso_date rows) → map su_id (low_updates f) ≡ₚ CandidateMerge.fact_ids f.
Proof.
  intros Hf. apply fact_leader_is_most_confident in Hf as (group & _ & Hg).
  rewrite (gi_ids _ _ _ _ Hg). unfold low_updates. rewrite map_map, (gi_contributors _ _ _ _ Hg), map_map.
  done.
Qed.

(** What neither passes nor fails the floor is no number at all. *)
Lemma floor_splits (l : list MergedFact) :
  (∀ f, f ∈ l → PrimFloat.eqb (mf_confidence f) (mf_confidence f) = true) →
  app (List.filter (confident env) l) (List.filter (unsure env) l) ≡ₚ l.
Proof.
  intros Hn. induction l as [|f l IH]; [done|]. cbn [List.filter].
  assert (Hf : confident env f = negb (unsure env f)).
  { apply float_leb_ltb; [|apply Hn; left]. unfold minConfidence, envFloat. destruct (cw_minConfidence env) as [t|]; [|done].
    destruct (PrimFloat.is_finite (cs_parse t)); [|done]. destruct (PrimFloat.leb 0 (cs_parse t)) eqn:E; [|done].
    cbn. by eapply float_leb_not_nan. }
  assert (IH' : app (List.filter (confident env) l) (List.filter (unsure env) l) ≡ₚ l) by (apply IH; intros g Hg; apply Hn; by right).
  rewrite Hf. destruct (unsure env f); cbn; [|by rewrite IH']. etransitivity; [symmetry; apply Permutation_middle|]. by rewrite IH'.
Qed.

Section updates.
Variable rows : list CandidateRow.
Let merge := mergeCandidates cs_num_to_string cs_iso_date rows.
Hypothesis numbers : ∀ c, c ∈ rows → PrimFloat.eqb (cr_confidence c) (cr_confidence c) = true.

Lemma merged_numbers f : f ∈ mg_facts merge → PrimFloat.eqb (mf_confidence f) (mf_confidence f) = true.
Proof using numbers.
  intros Hf. apply fact_leader_is_most_confident in Hf as (group & Hs & Hg).
  destruct (gi_leader _ _ _ _ Hg) as (row & Hr & _ & <- & _). apply numbers. by eapply elem_of_submseteq; [exact Hr|apply sublist_submseteq].
Qed.

Lemma updates_ids w :
  map fw_fact (wm_facts w) = List.filter (confident env) (mg_facts merge) → map rw_relation (wm_relations w) = mg_relations merge →
  map su_id (buildStatusUpdates merge (List.filter (unsure env) (mg_facts merge)) w) ≡ₚ map cr_id (List.filter semantic rows).
Proof using numbers.
  intros Hf Hr. rewrite <- (every_candidate_lands_once cs_num_to_string cs_iso_date rows). fold merge.
  unfold buildStatusUpdates, entityUpdates. cbn [flat_map id]. rewrite app_nil_r, !map_app, map_map.
  rewrite (flat_map_ids _ me_candidateIds) by (intros; apply entity_updates_ids).
  rewrite (flat_map_ids factUpdates (λ fo, CandidateMerge.fact_ids (fw_fact fo))) by (intros; apply factUpdates_ids).
  rewrite (flat_map_ids relationUpdates (λ ro, relation_ids (rw_relation ro))) by (intros; apply relationUpdates_ids).
  rewrite <- (flat_map_map fw_fact CandidateMerge.fact_ids), <- (flat_map_map rw_relation relation_ids), Hf, Hr.
  assert (Hl : map su_id (flat_map low_updates (List.filter (unsure env) (mg_facts merge))) ≡ₚ
               flat_map CandidateMerge.fact_ids (List.filter (unsure env) (mg_facts merge))).
  { rewrite (flat_map_ids _ (λ f, map su_id (low_updates f))) by done. apply flat_map_perm_ext. intros f Hfl.
    apply elem_of_bfilter in Hfl as [Hfl _]. by apply low_updates_ids with rows. }
  rewrite Hl. rewrite <- (floor_splits (mg_facts merge) merged_numbers) at 3. rewrite flat_map_app. solve_Permutation.
Qed.
End updates.

Lemma updates_deciding merge low w : Forall deciding (buildStatusUpdates merge low w).
Proof.
  unfold buildStatusUpdates. cbn [flat_map id]. rewrite app_nil_r. rewrite !Forall_app. split_and!.
  - apply Forall_fmap, Forall_true. intros r. unfold deciding. cbn. set_solver.
  - apply Forall_forall. intros u (f & _ & Hu%list_elem_of_In)%list_elem_of_In%in_flat_map.
    apply list_elem_of_fmap in Hu as (c & -> & _). unfold deciding. cbn. set_solver.
  - apply Forall_forall. intros u (me & _ & Hu%list_elem_of_In)%list_elem_of_In%in_flat_map. unfold entity_updates in Hu. cbn zeta in Hu.
    destruct (me_candidateIds me) as [|leader rest]; [by apply elem_of_nil in Hu|].
    apply elem_of_cons in Hu as [->|(d & -> & _)%list_elem_of_fmap]; [|unfold deciding; cbn; set_solver].
    destruct (truthy _); unfold deciding; cbn; set_solver.
  - apply Forall_forall. intros u (fo & _ & Hu%list_elem_of_In)%list_elem_of_In%in_flat_map. unfold factUpdates in Hu.
    apply elem_of_cons in Hu as [->|(d & -> & _)%list_elem_of_fmap]; unfold deciding; cbn; case_match; set_solver.
  - apply Forall_forall. intros u (ro & _ & Hu%list_elem_of_In)%list_elem_of_In%in_flat_map. unfold relationUpdates in Hu.
    apply elem_of_cons in Hu as [->|(d & -> & _)%list_elem_of_fmap]; unfold deciding; cbn; case_match; set_solver.
Qed.

Lemma counts_add_up updates :
  Forall deciding updates →
  count_status CCommitted updates + count_status CMerged updates + count_status CRejected updates = length updates.
Proof.
  unfold count_status. induction 1 as [|u us Hu _ IH]; [done|]. cbn [List.filter length].
  unfold deciding in Hu. rewrite !elem_of_cons in Hu. destruct Hu as [E|[E|[E|Hu]]]; [| | |by apply elem_of_nil in Hu];
    rewrite !E; repeat match goal with |- context [bool_decide (?a = ?b)] =>
      first [rewrite (bool_decide_eq_true_2 (a = b)) by done|rewrite (bool_decide_eq_false_2 (a = b)) by done] end; cbn [length]; lia.
Qed.

(** The rows a commit reads. *)
Lemma elem_of_loadPending docId l c :
  c ∈ loadPending docId l ↔ ∃ id r, lg_cands l !! id = Some r ∧ of_doc docId true (id, r) = true ∧ c = candidate_row (id, r).
Proof.
  unfold loadPending, loadByDoc. rewrite list_elem_of_fmap. split.
  - intros ([id r] & -> & Hx). rewrite merge_sort_Permutation, elem_of_bfilter, elem_of_map_to_list in Hx. exists id, r. naive_solver.
  - intros (id & r & Hr & Ho & ->). exists (id, r). split; [done|]. by rewrite merge_sort_Permutation, elem_of_bfilter, elem_of_map_to_list.
Qed.

Lemma NoDup_pending docId l : NoDup (map cr_id (loadPending docId l)).
Proof.
  unfold loadPending, loadByDoc. rewrite map_map. rewrite merge_sort_Permutation.
  assert (Hflt : ∀ kvs : list (string * StagedRow), NoDup (map fst kvs) → NoDup (map fst (List.filter (of_doc docId true) kvs))).
  { induction kvs as [|kv kvs IH]; cbn; [done|]. intros [Hn Hd]%NoDup_cons. destruct (of_doc docId true kv); [|by apply IH].
    cbn. apply NoDup_cons. split; [|by apply IH]. intros (x & E & [Hx _]%elem_of_bfilter)%list_elem_of_fmap.
    apply Hn. rewrite E. apply list_elem_of_fmap. by exists x. }
  apply Hflt. apply NoDup_fst_map_to_list.
Qed.

Lemma NoDup_semantic rows : NoDup (map cr_id rows) → NoDup (map cr_id (List.filter semantic rows)).
Proof.
  induction rows as [|c rows IH]; cbn; [done|]. intros [Hn Hd]%NoDup_cons. destruct (semantic c); [|by apply IH].
  cbn. apply NoDup_cons. split; [|by apply IH]. intros (x & E & [Hx _]%elem_of_bfilter)%list_elem_of_fmap.
  apply Hn. rewrite E. apply list_elem_of_fmap. by exists x.
Qed.

(** What the statuses and the projection leave: the semantic candidates decided, every
    other row of the document as it was unless scenes are projected, and all else. *)
Lemma marked_and_projected am doc updates s s' :
  let docId := doc_record (sd_id doc) in
  let pending := loadPending docId (ledger_view s) in
  Forall deciding updates → map su_id updates ≡ₚ map cr_id (List.filter semantic pending) →
  (run (do* _ := on_candidates (markStatuses updates) in project_scenes env am doc pending) s).1 = s' →
  mm_runs s' = mm_runs s ∧
  (∀ id, mm_cands s !! id = None → mm_cands s' !! id = None) ∧
  ∀ id row, mm_cands s !! id = Some row →
    if of_doc docId true (id, row) then
      if semantic (candidate_row (id, row)) then ∃ row', mm_cands s' !! id = Some row' ∧ decided_now (mm_now s) row row'
      else cw_projections env = false → mm_cands s' !! id = Some row
    else mm_cands s' !! id = Some row.
Proof.
  intros docId pending Hdec Hids E. rewrite run_bind in E.
  set (s1 := (run (on_candidates (markStatuses updates)) s).1) in E.
  assert (H1 : mm_runs s1 = mm_runs s ∧ mm_cands s1 = lg_cands (mark_statuses updates (ledger_view s)) ∧ mm_now s1 = mm_now s).
  { unfold s1, on_candidates, markStatuses. destruct updates; done. }
  destruct H1 as (Hr1 & Hc1 & Hn1).
  assert (H2 : mm_runs s' = mm_runs s1 ∧ ∀ id, (id ∉ map cr_id (List.filter projectable pending) ∨ cw_projections env = false) →
             mm_cands s' !! id = mm_cands s1 !! id).
  { rewrite <- E. unfold project_scenes. cbn zeta. destruct (cw_projections env) eqn:Ep; cbn [andb]; [|by split].
    destruct (0 <? _); [|by split]. rewrite run_bind. cbn [run fst].
    pose (R := λ a b : Memory, mm_runs b = mm_runs a ∧
            ∀ id, id ∉ map cr_id (List.filter projectable pending) → mm_cands b !! id = mm_cands a !! id).
    assert (HR : R s1 (run (on_scenes (projectDocument cs_sha256 cs_num_to_string cs_integer_of cs_toDate true am (scene_doc doc)
                  (cw_generation env) (cw_stateModels env) (List.filter projectable pending))) s1).1).
    { apply (always_run R); [by split|intros a b c [A1 A2] [B1 B2]; split; [congruence|]|].
      { intros id Hid. by rewrite B2, A2. }
      eapply always_zoom_in; [|apply always_projectDocument]. intros t m [P1 _ P3 _]. split; [exact P1|exact P3]. }
    destruct HR as [HR1 HR2]. split; [exact HR1|]. intros id [Hid|Hid]; [by apply HR2|done]. }
  destruct H2 as [Hr2 Hc2]. split_and!; [congruence| |].
  { intros id Hid. assert (Hno : ∀ p, id ∉ map cr_id (List.filter p pending)).
    { intros p (c & -> & [(i & r & Hi & _ & ->)%elem_of_loadPending _]%elem_of_bfilter)%list_elem_of_fmap. cbn in Hid, Hi. congruence. }
    rewrite Hc2 by (by left). rewrite Hc1, mark_others; [done|]. rewrite Hids. apply Hno. }
  intros id row Hrow.
  assert (Hnd : NoDup (map su_id updates)) by (rewrite Hids; apply NoDup_semantic, NoDup_pending).
  assert (Hin : ∀ p, id ∈ map cr_id (List.filter p pending) ↔ of_doc docId true (id, row) = true ∧ p (candidate_row (id, row)) = true).
  { intros p. rewrite list_elem_of_fmap. split.
    - intros (c & Hid & [Hc Hp]%elem_of_bfilter). apply elem_of_loadPending in Hc as (i & r & Hi & Ho & ->). cbn in Hid. subst i.
      assert (r = row) as -> by (cbn in Hi; congruence). done.
    - intros [Ho Hp]. exists (candidate_row (id, row)). split; [done|]. apply elem_of_bfilter. split; [|done].
      apply elem_of_loadPending. by exists id, row. }
  assert (Hout : id ∉ map su_id updates → mm_cands s1 !! id = Some row).
  { intros Hid. rewrite Hc1, mark_others by done. exact Hrow. }
  assert (Hupd : id ∈ map su_id updates ↔ of_doc docId true (id, row) = true ∧ semantic (candidate_row (id, row)) = true)
    by (rewrite Hids; apply Hin).
  destruct (of_doc docId true (id, row)) eqn:Eo; [destruct (semantic (candidate_row (id, row))) eqn:Es|].
  - apply proj2 in Hupd. destruct (proj1 (list_elem_of_fmap _ _ _) (Hupd (conj eq_refl eq_refl))) as (u & Eid & Hu).
    exists (decided (mm_now s) u row). split.
    + rewrite Hc2, Hc1; [rewrite Eid in Hrow |- *; by apply (mark_lookup updates (ledger_view s) u row)|]. left. rewrite Hin. unfold semantic in Es.
      intros [_ Hp]. unfold projectable in Hp. cbn in Hp, Es. by destruct (sp_kind (sg_part row)).
    + unfold decided_now. split_and!; try done. rewrite Forall_forall in Hdec. by apply Hdec.
  - intros Hp. rewrite Hc2 by (by right). apply Hout. rewrite Hupd. by intros [_ ?].
  - rewrite Hc2; [apply Hout; rewrite Hupd; by intros [? _]|]. left. rewrite Hin. by intros [? _].
Qed.
(** One commit run alone. *)
Lemma commit_outcome am companyId doc s s' r :
  let docId := doc_record (sd_id doc) in
  let pending := loadPending docId (ledger_view s) in
  (∀ c, c ∈ pending → PrimFloat.eqb (cr_confidence c) (cr_confidence c) = true) →
  run (commitLocked env am companyId doc) s = (s', r) →
  mm_runs s' = mm_runs s ∧
  match r with
  | Throw _ => mm_cands s' = mm_cands s
  | Ok res =>
      let counts := co_counts res in
      cc_pending counts = length pending ∧
      cc_committed counts + cc_merged counts + cc_rejected counts = length (List.filter semantic pending) ∧
      (∀ id, mm_cands s !! id = None → mm_cands s' !! id = None) ∧
      ∀ id row, mm_cands s !! id = Some row →
        if of_doc docId true (id, row) then
          if semantic (candidate_row (id, row)) then ∃ row', mm_cands s' !! id = Some row' ∧ decided_now (mm_now s) row row'
          else cw_projections env = false → mm_cands s' !! id = Some row
        else mm_cands s' !! id = Some row
  end.
Proof.
  intros docId pending Hnum. unfold commitLocked. rewrite run_bind, run_query. cbn [fst snd]. fold docId pending.
  destruct (length pending =? 0) eqn:E0.
  { apply Nat.eqb_eq, nil_length_inv in E0. intros [= <- <-]. split; [done|]. rewrite E0. cbn. split_and!; [done..|].
    intros id row Hr. destruct (of_doc docId true (id, row)) eqn:Eo; [|done]. exfalso.
    apply (not_elem_of_nil (candidate_row (id, row))). rewrite <- E0. apply elem_of_loadPending. by exists id, row. }
  cbn zeta. rewrite run_ebind. destruct (run (writeMerged _ _ _ _ _ _ _) s) as [s1 w] eqn:Ew.
  apply writeMerged_run in Ew as [Hk Hw]. cbn [fst snd]. destruct w as [w|e]; [|intros [= <- <-]; split; apply Hk].
  destruct (Hw w eq_refl) as (_ & Hf & Hrel). clear Hw.
  set (updates := buildStatusUpdates _ _ w).
  assert (Hids : map su_id updates ≡ₚ map cr_id (List.filter semantic pending)) by (by apply updates_ids).
  assert (Hdec : Forall deciding updates) by apply updates_deciding.
  assert (Hp : loadPending docId (ledger_view s1) = pending).
  { unfold pending, loadPending, loadByDoc. cbn. by rewrite (kp_cands _ _ Hk). }
  intros E.
  assert (Hrun : (run (do* _ := on_candidates (markStatuses updates) in project_scenes env am doc pending) s1).1 = s' ∧
                 r = Ok (commit_result pending w updates)).
  { cbv beta iota zeta in E. fold updates in E. rewrite run_bind in E. cbv beta in E. rewrite run_bind in E. rewrite run_bind. cbn [run] in E. by injection E as <- <-. }
  destruct Hrun as [Hrun ->]. rewrite <- Hp in Hrun, Hids.
  destruct (marked_and_projected am doc updates s1 s' Hdec Hids Hrun) as (Hr & Hd & Hc).
  split; [by rewrite Hr; apply Hk|]. cbn [commit_result co_counts cc_pending cc_committed cc_merged cc_rejected]. split_and!; [done| |by intros id Hid; apply Hd; rewrite (kp_cands _ _ Hk)|].
  - rewrite counts_add_up by done. rewrite Hp in Hids. apply Permutation_length in Hids. by rewrite !length_map in Hids.
  - intros id row Hrow. rewrite <- (kp_now _ _ Hk). apply Hc. by rewrite (kp_cands _ _ Hk).
Qed.
End deciding.

(** C23. A commit decides every candidate it read. When it ends without an exception, each
    pending entity, fact and relation candidate of the document is committed, merged into
    another or rejected, dated now and otherwise as it was staged; the counts it reports add
    up to them; candidates that were not pending, or are another document's, are not
    touched, and neither are the scenes unless projections are on. Without scenes, a second
    commit finds nothing to do and changes nothing. A commit that throws has decided
    nothing. Confidences are numbers. *)
Theorem commit_decides_every_candidate `{CommitServices, Script, Models, ResolverServices, Calendar} env am companyId doc s s' r :
  let docId := doc_record (sd_id doc) in
  let pending := loadPending docId (ledger_view s) in
  (∀ c, c ∈ pending → PrimFloat.eqb (cr_confidence c) (cr_confidence c) = true) →
  run (commitLocked env am companyId doc) s = (s', r) →
  mm_runs s' = mm_runs s ∧
  match r with
  | Throw _ => mm_cands s' = mm_cands s
  | Ok res =>
      let counts := co_counts res in
      cc_pending counts = length pending ∧
      cc_committed counts + cc_merged counts + cc_rejected counts = length (List.filter semantic pending) ∧
      (∀ id row, mm_cands s !! id = Some row →
        if of_doc docId true (id, row) then
          if semantic (candidate_row (id, row)) then ∃ row', mm_cands s' !! id = Some row' ∧ decided_now (mm_now s) row row'
          else cw_projections env = false → mm_cands s' !! id = Some row
        else mm_cands s' !! id = Some row) ∧
      (∀ id, mm_cands s !! id = None → mm_cands s' !! id = None) ∧
      ((∀ c, c ∈ pending → semantic c = true) → run (commitLocked env am companyId doc) s' = (s', Ok emptyResult))
  end.
Proof.
  intros docId pending Hnum E. destruct (commit_outcome env am companyId doc s s' r Hnum E) as [Hr Hc].
  split; [done|]. destruct r as [res|e]; [|done]. destruct Hc as (Hp & Hs & Hnone & Hrows). split_and!; [done..|].
  intros Hsem. unfold commitLocked. rewrite run_bind, run_query. cbn [fst snd]. fold docId.
  assert (Hnil : loadPending docId (ledger_view s') = []); [|by rewrite Hnil].
  destruct (loadPending docId (ledger_view s')) as [|c cs] eqn:El; [done|]. exfalso.
  assert (Hc : c ∈ loadPending docId (ledger_view s')) by (rewrite El; left).
  apply elem_of_loadPending in Hc as (id & row' & Hrow' & Ho & ->). cbn in Hrow'.
  destruct (mm_cands s !! id) as [row|] eqn:Hrow; [|by rewrite Hnone in Hrow']. specialize (Hrows id row Hrow). fold docId in Hrows.
  destruct (of_doc docId true (id, row)) eqn:Eo; [|rewrite Hrows in Hrow'; injection Hrow' as <-; by rewrite Eo in Ho].
  assert (Hcp : candidate_row (id, row) ∈ pending) by (apply elem_of_loadPending; by exists id, row).
  rewrite (Hsem _ Hcp) in Hrows. destruct Hrows as (r2 & Hr2 & Hdec). rewrite Hr2 in Hrow'. injection Hrow' as <-.
  unfold of_doc in Ho. cbn in Ho. apply andb_true_iff in Ho as [_ Ho%bool_decide_eq_true].
  destruct Hdec as (_ & _ & _ & _ & _ & _ & Hst). rewrite Ho in Hst. set_solver.
Qed.
