(* ===== verification/CommitCases.v ===== *)
(** * Commits of a small memory

    The commit of [CommitMemory] on a document with a few candidates: what it decides and
    writes, what an instruction said in a circle leaves outside it, and what two pods that
    commit one document at the same time do. *)

From S2P Require Import Prelude Js Resume CandidateMerge RunLedger SceneProjection FactSlots FactSettle.
From S2P Require Import FactLaws FactPolicy FactResolver FactWrites ScopeTags Names EdgeWriter EventTime.
From S2P Require Import DocumentMeta DocumentText EpisodeStore DocumentStore EntityGraph EntityMerge.
From S2P Require Import EntityResolver EntityLadder CommitWriter CommitMemory.
From stdpp Require Import gmap sorting.
Local Open Scope string_scope.
Local Open Scope nat_scope.

Definition plain_services : CommitServices :=
  {| cs_sha256 := λ x, x; cs_num_to_string := λ _, "n"; cs_iso_date := Some; cs_iso := λ _, "t"; cs_parse := no_number;
     cs_cosine := near; cs_embedMany := λ _, None; cs_sanitize := λ x, x; cs_redact := λ x, (x, []);
     cs_language := λ _, "und"; cs_integer_of := λ _, None; cs_toDate := λ _, None; cs_edge_number := String.length |}.

Definition no_days : Calendar :=
  {| date_at := λ _, None; iso_day := λ _, ""; resolveEventTime := λ _ _ _, None |}.

Definition plain_env : CommitEnv :=
  {| cw_names := no_flags; cw_bounds := some_bounds; cw_entityResolver := None; cw_facts := sample_env;
     cw_turns := {| tf_enabled := true; tf_markScenes := false |}; cw_turnOutages := λ _, false; cw_eventTime := true;
     cw_minConfidence := None; cw_projections := false; cw_stateModels := []; cw_generation := "g1"; cw_now := 50;
     cw_fuel := 5 |}.

Definition doc_1 (scope : list string) (user : option string) : DocumentRow :=
  {| dn_kind := "chat"; dn_originUri := None; dn_title := None; dn_contentHash := "h1"; dn_charLen := 21; dn_chunkCount := 1;
     dn_hasContent := true; dn_vertical := "chat"; dn_recorder := None; dn_occurredAt := 1000; dn_meta := None;
     dn_status := "received"; dn_userId := user; dn_scope := scope |}.

Definition staged (c : CandidateRow) : StagedRow :=
  {| sg_docId := "source_document:1"; sg_runId := cr_runId c; sg_chunkSeq := cr_chunkSeq c;
     sg_part := {| sp_kind := cr_kind c; sp_confidence := cr_confidence c; sp_payload := cr_payload c |};
     sg_status := CPending; sg_statusReason := None; sg_commitRef := None; sg_createdAt := 0; sg_decidedAt := None |}.

Definition memory_of (row : DocumentRow) (text : string) (cs : list CandidateRow) : Memory :=
  {| mm_store := {| st_docs := {["source_document:1" := row]};
                    st_chunks := {["source_document:1" := [{| ck_seq := 0; ck_text := text; ck_charStart := 0;
                                                               ck_charEnd := String.length text |}]]};
                    st_facts := no_facts; st_members := [] |};
     mm_graph := no_graph; mm_turns := {| tn_rows := ∅; tn_dirty := ∅; tn_now := 40 |}; mm_runs := ∅;
     mm_cands := list_to_map (map (λ c, (cr_id c, staged c)) cs); mm_now := 60; mm_scenes := ∅; mm_fails := [] |}.

Definition stored (row : DocumentRow) : StoredDocument := mapDoc ("source_document:1", row).

Definition commit_1 (am : Ambient) (row : DocumentRow) : prog Memory (result http_exn CommitResult) :=
  @commitLocked plain_services ascii_script example_models sample_services no_days plain_env am "co" (stored row).

Definition statuses (s : Memory) : list (string * CandidateStatus) :=
  map (λ kv : string * StagedRow, (kv.1, sg_status kv.2)) (map_to_list (mm_cands s)).

Definition cand (id : string) (kind : CandidateKind) (payload : Bag) : CandidateRow :=
  {| cr_id := id; cr_runId := "r1"; cr_chunkSeq := 0; cr_kind := kind; cr_confidence := 0.9%float; cr_payload := payload |}.

(** The facts of a memory: predicate, scope, and what a shared copy says of its origin. *)
Definition facts_of (s : Memory) : list (nat * string * list string * option jsval) :=
  map (λ kv : nat * Fact, (kv.1, cl_predicate (f_claim kv.2), f_scope kv.2,
                            match OMap.get "meta" (so_rest (cl_source (f_claim kv.2))) with
                            | Some (VObj m) => OMap.get "sharedFrom" m | _ => None end))
    (map_to_list (fd_rows (st_facts (mm_store s)))).

(** ** A commit decides *)

Definition sample_memory : Memory := memory_of (doc_1 [] None) "Acme is in New York." sample_rows.

Lemma commit_decides_every_candidate_witness :
  ∃ s' res, run (commit_1 no_ambient (doc_1 [] None)) sample_memory = (s', Ok res) ∧
    cc_pending (co_counts res) = 6 ∧
    cc_committed (co_counts res) + cc_merged (co_counts res) + cc_rejected (co_counts res) = 6 ∧
    run (commit_1 no_ambient (doc_1 [] None)) s' = (s', Ok emptyResult).
Proof.
  destruct (run (commit_1 no_ambient (doc_1 [] None)) sample_memory) as [s' [res|e]] eqn:E; [|vm_compute in E; discriminate].
  exists s', res. split; [done|].
  assert (Hn : forallb (λ c, PrimFloat.eqb (cr_confidence c) (cr_confidence c) && semantic c)
                 (loadPending (doc_record (sd_id (stored (doc_1 [] None)))) (ledger_view sample_memory)) = true)
    by (vm_compute; reflexivity).
  rewrite forallb_In in Hn.
  destruct (@commit_decides_every_candidate plain_services ascii_script example_models sample_services no_days plain_env
              no_ambient "co" (stored (doc_1 [] None)) sample_memory s' (Ok res)) as (_ & Hp & Hs & _ & _ & Hagain).
  - intros c Hc. by apply Hn, andb_true_iff in Hc as [? _].
  - exact E.
  - split_and!; [rewrite Hp; vm_compute; reflexivity|rewrite Hs; vm_compute; reflexivity|].
    apply Hagain. intros c Hc. by apply Hn, andb_true_iff in Hc as [_ ?].
Defined.

(** ** What leaves a circle *)

Definition told : list CandidateRow :=
  [cand "e1" KEntity [("name", VStr "I"); ("type", VStr "customer"); ("entityIndex", VStr "0")];
   cand "f1" KFact [("entityIndex", VStr "0"); ("predicate", VStr "instruction"); ("object", VStr "no calls before 9")];
   cand "f2" KFact [("entityIndex", VStr "0"); ("predicate", VStr "mood"); ("object", VStr "tired")]].

Definition told_doc : DocumentRow :=
  row_meta (Some [("speakerRef", VStr "user:u1"); ("speakerName", VStr "Ann")]) (doc_1 ["user:u1"; "circle:board"] (Some "u1")).

(** What a person says in a circle stays in it, except an instruction on how to treat them:
    a copy is written outside that names the fact it was made from. *)
Lemma instruction_leaves_its_circle :
  facts_of (run (commit_1 no_ambient told_doc) (memory_of told_doc "no calls before 9" told)).1 =
    [(2, "instruction", ["user:u1"], Some (VStr "knowledge_fact:1"));
     (1, "instruction", ["user:u1"; "circle:board"], None); (0, "mood", ["user:u1"; "circle:board"], None)].
Proof. vm_compute. reflexivity. Qed.

(** ** Two pods *)

(** The lock is a pod's own: two pods that commit one document in turns both resolve its
    candidates, and leave two entities and two facts for one of each. *)
Lemma two_pods_commit_twice :
  let pods := run_pool (concat (replicate 60 [0; 1]))
                (sample_memory, [commit_1 no_ambient (doc_1 [] None); commit_1 no_ambient (doc_1 [] None)]) in
  length (facts_of pods.1) = 2 ∧ size (gr_entities (mm_graph pods.1)) = 2 ∧
  map (λ p, match p with Done (Ok r) => co_factIds r | _ => [] end) pods.2 = [["knowledge_fact:0"]; ["knowledge_fact:1"]].
Proof. vm_compute. split_and!; reflexivity. Qed.

(** ** A statement that fails *)

(** A fact whose write fails once, for whatever reason, is rejected like one the resolver
    refused: its candidates are decided and no commit writes them again. *)
Lemma failed_fact_is_given_up :
  let o := run (commit_1 no_ambient (doc_1 [] None)) (with_fails [true] sample_memory) in
  facts_of o.1 = [] ∧
  map (λ kv : string * StagedRow, (sg_status kv.2, sg_statusReason kv.2))
    (List.filter (λ kv : string * StagedRow, bool_decide (kv.1 ∈ ["f1"; "f2"])) (map_to_list (mm_cands o.1))) =
    [(CRejected, Some "resolver_rejected"); (CRejected, Some "resolver_rejected")] ∧
  loadPending "source_document:1" (ledger_view o.1) = [].
Proof. vm_compute. split_and!; reflexivity. Qed.

(** ** Answers asked ahead *)

Definition sure_judge : Models :=
  {| levenshtein := λ _ _, 1; cosine_similarity := λ _ _, 0%float; EntityResolver.embed := λ _, None;
     embed_for_write := λ _, None; judge := λ _ _ _, Same |}.

Definition judged_env : CommitEnv :=
  {| cw_names := no_flags; cw_bounds := some_bounds; cw_entityResolver := Some true; cw_facts := sample_env;
     cw_turns := cw_turns plain_env; cw_turnOutages := λ _, false; cw_eventTime := true; cw_minConfidence := None;
     cw_projections := false; cw_stateModels := []; cw_generation := "g1"; cw_now := 50; cw_fuel := 5 |}.

Definition near_names : MergeResult :=
  mergeCandidates (λ _, "n") Some
    [cand "e1" KEntity [("name", VStr "Anna Smith"); ("type", VStr "customer"); ("externalId", VStr "c-1"); ("entityIndex", VStr "0")];
     cand "e2" KEntity [("name", VStr "Anna Smithe"); ("type", VStr "customer"); ("entityIndex", VStr "1")]].

(** The rung of the hint creates an entity and reports a hint: the answers asked before it
    are still used, and a later mention the judge would have filed under the new entity gets
    one of its own. Asked in turn ([true]: something was created before), it does not. *)
Lemma stale_answer_mints_a_twin :
  let s := memory_of (doc_1 [] None) "x" [] in
  let d := stored (doc_1 [] None) in
  let filed (r : result http_exn (list (string * string))) := match r with Ok ids => map snd ids | Throw _ => [] end in
  filed (run (@resolveEntities ascii_script sure_judge judged_env no_ambient d near_names) s).2 =
    ["knowledge_entity:0"; "knowledge_entity:1"] ∧
  filed (run (@resolve_entities ascii_script sure_judge judged_env no_ambient d (participantsFromMeta (sd_meta d)) near_names
                [] true (mg_entities near_names)) s).2 = ["knowledge_entity:0"; "knowledge_entity:0"].
Proof. split; vm_compute; reflexivity. Qed.
