(* ===== verification/IndexerWork.v ===== *)
(** * Work for external indexers

    [documents/indexer-work.service.ts]: a remote indexer lists the pending runs of its
    packs, claims one with a token, renews it, reads the text, gives it back or submits.
    What packs are installed is an argument (the router's bindings), and so are the token
    a claim draws and the age at which a running claim counts as abandoned. The texts of
    the refusals are shortened. *)

From S2P Require Import Prelude Js Resume RunLedger FactPolicy DocumentText DocumentStore CommitWriter.
From stdpp Require Import gmap sorting.
Local Open Scope string_scope.
Local Open Scope nat_scope.

Record Binding := { bn_indexerId : string; bn_mode : string; bn_packVersion : string }.

Definition externalPackIds (bindings : list Binding) : list string :=
  add_all [] (map bn_indexerId (List.filter (λ b, bool_decide (bn_mode b = "external")) bindings)).

(** A key bound to no pack is bound to all. *)
Definition boundPacks (externalPacks : list string) (keyPackIds : option (list string)) : list string :=
  match keyPackIds with
  | None | Some [] => externalPacks
  | Some ids => List.filter (λ i, bool_decide (i ∈ ids)) externalPacks
  end.

Definition assertKeyBoundToPack (keyPackIds : option (list string)) (packId : string) : result http_exn unit :=
  match keyPackIds with
  | None | Some [] => Ok tt
  | Some ids => if bool_decide (packId ∈ ids) then Ok tt else Throw (Forbidden "this key is not bound to the indexer pack")
  end.

Definition assertExternalPack (externalPacks : list string) (packId : string) : result http_exn unit :=
  if bool_decide (packId ∈ externalPacks) then Ok tt else Throw (NotFound "indexer pack is not installed for this tenant").

Definition DEFAULT_LIST_LIMIT : Z := 50.
Definition MAX_LIST_LIMIT : Z := 200.

(** [None] is what is not finite. *)
Definition clampLimit (limit : option Z) : nat :=
  match limit with
  | Some n => Z.to_nat (if (n <=? 0)%Z then DEFAULT_LIST_LIMIT else Z.min n MAX_LIST_LIMIT)
  | None => Z.to_nat DEFAULT_LIST_LIMIT
  end.

(** ** Listing *)

Record WorkItem := {
  wk_runId : string; wk_documentId : string; wk_packId : string; wk_packVersion : string; wk_createdAt : Z; wk_docHasContent : bool
}.

Definition older (a b : string * RunRow) : Prop := (rn_createdAt a.2 <= rn_createdAt b.2)%Z.
#[export] Instance older_dec a b : Decision (older a b).
Proof. unfold older. apply _. Defined.

Definition waiting_work (packId : option string) (r : RunRow) : bool :=
  rn_external r && bool_decide (rn_status r = RPending) &&
  match packId with Some p => bool_decide (rk_packId (rn_key r) = p) | None => true end.

Definition has_content (s : Memory) (docId : string) : bool :=
  match st_docs (mm_store s) !! docId with Some d => dn_hasContent d | None => false end.

(** The query's page, in order of age. *)
Definition work_rows (packId : option string) (limit : nat) (s : Memory) : list (string * RunRow) :=
  take limit (merge_sort older (List.filter (λ kv : string * RunRow, waiting_work packId kv.2) (map_to_list (mm_runs s)))).

Definition work_item (s : Memory) (kv : string * RunRow) : WorkItem :=
  {| wk_runId := kv.1; wk_documentId := rk_docId (rn_key kv.2); wk_packId := rk_packId (rn_key kv.2);
     wk_packVersion := rk_packVersion (rn_key kv.2); wk_createdAt := rn_createdAt kv.2;
     wk_docHasContent := has_content s (rk_docId (rn_key kv.2)) |}.

Definition served (packs : list string) (kv : string * RunRow) : bool := bool_decide (rk_packId (rn_key kv.2) ∈ packs).

Definition listWork (bindings : list Binding) (packId : option string) (limit : option Z) (keyPackIds : option (list string)) :
    prog Memory (result http_exn (list WorkItem)) :=
  let packs := boundPacks (externalPackIds bindings) keyPackIds in
  let allowed := match packId with
                 | Some p => match assertKeyBoundToPack keyPackIds p with
                             | Ok _ => assertExternalPack packs p
                             | Throw e => Throw e
                             end
                 | None => Ok tt
                 end in
  match allowed with
  | Throw e => Done (Throw e)
  | Ok _ => query (λ s, Ok (map (work_item s) (List.filter (served packs) (work_rows packId (clampLimit limit) s))))
  end.

(** ** Claims *)

Definition NOT_FOUND : http_exn := NotFound "work item not found".
Definition CLAIM_LOST : http_exn := Conflict "claim lost: token mismatch or run not running".

(** A run that is not external is as good as missing. *)
Definition getExternalRun (runId : string) : prog Ledger (result http_exn RunRow) :=
  do* run := query (λ s, lg_runs s !! runId) in
  Done (match run with Some r => if rn_external r then Ok r else Throw NOT_FOUND | None => Throw NOT_FOUND end).

(** [UPDATE ... WHERE ... RETURN AFTER] of one row: whether it was written. *)
Definition update_run (where_ : Z → RunRow → bool) (set_ : Z → RunRow → RunRow) (runId : string) (s : Ledger) : Ledger * bool :=
  match lg_runs s !! runId with
  | Some r => if where_ (lg_now s) r then (with_runs (<[runId := set_ (lg_now s) r]> (lg_runs s)) s, true) else (s, false)
  | None => (s, false)
  end.

Definition claimable (staleMs now : Z) (r : RunRow) : bool :=
  rn_external r &&
  (bool_decide (rn_status r = RPending) || bool_decide (rn_status r = RFailed) ||
   (bool_decide (rn_status r = RRunning) && (rn_createdAt r <? now - staleMs)%Z)).

Definition claimed (token : string) (now : Z) (r : RunRow) : RunRow :=
  {| rn_key := rn_key r; rn_status := RRunning; rn_external := rn_external r; rn_claimToken := Some token;
     rn_createdAt := now; rn_finishedAt := None; rn_error := None; rn_raw := false; rn_priority := rn_priority r |}.

Record ClaimWork := { cx_runId : string; cx_key : RunKey; cx_claimToken : string; cx_leaseSeconds : Z }.

Definition leaseSeconds (staleMs : Z) : Z := staleMs / 1000.

Definition of_result {S A} (r : result http_exn A) : prog S (result http_exn A) := Done r.

Definition claim (staleMs : Z) (bindings : list Binding) (runId : string) (keyPackIds : option (list string)) (token : string) :
    prog Ledger (result http_exn ClaimWork) :=
  try* run := getExternalRun runId in
  try* _ := of_result (assertKeyBoundToPack keyPackIds (rk_packId (rn_key run))) in
  try* _ := of_result (assertExternalPack (externalPackIds bindings) (rk_packId (rn_key run))) in
  do* won := update (update_run (claimable staleMs) (claimed token) runId) in
  if won : bool
  then Done (Ok {| cx_runId := runId; cx_key := rn_key run; cx_claimToken := token; cx_leaseSeconds := leaseSeconds staleMs |})
  else Done (Throw (Conflict "work item is already claimed or completed")).

Definition holds_claim (token : string) (r : RunRow) : bool :=
  rn_external r && bool_decide (rn_status r = RRunning) && bool_decide (rn_claimToken r = Some token).

Definition renewed (now : Z) (r : RunRow) : RunRow :=
  {| rn_key := rn_key r; rn_status := rn_status r; rn_external := rn_external r; rn_claimToken := rn_claimToken r;
     rn_createdAt := now; rn_finishedAt := rn_finishedAt r; rn_error := rn_error r; rn_raw := rn_raw r;
     rn_priority := rn_priority r |}.

Definition heartbeat (staleMs : Z) (runId claimToken : string) : prog Ledger (result http_exn Z) :=
  do* ok := update (update_run (λ _, holds_claim claimToken) renewed runId) in
  Done (if ok : bool then Ok (leaseSeconds staleMs) else Throw CLAIM_LOST).

Definition failure_text (error : option string) : string :=
  match error with Some e => str_take 500 e | None => "released_by_indexer" end.

(** Given back, or given up. *)
Definition given_up (permanent : bool) (msg : string) (now : Z) (r : RunRow) : RunRow :=
  if permanent then
    {| rn_key := rn_key r; rn_status := RFailed; rn_external := rn_external r; rn_claimToken := rn_claimToken r;
       rn_createdAt := rn_createdAt r; rn_finishedAt := Some now; rn_error := Some msg; rn_raw := rn_raw r;
       rn_priority := rn_priority r |}
  else
    {| rn_key := rn_key r; rn_status := RPending; rn_external := rn_external r; rn_claimToken := None;
       rn_createdAt := now; rn_finishedAt := rn_finishedAt r; rn_error := Some msg; rn_raw := rn_raw r;
       rn_priority := rn_priority r |}.

Definition fail (runId claimToken : string) (error : option string) (permanent : bool) : prog Ledger (result http_exn string) :=
  do* ok := update (update_run (λ _, holds_claim claimToken) (given_up permanent (failure_text error)) runId) in
  Done (if ok : bool then Ok (if permanent then "failed" else "released") else Throw CLAIM_LOST).

(** Right document, right pack, live claim, matching token. *)
Definition verifyClaimForSubmit (runId claimToken docId packId : string) : prog Ledger (result http_exn RunRow) :=
  try* run := getExternalRun runId in
  Done (if negb (bool_decide (idTailOf (rk_docId (rn_key run)) = idTailOf docId)) then
          Throw (Conflict "claimed run belongs to a different document")
        else if negb (bool_decide (rk_packId (rn_key run) = packId)) then
          Throw (Conflict "claimed run belongs to a different pack")
        else if negb (holds_claim claimToken run) then Throw CLAIM_LOST else Ok run).

(** ** The text of the work *)

Record WorkContent := { wc_documentId : string; wc_kind : string; wc_vertical : string; wc_occurredAt : Z; wc_chunkCount : nat;
  wc_chunks : list (nat * string) }.

Definition content_of (doc : StoredDocument) (chunks : list DocumentChunk) : WorkContent :=
  {| wc_documentId := sd_id doc; wc_kind := sd_kind doc; wc_vertical := sd_vertical doc; wc_occurredAt := sd_occurredAt doc;
     wc_chunkCount := sd_chunkCount doc; wc_chunks := map (λ c, (ck_seq c, ck_text c)) chunks |}.

Definition content (bindings : list Binding) (runId : string) (keyPackIds : option (list string)) :
    prog Memory (result http_exn WorkContent) :=
  try* run := on_candidates (getExternalRun runId) in
  if negb (bool_decide (rn_status run = RPending)) && negb (bool_decide (rn_status run = RRunning)) then
    Done (Throw (Conflict "content is served for pending/claimed work only"))
  else
    try* _ := of_result (assertKeyBoundToPack keyPackIds (rk_packId (rn_key run))) in
    try* _ := of_result (assertExternalPack (externalPackIds bindings) (rk_packId (rn_key run))) in
    do* doc := query (λ s, getById (rk_docId (rn_key run)) (mm_store s)) in
    match doc with
    | None => Done (Throw (NotFound "document not found"))
    | Some d =>
        if negb (sd_hasContent d) then Done (Throw (NotFound "document has no stored content"))
        else
          do* chunks := query (λ s, getChunks (rk_docId (rn_key run)) (mm_store s)) in
          Done (Ok (content_of d chunks))
    end.

(** ** A live claim is not taken *)

Inductive work_call : Type :=
| WClaim (staleMs : Z) (bindings : list Binding) (runId : string) (keyPackIds : option (list string)) (token : string)
| WHeartbeat (staleMs : Z) (runId token : string)
| WFail (runId token : string) (error : option string) (permanent : bool)
| WVerify (runId token docId packId : string)
| WReap (staleMs extMs : Z)
| WClock (d : Z).

Definition work_prog (c : work_call) : prog Ledger unit :=
  match c with
  | WClaim staleMs bindings runId keyPackIds token =>
      do* _ := claim staleMs bindings runId keyPackIds token in Done tt
  | WHeartbeat staleMs runId token => do* _ := heartbeat staleMs runId token in Done tt
  | WFail runId token error permanent => do* _ := fail runId token error permanent in Done tt
  | WVerify runId token docId packId => do* _ := verifyClaimForSubmit runId token docId packId in Done tt
  | WReap staleMs extMs => do* _ := reapStaleRuns staleMs extMs in Done tt
  | WClock d => do* _ := exec (later d) in Done tt
  end.

(** A call of somebody else: it uses another token on the run, and the same notion of an
    abandoned claim. *)
Definition by_others (staleMs : Z) (runId token : string) (c : work_call) : Prop :=
  match c with
  | WClaim st _ _ _ _ => st = staleMs
  | WHeartbeat _ r t | WFail r t _ _ => r = runId → t ≠ token
  | WReap st _ => st = staleMs
  | WVerify _ _ _ _ | WClock _ => True
  end.

(** Until [deadline] the run is the holder's. *)
Definition held (staleMs deadline : Z) (runId token : string) (s : Ledger) : Prop :=
  (lg_now s <= deadline)%Z →
  ∃ r, lg_runs s !! runId = Some r ∧ holds_claim token r = true ∧ (deadline - staleMs <= rn_createdAt r)%Z.

Section holding.
Context (staleMs deadline : Z) (runId token : string).
Notation held := (held staleMs deadline runId token).

Lemma holds_running r : holds_claim token r = true → rn_external r = true ∧ rn_status r = RRunning ∧ rn_claimToken r = Some token.
Proof. unfold holds_claim. rewrite !andb_true_iff, !bool_decide_eq_true. naive_solver. Qed.

Lemma held_update_run where_ set_ id s :
  (∀ r, id = runId → (lg_now s <= deadline)%Z → holds_claim token r = true → (deadline - staleMs <= rn_createdAt r)%Z →
    where_ (lg_now s) r = false) →
  held s → held (update_run where_ set_ id s).1.
Proof.
  intros Hw Hh. unfold update_run. destruct (lg_runs s !! id) as [r|] eqn:E; [|exact Hh].
  destruct (where_ (lg_now s) r) eqn:Ew; [|exact Hh]. cbn. intros Hn. destruct (Hh Hn) as (r0 & Hr & Hc & Ht).
  exists r0. split; [|done]. cbn [lg_runs with_runs]. destruct (decide (id = runId)) as [->|Hne]; [|by rewrite lookup_insert_ne].
  rewrite Hr in E. injection E as <-. rewrite Hw in Ew by done. done.
Qed.

Lemma held_map (p : Z → RunRow → bool) g s :
  (∀ r, (lg_now s <= deadline)%Z → holds_claim token r = true → (deadline - staleMs <= rn_createdAt r)%Z → p (lg_now s) r = false) →
  held s → held (update_runs p g s).
Proof.
  intros Hp Hh Hn. destruct (Hh Hn) as (r & Hr & Hc & Ht). exists r. split; [|done]. cbn [lg_runs with_runs update_runs].
  rewrite lookup_fmap, Hr. cbn. rewrite Hp by done. done.
Qed.

Lemma fresh_not_abandoned r : (0 <= staleMs)%Z → ∀ now, (now <= deadline)%Z → (deadline - staleMs <= rn_createdAt r)%Z →
  (rn_createdAt r <? now - staleMs)%Z = false.
Proof. intros. lia. Qed.

Lemma held_call c : (0 <= staleMs)%Z → by_others staleMs runId token c → preserves held (work_prog c).
Proof.
  intros H0 Hc. destruct c; cbn [work_prog by_others] in *; apply preserves_bind; try (by intros; exact I).
  - subst. unfold claim, ebind. apply preserves_bind; [apply preserves_bind; [apply preserves_query|by intros]|].
    intros [run|e]; [|done]. apply preserves_bind; [done|]. intros [[]|e]; [|done]. apply preserves_bind; [done|].
    intros [[]|e]; [|done]. apply preserves_bind; [|by intros []]. apply preserves_update. intros s.
    apply held_update_run. intros r _ Hn Hh Ht. apply holds_running in Hh as (He & Hs & _).
    unfold claimable. rewrite Hs, fresh_not_abandoned by done. by rewrite He.
  - apply preserves_bind; [|by intros []]. apply preserves_update. intros s. apply held_update_run.
    intros r -> _ Hh _. apply holds_running in Hh as (_ & _ & Ht). unfold holds_claim. rewrite Ht.
    rewrite (bool_decide_eq_false_2 (Some token = Some token0)); [by rewrite andb_false_r|]. intros [= <-]. by apply Hc.
  - apply preserves_bind; [|by intros []]. apply preserves_update. intros s. apply held_update_run.
    intros r -> _ Hh _. apply holds_running in Hh as (_ & _ & Ht). unfold holds_claim. rewrite Ht.
    rewrite (bool_decide_eq_false_2 (Some token = Some token0)); [by rewrite andb_false_r|]. intros [= <-]. by apply Hc.
  - unfold verifyClaimForSubmit, ebind. apply preserves_bind; [apply preserves_bind; [apply preserves_query|by intros]|].
    by intros [run|e].
  - subst. unfold reapStaleRuns. do 2 (apply preserves_bind; [apply preserves_query|]; intros ?).
    apply preserves_bind; [|intros _; apply preserves_bind; [|by intros]]; (destruct (0 <? _); [|done]); apply preserves_exec; intros s;
      apply held_map; intros r Hn Hh Ht; apply holds_running in Hh as (He & Hs & _).
    + unfold fail_where. by rewrite He, Hs.
    + unfold release_where. rewrite fresh_not_abandoned by done. by rewrite andb_false_r.
  - apply preserves_exec. intros s Hh Hn. apply Hh. cbn in Hn. lia.
Qed.
End holding.

(** The claim of an external indexer lasts its lease: in every interleaving with what
    others do on this surface (their claims, renewals, failures, checks, the reaper, the
    clock) the run stays the holder's, running and under its token, until the lease has
    passed since the claim or the last renewal. *)
Theorem live_claim_is_not_taken staleMs runId token s r calls sched :
  (0 <= staleMs)%Z → lg_runs s !! runId = Some r → holds_claim token r = true →
  Forall (by_others staleMs runId token) calls →
  let s' := (run_pool sched (s, map work_prog calls)).1 in
  (lg_now s' <= rn_createdAt r + staleMs)%Z →
  ∃ r', lg_runs s' !! runId = Some r' ∧ holds_claim token r' = true.
Proof.
  intros H0 Hr Hh Hc s' Hn.
  assert (H : held staleMs (rn_createdAt r + staleMs) runId token s').
  { apply run_pool_preserves.
    - intros _. exists r. split_and!; [done|done|lia].
    - cbn [snd]. apply Forall_map. eapply Forall_impl; [exact Hc|]. intros c. by apply held_call. }
  destruct (H Hn) as (r' & H1 & H2 & _). by exists r'.
Qed.

(** ** Examples *)

Definition pending_run (packId : string) (at_ : Z) : RunRow :=
  {| rn_key := {| rk_docId := "source_document:1"; rk_packId := packId; rk_packVersion := "1" |}; rn_status := RPending;
     rn_external := true; rn_claimToken := None; rn_createdAt := at_; rn_finishedAt := None; rn_error := None; rn_raw := false;
     rn_priority := None |}.

Definition work_ledger : Ledger := {| lg_docs := ∅; lg_runs := {["r1" := pending_run "a" 0]}; lg_cands := ∅; lg_now := 10 |}.
Definition two_packs : list Binding :=
  [{| bn_indexerId := "a"; bn_mode := "external"; bn_packVersion := "1" |};
   {| bn_indexerId := "b"; bn_mode := "external"; bn_packVersion := "1" |}].

Lemma live_claim_is_not_taken_witness :
  let s := (run (claim 100 two_packs "r1" None "t1") work_ledger).1 in
  let s' := (run_pool [0; 0; 1; 0; 2; 3; 3; 3] (s, map work_prog [WClaim 100 two_packs "r1" None "t2"; WClock 50; WFail "r1" "t2" None false;
                                                      WReap 100 100])).1 in
  ∃ r', lg_runs s' !! "r1" = Some r' ∧ holds_claim "t1" r' = true.
Proof.
  cbn zeta. eapply (live_claim_is_not_taken 100 "r1" "t1"); [done|vm_compute; reflexivity|vm_compute; reflexivity| |vm_compute; discriminate].
  repeat constructor. by intros _.
Defined.
