(* ===== verification/ExternalCandidates.v ===== *)
(** * What an external indexer submits

    [documents/external-candidates.service.ts]: the fences a submission passes, what is
    staged of it, and the run it closes. The packs installed and what each declares of its
    scenes are arguments; so is the reading of a date. The drift sweep that follows a
    submission with a source version is left out, and the texts of the refusals are
    shortened. *)

From S2P Require Import Prelude Js Regex Resume CandidateMerge RunLedger Grounding FactPolicy EventTime DocumentText.
From S2P Require Import DocumentStore SceneProjection CommitWriter CommitCases IndexerWork.
From stdpp Require Import gmap.
Local Open Scope string_scope.
Local Open Scope nat_scope.

(** ** The request *)

(** Fields whose type the body parser does not check are dynamic. *)
Record SubmittedEntity := { se_name : jsval; se_type : jsval; se_canonical : option string; se_externalId : jsval }.

Record SubmittedFact := {
  sf_entityIndex : jsval; sf_predicate : jsval; sf_object : jsval; sf_confidence : jsval; sf_clause : option string;
  sf_eventTime : jsval; sf_endTime : jsval
}.

Record SubmittedRelation := {
  sr_fromEntityIndex : jsval; sr_toEntityIndex : jsval; sr_kind : jsval; sr_confidence : jsval; sr_eventTime : jsval;
  sr_endTime : jsval
}.

Record SubmittedScene := {
  sc_schemaId : jsval; sc_label : jsval; sc_gist : jsval; sc_occurredFrom : jsval; sc_occurredTo : jsval; sc_confidence : jsval
}.

Record SubmittedStateDelta := {
  ss_sceneIndex : jsval; ss_stateModelId : jsval; ss_subject : jsval; ss_from : jsval; ss_to : jsval; ss_confidence : jsval
}.

Record SubmitCandidatesDto := {
  dt_indexerId : string; dt_packVersion : option string; dt_runId : option string; dt_claimToken : option string;
  dt_entities : list SubmittedEntity; dt_facts : list SubmittedFact; dt_relations : option (list SubmittedRelation);
  dt_scenes : option (list SubmittedScene); dt_stateDeltas : option (list SubmittedStateDelta); dt_sourceVersion : jsval
}.

Definition MAX_ITEMS_PER_KIND : nat := 200.
Definition MAX_NAME : nat := 256.
Definition MAX_OBJECT : nat := 2000.
Definition MAX_SCENE_LABEL : nat := 200.

Definition RETRACT_ADMIN_PREDICATES : list string := ["billing_event"; "human_declared"].

(** The core predicates whose [policyFor] requires a scope. *)
Definition SCOPE_GATED : list string := ["dob"; "address"].

(** What a pack declares of its scenes: schema ids, and the states of each model. *)
Record PackMemoryModel := { pm_sceneSchemas : list string; pm_stateModels : list (string * list string) }.

Record SubmissionEnv := {
  sb_bindings : list Binding;
  sb_memoryModels : list (string * PackMemoryModel);
  sb_projections : bool;
  sb_staleness : bool;
  sb_clean : bool;
  sb_allowUngrounded : bool;
  sb_staleMs : Z;
  sb_jsNow : Z
}.

(** ** Checks *)

(** The first complaint of a sequence of checks. *)
Definition andThen (r : result http_exn unit) (k : result http_exn unit) : result http_exn unit :=
  match r with Ok _ => k | Throw e => Throw e end.

Definition check (ok : bool) (msg : string) : result http_exn unit := if ok then Ok tt else Throw (BadRequest msg).

Fixpoint check_all {A} (f : A → result http_exn unit) (l : list A) : result http_exn unit :=
  match l with [] => Ok tt | x :: l' => andThen (f x) (check_all f l') end.

(** The string, and whether it is one of 1 to [max] characters, not all white space. *)
Definition str_of (v : jsval) : string := match v with VStr s => s | _ => "" end.

Definition isBoundedString (v : jsval) (max : nat) : bool :=
  match v with VStr s => negb (bool_decide (trim s = "")) && (String.length s <=? max) | _ => false end.

(** [Number.isInteger(v)] *)
Definition integer_value (v : jsval) : option Z := match v with VNum x => float_integer x | _ => None end.

Definition non_empty (v : jsval) : bool := match v with VStr s => negb (bool_decide (trim s = "")) | _ => false end.

(** [predicate.includes('__')] *)
Definition namespaced (predicate : string) : bool := str_contains PACK_NAMESPACE_SEP predicate.

(** An indexer's own vocabulary, or an unprefixed predicate nobody's scope gates. *)
Definition predicate_allowed (indexerId predicate : string) : bool :=
  if namespaced predicate then starts_with (indexerId +:+ PACK_NAMESPACE_SEP) predicate
  else negb (bool_decide (predicate ∈ RETRACT_ADMIN_PREDICATES)) && negb (bool_decide (predicate ∈ SCOPE_GATED)).

Section submission.
Context `{CommitServices, Calendar}.
(** [Date.parse(v)], and the date the driver binds for it; the double of a small integer. *)
Variable date_parse : jsval → option Z.
Variable bind_date : jsval → jsval.
Variable num : Z → float.

Definition day_ok (v : jsval) : bool := match v with VUndef => true | _ => negb (bool_decide (parseEventTime v = None)) end.

Definition validateDays (eventTime endTime : jsval) : result http_exn unit :=
  check (day_ok eventTime && day_ok endTime) "must be a YYYY-MM-DD day".

Definition validateFact (indexerId : string) (f : SubmittedFact) : result http_exn unit :=
  andThen (check (match integer_value (sf_entityIndex f) with Some z => (0 <=? z)%Z | None => false end)
             "entityIndex must be a non-negative integer")
  (andThen (check (non_empty (sf_predicate f)) "predicate must be a non-empty string")
  (andThen (check (predicate_allowed indexerId (str_of (sf_predicate f))) "predicate is outside what the indexer may seed")
  (andThen (check (isBoundedString (sf_object f) MAX_OBJECT) "object must be a non-empty string of bounded length")
           (validateDays (sf_eventTime f) (sf_endTime f))))).

Definition validateRelation (r : SubmittedRelation) : result http_exn unit :=
  andThen (check (negb (bool_decide (integer_value (sr_fromEntityIndex r) = None)) &&
                  negb (bool_decide (integer_value (sr_toEntityIndex r) = None)) && non_empty (sr_kind r))
             "relations must carry integer endpoints and a non-empty kind")
          (validateDays (sr_eventTime r) (sr_endTime r)).

Definition validateShapes (dto : SubmitCandidatesDto) (indexerId : string) : result http_exn unit :=
  let relations := default [] (dt_relations dto) in
  andThen (check (negb ((MAX_ITEMS_PER_KIND <? length (dt_entities dto)) || (MAX_ITEMS_PER_KIND <? length (dt_facts dto)) ||
                        (MAX_ITEMS_PER_KIND <? length relations))) "a submission is capped at 200 items per kind")
  (andThen (check_all (λ e, check (isBoundedString (se_name e) MAX_NAME) "name must be a non-empty string of bounded length")
              (dt_entities dto))
  (andThen (check_all (validateFact indexerId) (dt_facts dto)) (check_all validateRelation relations))).

Definition validateSceneWindow (s : SubmittedScene) : result http_exn unit :=
  let hasFrom := negb (match sc_occurredFrom s with VUndef => true | _ => false end) in
  let hasTo := negb (match sc_occurredTo s with VUndef => true | _ => false end) in
  if negb (Bool.eqb hasFrom hasTo) then Throw (BadRequest "occurredFrom and occurredTo must be provided together")
  else if negb hasFrom then Ok tt
  else check (match date_parse (sc_occurredFrom s), date_parse (sc_occurredTo s) with
              | Some from, Some to => (from <=? to)%Z
              | _, _ => false
              end) "occurredFrom/occurredTo must be ISO datetimes with occurredFrom <= occurredTo".

Definition validateScene (declared : list string) (s : SubmittedScene) : result http_exn unit :=
  andThen (check (match sc_schemaId s with VStr i => bool_decide (i ∈ declared) | _ => false end) "not a declared sceneSchema")
  (andThen (check (isBoundedString (sc_label s) MAX_SCENE_LABEL) "label must be a non-empty string of bounded length")
  (andThen (check (isBoundedString (sc_gist s) MAX_OBJECT) "gist must be a non-empty string of bounded length")
           (validateSceneWindow s))).

Definition validateScenes (scenes : list SubmittedScene) (model : option PackMemoryModel) : result http_exn unit :=
  if length scenes =? 0 then Ok tt
  else
    let declared := default [] (pm_sceneSchemas <$> model) in
    andThen (check (negb (length declared =? 0)) "the pack declares no memoryModel.sceneSchemas")
            (check_all (validateScene declared) scenes).

Definition validateStateDelta (sceneCount : nat) (models : list (string * list string)) (d : SubmittedStateDelta) :
    result http_exn unit :=
  andThen (check (match integer_value (ss_sceneIndex d) with Some z => (0 <=? z)%Z && (z <? Z.of_nat sceneCount)%Z | None => false end)
             "sceneIndex must reference a scene of this submission")
  match (match ss_stateModelId d with VStr i => OMap.get i models | _ => None end) with
  | None => Throw (BadRequest "not a declared stateModel")
  | Some states =>
      let declared (v : jsval) := match v with VStr s => bool_decide (s ∈ states) | _ => false end in
      andThen (check (isBoundedString (ss_subject d) MAX_NAME) "subject must be a non-empty string of bounded length")
      (andThen (check (declared (ss_to d)) "not a declared state")
               (check (match ss_from d with VUndef => true | v => declared v end) "not a declared state"))
  end.

(** [new Map(models.map((m) => [m.id, m]))]: the last of an id counts. *)
Definition validateStateDeltas (deltas : list SubmittedStateDelta) (sceneCount : nat) (model : option PackMemoryModel) :
    result http_exn unit :=
  if length deltas =? 0 then Ok tt
  else
    let models := fold_left (λ m kv, OMap.set kv.1 kv.2 m) (default [] (pm_stateModels <$> model)) [] in
    andThen (check (negb (length models =? 0)) "the pack declares no memoryModel.stateModels")
            (check_all (validateStateDelta sceneCount models) deltas).

Definition validateProjectionShapes (env : SubmissionEnv) (dto : SubmitCandidatesDto) (indexerId : string) : result http_exn unit :=
  let scenes := default [] (dt_scenes dto) in
  let stateDeltas := default [] (dt_stateDeltas dto) in
  if (length scenes =? 0) && (length stateDeltas =? 0) then Ok tt
  else
    let model := snd <$> find_first (λ b : string * PackMemoryModel, bool_decide (b.1 = indexerId)) (sb_memoryModels env) in
    andThen (check (sb_projections env) "scenes/stateDeltas submissions are disabled")
    (andThen (check (negb ((MAX_ITEMS_PER_KIND <? length scenes) || (MAX_ITEMS_PER_KIND <? length stateDeltas)))
                "a submission is capped at 200 items per kind")
    (andThen (validateScenes scenes model) (validateStateDeltas stateDeltas (length scenes) model))).

Definition resolveExternalBinding (env : SubmissionEnv) (dto : SubmitCandidatesDto) : result http_exn Binding :=
  match find_first (λ b, bool_decide (bn_indexerId b = dt_indexerId dto)) (sb_bindings env) with
  | None => Throw (NotFound "indexer pack is not installed for this tenant")
  | Some b =>
      if negb (bool_decide (bn_mode b = "external")) then Throw (BadRequest "pack is not declared indexer.mode='external'")
      else match dt_packVersion dto with
           | Some v => if bool_decide (v = bn_packVersion b) then Ok b else Throw (Conflict "version mismatch")
           | None => Ok b
           end
  end.

Definition resolveSourceVersion (env : SubmissionEnv) (dto : SubmitCandidatesDto) : result http_exn (option SourceVersionStamp) :=
  match dt_sourceVersion dto with
  | VUndef => Ok None
  | raw =>
      if negb (sb_staleness env) then Throw (BadRequest "sourceVersion submissions are disabled")
      else match parseSourceVersionStamp cs_iso_date raw with Ok stamp => Ok (Some stamp) | Throw msg => Throw (BadRequest msg) end
  end.

Definition resolveClaimFields (dto : SubmitCandidatesDto) : result http_exn (option (string * string)) :=
  match dt_runId dto, dt_claimToken dto with
  | Some runId, Some token => Ok (Some (runId, token))
  | None, None => Ok None
  | _, _ => Throw (BadRequest "runId and claimToken must be provided together")
  end.

(** ** What is staged *)

(** [clamp01(v ?? 0.7)] *)
Definition clamp01 (v : jsval) : float :=
  match v with VNum n => if is_finite n then unit_interval n else 0.7%float | _ => 0.7%float end.

Definition cleaned (clean : bool) (s : string) : string := if clean then cs_sanitize s else s.

Definition index_or_zero (v : jsval) : Z := default 0%Z (integer_value v).

Definition to_entity (clean : bool) (i : nat) (e : SubmittedEntity) : CandidateEntity :=
  {| ce_entityIndex := Z.of_nat i; ce_name := cleaned clean (str_of (se_name e)); ce_type := normalizeEntityType (se_type e);
     ce_canonical := cleaned clean <$> se_canonical e;
     ce_externalId := match se_externalId e with VStr s => truthy (Some (trim s)) | _ => None end;
     ce_known := None; ce_ungrounded := None |}.

Definition toFact (clean : bool) (f : SubmittedFact) : CandidateFact :=
  {| cf_entityIndex := index_or_zero (sf_entityIndex f); cf_predicate := str_of (sf_predicate f);
     cf_object := cleaned clean (str_of (sf_object f)); cf_confidence := clamp01 (sf_confidence f); cf_clause := sf_clause f;
     cf_days := {| dy_eventTime := parseEventTime (sf_eventTime f); dy_endTime := parseEventTime (sf_endTime f);
                   dy_expectedEnd := None |};
     cf_supersedes := []; cf_ungrounded := None; cf_entropy := None; cf_agreement := None |}.

Definition toRelation (r : SubmittedRelation) : CandidateRelation :=
  {| cl_fromEntityIndex := index_or_zero (sr_fromEntityIndex r); cl_toEntityIndex := index_or_zero (sr_toEntityIndex r);
     cl_kind := str_of (sr_kind r); cl_confidence := clamp01 (sr_confidence r); cl_clause := None;
     cl_eventTime := parseEventTime (sr_eventTime r); cl_endTime := parseEventTime (sr_endTime r) |}.

Definition bound_date (v : jsval) : option jsval := match v with VUndef => None | _ => Some (bind_date v) end.

Definition toScene (clean : bool) (i : nat) (s : SubmittedScene) : CandidateScene :=
  {| cs_sceneIndex := Z.of_nat i; cs_schemaId := str_of (sc_schemaId s); cs_label := cleaned clean (str_of (sc_label s));
     cs_gist := cleaned clean (str_of (sc_gist s)); cs_occurredFrom := bound_date (sc_occurredFrom s);
     cs_occurredTo := bound_date (sc_occurredTo s); cs_confidence := clamp01 (sc_confidence s); cs_ungrounded := None |}.

Definition toStateDelta (clean : bool) (d : SubmittedStateDelta) : CandidateStateDelta :=
  {| cd_sceneIndex := index_or_zero (ss_sceneIndex d); cd_stateModelId := str_of (ss_stateModelId d);
     cd_subject := cleaned clean (str_of (ss_subject d)); cd_from := as_js_string (ss_from d); cd_to := str_of (ss_to d);
     cd_confidence := clamp01 (ss_confidence d); cd_ungrounded := None |}.

(** An array that is there and not empty. *)
Definition some_of {A} (l : option (list A)) : option (list A) := match l with Some (x :: r) => Some (x :: r) | _ => None end.

Definition ungrounded_entity (e : CandidateEntity) : CandidateEntity :=
  {| ce_entityIndex := ce_entityIndex e; ce_name := ce_name e; ce_type := ce_type e; ce_canonical := ce_canonical e;
     ce_externalId := ce_externalId e; ce_known := ce_known e; ce_ungrounded := Some true |}.
Definition ungrounded_fact (f : CandidateFact) : CandidateFact :=
  {| cf_entityIndex := cf_entityIndex f; cf_predicate := cf_predicate f; cf_object := cf_object f;
     cf_confidence := cf_confidence f; cf_clause := cf_clause f; cf_days := cf_days f; cf_supersedes := cf_supersedes f;
     cf_ungrounded := Some true; cf_entropy := cf_entropy f; cf_agreement := cf_agreement f |}.
Definition ungrounded_scene (s : CandidateScene) : CandidateScene :=
  {| cs_sceneIndex := cs_sceneIndex s; cs_schemaId := cs_schemaId s; cs_label := cs_label s; cs_gist := cs_gist s;
     cs_occurredFrom := cs_occurredFrom s; cs_occurredTo := cs_occurredTo s; cs_confidence := cs_confidence s;
     cs_ungrounded := Some true |}.
Definition ungrounded_delta (d : CandidateStateDelta) : CandidateStateDelta :=
  {| cd_sceneIndex := cd_sceneIndex d; cd_stateModelId := cd_stateModelId d; cd_subject := cd_subject d; cd_from := cd_from d;
     cd_to := cd_to d; cd_confidence := cd_confidence d; cd_ungrounded := Some true |}.

Definition external_provenance (indexerId packVersion : string) (sourceVersion : option SourceVersionStamp) : Provenance :=
  {| pv_indexerId := indexerId; pv_packVersion := packVersion; pv_executionMode := External; pv_model := None;
     pv_sourceVersion := sourceVersion |}.

Record Grounded := { gr_batch : CandidateBatch; gr_dropped : list GroundingDrop; gr_ungrounded : bool }.

Definition newline_text : string := String (Ascii.ascii_of_nat 10) "".

(** The batch, quoted from the text when there is one. *)
Definition grounded_batch (env : SubmissionEnv) (dto : SubmitCandidatesDto) (prov : Provenance) (docText : string) : Grounded :=
  let clean := sb_clean env in
  let g := groundExternalBatch docText (imap (to_entity clean) (dt_entities dto)) (map (toFact clean) (dt_facts dto))
             (map toRelation (default [] (dt_relations dto))) in
  {| gr_batch := {| cb_provenance := prov; cb_entities := gb_entities g; cb_facts := gb_facts g; cb_relations := gb_relations g;
                    cb_scenes := imap (toScene clean) <$> some_of (dt_scenes dto);
                    cb_stateDeltas := map (toStateDelta clean) <$> some_of (dt_stateDeltas dto) |};
     gr_dropped := gb_dropped g; gr_ungrounded := false |}.

Definition unverifiable_batch (env : SubmissionEnv) (dto : SubmitCandidatesDto) (prov : Provenance) : Grounded :=
  let clean := sb_clean env in
  {| gr_batch := {| cb_provenance := prov; cb_entities := map ungrounded_entity (imap (to_entity clean) (dt_entities dto));
                    cb_facts := map ungrounded_fact (map (toFact clean) (dt_facts dto));
                    cb_relations := map toRelation (default [] (dt_relations dto));
                    cb_scenes := (λ l, map ungrounded_scene (imap (toScene clean) l)) <$> some_of (dt_scenes dto);
                    cb_stateDeltas := (λ l, map ungrounded_delta (map (toStateDelta clean) l)) <$> some_of (dt_stateDeltas dto) |};
     gr_dropped := []; gr_ungrounded := true |}.

Definition groundAgainstDocument (env : SubmissionEnv) (doc : StoredDocument) (dto : SubmitCandidatesDto) (prov : Provenance) :
    prog Memory (result http_exn Grounded) :=
  if negb (sd_hasContent doc) then
    Done (if sb_allowUngrounded env then Ok (unverifiable_batch env dto prov)
          else Throw (BadRequest "document has no stored content; ungrounded external candidates are disabled"))
  else
    do* chunks := query (λ s, getChunks (sd_id doc) (mm_store s)) in
    Done (Ok (grounded_batch env dto prov (join_with newline_text (map ck_text chunks)))).

(** ** The submission *)

Record ExternalSubmissionResult := {
  er_runId : string; er_packId : string; er_packVersion : string; er_staged : InsertBatchCounts;
  er_dropped : list GroundingDrop; er_ungrounded : bool
}.

(** What is refused before anything is written. *)
Definition admitted (env : SubmissionEnv) (dto : SubmitCandidatesDto) (keyPackIds : option (list string)) :
    result http_exn (Binding * option SourceVersionStamp * option (string * string)) :=
  match assertKeyBoundToPack keyPackIds (dt_indexerId dto) with
  | Throw e => Throw e
  | Ok _ =>
      match resolveExternalBinding env dto with
      | Throw e => Throw e
      | Ok binding =>
          match andThen (validateShapes dto (bn_indexerId binding)) (validateProjectionShapes env dto (bn_indexerId binding)) with
          | Throw e => Throw e
          | Ok _ =>
              match resolveSourceVersion env dto with
              | Throw e => Throw e
              | Ok sourceVersion =>
                  match resolveClaimFields dto with Throw e => Throw e | Ok claim => Ok (binding, sourceVersion, claim) end
              end
          end
      end
  end.

(** A claimed run is checked and emptied; without a claim the run is opened further down. *)
Definition take_claim (doc : StoredDocument) (binding : Binding) (claim : option (string * string)) :
    prog Memory (result http_exn (option (string * string))) :=
  match claim with
  | None => Done (Ok None)
  | Some (runId, token) =>
      try* r := on_candidates (verifyClaimForSubmit runId token (sd_id doc) (bn_indexerId binding)) in
      do* _ := on_candidates (dropRunCandidates runId) in
      Done (Ok (Some (runId, rk_packVersion (rn_key r))))
  end.

Definition run_slot (doc : StoredDocument) (binding : Binding) (packVersion : string) : RunKey :=
  {| rk_docId := doc_record (sd_id doc); rk_packId := bn_indexerId binding; rk_packVersion := packVersion |}.

Definition open_slot (env : SubmissionEnv) (doc : StoredDocument) (binding : Binding) (packVersion : string)
    (claimed_ : option (string * string)) : prog Memory (result http_exn string) :=
  match claimed_ with
  | Some (runId, _) => Done (Ok runId)
  | None =>
      try* r := on_candidates (createRun (sb_staleMs env) (sb_jsNow env) (run_slot doc binding packVersion) true) in
      Done (if rh_created r then Ok (rh_runId r) else Throw (Conflict "indexer already processed this document"))
  end.

Definition submit (env : SubmissionEnv) (docId : string) (dto : SubmitCandidatesDto) (keyPackIds : option (list string)) :
    prog Memory (result http_exn ExternalSubmissionResult) :=
  do* found := query (λ s, getById docId (mm_store s)) in
  match found with
  | None => Done (Throw (NotFound "document not found"))
  | Some doc =>
      try* a := of_result (admitted env dto keyPackIds) in
      let '(binding, sourceVersion, claim) := a in
      try* claimed_ := take_claim doc binding claim in
      let packVersion := match claimed_ with Some (_, v) => v | None => bn_packVersion binding end in
      try* g := groundAgainstDocument env doc dto (external_provenance (dt_indexerId dto) packVersion sourceVersion) in
      try* runId := open_slot env doc binding packVersion claimed_ in
      do* counts := on_candidates (insertBatch num (doc_record (sd_id doc)) runId 0 (gr_batch g)) in
      do* _ := on_candidates (finalizeRun runId RSucceeded None false) in
      Done (Ok {| er_runId := runId; er_packId := bn_indexerId binding; er_packVersion := packVersion; er_staged := counts;
                  er_dropped := gr_dropped g; er_ungrounded := gr_ungrounded g |})
  end.
End submission.

(** ** What the pieces do *)

(** Runs move, candidates only go. *)
Record shrinks (s s' : Memory) : Prop := {
  sk_store : mm_store s' = mm_store s;
  sk_graph : mm_graph s' = mm_graph s;
  sk_cands : ∀ id row, mm_cands s' !! id = Some row → mm_cands s !! id = Some row
}.

Lemma shrinks_refl s : shrinks s s.
Proof. done. Qed.

Lemma shrinks_trans s1 s2 s3 : shrinks s1 s2 → shrinks s2 s3 → shrinks s1 s3.
Proof. intros [] []. split; [congruence..|eauto]. Qed.

Lemma put_ledger_view s : put_ledger (ledger_view s) s = s.
Proof. by destruct s. Qed.

Lemma run_on_query {A} (f : Ledger → A) s : run (on_candidates (query f)) s = (s, f (ledger_view s)).
Proof. cbn. by rewrite put_ledger_view. Qed.

Lemma verify_run runId token docId packId s s' r :
  run (on_candidates (verifyClaimForSubmit runId token docId packId)) s = (s', r) →
  s' = s ∧ ∀ row, r = Ok row → mm_runs s !! runId = Some row ∧ rk_packId (rn_key row) = packId ∧
    idTailOf (rk_docId (rn_key row)) = idTailOf docId.
Proof.
  cbn. rewrite put_ledger_view. destruct (mm_runs s !! runId) as [row|]; cbn; [|intros [= <- <-]; by split].
  destruct (rn_external row); cbn; [|intros [= <- <-]; by split]. intros [= <- <-]. split; [done|]. intros row'.
  do 2 (case_bool_decide; [|done]). cbn. destruct (holds_claim token row); [|done]. by intros [= <-].
Qed.

Lemma drop_shrinks runId s s' r :
  run (on_candidates (dropRunCandidates runId)) s = (s', r) → shrinks s s' ∧ mm_runs s' = mm_runs s.
Proof.
  cbn. intros [= <- <-]. split; [|done]. split; [done..|]. intros id row. cbn. by intros [H _]%map_lookup_filter_Some.
Qed.

Lemma create_run_found k st ext l l' id :
  create_run k st ext l = (l', Some id) →
  lg_cands l' = lg_cands l ∧ ∃ row, lg_runs l' !! id = Some row ∧ rn_key row = k.
Proof.
  unfold create_run. destruct (find_run k l); [done|]. intros [= <- <-]. split; [done|]. eexists. split; [by apply lookup_insert_eq|done].
Qed.

Lemma open_shrinks env doc binding packVersion claimed_ s s' r :
  run (open_slot env doc binding packVersion claimed_) s = (s', r) → shrinks s s' ∧
  ∀ runId, r = Ok runId →
    match claimed_ with
    | Some (c, _) => runId = c ∧ s' = s
    | None => ∃ row, mm_runs s' !! runId = Some row ∧ rn_key row = run_slot doc binding packVersion
    end.
Proof.
  destruct claimed_ as [[c v]|]; [intros [= <- <-]; split; [done|]; by intros ? [= <-]|]. cbn [open_slot].
  unfold ebind. rewrite run_bind. set (k := run_slot doc binding packVersion). unfold createRun, on_candidates. cbn.
  destruct (create_run k RRunning true (ledger_view s)) as [l [id|]] eqn:Ec; cbn.
  - apply create_run_found in Ec as (Hc & row & Hr & Hk). intros [= <- <-]. split; [split; [done..|]; cbn; by rewrite Hc|].
    intros runId [= <-]. by exists row.
  - unfold create_run in Ec. destruct (find_run k (ledger_view s)) as [[id row]|] eqn:Ef; [|done]. injection Ec as <-.
    rewrite put_ledger_view, Ef. cbn. apply find_run_Some in Ef as [Hr Hk].
    destruct (reopenable _ _ row); cbn; [|intros [= <- <-]; rewrite put_ledger_view; by split].
    cbn in Hr. rewrite !put_ledger_view. unfold reopen_cas. cbn. rewrite Hr. cbn. rewrite bool_decide_eq_true_2 by done. cbn.
    intros [= <- <-]. split; [split; [done..|]; cbn; by intros i x [H' _]%map_lookup_filter_Some|].
    intros runId [= <-]. eexists. split; [apply lookup_insert_eq|done].
Qed.

Lemma insert_run num docId runId b s s' c :
  run (on_candidates (insertBatch num docId runId 0 b)) s = (s', c) →
  mm_store s' = mm_store s ∧ mm_graph s' = mm_graph s ∧ mm_runs s' = mm_runs s ∧ c = batch_counts b ∧
  ∀ id row, mm_cands s' !! id = Some row → mm_cands s !! id = Some row ∨
    ∃ p, p ∈ batch_parts num b ∧ row = staged_row docId runId 0 (mm_now s) p.
Proof.
  unfold insertBatch. destruct (0 <? length (batch_parts num b)).
  - cbn. intros [= <- <-]. split_and!; [done..|]. intros id row. cbn. intros [H|H]%inserted_rows; [by left|right].
    apply list_elem_of_fmap in H as (p & -> & Hp). by exists p.
  - cbn. intros [= <- <-]. split_and!; [done..|]. by left.
Qed.

Lemma finalize_run runId st s s' c :
  run (on_candidates (finalizeRun runId st None false)) s = (s', c) →
  mm_store s' = mm_store s ∧ mm_graph s' = mm_graph s ∧ mm_cands s' = mm_cands s ∧
  ∀ row, mm_runs s !! runId = Some row → ∃ row', mm_runs s' !! runId = Some row' ∧ rn_key row' = rn_key row ∧ rn_status row' = st.
Proof.
  cbn. intros [= <- <-]. split_and!; [done..|]. intros row Hr. cbn. rewrite lookup_alter_eq, Hr. cbn. by eexists.
Qed.

Lemma check_all_In {A} (f : A → result http_exn unit) l x : check_all f l = Ok tt → x ∈ l → f x = Ok tt.
Proof.
  induction l as [|y l IH]; cbn; [by intros _ ?%elem_of_nil|]. unfold andThen. destruct (f y) as [[]|] eqn:E; [|done].
  intros Hl [->|Hx]%elem_of_cons; [done|]. by apply IH.
Qed.

Lemma andThen_Ok r k : andThen r k = Ok tt → r = Ok tt ∧ k = Ok tt.
Proof. destruct r as [[]|]; [by split|done]. Qed.

Lemma check_Ok b msg : check b msg = Ok tt → b = true.
Proof. by destruct b. Qed.

(** What admission established. *)
Lemma admitted_fences `{CommitServices, Calendar} date_parse env dto keys binding sv claim :
  admitted date_parse env dto keys = Ok (binding, sv, claim) →
  assertKeyBoundToPack keys (dt_indexerId dto) = Ok tt ∧ binding ∈ sb_bindings env ∧
  bn_indexerId binding = dt_indexerId dto ∧ bn_mode binding = "external" ∧
  ∀ f, f ∈ dt_facts dto → predicate_allowed (dt_indexerId dto) (str_of (sf_predicate f)) = true.
Proof.
  unfold admitted. destruct (assertKeyBoundToPack _ _) as [[]|]; [|done]. destruct (resolveExternalBinding _ _) as [b|] eqn:Eb; [|done].
  destruct (andThen _ _) as [[]|] eqn:Ev; [|done]. destruct (resolveSourceVersion _ _); [|done].
  destruct (resolveClaimFields _); [|done]. intros [= <- <- <-]. split; [done|].
  unfold resolveExternalBinding in Eb. destruct (find_first _ _) as [b'|] eqn:Ef; [|done].
  apply find_first_Some in Ef as [Hin Hid%bool_decide_eq_true].
  destruct (decide (bn_mode b' = "external")) as [Hm|Hm]; [rewrite bool_decide_eq_true_2 in Eb by done|by rewrite bool_decide_eq_false_2 in Eb by done].
  cbn in Eb. assert (b' = b) as ->. { destruct (dt_packVersion dto); [|congruence]. case_bool_decide; congruence. }
  split_and!; [done..|]. intros f Hf. apply andThen_Ok in Ev as [Ev _]. unfold validateShapes in Ev. cbn zeta in Ev.
  apply andThen_Ok in Ev as [_ Ev]. apply andThen_Ok in Ev as [_ Ev]. apply andThen_Ok in Ev as [Ev _].
  pose proof (check_all_In _ _ _ Ev Hf) as Hv. unfold validateFact in Hv. apply andThen_Ok in Hv as [_ Hv].
  apply andThen_Ok in Hv as [_ Hv]. apply andThen_Ok in Hv as [Hv _]. apply check_Ok in Hv. by rewrite <- Hid.
Qed.

(** The text a submission is held against. *)
Definition document_text (doc : StoredDocument) (s : Memory) : string :=
  join_with newline_text (map ck_text (getChunks (sd_id doc) (mm_store s))).

(** The facts and names of a batch that is quoted, or that is marked as unverifiable. *)
Definition borne_out (env : SubmissionEnv) (doc : StoredDocument) (s : Memory) (g : Grounded) : Prop :=
  if gr_ungrounded g then
    sd_hasContent doc = false ∧ sb_allowUngrounded env = true ∧
    (∀ f, f ∈ cb_facts (gr_batch g) → cf_ungrounded f = Some true) ∧
    (∀ e, e ∈ cb_entities (gr_batch g) → ce_ungrounded e = Some true)
  else
    (∀ f, f ∈ cb_facts (gr_batch g) →
      stands_in (normalizeForGrounding (cf_object f)) (normalizeForGrounding (document_text doc s))) ∧
    (∀ e, e ∈ cb_entities (gr_batch g) →
      stands_in (normalizeForGrounding (ce_name e)) (normalizeForGrounding (document_text doc s))).

Lemma grounded_facts_from docText entities facts relations f :
  f ∈ gb_facts (groundExternalBatch docText entities facts relations) →
  isGroundedSpan (normalizeForGrounding docText) (normalizeForGrounding (cf_object f)) = true ∧
  ∃ f0, f0 ∈ facts ∧ cf_predicate f = cf_predicate f0.
Proof.
  intros (i & f0 & Hf & E)%elem_of_oks%elem_of_imap. unfold ground_fact in E. destruct (moved _ _) as [k|]; [|done].
  destruct (isGroundedSpan _ _) eqn:Eg; [|done]. injection E as ->. split; [done|]. exists f0.
  split; [by eapply list_elem_of_lookup_2|done].
Qed.

Lemma grounded_names_from docText entities facts relations e :
  e ∈ gb_entities (groundExternalBatch docText entities facts relations) →
  isGroundedSpan (normalizeForGrounding docText) (normalizeForGrounding (ce_name e)) = true.
Proof.
  intros (k & e0 & He & ->)%elem_of_imap. apply list_elem_of_lookup_2 in He. rewrite compact_filter in He.
  by apply elem_of_bfilter in He as [_ ?].
Qed.

Lemma ground_run `{CommitServices, Calendar} bind_date env doc dto prov s s' r :
  run (groundAgainstDocument bind_date env doc dto prov) s = (s', r) →
  s' = s ∧ ∀ g, r = Ok g → borne_out env doc s g ∧
    ∀ f, f ∈ cb_facts (gr_batch g) → ∃ f0, f0 ∈ dt_facts dto ∧ cf_predicate f = str_of (sf_predicate f0).
Proof.
  unfold groundAgainstDocument. destruct (sd_hasContent doc) eqn:Ec; cbn.
  - intros [= <- <-]. split; [done|]. intros g [= <-]. split.
    + split.
      * intros f Hf. unfold grounded_batch in Hf. cbn [gr_batch cb_facts] in Hf. apply isGroundedSpan_spec. by apply grounded_facts_from in Hf as [Hg _].
      * intros e He. unfold grounded_batch in He. cbn [gr_batch cb_entities] in He. apply isGroundedSpan_spec. eapply grounded_names_from. exact He.
    + intros f Hf. unfold grounded_batch in Hf. cbn [gr_batch cb_facts] in Hf.
      apply grounded_facts_from in Hf as (_ & f0 & Hf & ->). apply list_elem_of_fmap in Hf as (f1 & -> & Hf). by exists f1.
  - intros [= <- <-]. split; [done|]. intros g. destruct (sb_allowUngrounded env) eqn:Ea; [|done]. intros [= <-]. split.
    + unfold borne_out. cbn. split_and!; [done..| |]; intros x (y & -> & _)%list_elem_of_fmap; done.
    + cbn. intros f (f1 & -> & Hf)%list_elem_of_fmap. apply list_elem_of_fmap in Hf as (f0 & -> & Hf). by exists f0.
Qed.

Lemma take_run doc binding claim s s' r :
  run (take_claim doc binding claim) s = (s', r) → shrinks s s' ∧ ∀ c, r = Ok c →
  match claim, c with
  | None, None => True
  | Some (id, _), Some (id', v) => id' = id ∧ ∃ row, mm_runs s' !! id = Some row ∧
      rk_packId (rn_key row) = bn_indexerId binding ∧ rk_packVersion (rn_key row) = v ∧
      idTailOf (rk_docId (rn_key row)) = idTailOf (sd_id doc)
  | _, _ => False
  end.
Proof.
  destruct claim as [[id token]|]; cbn [take_claim]; [|intros [= <- <-]; split; [done|]; by intros c [= <-]].
  rewrite run_ebind. destruct (run (on_candidates (verifyClaimForSubmit _ _ _ _)) s) as [s1 [row|e]] eqn:Ev; cbn [fst snd];
    apply verify_run in Ev as [-> Hv]; [|intros [= <- <-]; by split].
  destruct (Hv row eq_refl) as (Hr & Hp & Hd). rewrite run_bind.
  destruct (run (on_candidates (dropRunCandidates id)) s) as [s2 u] eqn:Edr. apply drop_shrinks in Edr as [Hs Hruns].
  cbn [run fst snd]. intros [= <- <-]. split; [done|]. intros c [= <-]. split; [done|]. exists row. by rewrite Hruns.
Qed.

Lemma tail_of_record docId : idTailOf (doc_record docId) = idTailOf docId.
Proof.
  unfold doc_record. set (t := idTailOf docId). unfold idTailOf.
  change ("source_document:" +:+ t) with ("source_document" +:+ String colon t). by rewrite index_of_append.
Qed.

(** C19. A submission of an external indexer stays within its fences. It never touches facts,
    entities or documents. Refused, it leaves no candidate behind. Accepted, the indexer is
    one the tenant installed as external and the key may act for; the run it closes is that
    pack's on that document; every candidate that is new belongs to that run, is pending,
    and comes from a batch whose facts use the indexer's own vocabulary or core predicates
    no scope gates, and whose values and names stand in the stored text; or, where the
    tenant allows documents without text, are marked as unverifiable. *)
Theorem submission_respects_its_fences `{CommitServices, Calendar} date_parse bind_date num env docId dto keys s s' r :
  run (submit date_parse bind_date num env docId dto keys) s = (s', r) →
  mm_store s' = mm_store s ∧ mm_graph s' = mm_graph s ∧
  match r with
  | Throw _ => ∀ id row, mm_cands s' !! id = Some row → mm_cands s !! id = Some row
  | Ok res =>
      assertKeyBoundToPack keys (er_packId res) = Ok tt ∧ er_packId res = dt_indexerId dto ∧
      (∃ b, b ∈ sb_bindings env ∧ bn_indexerId b = er_packId res ∧ bn_mode b = "external") ∧
      (∃ row, mm_runs s' !! er_runId res = Some row ∧ rn_status row = RSucceeded ∧
         rk_packId (rn_key row) = er_packId res ∧ rk_packVersion (rn_key row) = er_packVersion res ∧
         idTailOf (rk_docId (rn_key row)) = idTailOf docId) ∧
      ∃ doc g, getById docId (mm_store s) = Some doc ∧
        er_staged res = batch_counts (gr_batch g) ∧ er_ungrounded res = gr_ungrounded g ∧ borne_out env doc s g ∧
        (∀ f, f ∈ cb_facts (gr_batch g) → predicate_allowed (dt_indexerId dto) (cf_predicate f) = true) ∧
        ∀ id row, mm_cands s' !! id = Some row → mm_cands s !! id = Some row ∨
          ∃ p, p ∈ batch_parts num (gr_batch g) ∧
               row = staged_row (doc_record (sd_id doc)) (er_runId res) 0 (sg_createdAt row) p
  end.
Proof.
  unfold submit. rewrite run_bind, run_query. cbn [fst snd]. destruct (getById docId (mm_store s)) as [doc|] eqn:Ed; [|intros [= <- <-]; by split_and!].
  rewrite run_ebind. cbn [of_result run fst snd]. destruct (admitted _ _ _ _) as [[[b sv] claim]|e] eqn:Ea; [|intros [= <- <-]; by split_and!].
  apply admitted_fences in Ea as (Hkey & Hb & Hbid & Hbm & Hpred). rewrite run_ebind.
  destruct (run (take_claim doc b claim) s) as [s1 [c|e]] eqn:Et; apply take_run in Et as [Hs1 Hc]; cbn [fst snd];
    [|intros [= <- <-]; by destruct Hs1]. specialize (Hc c eq_refl). rewrite run_ebind.
  destruct (run (groundAgainstDocument _ _ _ _ _) s1) as [s2 [g|e]] eqn:Eg; apply ground_run in Eg as [-> Hg]; cbn [fst snd];
    [|intros [= <- <-]; by destruct Hs1]. destruct (Hg g eq_refl) as [Hborne Hfrom]. rewrite run_ebind.
  destruct (run (open_slot _ _ _ _ _) s1) as [s3 [runId|e]] eqn:Eo; apply open_shrinks in Eo as [Hs3 Hopen]; cbn [fst snd];
    [|intros [= <- <-]; by destruct (shrinks_trans _ _ _ Hs1 Hs3)]. specialize (Hopen runId eq_refl).
  rewrite run_bind. destruct (run (on_candidates (insertBatch _ _ _ _ _)) s3) as [s4 counts] eqn:Ei.
  apply insert_run in Ei as (Hst4 & Hgr4 & Hrun4 & -> & Hc4). cbn [fst snd]. rewrite run_bind.
  destruct (run (on_candidates (finalizeRun _ _ _ _)) s4) as [s5 u] eqn:Ef. apply finalize_run in Ef as (Hst5 & Hgr5 & Hc5 & Hrun5).
  cbn [run fst snd]. intros [= <- <-]. destruct (shrinks_trans _ _ _ Hs1 Hs3) as [Hst Hgr Hc3].
  split; [congruence|]. split; [congruence|]. cbn [er_runId er_packId er_packVersion er_staged er_ungrounded].
  rewrite Hbid. split; [done|]. split; [done|]. split; [by exists b|].
  assert (Hid : idTailOf (sd_id doc) = idTailOf docId).
  { unfold getById in Ed. apply fmap_Some in Ed as (row & _ & ->). apply tail_of_record. }
  split.
  - destruct claim as [[id token]|], c as [[id' v]|]; try done.
    + destruct Hc as (-> & row & Hr & Hp & Hv & Hd). destruct Hopen as [-> ->]. rewrite <- Hrun4 in Hr.
      destruct (Hrun5 row Hr) as (row' & Hr' & Hk & Hst'). exists row'. rewrite Hk. split_and!; congruence.
    + destruct Hopen as (row & Hr & Hk0). rewrite <- Hrun4 in Hr. destruct (Hrun5 row Hr) as (row' & Hr' & Hk & Hst').
      exists row'. rewrite Hk, Hk0. cbn. rewrite tail_of_record. split_and!; [done..| |done|done|done]; done.
  - exists doc, g. split_and!; [done..| | |].
    + unfold borne_out, document_text in *. by rewrite <- (sk_store _ _ Hs1).
    + intros f Hf. destruct (Hfrom f Hf) as (f0 & Hf0 & ->). by apply Hpred.
    + intros id row. rewrite Hc5. intros [H1|(p & Hp & ->)]%Hc4; [left; by apply Hc3|right; by exists p].
Qed.

(** ** Examples *)

Definition crm_env : SubmissionEnv :=
  {| sb_bindings := two_packs; sb_memoryModels := []; sb_projections := false; sb_staleness := false; sb_clean := true;
     sb_allowUngrounded := false; sb_staleMs := 100; sb_jsNow := 60 |}.

Definition one_fact (value : string) (claim : option (string * string)) : SubmitCandidatesDto :=
  {| dt_indexerId := "a"; dt_packVersion := None; dt_runId := fst <$> claim; dt_claimToken := snd <$> claim;
     dt_entities := [{| se_name := VStr "Acme"; se_type := VStr "customer"; se_canonical := Some "Globex"; se_externalId := VUndef |}];
     dt_facts := [{| sf_entityIndex := VNum 0; sf_predicate := VStr "a__city"; sf_object := VStr value; sf_confidence := VUndef;
                     sf_clause := None; sf_eventTime := VUndef; sf_endTime := VUndef |}];
     dt_relations := None; dt_scenes := None; dt_stateDeltas := None; dt_sourceVersion := VUndef |}.

Definition acme_text : Memory := memory_of (doc_1 [] None) "Acme is in New York." [].

Definition submit_1 (dto : SubmitCandidatesDto) : prog Memory (result http_exn ExternalSubmissionResult) :=
  @submit plain_services no_days (λ _, None) (λ v, v) (λ _, 0%float) crm_env "source_document:1" dto None.

Definition in_memory (runs : gmap string RunRow) (s : Memory) : Memory := with_episodic runs (mm_cands s) (mm_scenes s) s.

(** The values staged, with the name and the canonical name of their entities. *)
Definition staged_strings (field : string) (s : Memory) : list string :=
  omap (λ kv : string * StagedRow, match OMap.get field (sp_payload (sg_part kv.2)) with Some (VStr v) => Some v | _ => None end)
    (map_to_list (mm_cands s)).

Lemma submission_respects_its_fences_witness :
  let s' := (run (submit_1 (one_fact "New York" None)) acme_text).1 in
  mm_store s' = mm_store acme_text ∧ staged_strings "object" s' = ["New York"] ∧
  ∃ row, mm_runs s' !! fresh (dom (mm_runs acme_text)) = Some row ∧ rn_status row = RSucceeded.
Proof.
  cbn zeta. destruct (run (submit_1 (one_fact "New York" None)) acme_text) as [s' r] eqn:E.
  assert (Ho : staged_strings "object" (run (submit_1 (one_fact "New York" None)) acme_text).1 = ["New York"]) by (vm_compute; reflexivity).
  assert (Hr : ∃ res, r = Ok res ∧ er_runId res = fresh (dom (mm_runs acme_text))).
  { assert (H : match (run (submit_1 (one_fact "New York" None)) acme_text).2 with
                | Ok res => er_runId res = fresh (dom (mm_runs acme_text)) | Throw _ => False end) by (vm_compute; reflexivity).
    rewrite E in H. cbn in H. destruct r as [res|]; [by exists res|done]. }
  destruct Hr as (res & -> & Hid). rewrite E in Ho.
  destruct (@submission_respects_its_fences plain_services no_days _ _ _ _ _ _ _ _ _ _ E) as (H1 & _ & _ & _ & _ & (row & H2 & H3 & _) & _).
  split_and!; [exact H1|exact Ho|]. exists row. by rewrite <- Hid.
Defined.

(** A value the text does not hold is dropped; so is what another pack's vocabulary, or a
    gated predicate, would say. *)
Lemma fabricated_value_is_dropped :
  staged_strings "object" (run (submit_1 (one_fact "Paris" None)) acme_text).1 = [] ∧
  map (predicate_allowed "a") ["a__city"; "b__city"; "city"; "dob"; "billing_event"] = [true; false; true; false; false].
Proof. vm_compute. split; reflexivity. Qed.

(** The canonical name is not looked for in the text: the entity the commit resolves by it
    is one the document does not name. *)
Lemma canonical_is_not_grounded :
  staged_strings "canonical" (run (submit_1 (one_fact "New York" None)) acme_text).1 = ["Globex"] ∧
  isGroundedSpan (normalizeForGrounding "Acme is in New York.") (normalizeForGrounding "Globex") = false.
Proof. vm_compute. split; reflexivity. Qed.

(** The query's page is cut before the key's packs are looked at: behind an older run of
    another pack, a key's own work is never listed. *)
Lemma bound_key_is_starved :
  let s := in_memory {["r1" := pending_run "a" 0; "r2" := pending_run "b" 5]} acme_text in
  let listed key := match (run (listWork two_packs None (Some 1%Z) key) s).2 with Ok l => map wk_runId l | Throw _ => ["!"] end in
  listed None = ["r1"] ∧ listed (Some ["b"]) = [].
Proof. vm_compute. split; reflexivity. Qed.

Definition ignore {A} (p : prog Memory (result http_exn A)) : prog Memory bool :=
  do* r := p in Done (match r with Ok _ => true | Throw _ => false end).

Definition tick (d : Z) : prog Memory bool :=
  do* _ := exec (λ s, {| mm_store := mm_store s; mm_graph := mm_graph s; mm_turns := mm_turns s; mm_runs := mm_runs s;
                         mm_cands := mm_cands s; mm_now := mm_now s + d; mm_scenes := mm_scenes s; mm_fails := mm_fails s |}) in
  Done true.

(** The token is checked once. An indexer whose lease runs out between that check and its
    writes takes back the run: it deletes what the indexer that claimed the run after it
    has submitted, although that submission succeeded. *)
Lemma lost_claim_deletes_the_winners_work :
  let s := (run (on_candidates (claim 100 two_packs "r1" None "t1")) (in_memory {["r1" := pending_run "a" 0]} acme_text)).1 in
  let pods := run_pool [0; 0; 1; 2; 2; 3; 3; 3; 3; 3; 3; 0; 0; 0; 0]
                (s, [ignore (submit_1 (one_fact "New" (Some ("r1", "t1")))); tick 500;
                     ignore (on_candidates (claim 100 two_packs "r1" None "t2"));
                     ignore (submit_1 (one_fact "New York" (Some ("r1", "t2"))))]) in
  map (λ p, match p with Done b => b | _ => false end) pods.2 = [true; true; true; true] ∧
  staged_strings "object" pods.1 = ["New"].
Proof. vm_compute. split; reflexivity. Qed.
