(* ===== verification/ExtractionGroup.v ===== *)
(** * Which documents are read together, when, and how deep

    [documents/extraction-group.ts] and [documents/read-depth.ts]: the groups one extraction
    reads, which waiting conversations are due, how a group is shown, how its result is filed
    back under the documents it came from; how deep a captured text is read. *)

From S2P Require Import Prelude Js CandidateMerge Grounding.
From stdpp Require Import gmap sorting.
From Stdlib Require Import Ascii.
Local Open Scope string_scope.
Local Open Scope nat_scope.

Record GroupDoc := {
  gp_id : string;
  gp_text : string;
  gp_occurredAt : Z;
  gp_chunkCount : nat;
  gp_userId : option string;
  gp_circleKey : option string;
  gp_conversationId : option string;
  gp_speakerName : option string;
  gp_speakerIsUser : bool;
  gp_addresseeName : option string;
  gp_arrivedAt : option Z;
  gp_urgent : bool;
  gp_solo : bool
}.

Record GroupBudget := { bg_maxChars : nat; bg_maxDocs : nat }.

(** ** A stable sort *)

Section sorting.
Context {A : Type} (before : A → A → bool).

(** Before the first member it does not come after. *)
Fixpoint place (x : A) (l : list A) : list A :=
  match l with
  | [] => [x]
  | y :: l' => if before x y then x :: l else y :: place x l'
  end.

(** [[...l].sort(...)]: members neither of which comes first stay as they are. *)
Definition stable_sort (l : list A) : list A := foldr place [] l.
End sorting.

(** ** Groups *)

Definition RS : string := String (ascii_of_nat 30) "".

Definition scope_key (d : GroupDoc) : string :=
  default "" (gp_userId d) +:+ RS +:+ default "" (gp_circleKey d) +:+ RS +:+ default "" (gp_conversationId d).

Definition by_occurred (a b : GroupDoc) : bool := (gp_occurredAt a <=? gp_occurredAt b)%Z.

(** The lists of a map by key, in the order the keys were first met. *)
Definition push {A} (k : string) (x : A) (m : list (string * list A)) : list (string * list A) :=
  OMap.set k (app (default [] (OMap.get k m)) [x]) m.

Definition group_by {A} (key : A → string) (l : list A) : list (string * list A) := fold_left (λ m x, push (key x) x m) l [].

(** Read alone. *)
Definition alone (budget : GroupBudget) (d : GroupDoc) : bool :=
  gp_solo d || bool_decide (truthy (gp_conversationId d) = None) || (1 <? gp_chunkCount d) ||
  (bg_maxChars budget <? String.length (gp_text d)).

Record Packing := { pk_groups : list (list GroupDoc); pk_current : list GroupDoc; pk_chars : nat }.

Definition flush (p : Packing) : Packing :=
  {| pk_groups := if length (pk_current p) =? 0 then pk_groups p else app (pk_groups p) [pk_current p];
     pk_current := []; pk_chars := 0 |}.

Definition full (budget : GroupBudget) (p : Packing) (d : GroupDoc) : bool :=
  (bg_maxDocs budget <=? length (pk_current p)) || (bg_maxChars budget <? pk_chars p + String.length (gp_text d)).

Definition pack_step (budget : GroupBudget) (p : Packing) (d : GroupDoc) : Packing :=
  if alone budget d then
    let q := flush p in {| pk_groups := app (pk_groups q) [[d]]; pk_current := pk_current q; pk_chars := pk_chars q |}
  else
    let q := if full budget p d then flush p else p in
    {| pk_groups := pk_groups q; pk_current := app (pk_current q) [d]; pk_chars := pk_chars q + String.length (gp_text d) |}.

Definition pack (budget : GroupBudget) (l : list GroupDoc) : list (list GroupDoc) :=
  pk_groups (flush (fold_left (pack_step budget) l {| pk_groups := []; pk_current := []; pk_chars := 0 |})).

Definition planExtractionGroups (docs : list GroupDoc) (budget : GroupBudget) : list (list GroupDoc) :=
  flat_map (λ kv : string * list GroupDoc, pack budget kv.2) (group_by scope_key (stable_sort by_occurred docs)).

(** ** What is due *)

Record SettleRule := { st_settleMs : Z; st_maxWaitMs : Z; st_maxChars : nat }.

Definition conversation_key (d : GroupDoc) : string :=
  default "" (gp_userId d) +:+ RS +:+ default "" (gp_conversationId d).

Definition arrival (d : GroupDoc) : Z := default (gp_occurredAt d) (gp_arrivedAt d).

(** [Math.max(...l)] and [Math.min(...l)] of a list that is not empty. *)
Definition latest (l : list Z) : Z := match l with [] => 0%Z | x :: l' => fold_left Z.max l' x end.
Definition earliest (l : list Z) : Z := match l with [] => 0%Z | x :: l' => fold_left Z.min l' x end.

Definition total_chars (l : list GroupDoc) : nat := sum_list_with (λ d, String.length (gp_text d)) l.

Definition due (now : Z) (rule : SettleRule) (turns : list GroupDoc) : bool :=
  existsb gp_urgent turns || (st_settleMs rule <=? now - latest (map arrival turns))%Z ||
  (st_maxWaitMs rule <=? now - earliest (map arrival turns))%Z || (st_maxChars rule <=? total_chars turns).

(** When a conversation is due at the latest, if nothing is added to it. *)
Definition due_at (rule : SettleRule) (turns : list GroupDoc) : Z :=
  Z.min (latest (map arrival turns) + st_settleMs rule) (earliest (map arrival turns) + st_maxWaitMs rule).

Definition sooner (a : option Z) (b : Z) : option Z := Some (match a with Some x => Z.min x b | None => b end).

Definition standalone (d : GroupDoc) : bool := bool_decide (truthy (gp_conversationId d) = None).

Definition conversations (docs : list GroupDoc) : list (list GroupDoc) :=
  map snd (group_by conversation_key (List.filter (λ d, negb (standalone d)) docs)).

Definition releaseSettled (docs : list GroupDoc) (now : Z) (rule : SettleRule) : list GroupDoc * option Z :=
  fold_left (λ acc turns, if due now rule turns then (app acc.1 turns, acc.2) else (acc.1, sooner acc.2 (due_at rule turns)))
    (conversations docs) (List.filter standalone docs, None).

(** ** Showing a group *)

Record TurnHeader := { th_label : string; th_speakerName : option string; th_speakerIsUser : bool; th_addresseeName : option string }.
Record RenderedGroup := { rg_text : string; rg_turns : list TurnHeader }.

Section rendering.
(** The day of an instant ([toISOString().slice(0, 10)]) and the text of a small number. *)
Variable iso_date : Z → string.
Variable number : nat → string.

Definition middot : string := String (ascii_of_nat 183) "".
Definition line_feed : string := String (ascii_of_nat 10) "".

Definition label (i : nat) : string := "#" +:+ number (S i).

Definition turn_header (i : nat) (d : GroupDoc) : TurnHeader :=
  {| th_label := label i; th_speakerName := gp_speakerName d; th_speakerIsUser := gp_speakerIsUser d;
     th_addresseeName := gp_addresseeName d |}.

Definition turn_block (i : nat) (d : GroupDoc) : string :=
  "[" +:+ label i +:+ " " +:+ middot +:+ " " +:+ iso_date (gp_occurredAt d) +:+ " " +:+ middot +:+ " " +:+
  default "document" (gp_speakerName d) +:+ "]" +:+ line_feed +:+ trim (gp_text d).

Definition renderGroup (docs : list GroupDoc) : RenderedGroup :=
  {| rg_text := join_with (line_feed +:+ line_feed) (imap turn_block docs); rg_turns := imap turn_header docs |}.
End rendering.

(** ** Filing a result *)

(** The last text that holds the span. *)
Fixpoint last_holding (span : string) (i : nat) (texts : list string) : option nat :=
  match texts with
  | [] => None
  | t :: texts' =>
      match last_holding span (S i) texts' with
      | Some j => Some j
      | None => if isGroundedSpan t span then Some i else None
      end
  end.

Fixpoint locate (texts : list string) (spans : list (option string)) : option nat :=
  match spans with
  | [] => None
  | span :: spans' =>
      match (match span with
             | Some s => if bool_decide (trim s = "") then None else last_holding (normalizeForGrounding s) 0 texts
             | None => None
             end) with
      | Some i => Some i
      | None => locate texts spans'
      end
  end.

Definition entity_name (r : ExtractionResult) (i : nat) : option string := xe_name <$> xr_entities r !! i.

Definition fact_spans (r : ExtractionResult) (f : ExtractedFact) : list (option string) :=
  [xf_clause f; xf_valueSpan f; Some (xf_object f); entity_name r (xf_entityIndex f)].

Definition edge_spans (r : ExtractionResult) (e : ExtractedEdge) : list (option string) :=
  [xg_clause e; entity_name r (xg_toEntityIndex e); entity_name r (xg_fromEntityIndex e)].

Section split.
Variable docs : list GroupDoc.
Variable r : ExtractionResult.

Definition texts : list string := map (λ d, normalizeForGrounding (gp_text d)) docs.

(** What no text holds goes to the last document. *)
Definition fact_doc (f : ExtractedFact) : nat := default (length docs - 1) (locate texts (fact_spans r f)).

Definition edge_doc (e : ExtractedEdge) : nat := default (length docs - 1) (locate texts (edge_spans r e)).

Definition edge_ends (e : ExtractedEdge) : list nat := [xg_fromEntityIndex e; xg_toEntityIndex e].

Definition claimed_by (facts : list ExtractedFact) (edges : list ExtractedEdge) : list nat :=
  app (map xf_entityIndex facts) (flat_map edge_ends edges).

(** Entities no claim uses go where their name is. *)
Definition unclaimed_in (k : nat) : list nat :=
  List.filter (λ i, negb (bool_decide (i ∈ claimed_by (xr_facts r) (xr_edges r))) &&
                    bool_decide (locate texts [entity_name r i] = Some k)) (seq 0 (length (xr_entities r))).

Definition renumber (order : list nat) (i : nat) : nat :=
  default 0 ((list_to_map (imap (λ to from, (from, to)) order) : gmap nat nat) !! i).

Definition file_fact (order : list nat) (f : ExtractedFact) : ExtractedFact :=
  {| xf_entityIndex := renumber order (xf_entityIndex f); xf_predicate := xf_predicate f; xf_object := xf_object f;
     xf_confidence := xf_confidence f; xf_clause := xf_clause f; xf_days := xf_days f; xf_supersedes := xf_supersedes f;
     xf_cardinality := xf_cardinality f; xf_valueSpan := xf_valueSpan f; xf_entropy := xf_entropy f;
     xf_agreement := xf_agreement f |}.

Definition file_edge (order : list nat) (e : ExtractedEdge) : ExtractedEdge :=
  {| xg_fromEntityIndex := renumber order (xg_fromEntityIndex e); xg_toEntityIndex := renumber order (xg_toEntityIndex e);
     xg_kind := xg_kind e; xg_confidence := xg_confidence e; xg_clause := xg_clause e; xg_eventTime := xg_eventTime e;
     xg_endTime := xg_endTime e |}.

(** One document's part. Of an index that names no entity the code keeps the hole. *)
Record GroupPart := { gr_entities : list (option ExtractedEntity); gr_facts : list ExtractedFact; gr_edges : list ExtractedEdge }.

Definition part_of (k : nat) : GroupPart :=
  let facts := List.filter (λ f, fact_doc f =? k) (xr_facts r) in
  let edges := List.filter (λ e, edge_doc e =? k) (xr_edges r) in
  let order := merge_sort le (add_all [] (app (claimed_by facts edges) (unclaimed_in k))) in
  {| gr_entities := map (λ i, xr_entities r !! i) order; gr_facts := map (file_fact order) facts;
     gr_edges := map (file_edge order) edges |}.

Definition splitGroupResult : list GroupPart := map part_of (seq 0 (length docs)).
End split.

(** ** Depth *)

Inductive ReadDepth : Type := DRaw | DSingle | DFull.
Inductive ReadAsk : Type := AIdle | AAnswer.

#[export] Instance ReadDepth_eq_dec : EqDecision ReadDepth.
Proof. solve_decision. Defined.
#[export] Instance ReadAsk_eq_dec : EqDecision ReadAsk.
Proof. solve_decision. Defined.

(** The answers of the triage; the salience is one of its levels. *)
Record TriageStamp := {
  tg_durable : float; tg_change : float; tg_instruction : float; tg_correction : float; tg_identity : float;
  tg_state : float; tg_salience : nat
}.

Record DepthSignals := { ds_stamps : list (option TriageStamp); ds_hot : bool; ds_asked : option ReadAsk; ds_floor : float }.

Definition at_least (floor x : float) : bool := PrimFloat.leb floor x.

Definition URGENT (s : TriageStamp) : list float := [tg_change s; tg_correction s; tg_instruction s; tg_identity s].

Definition isUrgent (stamps : list (option TriageStamp)) (floor : float) : bool :=
  existsb (λ s, match s with Some t => existsb (at_least floor) (URGENT t) | None => false end) stamps.

Definition readDepth (p : DepthSignals) : ReadDepth :=
  if bool_decide (ds_asked p = Some AAnswer) || ds_hot p then DFull
  else if (length (ds_stamps p) =? 0) || existsb (λ s, match s with None => true | Some _ => false end) (ds_stamps p) then DFull
  else
    let stamps := omap id (ds_stamps p) in
    if isUrgent (ds_stamps p) (ds_floor p) then DFull
    else if existsb (λ s, 2 <=? tg_salience s) stamps then DFull
    else if existsb (λ s, at_least (ds_floor p) (tg_state s)) stamps || bool_decide (ds_asked p = Some AIdle) then DSingle
    else DRaw.

Definition PRIORITY_IDLE : Z := 1.
Definition PRIORITY_ANSWER : Z := 2.

Definition askOf (priority : Z) : option ReadAsk :=
  if (PRIORITY_ANSWER <=? priority)%Z then Some AAnswer else if (PRIORITY_IDLE <=? priority)%Z then Some AIdle else None.

(** [EXTRACTION_TRIAGE_FLOOR], when it is a number between 0 and 1. *)
Definition triageFloor (parse : string → float) (setting : option string) : float :=
  match setting with
  | Some t => let n := parse t in if is_finite n && PrimFloat.ltb 0 n && PrimFloat.ltb n 1 then n else 0.5%float
  | None => 0.5%float
  end.

(** ** The sort and the keyed lists *)

Section sort_lemmas.
Context {A : Type} (before : A → A → bool).

Lemma place_perm x l : place before x l ≡ₚ x :: l.
Proof.
  induction l as [|y l IH]; [done|]. cbn. destruct (before x y); [done|].
  rewrite IH. apply Permutation_swap.
Qed.

Lemma stable_sort_perm l : stable_sort before l ≡ₚ l.
Proof. induction l as [|x l IH]; [done|]. cbn. by rewrite place_perm, IH. Qed.

Hypothesis total : ∀ x y, before x y = false → before y x = true.
Hypothesis trans : ∀ x y z, before x y = true → before y z = true → before x z = true.

Lemma place_sorted x l :
  StronglySorted (λ a b, before a b = true) l → StronglySorted (λ a b, before a b = true) (place before x l).
Proof.
  induction 1 as [|y l Hs IH Hy]; cbn; [by repeat constructor|].
  destruct (before x y) eqn:E.
  - constructor; [by constructor|]. constructor; [done|].
    eapply Forall_impl; [exact Hy|]. intros z Hz. by eapply trans.
  - constructor; [done|]. rewrite place_perm. constructor; [by apply total|done].
Qed.

Lemma stable_sort_sorted l : StronglySorted (λ a b, before a b = true) (stable_sort before l).
Proof. induction l; cbn; [constructor|by apply place_sorted]. Qed.
End sort_lemmas.

Section group_lemmas.
Context {A : Type} (key : A → string).

Definition of_key (k : string) (l : list A) : list A := List.filter (λ x, bool_decide (key x = k)) l.

Lemma group_by_snoc l x : group_by key (app l [x]) = push (key x) x (group_by key l).
Proof. unfold group_by. by rewrite fold_left_app. Qed.

Lemma group_by_wf l : OMap.wf (group_by key l).
Proof.
  induction l as [|x l IH] using rev_ind; [constructor|]. rewrite group_by_snoc. by apply OMap.wf_set.
Qed.

Lemma of_key_sorted (before : A → A → bool) k l :
  StronglySorted (λ a b, before a b = true) l → StronglySorted (λ a b, before a b = true) (of_key k l).
Proof.
  unfold of_key. induction 1 as [|x l Hs IH Hx]; cbn; [constructor|]. case_bool_decide; [|done].
  constructor; [done|]. rewrite Forall_forall in *. intros y [Hy _]%elem_of_bfilter. auto.
Qed.

Lemma of_key_snoc k l x : of_key k (app l [x]) = app (of_key k l) (if bool_decide (key x = k) then [x] else []).
Proof. unfold of_key. rewrite List.filter_app. cbn. by case_bool_decide. Qed.

Lemma group_by_get k l :
  OMap.get k (group_by key l) = if bool_decide (of_key k l = []) then None else Some (of_key k l).
Proof.
  induction l as [|x l IH] using rev_ind; [done|].
  rewrite group_by_snoc, of_key_snoc. unfold push. rewrite OMap.get_set.
  destruct (decide (key x = k)) as [->|Hne].
  - rewrite (bool_decide_eq_true_2 (k = k)) by done. rewrite bool_decide_eq_false_2 by (by destruct (of_key k l)).
    rewrite IH. case_bool_decide as E; [by rewrite E|done].
  - rewrite (bool_decide_eq_false_2 (key x = k)) by done. by rewrite app_nil_r.
Qed.

Lemma group_by_elem k v l : (k, v) ∈ group_by key l → v = of_key k l ∧ v ≠ [].
Proof.
  intros Hin%(OMap.elem_get _ _ _ (group_by_wf l)). rewrite group_by_get in Hin.
  case_bool_decide; [done|]. by injection Hin as <-.
Qed.

Lemma group_by_concat l : concat (map snd (group_by key l)) ≡ₚ l.
Proof.
  induction l as [|x l IH] using rev_ind; [done|].
  rewrite group_by_snoc. unfold push. set (m := group_by key l) in *.
  pose proof (OMap.vals_set_perm id (key x) (app (default [] (OMap.get (key x) m)) [x]) m) as P.
  rewrite !flat_map_concat_map, !map_id in P. fold (OMap.vals m) in IH. rewrite IH in P.
  apply (Permutation_app_inv_l (default [] (OMap.get (key x) m))). unfold OMap.vals in P.
  destruct (OMap.get (key x) m) as [v|]; cbn [default app id] in P |- *; rewrite P; [|solve_Permutation].
  rewrite <- app_assoc. by rewrite (Permutation_app_comm [x] l).
Qed.
End group_lemmas.

(** ** Groups *)

Section packing.
Variable budget : GroupBudget.

(** What two turns or more in one group share. *)
Definition fits (g : list GroupDoc) : Prop :=
  2 ≤ length g → Forall (λ d, alone budget d = false) g ∧ total_chars g ≤ bg_maxChars budget ∧ length g ≤ bg_maxDocs budget.

Record packed (done : list GroupDoc) (p : Packing) : Prop := {
  pd_all : app (concat (pk_groups p)) (pk_current p) = done;
  pd_groups : Forall (λ g, g ≠ [] ∧ fits g) (pk_groups p);
  pd_current : Forall (λ d, alone budget d = false) (pk_current p);
  pd_chars : pk_chars p = total_chars (pk_current p);
  pd_fits : fits (pk_current p);
  pd_room : total_chars (pk_current p) ≤ bg_maxChars budget
}.

Lemma fits_short g : length g ≤ 1 → fits g.
Proof. unfold fits. lia. Qed.

Lemma packed_flush l p : packed l p → packed l (flush p) ∧ pk_current (flush p) = [].
Proof.
  intros [Ha Hg Hc Hn Hf Hr]. split; [|done]. unfold flush.
  constructor; cbn; [..|by apply Forall_nil|done|apply fits_short; cbn; lia|unfold total_chars; cbn; lia].
  - destruct (pk_current p) as [|d cur] eqn:E; cbn; [exact Ha|].
    rewrite concat_app. cbn. rewrite !app_nil_r. exact Ha.
  - destruct (pk_current p) as [|d cur] eqn:E; cbn; [exact Hg|]. apply Forall_app; auto.
Qed.

Lemma total_chars_snoc l d : total_chars (app l [d]) = total_chars l + String.length (gp_text d).
Proof. unfold total_chars. rewrite sum_list_with_app. cbn. lia. Qed.

Lemma packed_alone l p d : packed l p → pk_current p = [] →
  packed (app l [d]) {| pk_groups := app (pk_groups p) [[d]]; pk_current := pk_current p; pk_chars := pk_chars p |}.
Proof.
  intros [Ha Hg Hc Hn Hf Hr] E. rewrite E in *. constructor; cbn; rewrite ?E; [|..|done|done|done|done].
  - rewrite concat_app. cbn. rewrite app_nil_r in *. by rewrite Ha.
  - apply Forall_app; split; [done|]. constructor; [|constructor]. split; [done|]. by apply fits_short.
Qed.

Lemma packed_push l p d :
  packed l p → alone budget d = false →
  (pk_current p ≠ [] → length (pk_current p) < bg_maxDocs budget ∧
     pk_chars p + String.length (gp_text d) ≤ bg_maxChars budget) →
  packed (app l [d]) {| pk_groups := pk_groups p; pk_current := app (pk_current p) [d];
                        pk_chars := pk_chars p + String.length (gp_text d) |}.
Proof.
  intros [Ha Hg Hc Hn Hf Hr] Ed Hroom.
  assert (Hd : String.length (gp_text d) ≤ bg_maxChars budget).
  { unfold alone in Ed. rewrite !orb_false_iff in Ed. destruct Ed as [_ Ed]. by apply Nat.ltb_ge in Ed. }
  assert (Hcur : Forall (λ d, alone budget d = false) (app (pk_current p) [d])) by (apply Forall_app; auto).
  assert (Ht : total_chars (app (pk_current p) [d]) ≤ bg_maxChars budget).
  { rewrite total_chars_snoc. destruct (pk_current p) eqn:E; [done|]. rewrite <- Hn. by apply Hroom. }
  constructor; cbn; rewrite ?total_chars_snoc; [|done|done|lia| |by rewrite <- total_chars_snoc].
  - by rewrite app_assoc, Ha.
  - intros Hlen. rewrite length_app in *. cbn in *. split; [done|]. split; [done|].
    destruct (pk_current p) eqn:E; [cbn in *; lia|]. destruct Hroom as [? _]; [done|]. lia.
Qed.

Lemma packed_step l p d : packed l p → packed (app l [d]) (pack_step budget p d).
Proof.
  intros Hp. destruct (packed_flush l p Hp) as [Hq Eq]. unfold pack_step.
  destruct (alone budget d) eqn:Ea; [by apply packed_alone|].
  destruct (full budget p d) eqn:Ef; apply packed_push; try done.
  intros _. unfold full in Ef. rewrite orb_false_iff, Nat.leb_gt, Nat.ltb_ge in Ef. done.
Qed.

Lemma packed_fold l : packed l (fold_left (pack_step budget) l {| pk_groups := []; pk_current := []; pk_chars := 0 |}).
Proof.
  induction l as [|d l IH] using rev_ind.
  - constructor; cbn; [done|by apply Forall_nil|by apply Forall_nil|done|apply fits_short; cbn; lia|unfold total_chars; cbn; lia].
  - rewrite fold_left_app. by apply packed_step.
Qed.

Lemma pack_spec l : concat (pack budget l) = l ∧ Forall (λ g, g ≠ [] ∧ fits g) (pack budget l).
Proof.
  destruct (packed_flush _ _ (packed_fold l)) as [Hp E]. unfold pack. split; [|apply Hp].
  pose proof (pd_all _ _ Hp) as Ha. by rewrite E, app_nil_r in Ha.
Qed.
End packing.

Lemma concat_flat_map {A B} (f : A → list (list B)) l : concat (flat_map f l) = concat (map (λ x, concat (f x)) l).
Proof. induction l as [|x l IH]; cbn; [done|]. by rewrite concat_app, IH. Qed.

Lemma planned_perm docs budget : concat (planExtractionGroups docs budget) ≡ₚ docs.
Proof.
  unfold planExtractionGroups. rewrite concat_flat_map.
  rewrite (map_ext _ snd) by (intros; apply pack_spec). by rewrite group_by_concat, stable_sort_perm.
Qed.

Lemma StronglySorted_weaken {A} (R S : A → A → Prop) l : StronglySorted R l → (∀ a b, R a b → S a b) → StronglySorted S l.
Proof. intros Hl H. induction Hl; constructor; [done|]. eapply Forall_impl; eauto. Qed.

Lemma by_occurred_total x y : by_occurred x y = false → by_occurred y x = true.
Proof. unfold by_occurred. lia. Qed.
Lemma by_occurred_trans x y z : by_occurred x y = true → by_occurred y z = true → by_occurred x z = true.
Proof. unfold by_occurred. lia. Qed.

Lemma alone_false budget d :
  alone budget d = false → is_Some (truthy (gp_conversationId d)) ∧ gp_solo d = false ∧ gp_chunkCount d ≤ 1.
Proof.
  unfold alone. rewrite !orb_false_iff, Nat.ltb_ge, bool_decide_eq_false. intros [[[Hs Hc] Hn] _].
  split; [by apply not_eq_None_Some|done].
Qed.

(** Every document is read, once: the groups hold exactly the documents. Each group is a run of
    the turns of one user, circle and conversation, in the order they occurred with nothing
    left out between two of them; two documents or more are read together only when each is
    a turn of a conversation, none is marked to be read alone, none is cut into several
    chunks, and together they stay within the two bounds of the budget. *)
Theorem groups_partition_the_documents docs budget :
  concat (planExtractionGroups docs budget) ≡ₚ docs ∧
  ∀ g, g ∈ planExtractionGroups docs budget →
    g ≠ [] ∧
    (∃ k before after, List.filter (λ d, bool_decide (scope_key d = k)) (stable_sort by_occurred docs) = app before (app g after)) ∧
    StronglySorted (λ a b, gp_occurredAt a ≤ gp_occurredAt b)%Z g ∧
    (2 ≤ length g →
       (∀ d, d ∈ g → is_Some (truthy (gp_conversationId d)) ∧ gp_solo d = false ∧ gp_chunkCount d ≤ 1) ∧
       total_chars g ≤ bg_maxChars budget ∧ length g ≤ bg_maxDocs budget).
Proof.
  split; [apply planned_perm|]. intros g Hg. unfold planExtractionGroups in Hg.
  rewrite elem_of_flat_map in Hg. destruct Hg as ([k v] & Hkv & Hg). cbn [snd] in Hg.
  destruct (group_by_elem _ _ _ _ Hkv) as [-> _]. destruct (pack_spec budget (of_key scope_key k (stable_sort by_occurred docs))) as [Hc Hall].
  set (gs := pack budget _) in *. clearbody gs. rewrite Forall_forall in Hall. destruct (Hall g Hg) as [Hne Hfits]. split; [done|].
  apply list_elem_of_split in Hg as (pre & post & E). rewrite E, concat_app in Hc. cbn in Hc.
  split; [exists k, (concat pre), (concat post); symmetry; exact Hc|]. split.
  - assert (Hs := of_key_sorted scope_key by_occurred k _ (stable_sort_sorted _ by_occurred_total by_occurred_trans docs)).
    rewrite <- Hc in Hs. apply StronglySorted_app in Hs as (_ & _ & Hs).
    apply StronglySorted_app in Hs as (_ & Hs & _).
    eapply StronglySorted_weaken; [exact Hs|]. unfold by_occurred. lia.
  - intros Hlen. destruct (Hfits Hlen) as (Ha & Ht & Hl). split; [|done]. intros d Hd.
    rewrite Forall_forall in Ha. by apply (alone_false budget), Ha.
Qed.

(** ** What is due *)

Lemma fold_min_le l x : (fold_left Z.min l x ≤ x)%Z ∧ (∀ y, y ∈ l → (fold_left Z.min l x ≤ y)%Z).
Proof.
  revert x. induction l as [|z l IH]; intros x; cbn.
  - split; [lia|]. intros y Hy. by apply elem_of_nil in Hy.
  - destruct (IH (Z.min x z)) as [H1 H2]. split; [lia|]. intros y [->|Hy]%elem_of_cons; [lia|auto].
Qed.

Lemma fold_min_elem l x : fold_left Z.min l x = x ∨ fold_left Z.min l x ∈ l.
Proof.
  revert x. induction l as [|z l IH]; intros x; cbn; [by left|].
  destruct (IH (Z.min x z)) as [->|Hin]; [|right; by right].
  destruct (Z.min_spec x z) as [[_ ->]|[_ ->]]; [by left|right; left].
Qed.

Lemma earliest_le l y : y ∈ l → (earliest l ≤ y)%Z.
Proof.
  destruct l as [|x l]; cbn; [intros H; by apply elem_of_nil in H|].
  destruct (fold_min_le l x) as [H1 H2]. intros [->|Hy]%elem_of_cons; auto.
Qed.

Lemma earliest_elem l : l ≠ [] → earliest l ∈ l.
Proof. destruct l as [|x l]; [done|]. intros _. cbn. destruct (fold_min_elem l x) as [->|H]; [left|by right]. Qed.

Lemma fold_sooner l x : fold_left sooner l (Some x) = Some (fold_left Z.min l x).
Proof. revert x. induction l as [|y l IH]; intros x; cbn; [done|]. apply IH. Qed.

Section release.
Variables (rule : SettleRule) (docs : list GroupDoc).

(** The conversations still waiting. *)
Definition waiting (now : Z) : list (list GroupDoc) := List.filter (λ turns, negb (due now rule turns)) (conversations docs).

Lemma release_fold now convs acc next :
  fold_left (λ acc turns, if due now rule turns then (app acc.1 turns, acc.2) else (acc.1, sooner acc.2 (due_at rule turns)))
    convs (acc, next) =
  (app acc (concat (List.filter (due now rule) convs)),
   fold_left sooner (map (due_at rule) (List.filter (λ turns, negb (due now rule turns)) convs)) next).
Proof.
  revert acc next. induction convs as [|c convs IH]; intros acc next; cbn; [by rewrite app_nil_r|].
  destruct (due now rule c); cbn; rewrite IH; [by rewrite <- app_assoc|done].
Qed.

Lemma release_spec now :
  releaseSettled docs now rule =
  (app (List.filter standalone docs) (concat (List.filter (due now rule) (conversations docs))),
   match waiting now with [] => None | l => Some (earliest (map (due_at rule) l)) end).
Proof.
  unfold releaseSettled. rewrite release_fold. f_equal. fold (waiting now).
  destruct (waiting now) as [|c l]; [done|]. apply fold_sooner.
Qed.

Lemma filter_split_perm {A} (f : A → bool) (l : list A) : app (List.filter f l) (List.filter (λ x, negb (f x)) l) ≡ₚ l.
Proof.
  induction l as [|x l IH]; cbn; [done|]. destruct (f x); cbn; [by rewrite IH|].
  rewrite <- Permutation_middle. by rewrite IH.
Qed.

Lemma concat_perm {A} (l l' : list (list A)) : l ≡ₚ l' → concat l ≡ₚ concat l'.
Proof.
  induction 1; cbn; [done|by f_equiv| |etrans; eauto].
  rewrite !app_assoc. by rewrite (Permutation_app_comm y x).
Qed.

Lemma release_perm now : app (releaseSettled docs now rule).1 (concat (waiting now)) ≡ₚ docs.
Proof.
  rewrite release_spec. cbn. rewrite <- app_assoc, <- concat_app.
  etrans; [apply Permutation_app_head, concat_perm, filter_split_perm|].
  unfold conversations. rewrite group_by_concat. apply filter_split_perm.
Qed.

Lemma conversation_turns turns :
  turns ∈ conversations docs →
  turns ≠ [] ∧ ∃ k, ∀ d, d ∈ turns ↔ d ∈ docs ∧ standalone d = false ∧ conversation_key d = k.
Proof.
  unfold conversations. intros ([k v] & -> & Hkv)%list_elem_of_fmap.
  destruct (group_by_elem _ _ _ _ Hkv) as [-> Hne]. split; [done|]. exists k. intros d. cbn. unfold of_key.
  rewrite !elem_of_bfilter, bool_decide_eq_true, negb_true_iff. tauto.
Qed.

Lemma due_later now t turns : due now rule turns = false → due t rule turns = (due_at rule turns <=? t)%Z.
Proof.
  unfold due, due_at. intros H. rewrite !orb_false_iff in H. destruct H as [[[-> _] _] ->].
  rewrite orb_false_l, orb_false_r. apply bool_eq_iff. rewrite orb_true_iff, !Z.leb_le. lia.
Qed.

Lemma waiting_due_at now turns : due now rule turns = false → (now < due_at rule turns)%Z.
Proof. intros H. pose proof (due_later now now turns H) as E. rewrite H in E. lia. Qed.

Lemma due_not_urgent now turns d : due now rule turns = false → d ∈ turns → gp_urgent d = false.
Proof.
  unfold due. rewrite !orb_false_iff. intros [[[H _] _] _] Hd. rewrite existsb_false_In in H. auto.
Qed.

Lemma due_at_bound turns d : d ∈ turns → (due_at rule turns ≤ arrival d + st_maxWaitMs rule)%Z.
Proof.
  intros Hd. unfold due_at. pose proof (earliest_le (map arrival turns) (arrival d)) as H.
  assert (arrival d ∈ map arrival turns) by (apply list_elem_of_fmap; eauto). specialize (H H0). lia.
Qed.

Lemma elem_of_waiting now d : d ∈ concat (waiting now) ↔ ∃ turns, turns ∈ conversations docs ∧ due now rule turns = false ∧ d ∈ turns.
Proof.
  unfold waiting. rewrite list_elem_of_In, in_concat. setoid_rewrite <- list_elem_of_In.
  setoid_rewrite elem_of_bfilter. setoid_rewrite negb_true_iff. naive_solver.
Qed.
End release.

Lemma due_mono now t rule turns : (now ≤ t)%Z → due now rule turns = true → due t rule turns = true.
Proof. unfold due. rewrite !orb_true_iff, !Z.leb_le. intros. intuition lia. Qed.

Lemma filter_ext_elem {A} (f g : A → bool) (l : list A) : (∀ x, x ∈ l → f x = g x) → List.filter f l = List.filter g l.
Proof. intros H. apply List.filter_ext_in. intros x Hx. apply H. by apply list_elem_of_In. Qed.

Lemma due_is_ready rule docs t turns d :
  turns ∈ conversations docs → due t rule turns = true → d ∈ turns → d ∈ (releaseSettled docs t rule).1.
Proof.
  intros Hc Hdue Hd. rewrite release_spec. cbn. apply elem_of_app. right.
  apply list_elem_of_In, in_concat. exists turns. split; [|by apply list_elem_of_In].
  apply list_elem_of_In. by apply elem_of_bfilter.
Qed.

Lemma release_until rule docs now t :
  (now ≤ t)%Z → (∀ turns, turns ∈ waiting rule docs now → t < due_at rule turns)%Z →
  releaseSettled docs t rule = releaseSettled docs now rule.
Proof.
  intros Ht Hw. rewrite !release_spec. unfold waiting in *.
  assert (E : ∀ turns, turns ∈ conversations docs → due t rule turns = due now rule turns).
  { intros turns Hc. destruct (due now rule turns) eqn:Ed; [by eapply due_mono|].
    rewrite (due_later rule now) by done. apply Z.leb_gt, Hw. apply elem_of_bfilter. by rewrite Ed. }
  rewrite (filter_ext_elem (due t rule) (due now rule)) by done.
  by rewrite (filter_ext_elem (λ x, negb (due t rule x)) (λ x, negb (due now rule x))) by (intros; by rewrite E).
Qed.

(** [nextAt], when something is held. *)
Lemma next_is_exact rule docs now :
  waiting rule docs now ≠ [] →
  let at' := earliest (map (due_at rule) (waiting rule docs now)) in
  (now < at')%Z ∧
  (∀ t, (now ≤ t < at')%Z → releaseSettled docs t rule = releaseSettled docs now rule) ∧
  ∃ d, d ∈ concat (waiting rule docs now) ∧ d ∈ (releaseSettled docs at' rule).1.
Proof.
  intros Hne. cbn zeta. set (ends := map (due_at rule) (waiting rule docs now)).
  assert (Hends : ∀ turns, turns ∈ waiting rule docs now → (earliest ends ≤ due_at rule turns)%Z)
    by (intros; apply earliest_le, list_elem_of_fmap; eauto).
  assert (Hin : earliest ends ∈ ends) by (apply earliest_elem; unfold ends; by destruct (waiting rule docs now)).
  apply list_elem_of_fmap in Hin as (turns & E & Hin). pose proof Hin as Hin'.
  apply elem_of_bfilter in Hin' as [Hc Hw]. rewrite negb_true_iff in Hw. split; [|split].
  - rewrite E. by apply (waiting_due_at rule now).
  - intros t [Ht1 Ht2]. apply release_until; [done|]. intros turns' Ht'. specialize (Hends turns' Ht'). lia.
  - destruct (conversation_turns docs turns Hc) as [Hnt _]. destruct turns as [|d turns']; [done|].
    exists d. split; [apply elem_of_waiting; exists (d :: turns'); split; [done|split; [done|left]]|].
    eapply due_is_ready; [done| |left]. rewrite (due_later rule now) by done. apply Z.leb_le. lia.
Qed.

(** C11. What is not read yet is held back for a bounded time, and [nextAt] is exact: the documents
    released and those held are the documents given, each once; a conversation is released
    whole or held whole; whatever is held is a turn of a conversation, not urgent, that has
    waited for less than the bound, is due by [nextAt] at the latest within the bound of its
    own arrival, and is released by any later call after that bound; before [nextAt] nothing
    changes, and at [nextAt] something held becomes ready. *)
Theorem held_turns_are_released docs now rule :
  ∃ held,
    app (releaseSettled docs now rule).1 held ≡ₚ docs ∧
    (∀ a b, a ∈ held → b ∈ docs → standalone b = false → conversation_key a = conversation_key b → b ∈ held) ∧
    (∀ d, d ∈ held →
       standalone d = false ∧ gp_urgent d = false ∧ (now < arrival d + st_maxWaitMs rule)%Z ∧
       (∃ at', (releaseSettled docs now rule).2 = Some at' ∧ (at' ≤ arrival d + st_maxWaitMs rule)%Z) ∧
       ∀ t, (arrival d + st_maxWaitMs rule ≤ t)%Z → d ∈ (releaseSettled docs t rule).1) ∧
    match (releaseSettled docs now rule).2 with
    | None => held = []
    | Some at' =>
        (now < at')%Z ∧
        (∀ t, (now ≤ t < at')%Z → releaseSettled docs t rule = releaseSettled docs now rule) ∧
        ∃ d, d ∈ held ∧ d ∈ (releaseSettled docs at' rule).1
    end.
Proof.
  exists (concat (waiting rule docs now)). split; [apply release_perm|].
  assert (Hsnd : (releaseSettled docs now rule).2 =
    match waiting rule docs now with [] => None | l => Some (earliest (map (due_at rule) l)) end) by by rewrite release_spec.
  assert (Hle : ∀ turns, turns ∈ waiting rule docs now →
    ∃ at', (releaseSettled docs now rule).2 = Some at' ∧ (at' ≤ due_at rule turns)%Z).
  { intros turns Hin. exists (earliest (map (due_at rule) (waiting rule docs now))). split.
    - rewrite Hsnd. by destruct (waiting rule docs now); [apply elem_of_nil in Hin|].
    - apply earliest_le, list_elem_of_fmap. eauto. }
  split; [|split].
  - intros a b Ha Hb Hsb Hk. rewrite elem_of_waiting in Ha |- *. destruct Ha as (turns & Hc & Hw & Ha).
    exists turns. split; [done|]. split; [done|].
    destruct (conversation_turns docs turns Hc) as [_ [k Hmem]]. apply Hmem in Ha as (_ & _ & Hka).
    apply Hmem. split; [done|]. split; [done|]. congruence.
  - intros d Hd. rewrite elem_of_waiting in Hd. destruct Hd as (turns & Hc & Hw & Hd).
    destruct (conversation_turns docs turns Hc) as [_ [k Hmem]].
    pose proof (due_at_bound rule turns d Hd) as Hb. pose proof (waiting_due_at rule now turns Hw) as Hn.
    split; [by destruct (proj1 (Hmem d) Hd) as (_ & ? & _)|]. split; [by apply (due_not_urgent rule now turns)|].
    split; [lia|]. split.
    + destruct (Hle turns) as (at' & Eat & Hat); [by apply elem_of_bfilter; rewrite Hw|]. exists at'. split; [done|lia].
    + intros t Ht. eapply due_is_ready; [done| |done]. rewrite (due_later rule now) by done. apply Z.leb_le. lia.
  - rewrite Hsnd. destruct (waiting rule docs now) as [|c l] eqn:Ew; [done|]. rewrite <- Ew. apply next_is_exact. by rewrite Ew.
Qed.

(** ** Depth *)

(** A text stays unread only when nothing speaks for reading it: every document of it was judged,
    none is about a change, a correction, an instruction or who someone is, none is notable
    or states a current value, it names nothing in use, and nothing asked for it; and then it
    does stay unread. *)
Theorem raw_only_when_nothing_asks p :
  readDepth p = DRaw ↔
  ds_asked p = None ∧ ds_hot p = false ∧ ds_stamps p ≠ [] ∧
  ∀ s, s ∈ ds_stamps p → ∃ t, s = Some t ∧
    (∀ x, x ∈ [tg_change t; tg_correction t; tg_instruction t; tg_identity t; tg_state t] → PrimFloat.leb (ds_floor p) x = false) ∧
    tg_salience t < 2.
Proof.
  assert (Hq : ∀ t, existsb (at_least (ds_floor p)) (URGENT t) = false ∧ at_least (ds_floor p) (tg_state t) = false ↔
    ∀ x, x ∈ [tg_change t; tg_correction t; tg_instruction t; tg_identity t; tg_state t] → PrimFloat.leb (ds_floor p) x = false).
  { intros t. change [tg_change t; tg_correction t; tg_instruction t; tg_identity t; tg_state t] with (app (URGENT t) [tg_state t]).
    rewrite existsb_false_In. setoid_rewrite elem_of_app. setoid_rewrite list_elem_of_singleton. unfold at_least. naive_solver. }
  setoid_rewrite <- Hq. clear Hq. unfold readDepth, isUrgent. split.
  - intros H. destruct (bool_decide (ds_asked p = Some AAnswer)) eqn:E1; [done|].
    destruct (ds_hot p) eqn:E2; [done|]. cbn [orb] in H.
    destruct (length (ds_stamps p) =? 0) eqn:E3; [done|]. cbn [orb] in H.
    destruct (existsb _ (ds_stamps p)) eqn:E4 in H; [done|].
    destruct (existsb _ (ds_stamps p)) eqn:E5 in H; [done|].
    destruct (existsb _ (omap id (ds_stamps p))) eqn:E6 in H; [done|].
    destruct (existsb (λ s, at_least (ds_floor p) (tg_state s)) (omap id (ds_stamps p))) eqn:E7 in H; [done|].
    cbn [orb] in H. case_bool_decide as E8; [done|]. rewrite bool_decide_eq_false in E1.
    split; [by destruct (ds_asked p) as [[]|]|]. split; [done|]. split; [by destruct (ds_stamps p)|].
    rewrite existsb_false_In in E4, E5. rewrite existsb_false_In in E6. rewrite existsb_false_In in E7.
    intros s Hs. destruct s as [t|]; [|by specialize (E4 None Hs)]. exists t. split; [done|].
    assert (t ∈ omap id (ds_stamps p)) by (apply list_elem_of_omap; exists (Some t); done).
    split; [split; [by apply (E5 (Some t))|by apply E7]|]. by apply Nat.leb_gt, E6.
  - intros (Ha & Hh & Hne & Hall). rewrite Ha, Hh. cbn [orb].
    assert (Hom : ∀ t, t ∈ omap id (ds_stamps p) → Some t ∈ ds_stamps p).
    { intros t (s & Hs & E)%list_elem_of_omap. cbn in E. by subst s. }
    destruct (ds_stamps p) as [|s0 l0] eqn:El; [done|]. rewrite <- El in *. rewrite El at 1. cbn [length Nat.eqb orb].
    rewrite !(proj2 (existsb_false_In _ _)).
    + done.
    + intros t Ht%Hom. destruct (Hall _ Ht) as (t' & [= ->] & [_ ?] & _). done.
    + intros t Ht%Hom. destruct (Hall _ Ht) as (t' & [= ->] & _ & ?). by apply Nat.leb_gt.
    + intros s Hs. destruct (Hall s Hs) as (t & -> & [? _] & _). done.
    + intros s Hs. by destruct (Hall s Hs) as (t & -> & _).
Qed.

(** ** Filing *)

Lemma last_holding_Some span i ts j :
  last_holding span i ts = Some j →
  ∃ k t, j = i + k ∧ ts !! k = Some t ∧ isGroundedSpan t span = true.
Proof.
  revert i. induction ts as [|t ts IH]; intros i; cbn; [done|].
  destruct (last_holding span (S i) ts) as [j'|] eqn:E.
  - intros [= ->]. destruct (IH _ E) as (k & t' & -> & Hk & Hg). exists (S k), t'. split; [lia|done].
  - destruct (isGroundedSpan t span) eqn:Eg; [|done]. intros [= <-]. exists 0, t. split; [lia|done].
Qed.

Lemma last_holding_None span i ts t : last_holding span i ts = None → t ∈ ts → isGroundedSpan t span = false.
Proof.
  revert i. induction ts as [|t' ts IH]; intros i; cbn; [intros _ H; by apply elem_of_nil in H|].
  destruct (last_holding span (S i) ts) eqn:E; [done|]. destruct (isGroundedSpan t' span) eqn:Eg; [done|].
  intros _ [->|Hin]%elem_of_cons; [done|]. by eapply IH.
Qed.

Lemma locate_Some ts spans k :
  locate ts spans = Some k →
  ∃ span t, Some span ∈ spans ∧ ts !! k = Some t ∧ isGroundedSpan t (normalizeForGrounding span) = true.
Proof.
  induction spans as [|o spans IH]; cbn; [done|]. intros H.
  destruct o as [s|]; [|destruct (IH H) as (span & t & ? & ?); exists span, t; split; [by right|done]].
  case_bool_decide; [destruct (IH H) as (span & t & ? & ?); exists span, t; split; [by right|done]|].
  destruct (last_holding _ 0 ts) as [i|] eqn:E.
  - injection H as ->. destruct (last_holding_Some _ _ _ _ E) as (k' & t & -> & Hk & Hg).
    exists s, t. split; [left|done].
  - destruct (IH H) as (span & t & ? & ?); exists span, t; split; [by right|done].
Qed.

Lemma locate_None ts spans span t :
  locate ts spans = None → Some span ∈ spans → trim span ≠ "" → t ∈ ts →
  isGroundedSpan t (normalizeForGrounding span) = false.
Proof.
  induction spans as [|o spans IH]; cbn; [intros _ H; by apply elem_of_nil in H|].
  intros H [<-|Hin]%elem_of_cons Hne Ht.
  - rewrite bool_decide_eq_false_2 in H by done.
    destruct (last_holding _ 0 ts) eqn:E; [done|]. by eapply last_holding_None.
  - apply IH; try done. destruct o as [s|]; [|done]. case_bool_decide; [done|]. by destruct (last_holding _ 0 ts).
Qed.

(** A claim with the entities it points at in place of their numbers. *)
Definition fact_claim (entities : list (option ExtractedEntity)) (f : ExtractedFact) : option (option ExtractedEntity) * ExtractedFact :=
  (entities !! xf_entityIndex f, file_fact [] f).
Definition edge_claim (entities : list (option ExtractedEntity)) (e : ExtractedEdge) :
  option (option ExtractedEntity) * option (option ExtractedEntity) * ExtractedEdge :=
  (entities !! xg_fromEntityIndex e, entities !! xg_toEntityIndex e, file_edge [] e).

Lemma fst_imap (order : list nat) : (imap (λ to from, (from, to)) order).*1 = order.
Proof. rewrite fmap_imap. rewrite <- (list_fmap_id order) at 2. rewrite <- (imap_const id order). by apply imap_ext. Qed.

Lemma renumber_spec order i : NoDup order → i ∈ order → order !! renumber order i = Some i.
Proof.
  intros Hnd (j & Hj)%list_elem_of_lookup. unfold renumber.
  rewrite (elem_of_list_to_map_1 _ i j); [done|by rewrite fst_imap|].
  apply elem_of_lookup_imap. exists j, i. done.
Qed.

Lemma partition_cons {A} (f : A → nat) x (l : list A) ks :
  NoDup ks →
  flat_map (λ k, List.filter (λ y, f y =? k) (x :: l)) ks ≡ₚ
  app (if bool_decide (f x ∈ ks) then [x] else []) (flat_map (λ k, List.filter (λ y, f y =? k) l) ks).
Proof.
  induction 1 as [|k ks Hk Hnd IH]; [done|]. cbn [flat_map]. rewrite IH. cbn [List.filter].
  destruct (Nat.eqb_spec (f x) k) as [->|Hne].
  - rewrite (bool_decide_eq_false_2 (k ∈ ks)), bool_decide_eq_true_2 by (done || left). done.
  - rewrite (bool_decide_ext (f x ∈ k :: ks) (f x ∈ ks)) by (rewrite elem_of_cons; tauto). case_bool_decide; cbn; [|done].
    by rewrite <- Permutation_middle.
Qed.

Lemma partition_perm {A} (f : A → nat) n (l : list A) :
  (∀ x, x ∈ l → f x < n) → flat_map (λ k, List.filter (λ y, f y =? k) l) (seq 0 n) ≡ₚ l.
Proof.
  intros H. induction l as [|x l IH]; [by induction (seq 0 n)|].
  rewrite partition_cons by apply NoDup_seq. rewrite IH by (intros; apply H; by right).
  rewrite bool_decide_eq_true_2; [done|]. apply elem_of_seq. split; [lia|]. apply H. left.
Qed.

Lemma flat_map_map_out {A B C} (g : B → C) (h : A → list B) l : flat_map (λ x, map g (h x)) l = map g (flat_map h l).
Proof. induction l as [|x l IH]; cbn; [done|]. by rewrite map_app, IH. Qed.

Lemma flat_map_map_in {A B C} (g : A → B) (h : B → list C) l : flat_map h (map g l) = flat_map (λ x, h (g x)) l.
Proof. induction l as [|x l IH]; cbn; [done|]. by rewrite IH. Qed.

Lemma flat_map_ext_elem {A B} (f g : A → list B) l : (∀ x, x ∈ l → f x = g x) → flat_map f l = flat_map g l.
Proof.
  intros H. induction l as [|x l IH]; [done|]. cbn. rewrite H by left. f_equal. apply IH. intros. apply H. by right.
Qed.

Section filing.
Variables (docs : list GroupDoc) (r : ExtractionResult).
Hypothesis some_docs : docs ≠ [].

(** Every number of the claims names an entity. *)
Definition numbers_ok : Prop :=
  ∀ i, i ∈ claimed_by (xr_facts r) (xr_edges r) → i < length (xr_entities r).
Hypothesis numbers : numbers_ok.

Definition order_of (k : nat) : list nat :=
  merge_sort le (add_all [] (app (claimed_by (List.filter (λ f, fact_doc docs r f =? k) (xr_facts r))
    (List.filter (λ e, edge_doc docs r e =? k) (xr_edges r))) (unclaimed_in docs r k))).

Lemma part_entities k : gr_entities (part_of docs r k) = map (λ i, xr_entities r !! i) (order_of k).
Proof. done. Qed.

Lemma order_NoDup k : NoDup (order_of k).
Proof. unfold order_of. rewrite merge_sort_Permutation. apply NoDup_add_all, NoDup_nil_2. Qed.

Lemma elem_of_order k i :
  i ∈ order_of k ↔
  i ∈ claimed_by (List.filter (λ f, fact_doc docs r f =? k) (xr_facts r)) (List.filter (λ e, edge_doc docs r e =? k) (xr_edges r)) ∨
  i ∈ unclaimed_in docs r k.
Proof. unfold order_of. rewrite merge_sort_Permutation, elem_of_add_all, elem_of_app, elem_of_nil. tauto. Qed.

Lemma elem_of_claimed_by facts edges i :
  i ∈ claimed_by facts edges ↔ (∃ f, f ∈ facts ∧ i = xf_entityIndex f) ∨ (∃ e, e ∈ edges ∧ i ∈ edge_ends e).
Proof.
  unfold claimed_by. rewrite elem_of_app, list_elem_of_fmap, elem_of_flat_map. naive_solver.
Qed.

Lemma order_in_range k i : i ∈ order_of k → i < length (xr_entities r).
Proof.
  rewrite elem_of_order. intros [H|H].
  - apply numbers. rewrite elem_of_claimed_by in H |- *. setoid_rewrite elem_of_bfilter in H. naive_solver.
  - unfold unclaimed_in in H. rewrite elem_of_bfilter, elem_of_seq in H. lia.
Qed.

Lemma renumbered k i :
  i ∈ order_of k → gr_entities (part_of docs r k) !! renumber (order_of k) i = map Some (xr_entities r) !! i.
Proof.
  intros Hi. rewrite part_entities. rewrite !list_lookup_fmap, renumber_spec by (done || apply order_NoDup). cbn.
  destruct (xr_entities r !! i) eqn:E; [done|]. apply lookup_ge_None in E. apply order_in_range in Hi. lia.
Qed.

Lemma filed_fact k f :
  f ∈ xr_facts r → fact_doc docs r f = k →
  fact_claim (gr_entities (part_of docs r k)) (file_fact (order_of k) f) = fact_claim (map Some (xr_entities r)) f.
Proof.
  intros Hf Hk. unfold fact_claim. f_equal. apply renumbered. apply elem_of_order. left. apply elem_of_claimed_by. left.
  exists f. split; [|done]. apply elem_of_bfilter. by rewrite Nat.eqb_eq.
Qed.

Lemma filed_edge k e :
  e ∈ xr_edges r → edge_doc docs r e = k →
  edge_claim (gr_entities (part_of docs r k)) (file_edge (order_of k) e) = edge_claim (map Some (xr_entities r)) e.
Proof.
  intros He Hk. unfold edge_claim. cbn [file_edge xg_fromEntityIndex xg_toEntityIndex].
  assert (∀ i, i ∈ edge_ends e → i ∈ order_of k).
  { intros i Hi. apply elem_of_order. left. apply elem_of_claimed_by. right. exists e. split; [|done].
    apply elem_of_bfilter. by rewrite Nat.eqb_eq. }
  rewrite !renumbered by (apply H; unfold edge_ends; set_solver). done.
Qed.

Lemma locate_in_docs spans : default (length docs - 1) (locate (texts docs) spans) < length docs.
Proof.
  destruct docs as [|d0 ds] eqn:Ed; [done|]. rewrite <- Ed. destruct (locate (texts docs) spans) as [k|] eqn:E; cbn.
  - apply locate_Some in E as (span & t & _ & Hk%lookup_lt_Some & _). unfold texts in Hk. by rewrite length_map in Hk.
  - rewrite Ed. cbn. lia.
Qed.
End filing.

Definition holds (d : GroupDoc) (span : string) : bool := isGroundedSpan (normalizeForGrounding (gp_text d)) (normalizeForGrounding span).

Lemma filed_where_held docs spans :
  docs ≠ [] →
  let k := default (length docs - 1) (locate (texts docs) spans) in
  (∃ span d, Some span ∈ spans ∧ docs !! k = Some d ∧ holds d span = true) ∨
  (S k = length docs ∧ ∀ span d, Some span ∈ spans → trim span ≠ "" → d ∈ docs → holds d span = false).
Proof.
  intros Hne. cbn zeta. destruct (locate (texts docs) spans) as [k|] eqn:E; cbn; [left|right].
  - apply locate_Some in E as (span & t & Hs & Ht & Hg). unfold texts in Ht. rewrite list_lookup_fmap in Ht.
    destruct (docs !! k) as [d|] eqn:Ed; [|done]. injection Ht as <-. exists span, d. done.
  - split; [destruct docs; [done|cbn; lia]|]. intros span d Hs Ht Hd.
    eapply locate_None; [exact E|done|done|]. apply list_elem_of_fmap. eauto.
Qed.

(** C28. A group's result is filed whole under the documents it came from. When every number of the
    claims names an entity, the parts together hold exactly the facts and the relations of the
    result, each once and about the entities it was about, though each part numbers its own;
    no part lists an entity that is not there; and a fact goes to a document that holds its
    clause, its value, its object or the name of its entity, or, when no document of the
    group holds any of these, to the last one. *)
Theorem results_are_filed_by_their_words docs r :
  docs ≠ [] → numbers_ok r →
  flat_map (λ p, map (fact_claim (gr_entities p)) (gr_facts p)) (splitGroupResult docs r)
    ≡ₚ map (fact_claim (map Some (xr_entities r))) (xr_facts r) ∧
  flat_map (λ p, map (edge_claim (gr_entities p)) (gr_edges p)) (splitGroupResult docs r)
    ≡ₚ map (edge_claim (map Some (xr_entities r))) (xr_edges r) ∧
  (∀ p o, p ∈ splitGroupResult docs r → o ∈ gr_entities p → is_Some o) ∧
  ∀ k p f', splitGroupResult docs r !! k = Some p → f' ∈ gr_facts p →
    ∃ f, f ∈ xr_facts r ∧ fact_claim (gr_entities p) f' = fact_claim (map Some (xr_entities r)) f ∧
      ((∃ span d, Some span ∈ fact_spans r f ∧ docs !! k = Some d ∧ holds d span = true) ∨
       (S k = length docs ∧ ∀ span d, Some span ∈ fact_spans r f → trim span ≠ "" → d ∈ docs → holds d span = false)).
Proof.
  intros Hne Hnum. unfold splitGroupResult. rewrite !flat_map_map_in. repeat split.
  - rewrite <- (partition_perm (fact_doc docs r) (length docs) (xr_facts r)) at 1 by (intros; by apply locate_in_docs).
    rewrite <- flat_map_map_out. apply reflexive_eq, flat_map_ext_elem. intros k Hk.
    unfold gr_facts at 1. cbn [part_of]. rewrite map_map. apply map_ext_in. intros f Hf%list_elem_of_In.
    apply elem_of_bfilter in Hf as [Hf E%Nat.eqb_eq]. by apply filed_fact.
  - rewrite <- (partition_perm (edge_doc docs r) (length docs) (xr_edges r)) at 1 by (intros; by apply locate_in_docs).
    rewrite <- flat_map_map_out. apply reflexive_eq, flat_map_ext_elem. intros k Hk.
    unfold gr_edges at 1. cbn [part_of]. rewrite map_map. apply map_ext_in. intros e He%list_elem_of_In.
    apply elem_of_bfilter in He as [He E%Nat.eqb_eq]. by apply filed_edge.
  - intros p o (k & -> & _)%list_elem_of_fmap (i & -> & Hi)%list_elem_of_fmap.
    apply lookup_lt_is_Some. by eapply order_in_range.
  - intros k p f' Hp Hf'. rewrite list_lookup_fmap in Hp.
    destruct (seq 0 (length docs) !! k) as [k'|] eqn:Ek; [|done]. apply lookup_seq in Ek as [-> Hk]. cbn in Hp.
    injection Hp as <-. apply list_elem_of_fmap in Hf' as (f & -> & Hf).
    apply elem_of_bfilter in Hf as [Hf E%Nat.eqb_eq]. exists f. split; [done|]. split; [by apply filed_fact|].
    rewrite <- E. by apply filed_where_held.
Qed.

(** Two turns of one conversation: Ada is named by both, Bob by the second. *)
Definition sample_turn (id text : string) (at_ : Z) : GroupDoc :=
  {| gp_id := id; gp_text := text; gp_occurredAt := at_; gp_chunkCount := 1; gp_userId := Some "u"; gp_circleKey := None;
     gp_conversationId := Some "c"; gp_speakerName := None; gp_speakerIsUser := true; gp_addresseeName := None;
     gp_arrivedAt := None; gp_urgent := false; gp_solo := false |}.

Definition sample_entity (name : string) : ExtractedEntity :=
  {| xe_name := name; xe_type := "other"; xe_canonical := None; xe_known := None |}.

Definition sample_fact (i : nat) (clause object : string) : ExtractedFact :=
  {| xf_entityIndex := i; xf_predicate := "lives_in"; xf_object := object; xf_confidence := 0.9; xf_clause := Some clause;
     xf_days := {| dy_eventTime := None; dy_endTime := None; dy_expectedEnd := None |}; xf_supersedes := [];
     xf_cardinality := None; xf_valueSpan := Some object; xf_entropy := None; xf_agreement := None |}.

Definition sample_docs : list GroupDoc :=
  [sample_turn "d1" "Ada lives in Paris." 1; sample_turn "d2" "Bob moved to Rome, Ada stays." 2].

Definition sample_result : ExtractionResult :=
  {| xr_entities := [sample_entity "Ada"; sample_entity "Bob"];
     xr_facts := [sample_fact 1 "Bob moved to Rome" "Rome"; sample_fact 0 "Ada lives in Paris" "Paris"]; xr_edges := [] |}.

Lemma results_are_filed_by_their_words_witness :
  map (λ p, map (λ f, (xf_entityIndex f, xf_object f)) (gr_facts p)) (splitGroupResult sample_docs sample_result) =
    [[(0, "Paris")]; [(0, "Rome")]] ∧
  flat_map (λ p, map (fact_claim (gr_entities p)) (gr_facts p)) (splitGroupResult sample_docs sample_result)
    ≡ₚ map (fact_claim (map Some (xr_entities sample_result))) (xr_facts sample_result).
Proof.
  split; [vm_compute; reflexivity|]. apply (results_are_filed_by_their_words sample_docs sample_result); [done|].
  intros i Hi. change (length (xr_entities sample_result)) with 2.
  unfold claimed_by in Hi. cbn in Hi. rewrite !elem_of_cons, elem_of_nil in Hi. lia.
Defined.

(** An entity no claim uses goes to one document only: the last one that names it. *)
Example claimless_entity_is_filed_once :
  map (λ p, map (fmap xe_name) (gr_entities p))
    (splitGroupResult sample_docs {| xr_entities := [sample_entity "Ada"]; xr_facts := []; xr_edges := [] |}) =
  [[]; [Some "Ada"]].
Proof. vm_compute. reflexivity. Qed.

(** A number that names no entity is kept, and its place in the document's entities is empty. *)
Example number_without_an_entity_leaves_a_hole :
  map gr_entities (splitGroupResult [sample_turn "d1" "Ada lives in Paris." 1]
    {| xr_entities := []; xr_facts := [sample_fact 0 "Ada lives in Paris" "Paris"]; xr_edges := [] |}) = [[None]].
Proof. vm_compute. reflexivity. Qed.

(** Turns of one conversation are read together until the budget is full. *)
Example groups_fill_the_budget :
  map (map gp_id) (planExtractionGroups (sample_turn "d3" "Carol" 0 :: sample_docs) {| bg_maxChars := 30; bg_maxDocs := 8 |}) =
  [["d3"; "d1"]; ["d2"]].
Proof. vm_compute. reflexivity. Qed.

(** A group is shown turn by turn, each under its header. *)
Example group_is_rendered :
  rg_text (renderGroup (λ _, "2026-01-01") (λ n, if n =? 1 then "1" else "2") sample_docs) =
  "[#1 " +:+ middot +:+ " 2026-01-01 " +:+ middot +:+ " document]" +:+ line_feed +:+ "Ada lives in Paris." +:+ line_feed +:+ line_feed +:+
  "[#2 " +:+ middot +:+ " 2026-01-01 " +:+ middot +:+ " document]" +:+ line_feed +:+ "Bob moved to Rome, Ada stays.".
Proof. vm_compute. reflexivity. Qed.
