(* ===== verification/IndexerRun.v ===== *)
(** * Running an indexer over documents

    [documents/indexer-run.service.ts] with [documents/read-failure.ts]: a run is claimed in
    the ledger, its text is read, what was read is staged, the run is closed. The memory an
    extraction is read against is part of the extractor, which is an argument; so are the
    clock of the process and which statements of the datastore fail. The chunks of one
    document are read at once: the order their reads come back in is an argument as well. *)

From S2P Require Import Prelude Js Resume CandidateMerge RunLedger Names Grounding DocumentMeta DocumentText DocumentStore.
From S2P Require Import ExtractionGroup.
From stdpp Require Import gmap.
Local Open Scope string_scope.
Local Open Scope nat_scope.

(** ** Failures *)

(** An error of a read, with the status a provider gave it; an extraction that could not be stored. *)
Inductive ReadError : Type :=
| ReadFailed (status : option Z) (message : string)
| ExtractionStagingError (cause : string).

Definition error_message (e : ReadError) : string :=
  match e with ReadFailed _ m => m | ExtractionStagingError c => "staging the extraction failed: " +:+ c end.

Definition statusOf (e : ReadError) : option Z := match e with ReadFailed st _ => st | ExtractionStagingError _ => None end.

Definition providerSideFailure (e : ReadError) : bool :=
  match statusOf e with Some st => bool_decide (st ∈ [429; 401; 403]%Z) || (500 <=? st)%Z | None => false end.

Definition halvingCanHelp (e : ReadError) : bool :=
  match e with
  | ExtractionStagingError _ => false
  | ReadFailed _ m => if providerSideFailure e then false else negb (bool_decide (m = "aborted"))
  end.

Definition aborted_error : ReadError := ReadFailed None "aborted".

Definition http_message (e : http_exn) : string :=
  match e with BadRequest m | Forbidden m | NotFound m | Conflict m | TypeErr m | Internal m => m end.

(** ** Around the ledger *)

Class IndexerWorld := {
  iw_num : Z → float;
  iw_sha256 : string → string;
  iw_iso_date : Z → string;
  iw_number : nat → string;
  iw_staleMs : Z;
  iw_clock : RunKey → Z;
  iw_model : string;
  (** Whether the job is aborted when the read of a text begins. *)
  iw_aborted : string → bool;
  (** The reader: queued or not, the samples asked for, the documents the text is of, the text. *)
  iw_extract : bool → option nat → list StoredDocument → string → result ReadError ExtractionResult;
  iw_finish : list DocumentChunk → list nat;
  (** What a statement fails with: opening a run, staging a chunk of it (after the retries of
      a conflict), closing it. *)
  iw_opens : RunKey → option string;
  iw_stages : string → nat → option string;
  iw_closes : string → RunStatus → option string
}.

Section runs.
Context `{IndexerWorld}.

Definition claim_run (k : RunKey) : prog Ledger (result ReadError RunHandle) :=
  match iw_opens k with
  | Some m => Done (Throw (ReadFailed None m))
  | None =>
      do* r := createRun iw_staleMs (iw_clock k) k false in
      Done (match r with Ok h => Ok h | Throw e => Throw (ReadFailed None (http_message e)) end)
  end.

Definition close_run (runId : string) (st : RunStatus) (err : option string) (raw : bool) : prog Ledger (result ReadError unit) :=
  match iw_closes runId st with
  | Some m => Done (Throw (ReadFailed None m))
  | None => do* _ := finalizeRun runId st err raw in Done (Ok tt)
  end.

(** One INSERT, when there is anything to insert. *)
Definition stage_batch (docId runId : string) (seq : nat) (b : CandidateBatch) : prog Ledger (result ReadError InsertBatchCounts) :=
  match iw_stages runId seq with
  | Some m => if length (batch_parts iw_num b) =? 0 then Done (Ok (batch_counts b)) else Done (Throw (ReadFailed None m))
  | None => do* c := insertBatch iw_num docId runId (Z.of_nat seq) b in Done (Ok c)
  end.

(** [staged]: what cannot be stored after an extraction. *)
Definition staged {A} (p : prog Ledger (result ReadError A)) : prog Ledger (result ReadError A) :=
  do* r := p in Done (match r with Ok a => Ok a | Throw e => Throw (ExtractionStagingError (error_message e)) end).

(** ** Candidates of an extraction *)

(** Of an entity that is not there, which numbers in range rule out, the name is empty. *)
Definition candidate_entity (i : nat) (o : option ExtractedEntity) : CandidateEntity :=
  let e := default {| xe_name := ""; xe_type := ""; xe_canonical := None; xe_known := None |} o in
  {| ce_entityIndex := Z.of_nat i; ce_name := xe_name e; ce_type := xe_type e; ce_canonical := xe_canonical e;
     ce_externalId := None; ce_known := xe_known e; ce_ungrounded := None |}.

Definition candidate_fact (f : ExtractedFact) : CandidateFact :=
  {| cf_entityIndex := Z.of_nat (xf_entityIndex f); cf_predicate := xf_predicate f; cf_object := xf_object f;
     cf_confidence := xf_confidence f; cf_clause := xf_clause f; cf_days := xf_days f; cf_supersedes := xf_supersedes f;
     cf_ungrounded := None; cf_entropy := xf_entropy f; cf_agreement := xf_agreement f |}.

Definition candidate_relation (e : ExtractedEdge) : CandidateRelation :=
  {| cl_fromEntityIndex := Z.of_nat (xg_fromEntityIndex e); cl_toEntityIndex := Z.of_nat (xg_toEntityIndex e);
     cl_kind := xg_kind e; cl_confidence := xg_confidence e; cl_clause := xg_clause e; cl_eventTime := xg_eventTime e;
     cl_endTime := xg_endTime e |}.

Definition part_batch (indexerId packVersion : string) (mode : ExecutionMode) (p : GroupPart) : CandidateBatch :=
  {| cb_provenance := {| pv_indexerId := indexerId; pv_packVersion := packVersion; pv_executionMode := mode;
                         pv_model := Some iw_model; pv_sourceVersion := None |};
     cb_entities := imap candidate_entity (gr_entities p); cb_facts := map candidate_fact (gr_facts p);
     cb_relations := map candidate_relation (gr_edges p); cb_scenes := None; cb_stateDeltas := None |}.

(** A result that is not split. *)
Definition whole (x : ExtractionResult) : GroupPart :=
  {| gr_entities := map Some (xr_entities x); gr_facts := xr_facts x; gr_edges := xr_edges x |}.

(** ** One document *)

Inductive ResultStatus : Type := RsSucceeded | RsSkipped | RsFailed | RsPlanned.

(** Durations are left out. *)
Record RunStats := { rt_chunks : nat; rt_entities : nat; rt_facts : nat; rt_relations : nat; rt_depth : option ReadDepth }.

Record IndexerRunResult := {
  ir_runId : string; ir_packId : string; ir_status : ResultStatus; ir_stats : option RunStats
}.

Definition no_stats (depth : option ReadDepth) : RunStats :=
  {| rt_chunks := 0; rt_entities := 0; rt_facts := 0; rt_relations := 0; rt_depth := depth |}.

Definition add_counts (t : RunStats) (c : InsertBatchCounts) : RunStats :=
  {| rt_chunks := rt_chunks t + 1; rt_entities := rt_entities t + ic_entities c; rt_facts := rt_facts t + ic_facts c;
     rt_relations := rt_relations t + ic_relations c; rt_depth := rt_depth t |}.

Definition run_result (runId packId : string) (st : ResultStatus) (stats : option RunStats) : IndexerRunResult :=
  {| ir_runId := runId; ir_packId := packId; ir_status := st; ir_stats := stats |}.

Record IndexerRunSpec := {
  is_doc : StoredDocument; is_chunks : list DocumentChunk; is_packId : string; is_packVersion : string;
  is_mode : ExecutionMode; is_depth : option ReadDepth; is_extract : string → result ReadError ExtractionResult
}.

Definition spec_key (spec : IndexerRunSpec) : RunKey :=
  {| rk_docId := doc_record (sd_id (is_doc spec)); rk_packId := is_packId spec; rk_packVersion := is_packVersion spec |}.

Definition chunk_batch (spec : IndexerRunSpec) (x : ExtractionResult) : CandidateBatch :=
  part_batch (is_packId spec) (is_packVersion spec) (is_mode spec) (whole x).

(** What the read of a chunk comes to, before anything is staged. *)
Definition chunk_read (spec : IndexerRunSpec) (c : DocumentChunk) : result ReadError ExtractionResult :=
  if iw_aborted (ck_text c) then Throw aborted_error else is_extract spec (ck_text c).

Definition read_chunk (spec : IndexerRunSpec) (runId : string) (c : DocumentChunk) : prog Ledger (result ReadError InsertBatchCounts) :=
  match chunk_read spec c with
  | Throw e => Done (Throw e)
  | Ok x => stage_batch (doc_record (sd_id (is_doc spec))) runId (ck_seq c) (chunk_batch spec x)
  end.

(** [Promise.allSettled]: the reads in the order they come back, each under its place. *)
Fixpoint settle_chunks (spec : IndexerRunSpec) (runId : string) (order : list nat)
    (acc : gmap nat (result ReadError InsertBatchCounts)) : prog Ledger (gmap nat (result ReadError InsertBatchCounts)) :=
  match order with
  | [] => Done acc
  | i :: order' =>
      match is_chunks spec !! i with
      | Some c => do* r := read_chunk spec runId c in settle_chunks spec runId order' (<[i := r]> acc)
      | None => settle_chunks spec runId order' acc
      end
  end.

Definition outcomes (n : nat) (acc : gmap nat (result ReadError InsertBatchCounts)) : list (result ReadError InsertBatchCounts) :=
  omap (λ i, acc !! i) (seq 0 n).

Definition failure {A} (settled : list (result ReadError A)) : option ReadError := head (throws settled).

Definition fail_run (runId : string) (e : ReadError) : prog Ledger unit :=
  do* _ := close_run runId RFailed (Some (error_message e)) false in Done tt.

Definition runIndexer (spec : IndexerRunSpec) : prog Ledger (result ReadError IndexerRunResult) :=
  try* h := claim_run (spec_key spec) in
  if negb (rh_created h) then Done (Ok (run_result (rh_runId h) (is_packId spec) RsSkipped None))
  else
    do* acc := settle_chunks spec (rh_runId h) (iw_finish (is_chunks spec)) ∅ in
    let settled := outcomes (length (is_chunks spec)) acc in
    do* r := (match failure settled with
              | Some e => Done (Throw e)
              | None => close_run (rh_runId h) RSucceeded None false
              end) in
    match r with
    | Ok _ =>
        let stats := fold_left add_counts (oks settled) (no_stats (is_depth spec)) in
        Done (Ok (run_result (rh_runId h) (is_packId spec) RsSucceeded (Some stats)))
    | Throw e => do* _ := fail_run (rh_runId h) e in Done (Throw e)
    end.

(** ** The generalist *)

Definition passesOf (depth : option ReadDepth) : option nat :=
  if bool_decide (depth = Some DSingle) then Some 1 else None.

Definition general_spec (doc : StoredDocument) (chunks : list DocumentChunk) (background : bool) (depth : option ReadDepth) : IndexerRunSpec :=
  {| is_doc := doc; is_chunks := chunks; is_packId := GENERAL_INDEXER_ID; is_packVersion := GENERAL_INDEXER_VERSION;
     is_mode := Virtual; is_depth := depth;
     is_extract := λ text, iw_extract background (if background then passesOf depth else None) [doc] text |}.

Definition runGeneral (doc : StoredDocument) (chunks : list DocumentChunk) (background : bool) (depth : option ReadDepth) :
    prog Ledger (result ReadError IndexerRunResult) := runIndexer (general_spec doc chunks background depth).

Definition general_key (doc : StoredDocument) : RunKey :=
  {| rk_docId := doc_record (sd_id doc); rk_packId := GENERAL_INDEXER_ID; rk_packVersion := GENERAL_INDEXER_VERSION |}.

Definition keepRaw (doc : StoredDocument) : prog Ledger (result ReadError IndexerRunResult) :=
  try* h := claim_run (general_key doc) in
  if negb (rh_created h) then Done (Ok (run_result (rh_runId h) GENERAL_INDEXER_ID RsSkipped None))
  else
    try* _ := close_run (rh_runId h) RSkipped None true in
    Done (Ok (run_result (rh_runId h) GENERAL_INDEXER_ID RsSkipped (Some (no_stats (Some DRaw))))).

(** ** A re-read aimed at a question *)

Definition RELEARN_INDEXER_ID : string := "_relearn".

Definition with_focus (question answer : string) (doc : StoredDocument) : StoredDocument :=
  {| sd_id := sd_id doc; sd_kind := sd_kind doc; sd_contentHash := sd_contentHash doc; sd_charLen := sd_charLen doc;
     sd_chunkCount := sd_chunkCount doc; sd_hasContent := sd_hasContent doc; sd_vertical := sd_vertical doc;
     sd_recorder := sd_recorder doc; sd_occurredAt := sd_occurredAt doc; sd_status := sd_status doc;
     sd_userId := sd_userId doc; sd_circles := sd_circles doc; sd_teams := sd_teams doc;
     sd_meta := Some (OMap.set "focusAnswer" (VStr answer) (OMap.set "focusQuestion" (VStr question) (default [] (sd_meta doc)))) |}.

Definition focus_version (question : string) : string :=
  GENERAL_INDEXER_VERSION +:+ "." +:+ str_take 16 (iw_sha256 question).

Definition focused_spec (doc : StoredDocument) (text question answer : string) : IndexerRunSpec :=
  {| is_doc := doc; is_chunks := [{| ck_seq := 0; ck_text := text; ck_charStart := 0; ck_charEnd := String.length text |}];
     is_packId := RELEARN_INDEXER_ID; is_packVersion := focus_version question; is_mode := Virtual; is_depth := None;
     is_extract := λ t, iw_extract true (passesOf (Some DSingle)) [with_focus question answer doc] t |}.

Definition runFocused (doc : StoredDocument) (text question answer : string) : prog Ledger (result ReadError IndexerRunResult) :=
  runIndexer (focused_spec doc text question answer).

(** ** Several documents in one read *)

Record ClaimedRun := { cm_doc : StoredDocument; cm_runId : string }.

Definition skipped_run (runId : string) : IndexerRunResult := run_result runId GENERAL_INDEXER_ID RsSkipped None.

Fixpoint claimGroup (docs : list StoredDocument) (claimed : list ClaimedRun) (results : list IndexerRunResult) :
    prog Ledger (result ReadError (list ClaimedRun * list IndexerRunResult)) :=
  match docs with
  | [] => Done (Ok (claimed, results))
  | doc :: docs' =>
      try* h := claim_run (general_key doc) in
      if rh_created h then claimGroup docs' (app claimed [{| cm_doc := doc; cm_runId := rh_runId h |}]) results
      else claimGroup docs' claimed (app results [skipped_run (rh_runId h)])
  end.

Definition ref_pair (k : KnownEntity) : string * string := (ke_vertical k, ke_id k).

Definition groupDocOf (doc : StoredDocument) (text : string) : GroupDoc :=
  let p := participantsFromMeta (sd_meta doc) in
  {| gp_id := sd_id doc; gp_text := text; gp_occurredAt := sd_occurredAt doc; gp_chunkCount := sd_chunkCount doc;
     gp_userId := sd_userId doc;
     gp_circleKey := match sd_circles doc with Some (c :: cs) => Some (join_with "," (c :: cs)) | _ => None end;
     gp_conversationId := internalMetaString (sd_meta doc) "conversationId";
     gp_speakerName := pt_speaker p ≫= ke_name;
     gp_speakerIsUser := isUserEntityRef (ref_pair <$> pt_speaker p) (sd_userId doc);
     gp_addresseeName := pt_addressee p ≫= ke_name; gp_arrivedAt := None; gp_urgent := false; gp_solo := false |}.

(** [texts.get(doc.id) ?? ''] *)
Definition text_of (texts : gmap string string) (doc : StoredDocument) : string := default "" (texts !! sd_id doc).

Definition groupInput (claimed : list ClaimedRun) (texts : gmap string string) : list GroupDoc * RenderedGroup :=
  let groupDocs := map (λ c, groupDocOf (cm_doc c) (text_of texts (cm_doc c))) claimed in
  (groupDocs, renderGroup iw_iso_date iw_number groupDocs).

Definition group_stats (c : InsertBatchCounts) (depth : option ReadDepth) : RunStats :=
  {| rt_chunks := 1; rt_entities := ic_entities c; rt_facts := ic_facts c; rt_relations := ic_relations c; rt_depth := depth |}.

Definition member_batch (p : GroupPart) : CandidateBatch := part_batch GENERAL_INDEXER_ID GENERAL_INDEXER_VERSION Virtual p.

(** Also the runs that were closed as succeeded, which a failure leaves alone. *)
Fixpoint stage_members (members : list (ClaimedRun * GroupPart)) (depth : option ReadDepth) (finalized : list string)
    (results : list IndexerRunResult) : prog Ledger (list string * result ReadError (list IndexerRunResult)) :=
  match members with
  | [] => Done (finalized, Ok results)
  | (m, part) :: members' =>
      do* counts := staged (stage_batch (doc_record (sd_id (cm_doc m))) (cm_runId m) 0 (member_batch part)) in
      match counts with
      | Throw e => Done (finalized, Throw e)
      | Ok c =>
          do* closed := staged (close_run (cm_runId m) RSucceeded None false) in
          match closed with
          | Throw e => Done (finalized, Throw e)
          | Ok _ =>
              stage_members members' depth (app finalized [cm_runId m])
                (app results [run_result (cm_runId m) GENERAL_INDEXER_ID RsSucceeded (Some (group_stats c depth))])
          end
      end
  end.

Definition stageGroup (claimed : list ClaimedRun) (groupDocs : list GroupDoc) (x : ExtractionResult) (depth : option ReadDepth) :
    prog Ledger (list string * result ReadError (list IndexerRunResult)) :=
  stage_members (combine claimed (splitGroupResult groupDocs x)) depth [] [].

Fixpoint failRuns (runIds : list string) (e : ReadError) : prog Ledger unit :=
  match runIds with
  | [] => Done tt
  | id :: runIds' => do* _ := fail_run id e in failRuns runIds' e
  end.

(** The read of a claimed group and its staging, with the runs closed by then. *)
Definition read_group (claimed : list ClaimedRun) (texts : gmap string string) (depth : option ReadDepth) :
    prog Ledger (list string * result ReadError (list IndexerRunResult)) :=
  let input := groupInput claimed texts in
  if iw_aborted (rg_text input.2) then Done ([], Throw aborted_error)
  else match iw_extract true (passesOf depth) (map cm_doc claimed) (rg_text input.2) with
       | Throw e => Done ([], Throw e)
       | Ok x => stageGroup claimed input.1 x depth
       end.

(** A failure gives up the claimed runs that are still open. *)
Definition settle_group (claimed : list ClaimedRun) (texts : gmap string string) (depth : option ReadDepth) :
    prog Ledger (result ReadError (list IndexerRunResult)) :=
  do* r := read_group claimed texts depth in
  match r.2 with
  | Ok stagedRuns => Done (Ok stagedRuns)
  | Throw e =>
      do* _ := failRuns (List.filter (λ id, negb (bool_decide (id ∈ r.1))) (map cm_runId claimed)) e in
      Done (Throw e)
  end.

Definition runGeneralGroup (docs : list StoredDocument) (texts : gmap string string) (depth : option ReadDepth) :
    prog Ledger (result ReadError (list IndexerRunResult)) :=
  try* c := claimGroup docs [] [] in
  if length c.1 =? 0 then Done (Ok c.2)
  else try* stagedRuns := settle_group c.1 texts depth in Done (Ok (app c.2 stagedRuns)).

Definition planExternal (docId packId packVersion : string) : prog Ledger IndexerRunResult :=
  do* _ := ensureRunPending {| rk_docId := doc_record docId; rk_packId := packId; rk_packVersion := packVersion |} true in
  Done (run_result "" packId RsPlanned None).
End runs.

(** ** The ledger around one run *)

Definition run_cands (id : string) (m : gmap string StagedRow) : gmap string StagedRow :=
  filter (λ kv : string * StagedRow, sg_runId kv.2 = id) m.

(** What is staged under a run. *)
Definition parts_of (id : string) (s : Ledger) : list StagedPart :=
  map (λ kv : string * StagedRow, sg_part kv.2) (map_to_list (run_cands id (lg_cands s))).

Definition status_of (id : string) (s : Ledger) : option RunStatus := rn_status <$> lg_runs s !! id.

(** One row per slot, and every candidate belongs to a run of the ledger. *)
Record ledger_ok (s : Ledger) : Prop := {
  lk_slots : slots_ok s;
  lk_runs : ∀ i c, lg_cands s !! i = Some c → is_Some (lg_runs s !! sg_runId c)
}.

(** Other runs are untouched, with what is staged under them; slots keep their keys. *)
Record apart (ids : list string) (s s' : Ledger) : Prop := {
  ap_runs : ∀ id, id ∉ ids → lg_runs s' !! id = lg_runs s !! id;
  ap_cands : ∀ id, id ∉ ids → run_cands id (lg_cands s') = run_cands id (lg_cands s);
  ap_keys : keys_kept (lg_runs s) (lg_runs s');
  ap_now : lg_now s' = lg_now s
}.

Lemma apart_refl ids s : apart ids s s.
Proof. split; [done|done| |done]. intros i r Hr. by exists r. Qed.

Lemma apart_trans ids ids' s1 s2 s3 : apart ids s1 s2 → apart ids' s2 s3 → apart (app ids ids') s1 s3.
Proof.
  intros [R1 C1 K1 N1] [R2 C2 K2 N2]. split; [| | |congruence].
  - intros id Hid. rewrite R2, R1; set_solver.
  - intros id Hid. rewrite C2, C1; set_solver.
  - intros i r Hr. destruct (K1 i r Hr) as (r2 & H2 & E2). destruct (K2 i r2 H2) as (r3 & H3 & E3). exists r3. split; [done|congruence].
Qed.

Lemma apart_weaken ids ids' s s' : (∀ id, id ∈ ids → id ∈ ids') → apart ids s s' → apart ids' s s'.
Proof. intros Hsub [R C K N]. split; [| |done|done]; intros id Hid; [apply R|apply C]; auto. Qed.

Lemma apart_parts ids s s' id : apart ids s s' → id ∉ ids → parts_of id s' = parts_of id s ∧ status_of id s' = status_of id s.
Proof. intros [R C K N] Hid. unfold parts_of, status_of. by rewrite C, R. Qed.

Lemma run_cands_insert id rows m :
  (∀ r, r ∈ rows → sg_runId r = id) →
  let m' := fold_left (λ m r, <[fresh (dom m) := r]> m) rows m in
  (∀ id', id' ≠ id → run_cands id' m' = run_cands id' m) ∧
  map (λ kv : string * StagedRow, sg_part kv.2) (map_to_list (run_cands id m')) ≡ₚ
    app (map (λ kv : string * StagedRow, sg_part kv.2) (map_to_list (run_cands id m))) (map sg_part rows).
Proof.
  cbn zeta. revert m. induction rows as [|r rows IH]; intros m Hid; cbn; [split; [done|by rewrite app_nil_r]|].
  assert (Hf : m !! fresh (dom m) = None) by apply not_elem_of_dom, is_fresh.
  destruct (IH (<[fresh (dom m) := r]> m)) as [Ho Hp]; [intros r' Hr'; apply Hid; by right|].
  assert (Hr : sg_runId r = id) by (apply Hid; left). split.
  - intros id' Hne. rewrite Ho by done. unfold run_cands. apply map_filter_insert_not'; cbn; [congruence|].
    intros y Hy. congruence.
  - rewrite Hp. unfold run_cands at 1. rewrite map_filter_insert_True by done.
    rewrite map_to_list_insert by (apply map_lookup_filter_None; left; done). cbn. by rewrite Permutation_middle.
Qed.

Lemma run_cands_drop id id' m :
  run_cands id' (filter (λ kv : string * StagedRow, sg_runId kv.2 ≠ id) m) = if bool_decide (id' = id) then ∅ else run_cands id' m.
Proof.
  unfold run_cands. apply map_eq. intros i. case_bool_decide as E.
  - subst. rewrite lookup_empty. apply map_lookup_filter_None. right. intros x Hx. apply map_lookup_filter_Some in Hx as [_ Hx]. done.
  - apply option_eq. intros x. rewrite !map_lookup_filter_Some. cbn. naive_solver.
Qed.

Lemma find_run_is k s id r : slots_ok s → lg_runs s !! id = Some r → rn_key r = k → find_run k s = Some (id, r).
Proof.
  intros Hok Hr Hk. destruct (find_run k s) as [[id' r']|] eqn:E.
  - apply find_run_Some in E as [Hr' Hk']. assert (id' = id) as -> by (eapply Hok; [done|done|congruence]). congruence.
  - by destruct (find_run_None _ _ E id r).
Qed.

(** ** One statement at a time *)

Section laws.
Context `{IndexerWorld}.

(** The slot can be opened. *)
Definition claimable (k : RunKey) (s : Ledger) : bool :=
  match find_run k s with None => true | Some (_, r) => reopenable iw_staleMs (iw_clock k) r end.

Lemma cands_same_ok s m :
  keys_kept (lg_runs s) m → slots_ok (with_runs m s) → ledger_ok s → ledger_ok (with_runs m s).
Proof.
  intros Hk Hs [_ Hr]. split; [done|]. intros i c Hc. destruct (Hr i c Hc) as [r Hrow].
  destruct (Hk _ _ Hrow) as (r' & Hr' & _). by exists r'.
Qed.

Lemma drop_ok id s : ledger_ok s → ledger_ok (drop_candidates id s).
Proof. intros [Hs Hr]. split; [done|]. cbn. intros i c [Hc _]%map_lookup_filter_Some. eauto. Qed.

Lemma keys_kept_refl m : keys_kept m m.
Proof. intros i r Hr. by exists r. Qed.

Lemma keys_kept_insert id r r' m : m !! id = Some r → rn_key r' = rn_key r → keys_kept m (<[id := r']> m).
Proof.
  intros Hr Hk i x Hx. rewrite lookup_insert. case_decide; [subst|by exists x]. exists r'. split; [done|]. congruence.
Qed.

Lemma no_cands_of_new id s : ledger_ok s → lg_runs s !! id = None → parts_of id s = [].
Proof.
  intros [_ Hr] Hn. unfold parts_of, run_cands. rewrite (proj2 (map_empty_filter _ _)); [by rewrite map_to_list_empty|].
  intros i c Hc Hid. cbn in Hid. destruct (Hr i c Hc) as [r Hrow]. by rewrite Hid, Hn in Hrow.
Qed.

Lemma opened_new k s id l' :
  ledger_ok s → create_run k RRunning false s = (l', Some id) →
  ledger_ok l' ∧ apart [id] s l' ∧ status_of id l' = Some RRunning ∧ parts_of id l' = [] ∧
  ∃ row, lg_runs l' !! id = Some row ∧ rn_key row = k.
Proof.
  intros Hok Hc. pose proof (create_run_slots k RRunning false s (lk_slots _ Hok)) as Hs. rewrite Hc in Hs. cbn in Hs.
  unfold create_run in Hc. destruct (find_run k s) eqn:Ef; [done|]. pose proof (fresh_run s) as Hfresh. injection Hc as <- <-.
  assert (Hkeys : keys_kept (lg_runs s) (<[fresh (dom (lg_runs s)) := {| rn_key := k; rn_status := RRunning; rn_external := false;
    rn_claimToken := None; rn_createdAt := lg_now s; rn_finishedAt := None; rn_error := None; rn_raw := false;
    rn_priority := None |}]> (lg_runs s))).
  { intros i r Hr. exists r. split; [|done]. rewrite lookup_insert_ne; [done|]. intros <-. by rewrite Hfresh in Hr. }
  assert (Hok' := cands_same_ok s _ Hkeys Hs Hok). split_and!; [done|..].
  - split; [|done|done|done]. intros id Hid. cbn. apply lookup_insert_ne. set_solver.
  - unfold status_of. cbn. by rewrite lookup_insert_eq.
  - unfold parts_of. cbn. by apply (no_cands_of_new (fresh (dom (lg_runs s))) s).
  - eexists. cbn. by rewrite lookup_insert_eq.
Qed.

Lemma opened_again k s id row :
  ledger_ok s → find_run k s = Some (id, row) →
  let s' := (reopen_cas id (rn_status row) (drop_candidates id s)).1 in
  (reopen_cas id (rn_status row) (drop_candidates id s)).2 = true ∧ ledger_ok s' ∧ apart [id] s s' ∧
  status_of id s' = Some RRunning ∧ parts_of id s' = [] ∧ ∃ row', lg_runs s' !! id = Some row' ∧ rn_key row' = k.
Proof.
  intros Hok [Hrow Hk]%find_run_Some. cbn zeta. unfold reopen_cas. cbn [lg_runs drop_candidates with_cands]. rewrite Hrow.
  rewrite bool_decide_eq_true_2 by done. cbn [fst snd]. pose proof (drop_ok id s Hok) as Hd.
  assert (Hkeys : keys_kept (lg_runs (drop_candidates id s)) (<[id := reopened (lg_now (drop_candidates id s)) row]> (lg_runs (drop_candidates id s))))
    by (by apply (keys_kept_insert id row)).
  assert (Hok' : ledger_ok (with_runs (<[id := reopened (lg_now (drop_candidates id s)) row]> (lg_runs (drop_candidates id s))) (drop_candidates id s))).
  { apply cands_same_ok; [exact Hkeys| |exact Hd]. apply (slots_insert id row); [exact Hrow|done|apply Hd]. }
  split_and!; [done|exact Hok'|..].
  - split; [..|exact Hkeys|done]; intros id' Hid; cbn; [apply lookup_insert_ne; set_solver|].
    rewrite run_cands_drop, bool_decide_eq_false_2; [done|set_solver].
  - unfold status_of. cbn. by rewrite lookup_insert_eq.
  - unfold parts_of. cbn. rewrite run_cands_drop, bool_decide_eq_true_2 by done. by rewrite map_to_list_empty.
  - eexists. cbn. by rewrite lookup_insert_eq.
Qed.

Lemma claim_spec k s s' r :
  ledger_ok s → iw_opens k = None → run (claim_run k) s = (s', r) →
  ∃ h, r = Ok h ∧ rh_created h = claimable k s ∧ ledger_ok s' ∧ apart [rh_runId h] s s' ∧
    (∃ row, lg_runs s' !! rh_runId h = Some row ∧ rn_key row = k) ∧
    (if rh_created h then status_of (rh_runId h) s' = Some RRunning ∧ parts_of (rh_runId h) s' = [] else s' = s).
Proof.
  intros Hok Ho. unfold claim_run. rewrite Ho, run_bind. unfold createRun. rewrite run_bind, run_update.
  destruct (create_run k RRunning false s) as [l [id|]] eqn:Ec; cbn [fst snd run].
  - intros [= <- <-]. destruct (opened_new _ _ _ _ Hok Ec) as (Hok' & Ha & Hst & Hp & Hrow).
    unfold create_run in Ec. unfold claimable. destruct (find_run k s); [done|]. eexists. split; [done|]. by cbn.
  - unfold create_run in Ec. destruct (find_run k s) as [[id row]|] eqn:Ef; [|done]. injection Ec as <-.
    unfold claimable. rewrite run_bind, run_query. cbn [fst snd]. rewrite Ef.
    destruct (reopenable iw_staleMs (iw_clock k) row) eqn:Er.
    + rewrite run_bind, run_exec, run_bind, run_update. cbn [fst snd].
      destruct (opened_again _ _ _ _ Hok Ef) as (Hsw & Hok' & Ha & Hst & Hp & Hrow). rewrite Hsw. cbn [run].
      intros [= <- <-]. eexists. split; [done|]. by cbn.
    + cbn [run fst snd]. intros [= <- <-]. eexists. split; [done|]. cbn. apply find_run_Some in Ef. split_and!; [done|done|apply apart_refl|eauto|done].
Qed.

Lemma stage_spec docId id seq b s s' r :
  ledger_ok s → is_Some (lg_runs s !! id) → run (stage_batch docId id seq b) s = (s', r) →
  ledger_ok s' ∧ lg_runs s' = lg_runs s ∧ apart [id] s s' ∧
  match r with
  | Ok c => c = batch_counts b ∧ parts_of id s' ≡ₚ app (parts_of id s) (batch_parts iw_num b)
  | Throw _ => s' = s
  end.
Proof.
  intros Hok Hid. unfold stage_batch. destruct (iw_stages id seq) as [m|].
  - destruct (length (batch_parts iw_num b) =? 0) eqn:E; cbn [run]; intros [= <- <-].
    + apply Nat.eqb_eq, length_zero_iff_nil in E. rewrite E, app_nil_r. auto using apart_refl.
    + auto using apart_refl.
  - rewrite run_bind. unfold insertBatch. rewrite run_bind. destruct (0 <? length (batch_parts iw_num b)) eqn:E.
    + rewrite run_exec. cbn [run fst snd]. intros [= <- <-]. set (rows := map _ (batch_parts iw_num b)).
      assert (Hrows : ∀ r, r ∈ rows → sg_runId r = id) by (intros r (p & -> & _)%list_elem_of_fmap; done).
      destruct (run_cands_insert id rows (lg_cands s) Hrows) as [Ho Hp]. split; [split; [exact (lk_slots _ Hok)|]|split; [done|split; [|split; [done|]]]].
      * intros i c Hc. cbn in Hc |- *. assert (Hin : lg_cands s !! i = Some c ∨ c ∈ rows); [|destruct Hin as [Hin|Hin]].
        { by apply inserted_rows. }
        -- by apply (lk_runs _ Hok i).
        -- by rewrite (Hrows c Hin).
      * split; [done| |apply keys_kept_refl|done]. intros id' Hne. cbn. apply Ho. set_solver.
      * etrans; [exact Hp|]. apply reflexive_eq. unfold parts_of. f_equal. unfold rows.
        rewrite map_map. apply map_id.
    + cbn [run fst snd]. intros [= <- <-]. apply Nat.ltb_ge in E. destruct (batch_parts iw_num b); [|cbn in E; lia].
      rewrite app_nil_r. auto using apart_refl.
Qed.

Lemma close_spec id st err raw s s' r :
  iw_closes id st = None → run (close_run id st err raw) s = (s', r) →
  r = Ok tt ∧ lg_cands s' = lg_cands s ∧ apart [id] s s' ∧ (ledger_ok s → ledger_ok s') ∧
  status_of id s' = (λ _, st) <$> lg_runs s !! id.
Proof.
  intros Hc. unfold close_run. rewrite Hc, run_bind. unfold finalizeRun. rewrite run_exec. cbn [run fst snd]. intros [= <- <-].
  set (g := with_run_status st (Some (lg_now s)) err raw).
  assert (Hk : keys_kept (lg_runs s) (alter g id (lg_runs s))).
  { intros i x Hx. rewrite lookup_alter. case_decide; [subst; rewrite Hx; by eexists|by exists x]. }
  split_and!; [done|done| | |].
  - split; [|done|exact Hk|done]. intros id' Hne. cbn. apply lookup_alter_ne. set_solver.
  - intros Hok. apply cands_same_ok; [exact Hk| |done]. apply finalize_slots, Hok.
  - unfold status_of. cbn. rewrite lookup_alter_eq. by destruct (lg_runs s !! id).
Qed.
End laws.

(** ** Groups *)

Section groups.
Context `{IndexerWorld}.

(** Claimed, with nothing staged yet. *)
Record held (m : ClaimedRun) (s : Ledger) : Prop := {
  hd_status : status_of (cm_runId m) s = Some RRunning;
  hd_parts : parts_of (cm_runId m) s = [];
  hd_key : ∃ row, lg_runs s !! cm_runId m = Some row ∧ rn_key row = general_key (cm_doc m)
}.

Lemma held_apart ids m s s' : apart ids s s' → cm_runId m ∉ ids → held m s → held m s'.
Proof.
  intros Ha Hid [Hst Hp Hk]. destruct (apart_parts _ _ _ _ Ha Hid) as [Ep Es].
  split; [congruence|congruence|]. by rewrite (ap_runs _ _ _ Ha).
Qed.

Lemma claimable_apart k k0 id s s' row :
  ledger_ok s → ledger_ok s' → apart [id] s s' → lg_runs s' !! id = Some row → rn_key row = k0 → k ≠ k0 →
  claimable k s' = claimable k s.
Proof.
  intros [Hs _] [Hs' _] Ha Hrow Hk Hne. unfold claimable. destruct (find_run k s) as [[id' r']|] eqn:E.
  - apply find_run_Some in E as [Hr' Hk']. rewrite (find_run_is k s' id' r'); [done|done| |done].
    rewrite (ap_runs _ _ _ Ha); [done|]. intros ->%list_elem_of_singleton.
    destruct (ap_keys _ _ _ Ha _ _ Hr') as (r2 & Hr2 & Hk2). congruence.
  - destruct (find_run k s') as [[id' r']|] eqn:E'; [|done]. apply find_run_Some in E' as [Hr' Hk'].
    destruct (decide (id' = id)) as [->|Hid]; [congruence|]. rewrite (ap_runs _ _ _ Ha) in Hr' by set_solver.
    by destruct (find_run_None _ _ E id' r').
Qed.

Lemma claimed_ids_apart m ms s :
  (∃ row, lg_runs s !! cm_runId m = Some row ∧ rn_key row = general_key (cm_doc m)) →
  (∀ x, x ∈ ms → held x s) → general_key (cm_doc m) ∉ map (λ x, general_key (cm_doc x)) ms → cm_runId m ∉ map cm_runId ms.
Proof.
  intros (row & Hrow & Hk) Hall Hn (x & Ex & Hx)%list_elem_of_fmap. apply Hn, list_elem_of_fmap. exists x. split; [|done].
  destruct (hd_key _ _ (Hall x Hx)) as (row' & Hrow' & Hk'). rewrite <- Ex in Hrow'. congruence.
Qed.

Lemma map_filter_sub {A B} (f : A → B) (p : A → bool) l y : y ∈ map f (List.filter p l) → y ∈ map f l.
Proof. rewrite !list_elem_of_fmap. intros (x & -> & [Hx _]%elem_of_bfilter). eauto. Qed.

Lemma claimGroup_spec docs claimed0 results0 s s' r :
  ledger_ok s → (∀ d, d ∈ docs → iw_opens (general_key d) = None) → NoDup (map general_key docs) →
  run (claimGroup docs claimed0 results0) s = (s', r) →
  ∃ new skipped, r = Ok (app claimed0 new, app results0 skipped) ∧ ledger_ok s' ∧ apart (map cm_runId new) s s' ∧
    map cm_doc new = List.filter (λ d, claimable (general_key d) s) docs ∧
    length new + length skipped = length docs ∧ (∀ m, m ∈ new → held m s').
Proof.
  revert s claimed0 results0. induction docs as [|doc docs IH]; intros s claimed0 results0 Hok Ho Hnd; cbn [claimGroup].
  - cbn [run]. intros [= <- <-]. exists [], []. rewrite !app_nil_r. split_and!; try done; [apply apart_refl|].
    intros m Hm. by apply elem_of_nil in Hm.
  - cbn in Hnd. apply NoDup_cons in Hnd as [Hnew Hnd]. rewrite run_ebind.
    assert (Ho' : ∀ d, d ∈ docs → iw_opens (general_key d) = None) by (intros; apply Ho; by right).
    destruct (run (claim_run (general_key doc)) s) as [s1 r1] eqn:Ec. cbn [fst snd].
    destruct (claim_spec _ _ _ _ Hok (Ho doc (list_elem_of_here _ _)) Ec) as (h & -> & Hcr & Hok1 & Ha1 & (row & Hrow & Hkey) & Hh).
    cbn [List.filter]. rewrite <- Hcr. destruct (rh_created h) eqn:Eh.
    + intros Hrun. destruct (IH _ _ _ Hok1 Ho' Hnd Hrun) as (new & skipped & -> & Hok' & Ha & Hdocs & Hlen & Hheld).
      set (m := {| cm_doc := doc; cm_runId := rh_runId h |}).
      assert (Hsame : List.filter (λ d, claimable (general_key d) s1) docs = List.filter (λ d, claimable (general_key d) s) docs).
      { apply filter_ext_elem. intros d Hd. eapply claimable_apart; try done.
        intros E. apply Hnew, list_elem_of_fmap. by exists d. }
      destruct (ap_keys _ _ _ Ha _ _ Hrow) as (row' & Hrow' & Hkey').
      assert (Hid : rh_runId h ∉ map cm_runId new).
      { apply (claimed_ids_apart m new s'); [exists row'; split; [done|cbn; congruence]|done|]. cbn.
        rewrite <- (map_map cm_doc general_key), Hdocs. intros Hin%map_filter_sub. done. }
      exists (m :: new), skipped. rewrite <- app_assoc. cbn [app map length]. split_and!; [done|done| | |lia|].
      * eapply apart_weaken; [|exact (apart_trans _ _ _ _ _ Ha1 Ha)]. done.
      * by rewrite Hdocs, Hsame.
      * intros x [->|Hx]%elem_of_cons; [|by apply Hheld]. eapply held_apart; [exact Ha|done|].
        destruct Hh as [Hst Hp]. split; [done|done|]. by exists row.
    + subst s1. intros Hrun. destruct (IH _ _ _ Hok Ho' Hnd Hrun) as (new & skipped & -> & Hok' & Ha & Hdocs & Hlen & Hheld).
      exists new, (skipped_run (rh_runId h) :: skipped). rewrite <- app_assoc. cbn [app length]. split_and!; try done. lia.
Qed.

(** Stored whole, on its own run. *)
Definition stored (m : ClaimedRun * GroupPart) (s : Ledger) : Prop :=
  status_of (cm_runId m.1) s = Some RSucceeded ∧ parts_of (cm_runId m.1) s ≡ₚ batch_parts iw_num (member_batch m.2) ∧
  ∃ row, lg_runs s !! cm_runId m.1 = Some row ∧ rn_key row = general_key (cm_doc m.1).

Lemma stored_apart ids m s s' : apart ids s s' → cm_runId m.1 ∉ ids → stored m s → stored m s'.
Proof.
  intros Ha Hid (Hst & Hp & Hk). destruct (apart_parts _ _ _ _ Ha Hid) as [Ep Es].
  split; [congruence|]. rewrite Ep. split; [done|]. by rewrite (ap_runs _ _ _ Ha).
Qed.

Definition succeeded_run (depth : option ReadDepth) (m : ClaimedRun * GroupPart) : IndexerRunResult :=
  run_result (cm_runId m.1) GENERAL_INDEXER_ID RsSucceeded (Some (group_stats (batch_counts (member_batch m.2)) depth)).

Lemma stage_one m part s s1 r1 :
  ledger_ok s → held m s → run (staged (stage_batch (doc_record (sd_id (cm_doc m))) (cm_runId m) 0 (member_batch part))) s = (s1, r1) →
  ledger_ok s1 ∧ lg_runs s1 = lg_runs s ∧ apart [cm_runId m] s s1 ∧
  match r1 with
  | Ok c => c = batch_counts (member_batch part) ∧ parts_of (cm_runId m) s1 ≡ₚ batch_parts iw_num (member_batch part)
  | Throw e => s1 = s ∧ ∃ c, e = ExtractionStagingError c
  end.
Proof.
  intros Hok Hm. unfold staged. rewrite run_bind. destruct (run (stage_batch _ _ _ _) s) as [s2 r2] eqn:E. cbn [fst snd run].
  destruct (hd_key _ _ Hm) as (row & Hrow & _). intros [= <- <-].
  destruct (stage_spec _ _ _ _ _ _ _ Hok (ltac:(by eexists) : is_Some (lg_runs s !! cm_runId m)) E) as (Hok' & Hr & Ha & Hp).
  split_and!; [done..|]. destruct r2 as [c|e]; [|by eauto]. by rewrite (hd_parts _ _ Hm) in Hp.
Qed.

Lemma close_one m part s1 s2 r2 :
  ledger_ok s1 → parts_of (cm_runId m) s1 ≡ₚ batch_parts iw_num (member_batch part) →
  (∃ row, lg_runs s1 !! cm_runId m = Some row ∧ rn_key row = general_key (cm_doc m)) →
  (∀ id st, iw_closes id st = None) →
  run (staged (close_run (cm_runId m) RSucceeded None false)) s1 = (s2, r2) →
  r2 = Ok tt ∧ ledger_ok s2 ∧ apart [cm_runId m] s1 s2 ∧ stored (m, part) s2.
Proof.
  intros Hok Hp (row & Hrow & Hk) Hc. unfold staged. rewrite run_bind.
  destruct (run (close_run _ _ _ _) s1) as [s3 r3] eqn:E. cbn [fst snd run]. intros [= <- <-].
  destruct (close_spec _ _ _ _ _ _ _ (Hc _ _) E) as (-> & Hcands & Ha & Hok' & Hst).
  split; [done|split; [auto|split; [done|]]]. unfold stored. cbn [fst snd]. split; [by rewrite Hst, Hrow|]. split; [unfold parts_of; by rewrite Hcands|].
  destruct (ap_keys _ _ _ Ha _ _ Hrow) as (row' & Hrow' & Hk'). exists row'. split; [done|congruence].
Qed.

Lemma stage_members_spec ms depth fin res s s' fin' r :
  ledger_ok s → (∀ id st, iw_closes id st = None) → NoDup (map (λ m, cm_runId m.1) ms) → (∀ m, m ∈ ms → held m.1 s) →
  run (stage_members ms depth fin res) s = (s', (fin', r)) →
  ∃ done rest, ms = app done rest ∧ fin' = app fin (map (λ m, cm_runId m.1) done) ∧ ledger_ok s' ∧
    apart (map (λ m, cm_runId m.1) ms) s s' ∧ (∀ m, m ∈ done → stored m s') ∧ (∀ m, m ∈ rest → held m.1 s') ∧
    match r with
    | Ok rs => rest = [] ∧ rs = app res (map (succeeded_run depth) done)
    | Throw e => rest ≠ [] ∧ ∃ c, e = ExtractionStagingError c
    end.
Proof.
  intros Hok Hc. revert s fin res Hok. induction ms as [|[m part] ms IH]; intros s fin res Hok Hnd Hheld; cbn [stage_members].
  - cbn [run]. intros [= <- <- <-]. exists [], []. rewrite !app_nil_r. split_and!; try done; [apply apart_refl|..];
      intros m Hm; by apply elem_of_nil in Hm.
  - cbn [map fst] in Hnd. apply NoDup_cons in Hnd as [Hid Hnd]. assert (Hm : held m s) by (apply (Hheld (m, part)); left).
    rewrite run_bind. destruct (run (staged (stage_batch _ _ _ _)) s) as [s1 r1] eqn:E1. cbn [fst snd].
    destruct (stage_one _ _ _ _ _ Hok Hm E1) as (Hok1 & Hr1 & Ha1 & Hp1). destruct r1 as [c|e].
    + destruct Hp1 as [-> Hp1]. rewrite run_bind. destruct (run (staged (close_run _ _ _ _)) s1) as [s2 r2] eqn:E2. cbn [fst snd].
      destruct (close_one m part s1 s2 r2 Hok1 Hp1) as (-> & Hok2 & Ha2 & Hst2); [rewrite Hr1; apply (hd_key _ _ Hm)|done|done|].
      assert (Ha12 : apart [cm_runId m] s s2) by (eapply apart_weaken; [|exact (apart_trans _ _ _ _ _ Ha1 Ha2)]; set_solver).
      intros Hrun. assert (Hheld2 : ∀ x, x ∈ ms → held x.1 s2).
      { intros x Hx. eapply held_apart; [exact Ha12| |apply Hheld; by right].
        intros E%list_elem_of_singleton. apply Hid, list_elem_of_fmap. by exists x. }
      destruct (IH _ _ _ Hok2 Hnd Hheld2 Hrun) as (done & rest & -> & -> & Hok' & Ha & Hdone & Hrest & Hr).
      exists ((m, part) :: done), rest. rewrite <- app_assoc. cbn [app map fst]. split_and!; [done|done|done| | |done|].
      * eapply apart_weaken; [|exact (apart_trans _ _ _ _ _ Ha12 Ha)]. set_solver.
      * intros x [->|Hx]%elem_of_cons; [|by apply Hdone]. by eapply stored_apart.
      * destruct r; [|done]. destruct Hr as [-> ->]. by rewrite <- app_assoc.
    + destruct Hp1 as [-> He]. cbn [run]. intros [= <- <- <-]. exists [], ((m, part) :: ms). rewrite app_nil_r.
      split_and!; try done; [by eapply apart_weaken; [|apply (apart_refl [])]; intros ? ?%elem_of_nil|].
      intros x Hx. by apply elem_of_nil in Hx.
Qed.
End groups.

Section group_theorem.
Context `{IndexerWorld}.

Lemma fail_one id e s s' u :
  ledger_ok s → (∀ id st, iw_closes id st = None) → is_Some (lg_runs s !! id) → run (fail_run id e) s = (s', u) →
  ledger_ok s' ∧ lg_cands s' = lg_cands s ∧ apart [id] s s' ∧ status_of id s' = Some RFailed.
Proof.
  intros Hok Hc [row Hrow]. unfold fail_run. rewrite run_bind. destruct (run (close_run _ _ _ _) s) as [s1 r1] eqn:E.
  cbn [run fst snd]. intros [= <- _]. destruct (close_spec _ _ _ _ _ _ _ (Hc _ _) E) as (_ & Hcands & Ha & Hok' & Hst).
  rewrite Hst, Hrow. auto.
Qed.

Lemma failRuns_spec ids e s s' u :
  ledger_ok s → (∀ id st, iw_closes id st = None) → (∀ id, id ∈ ids → is_Some (lg_runs s !! id)) →
  run (failRuns ids e) s = (s', u) →
  ledger_ok s' ∧ lg_cands s' = lg_cands s ∧ apart ids s s' ∧ ∀ id, id ∈ ids → status_of id s' = Some RFailed.
Proof.
  intros Hok Hc. revert s Hok. induction ids as [|id ids IH]; intros s Hok Hin; cbn [failRuns].
  - cbn [run]. intros [= <- _]. split_and!; [done|done|apply apart_refl|]. intros id Hid. by apply elem_of_nil in Hid.
  - rewrite run_bind. destruct (run (fail_run id e) s) as [s1 []] eqn:E. cbn [fst snd].
    destruct (fail_one _ _ _ _ _ Hok Hc (Hin id (list_elem_of_here _ _)) E) as (Hok1 & Hc1 & Ha1 & Hst1). intros Hrun.
    destruct (IH s1 Hok1) with (2 := Hrun) as (Hok' & Hc' & Ha & Hst).
    { intros id' Hid'. destruct (Hin id' (list_elem_of_further _ _ _ Hid')) as [row Hrow]. destruct (ap_keys _ _ _ Ha1 _ _ Hrow) as (row' & Hr' & _). by exists row'. }
    split_and!; [done|congruence|exact (apart_trans _ _ _ _ _ Ha1 Ha)|].
    intros id' [->|Hid']%elem_of_cons; [|by apply Hst]. destruct (decide (id ∈ ids)) as [Hid|Hid]; [by apply Hst|].
    destruct (apart_parts _ _ _ _ Ha Hid) as [_ E2]. congruence.
Qed.

Lemma combine_fst {A B} (l : list A) (l' : list B) : length l = length l' → map fst (combine l l') = l.
Proof. revert l'. induction l as [|x l IH]; intros [|y l'] Hlen; cbn in *; try done. f_equal. apply IH. lia. Qed.

Lemma combine_lookup {A B} (l : list A) (l' : list B) k x y : combine l l' !! k = Some (x, y) ↔ l !! k = Some x ∧ l' !! k = Some y.
Proof.
  revert l' k. induction l as [|a l IH]; intros [|b l'] [|k]; cbn; naive_solver.
Qed.

(** How the [k]-th member of a claimed group is left. *)
Definition member_outcome (x : result ReadError ExtractionResult) (groupDocs : list GroupDoc) (s : Ledger) (k : nat) (m : ClaimedRun) : Prop :=
  (∃ row, lg_runs s !! cm_runId m = Some row ∧ rn_key row = general_key (cm_doc m)) ∧
  ((status_of (cm_runId m) s = Some RFailed ∧ parts_of (cm_runId m) s = []) ∨
   (status_of (cm_runId m) s = Some RSucceeded ∧ ∃ y part, x = Ok y ∧ splitGroupResult groupDocs y !! k = Some part ∧
      parts_of (cm_runId m) s ≡ₚ batch_parts iw_num (member_batch part))).

Lemma held_failed ids m s s' :
  held m s → lg_cands s' = lg_cands s → apart ids s s' → status_of (cm_runId m) s' = Some RFailed → ∀ x gd k, member_outcome x gd s' k m.
Proof.
  intros [Hst Hp (row & Hrow & Hk)] Hc Ha Hf x gd k. split.
  - destruct (ap_keys _ _ _ Ha _ _ Hrow) as (row' & Hrow' & Hk'). exists row'. split; [done|congruence].
  - left. split; [done|]. unfold parts_of in *. by rewrite Hc.
Qed.

Lemma filter_none_out (l : list string) : List.filter (λ id, negb (bool_decide (id ∈ []))) l = l.
Proof. induction l as [|x l IH]; cbn; [done|]. rewrite bool_decide_eq_false_2 by apply not_elem_of_nil. cbn. by f_equal. Qed.

(** The claimed runs are given up: none was closed before. *)
Lemma abandon claimed e s s' u :
  ledger_ok s → (∀ id st, iw_closes id st = None) → (∀ m, m ∈ claimed → held m s) → claimed ≠ [] →
  run (failRuns (List.filter (λ id, negb (bool_decide (id ∈ []))) (map cm_runId claimed)) e) s = (s', u) →
  ledger_ok s' ∧ apart (map cm_runId claimed) s s' ∧
  (∀ x gd k m, claimed !! k = Some m → member_outcome x gd s' k m) ∧
  ∃ m, m ∈ claimed ∧ status_of (cm_runId m) s' = Some RFailed.
Proof.
  intros Hok Hc Hheld Hne Hrun. rewrite filter_none_out in Hrun.
  assert (Hrows : ∀ id, id ∈ map cm_runId claimed → is_Some (lg_runs s !! id)).
  { intros id (m & -> & Hm)%list_elem_of_fmap. destruct (hd_key _ _ (Hheld m Hm)) as (row & Hrow & _). by exists row. }
  destruct (failRuns_spec _ _ _ _ _ Hok Hc Hrows Hrun) as (Hok' & Hcands & Ha & Hst).
  assert (Hf : ∀ m, m ∈ claimed → status_of (cm_runId m) s' = Some RFailed) by (intros; apply Hst, list_elem_of_fmap; eauto).
  split_and!; [done|done| |].
  - intros x gd k m Hm%list_elem_of_lookup_2. eapply held_failed; eauto.
  - destruct claimed as [|m l]; [done|]. exists m. split; [left|apply Hf; left].
Qed.

(** The claimed runs that were not closed are given up, the others stay as they are. *)
Lemma abandon_the_rest (done rest : list (ClaimedRun * GroupPart)) e s s' u :
  ledger_ok s → (∀ id st, iw_closes id st = None) → NoDup (map (λ m, cm_runId m.1) (app done rest)) →
  (∀ m, m ∈ done → stored m s) → (∀ m, m ∈ rest → held m.1 s) →
  run (failRuns (List.filter (λ id, negb (bool_decide (id ∈ map (λ m, cm_runId m.1) done))) (map (λ m, cm_runId m.1) (app done rest))) e) s = (s', u) →
  ledger_ok s' ∧ apart (map (λ m, cm_runId m.1) (app done rest)) s s' ∧ (∀ m, m ∈ done → stored m s') ∧
  ∀ m, m ∈ rest → status_of (cm_runId m.1) s' = Some RFailed ∧ ∀ x gd k, member_outcome x gd s' k m.1.
Proof.
  intros Hok Hc Hnd Hdone Hrest Hrun. rewrite map_app in Hnd. apply NoDup_app in Hnd as (_ & Hsep & _).
  set (ids := List.filter _ _) in Hrun.
  assert (Hids : ∀ id, id ∈ ids ↔ id ∈ map (λ m : ClaimedRun * GroupPart, cm_runId m.1) rest).
  { intros id. unfold ids. rewrite elem_of_bfilter, negb_true_iff, bool_decide_eq_false, map_app, elem_of_app. split; [tauto|].
    intros Hr. split; [by right|]. intros Hd. by apply (Hsep id). }
  assert (Hrows : ∀ id, id ∈ ids → is_Some (lg_runs s !! id)).
  { intros id Hid%Hids. apply list_elem_of_fmap in Hid as (m & -> & Hm). destruct (hd_key _ _ (Hrest m Hm)) as (row & Hrow & _). by exists row. }
  destruct (failRuns_spec _ _ _ _ _ Hok Hc Hrows Hrun) as (Hok' & Hcands & Ha & Hst). split_and!; [done| | |].
  - eapply apart_weaken; [|exact Ha]. intros id Hid%Hids. rewrite map_app. apply elem_of_app. by right.
  - intros m Hm. eapply stored_apart; [exact Ha| |by apply Hdone]. intros Hid%Hids. apply (Hsep (cm_runId m.1)); [|done].
    apply list_elem_of_fmap. by exists m.
  - intros m Hm. assert (Hf : status_of (cm_runId m.1) s' = Some RFailed) by (apply Hst, Hids, list_elem_of_fmap; by exists m).
    split; [done|]. intros x gd k. eapply held_failed; [by apply Hrest|done|exact Ha|done].
Qed.

Lemma stored_outcome y groupDocs k m part s :
  splitGroupResult groupDocs y !! k = Some part → stored (m, part) s → member_outcome (Ok y) groupDocs s k m.
Proof. intros Hk (Hst & Hp & Hkey). split; [done|]. right. split; [done|]. by exists y, part. Qed.

(** What is left of a claimed group once it is staged and, if that fails, given up. *)
Lemma stage_and_settle claimed groupDocs y depth s s1 s' fin r u :
  ledger_ok s → (∀ id st, iw_closes id st = None) → NoDup (map cm_runId claimed) → (∀ m, m ∈ claimed → held m s) →
  length groupDocs = length claimed →
  run (stageGroup claimed groupDocs y depth) s = (s1, (fin, r)) →
  run (match r with
       | Ok _ => Done tt
       | Throw e => failRuns (List.filter (λ id, negb (bool_decide (id ∈ fin))) (map cm_runId claimed)) e
       end) s1 = (s', u) →
  ledger_ok s' ∧ apart (map cm_runId claimed) s s' ∧
  (∀ k m, claimed !! k = Some m → member_outcome (Ok y) groupDocs s' k m) ∧
  match r with
  | Ok rs => length rs = length claimed ∧ ∀ m, m ∈ claimed → status_of (cm_runId m) s' = Some RSucceeded
  | Throw _ => ∃ m, m ∈ claimed ∧ status_of (cm_runId m) s' = Some RFailed
  end.
Proof.
  intros Hok Hc Hnd Hheld Hlen. unfold stageGroup. set (parts := splitGroupResult groupDocs y).
  assert (Hlen' : length claimed = length parts) by (unfold parts, splitGroupResult; rewrite length_map, length_seq; done).
  pose proof (combine_fst claimed parts Hlen') as Hfst. set (ms := combine claimed parts) in *.
  assert (Hms : map (λ m : ClaimedRun * GroupPart, cm_runId m.1) ms = map cm_runId claimed) by (rewrite <- Hfst, map_map; done).
  assert (Hin : ∀ k m, claimed !! k = Some m → ∃ part, (m, part) ∈ ms ∧ parts !! k = Some part).
  { intros k m Hk. destruct (lookup_lt_is_Some_2 parts k) as [part Hp]; [rewrite <- Hlen'; by eapply lookup_lt_Some|].
    exists part. split; [|done]. apply (list_elem_of_lookup_2 _ k). by apply combine_lookup. }
  assert (Hheld' : ∀ m, m ∈ ms → held m.1 s) by (intros m Hm; apply Hheld; rewrite <- Hfst; apply list_elem_of_fmap; by exists m).
  rewrite <- Hms in Hnd. intros Hrun Hrun'.
  destruct (stage_members_spec ms depth [] [] s s1 fin r Hok Hc Hnd Hheld' Hrun) as (closed & rest & Ems & -> & Hok1 & Ha1 & Hdone & Hrest & Hr).
  destruct r as [rs|e].
  - destruct Hr as [-> ->]. cbn [run] in Hrun'. injection Hrun' as <- _. rewrite app_nil_r in Ems. rewrite Hms in Ha1. split_and!; [done|done| | |].
    + intros k m Hk. destruct (Hin k m Hk) as (part & Hm & Hp). eapply stored_outcome; [exact Hp|]. apply Hdone. by rewrite <- Ems.
    + cbn. by rewrite length_map, <- Ems, <- Hfst, length_map.
    + intros m (k & Hk)%list_elem_of_lookup. destruct (Hin k m Hk) as (part & Hm & _). apply (Hdone (m, part)). by rewrite <- Ems.
  - destruct Hr as [Hne _]. rewrite <- Hms, Ems in Hrun'. cbn [app] in Hrun'.
    destruct (abandon_the_rest closed rest e s1 s' u Hok1 Hc) as (Hok' & Ha & Hd & Hf); [by rewrite <- Ems|done|done|done|].
    split_and!; [done| | |].
    + rewrite <- Ems, Hms in Ha. rewrite Hms in Ha1. eapply apart_weaken; [|exact (apart_trans _ _ _ _ _ Ha1 Ha)]. set_solver.
    + intros k m Hk. destruct (Hin k m Hk) as (part & Hm & Hp). rewrite Ems in Hm. apply elem_of_app in Hm as [Hm|Hm].
      * eapply stored_outcome; [exact Hp|by apply Hd].
      * by apply (Hf (m, part)).
    + destruct rest as [|[m part] rest]; [done|]. exists m. split; [|apply (Hf (m, part)); left].
      rewrite <- Hfst. apply list_elem_of_fmap. exists (m, part). split; [done|]. rewrite Ems. apply elem_of_app. right; left.
Qed.
End group_theorem.

Section group_read.
Context `{IndexerWorld}.

Lemma held_ids_NoDup claimed s :
  (∀ m, m ∈ claimed → held m s) → NoDup (map (λ m, general_key (cm_doc m)) claimed) → NoDup (map cm_runId claimed).
Proof.
  induction claimed as [|m l IH]; intros Hheld Hnd; cbn in *; [constructor|]. apply NoDup_cons in Hnd as [Hm Hnd].
  assert (Hl : ∀ x, x ∈ l → held x s) by (intros; apply Hheld; by right).
  constructor; [|by apply IH]. apply (claimed_ids_apart m l s); [apply (hd_key _ _ (Hheld m (list_elem_of_here _ _)))|done|done].
Qed.

Definition group_extraction (claimed : list ClaimedRun) (texts : gmap string string) (depth : option ReadDepth) : result ReadError ExtractionResult :=
  iw_extract true (passesOf depth) (map cm_doc claimed) (rg_text (groupInput claimed texts).2).

(** What is left of a claimed group. *)
Record group_left (claimed : list ClaimedRun) (texts : gmap string string) (depth : option ReadDepth)
    (ok : bool) (s s' : Ledger) : Prop := {
  gl_ok : ledger_ok s';
  gl_apart : apart (map cm_runId claimed) s s';
  gl_members : ∀ k m, claimed !! k = Some m →
    member_outcome (group_extraction claimed texts depth) (groupInput claimed texts).1 s' k m;
  gl_result : if ok then ∀ m, m ∈ claimed → status_of (cm_runId m) s' = Some RSucceeded
              else ∃ m, m ∈ claimed ∧ status_of (cm_runId m) s' = Some RFailed
}.

Lemma settle_group_spec claimed texts depth s s' r :
  ledger_ok s → (∀ id st, iw_closes id st = None) → NoDup (map cm_runId claimed) → (∀ m, m ∈ claimed → held m s) → claimed ≠ [] →
  run (settle_group claimed texts depth) s = (s', r) →
  group_left claimed texts depth (is_ok r) s s' ∧ ∀ rs, r = Ok rs → length rs = length claimed.
Proof.
  intros Hok Hc Hnd Hheld Hne. unfold settle_group, read_group. fold (group_extraction claimed texts depth).
  assert (Hgive : ∀ e, run (do* _ := failRuns (List.filter (λ id, negb (bool_decide (id ∈ []))) (map cm_runId claimed)) e in
      Done (Throw e : result ReadError (list IndexerRunResult))) s = (s', r) →
    group_left claimed texts depth (is_ok r) s s' ∧ ∀ rs, r = Ok rs → length rs = length claimed).
  { intros e. rewrite run_bind. destruct (run (failRuns _ e) s) as [s2 []] eqn:E. cbn [run fst snd]. intros [= <- <-].
    destruct (abandon _ _ _ _ _ Hok Hc Hheld Hne E) as (Hok' & Ha & Hm & Hf). split; [|done]. split; try done. intros k m Hk. by apply Hm. }
  destruct (iw_aborted _); [apply Hgive|]. destruct (group_extraction claimed texts depth) as [y|e] eqn:Ex; [|apply Hgive]. clear Hgive.
  rewrite run_bind. set (gd := (groupInput claimed texts).1). destruct (run (stageGroup claimed gd y depth) s) as [s1 [fin r1]] eqn:E1. cbn [fst snd].
  assert (Hlen : length gd = length claimed) by (unfold gd, groupInput; cbn; by rewrite length_map).
  intros Hrun. assert (E2 : run (match r1 with
       | Ok _ => Done tt
       | Throw e => failRuns (List.filter (λ id, negb (bool_decide (id ∈ fin))) (map cm_runId claimed)) e
       end) s1 = (s', tt) ∧ r = r1).
  { destruct r1 as [rs|e]; [by injection Hrun as <- <-|]. rewrite run_bind in Hrun. destruct (run (failRuns _ e) s1) as [s2 []].
    cbn in Hrun. by injection Hrun as <- <-. }
  destruct E2 as [E2 ->]. destruct (stage_and_settle _ _ _ _ _ _ _ _ _ _ Hok Hc Hnd Hheld Hlen E1 E2) as (Hok' & Ha & Hm & Hr).
  split; [split; [done|done|by rewrite Ex|]|]; destruct r1 as [rs|e]; cbn [is_ok]; try done; [apply Hr|].
  intros ? [= <-]. apply Hr.
Qed.

(** C33. A read of several documents settles what it claims. When the ledger answers, the read
    claims exactly the documents whose run could be opened, one run each, and leaves every
    other run of the ledger as it was, with what is staged under it. Each claimed run is
    closed: as succeeded, with exactly the part of the extraction filed under its document
    staged under it; or as failed, with nothing staged under it. The call returns one result
    per document when every claimed run succeeded; it throws only when one failed, and those
    closed before the failure stay succeeded. *)
Theorem group_read_settles_what_it_claims docs texts depth s s' r :
  ledger_ok s → NoDup (map general_key docs) →
  (∀ d, d ∈ docs → iw_opens (general_key d) = None) → (∀ id st, iw_closes id st = None) →
  run (runGeneralGroup docs texts depth) s = (s', r) →
  ∃ claimed,
    map cm_doc claimed = List.filter (λ d, claimable (general_key d) s) docs ∧
    ledger_ok s' ∧ apart (map cm_runId claimed) s s' ∧
    (∀ k m, claimed !! k = Some m →
       member_outcome (iw_extract true (passesOf depth) (map cm_doc claimed) (rg_text (groupInput claimed texts).2))
         (groupInput claimed texts).1 s' k m) ∧
    match r with
    | Ok results => length results = length docs ∧ ∀ m, m ∈ claimed → status_of (cm_runId m) s' = Some RSucceeded
    | Throw _ => ∃ m, m ∈ claimed ∧ status_of (cm_runId m) s' = Some RFailed
    end.
Proof.
  intros Hok Hnd Ho Hc. unfold runGeneralGroup. rewrite run_ebind.
  destruct (run (claimGroup docs [] []) s) as [s0 r0] eqn:E0. cbn [fst snd].
  destruct (claimGroup_spec _ _ _ _ _ _ Hok Ho Hnd E0) as (claimed & skipped & -> & Hok0 & Ha0 & Hdocs & Hlen & Hheld).
  cbn [app fst snd]. destruct (length claimed =? 0) eqn:El.
  { apply Nat.eqb_eq, length_zero_iff_nil in El. subst claimed. cbn [run]. intros [= <- <-]. exists []. split_and!; try done.
    intros m Hm. by apply elem_of_nil in Hm. }
  assert (Hids : NoDup (map cm_runId claimed)).
  { eapply held_ids_NoDup; [done|]. rewrite <- (map_map cm_doc general_key), Hdocs. by apply NoDup_map_bfilter. }
  rewrite run_ebind. destruct (run (settle_group claimed texts depth) s0) as [s1 r1] eqn:E1. cbn [fst snd].
  destruct (settle_group_spec _ _ _ _ _ _ Hok0 Hc Hids Hheld ltac:(by destruct claimed) E1) as [[Hok1 Ha1 Hm1 Hr1] Hn].
  intros Hrun. exists claimed. assert (Es : s1 = s' ∧ is_ok r = is_ok r1 ∧ ∀ rs, r = Ok rs → length rs = length docs).
  { destruct r1 as [rs|e]; cbn [run] in Hrun; injection Hrun as <- <-; split_and!; try done.
    intros ? [= <-]. rewrite length_app, (Hn rs eq_refl). lia. }
  destruct Es as (-> & Eok & Hlr). rewrite <- Eok in Hr1. split_and!; [done|done| |done|].
  - eapply apart_weaken; [|exact (apart_trans _ _ _ _ _ Ha0 Ha1)]. set_solver.
  - destruct r as [rs|e]; cbn [is_ok] in Hr1; [|done]. split; [by apply Hlr|done].
Qed.
End group_read.

(** ** The chunks of one document *)

Section chunks.
Context `{IndexerWorld} (spec : IndexerRunSpec) (id : string).

(** What becomes of a chunk, whenever its read comes back. *)
Definition chunk_outcome (c : DocumentChunk) : result ReadError (list StagedPart * InsertBatchCounts) :=
  match chunk_read spec c with
  | Throw e => Throw e
  | Ok x =>
      let b := chunk_batch spec x in
      match iw_stages id (ck_seq c) with
      | Some m => if length (batch_parts iw_num b) =? 0 then Ok ([], batch_counts b) else Throw (ReadFailed None m)
      | None => Ok (batch_parts iw_num b, batch_counts b)
      end
  end.

Definition chunk_parts (c : DocumentChunk) : list StagedPart := match chunk_outcome c with Ok p => p.1 | Throw _ => [] end.

Definition chunk_counts (c : DocumentChunk) : result ReadError InsertBatchCounts :=
  match chunk_outcome c with Ok p => Ok p.2 | Throw e => Throw e end.

Definition parts_at (i : nat) : list StagedPart := match is_chunks spec !! i with Some c => chunk_parts c | None => [] end.

Lemma read_chunk_spec c s s' r :
  ledger_ok s → is_Some (lg_runs s !! id) → run (read_chunk spec id c) s = (s', r) →
  r = chunk_counts c ∧ ledger_ok s' ∧ lg_runs s' = lg_runs s ∧ apart [id] s s' ∧ parts_of id s' ≡ₚ app (parts_of id s) (chunk_parts c).
Proof.
  intros Hok Hrow. unfold read_chunk, chunk_counts, chunk_parts, chunk_outcome. destruct (chunk_read spec c) as [x|e].
  2: { cbn [run]. intros [= <- <-]. rewrite app_nil_r. auto using apart_refl. }
  intros Hrun. destruct (stage_spec _ _ _ _ _ _ _ Hok Hrow Hrun) as (Hok' & Hr & Ha & Hp). cbn zeta.
  unfold stage_batch in Hrun. destruct (iw_stages id (ck_seq c)) as [m|].
  - destruct (length (batch_parts iw_num (chunk_batch spec x)) =? 0) eqn:E; cbn [run] in Hrun; injection Hrun as <- <-; rewrite app_nil_r; auto.
  - rewrite run_bind in Hrun. destruct (run (insertBatch _ _ _ _ _) s) as [s1 c1]. cbn [run fst snd] in Hrun. injection Hrun as <- <-.
    destruct Hp as [-> Hp]. auto.
Qed.

Lemma settle_chunks_spec order acc s s' acc' :
  ledger_ok s → is_Some (lg_runs s !! id) → run (settle_chunks spec id order acc) s = (s', acc') →
  ledger_ok s' ∧ lg_runs s' = lg_runs s ∧ apart [id] s s' ∧ parts_of id s' ≡ₚ app (parts_of id s) (flat_map parts_at order) ∧
  ∀ i, acc' !! i = if bool_decide (i ∈ order ∧ i < length (is_chunks spec)) then chunk_counts <$> is_chunks spec !! i else acc !! i.
Proof.
  revert acc s. induction order as [|j order IH]; intros acc s Hok Hrow; cbn [settle_chunks].
  - cbn [run flat_map]. intros [= <- <-]. rewrite app_nil_r. split_and!; [done|done|apply apart_refl|done|].
    intros i. rewrite bool_decide_eq_false_2; [done|]. intros [Hi _]. by apply elem_of_nil in Hi.
  - cbn [flat_map]. unfold parts_at at 1. destruct (is_chunks spec !! j) as [c|] eqn:Ej.
    + rewrite run_bind. destruct (run (read_chunk spec id c) s) as [s1 r1] eqn:E1. cbn [fst snd].
      destruct (read_chunk_spec _ _ _ _ Hok Hrow E1) as (-> & Hok1 & Hr1 & Ha1 & Hp1). intros Hrun.
      destruct (IH _ _ Hok1 ltac:(by rewrite Hr1) Hrun) as (Hok' & Hr & Ha & Hp & Hacc). split_and!; [done|congruence| | |].
      * eapply apart_weaken; [|exact (apart_trans _ _ _ _ _ Ha1 Ha)]. set_solver.
      * by rewrite Hp, Hp1, <- app_assoc.
      * intros i. rewrite Hacc. pose proof (lookup_lt_Some _ _ _ Ej) as Hlt. destruct (decide (i = j)) as [->|Hne].
        -- rewrite (bool_decide_eq_true_2 (j ∈ j :: order ∧ _)) by (split; [left|done]). case_bool_decide; [done|].
           by rewrite lookup_insert_eq, Ej.
        -- rewrite (bool_decide_ext (i ∈ j :: order ∧ i < length (is_chunks spec)) (i ∈ order ∧ i < length (is_chunks spec))) by (rewrite elem_of_cons; tauto).
           by rewrite lookup_insert_ne by done.
    + intros Hrun. destruct (IH _ _ Hok Hrow Hrun) as (Hok' & Hr & Ha & Hp & Hacc). split_and!; [done..|].
      intros i. rewrite Hacc. apply lookup_ge_None in Ej.
      rewrite (bool_decide_ext (i ∈ j :: order ∧ i < length (is_chunks spec)) (i ∈ order ∧ i < length (is_chunks spec))); [done|].
      rewrite elem_of_cons. split; [intros [[->|?] ?]; [lia|done]|tauto].
Qed.

Lemma omap_lookups {A B} (f : A → B) (l : list A) : omap (λ i, f <$> l !! i) (seq 0 (length l)) = map f l.
Proof.
  induction l as [|x l IH]; [done|]. cbn [length seq]. cbn. f_equal. rewrite <- fmap_S_seq.
  transitivity (omap (λ i, f <$> l !! i) (seq 0 (length l))); [|exact IH]. clear IH.
  generalize (seq 0 (length l)). intros idx. induction idx as [|i idx IH]; [done|]. cbn. by rewrite IH.
Qed.

Lemma flat_map_lookups {A B} (f : A → list B) (l : list A) :
  flat_map (λ i, match l !! i with Some x => f x | None => [] end) (seq 0 (length l)) = flat_map f l.
Proof.
  induction l as [|x l IH]; [done|]. cbn [length seq flat_map]. cbn [lookup list_lookup]. f_equal.
  rewrite <- fmap_S_seq. transitivity (flat_map (λ i, match l !! i with Some x => f x | None => [] end) (seq 0 (length l))); [|exact IH]. clear IH.
  generalize (seq 0 (length l)). intros idx. induction idx as [|i idx IH]; [done|]. cbn. by rewrite IH.
Qed.

Lemma Permutation_flat_map_same {A B} (f : A → list B) (l l' : list A) : l ≡ₚ l' → flat_map f l ≡ₚ flat_map f l'.
Proof. intros E. rewrite !flat_map_concat_map. apply concat_perm. by rewrite E. Qed.

(** All chunks, in whatever order they come back. *)
Lemma all_chunks_settle order s s' acc :
  ledger_ok s → is_Some (lg_runs s !! id) → order ≡ₚ seq 0 (length (is_chunks spec)) →
  run (settle_chunks spec id order ∅) s = (s', acc) →
  ledger_ok s' ∧ lg_runs s' = lg_runs s ∧ apart [id] s s' ∧ parts_of id s' ≡ₚ app (parts_of id s) (flat_map chunk_parts (is_chunks spec)) ∧
  outcomes (length (is_chunks spec)) acc = map chunk_counts (is_chunks spec).
Proof.
  intros Hok Hrow Hord Hrun. destruct (settle_chunks_spec _ _ _ _ _ Hok Hrow Hrun) as (Hok' & Hr & Ha & Hp & Hacc). split_and!; [done..| |].
  - rewrite Hp. rewrite (Permutation_flat_map_same parts_at _ _ Hord). apply reflexive_eq. f_equal.
    apply (flat_map_lookups chunk_parts (is_chunks spec)).
  - unfold outcomes. rewrite <- omap_lookups.
    assert (E : ∀ i, i ∈ seq 0 (length (is_chunks spec)) → acc !! i = chunk_counts <$> is_chunks spec !! i).
    { intros i Hi. rewrite Hacc, bool_decide_eq_true_2; [done|]. split; [by rewrite Hord|]. apply elem_of_seq in Hi. lia. }
    revert E. generalize (seq 0 (length (is_chunks spec))). intros idx Hin. induction idx as [|i idx IH]; [done|]. cbn.
    rewrite (Hin i) by left. destruct (chunk_counts <$> is_chunks spec !! i); cbn; rewrite IH; auto; intros; apply Hin; by right.
Qed.
End chunks.

Section document_read.
Context `{IndexerWorld}.

(** A read of one document, its chunks in whatever order they come back. A run that could not
    be opened is skipped and nothing changes. Otherwise one run is claimed and closed, no
    other run is touched, and what is staged under it is exactly what the chunks that were
    read and stored hold. It is closed as succeeded exactly when every chunk was; the counts
    then add up all chunks. When a chunk fails the run fails with the error of the first of
    them in the order of the text, and what the other chunks staged stays under it. *)
Theorem document_read_settles_its_run spec s s' r :
  ledger_ok s → iw_opens (spec_key spec) = None → (∀ id st, iw_closes id st = None) →
  iw_finish (is_chunks spec) ≡ₚ seq 0 (length (is_chunks spec)) →
  run (runIndexer spec) s = (s', r) →
  if claimable (spec_key spec) s then
    ∃ id, (∃ row, lg_runs s' !! id = Some row ∧ rn_key row = spec_key spec) ∧ ledger_ok s' ∧ apart [id] s s' ∧
      parts_of id s' ≡ₚ flat_map (chunk_parts spec id) (is_chunks spec) ∧
      match failure (map (chunk_counts spec id) (is_chunks spec)) with
      | None => status_of id s' = Some RSucceeded ∧
          r = Ok (run_result id (is_packId spec) RsSucceeded
                   (Some (fold_left add_counts (oks (map (chunk_counts spec id) (is_chunks spec))) (no_stats (is_depth spec)))))
      | Some e => status_of id s' = Some RFailed ∧ r = Throw e
      end
  else s' = s ∧ ∃ id, r = Ok (run_result id (is_packId spec) RsSkipped None).
Proof.
  intros Hok Ho Hc Hord. unfold runIndexer. rewrite run_ebind.
  destruct (run (claim_run (spec_key spec)) s) as [s1 r1] eqn:E1. cbn [fst snd].
  destruct (claim_spec _ _ _ _ Hok Ho E1) as (h & -> & Hcr & Hok1 & Ha1 & (row & Hrow & Hkey) & Hh). rewrite <- Hcr.
  destruct (rh_created h); cbn [negb]; [|subst s1; cbn [run]; intros [= <- <-]; by eauto]. destruct Hh as [Hst1 Hp1].
  set (id := rh_runId h) in *. rewrite run_bind. destruct (run (settle_chunks spec id _ ∅) s1) as [s2 acc] eqn:E2. cbn [fst snd].
  destruct (all_chunks_settle spec id _ _ _ _ Hok1 ltac:(by eexists) Hord E2) as (Hok2 & Hr2 & Ha2 & Hp2 & ->). rewrite Hp1 in Hp2. cbn [app] in Hp2.
  assert (Hclose : ∀ st err s3 x, run (close_run id st err false) s2 = (s3, x) →
    x = Ok tt ∧ (∃ row, lg_runs s3 !! id = Some row ∧ rn_key row = spec_key spec) ∧ ledger_ok s3 ∧ apart [id] s s3 ∧
    parts_of id s3 ≡ₚ flat_map (chunk_parts spec id) (is_chunks spec) ∧ status_of id s3 = Some st).
  { intros st err s3 x E3. destruct (close_spec _ _ _ _ _ _ _ (Hc _ _) E3) as (-> & Hcands & Ha3 & Hok3 & Hst3).
    assert (Ha : apart [id] s s3).
    { eapply apart_weaken; [|exact (apart_trans _ _ _ _ _ Ha1 (apart_trans _ _ _ _ _ Ha2 Ha3))]. set_solver. }
    rewrite <- Hr2 in Hrow. destruct (ap_keys _ _ _ Ha3 _ _ Hrow) as (row' & Hrow' & Hkey').
    split; [done|]. split; [exists row'; split; [done|congruence]|]. split; [auto|]. split; [done|]. split; [|by rewrite Hst3, Hrow].
    unfold parts_of in *. by rewrite Hcands. }
  destruct (failure (map (chunk_counts spec id) (is_chunks spec))) as [e|] eqn:Ef.
  - rewrite run_bind. cbn [run fst snd]. rewrite run_bind. unfold fail_run. rewrite run_bind.
    destruct (run (close_run id RFailed _ false) s2) as [s3 x] eqn:E3. cbn [run fst snd]. intros [= <- <-].
    apply Hclose in E3 as (_ & Hrow' & Hok3 & Ha & Hp & Hst). exists id. rewrite Ef. by split_and!.
  - rewrite run_bind. destruct (run (close_run id RSucceeded None false) s2) as [s3 x] eqn:E3. cbn [fst snd].
    apply Hclose in E3 as (-> & Hrow' & Hok3 & Ha & Hp & Hst). cbn [run]. intros [= <- <-]. exists id. rewrite Ef. by split_and!.
Qed.
End document_read.

(** ** Kept raw, planned *)

Section small.
Context `{IndexerWorld}.

(** A document kept raw is left to a later promotion: its run is closed as skipped with the
    mark a promotion looks for, and nothing is staged under it. *)
Lemma kept_raw_can_be_promoted doc s s' r :
  ledger_ok s → iw_opens (general_key doc) = None → (∀ id st, iw_closes id st = None) → claimable (general_key doc) s = true →
  run (keepRaw doc) s = (s', r) →
  ∃ id row, lg_runs s' !! id = Some row ∧ rn_key row = general_key doc ∧ kept_raw row = true ∧ parts_of id s' = [] ∧
    apart [id] s s' ∧ r = Ok (run_result id GENERAL_INDEXER_ID RsSkipped (Some (no_stats (Some DRaw)))).
Proof.
  intros Hok Ho Hc Hcl. unfold keepRaw. rewrite run_ebind. destruct (run (claim_run _) s) as [s1 r1] eqn:E1. cbn [fst snd].
  destruct (claim_spec _ _ _ _ Hok Ho E1) as (h & -> & Hcr & Hok1 & Ha1 & (row & Hrow & Hkey) & Hh). rewrite Hcr, Hcl in *. cbn [negb].
  destruct Hh as [_ Hp]. rewrite run_ebind. destruct (run (close_run _ _ _ _) s1) as [s2 r2] eqn:E2. cbn [fst snd].
  destruct (close_spec _ _ _ _ _ _ _ (Hc _ _) E2) as (-> & Hcands & Ha2 & _ & _). cbn [run]. intros [= <- <-].
  unfold close_run in E2. rewrite Hc, run_bind in E2. unfold finalizeRun in E2. rewrite run_exec in E2. cbn [run fst snd] in E2.
  injection E2 as <-. exists (rh_runId h), (with_run_status RSkipped (Some (lg_now s1)) None true row). split_and!; try done.
  - cbn. by rewrite lookup_alter_eq, Hrow.
  - eapply apart_weaken; [|exact (apart_trans _ _ _ _ _ Ha1 Ha2)]. set_solver.
Qed.

(** Planning an external read of a document that has a run of that pack changes nothing. *)
Lemma planned_once docId packId packVersion s :
  (∃ id r, lg_runs s !! id = Some r ∧ rn_key r = {| rk_docId := doc_record docId; rk_packId := packId; rk_packVersion := packVersion |}) →
  (run (planExternal docId packId packVersion) s).1 = s.
Proof.
  intros (id & r & Hr & Hk). unfold planExternal, ensureRunPending. rewrite !run_bind. cbn [run fst snd update]. unfold create_run.
  destruct (find_run _ s) eqn:E; [done|]. by destruct (find_run_None _ _ E id r).
Qed.
End small.

(** ** On a small ledger *)

Definition sample_document (id : string) : StoredDocument :=
  {| sd_id := id; sd_kind := "mention"; sd_contentHash := id; sd_charLen := 10; sd_chunkCount := 1; sd_hasContent := true;
     sd_vertical := "v"; sd_recorder := None; sd_occurredAt := 0; sd_status := "stored"; sd_userId := Some "u"; sd_circles := None;
     sd_teams := None; sd_meta := None |}.

Definition sample_chunk (i : nat) (text : string) : DocumentChunk :=
  {| ck_seq := i; ck_text := text; ck_charStart := 0; ck_charEnd := String.length text |}.

(** A ledger whose slot [broken] cannot be opened, and a reader that cannot read [unreadable]. *)
Definition sample_world (broken unreadable : string) : IndexerWorld :=
  {| iw_num := λ _, 0%float; iw_sha256 := λ s, s; iw_iso_date := λ _, "2026-01-01"; iw_number := λ _, "1"; iw_staleMs := 1000;
     iw_clock := λ _, 0%Z; iw_model := "m"; iw_aborted := λ _, false;
     iw_extract := λ _ _ _ t, if bool_decide (t = unreadable) then Throw (ReadFailed None "timeout") else Ok sample_result;
     iw_finish := λ cs, reverse (seq 0 (length cs));
     iw_opens := λ k, if bool_decide (rk_docId k = doc_record broken) then Some "connection lost" else None;
     iw_stages := λ _ _, None; iw_closes := λ _ _, None |}.

Definition empty_ledger : Ledger := {| lg_docs := ∅; lg_runs := ∅; lg_cands := ∅; lg_now := 0 |}.

Definition sample_texts : gmap string string := {["d1" := "Ada lives in Paris."; "d2" := "Bob moved to Rome, Ada stays."]}.

Lemma empty_ledger_ok : ledger_ok empty_ledger.
Proof. split; [intros i j r1 r2 H1|intros i c H1]; cbn in H1; by rewrite lookup_empty in H1. Qed.

Lemma group_read_settles_what_it_claims_witness :
  let w := sample_world "none" "none" in
  let c := run (runGeneralGroup (H := w) [sample_document "d1"; sample_document "d2"] sample_texts None) empty_ledger in
  is_ok c.2 = true ∧ ∃ claimed, map (λ m, sd_id (cm_doc m)) claimed = ["d1"; "d2"] ∧ ∀ m, m ∈ claimed → status_of (cm_runId m) c.1 = Some RSucceeded.
Proof.
  cbn zeta. set (w := sample_world "none" "none"). set (c := run _ _). assert (Hok : is_ok c.2 = true) by (vm_compute; reflexivity).
  split; [exact Hok|]. destruct c as [s' r] eqn:E. cbn [fst snd] in *.
  destruct (group_read_settles_what_it_claims (H := w) [sample_document "d1"; sample_document "d2"] sample_texts None empty_ledger s' r)
    as (claimed & Hd & _ & _ & _ & Hr).
  - apply empty_ledger_ok.
  - apply (bool_decide_unpack _). vm_compute. exact I.
  - intros d Hd. rewrite !elem_of_cons, elem_of_nil in Hd. destruct Hd as [->|[->|[]]]; vm_compute; reflexivity.
  - reflexivity.
  - exact E.
  - exists claimed. split.
    + rewrite <- (map_map cm_doc sd_id), Hd. vm_compute. reflexivity.
    + destruct r; [exact (proj2 Hr)|discriminate].
Defined.

Definition two_chunks : list DocumentChunk := [sample_chunk 0 "Ada lives in Paris."; sample_chunk 1 "Bob moved to Rome."].

(** The second chunk cannot be read. *)
Lemma document_read_settles_its_run_witness :
  let w := sample_world "none" "Bob moved to Rome." in
  let spec := general_spec (H := w) (sample_document "d1") two_chunks true None in
  let c := run (runIndexer (H := w) spec) empty_ledger in
  ∃ id, status_of id c.1 = Some RFailed ∧ c.2 = Throw (ReadFailed None "timeout") ∧
    parts_of id c.1 ≡ₚ flat_map (chunk_parts (H := w) spec id) two_chunks.
Proof.
  cbn zeta. set (w := sample_world "none" "Bob moved to Rome."). set (spec := general_spec _ _ _ _). destruct (run (runIndexer spec) empty_ledger) as [s' r] eqn:E.
  pose proof (document_read_settles_its_run (H := w) spec empty_ledger s' r empty_ledger_ok ltac:(vm_compute; reflexivity)
    ltac:(intros; reflexivity) ltac:(apply reverse_Permutation) E) as T.
  assert (Hc : claimable (H := w) (spec_key spec) empty_ledger = true) by (vm_compute; reflexivity). rewrite Hc in T.
  destruct T as (id & _ & _ & _ & Hp & Hr). exists id. cbn [fst snd].
  assert (Hf : failure (map (chunk_counts (H := w) spec id) (is_chunks spec)) = Some (ReadFailed None "timeout")) by (vm_compute; reflexivity).
  rewrite Hf in Hr. destruct Hr as [Hst ->]. split; [exact Hst|]. split; [reflexivity|exact Hp].
Defined.

(** Claiming is outside the part that gives runs up: when the run of the second document
    cannot be opened, the run of the first stays running, though nobody reads it. *)
Lemma failed_claim_strands_the_claimed :
  let w := sample_world "d2" "none" in
  let c := run (runGeneralGroup (H := w) [sample_document "d1"; sample_document "d2"] sample_texts None) empty_ledger in
  c.2 = Throw (ReadFailed None "connection lost") ∧ map (λ kv, rn_status kv.2) (map_to_list (lg_runs c.1)) = [RRunning].
Proof. split; vm_compute; reflexivity. Qed.

(** What the other chunks of a failed run staged is pending under a run that is terminal, so
    the next commit of the document writes a part of the text. *)
Lemma failed_run_leaves_its_part_to_the_commit :
  let w := sample_world "none" "Bob moved to Rome." in
  let c := run (runGeneral (H := w) (sample_document "d1") two_chunks true None) empty_ledger in
  c.2 = Throw (ReadFailed None "timeout") ∧ countNonTerminalRuns (doc_record "d1") c.1 = 0 ∧
  length (loadPending (doc_record "d1") c.1) = 4.
Proof. split_and!; vm_compute; reflexivity. Qed.

(** The halves of a group are read again only for a failure that was the text's. *)
Example refusals_are_not_halved :
  map halvingCanHelp [ReadFailed None "timeout"; ReadFailed (Some 429%Z) "no credit"; ReadFailed (Some 503%Z) "down"; aborted_error;
                      ExtractionStagingError "conflict"] = [true; false; false; false; false].
Proof. reflexivity. Qed.
