(* ===== verification/ExtractionPass.v ===== *)
(** * The pass that reads what is waiting

    [documents/extraction-batch.service.ts]: the waiting documents of a tenant, page by page:
    triage, depth, what is due, groups, reads and their halves, commits in the order things
    were said, the passes asked for next. Written against an interface of the services it
    calls; the memory of [CommitWriter] with the ledger is one ([MemoryServices]). Calls the
    code starts together run in any interleaving. Left out: timers, counters, the lease
    around a pass, the passes over affect and new facts it asks for at its end, and what a
    query that throws outside a read or a commit does: the pass ends with its exception. *)

From S2P Require Import Prelude Js Resume CandidateMerge RunLedger Names Grounding DocumentMeta DocumentText DocumentStore.
From S2P Require Import ExtractionGroup IndexerRun.
From stdpp Require Import gmap.
From Stdlib Require Import Ascii FunctionalExtensionality Wf_nat.
Local Open Scope string_scope.
Local Open Scope nat_scope.

(** ** Calls that run together *)

(** One after the other. *)
Fixpoint in_turn {S A} (ps : list (prog S A)) : prog S (list A) :=
  match ps with
  | [] => Done []
  | p :: ps' => do* a := p in do* l := in_turn ps' in Done (a :: l)
  end.

(** [Promise.all]: whose statement comes next, as long as the list says so; then one after
    the other. *)
Fixpoint together {S A} (sched : list nat) (ps : list (prog S A)) : prog S (list A) :=
  match sched with
  | [] => in_turn ps
  | i :: sched' =>
      match ps !! i with
      | Some (Stmt f) => Stmt (λ s, ((f s).1, together sched' (<[i := (f s).2]> ps)))
      | _ => together sched' ps
      end
  end.

(** ** What a pass calls *)

Record Waiting := { wt_docId : string; wt_arrivedAt : Z; wt_priority : Z }.

Record CommitAnswer := { ca_deferred : bool; ca_committed : bool; ca_entityIds : list string }.

Class PassServices (S : Type) := {
  pv_now : prog S Z;
  pv_aborted : prog S bool;
  pv_renew : prog S unit;
  (** [listAwaitingRuns] of the generalist: failed runs too, leaving out the documents named. *)
  pv_list : bool → list string → prog S (list Waiting);
  (** A document and the stamp it carries. *)
  pv_getById : string → prog S (option (StoredDocument * option TriageStamp));
  pv_getChunks : string → prog S (list DocumentChunk);
  pv_triageEnabled : bool;
  pv_triageText : string → string → prog S (result string (option TriageStamp));
  pv_setTriage : string → TriageStamp → prog S (result string unit);
  (** Whether the text names an entity in use; absent without the service of the memory. *)
  pv_inUse : option (string → option string → prog S bool);
  pv_remember : option string → list string → prog S unit;
  pv_keepRaw : StoredDocument → prog S (result ReadError unit);
  pv_setStatus : string → string → prog S (result string unit);
  (** Reads, within the circles given. *)
  pv_runGeneral : list string → StoredDocument → list DocumentChunk → ReadDepth → prog S (result ReadError unit);
  pv_runGeneralGroup : list string → list StoredDocument → gmap string string → ReadDepth → prog S (result ReadError unit);
  (** [commitIfRunsSettled], conflicts retried. *)
  pv_commit : StoredDocument → prog S (result string CommitAnswer);
  (** A job of the queue: retry, key, when it becomes visible. *)
  pv_enqueue : option (nat → string → Z → prog S unit);
  (** Settings and the text of a number. *)
  pv_windowMs : Z;
  pv_budget : GroupBudget;
  pv_settleMs : Z;
  pv_maxWaitMs : Z;
  pv_floor : float;
  pv_number : Z → string;
  (** How the calls started together fall: loading, triage, scopes. *)
  pv_interleave : nat → list nat
}.

Section pass.
Context {S : Type} `{PassServices S}.

(** ** Asking for a pass *)

Definition next_window (window now delayMs : Z) : Z := ((now + delayMs + window - 1) / window * window)%Z.

Definition dedup_key (retry : nat) (at_ : Z) : string :=
  "xdoc_" +:+ (if 0 <? retry then "r" +:+ pv_number (Z.of_nat retry) +:+ "_" else "") +:+ pv_number at_.

Definition schedule (retry : nat) (delayMs : Z) : prog S unit :=
  match pv_enqueue with
  | None => Done tt
  | Some enqueue =>
      do* now := pv_now in
      let at_ := next_window (Z.max pv_windowMs 1000) now delayMs in
      enqueue retry (dedup_key retry at_) at_
  end.

(** ** One page *)

(** A [Map] built from its entries. *)
Definition js_map {A} (l : list (string * A)) : gmap string A := fold_left (λ m kv, <[kv.1 := kv.2]> m) l ∅.

Record Page := {
  pg_byId : gmap string StoredDocument;
  pg_texts : gmap string string;
  pg_chunksOf : gmap string (list DocumentChunk);
  pg_depthOf : gmap string ReadDepth;
  pg_stamps : gmap string TriageStamp;
  pg_priority : gmap string Z
}.

Record Loaded := { ld_doc : StoredDocument; ld_stamp : option TriageStamp; ld_chunks : list DocumentChunk }.

Definition load_one (w : Waiting) : prog S (option Loaded) :=
  do* doc := pv_getById (wt_docId w) in
  match doc with
  | None => Done None
  | Some d =>
      do* chunks := pv_getChunks (wt_docId w) in
      Done (Some {| ld_doc := d.1; ld_stamp := d.2; ld_chunks := chunks |})
  end.

Definition conversation_of (doc : StoredDocument) : option string := internalMetaString (sd_meta doc) "conversationId".

Definition said_before (doc d : StoredDocument) : bool :=
  negb (bool_decide (sd_id d = sd_id doc)) && bool_decide (default "" (sd_userId d) = default "" (sd_userId doc)) &&
  bool_decide (conversation_of d = conversation_of doc) && (sd_occurredAt d <=? sd_occurredAt doc)%Z.

Definition occurred_before (a b : StoredDocument) : bool := (sd_occurredAt a <=? sd_occurredAt b)%Z.

Definition conversationBefore (doc : StoredDocument) (docs : list StoredDocument) (texts : gmap string string) : string :=
  match truthy (conversation_of doc) with
  | None => ""
  | Some _ => join_with line_feed (map (text_of texts) (stable_sort occurred_before (List.filter (said_before doc) docs)))
  end.

(** The stamp of a document that has none: asked for, stored, then used. *)
Definition triage_one (docs : list StoredDocument) (texts : gmap string string) (doc : StoredDocument) : prog S (option (string * TriageStamp)) :=
  do* r := pv_triageText (text_of texts doc) (conversationBefore doc docs texts) in
  match r with
  | Ok (Some stamp) =>
      do* stored := pv_setTriage (sd_id doc) stamp in
      Done (match stored with Ok _ => Some (sd_id doc, stamp) | Throw _ => None end)
  | _ => Done None
  end.

Definition stamped (loaded : list Loaded) : gmap string TriageStamp :=
  js_map (omap (λ l, (λ t, (sd_id (ld_doc l), t)) <$> ld_stamp l) loaded).

Definition triageWaiting (loaded : list Loaded) (texts : gmap string string) : prog S (gmap string TriageStamp) :=
  let stamps := stamped loaded in
  let docs := map ld_doc loaded in
  let unstamped := List.filter (λ d, bool_decide (stamps !! sd_id d = None)) docs in
  if (length unstamped =? 0) || negb pv_triageEnabled then Done stamps
  else
    do* got := together (pv_interleave 1) (map (triage_one docs texts) unstamped) in
    Done (fold_left (λ m kv, <[kv.1 := kv.2]> m) (omap id got) stamps).

Definition focused (doc : StoredDocument) : bool :=
  negb (bool_decide (truthy (internalMetaString (sd_meta doc) "focusQuestion") = None)).

Definition askedOf (doc : StoredDocument) (priority : gmap string Z) : option ReadAsk :=
  if focused doc then Some AAnswer else askOf (default 0%Z (priority !! sd_id doc)).

(** A document as a member of a group to come. *)
Definition candidate_doc (arrived : gmap string Z) (p : Page) (d : StoredDocument) : GroupDoc :=
  let g := groupDocOf d (text_of (pg_texts p) d) in
  {| gp_id := gp_id g; gp_text := gp_text g; gp_occurredAt := gp_occurredAt g; gp_chunkCount := gp_chunkCount g;
     gp_userId := gp_userId g; gp_circleKey := gp_circleKey g; gp_conversationId := gp_conversationId g;
     gp_speakerName := gp_speakerName g; gp_speakerIsUser := gp_speakerIsUser g; gp_addresseeName := gp_addresseeName g;
     gp_arrivedAt := arrived !! sd_id d;
     gp_urgent := negb (bool_decide (askedOf d (pg_priority p) = None)) || isUrgent [pg_stamps p !! sd_id d] pv_floor;
     gp_solo := focused d |}.

Definition depthOfDoc (p : Page) (g : GroupDoc) : prog S ReadDepth :=
  match pg_byId p !! gp_id g with
  | None => Done DRaw
  | Some doc =>
      let signals hot := {| ds_stamps := [pg_stamps p !! gp_id g]; ds_hot := hot; ds_asked := askedOf doc (pg_priority p);
                            ds_floor := pv_floor |} in
      let depth := readDepth (signals false) in
      match pv_inUse with
      | Some inUse =>
          if bool_decide (depth = DFull) then Done depth
          else do* hot := inUse (gp_text g) (sd_userId doc) in
               Done (if hot : bool then readDepth (signals true) else depth)
      | None => Done depth
      end
  end.

Fixpoint depths (p : Page) (ready : list GroupDoc) : prog S (list (string * ReadDepth)) :=
  match ready with
  | [] => Done []
  | g :: ready' => do* d := depthOfDoc p g in do* l := depths p ready' in Done ((gp_id g, d) :: l)
  end.

Fixpoint keep_all (p : Page) (kept : list GroupDoc) : prog S unit :=
  match kept with
  | [] => Done tt
  | g :: kept' =>
      do* _ := (match pg_byId p !! gp_id g with
                | Some doc =>
                    do* r := pv_keepRaw doc in
                    match r with Ok _ => do* _ := pv_setStatus (sd_id doc) "indexed" in Done tt | Throw _ => Done tt end
                | None => Done tt
                end) in
      keep_all p kept'
  end.

(** ** One scope *)

Record GroupRead := { gr_ok : bool; gr_members : list StoredDocument; gr_halving : bool }.

Definition members_of (p : Page) (group : list GroupDoc) : list StoredDocument := omap (λ g, pg_byId p !! gp_id g) group.

Definition readGroup (circles : list string) (p : Page) (group : list GroupDoc) (depth : ReadDepth) : prog S GroupRead :=
  let members := members_of p group in
  do* r := (match members with
            | [doc] => pv_runGeneral circles doc (default [] (pg_chunksOf p !! sd_id doc)) depth
            | _ => pv_runGeneralGroup circles members (pg_texts p) depth
            end) in
  Done (match r with
        | Ok _ => {| gr_ok := true; gr_members := members; gr_halving := false |}
        | Throw e => {| gr_ok := false; gr_members := members; gr_halving := halvingCanHelp e |}
        end).

(** The deadline of a drain is never. *)
Definition too_late (deadline : option Z) : prog S bool :=
  do* aborted := pv_aborted in
  if aborted : bool then Done true
  else do* now := pv_now in Done (match deadline with Some d => (d <? now)%Z | None => false end).

(** Read and failed, as many levels of halves as the fuel allows: the length of the group is enough. *)
Fixpoint read_splitting (fuel : nat) (circles : list string) (p : Page) (deadline : option Z) (group : list GroupDoc) (depth : ReadDepth) :
    prog S (list StoredDocument * list StoredDocument) :=
  match fuel with
  | 0 => Done ([], members_of p group)
  | Datatypes.S fuel' =>
      do* r := readGroup circles p group depth in
      if gr_ok r then Done (gr_members r, [])
      else
        do* late := too_late deadline in
        if (length group <? 2) || late || negb (gr_halving r) then Done ([], gr_members r)
        else
          let mid := (length group + 1) / 2 in
          do* first := read_splitting fuel' circles p deadline (take mid group) depth in
          do* second := read_splitting fuel' circles p deadline (drop mid group) depth in
          Done (app first.1 second.1, app first.2 second.2)
  end.

Definition readSplitting (circles : list string) (p : Page) (deadline : option Z) (group : list GroupDoc) (depth : ReadDepth) :=
  read_splitting (length group) circles p deadline group depth.

Definition commit_one (doc : StoredDocument) : prog S nat :=
  do* r := pv_commit doc in
  match r with
  | Throw _ => Done 0
  | Ok c =>
      do* _ := (if negb (ca_deferred c) && negb (ca_committed c) then do* _ := pv_setStatus (sd_id doc) "indexed" in Done tt else Done tt) in
      if ca_committed c then
        do* _ := pv_remember (conversation_of doc) (ca_entityIds c) in
        do* _ := pv_setStatus (sd_id doc) "committed" in Done 1
      else Done 0
  end.

Fixpoint commit_all (docs : list StoredDocument) : prog S nat :=
  match docs with
  | [] => Done 0
  | doc :: docs' => do* n := commit_one doc in do* m := commit_all docs' in Done (n + m)
  end.

Definition commitInOrder (done : list StoredDocument) : prog S nat := commit_all (stable_sort occurred_before done).

Record Counts := { ct_read : nat; ct_failed : nat; ct_committed : nat }.

Definition no_counts : Counts := {| ct_read := 0; ct_failed := 0; ct_committed := 0 |}.
Definition plus_counts (a b : Counts) : Counts :=
  {| ct_read := ct_read a + ct_read b; ct_failed := ct_failed a + ct_failed b; ct_committed := ct_committed a + ct_committed b |}.

Definition first_said (g : list GroupDoc) : Z := match g with d :: _ => gp_occurredAt d | [] => 0%Z end.
Definition group_urgent (g : list GroupDoc) : bool := existsb gp_urgent g.

Definition group_before (a b : list GroupDoc) : bool :=
  (group_urgent a && negb (group_urgent b)) || (Bool.eqb (group_urgent a) (group_urgent b) && (first_said a <=? first_said b)%Z).

Definition group_depth (p : Page) (group : list GroupDoc) : ReadDepth :=
  if existsb (λ g, bool_decide (pg_depthOf p !! gp_id g = Some DFull)) group then DFull else DSingle.

Definition group_circles (group : list GroupDoc) : list string :=
  match group with
  | g :: _ => List.filter (λ c, negb (bool_decide (c = ""))) (split_at (λ c, bool_decide (c = ","%char)) (default "" (gp_circleKey g)))
  | [] => []
  end.

Fixpoint read_groups (p : Page) (deadline : option Z) (groups : list (list GroupDoc)) (out : Counts) : prog S Counts :=
  match groups with
  | [] => Done out
  | group :: groups' =>
      do* late := too_late deadline in
      if late : bool then Done out
      else
        do* _ := pv_renew in
        do* r := readSplitting (group_circles group) p deadline group (group_depth p group) in
        do* committed := (if 0 <? length r.1 then commitInOrder r.1 else Done 0) in
        read_groups p deadline groups'
          (plus_counts out {| ct_read := length r.1; ct_failed := length r.2; ct_committed := committed |})
  end.

Definition readScope (p : Page) (deadline : option Z) (groups : list (list GroupDoc)) : prog S Counts :=
  read_groups p deadline (stable_sort group_before groups) no_counts.

(** One memory: a user in a circle. *)
Definition memory_scope (group : list GroupDoc) : string :=
  match group with
  | g :: _ => default "" (gp_userId g) +:+ RS +:+ default "" (gp_circleKey g)
  | [] => RS
  end.

Definition scopes (groups : list (list GroupDoc)) : list (list (list GroupDoc)) := map snd (group_by memory_scope groups).

Definition page_of (loaded : list Loaded) (waiting : list Waiting) : Page :=
  {| pg_byId := js_map (map (λ l, (sd_id (ld_doc l), ld_doc l)) loaded);
     pg_texts := js_map (map (λ l, (sd_id (ld_doc l), join_with line_feed (map ck_text (ld_chunks l)))) loaded);
     pg_chunksOf := js_map (map (λ l, (sd_id (ld_doc l), ld_chunks l)) loaded);
     pg_depthOf := ∅; pg_stamps := ∅; pg_priority := js_map (map (λ w, (wt_docId w, wt_priority w)) waiting) |}.

Definition with_stamps (stamps : gmap string TriageStamp) (p : Page) : Page :=
  {| pg_byId := pg_byId p; pg_texts := pg_texts p; pg_chunksOf := pg_chunksOf p; pg_depthOf := pg_depthOf p; pg_stamps := stamps;
     pg_priority := pg_priority p |}.
Definition with_depths (m : gmap string ReadDepth) (p : Page) : Page :=
  {| pg_byId := pg_byId p; pg_texts := pg_texts p; pg_chunksOf := pg_chunksOf p; pg_depthOf := m; pg_stamps := pg_stamps p;
     pg_priority := pg_priority p |}.

Definition page_rule : SettleRule := {| st_settleMs := pv_settleMs; st_maxWaitMs := pv_maxWaitMs; st_maxChars := bg_maxChars pv_budget |}.

Definition is_raw (p : Page) (g : GroupDoc) : bool := bool_decide (pg_depthOf p !! gp_id g = Some DRaw).

Definition readDocuments (deadline : option Z) (waiting : list Waiting) (force : bool) : prog S (Counts * option Z) :=
  do* loaded := together (pv_interleave 0) (map load_one waiting) in
  let docs := map ld_doc (omap id loaded) in
  let page0 := page_of (omap id loaded) waiting in
  do* stamps := triageWaiting (omap id loaded) (pg_texts page0) in
  let page1 := with_stamps stamps page0 in
  let candidates := map (candidate_doc (js_map (map (λ w, (wt_docId w, wt_arrivedAt w)) waiting)) page1) docs in
  do* now := pv_now in
  let released_ := if force then (candidates, None) else releaseSettled candidates now page_rule in
  do* ds := depths page1 released_.1 in
  let page := with_depths (js_map ds) page1 in
  do* _ := keep_all page (List.filter (is_raw page) released_.1) in
  let groups := planExtractionGroups (List.filter (λ g, negb (is_raw page g)) released_.1) pv_budget in
  do* outcomes := together (pv_interleave 2) (map (readScope page deadline) (scopes groups)) in
  Done (foldr plus_counts no_counts outcomes, released_.2).

(** ** The pass *)

Definition PASS_BUDGET_MS : Z := 10 * 60000.
Definition MAX_RETRIES : nat := 5.
Definition RETRY_BASE_MS : Z := 5 * 60000.

(** What a pass has done so far, with the documents it took up. *)
Record PassTally := { py_counts : Counts; py_attempted : list string; py_nextAt : option Z }.

Definition sooner_opt (a b : option Z) : option Z :=
  match b with None => a | Some y => match a with None => Some y | Some x => Some (if (y <? x)%Z then y else x) end end.

(** Page after page; nothing of the pass is left undone when the fuel is more than the documents there are. *)
Fixpoint pages (fuel : nat) (retry : nat) (deadline : option Z) (force : bool) (t : PassTally) : prog S (option PassTally) :=
  match fuel with
  | 0 => Done None
  | Datatypes.S fuel' =>
      do* late := too_late deadline in
      if late : bool then do* _ := schedule 0 1000 in Done (Some t)
      else
        do* waiting := pv_list (0 <? retry) (py_attempted t) in
        if length waiting =? 0 then Done (Some t)
        else
          do* outcome := readDocuments deadline waiting force in
          pages fuel' retry deadline force
            {| py_counts := plus_counts (py_counts t) outcome.1;
               py_attempted := app (py_attempted t) (map wt_docId waiting);
               py_nextAt := sooner_opt (py_nextAt t) outcome.2 |}
  end.

Record PassOutcome := { po_counts : Counts; po_retry : nat }.

Definition after_pages (retry : nat) (t : PassTally) : prog S PassOutcome :=
  do* _ := (match py_nextAt t with
            | Some at_ => do* now := pv_now in schedule 0 (Z.max 1000 (at_ - now))
            | None => Done tt
            end) in
  do* _ := (if (0 <? ct_failed (py_counts t)) && (retry <? MAX_RETRIES)
            then schedule (retry + 1) (RETRY_BASE_MS * 2 ^ Z.of_nat retry) else Done tt) in
  Done {| po_counts := py_counts t; po_retry := retry |}.

Definition pass (fuel : nat) (retry : nat) (force : bool) : prog S (option (PassOutcome * list string)) :=
  do* now := pv_now in
  let deadline := if force then None else Some (now + PASS_BUDGET_MS)%Z in
  do* t := pages fuel retry deadline force {| py_counts := no_counts; py_attempted := []; py_nextAt := None |} in
  match t with
  | None => Done None
  | Some t => do* o := after_pages retry t in Done (Some (o, py_attempted t))
  end.
End pass.

(** ** Promises that hold whatever runs in between *)

Section promises.
Context {S : Type} (R : S → S → Prop) (K : S → Prop).
Hypothesis K_stable : stable R K.

(** [K] is kept, and every result is within [Q]. *)
Definition settles {A} (p : prog S A) (Q : A → Prop) : Prop := ensures R K p (λ a s, K s ∧ Q a).

Lemma ensures_from_pure {A} (P : Prop) (p : prog S A) Q : (P → ensures R K p Q) → ensures R (λ s, K s ∧ P) p Q.
Proof. intros H. destruct p as [a|f]; cbn in *; intros s [Hk HP]; by apply H. Qed.

Lemma settles_bind {A B} (p : prog S A) (k : A → prog S B) Q1 Q :
  settles p Q1 → (∀ a, Q1 a → settles (k a) Q) → settles (pbind p k) Q.
Proof.
  intros Hp Hk. unfold settles. eapply ensures_bind; [|exact Hp|].
  - intros a s s' [Hs Ha] HR. split; [by eapply K_stable|done].
  - intros a. apply ensures_from_pure. intros Ha. by apply Hk.
Qed.

Lemma settles_done {A} (a : A) (Q : A → Prop) : Q a → settles (Done a) Q.
Proof. intros Ha s Hs. by split. Qed.

Lemma settles_any {A} (p : prog S A) : always R p → settles p (λ _, True).
Proof. intros Hp. eapply ensures_post; [|by apply always_ensures]. by intros a s Hs. Qed.

Lemma settles_weaken {A} (p : prog S A) (Q Q' : A → Prop) : (∀ a, Q a → Q' a) → settles p Q → settles p Q'.
Proof. intros HQ. apply ensures_post. intros a s [Hs Ha]. auto. Qed.

(** Calls in turn, each with its own promise and whatever it relies on. *)
Lemma ensures_in_turn {A} (ps : list (prog S A)) (Ks : nat → S → Prop) (Qs : nat → A → Prop) :
  (∀ i p, ps !! i = Some p → stable R (Ks i) ∧ ensures R (Ks i) p (λ a _, Qs i a)) →
  ensures R (λ s, ∀ i, i < length ps → Ks i s) (in_turn ps) (λ l _, length l = length ps ∧ ∀ i a, l !! i = Some a → Qs i a).
Proof.
  revert Ks Qs. induction ps as [|p ps IH]; intros Ks Qs Hps; cbn [in_turn].
  { intros s _. split; [done|]. intros i a Hi. by rewrite lookup_nil in Hi. }
  destruct (Hps 0 p eq_refl) as [Hst0 Hp]. set (F := λ s, ∀ i, i < length ps → Ks (Datatypes.S i) s).
  assert (HF : stable R F).
  { intros s s' Hs HR i Hi. destruct (lookup_lt_is_Some_2 ps i Hi) as [q Hq]. destruct (Hps (Datatypes.S i) q Hq) as [Hst _].
    eapply Hst; [by apply Hs|done]. }
  eapply (ensures_bind R) with (Q1 := λ a s, F s ∧ Qs 0 a).
  - intros a s s' [Hs Ha] HR. split; [by eapply HF|done].
  - eapply ensures_weaken; [|exact (ensures_frame R F (Ks 0) p (λ a _, Qs 0 a) HF Hp)].
    intros s Hs. split; [intros i Hi; apply (Hs (Datatypes.S i)); cbn; lia|apply Hs; cbn; lia].
  - intros a. eapply (ensures_bind R) with (Q1 := λ l s, (length l = length ps ∧ ∀ i a, l !! i = Some a → Qs (Datatypes.S i) a) ∧ Qs 0 a).
    + by intros l s s' ? _.
    + eapply ensures_post with (Q := λ l s, Qs 0 a ∧ (length l = length ps ∧ ∀ i a, l !! i = Some a → Qs (Datatypes.S i) a)); [by intros l s [? ?]|].
      eapply ensures_weaken; [|apply (ensures_frame R (λ _, Qs 0 a) F (in_turn ps)); [by intros ? ? ? _|]].
      * by intros s [? ?].
      * apply (IH (λ i, Ks (Datatypes.S i)) (λ i, Qs (Datatypes.S i))). intros i q Hq. by apply (Hps (Datatypes.S i)).
    + intros l s [[Hlen Hl] Ha]. split; [cbn; by rewrite Hlen|]. intros [|i] b Hb; cbn in Hb; [by injection Hb as <-|by apply Hl].
Qed.

(** Calls that run together keep their promises, whichever statement comes next. *)
Lemma ensures_together {A} sched (ps : list (prog S A)) (Ks : nat → S → Prop) (Qs : nat → A → Prop) :
  (∀ i p, ps !! i = Some p → stable R (Ks i) ∧ ensures R (Ks i) p (λ a _, Qs i a)) →
  ensures R (λ s, ∀ i, i < length ps → Ks i s) (together sched ps) (λ l _, length l = length ps ∧ ∀ i a, l !! i = Some a → Qs i a).
Proof.
  revert ps Ks. induction sched as [|i sched IH]; intros ps Ks Hps; cbn [together]; [by apply ensures_in_turn|].
  destruct (ps !! i) as [[a|f]|] eqn:Ei; [by apply IH| |by apply IH].
  intros s Hs. destruct (Hps i _ Ei) as [Hsti Hpi]. pose proof (lookup_lt_Some _ _ _ Ei) as Hlt.
  specialize (Hpi s (Hs i Hlt)). destruct (f s) as [s' p']. cbn [fst snd]. destruct Hpi as (HR & K' & HK' & HstK' & Hp').
  split; [done|]. set (Ks' := λ j, if bool_decide (j = i) then K' else Ks j).
  exists (λ s, ∀ j, j < length (<[i := p']> ps) → Ks' j s). split_and!.
  - intros j Hj. rewrite length_insert in Hj. unfold Ks'. case_bool_decide; [done|].
    destruct (lookup_lt_is_Some_2 ps j Hj) as [q Hq]. destruct (Hps j q Hq) as [Hst _]. eapply Hst; [by apply Hs|done].
  - intros s1 s2 H1 HR' j Hj. rewrite length_insert in Hj. unfold Ks' in *. specialize (H1 j). rewrite length_insert in H1. specialize (H1 Hj).
    destruct (bool_decide (j = i)); [by eapply HstK'|]. destruct (lookup_lt_is_Some_2 ps j Hj) as [q Hq].
    destruct (Hps j q Hq) as [Hst _]. by eapply Hst.
  - eapply ensures_post; [|apply (IH (<[i := p']> ps) Ks')].
    + intros l s0 [Hlen Hl]. rewrite length_insert in Hlen. done.
    + intros j q Hq. unfold Ks'. destruct (decide (j = i)) as [->|Hne].
      * rewrite list_lookup_insert_eq in Hq by done. injection Hq as <-. by rewrite bool_decide_eq_true_2.
      * rewrite list_lookup_insert_ne in Hq by done. rewrite bool_decide_eq_false_2 by done. by apply Hps.
Qed.

Lemma settles_together {A} sched (ps : list (prog S A)) (Qs : nat → A → Prop) :
  (∀ i p, ps !! i = Some p → settles p (Qs i)) →
  settles (together sched ps) (λ l, length l = length ps ∧ ∀ i a, l !! i = Some a → Qs i a).
Proof.
  intros Hps. unfold settles. eapply ensures_weaken; [|apply (ensures_frame R K (λ s, ∀ i, i < length ps → K s)); [done|]].
  - intros s Hs. by split.
  - apply (ensures_together sched ps (λ _, K)). intros i p Hp. split; [done|]. eapply ensures_post; [|by apply Hps]. by intros a s [_ ?].
Qed.
End promises.

(** ** What the services promise each other *)

(** [U]: the documents whose runs may wait. *)
Class PassLaws (S : Type) `{PassServices S} (R : S → S → Prop) (K : S → Prop) (U : list string) (known : StoredDocument → Prop) := {
  pl_stable : stable R K;
  pl_now : always R pv_now;
  pl_aborted : always R pv_aborted;
  pl_renew : always R pv_renew;
  pl_list : ∀ failed exclude, settles R K (pv_list failed exclude) (λ l, NoDup (map wt_docId l) ∧
    ∀ w, w ∈ l → wt_docId w ∈ U ∧ wt_docId w ∉ exclude);
  pl_getById : ∀ id, id ∈ U → settles R K (pv_getById id) (λ d, ∀ x, d = Some x → known x.1);
  pl_getChunks : ∀ id, always R (pv_getChunks id);
  pl_triageText : ∀ t c, always R (pv_triageText t c);
  pl_setTriage : ∀ id t, always R (pv_setTriage id t);
  pl_inUse : ∀ f t u, pv_inUse = Some f → always R (f t u);
  pl_remember : ∀ c ids, always R (pv_remember c ids);
  pl_keepRaw : ∀ d, known d → always R (pv_keepRaw d);
  pl_setStatus : ∀ id st, always R (pv_setStatus id st);
  pl_runGeneral : ∀ cs d chunks depth, known d → always R (pv_runGeneral cs d chunks depth);
  pl_runGeneralGroup : ∀ cs ds texts depth, (∀ d, d ∈ ds → known d) → always R (pv_runGeneralGroup cs ds texts depth);
  pl_commit : ∀ d, known d → always R (pv_commit d);
  pl_enqueue : ∀ f r k a, pv_enqueue = Some f → always R (f r k a)
}.

(** ** One page *)

Lemma fold_insert_elem {A} (l : list (string * A)) (m : gmap string A) k v :
  fold_left (λ (m : gmap string A) kv, <[kv.1 := kv.2]> m) l m !! k = Some v → m !! k = Some v ∨ (k, v) ∈ l.
Proof.
  revert m. induction l as [|[k' v'] l IH]; intros m; cbn; [by left|]. intros [Hm|Hl]%IH; [|right; by right].
  rewrite lookup_insert in Hm. case_decide; [injection Hm as <-; subst; right; left|by left].
Qed.

Lemma js_map_elem {A} (l : list (string * A)) k v : js_map l !! k = Some v → (k, v) ∈ l.
Proof. intros [H|H]%fold_insert_elem; [by rewrite lookup_empty in H|done]. Qed.

Section page.
Context {S : Type} `{PS : PassServices S} (R : S → S → Prop) (K : S → Prop) (U : list string) (known : StoredDocument → Prop).
Context `{!PassLaws S R K U known}.

#[local] Abbreviation gives p Q := (settles R K p Q).

Lemma gives_bind {A B} (p : prog S A) (k : A → prog S B) Q1 Q : gives p Q1 → (∀ a, Q1 a → gives (k a) Q) → gives (pbind p k) Q.
Proof. apply settles_bind, pl_stable. Qed.

Lemma gives_done {A} (a : A) (Q : A → Prop) : Q a → gives (Done a) Q.
Proof. apply settles_done. Qed.

Lemma gives_any {A} (p : prog S A) : always R p → gives p (λ _, True).
Proof. apply settles_any, pl_stable. Qed.

Definition page_known (p : Page) : Prop := ∀ id d, pg_byId p !! id = Some d → known d.

Lemma members_known p group d : page_known p → d ∈ members_of p group → known d.
Proof. intros Hp (g & _ & Hg)%list_elem_of_omap. by eapply Hp. Qed.

Lemma length_members p group : length (members_of p group) ≤ length group.
Proof. unfold members_of. induction group as [|g group IH]; cbn; [lia|]. destruct (pg_byId p !! gp_id g); cbn in *; lia. Qed.

Lemma too_late_gives deadline : gives (too_late deadline) (λ _, True).
Proof.
  unfold too_late. eapply gives_bind; [apply gives_any, pl_aborted|]. intros [] _; [by apply gives_done|].
  eapply gives_bind; [apply gives_any, pl_now|]. intros n _. by apply gives_done.
Qed.

Lemma readGroup_gives circles p group depth :
  page_known p → gives (readGroup circles p group depth) (λ r, gr_members r = members_of p group).
Proof.
  intros Hp. unfold readGroup. eapply gives_bind with (Q1 := λ _, True).
  - pose proof (members_known p group) as Hk. apply gives_any. destruct (members_of p group) as [|d [|d' ds]] eqn:E.
    + apply pl_runGeneralGroup. intros d Hd. by apply elem_of_nil in Hd.
    + apply pl_runGeneral. apply Hk; [done|left].
    + apply pl_runGeneralGroup. intros x Hx. by apply Hk.
  - intros [u|e] _; by apply gives_done.
Qed.

(** Each member of a group is read or has failed, once, however often the group is halved. *)
Lemma splitting_gives fuel circles p deadline group depth :
  page_known p → gives (read_splitting fuel circles p deadline group depth) (λ r, app r.1 r.2 ≡ₚ members_of p group).
Proof.
  intros Hp. revert group. induction fuel as [|fuel IH]; intros group; cbn [read_splitting]; [by apply gives_done|].
  eapply gives_bind; [by apply readGroup_gives|]. intros r Hr. destruct (gr_ok r).
  { apply gives_done. cbn. by rewrite app_nil_r, Hr. }
  eapply gives_bind; [apply too_late_gives|]. intros late _. destruct (_ || _ || _); [by apply gives_done; rewrite Hr|].
  set (mid := (length group + 1) / 2). eapply gives_bind; [apply (IH (take mid group))|]. intros r1 H1.
  eapply gives_bind; [apply (IH (drop mid group))|]. intros r2 H2. apply gives_done. cbn [fst snd].
  rewrite <- (take_drop mid group) at 1. unfold members_of. rewrite omap_app. fold (members_of p (take mid group)) (members_of p (drop mid group)).
  rewrite <- H1, <- H2. solve_Permutation.
Qed.

Lemma commit_all_gives docs : (∀ d, d ∈ docs → known d) → gives (commit_all docs) (λ n, n ≤ length docs).
Proof.
  induction docs as [|d docs IH]; intros Hk; cbn [commit_all]; [by apply gives_done|].
  eapply gives_bind with (Q1 := λ n, n ≤ 1).
  - unfold commit_one. eapply gives_bind; [apply gives_any, pl_commit, Hk; left|]. intros [c|e] _; [|apply gives_done; lia].
    eapply gives_bind with (Q1 := λ _, True).
    { destruct (negb (ca_deferred c) && negb (ca_committed c)); [|by apply gives_done].
      eapply gives_bind; [apply gives_any, pl_setStatus|]. intros u _. by apply gives_done. }
    intros u _. destruct (ca_committed c); [|apply gives_done; lia].
    eapply gives_bind; [apply gives_any, pl_remember|]. intros u' _.
    eapply gives_bind; [apply gives_any, pl_setStatus|]. intros u'' _. apply gives_done. lia.
  - intros n Hn. eapply gives_bind; [apply IH; intros; apply Hk; by right|]. intros m Hm. apply gives_done. cbn in *. lia.
Qed.

Definition counted (bound : nat) (c : Counts) : Prop := ct_read c + ct_failed c ≤ bound ∧ ct_committed c ≤ ct_read c.

Lemma counted_plus a b c d : counted a c → counted b d → counted (a + b) (plus_counts c d).
Proof. unfold counted. destruct c, d. cbn. lia. Qed.

Lemma read_groups_gives p deadline groups out n :
  page_known p → counted n out → gives (read_groups p deadline groups out) (counted (n + sum_list_with length groups)).
Proof.
  intros Hp. revert out n. induction groups as [|g groups IH]; intros out n Hout; cbn [read_groups].
  { apply gives_done. cbn. by rewrite Nat.add_0_r. }
  assert (Hstop : counted (n + sum_list_with length (g :: groups)) out) by (unfold counted in *; lia).
  eapply gives_bind; [apply too_late_gives|]. intros [] _; [by apply gives_done|].
  eapply gives_bind; [apply gives_any, pl_renew|]. intros u _.
  eapply gives_bind; [by apply splitting_gives|]. intros r Hr.
  assert (Hlen : length r.1 + length r.2 ≤ length g) by (rewrite <- length_app, Hr; apply length_members).
  eapply gives_bind with (Q1 := λ m, m ≤ length r.1).
  { destruct (0 <? length r.1); [|apply gives_done; lia]. unfold commitInOrder.
    rewrite <- (Permutation_length (stable_sort_perm occurred_before r.1)). apply commit_all_gives.
    intros d Hd. rewrite stable_sort_perm in Hd. apply (members_known p g); [done|]. rewrite <- Hr. apply elem_of_app. by left. }
  intros m Hm. cbn [sum_list_with]. rewrite Nat.add_assoc. apply IH. apply counted_plus; [done|]. unfold counted. cbn in *. lia.
Qed.

Lemma sum_perm {A} (f : A → nat) l l' : l ≡ₚ l' → sum_list_with f l = sum_list_with f l'.
Proof. induction 1; cbn; lia. Qed.

Lemma readScope_gives p deadline groups : page_known p → gives (readScope p deadline groups) (counted (sum_list_with length groups)).
Proof.
  intros Hp. unfold readScope. rewrite <- (sum_perm length _ _ (stable_sort_perm group_before groups)).
  apply (read_groups_gives p deadline _ no_counts 0); [done|]. unfold counted. cbn. lia.
Qed.

Lemma load_one_gives w : wt_docId w ∈ U → gives (load_one w) (λ o, ∀ x, o = Some x → known (ld_doc x)).
Proof.
  intros Hw. unfold load_one. eapply gives_bind; [by apply pl_getById|]. intros [d|] Hd; [|by apply gives_done].
  eapply gives_bind; [apply gives_any, pl_getChunks|]. intros c _. apply gives_done. intros x [= <-]. by apply (Hd d).
Qed.

Lemma triage_gives loaded texts : gives (triageWaiting loaded texts) (λ _, True).
Proof.
  unfold triageWaiting. cbn zeta. destruct (_ || _); [by apply gives_done|]. eapply gives_bind with (Q1 := λ _, True).
  - eapply settles_weaken; [|apply settles_together with (Qs := λ _ _, True); [apply pl_stable|]]; [done|].
    intros i p (d & -> & _)%list_lookup_fmap_Some. unfold triage_one.
    eapply gives_bind; [apply gives_any, pl_triageText|]. intros [[t|]|e] _; try by apply gives_done.
    eapply gives_bind; [apply gives_any, pl_setTriage|]. intros r _. by apply gives_done.
  - intros got _. by apply gives_done.
Qed.

Lemma depths_gives p ready : gives (depths p ready) (λ _, True).
Proof.
  induction ready as [|g ready IH]; cbn [depths]; [by apply gives_done|].
  eapply gives_bind with (Q1 := λ _, True).
  - unfold depthOfDoc. destruct (pg_byId p !! gp_id g); [|by apply gives_done]. cbn zeta.
    destruct pv_inUse as [f|] eqn:Ef; [|by apply gives_done]. destruct (bool_decide _); [by apply gives_done|].
    eapply gives_bind; [apply gives_any; by eapply pl_inUse|]. intros hot _. by apply gives_done.
  - intros d _. eapply gives_bind; [exact IH|]. intros l _. by apply gives_done.
Qed.

Lemma keep_all_gives p kept : page_known p → gives (keep_all p kept) (λ _, True).
Proof.
  intros Hp. induction kept as [|g kept IH]; cbn [keep_all]; [by apply gives_done|].
  eapply gives_bind with (Q1 := λ _, True); [|intros u _; exact IH].
  destruct (pg_byId p !! gp_id g) as [d|] eqn:E; [|by apply gives_done].
  eapply gives_bind; [apply gives_any, pl_keepRaw; by eapply Hp|]. intros [r|e] _; [|by apply gives_done].
  eapply gives_bind; [apply gives_any, pl_setStatus|]. intros u _. by apply gives_done.
Qed.

Lemma sum_outcomes (outs : list Counts) (ns : list nat) :
  length outs = length ns → (∀ i c n, outs !! i = Some c → ns !! i = Some n → counted n c) →
  counted (sum_list ns) (foldr plus_counts no_counts outs).
Proof.
  revert ns. induction outs as [|c outs IH]; intros [|n ns] Hlen Hall; [unfold counted; cbn; lia|done|done|]. cbn in *.
  apply counted_plus; [by apply (Hall 0)|]. apply IH; [lia|]. intros i. apply (Hall (Datatypes.S i)).
Qed.

Lemma length_concat_sum {A} (l : list (list A)) : length (concat l) = sum_list_with length l.
Proof. induction l as [|x l IH]; cbn; [done|]. by rewrite length_app, IH. Qed.

Lemma scopes_sum groups : sum_list (map (sum_list_with length) (scopes groups)) = length (concat groups).
Proof.
  assert (E : ∀ ls : list (list (list GroupDoc)), sum_list (map (sum_list_with length) ls) = sum_list_with length (concat ls)).
  { induction ls as [|l ls IH]; cbn; [done|]. by rewrite sum_list_with_app, IH. }
  rewrite E, length_concat_sum. apply sum_perm. unfold scopes. apply group_by_concat.
Qed.

Lemma released_length (force : bool) candidates now :
  length (if force then (candidates, None) else releaseSettled candidates now page_rule).1 ≤ length candidates.
Proof.
  destruct force; cbn; [done|]. rewrite <- (Permutation_length (release_perm page_rule candidates now)), length_app. lia.
Qed.

Lemma readDocuments_gives deadline waiting force :
  (∀ w, w ∈ waiting → wt_docId w ∈ U) → gives (readDocuments deadline waiting force) (λ o, counted (length waiting) o.1).
Proof.
  intros Hw. unfold readDocuments.
  eapply gives_bind; [apply settles_together with (Qs := λ _ o, ∀ x, o = Some x → known (ld_doc x)); [apply pl_stable|]|].
  { intros i p Hp. rewrite list_lookup_fmap in Hp. destruct (waiting !! i) as [w|] eqn:E; [|done]. injection Hp as <-.
    apply load_one_gives, Hw. by eapply list_elem_of_lookup_2. }
  cbn beta. intros loaded [Hlen Hl]. rewrite length_map in Hlen.
  assert (Hkn : ∀ x, x ∈ omap id loaded → known (ld_doc x)).
  { intros x (o & Ho & Ex)%list_elem_of_omap. cbn in Ex. subst o. apply list_elem_of_lookup in Ho as [i Hi]. by apply (Hl i (Some x)). }
  assert (Hdocs : length (omap id loaded) ≤ length waiting).
  { rewrite <- Hlen. clear. induction loaded as [|[x|] l IH]; cbn; lia. }
  eapply gives_bind; [apply triage_gives|]. intros stamps _. set (page1 := with_stamps _ _).
  assert (Hp1 : page_known page1).
  { intros k d Hd%js_map_elem. apply list_elem_of_fmap in Hd as (x & E & Hx). injection E as -> ->. by apply Hkn. }
  eapply gives_bind; [apply gives_any, pl_now|]. intros now _. set (candidates := map _ _).
  assert (Hcand : length candidates ≤ length waiting) by (unfold candidates; rewrite !length_map; done).
  pose proof (released_length force candidates now) as Hrel. set (released_ := if force then _ else _) in *.
  eapply gives_bind; [apply depths_gives|]. intros ds _. set (page := with_depths _ _).
  eapply gives_bind; [by apply keep_all_gives|]. intros u _. set (groups := planExtractionGroups _ _).
  assert (Hg : length (concat groups) ≤ length waiting).
  { unfold groups. rewrite (Permutation_length (planned_perm _ _)). pose proof (filter_length_le_b (λ g, negb (is_raw page g)) released_.1). lia. }
  eapply gives_bind.
  { apply settles_together with (Qs := λ i c, ∀ gs, scopes groups !! i = Some gs → counted (sum_list_with length gs) c); [apply pl_stable|].
    intros i p Hp. rewrite list_lookup_fmap in Hp. destruct (scopes groups !! i) as [gs|] eqn:E; [|done]. injection Hp as <-.
    eapply settles_weaken; [|by apply readScope_gives]. intros c Hc ? [= <-]. done. }
  cbn beta. intros outcomes [Hol Ho]. apply gives_done. cbn [fst].
  assert (Hs := sum_outcomes outcomes (map (sum_list_with length) (scopes groups))). rewrite length_map in Hol.
  rewrite length_map in Hs. specialize (Hs Hol). rewrite scopes_sum in Hs.
  assert (Hs' : counted (length (concat groups)) (foldr plus_counts no_counts outcomes)).
  { apply Hs. intros i c n Hc Hn. rewrite list_lookup_fmap in Hn. destruct (scopes groups !! i) as [gs|] eqn:E; [|done].
    injection Hn as <-. by apply (Ho i). }
  unfold counted in *. lia.
Qed.
End page.

(** ** The pass *)

Section whole_pass.
Context {S : Type} `{PS : PassServices S} (R : S → S → Prop) (K : S → Prop) (U : list string) (known : StoredDocument → Prop).
Context `{!PassLaws S R K U known}.

Record tally_ok (t : PassTally) : Prop := {
  to_once : NoDup (py_attempted t);
  to_waiting : ∀ id, id ∈ py_attempted t → id ∈ U;
  to_counts : counted (length (py_attempted t)) (py_counts t)
}.

Lemma attempted_bound t : tally_ok t → length (py_attempted t) ≤ length U.
Proof. intros [H1 H2 _]. apply submseteq_length, NoDup_submseteq; auto. Qed.

Lemma tally_page t waiting counts next :
  tally_ok t → NoDup (map wt_docId waiting) → (∀ w, w ∈ waiting → wt_docId w ∈ U ∧ wt_docId w ∉ py_attempted t) →
  counted (length waiting) counts →
  tally_ok {| py_counts := plus_counts (py_counts t) counts; py_attempted := app (py_attempted t) (map wt_docId waiting); py_nextAt := next |}.
Proof.
  intros [H1 H2 H3] Hnd Hw Hc. split; cbn.
  - apply NoDup_app. split; [done|]. split; [|done]. intros id Hid (w & -> & Hin)%list_elem_of_fmap. by apply (Hw w Hin).
  - intros id [Hid|(w & -> & Hin)%list_elem_of_fmap]%elem_of_app; [auto|by apply Hw].
  - rewrite length_app, length_map. by apply counted_plus.
Qed.

Lemma schedule_gives retry delay : settles R K (schedule retry delay) (λ _, True).
Proof.
  unfold schedule. destruct pv_enqueue as [f|] eqn:Ef; [|by apply settles_done].
  eapply gives_bind; [done|eapply gives_any; [done|apply pl_now]|]. intros now _.
  eapply gives_any; [done|]. by eapply pl_enqueue.
Qed.

Lemma pages_give fuel retry deadline force t :
  tally_ok t → length U < fuel + length (py_attempted t) →
  settles R K (pages fuel retry deadline force t) (λ r, ∃ t', r = Some t' ∧ tally_ok t').
Proof.
  revert t. induction fuel as [|fuel IH]; intros t Ht Hf; cbn [pages]; [pose proof (attempted_bound t Ht); lia|].
  eapply gives_bind; [done|by eapply too_late_gives|]. intros [] _.
  { eapply gives_bind; [done|apply schedule_gives|]. intros u _. apply settles_done. by exists t. }
  eapply gives_bind; [done|apply pl_list|]. intros waiting [Hnd Hw].
  destruct (length waiting =? 0) eqn:E; [apply settles_done; by exists t|]. apply Nat.eqb_neq in E.
  eapply gives_bind; [done|apply (readDocuments_gives R K U known); intros w Hin; by apply Hw|]. intros o Ho.
  apply IH; [by apply tally_page|]. cbn. rewrite length_app, length_map. lia.
Qed.

(** C38. A pass ends, whatever other calls do to the memory between any two statements of it: when
    the documents whose runs may wait are [U], pages beyond their number are never needed.
    Each document is taken up at most once, and the counts add up: no more is read or failed
    than was taken up, and no more committed than read. *)
Theorem pass_ends fuel retry force :
  length U < fuel →
  ensures R K (pass fuel retry force) (λ r _, ∃ o attempted, r = Some (o, attempted) ∧ NoDup attempted ∧
    (∀ id, id ∈ attempted → id ∈ U) ∧
    ct_read (po_counts o) + ct_failed (po_counts o) ≤ length attempted ∧ ct_committed (po_counts o) ≤ ct_read (po_counts o)).
Proof.
  intros Hf. eapply ensures_post with (Q := λ r s, K s ∧ ∃ o attempted, r = Some (o, attempted) ∧ NoDup attempted ∧
    (∀ id, id ∈ attempted → id ∈ U) ∧
    ct_read (po_counts o) + ct_failed (po_counts o) ≤ length attempted ∧ ct_committed (po_counts o) ≤ ct_read (po_counts o)); [by intros r s [_ ?]|].
  unfold pass. eapply gives_bind; [done|eapply gives_any; [done|apply pl_now]|]. intros now _.
  eapply gives_bind; [done|apply pages_give; [|cbn; lia]|].
  { split; cbn; [constructor|intros id Hid; by apply elem_of_nil in Hid|unfold counted; cbn; lia]. }
  intros r (t & -> & [H1 H2 [H3 H4]]). eapply gives_bind with (Q1 := λ o, po_counts o = py_counts t); [done| |].
  - unfold after_pages. eapply gives_bind with (Q1 := λ _, True); [done| |].
    { destruct (py_nextAt t); [|by apply settles_done]. eapply gives_bind; [done|eapply gives_any; [done|apply pl_now]|].
      intros n _. apply schedule_gives. }
    intros u _. eapply gives_bind with (Q1 := λ _, True); [done| |intros u' _; by apply settles_done].
    destruct (_ && _); [apply schedule_gives|by apply settles_done].
  - intros o Ho. apply settles_done. exists o, (py_attempted t). rewrite Ho. split_and!; done.
Qed.

(** Each member of a group is read or has failed, once, however often it is halved and whatever
    else happens. *)
Theorem halves_lose_no_member circles p deadline group depth :
  page_known known p →
  ensures R K (readSplitting circles p deadline group depth) (λ r _, app r.1 r.2 ≡ₚ members_of p group).
Proof.
  intros Hp. eapply ensures_post; [|eapply (splitting_gives R K U known); exact Hp]. by intros r s [_ ?].
Qed.
End whole_pass.

(** ** Stamps *)

Lemma fold_insert_keeps {A} (l : list (string * A)) (m : gmap string A) k :
  is_Some (m !! k) ∨ k ∈ map fst l → is_Some (fold_left (λ (m : gmap string A) kv, <[kv.1 := kv.2]> m) l m !! k).
Proof.
  revert m. induction l as [|[k' v] l IH]; intros m; cbn; [intros [H|H]; [done|by apply elem_of_nil in H]|].
  intros H. apply IH. rewrite lookup_insert. case_decide as E; [left; eauto|].
  destruct H as [H|[->|H]%elem_of_cons]; [by left|done|by right].
Qed.

(** A turn that has its stamp is not judged again, whatever was said since: the service is
    not asked, and the stamps are those the documents carry. *)
Lemma stamped_turns_are_not_judged_again {S} `{PassServices S} loaded texts :
  (∀ l, l ∈ loaded → is_Some (ld_stamp l)) → triageWaiting loaded texts = Done (stamped loaded).
Proof.
  intros Hall. unfold triageWaiting. cbn zeta. rewrite (bfilter_nil _ (map ld_doc loaded)); [done|].
  intros d (l & -> & Hl)%list_elem_of_fmap. apply bool_decide_eq_false. intros E.
  assert (Hs : is_Some (stamped loaded !! sd_id (ld_doc l))); [|rewrite E in Hs; by destruct Hs].
  unfold stamped, js_map. apply fold_insert_keeps. right. destruct (Hall l Hl) as [t Ht]. apply list_elem_of_fmap.
  exists (sd_id (ld_doc l), t). split; [done|]. apply list_elem_of_omap. exists l. by rewrite Ht.
Qed.

(** ** Fuel and windows *)

Section fuel.
Context {S : Type} `{PS : PassServices S}.

Lemma pbind_ext {A B} (p : prog S A) (k k' : A → prog S B) : (∀ a, k a = k' a) → pbind p k = pbind p k'.
Proof. intros Hk. f_equal. by apply functional_extensionality. Qed.

(** As many levels as the group has members: a half is never empty and always smaller. *)
Lemma splitting_fuel fuel circles p deadline group depth :
  length group ≤ fuel → group ≠ [] →
  read_splitting fuel circles p deadline group depth = readSplitting circles p deadline group depth.
Proof.
  unfold readSplitting. remember (length group) as n eqn:En. revert fuel group En.
  induction (lt_wf n) as [n _ IH]. intros fuel group -> Hf Hne.
  assert (Hn : 1 ≤ length group) by (destruct group; [done|cbn; lia]).
  destruct fuel as [|fuel]; [lia|]. destruct (length group) as [|m] eqn:Em; [lia|]. cbn [read_splitting].
  apply pbind_ext. intros r. destruct (gr_ok r); [done|]. apply pbind_ext. intros late. rewrite Em.
  destruct (Datatypes.S m <? 2) eqn:E2; [done|]. apply Nat.ltb_ge in E2. cbn [orb]. destruct (late || negb (gr_halving r)); [done|].
  set (mid := (Datatypes.S m + 1) / 2).
  assert (Hmid : 1 ≤ mid ∧ mid ≤ m).
  { unfold mid. split; [apply Nat.div_le_lower_bound; lia|]. assert ((Datatypes.S m + 1) / 2 < Datatypes.S m) by (apply Nat.div_lt_upper_bound; lia). lia. }
  clearbody mid. assert (Hhalf : ∀ g, g ≠ [] → length g ≤ m → read_splitting fuel circles p deadline g depth = read_splitting m circles p deadline g depth).
  { intros g Hg Hl. rewrite (IH (length g) ltac:(lia) fuel g eq_refl ltac:(lia) Hg). by rewrite (IH (length g) ltac:(lia) m g eq_refl ltac:(lia) Hg). }
  rewrite (Hhalf (take mid group)), (Hhalf (drop mid group)); [done| | | |].
  - intros E%(f_equal length). rewrite length_drop in E. cbn in E. lia.
  - rewrite length_drop. lia.
  - intros E%(f_equal length). rewrite length_take in E. cbn in E. lia.
  - rewrite length_take. lia.
Qed.
End fuel.

(** The boundary a pass is asked for: the first one no sooner than asked. *)
Lemma next_window_spec window now delay :
  (0 < window)%Z →
  (window | next_window window now delay)%Z ∧ (now + delay ≤ next_window window now delay < now + delay + window)%Z.
Proof.
  intros Hw. unfold next_window. split; [apply Z.divide_factor_r|].
  pose proof (Z.div_mod (now + delay + window - 1) window ltac:(lia)). pose proof (Z.mod_pos_bound (now + delay + window - 1) window Hw). nia.
Qed.

(** The captures of one window ask for one job. *)
Lemma window_asks_for_one_job window now now' delay :
  (0 < window)%Z → (next_window window now delay - window < now' + delay ≤ next_window window now delay)%Z →
  next_window window now' delay = next_window window now delay.
Proof.
  intros Hw Hn. destruct (next_window_spec window now delay Hw) as [[a Ha] _]. destruct (next_window_spec window now' delay Hw) as [[b Hb] Hb'].
  rewrite Ha in *. rewrite Hb in *. assert (a = b) by nia. by subst.
Qed.
