(* ===== verification/PassMemory.v ===== *)
(** * The pass on the memory

    The services [ExtractionPass] is written against, given by the ledger with its runs
    ([IndexerRun]), the document store and the commit ([CommitMemory]); that they keep the
    promises a pass needs, and a pass on a small tenant. *)

From S2P Require Import Prelude Js Resume JobQueue CandidateMerge RunLedger ScopeTags Names SceneProjection EventTime EntityMerge RevisionClosure.
From S2P Require Import EdgeWriter FactSlots FactSettle FactLaws FactPolicy FactResolver FactWrites DocumentMeta DocumentText EpisodeStore DocumentStore.
From S2P Require Import EntityGraph EntityResolver EntityLadder CommitWriter CommitMemory CommitCases.
From S2P Require Import Grounding ExtractionGroup IndexerRun ExtractionPass.
From stdpp Require Import gmap sorting.
Local Open Scope string_scope.
Local Open Scope nat_scope.

Definition PASS_DOCS : nat := 64.

(** The memory with the triage column of its documents, and the queue. *)
Record PassState := { ps_memory : Memory; ps_stamps : gmap string TriageStamp; ps_queue : Queue }.

Definition put_memory (m : Memory) (s : PassState) : PassState :=
  {| ps_memory := m; ps_stamps := ps_stamps s; ps_queue := ps_queue s |}.
Definition put_stamps (m : gmap string TriageStamp) (s : PassState) : PassState :=
  {| ps_memory := ps_memory s; ps_stamps := m; ps_queue := ps_queue s |}.
Definition put_queue (q : Queue) (s : PassState) : PassState :=
  {| ps_memory := ps_memory s; ps_stamps := ps_stamps s; ps_queue := q |}.

Definition on_memory {A} (q : prog Memory A) : prog PassState A := zoom ps_memory put_memory q.
Definition on_queue {A} (q : prog Queue A) : prog PassState A := zoom ps_queue put_queue q.

(** What is left open of the process and its settings. *)
Record PassConfig := {
  pc_windowMs : Z; pc_budget : GroupBudget; pc_settleMs : Z; pc_maxWaitMs : Z; pc_floor : float;
  pc_number : Z → string; pc_interleave : nat → list nat;
  pc_aborted : PassState → bool;
  pc_judge : option (string → string → result string (option TriageStamp));
  pc_inUse : option (string → option string → Memory → bool);
  pc_queue : bool;
  (** The fresh id of the job that asks under this key. *)
  pc_uuid : string → string
}.

Definition pass_job (retry : float) (key : string) (at_ : Z) : EnqueueInput :=
  {| en_jobType := "extract_documents"; en_dedupKey := Some key; en_payload := Some (VObj [("retry", VNum retry)]);
     en_visibleAfter := Some at_ |}.

Definition waiting_of (w : string * Z * Z) : Waiting := {| wt_docId := w.1.1; wt_arrivedAt := w.1.2; wt_priority := w.2 |}.

Definition commit_answer (r : result http_exn (CommitResult * bool)) : result string CommitAnswer :=
  match r with
  | Ok (c, deferred) => Ok {| ca_deferred := deferred; ca_committed := co_committed c; ca_entityIds := co_entityIds c |}
  | Throw e => Throw (http_message e)
  end.

Definition unit_result {E A} (r : result E A) : result E unit := match r with Ok _ => Ok tt | Throw e => Throw e end.

Section memory.
Context `{CommitServices, Script, Models, ResolverServices, Calendar, IndexerWorld}.
Context (env : CommitEnv) (am : Ambient) (companyId : string) (cfg : PassConfig).

#[export] Instance MemoryServices : PassServices PassState := {|
  pv_now := query (λ s, mm_now (ps_memory s));
  pv_aborted := query (pc_aborted cfg);
  pv_renew := Done tt;
  pv_list := λ failed exclude, on_memory (query (λ m, map waiting_of
    (listAwaitingRuns GENERAL_INDEXER_ID GENERAL_INDEXER_VERSION failed PASS_DOCS exclude (ledger_view m))));
  pv_getById := λ id, query (λ s, (λ d, (d, ps_stamps s !! sd_id d)) <$> getById id (mm_store (ps_memory s)));
  pv_getChunks := λ id, on_memory (query (λ m, getChunks id (mm_store m)));
  pv_triageEnabled := negb (bool_decide (pc_judge cfg ≫= (λ _, Some tt) = None));
  pv_triageText := λ text context, Done (match pc_judge cfg with Some j => j text context | None => Ok None end);
  pv_setTriage := λ id t, do* _ := exec (λ s, put_stamps (<[id := t]> (ps_stamps s)) s) in Done (Ok tt);
  pv_inUse := (λ f text userId, on_memory (query (f text userId))) <$> pc_inUse cfg;
  pv_remember := λ _ _, Done tt;
  pv_keepRaw := λ doc, on_memory (on_candidates (do* r := keepRaw doc in Done (unit_result r)));
  pv_setStatus := λ id st, on_memory (do* _ := zoom mm_store with_store (setStatus id st) in Done (Ok tt));
  pv_runGeneral := λ _ doc chunks depth,
    on_memory (on_candidates (do* r := runGeneral doc chunks true (Some depth) in Done (unit_result r)));
  pv_runGeneralGroup := λ _ docs texts depth,
    on_memory (on_candidates (do* r := runGeneralGroup docs texts (Some depth) in Done (unit_result r)));
  pv_commit := λ doc, on_memory (do* r := commitIfRunsSettled env am companyId doc in Done (commit_answer r));
  pv_enqueue := if pc_queue cfg
    then Some (λ retry key at_, do* _ := on_queue (enqueue (pc_uuid cfg key) (pass_job (iw_num (Z.of_nat retry)) key at_)) in Done tt) else None;
  pv_windowMs := pc_windowMs cfg; pv_budget := pc_budget cfg; pv_settleMs := pc_settleMs cfg; pv_maxWaitMs := pc_maxWaitMs cfg;
  pv_floor := pc_floor cfg; pv_number := pc_number cfg; pv_interleave := pc_interleave cfg
|}.
End memory.

(** ** The runs stay those of the waiting documents *)

Section laws.
Context (U : list string).

(** One row per slot, each of a document of [U]. *)
Record runs_within (l : Ledger) : Prop := {
  rw_slots : slots_ok l;
  rw_docs : ∀ id r, lg_runs l !! id = Some r → rk_docId (rn_key r) ∈ U
}.

Definition stays (l l' : Ledger) : Prop := runs_within l → runs_within l'.

Lemma stays_refl l : stays l l.
Proof. by intros ?. Qed.

Lemma within_kept l m :
  runs_within l → slots_ok (with_runs m l) → (∀ id r', m !! id = Some r' → ∃ r, lg_runs l !! id = Some r ∧ rn_key r' = rn_key r) →
  runs_within (with_runs m l).
Proof. intros [Hs Hd] Hs' Hk. split; [done|]. intros id r' Hr. destruct (Hk id r' Hr) as (r & Hr0 & ->). eauto. Qed.

Lemma create_stays k st ext l : rk_docId k ∈ U → stays l (create_run k st ext l).1.
Proof.
  intros Hk [Hs Hd]. split; [by apply create_run_slots|]. unfold create_run. destruct (find_run k l); [done|]. cbn.
  intros id r. rewrite lookup_insert. case_decide; [intros [= <-]; done|apply Hd].
Qed.

Lemma alter_key (g : RunRow → RunRow) (id : string) (m : gmap string RunRow) :
  (∀ r, rn_key (g r) = rn_key r) → ∀ i r', alter g id m !! i = Some r' → ∃ r, m !! i = Some r ∧ rn_key r' = rn_key r.
Proof.
  intros Hg i r'. rewrite lookup_alter. case_decide; [subst|by eauto]. intros (r & Hr & ->)%fmap_Some. eauto.
Qed.

Lemma reopen_stays id st l : stays l (reopen_cas id st l).1.
Proof.
  intros Hl. unfold reopen_cas. destruct (lg_runs l !! id) as [r|] eqn:E; [|done]. case_bool_decide; [|done].
  apply within_kept; [done|apply (slots_insert id r); [done|done|apply Hl]|].
  intros i r'. rewrite lookup_insert. case_decide; [subst; intros [= <-]; eauto|eauto].
Qed.

Context `{IndexerWorld}.

Lemma claim_stays k : rk_docId k ∈ U → always stays (claim_run k).
Proof.
  intros Hk. unfold claim_run. destruct (iw_opens k); [done|]. apply always_bind; [|by intros [h|e]].
  unfold createRun. apply always_bind; [apply always_update; intros l; by apply create_stays|].
  intros [id|]; [done|]. apply always_bind; [apply always_query, stays_refl|]. intros [[id r]|]; [|done].
  destruct (reopenable _ _ r); [|done]. apply always_bind; [by apply always_exec; intros l [? ?]; split|]. intros _.
  apply always_bind; [apply always_update; intros l; apply reopen_stays|done].
Qed.

Lemma close_stays id st err raw : always stays (close_run id st err raw).
Proof.
  unfold close_run. destruct (iw_closes id st); [done|]. apply always_bind; [|done]. apply always_exec. intros l Hl.
  apply within_kept; [done|apply finalize_slots, Hl|by apply alter_key].
Qed.

Lemma stage_stays d id seq b : always stays (stage_batch d id seq b).
Proof.
  unfold stage_batch. destruct (iw_stages id seq); [by destruct (_ =? 0)|]. apply always_bind; [|done].
  unfold insertBatch. apply always_bind; [|done]. destruct (0 <? _); [|done]. apply always_exec. by intros l [? ?]; split.
Qed.

Lemma staged_stays {A} (p : prog Ledger (result ReadError A)) : always stays p → always stays (staged p).
Proof. intros Hp. unfold staged. by apply always_bind. Qed.

Lemma fail_stays id e : always stays (fail_run id e).
Proof. unfold fail_run. apply always_bind; [apply close_stays|done]. Qed.

Lemma settle_chunks_stay spec id order acc : always stays (settle_chunks spec id order acc).
Proof.
  revert acc. induction order as [|i order IH]; intros acc; cbn [settle_chunks]; [done|].
  destruct (is_chunks spec !! i); [|apply IH]. apply always_bind; [|intros r; apply IH].
  unfold read_chunk. destruct (chunk_read spec _); [apply stage_stays|done].
Qed.

Lemma try_stays {A B} (p : prog Ledger (result ReadError A)) (k : A → prog Ledger (result ReadError B)) :
  always stays p → (∀ a, always stays (k a)) → always stays (ebind p k).
Proof. intros Hp Hk. apply always_bind; [done|]. by intros [a|e]. Qed.

Lemma runIndexer_stays spec : rk_docId (spec_key spec) ∈ U → always stays (runIndexer spec).
Proof.
  intros Hk. apply try_stays; [by apply claim_stays|]. intros h. destruct (negb (rh_created h)); [done|].
  apply always_bind; [apply settle_chunks_stay|]. intros acc. cbn zeta. apply always_bind.
  { destruct (failure _); [done|apply close_stays]. }
  intros [u|e]; [done|]. apply always_bind; [apply fail_stays|done].
Qed.

Lemma keepRaw_stays doc : doc_record (sd_id doc) ∈ U → always stays (keepRaw doc).
Proof.
  intros Hk. apply try_stays; [by apply claim_stays|]. intros h. destruct (negb (rh_created h)); [done|].
  apply try_stays; [apply close_stays|done].
Qed.

Lemma claimGroup_stays docs claimed results :
  (∀ d, d ∈ docs → doc_record (sd_id d) ∈ U) → always stays (claimGroup docs claimed results).
Proof.
  revert claimed results. induction docs as [|d docs IH]; intros claimed results Hk; cbn [claimGroup]; [done|].
  apply try_stays; [apply claim_stays, Hk; left|]. intros h.
  destruct (rh_created h); apply IH; intros x Hx; apply Hk; by right.
Qed.

Lemma stage_members_stay ms depth fin res : always stays (stage_members ms depth fin res).
Proof.
  revert fin res. induction ms as [|[m part] ms IH]; intros fin res; cbn [stage_members]; [done|].
  apply always_bind; [apply staged_stays, stage_stays|]. intros [c|e]; [|done].
  apply always_bind; [apply staged_stays, close_stays|]. intros [u|e]; [apply IH|done].
Qed.

Lemma failRuns_stay ids e : always stays (failRuns ids e).
Proof. induction ids as [|id ids IH]; cbn [failRuns]; [done|]. apply always_bind; [apply fail_stays|by intros _]. Qed.

Lemma group_stays docs texts depth :
  (∀ d, d ∈ docs → doc_record (sd_id d) ∈ U) → always stays (runGeneralGroup docs texts depth).
Proof.
  intros Hk. apply try_stays; [by apply claimGroup_stays|]. intros c. destruct (_ =? 0); [done|].
  apply try_stays; [|done]. unfold settle_group. apply always_bind.
  - unfold read_group. cbn zeta. destruct (iw_aborted _); [done|]. destruct (iw_extract _ _ _ _); [apply stage_members_stay|done].
  - intros [fin [rs|e]]; cbn [fst snd]; [done|]. apply always_bind; [apply failRuns_stay|done].
Qed.
End laws.

(** ** A commit leaves the runs alone *)

Section commit.
Context `{CommitServices, Script, Models, ResolverServices, Calendar} (env : CommitEnv).

(** The runs are the same. *)
Definition runs_same (s s' : Memory) : Prop := mm_runs s' = mm_runs s.

#[local] Hint Resolve always_on_graph always_on_relations always_on_turns always_on_archive always_on_facts : core.

Lemma keeps_runs {A} (p : prog Memory A) : always keeps p → always runs_same p.
Proof.
  revert p. fix IH 1. intros [a|f] Hp; cbn in *; [done|]. intros s. destruct (Hp s) as [[Hr _ _ _ _] Hp']. split; [exact Hr|]. by apply IH.
Qed.

Lemma always_read {A} (f : Memory → A) : always keeps (query f).
Proof. apply always_query, keeps_refl. Qed.

Lemma always_try {A B} (p : prog Memory (result http_exn A)) (k : A → prog Memory (result http_exn B)) :
  always keeps p → (∀ a, always keeps (k a)) → always keeps (ebind p k).
Proof. intros Hp Hk. apply always_bind; [done|]. by intros [a|e]. Qed.

Lemma prejudge_keeps am merge l : always keeps (prejudge_all env am merge l).
Proof. induction l as [|me l IH]; cbn [prejudge_all]; [done|]. apply always_bind; [auto|]. intros v. by apply always_bind. Qed.

Lemma resolve_entities_keeps am doc ps merge pre created l : always keeps (resolve_entities env am doc ps merge pre created l).
Proof.
  revert created. induction l as [|me l IH]; intros created; cbn [resolve_entities]; [done|].
  apply always_try; [auto|]. intros r. by apply always_try.
Qed.

Lemma documentTurns_keeps am reuse doc : always keeps (documentTurns env am reuse doc).
Proof.
  unfold documentTurns. destruct (_ || _); [done|]. destruct (internalMetaString _ _); [done|].
  apply always_bind; [apply always_read|]. intros r. cbn zeta. destruct (_ =? 0); [done|].
  apply always_bind; [by destruct reuse; [auto|]|]. intros [ids|]; [done|]. apply always_bind; [auto|done].
Qed.

Lemma write_fact_keeps am cid doc turns share types eid mf emb : always keeps (write_fact env am cid doc turns share types eid mf emb).
Proof.
  unfold write_fact. cbn zeta. apply always_bind; [apply always_on_facts|]. intros [x|e]; [|done]. cbn zeta.
  destruct (ro_factId (rs_result x)); [|done]. destruct share; [|done]. destruct (isPortable _ _ _); [|done].
  apply always_bind; [|done]. unfold shareOutOfCircle. apply always_bind; [apply always_on_facts|done].
Qed.

Lemma write_facts_keeps am cid doc turns share ids types embs i l :
  always keeps (write_facts env am cid doc turns share ids types embs i l).
Proof.
  revert i. induction l as [|mf l IH]; intros i; cbn [write_facts]; [done|]. apply always_bind.
  - destruct (truthy _); [apply write_fact_keeps|done].
  - intros o. by apply always_bind.
Qed.

Lemma writeRelations_keeps am doc ids l : always keeps (writeRelations env am doc ids l).
Proof.
  induction l as [|mr l IH]; cbn [writeRelations]; [done|]. apply always_bind.
  - do 2 (destruct (truthy _); [|done]). destruct (bool_decide _); [done|auto].
  - intros e. by apply always_bind.
Qed.

Lemma writeMerged_keeps am cid doc merge facts embs : always keeps (writeMerged env am cid doc merge facts embs).
Proof.
  unfold writeMerged. cbn zeta. apply always_try.
  { unfold resolveEntities. cbn zeta. apply always_bind; [apply prejudge_keeps|]. intros pre. apply resolve_entities_keeps. }
  intros ids. apply always_bind; [apply documentTurns_keeps|]. intros turns. apply always_bind.
  { unfold writeFacts. apply always_bind; [|intros share; apply write_facts_keeps].
    unfold portableShareTarget. cbn zeta. destruct (_ =? 0); [done|]. destruct (truthy _); [|done].
    apply always_bind; [apply always_read|done]. }
  intros os. apply always_bind; [apply writeRelations_keeps|]. intros rs. apply always_bind; [|done].
  unfold retireDropped. destruct (internalMetaString _ _); [|done]. apply always_bind; [auto|done].
Qed.

Lemma project_runs am doc pending : always runs_same (project_scenes env am doc pending).
Proof.
  unfold project_scenes. cbn zeta. destruct (_ && _); [|done]. apply always_bind; [|done].
  eapply always_zoom_in; [|apply always_projectDocument]. intros t s [Hr _ _ _]. exact Hr.
Qed.

Lemma commit_runs am cid doc : always runs_same (commitIfRunsSettled env am cid doc).
Proof.
  unfold commitIfRunsSettled. apply always_bind; [by apply always_query|]. intros open. destruct (0 <? open); [done|].
  apply always_bind; [|by intros [r|e]]. unfold commitLocked. apply always_bind; [by apply always_query|]. intros pending.
  destruct (_ =? 0); [done|]. cbn zeta. apply always_bind; [apply keeps_runs, writeMerged_keeps|]. intros [w|e]; [|done].
  apply always_bind.
  { unfold markStatuses. destruct (_ =? 0); [done|]. eapply (always_zoom_in _ _ (λ l l', lg_runs l' = lg_runs l)).
    - intros l s Hr. exact Hr.
    - by apply always_exec. }
  intros _. apply always_bind; [apply project_runs|done].
Qed.
End commit.

(** ** The services keep their promises *)

Section kept.
Context `{CommitServices, Script, Models, ResolverServices, Calendar, IndexerWorld}.
Context (env : CommitEnv) (am : Ambient) (companyId : string) (cfg : PassConfig) (U : list string).

(** [U] holds record ids. *)
Hypothesis U_records : ∀ id, id ∈ U → doc_record id = id.

(** The runs of the memory are those of [U], a slot each. *)
Definition runs_in (s : PassState) : Prop := runs_within U (ledger_view (ps_memory s)).

(** What any call may do to the memory: it leaves them so. *)
Definition leaves (s s' : PassState) : Prop := runs_in s → runs_in s'.

Definition known_doc (d : StoredDocument) : Prop := doc_record (sd_id d) ∈ U.

Lemma leaves_refl s : leaves s s.
Proof. by intros ?. Qed.

Lemma runs_only (l l' : Ledger) : lg_runs l' = lg_runs l → stays U l l'.
Proof. intros E [Hs Hd]. split; [intros i j r1 r2|intros id r]; rewrite E; [apply Hs|apply Hd]. Qed.

Lemma on_memory_leaves {A} (p : prog Memory A) : always runs_same p → always leaves (on_memory p).
Proof. apply always_zoom_in. intros t s E. by apply runs_only. Qed.

Lemma on_runs_leaves {A} (p : prog Ledger A) : always (stays U) p → always leaves (on_memory (on_candidates p)).
Proof.
  intros Hp. unfold on_memory. apply (always_zoom_in _ _ (λ m m', stays U (ledger_view m) (ledger_view m'))).
  - intros t s Ht. exact Ht.
  - unfold on_candidates. eapply always_zoom_in; [|exact Hp]. intros l m Hl Hm. destruct (Hl Hm) as [Hs Hd]. by split.
Qed.

Lemma query_leaves {A} (f : PassState → A) : always leaves (query f).
Proof. apply always_query, leaves_refl. Qed.

Lemma exec_leaves (f : PassState → PassState) : (∀ s, ps_memory (f s) = ps_memory s) → always leaves (exec f).
Proof. intros Hf. apply always_exec. intros s. unfold leaves, runs_in. by rewrite Hf. Qed.

Lemma awaits_key id v failed exclude r1 r2 :
  awaits id v failed exclude r1 = true → awaits id v failed exclude r2 = true → rk_docId (rn_key r1) = rk_docId (rn_key r2) →
  rn_key r1 = rn_key r2.
Proof.
  unfold awaits, of_pack. rewrite !andb_true_iff, !bool_decide_eq_true. destruct (rn_key r1), (rn_key r2). cbn. intuition congruence.
Qed.

(** One waiting entry per document, none of those left out. *)
Lemma awaited failed exclude l :
  runs_within U l →
  let ws := map waiting_of (listAwaitingRuns GENERAL_INDEXER_ID GENERAL_INDEXER_VERSION failed PASS_DOCS exclude l) in
  NoDup (map wt_docId ws) ∧ ∀ w, w ∈ ws → wt_docId w ∈ U ∧ wt_docId w ∉ exclude.
Proof.
  intros [Hs Hd] ws. set (all := map snd (map_to_list (lg_runs l))).
  set (p := awaits GENERAL_INDEXER_ID GENERAL_INDEXER_VERSION failed exclude).
  set (taken := take PASS_DOCS (merge_sort (read_before l) (List.filter p all))).
  assert (El : map wt_docId ws = (λ r, rk_docId (rn_key r)) <$> taken).
  { unfold ws, listAwaitingRuns. by rewrite !map_map. }
  assert (Hall : ∀ r, r ∈ all → ∃ id, lg_runs l !! id = Some r).
  { intros r ([id r'] & -> & Hin)%list_elem_of_fmap. exists id. by apply elem_of_map_to_list. }
  assert (Hrow : ∀ r, r ∈ taken → r ∈ all ∧ p r = true).
  { intros r Hr. apply elem_of_bfilter. rewrite <- (merge_sort_Permutation (read_before l)).
    eapply elem_of_sublist; [exact Hr|apply sublist_take]. }
  split.
  - rewrite El. apply NoDup_fmap_2_strong.
    + intros r1 r2 [Hr1 P1]%Hrow [Hr2 P2]%Hrow E. destruct (Hall r1 Hr1) as [i Hi], (Hall r2 Hr2) as [j Hj].
      enough (i = j) by (subst; congruence). eapply Hs; [exact Hi|exact Hj|]. eapply awaits_key; [exact P1|exact P2|exact E].
    + eapply sublist_NoDup; [|apply sublist_take]. rewrite merge_sort_Permutation. apply NoDup_bfilter, NoDup_fmap_2_strong; [|apply NoDup_map_to_list].
      intros [i r1] [j r2] Hi%elem_of_map_to_list Hj%elem_of_map_to_list E. cbn in E. subst r2. f_equal. eapply Hs; [exact Hi|exact Hj|done].
  - intros w Hw. assert (Hk : wt_docId w ∈ map wt_docId ws) by by apply list_elem_of_fmap_2.
    rewrite El in Hk. apply list_elem_of_fmap in Hk as (r & -> & [Hr Hp]%Hrow). destruct (Hall r Hr) as [i Hi]. split; [by eapply Hd|].
    unfold p, awaits in Hp. apply andb_true_iff in Hp as [_ Hp]. by apply negb_true_iff, bool_decide_eq_false in Hp.
Qed.

Lemma settles_stmt {A} (f : PassState → PassState * prog PassState A) (Q : A → Prop) :
  (∀ s, leaves s (f s).1) → (∀ s, runs_in s → ∃ a, (f s).2 = Done a ∧ Q a) → settles leaves runs_in (Stmt f) Q.
Proof.
  intros Hl Hf s Hs. specialize (Hl s). destruct (Hf s Hs) as (a & E & Ha). destruct (f s) as [s' p']. cbn in *. subst p'.
  split; [exact Hl|]. exists runs_in. split_and!; [by apply Hl|by intros ? ? ? HR; apply HR|]. by intros s0 Hs0.
Qed.

#[export] Instance memory_keeps_its_promises :
  @PassLaws PassState (MemoryServices env am companyId cfg) leaves runs_in U known_doc.
Proof.
  split; cbn [MemoryServices pv_now pv_aborted pv_renew pv_list pv_getById pv_getChunks pv_triageText pv_setTriage pv_inUse
    pv_remember pv_keepRaw pv_setStatus pv_runGeneral pv_runGeneralGroup pv_commit pv_enqueue].
  - by intros s s' Hs HR; apply HR.
  - apply query_leaves.
  - apply query_leaves.
  - done.
  - intros failed exclude. apply settles_stmt; [by intros s ?|]. intros s Hs. eexists. split; [reflexivity|]. by apply awaited.
  - intros id Hid. apply settles_stmt; [by intros s ?|]. intros s Hs. eexists. split; [reflexivity|].
    intros x (d & Hd & ->)%fmap_Some. unfold getById in Hd. apply fmap_Some in Hd as (r & _ & ->). unfold known_doc. cbn.
    by rewrite !U_records by (by rewrite ?U_records).
  - intros id. by apply on_memory_leaves, always_query.
  - done.
  - intros id t. apply always_bind; [by apply exec_leaves|done].
  - intros f t u E. destruct (pc_inUse cfg) as [b|]; [|done]. injection E as <-.
    apply (on_memory_leaves (query (b t u))). by apply always_query.
  - done.
  - intros d Hd. apply on_runs_leaves, always_bind; [by apply keepRaw_stays|done].
  - intros id st. apply on_memory_leaves, always_bind; [|done]. by apply always_zoom.
  - intros _ d chunks depth Hd. apply on_runs_leaves, always_bind; [|done]. apply runIndexer_stays. exact Hd.
  - intros _ ds texts depth Hd. apply on_runs_leaves, always_bind; [by apply group_stays|done].
  - intros d _. apply on_memory_leaves, always_bind; [apply commit_runs|done].
  - intros f r k a E. destruct (pc_queue cfg); [|done]. apply (inj Some) in E as <-. apply always_bind; [|done]. apply always_zoom. by intros t s ?.
Qed.
End kept.

(** ** Two turns of one conversation *)

Definition turn_doc (at_ : Z) : DocumentRow :=
  {| dn_kind := "mention"; dn_originUri := None; dn_title := None; dn_contentHash := "h"; dn_charLen := 19; dn_chunkCount := 1;
     dn_hasContent := true; dn_vertical := "v"; dn_recorder := None; dn_occurredAt := at_;
     dn_meta := Some [("conversationId", VStr "c1")]; dn_status := "stored"; dn_userId := Some "u"; dn_scope := [] |}.

Definition awaiting (docId : string) : RunRow :=
  {| rn_key := {| rk_docId := docId; rk_packId := GENERAL_INDEXER_ID; rk_packVersion := GENERAL_INDEXER_VERSION |}; rn_status := RPending;
     rn_external := false; rn_claimToken := None; rn_createdAt := 0; rn_finishedAt := None; rn_error := None; rn_raw := false;
     rn_priority := None |}.

Definition sample_ids : list string := ["source_document:1"; "source_document:2"].

Definition two_turns : PassState :=
  {| ps_memory :=
       {| mm_store := {| st_docs := {["source_document:1" := turn_doc 1; "source_document:2" := turn_doc 2]};
                         st_chunks := {["source_document:1" := [sample_chunk 0 "Ada lives in Paris."];
                                        "source_document:2" := [sample_chunk 0 "Bob moved to Rome, Ada stays."]]};
                         st_facts := no_facts; st_members := [] |};
          mm_graph := no_graph; mm_turns := {| tn_rows := ∅; tn_dirty := ∅; tn_now := 40 |};
          mm_runs := {["r1" := awaiting "source_document:1"; "r2" := awaiting "source_document:2"]}; mm_cands := ∅; mm_now := 60;
          mm_scenes := ∅; mm_fails := [] |};
     ps_stamps := ∅; ps_queue := {| q_rows := ∅; q_now := 60 |} |}.

Definition plain_config : PassConfig :=
  {| pc_windowMs := 5000; pc_budget := {| bg_maxChars := 6000; bg_maxDocs := 8 |}; pc_settleMs := 0; pc_maxWaitMs := 0; pc_floor := 0.5%float;
     pc_number := λ _, "n"; pc_interleave := λ _, [0; 1; 1; 0]; pc_aborted := λ _, false; pc_judge := None; pc_inUse := None;
     pc_queue := true; pc_uuid := λ key, key |}.

(** A reader that cannot read what holds the words given. *)
Definition picky_world (words : string) : IndexerWorld :=
  {| iw_num := λ _, 0%float; iw_sha256 := λ s, s; iw_iso_date := λ _, "2026-01-01"; iw_number := λ _, "1"; iw_staleMs := 1000;
     iw_clock := λ _, 0%Z; iw_model := "m"; iw_aborted := λ _, false;
     iw_extract := λ _ _ _ t, if String.index 0 words t then Throw (ReadFailed None "timeout") else Ok sample_result;
     iw_finish := λ cs, reverse (seq 0 (length cs)); iw_opens := λ _, None; iw_stages := λ _ _, None; iw_closes := λ _ _, None |}.

Definition picky_services (words : string) : PassServices PassState :=
  @MemoryServices plain_services ascii_script example_models sample_services no_days (picky_world words)
    plain_env no_ambient "co" plain_config.

Definition sample_pass (words : string) (fuel : nat) : prog PassState (option (PassOutcome * list string)) :=
  @pass PassState (picky_services words) fuel 0 true.

Lemma two_turns_within : runs_in sample_ids two_turns.
Proof.
  assert (Hrows : ∀ id r, lg_runs (ledger_view (ps_memory two_turns)) !! id = Some r →
    (id = "r1" ∧ r = awaiting "source_document:1") ∨ (id = "r2" ∧ r = awaiting "source_document:2")).
  { intros id r. change (lg_runs (ledger_view (ps_memory two_turns))) with
      (<["r1" := awaiting "source_document:1"]> (<["r2" := awaiting "source_document:2"]> (∅ : gmap string RunRow))).
    rewrite !lookup_insert. repeat case_decide; [intros [= <-]; auto..|by rewrite lookup_empty]. }
  split.
  - intros i j r1 r2 [[-> ->]|[-> ->]]%Hrows [[-> ->]|[-> ->]]%Hrows; done.
  - intros id r [[-> ->]|[-> ->]]%Hrows; cbn; [left|right; left].
Qed.

Lemma sample_ids_records id : id ∈ sample_ids → doc_record id = id.
Proof. unfold sample_ids. rewrite !elem_of_cons, elem_of_nil. by intros [->|[->|[]]]. Qed.

Lemma pass_ends_witness :
  ∃ s' o attempted, run (sample_pass "Ada lives" 3) two_turns = (s', Some (o, attempted)) ∧ NoDup attempted ∧
    (∀ id, id ∈ attempted → id ∈ sample_ids) ∧ ct_read (po_counts o) + ct_failed (po_counts o) ≤ length attempted.
Proof.
  destruct (run (sample_pass "Ada lives" 3) two_turns) as [s' r] eqn:E.
  pose proof (@pass_ends PassState (picky_services "Ada lives") (leaves sample_ids) (runs_in sample_ids) sample_ids (known_doc sample_ids)
    (@memory_keeps_its_promises plain_services ascii_script example_models sample_services no_days (picky_world "Ada lives")
       plain_env no_ambient "co" plain_config sample_ids sample_ids_records) 3 0 true ltac:(cbn; lia)) as T.
  apply (ensures_run _ _ _ _ two_turns) in T; [|exact two_turns_within].
  change (pass 3 0 true) with (sample_pass "Ada lives" 3) in T. rewrite E in T. cbn [fst snd] in T.
  destruct T as (o & attempted & -> & H1 & H2 & H3 & _). exists s', o, attempted. split_and!; done.
Defined.

(** What a run of the memory ends as: counts, runs, documents, candidates, jobs. *)
Definition seen (c : PassState * option (PassOutcome * list string)) :=
  (po_counts <$> (fst <$> c.2), map (λ kv, (kv.1, rn_status kv.2)) (map_to_list (mm_runs (ps_memory c.1))),
   map (λ kv, (kv.1, dn_status kv.2)) (map_to_list (st_docs (mm_store (ps_memory c.1)))),
   map (λ kv, (sg_runId kv.2, sg_status kv.2)) (map_to_list (mm_cands (ps_memory c.1))), map (λ kv, (jr_jobType kv.2, jr_dedupKey kv.2)) (map_to_list (q_rows (ps_queue c.1)))).

(** Both turns are read together, and committed. *)
Example pass_reads_and_commits :
  seen (run (sample_pass "Eve" 3) two_turns) =
  (Some {| ct_read := 2; ct_failed := 0; ct_committed := 2 |}, [("r1", RSucceeded); ("r2", RSucceeded)],
   [("source_document:1", "committed"); ("source_document:2", "committed")],
   [("r2", CCommitted); ("r1", CCommitted); ("r2", CCommitted); ("r1", CCommitted)], []).
Proof. vm_compute. reflexivity. Qed.

(** The turn that cannot be read costs the other nothing: the group is halved, the half that
    is read is committed, and a pass over the failed run is asked for. *)
Example pass_halves_and_retries :
  seen (run (sample_pass "Ada lives" 3) two_turns) =
  (Some {| ct_read := 1; ct_failed := 1; ct_committed := 1 |}, [("r1", RFailed); ("r2", RSucceeded)],
   [("source_document:1", "stored"); ("source_document:2", "committed")], [("r2", CCommitted); ("r2", CCommitted); ("r2", CCommitted); ("r2", CCommitted)], [("extract_documents", Some "xdoc_rn_n")]).
Proof. vm_compute. reflexivity. Qed.
