(* ===== verification/Routing.v ===== *)
(** * Which packs read a document

    [indexers/routing.ts] and [indexers/indexer-router.service.ts]: the bindings of a tenant,
    the rules over the head of a document, the embedding gate behind them and the cap; with
    [common/vector-math.ts]. The packs the service ships with and the embedder are
    arguments; traces are left out. *)

From S2P Require Import Prelude Js Doubles RunLedger Grounding ExtractionGroup.
From stdpp Require Import gmap.
From Stdlib Require Import Ascii Floats Sorted.
Local Open Scope string_scope.
Local Open Scope nat_scope.

(** ** Similarity *)

(** The three sums of the loop. *)
Definition cosine_step (acc : float * float * float) (p : float * float) : float * float * float :=
  (acc.1.1 + p.1 * p.2, acc.1.2 + p.1 * p.1, acc.2 + p.2 * p.2)%float.

(** Without a norm of the caller's. *)
Definition cosineSimilarity (a b : list float) : float :=
  if (length a =? 0) || (length b =? 0) then 0%float
  else if negb (length a =? length b) then 0%float
  else
    let s := fold_left cosine_step (zip a b) (0, 0, 0)%float in
    let denom := (PrimFloat.sqrt s.1.2 * PrimFloat.sqrt s.2)%float in
    if PrimFloat.eqb denom 0 then 0%float else (s.1.1 / denom)%float.

Definition vectorNorm (v : list float) : float := PrimFloat.sqrt (fold_left (λ s x, s + x * x)%float v 0%float).

(** ** Bindings *)

Record IndexerRelevance := {
  rv_keywords : option (list string); rv_verticals : option (list string); rv_description : option string;
  rv_threshold : option float; rv_alwaysRun : option bool
}.

Record IndexerDescriptor := {
  ix_mode : option ExecutionMode; ix_relevance : option IndexerRelevance; ix_model : option string; ix_callbackUrl : option string
}.

(** Of a manifest, what routing reads. *)
Record PackManifest := { mn_id : string; mn_version : string; mn_description : string; mn_indexer : option IndexerDescriptor }.

(** A manifest with the version column of its row, which those shipped do not have. *)
Record InstalledPack := { ip_manifest : PackManifest; ip_installed : bool; ip_version : option string }.

Record IndexerBinding := {
  ib_indexerId : string; ib_packVersion : string; ib_mode : ExecutionMode; ib_description : string;
  ib_relevance : option IndexerRelevance; ib_model : option string; ib_callbackUrl : option string; ib_installed : bool; ib_declared : bool
}.

Definition binding_of (e : InstalledPack) : IndexerBinding :=
  let m := ip_manifest e in
  {| ib_indexerId := mn_id m; ib_packVersion := default (mn_version m) (ip_version e);
     ib_mode := default Virtual (mn_indexer m ≫= ix_mode); ib_description := mn_description m;
     ib_relevance := mn_indexer m ≫= ix_relevance; ib_model := mn_indexer m ≫= ix_model;
     ib_callbackUrl := mn_indexer m ≫= ix_callbackUrl; ib_installed := ip_installed e;
     ib_declared := match mn_indexer m with Some _ => true | None => false end |}.

(** The first of each id. *)
Fixpoint bind_all (seen : list string) (entries : list InstalledPack) : list IndexerBinding :=
  match entries with
  | [] => []
  | e :: entries' =>
      if bool_decide (mn_id (ip_manifest e) ∈ seen) then bind_all seen entries'
      else binding_of e :: bind_all (mn_id (ip_manifest e) :: seen) entries'
  end.

(** A row of [domain_pack]: its manifest, version and whether it is active. *)
Record PackRow := { dp_manifest : option PackManifest; dp_version : option string; dp_active : bool }.

(** [None]: reading the table failed. *)
Definition installedPacks (rows : option (list PackRow)) : list InstalledPack :=
  match rows with
  | None => []
  | Some rows =>
      omap (λ r, (λ m, {| ip_manifest := m; ip_installed := true; ip_version := dp_version r |}) <$> dp_manifest r)
        (List.filter dp_active rows)
  end.

Definition shipped (m : PackManifest) : InstalledPack := {| ip_manifest := m; ip_installed := false; ip_version := None |}.

Definition bindingsFor (builtin : list PackManifest) (rows : option (list PackRow)) : list IndexerBinding :=
  bind_all [] (app (map shipped builtin) (installedPacks rows)).

(** ** Rules *)

Record RoutingInput := { rt_vertical : string; rt_head : string; rt_requested : option (list string) }.

Definition DEFAULT_RELEVANCE_THRESHOLD : float := 0.3%float.
Definition ROUTER_HEAD_CHARS : nat := Z.to_nat 4000.

(** Neither a letter nor a number. *)
Definition edge (c : option ascii) : bool := match c with None => true | Some c => negb (letter_or_number c) end.

(** The pattern's [test]: somewhere between edges. *)
Fixpoint token_from (before : option ascii) (kw s : string) : bool :=
  (starts_with kw s && edge before && edge (String.get (String.length kw) s)) ||
  match s with String c s' => token_from (Some c) kw s' | EmptyString => false end.

Definition headMatchesKeyword (head keyword : string) : bool :=
  let kw := to_lower (trim keyword) in
  if bool_decide (kw = "") then false else token_from None kw head.

Definition mode_is (mode : ExecutionMode) (b : IndexerBinding) : bool :=
  match mode, ib_mode b with
  | Virtual, Virtual | Dedicated, Dedicated | External, External => true
  | _, _ => false
  end.

Definition lower_head (input : RoutingInput) : string := to_lower (str_take ROUTER_HEAD_CHARS (rt_head input)).

(** Asked for, always, or by its vertical. *)
Definition rule_l0 (input : RoutingInput) (b : IndexerBinding) : bool :=
  bool_decide (ib_indexerId b ∈ default [] (rt_requested input)) ||
  bool_decide ((ib_relevance b ≫= rv_alwaysRun) = Some true) ||
  match ib_relevance b ≫= rv_verticals with Some vs => bool_decide (rt_vertical input ∈ vs) | None => false end.

(** By a keyword. *)
Definition rule_l1 (input : RoutingInput) (b : IndexerBinding) : bool :=
  match ib_relevance b ≫= rv_keywords with Some ks => existsb (headMatchesKeyword (lower_head input)) ks | None => false end.

Definition by_rule (input : RoutingInput) (b : IndexerBinding) : bool := rule_l0 input b || rule_l1 input b.

Definition description_of (b : IndexerBinding) : option string := (ib_relevance b ≫= rv_description) ≫= λ d, truthy (Some d).

Record RuleRoutingResult := { rr_selected : list IndexerBinding; rr_needEmbedding : list IndexerBinding }.

Fixpoint routeByRules (bindings : list IndexerBinding) (input : RoutingInput) (mode : ExecutionMode) : RuleRoutingResult :=
  match bindings with
  | [] => {| rr_selected := []; rr_needEmbedding := [] |}
  | b :: bindings' =>
      let r := routeByRules bindings' input mode in
      if negb (mode_is mode b) then r
      else if by_rule input b then {| rr_selected := b :: rr_selected r; rr_needEmbedding := rr_needEmbedding r |}
      else
        match description_of b with
        | Some _ => {| rr_selected := rr_selected r; rr_needEmbedding := b :: rr_needEmbedding r |}
        | None => r
        end
  end.

(** ** The embedding gate, and the cap *)

Section router.
Variable embed : string → option (list float).

Definition threshold_of (b : IndexerBinding) : float := default DEFAULT_RELEVANCE_THRESHOLD (ib_relevance b ≫= rv_threshold).

(** A pack whose description cannot be embedded is passed over. *)
Definition gate (headVec : list float) (b : IndexerBinding) : option (IndexerBinding * float) :=
  match description_of b ≫= embed with
  | None => None
  | Some descVec =>
      let sim := cosineSimilarity headVec descVec in
      if PrimFloat.leb (threshold_of b) sim then Some (b, sim) else None
  end.

Definition more_similar (a b : IndexerBinding * float) : bool := PrimFloat.leb b.2 a.2.

Definition routeByEmbedding (candidates : list IndexerBinding) (input : RoutingInput) : list IndexerBinding :=
  match candidates with
  | [] => []
  | _ =>
      match embed (str_take ROUTER_HEAD_CHARS (rt_head input)) with
      | None => []
      | Some headVec => map fst (stable_sort more_similar (omap (gate headVec) candidates))
      end
  end.

(** Of a whole number in MAX_DEDICATED_INDEXERS_PER_DOC; [None] when it holds none. *)
Definition maxDedicatedPerDoc (v : option Z) : nat :=
  match v with Some n => if (0 <? n)%Z then Z.to_nat n else 8 | None => 8 end.

Definition route (bindings : list IndexerBinding) (cap : option Z) (input : RoutingInput) (mode : ExecutionMode) : list IndexerBinding :=
  let r := routeByRules bindings input mode in
  let ranked := app (rr_selected r) (routeByEmbedding (rr_needEmbedding r) input) in
  take (maxDedicatedPerDoc cap) ranked.
End router.

(** ** Bindings, one per pack *)

Lemma bind_all_ids seen entries b :
  b ∈ bind_all seen entries → ib_indexerId b ∉ seen ∧ ∃ e, e ∈ entries ∧ b = binding_of e.
Proof.
  revert seen. induction entries as [|e es IH]; intros seen; cbn; [by intros H%elem_of_nil|].
  case_bool_decide as Hs; [|intros [->|Hb]%elem_of_cons].
  - intros [H1 (x & Hx & Ex)]%IH. split; [done|]. exists x. split; [by right|done].
  - split; [done|]. exists e. split; [left|done].
  - apply IH in Hb as [H1 (x & Hx & ->)]. split; [by intros H2; apply H1; right|]. exists x. split; [by right|done].
Qed.

Lemma bind_all_once seen entries : NoDup (map ib_indexerId (bind_all seen entries)).
Proof.
  revert seen. induction entries as [|e es IH]; intros seen; cbn; [constructor|]. case_bool_decide; [done|]. cbn.
  constructor; [|done]. intros (b & E & [Hb _]%bind_all_ids)%list_elem_of_fmap. apply Hb. rewrite <- E. left.
Qed.

Lemma bind_all_covers seen entries e :
  e ∈ entries → mn_id (ip_manifest e) ∉ seen → mn_id (ip_manifest e) ∈ map ib_indexerId (bind_all seen entries).
Proof.
  revert seen. induction entries as [|x es IH]; intros seen; [by intros H%elem_of_nil|]. cbn.
  intros [->|He]%elem_of_cons Hs; [rewrite bool_decide_eq_false_2 by done; left|].
  case_bool_decide; [by apply IH|]. cbn. destruct (decide (mn_id (ip_manifest e) = mn_id (ip_manifest x))) as [->|Hne]; [left|].
  right. apply IH; [done|]. by intros [?|?]%elem_of_cons.
Qed.

(** Every pack of the tenant has one binding; a pack the service ships is bound as shipped,
    whatever version of it a tenant has installed. *)
Lemma bindings_are_one_per_pack builtin rows :
  NoDup (map ib_indexerId (bindingsFor builtin rows)) ∧
  (∀ id, id ∈ map ib_indexerId (bindingsFor builtin rows) ↔
     id ∈ map mn_id builtin ∨ ∃ e, e ∈ installedPacks rows ∧ mn_id (ip_manifest e) = id) ∧
  ∀ b, b ∈ bindingsFor builtin rows → ib_indexerId b ∈ map mn_id builtin → ib_installed b = false.
Proof.
  split_and!; [apply bind_all_once| |].
  - intros id. split.
    + intros (b & -> & [_ (e & He & ->)]%bind_all_ids)%list_elem_of_fmap. apply elem_of_app in He as [He|He]; [left|right; eauto].
      apply list_elem_of_fmap in He as (m & -> & Hm). apply list_elem_of_fmap. by exists m.
    + intros [(m & -> & Hm)%list_elem_of_fmap|(e & He & <-)].
      * apply (bind_all_covers [] _ (shipped m)); [|by intros H%elem_of_nil]. apply elem_of_app. left. by apply list_elem_of_fmap_2.
      * apply bind_all_covers; [apply elem_of_app; by right|by intros H%elem_of_nil].
  - unfold bindingsFor. generalize (@nil string). induction builtin as [|m ms IH]; intros seen b; cbn; [by intros _ H%elem_of_nil|].
    case_bool_decide as Hs.
    + intros Hb [E|Hin]%elem_of_cons; [|by eapply IH]. apply bind_all_ids in Hb as [Hn _]. by rewrite E in Hn.
    + intros [->|Hb]%elem_of_cons; [done|]. intros [E|Hin]%elem_of_cons; [|by eapply IH]. apply bind_all_ids in Hb as [Hn _].
      exfalso. apply Hn. rewrite E. left.
Qed.

(** ** What routing gives *)

(** What comes before the rest of a text that begins with [pre]. *)
Fixpoint last_char (before : option ascii) (pre : string) : option ascii :=
  match pre with EmptyString => before | String c pre' => last_char (Some c) pre' end.

Lemma token_from_spec before kw s :
  token_from before kw s = true ↔
  ∃ pre post, s = pre +:+ kw +:+ post ∧ edge (last_char before pre) = true ∧ edge (String.get 0 post) = true.
Proof.
  assert (Hget : ∀ t, String.get (String.length kw) (kw +:+ t) = String.get 0 t).
  { intros t. rewrite <- (get_append_r kw t 0). by rewrite Nat.add_0_r. }
  assert (Hhere : ∀ s0, starts_with kw s0 && edge before && edge (String.get (String.length kw) s0) = true ↔
                        ∃ post, s0 = kw +:+ post ∧ edge before = true ∧ edge (String.get 0 post) = true).
  { intros s0. rewrite !andb_true_iff, starts_with_spec. split.
    - intros [[[t ->] Hb] Hp]. rewrite Hget in Hp. by exists t.
    - intros (t & -> & Hb & Hp). rewrite Hget. split_and!; [by exists t|done..]. }
  revert before Hhere. induction s as [|c s IH]; intros before Hhere; cbn [token_from]; rewrite orb_true_iff, Hhere.
  - split; [intros [(post & -> & Hb & Hp)|]; [by exists "", post|done]|]. intros (pre & post & E & Hb & Hp). left.
    destruct pre as [|a pre]; [by exists post|done].
  - rewrite IH by (intros s0; rewrite !andb_true_iff, starts_with_spec; split;
      [intros [[[t ->] ?] Hp]; rewrite Hget in Hp; by exists t|intros (t & -> & ? & ?); rewrite Hget; split_and!; [by exists t|done..]]).
    split.
    + intros [(post & E & Hb & Hp)|(pre & post & -> & Hb & Hp)]; [by exists "", post|by exists (String c pre), post].
    + intros ([|a pre] & post & E & Hb & Hp); [left; by exists post|right]. cbn in E. injection E as <- ->. by exists pre, post.
Qed.

(** A keyword triggers where it stands in the head as a whole, whatever its case, and not
    within a longer word. *)
Lemma keyword_stands_alone head keyword :
  let kw := to_lower (trim keyword) in
  headMatchesKeyword head keyword = true ↔
  kw ≠ "" ∧ ∃ pre post, head = pre +:+ kw +:+ post ∧ edge (last_char None pre) = true ∧ edge (String.get 0 post) = true.
Proof.
  intros kw. unfold headMatchesKeyword. fold kw. case_bool_decide as E; [|rewrite token_from_spec; naive_solver].
  split; [done|]. by intros [? _].
Qed.

Section routing.
Variable embed : string → option (list float).

(** The rules leave nothing out: a binding of the mode is selected, left to the gate, or gives
    nothing to route on. *)
Lemma rules_spec bindings input mode :
  rr_selected (routeByRules bindings input mode) = List.filter (λ b, mode_is mode b && by_rule input b) bindings ∧
  rr_needEmbedding (routeByRules bindings input mode) =
    List.filter (λ b, mode_is mode b && negb (by_rule input b) && match description_of b with Some _ => true | None => false end) bindings.
Proof.
  induction bindings as [|b bs [IH1 IH2]]; [done|]. cbn [routeByRules List.filter]. cbn zeta.
  destruct (mode_is mode b); [|done]. cbn [negb andb]. destruct (by_rule input b); cbn [negb andb rr_selected rr_needEmbedding]; [by rewrite IH1, IH2|].
  destruct (description_of b); cbn [rr_selected rr_needEmbedding]; by rewrite ?IH1, ?IH2.
Qed.

Lemma via_embedding_matches candidates input b :
  b ∈ routeByEmbedding embed candidates input →
  b ∈ candidates ∧ ∃ h v, embed (str_take ROUTER_HEAD_CHARS (rt_head input)) = Some h ∧ description_of b ≫= embed = Some v ∧
    PrimFloat.leb (threshold_of b) (cosineSimilarity h v) = true.
Proof.
  unfold routeByEmbedding. destruct candidates as [|c cs]; [by intros H%elem_of_nil|].
  destruct (embed (str_take _ _)) as [h|] eqn:Eh; [|by intros H%elem_of_nil].
  intros ([b' sim] & -> & Hb)%list_elem_of_fmap. rewrite stable_sort_perm in Hb. apply list_elem_of_omap in Hb as (x & Hx & Hg).
  unfold gate in Hg. destruct (description_of x ≫= embed) as [v|] eqn:Ev; [|done]. cbn zeta in Hg.
  destruct (PrimFloat.leb _ _) eqn:El; [|done]. injection Hg as <- <-. split; [done|]. by exists h, v.
Qed.

Lemma via_embedding_once candidates input :
  NoDup (map ib_indexerId candidates) → NoDup (map ib_indexerId (routeByEmbedding embed candidates input)).
Proof.
  intros Hnd. unfold routeByEmbedding. destruct candidates as [|c cs]; [constructor|]. destruct (embed _) as [h|]; [|constructor].
  set (l := c :: cs) in *. clearbody l. rewrite map_map, stable_sort_perm.
  induction l as [|x l IH]; cbn; [constructor|]. apply NoDup_cons in Hnd as [Hx Hl].
  assert (IH' := IH Hl). unfold gate at 1. destruct (description_of x ≫= embed); [|done]. cbn zeta. destruct (PrimFloat.leb _ _); [|done].
  cbn. constructor; [|done]. intros ([b sim] & E & Hb)%list_elem_of_fmap. apply list_elem_of_omap in Hb as (y & Hy & Hg).
  unfold gate in Hg. destruct (description_of y ≫= embed); [|done]. cbn zeta in Hg. destruct (PrimFloat.leb _ _); [|done]. injection Hg as <- <-.
  apply Hx, list_elem_of_fmap. by exists y.
Qed.

(** What is routed: bindings of the tenant in the mode asked for, each once, no more than
    the cap, each triggered by a rule or near enough to the head; those of a rule first. *)
Theorem routed_packs_have_a_reason bindings cap input mode :
  NoDup (map ib_indexerId bindings) →
  let routed := route embed bindings cap input mode in
  NoDup (map ib_indexerId routed) ∧ length routed ≤ maxDedicatedPerDoc cap ∧
  (∀ b, b ∈ routed → b ∈ bindings ∧ mode_is mode b = true ∧
     (by_rule input b = true ∨
      ∃ h v, embed (str_take ROUTER_HEAD_CHARS (rt_head input)) = Some h ∧ description_of b ≫= embed = Some v ∧
        PrimFloat.leb (threshold_of b) (cosineSimilarity h v) = true)) ∧
  ∀ b, b ∈ bindings → mode_is mode b = true → by_rule input b = true → b ∉ routed →
    length routed = maxDedicatedPerDoc cap ∧ Forall (λ x, by_rule input x = true) routed.
Proof.
  intros Hnd routed. destruct (rules_spec bindings input mode) as [Hs Hn].
  assert (Hranked : NoDup (map ib_indexerId (app (rr_selected (routeByRules bindings input mode))
    (routeByEmbedding embed (rr_needEmbedding (routeByRules bindings input mode)) input)))).
  { rewrite map_app. apply NoDup_app. rewrite Hs, Hn. split; [by apply NoDup_map_bfilter|].
    split; [|by apply via_embedding_once, NoDup_map_bfilter].
    intros id (x & -> & [Hx Hp]%elem_of_bfilter)%list_elem_of_fmap (y & E & Hy)%list_elem_of_fmap.
    apply via_embedding_matches in Hy as [[Hy Hq]%elem_of_bfilter _]. assert (x = y) as -> by (by eapply NoDup_map_inj).
    rewrite !andb_true_iff in *. destruct Hp as [_ Hp], Hq as [[_ Hq] _]. by rewrite Hp in Hq. }
  split_and!.
  - unfold routed, route. rewrite <- firstn_map. eapply sublist_NoDup; [exact Hranked|apply sublist_take].
  - unfold routed, route. rewrite length_take. lia.
  - intros b Hb. assert (Hin := elem_of_sublist _ _ _ Hb (sublist_take _ _)). apply elem_of_app in Hin as [Hin|Hin].
    + rewrite Hs in Hin. apply elem_of_bfilter in Hin as [Hin Hp]. apply andb_true_iff in Hp as [? ?]. eauto.
    + apply via_embedding_matches in Hin as [Hin (h & v & ? & ? & ?)]. rewrite Hn in Hin. apply elem_of_bfilter in Hin as [Hin Hp].
      rewrite !andb_true_iff in Hp. destruct Hp as [[? _] _]. split_and!; [done|done|]. right. by exists h, v.
  - intros b Hb Hm Hr Hno. unfold routed, route in *. set (sel := rr_selected _) in *. set (via := routeByEmbedding _ _ _) in *.
    assert (Hsel : b ∈ sel) by (rewrite Hs; apply elem_of_bfilter; by rewrite Hm, Hr).
    destruct (Nat.le_gt_cases (length sel) (maxDedicatedPerDoc cap)) as [Hle|Hgt].
    + exfalso. apply Hno. rewrite take_app. apply elem_of_app. left. by rewrite take_ge.
    + rewrite length_take, length_app. split; [lia|]. rewrite take_app_le by lia. apply Forall_take. rewrite Hs. apply Forall_forall.
      intros x [_ Hx]%elem_of_bfilter. by apply andb_true_iff in Hx as [_ ?].
Qed.
End routing.

(** ** On a few packs *)

Definition pack (id : string) (mode : ExecutionMode) (rv : option IndexerRelevance) : PackManifest :=
  {| mn_id := id; mn_version := "1"; mn_description := id;
     mn_indexer := Some {| ix_mode := Some mode; ix_relevance := rv; ix_model := None; ix_callbackUrl := None |} |}.

Definition triggers (ks : list string) (d : option string) : option IndexerRelevance :=
  Some {| rv_keywords := Some ks; rv_verticals := None; rv_description := d; rv_threshold := None; rv_alwaysRun := None |}.

Definition sample_packs : list PackManifest :=
  [pack "hr" Dedicated (triggers ["HR"] None); pack "code" Dedicated (triggers ["commit"] (Some "software")); pack "plain" Virtual None;
   pack "silent" Dedicated None; pack "crm" External (triggers ["deal"] None)].

(** Texts of one word are alike, all others are not. *)
Definition sample_embed (s : string) : option (list float) :=
  Some (if str_contains " " s then [1; 0]%float else [1; 1]%float).

Definition routed_ids (head : string) (requested : option (list string)) (mode : ExecutionMode) : list string :=
  map ib_indexerId (route sample_embed (bindingsFor sample_packs None) None {| rt_vertical := "v"; rt_head := head; rt_requested := requested |} mode).

Example words_are_matched_whole :
  routed_ids "Three deals with HR." None Dedicated = ["hr"; "code"] ∧ routed_ids "three" None Dedicated = ["code"] ∧
  routed_ids "deals" None External = [] ∧ routed_ids "a deal" None External = ["crm"] ∧
  routed_ids "three" (Some ["silent"]) Dedicated = ["silent"; "code"].
Proof. vm_compute. split_and!; reflexivity. Qed.
