(* ===== verification/DocumentFlow.v ===== *)
(** * From a post to the memory

    [documents/indexer-dispatch.service.ts], [documents/document-async.service.ts],
    [documents/document-ingest.service.ts] and [documents/tool-observation-meta.ts]: a
    document is stored, read by the packs it is routed to, here or by the jobs of the queue,
    and committed. On the memory with its queue ([PassMemory]); what goes wrong inside the
    statements of the parts it calls is theirs. The push hint of an external pack is left
    out. *)

From S2P Require Import Prelude Js Resume JobQueue CandidateMerge RunLedger ScopeTags TenantScope Names SceneProjection EventTime EntityMerge.
From S2P Require Import EdgeWriter FactSlots FactSettle FactLaws FactPolicy FactResolver FactWrites DocumentMeta DocumentText EpisodeStore DocumentStore.
From S2P Require Import EntityGraph EntityResolver EntityLadder CommitWriter CommitMemory CommitCases Grounding ExternalCandidates ExtractionGroup IndexerRun Routing.
From S2P Require Import ExtractionPass PassMemory.
From stdpp Require Import gmap.
Local Open Scope string_scope.
Local Open Scope nat_scope.

(** ** What is left open *)

Class FlowWorld := {
  (** [bindingsFor] of the tenant, and the router's embedder and cap. *)
  fw_bindings : list IndexerBinding;
  fw_embed : string → option (list float);
  fw_cap : option Z;
  (** DOCUMENT_MULTI_INDEXER_ENABLED, DOCUMENT_ALLOW_UNGROUNDED_EXTERNAL. *)
  fw_multi : bool;
  fw_ungrounded : bool;
  (** The extractor of a pack: queued or not, and the model it names by default. *)
  fw_extract : bool → IndexerBinding → string → result ReadError ExtractionResult;
  fw_modelId : string;
  fw_sha256 : string → string;
  fw_prepare : string → string;
  fw_store : StoreEnv;
  fw_chunksFail : bool;
  (** The tool observations: absent, or whether a reference is one of the tenant's. *)
  fw_tools : option (string → option (string * string));
  (** What is wired: the queue, the service over it, the batch pass. *)
  fw_claim : bool;
  fw_async : bool;
  fw_batch : option PassConfig;
  fw_uuid : string → string
}.

Inductive FlowError : Type :=
| FStore (e : StoreError)
| FHttp (e : http_exn)
| FMeta (e : MetaRefusal)
| FRead (e : ReadError).

Definition lift {S E E' A} (f : E → E') (p : prog S (result E A)) : prog S (result E' A) :=
  do* r := p in Done (match r with Ok a => Ok a | Throw e => Throw (f e) end).

Definition on_store {A} (q : prog DocStore A) : prog PassState A := on_memory (zoom mm_store with_store q).
Definition on_runs {A} (q : prog Ledger A) : prog PassState A := on_memory (on_candidates q).

(** What a caller asks for beside the document itself. *)
Inductive IndexerSelection : Type := SelGeneral | SelAuto | SelPacks (ids : list string).

Inductive OriginChannel : Type := ChApi | ChMcp | ChPackSeed | ChMention | ChEvidence | ChRelearn | ChSource.

(** [og_none] is [extraction = 'none'], which only a source has. *)
Record DocumentIngestOrigin := { og_channel : OriginChannel; og_internal : option Bag; og_none : bool }.

Definition originInternalMeta (o : DocumentIngestOrigin) : option Bag :=
  match og_channel o with ChMention | ChEvidence | ChRelearn | ChSource => og_internal o | _ => None end.

Record PostRequest := {
  pq_dto : IngestDocumentDto; pq_sync : bool; pq_indexers : option IndexerSelection; pq_toolObservationRef : option string;
  pq_origin : DocumentIngestOrigin
}.

Definition with_user (u : option string) (d : IngestDocumentDto) : IngestDocumentDto :=
  {| id_kind := id_kind d; id_originUri := id_originUri d; id_title := id_title d; id_text := id_text d; id_vertical := id_vertical d;
     id_recorder := id_recorder d; id_occurredAt := id_occurredAt d; id_meta := id_meta d; id_userId := u;
     id_storeContent := id_storeContent d |}.

(** A run as an answer lists it. *)
Inductive RunAnswer : Type := AnRead (st : ResultStatus) | AnEnqueued | AnAlreadyProcessed.

Record RunLine := { rl_runId : string; rl_packId : string; rl_status : RunAnswer }.

Definition line_of (r : IndexerRunResult) : RunLine :=
  {| rl_runId := ir_runId r; rl_packId := ir_packId r; rl_status := AnRead (ir_status r) |}.

(** The model a dedicated pack's candidates name. *)
Definition modelled (m : string) (w : IndexerWorld) : IndexerWorld :=
  {| iw_num := iw_num; iw_sha256 := iw_sha256; iw_iso_date := iw_iso_date; iw_number := iw_number; iw_staleMs := iw_staleMs;
     iw_clock := iw_clock; iw_model := m; iw_aborted := iw_aborted; iw_extract := iw_extract; iw_finish := iw_finish;
     iw_opens := iw_opens; iw_stages := iw_stages; iw_closes := iw_closes |}.

Section dispatch.
Context `{W : IndexerWorld, FlowWorld}.

(** ** Which packs read, and their reads *)

Definition selectRouted (doc : StoredDocument) (chunks : list DocumentChunk) (indexers : option IndexerSelection) (mode : ExecutionMode) :
    list IndexerBinding :=
  match default SelGeneral indexers with
  | SelGeneral => []
  | selection =>
      if negb fw_multi then []
      else
        route fw_embed fw_bindings fw_cap
          {| rt_vertical := sd_vertical doc; rt_head := match chunks with c :: _ => ck_text c | [] => "" end;
             rt_requested := match selection with SelPacks ids => Some ids | _ => None end |} mode
  end.

Definition selectDedicated doc chunks indexers : list IndexerBinding := selectRouted doc chunks indexers Dedicated.
Definition selectExternal doc chunks indexers : list IndexerBinding := selectRouted doc chunks indexers External.

Definition bindingFor (packId : string) : option IndexerBinding := find_first (λ b, bool_decide (ib_indexerId b = packId)) fw_bindings.

Definition binding_spec (doc : StoredDocument) (chunks : list DocumentChunk) (b : IndexerBinding) (background : bool) : IndexerRunSpec :=
  {| is_doc := doc; is_chunks := chunks; is_packId := ib_indexerId b; is_packVersion := ib_packVersion b; is_mode := Dedicated;
     is_depth := None; is_extract := fw_extract background b |}.

Definition runBinding doc chunks (b : IndexerBinding) (background : bool) : prog Ledger (result ReadError IndexerRunResult) :=
  runIndexer (H := modelled (default fw_modelId (ib_model b)) W) (binding_spec doc chunks b background).

(** One failed pack does not hold the document back. *)
Fixpoint run_dedicated (doc : StoredDocument) (chunks : list DocumentChunk) (bs : list IndexerBinding) : prog Ledger (list IndexerRunResult) :=
  match bs with
  | [] => Done []
  | b :: bs' =>
      do* r := runBinding doc chunks b false in
      let line := match r with Ok x => x | Throw _ => run_result "" (ib_indexerId b) RsFailed None end in
      do* l := run_dedicated doc chunks bs' in Done (line :: l)
  end.

Definition dispatchSync (doc : StoredDocument) (chunks : list DocumentChunk) (indexers : option IndexerSelection) (general : bool) :
    prog Ledger (result ReadError (list IndexerRunResult)) :=
  try* first := (if negb general then Done (Ok []) else try* r := runGeneral doc chunks false None in Done (Ok [r])) in
  do* rest := run_dedicated doc chunks (selectDedicated doc chunks indexers) in
  Done (Ok (app first rest)).

Fixpoint plan_all (doc : StoredDocument) (bs : list IndexerBinding) : prog Ledger (list IndexerRunResult) :=
  match bs with
  | [] => Done []
  | b :: bs' =>
      do* r := IndexerRun.planExternal (sd_id doc) (ib_indexerId b) (ib_packVersion b) in
      do* l := plan_all doc bs' in Done (r :: l)
  end.

Definition planExternal (doc : StoredDocument) (chunks : list DocumentChunk) (indexers : option IndexerSelection) : prog Ledger (list IndexerRunResult) :=
  if negb (sd_hasContent doc) && negb fw_ungrounded then Done [] else plan_all doc (selectExternal doc chunks indexers).

Definition runOne (doc : StoredDocument) (chunks : list DocumentChunk) (packId : string) : prog Ledger (result ReadError IndexerRunResult) :=
  if bool_decide (packId = GENERAL_INDEXER_ID) then runGeneral doc chunks true None
  else
    match bindingFor packId with
    | None => Done (Throw (ReadFailed None ("unknown indexer pack " +:+ packId)))
    | Some b =>
        if mode_is External b
        then do* r := IndexerRun.planExternal (sd_id doc) (ib_indexerId b) (ib_packVersion b) in Done (Ok r)
        else runBinding doc chunks b true
    end.
End dispatch.

(** ** Jobs *)

Definition index_key (doc : StoredDocument) (packId packVersion : string) : string :=
  "idx_" +:+ str_take 24 (sd_contentHash doc) +:+ "_" +:+ packId +:+ "_" +:+ packVersion.

Definition index_job (doc : StoredDocument) (packId packVersion : string) : EnqueueInput :=
  {| en_jobType := "index_document"; en_dedupKey := Some (index_key doc packId packVersion);
     en_payload := Some (VObj [("docId", VStr (sd_id doc)); ("packId", VStr packId)]); en_visibleAfter := None |}.

Definition commit_key (docId packId : string) : string := "commit_" +:+ docId +:+ "_" +:+ packId.

Definition commit_job (docId key : string) : EnqueueInput :=
  {| en_jobType := "commit_document"; en_dedupKey := Some key; en_payload := Some (VObj [("docId", VStr docId)]); en_visibleAfter := None |}.

Record PackSpec := { ps_packId : string; ps_packVersion : string }.

Definition spec_run (doc : StoredDocument) (p : PackSpec) : RunKey :=
  {| rk_docId := doc_record (sd_id doc); rk_packId := ps_packId p; rk_packVersion := ps_packVersion p |}.

Section flow.
Context `{CommitServices, Script, Models, ResolverServices, Calendar, W : IndexerWorld, FW : FlowWorld}.
Context (env : CommitEnv) (companyId : string).

Definition no_claim : FlowError := FHttp (Internal "async ingest unavailable: job queue not wired").

Definition set_status (doc : StoredDocument) (status : string) : prog PassState unit := on_store (setStatus (sd_id doc) status).

Definition batch_enabled : bool := match fw_batch with Some cfg => pc_queue cfg | None => false end.

Definition batch_schedule (am : Ambient) (retry : nat) (delayMs : Z) : prog PassState unit :=
  match fw_batch with
  | Some cfg => @schedule PassState (MemoryServices env am companyId cfg) retry delayMs
  | None => Done tt
  end.

Definition fan_specs (doc : StoredDocument) (chunks : list DocumentChunk) (indexers : option IndexerSelection) (general : bool) : list PackSpec :=
  app (if general then [{| ps_packId := GENERAL_INDEXER_ID; ps_packVersion := GENERAL_INDEXER_VERSION |}] else [])
      (map (λ b, {| ps_packId := ib_indexerId b; ps_packVersion := ib_packVersion b |}) (selectDedicated doc chunks indexers)).

(** The row of a run first, then the job that will read it. *)
Fixpoint fan_out_each (am : Ambient) (doc : StoredDocument) (specs : list PackSpec) : prog PassState (result FlowError (list RunLine)) :=
  match specs with
  | [] => Done (Ok [])
  | p :: specs' =>
      do* _ := on_runs (ensureRunPending (spec_run doc p) false) in
      try* line :=
        (if bool_decide (ps_packId p = GENERAL_INDEXER_ID) && batch_enabled then
           do* _ := batch_schedule am 0 0 in
           Done (Ok {| rl_runId := ""; rl_packId := ps_packId p; rl_status := AnEnqueued |})
         else
           try* r := lift FHttp (on_queue (enqueue (fw_uuid (index_key doc (ps_packId p) (ps_packVersion p)))
                                             (index_job doc (ps_packId p) (ps_packVersion p)))) in
           Done (Ok {| rl_runId := ""; rl_packId := ps_packId p; rl_status := if r.2 : bool then AnEnqueued else AnAlreadyProcessed |})) in
      try* lines := fan_out_each am doc specs' in
      Done (Ok (line :: lines))
  end.

Definition fanOut (am : Ambient) (doc : StoredDocument) (chunks : list DocumentChunk) (indexers : option IndexerSelection) (general : bool) :
    prog PassState (result FlowError (list RunLine)) :=
  if negb fw_claim then Done (Throw no_claim)
  else
    do* _ := set_status doc "indexing" in
    try* lines := fan_out_each am doc (fan_specs doc chunks indexers general) in
    do* planned := on_runs (planExternal doc chunks indexers) in
    Done (Ok (app lines (map line_of planned))).

(** What a job ends as. *)
Inductive JobResult : Type :=
| JMissing
| JNoContent
| JIndexed (packId : string) (st : ResultStatus)
| JDeferred
| JCommitted (committed : bool) (counts : CommitCounts).

(** A refused job is logged. *)
Definition enqueueCommit (docId packId : string) : prog PassState unit :=
  if negb fw_claim then Done tt
  else
    do* _ := on_queue (enqueue (fw_uuid (commit_key docId packId)) (commit_job docId (commit_key docId packId))) in Done tt.

Definition handleIndexJob (docId packId : string) : prog PassState (result FlowError JobResult) :=
  do* found := on_store (query (getById docId)) in
  match found with
  | None => Done (Ok JMissing)
  | Some doc =>
      do* chunks := on_store (query (getChunks docId)) in
      if length chunks =? 0 then Done (Ok JNoContent)
      else
        do* r := on_runs (runOne doc chunks packId) in
        do* _ := enqueueCommit docId packId in
        Done (match r with Ok x => Ok (JIndexed packId (ir_status x)) | Throw e => Throw (FRead e) end)
  end.

Definition handleCommitJob (am : Ambient) (docId : string) : prog PassState (result FlowError JobResult) :=
  do* found := on_store (query (getById docId)) in
  match found with
  | None => Done (Ok JMissing)
  | Some doc =>
      try* c := lift FHttp (on_memory (commitIfRunsSettled env am companyId doc)) in
      if c.2 : bool then Done (Ok JDeferred)
      else
        do* _ := (if co_committed c.1 then set_status doc "committed" else Done tt) in
        Done (Ok (JCommitted (co_committed c.1) (co_counts c.1)))
  end.

(** ** A post *)

Definition toolObservationMeta (ref : option string) : result FlowError (option Bag) :=
  match ref, fw_tools with
  | Some r, Some verifyRef =>
      match verifyRef r with
      | None => Throw (FHttp (BadRequest "toolObservationRef does not resolve to a tool_observation row in this tenant"))
      | Some (tool, createdAt) =>
          match internalDocumentMeta [("toolObservationRef", VStr r); ("toolObservationNote", VStr (tool +:+ " @ " +:+ createdAt))] with
          | Ok bag => Ok bag
          | Throw e => Throw (FMeta e)
          end
      end
  | _, _ => Ok None
  end.

(** The bag the service adds to the header. *)
Definition post_meta (q : PostRequest) : result FlowError (option Bag) :=
  let* tool := toolObservationMeta (pq_toolObservationRef q) in
  match internalDocumentMeta (assign (default [] (originInternalMeta (pq_origin q))) (default [] tool)) with
  | Ok bag => Ok bag
  | Throw e => Throw (FMeta e)
  end.

Definition pinned (am : Ambient) (q : PostRequest) : result FlowError IngestDocumentDto :=
  match pinUserScope am (id_userId (pq_dto q)) with Ok u => Ok (with_user u (pq_dto q)) | Throw e => Throw (FHttp e) end.

(** Stored, or found, with its turns captured. *)
Definition store_post (am : Ambient) (q : PostRequest) : prog PassState (result FlowError CreateDocumentResult) :=
  try* dto := Done (pinned am q) in
  try* internal := Done (post_meta q) in
  try* stored := lift FStore (on_store (createOrGet fw_sha256 fw_prepare fw_store am fw_chunksFail dto internal)) in
  do* _ := on_memory (captureDocumentTurns env am (cr_doc stored)) in
  Done (Ok stored).

Record DocumentIngestResponse := {
  dr_documentId : string; dr_deduplicated : bool; dr_chunkCount : nat; dr_background : bool; dr_runs : list RunLine;
  dr_commit : CommitResult
}.

Definition response (stored : CreateDocumentResult) (chunkCount : nat) (background : bool) (lines : list RunLine) (commit : CommitResult) :
    DocumentIngestResponse :=
  {| dr_documentId := sd_id (cr_doc stored); dr_deduplicated := cr_deduplicated stored; dr_chunkCount := chunkCount;
     dr_background := background; dr_runs := lines; dr_commit := commit |}.

(** A replay of a document already committed. *)
Definition nothing_to_do (stored : CreateDocumentResult) : bool :=
  cr_deduplicated stored && bool_decide (sd_status (cr_doc stored) = "committed").

Definition wants_general (q : PostRequest) : bool :=
  negb (match og_channel (pq_origin q) with ChSource => og_none (pq_origin q) | _ => false end).

Definition read_now (am : Ambient) (q : PostRequest) (stored : CreateDocumentResult) : prog PassState (result FlowError DocumentIngestResponse) :=
  let doc := cr_doc stored in
  do* _ := set_status doc "indexing" in
  try* runs := lift FRead (on_runs (dispatchSync doc (cr_chunks stored) (pq_indexers q) (wants_general q))) in
  do* planned := on_runs (planExternal doc (cr_chunks stored) (pq_indexers q)) in
  do* _ := set_status doc "indexed" in
  try* commit := lift FHttp (on_memory (commitLocked env am companyId doc)) in
  do* _ := (if co_committed commit then set_status doc "committed" else Done tt) in
  Done (Ok (response stored (length (cr_chunks stored)) false (map line_of (app runs planned)) commit)).

Definition ingestDocument (am : Ambient) (q : PostRequest) : prog PassState (result FlowError DocumentIngestResponse) :=
  try* stored := store_post am q in
  let doc := cr_doc stored in
  if wants_general q && fw_async && batch_enabled && negb (pq_sync q) && sd_hasContent doc then
    try* lines := (if nothing_to_do stored then Done (Ok []) else fanOut am doc (cr_chunks stored) (pq_indexers q) (wants_general q)) in
    Done (Ok (response stored (length (cr_chunks stored)) true lines emptyResult))
  else
    do* r := read_now am q stored in
    match r with
    | Ok x => Done (Ok x)
    | Throw e => do* _ := set_status doc "failed" in Done (Throw e)
    end.

Definition ingestAsync (am : Ambient) (q : PostRequest) : prog PassState (result FlowError DocumentIngestResponse) :=
  if negb fw_claim then Done (Throw no_claim)
  else
    try* stored := store_post am q in
    try* lines := (if nothing_to_do stored then Done (Ok []) else fanOut am (cr_doc stored) (cr_chunks stored) (pq_indexers q) true) in
    Done (Ok (response stored (sd_chunkCount (cr_doc stored)) true lines emptyResult)).

(** Whatever is pending, at an operator's word. *)
Definition commitPending (am : Ambient) (docId : string) : prog PassState (result FlowError (option CommitResult)) :=
  do* found := on_store (query (getById docId)) in
  match found with
  | None => Done (Ok None)
  | Some doc =>
      try* commit := lift FHttp (on_memory (commitLocked env am companyId doc)) in
      do* _ := (if co_committed commit then set_status doc "committed" else Done tt) in
      Done (Ok (Some commit))
  end.

Definition commitIfSettled (am : Ambient) (docId : string) : prog PassState (result FlowError (option (CommitResult * bool))) :=
  do* found := on_store (query (getById docId)) in
  match found with
  | None => Done (Ok None)
  | Some doc =>
      try* c := lift FHttp (on_memory (commitIfRunsSettled env am companyId doc)) in
      do* _ := (if co_committed c.1 then set_status doc "committed" else Done tt) in
      Done (Ok (Some c))
  end.
End flow.

(** ** Confidences are numbers *)

Definition is_number (c : float) : Prop := PrimFloat.eqb c c = true.

(** What a reader gives. *)
Record numeric (x : ExtractionResult) : Prop := {
  nu_facts : ∀ f, f ∈ xr_facts x → is_number (xf_confidence f);
  nu_edges : ∀ e, e ∈ xr_edges x → is_number (xg_confidence e)
}.

(** What is staged. *)
Definition numbered (l : Ledger) : Prop := ∀ id r, lg_cands l !! id = Some r → is_number (sp_confidence (sg_part r)).

Definition stays_numbered (l l' : Ledger) : Prop := numbered l → numbered l'.

Lemma numbered_refl l : stays_numbered l l.
Proof. by intros ?. Qed.

Lemma same_cands_numbered l l' : lg_cands l' = lg_cands l → stays_numbered l l'.
Proof. intros E Hn id r. rewrite E. apply Hn. Qed.

Lemma part_numbers num indexerId packVersion mode model x p :
  numeric x →
  p ∈ batch_parts num (part_batch (H := model) indexerId packVersion mode (whole x)) → is_number (sp_confidence p).
Proof.
  intros [Hf He]. unfold batch_parts, part_batch, whole. cbn. rewrite app_nil_r, !elem_of_app.
  intros [Hp|[Hp|Hp]].
  - apply list_elem_of_fmap in Hp as (e & -> & _). done.
  - apply list_elem_of_fmap in Hp as (c & -> & Hc). apply list_elem_of_fmap in Hc as (f & -> & Hin). by apply Hf.
  - apply list_elem_of_fmap in Hp as (c & -> & Hc). apply list_elem_of_fmap in Hc as (e & -> & Hin). by apply He.
Qed.

Section reads.
Context `{IndexerWorld}.

Lemma claim_numbered k : always stays_numbered (claim_run k).
Proof.
  unfold claim_run. destruct (iw_opens k); [done|]. apply always_bind; [|by intros [h|e]]. unfold createRun.
  apply always_bind; [apply always_update; intros l; apply same_cands_numbered; unfold create_run; by destruct (find_run k l)|].
  intros [id|]; [done|]. apply always_bind; [apply always_query, numbered_refl|]. intros [[id r]|]; [|done].
  destruct (reopenable _ _ r); [|done]. apply always_bind; [|intros _; apply always_bind; [|done]].
  - apply always_exec. intros l Hn i x. cbn. intros [Hx _]%map_lookup_filter_Some. by eapply Hn.
  - apply always_update. intros l. apply same_cands_numbered. unfold reopen_cas. destruct (lg_runs l !! id); [|done]. by case_bool_decide.
Qed.

Lemma close_numbered id st err raw : always stays_numbered (close_run id st err raw).
Proof.
  unfold close_run. destruct (iw_closes id st); [done|]. apply always_bind; [|done]. apply always_exec. intros l. apply same_cands_numbered. reflexivity.
Qed.

Lemma read_chunk_numbered spec id c :
  (∀ t x, is_extract spec t = Ok x → numeric x) → always stays_numbered (read_chunk spec id c).
Proof.
  intros Hx. unfold read_chunk. destruct (chunk_read spec c) as [x|e] eqn:E; [|done].
  assert (Hn : numeric x). { unfold chunk_read in E. destruct (iw_aborted _); [done|]. by eapply Hx. }
  unfold stage_batch. destruct (iw_stages _ _); [by destruct (_ =? 0)|]. apply always_bind; [|done]. unfold insertBatch.
  apply always_bind; [|done]. destruct (0 <? _); [|done]. apply always_exec. intros l Hl i r Hr.
  unfold insert_candidates in Hr. cbn in Hr. apply inserted_rows in Hr as [Hr|Hr]; [by eapply Hl|].
  apply list_elem_of_fmap in Hr as (p & -> & Hp). exact (part_numbers _ _ _ _ _ x p Hn Hp).
Qed.

Lemma runIndexer_numbered spec : (∀ t x, is_extract spec t = Ok x → numeric x) → always stays_numbered (runIndexer spec).
Proof.
  intros Hx. apply always_bind; [apply claim_numbered|]. intros [h|e]; [|done]. destruct (negb (rh_created h)); [done|].
  apply always_bind.
  - generalize (∅ : gmap nat (result ReadError InsertBatchCounts)). induction (iw_finish (is_chunks spec)) as [|i l IH]; intros acc; cbn [settle_chunks]; [done|].
    destruct (is_chunks spec !! i); [|apply IH]. apply always_bind; [by apply read_chunk_numbered|]. intros r. apply IH.
  - intros acc. cbn zeta. apply always_bind; [destruct (failure _); [done|apply close_numbered]|]. intros [u|e]; [done|].
    apply always_bind; [|done]. unfold fail_run. apply always_bind; [apply close_numbered|done].
Qed.
End reads.

Section dispatching.
Context `{W : IndexerWorld, FlowWorld}.

(** Every reader gives numbers. *)
Record readers_numeric : Prop := {
  rn_general : ∀ background passes docs t x, iw_extract background passes docs t = Ok x → numeric x;
  rn_packs : ∀ background b t x, fw_extract background b t = Ok x → numeric x
}.

Hypothesis readers : readers_numeric.

Lemma run_dedicated_numbered doc chunks bs : always stays_numbered (run_dedicated doc chunks bs).
Proof using readers.
  induction bs as [|b bs IH]; cbn [run_dedicated]; [done|].
  apply always_bind; [apply runIndexer_numbered; intros t x; apply (rn_packs readers)|]. intros r. by apply always_bind.
Qed.

Lemma dispatch_numbered doc chunks indexers general : always stays_numbered (dispatchSync doc chunks indexers general).
Proof using readers.
  apply always_bind.
  - destruct (negb general); [done|]. apply always_bind; [|by intros [r|e]].
    apply runIndexer_numbered. intros t x. apply (rn_general readers).
  - intros [first|e]; [|done]. apply always_bind; [apply run_dedicated_numbered|done].
Qed.

Lemma plan_numbered doc chunks indexers : always stays_numbered (planExternal doc chunks indexers).
Proof.
  unfold planExternal. destruct (_ && _); [done|]. induction (selectExternal doc chunks indexers) as [|b bs IH]; cbn [plan_all]; [done|].
  apply always_bind; [|intros r; by apply always_bind]. apply always_bind; [|done]. apply always_bind; [|done].
  apply always_update. intros l. apply same_cands_numbered. unfold create_run. by destruct (find_run _ l).
Qed.
End dispatching.

(** ** A post that is read at once *)

Section whole.
Context `{CommitServices, Script, Models, ResolverServices, Calendar, W : IndexerWorld, FW : FlowWorld}.
Context (env : CommitEnv) (companyId : string).

Lemma run_lift {S E E' A} (f : E → E') (p : prog S (result E A)) s :
  run (lift f p) s = ((run p s).1, match (run p s).2 with Ok a => Ok a | Throw e => Throw (f e) end).
Proof. unfold lift. by rewrite run_bind. Qed.

Lemma run_on_memory {A} (p : prog Memory A) s :
  run (on_memory p) s = (put_memory (run p (ps_memory s)).1 s, (run p (ps_memory s)).2).
Proof. apply run_zoom; [done|done|by intros []]. Qed.

Lemma run_set_status doc status s :
  run (set_status doc status) s =
  (put_memory (with_store (with_docs (alter (λ r, row_status status (dn_hasContent r) r) (doc_record (sd_id doc)) (st_docs (mm_store (ps_memory s))))
     (mm_store (ps_memory s))) (ps_memory s)) s, tt).
Proof. reflexivity. Qed.

Definition numbered_in (s : PassState) : Prop := numbered (ledger_view (ps_memory s)).

Lemma on_runs_numbered {A} (p : prog Ledger A) s :
  always stays_numbered p → numbered_in s → numbered_in (run (on_runs p) s).1.
Proof.
  intros Hp. apply (always_run (λ s s', numbered_in s → numbered_in s')); [by intros ? ?|by intros ? ? ? ? ? ?; auto|].
  unfold on_runs, on_memory. apply (always_zoom_in _ _ (λ m m', stays_numbered (ledger_view m) (ledger_view m'))); [by intros t s0 Ht|].
  unfold on_candidates. eapply always_zoom_in; [|exact Hp]. intros l m Hl. exact Hl.
Qed.

(** Commits leave the documents as they are. *)
Lemma commit_keeps_docs am doc m : st_docs (mm_store (run (commitLocked env am companyId doc) m).1) = st_docs (mm_store m).
Proof.
  apply (always_run (λ m m', st_docs (mm_store m') = st_docs (mm_store m))); [done|by intros ? ? ? E1 E2; congruence|].
  unfold commitLocked. apply always_bind; [by apply always_query|]. intros pending. destruct (_ =? 0); [done|]. cbn zeta. apply always_bind.
  - assert (Hw : ∀ A (p : prog Memory A), always keeps p → always (λ m m', st_docs (mm_store m') = st_docs (mm_store m)) p).
    { intros A. fix IH 1. intros [a|f] Hp; cbn in *; [done|]. intros s. destruct (Hp s) as [[_ _ _ _ Hd] Hp']. split; [exact Hd|]. by apply IH. }
    apply Hw, writeMerged_keeps.
  - intros [w|e]; [|done]. apply always_bind; [|intros _; apply always_bind; [|done]].
    + unfold on_candidates. by apply always_zoom.
    + unfold project_scenes. cbn zeta. destruct (_ && _); [|done]. apply always_bind; [|done]. by apply always_zoom.
Qed.

(** What is staged stays staged as it is. *)
Definition parts_kept (m m' : gmap string StagedRow) : Prop :=
  ∀ id r', m' !! id = Some r' → ∃ r, m !! id = Some r ∧ sg_part r' = sg_part r.

Lemma parts_kept_refl m : parts_kept m m.
Proof. intros id r Hr. by exists r. Qed.

Lemma marks_keep_parts updates l : parts_kept (lg_cands l) (lg_cands (mark_statuses updates l)).
Proof.
  unfold mark_statuses. cbn. generalize (lg_cands l). induction updates as [|u us IH]; intros m; cbn; [apply parts_kept_refl|].
  intros id r' Hr. apply IH in Hr as (r & Hr & ->). rewrite lookup_alter in Hr. case_decide; [|by exists r].
  apply fmap_Some in Hr as (r0 & Hr0 & ->). subst. by exists r0.
Qed.

Lemma commit_keeps_parts am doc m : parts_kept (mm_cands m) (mm_cands (run (commitLocked env am companyId doc) m).1).
Proof.
  pose (R := λ a b : Memory, parts_kept (mm_cands a) (mm_cands b)).
  apply (always_run R); [intros ?; apply parts_kept_refl| |].
  { intros a b c Hab Hbc id r Hr. apply Hbc in Hr as (r1 & Hr1 & ->). by apply Hab in Hr1. }
  assert (Hw : ∀ A (p : prog Memory A), always keeps p → always R p).
  { intros A. fix IH 1. intros [a|f] Hp; cbn in *; [done|]. intros s. destruct (Hp s) as [[_ Hc _ _ _] Hp']. split; [|by apply IH].
    unfold R. rewrite Hc. apply parts_kept_refl. }
  assert (Hm : ∀ us, always (λ a b : Ledger, parts_kept (lg_cands a) (lg_cands b)) (markStatuses us)).
  { intros us. unfold markStatuses. destruct (_ =? 0); [done|]. apply always_exec. intros l. apply marks_keep_parts. }
  unfold commitLocked. apply always_bind; [apply always_query; intros ?; apply parts_kept_refl|]. intros pending.
  destruct (_ =? 0); [done|]. cbn zeta. apply always_bind; [apply Hw, writeMerged_keeps|].
  intros [w|e]; [|done]. apply always_bind; [|intros _; apply always_bind; [|done]].
  - unfold on_candidates. eapply always_zoom_in; [|apply Hm]. intros l s Hl. exact Hl.
  - unfold project_scenes. cbn zeta. destruct (_ && _); [|done]. apply always_bind; [|done].
    unfold on_scenes. apply (always_zoom_in _ _ (λ a b : Episodic, parts_kept (lg_cands (ep_ledger a)) (lg_cands (ep_ledger b)))); [by intros t s Ht|].
    unfold projectDocument. destruct (_ || _); [done|]. induction (OMap.vals _) as [|g gs IH]; cbn [project_groups]; [done|].
    apply always_bind; [|intros o; by apply always_bind]. unfold projectGroup. apply always_bind.
    + apply always_update. intros s. unfold swapPackSceneSlice. destruct (insert_scenes _ _); apply parts_kept_refl.
    + intros [|]; [|done]. apply always_bind; [|done]. unfold SceneProjection.on_ledger. eapply always_zoom_in; [|apply Hm]. intros l s Hl. exact Hl.
Qed.

(** After a commit that ends, what is still pending of the document was no entity, fact or
    relation. *)
Lemma commit_leaves_nothing am doc m m' c :
  numbered (ledger_view m) → run (commitLocked env am companyId doc) m = (m', Ok c) →
  (∀ x, x ∈ loadPending (doc_record (sd_id doc)) (ledger_view m') → semantic x = false) ∧
  cc_committed (co_counts c) + cc_merged (co_counts c) + cc_rejected (co_counts c) ≤ cc_pending (co_counts c).
Proof.
  intros Hn Ec. pose proof (commit_keeps_parts am doc m) as Hk. rewrite Ec in Hk. cbn [fst] in Hk.
  apply commit_outcome in Ec as [_ (Hpend & Hsum & Hnone & Hrows)];
    [|intros x (id & r & Hr & _ & ->)%elem_of_loadPending; by eapply Hn].
  split; [|rewrite Hpend, Hsum; apply filter_length_le_b].
  intros x (id & r & Hr & Ho & ->)%elem_of_loadPending. cbn in Hr. destruct (Hk id r Hr) as (row & Er & Hpart).
  specialize (Hrows id row Er). destruct (of_doc _ true (id, row)) eqn:Eo; [|rewrite Hrows in Hr; injection Hr as <-; by rewrite Eo in Ho].
  assert (Esem : semantic (candidate_row (id, r)) = semantic (candidate_row (id, row))) by (unfold semantic; cbn; by rewrite Hpart).
  rewrite Esem. destruct (semantic (candidate_row (id, row))) eqn:Es; [|done].
  destruct Hrows as (row' & Hr' & _ & _ & _ & _ & _ & _ & Hstat). rewrite Hr' in Hr. injection Hr as <-.
  unfold of_doc in Ho. cbn in Ho. apply andb_true_iff in Ho as [_ Ho%bool_decide_eq_true]. rewrite Ho in Hstat. set_solver.
Qed.

(** A post that is read at once, and ends: every entity, fact and relation candidate of the
    document is decided, none is left pending; the document is committed when something
    was, and otherwise indexed; the counts of the answer add up. *)
Lemma read_now_settles am q stored s s' resp :
  readers_numeric → numbered_in s →
  run (read_now env companyId am q stored) s = (s', Ok resp) →
  let docId := doc_record (sd_id (cr_doc stored)) in
  let counts := co_counts (dr_commit resp) in
  (∀ c, c ∈ loadPending docId (ledger_view (ps_memory s')) → semantic c = false) ∧
  (∀ row, st_docs (mm_store (ps_memory s')) !! docId = Some row →
     dn_status row = if co_committed (dr_commit resp) then "committed" else "indexed") ∧
  cc_committed counts + cc_merged counts + cc_rejected counts ≤ cc_pending counts.
Proof.
  intros Hread Hnum E docId. unfold read_now in E. cbv zeta in E. rewrite run_bind, run_set_status in E. cbn [fst snd] in E.
  match type of E with context [run _ (put_memory ?m s)] => set (s1 := put_memory m s) in E end.
  assert (N1 : numbered_in s1) by exact Hnum. clearbody s1. rewrite run_ebind, run_lift in E. cbn [fst snd] in E.
  pose proof (on_runs_numbered _ s1 (dispatch_numbered Hread (cr_doc stored) (cr_chunks stored) (pq_indexers q) (wants_general q)) N1) as N2.
  destruct (run (on_runs (dispatchSync _ _ _ _)) s1) as [s2 [runs|e]]; cbn [fst snd] in *; [|done].
  rewrite run_bind in E. pose proof (on_runs_numbered _ s2 (plan_numbered (cr_doc stored) (cr_chunks stored) (pq_indexers q)) N2) as N3.
  destruct (run (on_runs (planExternal _ _ _)) s2) as [s3 planned]. cbn [fst snd] in *. clear N1 N2 s1 s2 Hnum s.
  rewrite run_bind, run_set_status in E. cbn [fst snd] in E.
  match type of E with context [run _ (put_memory ?m s3)] => set (m4 := m) in E end.
  assert (Hst : ∀ row, st_docs (mm_store m4) !! docId = Some row → dn_status row = "indexed").
  { intros row. unfold m4. cbn. rewrite lookup_alter_eq. intros (r & _ & ->)%fmap_Some. done. }
  assert (N4 : numbered (ledger_view m4)) by exact N3. clearbody m4.
  rewrite run_ebind, run_lift, run_on_memory in E. cbn [fst snd ps_memory put_memory] in E.
  pose proof (commit_keeps_docs am (cr_doc stored) m4) as Hdocs.
  destruct (run (commitLocked env am companyId (cr_doc stored)) m4) as [m5 [c|e]] eqn:Ec; cbn [fst snd] in *; [|done].
  destruct (commit_leaves_nothing _ _ _ _ _ N4 Ec) as [Hnone Hsum]. rewrite run_bind in E.
  destruct (co_committed c) eqn:Eco.
  - rewrite run_set_status in E. cbn [run fst snd ps_memory put_memory] in E. injection E as <- <-. cbn [dr_commit response ps_memory put_memory].
    rewrite Eco. split_and!; [exact Hnone| |exact Hsum]. intros row. cbn. rewrite lookup_alter_eq. by intros (r & _ & ->)%fmap_Some.
  - cbn [run fst snd] in E. injection E as <- <-. cbn [dr_commit response ps_memory put_memory]. rewrite Eco. split_and!; [exact Hnone| |exact Hsum].
    intros row. rewrite Hdocs. apply Hst.
Qed.

(** What an answer says of the post. *)
Lemma read_now_answers am q stored s s' resp :
  run (read_now env companyId am q stored) s = (s', Ok resp) →
  dr_documentId resp = sd_id (cr_doc stored) ∧ dr_background resp = false.
Proof.
  unfold read_now. cbv zeta. rewrite run_bind, run_ebind. destruct (run (lift FRead _) _) as [s2 [runs|e]]; cbn [fst snd]; [|done].
  rewrite !run_bind, run_ebind. destruct (run (lift FHttp _) _) as [s3 [c|e]]; cbn [fst snd]; [|done].
  rewrite run_bind. cbn [run fst snd]. by intros [= _ <-].
Qed.

(** ** What posting leaves of the candidates *)

Definition same_cands (s s' : PassState) : Prop := mm_cands (ps_memory s') = mm_cands (ps_memory s).

Lemma same_cands_refl s : same_cands s s.
Proof. reflexivity. Qed.

Lemma same_cands_run {A} (p : prog PassState A) s : always same_cands p → same_cands s (run p s).1.
Proof. apply always_run; [reflexivity|]. intros ? ? ? E1 E2. unfold same_cands in *. congruence. Qed.

Lemma on_store_same {A} (p : prog DocStore A) : always same_cands (on_store p).
Proof. unfold on_store, on_memory. apply (always_zoom_in _ _ (λ m m', mm_cands m' = mm_cands m)); [by intros t s E|]. by apply always_zoom. Qed.

Lemma on_queue_same {A} (p : prog Queue A) : always same_cands (on_queue p).
Proof. by apply always_zoom. Qed.

Lemma on_memory_same {A} (p : prog Memory A) : always keeps p → always same_cands (on_memory p).
Proof.
  intros Hp. unfold on_memory. apply (always_zoom_in _ _ keeps); [|done]. intros t s [_ Hc _ _ _]. exact Hc.
Qed.

Lemma on_runs_same {A} (p : prog Ledger A) : always (λ l l', lg_cands l' = lg_cands l) p → always same_cands (on_runs p).
Proof.
  intros Hp. unfold on_runs, on_memory. apply (always_zoom_in _ _ (λ m m', mm_cands m' = mm_cands m)); [by intros t s E|].
  unfold on_candidates. eapply always_zoom_in; [|exact Hp]. intros l m E. exact E.
Qed.

Lemma ensure_same k external : always (λ l l', lg_cands l' = lg_cands l) (ensureRunPending k external).
Proof.
  unfold ensureRunPending. apply always_bind; [|done]. apply always_update. intros l. unfold create_run. by destruct (find_run k l).
Qed.

Lemma plan_same doc chunks indexers : always (λ l l', lg_cands l' = lg_cands l) (planExternal doc chunks indexers).
Proof.
  unfold planExternal. destruct (_ && _); [done|]. induction (selectExternal doc chunks indexers) as [|b bs IH]; cbn [plan_all]; [done|].
  apply always_bind; [|intros r; by apply always_bind]. apply always_bind; [apply ensure_same|done].
Qed.

Lemma lift_same {E E' A} (f : E → E') (p : prog PassState (result E A)) : always same_cands p → always same_cands (lift f p).
Proof. intros Hp. by apply always_bind. Qed.

Lemma schedule_same am retry delay : always same_cands (batch_schedule env companyId am retry delay).
Proof.
  unfold batch_schedule. destruct fw_batch as [cfg|]; [|done]. unfold schedule. cbn [MemoryServices pv_enqueue pv_now].
  destruct (pc_queue cfg); [|done]. apply always_bind; [apply always_query, same_cands_refl|]. intros now. cbn zeta.
  apply always_bind; [apply on_queue_same|done].
Qed.

Lemma try_same {E A B} (p : prog PassState (result E A)) (k : A → prog PassState (result E B)) :
  always same_cands p → (∀ a, always same_cands (k a)) → always same_cands (ebind p k).
Proof. intros Hp Hk. apply always_bind; [done|]. by intros [a|e]. Qed.

Lemma fan_out_same am doc chunks indexers general : always same_cands (fanOut env companyId am doc chunks indexers general).
Proof.
  unfold fanOut. destruct (negb fw_claim); [done|]. apply always_bind; [apply on_store_same|]. intros _. apply try_same.
  - induction (fan_specs doc chunks indexers general) as [|p ps IH]; cbn [fan_out_each]; [done|].
    apply always_bind; [apply on_runs_same, ensure_same|]. intros _. apply try_same; [|intros line; by apply try_same].
    destruct (_ && _).
    + apply always_bind; [apply schedule_same|done].
    + apply try_same; [apply lift_same, on_queue_same|done].
  - intros lines. apply always_bind; [apply on_runs_same, plan_same|done].
Qed.

Lemma store_post_same am q : always same_cands (store_post env am q).
Proof.
  unfold store_post. do 2 (apply try_same; [done|intros ?]). apply try_same; [apply lift_same, on_store_same|]. intros stored.
  apply always_bind; [|done]. apply on_memory_same. unfold captureDocumentTurns. apply documentTurns_keeps.
Qed.

(** A commit job of a document that is there waits while a run of it is open, and otherwise
    leaves nothing pending. *)
Lemma commit_job_waits_or_settles am docId doc s s' r :
  numbered_in s → getById docId (mm_store (ps_memory s)) = Some doc →
  run (handleCommitJob env companyId am docId) s = (s', Ok r) →
  if 0 <? countNonTerminalRuns (doc_record docId) (ledger_view (ps_memory s)) then s' = s ∧ r = JDeferred
  else
    ∃ committed counts, r = JCommitted committed counts ∧
      (∀ c, c ∈ loadPending (doc_record docId) (ledger_view (ps_memory s')) → semantic c = false) ∧
      (committed = true → ∀ row, st_docs (mm_store (ps_memory s')) !! doc_record docId = Some row → dn_status row = "committed").
Proof.
  intros Hnum Hdoc E. unfold handleCommitJob in E. rewrite run_bind in E.
  change (run (on_store (query (getById docId))) s) with (put_memory (with_store (mm_store (ps_memory s)) (ps_memory s)) s, getById docId (mm_store (ps_memory s))) in E.
  cbn [fst snd] in E. rewrite Hdoc in E.
  replace (put_memory (with_store (mm_store (ps_memory s)) (ps_memory s)) s) with s in E by (by destruct s as [[]]).
  assert (Hid : doc_record (sd_id doc) = doc_record docId).
  { unfold getById in Hdoc. apply fmap_Some in Hdoc as (row & _ & ->). unfold doc_record at 1. cbn [mapDoc sd_id fst].
    by rewrite tail_of_record. }
  rewrite run_ebind, run_lift, run_on_memory in E. cbn [fst snd] in E.
  unfold commitIfRunsSettled in E. rewrite run_bind, run_query in E. cbn [fst snd] in E. rewrite Hid in E.
  destruct (0 <? countNonTerminalRuns _ _).
  { cbn [run fst snd] in E. injection E as <- <-. split; [by destruct s as [[]]|done]. }
  rewrite run_ebind in E. destruct (run (commitLocked env am companyId doc) (ps_memory s)) as [m [c|e]] eqn:Ec; cbn [fst snd] in E; [|done].
  destruct (commit_leaves_nothing _ _ _ _ _ Hnum Ec) as [Hnone _]. rewrite Hid in Hnone. cbn [run fst snd] in E.
  rewrite run_bind in E. destruct (co_committed c).
  - rewrite run_set_status in E. cbn [run fst snd] in E. injection E as <- <-. exists true, (co_counts c). split_and!; [done|exact Hnone|].
    intros _ row. cbn [ps_memory put_memory mm_store with_store st_docs with_docs]. rewrite Hid, lookup_alter_eq. by intros (x & _ & ->)%fmap_Some.
  - cbn [run fst snd] in E. injection E as <- <-. exists false, (co_counts c). split_and!; [done|exact Hnone|done].
Qed.

(** C32. What a post leaves. One that is read at once and ends decides every entity, fact and
    relation candidate of its document, and leaves the document committed when the commit says
    it committed (it does whenever anything was pending) and indexed otherwise. One that is left to the background decides and stages
    nothing, and answers that nothing was committed. When a post throws, either it was not
    read at once, and the candidates are as they were, or the document is marked failed. *)
Theorem post_leaves_nothing_pending am q s s' r :
  readers_numeric → numbered_in s →
  run (ingestDocument env companyId am q) s = (s', r) →
  match r with
  | Ok resp =>
      let docId := doc_record (dr_documentId resp) in
      let commit := dr_commit resp in
      if dr_background resp then mm_cands (ps_memory s') = mm_cands (ps_memory s) ∧ commit = emptyResult
      else
        (∀ c, c ∈ loadPending docId (ledger_view (ps_memory s')) → semantic c = false) ∧
        (∀ row, st_docs (mm_store (ps_memory s')) !! docId = Some row →
           dn_status row = if co_committed commit then "committed" else "indexed") ∧
        cc_committed (co_counts commit) + cc_merged (co_counts commit) + cc_rejected (co_counts commit) ≤ cc_pending (co_counts commit)
  | Throw _ =>
      mm_cands (ps_memory s') = mm_cands (ps_memory s) ∨
      ∃ stored, (run (store_post env am q) s).2 = Ok stored ∧
        ∀ row, st_docs (mm_store (ps_memory s')) !! doc_record (sd_id (cr_doc stored)) = Some row → dn_status row = "failed"
  end.
Proof.
  intros Hread Hnum E. unfold ingestDocument in E. rewrite run_ebind in E.
  pose proof (same_cands_run _ s (store_post_same am q)) as Hsame.
  destruct (run (store_post env am q) s) as [s1 [stored|e]] eqn:Es; cbn [fst snd] in *; [|injection E as <- <-; left; exact Hsame].
  cbv zeta in E. destruct (_ && sd_hasContent (cr_doc stored)).
  - rewrite run_ebind in E. set (p := if nothing_to_do stored then _ else _) in E.
    assert (Hp : always same_cands p) by (unfold p; destruct (nothing_to_do stored); [done|apply fan_out_same]).
    pose proof (same_cands_run p s1 Hp) as Hsame2. unfold same_cands in *.
    destruct (run p s1) as [s2 [lines|e]]; cbn [run fst snd] in *; injection E as <- <-; [split; [congruence|done]|left; congruence].
  - rewrite run_bind in E. destruct (run (read_now env companyId am q stored) s1) as [s2 [resp|e]] eqn:Er; cbn [run fst snd] in E.
    + assert (N1 : numbered_in s1). { intros id row. cbn. rewrite Hsame. apply Hnum. }
      destruct (read_now_settles am q stored s1 s2 resp Hread N1 Er) as (Hp & Hst & Hc). injection E as <- <-.
      assert (Hresp : dr_documentId resp = sd_id (cr_doc stored) ∧ dr_background resp = false) by (by eapply read_now_answers).
      destruct Hresp as [-> ->]. by split_and!.
    + rewrite run_bind, run_set_status in E. cbn [run fst snd] in E. injection E as <- <-. right. exists stored. split; [done|].
      intros row. cbn. rewrite lookup_alter_eq. by intros (r & _ & ->)%fmap_Some.
Qed.
End whole.

(** ** On a small tenant *)

Definition empty_state : PassState :=
  {| ps_memory :=
       {| mm_store := {| st_docs := ∅; st_chunks := ∅; st_facts := no_facts; st_members := [] |}; mm_graph := no_graph;
          mm_turns := {| tn_rows := ∅; tn_dirty := ∅; tn_now := 40 |}; mm_runs := ∅; mm_cands := ∅; mm_now := 60;
          mm_scenes := ∅; mm_fails := [] |};
     ps_stamps := ∅; ps_queue := {| q_rows := ∅; q_now := 60 |} |}.

(** One dedicated pack, whose reads fail of texts that hold [words]. *)
Definition small_flow (words : string) (batch : option PassConfig) : FlowWorld :=
  {| fw_bindings := bindingsFor [pack "geo" Dedicated (triggers ["lives"] None)] None; fw_embed := λ _, None; fw_cap := None;
     fw_multi := true; fw_ungrounded := false;
     fw_extract := λ _ _ t, if String.index 0 words t then Throw (ReadFailed None "timeout") else Ok sample_result;
     fw_modelId := "m"; fw_sha256 := λ s, s; fw_prepare := λ s, s;
     fw_store := {| en_metaStrict := false; en_chunkTarget := None |}; fw_chunksFail := false; fw_tools := None;
     fw_claim := true; fw_async := true; fw_batch := batch; fw_uuid := λ k, k |}.

Definition sample_post (sync : bool) (indexers : option IndexerSelection) : PostRequest :=
  {| pq_dto := {| id_kind := "mention"; id_originUri := None; id_title := None; id_text := "Ada lives in Paris."; id_vertical := "v";
                  id_recorder := None; id_occurredAt := 1; id_meta := None; id_userId := None; id_storeContent := None |};
     pq_sync := sync; pq_indexers := indexers; pq_toolObservationRef := None;
     pq_origin := {| og_channel := ChApi; og_internal := None; og_none := false |} |}.

Definition post (words : string) (batch : option PassConfig) (q : PostRequest) : prog PassState (result FlowError DocumentIngestResponse) :=
  @ingestDocument plain_services ascii_script example_models sample_services no_days (picky_world words) (small_flow words batch)
    plain_env "co" no_ambient q.

Definition post_async (words : string) (q : PostRequest) : prog PassState (result FlowError DocumentIngestResponse) :=
  @ingestAsync plain_services ascii_script example_models sample_services no_days (picky_world words) (small_flow words None)
    plain_env "co" no_ambient q.

Definition index_job_of (words docId packId : string) : prog PassState (result FlowError JobResult) :=
  @handleIndexJob (picky_world words) (small_flow words None) docId packId.

Definition commit_job_of (words docId : string) : prog PassState (result FlowError JobResult) :=
  @handleCommitJob plain_services ascii_script example_models sample_services no_days plain_env "co" no_ambient docId.

(** What is seen of a state: statuses of the documents, runs, candidates and jobs. *)
Definition glance (s : PassState) :=
  (map (λ kv, dn_status kv.2) (map_to_list (st_docs (mm_store (ps_memory s)))),
   map (λ kv, (rk_packId (rn_key kv.2), rn_status kv.2)) (map_to_list (mm_runs (ps_memory s))),
   map (λ kv, sg_status kv.2) (map_to_list (mm_cands (ps_memory s))),
   map (λ kv, (jr_jobType kv.2, jr_dedupKey kv.2)) (map_to_list (q_rows (ps_queue s)))).

Lemma sample_numeric : numeric sample_result.
Proof. split; intros x Hx; cbn in Hx; repeat (apply elem_of_cons in Hx as [->|Hx]; [reflexivity|]); by apply elem_of_nil in Hx. Qed.

Lemma sample_readers words batch : @readers_numeric (picky_world words) (small_flow words batch).
Proof.
  split; cbn; [intros _ _ _ t x|intros _ _ t x]; destruct (String.index 0 words t); intros E; injection E as <- || done; exact sample_numeric.
Qed.

Lemma empty_numbered : numbered_in empty_state.
Proof. intros id r Hr. cbn in Hr. by rewrite lookup_empty in Hr. Qed.

Lemma post_leaves_nothing_pending_witness :
  let o := run (post "zz" None (sample_post true None)) empty_state in
  ∃ resp, o.2 = Ok resp ∧ dr_documentId resp = "source_document:0" ∧ co_committed (dr_commit resp) = true ∧
    (∀ c, c ∈ loadPending (doc_record "source_document:0") (ledger_view (ps_memory o.1)) → semantic c = false) ∧
    ∀ row, st_docs (mm_store (ps_memory o.1)) !! doc_record "source_document:0" = Some row → dn_status row = "committed".
Proof.
  cbn zeta. assert (Hr : ∃ resp, (run (post "zz" None (sample_post true None)) empty_state).2 = Ok resp ∧
    dr_documentId resp = "source_document:0" ∧ dr_background resp = false ∧ co_committed (dr_commit resp) = true).
  { eexists. vm_compute. repeat split; reflexivity. }
  destruct (run (post "zz" None (sample_post true None)) empty_state) as [s' r] eqn:E. cbn [fst snd] in *. destruct Hr as (resp & -> & Hid & Hb & Hc).
  pose proof (@post_leaves_nothing_pending plain_services ascii_script example_models sample_services no_days (picky_world "zz") (small_flow "zz" None)
    plain_env "co" no_ambient (sample_post true None) empty_state s' (Ok resp) (sample_readers "zz" None) empty_numbered E) as T.
  cbv beta iota zeta in T. rewrite Hb, Hid, Hc in T. cbv iota in T. destruct T as (T1 & T2 & _). exists resp. split_and!; done.
Defined.

(** The same post again, read at once: nothing is read and nothing committed, but a document
    that was committed is indexed afterwards; the next post in the background therefore queues
    a pass for it. *)
Lemma replay_uncommits_the_document :
  let s1 := (run (post "zz" (Some plain_config) (sample_post true None)) empty_state).1 in
  let s2 := (run (post "zz" (Some plain_config) (sample_post true None)) s1).1 in
  let s3 := (run (post "zz" (Some plain_config) (sample_post false None)) s2).1 in
  let committed := [CCommitted; CCommitted; CCommitted; CCommitted] in
  glance s1 = (["committed"], [(GENERAL_INDEXER_ID, RSucceeded)], committed, []) ∧
  glance s2 = (["indexed"], [(GENERAL_INDEXER_ID, RSucceeded)], committed, []) ∧
  glance s3 = (["indexing"], [(GENERAL_INDEXER_ID, RSucceeded)], committed, [("extract_documents", Some "xdoc_n")]).
Proof. vm_compute. split_and!; reflexivity. Qed.

(** The reader of the first pack and the commit it asks for. *)
Definition first_reader : prog PassState unit :=
  do* _ := index_job_of "zz" "source_document:0" GENERAL_INDEXER_ID in
  do* _ := commit_job_of "zz" "source_document:0" in Done tt.

Definition posting : prog PassState unit := do* _ := post_async "zz" (sample_post false (Some SelAuto)) in Done tt.

(** The job of a pack is queued before the run of the next pack has its row: between the two,
    the first pack reads, finds no run open and commits alone. *)
Lemma fan_out_is_overtaken :
  let s := (run_pool (app (replicate 7 0) (replicate 300 1)) (empty_state, [posting; first_reader])).1 in
  let s' := (run_pool (app (replicate 7 0) (app (replicate 300 1) (replicate 300 0))) (empty_state, [posting; first_reader])).1 in
  map_to_list (mm_runs (ps_memory s)) ≠ [] ∧ (glance s).1.1 = (["committed"], [(GENERAL_INDEXER_ID, RSucceeded)]) ∧
  (glance s').1.1.2 = [("geo", RPending); (GENERAL_INDEXER_ID, RSucceeded)].
Proof. vm_compute. split_and!; [discriminate|reflexivity|reflexivity]. Qed.

Definition queued (words : string) : PassState := (run (post_async words (sample_post false (Some SelAuto))) empty_state).1.

(** The key of a commit job is of the document and the pack: the commit the second attempt of
    a read asks for is the one its first attempt asked for, which is long over, and what was
    read stays pending. *)
Lemma second_attempt_is_not_committed :
  let read words pack s := (run (index_job_of words "source_document:0" pack) s).1 in
  let failed := read "Ada" "geo" (read "zz" GENERAL_INDEXER_ID (queued "zz")) in
  let committed := (run (commit_job_of "zz" "source_document:0") failed).1 in
  let again := read "zz" "geo" committed in
  (glance failed).1.1.2 = [("geo", RFailed); (GENERAL_INDEXER_ID, RSucceeded)] ∧
  (glance committed).1.2 = [CCommitted; CCommitted; CCommitted; CCommitted] ∧
  (glance again).1.1.2 = [("geo", RSucceeded); (GENERAL_INDEXER_ID, RSucceeded)] ∧
  length (List.filter (λ st, bool_decide (st = CPending)) (glance again).1.2) = 4 ∧ (glance again).2 = (glance committed).2.
Proof. vm_compute. split_and!; reflexivity. Qed.

(** A read that failed for good is not asked for again by posting the document again: the
    answer is that it was processed, and the document is left as being indexed. *)
Lemma failed_read_is_not_asked_again :
  let failed := (run (index_job_of "Ada" "source_document:0" "geo") (run (index_job_of "Ada" "source_document:0" GENERAL_INDEXER_ID) (queued "Ada")).1).1 in
  let o := run (post_async "Ada" (sample_post false (Some SelAuto))) failed in
  (glance o.1).1.1 = (["indexing"], [("geo", RFailed); (GENERAL_INDEXER_ID, RFailed)]) ∧
  match o.2 with Ok r => map rl_status (dr_runs r) | Throw _ => [] end = [AnAlreadyProcessed; AnAlreadyProcessed] ∧
  ps_queue o.1 = ps_queue failed.
Proof. vm_compute. split_and!; reflexivity. Qed.
