(* ===== verification/DocumentSweep.v ===== *)
(** * The nightly sweep

    [documents/candidate-sweeper.service.ts]: candidates nobody decided expire, decided ones
    are deleted when they are old, documents past their time lose their text, and what a
    crash left behind is reaped and asked for again. The retention column of the documents,
    which no other modelled part reads, is an argument; the evidence of media, the idle
    budget and the cron that enqueues the sweep of each tenant are left out. *)

From S2P Require Import Prelude Js Resume JobQueue CandidateMerge RunLedger ScopeTags TenantScope Names SceneProjection EventTime EntityMerge.
From S2P Require Import EdgeWriter FactSlots FactSettle FactLaws FactPolicy FactResolver FactWrites DocumentMeta DocumentText EpisodeStore DocumentStore.
From S2P Require Import EntityGraph EntityResolver EntityLadder CommitWriter CommitMemory CommitCases Grounding ExtractionGroup IndexerRun Routing.
From S2P Require Import ExtractionPass PassMemory DocumentFlow.
From stdpp Require Import gmap.
Local Open Scope string_scope.
Local Open Scope Z_scope.

(** ** Candidates *)

(** Of the whole number a variable holds; [None] when it holds none. *)
Definition envInt (v : option Z) (fallback : Z) : Z := match v with Some n => if 0 <? n then n else fallback | None => fallback end.

Definition undecided_since (days now : Z) (r : StagedRow) : bool :=
  bool_decide (sg_status r = CPending) && (sg_createdAt r <? now - days * DAY_MS).

Definition decided_since (days now : Z) (r : StagedRow) : bool :=
  negb (bool_decide (sg_status r = CPending)) && match sg_decidedAt r with Some d => d <? now - days * DAY_MS | None => false end.

Definition expired (now : Z) (r : StagedRow) : StagedRow :=
  {| sg_docId := sg_docId r; sg_runId := sg_runId r; sg_chunkSeq := sg_chunkSeq r; sg_part := sg_part r; sg_status := CExpired;
     sg_statusReason := Some "sweeper_ttl"; sg_commitRef := sg_commitRef r; sg_createdAt := sg_createdAt r; sg_decidedAt := Some now |}.

Definition count_cands (p : Z → StagedRow → bool) (l : Ledger) : nat :=
  length (List.filter (λ kv, p (lg_now l) kv.2) (map_to_list (lg_cands l))).

(** [countThen]: the mutation runs when there is something to change. *)
Definition countThen (p : Z → StagedRow → bool) (mutation : Ledger → Ledger) : prog Ledger nat :=
  do* n := query (count_cands p) in
  do* _ := (if (0 <? n)%nat then exec mutation else Done tt) in
  Done n.

Definition expire_old (days : Z) (l : Ledger) : Ledger :=
  with_cands ((λ r, if undecided_since days (lg_now l) r then expired (lg_now l) r else r) <$> lg_cands l) l.

Definition delete_old (days : Z) (l : Ledger) : Ledger :=
  with_cands (filter (λ kv : string * StagedRow, decided_since days (lg_now l) kv.2 = false) (lg_cands l)) l.

Record Settings := { se_retentionDays : option Z; se_pendingTtlDays : option Z; se_staleMs : Z; se_extMs : Z; se_today : string }.

Definition retentionDays (se : Settings) : Z := envInt (se_retentionDays se) 30.
Definition pendingTtlDays (se : Settings) : Z := envInt (se_pendingTtlDays se) 7.

Definition sweep_candidates (se : Settings) : prog Ledger (nat * nat) :=
  do* gone := countThen (undecided_since (pendingTtlDays se)) (expire_old (pendingTtlDays se)) in
  do* deleted := countThen (decided_since (retentionDays se)) (delete_old (retentionDays se)) in
  Done (gone, deleted).

(** ** Documents past their time *)

(** The facts flagged; [None] when the fuel of the batches is out. *)
Fixpoint purge_all (fuel : nat) (docIds : list string) : prog DocStore (option nat) :=
  match docIds with
  | [] => Done (Some 0%nat)
  | docId :: docIds' =>
      do* n := purgeDocumentChunks fuel docId in
      match n with
      | None => Done None
      | Some _ =>
          do* _ := on_doc docId (row_status "purged" false) in
          do* flagged := markFactsProvenancePurged docId in
          do* rest := purge_all fuel docIds' in
          Done ((λ m, (flagged + m)%nat) <$> rest)
      end
  end.

Record SweepCounts := { sw_expired : nat; sw_deleted : nat; sw_purgedDocs : nat; sw_factsFlagged : nat }.

Section sweep.
(** [retainUntil < now] of documents not purged, in the order of the table. *)
Variable overdue : DocStore → list string.

Definition sweepTenant (fuel : nat) (se : Settings) : prog Memory (option SweepCounts) :=
  do* c := on_candidates (sweep_candidates se) in
  do* ids := query (λ m, overdue (mm_store m)) in
  do* flagged := zoom mm_store with_store (purge_all fuel ids) in
  Done ((λ n, {| sw_expired := c.1; sw_deleted := c.2; sw_purgedDocs := length ids; sw_factsFlagged := n |}) <$> flagged).
End sweep.

(** ** What a crash left behind *)

Definition reconcile_key (docId today : string) : string := "commit_reconcile_" +:+ idTailOf docId +:+ "_" +:+ today.

Definition FIND_LIMIT : nat := Z.to_nat 500.

Section reconcile.
Context `{CommitServices, Script, Models, ResolverServices, Calendar, W : IndexerWorld, FW : FlowWorld}.
Context (env : CommitEnv) (companyId : string).

(** A job the queue refuses is logged. *)
Fixpoint recommit (today : string) (docs : list string) : prog PassState nat :=
  match docs with
  | [] => Done 0%nat
  | docId :: docs' =>
      let key := reconcile_key docId today in
      do* r := on_queue (enqueue (fw_uuid key) (commit_job docId key)) in
      do* n := recommit today docs' in
      Done ((match r with Ok (_, true) => 1 | _ => 0 end) + n)%nat
  end.

Definition reconcileRuns (am : Ambient) (se : Settings) : prog PassState (nat * nat) :=
  do* reaped := on_runs (reapStaleRuns (se_staleMs se) (se_extMs se)) in
  do* _ := batch_schedule env companyId am 1 0 in
  do* docs := on_memory (query (λ m, findDocsNeedingCommit FIND_LIMIT (ledger_view m))) in
  do* n := (if fw_claim then recommit (se_today se) docs else Done 0%nat) in
  Done (reaped, n).
End reconcile.

(** ** What a sweep leaves *)

(** A row after a sweep at [now]. *)
Definition swept (se : Settings) (now : Z) (r : StagedRow) : option StagedRow :=
  if undecided_since (pendingTtlDays se) now r then Some (expired now r)
  else if decided_since (retentionDays se) now r then None else Some r.

Lemma envInt_positive v fallback : 0 < fallback → 0 < envInt v fallback.
Proof. unfold envInt. destruct v as [n|]; [|done]. by destruct (Z.ltb_spec 0 n). Qed.

Lemma no_count p l id r : count_cands p l = 0%nat → lg_cands l !! id = Some r → p (lg_now l) r = false.
Proof.
  intros Hc Hr. destruct (p (lg_now l) r) eqn:E; [|done]. exfalso. unfold count_cands in Hc. apply length_zero_iff_nil in Hc.
  apply (not_elem_of_nil (id, r)). rewrite <- Hc. apply elem_of_bfilter. split; [by apply elem_of_map_to_list|done].
Qed.

(** The guard on the count changes nothing. *)
Lemma countThen_run p mutation l :
  (∀ l, (∀ id r, lg_cands l !! id = Some r → p (lg_now l) r = false) → mutation l = l) →
  run (countThen p mutation) l = (mutation l, count_cands p l).
Proof.
  intros Hm. unfold countThen. rewrite run_bind, run_query. cbn [fst snd]. rewrite run_bind.
  destruct (count_cands p l) eqn:E; cbn [Nat.ltb Nat.leb run fst snd exec]; [|done]. rewrite Hm; [done|]. intros id r. by apply no_count.
Qed.

Lemma expire_nothing days l :
  (∀ id r, lg_cands l !! id = Some r → undecided_since days (lg_now l) r = false) → expire_old days l = l.
Proof.
  intros Hn. unfold expire_old, with_cands. destruct l as [docs runs cands now]. cbn in *. f_equal. apply map_eq. intros id. rewrite lookup_fmap.
  destruct (cands !! id) as [r|] eqn:E; [|done]. cbn. by rewrite (Hn id r E).
Qed.

Lemma delete_nothing days l :
  (∀ id r, lg_cands l !! id = Some r → decided_since days (lg_now l) r = false) → delete_old days l = l.
Proof.
  intros Hn. unfold delete_old, with_cands. destruct l as [docs runs cands now]. cbn in *. f_equal. apply map_filter_id. intros id r Hr. by apply (Hn id).
Qed.

(** What a sweep does to each candidate, exactly: one that waited longer than its time
    expires, dated now; one decided longer ago than the retention is gone; every other is as
    it was. What has just expired is kept for the whole retention. *)
Lemma sweep_decides_by_age se l id :
  lg_cands (run (sweep_candidates se) l).1 !! id = lg_cands l !! id ≫= swept se (lg_now l).
Proof.
  unfold sweep_candidates. rewrite run_bind, countThen_run by (intros; by apply expire_nothing). cbn [fst snd].
  rewrite run_bind, countThen_run by (intros; by apply delete_nothing). cbn [run fst snd].
  unfold delete_old, expire_old. cbn [lg_cands with_cands lg_now]. rewrite map_lookup_filter, lookup_fmap.
  destruct (lg_cands l !! id) as [r|]; cbn; [|done]. unfold swept. destruct (undecided_since (pendingTtlDays se) (lg_now l) r) eqn:E.
  - assert (Hd : decided_since (retentionDays se) (lg_now l) (expired (lg_now l) r) = false).
    { unfold decided_since. cbn. apply Z.ltb_ge. pose proof (envInt_positive (se_retentionDays se) 30 ltac:(lia)).
      unfold retentionDays, DAY_MS. lia. }
    rewrite Hd. by rewrite option_guard_True.
  - destruct (decided_since _ _ r) eqn:Ed; [by rewrite option_guard_False|by rewrite option_guard_True].
Qed.

(** A second sweep at the same moment finds nothing to do. *)
Lemma sweep_is_done_once se l : (run (sweep_candidates se) (run (sweep_candidates se) l).1).1 = (run (sweep_candidates se) l).1.
Proof.
  assert (Hnow : lg_now (run (sweep_candidates se) l).1 = lg_now l).
  { unfold sweep_candidates. rewrite run_bind, countThen_run by (intros; by apply expire_nothing). cbn [fst snd].
    by rewrite run_bind, countThen_run by (intros; by apply delete_nothing). }
  set (l1 := (run (sweep_candidates se) l).1) in *.
  assert (Hrow : ∀ id r, lg_cands l1 !! id = Some r →
    undecided_since (pendingTtlDays se) (lg_now l1) r = false ∧ decided_since (retentionDays se) (lg_now l1) r = false).
  { intros id r Hr. unfold l1 in Hr. rewrite sweep_decides_by_age in Hr. apply bind_Some in Hr as (r0 & _ & Hs). rewrite Hnow.
    unfold swept in Hs. destruct (undecided_since _ _ r0) eqn:E; [injection Hs as <-|destruct (decided_since _ _ r0) eqn:Ed; [done|by injection Hs as <-]].
    split; [done|]. unfold decided_since. cbn. apply Z.ltb_ge. pose proof (envInt_positive (se_retentionDays se) 30 ltac:(lia)).
    unfold retentionDays, DAY_MS. lia. }
  unfold sweep_candidates. rewrite run_bind, countThen_run by (intros; by apply expire_nothing). cbn [fst snd].
  rewrite run_bind, countThen_run by (intros; by apply delete_nothing). cbn [run fst snd].
  rewrite expire_nothing by (intros id r Hr; by apply (Hrow id)). apply delete_nothing. intros id r Hr. by apply (Hrow id).
Qed.

(** ** On the small tenant *)

Definition some_settings : Settings :=
  {| se_retentionDays := None; se_pendingTtlDays := None; se_staleMs := 1000; se_extMs := 1000; se_today := "2026-01-02" |}.

Definition sweep_of (words : string) : prog PassState (nat * nat) :=
  @reconcileRuns plain_services ascii_script example_models sample_services no_days (picky_world words) (small_flow words None)
    plain_env "co" no_ambient some_settings.

(** What a second attempt left pending is committed by the job the sweep asks for. *)
Lemma sweep_redrives_the_commit :
  let read words pack s := (run (index_job_of words "source_document:0" pack) s).1 in
  let commit s := (run (commit_job_of "zz" "source_document:0") s).1 in
  let again := read "zz" "geo" (commit (read "Ada" "geo" (read "zz" GENERAL_INDEXER_ID (queued "zz")))) in
  let c := run (sweep_of "zz") again in
  c.2 = (0, 1)%nat ∧ existsb (λ j, bool_decide (j.2 = Some "commit_reconcile_0_2026-01-02")) (glance c.1).2 = true ∧
  existsb (λ st, bool_decide (st = CPending)) (glance again).1.2 = true ∧
  existsb (λ st, bool_decide (st = CPending)) (glance (commit c.1)).1.2 = false.
Proof. vm_compute. split_and!; reflexivity. Qed.
