(* ===== verification/Idempotency.v ===== *)
(** * Idempotency keys

    [idempotency/idempotency-store.service.ts] and
    [idempotency/idempotency.interceptor.ts]: the first write under (credential, key)
    claims a row, runs, and stores its answer; a retry gets that answer back. The
    unique index of [idempotency_key] decides a race between two first requests. *)

From S2P Require Import Prelude Js Regex Json Resume ScopeTags TenantScope.
From Stdlib Require Import Ascii.
Local Open Scope string_scope.
Local Open Scope Z_scope.

Definition IDEMPOTENCY_TTL_MS : Z := 24 * 60 * 60 * 1000.
Definition IN_FLIGHT_RETRY_AFTER_S : Z := 1.

Record IdempotencyRequest := {
  ir_scopeKey : string;
  ir_key : string;
  ir_method : string;
  ir_route : string;
  ir_fingerprint : string;
  ir_userId : option string
}.

Inductive KeyState : Type := Pending | DoneState.

Record KeyRow := {
  kr_id : nat;
  kr_scopeKey : string;
  kr_key : string;
  kr_method : string;
  kr_route : string;
  kr_fingerprint : string;
  kr_state : KeyState;
  kr_status : option Z;
  kr_body : option string;
  kr_userId : option string;
  kr_expiresAt : Z
}.

(** One tenant's table, the clock, the next record id, whether the database refuses
    UPDATE statements, and the log of handler runs (the requests' names). *)
Record Keys := {
  ks_rows : list KeyRow;
  ks_now : Z;
  ks_next : nat;
  ks_refuses : bool;
  ks_ran : list string
}.

Definition with_rows (rows : list KeyRow) (s : Keys) : Keys :=
  {| ks_rows := rows; ks_now := ks_now s; ks_next := ks_next s;
     ks_refuses := ks_refuses s; ks_ran := ks_ran s |}.

Inductive IdempotencyDecision : Type :=
| Proceed (id : nat)
| Replay (status : Z) (body : jsval)
| InFlight
| Mismatch.

Definition same_key (scopeKey key : string) (row : KeyRow) : bool :=
  bool_decide (kr_scopeKey row = scopeKey) && bool_decide (kr_key row = key).

(** What a handler does: returns, throws an [HttpException], or anything else. *)
Inductive Outcome : Type :=
| Returned (body : jsval)
| HttpError (status : Z) (response : jsval)
| Crashed.

(** What the client gets. [rp_ran]: the handler ran for this request. *)
Record Reply := {
  rp_ran : bool;
  rp_status : Z;
  rp_body : option jsval;
  rp_replayed : bool;
  rp_retryAfter : option Z
}.

Section store.
(** The runtime's number printing and [JSON.parse]; the driver's [sha256] digest. *)
Variable num_to_string : float → string.
Variable json_parse : string → jsval.
Variable sha256 : string → string.

Definition decide_row (row : KeyRow) (fingerprint : string) : IdempotencyDecision :=
  if negb (bool_decide (kr_fingerprint row = fingerprint)) then Mismatch
  else
    match kr_state row with
    | Pending => InFlight
    | DoneState =>
        Replay (default 200 (kr_status row))
          (match kr_body row with None => VNull | Some text => json_parse text end)
    end.

(** [SELECT ... WHERE scopeKey = $scopeKey AND key = $key LIMIT 1] *)
Definition select_key (r : IdempotencyRequest) : prog Keys (option KeyRow) :=
  query (λ s, find_first (same_key (ir_scopeKey r) (ir_key r)) (ks_rows s)).

Definition now : prog Keys Z := query ks_now.

(** [DELETE $id] *)
Definition delete_id (id : nat) : prog Keys unit :=
  exec (λ s, with_rows (List.filter (λ row, negb (bool_decide (kr_id row = id))) (ks_rows s)) s).

(** [CREATE idempotency_key CONTENT $row]; [None] is the unique violation. *)
Definition create_key (r : IdempotencyRequest) (expiresAt : Z) : prog Keys (option nat) :=
  update (λ s,
    if existsb (same_key (ir_scopeKey r) (ir_key r)) (ks_rows s) then (s, None)
    else
      ({| ks_rows := app (ks_rows s)
            [{| kr_id := ks_next s; kr_scopeKey := ir_scopeKey r; kr_key := ir_key r;
                kr_method := ir_method r; kr_route := ir_route r;
                kr_fingerprint := ir_fingerprint r; kr_state := Pending; kr_status := None;
                kr_body := None; kr_userId := truthy (ir_userId r);
                kr_expiresAt := expiresAt |}];
          ks_now := ks_now s; ks_next := S (ks_next s); ks_refuses := ks_refuses s;
          ks_ran := ks_ran s |}, Some (ks_next s))).

(** The rounds of [begin]. *)
Fixpoint begin_rounds (attempts : nat) (r : IdempotencyRequest) :
    prog Keys IdempotencyDecision :=
  match attempts with
  | O => Done InFlight
  | S n =>
      do* row := select_key r in
      do* t := now in
      match row with
      | Some row =>
          if t <? kr_expiresAt row then Done (decide_row row (ir_fingerprint r))
          else
            do* _ := delete_id (kr_id row) in
            do* t' := now in
            do* created := create_key r (t' + IDEMPOTENCY_TTL_MS) in
            match created with Some id => Done (Proceed id) | None => begin_rounds n r end
      | None =>
          do* t' := now in
          do* created := create_key r (t' + IDEMPOTENCY_TTL_MS) in
          match created with Some id => Done (Proceed id) | None => begin_rounds n r end
      end
  end.

Definition begin (r : IdempotencyRequest) : prog Keys IdempotencyDecision := begin_rounds 2 r.

(** [JSON.stringify(body ?? null)] *)
Definition body_text (body : jsval) : string :=
  match json_stringify num_to_string (if present body then body else VNull) with
  | Some text => text
  | None => "undefined"
  end.

(** [UPDATE $id SET state = 'done', ...] *)
Definition complete_row (status : Z) (body : jsval) (row : KeyRow) : KeyRow :=
  {| kr_id := kr_id row; kr_scopeKey := kr_scopeKey row; kr_key := kr_key row;
     kr_method := kr_method row; kr_route := kr_route row;
     kr_fingerprint := kr_fingerprint row; kr_state := DoneState; kr_status := Some status;
     kr_body := Some (body_text body); kr_userId := kr_userId row;
     kr_expiresAt := kr_expiresAt row |}.

Definition complete (id : nat) (status : Z) (body : jsval) : prog Keys (result unit unit) :=
  update (λ s,
    if ks_refuses s then (s, Throw tt)
    else
      (with_rows (map (λ row, if bool_decide (kr_id row = id) then complete_row status body row
                              else row) (ks_rows s)) s, Ok tt)).

Definition release (id : nat) : prog Keys unit := delete_id id.

(** One tenant's turn of [sweep]: 1000 expired keys at a time until none is left. *)
Fixpoint sweep_tenant (fuel : nat) (deleted : nat) : prog Keys nat :=
  match fuel with
  | O => Done deleted
  | S n =>
      do* ids := query (λ s, take 1000 (map kr_id
                   (List.filter (λ row, kr_expiresAt row <? ks_now s) (ks_rows s)))) in
      match ids with
      | [] => Done deleted
      | _ =>
          do* _ := exec (λ s, with_rows
                     (List.filter (λ row, negb (bool_decide (kr_id row ∈ ids))) (ks_rows s)) s) in
          sweep_tenant n (deleted + length ids)
      end
  end.

(** ** The interceptor *)

Record HttpRequest := {
  rq_name : string;                        (* tells requests apart in the log *)
  rq_http : bool;
  rq_header : option (list string);        (* a lone value is a one-element list *)
  rq_method : string;
  rq_auth : option (string * option string);  (* keyHash, userId *)
  rq_ambient : Ambient;
  rq_writesOwnResponse : bool;
  rq_routePath : option string;
  rq_baseUrl : option string;
  rq_path : string;
  rq_params : jsval;
  rq_query : jsval;
  rq_body : jsval;
  rq_httpCode : option Z;
  rq_outcome : Outcome
}.

Definition UNSAFE : list string := ["POST"; "PUT"; "PATCH"; "DELETE"].

(** [/^[\x21-\x7e]{1,255}$/] *)
Definition KEY_RE : re := r_range 1 255 (RCls (in_range "!" "~")).

Definition routeTemplate (rq : HttpRequest) : string :=
  match rq_routePath rq with
  | Some path => default "" (rq_baseUrl rq) +:+ path
  | None => rq_path rq
  end.

(** [v ?? dflt] *)
Definition or_default (v dflt : jsval) : jsval := if present v then v else dflt.

(** The text [fingerprintOf] hashes. *)
Definition fingerprint_text (method route : string) (params query body : jsval) : string :=
  canonical num_to_string
    (VObj [("method", VStr method); ("route", VStr route); ("params", or_default params (VObj []));
           ("query", or_default query (VObj [])); ("body", or_default body VNull)]).

Definition fingerprintOf (rq : HttpRequest) (route : string) : string :=
  sha256 (fingerprint_text (rq_method rq) route (rq_params rq) (rq_query rq) (rq_body rq)).

Definition bodyUserId (rq : HttpRequest) : option string :=
  match rq_body rq with
  | VObj fields => strOrUndefined (obj_get fields "userId")
  | _ => None
  end.

Definition successStatus (rq : HttpRequest) : Z :=
  match rq_httpCode rq with
  | Some code => code
  | None => if bool_decide (rq_method rq = "POST") then 201 else 200
  end.

(** [next.handle()]: the handler runs. *)
Definition handle (rq : HttpRequest) : prog Keys Outcome :=
  update (λ s,
    ({| ks_rows := ks_rows s; ks_now := ks_now s; ks_next := ks_next s;
        ks_refuses := ks_refuses s; ks_ran := app (ks_ran s) [rq_name rq] |}, rq_outcome rq)).

Definition reply (ran : bool) (status : Z) (body : option jsval) : Reply :=
  {| rp_ran := ran; rp_status := status; rp_body := body; rp_replayed := false;
     rp_retryAfter := None |}.

(** What the framework answers for the handler's outcome. *)
Definition answer (rq : HttpRequest) (o : Outcome) : Reply :=
  match o with
  | Returned body => reply true (successStatus rq) (Some body)
  | HttpError status response => reply true status (Some response)
  | Crashed => reply true 500 None
  end.

(** The [catch] of [run]: a stored refusal below 500, else the key is released. *)
Definition on_error (rq : HttpRequest) (id : nat) (e : Outcome) : prog Keys Reply :=
  match e with
  | HttpError status response =>
      if status <? 500
      then do* stored := complete id status response in
           match stored with
           | Ok _ => Done (answer rq e)
           | Throw _ => Done (reply true 500 None)
           end
      else do* _ := release id in Done (answer rq e)
  | _ => do* _ := release id in Done (reply true 500 None)
  end.

Definition run_request (rq : HttpRequest) (keyHash : string) (userId : option string)
    (key : string) : prog Keys Reply :=
  let route := routeTemplate rq in
  match match userId with Some u => Ok (Some u)
        | None => pinUserScope (rq_ambient rq) (bodyUserId rq) end with
  | Throw _ => Done (reply false 403 None)
  | Ok user =>
      do* decision := begin {| ir_scopeKey := keyHash; ir_key := key;
                               ir_method := rq_method rq; ir_route := route;
                               ir_fingerprint := fingerprintOf rq route; ir_userId := user |} in
      match decision with
      | Mismatch => Done (reply false 422 None)
      | InFlight =>
          Done {| rp_ran := false; rp_status := 409; rp_body := None; rp_replayed := false;
                  rp_retryAfter := Some IN_FLIGHT_RETRY_AFTER_S |}
      | Replay status body =>
          Done {| rp_ran := false; rp_status := status; rp_body := Some body;
                  rp_replayed := true; rp_retryAfter := None |}
      | Proceed id =>
          do* outcome := handle rq in
          match outcome with
          | Returned body =>
              do* stored := complete id (successStatus rq) body in
              match stored with
              | Ok _ => Done (answer rq outcome)
              | Throw _ => on_error rq id Crashed
              end
          | e => on_error rq id e
          end
      end
  end.

(** The header's key, when the interceptor applies. *)
Definition applies_to (rq : HttpRequest) : option (list string * string * option string) :=
  match rq_header rq, rq_auth rq with
  | Some header, Some (keyHash, userId) =>
      if rq_http rq && bool_decide (rq_method rq ∈ UNSAFE) && negb (rq_writesOwnResponse rq)
      then Some (header, keyHash, userId) else None
  | _, _ => None
  end.

Definition intercept (rq : HttpRequest) : prog Keys Reply :=
  match applies_to rq with
  | None => do* outcome := handle rq in Done (answer rq outcome)
  | Some (header, keyHash, userId) =>
      match truthy (head header) with
      | Some key =>
          if re_test KEY_RE key then run_request rq keyHash userId key
          else Done (reply false 400 None)
      | None => Done (reply false 400 None)
      end
  end.
End store.

(** ** One run per key *)

(** The request carries the Idempotency-Key [key] of the credential [scopeKey]. *)
Definition carries (scopeKey key : string) (rq : HttpRequest) : Prop :=
  ∃ header userId, applies_to rq = Some (header, scopeKey, userId) ∧ truthy (head header) = Some key.

(** The handler ran for this request and the client was given its answer. *)
Definition settled_by (r : Reply) : Prop := rp_ran r = true ∧ rp_status r < 500.

Lemma same_key_eq scopeKey key row :
  same_key scopeKey key row = true ↔ (kr_scopeKey row, kr_key row) = (scopeKey, key).
Proof. unfold same_key. rewrite andb_true_iff, !bool_decide_eq_true. naive_solver. Qed.

Section once_per_key.
Variable num_to_string : float → string.
Variable json_parse : string → jsval.
Variable sha256 : string → string.
Variables scopeKey key : string.
(** The time the requests start, and the last time the clock shows: less than a
    key's lifetime later. *)
Variables t0 horizon : Z.
Hypothesis within_ttl : horizon < t0 + IDEMPOTENCY_TTL_MS.
(** Whether the key had no unexpired row at the start. *)
Variable fresh : Prop.

Definition keys_ok (s : Keys) : Prop :=
  NoDup (map kr_id (ks_rows s)) ∧
  NoDup (map (λ row, (kr_scopeKey row, kr_key row)) (ks_rows s)) ∧
  (∀ row, row ∈ ks_rows s → (kr_id row < ks_next s)%nat) ∧ t0 ≤ ks_now s ≤ horizon.

(** A row of the key is dead from the start, or no one may call it expired. *)
Definition dated (row : KeyRow) : Prop :=
  fresh → same_key scopeKey key row = true → kr_expiresAt row ≤ t0 ∨ horizon < kr_expiresAt row.

(** A finished row stays until it expires. *)
Definition lasting (row : KeyRow) (s : Keys) : Prop :=
  kr_state row = DoneState → horizon < kr_expiresAt row → row ∈ ks_rows s.

(** What a request knows at each point, and the row it holds. *)
Inductive note : Type :=
| NFree
| NRead (row : KeyRow)
| NDead (ids : list nat)
| NHold (row : KeyRow)
| NWon (row : KeyRow)
| NReplay (row : KeyRow).

Definition note_ok (s : Keys) (g : note) : Prop :=
  match g with
  | NFree => True
  | NRead row => (kr_id row < ks_next s)%nat ∧ dated row ∧ lasting row s ∧
      ∀ row', row' ∈ ks_rows s → kr_id row' = kr_id row → kr_expiresAt row' = kr_expiresAt row
  | NDead ids => ∀ id, id ∈ ids → (id < ks_next s)%nat ∧
      ∀ row, row ∈ ks_rows s → kr_id row = id → kr_expiresAt row ≤ horizon
  | NHold row => row ∈ ks_rows s ∧ kr_state row = Pending ∧ horizon < kr_expiresAt row
  | NWon row => row ∈ ks_rows s ∧ kr_state row = DoneState ∧ horizon < kr_expiresAt row
  | NReplay row => lasting row s
  end.

Definition held (g : note) : option nat :=
  match g with NHold row | NWon row => Some (kr_id row) | _ => None end.

Record inv (s : Keys) (gs : list note) : Prop := {
  in_ok : keys_ok s;
  in_dated : ∀ row, row ∈ ks_rows s → dated row;
  in_notes : ∀ i g, gs !! i = Some g → note_ok s g;
  in_held : ∀ i j g g' id, gs !! i = Some g → gs !! j = Some g' →
    held g = Some id → held g' = Some id → i = j
}.

(** What a statement of the request under note [g] may do to the others' rows: ids stay
    fresh, expiry times stay, and a live row goes only when it is pending and its own. *)
Record moves (g : note) (s s' : Keys) : Prop := {
  mv_next : (ks_next s ≤ ks_next s')%nat;
  mv_rows : ∀ row', row' ∈ ks_rows s' → (kr_id row' < ks_next s)%nat →
    ∃ row, row ∈ ks_rows s ∧ kr_id row = kr_id row' ∧ kr_expiresAt row = kr_expiresAt row';
  mv_keeps : ∀ row, row ∈ ks_rows s → horizon < kr_expiresAt row →
    kr_state row = DoneState ∨ held g ≠ Some (kr_id row) → row ∈ ks_rows s'
}.

Lemma lasting_moves g s s' row : moves g s s' → lasting row s → lasting row s'.
Proof. intros Hm H Hd He. eapply mv_keeps; eauto. Qed.

Lemma note_moves g s s' g' :
  moves g s s' → (∀ id, held g = Some id → held g' ≠ Some id) → note_ok s g' → note_ok s' g'.
Proof.
  intros Hm Hne. destruct g' as [|row|ids|row|row|row]; cbn [note_ok held] in *.
  - done.
  - intros (Hid & Hd & Hl & He). split_and!; [pose proof (mv_next _ _ _ Hm); lia|done|by eapply lasting_moves|].
    intros row' Hin Hrow. destruct (mv_rows _ _ _ Hm row' Hin) as (row0 & H0 & H1 & <-); [lia|].
    apply He; [done|congruence].
  - intros H id Hid. destruct (H id Hid) as [Hlt He]. split; [pose proof (mv_next _ _ _ Hm); lia|].
    intros row' Hin <-. destruct (mv_rows _ _ _ Hm row' Hin Hlt) as (row0 & H0 & H1 & <-). by apply He.
  - intros (Hin & Hp & He). split_and!; [|done..]. apply (mv_keeps _ _ _ Hm row Hin He). right.
    intros Hg. by apply (Hne _ Hg).
  - intros (Hin & Hp & He). split_and!; [|done..]. apply (mv_keeps _ _ _ Hm row Hin He). by left.
  - by eapply lasting_moves.
Qed.

(** One statement, from the note [g] to the note [g']. *)
Lemma inv_step g g' s s' gs i :
  inv s gs → gs !! i = Some g → moves g s s' → keys_ok s' →
  (∀ row, row ∈ ks_rows s' → dated row) → note_ok s' g' →
  (held g' = None ∨ held g' = held g ∨ held g' = Some (ks_next s)) → inv s' (<[i := g']> gs).
Proof.
  intros HI Hi Hm Hok Hd Hg' Hh. pose proof (lookup_lt_Some _ _ _ Hi) as Hlt.
  assert (Hfresh : ∀ j g0, gs !! j = Some g0 → held g0 ≠ Some (ks_next s)).
  { intros j g0 Hj H0. pose proof (in_notes _ _ HI _ _ Hj) as Hn. destruct (in_ok _ _ HI) as (_ & _ & Hid & _).
    destruct g0; cbn in *; try done; injection H0 as H0; destruct Hn as (Hin & _); specialize (Hid _ Hin); lia. }
  assert (Hown : ∀ j g0 id, j ≠ i → gs !! j = Some g0 → held g' = Some id → held g0 ≠ Some id).
  { intros j g0 id Hne Hj H1 H2. destruct Hh as [Hh|[Hh|Hh]].
    - congruence.
    - apply Hne. eapply (in_held _ _ HI j i g0 g id); [done..|congruence].
    - apply (Hfresh j g0 Hj). congruence. }
  split; [done|done| |].
  - intros j g0. destruct (decide (j = i)) as [->|Hne].
    + rewrite list_lookup_insert_eq by done. by intros [= <-].
    + rewrite list_lookup_insert_ne by done. intros Hj. eapply note_moves; [done| |by eapply in_notes].
      intros id H1 H2. apply Hne. by eapply (in_held _ _ HI j i g0 g id).
  - intros j k g1 g2 id Hj Hk H1 H2. destruct (decide (j = i)) as [->|Hji], (decide (k = i)) as [->|Hki].
    + done.
    + rewrite list_lookup_insert_eq in Hj by done. injection Hj as <-.
      rewrite list_lookup_insert_ne in Hk by done. by destruct (Hown k g2 id).
    + rewrite list_lookup_insert_eq in Hk by done. injection Hk as <-.
      rewrite list_lookup_insert_ne in Hj by done. by destruct (Hown j g1 id).
    + rewrite !list_lookup_insert_ne in * by done. by eapply (in_held _ _ HI j k g1 g2).
Qed.

Lemma idle_moves g s s' :
  (ks_next s ≤ ks_next s')%nat → ks_rows s' = ks_rows s → moves g s s'.
Proof. intros Hn Hr. split; [done| |]; rewrite Hr; eauto. Qed.

(** A read. *)
Lemma inv_read g g' s gs i :
  inv s gs → gs !! i = Some g → note_ok s g' → held g' = None ∨ held g' = held g → inv s (<[i := g']> gs).
Proof.
  intros HI Hi Hg Hh. eapply inv_step; [done..|by apply idle_moves|apply HI|apply HI|done|tauto].
Qed.

Lemma inv_free g s gs i : inv s gs → gs !! i = Some g → inv s (<[i := NFree]> gs).
Proof. intros HI Hi. eapply inv_read; [done|done|done|by left]. Qed.

(** Removing rows that are dead, or its own while it is pending. *)
Lemma inv_drop (f : KeyRow → bool) g s gs i :
  inv s gs → gs !! i = Some g →
  (∀ row, row ∈ ks_rows s → f row = false →
     kr_expiresAt row ≤ horizon ∨ kr_state row = Pending ∧ held g = Some (kr_id row)) →
  inv (with_rows (List.filter f (ks_rows s)) s) (<[i := NFree]> gs).
Proof.
  intros HI Hi Hf. destruct (in_ok _ _ HI) as (Hn & Hk & Hid & Ht).
  eapply (inv_step g); [done|done| | | |done|by left].
  - split; cbn; [done| |].
    + intros row' [? _]%elem_of_bfilter _. eauto.
    + intros row Hin He Hor. apply elem_of_bfilter. split; [done|]. destruct (f row) eqn:E; [done|].
      destruct (Hf row Hin E) as [?|[Hp Hh]]; [lia|]. destruct Hor as [?|?]; congruence.
  - split_and!; cbn; [by apply NoDup_map_bfilter|by apply NoDup_map_bfilter| |lia|lia].
    intros row [? _]%elem_of_bfilter. by apply Hid.
  - cbn. intros row [? _]%elem_of_bfilter. by apply (in_dated _ _ HI).
Qed.

Lemma inv_create r expiresAt s gs i :
  inv s gs → gs !! i = Some NFree → t0 + IDEMPOTENCY_TTL_MS ≤ expiresAt →
  ∃ g', inv (run (create_key r expiresAt) s).1 (<[i := g']> gs) ∧
    match (run (create_key r expiresAt) s).2 with
    | Some id => ∃ row, g' = NHold row ∧ kr_id row = id ∧ same_key (ir_scopeKey r) (ir_key r) row = true
    | None => g' = NFree
    end.
Proof.
  intros HI Hi He. unfold create_key. rewrite run_update.
  destruct (existsb (same_key (ir_scopeKey r) (ir_key r)) (ks_rows s)) eqn:E.
  { exists NFree. split; [|done]. cbn. rewrite list_insert_id by done. done. }
  cbn [fst snd]. set (row := {| kr_id := ks_next s |}). set (s' := {| ks_rows := _ |}).
  destruct (in_ok _ _ HI) as (Hn & Hk & Hid & Ht). exists (NHold row). split.
  - eapply (inv_step NFree); [done|done| | | | |by do 2 right].
    + split; cbn; [lia| |].
      * intros x [Hx| ->%list_elem_of_singleton]%elem_of_app Hlt; [by exists x|cbn in Hlt; lia].
      * intros x Hx _ _. apply elem_of_app. by left.
    + split_and!; cbn; [| | |lia|lia].
      * rewrite map_app. apply NoDup_app. split; [done|]. split; [|apply NoDup_singleton].
        intros x (row' & -> & Hin)%list_elem_of_fmap Heq%list_elem_of_singleton.
        specialize (Hid row' Hin). cbn in Heq. lia.
      * rewrite map_app. apply NoDup_app. split; [done|]. split; [|apply NoDup_singleton].
        intros x (row' & -> & Hin)%list_elem_of_fmap Heq%list_elem_of_singleton.
        cbn in Heq. apply not_true_iff_false in E. apply E, existsb_exists. exists row'.
        split; [by apply list_elem_of_In|]. injection Heq as H1 H2. unfold same_key.
        by rewrite !bool_decide_eq_true_2.
      * intros x [Hx| ->%list_elem_of_singleton]%elem_of_app; [|cbn; lia]. specialize (Hid x Hx). lia.
    + intros x [Hx| ->%list_elem_of_singleton]%elem_of_app; [by apply (in_dated _ _ HI)|].
      intros _ _. right. cbn. lia.
    + cbn. split_and!; [|done|lia]. apply elem_of_app. right. by left.
  - exists row. split_and!; [done..|]. unfold same_key. cbn. by rewrite !bool_decide_eq_true_2.
Qed.

Lemma inv_complete id status body s gs i row :
  inv s gs → gs !! i = Some (NHold row) → kr_id row = id →
  ∃ g', inv (run (complete num_to_string id status body) s).1 (<[i := g']> gs) ∧
    match (run (complete num_to_string id status body) s).2 with
    | Ok _ => g' = NWon (complete_row num_to_string status body row)
    | Throw _ => g' = NHold row
    end.
Proof.
  intros HI Hi <-. unfold complete. rewrite run_update. destruct (ks_refuses s).
  { exists (NHold row). cbn. by rewrite list_insert_id. }
  cbn [fst snd]. set (upd := λ x, if bool_decide (kr_id x = kr_id row) then _ else x).
  destruct (in_ok _ _ HI) as (Hn & Hk & Hid & Ht). destruct (in_notes _ _ HI _ _ Hi) as (Hin & Hp & He).
  assert (Hupd : ∀ x, kr_id (upd x) = kr_id x ∧ kr_expiresAt (upd x) = kr_expiresAt x ∧
    (kr_scopeKey (upd x), kr_key (upd x)) = (kr_scopeKey x, kr_key x)).
  { intros x. unfold upd. by case_bool_decide. }
  exists (NWon (complete_row num_to_string status body row)). split; [|done].
  eapply (inv_step (NHold row)); [done|done| | | | |by right; left].
  - split; cbn; [done| |].
    + intros x (x0 & -> & Hx0)%list_elem_of_fmap _. exists x0. split; [done|]. by destruct (Hupd x0) as (-> & -> & _).
    + intros x Hx _ Hor. apply list_elem_of_fmap. exists x. split; [|done]. unfold upd.
      rewrite bool_decide_eq_false_2; [done|]. intros Heq.
      assert (x = row) as -> by (by apply (NoDup_map_inj kr_id (ks_rows s))).
      destruct Hor as [?|?]; [congruence|done].
  - split_and!; cbn; [| | |lia|lia].
    + rewrite map_map. rewrite (map_ext _ kr_id); [done|apply Hupd].
    + rewrite map_map. rewrite (map_ext _ (λ x, (kr_scopeKey x, kr_key x))); [done|apply Hupd].
    + intros x (x0 & -> & Hx0)%list_elem_of_fmap. destruct (Hupd x0) as (-> & _). by apply Hid.
  - intros x (x0 & -> & Hx0)%list_elem_of_fmap. pose proof (in_dated _ _ HI x0 Hx0) as Hd. unfold dated, same_key in *.
    destruct (Hupd x0) as (_ & -> & [= -> ->]). exact Hd.
  - cbn. split_and!; [|done|done]. apply list_elem_of_fmap. exists row. split; [|done].
    unfold upd. by rewrite bool_decide_eq_true_2.
Qed.

(** A step of the surroundings: the rows and the ids stay. *)
Lemma inv_env g s s' gs i :
  inv s gs → gs !! i = Some g → ks_rows s' = ks_rows s → ks_next s' = ks_next s →
  t0 ≤ ks_now s' ≤ horizon → inv s' (<[i := g]> gs).
Proof.
  intros HI Hi Hr Hn Ht. destruct (in_ok _ _ HI) as (H1 & H2 & H3 & _).
  eapply (inv_step g); [done|done|apply idle_moves; [lia|done]| | | |by right; left].
  - unfold keys_ok. rewrite Hr, Hn. done.
  - rewrite Hr. apply HI.
  - pose proof (in_notes _ _ HI _ _ Hi) as H. destruct g; cbn in *; unfold lasting in *; rewrite ?Hr, ?Hn; done.
Qed.

(** *** Calls *)

(** What a note must say for the reply to be right. *)
Definition reply_ok (carried : Prop) (g : note) (r : Reply) : Prop :=
  carried →
  (settled_by r → ∃ row body, g = NWon row ∧ same_key scopeKey key row = true ∧
     kr_status row = Some (rp_status r) ∧ kr_body row = Some (body_text num_to_string body) ∧
     rp_body r = Some body) ∧
  (rp_replayed r = true → ∃ row, g = NReplay row ∧ same_key scopeKey key row = true ∧
     kr_state row = DoneState ∧ (fresh → horizon < kr_expiresAt row) ∧ rp_status r = default 200 (kr_status row) ∧
     rp_body r = Some (match kr_body row with None => VNull | Some text => json_parse text end)).

Lemma reply_plain carried g r : rp_replayed r = false → (rp_ran r = true → 500 ≤ rp_status r) → reply_ok carried g r.
Proof. intros H1 H2 _. split; [intros [Hr Hs]; specialize (H2 Hr); lia|congruence]. Qed.

(** What [begin] leaves a request with. *)
Definition decided (sk k : string) (g : note) (d : IdempotencyDecision) : Prop :=
  match d with
  | Proceed id => ∃ row, g = NHold row ∧ kr_id row = id ∧ same_key sk k row = true
  | Replay status body => ∃ row, g = NReplay row ∧ same_key sk k row = true ∧ kr_state row = DoneState ∧
      (fresh → same_key scopeKey key row = true → horizon < kr_expiresAt row) ∧ status = default 200 (kr_status row) ∧
      body = match kr_body row with None => VNull | Some text => json_parse text end
  | InFlight | Mismatch => True
  end.

Notation follow := (follows inv).

Lemma claim_follows r (m : option nat → prog Keys IdempotencyDecision) :
  (∀ id row, kr_id row = id → same_key (ir_scopeKey r) (ir_key r) row = true →
     follow (decided (ir_scopeKey r) (ir_key r)) (NHold row) (m (Some id))) →
  follow (decided (ir_scopeKey r) (ir_key r)) NFree (m None) →
  follow (decided (ir_scopeKey r) (ir_key r)) NFree
    (pbind now (λ t, pbind (create_key r (t + IDEMPOTENCY_TTL_MS)) m)).
Proof.
  intros Hsome Hnone. apply (follows_bind inv (λ g t, g = NFree ∧ t0 ≤ t)).
  - apply follows_query. intros s gs i HI Hi. exists NFree. split; [by eapply inv_free|]. split; [done|]. apply HI.
  - intros g t [-> Ht].
    apply (follows_bind inv (λ g c, match c with
      | Some id => ∃ row, g = NHold row ∧ kr_id row = id ∧ same_key (ir_scopeKey r) (ir_key r) row = true
      | None => g = NFree end)).
    + apply follows_update. intros s gs i HI Hi.
      destruct (inv_create r (t + IDEMPOTENCY_TTL_MS) s gs i HI Hi ltac:(lia)) as (g' & H1 & H2).
      unfold create_key in *. rewrite run_update in *. by exists g'.
    + intros g' [id|]; [intros (row & -> & H1 & H2); by apply Hsome|by intros ->].
Qed.

Lemma begin_follows n r :
  follow (decided (ir_scopeKey r) (ir_key r)) NFree (begin_rounds json_parse n r).
Proof.
  induction n as [|n IH]; cbn [begin_rounds]; [done|].
  assert (Hclaim : follow (decided (ir_scopeKey r) (ir_key r)) NFree
    (pbind now (λ t', pbind (create_key r (t' + IDEMPOTENCY_TTL_MS)) (λ created,
       match created with Some id => Done (Proceed id) | None => begin_rounds json_parse n r end)))).
  { apply claim_follows; [|done]. intros id row Hid Hs. by exists row. }
  apply (follows_bind inv (λ g o, match o with
    | Some row => g = NRead row ∧ same_key (ir_scopeKey r) (ir_key r) row = true ∧ dated row
    | None => g = NFree end)).
  { apply follows_query. intros s gs i HI Hi.
    destruct (find_first (same_key (ir_scopeKey r) (ir_key r)) (ks_rows s)) as [row|] eqn:Ef.
    2: { exists NFree. split; [by eapply inv_free|done]. }
    apply find_first_Some in Ef as [Hin Hs]. pose proof (in_dated _ _ HI row Hin) as Hd.
    exists (NRead row). split; [|done]. eapply inv_read; [done|done| |by left].
    destruct (in_ok _ _ HI) as (Hn & _ & Hid & _). cbn. split_and!; [by apply Hid|done|by intros ? ?|].
    intros row' Hin' Heq. f_equal. by apply (NoDup_map_inj kr_id (ks_rows s)). }
  intros g [row|]; [|intros ->; apply (follows_bind inv (λ g _, g = NFree)); [|by intros g' t ->];
    apply follows_query; intros s gs i HI Hi; exists NFree; split; [by eapply inv_free|done]].
  intros (-> & Hs & Hd).
  apply (follows_bind inv (λ g t, t0 ≤ t ∧ if t <? kr_expiresAt row then g = NReplay row else g = NDead [kr_id row])).
  - apply follows_query. intros s gs i HI Hi. destruct (in_notes _ _ HI _ _ Hi) as (Hlt & _ & Hl & He).
    destruct (in_ok _ _ HI) as (_ & _ & _ & Ht).
    destruct (ks_now s <? kr_expiresAt row) eqn:El.
    + exists (NReplay row). split; [|split; [lia|done]]. eapply inv_read; [done|done|exact Hl|by left].
    + exists (NDead [kr_id row]). split; [|split; [lia|done]]. eapply inv_read; [done|done| |by left].
      intros id ->%list_elem_of_singleton. split; [done|]. intros x Hx Hid. rewrite (He x Hx Hid). lia.
  - intros g t [Ht Hg]. destruct (t <? kr_expiresAt row) eqn:El; subst g.
    + cbn. unfold decide_row. destruct (negb _); [done|]. destruct (kr_state row) eqn:Est; [done|].
      exists row. split_and!; try done. intros Hfr Hsk. destruct (Hd Hfr Hsk); [lia|done].
    + apply (follows_bind inv (λ g _, g = NFree)); [|by intros g _ ->]. apply follows_exec.
      intros s gs i HI Hi. exists NFree. split; [|done]. eapply inv_drop; [done|done|].
      intros x Hx Hf. apply negb_false_iff, bool_decide_eq_true in Hf. left.
      destruct (in_notes _ _ HI _ _ Hi (kr_id row)) as [_ H]; [by left|]. by apply H.
Qed.

Lemma release_follows row id :
  kr_id row = id → follow (λ g _, g = NFree) (NHold row) (release id).
Proof.
  intros <-. apply follows_exec. intros s gs i HI Hi. exists NFree. split; [|done].
  eapply inv_drop; [done|done|]. intros x Hx Hf. apply negb_false_iff, bool_decide_eq_true in Hf. right.
  destruct (in_notes _ _ HI _ _ Hi) as (Hin & Hp & _). destruct (in_ok _ _ HI) as (Hn & _).
  assert (x = row) as -> by (by apply (NoDup_map_inj kr_id (ks_rows s))). done.
Qed.

Lemma complete_follows row id status body :
  kr_id row = id →
  follow (λ g o, match o with Ok _ => g = NWon (complete_row num_to_string status body row) | Throw _ => g = NHold row end)
    (NHold row) (complete num_to_string id status body).
Proof.
  intros Hid. apply follows_update. intros s gs i HI Hi.
  destruct (inv_complete id status body s gs i row HI Hi Hid) as (g' & H1 & H2).
  unfold complete in *. rewrite run_update in *. eauto.
Qed.

Lemma handle_follows g rq : follow (λ g' o, g' = g ∧ o = rq_outcome rq) g (handle rq).
Proof.
  apply follows_update. intros s gs i HI Hi. exists g. split; [|done].
  eapply inv_env; [done|done|done|done|]. cbn. apply HI.
Qed.

Lemma on_error_follows (carried : Prop) rq row id e :
  kr_id row = id → (carried → same_key scopeKey key row = true) → (∀ body, e ≠ Returned body) →
  follow (reply_ok carried) (NHold row) (on_error num_to_string rq id e).
Proof.
  intros Hid Hs Hne. destruct e as [body|status response|]; [by destruct (Hne body)| |].
  - cbn [on_error]. destruct (status <? 500) eqn:E.
    + eapply follows_bind; [by apply complete_follows|]. intros g [[]|[]] ->; cbn [answer].
      * intros Hc. split; [|done]. intros [_ Hst]. eexists _, response. split; [done|]. split; [exact (Hs Hc)|done].
      * by apply reply_plain.
    + eapply follows_bind; [by apply release_follows|]. intros g [] ->. apply reply_plain; [done|]. cbn. lia.
  - eapply follows_bind; [by apply release_follows|]. intros g [] ->. by apply reply_plain.
Qed.

Lemma intercept_follows rq :
  follow (reply_ok (carries scopeKey key rq)) NFree (intercept num_to_string json_parse sha256 rq).
Proof.
  unfold intercept. destruct (applies_to rq) as [[[header keyHash] userId]|] eqn:Ha.
  2: { eapply follows_bind; [apply handle_follows|]. intros g o _ (h & u & ? & _). congruence. }
  destruct (truthy (head header)) as [k|] eqn:Hk; [|by apply reply_plain].
  assert (Hcar : carries scopeKey key rq → keyHash = scopeKey ∧ k = key).
  { intros (h & u & Hh & Ht). rewrite Ha in Hh. injection Hh as -> -> ->. split; [done|congruence]. }
  destruct (re_test KEY_RE k); [|by apply reply_plain]. unfold run_request.
  destruct (match userId with Some u => _ | None => _ end) as [user|]; [|by apply reply_plain].
  eapply follows_bind; [apply begin_follows|]. cbn [ir_scopeKey ir_key].
  intros g [id|status body| |] Hd; [|destruct Hd as (row & -> & Hs & Hst & Hf & -> & ->)|by apply reply_plain..].
  - destruct Hd as (row & -> & Hid & Hs). eapply follows_bind; [apply handle_follows|]. intros g o [-> ->].
    assert (Hs' : carries scopeKey key rq → same_key scopeKey key row = true) by (by intros [<- <-]%Hcar).
    destruct (rq_outcome rq) as [body|status response|] eqn:Eo; [|by apply on_error_follows..].
    eapply follows_bind; [by apply complete_follows|]. intros g [[]|[]] ->.
    + cbn [answer]. intros Hc. split; [|done]. intros _. eexists _, body. split; [done|]. split; [exact (Hs' Hc)|done].
    + by apply on_error_follows.
  - intros Hc. split; [by intros []|]. intros _. destruct (Hcar Hc) as [-> ->]. exists row. split_and!; auto.
Qed.

(** *** The others: the clock, the database's moods, and the nightly sweep *)

Definition idle : Reply := reply false 0 None.

Definition tick (t : Z) : prog Keys Reply :=
  pbind (exec (λ s, {| ks_rows := ks_rows s; ks_now := Z.max (ks_now s) t;
                       ks_next := ks_next s; ks_refuses := ks_refuses s;
                       ks_ran := ks_ran s |})) (λ _, Done idle).

Definition turn (refuses : bool) : prog Keys Reply :=
  pbind (exec (λ s, {| ks_rows := ks_rows s; ks_now := ks_now s;
                       ks_next := ks_next s; ks_refuses := refuses;
                       ks_ran := ks_ran s |})) (λ _, Done idle).

Inductive actor : Type :=
| ARequest (rq : HttpRequest)
| ATick (t : Z)
| ARefuses (refuses : bool)
| ASweep (fuel : nat).

Definition actor_prog (a : actor) : prog Keys Reply :=
  match a with
  | ARequest rq => intercept num_to_string json_parse sha256 rq
  | ATick t => tick t
  | ARefuses refuses => turn refuses
  | ASweep fuel => pbind (sweep_tenant fuel 0) (λ _, Done idle)
  end.

Definition actor_ok (a : actor) : Prop := match a with ATick t => t ≤ horizon | _ => True end.

Definition carrier (a : actor) : Prop := match a with ARequest rq => carries scopeKey key rq | _ => False end.

Lemma sweep_follows fuel deleted : follow (λ _ _, True) NFree (sweep_tenant fuel deleted).
Proof.
  revert deleted. induction fuel as [|n IH]; intros deleted; [done|]. cbn [sweep_tenant].
  apply (follows_bind inv (λ g ids, g = NDead ids)).
  - apply follows_query. intros s gs i HI Hi. set (ids := take 1000 _). exists (NDead ids). split; [|done].
    eapply inv_read; [done|done| |by left]. destruct (in_ok _ _ HI) as (Hn & _ & Hid & Ht). intros x Hx. unfold ids in Hx.
    apply elem_of_take in Hx as (j & Hj & _). apply list_elem_of_lookup_2 in Hj.
    apply list_elem_of_fmap in Hj as (row & -> & [Hin Hlt]%elem_of_bfilter). split; [by apply Hid|].
    intros row' Hin' Heq. assert (row' = row) as -> by (by apply (NoDup_map_inj kr_id (ks_rows s))). lia.
  - intros g ids ->. destruct ids as [|id ids]; [done|].
    apply (follows_bind inv (λ g _, g = NFree)); [|by intros g _ ->]. apply follows_exec.
    intros s gs i HI Hi. exists NFree. split; [|done]. eapply inv_drop; [done|done|].
    intros x Hx Hf. apply negb_false_iff, bool_decide_eq_true in Hf. left. by apply (in_notes _ _ HI _ _ Hi (kr_id x)).
Qed.

Lemma actor_follows a : actor_ok a → follow (reply_ok (carrier a)) NFree (actor_prog a).
Proof.
  assert (Hidle : ∀ g, reply_ok False g idle) by (by intros g []).
  destruct a as [rq|t|b|fuel]; cbn [actor_ok actor_prog carrier]; intros Ha.
  - apply intercept_follows.
  - apply (follows_bind inv (λ _ _, True)); [|intros; apply Hidle]. apply follows_exec. intros s gs i HI Hi.
    exists NFree. split; [|done]. eapply inv_env; [done|done|done|done|]. cbn.
    destruct (in_ok _ _ HI) as (_ & _ & _ & Ht). lia.
  - apply (follows_bind inv (λ _ _, True)); [|intros; apply Hidle]. apply follows_exec. intros s gs i HI Hi.
    exists NFree. split; [|done]. eapply inv_env; [done|done|done|done|]. apply HI.
  - apply (follows_bind inv (λ _ _, True)); [apply sweep_follows|intros; apply Hidle].
Qed.

Lemma inv_start s actors :
  keys_ok s → (∀ row, row ∈ ks_rows s → dated row) → inv s (replicate (length (A := actor) actors) NFree).
Proof.
  intros Hok Hd. split; [done|done| |].
  - by intros i g [-> _]%lookup_replicate.
  - by intros i j g g' id [-> _]%lookup_replicate.
Qed.

(** The pool at any time: every reply is as its request's note says. *)
Lemma pool_replies actors sched s :
  keys_ok s → (∀ row, row ∈ ks_rows s → dated row) → Forall actor_ok actors →
  ∃ gs, inv (run_pool sched (s, map actor_prog actors)).1 gs ∧
    ∀ i rq r, actors !! i = Some (ARequest rq) → carries scopeKey key rq →
      (run_pool sched (s, map actor_prog actors)).2 !! i = Some (Done r) →
      ∃ g, gs !! i = Some g ∧ reply_ok True g r.
Proof.
  intros Hok Hd Hall.
  destruct (pool_follows inv sched (s, map actor_prog actors) (replicate (length actors) NFree)
    (λ i g r, ∀ a, actors !! i = Some a → reply_ok (carrier a) g r)) as (gs & HI & Hp).
  - by apply inv_start.
  - intros i p. cbn. rewrite list_lookup_fmap. intros (a & Ha & ->)%fmap_Some. exists NFree. split.
    + apply lookup_replicate. split; [done|]. by eapply lookup_lt_Some.
    + pose proof (actor_follows a (Forall_lookup_1 _ _ _ _ Hall Ha)) as H.
      eapply follows_post; [|exact H]. intros g r Hr a' Ha'. assert (a' = a) as -> by congruence. exact Hr.
  - exists gs. split; [done|]. intros i rq r Ha Hc Hr. destruct (Hp i _ Hr) as (g & Hg & H). exists g.
    split; [done|]. intros _. by apply (H _ Ha).
Qed.
End once_per_key.

(** C9. A write is settled once per Idempotency-Key. Take any number of requests, with
    any handlers, keys and bodies, their statements interleaved in any order with each
    other, with the clock (for less than the key's lifetime), with the nightly sweep and
    with the database refusing its updates from time to time, on a table with one row per
    key (its unique index). Of the requests carrying one
    key of one credential at most one runs its handler and is given its answer, a status
    below 500: whoever else ran was told 500 or more and may try again. And when the key
    had no unexpired row at the start, every replayed answer is the one that request was
    given: its status, and its body as stored. *)
Theorem one_run_per_key num_to_string json_parse sha256 scopeKey key horizon actors sched s i j rqi rqj ri rj
    (Httl : horizon < ks_now s + IDEMPOTENCY_TTL_MS)
    (Hok : keys_ok (ks_now s) horizon s)
    (Hall : Forall (actor_ok horizon) actors)
    (Hai : actors !! i = Some (ARequest rqi)) (Hci : carries scopeKey key rqi)
    (Haj : actors !! j = Some (ARequest rqj)) (Hcj : carries scopeKey key rqj) :
  let pool := map (actor_prog num_to_string json_parse sha256) actors in
  (run_pool sched (s, pool)).2 !! i = Some (Done ri) → settled_by ri →
  (run_pool sched (s, pool)).2 !! j = Some (Done rj) →
  (settled_by rj → i = j) ∧
  ((∀ row, row ∈ ks_rows s → same_key scopeKey key row = true → kr_expiresAt row ≤ ks_now s) →
   rp_replayed rj = true →
   rp_status rj = rp_status ri ∧
   ∃ body, rp_body ri = Some body ∧ rp_body rj = Some (json_parse (body_text num_to_string body))).
Proof.
  intros pool Hri Hsi Hrj. set (fresh := ∀ row, row ∈ ks_rows s → same_key scopeKey key row = true → kr_expiresAt row ≤ ks_now s).
  destruct (pool_replies num_to_string json_parse sha256 scopeKey key (ks_now s) horizon Httl fresh actors sched s)
    as (gs & HI & Hp); [done| |done|].
  { intros row Hin Hfr Hs. left. by apply Hfr. }
  destruct (Hp i rqi ri Hai Hci Hri) as (gi & Hgi & Hoki). destruct (Hp j rqj rj Haj Hcj Hrj) as (gj & Hgj & Hokj).
  destruct (proj1 (Hoki I) Hsi) as (rowi & bi & -> & Hki & Hst & Hb & Hbi).
  destruct (in_notes _ _ _ _ _ _ _ HI _ _ Hgi) as (Hini & Hdi & Hei).
  destruct (in_ok _ _ _ _ _ _ _ HI) as (_ & Huniq & _).
  assert (Heq : ∀ row, row ∈ ks_rows (run_pool sched (s, pool)).1 → same_key scopeKey key row = true → row = rowi).
  { intros row Hin Hk. apply (NoDup_map_inj _ _ _ _ Huniq Hin Hini).
    apply same_key_eq in Hk, Hki. cbv beta. congruence. }
  split.
  - intros Hsj. destruct (proj1 (Hokj I) Hsj) as (rowj & bj & -> & Hkj & _).
    destruct (in_notes _ _ _ _ _ _ _ HI _ _ Hgj) as (Hinj & _).
    eapply (in_held _ _ _ _ _ _ _ HI i j); [done|done|done|]. cbn. by rewrite (Heq rowj).
  - intros Hfr Hrep. destruct (proj2 (Hokj I) Hrep) as (rowj & -> & Hkj & Hdj & Hej & -> & ->).
    pose proof (in_notes _ _ _ _ _ _ _ HI _ _ Hgj Hdj (Hej Hfr)) as Hinj.
    rewrite (Heq rowj Hinj Hkj), Hst, Hb. split; [done|]. by exists bi.
Qed.

(** ** A request and its retry *)

Section retry.
Variable num_to_string : float → string.
Variable json_parse : string → jsval.
Variable sha256 : string → string.

(** The table's unique indexes, and fresh record ids. *)
Definition keys_wf (s : Keys) : Prop :=
  NoDup (map kr_id (ks_rows s)) ∧
  NoDup (map (λ row, (kr_scopeKey row, kr_key row)) (ks_rows s)) ∧
  ∀ row, row ∈ ks_rows s → (kr_id row < ks_next s)%nat.

Definition others (scopeKey key : string) (rows : list KeyRow) : list KeyRow :=
  List.filter (λ row, negb (same_key scopeKey key row)) rows.

Lemma others_none scopeKey key rows :
  existsb (same_key scopeKey key) (others scopeKey key rows) = false.
Proof.
  apply not_true_iff_false. rewrite existsb_exists. intros (row & Hin & Hr).
  apply filter_In in Hin as [_ Hn]. by rewrite Hr in Hn.
Qed.

Lemma others_all scopeKey key rows :
  existsb (same_key scopeKey key) rows = false → others scopeKey key rows = rows.
Proof.
  induction rows as [|row rows IH]; simpl; [done|]. intros [H1 H2]%orb_false_iff.
  rewrite H1. simpl. by rewrite IH.
Qed.

Lemma delete_found scopeKey key s row :
  keys_wf s → row ∈ ks_rows s → same_key scopeKey key row = true →
  List.filter (λ x, negb (bool_decide (kr_id x = kr_id row))) (ks_rows s) =
  others scopeKey key (ks_rows s).
Proof.
  intros (Hi & Hk & _) Hin Hs. unfold others. apply List.filter_ext_in.
  intros x Hx%list_elem_of_In. f_equal. apply bool_eq_iff.
  rewrite bool_decide_eq_true, same_key_eq. apply same_key_eq in Hs. split; intros H.
  - by rewrite (NoDup_map_inj _ _ _ _ Hi Hx Hin H).
  - f_equal. apply (NoDup_map_inj _ _ _ _ Hk Hx Hin). congruence.
Qed.

Definition claimed_row (r : IdempotencyRequest) (s : Keys) : KeyRow :=
  {| kr_id := ks_next s; kr_scopeKey := ir_scopeKey r; kr_key := ir_key r;
     kr_method := ir_method r; kr_route := ir_route r; kr_fingerprint := ir_fingerprint r;
     kr_state := Pending; kr_status := None; kr_body := None; kr_userId := truthy (ir_userId r);
     kr_expiresAt := ks_now s + IDEMPOTENCY_TTL_MS |}.

Definition claimed (r : IdempotencyRequest) (s : Keys) : Keys :=
  {| ks_rows := app (others (ir_scopeKey r) (ir_key r) (ks_rows s)) [claimed_row r s];
     ks_now := ks_now s; ks_next := S (ks_next s); ks_refuses := ks_refuses s;
     ks_ran := ks_ran s |}.

Lemma run_create r expiresAt s :
  run (create_key r expiresAt) s =
  if existsb (same_key (ir_scopeKey r) (ir_key r)) (ks_rows s) then (s, None)
  else (fst (run (create_key r expiresAt) s), Some (ks_next s)).
Proof. simpl. by destruct (existsb _ _). Qed.

Lemma run_now s : run now s = (s, ks_now s).
Proof. done. Qed.

Lemma run_begin r s :
  keys_wf s →
  run (begin json_parse r) s =
  match find_first (same_key (ir_scopeKey r) (ir_key r)) (ks_rows s) with
  | Some row =>
      if ks_now s <? kr_expiresAt row then (s, decide_row json_parse row (ir_fingerprint r))
      else (claimed r s, Proceed (ks_next s))
  | None => (claimed r s, Proceed (ks_next s))
  end.
Proof.
  intros Hwf. unfold begin. cbn [begin_rounds]. rewrite run_bind. unfold select_key.
  rewrite run_query. cbn [fst snd]. rewrite run_bind, run_now. cbn [fst snd].
  destruct (find_first _ (ks_rows s)) as [row|] eqn:Ef.
  - destruct (ks_now s <? kr_expiresAt row); [done|].
    apply find_first_Some in Ef as [Hin Hs].
    rewrite run_bind. unfold delete_id. rewrite run_exec. cbv beta. cbn [fst snd].
    rewrite (delete_found _ _ s row Hwf Hin Hs). rewrite run_bind, run_now. cbn [fst snd]. simpl. by rewrite others_none.
  - apply find_first_None in Ef. rewrite run_bind, run_now. cbn [fst snd].
    simpl. rewrite Ef. simpl. unfold claimed. by rewrite (others_all _ _ _ Ef).
Qed.

(** The answer [run] stores; a 5xx stores none. *)
Definition stored_answer (rq : HttpRequest) : option (Z * jsval) :=
  match rq_outcome rq with
  | Returned body => Some (successStatus rq, body)
  | HttpError status response => if status <? 500 then Some (status, response) else None
  | Crashed => None
  end.

Definition user_of (rq : HttpRequest) (userId : option string) : result http_exn (option string) :=
  match userId with
  | Some u => Ok (Some u) | None => pinUserScope (rq_ambient rq) (bodyUserId rq)
  end.

Definition request_of (rq : HttpRequest) (scopeKey key : string) (user : option string) :
    IdempotencyRequest :=
  {| ir_scopeKey := scopeKey; ir_key := key; ir_method := rq_method rq;
     ir_route := routeTemplate rq;
     ir_fingerprint := fingerprintOf num_to_string sha256 rq (routeTemplate rq);
     ir_userId := user |}.

(** The request carries this key, and its user is not refused. *)
Definition sends (rq : HttpRequest) (scopeKey key : string) (user : option string) : Prop :=
  (∃ header userId, applies_to rq = Some (header, scopeKey, userId) ∧
     truthy (head header) = Some key ∧ user_of rq userId = Ok user) ∧
  re_test KEY_RE key = true.

Definition ran (name : string) (rows : list KeyRow) (s : Keys) : Keys :=
  {| ks_rows := rows; ks_now := ks_now s; ks_next := ks_next s; ks_refuses := ks_refuses s;
     ks_ran := app (ks_ran s) [name] |}.

Lemma untouched n rows (f : KeyRow → KeyRow) :
  (∀ row, row ∈ rows → kr_id row ≠ n) →
  map (λ row, if bool_decide (kr_id row = n) then f row else row) rows = rows ∧
  List.filter (λ row, negb (bool_decide (kr_id row = n))) rows = rows.
Proof.
  induction rows as [|row rows IH]; intros H; simpl; [done|].
  rewrite bool_decide_eq_false_2 by (apply H; by left). simpl.
  destruct IH as [-> ->]; [|done]. intros x Hx. apply H. by right.
Qed.

(** What [run] does once the key is claimed. *)
Lemma run_claimed rq scopeKey key user s :
  sends rq scopeKey key user → keys_wf s → ks_refuses s = false →
  (∀ row, find_first (same_key scopeKey key) (ks_rows s) = Some row → kr_expiresAt row ≤ ks_now s) →
  let r := request_of rq scopeKey key user in
  run (intercept num_to_string json_parse sha256 rq) s =
  (ran (rq_name rq)
     (app (others scopeKey key (ks_rows s))
        (match stored_answer rq with
         | Some (status, body) => [complete_row num_to_string status body (claimed_row r s)]
         | None => []
         end))
     (claimed r s),
   answer rq (rq_outcome rq)).
Proof.
  intros [(header & userId & Ha & Hh & Hu) Hre] Hwf Hr Hexp r.
  unfold intercept. rewrite Ha, Hh, Hre. unfold run_request. fold (user_of rq userId).
  rewrite Hu. fold (request_of rq scopeKey key user). fold r.
  rewrite run_bind, (run_begin r s Hwf). cbn [ir_scopeKey ir_key r request_of].
  assert (Hb : match find_first (same_key scopeKey key) (ks_rows s) with
    | Some row => if ks_now s <? kr_expiresAt row
                  then (s, decide_row json_parse row (ir_fingerprint r))
                  else (claimed r s, Proceed (ks_next s))
    | None => (claimed r s, Proceed (ks_next s)) end = (claimed r s, Proceed (ks_next s))).
  { destruct (find_first _ _) as [row|]; [|done]. specialize (Hexp row eq_refl).
    assert (Hlt : (ks_now s <? kr_expiresAt row) = false) by lia. by rewrite Hlt. }
  fold r. rewrite Hb. cbn [fst snd].
  destruct (untouched (ks_next s) (others scopeKey key (ks_rows s))
    (complete_row num_to_string (match stored_answer rq with Some (st, _) => st | None => 0 end)
       (match stored_answer rq with Some (_, b) => b | None => VNull end))) as [Hmap Hdel].
  { intros row Hin. apply elem_of_bfilter in Hin as [Hin _]. destruct Hwf as (_ & _ & Hid).
    specialize (Hid row Hin). lia. }
  rewrite run_bind. unfold handle. rewrite run_update. cbn [fst snd].
  unfold stored_answer in *. unfold on_error, release, delete_id, complete.
  destruct (rq_outcome rq) as [body|status response|]; [|destruct (status <? 500)|];
    rewrite ?run_bind, ?run_update, ?run_exec; cbv beta;
    cbn [fst snd ks_refuses ks_rows claimed];
    rewrite ?Hr; cbn [fst snd]; unfold with_rows, ran, claimed; cbn [fst snd run
      ks_refuses ks_rows ks_now ks_next ks_ran ir_scopeKey ir_key r request_of];
    rewrite ?map_app, ?List.filter_app, ?Hmap, ?Hdel; simpl;
    rewrite bool_decide_eq_true_2 by done; simpl; rewrite ?app_nil_r.
  all: by rewrite Hr.
Qed.

(** A retry under a key that answers: nothing runs, nothing changes. *)
Lemma run_answered rq scopeKey key user s row :
  sends rq scopeKey key user → keys_wf s →
  find_first (same_key scopeKey key) (ks_rows s) = Some row → ks_now s < kr_expiresAt row →
  run (intercept num_to_string json_parse sha256 rq) s =
  (s, match decide_row json_parse row (ir_fingerprint (request_of rq scopeKey key user)) with
      | Replay status body =>
          {| rp_ran := false; rp_status := status; rp_body := Some body; rp_replayed := true;
             rp_retryAfter := None |}
      | InFlight =>
          {| rp_ran := false; rp_status := 409; rp_body := None; rp_replayed := false;
             rp_retryAfter := Some IN_FLIGHT_RETRY_AFTER_S |}
      | _ => reply false 422 None
      end).
Proof.
  intros [(header & userId & Ha & Hh & Hu) Hre] Hwf Hf Hexp.
  unfold intercept. rewrite Ha, Hh, Hre. unfold run_request. fold (user_of rq userId).
  rewrite Hu. fold (request_of rq scopeKey key user).
  rewrite run_bind, (run_begin (request_of rq scopeKey key user) s Hwf).
  cbn [ir_scopeKey ir_key request_of]. rewrite Hf.
  assert (Hlt : (ks_now s <? kr_expiresAt row) = true) by lia. rewrite Hlt. cbn [fst snd].
  unfold decide_row. destruct (negb _); [done|]. by destruct (kr_state row).
Qed.

Lemma find_last {A} (f : A → bool) l x :
  existsb f l = false → f x = true → find_first f (app l [x]) = Some x.
Proof.
  induction l as [|y l IH]; simpl; [by intros _ ->|]. intros [-> H]%orb_false_iff Hx. auto.
Qed.

(** The clock moves on between a request and its retry. *)
Definition at_time (t : Z) (s : Keys) : Keys :=
  {| ks_rows := ks_rows s; ks_now := t; ks_next := ks_next s; ks_refuses := ks_refuses s;
     ks_ran := ks_ran s |}.

Definition fingerprint (rq : HttpRequest) : string :=
  fingerprintOf num_to_string sha256 rq (routeTemplate rq).

Lemma ran_wf scopeKey key r name s row :
  keys_wf s → ir_scopeKey r = scopeKey → ir_key r = key → kr_id row = ks_next s →
  kr_scopeKey row = scopeKey → kr_key row = key →
  keys_wf (ran name (app (others scopeKey key (ks_rows s)) [row]) (claimed r s)).
Proof.
  intros (Hi & Hk & Hid) Hsk Hkey Hrid Hrs Hrk. unfold keys_wf. simpl.
  rewrite !map_app. split_and!.
  - apply NoDup_app. split; [by apply NoDup_map_bfilter|]. split; [|apply NoDup_singleton].
    intros x (y & -> & [Hy _]%elem_of_bfilter)%list_elem_of_fmap Hx%list_elem_of_singleton.
    specialize (Hid y Hy). simpl in Hx. lia.
  - apply NoDup_app. split; [by apply NoDup_map_bfilter|]. split; [|apply NoDup_singleton].
    intros x (y & -> & [Hy Hn]%elem_of_bfilter)%list_elem_of_fmap Hx%list_elem_of_singleton.
    apply negb_true_iff, not_true_iff_false in Hn. apply Hn, same_key_eq. congruence.
  - intros x [[Hx _]%elem_of_bfilter|Hx%list_elem_of_singleton]%elem_of_app.
    + specialize (Hid x Hx). lia.
    + subst x. lia.
Qed.
End retry.

(** A retry gets the first answer: a write under a free key runs its handler once
    and answers what the handler decided; a retry within the key's lifetime runs nothing
    and changes nothing, and gets the stored status and body back marked as replayed
    when it is the same request, 422 when it is a different one. After a 5xx the key is
    free, and the retry runs. *)
Theorem retry_gets_the_first_answer num_to_string json_parse sha256
    rq rq' scopeKey key user user' s t :
  keys_wf s → ks_refuses s = false →
  sends rq scopeKey key user → sends rq' scopeKey key user' →
  (∀ row, find_first (same_key scopeKey key) (ks_rows s) = Some row → kr_expiresAt row ≤ ks_now s) →
  t < ks_now s + IDEMPOTENCY_TTL_MS →
  let '(s1, r1) := run (intercept num_to_string json_parse sha256 rq) s in
  let '(s2, r2) := run (intercept num_to_string json_parse sha256 rq') (at_time t s1) in
  r1 = answer rq (rq_outcome rq) ∧ ks_ran s1 = app (ks_ran s) [rq_name rq] ∧
  match stored_answer rq with
  | Some (status, body) =>
      s2 = at_time t s1 ∧
      r2 = if bool_decide (fingerprint num_to_string sha256 rq = fingerprint num_to_string sha256 rq')
           then {| rp_ran := false; rp_status := status;
                   rp_body := Some (json_parse (body_text num_to_string body));
                   rp_replayed := true; rp_retryAfter := None |}
           else reply false 422 None
  | None =>
      r2 = answer rq' (rq_outcome rq') ∧ ks_ran s2 = app (ks_ran s1) [rq_name rq']
  end.
Proof.
  intros Hwf Hr Hs Hs' Hexp Ht.
  rewrite (run_claimed num_to_string json_parse sha256 rq scopeKey key user s Hs Hwf Hr Hexp).
  set (r := request_of num_to_string sha256 rq scopeKey key user).
  destruct (stored_answer rq) as [[status body]|] eqn:Est.
  - set (row := complete_row num_to_string status body (claimed_row r s)).
    set (s1 := ran _ _ _).
    assert (Hwf1 : keys_wf (at_time t s1)) by by apply ran_wf.
    rewrite (run_answered num_to_string json_parse sha256 rq' scopeKey key user' (at_time t s1) row
               Hs' Hwf1).
    + split; [done|]. split; [done|]. split; [done|]. unfold decide_row.
      change (kr_fingerprint row) with (fingerprint num_to_string sha256 rq).
      change (ir_fingerprint (request_of num_to_string sha256 rq' scopeKey key user'))
        with (fingerprint num_to_string sha256 rq').
      by case_bool_decide.
    + simpl. apply find_last; [apply others_none|]. by apply same_key_eq.
    + simpl. lia.
  - rewrite app_nil_r. set (s1 := ran _ _ _).
    assert (Hnone : find_first (same_key scopeKey key) (ks_rows (at_time t s1)) = None)
      by (apply find_first_None; simpl; apply others_none).
    assert (Hwf1 : keys_wf (at_time t s1)).
    { destruct Hwf as (Hi & Hk & Hid). split; [|split]; simpl.
      - by apply NoDup_map_bfilter.
      - by apply NoDup_map_bfilter.
      - intros x [Hx _]%elem_of_bfilter. specialize (Hid x Hx). lia. }
    rewrite (run_claimed num_to_string json_parse sha256 rq' scopeKey key user' (at_time t s1)
               Hs' Hwf1 Hr) by (rewrite Hnone; done).
    simpl. done.
Qed.

(** *** Witnesses *)

Definition no_ambient : Ambient :=
  {| am_authUserId := None; am_actingCircle := None; am_scopeTags := []; am_jobCircle := None;
     am_writeScope := None; am_scopeTagsEnabled := false |}.

Definition post (name body : string) (outcome : Outcome) : HttpRequest :=
  {| rq_name := name; rq_http := true; rq_header := Some ["k-1"]; rq_method := "POST";
     rq_auth := Some ("cred", Some "alice"); rq_ambient := no_ambient;
     rq_writesOwnResponse := false; rq_routePath := Some "/v1/facts"; rq_baseUrl := None;
     rq_path := "/v1/facts"; rq_params := VUndef; rq_query := VObj []; rq_body := VStr body;
     rq_httpCode := None; rq_outcome := outcome |}.

(** A stale row of the same key is still there. *)
Definition keys0 : Keys :=
  {| ks_rows := [{| kr_id := 0; kr_scopeKey := "cred"; kr_key := "k-1"; kr_method := "POST";
                    kr_route := "/"; kr_fingerprint := "f"; kr_state := Pending;
                    kr_status := None; kr_body := None; kr_userId := None; kr_expiresAt := 5 |}];
     ks_now := 10; ks_next := 1; ks_refuses := false; ks_ran := [] |}.

Definition sample_actors : list actor :=
  [ARequest (post "a" "x" Crashed); ATick 20; ARequest (post "b" "x" (HttpError 404 VNull)); ASweep 3;
   ARequest (post "c" "x" (Returned VNull))].

(** The first request claims the stale key, its handler crashes and the key is released;
    the second one then runs, and the third is given its answer. *)
Definition sample_sched : list nat :=
  [0; 2; 3; 0; 0; 1; 0; 0; 0; 0; 2; 2; 3; 2; 2; 2; 2; 2; 2; 2; 2; 2; 4; 4; 4; 4; 3]%nat.

Definition sample_out : Keys * list (prog Keys Reply) :=
  run_pool sample_sched (keys0, map (actor_prog (λ _, "1") VStr (λ s, s)) sample_actors).

Lemma keys0_ok : keys_ok 10 30 keys0.
Proof.
  split_and!; [apply NoDup_singleton|apply NoDup_singleton| |cbn; lia|cbn; lia].
  intros row ->%list_elem_of_singleton. cbn. lia.
Qed.

Lemma post_carries n b o : carries "cred" "k-1" (post n b o).
Proof. exists ["k-1"], (Some "alice"). split; reflexivity. Qed.

Lemma sample_ok : Forall (actor_ok 30) sample_actors.
Proof. repeat first [apply Forall_nil; done|apply Forall_cons; split; [first [exact I|unfold actor_ok; lia]|]]. Qed.

Lemma one_run_per_key_witness :
  ks_ran sample_out.1 = ["a"; "b"] ∧
  sample_out.2 !! 0%nat = Some (Done (reply true 500 None)) ∧
  sample_out.2 !! 2%nat = Some (Done (reply true 404 (Some VNull))) ∧
  ∃ r, sample_out.2 !! 4%nat = Some (Done r) ∧ rp_replayed r = true ∧ ¬ settled_by r ∧
    rp_status r = 404 ∧ rp_body r = Some (VStr "null").
Proof.
  assert (H2 : sample_out.2 !! 2%nat = Some (Done (reply true 404 (Some VNull)))) by (vm_compute; reflexivity).
  split; [vm_compute; reflexivity|]. split; [vm_compute; reflexivity|]. split; [exact H2|].
  set (r := {| rp_ran := false; rp_status := 404; rp_body := Some (VStr "null"); rp_replayed := true; rp_retryAfter := None |}).
  assert (H4 : sample_out.2 !! 4%nat = Some (Done r)) by (vm_compute; reflexivity).
  exists r. split; [exact H4|]. split; [reflexivity|].
  destruct (one_run_per_key (λ _, "1") VStr (λ s, s) "cred" "k-1" 30 sample_actors sample_sched keys0 2 4
    _ _ (reply true 404 (Some VNull)) r ltac:(reflexivity) keys0_ok sample_ok
    eq_refl (post_carries _ _ _) eq_refl (post_carries _ _ _) H2 (conj eq_refl eq_refl) H4) as [H Hrep].
  split; [intros Hs; discriminate (H Hs)|].
  destruct (Hrep ltac:(intros row ->%list_elem_of_singleton _; cbn; lia) eq_refl) as (Hst & body & Hb & Hb').
  split; [exact Hst|]. injection Hb as <-. exact Hb'.
Defined.

Lemma retry_gets_the_first_answer_witness :
  let rq := post "a" "x" (Returned (VStr "made")) in
  let rq' := post "b" "x" Crashed in
  let '(s1, r1) := run (intercept (λ _, "1") VStr (λ s, s) rq) keys0 in
  let '(s2, r2) := run (intercept (λ _, "1") VStr (λ s, s) rq') (at_time 500 s1) in
  ks_ran s1 = ["a"] ∧ s2 = at_time 500 s1 ∧ rp_replayed r2 = true ∧ rp_status r2 = 201.
Proof.
  intros rq rq'.
  pose proof (retry_gets_the_first_answer (λ _, "1") VStr (λ s, s) rq rq' "cred" "k-1"
    (Some "alice") (Some "alice") keys0 500) as H.
  destruct (run (intercept _ _ _ rq) keys0) as [s1 r1].
  destruct (run (intercept _ _ _ rq') (at_time 500 s1)) as [s2 r2].
  destruct H as (_ & H1 & -> & ->); [| | | | | |done].
  - split; [apply NoDup_singleton|split; [apply NoDup_singleton|]].
    intros row ->%list_elem_of_singleton. simpl. lia.
  - done.
  - split; [eexists _, _; by split_and!|vm_compute; reflexivity].
  - split; [eexists _, _; by split_and!|vm_compute; reflexivity].
  - intros row. vm_compute. by intros [= <-].
  - reflexivity.
Defined.

(** ** What makes two requests the same *)

(** The hashed text tells requests apart and nothing else: two requests have one
    text exactly when method, route and the normal forms of params, query and body
    agree; reordering an object's fields changes no text. *)
Theorem fingerprint_text_faithful num_to_string m m' r r' p p' q q' b b' :
  (∀ x, is_finite x = true → atom_ok (num_to_string x) = true) →
  let norm v := normal num_to_string v in
  (fingerprint_text num_to_string m r p q b = fingerprint_text num_to_string m' r' p' q' b' ↔
   m = m' ∧ r = r' ∧
   norm (or_default p (VObj [])) = norm (or_default p' (VObj [])) ∧
   norm (or_default q (VObj [])) = norm (or_default q' (VObj [])) ∧
   norm (or_default b VNull) = norm (or_default b' VNull)) ∧
  (∀ fields fields', fields ≡ₚ fields' → NoDup (map fst fields) →
   fingerprint_text num_to_string m r p q (VObj fields) =
   fingerprint_text num_to_string m r p q (VObj fields')).
Proof.
  intros Hnum norm.
  assert (Hn : ∀ m r p q b, normal num_to_string
    (VObj [("method", VStr m); ("route", VStr r); ("params", or_default p (VObj []));
           ("query", or_default q (VObj [])); ("body", or_default b VNull)]) =
    JObject [("body", norm (or_default b VNull)); ("method", JString m);
             ("params", norm (or_default p (VObj []))); ("query", norm (or_default q (VObj [])));
             ("route", JString r)]).
  { clear. intros m r p q b. unfold or_default. by destruct p, q, b. }
  assert (Hiff : ∀ m r p q b m' r' p' q' b',
    fingerprint_text num_to_string m r p q b = fingerprint_text num_to_string m' r' p' q' b' ↔
    m = m' ∧ r = r' ∧
    norm (or_default p (VObj [])) = norm (or_default p' (VObj [])) ∧
    norm (or_default q (VObj [])) = norm (or_default q' (VObj [])) ∧
    norm (or_default b VNull) = norm (or_default b' VNull)).
  { clear -Hnum Hn. intros. unfold fingerprint_text.
    rewrite (canonical_iff num_to_string Hnum), !Hn. split.
    - intros H. injection H as E1 E2 E3 E4 E5. by split_and!.
    - intros (E1 & E2 & E3 & E4 & E5). by rewrite E1, E2, E3, E4, E5. }
  split; [apply Hiff|]. intros fields fields' Hp Hd. apply Hiff. split_and!; try done.
  by apply normal_reorder.
Qed.

Lemma fingerprint_text_faithful_witness :
  let text := fingerprint_text (λ x, if PrimFloat.eqb x 1 then "1" else "2") "POST" "/v1" VUndef VUndef in
  text (VArr [VStr "a,b"]) ≠ text (VArr [VStr "a"; VStr "b"]) ∧
  text (VObj [("a", VNum 1); ("b", VNull)]) = text (VObj [("b", VNull); ("a", VNum 1)]).
Proof.
  intros text.
  pose proof (fingerprint_text_faithful (λ x, if PrimFloat.eqb x 1 then "1" else "2")
    "POST" "POST" "/v1" "/v1" VUndef VUndef VUndef VUndef
    (VArr [VStr "a,b"]) (VArr [VStr "a"; VStr "b"])) as H.
  destruct H as [Hiff Hperm]; [intros x _; by destruct (PrimFloat.eqb x 1)|]. split.
  - intros H. apply Hiff in H as (_ & _ & _ & _ & H). cbn in H. congruence.
  - apply Hperm; [apply perm_swap|]. apply (bool_decide_unpack _). reflexivity.
Defined.

(** ** A database that refuses the answer *)

(** The [try] around the handler also covers storing its answer: when the handler
    succeeded and the row cannot be updated, the client gets a 500, the key is released,
    and a retry runs the write a second time. *)
Theorem unstored_success_runs_again num_to_string json_parse sha256 rq scopeKey key user s body :
  keys_wf s → ks_refuses s = true →
  sends rq scopeKey key user →
  existsb (same_key scopeKey key) (ks_rows s) = false →
  rq_outcome rq = Returned body →
  let '(s1, r1) := run (intercept num_to_string json_parse sha256 rq) s in
  let '(s2, r2) := run (intercept num_to_string json_parse sha256 rq) s1 in
  r1 = reply true 500 None ∧ r2 = reply true 500 None ∧
  ks_rows s2 = ks_rows s ∧ ks_ran s2 = app (ks_ran s) [rq_name rq; rq_name rq].
Proof.
  intros Hwf Hr [(header & userId & Ha & Hh & Hu) Hre] Hnone Ho.
  assert (H : ∀ s, keys_wf s → ks_refuses s = true →
    existsb (same_key scopeKey key) (ks_rows s) = false →
    run (intercept num_to_string json_parse sha256 rq) s =
    ({| ks_rows := ks_rows s; ks_now := ks_now s; ks_next := S (ks_next s);
        ks_refuses := true; ks_ran := app (ks_ran s) [rq_name rq] |}, reply true 500 None)).
  { clear s Hwf Hr Hnone. intros s Hwf Hr Hnone.
    unfold intercept. rewrite Ha, Hh, Hre. unfold run_request. fold (user_of rq userId).
    rewrite Hu. fold (request_of num_to_string sha256 rq scopeKey key user).
    rewrite run_bind,
      (run_begin json_parse (request_of num_to_string sha256 rq scopeKey key user) s Hwf).
    cbn [ir_scopeKey ir_key request_of].
    rewrite (proj2 (find_first_None _ _) Hnone). cbn [fst snd].
    destruct (untouched (ks_next s) (ks_rows s) (λ x, x)) as [_ Hdel].
    { intros row Hin. destruct Hwf as (_ & _ & Hid). specialize (Hid row Hin). lia. }
    rewrite run_bind. unfold handle. rewrite run_update. cbn [fst snd]. rewrite Ho.
    unfold on_error, release, delete_id, complete. rewrite run_bind, run_update.
    cbn [fst snd ks_refuses claimed]. rewrite Hr. cbn [fst snd].
    rewrite run_bind, run_exec. cbv beta. unfold with_rows, claimed.
    cbn [fst snd run ks_refuses ks_rows ks_now ks_next ks_ran ir_scopeKey ir_key request_of].
    rewrite (others_all _ _ _ Hnone), List.filter_app, Hdel. simpl.
    rewrite bool_decide_eq_true_2 by done. simpl. by rewrite app_nil_r. }
  rewrite (H s Hwf Hr Hnone). rewrite H; [|split; [|split]; simpl|done|done].
  - simpl. by rewrite <- app_assoc.
  - apply Hwf.
  - apply Hwf.
  - intros row Hin. destruct Hwf as (_ & _ & Hid). specialize (Hid row Hin). lia.
Qed.

Definition refusing : Keys :=
  {| ks_rows := []; ks_now := 0; ks_next := 0; ks_refuses := true; ks_ran := [] |}.

Lemma unstored_success_runs_again_witness :
  let rq := post "a" "x" (Returned (VStr "made")) in
  let go := run (intercept (λ _, "1") VStr (λ s, s) rq) in
  ks_ran (go (go refusing).1).1 = ["a"; "a"].
Proof.
  intros rq go.
  pose proof (unstored_success_runs_again (λ _, "1") VStr (λ s, s) rq "cred" "k-1"
    (Some "alice") refusing (VStr "made")) as H.
  unfold go. destruct (run _ refusing) as [s1 r1]. cbn [fst].
  destruct (run _ s1) as [s2 r2]. destruct H as (_ & _ & _ & H); [| | | | |exact H].
  - split; [constructor|split; [constructor|]]. intros row Hin. by apply elem_of_nil in Hin.
  - done.
  - split; [|vm_compute; reflexivity]. exists ["k-1"], (Some "alice"). by split_and!.
  - done.
  - done.
Defined.
