(* ===== verification/Breaker.v ===== *)
(** * The circuit breaker

    [ai/circuit-breaker.ts]: one breaker per (provider, model) route. After enough
    consecutive provider-side failures calls are refused; after the cool-down one
    probe decides. *)

From S2P Require Import Prelude.
Local Open Scope Z_scope.

Inductive BreakerState : Type := Closed | Open | HalfOpen.

#[export] Instance BreakerState_eq_dec : EqDecision BreakerState.
Proof. solve_decision. Defined.

Record BreakerSettings := { bs_failures : Z; bs_cooldownMs : Z }.

(** [int(raw, dflt)]; [parse] is [Number.parseInt(raw, 10)], [None] its [NaN]. *)
Definition breakerSettings (failures cooldown : option Z) : BreakerSettings :=
  let int n dflt := match n with Some n => if 0 <? n then n else dflt | None => dflt end in
  {| bs_failures := int failures 5; bs_cooldownMs := int cooldown 30000 |}.

Record CircuitBreaker := {
  cb_state : BreakerState;
  cb_consecutive : Z;
  cb_openedAt : Z;
  cb_probing : bool
}.

Definition breaker_new : CircuitBreaker :=
  {| cb_state := Closed; cb_consecutive := 0; cb_openedAt := 0; cb_probing := false |}.

Section breaker.
Variable settings : BreakerSettings.

(** The tail of [allow], past the open check. *)
Definition take_probe (b : CircuitBreaker) : bool * CircuitBreaker :=
  if cb_probing b then (false, b)
  else (true, {| cb_state := cb_state b; cb_consecutive := cb_consecutive b;
                 cb_openedAt := cb_openedAt b; cb_probing := true |}).

Definition allow (now : Z) (b : CircuitBreaker) : bool * CircuitBreaker :=
  match cb_state b with
  | Closed => (true, b)
  | Open =>
      if now - cb_openedAt b <? bs_cooldownMs settings then (false, b)
      else take_probe {| cb_state := HalfOpen; cb_consecutive := cb_consecutive b;
                         cb_openedAt := cb_openedAt b; cb_probing := false |}
  | HalfOpen => take_probe b
  end.

Definition onSuccess (b : CircuitBreaker) : CircuitBreaker :=
  {| cb_state := Closed; cb_consecutive := 0; cb_openedAt := cb_openedAt b;
     cb_probing := false |}.

Definition onFailure (now : Z) (b : CircuitBreaker) : CircuitBreaker :=
  let consecutive := cb_consecutive b + 1 in
  if bool_decide (cb_state b = HalfOpen) || (bs_failures settings <=? consecutive)
  then {| cb_state := Open; cb_consecutive := consecutive; cb_openedAt := now;
          cb_probing := false |}
  else {| cb_state := cb_state b; cb_consecutive := consecutive;
          cb_openedAt := cb_openedAt b; cb_probing := cb_probing b |}.

Definition onNeutral (b : CircuitBreaker) : CircuitBreaker :=
  {| cb_state := cb_state b; cb_consecutive := cb_consecutive b;
     cb_openedAt := cb_openedAt b; cb_probing := false |}.

(** ** Histories *)

Inductive breaker_event : Type :=
| EAllow (now : Z)
| ESuccess
| EFailure (now : Z)
| ENeutral.

(** The answer of an [EAllow] is recorded; the others answer nothing. *)
Definition breaker_step (acc : CircuitBreaker * list bool) (e : breaker_event) :
    CircuitBreaker * list bool :=
  let '(b, out) := acc in
  match e with
  | EAllow now => let '(ok, b') := allow now b in (b', app out [ok])
  | ESuccess => (onSuccess b, out)
  | EFailure now => (onFailure now b, out)
  | ENeutral => (onNeutral b, out)
  end.

Definition breaker_run (es : list breaker_event) : CircuitBreaker * list bool :=
  fold_left breaker_step es (breaker_new, []).

(** ** The contract *)

(** What a caller may rely on: the failures since the last success, the time of the
    last one, and whether a call let through since then still owes a verdict. *)
Record Health := { hl_failures : Z; hl_lastFailure : Z; hl_owed : bool }.

Definition healthy : Health := {| hl_failures := 0; hl_lastFailure := 0; hl_owed := false |}.

Definition down (h : Health) : bool := bs_failures settings <=? hl_failures h.

Definition admits (now : Z) (h : Health) : bool :=
  negb (down h) || ((bs_cooldownMs settings <=? now - hl_lastFailure h) && negb (hl_owed h)).

Definition health_step (acc : Health * list bool) (e : breaker_event) : Health * list bool :=
  let '(h, out) := acc in
  match e with
  | EAllow now =>
      ({| hl_failures := hl_failures h; hl_lastFailure := hl_lastFailure h;
          hl_owed := hl_owed h || (down h && admits now h) |}, app out [admits now h])
  | ESuccess => ({| hl_failures := 0; hl_lastFailure := hl_lastFailure h; hl_owed := false |}, out)
  | EFailure now =>
      ({| hl_failures := hl_failures h + 1; hl_lastFailure := now; hl_owed := false |}, out)
  | ENeutral =>
      ({| hl_failures := hl_failures h; hl_lastFailure := hl_lastFailure h; hl_owed := false |}, out)
  end.

Definition health_run (es : list breaker_event) : Health * list bool :=
  fold_left health_step es (healthy, []).

Definition event_time (e : breaker_event) : option Z :=
  match e with EAllow now | EFailure now => Some now | _ => None end.

(** The clock does not run backwards. *)
Fixpoint monotone (since : Z) (es : list breaker_event) : Prop :=
  match es with
  | [] => True
  | e :: es' =>
      match event_time e with
      | Some now => since ≤ now ∧ monotone now es'
      | None => monotone since es'
      end
  end.

(** [t]: the time of the last event. *)
Record tracks (t : Z) (b : CircuitBreaker) (h : Health) : Prop := {
  tr_failures : cb_consecutive b = hl_failures h;
  tr_nonneg : 0 ≤ hl_failures h;
  tr_closed : cb_state b = Closed ↔ down h = false;
  tr_since : cb_state b ≠ Closed → cb_openedAt b = hl_lastFailure h ∧ hl_lastFailure h ≤ t;
  tr_probing : cb_probing b = hl_owed h;
  tr_quiet : cb_state b ≠ HalfOpen → cb_probing b = false;
  tr_cooled : cb_state b = HalfOpen → bs_cooldownMs settings ≤ t - cb_openedAt b
}.
End breaker.

Section contract.
Variable settings : BreakerSettings.
Hypothesis failures_pos : 0 < bs_failures settings.

Lemma tracks_later t t' b h : tracks settings t b h → t ≤ t' → tracks settings t' b h.
Proof.
  intros [H1 H2 H3 H4 H5 H6 H7] Ht. split; try done.
  - intros Hs. destruct (H4 Hs). split; [done|lia].
  - intros Hs. specialize (H7 Hs). lia.
Qed.

Lemma tracks_step t e b h out :
  tracks settings t b h → (∀ now, event_time e = Some now → t ≤ now) →
  let t' := default t (event_time e) in
  tracks settings t' (breaker_step settings (b, out) e).1 (health_step settings (h, out) e).1 ∧
  (breaker_step settings (b, out) e).2 = (health_step settings (h, out) e).2.
Proof.
  intros Ht Hmono. destruct e as [now| |now|]; simpl.
  - assert (Ht' : tracks settings now b h) by (apply (tracks_later t); auto).
    destruct Ht' as [H1 H2 H3 H4 H5 H6 H7]. unfold allow, take_probe, admits.
    destruct b as [[] c o p]; simpl in *.
    + pose proof (proj1 H3 eq_refl) as Hd. rewrite Hd. simpl. rewrite orb_false_r.
      split; [|done]. unfold down in Hd. split; simpl; done.
    + destruct H4 as [-> H4]; [done|]. assert (Hd : down settings h = true)
        by (destruct (down settings h); [done|discriminate (proj2 H3 eq_refl)]).
      rewrite Hd. simpl. rewrite <- H5, H6 by done. simpl. rewrite andb_true_r.
      destruct (now - hl_lastFailure h <? bs_cooldownMs settings) eqn:E; simpl.
      * assert (E' : (bs_cooldownMs settings <=? now - hl_lastFailure h) = false) by lia.
        rewrite E'. simpl. split; [|done]. split; simpl; done.
      * assert (E' : (bs_cooldownMs settings <=? now - hl_lastFailure h) = true) by lia.
        rewrite E'. simpl. split; [|done]. unfold down in Hd. split; simpl; try done.
        ++ unfold down. simpl. by rewrite Hd.
        ++ lia.
    + destruct H4 as [-> H4]; [done|]. assert (Hd : down settings h = true)
        by (destruct (down settings h); [done|discriminate (proj2 H3 eq_refl)]).
      assert (E' : (bs_cooldownMs settings <=? now - hl_lastFailure h) = true)
        by (specialize (H7 eq_refl); lia).
      rewrite Hd, E'. simpl. rewrite <- H5. destruct p; simpl; (split; [|done]);
        unfold down in Hd; split; simpl; try done; unfold down; simpl; by rewrite Hd.
  - split; [|done]. destruct Ht as [H1 H2 H3 H4 H5 H6 H7]. split; simpl; try done.
    unfold down. simpl. split; [intros _; lia|done].
  - split; [|done].
    assert (Ht' : tracks settings now b h) by (apply (tracks_later t); auto).
    destruct Ht' as [H1 H2 H3 H4 H5 H6 H7]. unfold onFailure. rewrite H1.
    destruct (bool_decide (cb_state b = HalfOpen) ||
              (bs_failures settings <=? hl_failures h + 1)) eqn:E.
    + assert (Hd : (bs_failures settings <=? hl_failures h + 1) = true).
      { apply orb_true_iff in E as [E|E]; [|done]. apply bool_decide_eq_true in E.
        destruct (down settings h) eqn:Ed; unfold down in Ed; [lia|].
        rewrite (proj2 H3 eq_refl) in E. done. }
      split; simpl; try done; try lia.
      all: unfold down; simpl; by rewrite Hd.
    + apply orb_false_iff in E as [E1 E2]. apply bool_decide_eq_false in E1.
      assert (Hs : cb_state b = Closed).
      { apply H3. unfold down. lia. }
      assert (Hp : cb_probing b = false) by (apply H6; congruence).
      split; simpl; rewrite ?Hs, ?Hp; try done; try lia.
  - split; [|done]. destruct Ht as [H1 H2 H3 H4 H5 H6 H7]. split; simpl; try done.
Qed.

Lemma tracks_run es : ∀ t b h out,
  tracks settings t b h → monotone t es →
  ∃ t', tracks settings t' (fold_left (breaker_step settings) es (b, out)).1 (fold_left (health_step settings) es (h, out)).1 ∧
    (fold_left (breaker_step settings) es (b, out)).2 = (fold_left (health_step settings) es (h, out)).2.
Proof.
  induction es as [|e es IH]; intros t b h out Ht Hm; cbn [fold_left]; [by exists t|].
  assert (He : ∀ now, event_time e = Some now → t ≤ now).
  { intros now Hn. simpl in Hm. rewrite Hn in Hm. tauto. }
  destruct (tracks_step t e b h out Ht He) as [H1 H2].
  destruct (breaker_step settings (b, out) e) as [b' out1] eqn:E1. destruct (health_step settings (h, out) e) as [h' out2] eqn:E2.
  cbn [fst snd] in H1, H2. subst out2.
  apply (IH (default t (event_time e))); [done|].
  simpl in Hm. destruct (event_time e); simpl; tauto.
Qed.

Lemma tracks_new : tracks settings 0 breaker_new healthy.
Proof.
  split; simpl; try done. unfold down. simpl. split; [intros _; lia|done].
Qed.
End contract.

(** The breaker keeps its contract: over any history of calls, successes,
    provider failures and neutral ends, in time order, it admits a call exactly when
    fewer than the threshold of failures have come since the last success, or the
    cool-down since the last failure has passed and no admitted probe still owes its
    verdict; and it is closed exactly below the threshold. *)
Theorem breaker_keeps_its_contract settings es :
  0 < bs_failures settings → monotone 0 es →
  (breaker_run settings es).2 = (health_run settings es).2 ∧
  (cb_state (breaker_run settings es).1 = Closed ↔
   hl_failures (health_run settings es).1 < bs_failures settings).
Proof.
  intros Hf Hm. destruct (tracks_run settings Hf es 0 _ _ [] (tracks_new settings Hf) Hm)
    as (t & Ht & Ho).
  split; [exact Ho|]. unfold breaker_run, health_run. rewrite (tr_closed _ _ _ _ Ht).
  unfold down. lia.
Qed.

Lemma breaker_keeps_its_contract_witness :
  let s := {| bs_failures := 2; bs_cooldownMs := 10 |} in
  let es := [EFailure 1; EFailure 2; EAllow 5; EAllow 12; EAllow 13; ENeutral; EAllow 14;
             EFailure 15; EAllow 16; EAllow 25; ESuccess; EAllow 26] in
  (breaker_run s es).2 = [false; true; false; true; false; true; true] ∧
  (breaker_run s es).2 = (health_run s es).2.
Proof.
  intros s es. split; [reflexivity|].
  apply (breaker_keeps_its_contract s es); [reflexivity|]. simpl. lia.
Defined.

(** At most one probe: once an open circuit lets a call through, every other call
    is refused until some call reports back. *)
Theorem one_probe_at_a_time settings es now calls :
  let b := (breaker_run settings es).1 in
  cb_state b ≠ Closed → (allow settings now b).1 = true →
  (fold_left (breaker_step settings) (map EAllow calls) ((allow settings now b).2, [])).2 =
  map (λ _, false) calls.
Proof.
  intros b Hs Ha.
  assert (Hp : cb_state (allow settings now b).2 = HalfOpen ∧ cb_probing (allow settings now b).2 = true).
  { unfold allow, take_probe in *. destruct (cb_state b) eqn:E; [done| |].
    - destruct (_ <? _); [done|]. done.
    - destruct (cb_probing b); [done|]. done. }
  generalize dependent (allow settings now b).2. clear. intros b' [H1 H2].
  assert (H : ∀ out, (fold_left (breaker_step settings) (map EAllow calls) (b', out)).2 =
    app out (map (λ _, false) calls)).
  { induction calls as [|c calls IH]; intros out; simpl; [by rewrite app_nil_r|].
    unfold allow, take_probe. rewrite H1, H2. rewrite IH, <- app_assoc. done. }
  apply H.
Qed.

Lemma one_probe_at_a_time_witness :
  let s := {| bs_failures := 1; bs_cooldownMs := 10 |} in
  let b := (breaker_run s [EFailure 1]).1 in
  (fold_left (breaker_step s) (map EAllow [20; 21; 500]) ((allow s 15 b).2, [])).2 =
  [false; false; false].
Proof.
  intros s b. apply (one_probe_at_a_time s [EFailure 1] 15 [20; 21; 500]);
    [discriminate|reflexivity].
Defined.
