(* ===== verification/TenantBudget.v ===== *)
(** * The per-tenant model budget

    [ai/tenant-llm-budget.ts] (the counters of one replica) and
    [ai/tenant-spend-flush.service.ts] (the minutely exchange with the shared rows).
    Days are day numbers. *)

From S2P Require Import Prelude.
Local Open Scope Z_scope.

Record Spend := { sp_day : Z; sp_shared : Z; sp_pending : Z }.

(** [spend], per tenant. *)
Definition Spends : Type := list (string * Spend).

(** [tenantDailyTokenBudget]; [n] is the parsed setting, [None] its [NaN]. *)
Definition tenantDailyTokenBudget (n : option Z) : Z :=
  match n with Some n => if 0 <? n then n else 0 | None => 0 end.

(** [current(tenant, day)]: what is returned and what the map holds afterwards. *)
Definition current (tenant : string) (day : Z) (m : Spends) : Spend * Spends :=
  match OMap.get tenant m with
  | Some s =>
      if negb (sp_day s =? day)
      then let s' := {| sp_day := day; sp_shared := 0; sp_pending := 0 |} in
           (s', OMap.set tenant s' m)
      else (s, m)
  | None =>
      let s' := {| sp_day := day; sp_shared := 0; sp_pending := 0 |} in
      (s', OMap.set tenant s' m)
  end.

Definition tenantTokensToday (tenant : string) (day : Z) (m : Spends) : Z * Spends :=
  let '(s, m) := current tenant day m in (sp_shared s + sp_pending s, m).

Definition add_pending (tokens : Z) (s : Spend) : Spend :=
  {| sp_day := sp_day s; sp_shared := sp_shared s; sp_pending := sp_pending s + tokens |}.

Definition chargeTenant (tenant : string) (tokens : Z) (day : Z) (m : Spends) : Spends :=
  if negb (0 <? tokens) then m
  else let '(s, m) := current tenant day m in OMap.set tenant (add_pending tokens s) m.

Definition tenantOverBudget (tenant : string) (budget : Z) (day : Z) (m : Spends) : bool * Spends :=
  if 0 <? budget
  then let '(tokens, m) := tenantTokensToday tenant day m in (budget <=? tokens, m)
  else (false, m).

Record SpendRow := { sr_tenant : string; sr_day : Z; sr_tokens : Z }.

Definition clear_pending (s : Spend) : Spend :=
  {| sp_day := sp_day s; sp_shared := sp_shared s; sp_pending := 0 |}.

Definition takePendingSpend (m : Spends) : list SpendRow * Spends :=
  (flat_map (λ '(tenant, s), if 0 <? sp_pending s
                             then [{| sr_tenant := tenant; sr_day := sp_day s; sr_tokens := sp_pending s |}]
                             else []) m,
   map (λ '(tenant, s), (tenant, clear_pending s)) m).

Definition restore_row (m : Spends) (r : SpendRow) : Spends :=
  let '(s, m) := current (sr_tenant r) (sr_day r) m in
  if sp_day s =? sr_day r then OMap.set (sr_tenant r) (add_pending (sr_tokens r) s) m else m.

Definition restorePendingSpend (rows : list SpendRow) (m : Spends) : Spends :=
  fold_left restore_row rows m.

Definition applySharedSpend (tenant : string) (day : Z) (total : Z) (m : Spends) : Spends :=
  let '(s, m) := current tenant day m in
  if sp_day s =? day
  then OMap.set tenant {| sp_day := sp_day s; sp_shared := Z.max 0 total;
                          sp_pending := sp_pending s |} m
  else m.

Definition tenantsSeen (day : Z) (m : Spends) : list string :=
  map fst (List.filter (λ '(_, s), sp_day s =? day) m).

(** ** The flush *)

(** The rows of [llm_tenant_spend], by tenant and day. *)
Definition SpendTable : Type := list ((string * Z) * Z).

Definition row_tokens (tenant : string) (day : Z) (db : SpendTable) : Z :=
  default 0 (OMap.get (tenant, day) db).

(** [UPSERT ... SET tokens = (tokens ?? 0) + $tokens] *)
Definition upsert (p : SpendRow) (db : SpendTable) : SpendTable :=
  OMap.set (sr_tenant p, sr_day p) (row_tokens (sr_tenant p) (sr_day p) db + sr_tokens p) db.

(** How many of the flush's statements succeed before one throws; [None]: all do. *)
Definition Luck : Type := option nat.

Definition spend_luck (l : Luck) : option Luck :=
  match l with
  | None => Some None
  | Some O => None
  | Some (S n) => Some (Some n)
  end.

(** The upserts; [None]: one threw. What was written stays written. *)
Fixpoint flush_upserts (pending : list SpendRow) (l : Luck) (db : SpendTable) :
    SpendTable * option Luck :=
  match pending with
  | [] => (db, Some l)
  | p :: pending' =>
      match spend_luck l with
      | None => (db, None)
      | Some l' => flush_upserts pending' l' (upsert p db)
      end
  end.

Fixpoint flush_reads (tenants : list string) (day : Z) (db : SpendTable) (l : Luck) (m : Spends) :
    Spends * option Luck :=
  match tenants with
  | [] => (m, Some l)
  | tenant :: tenants' =>
      match spend_luck l with
      | None => (m, None)
      | Some l' =>
          flush_reads tenants' day db l' (applySharedSpend tenant day (row_tokens tenant day db) m)
      end
  end.

Definition KEEP_DAYS : Z := 7.

(** [sweepIfDue], when it is due: up to a thousand rows older than a week go. *)
Definition sweep_ids (day : Z) (db : SpendTable) : list (string * Z) :=
  take 1000 (List.filter (λ k, k.2 <? day - KEEP_DAYS) (map fst db)).

Definition sweep_spend (day : Z) (l : Luck) (db : SpendTable) : SpendTable * option Luck :=
  match spend_luck l with
  | None => (db, None)
  | Some l' =>
      match sweep_ids day db with
      | [] => (db, Some l')
      | ids =>
          match spend_luck l' with
          | None => (db, None)
          | Some l'' => (List.filter (λ row, negb (bool_decide (row.1 ∈ ids))) db, Some l'')
          end
      end
  end.

Definition flush (day : Z) (sweep_due : bool) (l : Luck) (m : Spends) (db : SpendTable) :
    Spends * SpendTable :=
  let '(pending, m) := takePendingSpend m in
  let tenants := add_all [] (app (tenantsSeen day m) (map sr_tenant pending)) in
  if bool_decide (tenants = []) then (m, db)
  else
    match flush_upserts pending l db with
    | (db, None) => (restorePendingSpend pending m, db)
    | (db, Some l) =>
        match flush_reads tenants day db l m with
        | (m, None) => (restorePendingSpend pending m, db)
        | (m, Some l) =>
            if sweep_due
            then match sweep_spend day l db with
                 | (db, None) => (restorePendingSpend pending m, db)
                 | (db, Some _) => (m, db)
                 end
            else (m, db)
        end
    end.

(** ** One day, many replicas *)

Record System := { sy_replicas : list Spends; sy_db : SpendTable }.

Inductive budget_event : Type :=
| BCharge (replica : nat) (tenant : string) (tokens : Z)
| BFlush (replica : nat).

Definition budget_step (day : Z) (s : System) (e : budget_event) : System :=
  match e with
  | BCharge r tenant tokens =>
      {| sy_replicas := alter (chargeTenant tenant tokens day) r (sy_replicas s); sy_db := sy_db s |}
  | BFlush r =>
      match sy_replicas s !! r with
      | Some m =>
          let '(m', db') := flush day false None m (sy_db s) in
          {| sy_replicas := <[r := m']> (sy_replicas s); sy_db := db' |}
      | None => s
      end
  end.

(** What the events charged to a tenant, on the replicas that exist. *)
Definition event_charge (n : nat) (tenant : string) (e : budget_event) : Z :=
  match e with
  | BCharge r t tokens =>
      if bool_decide (t = tenant) && (r <? n)%nat && (0 <? tokens) then tokens else 0
  | BFlush _ => 0
  end.

Definition sum (l : list Z) : Z := fold_right Z.add 0 l.

Definition charged (n : nat) (tenant : string) (es : list budget_event) : Z :=
  sum (map (event_charge n tenant) es).

Definition pending_of (tenant : string) (m : Spends) : Z :=
  match OMap.get tenant m with Some s => sp_pending s | None => 0 end.

Definition shared_of (tenant : string) (m : Spends) : Z :=
  match OMap.get tenant m with Some s => sp_shared s | None => 0 end.

(** A replica's counters on one day: nothing negative, nothing beyond the shared row. *)
Definition spends_ok (day : Z) (db : SpendTable) (m : Spends) : Prop :=
  OMap.wf m ∧
  ∀ tenant s, OMap.get tenant m = Some s →
    sp_day s = day ∧ 0 ≤ sp_pending s ∧ 0 ≤ sp_shared s ≤ row_tokens tenant day db.

Lemma sum_app a b : sum (app a b) = sum a + sum b.
Proof. induction a; simpl; lia. Qed.

(** The counters of a tenant as of a day. *)
Definition entry (tenant : string) (day : Z) (m : Spends) : Spend :=
  match OMap.get tenant m with
  | Some s => if sp_day s =? day then s else {| sp_day := day; sp_shared := 0; sp_pending := 0 |}
  | None => {| sp_day := day; sp_shared := 0; sp_pending := 0 |}
  end.

Lemma entry_day tenant day m : sp_day (entry tenant day m) = day.
Proof. unfold entry. destruct (OMap.get tenant m) as [s|]; [|done]. destruct (_ =? _) eqn:E; [lia|done]. Qed.

Lemma current_spec tenant day m :
  (current tenant day m).1 = entry tenant day m ∧
  (∀ x, OMap.get x (current tenant day m).2 =
        if bool_decide (tenant = x) then Some (entry tenant day m) else OMap.get x m) ∧
  (OMap.wf m → OMap.wf (current tenant day m).2).
Proof.
  unfold current, entry. destruct (OMap.get tenant m) as [s|] eqn:E.
  - destruct (sp_day s =? day) eqn:Ed; simpl.
    + split; [done|]. split; [|done]. intros x. case_bool_decide as Hx; [|done]. by subst.
    + split; [done|]. split; [|by apply OMap.wf_set]. intros x. apply OMap.get_set.
  - split; [done|]. split; [|by apply OMap.wf_set]. intros x. apply OMap.get_set.
Qed.

(** Every write to the counters is [current], then a set of the same tenant. *)
Lemma update_spec tenant day (f : Spend → Spend) m :
  let m' := OMap.set tenant (f (current tenant day m).1) (current tenant day m).2 in
  (∀ x, OMap.get x m' = if bool_decide (tenant = x) then Some (f (entry tenant day m))
                        else OMap.get x m) ∧
  (OMap.wf m → OMap.wf m').
Proof.
  destruct (current_spec tenant day m) as (H1 & H2 & H3). cbn zeta. rewrite H1. split.
  - intros x. rewrite OMap.get_set, H2. by destruct (bool_decide (tenant = x)).
  - intros Hm. by apply OMap.wf_set, H3.
Qed.

Lemma charge_get tenant tokens day m :
  (∀ x, OMap.get x (chargeTenant tenant tokens day m) =
        if bool_decide (tenant = x) && (0 <? tokens)
        then Some (add_pending tokens (entry tenant day m)) else OMap.get x m) ∧
  (OMap.wf m → OMap.wf (chargeTenant tenant tokens day m)).
Proof.
  unfold chargeTenant. destruct (0 <? tokens) eqn:E; simpl.
  - destruct (update_spec tenant day (add_pending tokens) m) as [H1 H2].
    destruct (current tenant day m) as [s m1]. simpl in *. split; [|done].
    intros x. rewrite H1. by rewrite andb_true_r.
  - split; [|done]. intros x. by rewrite andb_false_r.
Qed.

Lemma apply_get tenant day total m :
  (∀ x, OMap.get x (applySharedSpend tenant day total m) =
        if bool_decide (tenant = x)
        then Some {| sp_day := day; sp_shared := Z.max 0 total;
                     sp_pending := sp_pending (entry tenant day m) |}
        else OMap.get x m) ∧
  (OMap.wf m → OMap.wf (applySharedSpend tenant day total m)).
Proof.
  unfold applySharedSpend.
  destruct (update_spec tenant day (λ s, {| sp_day := sp_day s; sp_shared := Z.max 0 total;
                                            sp_pending := sp_pending s |}) m) as [H1 H2].
  pose proof (entry_day tenant day m) as Hd.
  destruct (current_spec tenant day m) as (Hc & _).
  destruct (current tenant day m) as [s m1]. simpl in *. subst s. rewrite Hd, Z.eqb_refl.
  rewrite Hd in H1, H2. split; done.
Qed.

Lemma take_get m x :
  OMap.get x (takePendingSpend m).2 = option_map clear_pending (OMap.get x m).
Proof.
  unfold takePendingSpend. simpl. induction m as [|[t s] m IH]; simpl; [done|].
  by case_bool_decide.
Qed.

Lemma take_keys m : OMap.keys (takePendingSpend m).2 = OMap.keys m.
Proof.
  unfold takePendingSpend, OMap.keys. simpl. rewrite map_map. apply map_ext. by intros [t s].
Qed.

(** What the rows of one tenant and day add up to. *)
Definition rows_sum (tenant : string) (day : Z) (rows : list SpendRow) : Z :=
  sum (map (λ r, if bool_decide (sr_tenant r = tenant) && (sr_day r =? day)
                 then sr_tokens r else 0) rows).

Lemma upserts_spec rows db tenant day :
  row_tokens tenant day (flush_upserts rows None db).1 = row_tokens tenant day db + rows_sum tenant day rows
  ∧ (flush_upserts rows None db).2 = Some None.
Proof.
  revert db. induction rows as [|p rows IH]; intros db; simpl.
  { split; [unfold rows_sum; simpl; lia|done]. }
  destruct (IH (upsert p db)) as [H1 H2]. split; [|done]. rewrite H1.
  unfold rows_sum. cbn [map sum fold_right]. fold (sum (map (λ r : SpendRow,
    if bool_decide (sr_tenant r = tenant) && (sr_day r =? day) then sr_tokens r else 0) rows)).
  unfold upsert, row_tokens at 1. rewrite OMap.get_set.
  destruct (bool_decide ((sr_tenant p, sr_day p) = (tenant, day))) eqn:E.
  - apply bool_decide_eq_true in E. injection E as E1 E2. rewrite E1, E2. simpl.
    rewrite bool_decide_eq_true_2, Z.eqb_refl by done. simpl. lia.
  - apply bool_decide_eq_false in E. fold (row_tokens tenant day db).
    destruct (bool_decide (sr_tenant p = tenant) && (sr_day p =? day)) eqn:E2; [|lia].
    apply andb_prop in E2 as [E2 E3]. apply bool_decide_eq_true in E2.
    destruct E. f_equal; [done|lia].
Qed.

Lemma taken_sum day m tenant :
  OMap.wf m → (∀ x s, OMap.get x m = Some s → sp_day s = day ∧ 0 ≤ sp_pending s) →
  rows_sum tenant day (takePendingSpend m).1 = pending_of tenant m.
Proof.
  unfold takePendingSpend, pending_of, rows_sum. simpl.
  induction m as [|[t s] m IH]; simpl; [done|]. intros Hwf Hs. apply NoDup_cons in Hwf as [Hn Hwf].
  rewrite map_app, sum_app.
  destruct (Hs t s) as [Hd Hp]; [by rewrite bool_decide_eq_true_2|].
  assert (Hs' : ∀ x s0, OMap.get x m = Some s0 → sp_day s0 = day ∧ 0 ≤ sp_pending s0).
  { intros x s0 Hx. apply (Hs x). case_bool_decide as E; [|done]. subst x.
    destruct Hn. by eapply OMap.get_Some_key. }
  rewrite (IH Hwf Hs').
  case_bool_decide as Ht.
  - subst tenant. assert (Hnone : OMap.get t m = None) by by apply OMap.get_None_key.
    rewrite Hnone. destruct (0 <? sp_pending s) eqn:E; simpl; [|lia].
    rewrite bool_decide_eq_true_2 by done. rewrite Hd, Z.eqb_refl. simpl. lia.
  - destruct (0 <? sp_pending s); simpl; [|done]. rewrite bool_decide_eq_false_2 by congruence.
    simpl. lia.
Qed.

Lemma reads_spec tenants day db m :
  (flush_reads tenants day db None m).2 = Some None ∧
  (∀ x, OMap.get x (flush_reads tenants day db None m).1 =
        if bool_decide (x ∈ tenants)
        then Some {| sp_day := day; sp_shared := Z.max 0 (row_tokens x day db);
                     sp_pending := sp_pending (entry x day m) |}
        else OMap.get x m) ∧
  (OMap.wf m → OMap.wf (flush_reads tenants day db None m).1).
Proof.
  revert m. induction tenants as [|t tenants IH]; intros m; cbn [flush_reads spend_luck].
  { split; [done|]. split; [|done]. intros x. rewrite bool_decide_eq_false_2; [done|]. apply not_elem_of_nil. }
  destruct (apply_get t day (row_tokens t day db) m) as [Hg Hw].
  destruct (IH (applySharedSpend t day (row_tokens t day db) m)) as (H1 & H2 & H3).
  split; [done|]. split; [|auto]. intros x. rewrite H2.
  assert (He : sp_pending (entry x day (applySharedSpend t day (row_tokens t day db) m)) =
               sp_pending (entry x day m)).
  { unfold entry at 1. rewrite Hg. case_bool_decide as E; simpl; [|done].
    subst x. by rewrite Z.eqb_refl. }
  rewrite He, Hg. destruct (decide (x ∈ tenants)).
  - rewrite !bool_decide_eq_true_2; [done|by right|done].
  - rewrite (bool_decide_eq_false_2 (x ∈ tenants)) by done.
    destruct (decide (t = x)) as [E|E].
    + subst t. rewrite (bool_decide_eq_true_2 (x = x)), (bool_decide_eq_true_2 (x ∈ x :: tenants));
        [done|by left|done].
    + rewrite (bool_decide_eq_false_2 (t = x)), (bool_decide_eq_false_2 (x ∈ t :: tenants));
        [done| |done]. rewrite elem_of_cons. naive_solver.
Qed.

Lemma spends_ok_mono day db db' m :
  (∀ t, row_tokens t day db ≤ row_tokens t day db') → spends_ok day db m → spends_ok day db' m.
Proof.
  intros H [Hm Hs]. split; [done|]. intros t s Ht. destruct (Hs t s Ht) as (? & ? & ? & ?).
  specialize (H t). lia.
Qed.

Lemma charge_ok day db tenant tokens m :
  spends_ok day db m → (∀ t, 0 ≤ row_tokens t day db) →
  spends_ok day db (chargeTenant tenant tokens day m) ∧
  ∀ t, pending_of t (chargeTenant tenant tokens day m) =
       pending_of t m + if bool_decide (tenant = t) && (0 <? tokens) then tokens else 0.
Proof.
  intros [Hm Hs] Hrow. destruct (charge_get tenant tokens day m) as [Hg Hw].
  assert (He : 0 ≤ sp_pending (entry tenant day m) ∧
               0 ≤ sp_shared (entry tenant day m) ≤ row_tokens tenant day db ∧
               sp_pending (entry tenant day m) = pending_of tenant m).
  { unfold entry, pending_of. specialize (Hs tenant). specialize (Hrow tenant).
    destruct (OMap.get tenant m) as [s|]; [|simpl; lia].
    destruct (Hs s eq_refl) as (Hd & Hp & Hsh). rewrite Hd, Z.eqb_refl. lia. }
  pose proof (entry_day tenant day m) as Hd. split; [split; [auto|]|].
  - intros t s. rewrite Hg. destruct (bool_decide (tenant = t) && (0 <? tokens)) eqn:E; [|apply Hs].
    apply andb_prop in E as [E E2]. apply bool_decide_eq_true in E. subst t.
    intros [= <-]. simpl. lia.
  - intros t. unfold pending_of at 1. rewrite Hg.
    destruct (bool_decide (tenant = t) && (0 <? tokens)) eqn:E.
    + apply andb_prop in E as [E E2]. apply bool_decide_eq_true in E. subst t. simpl. lia.
    + fold (pending_of t m). lia.
Qed.

Lemma taken_ok day db m :
  spends_ok day db m → spends_ok day db (takePendingSpend m).2.
Proof.
  intros [Hm Hs]. split; [unfold OMap.wf; by rewrite take_keys|].
  intros t s. rewrite take_get. destruct (OMap.get t m) as [s0|] eqn:E; [|done].
  intros [= <-]. destruct (Hs t s0 E) as (? & ? & ?). simpl. lia.
Qed.

Lemma seen_spec day db m t :
  spends_ok day db m → t ∈ tenantsSeen day m ↔ is_Some (OMap.get t m).
Proof.
  intros [Hm Hs]. unfold tenantsSeen. rewrite list_elem_of_fmap. split.
  - intros ([x s] & -> & [Hin _]%elem_of_bfilter). exists s. by apply OMap.elem_get.
  - intros [s Hg]. exists (t, s). split; [done|]. apply elem_of_bfilter. split.
    + by apply OMap.get_elem.
    + destruct (Hs t s Hg) as (-> & _). by rewrite Z.eqb_refl.
Qed.

Lemma taken_tenants m r : OMap.wf m → r ∈ (takePendingSpend m).1 → is_Some (OMap.get (sr_tenant r) m).
Proof.
  unfold takePendingSpend. simpl. intros Hm Hr. apply list_elem_of_In, in_flat_map in Hr.
  destruct Hr as ([t s] & Hin & Hr). destruct (0 <? sp_pending s); [|done].
  destruct Hr as [<-|[]]. exists s. simpl. apply OMap.elem_get; [done|]. by apply list_elem_of_In.
Qed.

(** A flush on the day it counts: the tokens move to the shared row, and the replica
    sees the whole row. *)
Lemma flush_ok day m db :
  spends_ok day db m → (∀ t, 0 ≤ row_tokens t day db) →
  let out := flush day false None m db in
  spends_ok day out.2 out.1 ∧
  ∀ t, row_tokens t day out.2 = row_tokens t day db + pending_of t m ∧
       pending_of t out.1 = 0 ∧
       (is_Some (OMap.get t m) → shared_of t out.1 = row_tokens t day out.2).
Proof.
  intros Hok Hrow. pose proof Hok as [Hm Hs]. pose proof (taken_ok day db m Hok) as Hok1.
  unfold flush.
  pose proof (λ t, taken_sum day m t Hm (λ x s Hx, conj (proj1 (Hs x s Hx)) (proj1 (proj2 (Hs x s Hx)))))
    as Hsum.
  pose proof (taken_tenants m) as Htt. pose proof (take_get m) as Htg.
  destruct (takePendingSpend m) as [pending m1]. cbn [fst snd] in *.
  set (tenants := add_all [] _).
  assert (Hten : ∀ t, t ∈ tenants ↔ is_Some (OMap.get t m)).
  { intros t. unfold tenants. rewrite elem_of_add_all, elem_of_nil, elem_of_app.
    rewrite (seen_spec day db m1 t Hok1), Htg, list_elem_of_fmap. split.
    - intros [[]|[H|(r & -> & Hr)]]; [|by apply Htt]. by destruct (OMap.get t m).
    - intros H. right. left. by destruct (OMap.get t m). }
  assert (Hpos : ∀ t, 0 ≤ pending_of t m).
  { intros t. unfold pending_of. specialize (Hs t). destruct (OMap.get t m) as [s|]; [|done].
    by destruct (Hs s eq_refl) as (_ & ? & _). }
  case_bool_decide as Hnil.
  - assert (Hnone : ∀ t, OMap.get t m = None).
    { intros t. apply eq_None_not_Some. rewrite <- Hten, Hnil. apply not_elem_of_nil. }
    cbn [fst snd]. split; [done|]. intros t. unfold pending_of, shared_of. rewrite Htg, Hnone. simpl.
    split; [lia|]. split; [done|]. by intros [? ?].
  - destruct (upserts_spec pending db "" day) as [_ Hu2].
    assert (Hu : ∀ t, row_tokens t day (flush_upserts pending None db).1 =
                      row_tokens t day db + pending_of t m).
    { intros t. destruct (upserts_spec pending db t day) as [-> _]. by rewrite Hsum. }
    destruct (flush_upserts pending None db) as [db1 o1]. cbn [fst snd] in *. subst o1.
    destruct (reads_spec tenants day db1 m1) as (Hr1 & Hr2 & Hr3).
    destruct (flush_reads tenants day db1 None m1) as [m2 o2]. cbn [fst snd] in *. subst o2.
    cbn [fst snd].
    assert (Hget : ∀ t, OMap.get t m2 = match OMap.get t m with
      | Some s => Some {| sp_day := day; sp_shared := row_tokens t day db1; sp_pending := 0 |}
      | None => None end).
    { intros t. rewrite Hr2. specialize (Hten t). destruct (OMap.get t m) as [s|] eqn:E.
      - rewrite bool_decide_eq_true_2 by (apply Hten; by eexists).
        f_equal. unfold entry. rewrite Htg, E. simpl. destruct (Hs t s E) as (-> & _).
        rewrite Z.eqb_refl. simpl. f_equal. specialize (Hu t). specialize (Hrow t).
        specialize (Hpos t). lia.
      - rewrite bool_decide_eq_false_2 by (rewrite Hten; by intros [? ?]). by rewrite Htg, E. }
    split.
    + split; [apply Hr3, Hok1|]. intros t s. rewrite Hget.
      destruct (OMap.get t m) as [s0|]; [|done]. intros [= <-]. simpl.
      specialize (Hu t). specialize (Hrow t). specialize (Hpos t). lia.
    + intros t. split; [apply Hu|]. unfold pending_of, shared_of. rewrite Hget.
      destruct (OMap.get t m); split; try done; by intros [? ?].
Qed.

(** *** The replicas together *)

Definition all_pending (tenant : string) (reps : list Spends) : Z :=
  sum (map (pending_of tenant) reps).

Record system_ok (day : Z) (s : System) (total : string → Z) : Prop := {
  so_replicas : Forall (spends_ok day (sy_db s)) (sy_replicas s);
  so_rows : ∀ t, 0 ≤ row_tokens t day (sy_db s);
  so_total : ∀ t, row_tokens t day (sy_db s) + all_pending t (sy_replicas s) = total t
}.

Lemma all_pending_alter t (f : Spends → Spends) r reps m :
  reps !! r = Some m →
  all_pending t (alter f r reps) = all_pending t reps - pending_of t m + pending_of t (f m).
Proof.
  revert r. induction reps as [|x reps IH]; intros [|r] Hr; try done.
  - injection Hr as ->. unfold all_pending. simpl. lia.
  - specialize (IH r Hr). unfold all_pending in *.
    change (alter f (S r) (x :: reps)) with (x :: alter f r reps).
    cbn [map sum fold_right] in *. fold (sum (map (pending_of t) (alter f r reps))).
    rewrite IH. unfold sum. lia.
Qed.

Lemma alter_absent (f : Spends → Spends) (r : nat) (reps : list Spends) : reps !! r = None → alter f r reps = reps.
Proof.
  revert r. induction reps as [|x reps IH]; intros [|r] Hr; try done.
  change (alter f (S r) (x :: reps)) with (x :: alter f r reps). by rewrite IH.
Qed.

Lemma budget_step_ok day s total e :
  system_ok day s total →
  system_ok day (budget_step day s e)
    (λ t, total t + event_charge (length (sy_replicas s)) t e) ∧
  length (sy_replicas (budget_step day s e)) = length (sy_replicas s).
Proof.
  intros [Hr Hrow Ht]. destruct e as [r tenant tokens|r]; cbn [budget_step event_charge].
  - split; [|apply length_alter]. destruct (sy_replicas s !! r) as [m|] eqn:E.
    + assert (Hlt : (r <? length (sy_replicas s))%nat = true)
        by (apply Nat.ltb_lt; by eapply lookup_lt_Some).
      rewrite Hlt. pose proof (Forall_lookup_1 _ _ _ _ Hr E) as Hm.
      destruct (charge_ok day (sy_db s) tenant tokens m Hm Hrow) as [Hok Hp].
      split; cbn [sy_replicas sy_db]; [|done|].
      * apply Forall_alter; [done|]. intros x Hx _. rewrite E in Hx. by injection Hx as <-.
      * intros t. rewrite (all_pending_alter t _ r _ m E), Hp, <- Ht.
        destruct (bool_decide (tenant = t)), (0 <? tokens); simpl; lia.
    + assert (Hlt : (r <? length (sy_replicas s))%nat = false)
        by (apply Nat.ltb_ge; by apply lookup_ge_None).
      assert (Ha : alter (chargeTenant tenant tokens day) r (sy_replicas s) = sy_replicas s).
      { by apply alter_absent. }
      rewrite Ha, Hlt. split; cbn [sy_replicas sy_db]; try done.
      intros t. rewrite andb_false_r. simpl. rewrite Ht. lia.
  - destruct (sy_replicas s !! r) as [m|] eqn:E.
    2:{ split; [|done]. split; try done. intros t. rewrite Ht. lia. }
    pose proof (Forall_lookup_1 _ _ _ _ Hr E) as Hm.
    destruct (flush_ok day m (sy_db s) Hm Hrow) as [Hok Hf].
    destruct (flush day false None m (sy_db s)) as [m' db']. cbn [fst snd] in *.
    split; [|apply length_insert].
    assert (Hmono : ∀ t, row_tokens t day (sy_db s) ≤ row_tokens t day db').
    { intros t. destruct (Hf t) as (-> & _). unfold pending_of. destruct Hm as [_ Hs].
      specialize (Hs t). destruct (OMap.get t m) as [x|]; [|lia].
      destruct (Hs x eq_refl) as (_ & ? & _). lia. }
    split; cbn [sy_replicas sy_db].
    + apply Forall_insert; [|done]. eapply Forall_impl; [exact Hr|]. intros x.
      by apply spends_ok_mono.
    + intros t. specialize (Hmono t). specialize (Hrow t). lia.
    + intros t. destruct (Hf t) as (Hrt & Hp & _).
      rewrite list_insert_alter.
      rewrite (all_pending_alter t (λ _, m') r _ m E), Hrt, Hp, <- Ht. lia.
Qed.

Definition fresh_system (n : nat) : System := {| sy_replicas := replicate n []; sy_db := [] |}.

Lemma fresh_ok day n : system_ok day (fresh_system n) (λ _, 0).
Proof.
  split; simpl.
  - apply Forall_replicate. split; [constructor|]. intros t s. done.
  - intros t. done.
  - intros t. unfold all_pending. replace (row_tokens t day []) with 0 by done.
    induction n as [|n IH]; [done|]. simpl. change (pending_of t []) with 0. lia.
Qed.

Lemma budget_run_ok day es s total :
  system_ok day s total →
  let s' := fold_left (budget_step day) es s in
  system_ok day s' (λ t, total t + charged (length (sy_replicas s)) t es) ∧
  length (sy_replicas s') = length (sy_replicas s).
Proof.
  revert s total. induction es as [|e es IH]; intros s total Hs; cbn [fold_left].
  { split; [|done]. destruct Hs as [H1 H2 H3]. split; try done.
    intros t. rewrite H3. unfold charged. simpl. lia. }
  destruct (budget_step_ok day s total e Hs) as [H1 Hl].
  destruct (IH _ _ H1) as [H2 Hl2]. rewrite Hl in *. split; [|done].
  destruct H2 as [Ha Hb Hc]. split; try done. intros t. rewrite Hc. unfold charged. simpl. lia.
Qed.

Lemma view_spec day db m tenant :
  spends_ok day db m →
  (tenantTokensToday tenant day m).1 = shared_of tenant m + pending_of tenant m.
Proof.
  intros [_ Hs]. unfold tenantTokensToday. destruct (current_spec tenant day m) as [H _].
  destruct (current tenant day m) as [s m1]. simpl in H |- *. subst s.
  unfold entry, shared_of, pending_of. specialize (Hs tenant).
  destruct (OMap.get tenant m) as [s|]; [|done]. destruct (Hs s eq_refl) as (-> & _).
  by rewrite Z.eqb_refl.
Qed.

Lemma pending_bound day db tenant reps r m :
  Forall (spends_ok day db) reps → reps !! r = Some m →
  0 ≤ pending_of tenant m ≤ all_pending tenant reps.
Proof.
  intros Hf. revert r. unfold all_pending.
  assert (Hpos : ∀ x, spends_ok day db x → 0 ≤ pending_of tenant x).
  { intros x [_ Hs]. unfold pending_of. specialize (Hs tenant).
    destruct (OMap.get tenant x) as [s|]; [|done]. by destruct (Hs s eq_refl) as (_ & ? & _). }
  induction Hf as [|x reps Hx Hf IH]; intros [|r] Hr; try done; simpl.
  - injection Hr as ->. pose proof (Hpos m Hx). split; [done|].
    assert (0 ≤ sum (map (pending_of tenant) reps)); [|lia].
    clear IH. induction Hf as [|y reps Hy _ IH]; simpl; [done|]. pose proof (Hpos y Hy). lia.
  - destruct (IH r Hr). specialize (Hpos x Hx). lia.
Qed.

(** The replicas count every token once: after any charges and flushes of one day,
    the shared row and what the replicas still hold add up to exactly what was charged;
    so no replica ever refuses a tenant before its budget is really spent, and right
    after its flush a replica knows everything but what the others still hold. *)
Theorem budget_counts_every_token day n es tenant r m :
  let s := fold_left (budget_step day) es (fresh_system n) in
  sy_replicas s !! r = Some m →
  row_tokens tenant day (sy_db s) + all_pending tenant (sy_replicas s) = charged n tenant es ∧
  (tenantTokensToday tenant day m).1 ≤ charged n tenant es ∧
  (∀ budget, (tenantOverBudget tenant budget day m).1 = true → budget ≤ charged n tenant es) ∧
  (is_Some (OMap.get tenant m) →
   ∃ m', sy_replicas (budget_step day s (BFlush r)) !! r = Some m' ∧
     (tenantTokensToday tenant day m').1 =
     charged n tenant es - (all_pending tenant (sy_replicas s) - pending_of tenant m)).
Proof.
  intros s Hm. destruct (budget_run_ok day es _ _ (fresh_ok day n)) as [Hs _].
  cbn [sy_replicas fresh_system] in Hs. rewrite length_replicate in Hs. fold (fresh_system n) s in Hs.
  destruct Hs as [Hr Hrow Ht]. specialize (Ht tenant). simpl in Ht.
  pose proof (Forall_lookup_1 _ _ _ _ Hr Hm) as Hok.
  pose proof (pending_bound day _ tenant _ _ _ Hr Hm) as Hp.
  assert (Hview : (tenantTokensToday tenant day m).1 ≤ charged n tenant es).
  { rewrite (view_spec day (sy_db s) m tenant Hok).
    assert (Hsh : shared_of tenant m ≤ row_tokens tenant day (sy_db s)).
    { unfold shared_of. destruct Hok as [_ Hk]. specialize (Hk tenant). specialize (Hrow tenant).
      destruct (OMap.get tenant m) as [x|]; [|done]. destruct (Hk x eq_refl) as (_ & _ & ?). lia. }
    lia. }
  split; [exact Ht|]. split; [exact Hview|]. split.
  - intros budget. unfold tenantOverBudget. destruct (0 <? budget); [|done].
    destruct (tenantTokensToday tenant day m) as [tokens m1]. simpl in Hview |- *. lia.
  - intros Hseen. cbn [budget_step]. rewrite Hm.
    destruct (flush_ok day m (sy_db s) Hok Hrow) as [Hok' Hf].
    destruct (flush day false None m (sy_db s)) as [m' db']. cbn [fst snd] in *.
    exists m'. cbn [sy_replicas]. split.
    + apply list_lookup_insert_eq. by eapply lookup_lt_Some.
    + rewrite (view_spec day db' m' tenant Hok'). destruct (Hf tenant) as (H1 & H2 & H3).
      rewrite H2, (H3 Hseen), H1. lia.
Qed.

Lemma budget_counts_every_token_witness :
  let es := [BCharge 0 "acme" 70; BFlush 0; BCharge 1 "acme" 20; BFlush 1; BCharge 0 "acme" 5]%string in
  let s := fold_left (budget_step 3) es (fresh_system 2) in
  map (λ m, (tenantTokensToday "acme" 3 m).1) (sy_replicas s) = [75; 90] ∧
  ∀ m, sy_replicas s !! 1%nat = Some m → (tenantTokensToday "acme" 3 m).1 ≤ charged 2 "acme" es.
Proof.
  intros es s. split; [reflexivity|]. intros m Hm.
  destruct (budget_counts_every_token 3 2 es "acme" 1 m Hm) as (_ & H & _). exact H.
Defined.

(** A replica that holds the counters of one tenant. *)
Lemma flush_one tenant day shared pending l db :
  0 < pending →
  flush day false l [(tenant, {| sp_day := day; sp_shared := shared; sp_pending := pending |})] db =
  let row := {| sr_tenant := tenant; sr_day := day; sr_tokens := pending |} in
  let back := [(tenant, {| sp_day := day; sp_shared := shared; sp_pending := 0 + pending |})] in
  match spend_luck l with
  | None => (back, db)
  | Some l' =>
      match spend_luck l' with
      | None => (back, upsert row db)
      | Some _ =>
          ([(tenant, {| sp_day := day;
                        sp_shared := Z.max 0 (row_tokens tenant day (upsert row db));
                        sp_pending := 0 |})], upsert row db)
      end
  end.
Proof.
  intros Hp. unfold flush, takePendingSpend, tenantsSeen. cbn [flat_map map fst snd sp_pending sp_day].
  assert (E : (0 <? pending) = true) by lia. rewrite E.
  cbn [List.filter map app clear_pending sp_day sr_tenant]. rewrite Z.eqb_refl.
  cbn [map fst app]. unfold clear_pending. cbn [sp_day sp_shared].
  assert (Ht : add_all [] [tenant; tenant] = [tenant]).
  { change (add_new [tenant] tenant = [tenant]). unfold add_new.
    rewrite bool_decide_eq_true_2; [done|by left]. }
  rewrite Ht, bool_decide_eq_false_2 by done.
  cbn [flush_upserts flush_reads].
  assert (Hr : restorePendingSpend [{| sr_tenant := tenant; sr_day := day; sr_tokens := pending |}]
    [(tenant, {| sp_day := day; sp_shared := shared; sp_pending := 0 |})] =
    [(tenant, {| sp_day := day; sp_shared := shared; sp_pending := 0 + pending |})]).
  { unfold restorePendingSpend, restore_row, current, add_pending. cbn.
    rewrite bool_decide_eq_true_2 by done. rewrite Z.eqb_refl. cbn.
    rewrite Z.eqb_refl. by rewrite bool_decide_eq_true_2. }
  destruct (spend_luck l) as [l'|]; [|by rewrite Hr].
  destruct (spend_luck l') as [l''|]; [|by rewrite Hr].
  unfold applySharedSpend, current. cbn [OMap.get sp_day].
  rewrite bool_decide_eq_true_2 by done. cbn [sp_day negb]. rewrite Z.eqb_refl. cbn [negb].
  cbn [sp_day OMap.set]. rewrite Z.eqb_refl. by rewrite bool_decide_eq_true_2.
Qed.

(** A flush that throws after an upsert hands back tokens the database already
    has: the next flush adds them again, and the tenant is charged twice. *)
Theorem failed_flush_charges_twice tenant day tokens :
  0 < tokens →
  let '(m1, db1) := flush day false (Some 1%nat) (chargeTenant tenant tokens day []) [] in
  let '(m2, db2) := flush day false None m1 db1 in
  row_tokens tenant day db2 = 2 * tokens ∧ (tenantTokensToday tenant day m2).1 = 2 * tokens.
Proof.
  intros Hn.
  assert (E : chargeTenant tenant tokens day [] =
    [(tenant, {| sp_day := day; sp_shared := 0; sp_pending := 0 + tokens |})]).
  { unfold chargeTenant. assert (Hlt : (0 <? tokens) = true) by lia. rewrite Hlt. cbn.
    by rewrite bool_decide_eq_true_2. }
  rewrite E, flush_one by lia. cbn [spend_luck]. rewrite flush_one by lia. cbn [spend_luck].
  set (row := {| sr_tenant := tenant; sr_day := day; sr_tokens := 0 + tokens |}).
  set (row2 := {| sr_tenant := tenant; sr_day := day; sr_tokens := 0 + (0 + tokens) |}).
  assert (Hrow : row_tokens tenant day (upsert row2 (upsert row [])) = 2 * tokens).
  { unfold upsert, row_tokens. rewrite !OMap.get_set. rewrite bool_decide_eq_true_2 by done. simpl.
    rewrite bool_decide_eq_true_2 by done. simpl. lia. }
  split; [exact Hrow|]. unfold tenantTokensToday, current. cbn [OMap.get sp_day].
  rewrite bool_decide_eq_true_2 by done. cbn [sp_day]. rewrite Z.eqb_refl. cbn [negb sp_shared sp_pending fst].
  rewrite Hrow. lia.
Qed.

Lemma failed_flush_charges_twice_witness :
  let '(m1, db1) := flush 3 false (Some 1%nat) (chargeTenant "acme" 70 3 []) [] in
  row_tokens "acme" 3 (flush 3 false None m1 db1).2 = 140.
Proof.
  pose proof (failed_flush_charges_twice "acme" 3 70) as H.
  destruct (flush 3 false (Some 1%nat) _ _) as [m1 db1].
  destruct (flush 3 false None m1 db1) as [m2 db2]. apply H. lia.
Defined.

(** A failed flush that ends after midnight forgets the new day: handing back
    yesterday's tokens resets the tenant's counters to yesterday, so nothing charged
    today is known any more. *)
Theorem late_restore_forgets_today tenant yesterday today tokens m :
  yesterday ≠ today →
  (tenantTokensToday tenant today
    (restorePendingSpend [{| sr_tenant := tenant; sr_day := yesterday; sr_tokens := tokens |}] m)).1 = 0.
Proof.
  intros Hne. unfold restorePendingSpend, restore_row. cbn [fold_left sr_tenant sr_day sr_tokens].
  destruct (update_spec tenant yesterday (add_pending tokens) m) as [Hg _].
  pose proof (entry_day tenant yesterday m) as Hd.
  destruct (current_spec tenant yesterday m) as (Hc & _).
  destruct (current tenant yesterday m) as [s m1]. cbn [fst snd] in *. subst s.
  rewrite Hd, Z.eqb_refl. unfold tenantTokensToday.
  match goal with |- context [current tenant today ?m'] =>
    destruct (current_spec tenant today m') as [H _]; destruct (current tenant today m') as [s m2] end.
  cbn [fst] in *. subst s. unfold entry. rewrite Hg, bool_decide_eq_true_2 by done.
  cbn [add_pending sp_day]. rewrite Hd.
  assert (E : (yesterday =? today) = false) by lia. by rewrite E.
Qed.

Lemma late_restore_forgets_today_witness :
  let m := chargeTenant "acme" 70 4 [] in
  (tenantTokensToday "acme" 4 m).1 = 70 ∧
  (tenantTokensToday "acme" 4
    (restorePendingSpend [{| sr_tenant := "acme"; sr_day := 3; sr_tokens := 5 |}] m)).1 = 0.
Proof.
  split; [reflexivity|]. apply (late_restore_forgets_today "acme" 3 4 5). lia.
Defined.
