(* ===== verification/Locks.v ===== *)
(** * In-process locks

    [common/semaphore.ts] (at most [limit] tasks at a time, in arrival order) and
    [common/keyed-mutex.ts] (one task at a time per key). A task is a call of [run];
    its steps are what the event loop runs between two awaits. *)

From S2P Require Import Prelude.
Local Open Scope nat_scope.

(** ** Semaphore *)

Record Semaphore := {
  sm_active : nat;
  sm_waiters : list nat
}.

Definition semaphore_new : Semaphore := {| sm_active := 0; sm_waiters := [] |}.

(** [acquire] by task [i]: [true] when its promise is already resolved. *)
Definition sem_acquire (limit i : nat) (s : Semaphore) : bool * Semaphore :=
  if sm_active s <? limit
  then (true, {| sm_active := S (sm_active s); sm_waiters := sm_waiters s |})
  else (false, {| sm_active := sm_active s; sm_waiters := app (sm_waiters s) [i] |}).

(** [release]: the task whose promise it resolves, if any. *)
Definition sem_release (s : Semaphore) : option nat * Semaphore :=
  match sm_waiters s with
  | next :: rest => (Some next, {| sm_active := sm_active s; sm_waiters := rest |})
  | [] => (None, {| sm_active := pred (sm_active s); sm_waiters := [] |})
  end.

Fixpoint remove_first (i : nat) (l : list nat) : list nat :=
  match l with
  | [] => []
  | x :: l' => if bool_decide (x = i) then l' else x :: remove_first i l'
  end.

Lemma length_remove_first i l : i ∈ l → S (length (remove_first i l)) = length l.
Proof.
  induction l as [|x l IH]; simpl; [by intros ?%elem_of_nil|]. intros Hi.
  case_bool_decide as Hx; [done|]. simpl. rewrite IH; [done|].
  apply elem_of_cons in Hi as [->|Hi]; done.
Qed.

(** The semaphore with its tasks: those whose [fn] runs now, and every task in the
    order its [fn] started. *)
Record SemRun := {
  sr_sem : Semaphore;
  sr_running : list nat;
  sr_started : list nat;
  sr_arrived : list nat
}.

(** Task [i] calls [run]; task [i]'s [fn] settles, and its [finally] releases. *)
Inductive sem_event : Type := SemRunCall (i : nat) | SemSettle (i : nat).

Definition sem_start (i : nat) (r : SemRun) : SemRun :=
  {| sr_sem := sr_sem r; sr_running := app (sr_running r) [i];
     sr_started := app (sr_started r) [i]; sr_arrived := sr_arrived r |}.

Definition sem_step (limit : nat) (r : SemRun) (e : sem_event) : SemRun :=
  match e with
  | SemRunCall i =>
      let '(now, s) := sem_acquire limit i (sr_sem r) in
      let r' := {| sr_sem := s; sr_running := sr_running r; sr_started := sr_started r;
                   sr_arrived := app (sr_arrived r) [i] |} in
      if now : bool then sem_start i r' else r'
  | SemSettle i =>
      if negb (bool_decide (i ∈ sr_running r)) then r
      else
        let '(next, s) := sem_release (sr_sem r) in
        let r' := {| sr_sem := s; sr_running := remove_first i (sr_running r);
                     sr_started := sr_started r; sr_arrived := sr_arrived r |} in
        match next with Some j => sem_start j r' | None => r' end
  end.

Definition sem_run (limit : nat) (es : list sem_event) : SemRun :=
  fold_left (sem_step limit) es
    {| sr_sem := semaphore_new; sr_running := []; sr_started := []; sr_arrived := [] |}.

Record sem_ok (limit : nat) (r : SemRun) : Prop := {
  sk_active : length (sr_running r) = sm_active (sr_sem r);
  sk_limit : sm_active (sr_sem r) ≤ limit;
  sk_busy : sm_waiters (sr_sem r) ≠ [] → sm_active (sr_sem r) = limit;
  sk_order : app (sr_started r) (sm_waiters (sr_sem r)) = sr_arrived r
}.

Lemma sem_step_ok limit r e : sem_ok limit r → sem_ok limit (sem_step limit r e).
Proof.
  intros [H1 H2 H3 H4]. destruct e as [i|i]; simpl.
  - unfold sem_acquire. destruct (sm_active (sr_sem r) <? limit) eqn:E.
    + apply Nat.ltb_lt in E.
      assert (Hw : sm_waiters (sr_sem r) = [])
        by (destruct (sm_waiters (sr_sem r)); [done|]; specialize (H3 ltac:(done)); lia).
      split; simpl; try done.
      * rewrite length_app. simpl. lia.
      * rewrite <- H4, Hw. by rewrite !app_nil_r.
    + apply Nat.ltb_ge in E. split; simpl; try done.
      * intros _. lia.
      * by rewrite <- H4, app_assoc.
  - case_bool_decide as Hi; simpl; [|done].
    pose proof (length_remove_first i (sr_running r) Hi) as Hl.
    unfold sem_release. destruct (sm_waiters (sr_sem r)) as [|j w] eqn:Ew; simpl.
    + split; simpl; try done; lia.
    + split; simpl.
      * rewrite length_app. simpl. lia.
      * done.
      * intros _. by apply H3.
      * by rewrite <- app_assoc.
Qed.

(** The semaphore bounds and is fair: whatever the calls and whenever their work
    settles, at most [limit] tasks run, the counter is their number, no task waits while
    a slot is free, and tasks start in exactly the order they came. *)
Theorem semaphore_bounds_and_is_fair limit es :
  let r := sem_run limit es in
  length (sr_running r) = sm_active (sr_sem r) ∧ length (sr_running r) ≤ limit ∧
  (sm_waiters (sr_sem r) ≠ [] → length (sr_running r) = limit) ∧
  app (sr_started r) (sm_waiters (sr_sem r)) = sr_arrived r.
Proof.
  assert (H : sem_ok limit (sem_run limit es)).
  { unfold sem_run.
    assert (H0 : sem_ok limit {| sr_sem := semaphore_new; sr_running := []; sr_started := [];
                                 sr_arrived := [] |}) by (split; simpl; try done; lia).
    revert H0. generalize {| sr_sem := semaphore_new; sr_running := []; sr_started := [];
                             sr_arrived := [] |}.
    induction es as [|e es IH]; intros r Hr; simpl; [done|]. by apply IH, sem_step_ok. }
  destruct H as [H1 H2 H3 H4]. cbn zeta. rewrite H1. auto.
Qed.

Example semaphore_sample :
  let r := sem_run 2 [SemRunCall 0; SemRunCall 1; SemRunCall 2; SemRunCall 3; SemSettle 1; SemSettle 0] in
  (sr_running r, sr_started r, sm_waiters (sr_sem r)) = ([2; 3], [0; 1; 2; 3], []).
Proof. reflexivity. Qed.

(** ** Keyed mutex *)

(** Where a call of [run] stands: before its first check or just woken, awaiting the
    promise of the task that held the key, running [fn], or done. *)
Inductive mutex_task : Type :=
| TReady
| TWaiting (holder : nat)
| THolding
| TDone.

(** The map of held keys (by holder, whose promise it stores), the tasks with their
    keys, and the promises resolved so far. *)
Record Mutex := {
  mx_locks : list (string * nat);
  mx_tasks : list (string * mutex_task);
  mx_released : list nat
}.

(** One turn of the [while] check: wait for the holder, or take the key. *)
Definition mx_check (i : nat) (key : string) (m : Mutex) : Mutex :=
  match OMap.get key (mx_locks m) with
  | Some holder =>
      {| mx_locks := mx_locks m; mx_tasks := <[i := (key, TWaiting holder)]> (mx_tasks m);
         mx_released := mx_released m |}
  | None =>
      {| mx_locks := OMap.set key i (mx_locks m);
         mx_tasks := <[i := (key, THolding)]> (mx_tasks m); mx_released := mx_released m |}
  end.

(** The [finally]: the key is deleted, the promise resolved. *)
Definition mx_finish (i : nat) (key : string) (m : Mutex) : Mutex :=
  {| mx_locks := OMap.del key (mx_locks m); mx_tasks := <[i := (key, TDone)]> (mx_tasks m);
     mx_released := i :: mx_released m |}.

(** What task [i] can do when it is its turn; [None]: nothing. *)
Definition mx_step (i : nat) (m : Mutex) : option Mutex :=
  match mx_tasks m !! i with
  | Some (key, TReady) => Some (mx_check i key m)
  | Some (key, TWaiting holder) =>
      if bool_decide (holder ∈ mx_released m) then Some (mx_check i key m) else None
  | Some (key, THolding) => Some (mx_finish i key m)
  | _ => None
  end.

Definition mx_run (sched : list nat) (m : Mutex) : Mutex :=
  fold_left (λ m i, default m (mx_step i m)) sched m.

Definition mutex_new (keys : list string) : Mutex :=
  {| mx_locks := []; mx_tasks := map (λ k, (k, TReady)) keys; mx_released := [] |}.

Record mutex_ok (m : Mutex) : Prop := {
  mk_wf : OMap.wf (mx_locks m);
  mk_held : ∀ key i, OMap.get key (mx_locks m) = Some i ↔ mx_tasks m !! i = Some (key, THolding);
  mk_waits : ∀ i key h, mx_tasks m !! i = Some (key, TWaiting h) →
    h ∈ mx_released m ∨ ∃ k, mx_tasks m !! h = Some (k, THolding)
}.

Lemma mx_step_ok i m m' : mutex_ok m → mx_step i m = Some m' → mutex_ok m'.
Proof.
  intros [Hwf Hh Hw]. unfold mx_step.
  destruct (mx_tasks m !! i) as [[key t]|] eqn:Ei; [|done].
  pose proof (lookup_lt_Some _ _ _ Ei) as Hlt.
  assert (Hcheck : t ≠ THolding → mutex_ok (mx_check i key m)).
  { intros Hne. unfold mx_check. destruct (OMap.get key (mx_locks m)) as [h|] eqn:Eg.
    - split; simpl; [done| |].
      + intros k j. rewrite Hh, list_lookup_insert. case_decide as Hd; [|done].
        destruct Hd as [<- _]. rewrite Ei. naive_solver.
      + intros j k h'. rewrite list_lookup_insert. case_decide as Hd.
        * intros [= <- <-]. right. exists key. apply Hh in Eg.
          rewrite list_lookup_insert. case_decide as Hd2; [|done].
          destruct Hd2 as [-> _]. rewrite Ei in Eg. by simplify_eq.
        * intros Hj. destruct (Hw j k h' Hj) as [?|[k' Hk']]; [by left|right].
          exists k'. rewrite list_lookup_insert. case_decide as Hd2; [|done].
          destruct Hd2 as [-> _]. rewrite Ei in Hk'. by simplify_eq.
    - split; simpl; [by apply OMap.wf_set| |].
      + intros k j. rewrite OMap.get_set, list_lookup_insert. case_bool_decide as Hk.
        * subst k. case_decide as Hd; [destruct Hd as [<- _]; naive_solver|].
          split; [intros [= ->]; destruct Hd; done|]. rewrite <- Hh, Eg. done.
        * case_decide as Hd; [|apply Hh]. destruct Hd as [<- _].
          rewrite Hh, Ei. naive_solver.
      + intros j k h'. rewrite list_lookup_insert. case_decide as Hd; [done|].
        intros Hj. destruct (Hw j k h' Hj) as [?|[k' Hk']]; [by left|right].
        exists k'. rewrite list_lookup_insert. case_decide as Hd2; [|done].
        destruct Hd2 as [-> _]. rewrite Ei in Hk'. by simplify_eq. }
  destruct t as [|h| |]; [| | |done].
  - intros [= <-]. by apply Hcheck.
  - case_bool_decide; [|done]. intros [= <-]. by apply Hcheck.
  - intros [= <-]. unfold mx_finish. split; simpl; [by apply OMap.wf_del| |].
    + intros k j. rewrite list_lookup_insert. destruct (decide (key = k)) as [<-|Hk].
      * rewrite OMap.get_del_eq by done. split; [done|]. case_decide as Hd; [done|].
        rewrite <- Hh. apply Hh in Ei. intros Hj. rewrite Ei in Hj. injection Hj as ->.
        by destruct Hd.
      * rewrite OMap.get_del_ne by done. rewrite Hh. case_decide as Hd; [|done].
        destruct Hd as [<- _]. rewrite Ei. naive_solver.
    + intros j k h'. rewrite list_lookup_insert. case_decide as Hd; [done|].
      intros Hj. destruct (Hw j k h' Hj) as [?|[k' Hk']]; [left; by right|].
      destruct (decide (h' = i)) as [->|Hne]; [left; by left|right].
      exists k'. rewrite list_lookup_insert. case_decide as Hd2; [|done]. naive_solver.
Qed.

Lemma mx_run_ok sched m : mutex_ok m → mutex_ok (mx_run sched m).
Proof.
  revert m. unfold mx_run. induction sched as [|i sched IH]; intros m Hm; simpl; [done|].
  apply IH. destruct (mx_step i m) as [m'|] eqn:E; simpl; [by eapply mx_step_ok|done].
Qed.

Lemma mutex_new_ok keys : mutex_ok (mutex_new keys).
Proof.
  split; simpl.
  - constructor.
  - intros key i. split; [done|]. rewrite list_lookup_fmap. by destruct (keys !! i).
  - intros i key h. rewrite list_lookup_fmap. by destruct (keys !! i).
Qed.

(** The keyed mutex excludes and never strands: under any schedule of the tasks'
    turns, two tasks that run under one key are one task, the map holds exactly the keys
    in use, and as long as some task is not done, some task can move. *)
Theorem mutex_excludes_and_progresses keys sched :
  let m := mx_run sched (mutex_new keys) in
  (∀ i j key, mx_tasks m !! i = Some (key, THolding) → mx_tasks m !! j = Some (key, THolding) →
     i = j) ∧
  (∀ key, OMap.has key (mx_locks m) = true ↔ ∃ i, mx_tasks m !! i = Some (key, THolding)) ∧
  ((∃ i key t, mx_tasks m !! i = Some (key, t) ∧ t ≠ TDone) → ∃ i, is_Some (mx_step i m)).
Proof.
  intros m. assert (Hok : mutex_ok m) by apply mx_run_ok, mutex_new_ok.
  destruct Hok as [Hwf Hh Hw]. split_and!.
  - intros i j key Hi Hj. apply Hh in Hi, Hj. congruence.
  - intros key. unfold OMap.has. setoid_rewrite <- Hh.
    destruct (OMap.get key (mx_locks m)); naive_solver.
  - intros (i & key & t & Hi & Ht). destruct t as [|h| |]; [| | |done].
    + exists i. unfold mx_step. rewrite Hi. done.
    + destruct (Hw i key h Hi) as [Hr|[k Hk]].
      * exists i. unfold mx_step. rewrite Hi. by rewrite bool_decide_eq_true_2.
      * exists h. unfold mx_step. rewrite Hk. done.
    + exists i. unfold mx_step. rewrite Hi. done.
Qed.
