(* ===== verification/SupportEdges.v ===== *)
(** * Evidence references and support edges

    [common/evidence-ref.ts] (a record id, read by its table prefix) and
    [common/support-edges.ts] (the rows of the support graph: which claim rests on,
    contradicts or derives from which record). *)

From S2P Require Import Prelude Js.
Local Open Scope string_scope.
Local Open Scope nat_scope.

(** ** Evidence references *)

Record Span := { spn_start : nat; spn_end : nat; spn_exact : string }.

Inductive EvidenceRef : Type :=
| REpisode (episodeId : string) (span : option Span)
| RFragment (fragmentId : string) (assetId : option string)
| RAsset (assetId : string)
| RExternal (sourceKind ref : string) (note : option string).

Definition parseRecordRef (raw : string) : option EvidenceRef :=
  if starts_with "episode:" raw then Some (REpisode raw None)
  else if starts_with "evidence_fragment:" raw then Some (RFragment raw None)
  else if starts_with "evidence_asset:" raw then Some (RAsset raw)
  else None.

Inductive SubjectKind : Type := SubjEvidence | SubjEpisode.

Definition outcomeSubjectFor (ref : EvidenceRef) : option (SubjectKind * string) :=
  match ref with
  | RAsset assetId => Some (SubjEvidence, assetId)
  | RFragment _ assetId =>
      match truthy assetId with Some a => Some (SubjEvidence, a) | None => None end
  | REpisode episodeId _ => Some (SubjEpisode, episodeId)
  | RExternal _ _ _ => None
  end.

Section refs.
Variable num_to_string : float → string.

Definition union_list (out : list string) (l : jsval) : list string :=
  match l with
  | VArr raws =>
      fold_left (λ out raw,
        let id := js_to_string num_to_string raw in
        match parseRecordRef id with Some _ => add_new out id | None => out end) raws out
  | _ => out
  end.

Definition unionEvidenceRefs (memberRefLists : list jsval) : list string :=
  take 64 (fold_left union_list memberRefLists []).
End refs.

(** ** Support edges *)

Inductive SupportEdgeKind : Type :=
| SupportedBy | ContradictedBy | DerivedFrom | ReconstructedFrom.

#[export] Instance SupportEdgeKind_eq_dec : EqDecision SupportEdgeKind.
Proof. solve_decision. Defined.

Definition kind_name (k : SupportEdgeKind) : string :=
  match k with
  | SupportedBy => "supported_by"
  | ContradictedBy => "contradicted_by"
  | DerivedFrom => "derived_from"
  | ReconstructedFrom => "reconstructed_from"
  end.

Definition EMITTED_EDGE_KINDS : list string := ["supported_by"; "contradicted_by"; "derived_from"].

Definition isEmittedEdgeKind (v : string) : bool := bool_decide (v ∈ EMITTED_EDGE_KINDS).

Inductive SupportEdgeWriter : Type :=
| SceneBacklink | FactResolver | PromotionRunner | CompactionRunner | Recompose
| BeliefPromotion | SceneEvidenceLinker.

Definition SUPPORT_EDGE_CAP : nat := 64.

Record SupportEdgeRow := {
  se_in : string;
  se_out : string;
  se_kind : SupportEdgeKind;
  se_writer : SupportEdgeWriter;
  se_writerVersion : option string
}.

Inductive SupportTargetClass : Type :=
| CFact | CBelief | CScene | CEpisode | CFragment | CAsset | CUnknown.

#[export] Instance SupportTargetClass_eq_dec : EqDecision SupportTargetClass.
Proof. solve_decision. Defined.

Definition classifySupportTarget (raw : string) : SupportTargetClass :=
  match parseRecordRef raw with
  | Some (REpisode _ _) => CEpisode
  | Some (RFragment _ _) => CFragment
  | Some (RAsset _) => CAsset
  | _ =>
      if starts_with "knowledge_fact:" raw then CFact
      else if starts_with "memory_episode:" raw then CScene
      else if starts_with "semantic_belief:" raw then CBelief
      else CUnknown
  end.

(** Of the claim plane. *)
Definition claim_class (c : SupportTargetClass) : bool :=
  match c with CFact | CBelief => true | _ => false end.

Definition assertEdgeShape (kind : SupportEdgeKind) (inId outId : string) : bool :=
  let inClass := classifySupportTarget inId in
  let out := classifySupportTarget outId in
  match kind with
  | SupportedBy => claim_class inClass && bool_decide (out = CScene)
  | ContradictedBy | DerivedFrom => claim_class inClass && bool_decide (out = inClass)
  | ReconstructedFrom =>
      bool_decide (inClass = CScene) && (bool_decide (out = CFragment) || bool_decide (out = CAsset))
  end.

Record SupportEdgeSpec := {
  sp_kind : SupportEdgeKind;
  sp_writer : SupportEdgeWriter;
  sp_writerVersion : option string;
  sp_pairs : list (string * string)
}.

Definition NUL : string := String (Ascii.ascii_of_nat 0) "".

(** [`${pair.in}\x00${pair.out}\x00${spec.kind}`] *)
Definition edge_key (kind : SupportEdgeKind) (pair : string * string) : string :=
  pair.1 +:+ NUL +:+ pair.2 +:+ NUL +:+ kind_name kind.

Definition row_of (spec : SupportEdgeSpec) (pair : string * string) : SupportEdgeRow :=
  {| se_in := pair.1; se_out := pair.2; se_kind := sp_kind spec; se_writer := sp_writer spec;
     se_writerVersion := sp_writerVersion spec |}.

(** The keys seen, the rows and the skipped count. *)
Definition build_pair (spec : SupportEdgeSpec) (acc : list string * list SupportEdgeRow * nat)
    (pair : string * string) : list string * list SupportEdgeRow * nat :=
  let '(seen, rows, skipped) := acc in
  if negb (assertEdgeShape (sp_kind spec) pair.1 pair.2) then (seen, rows, S skipped)
  else
    let key := edge_key (sp_kind spec) pair in
    if bool_decide (key ∈ seen) then acc
    else (app seen [key], app rows [row_of spec pair], skipped).

(** [rows.slice(i, i + SUPPORT_EDGE_CAP)] for [i = 0, 64, ...] *)
Fixpoint slices {A} (fuel : nat) (rows : list A) : list (list A) :=
  match fuel, rows with
  | S n, _ :: _ => take SUPPORT_EDGE_CAP rows :: slices n (drop SUPPORT_EDGE_CAP rows)
  | _, _ => []
  end.

Definition buildSupportEdgeBatches (spec : SupportEdgeSpec) : list (list SupportEdgeRow) * nat :=
  let '(_, rows, skipped) := fold_left (build_pair spec) (sp_pairs spec) ([], [], 0) in
  (slices (length rows) rows, skipped).

Definition buildSupportEdgeRows (spec : SupportEdgeSpec) : list SupportEdgeRow * nat :=
  let '(batches, skipped) := buildSupportEdgeBatches spec in
  (default [] (head batches), skipped).

(** ** Conflict verdicts *)

Record ConflictVerdict := {
  cv_outcome : jsval;
  cv_factId : jsval;
  cv_supersededFactIds : jsval;
  cv_competingFactIds : jsval
}.

Definition asArray (v : jsval) : list jsval := match v with VArr l => l | _ => [] end.

(** [v ? String(v) : undefined] *)
Definition js_truthy (v : jsval) : bool :=
  match v with
  | VUndef | VNull | VBool false => false
  | VNum x => negb (PrimFloat.eqb x 0) && PrimFloat.eqb x x
  | VStr s => negb (bool_decide (s = ""))
  | _ => true
  end.

Section conflicts.
Variable num_to_string : float → string.

Definition conflict_pairs (newFactId : string) (result : ConflictVerdict) : list (string * string) :=
  let outcome := if present (cv_outcome result)
                 then js_to_string num_to_string (cv_outcome result) else "" in
  if bool_decide (outcome = "SUPERSEDED")
  then map (λ raw, (js_to_string num_to_string raw, newFactId)) (asArray (cv_supersededFactIds result))
  else if bool_decide (outcome = "COMPETING")
  then flat_map (λ raw,
         let competitor := js_to_string num_to_string raw in
         if bool_decide (competitor = newFactId) then []
         else [(competitor, newFactId); (newFactId, competitor)])
         (asArray (cv_competingFactIds result))
  else [].

Definition conflict_spec (newFactId : string) (result : ConflictVerdict) : SupportEdgeSpec :=
  {| sp_kind := ContradictedBy; sp_writer := FactResolver; sp_writerVersion := None;
     sp_pairs := conflict_pairs newFactId result |}.

Definition buildConflictEdgeRows (result : ConflictVerdict) (cap : nat) : list SupportEdgeRow :=
  if js_truthy (cv_factId result)
  then take cap (buildSupportEdgeRows
         (conflict_spec (js_to_string num_to_string (cv_factId result)) result)).1
  else [].
End conflicts.

(** ** Lemmas *)

Lemma slices_concat {A} n (rows : list A) :
  length rows ≤ n →
  concat (slices n rows) = rows ∧
  Forall (λ b, 0 < length b ≤ SUPPORT_EDGE_CAP) (slices n rows).
Proof.
  revert rows. induction n as [|n IH]; intros rows Hn.
  { destruct rows; [by split|simpl in Hn; lia]. }
  destruct rows as [|x rows]; [by split|]. cbn [slices].
  destruct (IH (drop SUPPORT_EDGE_CAP (x :: rows))) as [H1 H2].
  { rewrite length_drop. unfold SUPPORT_EDGE_CAP. cbn [length] in *. lia. }
  split.
  - cbn [concat]. rewrite H1. apply take_drop.
  - constructor; [|done]. rewrite length_take. unfold SUPPORT_EDGE_CAP. cbn [length]. lia.
Qed.

Definition nul_free (s : string) : Prop := ∀ a b, s ≠ a +:+ NUL +:+ b.

Lemma nul_free_cons c s : nul_free (String c s) → c ≠ Ascii.ascii_of_nat 0 ∧ nul_free s.
Proof.
  intros H. split.
  - intros ->. by apply (H "" s).
  - intros a b ->. by apply (H (String c a) b).
Qed.

Lemma nul_cut a a' b b' :
  nul_free a → nul_free a' → a +:+ NUL +:+ b = a' +:+ NUL +:+ b' → a = a' ∧ b = b'.
Proof.
  revert a'. induction a as [|c a IH]; intros [|c' a'] Ha Ha' H.
  - injection H as H. by split.
  - destruct (nul_free_cons _ _ Ha') as [Hc _]. injection H as H _. congruence.
  - destruct (nul_free_cons _ _ Ha) as [Hc _]. injection H as H _. congruence.
  - destruct (nul_free_cons _ _ Ha) as [_ Ha1], (nul_free_cons _ _ Ha') as [_ Ha2].
    injection H as -> H. destruct (IH a' Ha1 Ha2 H) as [-> ->]. done.
Qed.

Lemma nul_free_check s :
  forallb (λ c, negb (bool_decide (c = Ascii.ascii_of_nat 0))) (String.list_ascii_of_string s) = true →
  nul_free s.
Proof.
  induction s as [|c s IH]; intros Hs a b Heq.
  - by destruct a.
  - simpl in Hs. apply andb_prop in Hs as [Hc Hs]. apply bool_decide_neg_true in Hc.
    destruct a as [|d a]; injection Heq as E1 E2; [congruence|]. by apply (IH Hs a b).
Qed.

Definition pair_ok (p : string * string) : Prop := nul_free p.1 ∧ nul_free p.2.

Lemma edge_key_inj kind p q :
  pair_ok p → pair_ok q → edge_key kind p = edge_key kind q → p = q.
Proof.
  destruct p as [a b], q as [c d]. intros [H1 H2] [H3 H4] H. unfold edge_key in H. simpl in *.
  apply nul_cut in H as [-> H]; [|done..]. by apply nul_cut in H as [-> _].
Qed.

Definition valid_pairs (spec : SupportEdgeSpec) : list (string * string) :=
  List.filter (λ p, assertEdgeShape (sp_kind spec) p.1 p.2) (sp_pairs spec).

(** The rows are the valid pairs, each once, in the order they first came. *)
Lemma build_fold spec pairs uniq :
  Forall pair_ok pairs → Forall pair_ok uniq →
  ∀ skipped,
  let valid := List.filter (λ p, assertEdgeShape (sp_kind spec) p.1 p.2) pairs in
  fold_left (build_pair spec) pairs
    (map (edge_key (sp_kind spec)) uniq, map (row_of spec) uniq, skipped) =
  (map (edge_key (sp_kind spec)) (add_all uniq valid), map (row_of spec) (add_all uniq valid),
   skipped + (length pairs - length valid)).
Proof.
  revert uniq. induction pairs as [|p pairs IH]; intros uniq Hp Hu skipped; cbn zeta.
  { simpl. by rewrite Nat.add_0_r. }
  apply Forall_cons in Hp as [Hp Hps]. specialize (IH).
  pose proof (filter_length_le_b (λ p, assertEdgeShape (sp_kind spec) p.1 p.2) pairs) as Hle.
  cbn [fold_left List.filter]. unfold build_pair at 2.
  destruct (assertEdgeShape (sp_kind spec) p.1 p.2) eqn:Ea; cbn [negb].
  - assert (Hin : edge_key (sp_kind spec) p ∈ map (edge_key (sp_kind spec)) uniq ↔ p ∈ uniq).
    { rewrite list_elem_of_fmap. split.
      - intros (q & Hq & Hin). apply edge_key_inj in Hq as ->; [done|done|].
        rewrite Forall_forall in Hu. by apply Hu.
      - intros Hin. by exists p. }
    change (add_all uniq (p :: List.filter (λ p, assertEdgeShape (sp_kind spec) p.1 p.2) pairs))
      with (add_all (add_new uniq p) (List.filter (λ p, assertEdgeShape (sp_kind spec) p.1 p.2) pairs)).
    unfold add_new.
    case_bool_decide as Hk.
    + rewrite bool_decide_eq_true_2 by (by apply Hin). rewrite (IH uniq Hps Hu). f_equal; simpl; lia.
    + rewrite bool_decide_eq_false_2 by (by rewrite <- Hin).
      change [edge_key (sp_kind spec) p] with (map (edge_key (sp_kind spec)) [p]).
      change [row_of spec p] with (map (row_of spec) [p]). rewrite <- !map_app.
      rewrite (IH (app uniq [p]) Hps); [f_equal; simpl; lia|].
      apply Forall_app. split; [done|]. by constructor.
  - rewrite (IH uniq Hps Hu). f_equal; simpl; lia.
Qed.

Lemma build_spec spec :
  Forall pair_ok (sp_pairs spec) →
  let rows := map (row_of spec) (add_all [] (valid_pairs spec)) in
  buildSupportEdgeBatches spec =
  (slices (length rows) rows, length (sp_pairs spec) - length (valid_pairs spec)).
Proof.
  intros Hp. unfold buildSupportEdgeBatches.
  pose proof (build_fold spec (sp_pairs spec) [] Hp (Forall_nil_2 _) 0) as H. simpl in H.
  fold (valid_pairs spec) in H. by rewrite H.
Qed.

(** The edge payloads are the valid pairs: in order of first appearance, each
    (in, out) once, invalid shapes counted and left out, cut into payloads of at most
    64 rows with none lost at a cut. *)
Theorem edge_batches_are_the_valid_pairs spec :
  Forall pair_ok (sp_pairs spec) →
  let '(batches, skipped) := buildSupportEdgeBatches spec in
  concat batches = map (row_of spec) (add_all [] (valid_pairs spec)) ∧
  Forall (λ b, 0 < length b ≤ SUPPORT_EDGE_CAP) batches ∧
  NoDup (map (λ r, (se_in r, se_out r)) (concat batches)) ∧
  (∀ r, r ∈ concat batches →
     (se_in r, se_out r) ∈ sp_pairs spec ∧ assertEdgeShape (se_kind r) (se_in r) (se_out r) = true) ∧
  skipped + length (valid_pairs spec) = length (sp_pairs spec).
Proof.
  intros Hp. rewrite (build_spec spec Hp).
  set (uniq := add_all [] (valid_pairs spec)).
  destruct (slices_concat (length (map (row_of spec) uniq)) (map (row_of spec) uniq) (le_n _))
    as [Hc Hs].
  rewrite Hc. split; [done|]. split; [done|]. split; [|split].
  - rewrite map_map. assert (E : map (λ x, (se_in (row_of spec x), se_out (row_of spec x))) uniq = uniq).
    { transitivity (map (λ x, x) uniq); [|apply map_id]. apply map_ext. by intros [a b]. }
    rewrite E. apply NoDup_add_all. constructor.
  - intros r (p & -> & Hin)%list_elem_of_fmap.
    apply elem_of_add_all in Hin as [Hin|Hin]; [by apply elem_of_nil in Hin|].
    apply elem_of_bfilter in Hin as [Hin Ha]. simpl. split; [by destruct p|done].
  - pose proof (filter_length_le_b (λ p, assertEdgeShape (sp_kind spec) p.1 p.2) (sp_pairs spec)).
    unfold valid_pairs in *. lia.
Qed.

Lemma edge_batches_are_the_valid_pairs_witness :
  let spec := {| sp_kind := SupportedBy; sp_writer := SceneBacklink; sp_writerVersion := None;
                 sp_pairs := [("knowledge_fact:a", "memory_episode:s"); ("knowledge_fact:a", "x:1");
                              ("knowledge_fact:a", "memory_episode:s")] |} in
  NoDup (map (λ r, (se_in r, se_out r)) (concat (buildSupportEdgeBatches spec).1)) ∧
  length (concat (buildSupportEdgeBatches spec).1) = 1 ∧ (buildSupportEdgeBatches spec).2 = 1.
Proof.
  intros spec. pose proof (edge_batches_are_the_valid_pairs spec) as H.
  split; [|split; vm_compute; reflexivity].
  destruct (buildSupportEdgeBatches spec) as [batches skipped]. apply H.
  repeat constructor; apply nul_free_check; vm_compute; reflexivity.
Defined.

(** *** Conflicts *)

Lemma head_slices {A} (rows : list A) :
  default [] (head (slices (length rows) rows)) = take SUPPORT_EDGE_CAP rows.
Proof. by destruct rows. Qed.

Section verdicts.
Variable num_to_string : float → string.

Definition conflict_uniq (new : string) (result : ConflictVerdict) : list (string * string) :=
  add_all [] (valid_pairs (conflict_spec num_to_string new result)).

Lemma conflict_rows result cap :
  js_truthy (cv_factId result) = true →
  let new := js_to_string num_to_string (cv_factId result) in
  Forall pair_ok (conflict_pairs num_to_string new result) →
  buildConflictEdgeRows num_to_string result cap =
  map (row_of (conflict_spec num_to_string new result))
    (take (min cap SUPPORT_EDGE_CAP) (conflict_uniq new result)).
Proof.
  intros Ht new Hp. unfold buildConflictEdgeRows, buildSupportEdgeRows. rewrite Ht. fold new.
  rewrite (build_spec (conflict_spec num_to_string new result) Hp). cbn [fst].
  rewrite head_slices, take_take. fold (conflict_uniq new result).
  apply firstn_map.
Qed.

Lemma contradiction_symmetric a b :
  assertEdgeShape ContradictedBy a b = assertEdgeShape ContradictedBy b a.
Proof.
  unfold assertEdgeShape.
  destruct (classifySupportTarget a), (classifySupportTarget b); reflexivity.
Qed.

Lemma elem_uniq new result p :
  p ∈ conflict_uniq new result ↔
  p ∈ conflict_pairs num_to_string new result ∧ assertEdgeShape ContradictedBy p.1 p.2 = true.
Proof.
  unfold conflict_uniq. rewrite elem_of_add_all, elem_of_nil. unfold valid_pairs.
  rewrite elem_of_bfilter. simpl. tauto.
Qed.
End verdicts.

(** The strings of a dynamic array. *)
Definition strings_of (num_to_string : float → string) (v : jsval) : list string :=
  map (js_to_string num_to_string) (asArray v).

(** A conflict leaves the edges its outcome means: both ends are claims of one
    kind; a supersession points from a displaced fact to the new one; competition pairs
    the new fact with a competitor, and, unless the cap cuts the list, in both
    directions; any other outcome leaves none. *)
Theorem conflict_edges_follow_the_outcome num_to_string result cap :
  js_truthy (cv_factId result) = true →
  let new := js_to_string num_to_string (cv_factId result) in
  let rows := buildConflictEdgeRows num_to_string result cap in
  Forall pair_ok (conflict_pairs num_to_string new result) →
  (∀ r, r ∈ rows → se_kind r = ContradictedBy ∧
     assertEdgeShape ContradictedBy (se_in r) (se_out r) = true ∧
     ((cv_outcome result = VStr "SUPERSEDED" → se_out r = new ∧
         se_in r ∈ strings_of num_to_string (cv_supersededFactIds result)) ∧
      (cv_outcome result = VStr "COMPETING" →
         ∃ c, c ≠ new ∧ c ∈ strings_of num_to_string (cv_competingFactIds result) ∧
              ((se_in r = c ∧ se_out r = new) ∨ (se_in r = new ∧ se_out r = c))))) ∧
  (cv_outcome result = VStr "COMPETING" →
     length (conflict_uniq num_to_string new result) ≤ min cap SUPPORT_EDGE_CAP →
     ∀ r, r ∈ rows → ∃ r', r' ∈ rows ∧ se_in r' = se_out r ∧ se_out r' = se_in r) ∧
  (cv_outcome result ∈ [VStr "INSERTED"; VStr "CONFIRMED"; VUndef; VNull] → rows = []).
Proof.
  intros Ht new rows Hp.
  assert (Hrows : rows = map (row_of (conflict_spec num_to_string new result))
    (take (min cap SUPPORT_EDGE_CAP) (conflict_uniq num_to_string new result)))
    by by apply conflict_rows.
  rewrite Hrows. split; [|split].
  - intros r (p & -> & Hin)%list_elem_of_fmap. apply elem_of_take in Hin as (i & Hi & _).
    apply list_elem_of_lookup_2, elem_uniq in Hi as [Hin Hs]. split; [done|]. split; [done|].
    unfold conflict_pairs in Hin. split; intros Ho; rewrite Ho in Hin; simpl in Hin.
    + apply list_elem_of_fmap in Hin as (raw & -> & Hin). split; [done|].
      by apply (list_elem_of_fmap_2 (js_to_string num_to_string)).
    + apply list_elem_of_In, in_flat_map in Hin as (raw & Hraw & Hin).
      case_bool_decide as Hc; [done|]. exists (js_to_string num_to_string raw).
      split; [done|].
      split; [apply (list_elem_of_fmap_2 (js_to_string num_to_string)); by apply list_elem_of_In|].
      destruct Hin as [<-|[<-|[]]]; auto.
  - intros Ho Hlen r (p & -> & Hin)%list_elem_of_fmap.
    rewrite take_ge in Hin |- * by done. apply elem_uniq in Hin as [Hin Hs].
    exists (row_of (conflict_spec num_to_string new result) (p.2, p.1)). split; [|done].
    apply (list_elem_of_fmap_2 (row_of (conflict_spec num_to_string new result))), elem_uniq.
    cbn [fst snd]. rewrite contradiction_symmetric.
    split; [|done]. unfold conflict_pairs in *. rewrite Ho in *. simpl in *.
    apply list_elem_of_In, in_flat_map in Hin as (raw & Hraw & Hin).
    apply list_elem_of_In, in_flat_map. exists raw. split; [done|].
    destruct (bool_decide (js_to_string num_to_string raw = new)); [by destruct Hin|].
    destruct Hin as [<-|[<-|[]]]; simpl; auto.
  - intros Ho. assert (E : conflict_pairs num_to_string new result = []).
    { unfold conflict_pairs. rewrite !elem_of_cons, elem_of_nil in Ho.
      destruct Ho as [->|[->|[->|[->|[]]]]]; reflexivity. }
    unfold conflict_uniq, valid_pairs. simpl. rewrite E. by destruct (min cap SUPPORT_EDGE_CAP).
Qed.

Lemma conflict_edges_follow_the_outcome_witness :
  let result := {| cv_outcome := VStr "COMPETING"; cv_factId := VStr "knowledge_fact:n";
                   cv_supersededFactIds := VUndef;
                   cv_competingFactIds := VArr [VStr "knowledge_fact:a"; VStr "knowledge_fact:n"] |} in
  length (buildConflictEdgeRows (λ _, "") result 64) = 2 ∧
  ∀ r, r ∈ buildConflictEdgeRows (λ _, "") result 64 →
    ∃ r', r' ∈ buildConflictEdgeRows (λ _, "") result 64 ∧ se_in r' = se_out r ∧ se_out r' = se_in r.
Proof.
  intros result. split; [vm_compute; reflexivity|].
  apply (conflict_edges_follow_the_outcome (λ _, "") result 64); [reflexivity| |reflexivity|].
  - vm_compute conflict_pairs. repeat constructor; apply nul_free_check; reflexivity.
  - vm_compute. lia.
Defined.
