(* ===== verification/BatchOutcome.v ===== *)
(** * Batch outcomes

    [common/batch-outcome.ts]: the terminal status of a batch from its units, of a batch
    of batches from its parts, and the retry selector a caller sends back. *)

From S2P Require Import Prelude Js.
From stdpp Require Import pretty.
Local Open Scope string_scope.
Local Open Scope nat_scope.

Inductive BatchStatus : Type := Complete | Degraded | Failed.

#[export] Instance BatchStatus_eq_dec : EqDecision BatchStatus.
Proof. solve_decision. Defined.

Record BatchFailure := { bf_key : string; bf_error : string }.

Record BatchOutcome := {
  bo_status : BatchStatus;
  bo_total : nat;
  bo_succeeded : nat;
  bo_failed : list BatchFailure;
  bo_degradedBy : list BatchFailure
}.

Definition ERROR_MAX : nat := 500.

(** [errorMessage] on the message text. *)
Definition errorMessage (raw : string) : string := str_take ERROR_MAX raw.

Definition foldBatchOutcome (total succeeded : nat) (failed degradedBy : list BatchFailure) :
    BatchOutcome :=
  {| bo_status :=
       if (0 <? length failed) && (succeeded =? 0) then Failed
       else if (0 <? length failed) || (0 <? length degradedBy) then Degraded
       else Complete;
     bo_total := total; bo_succeeded := succeeded; bo_failed := failed;
     bo_degradedBy := degradedBy |}.

Definition emptyBatchOutcome : BatchOutcome := foldBatchOutcome 0 0 [] [].

Definition failedBatchOutcome (error key : string) : BatchOutcome :=
  {| bo_status := Failed; bo_total := 0; bo_succeeded := 0;
     bo_failed := [{| bf_key := key; bf_error := error |}]; bo_degradedBy := [] |}.

Definition status_name (s : BatchStatus) : string :=
  match s with Complete => "complete" | Degraded => "degraded" | Failed => "failed" end.

Definition describeBatchOutcome (o : BatchOutcome) : string :=
  let hd := status_name (bo_status o) +:+ ": " +:+ pretty (bo_succeeded o) +:+ " of " +:+
            pretty (bo_total o) +:+ " unit(s) succeeded" in
  match match bo_failed o with f :: _ => Some f | [] => head (bo_degradedBy o) end with
  | None => hd
  | Some first =>
      let counts := pretty (length (bo_failed o)) +:+ " failed" +:+
        (if 0 <? length (bo_degradedBy o)
         then ", " +:+ pretty (length (bo_degradedBy o)) +:+ " degrading" else "") in
      hd +:+ " (" +:+ counts +:+ "); first: " +:+ bf_key first +:+ " — " +:+ bf_error first
  end.

Record BatchPart := { bp_key : string; bp_outcome : BatchOutcome }.

Definition part_failure (p : BatchPart) : BatchFailure :=
  {| bf_key := bp_key p; bf_error := describeBatchOutcome (bp_outcome p) |}.

(** The loop's three accumulators. *)
Definition fold_part (acc : list BatchFailure * list BatchFailure * nat) (p : BatchPart) :
    list BatchFailure * list BatchFailure * nat :=
  let '(failed, degradedBy, succeeded) := acc in
  match bo_status (bp_outcome p) with
  | Failed => (app failed [part_failure p], degradedBy, succeeded)
  | Degraded => (failed, app degradedBy [part_failure p], S succeeded)
  | Complete => (failed, degradedBy, S succeeded)
  end.

Definition foldNestedOutcomes (parts : list BatchPart) : BatchOutcome :=
  let '(failed, degradedBy, succeeded) := fold_left fold_part parts ([], [], 0) in
  foldBatchOutcome (length parts) succeeded failed degradedBy.

(** The [outcome] a job's result carries, as far as the guard looks at it: the status
    it names. *)
Definition batchOutcomeOf (result : jsval) : option (string * jsval) :=
  match result with
  | VObj fields =>
      match obj_get fields "outcome" with
      | VObj o =>
          match obj_get o "status", obj_get o "failed" with
          | VStr s, VArr l =>
              if bool_decide (s ∈ ["complete"; "degraded"; "failed"]) then Some (s, VObj o) else None
          | _, _ => None
          end
      | _ => None
      end
  | _ => None
  end.

Definition trimmed_key (k : jsval) : string := match k with VStr s => trim s | _ => "" end.

Section keys.
Variables maxKeys maxLength : nat.
Variable accept : option (string → bool).

Definition bad_key (k : string) : bool :=
  bool_decide (k = "") || (maxLength <? String.length k) ||
  match accept with Some f => negb (f k) | None => false end.

Definition parseBatchKeys (raw : jsval) : result http_exn (option (list string)) :=
  match raw with
  | VUndef => Ok None
  | VArr l =>
      if (length l =? 0) || (maxKeys <? length l)
      then Throw (BadRequest ("keys must be a non-empty array of at most " +:+ pretty maxKeys))
      else
        let keys := map trimmed_key l in
        if existsb bad_key keys then Throw (BadRequest "keys contains an invalid entry")
        else Ok (Some (add_all [] keys))
  | _ => Throw (BadRequest ("keys must be a non-empty array of at most " +:+ pretty maxKeys))
  end.
End keys.

(** ** The status means what it says *)

Definition has_status (s : BatchStatus) (p : BatchPart) : bool :=
  bool_decide (bo_status (bp_outcome p) = s).

Lemma fold_parts_spec parts failed degradedBy succeeded :
  fold_left fold_part parts (failed, degradedBy, succeeded) =
  (app failed (map part_failure (List.filter (has_status Failed) parts)),
   app degradedBy (map part_failure (List.filter (has_status Degraded) parts)),
   succeeded + (length parts - length (List.filter (has_status Failed) parts))).
Proof.
  revert failed degradedBy succeeded. induction parts as [|p parts IH]; intros f d s;
    cbn [fold_left List.filter length].
  { by rewrite !app_nil_r, Nat.add_0_r. }
  pose proof (filter_length_le_b (has_status Failed) parts) as Hle.
  destruct (bo_status (bp_outcome p)) eqn:E;
    (eassert (Hp : fold_part (f, d, s) p = _) by (unfold fold_part; rewrite E; reflexivity));
    rewrite Hp, IH;
    assert (HF : has_status Failed p = bool_decide (bo_status (bp_outcome p) = Failed)) by done;
    assert (HD : has_status Degraded p = bool_decide (bo_status (bp_outcome p) = Degraded)) by done;
    rewrite E in HF, HD; cbn in HF, HD; rewrite HF, HD; simpl; rewrite <- ?app_assoc; simpl;
    f_equal; lia.
Qed.

Lemma filter_status_all s parts :
  length (List.filter (has_status s) parts) = length parts ↔
  ∀ p, p ∈ parts → bo_status (bp_outcome p) = s.
Proof.
  induction parts as [|p parts IH]; simpl; [by split; [intros _ p ?%elem_of_nil|]|].
  pose proof (filter_length_le_b (has_status s) parts) as Hle.
  destruct (has_status s p) eqn:E; unfold has_status in E.
  - apply bool_decide_eq_true in E. simpl. split.
    + intros [= H] q [->|Hq]%elem_of_cons; [done|]. by apply IH.
    + intros H. f_equal. apply IH. intros q Hq. apply H. by right.
  - apply bool_decide_eq_false in E. split; [lia|]. intros H. destruct E. apply H. by left.
Qed.

Lemma filter_status_none s parts :
  length (List.filter (has_status s) parts) = 0 ↔
  ∀ p, p ∈ parts → bo_status (bp_outcome p) ≠ s.
Proof.
  induction parts as [|p parts IH]; simpl; [by split; [intros _ p ?%elem_of_nil|]|].
  destruct (has_status s p) eqn:E; unfold has_status in E.
  - apply bool_decide_eq_true in E. simpl. split; [done|]. intros H. destruct (H p); [by left|done].
  - apply bool_decide_eq_false in E. rewrite IH. split.
    + intros H q [->|Hq]%elem_of_cons; [done|by apply H].
    + intros H q Hq. apply H. by right.
Qed.

(** A batch of batches has the status its parts mean: it counts every part once,
    as failed or succeeded; it failed exactly when there are parts and all failed; it is
    complete exactly when every part is; and the keys a retry needs are exactly the
    failed parts', in order. *)
Theorem nested_status_is_the_parts parts :
  let o := foldNestedOutcomes parts in
  bo_total o = length parts ∧ bo_succeeded o + length (bo_failed o) = length parts ∧
  (bo_status o = Failed ↔ parts ≠ [] ∧ ∀ p, p ∈ parts → bo_status (bp_outcome p) = Failed) ∧
  (bo_status o = Complete ↔ ∀ p, p ∈ parts → bo_status (bp_outcome p) = Complete) ∧
  map bf_key (bo_failed o) = map bp_key (List.filter (has_status Failed) parts) ∧
  map bf_key (bo_degradedBy o) = map bp_key (List.filter (has_status Degraded) parts).
Proof.
  cbn zeta. unfold foldNestedOutcomes. rewrite fold_parts_spec. cbn [app].
  pose proof (filter_length_le_b (has_status Failed) parts) as Hle.
  unfold foldBatchOutcome. cbn [bo_total bo_succeeded bo_failed bo_degradedBy bo_status].
  rewrite !length_map, !map_map. split; [done|]. split; [lia|]. split; [|split; [|done]].
  - destruct ((0 <? length (List.filter (has_status Failed) parts)) &&
              (0 + (length parts - length (List.filter (has_status Failed) parts)) =? 0)) eqn:E.
    + split; [|done]. intros _. apply andb_prop in E as [E1 E2].
      apply Nat.ltb_lt in E1. apply Nat.eqb_eq in E2. split.
      * intros ->. simpl in E1. lia.
      * apply filter_status_all. lia.
    + split; [by destruct (_ || _)|]. intros [Hne Hall]. apply filter_status_all in Hall.
      apply andb_false_iff in E as [E|E].
      * apply Nat.ltb_ge in E. destruct parts; [done|simpl in *; lia].
      * apply Nat.eqb_neq in E. lia.
  - split.
    + intros H p Hp. destruct (bo_status (bp_outcome p)) eqn:E; [done| |]; exfalso.
      * destruct (decide (length (List.filter (has_status Degraded) parts) = 0)) as [H0|H0].
        { by apply (proj1 (filter_status_none _ _) H0 p). }
        assert (Hd : (0 <? length (List.filter (has_status Degraded) parts)) = true)
          by (apply Nat.ltb_lt; lia).
        rewrite Hd, orb_true_r in H. by destruct (_ && _).
      * destruct (decide (length (List.filter (has_status Failed) parts) = 0)) as [H0|H0].
        { by apply (proj1 (filter_status_none _ _) H0 p). }
        assert (Hd : (0 <? length (List.filter (has_status Failed) parts)) = true)
          by (apply Nat.ltb_lt; lia).
        rewrite Hd in H. simpl in H. by destruct (_ =? 0).
    + intros H. assert (H1 : length (List.filter (has_status Failed) parts) = 0).
      { apply filter_status_none. intros p Hp. by rewrite (H p Hp). }
      assert (H2 : length (List.filter (has_status Degraded) parts) = 0).
      { apply filter_status_none. intros p Hp. by rewrite (H p Hp). }
      by rewrite H1, H2.
Qed.

(** The retry selector: what is accepted is a non-empty list of distinct, trimmed,
    bounded, acceptable keys, exactly those the caller sent; one bad entry, an empty or
    an oversized list is refused; an absent selector is none. *)
Theorem retry_selector_is_clean maxKeys maxLength accept raw :
  match parseBatchKeys maxKeys maxLength accept raw with
  | Ok None => raw = VUndef
  | Ok (Some keys) =>
      ∃ l, raw = VArr l ∧ 0 < length keys ≤ maxKeys ∧ NoDup keys ∧
      (∀ k, k ∈ keys ↔ ∃ v, v ∈ l ∧ k = trimmed_key v) ∧
      ∀ k, k ∈ keys → k ≠ "" ∧ String.length k ≤ maxLength ∧
                     (∀ f, accept = Some f → f k = true)
  | Throw _ =>
      raw ≠ VUndef ∧
      ∀ l, raw = VArr l → l = [] ∨ maxKeys < length l ∨
        ∃ v, v ∈ l ∧ bad_key maxLength accept (trimmed_key v) = true
  end.
Proof.
  unfold parseBatchKeys. destruct raw as [| |b|x|s|l|fields|n]; try done.
  destruct ((length l =? 0) || (maxKeys <? length l)) eqn:E.
  { split; [done|]. intros l' [= <-]. apply orb_true_iff in E as [E|E].
    - left. apply Nat.eqb_eq in E. by apply nil_length_inv.
    - right. left. by apply Nat.ltb_lt. }
  apply orb_false_iff in E as [E1 E2]. apply Nat.eqb_neq in E1. apply Nat.ltb_ge in E2.
  destruct (existsb (bad_key maxLength accept) (map trimmed_key l)) eqn:Eb.
  { split; [done|]. intros l' [= <-]. right. right. apply existsb_exists in Eb as (k & Hk & Hb).
    apply in_map_iff in Hk as (v & <- & Hv). exists v. split; [by apply list_elem_of_In|done]. }
  assert (Hin : ∀ k, k ∈ add_all [] (map trimmed_key l) ↔ ∃ v, v ∈ l ∧ k = trimmed_key v).
  { intros k. rewrite elem_of_add_all, elem_of_nil, list_elem_of_fmap. naive_solver. }
  exists l. split; [done|]. split; [|split; [apply NoDup_add_all; constructor|split; [done|]]].
  - split.
    + destruct l as [|v l]; [done|]. assert (Hv : trimmed_key v ∈ add_all [] (map trimmed_key (v :: l))).
      { apply Hin. exists v. split; [by left|done]. }
      destruct (add_all _ _); [by apply elem_of_nil in Hv|simpl; lia].
    + etrans; [|exact E2]. rewrite <- (length_map trimmed_key l).
      apply (submseteq_length (add_all [] (map trimmed_key l))), NoDup_submseteq;
        [apply NoDup_add_all; constructor|].
      intros k. rewrite elem_of_add_all, elem_of_nil. tauto.
  - intros k Hk. apply Hin in Hk as (v & Hv & ->).
    assert (Hb : bad_key maxLength accept (trimmed_key v) = false).
    { apply not_true_iff_false. intros Hb. apply not_true_iff_false in Eb. apply Eb, existsb_exists.
      exists (trimmed_key v). split; [|done]. apply in_map_iff. exists v.
      split; [done|by apply list_elem_of_In]. }
    unfold bad_key in Hb. apply orb_false_iff in Hb as [Hb Hf]. apply orb_false_iff in Hb as [Hb Hl].
    apply bool_decide_eq_false in Hb. apply Nat.ltb_ge in Hl. split; [done|]. split; [done|].
    intros f ->. by apply negb_false_iff in Hf.
Qed.
