(* ===== verification/ProvenanceClosure.v ===== *)
(** * The provenance walk

    [facts/provenance-closure.ts] and its caller in [facts/facts.service.ts]
    ([factVisible], [provenanceWithClosure]): breadth first over what a fact was derived
    from, through the facts the caller may see, within the budgets on depth, facts and
    episodes. The two batched reads of a depth and [String] of a stored id are
    parameters; what the reads select is stated in [reads_ok]. *)

From S2P Require Import Prelude Js ScopeTags SupportEdges.
From stdpp Require Import gmap.
From Stdlib Require Import Ascii.
Local Open Scope string_scope.
Local Open Scope nat_scope.

(** ** Rows *)

Record ClosureFactRow := {
  cf_id : jsval;
  cf_predicate : jsval;
  cf_status : jsval;
  cf_userId : jsval;
  cf_scope : jsval;
  cf_source : jsval;
  cf_derivedFrom : jsval
}.

Record ClosureEdgeRow := { ce_in : jsval; ce_out : jsval; ce_kind : jsval }.

Record ProvenanceSpan := { sp_start : float; sp_end : float; sp_exact : string }.

(** A crossed support edge: kind, from, to. *)
Record ProvenanceClosureEdge := { pe_kind : string; pe_from : string; pe_to : string }.

Record ProvenanceClosureCaps := { cap_maxDepth : nat; cap_maxFacts : nat; cap_maxEpisodes : nat }.

Record Truncated := { tr_depth : bool; tr_fanout : bool; tr_episodes : bool }.

Record WalkState := {
  ws_visited : list string;
  ws_episodes : list (string * string);
  ws_spans : list (string * ProvenanceSpan);
  ws_truncated : Truncated;
  ws_admitted : nat;
  ws_edges : list ProvenanceClosureEdge;
  ws_edgeKeys : list string
}.

Record ProvenanceClosureResult := {
  pr_closureFacts : list (ClosureFactRow * nat);
  pr_episodes : list (string * string);
  pr_spans : list (string * ProvenanceSpan);
  pr_truncated : Truncated;
  pr_filtered : bool;
  pr_edges : list ProvenanceClosureEdge
}.

(** ** Grounding stamps *)

(** [v?.key] *)
Definition member (v : jsval) (key : string) : jsval :=
  match v with VObj fields => obj_get fields key | _ => VUndef end.

Definition index_span (byEpisode : list (string * ProvenanceSpan)) (raw : jsval) :
    list (string * ProvenanceSpan) :=
  match member raw "episodeId", member raw "start", member raw "end", member raw "exact" with
  | VStr e, VNum a, VNum b, VStr x =>
      if OMap.has e byEpisode then byEpisode
      else OMap.set e {| sp_start := a; sp_end := b; sp_exact := x |} byEpisode
  | _, _, _, _ => byEpisode
  end.

Definition indexCharSpans (charSpans : jsval) : list (string * ProvenanceSpan) :=
  match charSpans with
  | VArr raws => fold_left index_span raws []
  | _ => []
  end.

Definition owner_of (fact : ClosureFactRow) : string :=
  match cf_userId fact with VStr u => u | _ => "" end.

Section walk.
Variable String_ : jsval → string.

Definition with_episodes (eps : list (string * string)) (cut : bool) (s : WalkState) : WalkState :=
  {| ws_visited := ws_visited s; ws_episodes := eps; ws_spans := ws_spans s;
     ws_truncated := {| tr_depth := tr_depth (ws_truncated s); tr_fanout := tr_fanout (ws_truncated s);
                        tr_episodes := tr_episodes (ws_truncated s) || cut |};
     ws_admitted := ws_admitted s; ws_edges := ws_edges s; ws_edgeKeys := ws_edgeKeys s |}.

Definition harvest_episode (caps : ProvenanceClosureCaps) (owner : string) (s : WalkState) (raw : jsval) :
    WalkState :=
  let id := String_ raw in
  if negb (starts_with "episode:" id) || OMap.has id (ws_episodes s) then s
  else if cap_maxEpisodes caps <=? length (ws_episodes s) then with_episodes (ws_episodes s) true s
  else with_episodes (OMap.set id owner (ws_episodes s)) false s.

Definition harvest_span (s : WalkState) (kv : string * ProvenanceSpan) : WalkState :=
  if OMap.has kv.1 (ws_spans s) then s
  else {| ws_visited := ws_visited s; ws_episodes := ws_episodes s;
          ws_spans := OMap.set kv.1 kv.2 (ws_spans s); ws_truncated := ws_truncated s;
          ws_admitted := ws_admitted s; ws_edges := ws_edges s; ws_edgeKeys := ws_edgeKeys s |}.

Definition harvestGrounding (caps : ProvenanceClosureCaps) (s : WalkState) (fact : ClosureFactRow) : WalkState :=
  let s1 := match member (cf_source fact) "episodeIds" with
            | VArr raws => fold_left (harvest_episode caps (owner_of fact)) raws s
            | _ => s
            end in
  fold_left harvest_span (indexCharSpans (member (cf_source fact) "charSpans")) s1.

(** ** The next generation *)

(** Marks the cut-off of the fact budget. *)
Definition fanout_cut (s : WalkState) : WalkState :=
  {| ws_visited := ws_visited s; ws_episodes := ws_episodes s; ws_spans := ws_spans s;
     ws_truncated := {| tr_depth := tr_depth (ws_truncated s); tr_fanout := true;
                        tr_episodes := tr_episodes (ws_truncated s) |};
     ws_admitted := ws_admitted s; ws_edges := ws_edges s; ws_edgeKeys := ws_edgeKeys s |}.

(** One id towards the children: the loop body [collectChildren] and [admitEdgeChildren]
    share. *)
Definition admit_child (caps : ProvenanceClosureCaps) (acc : list string * WalkState) (id : string) :
    list string * WalkState :=
  let '(children, s) := acc in
  if bool_decide (id ∈ ws_visited s) then (children, s)
  else if cap_maxFacts caps <=? ws_admitted s then (children, fanout_cut s)
  else (app children [id],
        {| ws_visited := app (ws_visited s) [id]; ws_episodes := ws_episodes s; ws_spans := ws_spans s;
           ws_truncated := ws_truncated s; ws_admitted := S (ws_admitted s);
           ws_edges := ws_edges s; ws_edgeKeys := ws_edgeKeys s |}).

Definition derived_ids (fact : ClosureFactRow) : list string :=
  match cf_derivedFrom fact with VArr raws => map String_ raws | _ => [] end.

Definition collectChildren (frontier : list ClosureFactRow) (caps : ProvenanceClosureCaps) (s : WalkState) :
    list string * WalkState :=
  fold_left (λ acc fact, fold_left (admit_child caps) (derived_ids fact) acc) frontier ([], s).

Definition admitEdgeChildren (targets : list string) (caps : ProvenanceClosureCaps) (s : WalkState) :
    list string * WalkState :=
  fold_left (admit_child caps) targets ([], s).

Definition walk_edge_key (e : ProvenanceClosureEdge) : string :=
  pe_kind e +:+ " " +:+ pe_from e +:+ " " +:+ pe_to e.

Definition edge_of (row : ClosureEdgeRow) : ProvenanceClosureEdge :=
  {| pe_kind := String_ (ce_kind row); pe_from := String_ (ce_in row); pe_to := String_ (ce_out row) |}.

(** The target of an edge that is walked. *)
Definition fact_target (e : ProvenanceClosureEdge) : bool :=
  bool_decide (pe_kind e = "derived_from") && bool_decide (classifySupportTarget (pe_to e) = CFact).

Definition collect_edge (caps : ProvenanceClosureCaps) (acc : list string * WalkState) (row : ClosureEdgeRow) :
    list string * WalkState :=
  let '(factTargets, s) := acc in
  let e := edge_of row in
  if negb (isEmittedEdgeKind (pe_kind e)) then (factTargets, s)
  else if bool_decide (walk_edge_key e ∈ ws_edgeKeys s) then (factTargets, s)
  else if cap_maxFacts caps <=? length (ws_edges s) then (factTargets, fanout_cut s)
  else (if fact_target e then app factTargets [pe_to e] else factTargets,
        {| ws_visited := ws_visited s; ws_episodes := ws_episodes s; ws_spans := ws_spans s;
           ws_truncated := ws_truncated s; ws_admitted := ws_admitted s;
           ws_edges := app (ws_edges s) [e]; ws_edgeKeys := app (ws_edgeKeys s) [walk_edge_key e] |}).

Definition collectEdges (rows : list ClosureEdgeRow) (caps : ProvenanceClosureCaps) (s : WalkState) :
    list string * WalkState :=
  fold_left (collect_edge caps) rows ([], s).

(** ** The walk *)

Definition row_id (r : ClosureFactRow) : string := String_ (cf_id r).

Section reads.
Variable caps : ProvenanceClosureCaps.
Variable visible : ClosureFactRow → bool.
Variable fetchByIds : list string → list ClosureFactRow.
Variable fetchEdges : option (list string → list ClosureEdgeRow).

(** Steps 1, 1b and 2 of a round: the ids of the next generation. *)
Definition expand (frontier : list ClosureFactRow) (s : WalkState) : list string * WalkState :=
  let s1 := fold_left (harvestGrounding caps) frontier s in
  let '(edgeTargets, s2) :=
    match fetchEdges with
    | Some fetch => collectEdges (fetch (map row_id frontier)) caps s1
    | None => ([], s1)
    end in
  let '(children1, s3) := collectChildren frontier caps s2 in
  let '(children2, s4) := admitEdgeChildren edgeTargets caps s3 in
  (app children1 children2, s4).

Definition finish (s : WalkState) (facts : list (ClosureFactRow * nat)) (filtered : bool) :
    ProvenanceClosureResult :=
  {| pr_closureFacts := facts; pr_episodes := ws_episodes s; pr_spans := ws_spans s;
     pr_truncated := ws_truncated s; pr_filtered := filtered; pr_edges := ws_edges s |}.

Definition depth_cut (s : WalkState) : WalkState :=
  {| ws_visited := ws_visited s; ws_episodes := ws_episodes s; ws_spans := ws_spans s;
     ws_truncated := {| tr_depth := true; tr_fanout := tr_fanout (ws_truncated s);
                        tr_episodes := tr_episodes (ws_truncated s) |};
     ws_admitted := ws_admitted s; ws_edges := ws_edges s; ws_edgeKeys := ws_edgeKeys s |}.

(** The [while] loop, one round per unit of fuel. *)
Fixpoint walk_loop (fuel : nat) (frontier : list ClosureFactRow) (depth : nat) (s : WalkState)
    (facts : list (ClosureFactRow * nat)) (filtered : bool) : option ProvenanceClosureResult :=
  match frontier with
  | [] => Some (finish s facts filtered)
  | _ :: _ =>
      match fuel with
      | O => None
      | S fuel' =>
          let '(children, s') := expand frontier s in
          if length children =? 0 then Some (finish s' facts filtered)
          else if cap_maxDepth caps <=? depth then Some (finish (depth_cut s') facts filtered)
          else
            let rows := fetchByIds children in
            let visibleRows := List.filter visible rows in
            walk_loop fuel' visibleRows (S depth) s'
              (app facts (map (λ r, (r, S depth)) visibleRows))
              (if length visibleRows <? length rows then true else filtered)
      end
  end.

Definition walk_start (root : ClosureFactRow) : WalkState :=
  {| ws_visited := [row_id root]; ws_episodes := []; ws_spans := [];
     ws_truncated := {| tr_depth := false; tr_fanout := false; tr_episodes := false |};
     ws_admitted := 0; ws_edges := []; ws_edgeKeys := [] |}.

Definition walkProvenanceClosure (fuel : nat) (root : ClosureFactRow) : option ProvenanceClosureResult :=
  walk_loop fuel [root] 0 (walk_start root) [] false.
End reads.

(** ** The zoom edges of the crossed scenes *)

Definition collectSceneTargets (edges : list ProvenanceClosureEdge) : list string :=
  add_all [] (map pe_to (List.filter
    (λ e, bool_decide (pe_kind e = "supported_by") && bool_decide (classifySupportTarget (pe_to e) = CScene)) edges)).

Fixpoint normalize_rows (cap : nat) (seen : list string) (out : list ProvenanceClosureEdge)
    (rows : list ClosureEdgeRow) : list ProvenanceClosureEdge :=
  match rows with
  | [] => out
  | row :: rows' =>
      let e := edge_of row in
      let target := classifySupportTarget (pe_to e) in
      let key := pe_from e +:+ " " +:+ pe_to e in
      if negb (bool_decide (pe_kind e = "reconstructed_from")) then normalize_rows cap seen out rows'
      else if negb (bool_decide (classifySupportTarget (pe_from e) = CScene)) then normalize_rows cap seen out rows'
      else if negb (bool_decide (target = CFragment)) && negb (bool_decide (target = CAsset))
        then normalize_rows cap seen out rows'
      else if bool_decide (key ∈ seen) then normalize_rows cap seen out rows'
      else if cap <=? length out then out
      else normalize_rows cap (app seen [key]) (app out [e]) rows'
  end.

Definition normalizeReconstructedEdges (rows : list ClosureEdgeRow) (cap : nat) : list ProvenanceClosureEdge :=
  normalize_rows cap [] [] rows.
End walk.

(** ** Which facts support a fact *)

Section support.
Variable String_ : jsval → string.
Local Abbreviation row_id := (row_id String_).
Local Abbreviation edge_of := (edge_of String_).

(** The two tables the reads select from, which of the reads is switched on, and what
    the caller may see. *)
Variable table : list ClosureFactRow.
Variable edges : list ClosureEdgeRow.
Variable caps : ProvenanceClosureCaps.
Variable visible : ClosureFactRow → bool.
Variable fetchByIds : list string → list ClosureFactRow.
Variable fetchEdges : option (list string → list ClosureEdgeRow).
Variable root : ClosureFactRow.

Record reads_ok : Prop := {
  (* record ids are unique *)
  ro_unique : NoDup (map row_id table);
  ro_root : root ∈ table;
  (* [WHERE id INSIDE $ids] *)
  ro_rows : ∀ ids r, r ∈ fetchByIds ids ↔ r ∈ table ∧ row_id r ∈ ids;
  ro_once : ∀ ids, NoDup (fetchByIds ids);
  (* [WHERE in INSIDE $ids] *)
  ro_edges : ∀ fetch ids e, fetchEdges = Some fetch → e ∈ fetch ids ↔ e ∈ edges ∧ pe_from (edge_of e) ∈ ids;
  (* a record id has no blank in it *)
  ro_ids : ∀ e, e ∈ edges → has_char " "%char (pe_from (edge_of e)) = false
}.

(** [f] names the id: in its [derivedFrom], or, when the support graph is read, by a
    [derived_from] edge to a fact. *)
Definition cites (f : ClosureFactRow) (id : string) : Prop :=
  id ∈ derived_ids String_ f ∨
  fetchEdges ≠ None ∧ ∃ e, e ∈ edges ∧ pe_from (edge_of e) = row_id f ∧ fact_target (edge_of e) = true ∧
    pe_to (edge_of e) = id.

(** [supports n r]: a chain of [n] citations leads from the root to [r] through facts
    the caller may see. *)
Inductive supports : nat → ClosureFactRow → Prop :=
| sup_root : supports 0 root
| sup_step n f r : supports n f → cites f (row_id r) → r ∈ table → visible r = true → supports (S n) r.

(** *** Admission *)

Record admits (ids new : list string) (s s' : WalkState) : Prop := {
  ad_visited : ws_visited s' = app (ws_visited s) new;
  ad_new : ∀ id, id ∈ new → id ∈ ids ∧ id ∉ ws_visited s;
  ad_nodup : NoDup new;
  ad_count : ws_admitted s' = ws_admitted s + length new;
  ad_budget : ws_admitted s ≤ cap_maxFacts caps → ws_admitted s' ≤ cap_maxFacts caps;
  ad_all : tr_fanout (ws_truncated s') = false →
    tr_fanout (ws_truncated s) = false ∧ ∀ id, id ∈ ids → id ∈ ws_visited s';
  ad_rest : (ws_episodes s', ws_spans s', ws_edges s', ws_edgeKeys s', tr_depth (ws_truncated s'),
              tr_episodes (ws_truncated s')) =
            (ws_episodes s, ws_spans s, ws_edges s, ws_edgeKeys s, tr_depth (ws_truncated s),
              tr_episodes (ws_truncated s))
}.

Lemma admits_nil s : admits [] [] s s.
Proof.
  split; auto with lia; rewrite ?app_nil_r; auto; try constructor.
  - by apply elem_of_nil in H.
  - by apply elem_of_nil in H.
  - done.
  - intros id Hid. by apply elem_of_nil in Hid.
Qed.

Lemma admits_app ids1 ids2 new1 new2 s s1 s2 :
  admits ids1 new1 s s1 → admits ids2 new2 s1 s2 → admits (app ids1 ids2) (app new1 new2) s s2.
Proof.
  intros [V1 N1 D1 C1 B1 A1 R1] [V2 N2 D2 C2 B2 A2 R2]. split.
  - by rewrite V2, V1, (assoc_L app).
  - intros id [Hin|Hin]%elem_of_app; [by destruct (N1 id Hin); set_solver|].
    destruct (N2 id Hin) as [H1 H2]. rewrite V1 in H2. set_solver.
  - apply NoDup_app. split_and!; [done| |done]. intros id H1 H2. destruct (N2 id H2) as [_ H].
    apply H. rewrite V1. set_solver.
  - rewrite length_app. lia.
  - auto.
  - intros Hf. destruct (A2 Hf) as [Hf1 H2]. destruct (A1 Hf1) as [Hf0 H1]. split; [done|].
    intros id [Hin|Hin]%elem_of_app; [|auto]. rewrite V2. apply elem_of_app. left. auto.
  - congruence.
Qed.

Lemma admit_admits ch s id :
  ∃ new s', admit_child caps (ch, s) id = (app ch new, s') ∧ admits [id] new s s'.
Proof.
  unfold admit_child. case_bool_decide as Hv; [|destruct (cap_maxFacts caps <=? ws_admitted s) eqn:Hb].
  - exists [], s. rewrite app_nil_r. split; [done|]. split; rewrite ?app_nil_r; try done.
    + by intros ? ?%elem_of_nil.
    + constructor.
    + intros ->. split; [done|]. by intros ? ->%list_elem_of_singleton.
  - exists [], (fanout_cut s). rewrite app_nil_r. split; [done|]. split; cbn; rewrite ?app_nil_r; try done.
    + by intros ? ?%elem_of_nil.
    + constructor.
  - apply Nat.leb_gt in Hb. eexists [id], _. split; [done|]. split; cbn; try done.
    + intros ? ->%list_elem_of_singleton. split; [by left|done].
    + apply NoDup_singleton.
    + lia.
    + intros ->. split; [done|]. intros ? ->%list_elem_of_singleton. set_solver.
Qed.

Lemma admit_all_admits ids ch s :
  ∃ new s', fold_left (admit_child caps) ids (ch, s) = (app ch new, s') ∧ admits ids new s s'.
Proof.
  revert ch s. induction ids as [|id ids IH]; intros ch s.
  - exists [], s. rewrite app_nil_r. split; [done|]. apply admits_nil.
  - destruct (admit_admits ch s id) as (new1 & s1 & E1 & H1).
    destruct (IH (app ch new1) s1) as (new2 & s2 & E2 & H2).
    exists (app new1 new2), s2. cbn [fold_left]. rewrite E1, E2, (assoc_L app). split; [done|].
    by apply (admits_app [id] ids new1 new2 s s1 s2).
Qed.

Definition all_derived (frontier : list ClosureFactRow) : list string :=
  concat (map (derived_ids String_) frontier).

Lemma elem_of_all_derived frontier id :
  id ∈ all_derived frontier ↔ ∃ f, f ∈ frontier ∧ id ∈ derived_ids String_ f.
Proof.
  unfold all_derived. induction frontier as [|f l IH]; cbn; [set_solver|]. rewrite elem_of_app, IH. set_solver.
Qed.

Lemma collectChildren_admits frontier s :
  ∃ new s', collectChildren String_ frontier caps s = (new, s') ∧ admits (all_derived frontier) new s s'.
Proof.
  unfold collectChildren. assert (H : ∀ l ch s, ∃ new s',
    fold_left (λ acc fact, fold_left (admit_child caps) (derived_ids String_ fact) acc) l (ch, s) = (app ch new, s') ∧
    admits (all_derived l) new s s').
  { induction l as [|f l IH]; intros ch s0; cbn.
    - exists [], s0. rewrite app_nil_r. split; [done|apply admits_nil].
    - destruct (admit_all_admits (derived_ids String_ f) ch s0) as (new1 & s1 & -> & H1).
      destruct (IH (app ch new1) s1) as (new2 & s2 & -> & H2). exists (app new1 new2), s2.
      rewrite (assoc_L app). split; [done|]. by apply (admits_app _ _ new1 new2 s0 s1 s2). }
  apply (H frontier [] s).
Qed.

(** *** Edges and stamps *)

Definition same_walk (s s' : WalkState) : Prop :=
  ws_visited s' = ws_visited s ∧ ws_admitted s' = ws_admitted s ∧ ws_edges s' = ws_edges s ∧
  ws_edgeKeys s' = ws_edgeKeys s ∧ tr_depth (ws_truncated s') = tr_depth (ws_truncated s) ∧
  tr_fanout (ws_truncated s') = tr_fanout (ws_truncated s).

Lemma same_walk_fold {A} (g : WalkState → A → WalkState) l s :
  (∀ s x, same_walk s (g s x)) → same_walk s (fold_left g l s).
Proof.
  intros Hg. revert s. induction l as [|x l IH]; intros s; [done|]. cbn.
  specialize (IH (g s x)). specialize (Hg s x). unfold same_walk in *. intuition congruence.
Qed.

Lemma harvest_same_walk s fact : same_walk s (harvestGrounding String_ caps s fact).
Proof.
  unfold harvestGrounding.
  assert (H1 : ∀ s kv, same_walk s (harvest_span s kv)) by (intros; unfold harvest_span; by case_match).
  assert (H2 : ∀ o s raw, same_walk s (harvest_episode String_ caps o s raw))
    by (intros; unfold harvest_episode; repeat case_match; done).
  set (s1 := match _ with VArr raws => _ | _ => _ end).
  assert (same_walk s s1) by (subst s1; case_match; try done; by apply same_walk_fold).
  pose proof (same_walk_fold harvest_span (indexCharSpans (member (cf_source fact) "charSpans")) s1 (λ _ _, H1 _ _)).
  unfold same_walk in *. intuition congruence.
Qed.

Record crosses (rows : list ClosureEdgeRow) (new : list ProvenanceClosureEdge) (s s' : WalkState) : Prop := {
  cr_edges : ws_edges s' = app (ws_edges s) new;
  cr_keys : ws_edgeKeys s' = app (ws_edgeKeys s) (map walk_edge_key new);
  cr_new : ∀ e, e ∈ new → ∃ row, row ∈ rows ∧ e = edge_of row ∧ isEmittedEdgeKind (pe_kind e) = true;
  cr_budget : length (ws_edges s) ≤ cap_maxFacts caps → length (ws_edges s') ≤ cap_maxFacts caps;
  cr_all : tr_fanout (ws_truncated s') = false →
    tr_fanout (ws_truncated s) = false ∧
    ∀ row, row ∈ rows → isEmittedEdgeKind (pe_kind (edge_of row)) = true →
      walk_edge_key (edge_of row) ∈ ws_edgeKeys s';
  cr_rest : (ws_visited s', ws_admitted s', ws_episodes s', ws_spans s', tr_depth (ws_truncated s'),
              tr_episodes (ws_truncated s')) =
            (ws_visited s, ws_admitted s, ws_episodes s, ws_spans s, tr_depth (ws_truncated s),
              tr_episodes (ws_truncated s))
}.

Lemma crosses_nil s : crosses [] [] s s.
Proof.
  split; rewrite ?app_nil_r; try done.
  - by intros ? ?%elem_of_nil.
  - intros ->. split; [done|]. by intros ? ?%elem_of_nil.
Qed.

Lemma crosses_app rows1 rows2 new1 new2 s s1 s2 :
  crosses rows1 new1 s s1 → crosses rows2 new2 s1 s2 → crosses (app rows1 rows2) (app new1 new2) s s2.
Proof.
  intros [E1 K1 N1 B1 A1 R1] [E2 K2 N2 B2 A2 R2]. split.
  - by rewrite E2, E1, (assoc_L app).
  - by rewrite K2, K1, map_app, (assoc_L app).
  - intros e [He|He]%elem_of_app; [destruct (N1 e He) as (r & Hr & ?)|destruct (N2 e He) as (r & Hr & ?)];
      exists r; set_solver.
  - auto.
  - intros Hf. destruct (A2 Hf) as [Hf1 H2]. destruct (A1 Hf1) as [Hf0 H1]. split; [done|].
    intros row [Hin|Hin]%elem_of_app Hk; [|auto]. rewrite K2. apply elem_of_app. left. auto.
  - congruence.
Qed.

Lemma collect_edge_crosses ts s row :
  ∃ new s', collect_edge String_ caps (ts, s) row = (app ts (map pe_to (List.filter fact_target new)), s') ∧
    crosses [row] new s s'.
Proof.
  unfold collect_edge. destruct (isEmittedEdgeKind _) eqn:Hk; cbn [negb].
  2: { exists [], s. cbn. rewrite app_nil_r. split; [done|]. split; rewrite ?app_nil_r; try done.
       - by intros ? ?%elem_of_nil.
       - intros ->. split; [done|]. intros ? ->%list_elem_of_singleton. congruence. }
  case_bool_decide as Hin; [|destruct (cap_maxFacts caps <=? length (ws_edges s)) eqn:Hb].
  - exists [], s. cbn. rewrite app_nil_r. split; [done|]. split; rewrite ?app_nil_r; try done.
    + by intros ? ?%elem_of_nil.
    + intros ->. split; [done|]. by intros ? ->%list_elem_of_singleton.
  - exists [], (fanout_cut s). cbn. rewrite app_nil_r. split; [done|]. split; cbn; rewrite ?app_nil_r; try done.
    by intros ? ?%elem_of_nil.
  - apply Nat.leb_gt in Hb. exists [edge_of row]. eexists. split.
    + cbn [List.filter]. destruct (fact_target (edge_of row)); cbn; rewrite ?app_nil_r; done.
    + split; cbn; try done.
      * intros e ->%list_elem_of_singleton. exists row. split; [by left|done].
      * intros _. rewrite length_app. cbn. lia.
      * intros ->. split; [done|]. intros ? ->%list_elem_of_singleton _. set_solver.
Qed.

Lemma collectEdges_crosses rows s :
  ∃ new s', collectEdges String_ rows caps s = (map pe_to (List.filter fact_target new), s') ∧ crosses rows new s s'.
Proof.
  unfold collectEdges. assert (H : ∀ l ts s, ∃ new s',
    fold_left (collect_edge String_ caps) l (ts, s) = (app ts (map pe_to (List.filter fact_target new)), s') ∧
    crosses l new s s').
  { induction l as [|row l IH]; intros ts s0; cbn [fold_left].
    - exists [], s0. cbn. rewrite app_nil_r. split; [done|apply crosses_nil].
    - destruct (collect_edge_crosses ts s0 row) as (new1 & s1 & -> & H1).
      destruct (IH (app ts (map pe_to (List.filter fact_target new1))) s1) as (new2 & s2 & -> & H2).
      exists (app new1 new2), s2. rewrite List.filter_app, map_app, (assoc_L app). split; [done|].
      by apply (crosses_app [row] l new1 new2 s0 s1 s2). }
  apply (H rows [] s).
Qed.

(** *** One round *)

(** The rows the round's edge read gives. *)
Definition round_edges (frontier : list ClosureFactRow) : list ClosureEdgeRow :=
  match fetchEdges with Some fetch => fetch (map row_id frontier) | None => [] end.

Lemma expand_expands frontier s :
  ∃ children s' new mid, expand String_ caps fetchEdges frontier s = (children, s') ∧
    crosses (round_edges frontier) new (fold_left (harvestGrounding String_ caps) frontier s) mid ∧
    admits (app (all_derived frontier) (map pe_to (List.filter fact_target new))) children mid s'.
Proof.
  unfold expand, round_edges. set (s1 := fold_left _ frontier s).
  assert (Hc : ∃ new mid, match fetchEdges with
    | Some fetch => collectEdges String_ (fetch (map row_id frontier)) caps s1 | None => ([], s1) end =
    (map pe_to (List.filter fact_target new), mid) ∧
    crosses match fetchEdges with Some fetch => fetch (map row_id frontier) | None => [] end new s1 mid).
  { destruct fetchEdges as [fetch|]; [apply collectEdges_crosses|]. exists [], s1. split; [done|apply crosses_nil]. }
  destruct Hc as (new & mid & -> & Hc).
  destruct (collectChildren_admits frontier mid) as (ch1 & s3 & -> & H1).
  destruct (admit_all_admits (map pe_to (List.filter fact_target new)) [] s3) as (ch2 & s4 & E2 & H2).
  unfold admitEdgeChildren. rewrite E2. exists (app ch1 ch2), s4, new, mid. split; [done|]. split; [done|].
  by eapply admits_app.
Qed.

(** *** The walk finds the support *)

Definition reached (facts : list (ClosureFactRow * nat)) : list (ClosureFactRow * nat) := (root, 0) :: facts.

(** Every row of the id the caller may see was served by then. *)
Definition served_by (n : nat) (facts : list (ClosureFactRow * nat)) (id : string) : Prop :=
  id = row_id root ∨
  ∀ r, r ∈ table → row_id r = id → visible r = true → ∃ d, d ≤ n ∧ (r, d) ∈ facts.

Record walking (frontier : list ClosureFactRow) (n : nat) (s : WalkState)
    (facts : list (ClosureFactRow * nat)) : Prop := {
  wk_depth : n ≤ cap_maxDepth caps;
  wk_facts : ∀ r d, (r, d) ∈ facts → supports d r ∧ 1 ≤ d ≤ n ∧ row_id r ≠ row_id root;
  wk_frontier : ∀ r, r ∈ frontier → supports n r;
  wk_root : row_id root ∈ ws_visited s;
  wk_visited : ∀ id, id ∈ ws_visited s → served_by n facts id;
  wk_open : ∀ p k, (p, k) ∈ reached facts → k < n ∨ p ∈ frontier;
  wk_closed : tr_fanout (ws_truncated s) = false → ∀ p k id, (p, k) ∈ reached facts → k < n → cites p id →
    served_by (S k) facts id;
  wk_keys : ws_edgeKeys s = map walk_edge_key (ws_edges s);
  wk_edges : ∀ e, e ∈ ws_edges s → ∃ row, row ∈ edges ∧ e = edge_of row ∧ isEmittedEdgeKind (pe_kind e) = true;
  wk_targets : tr_fanout (ws_truncated s) = false → ∀ e, e ∈ ws_edges s → fact_target e = true →
    pe_to e ∈ ws_visited s;
  wk_cut : tr_depth (ws_truncated s) = false
}.

Lemma served_mono n n' facts facts' id :
  served_by n facts id → n ≤ n' → (∀ x, x ∈ facts → x ∈ facts') → served_by n' facts' id.
Proof.
  intros [->|H] Hn Hf; [by left|]. right. intros r H1 H2 H3. destruct (H r H1 H2 H3) as (d & ? & ?).
  exists d. split; [lia|auto].
Qed.

(** Keys tell emitted edges apart. *)
Lemma edge_key_to row row' :
  reads_ok → row ∈ edges → row' ∈ edges →
  isEmittedEdgeKind (pe_kind (edge_of row)) = true → isEmittedEdgeKind (pe_kind (edge_of row')) = true →
  walk_edge_key (edge_of row) = walk_edge_key (edge_of row') → edge_of row = edge_of row'.
Proof.
  intros Hok H1 H2 K1 K2 Heq. unfold walk_edge_key in Heq.
  assert (Hb : ∀ k, isEmittedEdgeKind k = true → has_char " "%char k = false).
  { intros k Hk. apply bool_decide_eq_true in Hk. unfold EMITTED_EDGE_KINDS in Hk.
    repeat (apply elem_of_cons in Hk as [->|Hk]; [by vm_compute|]). by apply elem_of_nil in Hk. }
  apply (str_sep_inj " "%char) in Heq as [Ek Heq]; [|by apply Hb..].
  apply (str_sep_inj " "%char) in Heq as [Ef Et]; [|by apply (ro_ids Hok)..].
  destruct (edge_of row), (edge_of row'); cbn in *; congruence.
Qed.

Lemma round_edges_spec frontier row :
  reads_ok → row ∈ round_edges frontier →
  fetchEdges ≠ None ∧ row ∈ edges ∧ ∃ f, f ∈ frontier ∧ pe_from (edge_of row) = row_id f.
Proof.
  intros Hok. unfold round_edges. destruct fetchEdges as [fetch|] eqn:E; [|by intros ?%elem_of_nil].
  rewrite (ro_edges Hok fetch _ row E). intros [H1 (f & Hf & ?)%list_elem_of_fmap]. eauto.
Qed.

Section round.
Variables (frontier : list ClosureFactRow) (n : nat) (s : WalkState) (facts : list (ClosureFactRow * nat)).
Variables (children : list string) (s' mid : WalkState) (new : list ProvenanceClosureEdge).
Hypothesis Hok : reads_ok.
Hypothesis Hw : walking frontier n s facts.
Hypothesis Hcr : crosses (round_edges frontier) new (fold_left (harvestGrounding String_ caps) frontier s) mid.
Hypothesis Had : admits (app (all_derived frontier) (map pe_to (List.filter fact_target new))) children mid s'.

Lemma round_before : same_walk s (fold_left (harvestGrounding String_ caps) frontier s).
Proof. apply same_walk_fold. intros. apply harvest_same_walk. Qed.

Lemma round_visited : ws_visited s' = app (ws_visited s) children.
Proof.
  rewrite (ad_visited _ _ _ _ Had). f_equal. pose proof (cr_rest _ _ _ _ Hcr) as E. injection E as ->.
  apply round_before.
Qed.

Lemma round_fanout : tr_fanout (ws_truncated s') = false →
  tr_fanout (ws_truncated s) = false ∧ tr_fanout (ws_truncated mid) = false.
Proof.
  intros H. destruct (ad_all _ _ _ _ Had H) as [H1 _]. destruct (cr_all _ _ _ _ Hcr H1) as [H2 _].
  destruct round_before as (_ & _ & _ & _ & _ & E). split; [congruence|done].
Qed.

Lemma round_edges_are : ws_edges s' = app (ws_edges s) new ∧ ws_edgeKeys s' = app (ws_edgeKeys s) (map walk_edge_key new).
Proof.
  pose proof (ad_rest _ _ _ _ Had) as E. injection E as _ _ E1 E2 _ _. rewrite E1, E2.
  rewrite (cr_edges _ _ _ _ Hcr), (cr_keys _ _ _ _ Hcr).
  destruct round_before as (_ & _ & -> & -> & _). done.
Qed.

Lemma round_depth_flag : tr_depth (ws_truncated s') = false.
Proof.
  pose proof (ad_rest _ _ _ _ Had) as E. injection E as _ _ _ _ -> _.
  pose proof (cr_rest _ _ _ _ Hcr) as E. injection E as _ _ _ _ -> _.
  destruct round_before as (_ & _ & _ & _ & -> & _). apply (wk_cut _ _ _ _ Hw).
Qed.

Lemma new_row e : e ∈ new → ∃ row, row ∈ edges ∧ e = edge_of row ∧ isEmittedEdgeKind (pe_kind e) = true ∧
  fetchEdges ≠ None ∧ ∃ f, f ∈ frontier ∧ pe_from e = row_id f.
Proof.
  intros He. destruct (cr_new _ _ _ _ Hcr e He) as (row & Hrow & -> & Hk).
  destruct (round_edges_spec frontier row Hok Hrow) as (H1 & H2 & H3). exists row. auto.
Qed.

(** The children are cited by the frontier. *)
Lemma children_cited id : id ∈ children → ∃ f, f ∈ frontier ∧ cites f id.
Proof.
  intros Hin. destruct (ad_new _ _ _ _ Had id Hin) as [[Hd|Ht]%elem_of_app _].
  - apply elem_of_all_derived in Hd as (f & Hf & Hd). exists f. split; [done|by left].
  - apply list_elem_of_fmap in Ht as (e & -> & [He Ht]%elem_of_bfilter).
    destruct (new_row e He) as (row & Hrow & -> & Hk & Hs & f & Hf & Hfrom). exists f. split; [done|].
    right. split; [done|]. exists row. auto.
Qed.

(** Whatever the frontier cites is visited when the budget held. *)
Lemma frontier_cites_visited f id :
  tr_fanout (ws_truncated s') = false → f ∈ frontier → cites f id → id ∈ ws_visited s'.
Proof.
  intros Hfan Hf Hc. destruct (ad_all _ _ _ _ Had Hfan) as [Hmid Hall].
  destruct Hc as [Hd|(Hs & row & Hrow & Hfrom & Ht & <-)].
  - apply Hall, elem_of_app. left. apply elem_of_all_derived. eauto.
  - assert (Hk : isEmittedEdgeKind (pe_kind (edge_of row)) = true).
    { unfold fact_target in Ht. apply andb_true_iff in Ht as [->%bool_decide_eq_true _]. by vm_compute. }
    destruct (cr_all _ _ _ _ Hcr Hmid) as [_ Hkeys].
    assert (Hr : row ∈ round_edges frontier).
    { unfold round_edges. destruct fetchEdges as [fetch|] eqn:E; [|done].
      apply (ro_edges Hok fetch _ row E). split; [done|]. rewrite Hfrom. by apply list_elem_of_fmap_2. }
    specialize (Hkeys row Hr Hk).
    assert (Hold : ws_edgeKeys mid = app (map walk_edge_key (ws_edges s)) (map walk_edge_key new)).
    { rewrite (cr_keys _ _ _ _ Hcr). destruct round_before as (_ & _ & _ & -> & _). by rewrite (wk_keys _ _ _ _ Hw). }
    rewrite Hold in Hkeys. apply elem_of_app in Hkeys as [Hin|Hin];
      apply list_elem_of_fmap in Hin as (e & Ekey & He).
    + destruct (wk_edges _ _ _ _ Hw e He) as (row' & Hrow' & -> & Hk').
      rewrite (edge_key_to row row' Hok Hrow Hrow' Hk Hk' Ekey) in *.
      rewrite round_visited. apply elem_of_app. left.
      apply (wk_targets _ _ _ _ Hw); [by apply round_fanout|done..].
    + destruct (new_row e He) as (row' & Hrow' & -> & Hk' & _).
      rewrite (edge_key_to row row' Hok Hrow Hrow' Hk Hk' Ekey) in *.
      apply Hall, elem_of_app. right. apply list_elem_of_fmap. exists (edge_of row').
      rewrite elem_of_bfilter. done.
Qed.

(** What the round leaves closed. *)
Lemma round_closed p k id facts' :
  tr_fanout (ws_truncated s') = false → (p, k) ∈ reached facts → cites p id →
  (∀ x, x ∈ facts → x ∈ facts') → (∀ id, id ∈ children → served_by (S n) facts' id) → k ≤ n →
  served_by (S k) facts' id.
Proof.
  intros Hfan Hp Hc Hsub Hch Hk. destruct (wk_open _ _ _ _ Hw p k Hp) as [Hlt|Hf].
  - destruct (round_fanout Hfan) as [Hs _].
    apply (served_mono (S k) (S k) facts facts'); [|lia|done]. by eapply (wk_closed _ _ _ _ Hw Hs p k id).
  - assert (k = n ∨ k < n) as [->|Hlt] by lia.
    + pose proof (frontier_cites_visited p id Hfan Hf Hc) as Hv. rewrite round_visited in Hv.
      apply elem_of_app in Hv as [Hv|Hv]; [|auto].
      apply (served_mono n (S n) facts facts'); [|lia|done]. by apply (wk_visited _ _ _ _ Hw).
    + destruct (round_fanout Hfan) as [Hs _].
      apply (served_mono (S k) (S k) facts facts'); [|lia|done]. by eapply (wk_closed _ _ _ _ Hw Hs p k id).
Qed.

Definition next_rows : list ClosureFactRow := List.filter visible (fetchByIds children).

Lemma next_facts_serve id :
  id ∈ children → served_by (S n) (app facts (map (λ r, (r, S n)) next_rows)) id.
Proof.
  intros Hin. right. intros r Hr Hid Hv. exists (S n). split; [done|]. apply elem_of_app. right.
  apply list_elem_of_fmap. exists r. split; [done|]. apply elem_of_bfilter. split; [|done].
  apply (ro_rows Hok). split; [done|]. by rewrite Hid.
Qed.

Lemma round_walking :
  n < cap_maxDepth caps →
  walking next_rows (S n) s' (app facts (map (λ r, (r, S n)) next_rows)).
Proof.
  intros Hd.
  assert (Hnext : ∀ r, r ∈ next_rows → supports (S n) r ∧ row_id r ≠ row_id root).
  { intros r [Hr Hv]%elem_of_bfilter. apply (ro_rows Hok) in Hr as [Ht Hid].
    destruct (children_cited _ Hid) as (f & Hf & Hc). split.
    - apply (sup_step n f r); [by apply (wk_frontier _ _ _ _ Hw)|done..].
    - intros Heq. destruct (ad_new _ _ _ _ Had _ Hid) as [_ Hno]. apply Hno.
      pose proof (cr_rest _ _ _ _ Hcr) as E. injection E as -> _ _ _ _ _.
      destruct round_before as (-> & _). rewrite Heq. apply (wk_root _ _ _ _ Hw). }
  destruct round_edges_are as [HE HK]. split.
  - lia.
  - intros r d [Hin|Hin]%elem_of_app.
    + destruct (wk_facts _ _ _ _ Hw r d Hin) as (? & ? & ?). split_and!; [done|lia|lia|done].
    + apply list_elem_of_fmap in Hin as (r' & [= -> ->] & Hr). destruct (Hnext r' Hr). split_and!; [done|lia|lia|done].
  - intros r Hr. by apply Hnext.
  - rewrite round_visited. apply elem_of_app. left. apply (wk_root _ _ _ _ Hw).
  - intros id. rewrite round_visited. intros [Hin|Hin]%elem_of_app; [|by apply next_facts_serve].
    apply (served_mono n (S n) facts); [by apply (wk_visited _ _ _ _ Hw)|lia|set_solver].
  - intros p k [Heq|[Hin|Hin]%elem_of_app]%elem_of_cons.
    + injection Heq as -> ->. left. lia.
    + destruct (wk_facts _ _ _ _ Hw p k Hin) as (_ & ? & _). left. lia.
    + apply list_elem_of_fmap in Hin as (r' & [= -> ->] & Hr). by right.
  - intros Hfan p k id Hp Hk Hc. apply (round_closed p k id); [done| |done|set_solver|apply next_facts_serve|lia].
    apply elem_of_cons in Hp as [Heq|[Hin|Hin]%elem_of_app]; [by rewrite Heq; left|by right|].
    apply list_elem_of_fmap in Hin as (r' & [= -> ->] & Hr). lia.
  - rewrite HE, HK, map_app. by rewrite (wk_keys _ _ _ _ Hw).
  - intros e. rewrite HE. intros [He|He]%elem_of_app; [by apply (wk_edges _ _ _ _ Hw)|].
    destruct (new_row e He) as (row & ? & ? & ? & _). eauto.
  - intros Hfan e. rewrite HE. intros [He|He]%elem_of_app Ht.
    + rewrite round_visited. apply elem_of_app. left. apply (wk_targets _ _ _ _ Hw); [by apply round_fanout|done..].
    + destruct (ad_all _ _ _ _ Had Hfan) as [_ Hall]. apply Hall, elem_of_app. right.
      apply list_elem_of_fmap. exists e. rewrite elem_of_bfilter. done.
  - apply round_depth_flag.
Qed.
End round.

(** What a finished walk says. *)
Record found (res : ProvenanceClosureResult) : Prop := {
  fo_facts : ∀ r d, (r, d) ∈ pr_closureFacts res →
    supports d r ∧ 1 ≤ d ≤ cap_maxDepth caps ∧ row_id r ≠ row_id root;
  fo_closed : tr_depth (pr_truncated res) = false → tr_fanout (pr_truncated res) = false →
    ∀ p k id, (p, k) ∈ reached (pr_closureFacts res) → cites p id → served_by (S k) (pr_closureFacts res) id
}.

Lemma walk_found fuel frontier n s facts filtered res :
  reads_ok → walking frontier n s facts →
  walk_loop String_ caps visible fetchByIds fetchEdges fuel frontier n s facts filtered = Some res → found res.
Proof.
  intros Hok. revert frontier n s facts filtered. induction fuel as [|fuel IH]; intros frontier n s facts filtered Hw;
    cbn [walk_loop]; (destruct frontier as [|f0 fr] eqn:Efr; [|]).
  all: assert (Hfacts : ∀ r d, (r, d) ∈ facts → supports d r ∧ 1 ≤ d ≤ cap_maxDepth caps ∧ row_id r ≠ row_id root)
    by (intros r d Hin; destruct (wk_facts _ _ _ _ Hw r d Hin) as (? & ? & ?);
        pose proof (wk_depth _ _ _ _ Hw); split_and!; [done|lia|lia|done]).
  all: assert (Hlen : ∀ p k, (p, k) ∈ reached facts → k ≤ n)
    by (intros p k [Heq|Hin]%elem_of_cons; [injection Heq; lia|destruct (wk_facts _ _ _ _ Hw p k Hin); lia]).
  1, 3: intros [= <-]; split; [done|]; cbn; intros _ Hfan p k id Hp Hc;
    destruct (wk_open _ _ _ _ Hw p k Hp) as [Hk|Hk]; [|by apply elem_of_nil in Hk];
    by eapply (wk_closed _ _ _ _ Hw).
  { done. }
  rewrite <- Efr in *. clear Efr.
  destruct (expand_expands frontier s) as (children & s' & new & mid & -> & Hcr & Had).
  destruct (length children =? 0) eqn:El; [|destruct (cap_maxDepth caps <=? n) eqn:Ed].
  - intros [= <-]. split; [done|]. cbn. intros _ Hfan p k id Hp Hc.
    apply Nat.eqb_eq, nil_length_inv in El as ->.
    eapply (round_closed frontier n s facts [] s' mid new); eauto. intros ? Hin. by apply elem_of_nil in Hin.
  - intros [= <-]. split; [done|]. cbn. done.
  - apply Nat.leb_gt in Ed. apply IH. by eapply round_walking.
Qed.

Lemma walk_start_walking : reads_ok → walking [root] 0 (walk_start String_ root) [].
Proof.
  intros Hok. split; cbn.
  - lia.
  - by intros ? ? ?%elem_of_nil.
  - intros r ->%list_elem_of_singleton. constructor.
  - by left.
  - intros id ->%list_elem_of_singleton. by left.
  - intros p k Heq%list_elem_of_singleton. injection Heq as -> ->. right. by left.
  - intros _ p k id _ Hk. lia.
  - done.
  - by intros ? ?%elem_of_nil.
  - by intros _ ? ?%elem_of_nil.
  - done.
Qed.


(** C5. The walk serves exactly the visible support: every fact it serves is reached from
    the root by as many citations as its depth says, each step through a stored fact the
    caller may see, and is not the root; and when neither the depth nor the fact budget
    cut it, every fact so reached is served, at a depth no larger than any chain to it. *)
Theorem walk_serves_the_visible_support fuel res
    (Hok : reads_ok)
    (Hres : walkProvenanceClosure String_ caps visible fetchByIds fetchEdges fuel root = Some res) :
  (∀ r d, (r, d) ∈ pr_closureFacts res →
     supports d r ∧ 1 ≤ d ≤ cap_maxDepth caps ∧ row_id r ≠ row_id root) ∧
  (tr_depth (pr_truncated res) = false → tr_fanout (pr_truncated res) = false →
   ∀ n r, supports n r → r ≠ root → ∃ d, d ≤ n ∧ (r, d) ∈ pr_closureFacts res).
Proof.
  destruct (walk_found fuel [root] 0 (walk_start String_ root) [] false res Hok (walk_start_walking Hok) Hres)
    as [Hfacts Hclosed].
  split; [done|]. intros Hd Hf n r Hr Hne.
  assert (Hall : ∀ m x, supports m x → ∃ d, d ≤ m ∧ (x, d) ∈ reached (pr_closureFacts res)).
  { induction 1 as [|m f x Hs IH Hc Hx Hv]; [exists 0; split; [done|by left]|].
    destruct IH as (d & Hle & Hin). destruct (Hclosed Hd Hf f d (row_id x) Hin Hc) as [Heq|Hserved].
    - exists 0. split; [lia|].
      rewrite (NoDup_map_inj _ table x root (ro_unique Hok) Hx (ro_root Hok) Heq). by left.
    - destruct (Hserved x Hx eq_refl Hv) as (d' & ? & ?). exists d'. split; [lia|by right]. }
  destruct (Hall n r Hr) as (d & Hle & [Heq|Hin]%elem_of_cons); [|by exists d].
  injection Heq as -> ->. done.
Qed.

Lemma walk_loop_returns fuel frontier n s facts filtered :
  n ≤ cap_maxDepth caps → S (cap_maxDepth caps) ≤ n + fuel →
  is_Some (walk_loop String_ caps visible fetchByIds fetchEdges fuel frontier n s facts filtered).
Proof.
  revert frontier n s facts filtered. induction fuel as [|fuel IH]; intros frontier n s facts filtered Hn Hfuel;
    [lia|]. cbn [walk_loop]. destruct frontier as [|f fr]; [by eexists|].
  destruct (expand _ _ _ _ _) as [children s']. destruct (_ =? 0); [by eexists|].
  destruct (_ <=? n) eqn:E; [by eexists|]. apply Nat.leb_gt in E. apply IH; lia.
Qed.

Lemma walk_loop_more fuel frontier n s facts filtered res k :
  walk_loop String_ caps visible fetchByIds fetchEdges fuel frontier n s facts filtered = Some res →
  walk_loop String_ caps visible fetchByIds fetchEdges (fuel + k) frontier n s facts filtered = Some res.
Proof.
  revert frontier n s facts filtered. induction fuel as [|fuel IH]; intros frontier n s facts filtered;
    cbn [walk_loop Nat.add].
  - destruct frontier; [|done]. intros <-. by destruct k.
  - destruct frontier as [|f fr]; [done|]. destruct (expand _ _ _ _ _) as [children s'].
    destruct (_ =? 0); [done|]. destruct (_ <=? n); [done|]. apply IH.
Qed.

(** C16. The walk ends: whatever the reads give - rows nobody asked for, cycles of
    citations, an endless chain - it returns after at most one round more than the depth
    cap, and the bound on its rounds does not show in the result. *)
Theorem walk_returns k :
  ∃ res, walkProvenanceClosure String_ caps visible fetchByIds fetchEdges (S (cap_maxDepth caps)) root = Some res ∧
    walkProvenanceClosure String_ caps visible fetchByIds fetchEdges (S (cap_maxDepth caps) + k) root = Some res.
Proof.
  destruct (walk_loop_returns (S (cap_maxDepth caps)) [root] 0 (walk_start String_ root) [] false)
    as [res Hres]; [lia|lia|].
  exists res. split; [done|]. by apply walk_loop_more.
Qed.

(** *** Budgets *)

Record bounded (s : WalkState) (facts : list (ClosureFactRow * nat)) : Prop := {
  bd_admitted : length facts ≤ ws_admitted s ≤ cap_maxFacts caps;
  bd_edges : length (ws_edges s) ≤ cap_maxFacts caps;
  bd_ids : NoDup (map (λ x, row_id x.1) facts);
  bd_visited : ∀ x, x ∈ facts → row_id x.1 ∈ ws_visited s
}.

Lemma rows_of_children children :
  reads_ok → NoDup (map row_id (List.filter visible (fetchByIds children))) ∧
  (∀ r, r ∈ List.filter visible (fetchByIds children) → row_id r ∈ children) ∧
  length (List.filter visible (fetchByIds children)) ≤ length children.
Proof.
  intros Hok. assert (Hin : ∀ r, r ∈ List.filter visible (fetchByIds children) → r ∈ table ∧ row_id r ∈ children).
  { intros r [Hr _]%elem_of_bfilter. by apply (ro_rows Hok). }
  assert (Hnd : NoDup (map row_id (List.filter visible (fetchByIds children)))).
  { apply NoDup_fmap_2_strong; [|apply NoDup_bfilter, (ro_once Hok)].
    intros x y Hx Hy. apply (NoDup_map_inj _ table); [apply (ro_unique Hok)|by apply Hin..]. }
  split; [done|]. split; [by intros r Hr; apply Hin|].
  rewrite <- (length_map row_id). apply submseteq_length, NoDup_submseteq; [done|].
  intros id (r & -> & Hr)%list_elem_of_fmap. by apply Hin.
Qed.

Lemma round_bounded frontier s facts children s' mid new n :
  reads_ok → bounded s facts →
  crosses (round_edges frontier) new (fold_left (harvestGrounding String_ caps) frontier s) mid →
  admits (app (all_derived frontier) (map pe_to (List.filter fact_target new))) children mid s' →
  bounded s' facts ∧
  bounded s' (app facts (map (λ r, (r, S n)) (List.filter visible (fetchByIds children)))).
Proof.
  intros Hok [[Ha Hb] He Hi Hv] Hcr Had.
  destruct (round_before frontier s) as (HV & HA & HE & _).
  pose proof (cr_rest _ _ _ _ Hcr) as E. injection E as EV EA _ _ _ _.
  pose proof (ad_rest _ _ _ _ Had) as E. injection E as _ _ EE _ _ _.
  assert (Hedges : length (ws_edges s') ≤ cap_maxFacts caps)
    by (rewrite EE; apply (cr_budget _ _ _ _ Hcr); by rewrite HE).
  assert (Hcount : ws_admitted s' = ws_admitted s + length children)
    by (rewrite (ad_count _ _ _ _ Had); congruence).
  assert (Hbudget : ws_admitted s' ≤ cap_maxFacts caps)
    by (apply (ad_budget _ _ _ _ Had); rewrite EA, HA; done).
  assert (Hvis : ws_visited s' = app (ws_visited s) children)
    by (rewrite (ad_visited _ _ _ _ Had); congruence).
  destruct (rows_of_children children Hok) as (Hnd & Hsub & Hlen). split.
  - split; [lia|done|done|]. intros x Hx. rewrite Hvis. apply elem_of_app. auto.
  - split; [rewrite length_app, length_map; lia|done| |].
    + rewrite map_app, map_map. cbn. apply NoDup_app. split_and!; [done| |done].
      intros id (x & -> & Hx)%list_elem_of_fmap (r & Heq & Hr)%list_elem_of_fmap.
      destruct (ad_new _ _ _ _ Had (row_id r) (Hsub r Hr)) as [_ Hno]. apply Hno.
      rewrite EV, HV, <- Heq. by apply Hv.
    + intros x [Hx|Hx]%elem_of_app; rewrite Hvis; apply elem_of_app; [auto|].
      apply list_elem_of_fmap in Hx as (r & -> & Hr). right. by apply Hsub.
Qed.

Lemma walk_bounded fuel frontier n s facts filtered res :
  reads_ok → bounded s facts →
  walk_loop String_ caps visible fetchByIds fetchEdges fuel frontier n s facts filtered = Some res →
  length (pr_closureFacts res) ≤ cap_maxFacts caps ∧ length (pr_edges res) ≤ cap_maxFacts caps ∧
  NoDup (map (λ x, row_id x.1) (pr_closureFacts res)).
Proof.
  intros Hok. assert (Hend : ∀ s facts fl, bounded s facts →
    length (pr_closureFacts (finish s facts fl)) ≤ cap_maxFacts caps ∧
    length (pr_edges (finish s facts fl)) ≤ cap_maxFacts caps ∧
    NoDup (map (λ x, row_id x.1) (pr_closureFacts (finish s facts fl))))
    by (intros ? ? ? [[? ?] ? ? ?]; cbn; split_and!; [lia|done|done]).
  revert frontier n s facts filtered. induction fuel as [|fuel IH]; intros frontier n s facts filtered Hb;
    cbn [walk_loop]; (destruct frontier as [|f0 fr] eqn:Efr; [intros [= <-]; by apply Hend|]); [done|].
  rewrite <- Efr in *. clear Efr.
  destruct (expand_expands frontier s) as (children & s' & new & mid & -> & Hcr & Had).
  destruct (round_bounded frontier s facts children s' mid new n Hok Hb Hcr Had) as [Hb1 Hb2].
  destruct (length children =? 0); [intros [= <-]; by apply Hend|].
  destruct (cap_maxDepth caps <=? n); [|by apply IH].
  intros [= <-]. apply (Hend (depth_cut s') facts filtered). by destruct Hb1.
Qed.

(** *** Evidence *)

(** The episodes a fact is grounded in. *)
Definition stamps (f : ClosureFactRow) (id : string) : Prop :=
  starts_with "episode:" id = true ∧
  ∃ raws, member (cf_source f) "episodeIds" = VArr raws ∧ id ∈ map String_ raws.

Record harvested (facts : list ClosureFactRow) (s : WalkState) : Prop := {
  hv_owner : ∀ id o, OMap.get id (ws_episodes s) = Some o → ∃ f, f ∈ facts ∧ stamps f id ∧ owner_of f = o;
  hv_all : tr_episodes (ws_truncated s) = false → ∀ f id, f ∈ facts → stamps f id →
    OMap.has id (ws_episodes s) = true;
  hv_budget : length (ws_episodes s) ≤ cap_maxEpisodes caps;
  hv_wf : OMap.wf (ws_episodes s)
}.

Lemma map_has_set (id k : string) (v : string) m :
  OMap.has id (OMap.set k v m) = bool_decide (id = k) || OMap.has id m.
Proof.
  unfold OMap.has. rewrite OMap.get_set. case_bool_decide as E; case_bool_decide as E'; try done; congruence.
Qed.

(** What reading stamps of [f] does to the episodes. *)
Record harvests (f : ClosureFactRow) (raws : list jsval) (s s' : WalkState) : Prop := {
  hs_owner : ∀ id o, OMap.get id (ws_episodes s') = Some o →
    OMap.get id (ws_episodes s) = Some o ∨ stamps f id ∧ owner_of f = o;
  hs_all : tr_episodes (ws_truncated s') = false → tr_episodes (ws_truncated s) = false ∧
    (∀ id, OMap.has id (ws_episodes s) = true → OMap.has id (ws_episodes s') = true) ∧
    ∀ raw, raw ∈ raws → starts_with "episode:" (String_ raw) = true → OMap.has (String_ raw) (ws_episodes s') = true;
  hs_budget : length (ws_episodes s) ≤ cap_maxEpisodes caps → length (ws_episodes s') ≤ cap_maxEpisodes caps;
  hs_wf : OMap.wf (ws_episodes s) → OMap.wf (ws_episodes s')
}.

Lemma harvest_one f raw s :
  (starts_with "episode:" (String_ raw) = true → stamps f (String_ raw)) →
  harvests f [raw] s (harvest_episode String_ caps (owner_of f) s raw).
Proof.
  intros Hst. unfold harvest_episode.
  destruct (negb (starts_with "episode:" (String_ raw)) || OMap.has (String_ raw) (ws_episodes s)) eqn:E.
  - split; [by left| |done..]. intros ->. split_and!; [done|done|].
    intros x ->%list_elem_of_singleton He. rewrite He in E. done.
  - apply orb_false_iff in E as [Ep%negb_false_iff Eh].
    destruct (cap_maxEpisodes caps <=? length (ws_episodes s)) eqn:Ec; split; cbn.
    + by left.
    + intros Hf. by rewrite orb_true_r in Hf.
    + done.
    + done.
    + intros id o. rewrite OMap.get_set. case_bool_decide as Hid; [|by left].
      intros [= <-]. right. subst. auto.
    + rewrite orb_false_r. intros ->. split_and!; [done| |].
      * intros id Hid. by rewrite map_has_set, Hid, orb_true_r.
      * intros x ->%list_elem_of_singleton _. by rewrite map_has_set, bool_decide_eq_true_2.
    + apply Nat.leb_gt in Ec. intros _. rewrite OMap.length_set, Eh. lia.
    + apply OMap.wf_set.
Qed.

Lemma harvest_list f raws s :
  (∀ raw, raw ∈ raws → starts_with "episode:" (String_ raw) = true → stamps f (String_ raw)) →
  harvests f raws s (fold_left (harvest_episode String_ caps (owner_of f)) raws s).
Proof.
  revert s. induction raws as [|raw raws IH]; intros s Hst; cbn [fold_left].
  { split; [by left| |done..]. intros ->. split_and!; [done|done|]. by intros ? ?%elem_of_nil. }
  destruct (harvest_one f raw s) as [O1 A1 B1 W1]; [apply Hst; by left|].
  destruct (IH (harvest_episode String_ caps (owner_of f) s raw)) as [O2 A2 B2 W2]; [intros; apply Hst; [by right|done]|].
  split; [| |auto..].
  - intros id o Hg. destruct (O2 id o Hg); [auto|by right].
  - intros Hf. destruct (A2 Hf) as (Hf2 & K2 & J2). destruct (A1 Hf2) as (Hf1 & K1 & J1).
    split_and!; [done|auto|]. intros x [->|Hx]%elem_of_cons He; [|auto]. apply K2, J1; [by left|done].
Qed.

Lemma harvest_spans_episodes l s :
  ws_episodes (fold_left harvest_span l s) = ws_episodes s ∧
  tr_episodes (ws_truncated (fold_left harvest_span l s)) = tr_episodes (ws_truncated s).
Proof.
  revert s. induction l as [|kv l IH]; intros s; [done|]. cbn [fold_left].
  destruct (IH (harvest_span s kv)) as [-> ->]. unfold harvest_span. by case_match.
Qed.

Lemma harvest_fact f s facts :
  harvested facts s → harvested (app facts [f]) (harvestGrounding String_ caps s f).
Proof.
  intros [Ho Ha Hb Hwf]. unfold harvestGrounding.
  set (raws := match member (cf_source f) "episodeIds" with VArr raws => raws | _ => [] end).
  set (s1 := match member (cf_source f) "episodeIds" with VArr _ => _ | _ => _ end).
  assert (Hs1 : s1 = fold_left (harvest_episode String_ caps (owner_of f)) raws s)
    by (subst s1 raws; by destruct (member (cf_source f) "episodeIds")).
  assert (Hraw : ∀ id, id ∈ map String_ raws → ∃ l, member (cf_source f) "episodeIds" = VArr l ∧ id ∈ map String_ l).
  { subst raws. destruct (member (cf_source f) "episodeIds"); intros id Hid; try by apply elem_of_nil in Hid. eauto. }
  destruct (harvest_list f raws s) as [O1 A1 B1 W1].
  { intros raw Hin He. split; [done|]. apply Hraw. by apply list_elem_of_fmap_2. }
  rewrite <- Hs1 in O1, A1, B1, W1.
  destruct (harvest_spans_episodes (indexCharSpans (member (cf_source f) "charSpans")) s1) as [Ee Et].
  split; rewrite ?Ee, ?Et; [| |auto..].
  - intros id o Hg. destruct (O1 id o Hg) as [Hg'|[Hs Hown]].
    + destruct (Ho id o Hg') as (g & Hg1 & ?). exists g. split; [set_solver|done].
    + exists f. split; [set_solver|done].
  - intros Hf g id Hg Hs. destruct (A1 Hf) as (Hf0 & Hk & Hall).
    apply elem_of_app in Hg as [Hg| ->%list_elem_of_singleton]; [by eapply Hk, Ha|].
    destruct Hs as [He (l & El & Hid)]. assert (raws = l) as -> by (subst raws; by rewrite El).
    apply list_elem_of_fmap in Hid as (raw & -> & Hin). by apply Hall.
Qed.

Lemma harvest_frontier frontier s facts :
  harvested facts s → harvested (app facts frontier) (fold_left (harvestGrounding String_ caps) frontier s).
Proof.
  revert s facts. induction frontier as [|f l IH]; intros s facts H; [by rewrite app_nil_r|].
  cbn [fold_left]. change (f :: l) with (app [f] l). rewrite (assoc_L app). by apply IH, harvest_fact.
Qed.

Lemma walk_harvested fuel frontier n s facts filtered res done_ :
  root :: map fst facts = app done_ frontier → harvested done_ s →
  walk_loop String_ caps visible fetchByIds fetchEdges fuel frontier n s facts filtered = Some res →
  ∃ s', harvested (root :: map fst (pr_closureFacts res)) s' ∧ pr_episodes res = ws_episodes s' ∧
    tr_episodes (pr_truncated res) = tr_episodes (ws_truncated s').
Proof.
  revert frontier n s facts filtered done_. induction fuel as [|fuel IH]; intros frontier n s facts filtered done_ Hd Hh;
    cbn [walk_loop]; (destruct frontier as [|f0 fr] eqn:Efr;
      [intros [= <-]; exists s; cbn; rewrite Hd, app_nil_r; done|]); [done|].
  rewrite <- Efr in *. clear Efr.
  destruct (expand_expands frontier s) as (children & s' & new & mid & -> & Hcr & Had).
  assert (Hs' : harvested (app done_ frontier) s').
  { pose proof (harvest_frontier frontier s done_ Hh) as H.
    pose proof (cr_rest _ _ _ _ Hcr) as E. injection E as _ _ E1 _ _ E2.
    pose proof (ad_rest _ _ _ _ Had) as E. injection E as E3 _ _ _ _ E4.
    destruct H as [H1 H2 H3 H4]. split; rewrite ?E3, ?E4, ?E1, ?E2; done. }
  destruct (length children =? 0); [intros [= <-]; exists s'; cbn; by rewrite Hd|].
  destruct (cap_maxDepth caps <=? n); [intros [= <-]; exists s'; cbn; by rewrite Hd|].
  apply (IH _ _ _ _ _ (app done_ frontier)); [|done].
  rewrite map_app, map_map, map_id. cbn. change (root :: ?x ++ ?y) with (app (root :: x) y). by rewrite Hd.
Qed.

(** The evidence is the union of what grounds the support: an episode is listed
    once, under the user of a served fact - or of the root - that is grounded in it, and unless the episode budget cut it, every episode that grounds the root or a
    served fact is listed; the facts, the crossed edges and the episodes each stay within
    their budget, and no fact is served twice. *)
Theorem evidence_is_the_union fuel res
    (Hok : reads_ok)
    (Hres : walkProvenanceClosure String_ caps visible fetchByIds fetchEdges fuel root = Some res) :
  (∀ id o, OMap.get id (pr_episodes res) = Some o →
     ∃ f, f ∈ root :: map fst (pr_closureFacts res) ∧ stamps f id ∧ owner_of f = o) ∧
  (tr_episodes (pr_truncated res) = false → ∀ f id, f ∈ root :: map fst (pr_closureFacts res) → stamps f id →
     is_Some (OMap.get id (pr_episodes res))) ∧
  length (pr_closureFacts res) ≤ cap_maxFacts caps ∧ length (pr_edges res) ≤ cap_maxFacts caps ∧
  length (pr_episodes res) ≤ cap_maxEpisodes caps ∧ NoDup (map fst (pr_episodes res)) ∧
  NoDup (map (λ x, row_id x.1) (pr_closureFacts res)).
Proof.
  destruct (walk_harvested fuel [root] 0 (walk_start String_ root) [] false res []) as (s & [H1 H2 H3 H4] & -> & ->);
    [done| |done|].
  { split; cbn; [done| |lia|constructor]. by intros _ ? ? ?%elem_of_nil. }
  destruct (walk_bounded fuel [root] 0 (walk_start String_ root) [] false res Hok) as (B1 & B2 & B3); [|done|].
  { split; cbn; [lia|lia|constructor|by intros ? ?%elem_of_nil]. }
  split_and!; try done. intros Hf f id Hin Hs. specialize (H2 Hf f id Hin Hs). unfold OMap.has in H2.
  by destruct (OMap.get id (ws_episodes s)).
Qed.
End support.

(** ** What the caller may not see leaves no trace *)

Section fenced.
Variable String_ : jsval → string.
Variable caps : ProvenanceClosureCaps.
Variable visible : ClosureFactRow → bool.
Variables fetch1 fetch2 : list string → list ClosureFactRow.
Variable fetchEdges : option (list string → list ClosureEdgeRow).

Lemma walk_loop_fenced (Hagree : ∀ ids, List.filter visible (fetch1 ids) = List.filter visible (fetch2 ids))
    fuel frontier n s facts fl1 fl2 :
  option_map (λ r, (pr_closureFacts r, pr_episodes r, pr_spans r, pr_truncated r, pr_edges r))
    (walk_loop String_ caps visible fetch1 fetchEdges fuel frontier n s facts fl1) =
  option_map (λ r, (pr_closureFacts r, pr_episodes r, pr_spans r, pr_truncated r, pr_edges r))
    (walk_loop String_ caps visible fetch2 fetchEdges fuel frontier n s facts fl2).
Proof.
  revert frontier n s facts fl1 fl2. induction fuel as [|fuel IH]; intros frontier n s facts fl1 fl2;
    cbn [walk_loop]; (destruct frontier as [|f fr]; [done|]); [done|].
  destruct (expand _ _ _ _ _) as [children s']. destruct (_ =? 0); [done|]. destruct (_ <=? n); [done|].
  rewrite (Hagree children). apply IH.
Qed.

(** A fenced fact leaves no trace: two stores that agree on the facts the caller may
    see - whatever the others say, derive from or are grounded in - give the caller the
    same facts at the same depths, the same episodes under the same owners, the same
    spans, the same crossed edges and the same truncation marks; only the mark that
    something was dropped can tell them apart. *)
Theorem fenced_facts_leave_no_trace fuel root r1 r2
    (Hagree : ∀ ids, List.filter visible (fetch1 ids) = List.filter visible (fetch2 ids))
    (H1 : walkProvenanceClosure String_ caps visible fetch1 fetchEdges fuel root = Some r1)
    (H2 : walkProvenanceClosure String_ caps visible fetch2 fetchEdges fuel root = Some r2) :
  pr_closureFacts r1 = pr_closureFacts r2 ∧ pr_episodes r1 = pr_episodes r2 ∧ pr_spans r1 = pr_spans r2 ∧
  pr_truncated r1 = pr_truncated r2 ∧ pr_edges r1 = pr_edges r2.
Proof.
  pose proof (walk_loop_fenced Hagree fuel [root] 0 (walk_start String_ root) [] false false) as E.
  unfold walkProvenanceClosure in *. rewrite H1, H2 in E. cbn in E. injection E as -> -> -> -> ->. done.
Qed.
End fenced.

(** ** The endpoint *)

Section endpoint.
Variable String_ : jsval → string.
Variable am : Ambient.

Record FactVisibilityGates := {
  vg_scopeUserId : option string;
  vg_principalTags : option PrincipalScope;
  vg_rowPolicy : ClosureFactRow → bool
}.

Definition record_scope (v : jsval) : list string :=
  match v with VArr raws => map String_ raws | _ => [] end.

Definition factVisible (gates : FactVisibilityGates) (fact : ClosureFactRow) : bool :=
  if negb (bool_decide (owner_of fact = "")) && negb (bool_decide (Some (owner_of fact) = vg_scopeUserId gates))
  then false
  else if match vg_principalTags gates with
          | Some tags => negb (visibleUnderScope am (record_scope (cf_scope fact)) tags)
          | None => false
          end
  then false
  else vg_rowPolicy gates fact.

(** The episode reads: one per owner, under whose name it runs and what it asks for. *)
Definition group_owner (byOwner : list (string * list string)) (kv : string * string) :
    list (string * list string) :=
  OMap.set kv.2 (app (default [] (OMap.get kv.2 byOwner)) [kv.1]) byOwner.

Definition episode_reads (scopeUserId : option string) (episodes : list (string * string)) :
    list (option string * list string) :=
  map (λ g, (if bool_decide (g.1 = "") then scopeUserId else Some g.1, g.2)) (fold_left group_owner episodes []).

Lemma group_owner_spec eps byOwner o ids :
  OMap.wf byOwner →
  (o, ids) ∈ fold_left group_owner eps byOwner →
  ∀ id, id ∈ ids → (id, o) ∈ eps ∨ ∃ ids0, (o, ids0) ∈ byOwner ∧ id ∈ ids0.
Proof.
  revert byOwner. induction eps as [|[e w] eps IH]; intros byOwner Hwf Hin id Hid; cbn [fold_left] in Hin; [by eauto|].
  destruct (IH (group_owner byOwner (e, w)) (OMap.wf_set _ _ _ Hwf) Hin id Hid) as [H|(ids0 & H & Hi)]; [left; by right|].
  apply (OMap.elem_get _ _ _ (OMap.wf_set _ _ _ Hwf)) in H. cbn in H. rewrite OMap.get_set in H.
  case_bool_decide as Ho; [|by right; exists ids0; split; [by apply OMap.get_elem|]].
  injection H as <-. subst w. apply elem_of_app in Hi as [Hi|Hi%list_elem_of_singleton]; [|subst; left; by left].
  right. destruct (OMap.get o byOwner) as [l|] eqn:E; cbn in Hi; [|by apply elem_of_nil in Hi].
  exists l. split; [by apply OMap.get_elem|done].
Qed.

Lemma group_owner_nonempty eps byOwner o ids :
  (∀ o ids, (o, ids) ∈ byOwner → ids ≠ []) → OMap.wf byOwner →
  (o, ids) ∈ fold_left group_owner eps byOwner → ids ≠ [].
Proof.
  revert byOwner. induction eps as [|[e w] eps IH]; intros byOwner Hne Hwf; cbn [fold_left]; [by apply Hne|].
  apply IH; [|by apply OMap.wf_set]. intros o' ids' Hin.
  apply (OMap.elem_get _ _ _ (OMap.wf_set _ _ _ Hwf)) in Hin. cbn in Hin. rewrite OMap.get_set in Hin.
  case_bool_decide; [injection Hin as <-; by destruct (default [] _)|]. by apply (Hne o'), OMap.get_elem.
Qed.

(** Provenance is read under the caller's own name: when the walk starts at a fact
    the caller may see and is fenced by the same verdict, every read of the grounding
    episodes runs under the user the caller is pinned to - never under another fact's
    owner - and asks only for episodes that ground a fact the caller may see. *)
Theorem provenance_reads_stay_pinned gates caps fetchByIds fetchEdges fuel root table edges res u ids
    (Hok : reads_ok String_ table edges fetchByIds fetchEdges root)
    (Hroot : factVisible gates root = true)
    (Hres : walkProvenanceClosure String_ caps (factVisible gates) fetchByIds fetchEdges fuel root = Some res)
    (Hread : (u, ids) ∈ episode_reads (vg_scopeUserId gates) (pr_episodes res)) :
  u = vg_scopeUserId gates ∧
  ∀ id, id ∈ ids → ∃ f, stamps String_ f id ∧ factVisible gates f = true.
Proof.
  destruct (walk_harvested String_ caps (factVisible gates) fetchByIds fetchEdges root fuel [root] 0
    (walk_start String_ root) [] false res []) as (s & [H1 _ _ H4] & Heps & _); [done| |done|].
  { split; cbn; [done| |lia|constructor]. by intros _ ? ? ?%elem_of_nil. }
  destruct (walk_found String_ table edges caps (factVisible gates) fetchByIds fetchEdges root fuel [root] 0
    (walk_start String_ root) [] false res Hok) as [Hf _]; [by eapply walk_start_walking|done|].
  assert (Hsee : ∀ f, f ∈ root :: map fst (pr_closureFacts res) → factVisible gates f = true).
  { intros f [->|([r d] & -> & Hin)%list_elem_of_fmap]%elem_of_cons; [done|].
    destruct (Hf r d Hin) as (Hs & ? & _). destruct Hs; [lia|done]. }
  apply list_elem_of_fmap in Hread as ([o ids'] & [= -> ->] & Hin).
  assert (Hfrom : ∀ id, id ∈ ids' → ∃ f, stamps String_ f id ∧ owner_of f = o ∧ factVisible gates f = true).
  { intros id Hid. destruct (group_owner_spec _ [] o ids' (NoDup_nil_2 : OMap.wf []) Hin id Hid)
      as [He|(? & Hno & _)]; [|by apply elem_of_nil in Hno].
    rewrite Heps in He. apply OMap.elem_get in He; [|done]. destruct (H1 id o He) as (f & Hin' & Hs & Ho).
    exists f. auto. }
  split; [|intros id Hid; destruct (Hfrom id Hid) as (f & ? & _ & ?); eauto].
  assert (Hne : ids' ≠ []) by (eapply (group_owner_nonempty _ [] o ids'); [by intros ? ? ?%elem_of_nil|constructor|done]).
  destruct ids' as [|id ids']; [done|]. destruct (Hfrom id) as (f & _ & <- & Hv); [by left|].
  cbn. case_bool_decide as Ho; [done|]. unfold factVisible in Hv.
  rewrite (bool_decide_eq_false_2 _ Ho) in Hv. cbn in Hv. by case_bool_decide.
Qed.

(** The summary of the answer. *)
Definition closure_depth (res : ProvenanceClosureResult) : nat :=
  fold_left (λ acc c, Nat.max acc c.2) (pr_closureFacts res) 0.

Definition closure_truncated (res : ProvenanceClosureResult) : bool :=
  tr_depth (pr_truncated res) || tr_fanout (pr_truncated res) || tr_episodes (pr_truncated res).
End endpoint.

(** ** A summary of two members *)

Definition fact_row (id : string) (user : jsval) (from : list string) (eps : list string) : ClosureFactRow :=
  {| cf_id := VStr id; cf_predicate := VStr "status"; cf_status := VStr "active"; cf_userId := user;
     cf_scope := VUndef; cf_source := VObj [("episodeIds", VArr (map VStr eps))];
     cf_derivedFrom := VArr (map VStr from) |}.

Definition summary : ClosureFactRow :=
  fact_row "knowledge_fact:s" VUndef ["knowledge_fact:a"; "knowledge_fact:b"] ["episode:1"].
Definition member_a : ClosureFactRow := fact_row "knowledge_fact:a" VUndef ["knowledge_fact:s"] ["episode:1"; "episode:2"].
Definition member_b : ClosureFactRow := fact_row "knowledge_fact:b" (VStr "bob") ["knowledge_fact:c"] ["episode:3"].
Definition member_c : ClosureFactRow := fact_row "knowledge_fact:c" VUndef [] ["episode:4"].
Definition member_d : ClosureFactRow := fact_row "knowledge_fact:d" VUndef [] ["episode:5"].

Definition memory : list ClosureFactRow := [summary; member_a; member_b; member_c; member_d].

(** The same memory, where bob's fact says something else. *)
Definition memory' : list ClosureFactRow :=
  [summary; member_a; fact_row "knowledge_fact:b" (VStr "bob") [] ["episode:9"]; member_c; member_d].

(** A summary that derives from the fourth fact through the support graph. *)
Definition support_rows : list ClosureEdgeRow :=
  [{| ce_in := VStr "knowledge_fact:a"; ce_out := VStr "knowledge_fact:d"; ce_kind := VStr "derived_from" |}].

Definition text_of : jsval → string := js_to_string (λ _, "").

Definition select_ids (rows : list ClosureFactRow) (ids : list string) : list ClosureFactRow :=
  List.filter (λ r, bool_decide (row_id text_of r ∈ ids)) rows.

Definition select_edges (ids : list string) : list ClosureEdgeRow :=
  List.filter (λ e, bool_decide (text_of (ce_in e) ∈ ids)) support_rows.

Definition nobody : Ambient :=
  {| am_authUserId := None; am_actingCircle := None; am_scopeTags := []; am_jobCircle := None;
     am_writeScope := None; am_scopeTagsEnabled := false |}.

Definition tenant_gates : FactVisibilityGates :=
  {| vg_scopeUserId := Some "alice"; vg_principalTags := None; vg_rowPolicy := λ _, true |}.

Definition small_caps : ProvenanceClosureCaps := {| cap_maxDepth := 3; cap_maxFacts := 10; cap_maxEpisodes := 10 |}.

Definition sample_walk (rows : list ClosureFactRow) : option ProvenanceClosureResult :=
  walkProvenanceClosure text_of small_caps (factVisible text_of nobody tenant_gates) (select_ids rows)
    (Some select_edges) 4 summary.

Definition sample_result : ProvenanceClosureResult :=
  default (finish (walk_start text_of summary) [] false) (sample_walk memory).

Lemma sample_walk_ok : sample_walk memory = Some sample_result.
Proof. by vm_compute. Qed.

Lemma sample_reads_ok : reads_ok text_of memory support_rows (select_ids memory) (Some select_edges) summary.
Proof.
  split.
  - by vm_compute; repeat (constructor; [set_solver|]); constructor.
  - by left.
  - intros ids r. unfold select_ids. rewrite elem_of_bfilter, bool_decide_eq_true. done.
  - intros ids. apply NoDup_bfilter. apply (NoDup_fmap_1 (row_id text_of)).
    by vm_compute; repeat (constructor; [set_solver|]); constructor.
  - intros fetch ids e [= <-]. unfold select_edges. rewrite elem_of_bfilter, bool_decide_eq_true. done.
  - intros e [->|He]%elem_of_cons; [by vm_compute|by apply elem_of_nil in He].
Qed.

Lemma walk_serves_the_visible_support_witness :
  tr_depth (pr_truncated sample_result) = false ∧ tr_fanout (pr_truncated sample_result) = false ∧
  ∃ d, d ≤ 2 ∧ (member_d, d) ∈ pr_closureFacts sample_result.
Proof.
  split; [by vm_compute|]. split; [by vm_compute|].
  apply (proj2 (walk_serves_the_visible_support text_of memory support_rows small_caps
    (factVisible text_of nobody tenant_gates) (select_ids memory) (Some select_edges) summary 4 sample_result
    sample_reads_ok sample_walk_ok)); [by vm_compute|by vm_compute| |done].
  eapply (sup_step _ _ _ _ _ _ 1 member_a); [eapply (sup_step _ _ _ _ _ _ 0 summary)|..].
  - constructor.
  - left. vm_compute. by left.
  - vm_compute. right. by left.
  - by vm_compute.
  - right. split; [done|]. eexists. split; [by left|]. by vm_compute.
  - vm_compute. do 4 right. by left.
  - by vm_compute.
Defined.

Lemma fenced_facts_leave_no_trace_witness :
  ∃ r, sample_walk memory' = Some r ∧ pr_episodes sample_result = pr_episodes r ∧
    select_ids memory ["knowledge_fact:b"] ≠ select_ids memory' ["knowledge_fact:b"].
Proof.
  destruct (sample_walk memory') as [r|] eqn:E; [|by vm_compute in E]. exists r. split; [done|].
  split; [|by vm_compute].
  refine (proj1 (proj2 (fenced_facts_leave_no_trace text_of small_caps (factVisible text_of nobody tenant_gates)
    (select_ids memory) (select_ids memory') (Some select_edges) 4 summary sample_result r _ sample_walk_ok E))).
  intros ids. unfold select_ids, memory, memory'. cbn [List.filter].
  repeat case_bool_decide; cbn [List.filter]; by vm_compute.
Defined.

Lemma evidence_is_the_union_witness : is_Some (OMap.get "episode:5" (pr_episodes sample_result)).
Proof.
  apply (proj1 (proj2 (evidence_is_the_union text_of memory support_rows small_caps
    (factVisible text_of nobody tenant_gates) (select_ids memory) (Some select_edges) summary 4 sample_result
    sample_reads_ok sample_walk_ok)) eq_refl member_d).
  - vm_compute. do 2 right. by left.
  - split; [by vm_compute|]. eexists. split; [by vm_compute|]. vm_compute. by left.
Defined.

Lemma provenance_reads_stay_pinned_witness :
  Some "alice" = vg_scopeUserId tenant_gates ∧
  ∃ f, stamps text_of f "episode:5" ∧ factVisible text_of nobody tenant_gates f = true.
Proof.
  destruct (provenance_reads_stay_pinned text_of nobody tenant_gates small_caps (select_ids memory)
    (Some select_edges) 4 summary memory support_rows sample_result (Some "alice")
    ["episode:1"; "episode:2"; "episode:5"] sample_reads_ok eq_refl sample_walk_ok) as [H1 H2].
  - vm_compute. by left.
  - split; [done|]. apply H2. do 2 right. by left.
Defined.
