(* ===== verification/AnswerEvidence.v ===== *)
(** * The evidence a cached answer rests on

    [answer-cache/dependencies.ts], [answer-cache/record-id.ts],
    [synthesize/evidence-visibility.ts] and [mediaPiiAllowed] of [common/media-pii.ts]:
    the arms of an answer's citations, the fence, the lifecycle and the stamp of each
    kind of evidence. [String] of a number and the hash are parameters; instants are
    integers. *)

From S2P Require Import Prelude Js TenantScope.
From Stdlib Require Import Ascii.
Local Open Scope string_scope.
Local Open Scope nat_scope.

Inductive InvalidationCause : Type :=
| ISuperseded | IRetracted | IExpiredValidity | IMissing | INewerFact | INewerBelief | IDependencyChanged.

#[export] Instance InvalidationCause_eq_dec : EqDecision InvalidationCause.
Proof. solve_decision. Defined.

Inductive CachedDependencyKind : Type := KBelief | KEpisode | KFragment | KScene | KEdge.

#[export] Instance CachedDependencyKind_eq_dec : EqDecision CachedDependencyKind.
Proof. solve_decision. Defined.

Record CachedDependency := { cd_kind : CachedDependencyKind; cd_id : string; cd_rev : string }.

Definition dependency_kind_name (k : CachedDependencyKind) : string :=
  match k with
  | KBelief => "belief" | KEpisode => "episode" | KFragment => "fragment"
  | KScene => "scene" | KEdge => "edge"
  end.

Definition DEPENDENCY_KINDS : list CachedDependencyKind := [KBelief; KEpisode; KFragment; KScene; KEdge].

Definition MUTABLE_DEPENDENCY_KINDS : list CachedDependencyKind := [KBelief; KFragment; KScene].

(** The columns of the five tables' rows; [validUntil] is an instant. *)
Record DependencyRow := {
  de_userId : jsval;
  de_revision : jsval;
  de_status : jsval;
  de_supersededBy : jsval;
  de_validUntil : option Z;
  de_quarantineStatus : jsval;
  de_gist : jsval;
  de_enrichedGist : jsval;
  de_unexpectedDetails : jsval;
  de_userIds : jsval;
  de_piiClass : jsval;
  de_piiClasses : jsval;
  de_segmenterVersion : jsval;
  de_assetUserId : jsval;
  de_assetAvailability : jsval;
  de_subject : jsval;
  de_createdAt : Z;
  de_invalidatedAt : jsval;
  de_kind : option string;
  de_in : option string;
  de_fromName : option string;
  de_toName : option string
}.

(** ** Citations and their arms *)

Definition isRecordId (v : string) : bool := has_char ":"%char v && (2 <? String.length v).

Definition record_id (v : option string) : option string :=
  match v with Some s => if isRecordId s then Some s else None | None => None end.

Record EvidenceCitation := {
  ec_beliefId : option string;
  ec_episodeId : option string;
  ec_fragmentId : option string;
  ec_sceneId : option string
}.

Definition dependencyArm (c : EvidenceCitation) : option (CachedDependencyKind * string) :=
  match record_id (ec_beliefId c), record_id (ec_episodeId c), record_id (ec_fragmentId c), record_id (ec_sceneId c) with
  | Some i, _, _, _ => Some (KBelief, i)
  | None, Some i, _, _ => Some (KEpisode, i)
  | None, None, Some i, _ => Some (KFragment, i)
  | None, None, None, Some i => Some (KScene, i)
  | None, None, None, None => None
  end.

(** The loop of [dependenciesOf], before the sort. *)
Fixpoint arms_of (out : list (CachedDependencyKind * string)) (cs : list EvidenceCitation) :
    option (list (CachedDependencyKind * string)) :=
  match cs with
  | [] => Some out
  | c :: cs' => match dependencyArm c with
                | None => None
                | Some dep => arms_of (add_new out dep) cs'
                end
  end.

(** A stable sort by the kind's place. *)
Definition by_kind (out : list (CachedDependencyKind * string)) : list (CachedDependencyKind * string) :=
  concat (map (λ k, List.filter (λ d, bool_decide (d.1 = k)) out) DEPENDENCY_KINDS).

Definition dependenciesOf (evidenceCitations : list EvidenceCitation) :
    option (list (CachedDependencyKind * string)) :=
  by_kind <$> arms_of [] evidenceCitations.

Definition citationOfDependency (dep : CachedDependency) : option EvidenceCitation :=
  match cd_kind dep with
  | KBelief => Some {| ec_beliefId := Some (cd_id dep); ec_episodeId := None; ec_fragmentId := None; ec_sceneId := None |}
  | KEpisode => Some {| ec_beliefId := None; ec_episodeId := Some (cd_id dep); ec_fragmentId := None; ec_sceneId := None |}
  | KFragment => Some {| ec_beliefId := None; ec_episodeId := None; ec_fragmentId := Some (cd_id dep); ec_sceneId := None |}
  | KScene => Some {| ec_beliefId := None; ec_episodeId := None; ec_fragmentId := None; ec_sceneId := Some (cd_id dep) |}
  | KEdge => None
  end.

Record Citation := {
  ci_factId : string;
  ci_entityId : string;
  ci_canonicalName : string;
  ci_predicate : string;
  ci_slot : string;
  ci_object : string
}.

Definition isEdgeCitation (c : Citation) : bool := starts_with "knowledge_edge:" (ci_factId c).

Definition edgeCitation (id : string) (row : DependencyRow) : Citation :=
  {| ci_factId := id; ci_entityId := default "" (de_in row); ci_canonicalName := default "" (de_fromName row);
     ci_predicate := default "" (de_kind row); ci_slot := "edge:" +:+ default "" (de_kind row);
     ci_object := default "" (de_toName row) |}.

(** A stored entry, as the row holds it: [isCachedDependency] is that it reads. *)
Definition kind_named (s : string) : option CachedDependencyKind :=
  find_first (λ k, bool_decide (dependency_kind_name k = s)) DEPENDENCY_KINDS.

Definition cached_dependency (v : jsval) : option CachedDependency :=
  match v with
  | VObj fields =>
      match obj_get fields "kind", obj_get fields "id", obj_get fields "rev" with
      | VStr k, VStr i, VStr r =>
          match kind_named k with
          | Some kind => if isRecordId i then Some {| cd_kind := kind; cd_id := i; cd_rev := r |} else None
          | None => None
          end
      | _, _, _ => None
      end
  | _ => None
  end.

Definition isCachedDependency (v : jsval) : bool := bool_decide (is_Some (cached_dependency v)).

(** How an admitted entry is stored. *)
Definition stored_dependency (d : CachedDependency) : jsval :=
  VObj [("kind", VStr (dependency_kind_name (cd_kind d))); ("id", VStr (cd_id d)); ("rev", VStr (cd_rev d))].

(** ** The fences of the lanes *)

Record EvidenceCaller := { ev_callerScopes : list string; ev_userId : option string }.
Record EvidenceWorldState := { ev_sceneWorld : option string; ev_mediaConsent : bool }.
Record EvidenceFences := { ev_caller : EvidenceCaller; ev_world : EvidenceWorldState }.

(** [typeof owner === 'string' && owner.length > 0 ? owner : null] *)
Definition stamped_owner (owner : jsval) : option string :=
  match owner with VStr s => truthy (Some s) | _ => None end.

Definition ownerVisible (owner : jsval) (userId : option string) : bool :=
  match stamped_owner owner with
  | None => true
  | Some s => bool_decide (userId = Some s)
  end.

Definition textPiiVisible (piiClass : jsval) (callerScopes : list string) : bool :=
  if bool_decide ("brain:read_pii" ∈ callerScopes) then true else negb (present piiClass).

Definition mediaPiiAllowed (piiClasses : option (list string)) (callerScopes : list string) : bool :=
  if bool_decide ("brain:read_media" ∈ callerScopes) then true
  else match piiClasses with Some l => length l =? 0 | None => false end.

Section evidence.
Variable num_to_string : float → string.
Variable sha256 : string → string.

Definition String_or_empty (v : jsval) : string := if present v then js_to_string num_to_string v else "".

Definition stringArray (v : jsval) : option (list string) :=
  match v with VArr l => Some (map (js_to_string num_to_string) l) | _ => None end.

Definition fragmentVisible (row : DependencyRow) (caller : EvidenceCaller) (world : EvidenceWorldState) : bool :=
  ev_mediaConsent world &&
  mediaPiiAllowed (stringArray (de_piiClasses row)) (ev_callerScopes caller) &&
  ownerVisible (de_assetUserId row) (ev_userId caller) &&
  negb (bool_decide (String_or_empty (de_assetAvailability row) = "gone")).

Definition sceneVisible (row : DependencyRow) (caller : EvidenceCaller) (world : EvidenceWorldState) : bool :=
  match ev_userId caller with
  | None => false
  | Some u =>
      sceneVisibleToUser (de_userId row) (de_userIds row) u &&
      textPiiVisible (de_piiClass row) (ev_callerScopes caller) &&
      match truthy (ev_sceneWorld world) with
      | None => false
      | Some live => bool_decide (String_or_empty (de_segmenterVersion row) = live)
      end
  end.

Definition episodeVisible (row : DependencyRow) (caller : EvidenceCaller) : bool :=
  textPiiVisible (de_piiClass row) (ev_callerScopes caller) && ownerVisible (de_userId row) (ev_userId caller).

Definition beliefLaneVisible (row : DependencyRow) (caller : EvidenceCaller) : bool :=
  ownerVisible (de_userId row) (ev_userId caller).

(** The edge fence: tenant-global, or the caller's own. *)
Definition edge_visible (row : DependencyRow) (caller : EvidenceCaller) : bool :=
  negb (present (de_userId row)) ||
  match ev_userId caller with Some u => strict_eq (de_userId row) (VStr u) | None => false end.

Definition dependencyVisible (kind : CachedDependencyKind) (row : DependencyRow) (fences : EvidenceFences) : bool :=
  let caller := ev_caller fences in
  let world := ev_world fences in
  match kind with
  | KBelief => beliefLaneVisible row caller
  | KEpisode => episodeVisible row caller
  | KFragment => fragmentVisible row caller world
  | KScene => sceneVisible row caller world
  | KEdge => edge_visible row caller
  end.

(** ** Stamps and lifecycles *)

Definition beliefStamp (row : DependencyRow) : string := String_or_empty (de_revision row).
Definition episodeStamp : string := "".
Definition fragmentStamp (row : DependencyRow) : string := String_or_empty (de_quarantineStatus row).

Definition LF : string := String (Ascii.ascii_of_nat 10) "".
Definition US : string := String (Ascii.ascii_of_nat 31) "".

Definition sceneStamp (row : DependencyRow) : string :=
  let details := match de_unexpectedDetails row with
                 | VArr l => join_with US (map (js_to_string num_to_string) l)
                 | _ => ""
                 end in
  str_take 16 (sha256 (String_or_empty (de_gist row) +:+ LF +:+ String_or_empty (de_enrichedGist row)
                         +:+ LF +:+ details)).

Definition dependencyRev (kind : CachedDependencyKind) (row : DependencyRow) : string :=
  match kind with
  | KBelief => beliefStamp row
  | KEpisode => episodeStamp
  | KFragment => fragmentStamp row
  | KScene => sceneStamp row
  | KEdge => ""
  end.

Definition dependencyLifecycle (now : Z) (kind : CachedDependencyKind) (row : DependencyRow) :
    option InvalidationCause :=
  match kind with
  | KBelief =>
      if strict_eq (de_status row) (VStr "superseded") || present (de_supersededBy row) then Some ISuperseded
      else if negb (strict_eq (de_status row) (VStr "active")) then Some IMissing
      else match de_validUntil row with
           | Some u => if (u <=? now)%Z then Some IExpiredValidity else None
           | None => None
           end
  | KFragment => if strict_eq (de_quarantineStatus row) (VStr "rejected") then Some IMissing else None
  | KEdge => if present (de_invalidatedAt row) then Some ISuperseded else None
  | _ => None
  end.
End evidence.

(** ** Storing an entry and reading it back *)

Lemma kind_named_name k : kind_named (dependency_kind_name k) = Some k.
Proof. by destruct k. Qed.

Lemma stored_dependency_reads d :
  isRecordId (cd_id d) = true → cached_dependency (stored_dependency d) = Some d.
Proof.
  destruct d as [k i r]. cbn [cd_id]. intros Hd. unfold stored_dependency, cached_dependency. cbn [cd_kind cd_id cd_rev].
  rewrite (obj_get_own _ "kind" (VStr (dependency_kind_name k))) by done.
  rewrite (obj_get_own _ "id" (VStr i)) by done. rewrite (obj_get_own _ "rev" (VStr r)) by done.
  by rewrite kind_named_name, Hd.
Qed.

Lemma arm_is_record_id c dep : dependencyArm c = Some dep → isRecordId dep.2 = true.
Proof.
  unfold dependencyArm, record_id. intros H. repeat case_match; simplify_eq; done.
Qed.

Lemma arms_of_spec out cs arms :
  arms_of out cs = Some arms →
  ∀ d, d ∈ arms ↔ d ∈ out ∨ ∃ c, c ∈ cs ∧ dependencyArm c = Some d.
Proof.
  revert out. induction cs as [|c cs IH]; intros out; cbn [arms_of].
  - intros [= ->] d. split; [by left|]. intros [?|(c & Hc & _)]; [done|by apply elem_of_nil in Hc].
  - destruct (dependencyArm c) as [dep|] eqn:E; [|done]. intros H d. rewrite (IH _ H d), elem_of_add_new. split.
    + intros [ [? | ->] |(c' & Hc & ?)]; [by left|right; exists c; split; [by left|done]|right; exists c'; set_solver].
    + intros [?|(c' & [->|Hc]%elem_of_cons & Hd)]; [by left; left| |by right; eauto]. left. right. congruence.
Qed.

Lemma elem_of_by_kind d l : d ∈ by_kind l ↔ d ∈ l.
Proof.
  unfold by_kind, DEPENDENCY_KINDS. cbn [map concat]. rewrite !elem_of_app, !elem_of_bfilter, !bool_decide_eq_true.
  split; [intros [[? _]|[[? _]|[[? _]|[[? _]|[[? _]|H]]]]]; try done; by apply elem_of_nil in H|].
  intros Hd. destruct d as [[] i]; tauto.
Qed.

(** The arms are those of the citations; one without an arm blocks them all. *)
Lemma dependenciesOf_spec cs arms :
  dependenciesOf cs = Some arms → ∀ d, d ∈ arms ↔ ∃ c, c ∈ cs ∧ dependencyArm c = Some d.
Proof.
  unfold dependenciesOf. intros (out & Ho & ->)%fmap_Some d. rewrite elem_of_by_kind, (arms_of_spec [] cs out Ho d).
  split; [intros [H|?]; [by apply elem_of_nil in H|done]|by right].
Qed.
