(* ===== verification/AnswerCache.v ===== *)
(** * The answer cache

    [answer-cache/answer-cache.service.ts]: which requests share an entry, when an answer
    is admitted and with which stamps, and the check on every read. A call is a sequence
    of queries; the two marks a read leaves on the row ([invalidate], [recordServe]) are
    statements of their own, and the first is subject to the column's assertion of
    migration 0136. The hash, the row policy ([PolicyRows]), the consent rule over the
    active packs, the shape detector and [parseInt] are parameters; a query that fails
    outright (the caller then answers without the cache) is left out. *)

From S2P Require Import Prelude Js Resume ScopeTags TenantScope AnswerEvidence.
From stdpp Require Import gmap.
From Stdlib Require Import Ascii.
Local Open Scope string_scope.
Local Open Scope nat_scope.

(** ** Rows *)

Record CitedFactRow := {
  fr_predicate : string;
  fr_predicateAlias : option string;
  fr_object : string;
  fr_entityId : option string;
  fr_status : string;
  fr_validUntil : option Z;
  fr_expectedUntil : option Z;
  fr_retractedAt : option Z;
  fr_userId : option string;
  fr_recordedAt : Z
}.

Record CacheRow := {
  cr_companyId : string;
  cr_userId : option string;
  cr_queryHash : string;
  cr_answer : string;
  cr_citedFactIds : list string;
  cr_entityIds : list string;
  cr_dependencies : option (list jsval);
  cr_beliefSubjects : option (list string);
  cr_createdAt : Z;
  cr_expiresAt : Z;
  cr_hitCount : nat;
  cr_lastServedAt : option Z;
  cr_invalidatedAt : option Z;
  cr_invalidationCause : option InvalidationCause
}.

Record IndexerRun := {
  ir_status : string;
  ir_packId : string;
  ir_external : option bool;
  ir_createdAt : Z;
  ir_docUserId : option string
}.

Record Projection := { pj_name : string; pj_status : string; pj_version : jsval; pj_finishedAt : Z }.

(** The tenant's tables the cache reads, the cache itself and the datastore's clock. *)
Record Store := {
  st_facts : gmap string CitedFactRow;
  st_names : gmap string string;
  st_evidence : list ((CachedDependencyKind * string) * DependencyRow);
  st_runs : list IndexerRun;
  st_projections : list Projection;
  st_packs : list jsval;
  st_cache : gmap string CacheRow;
  st_now : Z
}.

Definition with_cache (c : gmap string CacheRow) (s : Store) : Store :=
  {| st_facts := st_facts s; st_names := st_names s; st_evidence := st_evidence s; st_runs := st_runs s;
     st_projections := st_projections s; st_packs := st_packs s; st_cache := c; st_now := st_now s |}.

(** [SELECT id, canonicalName FROM knowledge_entity WHERE id INSIDE $entityIds] *)
Definition named (entityIds : list string) (s : Store) : Store :=
  {| st_facts := st_facts s;
     st_names := filter (λ kv : string * string, kv.1 ∈ entityIds) (st_names s);
     st_evidence := st_evidence s; st_runs := st_runs s;
     st_projections := st_projections s; st_packs := st_packs s; st_cache := st_cache s; st_now := st_now s |}.

(** [AnswerCacheStoreContext] *)
Record StoreContext := {
  cx_key : string;
  cx_companyId : string;
  cx_userId : option string;
  cx_callerScopes : list string;
  cx_isEnumeration : bool;
  cx_renderedStamps : option (list ((CachedDependencyKind * string) * string))
}.

Definition ANSWER_CACHE_PROMPT_VERSION : string := "4".
Definition FRESHNESS_PROBE_CAP : nat := 25.
Definition GENERAL_INDEXER_ID : string := "_general".

(** ** Keys *)

(** [NFC] changes no text of 8-bit code units. *)
Definition normalizeQuery (query : string) : string := trim (collapse_spaces false query).

Inductive ReadPin : Type := PinNone | PinOne (v : string) | PinUnion (vs : list string).

Definition canonicalDerivedPin (pin : ReadPin) : string :=
  match pin with
  | PinNone => "-"
  | PinOne v => v
  | PinUnion vs => join_with "+" (sorted_set vs)
  end.

Section cache.
Variable num_to_string : float → string.
Variable sha256 : string → string.
Variable rowPolicy : CitedFactRow → bool.
Variable hasCurrentModalityConsent : list jsval → bool.

Definition computeScopeHash (callerScopes : list string) : string :=
  sha256 (join_with " " (sorted_set callerScopes)).

Record AnswerCacheKeyInput := {
  ki_companyId : string;
  ki_userId : option string;
  ki_profileHash : string;
  ki_model : string;
  ki_derivedVersionPin : ReadPin;
  ki_scopeHash : string;
  ki_query : string
}.

Definition key_fields (i : AnswerCacheKeyInput) : list string :=
  [ki_companyId i; default "-" (ki_userId i); ki_scopeHash i; ki_profileHash i; ki_model i;
   ANSWER_CACHE_PROMPT_VERSION; canonicalDerivedPin (ki_derivedVersionPin i); normalizeQuery (ki_query i)].

Definition computeCacheKey (i : AnswerCacheKeyInput) : string := sha256 (join_with "|" (key_fields i)).

(** [buildContext]: whose answer, under which key. *)
Record CacheRequest := {
  rq_companyId : string;
  rq_userId : option string;
  rq_callerScopes : list string;
  rq_profileHash : string;
  rq_model : string;
  rq_pin : ReadPin;
  rq_query : string
}.

Definition key_input (am : Ambient) (r : CacheRequest) : AnswerCacheKeyInput :=
  {| ki_companyId := rq_companyId r; ki_userId := truthy (rq_userId r); ki_profileHash := rq_profileHash r;
     ki_model := rq_model r; ki_derivedVersionPin := rq_pin r;
     ki_scopeHash := computeScopeHash (app (rq_callerScopes r) (actingCircleTags am));
     ki_query := normalizeQuery (rq_query r) |}.

Definition buildContext (am : Ambient) (isEnumeration : bool) (r : CacheRequest) : StoreContext :=
  {| cx_key := computeCacheKey (key_input am r); cx_companyId := rq_companyId r;
     cx_userId := truthy (rq_userId r); cx_callerScopes := rq_callerScopes r;
     cx_isEnumeration := isEnumeration; cx_renderedStamps := None |}.

(** ** Queries *)

Definition user_column (ctx : StoreContext) (u : option string) : bool := bool_decide (u = cx_userId ctx).

Definition find_row (ctx : StoreContext) (s : Store) : option CacheRow :=
  match st_cache s !! cx_key ctx with
  | Some row => if bool_decide (cr_companyId row = cx_companyId ctx) && bool_decide (cr_queryHash row = cx_key ctx)
                   && user_column ctx (cr_userId row)
                then Some row else None
  | None => None
  end.

Definition pending_run (ctx : StoreContext) (answeredAt : Z) (r : IndexerRun) : bool :=
  (bool_decide (ir_status r = "pending") || bool_decide (ir_status r = "running")) &&
  bool_decide (ir_packId r = GENERAL_INDEXER_ID) && negb (bool_decide (ir_external r = Some true)) &&
  (answeredAt <? ir_createdAt r)%Z &&
  match cx_userId ctx with
  | Some u => bool_decide (ir_docUserId r = None) || bool_decide (ir_docUserId r = Some u)
  | None => bool_decide (ir_docUserId r = None)
  end.

Definition understandingPending (ctx : StoreContext) (answeredAt : Z) (s : Store) : bool :=
  existsb (pending_run ctx answeredAt) (st_runs s).

(** [ORDER BY finishedAt DESC LIMIT 1] *)
Fixpoint latest_projection (l : list Projection) : option Projection :=
  match l with
  | [] => None
  | p :: l' => match latest_projection l' with
               | Some q => if (pj_finishedAt p <? pj_finishedAt q)%Z then Some q else Some p
               | None => Some p
               end
  end.

Definition live_scene_world (s : Store) : option string :=
  match latest_projection (List.filter (λ p, bool_decide (pj_name p = "scenes") && bool_decide (pj_status p = "live"))
                             (st_projections s)) with
  | Some p => match pj_version p with VStr v => truthy (Some v) | _ => None end
  | None => None
  end.

Definition fetchWorldState (kinds : list CachedDependencyKind) (s : Store) : EvidenceWorldState :=
  {| ev_sceneWorld := if bool_decide (KScene ∈ kinds) then live_scene_world s else None;
     ev_mediaConsent := if bool_decide (KFragment ∈ kinds) then hasCurrentModalityConsent (st_packs s) else false |}.

(** The rows by kind and id, of the dependencies asked for. *)
Definition fetchDependencyRows (deps : list (CachedDependencyKind * string)) (s : Store) :
    list ((CachedDependencyKind * string) * DependencyRow) :=
  List.filter (λ kv, bool_decide (kv.1 ∈ deps) && isRecordId kv.1.2) (st_evidence s).

(** The freshness probe: at most one page of newer facts on the cited entities, in
    whatever order the datastore keeps them. *)
Definition newer_candidate (ctx : StoreContext) (entityIds : list string) (since : Z) (f : CitedFactRow) : bool :=
  match fr_entityId f with Some e => bool_decide (e ∈ entityIds) | None => false end &&
  bool_decide (fr_status f = "active") && (since <? fr_recordedAt f)%Z &&
  (bool_decide (fr_userId f = None) ||
   match cx_userId ctx with Some u => bool_decide (fr_userId f = Some u) | None => false end).

Definition newer_facts (ctx : StoreContext) (entityIds : list string) (since : Z) (s : Store) : list CitedFactRow :=
  take (S FRESHNESS_PROBE_CAP)
    (List.filter (newer_candidate ctx entityIds since) (map snd (map_to_list (st_facts s)))).

Definition newer_belief (ctx : StoreContext) (subjects : list string) (since : Z)
    (kv : (CachedDependencyKind * string) * DependencyRow) : bool :=
  bool_decide (kv.1.1 = KBelief) &&
  match de_subject kv.2 with VStr x => bool_decide (x ∈ subjects) | _ => false end &&
  strict_eq (de_status kv.2) (VStr "active") && (since <? de_createdAt kv.2)%Z &&
  strict_eq (de_userId kv.2) (VStr (default "" (cx_userId ctx))).

Definition newer_beliefs (ctx : StoreContext) (subjects : list string) (since : Z) (s : Store) : bool :=
  existsb (newer_belief ctx subjects since) (st_evidence s).

(** ** Check on read *)

Definition fencedAway (fact : CitedFactRow) (scopeUserId : option string) : bool :=
  match scopeUserId, truthy (fr_userId fact) with
  | Some u, Some owner => negb (bool_decide (owner = u))
  | _, _ => false
  end.

Definition expectationPassedSince (jsNow : Z) (expectedUntil : option Z) (since : Z) : bool :=
  match expectedUntil with
  | Some at_ => (since <? at_)%Z && (at_ <=? jsNow)%Z
  | None => false
  end.

(** What one cited fact gives: the cause that kills the entry, or its citation. *)
Definition cited_fact (jsNow : Z) (scopeUserId : option string) (answerCreatedAt : Z) (s : Store) (id : string) :
    InvalidationCause + Citation :=
  match st_facts s !! id with
  | None => inl IMissing
  | Some fact =>
      if fencedAway fact scopeUserId || negb (rowPolicy fact) then inl IMissing
      else if bool_decide (fr_status fact = "retracted") || bool_decide (fr_retractedAt fact ≠ None) then inl IRetracted
      else if bool_decide (fr_status fact = "superseded") then inl ISuperseded
      else if negb (bool_decide (fr_status fact = "active")) then inl IMissing
      else if match fr_validUntil fact with Some u => (u <=? jsNow)%Z | None => false end then inl IExpiredValidity
      else if expectationPassedSince jsNow (fr_expectedUntil fact) answerCreatedAt then inl IExpiredValidity
      else inr {| ci_factId := id; ci_entityId := default "" (fr_entityId fact);
                  ci_canonicalName := default "" (st_names s !! default "" (fr_entityId fact));
                  ci_predicate := fr_predicate fact;
                  ci_slot := default (fr_predicate fact) (fr_predicateAlias fact);
                  ci_object := fr_object fact |}
  end.

Fixpoint evaluateCitedFacts (jsNow : Z) (scopeUserId : option string) (answerCreatedAt : Z) (s : Store)
    (ids : list string) : InvalidationCause + list Citation :=
  match ids with
  | [] => inr []
  | id :: ids' =>
      match cited_fact jsNow scopeUserId answerCreatedAt s id with
      | inl cause => inl cause
      | inr c => match evaluateCitedFacts jsNow scopeUserId answerCreatedAt s ids' with
                 | inl cause => inl cause
                 | inr cs => inr (c :: cs)
                 end
      end
  end.

Fixpoint evaluateDependencies (jsNow : Z) (deps : list jsval)
    (rows : list ((CachedDependencyKind * string) * DependencyRow)) (fences : EvidenceFences) :
    option InvalidationCause :=
  match deps with
  | [] => None
  | raw :: deps' =>
      match cached_dependency raw with
      | None => Some IMissing
      | Some d =>
          match OMap.get (cd_kind d, cd_id d) rows with
          | None => Some IMissing
          | Some row =>
              if negb (dependencyVisible num_to_string (cd_kind d) row fences) then Some IMissing
              else match dependencyLifecycle jsNow (cd_kind d) row with
                   | Some cause => Some cause
                   | None => if bool_decide (dependencyRev num_to_string sha256 (cd_kind d) row = cd_rev d)
                             then evaluateDependencies jsNow deps' rows fences
                             else Some IDependencyChanged
                   end
          end
      end
  end.

Definition hasNewerVisibleFact (newer : list CitedFactRow) (scopeUserId : option string) : bool :=
  if FRESHNESS_PROBE_CAP <? length newer then true
  else existsb (λ f, negb (fencedAway f scopeUserId) && rowPolicy f) newer.

Definition dep_key (d : CachedDependency) : CachedDependencyKind * string := (cd_kind d, cd_id d).

Definition edge_ids (deps : list CachedDependency) : list string :=
  map cd_id (List.filter (λ d, bool_decide (cd_kind d = KEdge)) deps).

(** [scopeUserId = pinUserScope(undefined)] *)
Definition caller_user (am : Ambient) : option string :=
  match pinUserScope am None with Ok u => u | Throw _ => None end.

Definition checkOnRead (am : Ambient) (ctx : StoreContext) (row : CacheRow) (callerScopes : list string)
    (jsNow : Z) : prog Store (InvalidationCause + list Citation) :=
  let ids := cr_citedFactIds row in
  match cr_dependencies row with
  | None => Done (inl IMissing)
  | Some dependencies =>
      let trackable := omap cached_dependency dependencies in
      let edgeIds := edge_ids trackable in
      let beliefSubjects := List.filter (λ x, negb (bool_decide (x = ""))) (default [] (cr_beliefSubjects row)) in
      if (length ids =? 0) && (length edgeIds =? 0) && (length beliefSubjects =? 0) then Done (inl IMissing)
      else
        let since := cr_createdAt row in
        do* world := query (fetchWorldState (map cd_kind trackable)) in
        do* rows := query (fetchDependencyRows (map dep_key trackable)) in
        do* facts := query (λ s, (evaluateCitedFacts jsNow (caller_user am) since (named (cr_entityIds row) s) ids,
                                  newer_facts ctx (cr_entityIds row) since s)) in
        do* beliefs := (if length beliefSubjects =? 0 then Done false
                        else query (newer_beliefs ctx beliefSubjects since)) in
        let '(cited, newer) := facts in
        Done match cited with
             | inl cause => inl cause
             | inr citations =>
                 let fences := {| ev_caller := {| ev_callerScopes := callerScopes; ev_userId := cx_userId ctx |};
                                  ev_world := world |} in
                 match evaluateDependencies jsNow dependencies rows fences with
                 | Some cause => inl cause
                 | None =>
                     if hasNewerVisibleFact newer (caller_user am) then inl INewerFact
                     else if beliefs then inl INewerBelief
                     else inr (app citations
                            (omap (λ id, edgeCitation id <$> OMap.get (KEdge, id) rows) edgeIds))
                 end
             end
  end.

(** ** Serving *)

(** The causes migration 0136 lets the column hold. *)
Definition cause_allowed (c : InvalidationCause) : bool :=
  match c with
  | ISuperseded | IRetracted | IExpiredValidity | IMissing | INewerFact | IDependencyChanged => true
  | INewerBelief => false
  end.

Definition invalidated (now : Z) (cause : InvalidationCause) (r : CacheRow) : CacheRow :=
  {| cr_companyId := cr_companyId r; cr_userId := cr_userId r; cr_queryHash := cr_queryHash r;
     cr_answer := cr_answer r; cr_citedFactIds := cr_citedFactIds r; cr_entityIds := cr_entityIds r;
     cr_dependencies := cr_dependencies r; cr_beliefSubjects := cr_beliefSubjects r;
     cr_createdAt := cr_createdAt r; cr_expiresAt := cr_expiresAt r; cr_hitCount := cr_hitCount r;
     cr_lastServedAt := cr_lastServedAt r; cr_invalidatedAt := Some now; cr_invalidationCause := Some cause |}.

Definition served (now : Z) (r : CacheRow) : CacheRow :=
  {| cr_companyId := cr_companyId r; cr_userId := cr_userId r; cr_queryHash := cr_queryHash r;
     cr_answer := cr_answer r; cr_citedFactIds := cr_citedFactIds r; cr_entityIds := cr_entityIds r;
     cr_dependencies := cr_dependencies r; cr_beliefSubjects := cr_beliefSubjects r;
     cr_createdAt := cr_createdAt r; cr_expiresAt := cr_expiresAt r; cr_hitCount := S (cr_hitCount r);
     cr_lastServedAt := Some now; cr_invalidatedAt := cr_invalidatedAt r;
     cr_invalidationCause := cr_invalidationCause r |}.

(** [UPDATE type::record($tb, $key) SET ... WHERE companyId = $companyId] *)
Definition update_cache_row (ctx : StoreContext) (g : Z → CacheRow → CacheRow) (s : Store) : Store :=
  match st_cache s !! cx_key ctx with
  | Some r => if bool_decide (cr_companyId r = cx_companyId ctx)
              then with_cache (<[cx_key ctx := g (st_now s) r]> (st_cache s)) s else s
  | None => s
  end.

(** A refused assertion throws, and the exception is logged. *)
Definition invalidate (ctx : StoreContext) (cause : InvalidationCause) : prog Store unit :=
  exec (λ s, if cause_allowed cause then update_cache_row ctx (λ now, invalidated now cause) s else s).

Definition recordServe (ctx : StoreContext) : prog Store unit := exec (update_cache_row ctx served).

Record ServedAnswer := {
  sa_answer : string;
  sa_citations : list Citation;
  sa_evidenceCitations : list EvidenceCitation
}.

Definition tryServe (am : Ambient) (ctx : StoreContext) (callerScopes : list string) (jsNow : Z) :
    prog Store (option ServedAnswer) :=
  do* found := query (find_row ctx) in
  match found with
  | None => Done None
  | Some row =>
      if bool_decide (cr_invalidatedAt row ≠ None) || (cr_expiresAt row <=? jsNow)%Z then Done None
      else
        do* waiting := query (understandingPending ctx (cr_createdAt row)) in
        if waiting then Done None
        else
          do* verdict := checkOnRead am ctx row callerScopes jsNow in
          match verdict with
          | inl cause => do* _ := invalidate ctx cause in Done None
          | inr citations =>
              do* _ := recordServe ctx in
              Done (Some {| sa_answer := cr_answer row; sa_citations := citations;
                            sa_evidenceCitations := omap citationOfDependency
                              (omap cached_dependency (default [] (cr_dependencies row))) |})
          end
  end.

Inductive BeginResult : Type := Bypass | Hit (a : ServedAnswer) | Miss (ctx : StoreContext).

(** [begin]: the flag, the requests that go round the cache, the lookup. *)
Definition begin (enabled explain isEnumeration : bool) (am : Ambient) (r : CacheRequest) (jsNow : Z) :
    prog Store BeginResult :=
  if negb enabled then Done Bypass
  else if explain || bool_decide (normalizeQuery (rq_query r) = "") then Done Bypass
  else
    let ctx := buildContext am isEnumeration r in
    do* hit := tryServe am ctx (rq_callerScopes r) jsNow in
    Done match hit with Some a => Hit a | None => Miss ctx end.

(** ** Admission *)

Inductive AuditVerdict : Type := Supported | Partial | Unsupported.

Record Audit := {
  au_verdict : AuditVerdict;
  au_questionAnswered : option bool;
  au_answerGiven : option bool
}.

Record SynthesizeResult := {
  sr_answer : option string;
  sr_reason : option string;
  sr_citations : list Citation;
  sr_evidenceCitations : list EvidenceCitation
}.

(** What the lanes rendered, by kind: id and stamp. *)
Definition observeRendered (belief fragment scene : list (string * option string)) (ctx : StoreContext) :
    StoreContext :=
  let stamps k l := omap (λ x, match x.2 with Some t => Some ((k, x.1), t) | None => None end) l in
  {| cx_key := cx_key ctx; cx_companyId := cx_companyId ctx; cx_userId := cx_userId ctx;
     cx_callerScopes := cx_callerScopes ctx; cx_isEnumeration := cx_isEnumeration ctx;
     cx_renderedStamps := Some (fold_left (λ m kv, OMap.set kv.1 kv.2 m)
       (app (stamps KBelief belief) (app (stamps KFragment fragment) (stamps KScene scene))) []) |}.

Definition subject_of (row : DependencyRow) : string :=
  match de_subject row with VStr x => trim x | _ => "" end.

(** One dependency at admission. *)
Definition stamp_one (ctx : StoreContext) (jsNow : Z) (fences : EvidenceFences)
    (rows : list ((CachedDependencyKind * string) * DependencyRow)) (dep : CachedDependencyKind * string) :
    option (CachedDependency * list string) :=
  match OMap.get dep rows with
  | None => None
  | Some row =>
      if negb (dependencyVisible num_to_string dep.1 row fences) then None
      else if bool_decide (dependencyLifecycle jsNow dep.1 row ≠ None) then None
      else
        let rev := dependencyRev num_to_string sha256 dep.1 row in
        if match cx_renderedStamps ctx with
           | Some snapshot => bool_decide (dep.1 ∈ MUTABLE_DEPENDENCY_KINDS) &&
                              negb (bool_decide (OMap.get dep snapshot = Some rev))
           | None => false
           end
        then None
        else Some ({| cd_kind := dep.1; cd_id := dep.2; cd_rev := rev |},
                   if bool_decide (dep.1 = KBelief) && negb (bool_decide (subject_of row = ""))
                   then [subject_of row] else [])
  end.

Fixpoint stamp_all (ctx : StoreContext) (jsNow : Z) (fences : EvidenceFences)
    (rows : list ((CachedDependencyKind * string) * DependencyRow))
    (wanted : list (CachedDependencyKind * string)) (subjects : list string) :
    option (list CachedDependency * list string) :=
  match wanted with
  | [] => Some ([], subjects)
  | dep :: wanted' =>
      match stamp_one ctx jsNow fences rows dep with
      | None => None
      | Some (d, subj) =>
          match stamp_all ctx jsNow fences rows wanted' (add_all subjects subj) with
          | None => None
          | Some (ds, subjects') => Some (d :: ds, subjects')
          end
      end
  end.

Definition stampDependencies (wanted : list (CachedDependencyKind * string)) (ctx : StoreContext) (jsNow : Z) :
    prog Store (option (list CachedDependency * list string)) :=
  if length wanted =? 0 then Done (Some ([], []))
  else
    do* world := query (fetchWorldState (map fst wanted)) in
    do* rows := query (fetchDependencyRows wanted) in
    Done (stamp_all ctx jsNow
      {| ev_caller := {| ev_callerScopes := cx_callerScopes ctx; ev_userId := cx_userId ctx |}; ev_world := world |}
      rows wanted []).

(** [readPositiveHours], [readPositiveInt]: [raw] is what [parseInt] made of the setting. *)
Definition positive_or (raw : option Z) (fallback : Z) : Z :=
  match raw with Some v => if (0 <? v)%Z then v else fallback | None => fallback end.

Record CacheSettings := {
  cs_ttlHours : option Z;
  cs_enumTtlHours : option Z;
  cs_enumMinCitations : option Z
}.

Definition ttlHours (cfg : CacheSettings) (shortWindow : bool) : Z :=
  let regular := positive_or (cs_ttlHours cfg) 24 in
  if negb shortWindow then regular else Z.min regular (positive_or (cs_enumTtlHours cfg) 1).

Definition wanted_of (result : SynthesizeResult) (arms : list (CachedDependencyKind * string)) :
    list (CachedDependencyKind * string) :=
  app arms (map (λ c, (KEdge, ci_factId c)) (List.filter isEdgeCitation (sr_citations result))).

Definition cited_ids (result : SynthesizeResult) : list string :=
  map ci_factId (List.filter (λ c, negb (isEdgeCitation c)) (sr_citations result)).

Definition entity_ids (result : SynthesizeResult) : list string :=
  add_all [] (List.filter (λ e, negb (bool_decide (e = ""))) (map ci_entityId (sr_citations result))).

(** Is the answer one the cache keeps: supported, given, answering. *)
Definition admissible (result : SynthesizeResult) (audit : Audit) : bool :=
  match au_verdict audit with Supported => true | _ => false end &&
  bool_decide (sr_answer result ≠ None) && bool_decide (sr_reason result = None) &&
  negb (bool_decide (au_questionAnswered audit = Some false)) &&
  negb (bool_decide (au_answerGiven audit = Some false)).

(** [admit_answer]: whether an entry was stored. *)
Definition admit_answer (cfg : CacheSettings) (ctx : StoreContext) (result : SynthesizeResult) (audit : Audit)
    (jsNow : Z) : prog Store bool :=
  if negb (admissible result audit) then Done false
  else
    let factless := length (sr_citations result) =? 0 in
    if factless && bool_decide (cx_userId ctx = None) then Done false
    else match dependenciesOf (sr_evidenceCitations result) with
    | None => Done false
    | Some arms =>
        let broadAnswer := (positive_or (cs_enumMinCitations cfg) 5 <=? Z.of_nat (length (cited_ids result)))%Z in
        let ttl := ttlHours cfg (cx_isEnumeration ctx || broadAnswer || factless) in
        do* stamped := stampDependencies (wanted_of result arms) ctx jsNow in
        match stamped with
        | None => Done false
        | Some (dependencies, beliefSubjects) =>
            if factless && (length beliefSubjects =? 0) then Done false
            else
              do* _ := exec (λ s, with_cache (<[cx_key ctx :=
                {| cr_companyId := cx_companyId ctx; cr_userId := cx_userId ctx; cr_queryHash := cx_key ctx;
                   cr_answer := default "" (sr_answer result); cr_citedFactIds := cited_ids result;
                   cr_entityIds := entity_ids result;
                   cr_dependencies := Some (map stored_dependency dependencies);
                   cr_beliefSubjects := Some beliefSubjects; cr_createdAt := st_now s;
                   cr_expiresAt := jsNow + ttl * 3600000; cr_hitCount := 0; cr_lastServedAt := None;
                   cr_invalidatedAt := None; cr_invalidationCause := None |}]> (st_cache s)) s) in
              Done true
        end
    end.

(** ** What an entry rests on *)

Definition live_fact (jsNow : Z) (u : option string) (since : Z) (s : Store) (id : string) : Prop :=
  ∃ f, st_facts s !! id = Some f ∧ fencedAway f u = false ∧ rowPolicy f = true ∧ fr_status f = "active" ∧
    fr_retractedAt f = None ∧ (∀ v, fr_validUntil f = Some v → (jsNow < v)%Z) ∧
    (∀ e, fr_expectedUntil f = Some e → (e <= since ∨ jsNow < e)%Z).

(** The fences of the entry's own user, over the world as it is now. *)
Definition fences_now (ctx : StoreContext) (callerScopes : list string) (kinds : list CachedDependencyKind)
    (s : Store) : EvidenceFences :=
  {| ev_caller := {| ev_callerScopes := callerScopes; ev_userId := cx_userId ctx |};
     ev_world := fetchWorldState kinds s |}.

Definition live_dependency (jsNow : Z) (fences : EvidenceFences) (s : Store) (d : CachedDependency) : Prop :=
  ∃ row, OMap.get (dep_key d) (st_evidence s) = Some row ∧
    dependencyVisible num_to_string (cd_kind d) row fences = true ∧
    dependencyLifecycle jsNow (cd_kind d) row = None ∧
    dependencyRev num_to_string sha256 (cd_kind d) row = cd_rev d.

Definition subjects_of (row : CacheRow) : list string :=
  List.filter (λ x, negb (bool_decide (x = ""))) (default [] (cr_beliefSubjects row)).

(** The cited facts are live and visible, every other dependency is stored well, live,
    visible and unmoved, something in the entry can be revalidated, and nothing newer
    that the caller sees has appeared on its entities or its subjects. *)
Record entry_valid (am : Ambient) (ctx : StoreContext) (callerScopes : list string) (jsNow : Z) (s : Store)
    (row : CacheRow) : Prop := {
  en_deps : ∃ deps, cr_dependencies row = Some deps ∧
    (∀ raw, raw ∈ deps → ∃ d, cached_dependency raw = Some d ∧
       live_dependency jsNow (fences_now ctx callerScopes (map cd_kind (omap cached_dependency deps)) s) s d) ∧
    (cr_citedFactIds row ≠ [] ∨ edge_ids (omap cached_dependency deps) ≠ [] ∨ subjects_of row ≠ []);
  en_facts : ∀ id, id ∈ cr_citedFactIds row → live_fact jsNow (caller_user am) (cr_createdAt row) s id;
  en_newer : ∀ f, f ∈ map snd (map_to_list (st_facts s)) →
    newer_candidate ctx (cr_entityIds row) (cr_createdAt row) f = true →
    fencedAway f (caller_user am) = true ∨ rowPolicy f = false;
  en_page : length (List.filter (newer_candidate ctx (cr_entityIds row) (cr_createdAt row))
    (map snd (map_to_list (st_facts s)))) ≤ FRESHNESS_PROBE_CAP;
  en_beliefs : ∀ kv, kv ∈ st_evidence s → newer_belief ctx (subjects_of row) (cr_createdAt row) kv = false
}.

Lemma cited_fact_live jsNow u since s id :
  (∃ c, cited_fact jsNow u since s id = inr c) ↔ live_fact jsNow u since s id.
Proof.
  unfold cited_fact, live_fact. split.
  - intros [c Hc]. destruct (st_facts s !! id) as [f|]; [|done]. exists f. split; [done|].
    destruct (fencedAway f u) eqn:E1; [done|]. destruct (rowPolicy f) eqn:E2; [|done]. cbn in Hc.
    destruct (bool_decide (fr_status f = "retracted")) eqn:E3; [done|].
    destruct (bool_decide (fr_retractedAt f ≠ None)) eqn:E4; [done|]. cbn in Hc.
    destruct (bool_decide (fr_status f = "superseded")) eqn:E5; [done|].
    destruct (bool_decide (fr_status f = "active")) eqn:E6; [|done]. cbn in Hc.
    apply bool_decide_eq_true in E6. apply bool_decide_eq_false in E4. split_and!; [done..| | |].
    + by apply dec_stable.
    + intros v Hv. rewrite Hv in Hc. destruct (v <=? jsNow)%Z eqn:E; [done|]. by apply Z.leb_gt in E.
    + intros e He. destruct (match fr_validUntil f with Some _ => _ | None => _ end); [done|].
      unfold expectationPassedSince in Hc. rewrite He in Hc.
      destruct (since <? e)%Z eqn:Ea, (e <=? jsNow)%Z eqn:Eb; try done;
        [right; by apply Z.leb_gt in Eb|left; by apply Z.ltb_ge in Ea|left; by apply Z.ltb_ge in Ea].
  - intros (f & -> & -> & -> & Hs & Hr & Hv & He). cbn. rewrite Hs, Hr. cbn.
    assert (match fr_validUntil f with Some v => (v <=? jsNow)%Z | None => false end = false) as ->.
    { destruct (fr_validUntil f) as [v|]; [|done]. apply Z.leb_gt. by apply Hv. }
    unfold expectationPassedSince. destruct (fr_expectedUntil f) as [e|]; [|by eexists].
    destruct (He e eq_refl) as [H|H].
    + assert ((since <? e)%Z = false) as -> by (apply Z.ltb_ge; lia). by eexists.
    + assert ((e <=? jsNow)%Z = false) as -> by (apply Z.leb_gt; lia). rewrite andb_false_r. by eexists.
Qed.

Lemma cited_facts_live jsNow u since s ids :
  (∃ cs, evaluateCitedFacts jsNow u since s ids = inr cs) ↔ ∀ id, id ∈ ids → live_fact jsNow u since s id.
Proof.
  induction ids as [|id ids IH]; cbn [evaluateCitedFacts].
  { split; [by intros _ ? ?%elem_of_nil|by eexists]. }
  pose proof (cited_fact_live jsNow u since s id) as H1. split.
  - intros [cs Hcs]. destruct (cited_fact jsNow u since s id) as [|c] eqn:E; [done|].
    destruct (evaluateCitedFacts jsNow u since s ids) as [|cs'] eqn:E'; [done|].
    intros x [->|Hx]%elem_of_cons; [apply H1; eauto|]. apply IH; eauto.
  - intros Hall. destruct (proj2 H1 (Hall id (list_elem_of_here _ _))) as [c ->].
    destruct (proj2 IH) as [cs ->]; [|by eexists]. intros x Hx. apply Hall. by right.
Qed.

(** The citations are those of the live rows. *)
Lemma cited_facts_are jsNow u since s ids cs c :
  evaluateCitedFacts jsNow u since s ids = inr cs → c ∈ cs →
  ∃ f, ci_factId c ∈ ids ∧ st_facts s !! ci_factId c = Some f ∧ ci_object c = fr_object f ∧
    ci_predicate c = fr_predicate f.
Proof.
  revert cs. induction ids as [|id ids IH]; cbn [evaluateCitedFacts]; intros cs.
  { intros [= <-] Hc. by apply elem_of_nil in Hc. }
  destruct (cited_fact jsNow u since s id) as [|c0] eqn:E; [done|].
  destruct (evaluateCitedFacts jsNow u since s ids) as [|cs'] eqn:E'; [done|]. intros [= <-] [->|Hc]%elem_of_cons.
  - unfold cited_fact in E. destruct (st_facts s !! id) as [f|] eqn:Ef; [|done]. repeat case_match; try done;
      injection E as <-; exists f; cbn; (split_and!; [by left|done..]).
  - destruct (IH cs' eq_refl Hc) as (f & ? & ?). exists f. split; [by right|done].
Qed.

Lemma get_filter_key {K V} `{EqDecision K} (q : K * V → bool) (b : bool) (k : K) (m : list (K * V)) :
  (∀ v, q (k, v) = b) → OMap.get k (List.filter q m) = if b then OMap.get k m else None.
Proof.
  intros Hq. induction m as [|[k' v] m IH]; cbn; [by destruct b|].
  case_bool_decide as Hk.
  - subst k'. rewrite Hq. destruct b; cbn; [by rewrite bool_decide_eq_true_2|done].
  - destruct (q (k', v)); cbn; [by rewrite bool_decide_eq_false_2|done].
Qed.

Lemma dependencies_live jsNow deps asked s fences :
  (∀ raw d, raw ∈ deps → cached_dependency raw = Some d → dep_key d ∈ asked) →
  evaluateDependencies jsNow deps (fetchDependencyRows asked s) fences = None ↔
  ∀ raw, raw ∈ deps → ∃ d, cached_dependency raw = Some d ∧ live_dependency jsNow fences s d.
Proof.
  induction deps as [|raw deps IH]; cbn [evaluateDependencies]; intros Hask.
  { split; [by intros _ ? ?%elem_of_nil|done]. }
  assert (IH' := IH (λ x d Hx, Hask x d (list_elem_of_further _ _ _ Hx))). clear IH.
  destruct (cached_dependency raw) as [d|] eqn:Ed.
  2: { split; [done|]. intros H. destruct (H raw (list_elem_of_here _ _)) as (d & ? & _). congruence. }
  assert (Hget : OMap.get (cd_kind d, cd_id d) (fetchDependencyRows asked s) = OMap.get (dep_key d) (st_evidence s)).
  { apply (get_filter_key _ true). intros v. cbn.
    rewrite bool_decide_eq_true_2 by (by apply (Hask raw); [left|]).
    unfold cached_dependency in Ed. repeat case_match; try done. by injection Ed as <-. }
  rewrite Hget.
  assert (Hcons : (∀ x, x ∈ raw :: deps → ∃ d0, cached_dependency x = Some d0 ∧ live_dependency jsNow fences s d0) ↔
    live_dependency jsNow fences s d ∧ ∀ x, x ∈ deps → ∃ d0, cached_dependency x = Some d0 ∧ live_dependency jsNow fences s d0).
  { split.
    - intros H. split; [|intros x Hx; apply H; by right].
      destruct (H raw (list_elem_of_here _ _)) as (d0 & E0 & ?). congruence.
    - intros [H1 H2] x [->|Hx]%elem_of_cons; [by exists d|by apply H2]. }
  rewrite Hcons, <- IH'. unfold live_dependency.
  destruct (OMap.get (dep_key d) (st_evidence s)) as [row|]; [|split; [done|by intros [(? & ? & _) _]]].
  destruct (dependencyVisible num_to_string (cd_kind d) row fences) eqn:Ev; cbn [negb].
  2: { split; [done|]. intros [(row' & [= <-] & ? & _) _]. congruence. }
  destruct (dependencyLifecycle jsNow (cd_kind d) row) as [cause|] eqn:El.
  { split; [done|]. intros [(row' & [= <-] & _ & ? & _) _]. congruence. }
  case_bool_decide as Er.
  - split; [intros H; split; [by exists row|done]|by intros [_ ?]].
  - split; [done|]. intros [(row' & [= <-] & _ & _ & ?) _]. congruence.
Qed.

Lemma newer_page ctx ids since s u :
  hasNewerVisibleFact (newer_facts ctx ids since s) u = false ↔
  length (List.filter (newer_candidate ctx ids since) (map snd (map_to_list (st_facts s)))) ≤ FRESHNESS_PROBE_CAP ∧
  ∀ f, f ∈ map snd (map_to_list (st_facts s)) → newer_candidate ctx ids since f = true →
    fencedAway f u = true ∨ rowPolicy f = false.
Proof.
  unfold hasNewerVisibleFact, newer_facts.
  set (l := List.filter (newer_candidate ctx ids since) (map snd (map_to_list (st_facts s)))).
  assert (Hl : ∀ f, f ∈ l ↔ f ∈ map snd (map_to_list (st_facts s)) ∧ newer_candidate ctx ids since f = true)
    by (intros; apply elem_of_bfilter).
  clearbody l. rewrite length_take. destruct (Nat.leb_spec (length l) FRESHNESS_PROBE_CAP) as [Hle|Hgt].
  - rewrite take_ge by lia. destruct (Nat.ltb_spec FRESHNESS_PROBE_CAP (S FRESHNESS_PROBE_CAP `min` length l)) as [Hx|_]; [lia|].
    rewrite existsb_false_In. split.
    + intros H. split; [done|]. intros f H1 H2. specialize (H f (proj2 (Hl f) (conj H1 H2))).
      destruct (fencedAway f u), (rowPolicy f); auto.
    + intros [_ H] f [H1 H2]%Hl. by destruct (H f H1 H2) as [-> | ->]; [|rewrite andb_false_r].
  - destruct (Nat.ltb_spec FRESHNESS_PROBE_CAP (S FRESHNESS_PROBE_CAP `min` length l)) as [_|Hx]; [|lia].
    split; [done|]. intros [? _]. lia.
Qed.

Lemma check_on_read am ctx row scopes jsNow s :
  (run (checkOnRead am ctx row scopes jsNow) s).1 = s ∧
  ((∃ cs, (run (checkOnRead am ctx row scopes jsNow) s).2 = inr cs) ↔ entry_valid am ctx scopes jsNow s row) ∧
  (∀ cs c, (run (checkOnRead am ctx row scopes jsNow) s).2 = inr cs → c ∈ cs →
     (∃ f, ci_factId c ∈ cr_citedFactIds row ∧ st_facts s !! ci_factId c = Some f ∧ ci_object c = fr_object f) ∨
     ∃ r, OMap.get (KEdge, ci_factId c) (st_evidence s) = Some r ∧ c = edgeCitation (ci_factId c) r).
Proof.
  unfold checkOnRead. destruct (cr_dependencies row) as [deps|] eqn:Ed.
  2: { split; [done|]. split; [|done]. split; [by intros [? ?]|]. intros [(deps & ? & _) _ _ _ _]. congruence. }
  set (tr := omap cached_dependency deps). fold (subjects_of row).
  destruct ((length (cr_citedFactIds row) =? 0) && (length (edge_ids tr) =? 0) && (length (subjects_of row) =? 0)) eqn:E0.
  { split; [done|]. split; [|done]. split; [by intros [? ?]|]. intros [(deps' & Hd & _ & Ha) _ _ _ _].
    assert (deps' = deps) as -> by congruence. fold tr in Ha.
    destruct (cr_citedFactIds row), (edge_ids tr), (subjects_of row); try done. tauto. }
  cbn [run pbind query].
  assert (Hb : run (if length (subjects_of row) =? 0 then Done false
      else query (newer_beliefs ctx (subjects_of row) (cr_createdAt row))) s =
    (s, newer_beliefs ctx (subjects_of row) (cr_createdAt row) s)).
  { destruct (subjects_of row) eqn:Es; [|done]. cbn. f_equal. symmetry. apply existsb_false_In. intros kv _.
    unfold newer_belief. destruct (de_subject kv.2); rewrite ?andb_false_r; try done.
  }
  rewrite run_bind, Hb. cbn [fst snd run].
  assert (Hanchor : cr_citedFactIds row ≠ [] ∨ edge_ids tr ≠ [] ∨ subjects_of row ≠ []).
  { destruct (cr_citedFactIds row), (edge_ids tr), (subjects_of row); try done; auto; (left + (right; left) + (right; right)); done. }
  pose proof (cited_facts_live jsNow (caller_user am) (cr_createdAt row) (named (cr_entityIds row) s)
    (cr_citedFactIds row)) as Hfacts.
  pose proof (dependencies_live jsNow deps (map dep_key tr) s (fences_now ctx scopes (map cd_kind tr) s)) as Hdeps.
  specialize (Hdeps (λ raw d Hr Hc, list_elem_of_fmap_2 dep_key tr d
    (proj2 (list_elem_of_omap cached_dependency deps d) (ex_intro _ raw (conj Hr Hc))))).
  pose proof (newer_page ctx (cr_entityIds row) (cr_createdAt row) s (caller_user am)) as Hpage.
  split; [done|]. split.
  - split.
    + intros [cs Hcs]. destruct (evaluateCitedFacts _ _ _ _ _) as [|cits] eqn:Ef; [done|].
      fold (fences_now ctx scopes (map cd_kind tr) s) in Hcs.
      destruct (evaluateDependencies _ _ _ _) as [|] eqn:Ev; [done|].
      destruct (hasNewerVisibleFact _ _) eqn:En; [done|].
      destruct (newer_beliefs _ _ _ _) eqn:Eb; [done|].
      destruct (proj1 Hpage eq_refl) as [Hle Hnew]. split.
      * exists deps. split; [done|]. split; [by apply (proj1 Hdeps eq_refl)|done].
      * apply Hfacts. eauto.
      * done.
      * done.
      * intros kv Hkv. unfold newer_beliefs in Eb. by apply (proj1 (existsb_false_In _ _) Eb).
    + intros [(deps' & Hd & Hl & _) Hf Hn Hp Hbel]. assert (deps' = deps) as -> by congruence.
      destruct (proj2 Hfacts Hf) as [cits ->]. fold (fences_now ctx scopes (map cd_kind tr) s).
      rewrite (proj2 Hdeps Hl), (proj2 Hpage (conj Hp Hn)).
      assert (newer_beliefs ctx (subjects_of row) (cr_createdAt row) s = false) as ->
        by (apply existsb_false_In; done).
      by eexists.
  - intros cs c Hcs Hc. destruct (evaluateCitedFacts _ _ _ _ _) as [|cits] eqn:Ef; [done|].
    destruct (evaluateDependencies _ _ _ _) as [|]; [done|].
    destruct (hasNewerVisibleFact _ _); [done|]. destruct (newer_beliefs _ _ _ _); [done|].
    injection Hcs as <-. apply elem_of_app in Hc as [Hc|Hc].
    + left. destruct (cited_facts_are _ _ _ _ _ _ _ Ef Hc) as (f & ? & ? & ? & _). eauto.
    + right. apply list_elem_of_omap in Hc as (id & _ & Hc). apply fmap_Some in Hc as (r & Hr & ->).
      exists r. split; [|done]. cbn. unfold fetchDependencyRows in Hr.
      rewrite (get_filter_key _ (bool_decide ((KEdge, id) ∈ map dep_key tr) && isRecordId id)) in Hr by done.
      by destruct (bool_decide ((KEdge, id) ∈ map dep_key tr) && isRecordId id).
Qed.

(** ** What is served *)

(** The row is there for this request, not invalidated and not expired, and nothing said
    in its scope since waits to be read. *)
Definition servable (ctx : StoreContext) (jsNow : Z) (s : Store) (row : CacheRow) : Prop :=
  find_row ctx s = Some row ∧ cr_invalidatedAt row = None ∧ (jsNow < cr_expiresAt row)%Z ∧
  understandingPending ctx (cr_createdAt row) s = false.

Definition answer_of (row : CacheRow) (cs : list Citation) : ServedAnswer :=
  {| sa_answer := cr_answer row; sa_citations := cs;
     sa_evidenceCitations := omap citationOfDependency (omap cached_dependency (default [] (cr_dependencies row))) |}.

Lemma run_tryServe am ctx scopes jsNow s row :
  servable ctx jsNow s row →
  run (tryServe am ctx scopes jsNow) s =
  match (run (checkOnRead am ctx row scopes jsNow) s).2 with
  | inl cause => ((run (invalidate ctx cause) s).1, None)
  | inr cs => ((run (recordServe ctx) s).1, Some (answer_of row cs))
  end.
Proof.
  intros (Hf & Hi & He & Hp). unfold tryServe. cbn [run pbind query]. rewrite Hf, Hi.
  assert ((cr_expiresAt row <=? jsNow)%Z = false) as -> by (by apply Z.leb_gt).
  rewrite bool_decide_eq_false_2 by (intros ?; done). cbn [orb run pbind query]. rewrite Hp, run_bind.
  destruct (check_on_read am ctx row scopes jsNow s) as (-> & _ & _).
  destruct (run (checkOnRead am ctx row scopes jsNow) s).2; done.
Qed.

Lemma run_tryServe_miss am ctx scopes jsNow s :
  (∀ row, ¬ servable ctx jsNow s row) → run (tryServe am ctx scopes jsNow) s = (s, None).
Proof.
  intros Hno. unfold tryServe. cbn [run pbind query]. destruct (find_row ctx s) as [row|] eqn:Hf; [|done].
  specialize (Hno row). unfold servable in Hno.
  destruct (cr_invalidatedAt row) as [t|] eqn:Hi; [by rewrite bool_decide_eq_true_2|].
  destruct (Z.leb_spec (cr_expiresAt row) jsNow) as [He|He]; [by rewrite orb_true_r|].
  rewrite bool_decide_eq_false_2 by (intros ?; done). cbn [orb run pbind query].
  destruct (understandingPending ctx (cr_createdAt row) s) eqn:Hp; [done|]. exfalso. by apply Hno.
Qed.

Lemma servable_dec ctx jsNow s : (∃ row, servable ctx jsNow s row) ∨ ∀ row, ¬ servable ctx jsNow s row.
Proof.
  unfold servable. destruct (find_row ctx s) as [row|]; [|right; by intros row (? & _)].
  destruct (cr_invalidatedAt row) eqn:Hi; [right; intros row' ([= <-] & ? & _); congruence|].
  destruct (Z.leb_spec (cr_expiresAt row) jsNow); [right; intros row' ([= <-] & _ & ? & _); lia|].
  destruct (understandingPending ctx (cr_createdAt row) s) eqn:Hp;
    [right; intros row' ([= <-] & _ & _ & ?); congruence|]. left. by exists row.
Qed.

(** C2. The cache serves exactly the entries that still hold: a read gives an answer if
    and only if a row of this tenant, user and key is there, neither invalidated nor
    expired nor overtaken by something not yet read, every fact and every other piece of
    evidence it rests on is present, live, unmoved and visible to this caller, a cited
    fact or relation or a belief's subject is among them, and nothing newer it would have
    seen has appeared (more newer facts than one page counts as one); the answer is the stored one, and each
    citation is rebuilt from the cited row as it is now. *)
Theorem cache_serves_exactly_the_valid am ctx scopes jsNow s :
  let out := (run (tryServe am ctx scopes jsNow) s).2 in
  (is_Some out ↔ ∃ row, servable ctx jsNow s row ∧ entry_valid am ctx scopes jsNow s row) ∧
  (∀ a, out = Some a → ∃ row, servable ctx jsNow s row ∧ sa_answer a = cr_answer row ∧
     ∀ c, c ∈ sa_citations a →
       (∃ f, ci_factId c ∈ cr_citedFactIds row ∧ st_facts s !! ci_factId c = Some f ∧ ci_object c = fr_object f) ∨
       ∃ r, OMap.get (KEdge, ci_factId c) (st_evidence s) = Some r ∧ c = edgeCitation (ci_factId c) r).
Proof.
  intros out. subst out. destruct (servable_dec ctx jsNow s) as [[row Hrow]|Hno].
  2: { rewrite run_tryServe_miss by done. cbn. split; [|done]. split; [by intros []|].
       intros (row & Hrow & _). by destruct (Hno row). }
  assert (Huniq : ∀ row', servable ctx jsNow s row' → row' = row).
  { intros row' (H1 & _). destruct Hrow as (H2 & _). congruence. }
  rewrite (run_tryServe _ _ _ _ _ _ Hrow).
  destruct (check_on_read am ctx row scopes jsNow s) as (_ & Hiff & Hcit).
  destruct (run (checkOnRead am ctx row scopes jsNow) s).2 as [cause|cs] eqn:E; cbn [snd].
  - split; [|done]. split; [by intros []|]. intros (row' & Hrow' & Hv). rewrite (Huniq row' Hrow') in Hv.
    apply Hiff in Hv as [cs ?]. done.
  - split.
    + split; [intros _; exists row; split; [done|]; apply Hiff; eauto|by eexists].
    + intros a [= <-]. exists row. split; [done|]. split; [done|]. cbn. intros c Hc. by apply (Hcit cs).
Qed.

(** The row as a mark leaves it. *)
Lemma lookup_update ctx g s row :
  find_row ctx s = Some row →
  st_cache (update_cache_row ctx g s) !! cx_key ctx = Some (g (st_now s) row).
Proof.
  unfold find_row, update_cache_row. destruct (st_cache s !! cx_key ctx) as [r|] eqn:E; [|done].
  destruct (bool_decide (cr_companyId r = cx_companyId ctx)) eqn:Ec; [|done]. cbn. case_match; [|done].
  intros [= <-]. by rewrite lookup_insert_eq.
Qed.

(** A dead entry does not come back: when a read finds the entry no longer holding,
    for any cause the column admits, the row carries the cause from then on, and no later
    read serves it - whatever happens to the facts meanwhile - until an admission
    replaces the row. *)
Theorem dead_entry_stays_dead am ctx scopes jsNow s row cause s' am' scopes' jsNow' s2
    (Hrow : servable ctx jsNow s row)
    (Hdead : (run (checkOnRead am ctx row scopes jsNow) s).2 = inl cause)
    (Hcause : cause_allowed cause = true)
    (Hrun : (run (tryServe am ctx scopes jsNow) s).1 = s')
    (Hkept : st_cache s2 !! cx_key ctx = st_cache s' !! cx_key ctx) :
  (∃ r, st_cache s' !! cx_key ctx = Some r ∧ cr_invalidationCause r = Some cause ∧ cr_answer r = cr_answer row) ∧
  run (tryServe am' ctx scopes' jsNow') s2 = (s2, None).
Proof.
  assert (Hs' : st_cache s' !! cx_key ctx = Some (invalidated (st_now s) cause row)).
  { rewrite <- Hrun, (run_tryServe _ _ _ _ _ _ Hrow), Hdead. cbn. rewrite Hcause.
    apply (lookup_update ctx (λ now, invalidated now cause)). apply Hrow. }
  split; [rewrite Hs'; by eexists|]. apply run_tryServe_miss. intros r (Hf & Hi & _).
  unfold find_row in Hf. rewrite Hkept, Hs' in Hf. case_match; [|done]. injection Hf as <-. done.
Qed.

(** ** What is admitted *)

(** A dependency as admission found it. *)
Definition stamped_live (ctx : StoreContext) (jsNow : Z) (fences : EvidenceFences) (s : Store) (d : CachedDependency) : Prop :=
  isRecordId (cd_id d) = true ∧ live_dependency jsNow fences s d ∧
  ∀ snapshot, cx_renderedStamps ctx = Some snapshot → cd_kind d ∈ MUTABLE_DEPENDENCY_KINDS →
    OMap.get (dep_key d) snapshot = Some (cd_rev d).

Lemma stamp_one_spec ctx jsNow fences wanted s dep d subj :
  stamp_one ctx jsNow fences (fetchDependencyRows wanted s) dep = Some (d, subj) →
  dep_key d = dep ∧ stamped_live ctx jsNow fences s d ∧ ∀ x, x ∈ subj → x ≠ "".
Proof.
  unfold stamp_one. destruct (OMap.get dep (fetchDependencyRows wanted s)) as [row|] eqn:Hget; [|done].
  unfold fetchDependencyRows in Hget.
  rewrite (get_filter_key _ (bool_decide (dep ∈ wanted) && isRecordId dep.2)) in Hget by done.
  destruct (bool_decide (dep ∈ wanted) && isRecordId dep.2) eqn:Ein; [|done].
  apply andb_true_iff in Ein as [_ Hid].
  destruct (dependencyVisible num_to_string dep.1 row fences) eqn:Hv; [|done]. cbn [negb].
  destruct (dependencyLifecycle jsNow dep.1 row) eqn:Hl; [by rewrite bool_decide_eq_true_2|].
  rewrite bool_decide_eq_false_2 by (intros ?; done).
  destruct (match cx_renderedStamps ctx with Some _ => _ | None => _ end) eqn:Hs; [done|].
  intros [= <- <-]. split; [by destruct dep|]. split.
  - split; [done|]. split; [exists row; destruct dep; cbn in *; done|]. intros snapshot Hsnap Hm. cbn in *.
    rewrite Hsnap in Hs. rewrite bool_decide_eq_true_2 in Hs by done. cbn in Hs.
    apply negb_false_iff, bool_decide_eq_true in Hs. by destruct dep.
  - intros x. destruct (bool_decide (dep.1 = KBelief) && _) eqn:E; [|by intros ?%elem_of_nil].
    intros ->%list_elem_of_singleton. apply andb_true_iff in E as [_ E]. by apply negb_true_iff, bool_decide_eq_false in E.
Qed.

Lemma stamp_all_spec ctx jsNow fences asked s wanted subj ds subj' :
  stamp_all ctx jsNow fences (fetchDependencyRows asked s) wanted subj = Some (ds, subj') →
  map dep_key ds = wanted ∧ (∀ d, d ∈ ds → stamped_live ctx jsNow fences s d) ∧
  ((∀ x, x ∈ subj → x ≠ "") → ∀ x, x ∈ subj' → x ≠ "").
Proof.
  revert subj ds. induction wanted as [|dep wanted IH]; intros subj ds; cbn [stamp_all].
  { intros [= <- <-]. split; [done|]. split; [by intros ? ?%elem_of_nil|done]. }
  destruct (stamp_one _ _ _ _ dep) as [[d sj]|] eqn:E1; [|done].
  destruct (stamp_all _ _ _ _ wanted _) as [[ds' sj']|] eqn:E2; [|done]. intros [= <- <-].
  destruct (stamp_one_spec _ _ _ _ _ _ _ _ E1) as (Hk & Hl & Hne). destruct (IH _ _ E2) as (Hks & Hls & Hsub).
  split; [cbn; congruence|]. split.
  - intros x [->|Hx]%elem_of_cons; auto.
  - intros Hs. apply Hsub. intros x [?|?]%elem_of_add_all; auto.
Qed.

(** The fences an answer is admitted under. *)
Definition admission_fences (ctx : StoreContext) (wanted : list (CachedDependencyKind * string)) (s : Store) :
    EvidenceFences := fences_now ctx (cx_callerScopes ctx) (map fst wanted) s.

Lemma run_stampDependencies wanted ctx jsNow s :
  (run (stampDependencies wanted ctx jsNow) s).1 = s ∧
  ∀ ds subj, (run (stampDependencies wanted ctx jsNow) s).2 = Some (ds, subj) →
    map dep_key ds = wanted ∧ (∀ d, d ∈ ds → stamped_live ctx jsNow (admission_fences ctx wanted s) s d) ∧
    ∀ x, x ∈ subj → x ≠ "".
Proof.
  unfold stampDependencies. destruct wanted as [|w wanted]; cbn [length Nat.eqb run pbind query].
  - split; [done|]. intros ds subj [= <- <-]. split; [done|]. split; by intros ? ?%elem_of_nil.
  - split; [done|]. intros ds subj H. destruct (stamp_all_spec _ _ _ _ _ _ _ _ _ H) as (H1 & H2 & H3).
    split; [done|]. split; [done|]. apply H3. by intros ? ?%elem_of_nil.
Qed.

Definition admitted_row (cfg : CacheSettings) (ctx : StoreContext) (result : SynthesizeResult) (jsNow now : Z)
    (ds : list CachedDependency) (subj : list string) (ttl : Z) : CacheRow :=
  {| cr_companyId := cx_companyId ctx; cr_userId := cx_userId ctx; cr_queryHash := cx_key ctx;
     cr_answer := default "" (sr_answer result); cr_citedFactIds := cited_ids result;
     cr_entityIds := entity_ids result; cr_dependencies := Some (map stored_dependency ds);
     cr_beliefSubjects := Some subj; cr_createdAt := now; cr_expiresAt := jsNow + ttl * 3600000;
     cr_hitCount := 0; cr_lastServedAt := None; cr_invalidatedAt := None; cr_invalidationCause := None |}.

Lemma ttlHours_positive cfg b : (0 < ttlHours cfg b)%Z.
Proof.
  assert (H : ∀ raw f, (0 < f)%Z → (0 < positive_or raw f)%Z).
  { intros raw f Hf. unfold positive_or. destruct raw as [v|]; [|done]. destruct (Z.ltb_spec 0 v); lia. }
  unfold ttlHours. destruct b; cbn [negb]; [|by apply H]. apply Z.min_glb_lt; by apply H.
Qed.

(** Admission taken apart. *)
Lemma run_admit cfg ctx result audit jsNow s s' :
  run (admit_answer cfg ctx result audit jsNow) s = (s', true) →
  ∃ arms ds subj ttl, admissible result audit = true ∧ dependenciesOf (sr_evidenceCitations result) = Some arms ∧
    (0 < ttl)%Z ∧ map dep_key ds = wanted_of result arms ∧
    (∀ d, d ∈ ds → stamped_live ctx jsNow (admission_fences ctx (wanted_of result arms) s) s d) ∧
    (∀ x, x ∈ subj → x ≠ "") ∧ (sr_citations result = [] → cx_userId ctx ≠ None ∧ subj ≠ []) ∧
    s' = with_cache (<[cx_key ctx := admitted_row cfg ctx result jsNow (st_now s) ds subj ttl]> (st_cache s)) s.
Proof.
  unfold admit_answer. destruct (admissible result audit); [|done]. cbn [negb].
  destruct ((length (sr_citations result) =? 0) && bool_decide (cx_userId ctx = None)) eqn:Eu; [done|].
  destruct (dependenciesOf (sr_evidenceCitations result)) as [arms|]; [|done].
  rewrite run_bind. destruct (run_stampDependencies (wanted_of result arms) ctx jsNow s) as (Hs & Hspec).
  destruct (run (stampDependencies (wanted_of result arms) ctx jsNow) s) as [s1 out]. cbn [fst snd] in *. subst s1.
  destruct out as [[ds subj]|]; [|done]. destruct (Hspec ds subj eq_refl) as (H1 & H2 & H3).
  destruct ((length (sr_citations result) =? 0) && (length subj =? 0)) eqn:Ef; [done|]. cbn [run pbind exec].
  intros [= <-]. eexists arms, ds, subj, _. split; [done|]. split; [done|]. split; [apply ttlHours_positive|].
  split; [done|]. split; [done|]. split; [done|]. split; [|reflexivity].
  intros Hc. rewrite Hc in Eu, Ef. cbn in Eu. apply bool_decide_eq_false in Eu. split; [done|]. by intros ->.
Qed.

Lemma dependencyArm_wanted result arms c :
  dependenciesOf (sr_evidenceCitations result) = Some arms → c ∈ sr_evidenceCitations result →
  ∃ dep, dependencyArm c = Some dep ∧ dep ∈ wanted_of result arms.
Proof.
  intros Harms Hc.
  assert (Harm : is_Some (dependencyArm c)).
  { clear -Harms Hc. unfold dependenciesOf in Harms. apply fmap_Some in Harms as (out & Ho & _).
    revert Ho Hc. generalize (@nil (CachedDependencyKind * string)).
    induction (sr_evidenceCitations result) as [|c0 cs IH]; intros acc; cbn [arms_of]; [by intros _ ?%elem_of_nil|].
    destruct (dependencyArm c0) as [dep|] eqn:E; [|done]. intros Ho [->|Hc]%elem_of_cons; [by eexists|by eapply IH]. }
  destruct Harm as [dep Hdep]. exists dep. split; [done|]. unfold wanted_of. apply elem_of_app. left.
  apply (dependenciesOf_spec _ _ Harms). eauto.
Qed.

(** The world the fences of an admission read, kind by kind. *)
Lemma admission_world ctx ds wanted s d :
  map dep_key ds = wanted → d ∈ ds →
  (cd_kind d = KFragment → ev_mediaConsent (ev_world (admission_fences ctx wanted s)) = hasCurrentModalityConsent (st_packs s)) ∧
  (cd_kind d = KScene → ev_sceneWorld (ev_world (admission_fences ctx wanted s)) = live_scene_world s).
Proof.
  intros <- Hd. unfold admission_fences, fences_now, fetchWorldState. cbn [ev_world ev_mediaConsent ev_sceneWorld].
  assert (Hin : cd_kind d ∈ map fst (map dep_key ds)).
  { rewrite map_map. apply list_elem_of_fmap. by exists d. }
  by split; intros Hk; rewrite Hk in Hin; rewrite bool_decide_eq_true_2.
Qed.

(** C8. What is admitted can be revalidated: an entry is stored only for an answer the
    audit calls supported, which it does not say leaves the question unanswered or gives
    no answer, and which the synthesis gave without a reason against it; one with no
    citation at all only for a user, and with a belief's subject to be found by. The entry
    is the caller's own and fresh, and every citation of the answer is accounted for: a
    fact among the cited ids, a relation or any other evidence as a dependency that was
    live when it was stored, visible under the caller's scopes and user, the media consent
    of the active packs (a fragment) and the live scene world (a scene), under the stamp
    its row has and, where the stamp can move, the stamp the answer's prompt was built
    from. Nothing else is among the dependencies. *)
Theorem admission_is_tracked cfg ctx result audit jsNow s s'
    (Hadm : run (admit_answer cfg ctx result audit jsNow) s = (s', true)) :
  au_verdict audit = Supported ∧ au_questionAnswered audit ≠ Some false ∧ au_answerGiven audit ≠ Some false ∧
  sr_reason result = None ∧
  ∃ row ds, st_cache s' !! cx_key ctx = Some row ∧
    Some (cr_answer row) = sr_answer result ∧ cr_companyId row = cx_companyId ctx ∧ cr_userId row = cx_userId ctx ∧
    cr_createdAt row = st_now s ∧ (jsNow < cr_expiresAt row)%Z ∧ cr_invalidatedAt row = None ∧
    cr_dependencies row = Some (map stored_dependency ds) ∧
    (sr_citations result = [] → cx_userId ctx ≠ None ∧ subjects_of row ≠ []) ∧
    (∀ c, c ∈ sr_citations result →
       if isEdgeCitation c then ∃ d, d ∈ ds ∧ dep_key d = (KEdge, ci_factId c) else ci_factId c ∈ cr_citedFactIds row) ∧
    (∀ c, c ∈ sr_evidenceCitations result → ∃ d, d ∈ ds ∧ dependencyArm c = Some (dep_key d)) ∧
    (∀ d, d ∈ ds →
       (∃ c, c ∈ sr_evidenceCitations result ∧ dependencyArm c = Some (dep_key d)) ∨
       (∃ c, c ∈ sr_citations result ∧ isEdgeCitation c = true ∧ dep_key d = (KEdge, ci_factId c))) ∧
    (∀ d, d ∈ ds → ∃ fences,
       ev_caller fences = {| ev_callerScopes := cx_callerScopes ctx; ev_userId := cx_userId ctx |} ∧
       (cd_kind d = KFragment → ev_mediaConsent (ev_world fences) = hasCurrentModalityConsent (st_packs s)) ∧
       (cd_kind d = KScene → ev_sceneWorld (ev_world fences) = live_scene_world s) ∧
       stamped_live ctx jsNow fences s d).
Proof.
  destruct (run_admit _ _ _ _ _ _ _ Hadm) as (arms & ds & subj & ttl & Had & Harms & Httl & Hkeys & Hlive & Hne & Hless & ->).
  unfold admissible in Had. rewrite !andb_true_iff, !negb_true_iff in Had.
  destruct Had as ((((Hv & Ha%bool_decide_eq_true) & Hr%bool_decide_eq_true) & Hq%bool_decide_eq_false) & Hg%bool_decide_eq_false).
  split; [by destruct (au_verdict audit)|]. split_and!; [done..|].
  assert (Hin : ∀ k, k ∈ wanted_of result arms ↔ ∃ d, d ∈ ds ∧ dep_key d = k).
  { intros k. rewrite <- Hkeys, list_elem_of_fmap. naive_solver. }
  eexists _, ds. cbn [st_cache with_cache]. rewrite lookup_insert_eq. split; [done|].
  cbn [admitted_row cr_answer cr_dependencies cr_citedFactIds cr_companyId cr_userId cr_createdAt cr_expiresAt cr_invalidatedAt].
  split; [by destruct (sr_answer result)|]. split_and!; [done|done|done|lia|done|done|..].
  - intros Hc. destruct (Hless Hc) as [? Hs]. split; [done|]. unfold subjects_of. cbn.
    destruct subj as [|x subj]; [done|]. cbn. rewrite bool_decide_eq_false_2 by (apply Hne; by left). done.
  - intros c Hc. destruct (isEdgeCitation c) eqn:Ec.
    + apply Hin. unfold wanted_of. apply elem_of_app. right. apply list_elem_of_fmap. exists c.
      rewrite elem_of_bfilter. done.
    + unfold cited_ids. apply list_elem_of_fmap. exists c. rewrite elem_of_bfilter, Ec. done.
  - intros c Hc. destruct (dependencyArm_wanted _ _ _ Harms Hc) as (dep & Hdep & (d & Hd & <-)%Hin). by exists d.
  - intros d Hd. assert (Hw : dep_key d ∈ wanted_of result arms) by (apply Hin; eauto).
    unfold wanted_of in Hw. apply elem_of_app in Hw as [Hw|(c & Hk & Hc)%list_elem_of_fmap].
    + left. apply (dependenciesOf_spec _ _ Harms) in Hw as (c & ? & ?). eauto.
    + right. apply elem_of_bfilter in Hc as [? ?]. eauto.
  - intros d Hd. destruct (admission_world ctx ds _ s d Hkeys Hd) as [Hm Hw]. eexists. split; [|split; [exact Hm|split; [exact Hw|by apply Hlive]]].
    done.
Qed.

(** Nothing in the store is from the future. *)
Record settled_clock (s : Store) : Prop := {
  sc_facts : ∀ f, f ∈ map snd (map_to_list (st_facts s)) → (fr_recordedAt f <= st_now s)%Z;
  sc_beliefs : ∀ kv, kv ∈ st_evidence s → (de_createdAt kv.2 <= st_now s)%Z;
  sc_runs : ∀ r, r ∈ st_runs s → (ir_createdAt r <= st_now s)%Z
}.

Lemma omap_stored ds :
  (∀ d, d ∈ ds → isRecordId (cd_id d) = true) → omap cached_dependency (map stored_dependency ds) = ds.
Proof.
  induction ds as [|d ds IH]; intros H; [done|]. cbn [map omap list_omap].
  rewrite (stored_dependency_reads d) by (apply H; by left). f_equal. apply IH. intros x Hx. apply H. by right.
Qed.

(** An answer just admitted is served back: asked again by the same caller before
    anything else happens, with its cited facts live, the cache gives the same answer -
    the dependencies it stored pass the check they were stored for. *)
Theorem admitted_answer_is_served cfg ctx result audit am jsNow s s'
    (Hadm : run (admit_answer cfg ctx result audit jsNow) s = (s', true))
    (Hclock : settled_clock s)
    (Hfacts : ∀ id, id ∈ cited_ids result → live_fact jsNow (caller_user am) (st_now s) s id) :
  ∃ a, (run (tryServe am ctx (cx_callerScopes ctx) jsNow) s').2 = Some a ∧ Some (sa_answer a) = sr_answer result.
Proof.
  destruct (run_admit _ _ _ _ _ _ _ Hadm) as (arms & ds & subj & ttl & Had & _ & Httl & Hkeys & Hlive & Hsubj & Hanchor & ->).
  set (row := admitted_row cfg ctx result jsNow (st_now s) ds subj ttl).
  set (s' := with_cache (<[cx_key ctx := row]> (st_cache s)) s).
  assert (Hsome : is_Some (sr_answer result)).
  { unfold admissible in Had. rewrite !andb_true_iff, bool_decide_eq_true in Had.
    destruct Had as ((((_ & Ha) & _) & _) & _). by destruct (sr_answer result). }
  assert (Hds : omap cached_dependency (map stored_dependency ds) = ds).
  { apply omap_stored. intros d Hd. by apply Hlive. }
  assert (Hserv : servable ctx jsNow s' row).
  { unfold servable, find_row, s'. cbn [st_cache with_cache]. rewrite lookup_insert_eq. cbn.
    unfold user_column. rewrite !bool_decide_eq_true_2 by done. split; [done|]. split; [done|]. split; [lia|].
    apply existsb_false_In. intros r Hr. pose proof (sc_runs _ Hclock r Hr). unfold pending_run.
    assert ((st_now s <? ir_createdAt r)%Z = false) as -> by (apply Z.ltb_ge; done). by rewrite andb_false_r. }
  assert (Hnone : ∀ f, f ∈ map snd (map_to_list (st_facts s)) → newer_candidate ctx (cr_entityIds row) (st_now s) f = false).
  { intros f Hf. pose proof (sc_facts _ Hclock f Hf). unfold newer_candidate.
    assert ((st_now s <? fr_recordedAt f)%Z = false) as -> by (apply Z.ltb_ge; done). by rewrite andb_false_r. }
  assert (Hvalid : entry_valid am ctx (cx_callerScopes ctx) jsNow s' row).
  { split.
    - exists (map stored_dependency ds). split; [done|]. rewrite Hds. split.
      + intros raw (d & -> & Hd)%list_elem_of_fmap. destruct (Hlive d Hd) as (Hid & Hld & _).
        exists d. split; [by apply stored_dependency_reads|].
        assert (map cd_kind ds = map fst (wanted_of result arms)) as -> by (rewrite <- Hkeys, map_map; done). done.
      + destruct (sr_citations result) as [|c cs] eqn:Ec.
        * right. right. unfold subjects_of. cbn. destruct (Hanchor eq_refl) as [_ Hsub']. destruct subj as [|x subj]; [done|].
          cbn. rewrite bool_decide_eq_false_2 by (apply Hsubj; by left). done.
        * destruct (isEdgeCitation c) eqn:Ee; [right; left|left].
          -- intros Hnil. assert (Hin : (KEdge, ci_factId c) ∈ map dep_key ds).
             { rewrite Hkeys. unfold wanted_of. apply elem_of_app. right. apply list_elem_of_fmap. exists c.
               rewrite elem_of_bfilter, Ec. split; [done|]. split; [by left|done]. }
             apply list_elem_of_fmap in Hin as (d & Hd & Hin).
             assert (Hmem : cd_id d ∈ edge_ids ds).
             { unfold edge_ids. apply list_elem_of_fmap_2, elem_of_bfilter. split; [done|].
               apply bool_decide_eq_true. unfold dep_key in Hd. congruence. }
             rewrite Hnil in Hmem. by apply elem_of_nil in Hmem.
          -- change (cr_citedFactIds row) with (cited_ids result). unfold cited_ids. rewrite Ec.
             cbn [List.filter]. by rewrite Ee.
    - intros id Hid. by apply Hfacts.
    - intros f Hf Hc. change (cr_createdAt row) with (st_now s) in Hc. by rewrite (Hnone f Hf) in Hc.
    - change (st_facts s') with (st_facts s). change (cr_createdAt row) with (st_now s).
      assert (List.filter (newer_candidate ctx (cr_entityIds row) (st_now s)) (map snd (map_to_list (st_facts s))) = []) as ->.
      { destruct (List.filter _ _) as [|f l] eqn:Ef; [done|].
        assert (Hf : f ∈ f :: l) by by left. rewrite <- Ef in Hf. apply elem_of_bfilter in Hf as [Hf Hc].
        by rewrite (Hnone f Hf) in Hc. }
      apply Nat.le_0_l.
    - intros kv Hkv. pose proof (sc_beliefs _ Hclock kv Hkv). unfold newer_belief. cbn [cr_createdAt row admitted_row].
      assert ((st_now s <? de_createdAt kv.2)%Z = false) as -> by (apply Z.ltb_ge; done).
      by rewrite andb_false_r. }
  rewrite (run_tryServe _ _ _ _ _ _ Hserv).
  destruct (check_on_read am ctx row (cx_callerScopes ctx) jsNow s') as (_ & Hiff & _).
  apply Hiff in Hvalid as [cs ->]. eexists. split; [done|]. cbn. by destruct Hsome as [x ->].
Qed.
End cache.
