(* ===== verification/AnswerCacheKeys.v ===== *)
(** * Which requests share a cached answer, and the cache on examples

    The key of [answer-cache/answer-cache.service.ts] as a partition of the requests,
    and a small tenant on which the theorems of [AnswerCache] are applied and the two
    gaps of its invalidation are shown. *)

From S2P Require Import Prelude Js Resume ScopeTags TenantScope AnswerEvidence AnswerCache.
From stdpp Require Import gmap.
From Stdlib Require Import Ascii.
Local Open Scope string_scope.
Local Open Scope nat_scope.

Section keys.
Variable sha256 : string → string.
Hypothesis sha256_hex : ∀ x, has_char "|"%char (sha256 x) = false.

(** The scopes a request reads under: its key's and the acting circle's tags. *)
Definition effective_scopes (am : Ambient) (r : CacheRequest) : list string :=
  app (rq_callerScopes r) (actingCircleTags am).

(** The two texts hashed for a request. *)
Definition scope_text (am : Ambient) (r : CacheRequest) : string :=
  join_with " " (sorted_set (effective_scopes am r)).
Definition key_text (am : Ambient) (r : CacheRequest) : string :=
  join_with "|" (key_fields (key_input sha256 am r)).

Definition no_collision (x y : string) : Prop := sha256 x = sha256 y → x = y.

(** The profile hash is a digest; no bar in the model's name or the derived world's
    versions; no blank in a scope. The company's id, the user's id and the question are
    any text. *)
Record plain_request (am : Ambient) (r : CacheRequest) : Prop := {
  pr_profile : ∃ settings, rq_profileHash r = sha256 settings;
  pr_model : has_char "|"%char (rq_model r) = false;
  pr_pin : has_char "|"%char (canonicalDerivedPin (rq_pin r)) = false;
  pr_scopes : ∀ t, t ∈ effective_scopes am r → has_char " "%char t = false ∧ t ≠ ""
}.

(** Two requests that may share an answer. *)
Definition same_rights (am1 am2 : Ambient) (r1 r2 : CacheRequest) : Prop :=
  rq_companyId r1 = rq_companyId r2 ∧ truthy (rq_userId r1) = truthy (rq_userId r2) ∧
  (∀ t, t ∈ effective_scopes am1 r1 ↔ t ∈ effective_scopes am2 r2) ∧
  rq_profileHash r1 = rq_profileHash r2 ∧ rq_model r1 = rq_model r2 ∧
  canonicalDerivedPin (rq_pin r1) = canonicalDerivedPin (rq_pin r2) ∧
  normalizeQuery (normalizeQuery (rq_query r1)) = normalizeQuery (normalizeQuery (rq_query r2)).

Lemma scope_text_eq am1 am2 r1 r2 :
  plain_request am1 r1 → plain_request am2 r2 →
  scope_text am1 r1 = scope_text am2 r2 ↔ ∀ t, t ∈ effective_scopes am1 r1 ↔ t ∈ effective_scopes am2 r2.
Proof.
  intros H1 H2. rewrite <- sorted_set_eq. split; [|unfold scope_text; by intros ->].
  apply (join_with_inj " "%char); intros x Hx; rewrite elem_of_sorted_set in Hx;
    [by eapply pr_scopes, Hx|by eapply pr_scopes, Hx].
Qed.

(** A bar ends a field. *)
Lemma bar_field a a' l l' :
  has_char "|"%char a = false → has_char "|"%char a' = false → l ≠ [] → l' ≠ [] →
  join_with "|" (a :: l) = join_with "|" (a' :: l') ↔ a = a' ∧ join_with "|" l = join_with "|" l'.
Proof.
  intros Ha Ha' Hl Hl'. destruct l as [|x l]; [done|]. destruct l' as [|x' l']; [done|]. split.
  - intros E. by apply (str_sep_inj "|"%char).
  - intros [-> E]. change (a' +:+ "|" +:+ join_with "|" (x :: l) = a' +:+ "|" +:+ join_with "|" (x' :: l')).
    by rewrite E.
Qed.

(** The same first field falls away, whatever it holds. *)
Lemma same_field a l l' :
  l ≠ [] → l' ≠ [] → join_with "|" (a :: l) = join_with "|" (a :: l') ↔ join_with "|" l = join_with "|" l'.
Proof.
  intros Hl Hl'. destruct l as [|x l]; [done|]. destruct l' as [|x' l']; [done|].
  change (a +:+ "|" +:+ join_with "|" (x :: l) = a +:+ "|" +:+ join_with "|" (x' :: l') ↔
          join_with "|" (x :: l) = join_with "|" (x' :: l')).
  split; [|by intros ->]. intros E%str_append_inj_l. by injection E.
Qed.

(** Within one company and one user. *)
Lemma key_text_eq am1 am2 r1 r2 :
  plain_request am1 r1 → plain_request am2 r2 →
  rq_companyId r1 = rq_companyId r2 → truthy (rq_userId r1) = truthy (rq_userId r2) →
  key_text am1 r1 = key_text am2 r2 ↔
  sha256 (scope_text am1 r1) = sha256 (scope_text am2 r2) ∧
  rq_profileHash r1 = rq_profileHash r2 ∧ rq_model r1 = rq_model r2 ∧
  canonicalDerivedPin (rq_pin r1) = canonicalDerivedPin (rq_pin r2) ∧
  normalizeQuery (normalizeQuery (rq_query r1)) = normalizeQuery (normalizeQuery (rq_query r2)).
Proof.
  intros H1 H2 Hc Hu. unfold key_text, key_fields.
  cbn [key_input ki_companyId ki_userId ki_profileHash ki_model ki_derivedVersionPin ki_scopeHash ki_query].
  destruct (pr_profile _ _ H1) as [p1 P1], (pr_profile _ _ H2) as [p2 P2].
  rewrite Hc, Hu, !same_field by done.
  rewrite (bar_field (computeScopeHash _ _)) by (try apply sha256_hex; done).
  rewrite (bar_field (rq_profileHash r1)) by (rewrite ?P1, ?P2; try apply sha256_hex; done).
  rewrite (bar_field (rq_model r1)) by (try eapply pr_model; done).
  rewrite (bar_field ANSWER_CACHE_PROMPT_VERSION) by done.
  rewrite (bar_field (canonicalDerivedPin (rq_pin r1))) by (try eapply pr_pin; done).
  cbn [join_with]. unfold computeScopeHash, scope_text, effective_scopes. tauto.
Qed.

(** The context an answer is admitted under: the request's, with what the lanes rendered. *)
Definition admission_context (am : Ambient) (e : bool) (r : CacheRequest) (ctx : StoreContext) : Prop :=
  ctx = buildContext sha256 am e r ∨
  ∃ belief fragment scene, ctx = observeRendered belief fragment scene (buildContext sha256 am e r).

(** C10. A stored answer is found by exactly the requests with the rights of the one it
    was made for: once an answer is admitted for a request, another request finds that
    entry if and only if it is of the same company and the same user (or of none), read
    under the same set of scopes and circle tags - in any order, with any repetition -,
    with the same profile, model and derived world, and asks the same question up to white
    space. The company's id, the user's id and the question may be any text: where two of
    them run together in the key the entry's own company and user decide. What is asked
    of the rest: the profile is given by its hash, whose values hold no bar, nor do the
    model's name and the world's versions; no scope is empty or holds a blank; and the
    hash does not collide on the four texts at hand. *)
Theorem shared_entry_shares_rights num_to_string consent cfg am1 am2 e1 e2 r1 r2 ctx result audit jsNow s s'
    (Hctx : admission_context am1 e1 r1 ctx)
    (Hadm : run (admit_answer num_to_string sha256 consent cfg ctx result audit jsNow) s = (s', true))
    (Hp1 : plain_request am1 r1) (Hp2 : plain_request am2 r2)
    (Hkey : no_collision (key_text am1 r1) (key_text am2 r2))
    (Hscope : no_collision (scope_text am1 r1) (scope_text am2 r2)) :
  find_row (buildContext sha256 am2 e2 r2) s' = st_cache s' !! cx_key ctx ↔ same_rights am1 am2 r1 r2.
Proof.
  assert (Hcx : cx_key ctx = sha256 (key_text am1 r1) ∧ cx_companyId ctx = rq_companyId r1 ∧ cx_userId ctx = truthy (rq_userId r1)).
  { by destruct Hctx as [->|(b & f & sc & ->)]. }
  destruct Hcx as (Hk & Hc & Hu).
  destruct (run_admit _ _ _ _ _ _ _ _ _ _ Hadm) as (arms & ds & subj & ttl & _ & _ & _ & _ & _ & _ & _ & ->).
  cbn [with_cache st_cache]. rewrite lookup_insert_eq. unfold find_row. cbn [with_cache st_cache].
  change (cx_key (buildContext sha256 am2 e2 r2)) with (sha256 (key_text am2 r2)).
  assert (Es : sha256 (scope_text am1 r1) = sha256 (scope_text am2 r2) ↔
               ∀ t, t ∈ effective_scopes am1 r1 ↔ t ∈ effective_scopes am2 r2).
  { rewrite <- scope_text_eq by done. split; [apply Hscope|by intros ->]. }
  rewrite Hk. split.
  - destruct (<[_:=_]> (st_cache s) !! sha256 (key_text am2 r2)) as [row|]; [|done].
    destruct (bool_decide _ && bool_decide _ && user_column _ _) eqn:E; [|done]. intros [= ->].
    unfold user_column in E. rewrite !andb_true_iff, !bool_decide_eq_true in E.
    cbn [admitted_row cr_companyId cr_queryHash cr_userId buildContext cx_companyId cx_userId] in E.
    destruct E as ((E1 & E2) & E3). rewrite Hk in E2. apply Hkey in E2. rewrite Hc in E1. rewrite Hu in E3.
    apply key_text_eq in E2; [|done..]. rewrite Es in E2. unfold same_rights. tauto.
  - intros (Rc & Ru & Rs & Rr). assert (E : key_text am1 r1 = key_text am2 r2).
    { apply key_text_eq; [done..|]. rewrite Es. tauto. }
    rewrite <- E, lookup_insert_eq.
    cbn [admitted_row cr_companyId cr_queryHash cr_userId buildContext cx_companyId cx_userId].
    unfold user_column. cbn [buildContext cx_companyId cx_userId].
    rewrite !bool_decide_eq_true_2 by (by rewrite ?Hc, ?Hu, ?Hk). done.
Qed.
End keys.

(** ** A small tenant *)

(** A hash that does not collide: the text in hexadecimal. *)
Definition hex_digit (n : nat) : ascii := ascii_of_nat (if n <? 10 then 48 + n else 87 + n).
Fixpoint hex_text (s : string) : string :=
  match s with
  | EmptyString => EmptyString
  | String c s' => String (hex_digit (nat_of_ascii c / 16)) (String (hex_digit (nat_of_ascii c mod 16)) (hex_text s'))
  end.

Lemma hex_text_no_bar x : has_char "|"%char (hex_text x) = false.
Proof.
  induction x as [|c x IH]; [done|]. unfold has_char in *. cbn [hex_text index_of].
  assert (H : ∀ n, n < 16 → hex_digit n ≠ "|"%char).
  { intros n Hn. do 16 (destruct n as [|n]; [done|]). lia. }
  rewrite !bool_decide_eq_false_2; [by destruct (index_of "|" (hex_text x))| |]; apply not_eq_sym || idtac; apply H.
  - apply Nat.mod_upper_bound. lia.
  - apply Nat.Div0.div_lt_upper_bound. apply nat_ascii_bounded.
Qed.

Definition one_number (_ : float) : string := "1".

Definition cache_caller : Ambient :=
  {| am_authUserId := Some "u1"; am_actingCircle := None; am_scopeTags := []; am_jobCircle := None;
     am_writeScope := None; am_scopeTagsEnabled := false |}.

Definition asked (query : string) (scopes : list string) : CacheRequest :=
  {| rq_companyId := "co"; rq_userId := Some "u1"; rq_callerScopes := scopes; rq_profileHash := hex_text "p";
     rq_model := "m"; rq_pin := PinNone; rq_query := query |}.

Definition cached_ctx : StoreContext :=
  buildContext hex_text cache_caller false (asked "where is ana?" ["brain:read"]).

Definition stated (object : string) (recordedAt : Z) : CitedFactRow :=
  {| fr_predicate := "lives_in"; fr_predicateAlias := None; fr_object := object;
     fr_entityId := Some "e:ana"; fr_status := "active"; fr_validUntil := None;
     fr_expectedUntil := None; fr_retractedAt := None; fr_userId := None; fr_recordedAt := recordedAt |}.

Definition taken_back (f : CitedFactRow) (at_ : Z) : CitedFactRow :=
  {| fr_predicate := fr_predicate f; fr_predicateAlias := fr_predicateAlias f; fr_object := fr_object f;
     fr_entityId := fr_entityId f; fr_status := "retracted"; fr_validUntil := fr_validUntil f;
     fr_expectedUntil := fr_expectedUntil f; fr_retractedAt := Some at_; fr_userId := fr_userId f;
     fr_recordedAt := fr_recordedAt f |}.

Definition held (createdAt : Z) : DependencyRow :=
  {| de_userId := VStr "u1"; de_revision := VNum 1%float; de_status := VStr "active"; de_supersededBy := VUndef;
     de_validUntil := None; de_quarantineStatus := VUndef; de_gist := VUndef; de_enrichedGist := VUndef;
     de_unexpectedDetails := VUndef; de_userIds := VUndef; de_piiClass := VUndef; de_piiClasses := VUndef;
     de_segmenterVersion := VUndef; de_assetUserId := VUndef; de_assetAvailability := VUndef;
     de_subject := VStr "ana"; de_createdAt := createdAt; de_invalidatedAt := VUndef; de_kind := None;
     de_in := None; de_fromName := None; de_toName := None |}.

Definition tenant (facts : list (string * CitedFactRow)) (beliefs : list (string * DependencyRow))
    (cache : gmap string CacheRow) (now : Z) : Store :=
  {| st_facts := list_to_map facts; st_names := {[ "e:ana" := "Ana" ]};
     st_evidence := map (λ b, ((KBelief, b.1), b.2)) beliefs; st_runs := []; st_projections := []; st_packs := [];
     st_cache := cache; st_now := now |}.

Definition f1 : string * CitedFactRow := ("f:1", stated "Porto" 10).
Definition b1 : string * DependencyRow := ("semantic_belief:b1", held 10).
Definition asked_tenant : Store := tenant [f1] [b1] ∅ 100.

Definition porto : SynthesizeResult :=
  {| sr_answer := Some "In Porto."; sr_reason := None;
     sr_citations := [{| ci_factId := "f:1"; ci_entityId := "e:ana";
                         ci_canonicalName := "Ana"; ci_predicate := "lives_in"; ci_slot := "lives_in";
                         ci_object := "Porto" |}];
     sr_evidenceCitations := [{| ec_beliefId := Some "semantic_belief:b1"; ec_episodeId := None;
                                 ec_fragmentId := None; ec_sceneId := None |}] |}.

(** The same answer with no belief behind it. *)
Definition facts_only : SynthesizeResult :=
  {| sr_answer := sr_answer porto; sr_reason := None; sr_citations := sr_citations porto; sr_evidenceCitations := [] |}.

Definition audited : Audit := {| au_verdict := Supported; au_questionAnswered := None; au_answerGiven := None |}.
Definition default_settings : CacheSettings := {| cs_ttlHours := None; cs_enumTtlHours := None; cs_enumMinCitations := None |}.

Definition kept : Store * bool :=
  run (admit_answer one_number hex_text (λ _, false) default_settings cached_ctx porto audited 100) asked_tenant.

Definition served_by (scopes : list string) (jsNow : Z) (s : Store) : Store * option ServedAnswer :=
  run (tryServe one_number hex_text (λ _, true) (λ _, false) cache_caller cached_ctx scopes jsNow) s.

(** The tenant later on: other facts and beliefs, the cache as a read left it. *)
Definition later (facts : list (string * CitedFactRow)) (beliefs : list (string * DependencyRow)) (s : Store) (now : Z) :
    Store := tenant facts beliefs (st_cache s) now.

Definition retracted_at_200 : Store := later [(f1.1, taken_back f1.2 200)] [b1] kept.1 200.

Definition answered (o : Store * option ServedAnswer) : option string := sa_answer <$> o.2.

Lemma asked_plain q l : (∀ t, t ∈ l → t ∈ ["a"; "b"]) → plain_request hex_text cache_caller (asked q l).
Proof.
  intros Hl. split; [|done|done|].
  - by exists "p".
  - intros t Ht. unfold effective_scopes in Ht. cbn in Ht. rewrite app_nil_r in Ht. apply Hl in Ht. set_unfold. naive_solver.
Qed.

Lemma asked_same :
  same_rights cache_caller cache_caller (asked " where is   ana?" ["b"; "a"; "b"]) (asked "where is ana?" ["a"; "b"]).
Proof.
  unfold same_rights. split_and!; [done|done| |done|done|done|by vm_compute].
  intros t. unfold effective_scopes. cbn. set_solver.
Qed.

Lemma only_a (t : string) : t ∈ ["a"] → t ∈ ["a"; "b"].
Proof. intros ->%list_elem_of_singleton. by left. Qed.

Lemma asked_not_same :
  ¬ same_rights cache_caller cache_caller (asked " where is   ana?" ["b"; "a"; "b"]) (asked "where is ana?" ["a"]).
Proof.
  intros (_ & _ & Hs & _). specialize (Hs "b"). unfold effective_scopes in Hs. cbn in Hs. set_solver.
Qed.

(** The answer kept for one request, looked up by another. *)
Lemma shared_entry_shares_rights_witness :
  let ctx := buildContext hex_text cache_caller false (asked " where is   ana?" ["b"; "a"; "b"]) in
  let s := (run (admit_answer one_number hex_text (λ _, false) default_settings ctx porto audited 100) asked_tenant).1 in
  let find l := find_row (buildContext hex_text cache_caller true (asked "where is ana?" l)) s in
  is_Some (st_cache s !! cx_key ctx) ∧ find ["a"; "b"] = st_cache s !! cx_key ctx ∧
  ¬ find ["a"] = st_cache s !! cx_key ctx.
Proof.
  cbn zeta. set (ctx := buildContext _ _ _ _). set (out := run (admit_answer _ _ _ _ ctx _ _ _) _).
  assert (Hadm : out = (out.1, true)).
  { assert (H : out.2 = true) by (by vm_compute). rewrite <- H. apply surjective_pairing. }
  assert (Hone : ∀ l, (∀ t, t ∈ l → t ∈ ["a"; "b"]) →
    no_collision hex_text (key_text hex_text cache_caller (asked " where is   ana?" ["b"; "a"; "b"]))
      (key_text hex_text cache_caller (asked "where is ana?" l)) →
    no_collision hex_text (scope_text cache_caller (asked " where is   ana?" ["b"; "a"; "b"]))
      (scope_text cache_caller (asked "where is ana?" l)) →
    find_row (buildContext hex_text cache_caller true (asked "where is ana?" l)) out.1 = st_cache out.1 !! cx_key ctx ↔
    same_rights cache_caller cache_caller (asked " where is   ana?" ["b"; "a"; "b"]) (asked "where is ana?" l)).
  { intros l Hl Hk Hs. apply (shared_entry_shares_rights hex_text hex_text_no_bar one_number (λ _, false) default_settings
      cache_caller cache_caller false true _ _ ctx porto audited 100 asked_tenant out.1);
      [by left|exact Hadm|apply asked_plain; clear; set_solver|by apply asked_plain|exact Hk|exact Hs]. }
  split; [eexists; vm_compute; reflexivity|]. clearbody out. clear Hadm. split.
  - refine (proj2 (Hone ["a"; "b"] _ _ _) _); [by intros t|intros _; vm_compute; reflexivity|intros _; vm_compute; reflexivity|].
    by apply asked_same.
  - intros H. apply asked_not_same, (proj1 (Hone ["a"] only_a
      ltac:(intros E; vm_compute in E; discriminate E) ltac:(intros E; vm_compute in E; discriminate E)) H).
Defined.

(** A user may be called a dash: its key is then the one of the requests of no user, so
    that the two never read each other's answer but each admission takes the other's
    place. *)
Lemma dash_shares_the_key_of_no_user :
  let none := {| rq_companyId := "co"; rq_userId := None; rq_callerScopes := ["brain:read"]; rq_profileHash := hex_text "p";
                 rq_model := "m"; rq_pin := PinNone; rq_query := "where is ana?" |} in
  let dash := {| rq_companyId := "co"; rq_userId := Some "-"; rq_callerScopes := ["brain:read"]; rq_profileHash := hex_text "p";
                 rq_model := "m"; rq_pin := PinNone; rq_query := "where is ana?" |} in
  let keep r s := (run (admit_answer one_number hex_text (λ _, false) default_settings
    (buildContext hex_text cache_caller false r) facts_only audited 100) s).1 in
  let find r s := find_row (buildContext hex_text cache_caller false r) s in
  let first := keep none asked_tenant in
  is_Some (find none first) ∧ find dash first = None ∧
  is_Some (find dash (keep dash first)) ∧ find none (keep dash first) = None.
Proof. cbn zeta. split_and!; first [eexists; vm_compute; reflexivity|by vm_compute]. Qed.

Lemma kept_run :
  run (admit_answer one_number hex_text (λ _, false) default_settings cached_ctx porto audited 100) asked_tenant = (kept.1, true).
Proof.
  change (kept = (kept.1, true)). assert (H : kept.2 = true) by (by vm_compute).
  rewrite <- H. apply surjective_pairing.
Qed.

Lemma admission_is_tracked_witness :
  kept.2 = true ∧ au_verdict audited = Supported.
Proof.
  split; [by vm_compute|].
  exact (proj1 (admission_is_tracked one_number hex_text (λ _, false) default_settings cached_ctx porto audited 100
    asked_tenant kept.1 kept_run)).
Defined.

Lemma admitted_answer_is_served_witness :
  ∃ a, (served_by ["brain:read"] 100 kept.1).2 = Some a ∧ sa_answer a = "In Porto.".
Proof.
  destruct (admitted_answer_is_served one_number hex_text (λ _, true) (λ _, false) default_settings cached_ctx
    porto audited cache_caller 100 asked_tenant kept.1 kept_run) as (a & Ha & Hs).
  - assert (Hf : map snd (map_to_list (st_facts asked_tenant)) = [f1.2]) by (by vm_compute). split.
    + intros f. rewrite Hf. intros ->%list_elem_of_singleton. by vm_compute.
    + intros kv ->%list_elem_of_singleton. by vm_compute.
    + intros r Hr. destruct (not_elem_of_nil r Hr).
  - intros id ->%list_elem_of_singleton. exists f1.2. split; [by vm_compute|]. by split_and!.
  - exists a. split; [exact Ha|]. clear Ha. by injection Hs.
Defined.

Lemma dead_entry_stays_dead_witness :
  (served_by ["brain:read"] 300 (later [f1] [b1] (served_by ["brain:read"] 200 retracted_at_200).1 300)).2 = None.
Proof.
  set (s1 := (served_by ["brain:read"] 200 retracted_at_200).1).
  destruct (dead_entry_stays_dead one_number hex_text (λ _, true) (λ _, false) cache_caller cached_ctx ["brain:read"]
    200 retracted_at_200
    (admitted_row default_settings cached_ctx porto 100 100
       [{| cd_kind := KBelief; cd_id := "semantic_belief:b1"; cd_rev := "1" |}] ["ana"] 24)
    IRetracted s1 cache_caller ["brain:read"] 300 (later [f1] [b1] s1 300)) as (_ & H).
  - unfold servable. split_and!; by vm_compute.
  - by vm_compute.
  - done.
  - done.
  - done.
  - unfold served_by. by rewrite H.
Defined.

(** The cause [newer_belief] is not among those the column admits: a read that finds a
    newer belief refuses the entry and leaves no mark on it, and once that belief is
    itself superseded the entry is served again. *)
Lemma newer_belief_is_not_stamped :
  let b2 := ("semantic_belief:b2", held 150) in
  let refused := served_by ["brain:read"] 200 (later [f1] [b1; b2] kept.1 200) in
  answered refused = None ∧ st_cache refused.1 !! cx_key cached_ctx = st_cache kept.1 !! cx_key cached_ctx ∧
  answered (served_by ["brain:read"] 300 (later [f1] [b1] refused.1 300)) = Some "In Porto.".
Proof. cbn zeta. split_and!; by vm_compute. Qed.

(** The probe starts at the admission: a fact recorded at 90, after the retrieval that
    built the answer and before its admission at 100, is never seen, whereas one recorded
    at 110 is. *)
Lemma fact_before_admission_is_missed :
  let moved at_ := ("f:2", stated "Lisboa" at_) in
  answered (served_by ["brain:read"] 200 (later [f1; moved 90%Z] [b1] kept.1 200)) = Some "In Porto." ∧
  answered (served_by ["brain:read"] 200 (later [f1; moved 110%Z] [b1] kept.1 200)) = None.
Proof. cbn zeta. split; by vm_compute. Qed.
