(* ===== verification/Dispatcher.v ===== *)
(** * Running one claimed job

    [jobs/job-dispatcher.service.ts]: the renewals that run beside the handler and carry
    the cancel request, and the one terminal write the handler's end leads to. The
    handler is any function of what the dispatcher told it; the text of a failed batch
    is a parameter ([BatchOutcome.describeBatchOutcome] on the outcome's record). Spans
    and metrics are left out, the outcome they report is the result. *)

From S2P Require Import Prelude Js Resume JobQueue BatchOutcome.
Local Open Scope string_scope.
Local Open Scope nat_scope.

Record RegisteredHandler := {
  rh_jobType : string;
  rh_ttlSeconds : Z;
  rh_maxAttempts : nat;
  rh_cpuBound : bool;
  rh_workerModule : option string
}.

Inductive AbortReason : Type := PodShutdown | LostClaim | CancelRequested.

(** What the dispatcher has learned so far; a controller aborts once. *)
Record Run := { rn_cancelRequested : bool; rn_lostClaim : bool; rn_abort : option AbortReason }.

Definition run_start : Run := {| rn_cancelRequested := false; rn_lostClaim := false; rn_abort := None |}.

Definition abort_with (reason : AbortReason) (cancel lost : bool) (r : Run) : Run :=
  {| rn_cancelRequested := cancel; rn_lostClaim := lost;
     rn_abort := match rn_abort r with Some a => Some a | None => Some reason end |}.

(** While the handler runs: a renewal, one whose query failed (reported as still ours),
    or the pod's shutdown. The listener of a shutdown that happened before the dispatch
    began never fires. *)
Inductive run_event : Type := EvRenew (until : Z) | EvRenewFailed | EvShutdown.

Inductive handler_end : Type := Returned (res : jsval) | Threw (message : string).

Inductive JobOutcome : Type := JSucceeded | JFailed | JCancelled | JLostClaim.

#[export] Instance JobOutcome_eq_dec : EqDecision JobOutcome.
Proof. solve_decision. Defined.

(** [Math.max(1000, Math.floor((reg.ttlSeconds * 1000) / 3))] *)
Definition renewIntervalMs (reg : RegisteredHandler) : Z := Z.max 1000 (rh_ttlSeconds reg * 1000 / 3).

(** [reg.cpuBound && reg.workerModule && pool.enabled()] *)
Definition in_worker_pool (reg : RegisteredHandler) (pool_enabled : bool) : bool :=
  rh_cpuBound reg && bool_decide (truthy (rh_workerModule reg) ≠ None) && pool_enabled.

Section dispatch.
Context (me : string) (claim : JobClaim) (reg : RegisteredHandler) (describe : jsval → string).

(** What a renewal's answer does. *)
Definition on_renewal (r : Renewal) (s : Run) : Run :=
  if negb (stillOwned r) then abort_with LostClaim (rn_cancelRequested s) true s
  else if cancelRequested r && negb (rn_cancelRequested s)
  then abort_with CancelRequested true (rn_lostClaim s) s
  else s.

Fixpoint run_events (aborted : bool) (evs : list run_event) (s : Run) : prog Queue Run :=
  match evs with
  | [] => Done s
  | EvRenew until :: evs' =>
      do* r := renew me (jc_recordId claim) (jc_claimEpoch claim) until in
      run_events aborted evs' (on_renewal r s)
  | EvRenewFailed :: evs' => run_events aborted evs' s
  | EvShutdown :: evs' =>
      run_events aborted evs' (if aborted then s
        else abort_with PodShutdown (rn_cancelRequested s) (rn_lostClaim s) s)
  end.

(** [x ?? undefined] *)
Definition nullish (v : jsval) : option jsval := if present v then Some v else None.

(** [visibleAfter] is the backoff's instant. *)
Definition settle (result : jsval) (visibleAfter : Z) : prog Queue JobOutcome :=
  match batchOutcomeOf result with
  | Some (s, o) =>
      if bool_decide (s = "failed") then
        do* _ := fail me (jc_recordId claim) (jc_claimEpoch claim) (jc_attempts claim) (describe o)
                   (Some true) (Some (rh_maxAttempts reg)) visibleAfter (Some result) in
        Done JFailed
      else do* _ := complete me (jc_recordId claim) (jc_claimEpoch claim) (nullish result) in Done JSucceeded
  | None => do* _ := complete me (jc_recordId claim) (jc_claimEpoch claim) (nullish result) in Done JSucceeded
  end.

Definition cancel_note (message : string) : jsval :=
  VObj [("reason", VStr "cancel_requested"); ("message", VStr message)].

Definition dispatchBody (aborted : bool) (evs : list run_event) (handler : Run → handler_end) (visibleAfter : Z) :
    prog Queue JobOutcome :=
  do* s := run_events aborted evs run_start in
  match handler s with
  | Returned result =>
      if rn_cancelRequested s then
        do* _ := cancelled me (jc_recordId claim) (jc_claimEpoch claim) (nullish result) in Done JCancelled
      else if rn_lostClaim s then Done JLostClaim
      else settle result visibleAfter
  | Threw message =>
      if rn_cancelRequested s then
        do* _ := cancelled me (jc_recordId claim) (jc_claimEpoch claim) (Some (cancel_note message)) in
        Done JCancelled
      else if rn_lostClaim s then Done JLostClaim
      else
        do* _ := fail me (jc_recordId claim) (jc_claimEpoch claim) (jc_attempts claim) message
                   (Some true) (Some (rh_maxAttempts reg)) visibleAfter None in
        Done JFailed
  end.
End dispatch.

(** ** A claim that is ours *)

Definition is_renewal (e : run_event) : bool := match e with EvRenew _ => true | _ => false end.

(** [r'] is [r] under a later lease, or [r] itself. *)
Definition renewed (r r' : JobRow) : Prop := r' = r ∨ ∃ until now, r' = renew_row until now r.

Lemma renewed_step u n r r' : renewed r r' → renewed r (renew_row u n r').
Proof. intros [->|(u' & n' & ->)]; right; [by exists u, n|by exists u, n]. Qed.

Lemma renewed_keeps me e r r' : renewed r r' →
  ownerGuard me e r' = ownerGuard me e r ∧ jr_cancelRequested r' = jr_cancelRequested r ∧
  same_identity r r' ∧ jr_attempts r' = jr_attempts r.
Proof. by intros [->|(u & n & ->)]. Qed.

Lemma not_owned_skip me rid e q f :
  ¬ owned me rid e q → update_where rid (ownerGuard me e) f q = (q, None).
Proof.
  intros Hn. apply update_where_skip. intros r Hr. apply not_true_iff_false.
  intros Hg. apply Hn. by exists r.
Qed.

Section claims.
Context (me : string) (claim : JobClaim) (reg : RegisteredHandler) (describe : jsval → string).
Let rid := jc_recordId claim.
Let epoch := jc_claimEpoch claim.

Lemma run_events_owned aborted evs s q r0 r :
  q_rows q !! rid = Some r → ownerGuard me epoch r = true → renewed r0 r →
  ∃ r' s', run (run_events me claim aborted evs s) q = (with_rows q (<[rid := r']> (q_rows q)), s') ∧
    renewed r0 r' ∧ rn_lostClaim s' = rn_lostClaim s ∧
    rn_cancelRequested s' = rn_cancelRequested s || (jr_cancelRequested r && existsb is_renewal evs).
Proof.
  revert s q r. induction evs as [|ev evs IH]; intros s q r Hr Hg Hre.
  - exists r, s. cbn. rewrite andb_false_r, orb_false_r, insert_id by done. by destruct q.
  - destruct ev as [u| |]; cbn [run_events existsb is_renewal orb].
    + rewrite run_bind. unfold renew at 1 2. rewrite !run_bind, !run_update.
      fold rid epoch. rewrite (update_where_hit _ _ _ _ _ Hr Hg). cbn [fst snd run].
      destruct (IH (on_renewal {| stillOwned := true; cancelRequested := jr_cancelRequested (renew_row u (q_now q) r) |} s)
        (with_rows q (<[rid := renew_row u (q_now q) r]> (q_rows q))) (renew_row u (q_now q) r))
        as (r' & s' & E & Hre' & Hl & Hc).
      * cbn. by rewrite lookup_insert_eq.
      * done.
      * by apply renewed_step.
      * exists r', s'. rewrite E. cbn [with_rows q_rows q_now]. rewrite insert_insert_eq.
        split_and!; [done..| |].
        -- rewrite Hl. unfold on_renewal. cbn. by case_match.
        -- rewrite Hc. unfold on_renewal. cbn. rewrite andb_true_r.
           destruct (jr_cancelRequested r), (rn_cancelRequested s) eqn:Es; cbn; rewrite ?Es; done.
    + by apply IH.
    + destruct (IH (if aborted then s else abort_with PodShutdown (rn_cancelRequested s) (rn_lostClaim s) s) q r)
        as (r' & s' & E & ? & Hl & Hc); [done..|].
      exists r', s'. rewrite E. split_and!; [done..| |]; [rewrite Hl|rewrite Hc]; by destruct aborted.
Qed.

Lemma run_events_stranger aborted evs s q :
  ¬ owned me rid epoch q →
  ∃ s', run (run_events me claim aborted evs s) q = (q, s') ∧
    rn_cancelRequested s' = rn_cancelRequested s ∧
    rn_lostClaim s' = rn_lostClaim s || existsb is_renewal evs.
Proof.
  intros Hn. revert s. induction evs as [|ev evs IH]; intros s.
  - exists s. cbn. by rewrite orb_false_r.
  - destruct ev as [u| |]; cbn [run_events existsb is_renewal orb].
    + rewrite run_bind. unfold renew at 1 2. rewrite !run_bind, !run_update. fold rid epoch.
      rewrite not_owned_skip by done. cbn [fst snd run].
      destruct (IH (on_renewal {| stillOwned := false; cancelRequested := false |} s)) as (s' & E & Hc & Hl).
      exists s'. rewrite E, Hc, Hl, orb_true_r. done.
    + by apply IH.
    + destruct (IH (if aborted then s else abort_with PodShutdown (rn_cancelRequested s) (rn_lostClaim s) s))
        as (s' & E & Hc & Hl). exists s'. rewrite E, Hc, Hl. by destruct aborted.
Qed.

(** The state a dispatch's outcome stands for. *)
Definition outcome_status (o : JobOutcome) : JobStatus :=
  match o with
  | JSucceeded => Succeeded
  | JFailed => if jc_attempts claim <? rh_maxAttempts reg then Pending else JobQueue.Failed
  | JCancelled => Cancelled
  | JLostClaim => Running
  end.

Lemma fail_status msg va res :
  write_status (WFail (jc_attempts claim) msg (Some true) (Some (rh_maxAttempts reg)) va res) =
    outcome_status JFailed ∧
  write_status (WFail (jc_attempts claim) msg (Some true) (Some (rh_maxAttempts reg)) va res) ≠ Running.
Proof.
  unfold write_status, outcome_status, will_requeue. change (default 3 (Some (rh_maxAttempts reg))) with (rh_maxAttempts reg).
  by destruct (jc_attempts claim <? rh_maxAttempts reg).
Qed.

(** A terminal write of a held claim. *)
Lemma terminal_write w q r :
  q_rows q !! rid = Some r → ownerGuard me epoch r = true → write_status w ≠ Running →
  ∃ r', q_rows (run (write_prog w me rid epoch) q).1 = <[rid := r']> (q_rows q) ∧
    jr_status r' = write_status w ∧ jr_claimedBy r' = None ∧ same_identity r r' ∧
    jr_attempts r' = jr_attempts r.
Proof.
  intros Hr Hg Hw. pose proof (update_where_hit rid (ownerGuard me epoch)) as H.
  destruct w; cbn [write_status] in *; try done; unfold write_prog, complete, cancelled, fail, release;
    rewrite ?run_bind, ?run_update, (H _ _ _ Hr Hg); cbn [fst snd run with_rows q_rows];
    (eexists; split; [reflexivity|]); try done.
  fold (will_requeue attempts requeue maxAttempts). by destruct (will_requeue _ _ _).
Qed.

Lemma terminal_write_with {A} (k : bool → A) w q r0 r :
  renewed r0 r → q_rows q !! rid = Some r → ownerGuard me epoch r = true → write_status w ≠ Running →
  ∃ r', q_rows (run (do* b := write_prog w me rid epoch in Done (k b)) q).1 = <[rid := r']> (q_rows q) ∧
    jr_status r' = write_status w ∧ jr_claimedBy r' = None ∧ same_identity r0 r' ∧
    jr_attempts r' = jr_attempts r0.
Proof.
  intros Hre Hr Hg Hw. destruct (terminal_write w q r Hr Hg Hw) as (r' & E & Hs & Hc & Hi & Ha).
  destruct (renewed_keeps me epoch r0 r Hre) as (_ & _ & Hi0 & Ha0).
  exists r'. rewrite run_bind. cbn [run fst]. split_and!; [done..| |congruence].
  unfold same_identity in *. intuition congruence.
Qed.

(** C7. A dispatch that keeps its claim settles it: whatever the handler does, in
    whatever order renewals, failed renewals and the pod's shutdown fall, the claimed
    record ends in exactly the state the outcome names - succeeded, failed or requeued
    by its attempts, cancelled - with no owner and its identity and attempt count kept,
    no other record is touched, and the run is cancelled exactly when the operator asked
    for it and a renewal could see it. *)
Theorem dispatch_settles_its_record aborted evs handler va q r
    (Hrow : q_rows q !! rid = Some r) (Hown : ownerGuard me epoch r = true) :
  let '(q', o) := run (dispatchBody me claim reg describe aborted evs handler va) q in
  ∃ r', q_rows q' = <[rid := r']> (q_rows q) ∧ jr_status r' = outcome_status o ∧
    jr_claimedBy r' = None ∧ same_identity r r' ∧ jr_attempts r' = jr_attempts r ∧
    (o = JCancelled ↔ jr_cancelRequested r = true ∧ existsb is_renewal evs = true) ∧ o ≠ JLostClaim.
Proof.
  destruct (run_events_owned aborted evs run_start q r r Hrow Hown (or_introl eq_refl))
    as (r1 & s & E & Hre & Hl & Hc). fold rid in E. cbn in Hl, Hc.
  destruct (renewed_keeps me epoch r r1 Hre) as (Hg1 & Hc1 & _ & _). rewrite Hown in Hg1.
  set (q1 := with_rows q (<[rid := r1]> (q_rows q))) in *.
  assert (Hr1 : q_rows q1 !! rid = Some r1) by (cbn; by rewrite lookup_insert_eq).
  assert (Hq1 : ∀ x, <[rid := x]> (q_rows q1) = <[rid := x]> (q_rows q))
    by (intros; cbn; by rewrite insert_insert_eq).
  destruct (run (dispatchBody _ _ _ _ _ _ _ _) q) as [q' o] eqn:Hrun.
  unfold dispatchBody in Hrun. rewrite run_bind, E in Hrun. cbn [fst snd] in Hrun.
  assert (Hend : ∀ w o0 (Hw : write_status w ≠ Running) (Hs : write_status w = outcome_status o0),
    run (do* _ := write_prog w me rid epoch in Done o0) q1 = (q', o) →
    (o0 = JCancelled ↔ rn_cancelRequested s = true) → o0 ≠ JLostClaim →
    ∃ r', q_rows q' = <[rid := r']> (q_rows q) ∧ jr_status r' = outcome_status o ∧
      jr_claimedBy r' = None ∧ same_identity r r' ∧ jr_attempts r' = jr_attempts r ∧
      (o = JCancelled ↔ jr_cancelRequested r = true ∧ existsb is_renewal evs = true) ∧ o ≠ JLostClaim).
  { intros w o0 Hw Hs Hwr Hcan Hlost.
    destruct (terminal_write_with (λ _, o0) w q1 r r1 Hre Hr1 Hg1 Hw) as (r' & Er & H1 & H2 & H3 & H4).
    assert (o = o0) as ->. { rewrite run_bind in Hwr. cbn in Hwr. by simplify_eq. }
    rewrite Hwr, Hq1 in Er. exists r'. cbn [fst] in Er. split_and!; try done; [congruence|].
    rewrite Hcan, Hc, andb_true_iff. done. }
  assert (Hsettle : ∀ res, rn_cancelRequested s = false →
    run (settle me claim reg describe res va) q1 = (q', o) → ∃ r', q_rows q' = <[rid := r']> (q_rows q) ∧
      jr_status r' = outcome_status o ∧
      jr_claimedBy r' = None ∧ same_identity r r' ∧ jr_attempts r' = jr_attempts r ∧
      (o = JCancelled ↔ jr_cancelRequested r = true ∧ existsb is_renewal evs = true) ∧ o ≠ JLostClaim).
  { intros res Hnc. unfold settle. fold rid epoch.
    destruct (batchOutcomeOf res) as [[st ob]|]; [case_bool_decide|]; intros Hres.
    - apply (Hend (WFail (jc_attempts claim) (describe ob) (Some true) (Some (rh_maxAttempts reg)) va (Some res))
               JFailed); try apply fail_status; try done. by rewrite Hnc.
    - apply (Hend (WComplete (nullish res)) JSucceeded); try done. by rewrite Hnc.
    - apply (Hend (WComplete (nullish res)) JSucceeded); try done. by rewrite Hnc. }
  rewrite Hl in Hrun. fold rid epoch in Hrun.
  destruct (handler s) as [res|msg]; destruct (rn_cancelRequested s) eqn:Hrc.
  - by apply (Hend (WCancelled (nullish res)) JCancelled).
  - by apply (Hsettle res).
  - by apply (Hend (WCancelled (Some (cancel_note msg))) JCancelled).
  - apply (Hend (WFail (jc_attempts claim) msg (Some true) (Some (rh_maxAttempts reg)) va None) JFailed);
      try apply fail_status; done.
Qed.

(** A dispatch that lost its claim writes nothing: if the record was reaped, finished
    or claimed by another worker or in another epoch before the dispatch's first
    statement, the whole run - renewals and terminal write - leaves the queue as it is,
    and as soon as one renewal ran it is reported as a lost claim. *)
Theorem lost_claim_writes_nothing aborted evs handler va q
    (Hlost : ¬ owned me rid epoch q) :
  let '(q', o) := run (dispatchBody me claim reg describe aborted evs handler va) q in
  q' = q ∧ (existsb is_renewal evs = true → o = JLostClaim).
Proof.
  destruct (run_events_stranger aborted evs run_start q Hlost) as (s & E & Hc & Hl).
  cbn in Hc, Hl. unfold dispatchBody. rewrite run_bind, E. cbn [fst snd]. rewrite Hc, Hl.
  assert (Hw : ∀ w (o : JobOutcome), run (do* _ := write_prog w me rid epoch in Done o) q = (q, o)).
  { intros w o. rewrite run_bind.
    assert (Hs : (run (write_prog w me rid epoch) q).1 = q); [|by rewrite Hs].
    destruct w; cbn [write_prog]; unfold renew, complete, cancelled, fail, release;
      rewrite ?run_bind, ?run_update, not_owned_skip by done; done. }
  destruct (handler s) as [res|msg], (existsb is_renewal evs); cbn [run]; try done.
  - unfold settle. fold rid epoch. destruct (batchOutcomeOf res) as [[st ob]|]; [case_bool_decide|].
    + by rewrite (Hw (WFail (jc_attempts claim) (describe ob) (Some true) (Some (rh_maxAttempts reg)) va (Some res))).
    + by rewrite (Hw (WComplete (nullish res))).
    + by rewrite (Hw (WComplete (nullish res))).
  - fold rid epoch. by rewrite (Hw (WFail (jc_attempts claim) msg (Some true) (Some (rh_maxAttempts reg)) va None)).
Qed.

(** A dispatch that began after the pod's shutdown never tells its handler. *)
Lemma late_dispatch_never_hears_shutdown evs s q :
  rn_abort s ≠ Some PodShutdown → rn_abort (run (run_events me claim true evs s) q).2 ≠ Some PodShutdown.
Proof.
  revert s q. induction evs as [|[u| |] evs IH]; intros s q Hs; cbn [run_events]; [done| |by apply IH..].
  rewrite run_bind. apply IH. unfold on_renewal.
  repeat case_match; try done; cbn; by destruct (rn_abort s).
Qed.
End claims.

(** ** Among other workers *)

(** Anything a process does to the queue: a call of its own, or a dispatch. *)
Inductive worker_call : Type :=
| WorkCall (c : job_call)
| WorkDispatch (me : string) (claim : JobClaim) (reg : RegisteredHandler) (describe : jsval → string)
    (aborted : bool) (evs : list run_event) (handler : Run → handler_end) (visibleAfter : Z).

Definition worker_prog (w : worker_call) : prog Queue unit :=
  match w with
  | WorkCall c => do* _ := call_claim c in Done tt
  | WorkDispatch me claim reg describe aborted evs handler va =>
      do* _ := dispatchBody me claim reg describe aborted evs handler va in Done tt
  end.

Section preserved.
Context (I : Queue → Prop) (HI : respects I).

Lemma claim_write_preserves me rid epoch w : preserves I (write_prog w me rid epoch).
Proof.
  destruct w; cbn [write_prog].
  - apply preserves_bind; [|done].
    apply (preserves_quiet _ _ (@None JobClaim)), (call_preserves I HI (CallRenew me rid epoch until)).
  - apply (preserves_quiet _ _ (@None JobClaim)), (call_preserves I HI (CallComplete me rid epoch res)).
  - apply (preserves_quiet _ _ (@None JobClaim)), (call_preserves I HI (CallCancelled me rid epoch res)).
  - apply (preserves_quiet _ _ (@None JobClaim)),
      (call_preserves I HI (CallFail me rid epoch attempts err requeue maxAttempts visibleAfter res)).
  - apply (preserves_quiet _ _ (@None JobClaim)), (call_preserves I HI (CallRelease me rid epoch reason)).
Qed.

Lemma dispatch_preserves me claim reg describe aborted evs handler va :
  preserves I (dispatchBody me claim reg describe aborted evs handler va).
Proof.
  set (rid := jc_recordId claim). set (epoch := jc_claimEpoch claim).
  assert (Hw : ∀ w (o : JobOutcome), preserves I (do* _ := write_prog w me rid epoch in Done o)).
  { intros w o. apply preserves_bind; [apply claim_write_preserves|done]. }
  unfold dispatchBody. apply preserves_bind.
  - generalize run_start. induction evs as [|[u| |] evs IH]; intros s; cbn [run_events]; [done| |apply IH..].
    apply preserves_bind; [|intros; apply IH].
    apply (preserves_quiet _ _ (@None JobClaim)), (call_preserves I HI (CallRenew me rid epoch u)).
  - assert (Hs : ∀ res, preserves I (settle me claim reg describe res va)).
    { intros res. unfold settle. destruct (batchOutcomeOf res) as [[st ob]|]; [case_bool_decide|].
      - apply (Hw (WFail _ _ _ _ _ _)).
      - apply (Hw (WComplete _)).
      - apply (Hw (WComplete _)). }
    intros s. destruct (handler s); repeat case_match; try done.
    + apply (Hw (WCancelled _)).
    + apply (Hw (WCancelled _)).
    + apply (Hw (WFail _ _ _ _ _ _)).
Qed.
End preserved.

(** Dispatches keep the queue well formed: whatever number of them runs, beside any
    enqueues, claims, reaps and the passing of time, and however their statements
    interleave, every record stays claimed and leased exactly while it runs, attempted
    once it left the pending state, and unique by run and by key. *)
Theorem dispatches_keep_queue_ok ws sched q
    (Hq : queue_ok q) : queue_ok (run_pool sched (q, map worker_prog ws)).1.
Proof.
  apply run_pool_preserves; [done|]. apply Forall_forall.
  intros p (w & -> & _)%list_elem_of_fmap. destruct w as [c|]; cbn [worker_prog].
  - apply preserves_bind; [apply call_preserves, queue_ok_respected|done].
  - apply preserves_bind; [apply dispatch_preserves, queue_ok_respected|done].
Qed.

(** ** Examples *)

Definition reg_dreams : RegisteredHandler :=
  {| rh_jobType := "dreams"; rh_ttlSeconds := 4; rh_maxAttempts := 3; rh_cpuBound := false;
     rh_workerModule := None |}.

Definition no_text (_ : jsval) : string := "".

Definition claimed : Queue * option JobClaim := run (claimNext "pod" "dreams" (Some 1) 5000) q1.

Definition sample_claim : JobClaim :=
  {| jc_recordId := 0; jc_runId := "run-1"; jc_jobType := "dreams"; jc_attempts := 1;
     jc_payload := None; jc_leaseUntil := 5000; jc_claimEpoch := Some 1 |}.

Lemma dispatch_settles_its_record_witness :
  claimed.2 = Some sample_claim ∧
  let '(q', o) := run (dispatchBody "pod" sample_claim reg_dreams no_text false [EvRenew 9000]
                         (λ _, Threw "boom") 7000) claimed.1 in
  o = JFailed ∧ ∃ r', q_rows q' !! 0 = Some r' ∧ jr_status r' = Pending.
Proof.
  split; [by vm_compute|].
  assert (Hr : ∃ r, q_rows claimed.1 !! 0 = Some r ∧ ownerGuard "pod" (Some 1) r = true)
    by (eexists; split; by vm_compute).
  destruct Hr as (r & Hr & Hg).
  pose proof (dispatch_settles_its_record "pod" sample_claim reg_dreams no_text false [EvRenew 9000]
    (λ _, Threw "boom") 7000 claimed.1 r Hr Hg) as H.
  destruct (run _ _) as [q' o] eqn:E. destruct H as (r' & Hq' & Hst & _).
  assert (o = JFailed) as -> by (apply (f_equal snd) in E; vm_compute in E; congruence).
  split; [done|]. exists r'. split; [by rewrite Hq', lookup_insert_eq|exact Hst].
Defined.

Lemma lost_claim_writes_nothing_witness :
  let q := reap 3 (λ _, 0%Z) {| q_rows := q_rows claimed.1; q_now := 9000 |} in
  run (dispatchBody "pod" sample_claim reg_dreams no_text false [EvRenew 9000] (λ _, Returned VNull) 0) q =
  (q, JLostClaim).
Proof.
  intros q. assert (Hn : ¬ owned "pod" 0 (Some 1) q).
  { intros (r & Hr & Hg). vm_compute in Hr. injection Hr as <-. vm_compute in Hg. done. }
  pose proof (lost_claim_writes_nothing "pod" sample_claim reg_dreams no_text false [EvRenew 9000]
    (λ _, Returned VNull) 0 q Hn) as H.
  destruct (run _ _) as [q' o]. destruct H as [-> H]. by rewrite H.
Defined.

Lemma dispatches_keep_queue_ok_witness :
  queue_ok q0 ∧
  queue_ok (run_pool [0; 0; 1; 1; 2; 2; 2] (q0, map worker_prog
    [WorkCall (CallEnqueue "run-1" nightly); WorkCall (CallClaim "pod" "dreams" (Some 1) 5000);
     WorkDispatch "pod" sample_claim reg_dreams no_text false [EvRenew 9000] (λ _, Returned VNull) 0])).1.
Proof.
  assert (H : queue_ok q0) by (split; intros *; unfold q0; simpl; by rewrite lookup_empty).
  split; [done|]. by apply dispatches_keep_queue_ok.
Defined.

(** The fence names a worker and an epoch, not an attempt: when the pod's own lapsed
    claim is reaped and the pod claims the record again in the same epoch, the first
    attempt's dispatch, still running, settles the second attempt's claim - the record
    is succeeded while the second handler runs, and that one's own end is then refused. *)
Theorem same_epoch_reclaim_is_not_fenced :
  let late q := {| q_rows := q_rows q; q_now := 9000 |} in
  let q2 := reap 3 (λ _, 0%Z) (late claimed.1) in
  let '(q3, c2) := run (claimNext "pod" "dreams" (Some 1) 20000) q2 in
  let '(q4, o1) := run (dispatchBody "pod" sample_claim reg_dreams no_text false [] (λ _, Returned VNull) 0) q3 in
  match c2 with
  | Some second =>
      jc_attempts second = 2 ∧ o1 = JSucceeded ∧ (jr_status <$> q_rows q4 !! 0) = Some Succeeded ∧
      run (dispatchBody "pod" second reg_dreams no_text false [EvRenew 30000] (λ _, Threw "boom") 0) q4 =
        (q4, JLostClaim)
  | None => False
  end.
Proof. vm_compute. done. Qed.

(** The first renewal falls before the lease ends, except for leases of a second. *)
Lemma renewal_precedes_expiry reg :
  (2 <= rh_ttlSeconds reg)%Z → (renewIntervalMs reg < rh_ttlSeconds reg * 1000)%Z.
Proof. unfold renewIntervalMs. intros H. assert (rh_ttlSeconds reg * 1000 / 3 < rh_ttlSeconds reg * 1000)%Z; [|lia].
  apply Z.div_lt; lia. Qed.
