(* ===== verification/Poller.v ===== *)
(** * Polling for jobs

    [jobs/worker-poller.service.ts]: the concurrency limits read from the environment,
    the fairness counters and ordering, one claim cycle over the tenants, the bounded
    loops with the counters they share, and the hand-back of running claims. A loop's
    synchronous blocks are its steps; between two of them any other loop may move. The
    random draws and the power function are parameters, sleeping is left out. *)

From S2P Require Import Prelude Js Resume JobQueue.
From stdpp Require Import gmap sorting.
From Stdlib Require Import Ascii.
Local Open Scope string_scope.
Local Open Scope nat_scope.

(** ** Limits *)

Record ConcurrencyLimits := { li_maxConcurrent : nat; li_tenantMax : nat; li_globalMax : nat }.

Definition digit_of (c : ascii) : option nat :=
  let n := nat_of_ascii c in if (48 <=? n) && (n <=? 57) then Some (n - 48) else None.

(** [/^\d+$/.test(s)] and [parseInt(s, 10)], on the digits. *)
Fixpoint parse_digits (acc : nat) (s : string) : option nat :=
  match s with
  | EmptyString => Some acc
  | String c s' => match digit_of c with Some d => parse_digits (10 * acc + d) s' | None => None end
  end.

Definition readIntEnv (env : string → option string) (name : string) : option nat :=
  match env name with
  | None => None
  | Some raw => if bool_decide (trim raw = "") then None else parse_digits 0 (trim raw)
  end.

Definition upper_char (c : ascii) : ascii :=
  let n := nat_of_ascii c in if (97 <=? n) && (n <=? 122) then ascii_of_nat (n - 32) else c.

Definition suffix_char (c : ascii) : ascii :=
  let u := upper_char c in
  let n := nat_of_ascii u in
  if ((65 <=? n) && (n <=? 90)) || ((48 <=? n) && (n <=? 57)) then u else "_"%char.

(** [jobType.toUpperCase().replace(/[^A-Z0-9]/g, '_')] *)
Fixpoint env_suffix (s : string) : string :=
  match s with EmptyString => EmptyString | String c s' => String (suffix_char c) (env_suffix s') end.

Definition concurrencyLimits (env : string → option string) (jobType : string) : ConcurrencyLimits :=
  let perType := readIntEnv env ("WORKER_LOOP_MAX_CONCURRENT_" +:+ env_suffix jobType) in
  let fallback := readIntEnv env "WORKER_LOOP_MAX_CONCURRENT" in
  {| li_maxConcurrent := Nat.max 1 (match perType with Some n => n | None => default 1 fallback end);
     li_tenantMax := Nat.max 1 (default 1 (readIntEnv env "WORKER_LOOP_TENANT_MAX_CONCURRENT"));
     li_globalMax := default 0 (readIntEnv env "WORKER_LOOP_GLOBAL_MAX_CONCURRENT") |}.

(** [runLoop] takes the serial loop. *)
Definition serial (l : ConcurrencyLimits) : bool := (li_maxConcurrent l <=? 1) && (li_globalMax l =? 0).

(** ** Fairness *)

Definition tenant_key (jobType companyId : string) : string := jobType +:+ "::" +:+ companyId.

Definition recordClaim (jobType companyId : string) (recent : list (string * nat)) : list (string * nat) :=
  let key := tenant_key jobType companyId in
  OMap.set key (Nat.min (default 0 (OMap.get key recent) + 1) 64) recent.

(** One tick of [startDecay]'s timer. *)
Definition decay (recent : list (string * nat)) : list (string * nat) :=
  omap (λ kn, if kn.2 / 2 =? 0 then None else Some (kn.1, kn.2 / 2)) recent.

Section sample.
(** [Math.pow] and the draws of [Math.random], one per tenant. *)
Variable pow : float → float → float.
Variable draws : list float.

Definition weight (recent : list (string * nat)) (jobType companyId : string) : float :=
  let n := default 0 (OMap.get (tenant_key jobType companyId) recent) in
  PrimFloat.div 1%float (PrimFloat.add 1%float (PrimFloat.of_uint63 (Uint63.of_Z (Z.of_nat n)))).

Definition keyed (recent : list (string * nat)) (jobType : string) (tenants : list string) :
    list (string * float) :=
  zip_with (λ c u, (c, pow u (PrimFloat.div 1%float (weight recent jobType c)))) tenants draws.

(** The order of [(a, b) => b.key - a.key]. *)
Definition drawn_before (a b : string * float) : Prop := PrimFloat.leb b.2 a.2 = true.
#[local] Instance drawn_before_dec a b : Decision (drawn_before a b).
Proof. unfold drawn_before. apply _. Defined.

Definition sampleByFairness (recent : list (string * nat)) (jobType : string) (tenants : list string) :
    list string :=
  if length tenants <=? 1 then tenants
  else map fst (merge_sort drawn_before (keyed recent jobType tenants)).
End sample.

(** ** One claim cycle *)

(** The tenants' databases. *)
Abbreviation Queues := (gmap string Queue).

Section cycle.
Context (me jobType : string) (epoch : option nat) (until : Z).

(** [alive] is the check of the signal and the leadership before each tenant. A tenant
    with no database has no queue to claim from. *)
Fixpoint claim_cycle (alive : list bool) (tenants : list string) (qs : Queues) :
    Queues * option (string * JobClaim) :=
  match tenants with
  | [] => (qs, None)
  | c :: tenants' =>
      if negb (default true (head alive)) then (qs, None)
      else match qs !! c with
           | None => claim_cycle (tail alive) tenants' qs
           | Some q =>
               let '(q', r) := run (claimNext me jobType epoch until) q in
               match r with
               | Some claim => (<[c := q']> qs, Some (c, claim))
               | None => claim_cycle (tail alive) tenants' (<[c := q']> qs)
               end
           end
  end.
End cycle.

(** ** The loops *)

Record Loop := {
  lo_inFlight : list string;            (* the companies of the running dispatches *)
  lo_claiming : option (list string)    (* a claim cycle over these tenants is under way *)
}.

Definition idle : Loop := {| lo_inFlight := []; lo_claiming := None |}.

(** [recentClaims], [inFlightByTenant], [globalInFlight] and the running loops. *)
Record Poller := {
  po_recent : list (string * nat);
  po_byTenant : list (string * nat);
  po_global : Z;
  po_loops : list (string * Loop)
}.

Definition with_loop (t : string) (l : Loop) (p : Poller) : Poller :=
  {| po_recent := po_recent p; po_byTenant := po_byTenant p; po_global := po_global p;
     po_loops := OMap.set t l (po_loops p) |}.

Definition with_counts (byTenant : list (string * nat)) (global : Z) (p : Poller) : Poller :=
  {| po_recent := po_recent p; po_byTenant := byTenant; po_global := global; po_loops := po_loops p |}.

Inductive poll_event : Type :=
| EvCycle (t : string) (roster : list string)   (* the saturation check and the reservation *)
| EvClaimed (t c : string)                      (* the cycle came back with a claim *)
| EvEmpty (t : string)                          (* ... or with none *)
| EvFinished (t c : string)                     (* a dispatch settled *)
| EvDecay.

Section loops.
Variable limits : string → ConcurrencyLimits.

Definition saturated (t : string) (inFlightSize : nat) (global : Z) : bool :=
  (li_maxConcurrent (limits t) <=? inFlightSize) ||
  ((0 <? li_globalMax (limits t)) && (Z.of_nat (li_globalMax (limits t)) <=? global)%Z).

Definition eligible (t : string) (p : Poller) (roster : list string) : list string :=
  List.filter (λ c, default 0 (OMap.get (tenant_key t c) (po_byTenant p)) <? li_tenantMax (limits t)) roster.

(** One occurrence of [c] leaves. *)
Fixpoint remove_one (c : string) (l : list string) : list string :=
  match l with
  | [] => []
  | x :: l' => if bool_decide (x = c) then l' else x :: remove_one c l'
  end.

Definition poll_step (p : Poller) (e : poll_event) : Poller :=
  match e with
  | EvCycle t roster =>
      match OMap.get t (po_loops p) with
      | Some {| lo_inFlight := fl; lo_claiming := None |} =>
          if saturated t (length fl) (po_global p) then p
          else with_loop t {| lo_inFlight := fl; lo_claiming := Some (eligible t p roster) |}
                 (with_counts (po_byTenant p) (po_global p + 1) p)
      | _ => p
      end
  | EvClaimed t c =>
      match OMap.get t (po_loops p) with
      | Some {| lo_inFlight := fl; lo_claiming := Some el |} =>
          if bool_decide (c ∈ el) then
            let key := tenant_key t c in
            let p1 := {| po_recent := recordClaim t c (po_recent p);
                         po_byTenant := OMap.set key (default 0 (OMap.get key (po_byTenant p)) + 1) (po_byTenant p);
                         po_global := po_global p; po_loops := po_loops p |} in
            with_loop t {| lo_inFlight := app fl [c]; lo_claiming := None |} p1
          else p
      | _ => p
      end
  | EvEmpty t =>
      match OMap.get t (po_loops p) with
      | Some {| lo_inFlight := fl; lo_claiming := Some _ |} =>
          with_loop t {| lo_inFlight := fl; lo_claiming := None |}
            (with_counts (po_byTenant p) (po_global p - 1) p)
      | _ => p
      end
  | EvFinished t c =>
      match OMap.get t (po_loops p) with
      | Some {| lo_inFlight := fl; lo_claiming := cl |} =>
          if bool_decide (c ∈ fl) then
            let key := tenant_key t c in
            let n := default 1 (OMap.get key (po_byTenant p)) - 1 in
            with_loop t {| lo_inFlight := remove_one c fl; lo_claiming := cl |}
              (with_counts (if n <=? 0 then OMap.del key (po_byTenant p) else OMap.set key n (po_byTenant p))
                 (Z.max 0 (po_global p - 1)) p)
          else p
      | None => p
      end
  | EvDecay => {| po_recent := decay (po_recent p); po_byTenant := po_byTenant p;
                  po_global := po_global p; po_loops := po_loops p |}
  end.

(** Loops for these job types, nothing running yet. *)
Definition poll_start (types : list string) : Poller :=
  {| po_recent := []; po_byTenant := []; po_global := 0; po_loops := map (λ t, (t, idle)) types |}.

Definition poll_run (types : list string) (es : list poll_event) : Poller :=
  fold_left poll_step es (poll_start types).
End loops.

(** ** Handing claims back *)

(** [releaseActiveClaims]: the number of rows that were ours. *)
Fixpoint releaseActiveClaims (me reason : string) (active : list (string * JobClaim)) (qs : Queues) :
    Queues * nat :=
  match active with
  | [] => (qs, 0)
  | (c, claim) :: active' =>
      match qs !! c with
      | None => releaseActiveClaims me reason active' qs
      | Some q =>
          let '(q', ok) := run (release me (jc_recordId claim) (jc_claimEpoch claim) reason) q in
          let '(qs', n) := releaseActiveClaims me reason active' (<[c := q']> qs) in
          (qs', (if ok : bool then 1 else 0) + n)
      end
  end.

(** ** Keys *)

Lemma tenant_key_inj t c t' c' :
  has_char colon t = false → has_char colon t' = false →
  tenant_key t c = tenant_key t' c' → t = t' ∧ c = c'.
Proof.
  intros Ht Ht' H. unfold tenant_key in H.
  change (t +:+ "::" +:+ c) with (t +:+ String colon (":" +:+ c)) in H.
  change (t' +:+ "::" +:+ c') with (t' +:+ String colon (":" +:+ c')) in H.
  assert (Hl : String.length t = String.length t').
  { pose proof (index_of_append colon t (":" +:+ c) Ht) as H1. rewrite H, index_of_append in H1 by done.
    by injection H1. }
  assert (Htt : t = t').
  { rewrite <- (str_take_append t (String colon (":" +:+ c))), H, Hl. apply str_take_append. }
  subst t'. split; [done|]. apply str_append_inj_l in H. by injection H.
Qed.

(** ** The caps *)

(** How many dispatches of tenant [c] a loop runs, and the slots it holds. *)
Definition count (c : string) (l : list string) : nat := length (List.filter (λ x, bool_decide (x = c)) l).
#[local] Arguments count : simpl never.
Definition slots (l : Loop) : nat :=
  length (lo_inFlight l) + match lo_claiming l with Some _ => 1 | None => 0 end.
Definition total_slots (loops : list (string * Loop)) : nat := sum_list_with (λ kv, slots kv.2) loops.
Definition running (p : Poller) : nat := sum_list_with (λ kv, length (lo_inFlight kv.2)) (po_loops p).

Lemma count_app c l1 l2 : count c (app l1 l2) = count c l1 + count c l2.
Proof. unfold count. by rewrite List.filter_app, length_app. Qed.

Lemma count_one c d : count c [d] = if bool_decide (d = c) then 1 else 0.
Proof. unfold count. cbn. by case_bool_decide. Qed.

Lemma count_remove c d l :
  c ∈ l → count d (remove_one c l) = count d l - (if bool_decide (c = d) then 1 else 0) ∧
          length l = S (length (remove_one c l)) ∧ 1 ≤ count c l.
Proof.
  induction l as [|x l IH]; [by intros ?%elem_of_nil|]. intros Hin.
  unfold count in *. cbn [remove_one List.filter]. destruct (decide (x = c)) as [->|Hx].
  - rewrite !(bool_decide_eq_true_2 (c = c)) by done.
    split_and!; [case_bool_decide; cbn; lia|done|cbn; lia].
  - rewrite !(bool_decide_eq_false_2 (x = c)) by done.
    apply elem_of_cons in Hin as [?|Hin]; [done|]. destruct (IH Hin) as (H1 & H2 & H3).
    cbn [List.filter length]. split_and!; [|lia|done].
    destruct (decide (x = d)) as [->|Hd].
    + rewrite (bool_decide_eq_true_2 (d = d)), (bool_decide_eq_false_2 (c = d)) in * by done.
      cbn [length]. rewrite H1. lia.
    + rewrite (bool_decide_eq_false_2 (x = d)) by done. done.
Qed.

Lemma count_In c l : 0 < count c l → c ∈ l.
Proof.
  unfold count. intros H. destruct (List.filter _ l) as [|x k] eqn:E; [cbn in H; lia|].
  assert (Hx : x ∈ List.filter (λ x, bool_decide (x = c)) l) by (rewrite E; by constructor).
  apply elem_of_bfilter in Hx as [Hx ->%bool_decide_eq_true]. done.
Qed.

Lemma sum_set {A} (f : A → nat) (m : list (string * A)) t l l' :
  OMap.get t m = Some l →
  sum_list_with (λ kv, f kv.2) (OMap.set t l' m) + f l = sum_list_with (λ kv, f kv.2) m + f l'.
Proof.
  induction m as [|[k x] m IH]; cbn; [done|]. case_bool_decide.
  - intros [= ->]. cbn. lia.
  - intros H'. cbn. specialize (IH H'). lia.
Qed.

Section caps.
Variable limits : string → ConcurrencyLimits.

Record poller_ok (types : list string) (p : Poller) : Prop := {
  ok_keys : OMap.keys (po_loops p) = types;
  ok_wf : OMap.wf (po_byTenant p);
  ok_global : po_global p = Z.of_nat (total_slots (po_loops p));
  ok_slots : ∀ t l, OMap.get t (po_loops p) = Some l → slots l ≤ li_maxConcurrent (limits t);
  ok_cap : ∀ g, 0 < g → (∀ t, t ∈ types → li_globalMax (limits t) = g) → (po_global p <= Z.of_nat g)%Z;
  ok_tenant : ∀ t c l, OMap.get t (po_loops p) = Some l →
    OMap.get (tenant_key t c) (po_byTenant p) =
    if count c (lo_inFlight l) =? 0 then None else Some (count c (lo_inFlight l));
  ok_tenant_cap : ∀ t c l, OMap.get t (po_loops p) = Some l →
    count c (lo_inFlight l) ≤ li_tenantMax (limits t) ∧
    (∀ el, lo_claiming l = Some el → c ∈ el → count c (lo_inFlight l) < li_tenantMax (limits t));
  ok_known : ∀ k n, OMap.get k (po_byTenant p) = Some n → ∃ t c, t ∈ types ∧ k = tenant_key t c
}.

Lemma get_start (types : list string) t : OMap.get t (map (λ t, (t, idle)) types) = if bool_decide (t ∈ types) then Some idle else None.
Proof.
  induction types as [|x types IH]; cbn; [done|]. destruct (decide (t = x)) as [->|Hne].
  - rewrite !bool_decide_eq_true_2; [done|by constructor|done].
  - rewrite (bool_decide_eq_false_2 (t = x)) by done. rewrite IH.
    by rewrite (bool_decide_ext (t ∈ x :: types) (t ∈ types)) by set_solver.
Qed.

Lemma start_ok types : poller_ok types (poll_start types).
Proof.
  assert (H0 : total_slots (map (λ t, (t, idle)) types) = 0).
  { unfold total_slots. induction types as [|t types IH]; [done|]. cbn. exact IH. }
  split; cbn [poll_start po_loops po_global po_byTenant].
  - unfold OMap.keys. rewrite map_map. apply map_id.
  - constructor.
  - by rewrite H0.
  - intros t l. rewrite get_start. case_bool_decide; [|done]. intros [= <-]. cbn. lia.
  - intros. lia.
  - intros t c l. rewrite get_start. case_bool_decide; [|done]. by intros [= <-].
  - intros t c l. rewrite get_start. case_bool_decide; [|done]. intros [= <-]. unfold count. cbn. split; [lia|done].
  - done.
Qed.

(** A step that rewrites the loop of [t]. *)
Lemma step_ok types p t fl cl l' byTenant global :
  NoDup types → Forall (λ t, has_char colon t = false) types → poller_ok types p →
  OMap.get t (po_loops p) = Some {| lo_inFlight := fl; lo_claiming := cl |} →
  OMap.wf byTenant →
  (global = po_global p + Z.of_nat (slots l') - Z.of_nat (slots {| lo_inFlight := fl; lo_claiming := cl |}))%Z →
  slots l' ≤ li_maxConcurrent (limits t) →
  (∀ g, 0 < g → li_globalMax (limits t) = g → (po_global p <= Z.of_nat g)%Z → (global <= Z.of_nat g)%Z) →
  (∀ c, OMap.get (tenant_key t c) byTenant =
        if count c (lo_inFlight l') =? 0 then None else Some (count c (lo_inFlight l'))) →
  (∀ k, (∀ c, k ≠ tenant_key t c) → OMap.get k byTenant = OMap.get k (po_byTenant p)) →
  (∀ k n, OMap.get k byTenant = Some n →
        (∃ c, k = tenant_key t c) ∨ OMap.get k (po_byTenant p) = Some n) →
  (∀ c, count c (lo_inFlight l') ≤ li_tenantMax (limits t) ∧
        (∀ el, lo_claiming l' = Some el → c ∈ el → count c (lo_inFlight l') < li_tenantMax (limits t))) →
  ∀ recent, poller_ok types (with_loop t l' {| po_recent := recent; po_byTenant := byTenant;
                                              po_global := global; po_loops := po_loops p |}).
Proof.
  intros Nt Fc Hp Hl Hwf Hg Hs Hcap Hown Hother Hknown Hten recent.
  rewrite Forall_forall in Fc.
  assert (Ht : t ∈ types).
  { rewrite <- (ok_keys _ _ Hp). by eapply OMap.get_Some_key. }
  assert (Hkeys : OMap.keys (OMap.set t l' (po_loops p)) = types).
  { rewrite OMap.keys_set. unfold OMap.has. rewrite Hl. apply Hp. }
  assert (Hin : ∀ t' l, OMap.get t' (po_loops p) = Some l → t' ∈ types).
  { intros t' l H. rewrite <- (ok_keys _ _ Hp). by eapply OMap.get_Some_key. }
  split; cbn [with_loop po_loops po_byTenant po_global]; [done|done|..].
  - rewrite Hg, (ok_global _ _ Hp). unfold total_slots.
    pose proof (sum_set slots (po_loops p) t _ l' Hl) as H. cbn in *. lia.
  - intros t2 l2. rewrite OMap.get_set. case_bool_decide; [subst; by intros [= <-]|apply Hp].
  - intros g Hg0 Hall. apply Hcap; [done|by apply Hall|]. by apply (ok_cap _ _ Hp).
  - intros t2 c l2. rewrite OMap.get_set. case_bool_decide as Ht2; [subst; intros [= <-]; apply Hown|].
    intros H2. rewrite Hother; [by apply Hp|]. intros c' [-> _]%tenant_key_inj; [done|..];
      [apply Fc; by eapply Hin|by apply Fc].
  - intros t2 c l2. rewrite OMap.get_set. case_bool_decide; [subst; intros [= <-]; apply Hten|apply Hp].
  - intros k n [[c ->]|Hk]%Hknown; [by exists t, c|]. by apply (ok_known _ _ Hp k n).
Qed.

(** One more of [c], one fewer of [c], in the loop and in the map. *)
Lemma byTenant_more types p t c fl cl :
  poller_ok types p → OMap.get t (po_loops p) = Some {| lo_inFlight := fl; lo_claiming := cl |} →
  ∀ d, OMap.get (tenant_key t d) (OMap.set (tenant_key t c)
         (default 0 (OMap.get (tenant_key t c) (po_byTenant p)) + 1) (po_byTenant p)) =
       if count d (app fl [c]) =? 0 then None else Some (count d (app fl [c])).
Proof.
  intros Hp Hl d. rewrite OMap.get_set, count_app, count_one.
  pose proof (ok_tenant _ _ Hp t d _ Hl) as Hd. pose proof (ok_tenant _ _ Hp t c _ Hl) as Hc. cbn in Hd, Hc.
  case_bool_decide as Hk.
  - assert (c = d) as ->.
    { unfold tenant_key in Hk. apply str_append_inj_l in Hk. by injection Hk. }
    rewrite bool_decide_eq_true_2, Hd by done.
    destruct (Nat.eqb_spec (count d fl) 0) as [->|]; [done|]. cbn [default].
    destruct (Nat.eqb_spec (count d fl + 1) 0); [lia|done].
  - rewrite bool_decide_eq_false_2 by (intros ->; done). by rewrite Nat.add_0_r.
Qed.

Lemma byTenant_fewer types p t c fl cl :
  poller_ok types p → OMap.get t (po_loops p) = Some {| lo_inFlight := fl; lo_claiming := cl |} → c ∈ fl →
  let n := default 1 (OMap.get (tenant_key t c) (po_byTenant p)) - 1 in
  ∀ d, OMap.get (tenant_key t d)
         (if n <=? 0 then OMap.del (tenant_key t c) (po_byTenant p)
          else OMap.set (tenant_key t c) n (po_byTenant p)) =
       if count d (remove_one c fl) =? 0 then None else Some (count d (remove_one c fl)).
Proof.
  intros Hp Hl Hin n d. destruct (count_remove c d fl Hin) as (Hr & _ & Hge). rewrite Hr.
  pose proof (ok_tenant _ _ Hp t d _ Hl) as Hd. pose proof (ok_tenant _ _ Hp t c _ Hl) as Hc. cbn in Hd, Hc.
  assert (Hn : n = count c fl - 1).
  { unfold n. rewrite Hc. destruct (Nat.eqb_spec (count c fl) 0); [lia|done]. }
  destruct (decide (c = d)) as [->|Hne].
  - rewrite bool_decide_eq_true_2 by done. rewrite Hn.
    destruct (Nat.leb_spec (count d fl - 1) 0).
    + rewrite OMap.get_del_eq by apply Hp. destruct (Nat.eqb_spec (count d fl - 1) 0); [done|lia].
    + rewrite OMap.get_set_eq. destruct (Nat.eqb_spec (count d fl - 1) 0); [lia|done].
  - rewrite bool_decide_eq_false_2 by done. rewrite Nat.sub_0_r, <- Hd.
    assert (Hk : tenant_key t c ≠ tenant_key t d).
    { intros Hk. unfold tenant_key in Hk. apply str_append_inj_l in Hk. by injection Hk. }
    destruct (n <=? 0); [by rewrite OMap.get_del_ne|by rewrite OMap.get_set_ne].
Qed.

Lemma poll_step_ok types p e :
  NoDup types → Forall (λ t, has_char colon t = false) types → poller_ok types p →
  poller_ok types (poll_step limits p e).
Proof.
  intros Nt Fc Hp. destruct e as [t roster|t c|t|t c|]; cbn [poll_step].
  - destruct (OMap.get t (po_loops p)) as [[fl [el|]]|] eqn:Hl; try done.
    destruct (saturated limits t (length fl) (po_global p)) eqn:Hs; [done|].
    unfold saturated in Hs. apply orb_false_iff in Hs as [Hs1 Hs2]. apply Nat.leb_gt in Hs1.
    apply (step_ok types p t fl None); try done.
    + apply Hp.
    + cbn [slots lo_inFlight lo_claiming]. unfold slots. cbn. lia.
    + unfold slots. cbn. lia.
    + intros g Hg Hgm Hle. rewrite Hgm, (proj2 (Nat.ltb_lt 0 g)) in Hs2 by done. cbn in Hs2. lia.
    + intros c. apply (ok_tenant _ _ Hp t c _ Hl).
    + intros k n Hk. by right.
    + intros c. cbn. destruct (ok_tenant_cap _ _ Hp t c _ Hl) as [H1 _]. split; [done|].
      intros el [= <-] Hel. unfold eligible in Hel. apply elem_of_bfilter in Hel as [_ Hlt].
      pose proof (ok_tenant _ _ Hp t c _ Hl) as Hc. cbn in Hc. rewrite Hc in Hlt.
      apply Nat.ltb_lt in Hlt. destruct (Nat.eqb_spec (count c fl) 0) as [E|]; cbn in Hlt; lia.
  - destruct (OMap.get t (po_loops p)) as [[fl [el|]]|] eqn:Hl; try done.
    case_bool_decide as Hel; [|done].
    pose proof (ok_slots _ _ Hp t _ Hl) as Hs. unfold slots in Hs. cbn in Hs.
    apply (step_ok types p t fl (Some el)); try done.
    + apply OMap.wf_set, Hp.
    + unfold slots. cbn. rewrite length_app. cbn. lia.
    + unfold slots. cbn. rewrite length_app. cbn. lia.
    + by apply (byTenant_more types p t c fl (Some el)).
    + intros k Hk. apply OMap.get_set_ne. intros Hkk. by apply (Hk c).
    + intros k n. rewrite OMap.get_set. case_bool_decide; [left; by exists c|by right].
    + intros d. cbn [lo_inFlight lo_claiming]. split; [|done]. rewrite count_app, count_one.
      destruct (ok_tenant_cap _ _ Hp t d _ Hl) as [H1 H2]. cbn in H1, H2.
      case_bool_decide; [subst d|lia]. specialize (H2 el eq_refl Hel). lia.
  - destruct (OMap.get t (po_loops p)) as [[fl [el|]]|] eqn:Hl; try done.
    pose proof (ok_slots _ _ Hp t _ Hl) as Hs. unfold slots in Hs. cbn in Hs.
    apply (step_ok types p t fl (Some el)); try done.
    + apply Hp.
    + unfold slots. cbn. lia.
    + unfold slots. cbn. lia.
    + intros g _ _ Hle. lia.
    + intros c. apply (ok_tenant _ _ Hp t c _ Hl).
    + intros k n Hk. by right.
    + intros c. cbn. destruct (ok_tenant_cap _ _ Hp t c _ Hl) as [H1 _]. split; [done|done].
  - destruct (OMap.get t (po_loops p)) as [[fl cl]|] eqn:Hl; try done.
    case_bool_decide as Hin; [|done].
    destruct (count_remove c c fl Hin) as (_ & Hlen & _).
    assert (Hpos : (0 < po_global p)%Z).
    { rewrite (ok_global _ _ Hp). pose proof (sum_set slots (po_loops p) t _ idle Hl) as H.
      unfold total_slots. unfold slots at 2 4 in H. cbn in H. lia. }
    pose proof (ok_slots _ _ Hp t _ Hl) as Hs. unfold slots in Hs. cbn in Hs.
    apply (step_ok types p t fl cl); try done.
    + destruct (_ <=? 0); [apply OMap.wf_del|apply OMap.wf_set]; apply Hp.
    + unfold slots. cbn. rewrite Hlen. lia.
    + unfold slots. cbn. lia.
    + intros g _ _ Hle. lia.
    + by apply (byTenant_fewer types p t c fl cl).
    + intros k Hk. destruct (_ <=? 0); [apply OMap.get_del_ne|apply OMap.get_set_ne]; intros Hkk; by apply (Hk c).
    + intros k n. destruct (_ <=? 0).
      * destruct (decide (tenant_key t c = k)); [left; by exists c|]. rewrite OMap.get_del_ne by done. by right.
      * rewrite OMap.get_set. case_bool_decide; [left; by exists c|by right].
    + intros d. cbn [lo_inFlight lo_claiming]. destruct (count_remove c d fl Hin) as (Hr & _ & _).
      destruct (ok_tenant_cap _ _ Hp t d _ Hl) as [H1 H2]. cbn in H1, H2. rewrite Hr. split; [lia|].
      intros el He Hel. specialize (H2 el He Hel). lia.
  - by destruct Hp; split.
Qed.

Lemma poll_run_ok types es :
  NoDup types → Forall (λ t, has_char colon t = false) types → poller_ok types (poll_run limits types es).
Proof.
  intros Nt Fc. unfold poll_run. generalize (start_ok types). generalize (poll_start types).
  induction es as [|e es IH]; intros p Hp; [done|]. cbn. by apply IH, poll_step_ok.
Qed.

(** The concurrency limits hold for every interleaving: whatever order the loops'
    checks, claims, empty cycles and finished dispatches fall in, no job type runs or
    reserves more than its limit, no tenant of a job type more than the tenant limit,
    and under a common process limit the running dispatches of all types together stay
    within it; the shared counters are exactly what runs, so no slot is ever lost or
    freed twice, and with everything idle they are back at nothing. *)
Theorem concurrency_limits_hold types es
    (Hnodup : NoDup types) (Htypes : Forall (λ t, has_char colon t = false) types) :
  let p := poll_run limits types es in
  (∀ t l, OMap.get t (po_loops p) = Some l →
     length (lo_inFlight l) ≤ li_maxConcurrent (limits t) ∧
     ∀ c, count c (lo_inFlight l) ≤ li_tenantMax (limits t)) ∧
  (∀ g, 0 < g → (∀ t, t ∈ types → li_globalMax (limits t) = g) → running p ≤ g) ∧
  po_global p = Z.of_nat (total_slots (po_loops p)) ∧
  (total_slots (po_loops p) = 0 → po_byTenant p = []).
Proof.
  intros p. assert (Hp : poller_ok types p) by by apply poll_run_ok.
  assert (Hrun : running p ≤ total_slots (po_loops p)).
  { unfold running, total_slots. generalize (po_loops p). intros m.
    induction m as [|[t l] m IH]; [done|]. cbn [sum_list_with fold_right]. cbn. unfold slots at 1. lia. }
  split_and!.
  - intros t l Hl. split; [|intros c; by apply (ok_tenant_cap _ _ Hp t c l)].
    pose proof (ok_slots _ _ Hp t l Hl) as H. unfold slots in H. lia.
  - intros g Hg Hall. pose proof (ok_cap _ _ Hp g Hg Hall) as H. rewrite (ok_global _ _ Hp) in H. lia.
  - apply Hp.
  - intros H0. destruct (po_byTenant p) as [|[k n] m] eqn:E; [done|]. exfalso.
    assert (Hk : OMap.get k (po_byTenant p) = Some n) by (rewrite E; cbn; by rewrite bool_decide_eq_true_2).
    destruct (ok_known _ _ Hp k n Hk) as (t & c & Ht & ->). rewrite <- (ok_keys _ _ Hp) in Ht.
    destruct (OMap.get t (po_loops p)) as [l|] eqn:Hl; [|by apply OMap.get_None_key in Hl].
    rewrite (ok_tenant _ _ Hp t c l Hl) in Hk.
    assert (Hz : count c (lo_inFlight l) = 0); [|by rewrite Hz in Hk].
    pose proof (sum_set slots (po_loops p) t l idle Hl) as Hs. unfold total_slots in H0. cbn in Hs, H0.
    assert (length (lo_inFlight l) = 0) by (unfold slots in Hs at 2; lia).
    destruct (lo_inFlight l); [done|done].
Qed.
End caps.

(** ** Fairness *)

Lemma get_decay k m :
  OMap.wf m → OMap.get k (decay m) =
  match OMap.get k m with Some n => if n / 2 =? 0 then None else Some (n / 2) | None => None end.
Proof.
  unfold OMap.wf, decay. induction m as [|[k' n] m IH]; [done|]. cbn [OMap.keys map fst]. intros Hnd.
  apply NoDup_cons in Hnd as [Hk Hnd]. cbn [omap list_omap fst snd OMap.get].
  destruct (decide (k = k')) as [->|Hne].
  - rewrite bool_decide_eq_true_2 by done. destruct (n / 2 =? 0).
    + rewrite (IH Hnd). apply OMap.get_None_key in Hk. by rewrite Hk.
    + cbn. by rewrite bool_decide_eq_true_2.
  - rewrite (bool_decide_eq_false_2 (k = k')) by done. rewrite <- (IH Hnd).
    destruct (n / 2 =? 0); [done|]. cbn. by rewrite bool_decide_eq_false_2.
Qed.

Lemma keys_decay k m : k ∈ OMap.keys (decay m) → k ∈ OMap.keys m.
Proof.
  unfold decay, OMap.keys. rewrite !list_elem_of_fmap. intros ([k1 n1] & -> & Hin).
  apply list_elem_of_omap in Hin as ([k2 n2] & Hin & E). cbn in E. case_match; simplify_eq.
  by exists (k1, n2).
Qed.

Lemma wf_decay m : OMap.wf m → OMap.wf (decay m).
Proof.
  unfold OMap.wf. induction m as [|[k n] m IH]; [done|].
  change (OMap.keys ((k, n) :: m)) with (k :: OMap.keys m). intros [Hk Hnd]%NoDup_cons.
  specialize (IH Hnd). change (decay ((k, n) :: m)) with
    (match (if n / 2 =? 0 then None else Some (k, n / 2)) with Some y => y :: decay m | None => decay m end).
  destruct (n / 2 =? 0); [done|]. apply NoDup_cons. split; [|done]. by intros ?%keys_decay.
Qed.

(** What a tenant's counter can be after a history, [d] decays since its last claim. *)
Definition recent_ok (recent : list (string * nat)) : Prop :=
  OMap.wf recent ∧ ∀ k n, OMap.get k recent = Some n → 1 ≤ n ≤ 64.

Definition claims_key (k : string) (e : poll_event) : bool :=
  match e with EvClaimed t c => bool_decide (tenant_key t c = k) | _ => false end.
Definition is_decay (e : poll_event) : bool := match e with EvDecay => true | _ => false end.

Section fairness.
Variable limits : string → ConcurrencyLimits.

Lemma step_recent p e :
  (is_decay e = false ∧ po_recent (poll_step limits p e) = po_recent p) ∨
  (e = EvDecay ∧ po_recent (poll_step limits p e) = decay (po_recent p)) ∨
  ∃ t c, e = EvClaimed t c ∧ po_recent (poll_step limits p e) = recordClaim t c (po_recent p).
Proof.
  destruct e; cbn [poll_step]; repeat case_match; cbn; eauto 10.
Qed.

Lemma step_recent_ok p e : recent_ok (po_recent p) → recent_ok (po_recent (poll_step limits p e)).
Proof.
  intros [Hw Hr]. destruct (step_recent p e) as [[_ ->]|[[_ ->]|(t & c & _ & ->)]]; [done|..].
  - split; [by apply wf_decay|]. intros k n. rewrite get_decay by done.
    destruct (OMap.get k (po_recent p)) as [m|] eqn:E; [|done]. specialize (Hr k m E).
    destruct (Nat.eqb_spec (m / 2) 0); [done|]. intros [= <-].
    assert (m / 2 ≤ m) by (apply Nat.Div0.div_le_upper_bound; lia).
    split; [by apply Nat.neq_0_lt_0|]. by etrans; [|apply Hr].
  - unfold recordClaim. split; [by apply OMap.wf_set|]. intros k n. rewrite OMap.get_set.
    case_bool_decide; [intros [= <-]; lia|apply Hr].
Qed.

(** A counter halves with every decay while nothing is claimed. *)
Lemma quiet_counter es k p b :
  recent_ok (po_recent p) → existsb (claims_key k) es = false →
  default 0 (OMap.get k (po_recent p)) ≤ b →
  default 0 (OMap.get k (po_recent (fold_left (poll_step limits) es p))) ≤
    b / 2 ^ length (List.filter is_decay es).
Proof.
  revert p b. induction es as [|e es IH]; intros p b Hok Hq Hb.
  { change (2 ^ length (List.filter is_decay [])) with 1. by rewrite Nat.div_1_r. }
  cbn [existsb] in Hq. apply orb_false_iff in Hq as [He Hq]. cbn [fold_left].
  assert (Hok' := step_recent_ok p e Hok).
  assert (Hstep : default 0 (OMap.get k (po_recent (poll_step limits p e))) ≤ if is_decay e then b / 2 else b).
  { destruct (step_recent p e) as [[-> ->]|[[-> ->]|(t & c & -> & ->)]].
    - done.
    - rewrite get_decay by apply Hok. cbn [is_decay]. destruct (OMap.get k (po_recent p)) as [m|]; cbn [default] in *; [|apply Nat.le_0_l].
      destruct (m / 2 =? 0); cbn [default]; [apply Nat.le_0_l|]. by apply Nat.Div0.div_le_mono.
    - cbn in He. unfold recordClaim. rewrite OMap.get_set_ne; [done|].
      intros Hk. by rewrite bool_decide_eq_true_2 in He. }
  cbn [List.filter]. destruct (is_decay e); cbn [length].
  - specialize (IH _ _ Hok' Hq Hstep). rewrite Nat.Div0.div_div in IH. by rewrite Nat.pow_succ_r'.
  - by apply IH.
Qed.

(** A busy tenant is forgotten: whatever a tenant claimed before, once its timer has
    ticked seven times without a claim of that job type - other tenants and types may
    claim, finish and poll meanwhile - its counter is gone and it draws with full weight
    again. *)
Theorem quiet_tenant_regains_weight types es1 es2 t c
    (Hquiet : existsb (claims_key (tenant_key t c)) es2 = false)
    (Hticks : 7 ≤ length (List.filter is_decay es2)) :
  OMap.get (tenant_key t c) (po_recent (poll_run limits types (app es1 es2))) = None.
Proof.
  unfold poll_run. rewrite fold_left_app. set (p := fold_left _ es1 _).
  assert (Hok : ∀ es q, recent_ok (po_recent q) → recent_ok (po_recent (fold_left (poll_step limits) es q))).
  { induction es as [|e es IH]; intros q Hq; [done|]. cbn. by apply IH, step_recent_ok. }
  assert (Hp : recent_ok (po_recent p)) by (apply Hok; split; [constructor|done]).
  assert (Hb : default 0 (OMap.get (tenant_key t c) (po_recent p)) ≤ 64).
  { destruct (OMap.get _ _) as [n|] eqn:E; cbn; [|lia]. by apply Hp in E as [_ ?]. }
  pose proof (quiet_counter es2 _ p 64 Hp Hquiet Hb) as H.
  destruct (OMap.get (tenant_key t c) (po_recent (fold_left _ es2 p))) as [n|] eqn:E; [|done]. exfalso.
  assert (Hn : 1 ≤ n) by (eapply (proj2 (Hok es2 p Hp)), E).
  assert (H2 : 64 / 2 ^ length (List.filter is_decay es2) = 0); [|cbn in H; rewrite H2 in H; lia].
  apply Nat.div_small. apply (Nat.lt_le_trans _ (2 ^ 7)); [cbn; lia|]. by apply Nat.pow_le_mono_r.
Qed.
End fairness.

(** Fairness reorders and never drops: whatever the counters, the draws and the power
    function, the order a cycle tries the tenants in is a permutation of the tenants it
    was given. *)
Theorem sampling_keeps_every_tenant pow draws recent jobType tenants
    (Hdraws : length draws = length tenants) :
  Permutation (sampleByFairness pow draws recent jobType tenants) tenants.
Proof.
  unfold sampleByFairness. destruct (length tenants <=? 1); [done|].
  rewrite (fmap_Permutation fst _ _ (merge_sort_Permutation _ _)).
  assert (H : map fst (keyed pow draws recent jobType tenants) = tenants); [|by rewrite <- H at 2].
  unfold keyed. revert draws Hdraws. induction tenants as [|x l IH]; intros [|d ds] Hd; try done.
  cbn. f_equal. apply IH. by injection Hd.
Qed.

(** ** One cycle *)

Section cycles.
Context (me jobType : string) (epoch : option nat) (until : Z).

(** A tenant that has work: a visible pending row of the type. *)
Definition has_work (qs : Queues) (c : string) : bool :=
  match qs !! c with Some q => any_row (claimable jobType (q_now q)) q | None => false end.

Definition named_runs (qs : Queues) : Prop :=
  ∀ c q id r, qs !! c = Some q → q_rows q !! id = Some r → jr_runId r ≠ "".

(** A claim cycle serves the first tenant that has work: while the pod leads and is
    not shutting down, a cycle nothing interrupts goes through its order, leaves the
    tenants without a visible pending row as they are, and claims the oldest one of the
    first tenant that has any, one attempt further, under the caller's name and epoch;
    it comes back empty only when no tenant of the order has work. *)
Theorem claim_cycle_serves_the_first alive tenants qs
    (Halive : Forall (λ a, a = true) alive) (Hids : named_runs qs) :
  let '(qs', out) := claim_cycle me jobType epoch until alive tenants qs in
  match out with
  | None => qs' = qs ∧ ∀ c, c ∈ tenants → has_work qs c = false
  | Some (c, claim) =>
      ∃ before after q r, tenants = app before (c :: after) ∧
        (∀ x, x ∈ before → has_work qs x = false) ∧ qs !! c = Some q ∧
        q_rows q !! jc_recordId claim = Some r ∧ claimable jobType (q_now q) r = true ∧
        (∀ id x, q_rows q !! id = Some x → claimable jobType (q_now q) x = true →
           (jr_visibleAfter r <= jr_visibleAfter x)%Z) ∧
        jc_attempts claim = jr_attempts r + 1 ∧
        ∃ r', qs' = <[c := with_rows q (<[jc_recordId claim := r']> (q_rows q))]> qs ∧
          ownerGuard me epoch r' = true ∧ jr_leaseUntil r' = Some until
  end.
Proof.
  revert alive Halive. induction tenants as [|c tenants IH]; intros alive Halive.
  { cbn. split; [done|]. by intros c ?%elem_of_nil. }
  cbn [claim_cycle].
  assert (Hhd : default true (head alive) = true) by (destruct Halive; done). rewrite Hhd. cbn [negb].
  assert (Htl : Forall (λ a, a = true) (tail alive)) by (by destruct Halive).
  assert (Hnext : has_work qs c = false →
    let '(qs', out) := claim_cycle me jobType epoch until (tail alive) tenants qs in
    match out with
    | None => qs' = qs ∧ ∀ d, d ∈ c :: tenants → has_work qs d = false
    | Some (d, claim) =>
        ∃ before after q r, c :: tenants = app before (d :: after) ∧
          (∀ x, x ∈ before → has_work qs x = false) ∧ qs !! d = Some q ∧
          q_rows q !! jc_recordId claim = Some r ∧ claimable jobType (q_now q) r = true ∧
          (∀ id x, q_rows q !! id = Some x → claimable jobType (q_now q) x = true →
             (jr_visibleAfter r <= jr_visibleAfter x)%Z) ∧
          jc_attempts claim = jr_attempts r + 1 ∧
          ∃ r', qs' = <[d := with_rows q (<[jc_recordId claim := r']> (q_rows q))]> qs ∧
            ownerGuard me epoch r' = true ∧ jr_leaseUntil r' = Some until
    end).
  { intros Hno. specialize (IH (tail alive) Htl).
    destruct (claim_cycle _ _ _ _ _ _ _) as [qs' [[d claim]|]].
    - destruct IH as (before & after & q & r & -> & Hb & Hrest). exists (c :: before), after, q, r.
      split; [done|]. split; [|exact Hrest].
      intros x [->|Hx]%elem_of_cons; [done|by apply Hb].
    - destruct IH as [-> Hb]. split; [done|]. intros x [->|Hx]%elem_of_cons; [done|by apply Hb]. }
  destruct (qs !! c) as [q|] eqn:Hq; [|apply Hnext; unfold has_work; by rewrite Hq].
  assert (Hqid : ∀ id r, q_rows q !! id = Some r → jr_runId r ≠ "") by (intros id r; by apply (Hids c)).
  pose proof (claim_takes_the_oldest me jobType epoch until q Hqid) as Hc.
  destruct (run (claimNext me jobType epoch until) q) as [q' [claim|]]; cbn [fst snd] in Hc.
  - destruct Hc as (r & r' & Hr & Hcl & Hmin & -> & Ho & Hu & Ha & _).
    exists [], tenants, q, r. split_and!; try done; [by intros x ?%elem_of_nil|by exists r'].
  - destruct Hc as [-> Hnone]. assert (<[c := q]> qs = qs) as -> by by apply insert_id. apply Hnext. unfold has_work. rewrite Hq.
    unfold any_row. apply not_true_iff_false. intros ([id r] & Hin & Hx)%existsb_In.
    apply elem_of_map_to_list in Hin. cbn in Hx. by rewrite (Hnone id r Hin) in Hx.
Qed.
End cycles.

(** ** Claims handed back *)

Definition owns (me c : string) (claim : JobClaim) (qs : Queues) : Prop :=
  ∃ q, qs !! c = Some q ∧ owned me (jc_recordId claim) (jc_claimEpoch claim) q.

Lemma release_disowns me rid epoch reason q : ¬ owned me rid epoch (run (release me rid epoch reason) q).1.
Proof.
  unfold release. rewrite run_bind, run_update. cbn [run fst].
  unfold update_where. destruct (q_rows q !! rid) as [r|] eqn:Hr; [|intros (r & Hr' & _); cbn in Hr'; congruence].
  destruct (ownerGuard me epoch r) eqn:Hg; cbn.
  - intros (r' & Hr' & Hg'). cbn in Hr'. rewrite lookup_insert_eq in Hr'. by injection Hr' as <-.
  - intros (r' & Hr' & Hg'). cbn in Hr'. congruence.
Qed.

(** A hand-back gives nobody a claim. *)
Lemma release_keeps_disowned me rid epoch reason q rid' epoch' :
  ¬ owned me rid' epoch' q → ¬ owned me rid' epoch' (run (release me rid epoch reason) q).1.
Proof.
  unfold release. rewrite run_bind, run_update. cbn [run fst].
  unfold update_where. destruct (q_rows q !! rid) as [r|] eqn:Hr; [|done].
  destruct (ownerGuard me epoch r) eqn:Hg; cbn; [|done].
  intros Hn (r' & Hr' & Hg'). cbn in Hr'. destruct (decide (rid = rid')) as [->|Hne].
  - rewrite lookup_insert_eq in Hr'. by injection Hr' as <-.
  - rewrite lookup_insert_ne in Hr' by done. apply Hn. by exists r'.
Qed.

Lemma releases_keep_disowned me reason active qs c claim :
  ¬ owns me c claim qs → ¬ owns me c claim (releaseActiveClaims me reason active qs).1.
Proof.
  revert qs. induction active as [|[c' cl] active IH]; intros qs Hn; [done|]. cbn [releaseActiveClaims].
  destruct (qs !! c') as [q|] eqn:Hq; [|by apply IH].
  pose proof (release_keeps_disowned me (jc_recordId cl) (jc_claimEpoch cl) reason q
    (jc_recordId claim) (jc_claimEpoch claim)) as Hk.
  destruct (run (release _ _ _ _) q) as [q' ok]. cbn in Hk. specialize (IH (<[c' := q']> qs)).
  destruct (releaseActiveClaims me reason active (<[c' := q']> qs)) as [qs' n]. cbn in *. apply IH.
  intros (q2 & Hq2 & Ho). destruct (decide (c' = c)) as [->|Hne].
  - rewrite lookup_insert_eq in Hq2. injection Hq2 as <-. apply Hk; [|done].
    intros Ho'. apply Hn. by exists q.
  - rewrite lookup_insert_ne in Hq2 by done. apply Hn. by exists q2.
Qed.

(** After the hand-back none of the claims is this worker's. *)
Lemma released_not_owned me reason active qs c claim :
  (c, claim) ∈ active → ¬ owns me c claim (releaseActiveClaims me reason active qs).1.
Proof.
  revert qs. induction active as [|[c' cl] active' IH]; intros qs Hin; [by apply elem_of_nil in Hin|].
  cbn [releaseActiveClaims]. apply elem_of_cons in Hin as [E|Hin].
  - injection E as <- <-. destruct (qs !! c) as [q0|] eqn:Hq0.
    + pose proof (release_disowns me (jc_recordId claim) (jc_claimEpoch claim) reason q0) as Hd.
      destruct (run (release _ _ _ _) q0) as [q1 ok]. cbn in Hd.
      pose proof (releases_keep_disowned me reason active' (<[c := q1]> qs) c claim) as Hk.
      destruct (releaseActiveClaims me reason active' (<[c := q1]> qs)) as [qs' n]. cbn in *. apply Hk.
      intros (q2 & Hq2 & Ho). rewrite lookup_insert_eq in Hq2. by injection Hq2 as <-.
    + apply releases_keep_disowned. intros (q2 & Hq2 & _). congruence.
  - destruct (qs !! c') as [q0|]; [|by apply IH].
    destruct (run (release _ _ _ _) q0) as [q1 ok]. specialize (IH (<[c' := q1]> qs) Hin).
    by destruct (releaseActiveClaims me reason active' (<[c' := q1]> qs)) as [qs' n].
Qed.

(** A claim handed back at shutdown stays handed back: once the active claims were
    released, none of them is this worker's any more, so nothing their still-running
    handlers write afterwards - a renewal, a completion, a failure, a cancellation -
    changes a tenant's queue. *)
Theorem released_claims_are_fenced me reason active qs c claim q w
    (Hactive : (c, claim) ∈ active)
    (Hq : (releaseActiveClaims me reason active qs).1 !! c = Some q) :
  run (write_prog w me (jc_recordId claim) (jc_claimEpoch claim)) q = (q, false).
Proof.
  assert (Ho : ¬ owned me (jc_recordId claim) (jc_claimEpoch claim) q).
  { intros Ho. eapply (released_not_owned me reason active qs); [exact Hactive|by exists q]. }
  assert (H : ∀ f, update_where (jc_recordId claim) (ownerGuard me (jc_claimEpoch claim)) f q = (q, None)).
  { intros f. apply update_where_skip. intros r Hr. apply not_true_iff_false. intros Hg. apply Ho. by exists r. }
  destruct w; cbn [write_prog]; unfold renew, complete, cancelled, fail, release;
    rewrite ?run_bind, ?run_update, H; reflexivity.
Qed.

(** ** Examples *)

Definition two_each (_ : string) : ConcurrencyLimits :=
  {| li_maxConcurrent := 2; li_tenantMax := 1; li_globalMax := 3 |}.

Definition busy : list poll_event :=
  [EvCycle "dreams" ["a"; "b"]; EvCycle "compaction" ["a"; "b"]; EvClaimed "dreams" "a";
   EvClaimed "compaction" "b"; EvCycle "dreams" ["a"; "b"]; EvClaimed "dreams" "b";
   EvCycle "compaction" ["a"; "b"]; EvFinished "dreams" "a"; EvCycle "compaction" ["a"; "b"];
   EvClaimed "compaction" "b"; EvClaimed "compaction" "a"].

Lemma concurrency_limits_hold_witness :
  let p := poll_run two_each ["dreams"; "compaction"] busy in
  running p = 3 ∧ running p ≤ 3.
Proof.
  split; [by vm_compute|].
  refine (proj1 (proj2 (concurrency_limits_hold two_each ["dreams"; "compaction"] busy _ _)) 3 _ _).
  - by apply (bool_decide_unpack _).
  - repeat constructor.
  - lia.
  - done.
Defined.

Lemma quiet_tenant_regains_weight_witness :
  OMap.get "dreams::a" (po_recent (poll_run two_each ["dreams"; "compaction"] busy)) = Some 1 ∧
  OMap.get (tenant_key "dreams" "a") (po_recent (poll_run two_each ["dreams"; "compaction"]
    (app busy (repeat EvDecay 7)))) = None.
Proof.
  split; [by vm_compute|]. apply quiet_tenant_regains_weight; [done|]. apply Nat.leb_le. by vm_compute.
Defined.

Lemma sampling_keeps_every_tenant_witness :
  Permutation (sampleByFairness (λ u _, u) [0.2%float; 0.9%float] [] "dreams" ["a"; "b"]) ["a"; "b"].
Proof. by apply sampling_keeps_every_tenant. Defined.

Lemma claim_cycle_serves_the_first_witness :
  let qs : Queues := <["b" := q1]> (<["a" := q0]> ∅) in
  let '(qs', out) := claim_cycle "pod" "dreams" (Some 1) 5000 [] ["a"; "b"] qs in
  match out with
  | Some (c, claim) => c = "b" ∧ ∃ before after q r, ["a"; "b"] = app before (c :: after) ∧
      (∀ x, x ∈ before → has_work "dreams" qs x = false) ∧ qs !! c = Some q ∧
      q_rows q !! jc_recordId claim = Some r ∧ jc_attempts claim = jr_attempts r + 1
  | None => False
  end.
Proof.
  intros qs. assert (Hids : named_runs qs).
  { intros c q id r Hq Hr. unfold qs in Hq. destruct (decide (c = "b")) as [->|Hb].
    - rewrite lookup_insert_eq in Hq. injection Hq as <-. destruct (decide (id = 0)) as [->|Hne].
      + vm_compute in Hr. injection Hr as <-. discriminate.
      + exfalso. change (q_rows q1) with (<[0 := pending_row "run-1" nightly 1000]> (∅ : gmap nat JobRow)) in Hr.
        rewrite lookup_insert_ne in Hr by congruence. by rewrite lookup_empty in Hr.
    - rewrite lookup_insert_ne in Hq by done. destruct (decide (c = "a")) as [->|Ha].
      + rewrite lookup_insert_eq in Hq. injection Hq as <-.
        change (q_rows q0) with (∅ : gmap nat JobRow) in Hr. by rewrite lookup_empty in Hr.
      + rewrite lookup_insert_ne in Hq by done. by rewrite lookup_empty in Hq. }
  pose proof (claim_cycle_serves_the_first "pod" "dreams" (Some 1) 5000 [] ["a"; "b"] qs (List.Forall_nil _) Hids) as H.
  destruct (claim_cycle _ _ _ _ _ _ _) as [qs' [[c claim]|]] eqn:E; [|vm_compute in E; discriminate].
  split; [apply (f_equal snd) in E; vm_compute in E; congruence|].
  destruct H as (before & after & q & r & H1 & H2 & H3 & H4 & _ & _ & H5 & _). by exists before, after, q, r.
Defined.

Lemma released_claims_are_fenced_witness :
  let '(q, out) := run (claimNext "pod" "dreams" (Some 1) 5000) q1 in
  match out with
  | Some claim =>
      let qs : Queues := (releaseActiveClaims "pod" "shutdown" [("a", claim)] (<["a" := q]> ∅)).1 in
      match qs !! "a" with
      | Some q' => run (write_prog (WComplete None) "pod" (jc_recordId claim) (jc_claimEpoch claim)) q' = (q', false)
      | None => False
      end
  | None => False
  end.
Proof.
  destruct (run (claimNext "pod" "dreams" (Some 1) 5000) q1) as [q [claim|]] eqn:E; [|vm_compute in E; discriminate].
  cbv zeta. destruct ((releaseActiveClaims "pod" "shutdown" [("a", claim)] (<["a" := q]> ∅)).1 !! "a") as [q'|] eqn:Hq'.
  - apply (released_claims_are_fenced "pod" "shutdown" [("a", claim)] (<["a" := q]> ∅) "a"); [by constructor|done].
  - exfalso. revert Hq'. cbn [releaseActiveClaims]. rewrite lookup_insert_eq.
    destruct (run (release _ _ _ _) q) as [q' ok]. cbn. by rewrite lookup_insert_eq.
Defined.
