(* ===== verification/WorkerLoop.v ===== *)
(** * Leading the worker loops

    [jobs/worker-loop.service.ts]: the lease loop of one pod, the poll loops it starts,
    one per registered job type, their checks of the leadership, and the shutdown. The
    lease is an interface with the laws the loop relies on, which [LeaderLease] has. The
    lease table may change between any two steps in any way; what a loop does within a
    cycle is in [Poller]. *)

From S2P Require Import Prelude Js Resume LeaderLease JobQueue Dispatcher Poller.
From stdpp Require Import gmap.
Local Open Scope string_scope.
Local Open Scope nat_scope.

(** ** The lease, as the loop sees it *)

Class LeaseService (L : Type) := {
  ls_acquire : string → string → Z → Z → L → L * option nat;
  ls_isHeld : string → string → option nat → Z → L → bool;
  ls_release : string → string → L → L;
  (* a lease just acquired is held, under its epoch, until it ends *)
  ls_acquire_held : ∀ me name ttl js l l' e js',
    ls_acquire me name ttl js l = (l', Some e) → (js' < js + ttl * 1000)%Z →
    ls_isHeld me name (Some e) js' l' = true;
  (* one holder at a time *)
  ls_exclusive : ∀ me me' name e e' js js' l,
    ls_isHeld me name e js l = true → ls_isHeld me' name e' js' l = true → me = me';
  (* a released lease is not held *)
  ls_release_free : ∀ me name e js l, ls_isHeld me name e js (ls_release me name l) = false
}.

#[export] Program Instance LeaderLease_service : LeaseService LeaseTable := {|
  ls_acquire := acquire; ls_isHeld := isHeld; ls_release := LeaderLease.release
|}.
Next Obligation.
  intros me name ttl js l l' e js'. unfold acquire, isHeld. intros H Hjs.
  case_match eqn:E; [|done]. injection H as <- <-. cbn. rewrite lookup_insert_eq. cbn.
  rewrite bool_decide_eq_true_2 by done. cbn. rewrite (proj2 (Z.leb_gt _ _)) by lia. apply Nat.eqb_refl.
Qed.
Next Obligation.
  intros me me' name e e' js js' l. unfold isHeld. destruct (ll_rows l !! name) as [r|]; [|done].
  destruct (bool_decide (le_leaderId r = me)) eqn:E1; [|done].
  destruct (bool_decide (le_leaderId r = me')) eqn:E2; [|done].
  apply bool_decide_eq_true in E1, E2. congruence.
Qed.
Next Obligation.
  intros me name e js l. unfold isHeld, LeaderLease.release.
  destruct (ll_rows l !! name) as [r|] eqn:Hr; [|by rewrite Hr].
  case_bool_decide as Hme; cbn.
  - by rewrite lookup_delete_eq.
  - rewrite Hr. by rewrite (bool_decide_eq_false_2 _ Hme).
Qed.

(** ** One pod *)

(** Where a poll loop stands: at the head of its cycle; waiting for the lease's answer,
    asked under an epoch; confirmed, with tenants left to try; waiting for [claimNext] of
    one tenant, called under an epoch; awaiting its dispatch (the bounded loop moves on at
    once and awaits its dispatches when it returns); or returned. *)
Inductive LoopPhase : Type :=
| AtTop
| Asking (epoch : option nat)
| Confirmed (tenants : list string)
| Claiming (epoch : option nat) (companyId : string) (rest : list string)
| Dispatching
| Ended.

#[export] Instance LoopPhase_eq_dec : EqDecision LoopPhase.
Proof. solve_decision. Defined.

Record Pod := {
  pd_handlers : list (string * RegisteredHandler);
  pd_isLeader : bool;
  pd_epoch : option nat;
  pd_loopsStarted : bool;
  pd_loops : list (string * LoopPhase);
  pd_aborted : bool
}.

Record RegisterOpts := {
  ro_ttlSeconds : option Z;
  ro_maxAttempts : option nat;
  ro_cpuBound : option bool;
  ro_workerModule : option string
}.

Definition register (jobType : string) (opts : RegisterOpts) (p : Pod) : result string Pod :=
  if default false (ro_cpuBound opts) && bool_decide (truthy (ro_workerModule opts) = None)
  then Throw ("register(" +:+ jobType +:+ "): cpuBound=true requires workerModule")
  else Ok {| pd_handlers := OMap.set jobType
               {| rh_jobType := jobType; rh_ttlSeconds := default 300%Z (ro_ttlSeconds opts);
                  rh_maxAttempts := default 3 (ro_maxAttempts opts);
                  rh_cpuBound := default false (ro_cpuBound opts);
                  rh_workerModule := ro_workerModule opts |} (pd_handlers p);
             pd_isLeader := pd_isLeader p; pd_epoch := pd_epoch p; pd_loopsStarted := pd_loopsStarted p;
             pd_loops := pd_loops p; pd_aborted := pd_aborted p |}.

Definition set_leader (b : bool) (e : option nat) (p : Pod) : Pod :=
  {| pd_handlers := pd_handlers p; pd_isLeader := b; pd_epoch := e; pd_loopsStarted := pd_loopsStarted p;
     pd_loops := pd_loops p; pd_aborted := pd_aborted p |}.

Definition set_phase (t : string) (ph : LoopPhase) (p : Pod) : Pod :=
  {| pd_handlers := pd_handlers p; pd_isLeader := pd_isLeader p; pd_epoch := pd_epoch p;
     pd_loopsStarted := pd_loopsStarted p; pd_loops := OMap.set t ph (pd_loops p);
     pd_aborted := pd_aborted p |}.

Definition startLoops (p : Pod) : Pod :=
  {| pd_handlers := pd_handlers p; pd_isLeader := pd_isLeader p; pd_epoch := pd_epoch p;
     pd_loopsStarted := true; pd_loops := map (λ t, (t, AtTop)) (OMap.keys (pd_handlers p));
     pd_aborted := pd_aborted p |}.

Definition all_ended (p : Pod) : bool := forallb (λ kv, bool_decide (kv.2 = Ended)) (pd_loops p).

Section worker.
Context {L : Type} `{LS : LeaseService L} (me : string) (leaseRenewIntervalMs : Z).

Definition LEASE : string := "worker_loop".

(** [Math.ceil((this.leaseRenewIntervalMs * 3) / 1000)] *)
Definition lease_ttl : Z := (- ((- (leaseRenewIntervalMs * 3)) / 1000))%Z.

(** What a pod's loops did: asked for the lease, were told it is held (under an epoch, at a
    time, of a table), called [claimNext] (stamped with an epoch), got a job by that call. *)
Inductive LogEntry : Type :=
| LgAsked (t : string)
| LgHeld (t : string) (epoch : option nat) (jsNow : Z) (l : L)
| LgCalled (t : string) (epoch : option nat) (companyId : string)
| LgClaimed (t : string) (epoch : option nat) (companyId : string).

(** The lease table, this pod, the log of its loops (newest first) and the epochs the
    lease granted it. *)
Record System := { sy_lease : L; sy_pod : Pod; sy_log : list LogEntry; sy_granted : list nat }.

Definition with_pod (p : Pod) (s : System) : System :=
  {| sy_lease := sy_lease s; sy_pod := p; sy_log := sy_log s; sy_granted := sy_granted s |}.

Definition logging (e : LogEntry) (p : Pod) (s : System) : System :=
  {| sy_lease := sy_lease s; sy_pod := p; sy_log := e :: sy_log s; sy_granted := sy_granted s |}.

(** What the loop's last point read said, if it was that the lease is held. *)
Fixpoint last_read (t : string) (log : list LogEntry) : option (option nat * Z * L) :=
  match log with
  | [] => None
  | LgHeld t' e js l :: log' => if bool_decide (t' = t) then Some (e, js, l) else last_read t log'
  | LgAsked t' :: log' => if bool_decide (t' = t) then None else last_read t log'
  | _ :: log' => last_read t log'
  end.

(** The loop's last call of [claimNext], if no claim came of it yet. *)
Fixpoint last_call (t : string) (log : list LogEntry) : option (option nat * string) :=
  match log with
  | [] => None
  | LgCalled t' e c :: log' => if bool_decide (t' = t) then Some (e, c) else last_call t log'
  | LgClaimed t' _ _ :: log' => if bool_decide (t' = t) then None else last_call t log'
  | _ :: log' => last_call t log'
  end.

Inductive worker_event : Type :=
| EvTick (jsNow : Z)                  (* the renew tick of [tryBecomeLeader] *)
| EvTickThrew                         (* ... whose acquire threw *)
| EvCheck (t : string)                (* a loop at the head of its cycle *)
| EvAnswer (t : string) (jsNow : Z) (tenants : list string)
                                      (* the point read of [confirmLeader] came back; the
                                         tenants are those the loop would then try *)
| EvAnswerLost (t : string)           (* ... or failed, which counts as not held *)
| EvTry (t : string)                  (* the head of the loop over the tenants *)
| EvClaimed (t : string) (got : bool) (* the claim call came back *)
| EvClaimThrew (t : string)           (* ... or threw *)
| EvDispatched (t : string)
| EvDied (t : string)                 (* the dispatch threw out of the loop *)
| EvSettled                           (* [Promise.allSettled(this.loops).then(...)] *)
| EvShutdown
| EvLease (l : L).                    (* anyone else, and time *)

Definition tryBecomeLeader (res : option (option nat)) (p : Pod) : Pod :=
  let p1 := match res with
            | Some epoch => set_leader (match epoch with Some _ => true | None => false end) epoch p
            | None => set_leader false None p
            end in
  if pd_isLeader p1 && negb (pd_loopsStarted p1) then startLoops p1 else p1.

(** [confirmLeader] answers no: the loop ends. *)
Definition not_held (t : string) (p : Pod) : Pod := set_phase t Ended (set_leader false None p).

Definition worker_step (s : System) (e : worker_event) : System :=
  let p := sy_pod s in
  match e with
  | EvTick js =>
      if pd_aborted p then s
      else let '(l', epoch) := ls_acquire me LEASE lease_ttl js (sy_lease s) in
           {| sy_lease := l'; sy_pod := tryBecomeLeader (Some epoch) p; sy_log := sy_log s;
              sy_granted := match epoch with Some n => n :: sy_granted s | None => sy_granted s end |}
  | EvTickThrew => if pd_aborted p then s else with_pod (tryBecomeLeader None p) s
  | EvCheck t =>
      match OMap.get t (pd_loops p) with
      | Some AtTop =>
          if pd_aborted p || negb (pd_isLeader p) then with_pod (set_phase t Ended p) s
          else logging (LgAsked t) (set_phase t (Asking (pd_epoch p)) p) s
      | _ => s
      end
  | EvAnswer t js tenants =>
      match OMap.get t (pd_loops p) with
      | Some (Asking epoch) =>
          if ls_isHeld me LEASE epoch js (sy_lease s)
          then logging (LgHeld t epoch js (sy_lease s)) (set_phase t (Confirmed tenants) p) s
          else with_pod (not_held t p) s
      | _ => s
      end
  | EvAnswerLost t =>
      match OMap.get t (pd_loops p) with
      | Some (Asking _) => with_pod (not_held t p) s
      | _ => s
      end
  | EvTry t =>
      match OMap.get t (pd_loops p) with
      | Some (Confirmed []) => with_pod (set_phase t AtTop p) s
      | Some (Confirmed (c :: rest)) =>
          if pd_aborted p || negb (pd_isLeader p) then with_pod (set_phase t AtTop p) s
          else logging (LgCalled t (pd_epoch p) c) (set_phase t (Claiming (pd_epoch p) c rest) p) s
      | _ => s
      end
  | EvClaimed t got =>
      match OMap.get t (pd_loops p) with
      | Some (Claiming epoch c rest) =>
          if got then logging (LgClaimed t epoch c) (set_phase t Dispatching p) s
          else with_pod (set_phase t (Confirmed rest) p) s
      | _ => s
      end
  | EvClaimThrew t =>
      match OMap.get t (pd_loops p) with
      | Some (Claiming _ _ _) => with_pod (set_phase t AtTop p) s
      | _ => s
      end
  | EvDispatched t =>
      match OMap.get t (pd_loops p) with
      | Some Dispatching => with_pod (set_phase t AtTop p) s
      | _ => s
      end
  | EvDied t =>
      match OMap.get t (pd_loops p) with
      | Some Dispatching => with_pod (set_phase t Ended p) s
      | _ => s
      end
  | EvSettled =>
      if pd_loopsStarted p && all_ended p
      then with_pod {| pd_handlers := pd_handlers p; pd_isLeader := pd_isLeader p; pd_epoch := pd_epoch p;
                       pd_loopsStarted := false; pd_loops := pd_loops p; pd_aborted := pd_aborted p |} s
      else s
  | EvShutdown => with_pod {| pd_handlers := pd_handlers p; pd_isLeader := pd_isLeader p;
                              pd_epoch := pd_epoch p; pd_loopsStarted := pd_loopsStarted p;
                              pd_loops := pd_loops p; pd_aborted := true |} s
  | EvLease l => {| sy_lease := l; sy_pod := p; sy_log := sy_log s; sy_granted := sy_granted s |}
  end.

Definition worker_run (s : System) (es : list worker_event) : System := fold_left worker_step es s.

(** A pod with its handlers registered, before its first tick. *)
Definition pod_start (handlers : list (string * RegisteredHandler)) : Pod :=
  {| pd_handlers := handlers; pd_isLeader := false; pd_epoch := None; pd_loopsStarted := false;
     pd_loops := []; pd_aborted := false |}.

Definition system_start (handlers : list (string * RegisteredHandler)) (l : L) : System :=
  {| sy_lease := l; sy_pod := pod_start handlers; sy_log := []; sy_granted := [] |}.

(** [beforeApplicationShutdown], from the abort to the release of the lease; [drained] is
    whether the loops settled within the budget. *)
Definition drainDispatches (drained : bool) (active : list (string * JobClaim)) (p : Pod) (qs : gmap string Queue) :
    gmap string Queue :=
  if (length (pd_loops p) =? 0) || drained then qs
  else (releaseActiveClaims me "pod shutdown: handler did not stop within the drain budget" active qs).1.

Definition beforeApplicationShutdown (drained : bool) (active : list (string * JobClaim))
    (s : System) (qs : gmap string Queue) : System * gmap string Queue :=
  let s1 := worker_step s EvShutdown in
  let qs' := drainDispatches drained active (sy_pod s1) qs in
  ({| sy_lease := if pd_isLeader (sy_pod s1) then ls_release me LEASE (sy_lease s1) else sy_lease s1;
      sy_pod := sy_pod s1; sy_log := sy_log s1; sy_granted := sy_granted s1 |}, qs').

(** ** Claims are led *)

(** What the loops have done, as long as the pod lives: a leader has an epoch it was
    granted; a confirmed loop was told the lease is held; a call in flight is the loop's
    last; and each call and each claim was made as it should. *)
Definition entry_ok (granted : list nat) (e : LogEntry) (log : list LogEntry) : Prop :=
  match e with
  | LgCalled t ep c => (∃ n, ep = Some n ∧ n ∈ granted) ∧
      ∃ e0 js l, last_read t log = Some (e0, js, l) ∧ ls_isHeld me LEASE e0 js l = true
  | LgClaimed t ep c => last_call t log = Some (ep, c)
  | _ => True
  end.

Fixpoint log_ok (granted : list nat) (log : list LogEntry) : Prop :=
  match log with [] => True | e :: log' => entry_ok granted e log' ∧ log_ok granted log' end.

Definition phase_ok (log : list LogEntry) (t : string) (ph : LoopPhase) : Prop :=
  match ph with
  | Confirmed _ => ∃ e js l, last_read t log = Some (e, js, l) ∧ ls_isHeld me LEASE e js l = true
  | Claiming ep c _ => last_call t log = Some (ep, c) ∧
      ∃ e js l, last_read t log = Some (e, js, l) ∧ ls_isHeld me LEASE e js l = true
  | _ => True
  end.

Record led (s : System) : Prop := {
  led_epoch : pd_isLeader (sy_pod s) = true → ∃ n, pd_epoch (sy_pod s) = Some n ∧ n ∈ sy_granted s;
  led_phases : ∀ t ph, OMap.get t (pd_loops (sy_pod s)) = Some ph → phase_ok (sy_log s) t ph;
  led_log : log_ok (sy_granted s) (sy_log s)
}.

Lemma tryBecomeLeader_leads res p :
  pd_isLeader (tryBecomeLeader res p) = match res with Some (Some _) => true | _ => false end ∧
  pd_epoch (tryBecomeLeader res p) = match res with Some e => e | None => None end ∧
  pd_aborted (tryBecomeLeader res p) = pd_aborted p ∧
  ∀ t ph, OMap.get t (pd_loops (tryBecomeLeader res p)) = Some ph → OMap.get t (pd_loops p) = Some ph ∨ ph = AtTop.
Proof.
  assert (Hget : ∀ (ks : list string) x ph, OMap.get x (map (λ t, (t, AtTop)) ks) = Some ph → ph = AtTop).
  { clear. induction ks as [|k ks IH]; intros x ph; cbn; [done|]. case_bool_decide; [by intros [= <-]|]. apply IH. }
  unfold tryBecomeLeader. destruct res as [[n|]|]; cbn; destruct (pd_loopsStarted p); cbn; eauto 6.
Qed.

Lemma log_ok_grants g g' log : (∀ n, n ∈ g → n ∈ g') → log_ok g log → log_ok g' log.
Proof.
  intros Hg. induction log as [|e log IH]; cbn; [done|]. intros [He Hl]. split; [|by apply IH].
  destruct e; cbn in *; try done. destruct He as [(n & Hn & Hin) Hr]. split; [|done]. exists n. auto.
Qed.

(** A loop that moves to a phase that promises nothing. *)
Lemma led_phase s t ph p :
  led s → phase_ok (sy_log s) t ph →
  (pd_isLeader p = true → pd_isLeader (sy_pod s) = true ∧ pd_epoch p = pd_epoch (sy_pod s)) →
  pd_loops p = OMap.set t ph (pd_loops (sy_pod s)) → led (with_pod p s).
Proof.
  intros Hs Hph Hl Hp. split; cbn; [|rewrite Hp|apply Hs].
  - intros H. destruct (Hl H) as [H1 ->]. by apply Hs.
  - intros u q. rewrite OMap.get_set. case_bool_decide as Hu; [subst; by intros [= <-]|by apply Hs].
Qed.

(** The entry of one loop says nothing of the others. *)
Definition entry_loop (e : LogEntry) : string :=
  match e with LgAsked t | LgHeld t _ _ _ | LgCalled t _ _ | LgClaimed t _ _ => t end.

Lemma phase_other log e t ph : entry_loop e ≠ t → phase_ok log t ph → phase_ok (e :: log) t ph.
Proof.
  intros Hne. destruct e; cbn in Hne; destruct ph; cbn; rewrite ?bool_decide_eq_false_2 by done; done.
Qed.

Lemma led_logging s t ph e p :
  led s → entry_loop e = t → entry_ok (sy_granted s) e (sy_log s) → phase_ok (e :: sy_log s) t ph →
  (pd_isLeader p = true → pd_isLeader (sy_pod s) = true ∧ pd_epoch p = pd_epoch (sy_pod s)) →
  pd_loops p = OMap.set t ph (pd_loops (sy_pod s)) → led (logging e p s).
Proof.
  intros Hs Ht He Hph Hl Hp. split; cbn [logging sy_pod sy_log sy_granted]; [|rewrite Hp|split; [done|apply Hs]].
  - intros H. destruct (Hl H) as [H1 ->]. by apply Hs.
  - intros u q. rewrite OMap.get_set. case_bool_decide as Hu; [subst u; by intros [= <-]|].
    intros Hq. apply phase_other; [congruence|by apply Hs].
Qed.

Lemma step_led s e : led s → led (worker_step s e).
Proof.
  intros Hs. destruct e as [js| |t|t js ts|t|t|t got|t|t|t| | |l]; cbn [worker_step].
  - destruct (pd_aborted _); [done|]. destruct (ls_acquire _ _ _ _ _) as [l' epoch].
    destruct (tryBecomeLeader_leads (Some epoch) (sy_pod s)) as (H1 & H2 & _ & H3).
    split; cbn.
    + rewrite H1, H2. destruct epoch as [n|]; [|done]. intros _. exists n. split; [done|by constructor].
    + intros t ph [H| ->]%H3; [by apply Hs|done].
    + eapply log_ok_grants; [|apply Hs]. intros n Hn. destruct epoch; [by constructor|done].
  - destruct (pd_aborted _); [done|]. destruct (tryBecomeLeader_leads None (sy_pod s)) as (H1 & _ & _ & H3).
    split; cbn; [congruence| |apply Hs]. intros t ph [H| ->]%H3; [by apply Hs|done].
  - destruct (OMap.get t _) as [[]|]; try done. destruct (_ || _).
    + by apply (led_phase s t Ended).
    + by apply (led_logging s t (Asking (pd_epoch (sy_pod s)))).
  - destruct (OMap.get t _) as [[]|] eqn:Et; try done. destruct (ls_isHeld _ _ _ _ _) eqn:Eh.
    + apply (led_logging s t (Confirmed ts)); try done. cbn. rewrite bool_decide_eq_true_2 by done. eauto.
    + by apply (led_phase s t Ended).
  - destruct (OMap.get t _) as [[]|]; try done. by apply (led_phase s t Ended).
  - destruct (OMap.get t _) as [[| |[|c rest]| | |]|] eqn:Et; try done; [by apply (led_phase s t AtTop)|].
    destruct (pd_aborted (sy_pod s) || negb (pd_isLeader (sy_pod s))) eqn:E; [by apply (led_phase s t AtTop)|].
    apply orb_false_iff in E as [_ E%negb_false_iff]. pose proof (led_phases s Hs t _ Et) as Hph. cbn in Hph.
    apply (led_logging s t (Claiming (pd_epoch (sy_pod s)) c rest)); try done; cbn.
    + split; [by apply Hs|done].
    + by rewrite bool_decide_eq_true_2.
  - destruct (OMap.get t _) as [[| | |ep c rest| |]|] eqn:Et; try done.
    pose proof (led_phases s Hs t _ Et) as [Hc Hr]. destruct got.
    + by apply (led_logging s t Dispatching).
    + by apply (led_phase s t (Confirmed rest)).
  - destruct (OMap.get t _) as [[]|]; try done. by apply (led_phase s t AtTop).
  - destruct (OMap.get t _) as [[]|]; try done. by apply (led_phase s t AtTop).
  - destruct (OMap.get t _) as [[]|]; try done. by apply (led_phase s t Ended).
  - destruct (_ && _); [|done]. by split; apply Hs.
  - by split; apply Hs.
  - by split; apply Hs.
Qed.

Lemma run_led s es : led s → led (worker_run s es).
Proof. revert s. induction es as [|e es IH]; intros s Hs; [done|]. cbn. by apply IH, step_led. Qed.

Lemma start_led handlers l : led (system_start handlers l).
Proof. by split. Qed.

Lemma log_ok_split granted log pre e rest :
  log_ok granted log → log = app pre (e :: rest) → entry_ok granted e rest.
Proof.
  intros H ->. induction pre as [|x pre IH]; cbn in *; [by apply H|]. by apply IH, H.
Qed.

(** A pod that is shutting down calls nothing: a step adds nothing to the log, an answer
    to a point read, or the claim of a call that was in flight. *)
Lemma step_aborted s e :
  pd_aborted (sy_pod s) = true →
  pd_aborted (sy_pod (worker_step s e)) = true ∧
  ∃ new, sy_log (worker_step s e) = app new (sy_log s) ∧
    (∀ t ep c, LgCalled t ep c ∉ new) ∧
    (∀ t ep c, LgClaimed t ep c ∈ new → ∃ rest, OMap.get t (pd_loops (sy_pod s)) = Some (Claiming ep c rest)) ∧
    ∀ t ep c rest, OMap.get t (pd_loops (sy_pod (worker_step s e))) = Some (Claiming ep c rest) →
      OMap.get t (pd_loops (sy_pod s)) = Some (Claiming ep c rest).
Proof.
  intros Ha.
  assert (Hsame : ∀ p, pd_aborted p = true →
    (∀ t ep c rest, OMap.get t (pd_loops p) = Some (Claiming ep c rest) → OMap.get t (pd_loops (sy_pod s)) = Some (Claiming ep c rest)) →
    pd_aborted (sy_pod (with_pod p s)) = true ∧ ∃ new, sy_log (with_pod p s) = app new (sy_log s) ∧
      (∀ t ep c, LgCalled t ep c ∉ new) ∧
      (∀ t ep c, LgClaimed t ep c ∈ new → ∃ rest, OMap.get t (pd_loops (sy_pod s)) = Some (Claiming ep c rest)) ∧
      ∀ t ep c rest, OMap.get t (pd_loops (sy_pod (with_pod p s))) = Some (Claiming ep c rest) →
        OMap.get t (pd_loops (sy_pod s)) = Some (Claiming ep c rest)).
  { intros p H1 H2. split; [done|]. exists []. split; [done|]. split; [set_solver|]. split; [set_solver|done]. }
  assert (Hset : ∀ t ph, (∀ ep c rest, ph ≠ Claiming ep c rest) → ∀ u ep c rest,
    OMap.get u (OMap.set t ph (pd_loops (sy_pod s))) = Some (Claiming ep c rest) →
    OMap.get u (pd_loops (sy_pod s)) = Some (Claiming ep c rest)).
  { intros t ph Hph u ep c rest. rewrite OMap.get_set. case_bool_decide; [|done]. intros [= ->]. by destruct (Hph ep c rest). }
  assert (Hid := Hsame (sy_pod s) Ha (λ _ _ _ _ H, H)). replace (with_pod (sy_pod s) s) with s in Hid by by destruct s.
  assert (Hid2 := Hid). rewrite Ha in Hid2.
  destruct e as [js| |t|t js ts|t|t|t got|t|t|t| | |l]; cbn [worker_step]; rewrite ?Ha; cbn [orb]; try first [exact Hid|exact Hid2];
    try (destruct (OMap.get t _) as [[]|] eqn:Et; try first [exact Hid|exact Hid2]);
    try (apply Hsame; [done|by apply Hset]).
  - destruct (ls_isHeld _ _ _ _ _); [|apply Hsame; [done|by apply Hset]].
    split; [done|]. exists [LgHeld t epoch js (sy_lease s)]. split; [done|]. split; [set_solver|]. split; [set_solver|].
    cbn. by apply Hset.
  - destruct tenants; apply Hsame; try done; by apply Hset.
  - destruct got; [|apply Hsame; [done|by apply Hset]].
    split; [done|]. exists [LgClaimed t epoch companyId]. split; [done|]. split; [set_solver|]. split; [|by apply Hset].
    intros u ep c [= -> -> ->]%list_elem_of_singleton. eauto.
  - destruct (_ && _); [|first [exact Hid|exact Hid2]]. by apply Hsame.
Qed.

Lemma run_aborted s es :
  pd_aborted (sy_pod s) = true →
  ∃ new, sy_log (worker_run s es) = app new (sy_log s) ∧
    (∀ t ep c, LgCalled t ep c ∉ new) ∧
    ∀ t ep c, LgClaimed t ep c ∈ new → ∃ rest, OMap.get t (pd_loops (sy_pod s)) = Some (Claiming ep c rest).
Proof.
  revert s. induction es as [|e es IH]; intros s Hs.
  { exists []. split; [done|]. split; set_solver. }
  destruct (step_aborted s e Hs) as (Hs' & new & E & Hcall & Hcl & Hph).
  change (worker_run s (e :: es)) with (worker_run (worker_step s e) es).
  destruct (IH _ Hs') as (new' & E' & Hcall' & Hcl'). exists (app new' new).
  rewrite E', E, app_assoc. split; [done|]. split.
  - intros t ep c [H|H]%elem_of_app; [by apply Hcall' in H|by apply Hcall in H].
  - intros t ep c [H|H]%elem_of_app; [|by apply Hcl]. apply Hcl' in H as (rest & H). exists rest. by apply Hph.
Qed.

(** C13. Only a leader claims. Whatever happens to the lease table and in whatever order
    ticks, checks, answers, claims and the shutdown fall: every call of [claimNext] is
    stamped with an epoch the lease granted to this pod, and the calling loop's last point
    read of the lease had been answered that this pod holds it; every job claimed answers
    one such call of its loop. Once the pod is shutting down no further call is made: what
    is still claimed then is by the one call a loop had in flight, under the epoch and of
    the tenant it was made for. *)
Theorem claims_are_led handlers l es es' :
  let s := worker_run (system_start handlers l) es in
  let s' := worker_run (worker_step s EvShutdown) es' in
  (∀ later t ep c earlier, sy_log s' = app later (LgCalled t ep c :: earlier) →
     (∃ n, ep = Some n ∧ n ∈ sy_granted s') ∧
     ∃ e js l', last_read t earlier = Some (e, js, l') ∧ ls_isHeld me LEASE e js l' = true) ∧
  (∀ later t ep c earlier, sy_log s' = app later (LgClaimed t ep c :: earlier) →
     last_call t earlier = Some (ep, c)) ∧
  ∃ new, sy_log s' = app new (sy_log s) ∧ (∀ t ep c, LgCalled t ep c ∉ new) ∧
    ∀ t ep c, LgClaimed t ep c ∈ new → ∃ rest, OMap.get t (pd_loops (sy_pod s)) = Some (Claiming ep c rest).
Proof.
  intros s s'. assert (Hs' : led s') by apply run_led, step_led, run_led, start_led. split_and!.
  - intros later t ep c earlier E. exact (log_ok_split _ _ _ _ _ (led_log s' Hs') E).
  - intros later t ep c earlier E. exact (log_ok_split _ _ _ _ _ (led_log s' Hs') E).
  - apply (run_aborted (worker_step s EvShutdown)). done.
Qed.

(** ** Loops end and start together *)

Lemma all_ended_In p t : all_ended p = true → OMap.get t (pd_loops p) = Some Ended ∨ OMap.get t (pd_loops p) = None.
Proof.
  unfold all_ended. rewrite forallb_In. intros H.
  destruct (OMap.get t (pd_loops p)) as [ph|] eqn:E; [|by right]. left.
  apply OMap.get_elem in E. specialize (H _ E). cbn in H. by apply bool_decide_eq_true in H as ->.
Qed.

Lemma step_keeps_ended s e t u :
  pd_loopsStarted (sy_pod s) = true → OMap.get t (pd_loops (sy_pod s)) = Some Ended →
  (∃ ph, OMap.get u (pd_loops (sy_pod s)) = Some ph ∧ ph ≠ Ended) →
  let p' := sy_pod (worker_step s e) in
  pd_loopsStarted p' = true ∧ OMap.get t (pd_loops p') = Some Ended ∧
  (∃ ph, OMap.get u (pd_loops p') = Some ph).
Proof.
  intros Hst Ht (ph & Hu & Hph).
  assert (Hset : ∀ x q, OMap.get x (pd_loops (sy_pod s)) ≠ Some Ended →
    OMap.get t (OMap.set x q (pd_loops (sy_pod s))) = Some Ended ∧
    ∃ ph', OMap.get u (OMap.set x q (pd_loops (sy_pod s))) = Some ph').
  { intros x q Hx. assert (x ≠ t) by (intros ->; congruence). rewrite OMap.get_set_ne by done. split; [done|].
    rewrite OMap.get_set. case_bool_decide; eauto. }
  assert (Htick : ∀ res, pd_loopsStarted (tryBecomeLeader res (sy_pod s)) = true ∧
    pd_loops (tryBecomeLeader res (sy_pod s)) = pd_loops (sy_pod s)).
  { intros res. unfold tryBecomeLeader. destruct res as [[n|]|]; cbn; by rewrite Hst. }
  destruct e as [js| |x|x js ts|x|x|x got|x|x|x| | |l]; cbn [worker_step].
  - destruct (pd_aborted _); [by eauto|]. destruct (ls_acquire _ _ _ _ _) as [l' e'].
    destruct (Htick (Some e')) as [H1 H2]. cbn [with_pod sy_pod]. rewrite H1, H2. eauto.
  - destruct (pd_aborted _); [by eauto|]. destruct (Htick None) as [H1 H2]. cbn [with_pod sy_pod]. rewrite H1, H2. eauto.
  - destruct (OMap.get x _) as [[]|] eqn:Hx; try (by eauto).
    destruct (_ || _); cbn; (split; [done|]; apply Hset; congruence).
  - destruct (OMap.get x _) as [[]|] eqn:Hx; try (by eauto).
    destruct (ls_isHeld _ _ _ _ _); cbn; (split; [done|]; apply Hset; congruence).
  - destruct (OMap.get x _) as [[]|] eqn:Hx; try (by eauto). cbn. split; [done|]. apply Hset. congruence.
  - destruct (OMap.get x _) as [[| |[]| | |]|] eqn:Hx; try (by eauto);
      [|destruct (_ || _)]; cbn; (split; [done|]; apply Hset; congruence).
  - destruct (OMap.get x _) as [[]|] eqn:Hx; try (by eauto). destruct got; cbn; (split; [done|]; apply Hset; congruence).
  - destruct (OMap.get x _) as [[]|] eqn:Hx; try (by eauto). cbn. split; [done|]. apply Hset. congruence.
  - destruct (OMap.get x _) as [[]|] eqn:Hx; try (by eauto). cbn. split; [done|]. apply Hset. congruence.
  - destruct (OMap.get x _) as [[]|] eqn:Hx; try (by eauto). cbn. split; [done|]. apply Hset. congruence.
  - destruct (pd_loopsStarted (sy_pod s) && all_ended (sy_pod s)) eqn:E; [|by eauto].
    apply andb_true_iff in E as [_ E]. exfalso. destruct (all_ended_In _ u E); congruence.
  - cbn. eauto.
  - cbn. eauto.
Qed.

(** A loop that ends alone is not started again: the loops are restarted as a set,
    when all of them have ended, so while the loop of one job type runs on - keeps
    finding its leadership confirmed, or awaits a long dispatch - another type's loop
    that ended stays ended through any number of renewed leases, and its jobs are not
    claimed by this pod. *)
Theorem loop_that_ends_alone_stays_ended s es t u
    (Hstarted : pd_loopsStarted (sy_pod s) = true)
    (Hended : OMap.get t (pd_loops (sy_pod s)) = Some Ended)
    (Hknown : is_Some (OMap.get u (pd_loops (sy_pod s))))
    (Hruns : ∀ k, OMap.get u (pd_loops (sy_pod (worker_run s (take k es)))) ≠ Some Ended) :
  OMap.get t (pd_loops (sy_pod (worker_run s es))) = Some Ended.
Proof.
  enough (H : pd_loopsStarted (sy_pod (worker_run s es)) = true ∧
    OMap.get t (pd_loops (sy_pod (worker_run s es))) = Some Ended) by apply H.
  revert s Hstarted Hended Hknown Hruns. induction es as [|e es IH]; intros s Hst Ht [ph Hu] Hr; [done|].
  destruct (step_keeps_ended s e t u Hst Ht) as (H1 & H2 & H3).
  { exists ph. split; [done|]. specialize (Hr 0). cbn in Hr. congruence. }
  change (worker_run s (e :: es)) with (worker_run (worker_step s e) es). apply IH; [done..|].
  intros k. apply (Hr (S k)).
Qed.

(** Leadership regained polls every job type again: once every loop has ended and
    the pod's tick gets the lease, each registered type has a loop at the head of its
    cycle, and the first point read of any of them before the lease's end confirms it. *)
Theorem leadership_restarts_every_loop s js js' ts t l' n
    (Hended : all_ended (sy_pod s) = true) (Halive : pd_aborted (sy_pod s) = false)
    (Hgot : ls_acquire me LEASE lease_ttl js (sy_lease s) = (l', Some n))
    (Ht : t ∈ OMap.keys (pd_handlers (sy_pod s))) (Hjs : (js' < js + lease_ttl * 1000)%Z) :
  let s1 := worker_run s [EvSettled; EvTick js] in
  (∀ x, x ∈ OMap.keys (pd_handlers (sy_pod s)) → OMap.get x (pd_loops (sy_pod s1)) = Some AtTop) ∧
  OMap.get t (pd_loops (sy_pod (worker_run s1 [EvCheck t; EvAnswer t js' ts]))) = Some (Confirmed ts).
Proof.
  set (p0 := {| pd_handlers := pd_handlers (sy_pod s); pd_isLeader := true; pd_epoch := Some n;
     pd_loopsStarted := true; pd_loops := map (λ t, (t, AtTop)) (OMap.keys (pd_handlers (sy_pod s)));
     pd_aborted := false |}).
  assert (Hs1 : worker_run s [EvSettled; EvTick js] =
    {| sy_lease := l'; sy_pod := p0; sy_log := sy_log s; sy_granted := n :: sy_granted s |}).
  { cbn. rewrite Hended, andb_true_r. destruct (pd_loopsStarted (sy_pod s)) eqn:Hst; cbn;
      rewrite Halive, Hgot; unfold tryBecomeLeader; cbn; rewrite ?Hst; cbn; unfold startLoops; cbn; by rewrite ?Halive. }
  assert (Hget : ∀ (ks : list string) x, x ∈ ks → OMap.get x (map (λ t, (t, AtTop)) ks) = Some AtTop).
  { clear. induction ks as [|k ks IH]; intros x Hx; [by apply elem_of_nil in Hx|]. cbn.
    case_bool_decide; [done|]. apply IH. set_solver. }
  cbv zeta. rewrite Hs1. split; [intros x Hx; by apply Hget|].
  cbn. rewrite (Hget _ t Ht). cbn. rewrite OMap.get_set_eq. cbn.
  rewrite (ls_acquire_held me LEASE lease_ttl js (sy_lease s) l' n js' Hgot Hjs). cbn. by rewrite OMap.get_set_eq.
Qed.

(** A shutdown leaves nothing behind: after it the pod calls for no more jobs - and when
    its loops have ended claims none -, a lease it led is nobody's by its own name, and
    unless the loops settled in time every claim it was still running has been handed back
    to its tenant's queue. *)
Theorem shutdown_leaves_nothing_held drained active s qs es e js :
  let '(s', qs') := beforeApplicationShutdown drained active s qs in
  (∃ new, sy_log (worker_run s' es) = app new (sy_log s) ∧ (∀ t ep c, LgCalled t ep c ∉ new) ∧
     (all_ended (sy_pod s) = true → ∀ t ep c, LgClaimed t ep c ∉ new)) ∧
  (pd_isLeader (sy_pod s) = true → ls_isHeld me LEASE e js (sy_lease s') = false) ∧
  (drained = false → pd_loops (sy_pod s) ≠ [] → ∀ c claim, (c, claim) ∈ active → ¬ owns me c claim qs').
Proof.
  unfold beforeApplicationShutdown. cbn [worker_step with_pod sy_pod sy_lease sy_log sy_granted pd_isLeader pd_loops].
  split_and!.
  - set (s' := {| sy_lease := _ |}). destruct (run_aborted s' es eq_refl) as (new & E & Hcall & Hcl). exists new.
    split; [exact E|]. split; [exact Hcall|]. intros Hend t ep c (rest & Hget)%Hcl. cbn in Hget.
    destruct (all_ended_In _ t Hend); congruence.
  - intros ->. apply ls_release_free.
  - intros -> Hl c claim Hin. unfold drainDispatches. cbn [pd_loops].
    destruct (pd_loops (sy_pod s)); [done|]. cbn. by apply released_not_owned.
Qed.
End worker.

(** ** Two registered types on one pod *)

Definition demo_reg (t : string) : RegisteredHandler :=
  {| rh_jobType := t; rh_ttlSeconds := 300; rh_maxAttempts := 3; rh_cpuBound := false; rh_workerModule := None |}.

Definition demo_start : System :=
  system_start [("dream", demo_reg "dream"); ("compact", demo_reg "compact")]
    {| ll_rows := ∅; ll_now := 0%Z |}.

Definition demo_run : System → list (worker_event (L:=LeaseTable)) → System := worker_run "pod-a" 30000%Z.

(** Both loops start; "compact" claims and dispatches, "dream" loses the answer of its
    point read and ends. *)
Definition demo_forked : System :=
  demo_run demo_start
    [EvTick 0%Z; EvCheck "compact"; EvAnswer "compact" 1%Z ["a"; "b"]; EvTry "compact"; EvClaimed "compact" false;
     EvTry "compact"; EvClaimed "compact" true; EvCheck "dream"; EvAnswerLost "dream"].

(** Leadership is back with the next tick; "compact" goes on polling under it. *)
Definition demo_regained : list (worker_event (L:=LeaseTable)) :=
  [EvTick 30000%Z; EvDispatched "compact"; EvCheck "compact"; EvAnswer "compact" 30001%Z [];
   EvTry "compact"; EvCheck "dream"; EvSettled; EvTick 60000%Z].

(** The one claim a shutdown may still see: the call was in flight when it came. *)
Lemma claim_in_flight_at_shutdown :
  let es := [EvTick 0%Z; EvCheck "compact"; EvAnswer "compact" 1%Z ["a"; "b"]; EvTry "compact"; EvShutdown;
             EvTry "compact"; EvClaimed "compact" true; EvTry "compact"; EvCheck "dream"] in
  head (sy_log (demo_run demo_start es)) = Some (LgClaimed "compact" (Some 1) "a") ∧
  pd_aborted (sy_pod (demo_run demo_start (take 5 es))) = true ∧ length (sy_log (demo_run demo_start (take 5 es))) = 3 ∧
  length (sy_log (demo_run demo_start es)) = 4.
Proof. by vm_compute. Qed.

Lemma loop_that_ends_alone_stays_ended_witness :
  pd_isLeader (sy_pod (demo_run demo_forked demo_regained)) = true ∧
  OMap.get "dream" (pd_loops (sy_pod (demo_run demo_forked demo_regained))) = Some Ended.
Proof.
  split; [by vm_compute|].
  apply (loop_that_ends_alone_stays_ended "pod-a" 30000%Z demo_forked demo_regained "dream" "compact").
  - by vm_compute.
  - by vm_compute.
  - vm_compute. by eexists.
  - intros k. do 9 (destruct k as [|k]; [by vm_compute|]). by vm_compute.
Defined.

(** Here the other loop ends too: its dispatch is over and the tick came too late. *)
Definition demo_over : System :=
  demo_run demo_forked [EvDispatched "compact"; EvCheck "compact"].

Lemma leadership_restarts_every_loop_witness :
  OMap.get "dream" (pd_loops (sy_pod (demo_run demo_over [EvSettled; EvTick 30000%Z]))) = Some AtTop.
Proof.
  unfold demo_run. unshelve refine (proj1 (leadership_restarts_every_loop "pod-a" 30000%Z demo_over 30000%Z 30001%Z [] "dream"
    (acquire "pod-a" LEASE (lease_ttl 30000%Z) 30000%Z (sy_lease demo_over)).1 1 _ _ _ _ _) "dream" _).
  - by vm_compute.
  - by vm_compute.
  - by vm_compute.
  - vm_compute. by left.
  - by vm_compute.
  - vm_compute. by left.
Defined.
